(* ===== verification/_CoqProject ===== *)
-Q . S2P
Prelude.v
CStd.v
UtilPure.v
LineFile.v
Limits.v
PerUser.v
PrivOps.v
PrivOpsFacts.v
IpAlloc.v
Ip6Alloc.v
RunPure.v
SpecRegistry.v
Authz.v
OMap.v
JidOwner.v
IfaceOwner.v
FwLease.v
PrivOpsNv.v
Client.v
Wire.v
Passwd.v
Sys.v
Handlers.v
Dispatch.v
DispatchFacts.v
Tenant.v
Ownership.v
Auth.v
RateLimit.v
Ws.v
Rfc3174.v
WsHandshake.v
ControlSocketPure.v
RoutesPure.v
ControlSocket.v
GuiRegistry.v
Routes.v
HubPure.v
Hub.v
Topo.v
StackPure.v
Backup.v
BackupPrune.v
RecordUpd.v
NetAddr.v
Throttle.v
AutoFw.v
ThinJail.v
SpecParts.v
Yaml.v
Spec.v
SpecParse.v
SpecSections.v
SpecFacts.v
SpecMerge.v
Ctx.v
RunNet.v
NatRules.v
Profile.v
Status.v
Wrap.v
Args.v
ArgsParse.v
ArgsFacts.v
CliMain.v
WrapCmd.v
ProfileMerge.v
Trace.v
TraceSpec.v
Mib.v
Snmpd.v
JailAudit.v
Migrate.v
VpnConf.v
Clean.v
Lifecycle.v
InterDns.v
DaemonConfig.v
Validate.v
