(* ===== verification/Prelude.v ===== *)
(** * Crate: a verified model of the FreeBSD jail manager crate

    crate runs FreeBSD jails.  Its daemon, crated (src/daemon), runs as root
    and does the privileged work for unprivileged operators: a request names a
    verb (create_jail, mount_nullfs, exec_in_jail, ...), comes in over a libnv
    Unix socket (the peer uid is known) or over HTTP (admin, JSON), is
    authorized, parsed, validated and handled, and its effect is recorded in
    registries that the next request is authorized against.  The daemon also
    serves a REST API, control sockets for groups of operators and a console
    over WebSocket.  The hub (src/hub) polls the daemons of many hosts, places
    containers and orders failovers.  The command line (src/cli, src/lib) parses
    its arguments and the YAML spec of a container, sets up the network of a run
    and takes it down again, reports what a run does to whoever started it,
    allocates addresses, orders the containers of a stack and prunes backups.
    This library models these parts from their sources, from the bytes of a
    request to the calls a process makes, and proves what they promise.

    ** The parts and their files

    Foundations:
    - Prelude.v (this file): byte strings as [list ascii], decimal numbers,
      machine widths, the error-string combinators ([ensure], [reject]; the
      empty string means success, as in the source) and the result monad.
    - CStd.v: what the sources use of the C and C++ libraries ([std::stoul],
      [std::getline], finds and splits; module Calendar: [timegm], [gmtime] and
      the hand-written [civilToEpoch]); OMap.v: [std::map] as a strictly sorted
      association list, and [std::sort] as a class with its laws.
    - UtilPure.v: src/lib/util_pure.cpp, paths, splitting, shell quoting.
    - Yaml.v: documents as yaml-cpp presents them, its conversions being
      parameters; RecordUpd.v: the notation [r <| f := v |>].

    Privileged operations, the core of the daemon:
    - Limits.v (modules Retune, Mounts): src/lib/retune_pure.cpp,
      mounts_pure.cpp.
    - PerUser.v (modules PerUserRctl, RuntimePaths, ZfsDataset, PerUserNet,
      PerUserEnv): an operator's loginclass, runtime paths, dataset prefix, sub-networks and
      their composition [composeForUid] (the files of the same names in
      src/lib, with suffix _pure.cpp).
    - PrivOps.v: src/lib/privops_pure.cpp and .h, the verbs, the request
      records and all validators; PrivOpsFacts.v: their theorems.
    - Authz.v: src/lib/privops_authz_pure.cpp, who may do what ([authorize]).
    - JidOwner.v, IfaceOwner.v, FwLease.v: the three registries
      (src/lib/jid_owner_registry*.cpp, iface_owner_registry*.cpp,
      fw_lease*.cpp): pure core, text form on disk, and the mutable object as
      a state with the file (and, for leases, the host's sysctls) it writes.
      A write or a sysctl call may fail.
    - PrivOpsNv.v, Wire.v (with module Json): both request syntaxes and the
      replies (privops_nv_pure.cpp, json_pure.cpp, privops_wire_pure.cpp); Client.v:
      the requests the client builds (privops_client_pure.cpp).
    - Passwd.v: passwd_pure.cpp, the users and groups of a jail.
    - Sys.v: the outside world.  A [World] answers queries (jails, realpath,
      files) and runs calls, each answer depending on the whole history, so
      nothing is assumed about it; a [Daemon] is the process-global state of
      src/daemon/privops_handlers.cpp plus the log of what it asked and did.
    - Handlers.v: every handle<Verb> of privops_handlers.cpp (FreeBSD branch).
    - Dispatch.v: [dispatchPrivOpFromMap] (libnv: gate, devfs ruleset claims,
      parse, validate, handle, audit, umbrella limits, registry updates) and
      [dispatchPrivOp] (HTTP), of the same file.
    - DispatchFacts.v: a small logic of the calls a computation emits.
    - Tenant.v, Ownership.v: the theorems about the whole path.

    The daemon's other planes:
    - Auth.v (lib/auth_pure.cpp, lib/pool_pure.cpp, daemon/auth.cpp) and
      RateLimit.v (daemon/rate_limit*.cpp), used by both:
    - ControlSocketPure.v, ControlSocket.v: daemon/control_socket_pure.cpp and
      control_socket.cpp, one connection from its bytes to its effects.
    - RoutesPure.v, Routes.v: daemon/routes_pure.cpp, transfer_pure.cpp and
      routes.cpp, one REST request from the matched route to its effects; module
      JailQuery of RoutesPure.v: the search of lib/jail_query.cpp by jail or
      container name, and how pools survive it.
    - Ws.v, WsHandshake.v: daemon/ws_pure.cpp and the pump of ws_console.cpp;
      Rfc3174.v: SHA-1 from the text of its RFC, a reference that is not code of
      the program.
    - DaemonConfig.v (modules SocketPerms, DaemonConfig):
      daemon/socket_perms_pure.cpp and config.cpp, [Config::load] by sections.

    Files under flock(2), and what uses them:
    - LineFile.v: a file of lines, read whole and replaced atomically, over a
      class [LineFormat] with laws; its module LeaseFile: leases of addresses in
      such a file, over a class [AddrPool]; IpAlloc.v and Ip6Alloc.v: their IPv4 and
      IPv6 instances (lib/ip_alloc_pure.cpp, network_lease.cpp,
      ip6_alloc_pure.cpp, network_lease6.cpp, the split per operator of
      run.cpp); SpecRegistry.v: lib/spec_registry*.cpp.
    - GuiRegistry.v: lib/gui_registry.cpp.

    The command line:
    - Args.v, ArgsParse.v, CliMain.v: lib/args.h with cli/args_pure.cpp
      ([Args::validate]), cli/args.cpp ([parseArguments], a [Handler] for each
      command) and cli/main.cpp (environment, restart policy and loop, exit);
      ArgsFacts.v: their theorems.
    - Profile.v, ProfileMerge.v, Wrap.v, WrapCmd.v: lib/profile_pure.cpp,
      profile.cpp, wrap_pure.cpp, wrap.cpp, named profiles with their overrides
      and launchers; module ProfileFacts of ProfileMerge.v: what an override can
      share.
    - Status.v (modules Status, StatusFd): lib/status_pure.cpp, status_fd.cpp,
      the event stream between a run and its parent.
    - Trace.v, TraceSpec.v: lib/trace_pure.cpp and trace.cpp, the lines of a
      truss(1) trace, and the spec drafted from what a program was seen to use.
    - JailAudit.v (modules Doctor, JailAudit): lib/doctor_pure.cpp,
      jail_audit_pure.cpp and jail_audit.cpp, the probe that crate audit runs in
      a jail, the checks of its output and the report.
    - Migrate.v (modules Migrate, Replicate): lib/migrate_pure.cpp, migrate.cpp,
      replicate_pure.cpp, replicate.cpp, both commands over a [World] that
      answers curl, zfs and ssh.
    - VpnConf.v (modules Wireguard, Ipsec, VpnFacts): lib/wireguard_pure.cpp,
      ipsec_pure.cpp, the files crate vpn prints.
    - Lifecycle.v: lib/lifecycle.cpp, lifecycle_pure.cpp and the pressure column
      of run_jail.cpp: stop, restart, logs and stats, over answers that are
      functions of the history; Clean.v: lib/clean.cpp with the removals of
      util.cpp, eight sweeps over a file tree with links, the registry and the
      lease files; InterDns.v: lib/inter_dns_pure.cpp, inter_dns.cpp, the hosts
      block and the zone of the running containers.

    Container specs:
    - NetAddr.v, ThinJail.v and SpecParts.v (modules Privacy, Devices,
      Compositor, VpnRuntime): the files of src/lib with the same names in snake
      case and suffix _pure.cpp (VpnRuntime: wireguard_runtime and
      ipsec_runtime).
    - Spec.v: lib/spec.h and spec_pure.cpp, the data and [Spec::validate];
      SpecParse.v, SpecSections.v: [parseSpecFromNode] of lib/spec.cpp, one
      definition per section; SpecMerge.v: copying, [preprocess] and
      [mergeSpecs]; SpecFacts.v: what the parser guarantees; Validate.v:
      lib/validate_pure.cpp and validate.cpp, the warnings, the checks of
      --strict and the command.

    The network of a run:
    - Ctx.v: lib/ctx.cpp, the files of NAT users and firewall slots; RunNet.v:
      lib/run_net.cpp, interfaces, addresses and ipfw rules as requests to
      crated or as commands, over a [World] that answers them; NatRules.v:
      which rules are added and removed; AutoFw.v, Throttle.v:
      lib/auto_fw_pure.cpp, throttle_pure.cpp, throttle.cpp.

    Run helpers, stacks, backups and the hub:
    - RunPure.v: lib/run_pure.cpp and warm_pure.cpp, names, users, timeouts.
    - Topo.v, StackPure.v: lib/stack_pure.h and .cpp, start order and networks.
    - Backup.v, BackupPrune.v: lib/backup_pure.cpp, backup_prune_pure.cpp.
    - HubPure.v, Hub.v: hub/aggregator_pure.cpp, datacenter_pure.cpp,
      scheduling_pure.cpp, ha_pure.cpp; poller.cpp, api.cpp and the schedule
      command of main.cpp.
    - Mib.v, Snmpd.v: snmpd/mib_pure.cpp, mib.cpp, the AgentX protocol and its
      dispatcher; collector.cpp, main.cpp, metrics, traps and the main loop, a
      turn of which gets the clock, the socket and the host as arguments.

    ** What the theorems show

    - Isolation (Tenant.v): with both master prefixes and the interface
      registry configured and a uid up to INT32_MAX, every call made for a tenant
      is permitted by the registries and the tenant's own prefixes (a nullfs
      source may be any host path outside the others' prefixes); exec_in_jail only enters the
      caller's registered jails and cannot become root by a passwd entry; a
      dataset serves one tenant; the command line of a new jail has arguments of
      a closed list only; a denied request does nothing; the gate and
      the handler read the same jid.
    - Authorization (Routes.v, ControlSocket.v): everything a REST request or a
      control connection changes or reveals is covered by its token or by the
      socket's group, role and pools, over all routes, for pool separators that
      cannot occur in the pid suffix of a jail's name; requests are read the
      same however they are cut up; refused clients are served after the time
      they were told (RateLimit.v, which refines an abstract limiter).
    - Ownership (Ownership.v, JidOwner.v, IfaceOwner.v): a successful create
      is recorded for the caller; the registries survive restarts while their
      writes succeed and names have no tabs; both
      halves of an epair have one owner; path lookup is longest match.
    - Validation (PrivOpsFacts.v, Limits.v): the validators decide the
      documented grammars; no rule injection.
    - Leases, networks and files (FwLease.v, LineFile.v with its instances,
      PerUser.v, SpecRegistry.v): least free slot or address, no slot or
      address held twice in any history, sysctls restored, disjoint networks
      per operator, the spec registry refines a finite map.
    - Syntax (Client.v, Wire.v, PrivOpsNv.v, Ip6Alloc.v, Ws.v, WsHandshake.v,
      Backup.v, Trace.v): round trips, bounds, a console that delivers what a
      client's frames say however they arrive, SHA-1 equal to the reference.
    - Decisions (Topo.v, BackupPrune.v, Hub.v): start orders are sound and
      complete, pruning keeps every kept stream restorable and retains what the
      policy says, failovers follow the poll history exactly, the schedule
      command moves to a least loaded node.
    - Specs (SpecFacts.v, Validate.v, SpecMerge.v, ThinJail.v): an invariant of
      every spec the parser returns, what validation then still decides, what a
      spec that --strict accepts promises, how preprocessing
      resolves the network, manifests that mount nothing over the jail's own
      layer.
    - Networks of runs (NatRules.v, Ctx.v): every rule a set-up adds is asked
      to be deleted by its clean-up, unless in root mode an ipfw delete before it
      fails, whose error is then thrown; and slots are never shared.
    - Command lines (ArgsFacts.v, CliMain.v, Status.v, WrapCmd.v): nothing
      after [--] is read, the lines the program writes for itself are
      understood, restarts end, a parent hears the first decisive event of its
      run, files of others survive crate wrap whatever fails in it, an override of a profile shares
      nothing outside its owner's home but one name beside it (ProfileMerge.v),
      the share lines of a drafted spec are what the traced program touched, when
      no name has a line break (TraceSpec.v).
    - Commands on other hosts and files for other programs (Migrate.v, VpnConf.v,
      JailAudit.v): a migration stops the source last; replication starts from a
      snapshot both sides have; validated VPN files have just the lines of what was given; a
      clean audit means a closed jail, unless a tool's output looks like a section.
    - Cleaning up and restarting (Clean.v, Lifecycle.v, InterDns.v): crate clean
      spares what is in use when the kernel lists the jails, collects the rest when nothing fails, and its dry
      run is a preview; a restart stops only what it can start again, and starts
      only what is gone and from the container's own archive or template; stop reports success exactly when the jail is gone or
      dying; the hosts file keeps the operator's text.
    - Configuration (DaemonConfig.v): what [Config::load] accepts is well-formed,
      so the planes start from validated tokens, sockets and limits.
    - Monitoring (Mib.v, Snmpd.v): every Get and GetNext request is answered in
      order, GetNext with the least object above; traps report exactly what
      changed between collections; the daemon reconnects within 32 seconds of the
      master's return, however often its loop turns.
    - Behaviour that differs from what the code means is stated as theorems
      too (uid above INT32_MAX, a tab in a jail path, NAT-mode IPv6 addresses,
      the display race, the GUI route, the pcpu overflow, a link that crate clean
      follows, anchors and overlays it takes from running jails, and others).

    ** Bounds and fuel

    Loops are structural on their input where they can be.  Fuel is proved
    enough where the code's loop is not: [dec] (the number's bit length),
    [IpAlloc.scan] ([scan_spec]), [Topo.drain] (one turn per entry,
    [topoSort_terminates]), the loops of UtilPure.v ([splitString_total],
    [substitution_terminates]), the pair loop of ControlSocketPure.v
    ([parseResourcesPatch_total]), [ControlSocket.readUntilNeedle] and
    [readExact] (every round reads a byte; [readUntilNeedle_complete]),
    [Ws.frames] (every frame takes two bytes), [GuiRegistry.firstFree]
    ([allocate_least]).  The header loops of ControlSocketPure.v and
    WsHandshake.v and [fullBlocks] of SHA-1 shorten their input each round and
    get its length.  The 65536 rounds of the IPv6 allocator are the code's own.
    [ArgsParse.loop] gets one turn per argument; [Status.entryLoop] one per
    byte; [CliMain.restartLoop] is proved to end in max_retries + 1 turns
    ([restarts_end]); [ProfileMerge.mergeNode] gets the depth of the override
    ([mergeNode_fuel]); [Trace.splitLoop] and [Trace.callEnd] the length of the
    text ([splitLoop_fuel], [callEnd_fuel]); [Mib.rangeLoop] one turn per octet
    ([rangeLoop_request]).
    [StackPure.slotLoop] leaves enough fuel to its caller as a hypothesis.
    [long] is 64-bit, [unsigned] and uids are 32-bit; signed overflow, undefined
    in C++, is modelled as two's complement.

    ** Not modelled

    Threads (each registry operation, request, connection and poll is one atomic
    step; the devfs claim, taken under its own lock, is re-checked as in the
    source), the listeners and cpp-httplib, the wrappers around ioctl, libzfs and
    exec, the inside of yaml-cpp, SQLite, the texts of the help pages, and the
    rest of the program: the orchestration of run.cpp and stack.cpp, image
    creation, GUI and VM sessions, and the texts of the inspection commands.
    crate logs -f ends in the model where its endless loop begins.

    Left for extension: crate.yml (lib/config.cpp), the files of stacks and the
    orchestration of runs. *)

From Stdlib Require Export ZArith Lia Ascii String.
From stdpp Require Export base list strings gmap numbers.
Export Datatypes list_basics.list list_relations.list list_monad.list list_misc.list.

#[global] Open Scope Z_scope.
#[global] Set Default Proof Using "Type".

(** ** Byte strings

    A [std::string] is a sequence of bytes, here [list ascii].  [str] turns a
    source literal into one. *)

Abbreviation bytes := (list ascii).

Definition str (s : string) : bytes := list_ascii_of_string s.

(** The unsigned code of a byte. *)
Definition code (c : ascii) : Z := Z.of_N (N_of_ascii c).

(** The byte of a code, as C's conversion to [unsigned char] does it. *)
Definition chr (z : Z) : ascii := ascii_of_N (Z.to_N (z mod 256)).

(** The double quote, for the JSON fragments the program builds. *)
Definition dquote : ascii := chr 34.
Definition tab : ascii := chr 9.
Definition newline : ascii := chr 10.
Definition cr : ascii := chr 13.
Definition nul : ascii := chr 0.

Definition ch_eqb (a b : ascii) : bool := Ascii.eqb a b.

(** [a == b] on strings. *)
Fixpoint beq (a b : bytes) : bool :=
  match a, b with
  | [], [] => true
  | x :: a', y :: b' => Ascii.eqb x y && beq a' b'
  | _, _ => false
  end.

(** [s.empty()] *)
Definition is_empty {A} (s : list A) : bool := match s with [] => true | _ => false end.

(** [s.size()] *)
Definition size_z {A} (s : list A) : Z := Z.of_nat (List.length s).

(** [s.back()], defined only on a non-empty string. *)
Fixpoint back {A} (s : list A) : option A :=
  match s with [] => None | [c] => Some c | _ :: t => back t end.

(** [s.back() == c] *)
Definition backIs (c : ascii) (s : bytes) : bool :=
  match back s with Some x => Ascii.eqb x c | None => false end.

(** [value.compare(0, prefix.size(), prefix) == 0], that is, a prefix test. *)
Fixpoint starts_with (prefix s : bytes) : bool :=
  match prefix, s with
  | [], _ => true
  | x :: p, y :: t => Ascii.eqb x y && starts_with p t
  | _ :: _, [] => false
  end.

(** [s.find(c, 0)]: the index of the first [c]. *)
Fixpoint find_char (c : ascii) (s : bytes) : option nat :=
  match s with
  | [] => None
  | x :: t => if Ascii.eqb x c then Some O else S <$> find_char c t
  end.

(** [s.find(c) != npos] *)
Definition has_char (c : ascii) (s : bytes) : bool := existsb (Ascii.eqb c) s.

(** [s.find(sub) != npos] *)
Fixpoint has_sub (sub s : bytes) : bool :=
  starts_with sub s || match s with [] => false | _ :: t => has_sub sub t end.

(** [s.find(sub, pos)] for a non-empty [sub]: the index of the first match. *)
Fixpoint find_sub (sub s : bytes) : option nat :=
  if starts_with sub s then Some O
  else match s with [] => None | _ :: t => S <$> find_sub sub t end.

(** Splitting on a separator byte: always at least one piece, so
    [split_on c (a ++ c :: b) = a :: split_on c b] when [a] has no [c]. *)
Fixpoint split_on (c : ascii) (s : bytes) : list bytes :=
  match s with
  | [] => [[]]
  | x :: t =>
      if Ascii.eqb x c then [] :: split_on c t
      else match split_on c t with
           | [] => [[x]]
           | w :: ws => (x :: w) :: ws
           end
  end.

(** The pieces with the separator put back in front of all but the first. *)
Definition intersperse_head (c : ascii) (l : list bytes) : list bytes :=
  match l with [] => [] | w :: ws => w :: map (cons c) ws end.

(** ** Character classes *)

Definition in_range (lo hi : ascii) (c : ascii) : bool :=
  (code lo <=? code c) && (code c <=? code hi).

Definition is_digit (c : ascii) : bool := in_range "0" "9" c.
Definition is_lower (c : ascii) : bool := in_range "a" "z" c.
Definition is_upper (c : ascii) : bool := in_range "A" "Z" c.
Definition is_alnum (c : ascii) : bool := is_lower c || is_upper c || is_digit c.
Definition is_hex (c : ascii) : bool :=
  is_digit c || in_range "a" "f" c || in_range "A" "F" c.

(** [std::isspace] in the C locale: what [istringstream >> tok] skips. *)
Definition is_space (c : ascii) : bool :=
  (code c =? 32) || ((9 <=? code c) && (code c <=? 13)).

Definition one_of (l : bytes) (c : ascii) : bool := existsb (Ascii.eqb c) l.

(** [while (iss >> tok)]: the whitespace-separated tokens, in order. *)
Fixpoint words_from (cur : bytes) (s : bytes) : list bytes :=
  match s with
  | [] => if is_empty cur then [] else [cur]
  | c :: t =>
      if is_space c
      then (if is_empty cur then [] else [cur]) ++ words_from [] t
      else words_from (cur ++ [c]) t
  end.
Definition words (s : bytes) : list bytes := words_from [] s.

(** ** Machine integers *)

Definition u8 (z : Z) : Z := z mod 2 ^ 8.
Definition u16 (z : Z) : Z := z mod 2 ^ 16.
Definition u32 (z : Z) : Z := z mod 2 ^ 32.
Definition u64 (z : Z) : Z := z mod 2 ^ 64.

(** Conversion to a signed type of [w] bits (two's complement). *)
Definition to_signed (w z : Z) : Z :=
  let m := z mod 2 ^ w in if m <? 2 ^ (w - 1) then m else m - 2 ^ w.
Definition i32 (z : Z) : Z := to_signed 32 z.
Definition i64 (z : Z) : Z := to_signed 64 z.

(** ** Decimal numbers *)

Definition digit_val (c : ascii) : Z := code c - 48.
Definition digit_chr (d : Z) : ascii := chr (48 + d).

(** The value of a digit string, most significant digit first. *)
Definition dec_value_from (acc : Z) (s : bytes) : Z :=
  fold_left (fun a c => a * 10 + digit_val c) s acc.
Definition dec_value (s : bytes) : Z := dec_value_from 0 s.

Definition all_digits (s : bytes) : bool := forallb is_digit s.

(** The printing loop: [while (n > 0) { out.insert(begin, '0' + n % 10); n /= 10; }] *)
Fixpoint dec_loop (fuel : nat) (n : Z) (out : bytes) : bytes :=
  match fuel with
  | O => out
  | S f => if n <=? 0 then out else dec_loop f (n / 10) (digit_chr (n mod 10) :: out)
  end.

(** Enough fuel for every [n]: one iteration per decimal digit, at most one
    per binary digit. *)
Definition dec_fuel (n : Z) : nat := S (Z.to_nat (Z.log2 n)).

(** [std::to_string] of a non-negative number. *)
Definition dec (n : Z) : bytes :=
  if n <=? 0 then str "0" else dec_loop (dec_fuel n) n [].

(** [std::to_string] of a signed number. *)
Definition dec_signed (n : Z) : bytes :=
  if n <? 0 then "-"%char :: dec (- n) else dec n.

(** ** Fallible results

    A parser returns [inl reason] or [inr value]; [x ← e; k] is
    [if (auto e = ...; !e.empty()) return e;]. *)

#[global] Instance result_ret : MRet (sum bytes) := fun _ => inr.
#[global] Instance result_bind : MBind (sum bytes) :=
  fun _ _ f r => match r with inl e => inl e | inr a => f a end.

Lemma result_bind_inr {A B} (f : A -> bytes + B) (r : bytes + A) (b : B) :
  r ≫= f = inr b <-> exists a, r = inr a /\ f a = inr b.
Proof. destruct r as [e|a]; cbn; [split; [done|intros (? & ? & _); done]|]. split; [eauto|intros (? & [= ->] & ?); done]. Qed.

(** ** Error strings

    Validators return an error message, empty on success; a caller writes
    [if (auto e = f(x); !e.empty()) return pre + e;]. *)

Definition guard_err (pre e k : bytes) : bytes :=
  match e with [] => k | _ => pre ++ e end.

Declare Scope crate_scope.
Delimit Scope crate_scope with crate.

Notation "'ensure' e ; k" := (guard_err [] e k)
  (at level 10, e at level 100, k at level 200) : crate_scope.
Notation "'ensure' e 'as' p ; k" := (guard_err (str p) e k)
  (at level 10, e at level 100, p at level 99, k at level 200) : crate_scope.
Notation "'reject' c 'with' m ; k" := (if c then m else k)
  (at level 10, c at level 100, m at level 100, k at level 200) : crate_scope.

#[global] Open Scope crate_scope.

(** The [for (char c : s) if (!ok(c)) return "invalid character 'c' in what"]
    loop that most validators end with. *)
Fixpoint check_chars (ok : ascii -> bool) (what : bytes) (s : bytes) : bytes :=
  match s with
  | [] => []
  | c :: t =>
      if ok c then check_chars ok what t
      else str "invalid character '" ++ [c] ++ str "' in " ++ what
  end.

(** * Lemmas *)

(** ** Finite case analysis on bytes *)

Definition all_ascii : list ascii := map (fun n => ascii_of_nat n) (List.seq 0 256).

Lemma all_ascii_complete (c : ascii) : In c all_ascii.
Proof.
  unfold all_ascii. apply in_map_iff. exists (nat_of_ascii c). split.
  - apply ascii_nat_embedding.
  - apply in_seq. pose proof (nat_ascii_bounded c). lia.
Qed.

Lemma ascii_forall (f : ascii -> bool) : forallb f all_ascii = true -> forall c, f c = true.
Proof. rewrite forallb_forall. eauto using all_ascii_complete. Qed.

Lemma ascii_implies (f g : ascii -> bool) :
  forallb (fun c => implb (f c) (g c)) all_ascii = true ->
  forall c, f c = true -> g c = true.
Proof. intros H c Hf. pose proof (ascii_forall _ H c) as Hc. cbn in Hc. by rewrite Hf in Hc. Qed.

(** Proves [forall c, f c = true -> g c = true] by evaluating all 256 bytes. *)
Ltac by_bytes := first [apply ascii_implies; vm_compute; reflexivity
                       |apply ascii_forall; vm_compute; reflexivity].

Lemma code_bound c : 0 <= code c < 256.
Proof. unfold code. pose proof (N_ascii_bounded c). lia. Qed.

Lemma chr_code c : chr (code c) = c.
Proof.
  unfold chr, code. rewrite Z.mod_small by apply code_bound.
  rewrite N2Z.id. apply ascii_N_embedding.
Qed.

Lemma code_chr z : 0 <= z < 256 -> code (chr z) = z.
Proof.
  intros Hz. unfold code, chr. rewrite Z.mod_small by done.
  rewrite N_ascii_embedding by lia. lia.
Qed.

Lemma code_inj a b : code a = code b -> a = b.
Proof. intros H. rewrite <- (chr_code a), <- (chr_code b). by rewrite H. Qed.

(** ** Strings *)

Lemma beq_eq a b : beq a b = true <-> a = b.
Proof.
  revert b. induction a as [|x a IH]; intros [|y b]; cbn; try (split; congruence).
  rewrite andb_true_iff, Ascii.eqb_eq, IH. split; [intros [-> ->]; done|intros [=]; auto].
Qed.

Lemma beq_refl a : beq a a = true.
Proof. by apply beq_eq. Qed.

Lemma beq_neq a b : beq a b = false <-> a <> b.
Proof. rewrite <- not_true_iff_false, beq_eq. done. Qed.

Lemma beq_spec a b : reflect (a = b) (beq a b).
Proof. destruct (beq a b) eqn:E; constructor; [by apply beq_eq|by apply beq_neq]. Qed.

Lemma starts_with_spec p s : starts_with p s = true <-> exists t, s = p ++ t.
Proof.
  revert s. induction p as [|x p IH]; intros s; cbn; [by split; eauto|].
  destruct s as [|y s]; [split; [done|intros [t [=]]]|].
  rewrite andb_true_iff, Ascii.eqb_eq, IH. split.
  - intros [-> [t ->]]. by eauto.
  - intros [t [= -> ->]]. by eauto.
Qed.

Lemma starts_with_app p t : starts_with p (p ++ t) = true.
Proof. apply starts_with_spec. eauto. Qed.

Lemma size_z_nil {A} (s : list A) : size_z s = 0 <-> s = [].
Proof. unfold size_z. rewrite <- length_zero_iff_nil. lia. Qed.

Lemma size_z_nonneg {A} (s : list A) : 0 <= size_z s.
Proof. unfold size_z. lia. Qed.

Lemma size_z_app {A} (a b : list A) : size_z (a ++ b) = size_z a + size_z b.
Proof. unfold size_z. rewrite length_app. lia. Qed.

Lemma size_z_cons {A} (a : A) b : size_z (a :: b) = 1 + size_z b.
Proof. unfold size_z. cbn [length]. lia. Qed.

Lemma is_empty_true {A} (s : list A) : is_empty s = true <-> s = [].
Proof. by destruct s. Qed.

Lemma is_empty_false {A} (s : list A) : is_empty s = false <-> s <> [].
Proof. by destruct s. Qed.

Lemma back_app {A} (l : list A) c : back (l ++ [c]) = Some c.
Proof. induction l as [|x l IH]; [done|]. cbn. destruct l; [done|]. exact IH. Qed.

Lemma back_Some {A} (s : list A) c : back s = Some c <-> exists l, s = l ++ [c].
Proof.
  split; [|intros [l ->]; apply back_app].
  destruct s as [|x s _] using rev_ind; [done|]. rewrite back_app. intros [= ->]. eauto.
Qed.

Lemma back_app_ne {A} (a b : list A) : b <> [] -> back (a ++ b) = back b.
Proof.
  destruct b as [|x b _] using rev_ind; [done|]. intros _.
  by rewrite app_assoc, !back_app.
Qed.

Lemma back_In {A} (s : list A) c : back s = Some c -> In c s.
Proof. intros [l ->]%back_Some. apply in_app_iff. right. by left. Qed.

Lemma back_removelast {A} (s : list A) c : back s = Some c -> s = removelast s ++ [c].
Proof. intros [l ->]%back_Some. by rewrite removelast_last. Qed.

Lemma backIs_spec c s : backIs c s = true <-> exists t, s = t ++ [c].
Proof.
  unfold backIs. destruct (back s) as [x|] eqn:E.
  - rewrite Ascii.eqb_eq. apply back_Some in E as [l ->]. split.
    + intros ->. eauto.
    + intros [t Ht]. by apply app_inj_tail in Ht as [_ ->].
  - split; [done|]. intros [t ->]. by rewrite back_app in E.
Qed.

Lemma one_of_In l c : one_of l c = true <-> In c l.
Proof.
  unfold one_of. rewrite existsb_exists. split.
  - intros (x & Hx & E). apply Ascii.eqb_eq in E. by subst.
  - intros H. exists c. by rewrite Ascii.eqb_refl.
Qed.

Lemma has_char_In c s : has_char c s = true <-> In c s.
Proof. apply one_of_In. Qed.

Lemma has_char_false c s : has_char c s = false <-> ~ In c s.
Proof. by rewrite <- not_true_iff_false, has_char_In. Qed.

(** Proves [~ In c s] for a concrete string. *)
Ltac absent := apply has_char_false; vm_compute; reflexivity.

Lemma find_char_Some c s i :
  find_char c s = Some i <-> exists a b, s = a ++ c :: b /\ length a = i /\ ~ In c a.
Proof.
  revert i. induction s as [|x s IH]; intros i; cbn [find_char].
  - split; [done|]. intros (a & b & H & _). by destruct a.
  - destruct (Ascii.eqb_spec x c) as [->|Hne].
    + split.
      * intros [= <-]. exists [], s. cbn. tauto.
      * intros (a & b & H & <- & Hn). destruct a as [|y a]; [done|].
        injection H as <- ->. cbn in Hn. tauto.
    + rewrite fmap_Some. split.
      * intros (j & Hj & ->). apply IH in Hj as (a & b & -> & <- & Hn).
        exists (x :: a), b. cbn. firstorder.
      * intros (a & b & H & <- & Hn). destruct a as [|y a]; [injection H; congruence|].
        injection H as -> ->. exists (length a). split; [|done].
        apply IH. exists a, b. cbn in Hn. tauto.
Qed.

Lemma find_char_None c s : find_char c s = None <-> ~ In c s.
Proof.
  induction s as [|x s IH]; cbn; [tauto|].
  destruct (Ascii.eqb_spec x c) as [->|Hne]; [by split; [|tauto]|].
  rewrite fmap_None, IH. tauto.
Qed.

Lemma find_char_app c a b : ~ In c a -> find_char c (a ++ c :: b) = Some (length a).
Proof. intros H. apply find_char_Some. eauto. Qed.

Lemma split_on_nosep c s : ~ In c s -> split_on c s = [s].
Proof.
  induction s as [|x s IH]; cbn; [done|]. intros H.
  destruct (Ascii.eqb_spec x c); [tauto|]. by rewrite IH by tauto.
Qed.

Lemma split_on_app c a b : ~ In c a -> split_on c (a ++ c :: b) = a :: split_on c b.
Proof.
  induction a as [|x a IH]; cbn; intros H.
  - by rewrite Ascii.eqb_refl.
  - destruct (Ascii.eqb_spec x c); [tauto|]. by rewrite IH by tauto.
Qed.

Lemma split_on_ne c s : split_on c s <> [].
Proof. destruct s as [|x s]; cbn; [done|]. destruct (Ascii.eqb x c); [done|]. by destruct (split_on c s). Qed.

Lemma split_on_pieces c s w : In w (split_on c s) -> ~ In c w.
Proof.
  revert w. induction s as [|x s IH]; cbn; intros w.
  - intros [<-|[]]. by intros [].
  - destruct (Ascii.eqb_spec x c) as [->|Hne].
    + intros [<-|H]; [by intros []|eauto].
    + destruct (split_on c s) as [|v vs]; cbn.
      * intros [<-|[]]. cbn. tauto.
      * intros [<-|H]; [|apply IH; by right].
        intros [?|H]; [done|]. by eapply (IH v); [left|].
Qed.

Lemma split_on_join c s : s = concat (intersperse_head c (split_on c s)).
Proof.
  induction s as [|x s IH]; [done|]. cbn [split_on].
  destruct (Ascii.eqb_spec x c) as [->|Hne].
  - cbn [intersperse_head]. pose proof (split_on_ne c s).
    destruct (split_on c s); [done|]. cbn. by rewrite IH.
  - pose proof (split_on_ne c s). destruct (split_on c s) as [|w ws]; [done|].
    cbn in *. destruct ws; cbn in *; by rewrite IH.
Qed.

(** ** Decimal printing and parsing *)

Lemma digit_chr_val d : 0 <= d < 10 -> digit_val (digit_chr d) = d.
Proof. intros Hd. unfold digit_val, digit_chr. rewrite code_chr; lia. Qed.

Lemma digit_chr_digit d : 0 <= d < 10 -> is_digit (digit_chr d) = true.
Proof.
  intros Hd. unfold is_digit, in_range, digit_chr. rewrite code_chr by lia.
  change (code "0") with 48. change (code "9") with 57. lia.
Qed.

Lemma is_digit_val c : is_digit c = true <-> 0 <= digit_val c < 10.
Proof.
  unfold is_digit, in_range, digit_val.
  change (code "0") with 48. change (code "9") with 57. lia.
Qed.

Lemma digit_val_chr c : is_digit c = true -> digit_chr (digit_val c) = c.
Proof. intros H. unfold digit_chr, digit_val. rewrite <- (chr_code c) at 2. f_equal. lia. Qed.

Lemma dec_value_from_app acc a b :
  dec_value_from acc (a ++ b) = dec_value_from (dec_value_from acc a) b.
Proof. apply fold_left_app. Qed.

Lemma dec_value_from_shift acc s :
  dec_value_from acc s = acc * 10 ^ size_z s + dec_value s.
Proof.
  unfold dec_value, size_z. revert acc.
  induction s as [|c s IH] using rev_ind; intros acc; [cbn; lia|].
  rewrite !dec_value_from_app, length_app. cbn [length dec_value_from fold_left].
  rewrite (IH acc). change (fold_left _ s 0) with (dec_value_from 0 s).
  rewrite Nat2Z.inj_add, Z.pow_add_r by lia. change (10 ^ Z.of_nat 1) with 10. lia.
Qed.

Lemma dec_value_bound s : all_digits s = true -> 0 <= dec_value s < 10 ^ size_z s.
Proof.
  unfold all_digits, dec_value, size_z.
  induction s as [|c s IH] using rev_ind; [cbn; lia|].
  rewrite forallb_app, andb_true_iff. cbn [forallb]. rewrite andb_true_r, is_digit_val.
  intros [H1 H2]. specialize (IH H1).
  rewrite dec_value_from_app, length_app, Nat2Z.inj_add, Z.pow_add_r by lia.
  cbn [length dec_value_from fold_left]. change (10 ^ Z.of_nat 1) with 10.
  change (fold_left _ s 0) with (dec_value_from 0 s). lia.
Qed.

Lemma dec_loop_app fuel n out : dec_loop fuel n out = dec_loop fuel n [] ++ out.
Proof.
  revert n out. induction fuel as [|f IH]; intros n out; cbn; [done|].
  destruct (n <=? 0); [done|]. rewrite IH, (IH _ [_]), <- app_assoc. done.
Qed.

Lemma dec_loop_value fuel n :
  0 <= n < 2 ^ Z.of_nat fuel -> dec_value (dec_loop fuel n []) = n.
Proof.
  unfold dec_value. revert n. induction fuel as [|f IH]; intros n Hn; cbn [dec_loop].
  - cbn. change (2 ^ Z.of_nat 0) with 1 in Hn. lia.
  - destruct (Z.leb_spec n 0); [cbn; lia|].
    rewrite dec_loop_app, dec_value_from_app, IH.
    + cbn [dec_value_from fold_left]. rewrite digit_chr_val by (apply Z.mod_pos_bound; lia).
      pose proof (Z.div_mod n 10). lia.
    + rewrite Nat2Z.inj_succ, Z.pow_succ_r in Hn by lia.
      split; [apply Z.div_pos; lia|]. apply Z.div_lt_upper_bound; lia.
Qed.

Lemma dec_loop_digits fuel n : all_digits (dec_loop fuel n []) = true.
Proof.
  revert n. induction fuel as [|f IH]; intros n; cbn; [done|].
  destruct (n <=? 0); [done|]. rewrite dec_loop_app. unfold all_digits in *.
  rewrite forallb_app, IH. cbn. rewrite digit_chr_digit; [done|].
  apply Z.mod_pos_bound. lia.
Qed.

Lemma dec_fuel_enough n : 0 < n -> n < 2 ^ Z.of_nat (dec_fuel n).
Proof.
  intros Hn. unfold dec_fuel. rewrite Nat2Z.inj_succ, Z2Nat.id by apply Z.log2_nonneg.
  by apply Z.log2_spec.
Qed.

(** [to_string] and the digit fold are inverse to each other. *)
Lemma dec_value_dec n : 0 <= n -> dec_value (dec n) = n.
Proof.
  intros Hn. unfold dec. destruct (Z.leb_spec n 0).
  - replace n with 0 by lia. done.
  - apply dec_loop_value. pose proof (dec_fuel_enough n). lia.
Qed.

Lemma dec_digits n : all_digits (dec n) = true.
Proof. unfold dec. destruct (n <=? 0); [done|]. apply dec_loop_digits. Qed.

Lemma dec_nonempty n : dec n <> [].
Proof.
  unfold dec. destruct (Z.leb_spec n 0); [done|]. unfold dec_fuel. cbn.
  destruct (Z.leb_spec n 0); [lia|]. rewrite dec_loop_app.
  intros E. apply app_eq_nil in E as [_ E]. done.
Qed.

Lemma dec_inj n m : 0 <= n -> 0 <= m -> dec n = dec m -> n = m.
Proof. intros Hn Hm E. rewrite <- (dec_value_dec n), <- (dec_value_dec m); [|done..]. by rewrite E. Qed.

Lemma dec_loop_len fuel n k :
  0 <= n < 10 ^ Z.of_nat k -> (length (dec_loop fuel n []) <= k)%nat.
Proof.
  revert n k. induction fuel as [|f IH]; intros n k Hn; cbn; [lia|].
  destruct (Z.leb_spec n 0); [cbn; lia|].
  destruct k as [|k]; [change (10 ^ Z.of_nat 0) with 1 in Hn; lia|].
  rewrite Nat2Z.inj_succ, Z.pow_succ_r in Hn by lia.
  rewrite dec_loop_app, length_app. cbn.
  specialize (IH (n / 10) k). enough (length (dec_loop f (n / 10) []) <= k)%nat by lia.
  apply IH. split; [apply Z.div_pos; lia|]. apply Z.div_lt_upper_bound; lia.
Qed.

Lemma dec_len n k : 0 <= n < 10 ^ Z.of_nat k -> (1 <= k)%nat -> (length (dec n) <= k)%nat.
Proof. intros Hn Hk. unfold dec. destruct (n <=? 0); [cbn; lia|]. by apply dec_loop_len. Qed.

(** No leading zero: the first digit of a positive number is not ['0']. *)
Lemma dec_loop_head fuel n :
  0 < n < 2 ^ Z.of_nat fuel ->
  exists c t, dec_loop fuel n [] = c :: t /\ c <> "0"%char.
Proof.
  revert n. induction fuel as [|f IH]; intros n Hn; [change (2 ^ Z.of_nat 0) with 1 in Hn; lia|].
  cbn. destruct (Z.leb_spec n 0); [lia|]. rewrite dec_loop_app.
  rewrite Nat2Z.inj_succ, Z.pow_succ_r in Hn by lia.
  destruct (Z.eq_dec (n / 10) 0) as [E|E].
  - rewrite E. destruct f; cbn; eexists _, []; (split; [done|]).
    all: intros Hc; apply (f_equal digit_val) in Hc; rewrite digit_chr_val in Hc
      by (apply Z.mod_pos_bound; lia);
      change (digit_val "0") with 0 in Hc; pose proof (Z.div_mod n 10); lia.
  - destruct (IH (n / 10)) as (c & t & -> & Hc).
    + split; [pose proof (Z.div_pos n 10); lia|]. apply Z.div_lt_upper_bound; lia.
    + exists c, (t ++ [digit_chr (n mod 10)]). done.
Qed.

Lemma dec_no_leading_zero n t : dec n = "0"%char :: t -> t = [].
Proof.
  unfold dec. destruct (Z.leb_spec n 0); [by intros [= <-]|].
  destruct (dec_loop_head (dec_fuel n) n) as (c & u & -> & Hc).
  - pose proof (dec_fuel_enough n). lia.
  - intros [= -> _]. done.
Qed.

(** Bytes that can never occur in a printed number. *)
Lemma dec_not_In n c : is_digit c = false -> ~ In c (dec n).
Proof.
  intros Hc Hin. pose proof (dec_digits n) as H. unfold all_digits in H.
  rewrite forallb_forall in H. rewrite (H c Hin) in Hc. done.
Qed.

(** The loop's result does not depend on surplus fuel. *)
Lemma dec_loop_fuel f g n :
  n < 2 ^ Z.of_nat f -> n < 2 ^ Z.of_nat g -> dec_loop f n [] = dec_loop g n [].
Proof.
  revert g n. induction f as [|f IH]; intros g n Hf Hg.
  - change (2 ^ Z.of_nat 0) with 1 in Hf. destruct g; cbn; [done|].
    by destruct (Z.leb_spec n 0); [|lia].
  - destruct g as [|g]; cbn [dec_loop].
    + change (2 ^ Z.of_nat 0) with 1 in Hg. by destruct (Z.leb_spec n 0); [|lia].
    + destruct (Z.leb_spec n 0); [done|].
      rewrite Nat2Z.inj_succ, Z.pow_succ_r in Hf, Hg by lia.
      rewrite dec_loop_app, (dec_loop_app g). f_equal.
      apply IH; apply Z.div_lt_upper_bound; lia.
Qed.

Lemma dec_digit d : 0 <= d < 10 -> dec d = [digit_chr d].
Proof.
  intros Hd. unfold dec. destruct (Z.leb_spec d 0); [by replace d with 0 by lia|].
  unfold dec_fuel. cbn [dec_loop]. destruct (Z.leb_spec d 0); [lia|].
  rewrite Z.div_small, Z.mod_small by lia. by destruct (Z.to_nat (Z.log2 d)).
Qed.

Lemma dec_snoc n d : 0 < n -> 0 <= d < 10 -> dec (n * 10 + d) = dec n ++ [digit_chr d].
Proof.
  intros Hn Hd. unfold dec at 1. destruct (Z.leb_spec (n * 10 + d) 0); [lia|].
  unfold dec_fuel. cbn [dec_loop]. destruct (Z.leb_spec (n * 10 + d) 0); [lia|].
  rewrite (Z.add_comm (n * 10)), Z.div_add, Z.mod_add, Z.div_small, Z.mod_small by lia.
  rewrite Z.add_0_l, dec_loop_app. f_equal.
  unfold dec. destruct (Z.leb_spec n 0); [lia|].
  apply dec_loop_fuel; [|apply dec_fuel_enough; lia].
  rewrite Z2Nat.id by apply Z.log2_nonneg.
  pose proof (Z.log2_spec n Hn) as [_ Hlog]. eapply Z.lt_le_trans; [exact Hlog|].
  apply Z.pow_le_mono_r; [lia|]. rewrite <- Z.log2_double by lia. apply Z.log2_le_mono. lia.
Qed.

Lemma dec_value_snoc s c : dec_value (s ++ [c]) = dec_value s * 10 + digit_val c.
Proof. unfold dec_value. by rewrite dec_value_from_app. Qed.

(** A digit string without leading zeros is what [to_string] prints for its value. *)
Lemma dec_of_value s :
  s <> [] -> forallb is_digit s = true -> (1 < size_z s -> starts_with (str "0") s = false) ->
  s = dec (dec_value s).
Proof.
  induction s as [|c s IH] using rev_ind; [done|]. intros _ Hd Hz.
  rewrite forallb_app, andb_true_iff in Hd. destruct Hd as [Hd Hc]. cbn in Hc.
  rewrite andb_true_r in Hc. pose proof Hc as Hv. apply is_digit_val in Hv.
  rewrite dec_value_snoc. rewrite <- (digit_val_chr c Hc) at 1.
  destruct s as [|d s]; [cbn [dec_value dec_value_from fold_left app]; by rewrite dec_digit|].
  assert (Hz' : starts_with (str "0") (d :: s) = false).
  { assert (starts_with (str "0") ((d :: s) ++ [c]) = false) as H0; [|done].
    apply Hz. rewrite size_z_app, size_z_cons, (size_z_cons c).
    pose proof (size_z_nonneg s). pose proof (size_z_nonneg (@nil ascii)). lia. }
  specialize (IH ltac:(done) Hd (fun _ => Hz')).
  pose proof (dec_value_bound _ Hd) as [Hge _].
  destruct (Z.eq_dec (dec_value (d :: s)) 0) as [E|E]; [|by rewrite dec_snoc, <- IH by lia].
  rewrite E in IH. rewrite IH in Hz'. done.
Qed.

(** ** Error strings *)

Lemma guard_err_nil pre e k : guard_err pre e k = [] <-> e = [] /\ k = [].
Proof.
  destruct e; cbn; [tauto|]. split; [|by intros [? _]].
  intros H. by apply app_eq_nil in H as [_ H].
Qed.

Lemma check_chars_nil ok what s : check_chars ok what s = [] <-> forallb ok s = true.
Proof.
  induction s as [|c s IH]; cbn; [done|]. destruct (ok c); cbn; [done|].
  split; [|done]. intros H. discriminate H.
Qed.

Lemma reject_nil (c : bool) (m k : bytes) :
  m <> [] -> (if c then m else k) = [] <-> c = false /\ k = [].
Proof. destruct c; firstorder congruence. Qed.

(** Decomposes [validator = []] into the conjunction of what it checked. *)
Ltac ok_split H :=
  repeat first
    [ rewrite guard_err_nil in H
    | rewrite check_chars_nil in H
    | rewrite reject_nil in H by (cbn; discriminate)
    | rewrite andb_false_iff in H
    | rewrite orb_false_iff in H ].

Create HintDb crate.
Create Rewrite HintDb crate.
#[export] Hint Resolve size_z_nonneg dec_digits dec_nonempty starts_with_app beq_refl : crate.
#[export] Hint Rewrite @size_z_app @size_z_cons : crate.

(** Or-ing in what lies below a multiple of a power of two adds it. *)
Lemma lor_below x y k : 0 <= k -> 0 <= y < 2 ^ k -> Z.lor (x * 2 ^ k) y = x * 2 ^ k + y.
Proof.
  intros Hk Hy. rewrite <- Z.add_nocarry_lor; [done|]. apply Z.bits_inj'. intros i Hi.
  rewrite Z.land_spec, Z.bits_0. destruct (Z.ltb_spec i k).
  - by rewrite Z.mul_pow2_bits_low by lia.
  - rewrite andb_comm. replace y with (y mod 2 ^ k) by (apply Z.mod_small; lia).
    by rewrite Z.mod_pow2_bits_high by lia.
Qed.
