(* ===== verification/CStd.v ===== *)
(** * The C and C++ library: text, numbers and time *)

From S2P Require Import Prelude.

(** ** The C and C++ library functions the pure modules call

    [std::stoul] and [std::stol] with their end positions, C strings,
    [std::getline] loops, case folding, and [std::sort]-independent list
    helpers.  Each follows the C++ standard in the C locale. *)


Module CStd.

(** ** Numbers *)

Definition ulongMax : Z := 2 ^ 64 - 1.
Definition longMax : Z := 2 ^ 63 - 1.
Definition longMin : Z := - 2 ^ 63.

(** Leading white space, as [strtoul] skips it. *)
Fixpoint skipSpace (s : bytes) : bytes :=
  match s with c :: t => if is_space c then skipSpace t else s | [] => [] end.

(** The longest prefix whose bytes all satisfy [p], and the rest. *)
Fixpoint span (p : ascii -> bool) (s : bytes) : bytes * bytes :=
  match s with
  | c :: t => if p c then let '(d, r) := span p t in (c :: d, r) else ([], s)
  | [] => ([], [])
  end.

(** The sign of a number: [-] or [+] or none. *)
Definition sign (s : bytes) : bool * bytes :=
  match s with
  | c :: t => if Ascii.eqb c "-" then (true, t)
              else if Ascii.eqb c "+" then (false, t) else (false, s)
  | [] => (false, s)
  end.

(** [std::stoul(s, &pos)]: the value and [pos].  Leading white space, an
    optional sign, then digits; [None] is the exception (no digit, or past
    [ULONG_MAX]).  A minus sign negates modulo 2^64. *)
Definition stoulPos (s : bytes) : option (Z * nat) :=
  let '(neg, s2) := sign (skipSpace s) in
  let '(digits, rest) := span is_digit s2 in
  if is_empty digits then None
  else if ulongMax <? dec_value digits then None
  else Some (if neg then u64 (- dec_value digits) else dec_value digits,
             (length s - length rest)%nat).

(** [std::stol(s, &pos)] and [std::stoll]: signed, [None] outside 64 bits. *)
Definition stolPos (s : bytes) : option (Z * nat) :=
  let '(neg, s2) := sign (skipSpace s) in
  let '(digits, rest) := span is_digit s2 in
  let v := if neg then - dec_value digits else dec_value digits in
  if is_empty digits then None
  else if (longMax <? v) || (v <? longMin) then None
  else Some (v, (length s - length rest)%nat).

(** [std::stoi(s)]: [None] is the exception. *)
Definition stoi (s : bytes) : option Z :=
  match stolPos s with
  | Some (v, _) => if (2 ^ 31 - 1 <? v) || (v <? - 2 ^ 31) then None else Some v
  | None => None
  end.

(** ** Strings *)

(** [s.c_str()] as a C function reads it: up to the first NUL. *)
Definition cstr (s : bytes) : bytes := fst (span (fun c => negb (Ascii.eqb c nul)) s).

(** Drops an empty last piece. *)
Fixpoint dropLastEmpty (l : list bytes) : list bytes :=
  match l with
  | [] => []
  | [w] => if is_empty w then [] else [w]
  | w :: t => w :: dropLastEmpty t
  end.

(** [while (std::getline(is, line))]: the lines; what follows the last newline
    is a line only when it is not empty. *)
Definition getlines (s : bytes) : list bytes := dropLastEmpty (split_on newline s).

(** [s.substr(pos)] *)
Definition substr_from (pos : nat) (s : bytes) : bytes := drop pos s.

(** [s.size() >= suf.size() && s.compare(s.size() - suf.size(), suf.size(), suf) == 0] *)
Definition ends_with (suf s : bytes) : bool := starts_with (rev suf) (rev s).

(** [s.rfind(sub)]: the index of the last match. *)
Fixpoint rfind_sub (sub s : bytes) : option nat :=
  match s with
  | [] => if starts_with sub [] then Some O else None
  | _ :: t =>
      match rfind_sub sub t with
      | Some i => Some (S i)
      | None => if starts_with sub s then Some O else None
      end
  end.

(** [sep] between the items. *)
Fixpoint joined (sep : bytes) (l : list bytes) : bytes :=
  match l with
  | [] => []
  | [x] => x
  | x :: rest => x ++ sep ++ joined sep rest
  end.

(** [std::tolower], [std::toupper] *)
Definition tolower (c : ascii) : ascii := if is_upper c then chr (code c + 32) else c.
Definition toupper (c : ascii) : ascii := if is_lower c then chr (code c - 32) else c.

(** * Lemmas *)

Lemma span_all p s : forallb p s = true -> span p s = (s, []).
Proof.
  induction s as [|c s IH]; cbn [forallb span]; [done|].
  intros [Hc Hs]%andb_true_iff. by rewrite Hc, IH.
Qed.

Lemma span_stop p a c r :
  forallb p a = true -> p c = false -> span p (a ++ c :: r) = (a, c :: r).
Proof.
  intros Ha Hc. induction a as [|x a IH]; cbn [app span]; [by rewrite Hc|].
  cbn [forallb] in Ha. apply andb_true_iff in Ha as [Hx Ha]. by rewrite Hx, IH.
Qed.

Lemma span_spec p s a r :
  span p s = (a, r) ->
  s = a ++ r /\ forallb p a = true /\ (forall c t, r = c :: t -> p c = false).
Proof.
  revert a r. induction s as [|c s IH]; cbn [span]; intros a r.
  - by intros [= <- <-].
  - destruct (p c) eqn:Hc.
    + destruct (span p s) as [d u] eqn:E. intros [= <- <-].
      destruct (IH d u eq_refl) as (-> & Hd & Hr). cbn. by rewrite Hc.
    + intros [= <- <-]. split; [done|]. split; [done|]. by intros ? ? [= <- <-].
Qed.

Lemma cstr_no_nul s : ~ In nul s -> cstr s = s.
Proof.
  intros H. unfold cstr. rewrite span_all; [done|]. apply forallb_forall.
  intros c Hc. apply negb_true_iff, Ascii.eqb_neq. by intros ->.
Qed.

Lemma is_digit_not_space c : is_digit c = true -> is_space c = false.
Proof. intros H. apply negb_true_iff. revert c H. by_bytes. Qed.

Lemma is_digit_not_sign c : is_digit c = true -> (Ascii.eqb c "-" || Ascii.eqb c "+") = false.
Proof. intros H. apply negb_true_iff. revert c H. by_bytes. Qed.

(** A plain decimal is skipped over by neither the space nor the sign step. *)
Lemma number_start s :
  all_digits s = true -> s <> [] -> sign (skipSpace s) = (false, s).
Proof.
  unfold all_digits. destruct s as [|c s]; [done|]. cbn [forallb]. intros [Hc _]%andb_true_iff _.
  cbn [skipSpace]. rewrite is_digit_not_space by done. unfold sign.
  pose proof (is_digit_not_sign c Hc) as [-> ->]%orb_false_iff. done.
Qed.

Lemma stoulPos_digits s :
  all_digits s = true -> s <> [] -> dec_value s <= ulongMax ->
  stoulPos s = Some (dec_value s, length s).
Proof.
  intros Hd Hne Hv. unfold stoulPos. rewrite number_start, span_all by done.
  destruct (Z.ltb_spec ulongMax (dec_value s)); [lia|]. destruct s; [done|].
  cbn [is_empty]. by rewrite Nat.sub_0_r.
Qed.

Lemma stolPos_digits s :
  all_digits s = true -> s <> [] -> dec_value s <= longMax ->
  stolPos s = Some (dec_value s, length s).
Proof.
  intros Hd Hne Hv. unfold stolPos. rewrite number_start, span_all by done.
  pose proof (dec_value_bound s Hd) as [H0 _]. unfold longMin.
  destruct (Z.ltb_spec longMax (dec_value s)); [lia|].
  destruct (Z.ltb_spec (dec_value s) (- 2 ^ 63)); [lia|]. destruct s; [done|].
  cbn [is_empty orb]. by rewrite Nat.sub_0_r.
Qed.

Lemma dropLastEmpty_spec l :
  (dropLastEmpty l = l /\ (forall t, l <> t ++ [[]])) \/ l = dropLastEmpty l ++ [[]].
Proof.
  induction l as [|w l IH]; [left; split; [done|]; by intros []|].
  destruct l as [|v l].
  - cbn. destruct w as [|x w]; cbn; [by right|]. left. split; [done|].
    intros [|y t] [=]. by destruct t.
  - change (dropLastEmpty (w :: v :: l)) with (w :: dropLastEmpty (v :: l)).
    destruct IH as [[-> H]|H]; [left|right].
    + split; [done|]. intros [|y t] [= -> E]. by eapply H.
    + cbn. by f_equal.
Qed.

Lemma getlines_cons a b : ~ In newline a -> getlines (a ++ newline :: b) = a :: getlines b.
Proof.
  intros H. unfold getlines. rewrite split_on_app by done. cbn.
  pose proof (split_on_ne newline b). by destruct (split_on newline b).
Qed.

Lemma getlines_In s w : In w (getlines s) -> ~ In newline w.
Proof.
  unfold getlines. intros H. apply (split_on_pieces newline s).
  destruct (dropLastEmpty_spec (split_on newline s)) as [[<- _]| -> ]; [done|].
  apply in_app_iff. by left.
Qed.

Lemma getlines_nosep s : ~ In newline s -> s <> [] -> getlines s = [s].
Proof. intros H Hne. unfold getlines. rewrite split_on_nosep by done. by destruct s. Qed.

(** Reading back lines that were written one per newline. *)
Lemma getlines_concat ls :
  Forall (fun l => ~ In newline l) ls -> getlines (concat (map (fun l => l ++ [newline]) ls)) = ls.
Proof.
  induction 1 as [|l ls Hl _ IH]; [done|]. cbn [map concat]. rewrite <- app_assoc.
  cbn [app]. by rewrite getlines_cons, IH.
Qed.

Lemma ends_with_spec suf s : ends_with suf s = true <-> exists t, s = t ++ suf.
Proof.
  unfold ends_with. rewrite starts_with_spec. split; intros [t Ht].
  - exists (rev t). apply (f_equal (@rev ascii)) in Ht.
    by rewrite rev_involutive, rev_app_distr, rev_involutive in Ht.
  - exists (rev t). by rewrite Ht, rev_app_distr.
Qed.

(** A decidable fact about a small range, by evaluation. *)
Lemma below_forall (n : nat) (f : Z -> bool) z :
  forallb (fun k => f (Z.of_nat k)) (seq 0 n) = true -> 0 <= z < Z.of_nat n -> f z = true.
Proof.
  rewrite forallb_forall. intros H Hz. specialize (H (Z.to_nat z)). rewrite Z2Nat.id in H by lia.
  apply H, in_seq. lia.
Qed.

Lemma rfind_sub_last sub a d :
  sub <> [] -> rfind_sub sub (tail (sub ++ d)) = None -> rfind_sub sub (a ++ sub ++ d) = Some (length a).
Proof.
  intros Hne H. induction a as [|x a IH]; [|cbn [app rfind_sub]; by rewrite IH].
  cbn [app length]. destruct sub as [|y sub]; [done|]. cbn [tail app] in *. cbn [rfind_sub].
  rewrite H. change (y :: sub ++ d) with ((y :: sub) ++ d). by rewrite starts_with_app.
Qed.

Lemma rfind_sub_none x sub d : In x sub -> ~ In x d -> rfind_sub sub d = None.
Proof.
  intros Hx. induction d as [|y d IH]; intros Hd; cbn [rfind_sub].
  - by destruct sub.
  - rewrite IH by (cbn in Hd; tauto). destruct (starts_with sub (y :: d)) eqn:E; [|done].
    apply starts_with_spec in E as [t E]. exfalso. apply Hd. rewrite E. apply in_app_iff. by left.
Qed.

(** *** The first element *)

Lemma find_first {A} (f : A -> bool) l x :
  List.find f l = Some x <-> exists a b, l = a ++ x :: b /\ f x = true /\ Forall (fun y => f y = false) a.
Proof.
  induction l as [|y l IH]; cbn [List.find].
  - split; [done|]. intros ([] & ? & [=] & _).
  - destruct (f y) eqn:Hy.
    + split.
      * intros [= ->]. by exists [], l.
      * intros (a & b & E & Hx & Ha). destruct a as [|z a]; injection E as -> ->; [done|].
        apply Forall_cons in Ha as [? _]. congruence.
    + rewrite IH. split.
      * intros (a & b & -> & Hx & Ha). exists (y :: a), b. split; [done|]. split; [done|]. by constructor.
      * intros (a & b & E & Hx & Ha). destruct a as [|z a]; injection E as -> ->; [congruence|].
        apply Forall_cons in Ha as [_ ?]. eauto.
Qed.

(** *** The first occurrence *)

Lemma find_sub_bound sub s i : find_sub sub s = Some i -> (i + length sub <= length s)%nat.
Proof.
  revert i. induction s as [|c s IH]; intros i; cbn [find_sub].
  - destruct (starts_with sub []) eqn:E; [|done]. intros [= <-]. apply starts_with_spec in E as [t E]. destruct sub; done.
  - destruct (starts_with sub (c :: s)) eqn:E.
    + intros [= <-]. apply starts_with_spec in E as [t ->]. rewrite length_app. lia.
    + destruct (find_sub sub s) as [j|]; [|done]. intros [= <-]. specialize (IH j eq_refl). cbn [length]. lia.
Qed.

Lemma has_sub_find sub s : has_sub sub s = match find_sub sub s with Some _ => true | None => false end.
Proof.
  induction s as [|c s IH]; cbn [has_sub find_sub]; [by destruct (starts_with sub [])|].
  destruct (starts_with sub (c :: s)); [done|]. cbn [orb]. rewrite IH. by destruct (find_sub sub s).
Qed.

(** Where a needle first ends does not depend on what follows. *)
Lemma find_sub_first_end sub a b i : find_sub sub (a ++ b) = Some i -> (i + length sub <= length a)%nat -> find_sub sub a = Some i.
Proof.
  revert i. induction a as [|c a IH]; intros i.
  - cbn [app length]. intros H Hl. assert (length sub = 0%nat) by lia. destruct sub; [|done]. assert (i = 0%nat) as -> by lia. done.
  - cbn [app find_sub]. destruct (starts_with sub (c :: a ++ b)) eqn:E.
    + intros [= <-] Hl. enough (starts_with sub (c :: a) = true) as -> by done.
      apply starts_with_spec in E as [r E]. apply starts_with_spec. exists (drop (length sub) (c :: a)).
      change (c :: a ++ b) with ((c :: a) ++ b) in E. rewrite <- (take_drop (length sub) (c :: a)) at 1. f_equal.
      apply (f_equal (take (length sub))) in E. rewrite take_app_length, take_app_le in E by (cbn [length] in *; lia). done.
    + destruct (find_sub sub (a ++ b)) as [j|] eqn:F; [|done]. intros [= <-] Hl. cbn [length] in Hl.
      assert (starts_with sub (c :: a) = false) as ->.
      { apply not_true_iff_false. intros [r Er]%starts_with_spec. apply not_true_iff_false in E. apply E.
        change (c :: a ++ b) with ((c :: a) ++ b). rewrite Er, <- app_assoc. apply starts_with_app. }
      by rewrite (IH j eq_refl) by lia.
Qed.

Lemma find_sub_app sub a b i : find_sub sub a = Some i -> find_sub sub (a ++ b) = Some i.
Proof.
  revert i. induction a as [|c a IH]; intros i; cbn [find_sub].
  - destruct (starts_with sub []) eqn:E; [|done]. intros [= <-]. apply starts_with_spec in E as [r E]. destruct sub; [|done].
    by destruct b.
  - destruct (starts_with sub (c :: a)) eqn:E.
    + intros [= <-]. cbn [app find_sub]. apply starts_with_spec in E as [r E].
      change (c :: a ++ b) with ((c :: a) ++ b). by rewrite E, <- app_assoc, starts_with_app.
    + destruct (find_sub sub a) as [j|] eqn:F; [|done]. intros [= <-]. cbn [app find_sub]. rewrite (IH j eq_refl).
      destruct (starts_with sub (c :: a ++ b)) eqn:E'; [|done]. exfalso. apply find_sub_bound in F.
      enough (find_sub sub (c :: a) = Some 0%nat) as G by (cbn [find_sub] in G; rewrite E in G; by destruct (find_sub sub a)).
      apply (find_sub_first_end sub (c :: a) b); [cbn [app find_sub]; by rewrite E'|cbn [length]; lia].
Qed.

End CStd.

(** ** Dates: the calendar arithmetic of backup names and token expiry

    [civilToEpoch] is lib/backup_prune_pure.cpp's own date arithmetic;
    [timegm], [gmtime] and the one [strftime] format are libc's, on the
    proleptic Gregorian calendar. *)


Module Calendar.

(** ** libc *)

(** Days from 1970-01-01 to the first day of a month (0-based). *)
Definition leapDays (y : Z) : Z := y / 4 - y / 100 + y / 400.
Definition isLeap (y : Z) : bool :=
  (y mod 4 =? 0) && (negb (y mod 100 =? 0) || (y mod 400 =? 0)).
Definition monthDays : list Z := [0; 31; 59; 90; 120; 151; 181; 212; 243; 273; 304; 334].
Definition daysBefore (y mon : Z) : Z :=
  365 * (y - 1970) + (leapDays (y - 1) - leapDays 1969)
  + default 0 (monthDays !! Z.to_nat mon) + (if (2 <=? mon) && isLeap y then 1 else 0).

(** [timegm] of fields whose month is in range: days, hours, minutes and
    seconds are added up, so that February 31st is March 3rd. *)
Definition timegm (year mon mday hour min sec : Z) : Z :=
  ((daysBefore year mon + (mday - 1)) * 24 + hour) * 3600 + min * 60 + sec.

Record Tm := { tm_year : Z; tm_mon : Z; tm_mday : Z; tm_hour : Z; tm_min : Z; tm_sec : Z }.

(** Year, month (1..12) and day of a day number, by eras of 400 years that
    begin in March. *)
Definition civilFromDays (days : Z) : Z * Z * Z :=
  let z := days + 719468 in
  let era := z / 146097 in
  let doe := z mod 146097 in
  let yoe := (doe - doe / 1460 + doe / 36524 - doe / 146096) / 365 in
  let doy := doe - (365 * yoe + yoe / 4 - yoe / 100) in
  let mp := (5 * doy + 2) / 153 in
  let d := doy - (153 * mp + 2) / 5 + 1 in
  let m := if mp <? 10 then mp + 3 else mp - 9 in
  (yoe + era * 400 + (if m <=? 2 then 1 else 0), m, d).

(** [gmtime_r]; the year is the calendar year, not [tm_year]'s offset. *)
Definition gmtime (epoch : Z) : Tm :=
  let '(y, m, d) := civilFromDays (epoch / 86400) in
  let s := epoch mod 86400 in
  {| tm_year := y; tm_mon := m - 1; tm_mday := d; tm_hour := s / 3600; tm_min := s mod 3600 / 60; tm_sec := s mod 60 |}.

Definition pad2 (n : Z) : bytes := [digit_chr (n / 10); digit_chr (n mod 10)].
(** [%Y] of a year of four digits. *)
Definition pad4 (n : Z) : bytes := pad2 (n / 100) ++ pad2 (n mod 100).

(** [strftime(buf, n, "%Y-%m-%dT%H:%M:%SZ", &tm)] *)
Definition strftimeIso (t : Tm) : bytes :=
  (if tm_year t <? 1000 then dec (tm_year t) else if tm_year t <? 10000 then pad4 (tm_year t) else dec (tm_year t))
  ++ str "-" ++ pad2 (tm_mon t + 1) ++ str "-" ++ pad2 (tm_mday t)
  ++ str "T" ++ pad2 (tm_hour t) ++ str ":" ++ pad2 (tm_min t) ++ str ":" ++ pad2 (tm_sec t) ++ str "Z".

(** ** backup_prune_pure.cpp *)

(** [civilToEpoch], in C's integer arithmetic (division truncates). *)
Definition civilToEpoch (y m d hh mm ss : Z) : Z :=
  let y := if m <=? 2 then y - 1 else y in
  let era := Z.quot (if 0 <=? y then y else y - 399) 400 in
  let yoe := y - era * 400 in
  let doy := Z.quot (153 * (m + (if 2 <? m then -3 else 9)) + 2) 5 + d - 1 in
  let doe := yoe * 365 + yoe / 4 - yoe / 100 + doy in
  let days := era * 146097 + doe - 719468 in
  days * 86400 + hh * 3600 + mm * 60 + ss.

(** * Theorems *)

Ltac dates := Z.to_euclidean_division_equations; lia.

(** The era arithmetic on non-negative years, with floor divisions. *)
Definition daysOf (y m d : Z) : Z :=
  let y' := if m <=? 2 then y - 1 else y in
  y' / 400 * 146097
  + (y' mod 400 * 365 + y' mod 400 / 4 - y' mod 400 / 100
     + ((153 * (m + (if 2 <? m then -3 else 9)) + 2) / 5 + d - 1)) - 719468.

Lemma civilToEpoch_days y m d hh mm ss :
  1 <= y -> 1 <= m <= 12 ->
  civilToEpoch y m d hh mm ss = daysOf y m d * 86400 + hh * 3600 + mm * 60 + ss.
Proof.
  intros Hy Hm. unfold civilToEpoch, daysOf. cbv zeta.
  set (y' := if m <=? 2 then y - 1 else y).
  assert (0 <= y') by (unfold y'; destruct (m <=? 2); lia).
  destruct (Z.leb_spec 0 y'); [|lia]. rewrite (Z.quot_div_nonneg y') by lia.
  rewrite Z.quot_div_nonneg by (destruct (Z.ltb_spec 2 m); lia).
  replace (y' - y' / 400 * 400) with (y' mod 400) by (rewrite Z.mod_eq; lia).
  lia.
Qed.

(** An era of 400 years has 97 leap days. *)
Lemma era_days w : w / 400 * 146097 + (w mod 400 * 365 + w mod 400 / 4 - w mod 400 / 100) = 365 * w + leapDays w.
Proof. unfold leapDays. dates. Qed.

Lemma leap_step y : leapDays y = leapDays (y - 1) + if isLeap y then 1 else 0.
Proof.
  unfold leapDays, isLeap.
  destruct (Z.eqb_spec (y mod 4) 0), (Z.eqb_spec (y mod 100) 0), (Z.eqb_spec (y mod 400) 0);
    cbn [negb andb orb]; dates.
Qed.

(** The days of the months before [m], counted from March and from January. *)
Lemma month_offset m :
  1 <= m <= 12 ->
  (153 * (m + (if 2 <? m then -3 else 9)) + 2) / 5
  = default 0 (monthDays !! Z.to_nat (m - 1)) + if m <=? 2 then 306 else -59.
Proof.
  intros Hm.
  assert (m = 1 \/ m = 2 \/ m = 3 \/ m = 4 \/ m = 5 \/ m = 6 \/ m = 7 \/ m = 8 \/ m = 9 \/ m = 10 \/ m = 11 \/ m = 12) as Hc by lia.
  destruct Hc as [->|[->|[->|[->|[->|[->|[->|[->|[->|[->|[->| ->]]]]]]]]]]]; reflexivity.
Qed.

Lemma daysOf_before y m d : 1 <= m <= 12 -> daysOf y m d = daysBefore y (m - 1) + (d - 1).
Proof.
  intros Hm. unfold daysOf, daysBefore. rewrite month_offset by done.
  pose proof (era_days (y - 1)) as E1. pose proof (era_days y) as E2.
  pose proof (leap_step y) as El. change (leapDays 1969) with 477.
  destruct (Z.leb_spec m 2), (Z.leb_spec 2 (m - 1)), (isLeap y); cbn [andb]; lia.
Qed.

(** The hand-written [civilToEpoch] that dates backups agrees with libc's
    [timegm] for every date from the year 1 on, day overflow included. *)
Theorem civilToEpoch_is_timegm y m d hh mm ss :
  1 <= y -> 1 <= m <= 12 -> civilToEpoch y m d hh mm ss = timegm y (m - 1) d hh mm ss.
Proof.
  intros Hy Hm. rewrite civilToEpoch_days, daysOf_before by lia. unfold timegm. lia.
Qed.

Lemma civilToEpoch_is_timegm_witness :
  civilToEpoch 2024 2 30 0 0 60 = timegm 2024 1 30 0 0 60 /\ civilToEpoch 2024 2 30 0 0 60 = 1709251260.
Proof. split; [apply civilToEpoch_is_timegm; lia|vm_compute; reflexivity]. Defined.

(** The date of a day number: in range, and its day number is the one given. *)
Lemma civilFromDays_inv days y m d :
  0 <= days -> civilFromDays days = (y, m, d) ->
  1970 <= y /\ 1 <= m <= 12 /\ 1 <= d <= 31 /\ daysOf y m d = days /\ (days < 2932897 -> y <= 9999).
Proof.
  intros Hd. unfold civilFromDays. cbv zeta. set (z := days + 719468). set (era := z / 146097).
  set (doe := z mod 146097). set (yoe := (doe - doe / 1460 + doe / 36524 - doe / 146096) / 365).
  set (doy := doe - (365 * yoe + yoe / 4 - yoe / 100)).
  set (mp := (5 * doy + 2) / 153).
  assert (Hdoe : 0 <= doe < 146097) by (apply Z.mod_pos_bound; lia).
  assert (Hz : z = era * 146097 + doe) by (unfold era, doe; pose proof (Z.div_mod z 146097); lia).
  assert (Hyoe : 0 <= yoe < 400 /\ 0 <= doy <= 365) by (subst doy yoe; clearbody doe; dates).
  assert (Hmp : 0 <= mp <= 11 /\ 1 <= doy - (153 * mp + 2) / 5 + 1 <= 31) by (subst mp; clearbody doy; dates).
  set (m0 := if mp <? 10 then mp + 3 else mp - 9). intros [= <- <- <-].
  assert (Hera : 4 <= era) by (clearbody doe; lia).
  assert (Hm0 : (1 <= m0 <= 2 /\ mp = m0 + 9 /\ 306 <= doy) \/ (2 < m0 <= 12 /\ mp = m0 - 3)).
  { unfold m0. destruct (Z.ltb_spec mp 10); [right; lia|left]. split; [lia|]. split; [lia|].
    subst mp. clearbody doy. dates. }
  assert (Hdoedef : doe = 365 * yoe + yoe / 4 - yoe / 100 + doy) by (unfold doy; lia).
  clearbody m0 mp doy yoe doe era.
  destruct (Z.leb_spec m0 2) as [Hle|Hgt].
  - destruct Hm0 as [(H1 & -> & Hdoy)|]; [|lia].
    split; [|split; [|split; [|split]]]; [dates|lia|lia| |dates].
    unfold daysOf. destruct (Z.leb_spec m0 2); [|lia]. destruct (Z.ltb_spec 2 m0); [lia|].
    replace (yoe + era * 400 + 1 - 1) with (yoe + era * 400) by lia.
    rewrite Z.div_add, Z.mod_add, (Z.div_small yoe), (Z.mod_small yoe) by lia. lia.
  - destruct Hm0 as [|[Hr ->]]; [lia|].
    split; [|split; [|split; [|split]]]; [dates|lia|lia| |dates].
    unfold daysOf. destruct (Z.leb_spec m0 2); [lia|]. destruct (Z.ltb_spec 2 m0); [|lia].
    rewrite Z.add_0_r, Z.div_add, Z.mod_add, (Z.div_small yoe), (Z.mod_small yoe) by lia.
    change (m0 + -3) with (m0 - 3). lia.
Qed.

(** Everything [gmtime] promises about an epoch up to the year 9999. *)
Lemma gmtime_ok e :
  0 <= e < 253402300800 ->
  let t := gmtime e in
  1970 <= tm_year t <= 9999 /\ 0 <= tm_mon t <= 11 /\ 1 <= tm_mday t <= 31 /\ 0 <= tm_hour t <= 23 /\
  0 <= tm_min t <= 59 /\ 0 <= tm_sec t <= 59 /\
  civilToEpoch (tm_year t) (tm_mon t + 1) (tm_mday t) (tm_hour t) (tm_min t) (tm_sec t) = e.
Proof.
  intros He. unfold gmtime. destruct (civilFromDays (e / 86400)) as [[y m] d] eqn:E. cbv zeta.
  cbn [tm_year tm_mon tm_mday tm_hour tm_min tm_sec].
  apply civilFromDays_inv in E as (Hy & Hm & Hd & Hdays & Hmax); [|apply Z.div_pos; lia].
  assert (y <= 9999) by (apply Hmax; apply Z.div_lt_upper_bound; lia).
  replace (m - 1 + 1) with m by lia. rewrite civilToEpoch_days, Hdays by lia.
  clear Hdays Hmax. repeat split; try lia; dates.
Qed.

End Calendar.
