(* ===== verification/UtilPure.v ===== *)
(** * String helpers: lib/util_pure.cpp

    Path names, splitting, numbers, shell quoting and variable substitution.
    [std::filesystem::weakly_canonical] and [getpwuid] are parameters. *)

From S2P Require Import Prelude CStd.

Module UtilPure.
Import CStd.

(** [s.rfind(c)] *)
Fixpoint rfind_char (c : ascii) (s : bytes) : option nat :=
  match s with
  | [] => None
  | x :: t =>
      match rfind_char c t with
      | Some i => Some (S i)
      | None => if Ascii.eqb x c then Some 0%nat else None
      end
  end.

Definition filePathToFileName (path : bytes) : bytes :=
  match rfind_char "/" path with Some i => drop (S i) path | None => path end.

Definition filePathToBareName (path : bytes) : bytes :=
  let p := filePathToFileName path in
  match find_char "." p with Some i => take i p | None => p end.

(** Each round erases the delimiter, so with a delimiter as many rounds as
    there are bytes are enough; [None] stands for a loop that does not end. *)
Fixpoint splitLoop (fuel : nat) (delimiter s : bytes) : option (list bytes) :=
  match fuel with
  | O => None
  | S f =>
      match find_sub delimiter s with
      | Some pos =>
          (fun r => (if (0 <? pos)%nat then [take pos s] else []) ++ r)
            <$> splitLoop f delimiter (drop (pos + length delimiter) s)
      | None => Some (if is_empty s then [] else [s])
      end
  end.

Definition splitString (s delimiter : bytes) : option (list bytes) := splitLoop (S (length s)) delimiter s.

(** Drops the white space at the end. *)
Definition stripTrailingSpace (s : bytes) : bytes := rev (skipSpace (rev s)).

Definition toUInt (s : bytes) : bytes + Z :=
  let invalid := str "invalid numeric string '" ++ s ++ str "'" in
  let range := str "number out of range '" ++ s ++ str "'" in
  match s with
  | c :: _ =>
      if Ascii.eqb c "-" || is_space c then inl invalid
      else match stoulPos s with
      | None => inl (let '(digits, _) := span is_digit (snd (sign s)) in if is_empty digits then invalid else range)
      | Some (u, pos) =>
          if negb (pos =? length s)%nat then inl (str "trailing characters in string '" ++ s ++ str "'")
          else if 2 ^ 32 - 1 <? u then inl range
          else inr u
      end
  | [] => inl invalid
  end.

Definition reverseVector (v : list bytes) : list bytes := rev v.

Definition squote : ascii := chr 39.
Definition backslash : ascii := chr 92.

Definition shellQuote (arg : bytes) : bytes :=
  squote :: concat (map (fun c => if Ascii.eqb c squote then [squote; backslash; squote; squote] else [c]) arg) ++ [squote].

(** lib/run_pure.cpp: a command line as one shell command *)
Definition argsToString (argv : list bytes) : bytes := concat (map (fun a => str " " ++ shellQuote a) argv).

Section canonical.
Context (weakly_canonical : bytes -> bytes).

Definition safePath (path requiredPrefix what : bytes) : bytes + bytes :=
  let canonical := weakly_canonical path in
  let prefixEndsWithSep := negb (is_empty requiredPrefix) && backIs "/" requiredPrefix in
  if (size_z canonical <? size_z requiredPrefix)
     || negb (starts_with requiredPrefix canonical)
     || (negb prefixEndsWithSep && (size_z requiredPrefix <? size_z canonical)
         && negb (starts_with (str "/") (drop (length requiredPrefix) canonical)))
  then inl (str "'" ++ what ++ str "' path '" ++ path ++ str "' resolves to '" ++ canonical
            ++ str "' which is outside required prefix '" ++ requiredPrefix ++ str "'")
  else inr canonical.

End canonical.

Definition isUrl (s : bytes) : bool :=
  (8 <? size_z s) && (beq (take 7 s) (str "http://") || beq (take 8 s) (str "https://")).

(** The passwd entry of the caller: home directory and name. *)
Record PwEnt := { pw_dir : bytes; pw_name : bytes }.

Definition pathSubstituteVarsInPath (pw : option PwEnt) (path : bytes) : option bytes :=
  if (5 <=? size_z path) && starts_with (str "$HOME") path
     && ((size_z path =? 5) || starts_with (str "/") (drop 5 path))
  then (fun p => pw_dir p ++ drop 5 path) <$> pw
  else Some path.

(** The loop of [substOne], on what follows the cursor: the text before it is
    never looked at again.  Each round passes one key; [None] stands for a loop
    that does not end. *)
Fixpoint substLoop (fuel : nat) (key val s : bytes) : option bytes :=
  match fuel with
  | O => None
  | S f =>
      match find_sub key s with
      | None => Some s
      | Some off =>
          let after := drop (off + length key) s in
          let wordBoundary := match after with [] => true | c :: _ => negb (is_alnum c) end in
          if wordBoundary then (fun r => take off s ++ val ++ r) <$> substLoop f key val after
          else (fun r => take (off + length key) s ++ r) <$> substLoop f key val after
      end
  end.

Definition substOne (s key val : bytes) : option bytes := substLoop (S (length s)) key val s.

(** [None]: no passwd entry (or a loop that does not end). *)
Definition pathSubstituteVarsInString (pw : option PwEnt) (s : bytes) : option bytes :=
  match pw with
  | None => None
  | Some p =>
      match substOne s (str "$HOME") (pw_dir p) with
      | None => None
      | Some s' => substOne s' (str "$USER") (pw_name p)
      end
  end.

(** [strrchr(file, '.')], compared with the extension *)
Definition hasExtension (file extension : bytes) : bool :=
  match rfind_char "." file with Some i => beq (drop i file) extension | None => false end.

(** ** Termination of the loops *)

Lemma find_sub_shrinks sub s i : sub <> [] -> find_sub sub s = Some i -> (length (drop (i + length sub) s) < length s)%nat.
Proof. intros Hs H%find_sub_bound. rewrite length_drop. destruct sub; [done|]. cbn [length] in *. lia. Qed.

Lemma splitLoop_total fuel delimiter s : delimiter <> [] -> (length s < fuel)%nat -> exists r, splitLoop fuel delimiter s = Some r.
Proof.
  intros Hd. revert s. induction fuel as [|f IH]; intros s Hf; [lia|]. cbn [splitLoop].
  destruct (find_sub delimiter s) as [pos|] eqn:E; [|eauto].
  destruct (IH (drop (pos + length delimiter) s)) as [r ->]; [|cbn; eauto].
  pose proof (find_sub_shrinks _ _ _ Hd E). lia.
Qed.

Lemma splitString_total s delimiter : delimiter <> [] -> exists r, splitString s delimiter = Some r.
Proof. intros Hd. apply splitLoop_total; [done|lia]. Qed.

Lemma substLoop_total fuel key val s : key <> [] -> (length s < fuel)%nat -> exists r, substLoop fuel key val s = Some r.
Proof.
  intros Hd. revert s. induction fuel as [|f IH]; intros s Hf; [lia|]. cbn [substLoop].
  destruct (find_sub key s) as [off|] eqn:E; [|eauto].
  destruct (IH (drop (off + length key) s)) as [r Er]; [pose proof (find_sub_shrinks _ _ _ Hd E); lia|].
  rewrite Er. destruct (match drop _ s with [] => true | _ => _ end); cbn; eauto.
Qed.

(** Substitution ends whatever the text, the home directory and the name are,
    also when those contain variables themselves. *)
Lemma substitution_terminates p s : exists r, pathSubstituteVarsInString (Some p) s = Some r.
Proof.
  unfold pathSubstituteVarsInString, substOne.
  destruct (substLoop_total (S (length s)) (str "$HOME") (pw_dir p) s) as [s' ->]; [done|lia|].
  apply substLoop_total; [done|lia].
Qed.

(** ** Numbers *)

Lemma toUInt_bound s n : toUInt s = inr n -> 0 <= n < 2 ^ 32.
Proof.
  unfold toUInt. destruct s as [|c s]; [done|]. destruct (_ || _) eqn:E; [done|]. apply orb_false_iff in E as [E1 E2].
  unfold stoulPos. cbn [skipSpace]. rewrite E2. unfold sign. rewrite E1.
  destruct (Ascii.eqb c "+"); destruct (span is_digit _) as [ds rest] eqn:Es; destruct (is_empty ds); try done;
    destruct (ulongMax <? dec_value ds); try done; destruct (negb _); try done;
    destruct (Z.ltb_spec (2 ^ 32 - 1) (dec_value ds)); try done; intros [= <-];
    apply span_spec in Es as (_ & Hd & _); pose proof (dec_value_bound ds Hd); lia.
Qed.

Lemma toUInt_digits s : s <> [] -> all_digits s = true -> dec_value s < 2 ^ 32 -> toUInt s = inr (dec_value s).
Proof.
  intros Hne Hd Hv. unfold toUInt. destruct s as [|c t] eqn:E; [done|]. rewrite <- E in *. clear Hne.
  assert (Hc : is_digit c = true) by (rewrite E in Hd; cbn in Hd; by apply andb_prop in Hd as [Hc _]).
  rewrite (is_digit_not_space c Hc). pose proof (is_digit_not_sign c Hc) as Hs. apply orb_false_iff in Hs as [-> _]. cbn [orb].
  rewrite stoulPos_digits by (done || congruence || unfold ulongMax; lia). rewrite Nat.eqb_refl. cbn [negb].
  destruct (Z.ltb_spec (2 ^ 32 - 1) (dec_value s)); [lia|done].
Qed.

(** ** Shell quoting *)

(** How a POSIX shell reads words: single quotes keep everything, a backslash
    keeps the next byte, blanks separate; [None] when a byte that means
    something else to the shell is not quoted, or a quote is left open.
    [cur] is the word read so far, if one was begun. *)
Definition shellSpecial (c : ascii) : bool :=
  one_of (str "|&;<>()$`*?[]#~=%!{}" ++ [dquote; newline; cr]) c.

Fixpoint shellWords (quoted : bool) (cur : option bytes) (s : bytes) : option (list bytes) :=
  let add c := Some (default [] cur ++ [c]) in
  match s with
  | [] => if quoted then None else Some (match cur with Some w => [w] | None => [] end)
  | c :: t =>
      if quoted then if Ascii.eqb c squote then shellWords false cur t else shellWords true (add c) t
      else if Ascii.eqb c squote then shellWords true (Some (default [] cur)) t
      else if Ascii.eqb c backslash then
        match t with
        | d :: t' => if Ascii.eqb d newline then None else shellWords false (add d) t'
        | [] => None
        end
      else if Ascii.eqb c " " || Ascii.eqb c tab then
        match cur with
        | Some w => cons w <$> shellWords false None t
        | None => shellWords false None t
        end
      else if shellSpecial c then None
      else shellWords false (add c) t
  end.

Lemma quoted_body arg w rest :
  shellWords true (Some w) (concat (map (fun c => if Ascii.eqb c squote then [squote; backslash; squote; squote] else [c]) arg)
                            ++ squote :: rest)
  = shellWords false (Some (w ++ arg)) rest.
Proof.
  revert w. induction arg as [|c arg IH]; intros w; cbn [map concat app].
  - cbn [shellWords]. rewrite Ascii.eqb_refl. by rewrite app_nil_r.
  - destruct (Ascii.eqb_spec c squote) as [->|Hc]; rewrite <- app_assoc; cbn [app].
    + change (squote :: arg) with ([squote] ++ arg). rewrite app_assoc, <- IH. reflexivity.
    + change (c :: arg) with ([c] ++ arg). rewrite app_assoc, <- IH. cbn [shellWords].
      apply Ascii.eqb_neq in Hc. by rewrite Hc.
Qed.

(** What [shellQuote] makes of any argument, a shell reads as that argument:
    the command line is words, exactly the given ones. *)
Lemma shellQuote_words argv : shellWords false None (argsToString argv) = Some argv.
Proof.
  enough (H : forall cur, shellWords false cur (argsToString argv)
    = Some (match cur with Some w => [w] | None => [] end ++ argv)) by apply H.
  induction argv as [|a argv IH]; intros cur; [cbn; by destruct cur|].
  unfold argsToString. cbn [map concat]. fold (argsToString argv). unfold shellQuote. rewrite <- !app_assoc.
  change (str " ") with [" "%char]. cbn [app].
  assert (Hw : shellWords false None (squote :: (concat (map (fun c => if Ascii.eqb c squote
      then [squote; backslash; squote; squote] else [c]) a) ++ [squote]) ++ argsToString argv) = Some (a :: argv)).
  { change (shellWords false None (squote :: ?x)) with (shellWords true (Some []) x). rewrite <- app_assoc. cbn [app].
    by rewrite quoted_body, IH. }
  change (shellWords false cur (" "%char :: ?x)) with
    (match cur with Some w => cons w <$> shellWords false None x | None => shellWords false None x end).
  rewrite Hw. by destruct cur.
Qed.

(** ** Paths kept under a prefix *)

(** [safePath] returns the resolved path, and only when it is the prefix or
    lies below it by whole components. *)
Lemma safePath_iff canon path pre what c :
  safePath canon path pre what = inr c <->
  c = canon path /\ exists rest, c = pre ++ rest
    /\ (rest = [] \/ backIs "/" pre = true \/ exists t, rest = "/"%char :: t).
Proof.
  unfold safePath. set (d := canon path). split.
  - destruct (_ || _) eqn:E; [done|]. intros [= <-]. split; [done|].
    apply orb_false_iff in E as [[_ E2]%orb_false_iff E3]. apply negb_false_iff, starts_with_spec in E2 as [rest Er].
    exists rest. split; [done|]. destruct rest as [|x rest]; [by left|]. right.
    rewrite Er, drop_app_length in E3. destruct (backIs "/" pre) eqn:B; [by left|]. right.
    rewrite andb_false_r in E3. cbn [negb andb] in E3. rewrite size_z_app, size_z_cons in E3.
    pose proof (size_z_nonneg rest). destruct (Z.ltb_spec (size_z pre) (size_z pre + (1 + size_z rest))); [|lia].
    cbn [andb] in E3. apply negb_false_iff, starts_with_spec in E3 as [t Et]. exists t. done.
  - intros (-> & rest & Er & Hr). fold d in Er. rewrite Er, starts_with_app, size_z_app, drop_app_length.
    pose proof (size_z_nonneg rest). destruct (Z.ltb_spec (size_z pre + size_z rest) (size_z pre)); [lia|]. cbn [negb orb].
    destruct Hr as [->|[Hb|[t ->]]].
    + destruct (Z.ltb_spec (size_z pre) (size_z pre + size_z ([] : bytes))) as [H'|_];
        [change (size_z ([] : bytes)) with 0 in H'; lia|]. by rewrite andb_false_r.
    + rewrite Hb. by destruct pre.
    + rewrite (starts_with_app (str "/") t : starts_with (str "/") ("/"%char :: t) = true). by rewrite andb_false_r.
Qed.

End UtilPure.
