(* ===== verification/LineFile.v ===== *)
(** * Files of lines under a lock: lib/network_lease.cpp, network_lease6.cpp, spec_registry.cpp

    A file read whole and replaced atomically, and leases of addresses in one. *)

From S2P Require Import Prelude.

(** ** Line files: the text files crate keeps its leases and registries in

    lib/network_lease.cpp, lib/network_lease6.cpp and lib/spec_registry.cpp each
    keep a list of entries in a text file, one per line under two comment
    lines, and rewrite it as a whole under an exclusive lock.  Reading and
    writing are modelled once here, over what the entries look like (class
    [LineFormat]); IpAlloc.v, Ip6Alloc.v and SpecRegistry.v are the instances
    and discharge the laws of [LineFormatOk]. *)


Module LineFile.

(** How an entry is one line of text. *)
Class LineFormat (E : Type) := {
  parseLine : bytes -> bytes + E;
  formatLine : E -> bytes;
  header : bytes;
}.

Definition dropCr (line : bytes) : bytes := if backIs cr line then removelast line else line.

(** The file: [None] while it does not exist. *)
Definition File : Type := option bytes.

Section Operations.
Context {E : Type} `{LineFormat E}.

(** [getline] until the end; an exception carries the line's number. *)
Fixpoint parseLines (lineNo : Z) (lines : list bytes) (out : list E) : bytes + list E :=
  match lines with
  | [] => inr out
  | l :: rest =>
      let line := dropCr l in
      if is_empty line || starts_with (str "#") line then parseLines (lineNo + 1) rest out
      else match parseLine line with
      | inl e => inl (str "line " ++ dec lineNo ++ str ": " ++ e ++ str " (line: '" ++ line ++ str "')")
      | inr x => parseLines (lineNo + 1) rest (out ++ [x])
      end
  end.

Definition parseAll (buf : bytes) : bytes + list E := parseLines 1 (split_on newline buf) [].

(** What [writeAllAtomic] writes. *)
Definition render (entries : list E) : bytes :=
  header ++ concat (map (fun x => formatLine x ++ [newline]) entries).

Definition readAll (f : File) : bytes + list E :=
  match f with None => inr [] | Some buf => parseAll buf end.

(** The temporary file, then [rename]: all or nothing. *)
Definition writeAllAtomic (io : bytes + unit) (entries : list E) (f : File) : (bytes + unit) * File :=
  match io with inl e => (inl e, f) | inr _ => (inr tt, Some (render entries)) end.

End Operations.

(** ** What a format promises *)

(** A line printed for a valid entry is parsed back, is one line without a
    carriage return at its end, and is not a comment; the header is nothing but
    comments. *)
Class LineFormatOk (E : Type) `{LineFormat E} := {
  entryOk : E -> Prop;
  line_parses : forall x, entryOk x -> parseLine (formatLine x) = inr x;
  line_shape : forall x, entryOk x ->
    ~ In newline (formatLine x) /\ dropCr (formatLine x) = formatLine x
    /\ is_empty (formatLine x) || starts_with (str "#") (formatLine x) = false;
  header_skipped : forall rest, exists n, parseAll (header ++ rest) = parseLines n (split_on newline rest) [];
}.

Section Facts.
Context {E : Type} `{LineFormatOk E}.
Implicit Types (es : list E) (f : File).

(** ** The file, written and read back *)

Lemma parseLines_render n es out : Forall entryOk es ->
  parseLines n (split_on newline (concat (map (fun x => formatLine x ++ [newline]) es))) out = inr (out ++ es).
Proof.
  intros Hes. revert n out. induction Hes as [|x es Hx _ IH]; intros n out; [cbn; by rewrite app_nil_r|].
  destruct (line_shape x Hx) as (Hnl & Hcr & Hskip). cbn [map concat]. rewrite <- app_assoc. cbn [app].
  rewrite split_on_app by done. cbn [parseLines]. rewrite Hcr, Hskip, line_parses by done.
  rewrite IH. by rewrite <- app_assoc.
Qed.

Lemma parse_render es : Forall entryOk es -> parseAll (render es) = inr es.
Proof.
  intros Hes. unfold render. destruct (header_skipped (concat (map (fun x => formatLine x ++ [newline]) es)))
    as [n ->]. by rewrite parseLines_render.
Qed.

(** The file holds the entries [es]: never written, or written with them. *)
Definition stores (f : File) (es : list E) : Prop := es = [] /\ default [] f = [] \/ f = Some (render es).

Lemma stores_parse f es : Forall entryOk es -> stores f es -> parseAll (default [] f) = inr es.
Proof. intros Hok [[-> ->]| ->]; [done|]. by apply parse_render. Qed.

Lemma stores_readAll f es : Forall entryOk es -> stores f es -> readAll f = inr es.
Proof.
  intros Hok Hf. pose proof (stores_parse f es Hok Hf) as P. destruct f as [buf|]; [done|]. by destruct Hf as [[-> _]|].
Qed.

Lemma stores_open f es : stores f es -> stores (Some (default [] f)) es.
Proof. intros [[-> Hf]| ->]; [left|right]; done. Qed.

End Facts.

(** What holds of every parsed line holds of all entries read. *)
Lemma readAll_Forall {E} `{LineFormat E} (Q : E -> Prop) f es :
  (forall line x, parseLine line = inr x -> Q x) -> readAll f = inr es -> Forall Q es.
Proof.
  intros HQ. destruct f as [buf|]; cbn [readAll]; [|intros [= <-]; constructor]. unfold parseAll.
  enough (G : forall lines n out, Forall Q out -> parseLines n lines out = inr es -> Forall Q es) by (by apply G).
  induction lines as [|l lines IH]; intros n out Ho; cbn [parseLines]; [by intros [= <-]|].
  destruct (_ || _); [by apply IH|]. destruct (parseLine _) as [|x] eqn:P; [done|]. apply IH.
  apply Forall_app. split; [done|]. apply Forall_singleton. eauto.
Qed.

(** Two comment lines, and what follows them. *)
Lemma two_comments {E} `{LineFormat E} a b rest :
  starts_with (str "#") (dropCr a) = true -> starts_with (str "#") (dropCr b) = true -> ~ In newline a -> ~ In newline b ->
  exists n, parseAll ((a ++ newline :: b ++ [newline]) ++ rest) = parseLines n (split_on newline rest) [].
Proof.
  intros Ha Hb Na Nb. exists (1 + 1 + 1). unfold parseAll. rewrite <- !app_assoc. cbn [app]. rewrite <- app_assoc. cbn [app].
  rewrite !split_on_app by done. cbn [parseLines]. by rewrite Ha, Hb, !orb_true_r.
Qed.

(** The bytes of a line that a name and an address are made of. *)
Definition isWs (c : ascii) : bool :=
  Ascii.eqb c " " || Ascii.eqb c tab || Ascii.eqb c cr || Ascii.eqb c newline.

Lemma existsb_ws s : (forall c, In c s -> isWs c = false) -> existsb isWs s = false.
Proof.
  intros H. apply not_true_iff_false. rewrite existsb_exists. intros (c & Hc & E). by rewrite (H c Hc) in E.
Qed.

(** A word, a blank and a text without newline or carriage return make a line
    of the required shape. *)
Lemma blank_line_shape name text (line := name ++ str " " ++ text) :
  name <> [] -> (forall c, In c name -> isWs c = false /\ c <> "#"%char) -> ~ In newline text -> ~ In cr text ->
  ~ In newline line /\ dropCr line = line /\ is_empty line || starts_with (str "#") line = false.
Proof.
  intros Hne Hn Hnl Hcr. assert (Hb : forall c, isWs c = true -> c <> " "%char -> In c line -> In c text).
  { intros c Hw Hc. unfold line. rewrite !in_app_iff. intros [H|[H|H]]; [|by destruct H as [<-|[]]|done].
    destruct (Hn c H) as [Hf _]. congruence. }
  split; [intros H; by apply Hnl, Hb|]. split.
  - unfold dropCr. destruct (backIs cr line) eqn:B; [|done]. apply backIs_spec in B as [t B].
    exfalso. apply Hcr, Hb; [done..|]. rewrite B. apply in_or_app. right. by left.
  - unfold line. destruct name as [|c n]; [done|]. destruct (Hn c ltac:(by left)) as [_ Hc]. cbn [app is_empty orb].
    cbn [str list_ascii_of_string starts_with]. destruct (Ascii.eqb_spec "#" c) as [<-|]; done.
Qed.

(** Cutting such a line at its first blank gives the two parts back. *)
Lemma blank_line_cut name text (line := name ++ str " " ++ text) :
  (forall c, In c name -> isWs c = false) ->
  find_char " " line = Some (length name) /\ take (length name) line = name /\ drop (S (length name)) line = text.
Proof.
  intros Hn. unfold line. change (str " ") with [" "%char]. cbn [app]. split; [|split].
  - apply find_char_app. intros H. by apply Hn in H.
  - apply take_app_length.
  - change (" "%char :: text) with ([" "%char] ++ text). rewrite app_assoc, drop_app_length'; [done|]. rewrite length_app. cbn. lia.
Qed.

Lemma NoDup_map_filter {X Y} (g : X -> Y) p xs : NoDup (map g xs) -> NoDup (map g (List.filter p xs)).
Proof.
  induction xs as [|x xs IH]; cbn; [done|]. intros [Hn Hd]%NoDup_cons. destruct (p x); [|auto]. cbn. constructor; [|auto].
  intros Hin. apply Hn. apply list_elem_of_In in Hin. apply list_elem_of_In. apply in_map_iff in Hin as (y & <- & Hy).
  apply filter_In in Hy as [Hy _]. by apply in_map.
Qed.

End LineFile.

(** ** Lease files: lib/network_lease.cpp and lib/network_lease6.cpp

    The IPv4 and the IPv6 lease file are run by the same code twice.  The code
    is modelled once here, over the line format (LineFile.v) and the allocator
    of the address family (class [AddrPool]); IpAlloc.v and Ip6Alloc.v are the
    two instances, and discharge the laws the theorems here are proved
    against. *)


Module LeaseFile.
Export LineFile.

Record Lease (A : Type) := { l_name : bytes; l_ip : A }.
Arguments l_name {A}.
Arguments l_ip {A}.

(** The allocator of a pool; [isZero] tells the address that means none, and
    [exhausted] is the text of the error then. *)
Class AddrPool (A P : Type) := {
  allocateNext : P -> list A -> A;
  isZero : A -> bool;
  exhausted : P -> Z -> bytes;
}.

Section Operations.
Context {A P : Type} `{LineFormat (Lease A)} `{AddrPool A P}.

Fixpoint leaseOf (jail : bytes) (leases : list (Lease A)) : option A :=
  match leases with
  | [] => None
  | l :: rest => if beq (l_name l) jail then Some (l_ip l) else leaseOf jail rest
  end.

(** The result, or the exception's text, and the file afterwards; opening the
    file creates it. *)
Definition allocateFor (io : bytes + unit) (jail : bytes) (pool : P) (f : File) : (bytes + A) * File :=
  let buf := default [] f in
  match parseAll buf with
  | inl e => (inl e, Some buf)
  | inr leases =>
      match leaseOf jail leases with
      | Some ip => (inr ip, Some buf)
      | None =>
          let addr := allocateNext pool (map l_ip leases) in
          if isZero (P:=P) addr then (inl (exhausted pool (size_z leases)), Some buf)
          else
            match writeAllAtomic io (leases ++ [{| l_name := jail; l_ip := addr |}]) (Some buf) with
            | (inl e, f') => (inl e, f')
            | (inr _, f') => (inr addr, f')
            end
      end
  end.

Definition releaseFor (io : bytes + unit) (jail : bytes) (f : File) : (bytes + unit) * File :=
  let buf := default [] f in
  match parseAll buf with
  | inl e => (inl e, Some buf)
  | inr leases =>
      let kept := List.filter (fun l => negb (beq (l_name l) jail)) leases in
      if existsb (fun l => beq (l_name l) jail) leases then writeAllAtomic io kept (Some buf)
      else (inr tt, Some buf)
  end.

End Operations.

(** ** What an address family promises *)

(** The allocator gives the lowest candidate of the pool that is not taken, and
    none exactly when all are taken; a candidate with a valid name is a valid
    entry. *)
Class AddrPoolOk (A P : Type) `{AddrPool A P} `{LineFormatOk (Lease A)} := {
  nameOk : bytes -> bool;
  poolOk : P -> Prop;
  candidate : P -> A -> Prop;
  lower : A -> A -> Prop;
  candidate_ok : forall p n a, poolOk p -> candidate p a -> nameOk n = true -> entryOk {| l_name := n; l_ip := a |};
  alloc_spec : forall p taken (r := allocateNext p taken), poolOk p ->
    (isZero (P:=P) r = true /\ forall x, candidate p x -> In x taken)
    \/ (isZero (P:=P) r = false /\ candidate p r /\ ~ In r taken /\ forall x, candidate p x -> lower x r -> In x taken);
}.

Section Facts.
Context {A P : Type} `{AddrPoolOk A P}.
Implicit Types (l : Lease A) (ls : list (Lease A)) (f : File).

(** ** Histories of the lease file *)

Definition leasesOk (ls : list (Lease A)) : Prop :=
  Forall entryOk ls /\ NoDup (map l_name ls) /\ NoDup (map l_ip ls).

(** The file holds the leases [ls]. *)
Definition holds (f : File) (ls : list (Lease A)) : Prop := leasesOk ls /\ stores f ls.

Lemma holds_parse f ls : holds f ls -> parseAll (default [] f) = inr ls.
Proof. intros [[Hok _] Hf]. by apply stores_parse. Qed.

Lemma holds_readAll f ls : holds f ls -> readAll f = inr ls.
Proof. intros [[Hok _] Hf]. by apply stores_readAll. Qed.

Lemma holds_open f ls : holds f ls -> holds (Some (default [] f)) ls.
Proof. intros [Hok Hf]. split; [done|]. by apply stores_open. Qed.

Lemma leaseOf_None jail ls : leaseOf jail ls = None <-> ~ In jail (map l_name ls).
Proof.
  induction ls as [|l ls IH]; cbn; [tauto|]. destruct (beq (l_name l) jail) eqn:E.
  - apply beq_eq in E. split; [done|]. tauto.
  - rewrite IH. apply beq_neq in E. tauto.
Qed.

(** A new lease. *)
Lemma leasesOk_add jail pool ls a :
  nameOk jail = true -> poolOk pool -> leasesOk ls -> leaseOf jail ls = None ->
  candidate pool a -> ~ In a (map l_ip ls) -> leasesOk (ls ++ [{| l_name := jail; l_ip := a |}]).
Proof.
  intros Hn Hp (Hok & Hd1 & Hd2) Hnone%leaseOf_None Hc Hnot. split; [|split].
  - apply Forall_app. split; [done|]. apply Forall_singleton. by apply (candidate_ok pool).
  - rewrite map_app. apply NoDup_app. split; [done|]. split; [|apply NoDup_singleton].
    intros x Hx Hx'. apply list_elem_of_singleton in Hx' as ->. by apply Hnone, list_elem_of_In.
  - rewrite map_app. apply NoDup_app. split; [done|]. split; [|apply NoDup_singleton].
    intros x Hx Hx'. apply list_elem_of_singleton in Hx' as ->. by apply Hnot, list_elem_of_In.
Qed.

Lemma leasesOk_filter p ls : leasesOk ls -> leasesOk (List.filter p ls).
Proof.
  intros (Hok & Hd1 & Hd2). split; [|split; by apply NoDup_map_filter]. apply Forall_forall. intros l Hl.
  apply list_elem_of_In, filter_In in Hl as [Hl _]. rewrite Forall_forall in Hok. by apply Hok, list_elem_of_In.
Qed.

(** What one operation does to a file that holds [ls]. *)
Lemma allocateFor_spec io jail pool f ls : nameOk jail = true -> poolOk pool -> holds f ls ->
  match allocateFor io jail pool f with
  | (inr a, f') => leaseOf jail ls = Some a /\ holds f' ls
      \/ leaseOf jail ls = None /\ candidate pool a /\ (forall x, candidate pool x -> lower x a -> In x (map l_ip ls))
         /\ ~ In a (map l_ip ls) /\ holds f' (ls ++ [{| l_name := jail; l_ip := a |}])
  | (inl _, f') => holds f' ls
      /\ ((exists e, io = inl e) \/ forall x, candidate pool x -> In x (map l_ip ls))
  end.
Proof.
  intros Hn Hp Hf. unfold allocateFor. rewrite (holds_parse f ls Hf). apply holds_open in Hf.
  destruct (leaseOf jail ls) as [a|] eqn:El; [by left|].
  destruct (alloc_spec pool (map l_ip ls) Hp) as [[-> Hall]|(-> & Hc & Hnot & Hlow)]; [split; [done|by right]|].
  unfold writeAllAtomic. destruct io as [e|[]]; [split; eauto|]. right. split; [done|].
  split; [done|]. split; [done|]. split; [done|]. destruct Hf as [Hok _].
  split; [by apply (leasesOk_add jail pool)|]. by right.
Qed.

Lemma releaseFor_spec io jail f ls : holds f ls ->
  match releaseFor io jail f with
  | (inr _, f') => holds f' (List.filter (fun l => negb (beq (l_name l) jail)) ls)
  | (inl _, f') => holds f' ls
  end.
Proof.
  intros Hf. unfold releaseFor. rewrite (holds_parse f ls Hf). apply holds_open in Hf.
  destruct (existsb _ ls) eqn:E.
  - unfold writeAllAtomic. destruct io as [e|[]]; [done|]. destruct Hf as [Hok _].
    split; [by apply leasesOk_filter|]. by right.
  - replace (List.filter _ ls) with ls; [done|]. clear Hf. induction ls as [|l ls IH]; [done|]. cbn in E |- *.
    apply orb_false_iff in E as [E1 E2]. rewrite E1. cbn. f_equal. by apply IH.
Qed.

(** One operation of some process, under the lock; its write may fail. *)
Inductive lstep : File -> File -> Prop :=
| LAllocate io jail pool f :
    nameOk jail = true -> poolOk pool -> lstep f (snd (allocateFor io jail pool f))
| LRelease io jail f : lstep f (snd (releaseFor io jail f)).

Lemma lstep_holds f f' ls : lstep f f' -> holds f ls -> exists ls', holds f' ls'.
Proof.
  intros [io jail pool f0 Hn Hp|io jail f0] Hf.
  - pose proof (allocateFor_spec io jail pool f0 ls Hn Hp Hf) as Hs.
    destruct (allocateFor io jail pool f0) as [[e|a] f1]; cbn [snd]; [by exists ls; apply Hs|].
    destruct Hs as [[_ Hs]|(_ & _ & _ & _ & Hs)]; eauto.
  - pose proof (releaseFor_spec io jail f0 ls Hf) as Hs. destruct (releaseFor io jail f0) as [[e|[]] f1]; eauto.
Qed.

Lemma reachable_holds f : rtc lstep None f -> exists ls, holds f ls.
Proof.
  intros Hr. apply (rtc_ind_r (fun f => exists ls, holds f ls) None) with (2 := fun x y _ Hxy '(ex_intro _ ls Hx) =>
    lstep_holds x y ls Hxy Hx); [|done].
  exists []. split; [|by left]. split; [constructor|]. split; constructor.
Qed.

(** Every reachable file reads back, with no address leased twice and no jail
    twice; and an allocation whose write succeeds gives the jail the address it
    holds, or the lowest free candidate, or finds all of them leased. *)
Lemma exclusive f jail pool :
  rtc lstep None f -> nameOk jail = true -> poolOk pool ->
  exists ls, readAll f = inr ls /\ NoDup (map l_name ls) /\ NoDup (map l_ip ls)
  /\ match allocateFor (inr tt) jail pool f with
     | (inr a, f') =>
         (leaseOf jail ls = Some a /\ readAll f' = inr ls)
         \/ (leaseOf jail ls = None /\ candidate pool a /\ (forall x, candidate pool x -> lower x a -> In x (map l_ip ls))
            /\ ~ In a (map l_ip ls) /\ readAll f' = inr (ls ++ [{| l_name := jail; l_ip := a |}]))
     | (inl _, f') => readAll f' = inr ls /\ forall x, candidate pool x -> In x (map l_ip ls)
     end.
Proof.
  intros Hr Hn Hp. destruct (reachable_holds f Hr) as [ls Hf]. exists ls.
  split; [by apply holds_readAll|]. split; [apply Hf|]. split; [apply Hf|].
  pose proof (allocateFor_spec (inr tt) jail pool f ls Hn Hp Hf) as Hs.
  destruct (allocateFor (inr tt) jail pool f) as [[e|a] f'].
  - destruct Hs as [Hs [[e' E]|Hall]]; [done|]. auto using holds_readAll.
  - destruct Hs as [[H3 H4]|(H3 & H4 & H5 & H6 & H7)]; [left|right]; auto 7 using holds_readAll.
Qed.

(** Releasing gives back exactly the jail's own lease. *)
Lemma released f f' jail :
  rtc lstep None f -> releaseFor (inr tt) jail f = (inr tt, f') ->
  exists ls ls', readAll f = inr ls /\ readAll f' = inr ls' /\ leaseOf jail ls' = None
    /\ forall j, j <> jail -> leaseOf j ls' = leaseOf j ls.
Proof.
  intros Hr He. destruct (reachable_holds f Hr) as [ls Hf]. pose proof (releaseFor_spec (inr tt) jail f ls Hf) as Hs.
  rewrite He in Hs. exists ls. eexists.
  split; [by apply holds_readAll|]. split; [by apply holds_readAll|]. clear. split.
  - apply leaseOf_None. rewrite in_map_iff. intros (l & <- & [_ Hl]%filter_In). by rewrite beq_refl in Hl.
  - intros j Hj. induction ls as [|l ls IH]; [done|]. cbn. destruct (beq (l_name l) jail) eqn:E; cbn.
    + apply beq_eq in E. rewrite IH. destruct (beq (l_name l) j) eqn:E'; [|done]. apply beq_eq in E'. congruence.
    + by rewrite IH.
Qed.

End Facts.

Lemma leaseOf_Some {A} jail (ls : list (Lease A)) a : leaseOf jail ls = Some a -> In {| l_name := jail; l_ip := a |} ls.
Proof.
  induction ls as [|l ls IH]; cbn; [done|]. destruct (beq (l_name l) jail) eqn:E; [|auto].
  apply beq_eq in E. intros [= <-]. left. destruct l. cbn in *. by subst.
Qed.

End LeaseFile.
