(* ===== verification/Limits.v ===== *)
(** * Resource limits and mount options: lib/retune_pure.cpp, mounts_pure.cpp *)

From S2P Require Import Prelude.

(** ** RCTL resource limits: lib/retune_pure.cpp

    The key and value validators of [crate retune] and of the privops verbs
    [set_rctl] / [clear_rctl], the human-size parser, and the composition of
    the [rctl(8)] command lines.  [long] is 64-bit; its overflow, which C++
    leaves undefined, is modelled as two's complement wrap-around. *)


Module Retune.

Definition percentKeys : list bytes := [str "pcpu"].

Definition byteKeys : list bytes :=
  [ str "memoryuse"; str "vmemoryuse"; str "readbps"; str "writebps";
    str "swapuse"; str "stacksize"; str "datasize"; str "memorylocked";
    str "shmsize" ].

Definition intKeys : list bytes :=
  [ str "readiops"; str "writeiops"; str "maxproc"; str "openfiles";
    str "nthr"; str "cpuset" ].

(** [set.count(key)] *)
Definition mem (key : bytes) (l : list bytes) : bool := existsb (beq key) l.

Definition isAllDigits (s : bytes) : bool := negb (is_empty s) && forallb is_digit s.

(** The loop runs on a [long] and never checks for overflow. *)
Definition isInt0to100 (s : bytes) : bool :=
  if negb (isAllDigits s) then false
  else fold_left (fun n c => i64 (n * 10 + digit_val c)) s 0 <=? 100.

Definition isSizeSuffix (c : ascii) : bool := one_of (str "KkMmGgTt") c.

(** The digit/dot scan of [isHumanSize]: [None] is the early [return false]. *)
Fixpoint humanScan (sawDot sawDigit : bool) (s : bytes) : option bool :=
  match s with
  | [] => Some sawDigit
  | c :: t =>
      if is_digit c then humanScan sawDot true t
      else if Ascii.eqb c "." && negb sawDot then humanScan true sawDigit t
      else None
  end.

Definition isHumanSize (s : bytes) : bool :=
  match back s with
  | None => false
  | Some suf =>
      let body := if isSizeSuffix suf then removelast s else s in
      if is_empty body then false
      else match humanScan false false body with
           | Some sawDigit => sawDigit
           | None => false
           end
  end.

Definition validateRctlKey (key : bytes) : bytes :=
  reject is_empty key with str "rctl key is empty";
  reject mem key percentKeys || mem key byteKeys || mem key intKeys with [];
  str "unknown rctl key '" ++ key ++ str "'; supported: pcpu, " ++
  str "memoryuse, vmemoryuse, readbps, writebps, readiops, " ++
  str "writeiops, maxproc, openfiles, nthr, swapuse".

Definition validateRctlValue (key rawValue : bytes) : bytes :=
  reject is_empty rawValue with (str "value for '" ++ key ++ str "' is empty");
  reject 32 <? size_z rawValue with
    (str "value for '" ++ key ++ str "' is unreasonably long");
  if mem key percentKeys then
    (reject negb (isInt0to100 rawValue) with
      (str "value for '" ++ key ++ str "' must be an integer 0..100, got '"
       ++ rawValue ++ str "'");
     [])
  else if mem key byteKeys then
    (reject negb (isHumanSize rawValue) with
      (str "value for '" ++ key
       ++ str "' must be a number with optional K/M/G/T suffix, got '"
       ++ rawValue ++ str "'");
     [])
  else if mem key intKeys then
    (reject negb (isAllDigits rawValue) with
      (str "value for '" ++ key ++ str "' must be a non-negative integer, got '"
       ++ rawValue ++ str "'");
     [])
  else str "value validation: unknown key class for '" ++ key ++ str "'".

Record RctlPair := { rp_key : bytes; rp_rawValue : bytes }.

Fixpoint validatePairsFrom (i : Z) (pairs : list RctlPair) : bytes :=
  match pairs with
  | [] => []
  | p :: rest =>
      let pre := str "rctl[" ++ dec i ++ str "]: " in
      guard_err pre (validateRctlKey (rp_key p))
        (guard_err pre (validateRctlValue (rp_key p) (rp_rawValue p))
           (validatePairsFrom (i + 1) rest))
  end.

Definition validatePairs (pairs : list RctlPair) : bytes :=
  reject is_empty pairs with str "at least one --rctl KEY=VALUE pair is required";
  validatePairsFrom 0 pairs.

(** The multiplier of a size suffix. *)
Definition sizeMult (c : ascii) : option Z :=
  if one_of (str "Kk") c then Some 1024
  else if one_of (str "Mm") c then Some (1024 * 1024)
  else if one_of (str "Gg") c then Some (1024 * 1024 * 1024)
  else if one_of (str "Tt") c then Some (1024 * 1024 * 1024 * 1024)
  else None.

(** The digit loop of [parseHumanSize]: [None] is [return -1]; otherwise
    (whole, frac, fracDigits). *)
Fixpoint sizeLoop (sawDot : bool) (whole frac fracDigits : Z) (s : bytes)
  : option (Z * Z * Z) :=
  match s with
  | [] => Some (whole, frac, fracDigits)
  | c :: t =>
      if Ascii.eqb c "." then
        if sawDot then None else sizeLoop true whole frac fracDigits t
      else if negb (is_digit c) then None
      else if negb sawDot then sizeLoop sawDot (i64 (whole * 10 + digit_val c)) frac fracDigits t
      else if 9 <? fracDigits + 1 then None
      else sizeLoop sawDot whole (i64 (frac * 10 + digit_val c)) (fracDigits + 1) t
  end.

Definition parseHumanSize (s : bytes) : Z :=
  match back s with
  | None => -1
  | Some c =>
      let '(mult, body) :=
        match sizeMult c with Some m => (m, removelast s) | None => (1, s) end in
      if is_empty body then -1
      else match sizeLoop false 0 0 0 body with
           | None => -1
           | Some (whole, frac, fracDigits) =>
               let fracDenom := 10 ^ fracDigits in
               let whole_part := i64 (whole * mult) in
               let frac_part := Z.quot (i64 (frac * mult)) fracDenom in
               i64 (whole_part + frac_part)
           end
  end.

Definition rctl : bytes := str "/usr/bin/rctl".

Definition buildSetArgv (jid : Z) (p : RctlPair) : list bytes :=
  [ rctl; str "-a";
    str "jail:" ++ dec_signed jid ++ str ":" ++ rp_key p ++ str ":deny=" ++ rp_rawValue p ].

Definition buildClearArgv (jid : Z) (key : bytes) : list bytes :=
  [ rctl; str "-r"; str "jail:" ++ dec_signed jid ++ str ":" ++ key ++ str ":deny" ].

Definition buildShowArgv (jid : Z) : list bytes :=
  [ rctl; str "-u"; str "jail:" ++ dec_signed jid ].

(** ** What the validators accept *)

Definition knownKey (key : bytes) : bool :=
  mem key percentKeys || mem key byteKeys || mem key intKeys.

Lemma mem_In key l : mem key l = true <-> In key l.
Proof.
  unfold mem. rewrite existsb_exists. split.
  - intros (x & Hx & E). apply beq_eq in E. by subst.
  - intros H. exists key. by rewrite beq_refl.
Qed.

Lemma validateRctlKey_ok key : validateRctlKey key = [] <-> knownKey key = true.
Proof.
  unfold validateRctlKey, knownKey. destruct key as [|c k]; [done|]. cbn [is_empty].
  destruct (_ || _); [done|]. split; [|done]. intros H. discriminate H.
Qed.

(** Every byte a validated value is made of. *)
Definition valueByte (c : ascii) : bool := is_digit c || Ascii.eqb c "." || isSizeSuffix c.

Lemma humanScan_bytes d g s b :
  humanScan d g s = Some b -> forallb valueByte s = true.
Proof.
  revert d g. induction s as [|c s IH]; intros d g; cbn; [done|]. unfold valueByte at 1.
  destruct (is_digit c); [intros H; cbn; eauto|].
  destruct (Ascii.eqb c "."); [|done]. destruct d; [done|]. cbn. eauto.
Qed.

Lemma isHumanSize_bytes s : isHumanSize s = true -> forallb valueByte s = true.
Proof.
  unfold isHumanSize. destruct (back s) as [suf|] eqn:L; [|done].
  destruct (isSizeSuffix suf) eqn:S.
  - destruct (is_empty (removelast s)); [done|].
    destruct (humanScan false false (removelast s)) eqn:E; [|done]. intros _.
    rewrite (back_removelast _ _ L), forallb_app, (humanScan_bytes _ _ _ _ E).
    cbn. unfold valueByte. by rewrite S, orb_true_r.
  - destruct (is_empty s); [done|].
    destruct (humanScan false false s) eqn:E; [|done]. intros _.
    exact (humanScan_bytes _ _ _ _ E).
Qed.

Lemma digits_valueBytes s : forallb is_digit s = true -> forallb valueByte s = true.
Proof.
  rewrite !forallb_forall. intros H c Hc. unfold valueByte. by rewrite (H c Hc).
Qed.

(** Whatever its class, an accepted value is a short string over digits, ['.']
    and the size suffixes. *)
Lemma validateRctlValue_bytes key v :
  validateRctlValue key v = [] -> v <> [] /\ size_z v <= 32 /\ forallb valueByte v = true.
Proof.
  unfold validateRctlValue. intros H. ok_split H. destruct H as (H1 & H2 & H).
  apply is_empty_false in H1. split; [done|]. split; [lia|].
  destruct (mem key percentKeys); [|destruct (mem key byteKeys); [|destruct (mem key intKeys); [|discriminate H]]].
  all: ok_split H; destruct H as [H _]; apply negb_false_iff in H.
  - unfold isInt0to100 in H. destruct (isAllDigits v) eqn:E; [|done].
    unfold isAllDigits in E. apply andb_prop in E as [_ E]. by apply digits_valueBytes.
  - by apply isHumanSize_bytes.
  - unfold isAllDigits in H. apply andb_prop in H as [_ E]. by apply digits_valueBytes.
Qed.

(** No supported key contains a field separator of an rctl rule. *)
Lemma knownKey_no_sep key c : knownKey key = true -> In c key -> one_of (str ":=/") c = false.
Proof.
  intros Hk. assert (Hin : In key (percentKeys ++ byteKeys ++ intKeys)).
  { unfold knownKey in Hk. rewrite !orb_true_iff, !mem_In in Hk. rewrite !in_app_iff. tauto. }
  intros Hc. revert c Hc.
  assert (Hall : forallb (fun k => forallb (fun c => negb (one_of (str ":=/") c)) k)
                   (percentKeys ++ byteKeys ++ intKeys) = true) by (vm_compute; reflexivity).
  rewrite forallb_forall in Hall. specialize (Hall key Hin).
  rewrite forallb_forall in Hall. intros c Hc. apply negb_true_iff. eauto.
Qed.

Lemma valueByte_no_sep v c :
  forallb valueByte v = true -> In c v -> one_of (str ":=/") c = false.
Proof.
  rewrite forallb_forall. intros H Hc. specialize (H c Hc). apply negb_true_iff.
  revert c Hc H. intros c _. revert c. by_bytes.
Qed.

Lemma dec_signed_no_colon n : ~ In ":"%char (dec_signed n).
Proof.
  unfold dec_signed. destruct (n <? 0); [intros [H|H]; [discriminate H|]|intros H];
    by apply dec_not_In in H.
Qed.

(** The rule handed to [rctl -a] splits back into exactly the fields it was
    composed from, whatever the (validated) request says. *)
Lemma buildSetArgv_fields jid key v :
  validateRctlKey key = [] -> validateRctlValue key v = [] ->
  exists rule,
    buildSetArgv jid {| rp_key := key; rp_rawValue := v |} = [rctl; str "-a"; rule] /\
    split_on ":" rule = [str "jail"; dec_signed jid; key; str "deny=" ++ v].
Proof.
  intros Hk Hv. apply validateRctlKey_ok in Hk.
  destruct (validateRctlValue_bytes _ _ Hv) as (_ & _ & Hb).
  eexists. split; [reflexivity|]. cbn [rp_key rp_rawValue].
  change (str "jail:") with (str "jail" ++ [":"%char]). rewrite <- app_assoc. cbn [app].
  rewrite split_on_app by (cbn; intuition discriminate). f_equal.
  change (str ":") with [":"%char]. cbn [app].
  rewrite split_on_app by apply dec_signed_no_colon. f_equal.
  change (str ":deny=") with (":"%char :: str "deny="). cbn [app].
  rewrite split_on_app.
  2:{ intros Hin. by pose proof (knownKey_no_sep _ _ Hk Hin). }
  f_equal. apply split_on_nosep. rewrite in_app_iff. intros [Hin|Hin].
  - cbn in Hin. intuition discriminate.
  - by pose proof (valueByte_no_sep _ _ Hb Hin).
Qed.

(** ** The percentage check *)

Lemma isInt0to100_loop s n :
  forallb is_digit s = true -> 0 <= n -> dec_value_from n s < 2 ^ 63 ->
  fold_left (fun n c => i64 (n * 10 + digit_val c)) s n = dec_value_from n s.
Proof.
  revert n. induction s as [|c s IH]; intros n Hd Hn Hb; [done|].
  cbn [forallb] in Hd. apply andb_prop in Hd as [Hc Hd]. apply is_digit_val in Hc.
  assert (E : dec_value_from n (c :: s) = dec_value_from (n * 10 + digit_val c) s) by done.
  rewrite E in Hb |- *. cbn [fold_left].
  assert (Hle : n * 10 + digit_val c < 2 ^ 63).
  { pose proof (dec_value_from_shift (n * 10 + digit_val c) s) as Hs.
    pose proof (dec_value_bound s Hd). pose proof (Z.pow_pos_nonneg 10 (size_z s)).
    pose proof (size_z_nonneg s). nia. }
  assert (Hi : i64 (n * 10 + digit_val c) = n * 10 + digit_val c).
  { unfold i64, to_signed. rewrite Z.mod_small by lia.
    destruct (Z.ltb_spec (n * 10 + digit_val c) (2 ^ (64 - 1))); [done|]. cbn in *. lia. }
  rewrite Hi. apply IH; [done|lia|done].
Qed.

(** Up to 18 digits the loop cannot overflow and the check is exact. *)
Lemma isInt0to100_exact s :
  size_z s <= 18 ->
  isInt0to100 s = true <-> s <> [] /\ forallb is_digit s = true /\ dec_value s <= 100.
Proof.
  intros Hl. unfold isInt0to100, isAllDigits. rewrite <- is_empty_false.
  destruct (is_empty s); cbn; [intuition congruence|].
  destruct (forallb is_digit s) eqn:E; cbn; [|intuition congruence].
  rewrite isInt0to100_loop; [unfold dec_value; rewrite Z.leb_le; tauto|done|lia|].
  pose proof (dec_value_bound s E) as [_ H]. unfold dec_value in H.
  eapply Z.lt_le_trans; [exact H|].
  transitivity (10 ^ 18); [apply Z.pow_le_mono_r; lia|]. vm_compute. discriminate.
Qed.

(** ** Theorems *)

(** A validated resource limit cannot inject anything into the rule handed
    to rctl(8): the rule splits at its colons into exactly [jail], the jid, the
    key and [deny=<value>]. *)
Theorem rctl_rule_no_injection (jid : Z) (key v : bytes) :
  validateRctlKey key = [] -> validateRctlValue key v = [] ->
  exists rule,
    buildSetArgv jid {| rp_key := key; rp_rawValue := v |} = [rctl; str "-a"; rule] /\
    split_on ":" rule = [str "jail"; dec_signed jid; key; str "deny=" ++ v].
Proof. apply buildSetArgv_fields. Qed.

Lemma rctl_rule_no_injection_witness :
  exists rule,
    buildSetArgv 5 {| rp_key := str "memoryuse"; rp_rawValue := str "1.5G" |} = [rctl; str "-a"; rule] /\
    split_on ":" rule = [str "jail"; dec_signed 5; str "memoryuse"; str "deny=1.5G"].
Proof. apply (rctl_rule_no_injection 5 (str "memoryuse") (str "1.5G")); reflexivity. Defined.

(** The percentage check is exact for values of up to 18 digits: accepted
    are the decimal numbers from 0 to 100 and nothing else. *)
Theorem pcpu_check_exact (v : bytes) :
  size_z v <= 18 ->
  validateRctlValue (str "pcpu") v = [] <-> v <> [] /\ forallb is_digit v = true /\ 0 <= dec_value v <= 100.
Proof.
  intros Hl. pose proof (isInt0to100_exact v Hl) as E. unfold validateRctlValue.
  change (mem (str "pcpu") percentKeys) with true. destruct v as [|c v]; [cbn; intuition congruence|].
  destruct (Z.ltb_spec 32 (size_z (c :: v))); [lia|]. destruct (isInt0to100 (c :: v)); cbn [is_empty negb].
  - split; [intros _|done]. destruct E as [E _]. destruct (E eq_refl) as (H1 & H2 & H3). split; [done|].
    split; [done|]. split; [|done]. by apply dec_value_bound.
  - split; [done|]. intros (H1 & H2 & H3). destruct E as [_ E]. discriminate E. split; [done|]. split; [done|lia].
Qed.

Lemma pcpu_check_exact_witness : validateRctlValue (str "pcpu") (str "100") = [].
Proof.
  apply (pcpu_check_exact (str "100")); [vm_compute; discriminate|].
  split; [discriminate|]. split; [reflexivity|]. vm_compute. split; discriminate.
Defined.

(** Past 18 digits the percentage check overflows its [long]: with two's
    complement arithmetic a CPU limit of 2^64 + 1 percent passes. *)
Theorem pcpu_check_overflows :
  validateRctlValue (str "pcpu") (str "18446744073709551617") = []
  /\ dec_value (str "18446744073709551617") = 2 ^ 64 + 1.
Proof. split; vm_compute; reflexivity. Qed.

End Retune.

(** ** Mount options: lib/mounts_pure.cpp

    Read-only suffixes of shares, the tmpfs size / path / owner / mode
    validators, [/etc/keep] names, and the ordering question for tmpfs mounts
    that cover a GUI socket directory. *)


Module Mounts.

(** [path.size() > t.size() && path ends with t] *)
Definition ends (t path : bytes) : bool :=
  (size_z t <? size_z path)
  && beq (drop (length path - length t) path) t.

(** Mutates [path]: the result carries the new path and the flag. *)
Definition splitRoSuffix (path : bytes) : bytes * bool :=
  if ends (str ":ro") path then (take (length path - 3) path, true)
  else if ends (str ":rw") path then (take (length path - 3) path, false)
  else (path, false).

Definition parseRoFlag (flag : bytes) : bytes + bool :=
  if beq flag (str "ro") then inr true
  else if beq flag (str "rw") then inr false
  else inl (str "the third element of a share must be 'ro' or 'rw', got '" ++ flag ++ str "'").

(** The character loop of [validateTmpfsSize]; [digits] counts the digits seen
    so far.  [None] is the early error return. *)
Fixpoint sizeScan (digits : Z) (s : bytes) : option Z :=
  match s with
  | [] => Some digits
  | c :: t =>
      if is_digit c then sizeScan (digits + 1) t
      else if is_empty t && (0 <? digits) && one_of (str "kKmMgG") c then sizeScan digits t
      else None
  end.

Definition validateTmpfsSize (size : bytes) : bytes :=
  reject is_empty size with [];
  reject 20 <? size_z size with str "tmpfs size longer than 20 chars";
  match sizeScan 0 size with
  | None =>
      str "tmpfs size must be digits with an optional k/m/g suffix, got '" ++ size ++ str "'"
  | Some digits =>
      reject digits =? 0 with str "tmpfs size has no digits";
      reject negb (existsb (in_range "1" "9") size) with
        str "tmpfs size must be greater than zero";
      []
  end.

(** Components of [path] after its first byte. *)
Definition components (path : bytes) : list bytes :=
  match path with
  | [] => []
  | _ :: t => split_on "/" t
  end.

Definition forbidden : list bytes :=
  [ str "/dev"; str "/proc"; str "/etc"; str "/bin"; str "/sbin"; str "/lib";
    str "/libexec"; str "/usr"; str "/usr/local"; str "/var/run"; str "/usr/local/etc" ].

Definition badComponent (c : bytes) : bool :=
  is_empty c || beq c (str ".") || beq c (str "..").

Definition validateTmpfsPath (pathIn : bytes) : bytes :=
  reject is_empty pathIn with str "tmpfs path is empty";
  let underHome := starts_with (str "$HOME") pathIn in
  reject underHome && (size_z pathIn =? 5) with
    str "tmpfs on $HOME itself is not allowed (it would hide the home directory)";
  let p := if underHome then drop 5 pathIn else pathIn in
  reject underHome && negb (starts_with (str "/") p) with
    str "tmpfs path must start with '/' or '$HOME/'";
  reject negb (starts_with (str "/") p) with
    (str "tmpfs path must be absolute (or start with $HOME/): " ++ pathIn);
  reject beq p (str "/") with str "tmpfs on / is not allowed";
  reject backIs "/" p with
    (str "tmpfs path must not end with '/': " ++ pathIn);
  reject existsb badComponent (components p) with
    (str "tmpfs path must be normalised (no empty, '.' or '..' components): " ++ pathIn);
  reject underHome with [];
  match List.find (beq p) forbidden with
  | Some f => str "tmpfs on " ++ f ++ str " would hide the jail's own files"
  | None => []
  end.

Definition validateEtcKeepName (name : bytes) : bytes :=
  reject is_empty name with str "etc/keep entry is empty";
  reject 128 <? size_z name with str "etc/keep entry longer than 128 chars";
  reject beq name (str ".") || beq name (str "..") with
    (str "etc/keep entry '" ++ name ++ str "' is not a file name");
  reject negb (forallb (fun c => is_alnum c || one_of (str "._-+@") c) name) with
    (str "etc/keep entry '" ++ name
     ++ str "': only a plain name under /etc is allowed (letters, digits, . _ - + @)");
  [].

Definition isUnder (path dir : bytes) : bool :=
  if is_empty dir then false
  else if beq dir (str "/") then starts_with (str "/") path
  else beq path dir
       || ((size_z dir <? size_z path) && starts_with dir path
           && starts_with (str "/") (drop (length dir) path)).

Definition tmpfsMountedBeforeGui (tmpfsPath : bytes) : bool :=
  existsb (fun dir => isUnder dir tmpfsPath) [str "/tmp/.X11-unix"; str "/tmp/wayland"].

Definition tmpfsParams (size : bytes) (underHome : bool) (uid gid : Z) : list (bytes * bytes) :=
  (if is_empty size then [] else [(str "size", size)])
  ++ (if underHome
      then [(str "uid", dec uid); (str "gid", dec gid); (str "mode", str "0700")]
      else [(str "mode", str "01777")]).

Definition validateDecimal (s what : bytes) : bytes :=
  reject is_empty s with (what ++ str " is empty");
  reject 10 <? size_z s with (what ++ str " longer than 10 digits");
  reject negb (forallb is_digit s) with (what ++ str " must be decimal digits");
  [].

Definition validateOctalMode (mode : bytes) : bytes :=
  reject (size_z mode <? 3) || (5 <? size_z mode) with str "mode must be 3..5 octal digits";
  reject negb (forallb (in_range "0" "7") mode) with str "mode must be octal digits";
  [].

(** ** Path containment *)

Lemma starts_with_slash s : starts_with (str "/") s = true <-> exists t, s = "/"%char :: t.
Proof. rewrite starts_with_spec. done. Qed.

(** [isUnder] is component-wise containment: [path] is [dir] or lies below it. *)
Lemma isUnder_spec path dir :
  isUnder path dir = true <->
  dir <> [] /\
  (path = dir \/ (exists rest, path = dir ++ str "/" ++ rest)
   \/ (dir = str "/" /\ exists rest, path = str "/" ++ rest)).
Proof.
  unfold isUnder. destruct dir as [|d0 ds]; [cbn; split; [done|tauto]|]. cbn [is_empty].
  set (dir := d0 :: ds). assert (Hne : dir <> []) by done.
  destruct (beq_spec dir (str "/")) as [E|E].
  - rewrite starts_with_spec, E. split; [eauto 6|].
    intros [_ [->|[[r ->]|[_ H]]]]; eauto.
  - rewrite orb_true_iff, beq_eq, !andb_true_iff, starts_with_slash, Z.ltb_lt, starts_with_spec.
    split.
    + intros [->|[[Hl [t ->]] [u Hu]]]; [tauto|].
      rewrite drop_app_length in Hu. subst t. split; [done|]. right. left. by exists u.
    + intros [_ [->|[[r ->]|[? _]]]]; [tauto| |done].
      right. rewrite drop_app_length, size_z_app. cbn [app str list_ascii_of_string].
      rewrite size_z_cons. pose proof (size_z_nonneg r). split; [split; [lia|]|]; eauto.
Qed.

(** ** Accepted tmpfs targets *)

Lemma validateTmpfsPath_ok p :
  validateTmpfsPath p = [] ->
  starts_with (str "$HOME") p = false ->
  starts_with (str "/") p = true /\ existsb badComponent (components p) = false
  /\ ~ In p forbidden.
Proof.
  unfold validateTmpfsPath. intros H Hh. rewrite Hh in H. cbn [andb] in H.
  ok_split H. destruct H as (_ & H3 & _ & _ & H6 & H7).
  apply negb_false_iff in H3. split; [done|]. split; [done|].
  intros Hin.
  destruct (List.find (beq p) forbidden) eqn:E; [discriminate H7|].
  pose proof (find_none _ _ E p Hin) as Hf. by rewrite beq_refl in Hf.
Qed.

End Mounts.
