(* ===== verification/PerUser.v ===== *)
(** * Per-user namespaces: lib/per_user_rctl_pure.cpp, runtime_paths_pure.cpp, zfs_dataset_pure.cpp, per_user_net_pure.cpp, per_user_env_pure.cpp

    What an operator's uid gives it: a loginclass, runtime paths, a dataset
    prefix and sub-networks, and the environment composed of them. *)

From S2P Require Import Prelude.

(** ** Per-user RCTL umbrella: lib/per_user_rctl_pure.cpp

    Every operator uid owns a login class [crate-<uid>]; rctl(8) rules on it
    cap the sum of the operator's jails. *)


Module PerUserRctl.

Definition kPrefix : bytes := str "crate-".

(** The hand-rolled printing loops are the digit loop of the prelude. *)
Definition uidStr (uid : Z) : bytes :=
  if uid =? 0 then str "0" else dec_loop (dec_fuel uid) uid [].

Definition intStr (n : Z) : bytes :=
  if n =? 0 then str "0"
  else
    let m := if n <? 0 then u32 (- n) else u32 n in
    let out := dec_loop (dec_fuel m) m [] in
    if n <? 0 then "-"%char :: out else out.

Definition loginclassName (uid : Z) : bytes := kPrefix ++ uidStr uid.
Definition jailSubject (jid : Z) : bytes := str "jail:" ++ intStr jid.
Definition loginclassSubject (uid : Z) : bytes := str "loginclass:" ++ loginclassName uid.

Definition buildRule (subject key rawValue : bytes) : bytes :=
  subject ++ str ":" ++ key ++ str ":deny=" ++ rawValue.

Record KeyValue := { kv_key : bytes; kv_rawValue : bytes }.

Definition buildUserUmbrellaRules (uid : Z) (pairs : list KeyValue) : list bytes :=
  map (fun kv => buildRule (loginclassSubject uid) (kv_key kv) (kv_rawValue kv)) pairs.

Definition validateLoginclassName (name : bytes) : bytes :=
  reject size_z name <=? size_z kPrefix with
    (str "loginclass too short — expected '" ++ kPrefix ++ str "<uid>'");
  reject negb (starts_with kPrefix name) with str "loginclass missing 'crate-' prefix";
  let tail := drop (length kPrefix) name in
  reject is_empty tail with str "loginclass missing uid suffix";
  reject 10 <? size_z tail with str "loginclass uid suffix too long (>10 chars)";
  reject (1 <? size_z tail) && starts_with (str "0") tail with
    str "loginclass uid suffix has leading zero";
  reject negb (forallb is_digit tail) with str "loginclass uid suffix is not all digits";
  [].

Lemma uidStr_dec uid : 0 <= uid -> uidStr uid = dec uid.
Proof.
  intros H. unfold uidStr, dec. destruct (Z.eqb_spec uid 0); [by subst|].
  destruct (Z.leb_spec uid 0); [lia|done].
Qed.

Lemma loginclassName_inj u v : 0 <= u -> 0 <= v -> loginclassName u = loginclassName v -> u = v.
Proof.
  intros Hu Hv E. unfold loginclassName in E. apply app_inv_head in E.
  rewrite !uidStr_dec in E by done. by apply dec_inj.
Qed.

(** The name composed for any 32-bit uid passes the name validator. *)
Lemma loginclassName_valid uid :
  0 <= uid < 2 ^ 32 -> validateLoginclassName (loginclassName uid) = [].
Proof.
  intros Hu. unfold validateLoginclassName, loginclassName. rewrite uidStr_dec by lia.
  rewrite size_z_app, drop_app_length, starts_with_app.
  assert (Hl : size_z (dec uid) <= 10).
  { unfold size_z. enough (length (dec uid) <= 10)%nat by lia.
    apply dec_len; [|lia]. change (10 ^ Z.of_nat 10) with 10000000000.
    change (2 ^ 32) with 4294967296 in Hu. lia. }
  assert (Hne : size_z (dec uid) <> 0) by (rewrite size_z_nil; apply dec_nonempty).
  pose proof (size_z_nonneg (dec uid)). pose proof (size_z_nonneg kPrefix).
  destruct (Z.leb_spec (size_z kPrefix + size_z (dec uid)) (size_z kPrefix)); [lia|].
  destruct (is_empty (dec uid)) eqn:E; [apply is_empty_true in E; by apply dec_nonempty in E|].
  destruct (Z.ltb_spec 10 (size_z (dec uid))); [lia|]. cbn [negb].
  destruct (starts_with (str "0") (dec uid)) eqn:S.
  - apply starts_with_spec in S as [t Ht]. pose proof (dec_no_leading_zero _ _ Ht) as ->.
    rewrite Ht. done.
  - rewrite andb_false_r. pose proof (dec_digits uid) as D. unfold all_digits in D.
    by rewrite D.
Qed.

End PerUserRctl.

(** ** Per-uid runtime paths: lib/runtime_paths_pure.cpp *)


Module RuntimePaths.

Definition kLegacyRoot : bytes := str "/var/run/crate".

Definition runtimeUidStr (uid : Z) : bytes :=
  if uid =? 0 then str "0" else dec_loop (dec_fuel uid) uid [].

Definition legacyRoot : bytes := kLegacyRoot.
Definition perUserRoot (uid : Z) : bytes := kLegacyRoot ++ str "/" ++ runtimeUidStr uid.
Definition perUserLeasesDir (uid : Z) : bytes := perUserRoot uid ++ str "/leases".
Definition perUserLeaseFile (uid : Z) (jailName : bytes) : bytes :=
  perUserLeasesDir uid ++ str "/" ++ jailName ++ str ".lease".
Definition perUserExportsDir (uid : Z) : bytes := perUserRoot uid ++ str "/exports".
Definition perUserImportsDir (uid : Z) : bytes := perUserRoot uid ++ str "/imports".
Definition perUserCrateAuditLog (uid : Z) : bytes := perUserRoot uid ++ str "/crate-audit.log".
Definition perUserAuditLog (uid : Z) : bytes := perUserRoot uid ++ str "/audit.log".

Definition allDigits (s : bytes) : bool := negb (is_empty s) && forallb is_digit s.

(** The last component of a crate jail root, [""] for any other path. *)
Definition crateJailDirName (path : bytes) : bytes :=
  let root := kLegacyRoot ++ str "/" in
  if negb (starts_with root path) then []
  else
    let rest0 := drop (length root) path in
    let rest :=
      match find_char "/" rest0 with
      | None => Some rest0
      | Some slash =>
          if negb (allDigits (take slash rest0)) then None
          else
            let r := drop (S slash) rest0 in
            if has_char "/" r then None else Some r
      end in
    match rest with
    | None => []
    | Some r => if negb (starts_with (str "jail-") r) || (size_z r <=? 5) then [] else r
    end.

Definition isCrateJailPath (path : bytes) : bool := negb (is_empty (crateJailDirName path)).

Definition int32_max : Z := 2 ^ 31 - 1.

Definition validateUid (uid : Z) : bytes :=
  reject uid <? 0 with str "uid must be non-negative";
  reject int32_max <? uid with str "uid out of range (>INT32_MAX)";
  [].

End RuntimePaths.

(** ** ZFS dataset names: lib/zfs_dataset_pure.cpp *)


Module ZfsDataset.

Definition datasetUidStr (uid : Z) : bytes :=
  if uid =? 0 then str "0" else dec_loop (dec_fuel uid) uid [].

(** Drop one trailing slash. *)
Definition stripSlash (base : bytes) : bytes :=
  if backIs "/" base then removelast base else base.

Definition composePerUserPrefix (masterPrefix : bytes) (uid : Z) : bytes :=
  stripSlash masterPrefix ++ str "/" ++ datasetUidStr uid.

Definition composePerUserDataset (masterPrefix : bytes) (uid : Z) (jailName : bytes) : bytes :=
  composePerUserPrefix masterPrefix uid ++ str "/" ++ jailName.

Definition validateDatasetName (ds : bytes) : bytes :=
  reject is_empty ds with str "dataset name is empty";
  reject 255 <? size_z ds with (str "dataset name too long (>255): '" ++ ds ++ str "'");
  reject starts_with (str "/") ds || backIs "/" ds with
    (str "dataset must not start or end with '/': '" ++ ds ++ str "'");
  reject existsb (fun seg => beq seg (str "..")) (split_on "/" ds) with
    (str "dataset must not contain '..' segments: '" ++ ds ++ str "'");
  reject negb (forallb (fun c => is_alnum c || one_of (str "_-./:") c) ds) with
    (str "dataset contains forbidden char (allowed: [A-Za-z0-9_.:/-]): '" ++ ds ++ str "'");
  [].

End ZfsDataset.

(** ** Per-uid IPv4 and IPv6 sub-networks: lib/per_user_net_pure.cpp *)


Module PerUserNet.

(** The digits of one octet: stops at the first non-digit; [None] when the
    value passes 255.  Returns (value, digits consumed, rest). *)
Fixpoint octetDigits (v : Z) (n : Z) (s : bytes) : option (Z * Z * bytes) :=
  match s with
  | [] => Some (v, n, [])
  | c :: t =>
      if is_digit c then
        let v' := v * 10 + digit_val c in
        if 255 <? v' then None else octetDigits v' (n + 1) t
      else Some (v, n, s)
  end.

(** [left] octets still to read. *)
Fixpoint parseIpv4Octets (left : nat) (acc : Z) (s : bytes) : option Z :=
  match left with
  | O => if is_empty s then Some acc else None
  | S left' =>
      match s with
      | [] => None
      | c :: _ =>
          if negb (is_digit c) then None
          else
            match octetDigits 0 0 s with
            | None => None
            | Some (v, n, rest) =>
                if (1 <? n) && Ascii.eqb c "0" then None
                else
                  let acc' := Z.lor (u32 (Z.shiftl acc 8)) v in
                  match left' with
                  | O => parseIpv4Octets left' acc' rest
                  | S _ =>
                      match rest with
                      | d :: rest' =>
                          if Ascii.eqb d "." then parseIpv4Octets left' acc' rest' else None
                      | [] => None
                      end
                  end
            end
      end
  end.

Definition parseIpv4 (s : bytes) : option Z := parseIpv4Octets 4 0 s.

Definition formatIpv4 (addr : Z) : bytes :=
  dec (Z.land (Z.shiftr addr 24) 255) ++ str "." ++
  dec (Z.land (Z.shiftr addr 16) 255) ++ str "." ++
  dec (Z.land (Z.shiftr addr 8) 255) ++ str "." ++
  dec (Z.land addr 255).

Fixpoint prefixDigits (p : Z) (s : bytes) : bytes + Z :=
  match s with
  | [] => inr p
  | c :: t =>
      if negb (is_digit c) then inl (str "prefix length not a number")
      else
        let p' := p * 10 + digit_val c in
        if 128 <? p' then inl (str "prefix length out of range") else prefixDigits p' t
  end.

(** The error, or (address, prefix length). *)
Definition splitCidr (cidr : bytes) : bytes + (bytes * Z) :=
  match find_char "/" cidr with
  | None => inl (str "missing '/' in CIDR")
  | Some slash =>
      let plen := drop (S slash) cidr in
      if is_empty plen || (3 <? size_z plen) then inl (str "prefix length empty or too long")
      else match prefixDigits 0 plen with
           | inl e => inl e
           | inr p => inr (take slash cidr, p)
           end
  end.

(** A cidr or an error; exactly one of the two is empty. *)
Record Result := { cidr : bytes; error : bytes }.

Definition ok (c : bytes) : Result := {| cidr := c; error := [] |}.
Definition err (e : bytes) : Result := {| cidr := []; error := e |}.

Definition masterMask (prefix : Z) : Z :=
  if prefix =? 0 then 0 else u32 (Z.shiftl 4294967295 (32 - prefix)).

Definition composeIpv4 (masterCidr : bytes) (subPrefixLen uid : Z) : Result :=
  match splitCidr masterCidr with
  | inl e => err (str "master: " ++ e)
  | inr (addrText, prefix) =>
      if 32 <? prefix then err (str "master IPv4 prefix > 32")
      else if 32 <? subPrefixLen then err (str "sub prefix > 32")
      else if subPrefixLen <=? prefix then
        err (str "sub prefix must be greater than master prefix")
      else
        let slotBits := subPrefixLen - prefix in
        if 24 <? slotBits then err (str "slot space too large (>24 bits)")
        else match parseIpv4 addrText with
        | None => err (str "master address malformed")
        | Some addr =>
            let base := Z.land addr (masterMask prefix) in
            if Z.shiftl 1 slotBits <=? uid then
              err (str "uid " ++ dec uid ++ str " exceeds the " ++ dec slotBits
                   ++ str "-bit per-user slot space (max uid "
                   ++ dec (Z.shiftl 1 slotBits - 1)
                   ++ str "); widen the master IPv4 CIDR or shrink the sub-prefix")
            else
              let slotShift := 32 - subPrefixLen in
              let subBase := Z.lor base (u32 (Z.shiftl uid slotShift)) in
              ok (formatIpv4 subBase ++ str "/" ++ dec subPrefixLen)
        end
  end.

(** *** IPv6: an address is 8 groups of 16 bits. *)

Definition hexVal (c : ascii) : option Z :=
  if is_digit c then Some (code c - 48)
  else if in_range "a" "f" c then Some (10 + code c - 97)
  else if in_range "A" "F" c then Some (10 + code c - 65)
  else None.

(** The [flush] lambda: an empty [cur] adds nothing; [None] is a bad group. *)
Fixpoint hexGroup (v : Z) (cur : bytes) : option Z :=
  match cur with
  | [] => Some v
  | c :: t =>
      match hexVal c with
      | None => None
      | Some d => hexGroup (u16 (Z.lor (Z.shiftl v 4) d)) t
      end
  end.

Definition flush (cur : bytes) (dst : list Z) : option (list Z) :=
  if is_empty cur then Some dst
  else if 4 <? size_z cur then None
  else (fun v => dst ++ [v]) <$> hexGroup 0 cur.

(** The colon scan.  [inTail] holds exactly after ["::"] was seen, so one flag
    stands for the source's two. *)
Fixpoint v6Groups (head tail : list Z) (seen : bool) (cur s : bytes)
  : option (list Z * list Z * bool) :=
  let flushed := if seen then (fun t => (head, t)) <$> flush cur tail
                 else (fun h => (h, tail)) <$> flush cur head in
  match s with
  | [] => (fun ht => (ht, seen)) <$> flushed
  | c :: t =>
      if Ascii.eqb c ":" then
        match t with
        | c2 :: t2 =>
            if Ascii.eqb c2 ":" then
              if seen then None
              else match flushed with
                   | None => None
                   | Some (h', t') => v6Groups h' t' true [] t2
                   end
            else match flushed with
                 | None => None
                 | Some (h', t') => v6Groups h' t' seen [] t
                 end
        | [] => match flushed with
                | None => None
                | Some (h', t') => v6Groups h' t' seen [] t
                end
        end
      else v6Groups head tail seen (cur ++ [c]) t
  end.

Definition twoDoubleColons (addr : bytes) : bool :=
  match find_sub (str "::") addr with
  | Some i => has_sub (str "::") (drop (S i) addr)
  | None => false
  end.

Definition parseIpv6 (s : bytes) : option (list Z) :=
  if is_empty s || (45 <? size_z s) then None
  else if twoDoubleColons s then None
  else match v6Groups [] [] false [] s with
       | None => None
       | Some (head, tail, true) =>
           if 8 <? size_z head + size_z tail then None
           else Some (head ++ replicate (8 - length head - length tail) 0 ++ tail)
       | Some (head, _, false) => if negb (size_z head =? 8) then None else Some head
       end.

(** [%x]: lowercase hex, no padding. *)
Definition hexDigit (d : Z) : ascii := if d <? 10 then chr (48 + d) else chr (87 + d).

Fixpoint hex_loop (fuel : nat) (n : Z) (out : bytes) : bytes :=
  match fuel with
  | O => out
  | S f => if n <=? 0 then out else hex_loop f (Z.shiftr n 4) (hexDigit (Z.land n 15) :: out)
  end.

Definition hex16 (n : Z) : bytes := if n <=? 0 then str "0" else hex_loop 4 n [].

Definition formatIpv6 (g : list Z) : bytes :=
  concat (intersperse_head ":" (map hex16 g)).

Definition groupsToBytes (g : list Z) : list Z :=
  flat_map (fun x => [u8 (Z.shiftr x 8); Z.land x 255]) g.

Fixpoint bytesToGroups (b : list Z) : list Z :=
  match b with
  | hi :: lo :: rest => u16 (Z.lor (Z.shiftl hi 8) lo) :: bytesToGroups rest
  | _ => []
  end.

(** [bytes[bit / 8] &= ~(1 << (7 - bit % 8))] *)
Definition clearBit (bs : list Z) (bit : Z) : list Z :=
  alter (fun b => Z.land b (Z.lnot (Z.shiftl 1 (7 - bit mod 8)))) (Z.to_nat (bit / 8)) bs.

(** [bytes[bit / 8] |= 1 << (7 - bit % 8)] *)
Definition setBit (bs : list Z) (bit : Z) : list Z :=
  alter (fun b => Z.lor b (u8 (Z.shiftl 1 (7 - bit mod 8)))) (Z.to_nat (bit / 8)) bs.

(** [for (x = from; x < to; x++)] as the list of indices. *)
Definition zseq (from to : Z) : list Z :=
  map (fun i => from + Z.of_nat i) (List.seq 0 (Z.to_nat (to - from))).

Definition clearFrom (prefix : Z) (bs : list Z) : list Z :=
  fold_left clearBit (zseq prefix 128) bs.

Definition setSlot (prefix slotBits uid : Z) (bs : list Z) : list Z :=
  fold_left (fun b i => if Z.testbit uid (slotBits - 1 - i) then setBit b (prefix + i) else b)
    (zseq 0 slotBits) bs.

Definition composeIpv6 (masterCidr : bytes) (subPrefixLen uid : Z) : Result :=
  match splitCidr masterCidr with
  | inl e => err (str "master: " ++ e)
  | inr (addrText, prefix) =>
      if 128 <? prefix then err (str "master IPv6 prefix > 128")
      else if 128 <? subPrefixLen then err (str "sub prefix > 128")
      else if subPrefixLen <=? prefix then
        err (str "sub prefix must be greater than master prefix")
      else
        let slotBits := subPrefixLen - prefix in
        if 32 <? slotBits then err (str "slot space too large (>32 bits)")
        else match parseIpv6 addrText with
        | None => err (str "master address malformed")
        | Some g =>
            let bs := clearFrom prefix (groupsToBytes g) in
            if Z.shiftl 1 slotBits <=? uid then
              err (str "uid " ++ dec uid ++ str " exceeds the " ++ dec slotBits
                   ++ str "-bit per-user slot space; "
                   ++ str "widen the master IPv6 CIDR or shrink the sub-prefix")
            else
              let bs' := setSlot prefix slotBits uid bs in
              ok (formatIpv6 (bytesToGroups bs') ++ str "/" ++ dec subPrefixLen)
        end
  end.

(** ** Dotted quads, printed and parsed back *)

Definition dotOrEnd (s : bytes) : Prop := s = [] \/ exists t, s = "."%char :: t.

(** An octet [formatIpv4] prints is read back whole. *)
Definition octetReads (n : Z) : Prop :=
  forall rest, dotOrEnd rest ->
    octetDigits 0 0 (dec n ++ rest) = Some (n, size_z (dec n), rest)
    /\ match dec n with
       | c :: _ => is_digit c = true /\ (1 <? size_z (dec n)) && Ascii.eqb c "0" = false
       | [] => False
       end.

Lemma octet_reads n : 0 <= n < 256 -> octetReads n.
Proof.
  intros Hn. rewrite <- (code_chr n Hn). generalize (chr n). clear n Hn.
  intros [[] [] [] [] [] [] [] []] rest [->|[t ->]];
    (split; [vm_compute; reflexivity|vm_compute; split; reflexivity]).
Qed.

Lemma octets_step left acc n rest : 0 <= n < 256 ->
  parseIpv4Octets (S (S left)) acc (dec n ++ "."%char :: rest)
  = parseIpv4Octets (S left) (Z.lor (u32 (Z.shiftl acc 8)) n) rest.
Proof.
  intros Hn. destruct (octet_reads n Hn ("."%char :: rest) ltac:(right; eauto)) as [E Hc].
  remember (S left) as l eqn:Hl. cbn [parseIpv4Octets]. rewrite E.
  destruct (dec n) as [|c t]; [done|]. destruct Hc as [Hd Hz]. cbn [app]. rewrite Hd, Hz. cbn [negb].
  by rewrite Hl.
Qed.

Lemma octets_last acc n : 0 <= n < 256 ->
  parseIpv4Octets 1 acc (dec n) = Some (Z.lor (u32 (Z.shiftl acc 8)) n).
Proof.
  intros Hn. destruct (octet_reads n Hn [] ltac:(by left)) as [E Hc]. rewrite app_nil_r in E.
  cbn [parseIpv4Octets]. rewrite E. destruct (dec n) as [|c t]; [done|]. destruct Hc as [Hd Hz].
  by rewrite Hd, Hz.
Qed.

Lemma u32_small x : 0 <= x < 2 ^ 32 -> u32 x = x.
Proof. intros H. unfold u32. by rewrite Z.mod_small. Qed.

(** Putting the next octet below. *)
Lemma push_octet a n : 0 <= n < 256 -> 0 <= a < 2 ^ 24 -> Z.lor (u32 (Z.shiftl a 8)) n = a * 256 + n.
Proof.
  intros Hn Ha. rewrite Z.shiftl_mul_pow2 by lia. change (2 ^ 8) with 256. rewrite u32_small by lia.
  by apply (lor_below a n 8).
Qed.

Lemma octet_of a k : 0 <= k -> Z.land (Z.shiftr a k) 255 = (a / 2 ^ k) mod 256.
Proof. intros Hk. rewrite Z.shiftr_div_pow2 by done. change 255 with (Z.ones 8). by rewrite Z.land_ones by lia. Qed.

(** Pushing an address's four octets gives it back. *)
Lemma quad_value a (push := fun acc n => Z.lor (u32 (Z.shiftl acc 8)) n) : 0 <= a < 2 ^ 32 ->
  push (push (push (push 0 (a / 2 ^ 24 mod 256)) (a / 2 ^ 16 mod 256)) (a / 2 ^ 8 mod 256)) (a mod 256) = a.
Proof.
  intros Ha. assert (Hd : forall x, 0 <= x mod 256 < 256) by (intros; apply Z.mod_pos_bound; lia).
  pose proof (Hd (a / 2 ^ 24)). pose proof (Hd (a / 2 ^ 16)). pose proof (Hd (a / 2 ^ 8)). pose proof (Hd a).
  unfold push. rewrite (push_octet 0), (push_octet (0 * 256 + _)), (push_octet ((0 * 256 + _) * 256 + _)),
    (push_octet (((0 * 256 + _) * 256 + _) * 256 + _)) by lia.
  assert (a / 2 ^ 24 < 256) by (apply Z.div_lt_upper_bound; lia).
  assert (0 <= a / 2 ^ 24) by (apply Z.div_pos; lia). rewrite (Z.mod_small (a / 2 ^ 24)) by lia.
  replace (2 ^ 24) with (2 ^ 8 * 2 ^ 16) by reflexivity. replace (2 ^ 16) with (2 ^ 8 * 2 ^ 8) by reflexivity.
  change (2 ^ 8) with 256. rewrite <- !Z.div_div by lia.
  pose proof (Z.div_mod a 256). pose proof (Z.div_mod (a / 256) 256). pose proof (Z.div_mod (a / 256 / 256) 256).
  lia.
Qed.

Lemma parse_formatIpv4 a : 0 <= a < 2 ^ 32 -> parseIpv4 (formatIpv4 a) = Some a.
Proof.
  intros Ha. unfold formatIpv4, parseIpv4. rewrite !octet_of by lia.
  replace (Z.land a 255) with (a mod 256) by (change 255 with (Z.ones 8); by rewrite Z.land_ones by lia).
  change (str ".") with ["."%char]. cbn [app].
  rewrite !octets_step, octets_last by (apply Z.mod_pos_bound; lia). f_equal. by apply quad_value.
Qed.

(** ** Networks *)

(** The first address and the size of the network a CIDR denotes. *)
Definition network4 (c : bytes) : option (Z * Z) :=
  match splitCidr c with
  | inr (addrText, p) => (fun a => (Z.land a (masterMask p), 2 ^ (32 - p))) <$> parseIpv4 addrText
  | inl _ => None
  end.

Lemma lor_bound a b n : 0 <= n -> 0 <= a < 2 ^ n -> 0 <= b < 2 ^ n -> 0 <= Z.lor a b < 2 ^ n.
Proof.
  intros Hn Ha Hb. assert (E : Z.lor a b = Z.lor a b mod 2 ^ n).
  { rewrite <- Z.land_ones, Z.land_lor_distr_l, !Z.land_ones, !Z.mod_small by lia. done. }
  rewrite E. apply Z.mod_pos_bound. lia.
Qed.

Lemma octetDigits_bound v n s r k rest : 0 <= v <= 255 -> octetDigits v n s = Some (r, k, rest) -> 0 <= r <= 255.
Proof.
  revert v n. induction s as [|c s IH]; cbn; intros v n Hv; [by intros [= <- _ _]|].
  destruct (is_digit c) eqn:D; [|by intros [= <- _ _]]. apply is_digit_val in D.
  destruct (Z.ltb_spec 255 (v * 10 + digit_val c)); [done|]. apply IH. lia.
Qed.

Lemma parseIpv4_bound s a : parseIpv4 s = Some a -> 0 <= a < 2 ^ 32.
Proof.
  unfold parseIpv4. enough (H : forall left acc s, 0 <= acc < 2 ^ 32 ->
    parseIpv4Octets left acc s = Some a -> 0 <= a < 2 ^ 32) by (apply H; lia).
  induction left as [|left IH]; intros acc s' Hacc; cbn [parseIpv4Octets].
  { destruct (is_empty s'); [by intros [= <-]|done]. }
  destruct s' as [|c t]; [done|]. destruct (negb (is_digit c)); [done|].
  destruct (octetDigits 0 0 (c :: t)) as [[[v n] rest]|] eqn:O; [|done].
  apply octetDigits_bound in O; [|lia]. destruct (_ && _); [done|].
  assert (Hb : 0 <= Z.lor (u32 (Z.shiftl acc 8)) v < 2 ^ 32).
  { apply lor_bound; [lia| |lia]. unfold u32. apply Z.mod_pos_bound. lia. }
  destruct left; [by apply IH|]. destruct rest as [|d rest]; [done|]. destruct (Ascii.eqb d "."); [by apply IH|done].
Qed.

(** Masking rounds down to the network's first address. *)
Lemma mask_floor a p : 0 <= a < 2 ^ 32 -> 0 <= p <= 32 ->
  Z.land a (masterMask p) = a / 2 ^ (32 - p) * 2 ^ (32 - p).
Proof.
  intros Ha Hp. rewrite <- Z.shiftl_mul_pow2, <- Z.shiftr_div_pow2 by lia. unfold masterMask.
  destruct (Z.eqb_spec p 0) as [->|]; [|clear n].
  { rewrite Z.shiftr_div_pow2, Z.div_small by lia. by rewrite Z.land_0_r. }
  change 4294967295 with (Z.ones 32). unfold u32. apply Z.bits_inj'. intros i Hi.
  rewrite Z.land_spec, Z.shiftl_spec by lia. destruct (Z.ltb_spec i 32).
  - rewrite Z.mod_pow2_bits_low, Z.shiftl_spec by lia. destruct (Z.ltb_spec i (32 - p)).
    + rewrite !(Z.testbit_neg_r _ (i - (32 - p))) by lia. by rewrite andb_false_r.
    + rewrite Z.ones_spec_low, Z.shiftr_spec by lia. rewrite andb_true_r. f_equal. lia.
  - rewrite Z.shiftr_spec by lia. replace (i - (32 - p) + (32 - p)) with i by lia.
    replace a with (a mod 2 ^ 32) by (by apply Z.mod_small). by rewrite Z.mod_pow2_bits_high by lia.
Qed.

Lemma prefixDigits_dec s : 0 <= s <= 32 -> prefixDigits 0 (dec s) = inr s /\ size_z (dec s) <= 3.
Proof.
  intros Hs. rewrite <- (code_chr s) by lia. assert (Hc : (code (chr s) <=? 32) = true) by (rewrite code_chr; lia).
  clear Hs. revert Hc. generalize (chr s). intros c Hc.
  enough (match prefixDigits 0 (dec (code c)) with inr p => p =? code c | inl _ => false end
          && (size_z (dec (code c)) <=? 3) = true) as [H1 H2]%andb_true_iff.
  { split; [|lia]. destruct (prefixDigits 0 (dec (code c))); [done|]. apply Z.eqb_eq in H1. by subst. }
  revert c Hc. by_bytes.
Qed.

Lemma formatIpv4_no_slash a : ~ In "/"%char (formatIpv4 a).
Proof.
  unfold formatIpv4. rewrite !in_app_iff. intros H.
  repeat destruct H as [H|H]; try (by apply dec_not_In in H); by repeat destruct H as [H|H].
Qed.

Lemma split_composed a s : 0 <= s <= 32 -> splitCidr (formatIpv4 a ++ str "/" ++ dec s) = inr (formatIpv4 a, s).
Proof.
  intros Hs. destruct (prefixDigits_dec s Hs) as [E Hl]. unfold splitCidr. change (str "/") with ["/"%char].
  cbn [app]. rewrite find_char_app by apply formatIpv4_no_slash.
  rewrite take_app_length. replace (drop (S _) _) with (dec s)
    by (change ("/"%char :: dec s) with (["/"%char] ++ dec s); rewrite app_assoc, drop_app_length'; [done|];
        rewrite length_app; cbn; lia).
  destruct (is_empty (dec s)) eqn:Em; [apply is_empty_true in Em; by apply dec_nonempty in Em|].
  destruct (Z.ltb_spec 3 (size_z (dec s))); [lia|]. cbn [orb]. by rewrite E.
Qed.

Lemma prefixDigits_nonneg p s r : 0 <= p -> prefixDigits p s = inr r -> 0 <= r.
Proof.
  revert p. induction s as [|c s IH]; cbn; intros p Hp; [by intros [= <-]|].
  destruct (is_digit c) eqn:D; [|done]. apply is_digit_val in D. cbn [negb].
  destruct (128 <? _); [done|]. apply IH. lia.
Qed.

Lemma splitCidr_nonneg c t p : splitCidr c = inr (t, p) -> 0 <= p.
Proof.
  unfold splitCidr. destruct (find_char "/" c) as [k|]; [|done]. destruct (_ || _); [done|].
  destruct (prefixDigits 0 _) as [|q] eqn:E; [done|]. intros [= <- <-].
  by apply (prefixDigits_nonneg 0) in E.
Qed.

(** The [u]-th of the 2^(s-p) blocks of the master network. *)
Lemma composeIpv4_network m s u : 0 <= u -> error (composeIpv4 m s u) = [] ->
  exists mb p, network4 m = Some (mb, 2 ^ (32 - p)) /\ 0 <= p < s /\ s <= 32 /\ u < 2 ^ (s - p)
    /\ network4 (cidr (composeIpv4 m s u)) = Some (mb + u * 2 ^ (32 - s), 2 ^ (32 - s))
    /\ 0 <= mb + u * 2 ^ (32 - s) < 2 ^ 32
    /\ cidr (composeIpv4 m s u) = formatIpv4 (mb + u * 2 ^ (32 - s)) ++ str "/" ++ dec s.
Proof.
  intros Hu. unfold composeIpv4, network4 at 1. destruct (splitCidr m) as [e|[addr p]] eqn:Es; [done|].
  apply splitCidr_nonneg in Es. destruct (Z.ltb_spec 32 p); [done|]. destruct (Z.ltb_spec 32 s); [done|].
  destruct (Z.leb_spec s p); [done|]. destruct (24 <? s - p); [done|].
  destruct (parseIpv4 addr) as [a|] eqn:Ea; [|done]. apply parseIpv4_bound in Ea.
  rewrite !Z.shiftl_mul_pow2 by lia. rewrite Z.mul_1_l. destruct (Z.leb_spec (2 ^ (s - p)) u); [done|].
  intros _. cbn [cidr ok fmap option_fmap option_map]. rewrite mask_floor by lia.
  set (q := a / 2 ^ (32 - p)).
  assert (Hk : 2 ^ (32 - p) = 2 ^ (s - p) * 2 ^ (32 - s)) by (rewrite <- Z.pow_add_r by lia; f_equal; lia).
  assert (Hpos : 0 < 2 ^ (32 - s)) by (apply Z.pow_pos_nonneg; lia).
  assert (Hq : 0 <= q < 2 ^ p).
  { unfold q. split; [apply Z.div_pos; lia|]. apply Z.div_lt_upper_bound; [lia|].
    rewrite <- Z.pow_add_r by lia. replace (32 - p + p) with 32 by lia. lia. }
  assert (H32 : 2 ^ 32 = 2 ^ p * 2 ^ (32 - p)) by (rewrite <- Z.pow_add_r by lia; f_equal; lia).
  assert (Hsub : 0 <= u * 2 ^ (32 - s) < 2 ^ (32 - p)) by (rewrite Hk; nia).
  assert (Hin : q * 2 ^ (32 - p) + 2 ^ (32 - p) <= 2 ^ 32) by (rewrite H32; nia).
  rewrite u32_small by lia. rewrite lor_below by lia. exists (q * 2 ^ (32 - p)), p.
  split; [done|]. split; [lia|]. split; [lia|]. split; [lia|]. split; [|split; [lia|done]].
  unfold network4. rewrite split_composed by lia. rewrite parse_formatIpv4 by lia. cbn [fmap option_fmap option_map].
  rewrite mask_floor by lia. do 2 f_equal. rewrite Hk at 1 2.
  replace (q * (2 ^ (s - p) * 2 ^ (32 - s)) + u * 2 ^ (32 - s)) with ((q * 2 ^ (s - p) + u) * 2 ^ (32 - s)) by lia.
  rewrite Z.div_mul by lia. lia.
Qed.

(** Per-user IPv4 networks.  Whenever [composeIpv4] succeeds for two
    different operators, the two CIDRs it returns, read back by the program's
    own parsers, denote networks inside the master network that have no
    address in common. *)
Theorem composeIpv4_disjoint (master : bytes) (subPrefixLen u v : Z)
  (cu := composeIpv4 master subPrefixLen u) (cv := composeIpv4 master subPrefixLen v) :
  0 <= u -> 0 <= v -> u <> v -> error cu = [] -> error cv = [] ->
  exists base size a b n,
    network4 master = Some (base, size) /\ network4 (cidr cu) = Some (a, n) /\ network4 (cidr cv) = Some (b, n)
    /\ base <= a /\ a + n <= base + size /\ base <= b /\ b + n <= base + size
    /\ forall x, a <= x < a + n -> b <= x < b + n -> False.
Proof.
  intros Hu Hv Hne Eu Ev. destruct (composeIpv4_network _ _ _ Hu Eu) as (mb & p & Hm & Hp & Hs & Hlu & Hnu & _).
  destruct (composeIpv4_network _ _ _ Hv Ev) as (mb' & p' & Hm' & Hp' & _ & Hlv & Hnv & _).
  rewrite Hm in Hm'. injection Hm' as <- Ep. apply Z.pow_inj_r in Ep; [|lia..].
  assert (p' = p) as -> by lia. exists mb, (2 ^ (32 - p)). do 3 eexists. split; [done|].
  split; [exact Hnu|]. split; [exact Hnv|].
  assert (Hk : 2 ^ (32 - p) = 2 ^ (subPrefixLen - p) * 2 ^ (32 - subPrefixLen))
    by (rewrite <- Z.pow_add_r by lia; f_equal; lia).
  assert (Hpos : 0 < 2 ^ (32 - subPrefixLen)) by (apply Z.pow_pos_nonneg; lia).
  rewrite Hk. set (k := 2 ^ (32 - subPrefixLen)) in *. set (c := 2 ^ (subPrefixLen - p)) in *.
  assert (forall i j, 0 <= i -> i < j -> i * k + k <= j * k) as Hmul by (intros; nia).
  pose proof (Hmul u c Hu Hlu). pose proof (Hmul v c Hv Hlv).
  assert (0 <= u * k /\ 0 <= v * k) as [? ?] by (split; nia). repeat (split; [lia|]). intros x Hx Hy.
  assert (u < v \/ v < u) as [Hlt|Hlt] by lia; apply Hmul in Hlt; lia.
Qed.

Lemma composeIpv4_disjoint_witness :
  cidr (composeIpv4 (str "10.66.0.0/16") 24 7) = str "10.66.7.0/24"
  /\ exists base size a b n,
    network4 (str "10.66.0.0/16") = Some (base, size)
    /\ network4 (cidr (composeIpv4 (str "10.66.0.0/16") 24 7)) = Some (a, n)
    /\ network4 (cidr (composeIpv4 (str "10.66.0.0/16") 24 9)) = Some (b, n)
    /\ base <= a /\ a + n <= base + size /\ base <= b /\ b + n <= base + size
    /\ forall x, a <= x < a + n -> b <= x < b + n -> False.
Proof.
  split; [reflexivity|]. apply composeIpv4_disjoint; [lia|lia|lia|reflexivity|reflexivity].
Defined.

End PerUserNet.

(** ** The per-user environment of an operator: lib/per_user_env_pure.cpp

    Composes the runtime paths, the dataset and path prefixes, the loginclass
    and the sub-networks of one uid into the [Env] the privops authorizer
    checks against. *)


Module PerUserEnv.

Record Config := {
  zfsMasterPrefix : bytes; pathMasterPrefixCfg : bytes;
  networkMasterCidr4 : bytes; networkSubPrefixLen4 : Z;
  networkMasterCidr6 : bytes; networkSubPrefixLen6 : Z }.

Record Env := {
  uid : Z;
  runtimeRoot : bytes; leasesDir : bytes; exportsDir : bytes; importsDir : bytes;
  auditLog : bytes;
  zfsPrefix : bytes;
  pathPrefix : bytes;
  pathMasterPrefix : bytes;
  ipv4SubCidr : bytes; ipv6SubCidr : bytes;
  loginclass : bytes; loginclassSubject : bytes }.

(** A default-constructed [Env] with its [uid] set. *)
Definition emptyEnv (u : Z) : Env :=
  {| uid := u; runtimeRoot := []; leasesDir := []; exportsDir := []; importsDir := [];
     auditLog := []; zfsPrefix := []; pathPrefix := []; pathMasterPrefix := [];
     ipv4SubCidr := []; ipv6SubCidr := []; loginclass := []; loginclassSubject := [] |}.

Definition withNets (v4 v6 : bytes) (e : Env) : Env :=
  {| uid := uid e; runtimeRoot := runtimeRoot e; leasesDir := leasesDir e;
     exportsDir := exportsDir e; importsDir := importsDir e; auditLog := auditLog e;
     zfsPrefix := zfsPrefix e; pathPrefix := pathPrefix e;
     pathMasterPrefix := pathMasterPrefix e; ipv4SubCidr := v4; ipv6SubCidr := v6;
     loginclass := loginclass e; loginclassSubject := loginclassSubject e |}.

(** Everything but the networks. *)
Definition baseEnv (cfg : Config) (u : Z) : Env :=
  let pathBase := ZfsDataset.stripSlash (pathMasterPrefixCfg cfg) in
  let pathOn := negb (is_empty (pathMasterPrefixCfg cfg)) in
  {| uid := u;
     runtimeRoot := RuntimePaths.perUserRoot u;
     leasesDir := RuntimePaths.perUserLeasesDir u;
     exportsDir := RuntimePaths.perUserExportsDir u;
     importsDir := RuntimePaths.perUserImportsDir u;
     auditLog := RuntimePaths.perUserAuditLog u;
     zfsPrefix := if is_empty (zfsMasterPrefix cfg) then []
                  else ZfsDataset.composePerUserPrefix (zfsMasterPrefix cfg) u;
     pathPrefix := if pathOn then pathBase ++ str "/" ++ dec u else [];
     pathMasterPrefix := if pathOn then pathBase else [];
     ipv4SubCidr := []; ipv6SubCidr := [];
     loginclass := PerUserRctl.loginclassName u;
     loginclassSubject := PerUserRctl.loginclassSubject u |}.

(** The environment and the error; an error leaves the environment as far as
    it was composed. *)
Definition composeForUid (cfg : Config) (u : Z) : Env * bytes :=
  match RuntimePaths.validateUid u with
  | (_ :: _) as e => (emptyEnv u, str "uid: " ++ e)
  | [] =>
      let base := baseEnv cfg u in
      let v4 := if is_empty (networkMasterCidr4 cfg) then PerUserNet.ok []
                else PerUserNet.composeIpv4 (networkMasterCidr4 cfg) (networkSubPrefixLen4 cfg) u in
      if negb (is_empty (PerUserNet.error v4))
      then (base, str "ipv4: " ++ PerUserNet.error v4)
      else
        let v6 := if is_empty (networkMasterCidr6 cfg) then PerUserNet.ok []
                  else PerUserNet.composeIpv6 (networkMasterCidr6 cfg) (networkSubPrefixLen6 cfg) u in
        if negb (is_empty (PerUserNet.error v6))
        then (withNets (PerUserNet.cidr v4) [] base, str "ipv6: " ++ PerUserNet.error v6)
        else (withNets (PerUserNet.cidr v4) (PerUserNet.cidr v6) base, [])
  end.

(** The fields the authorizer reads are those of [baseEnv], whatever happened
    to the networks, for every uid up to [INT32_MAX]. *)
Lemma composeForUid_base cfg u :
  0 <= u <= RuntimePaths.int32_max ->
  let e := fst (composeForUid cfg u) in
  uid e = u /\ zfsPrefix e = zfsPrefix (baseEnv cfg u)
  /\ pathPrefix e = pathPrefix (baseEnv cfg u)
  /\ pathMasterPrefix e = pathMasterPrefix (baseEnv cfg u)
  /\ loginclass e = PerUserRctl.loginclassName u.
Proof.
  intros Hu. unfold composeForUid, RuntimePaths.validateUid.
  destruct (Z.ltb_spec u 0); [lia|]. destruct (Z.ltb_spec RuntimePaths.int32_max u); [lia|].
  cbn zeta. destruct (negb _); [done|]. destruct (negb _); done.
Qed.

(** Past [INT32_MAX] nothing is composed. *)
Lemma composeForUid_big cfg u :
  RuntimePaths.int32_max < u -> fst (composeForUid cfg u) = emptyEnv u.
Proof.
  intros Hu. unfold composeForUid, RuntimePaths.validateUid.
  destruct (Z.ltb_spec u 0); [unfold RuntimePaths.int32_max in *; lia|].
  destruct (Z.ltb_spec RuntimePaths.int32_max u); [done|lia].
Qed.

Lemma zfs_uidStr_dec u : 0 <= u -> ZfsDataset.datasetUidStr u = dec u.
Proof. apply PerUserRctl.uidStr_dec. Qed.

End PerUserEnv.
