(* ===== verification/PrivOps.v ===== *)
(** * Privileged operations: lib/privops_pure.{h,cpp}

    The verbs crated executes as root for an unprivileged [crate(1)], the
    request record of each verb, the field validators and the per-verb
    validators.  A validator returns an error message, empty on success. *)

From S2P Require Import Prelude Limits PerUser.

Module PrivOps.

(** ** Shared helpers *)

Definition isAlnum (c : ascii) : bool := is_lower c || is_upper c || is_digit c.
Definition isHexDigit (c : ascii) : bool :=
  is_digit c || in_range "a" "f" c || in_range "A" "F" c.

Definition shellMeta (c : ascii) : bool :=
  one_of (str ";`$|&<>\*?'" ++ [newline; cr; dquote]) c.

Definition hasShellMetachar (s : bytes) : bool := existsb shellMeta s.

(** The scan visits the ['/']-separated segments left to right. *)
Definition hasDotDotSegment (p : bytes) : bool :=
  existsb (fun seg => beq seg (str "..")) (split_on "/" p).

Definition ulong_max : Z := 2 ^ 64 - 1.

(** Accumulates an [unsigned long], refusing before it would overflow. *)
Fixpoint parseUnsignedDecLoop (acc : Z) (s : bytes) : option Z :=
  match s with
  | [] => Some acc
  | c :: t =>
      if negb (is_digit c) then None
      else
        let n := digit_val c in
        if (ulong_max - n) / 10 <? acc then None
        else parseUnsignedDecLoop (acc * 10 + n) t
  end.

Definition parseUnsignedDec (s : bytes) : option Z :=
  if is_empty s then None else parseUnsignedDecLoop 0 s.

(** ** Verbs *)

Inductive Verb :=
| Unknown
| CreateJail | DestroyJail
| MountNullfs | UnmountNullfs
| SetRctl | ClearRctl
| AttachZfs | DetachZfs
| ConfigureIface | TeardownIface
| AddPfRule | RemovePfRule | AddIpfwRule | RemoveIpfwRule
| SetIfaceUp | DisableIfaceOffload
| BridgeAddMember | BridgeDelMember
| SetIfaceInetAddr
| CreateEpair
| EnsureUserRoot
| SetLoginclassRctl | ClearLoginclassRctl
| ReclaimIfaceFromVnet
| FlushPfAnchor
| QueryJailRctl
| ConfigureIpfwNat
| SetJailCpuset
| ApplyDevfsRuleset
| AddDevfsUnhideRule
| SignalJail
| ExecInJail
| SetIfaceMac | DeleteIpfwNat | CreateBridge
| AcquireFwLease | ReleaseFwLease
| ApplyDevfsRules
| MountTmpfs.

#[global] Instance Verb_eq_dec : EqDecision Verb.
Proof. solve_decision. Defined.

Definition verbName (v : Verb) : bytes :=
  match v with
  | CreateJail => str "create_jail"
  | DestroyJail => str "destroy_jail"
  | MountNullfs => str "mount_nullfs"
  | UnmountNullfs => str "unmount_nullfs"
  | SetRctl => str "set_rctl"
  | ClearRctl => str "clear_rctl"
  | AttachZfs => str "attach_zfs"
  | DetachZfs => str "detach_zfs"
  | ConfigureIface => str "configure_iface"
  | TeardownIface => str "teardown_iface"
  | AddPfRule => str "add_pf_rule"
  | RemovePfRule => str "remove_pf_rule"
  | AddIpfwRule => str "add_ipfw_rule"
  | RemoveIpfwRule => str "remove_ipfw_rule"
  | SetIfaceUp => str "set_iface_up"
  | DisableIfaceOffload => str "disable_iface_offload"
  | BridgeAddMember => str "bridge_add_member"
  | BridgeDelMember => str "bridge_del_member"
  | SetIfaceInetAddr => str "set_iface_inet_addr"
  | CreateEpair => str "create_epair"
  | EnsureUserRoot => str "ensure_user_root"
  | SetLoginclassRctl => str "set_loginclass_rctl"
  | ClearLoginclassRctl => str "clear_loginclass_rctl"
  | ReclaimIfaceFromVnet => str "reclaim_iface_from_vnet"
  | FlushPfAnchor => str "flush_pf_anchor"
  | QueryJailRctl => str "query_jail_rctl"
  | ConfigureIpfwNat => str "configure_ipfw_nat"
  | SetJailCpuset => str "set_jail_cpuset"
  | ApplyDevfsRuleset => str "apply_devfs_ruleset"
  | AddDevfsUnhideRule => str "add_devfs_unhide_rule"
  | SignalJail => str "signal_jail"
  | ExecInJail => str "exec_in_jail"
  | SetIfaceMac => str "set_iface_mac"
  | DeleteIpfwNat => str "delete_ipfw_nat"
  | CreateBridge => str "create_bridge"
  | AcquireFwLease => str "acquire_fw_lease"
  | ReleaseFwLease => str "release_fw_lease"
  | ApplyDevfsRules => str "apply_devfs_rules"
  | MountTmpfs => str "mount_tmpfs"
  | Unknown => str "unknown"
  end.

(** The [if (name == "...") return Verb::...] chain, in source order. *)
Definition verbChain : list (bytes * Verb) :=
  [ (str "create_jail", CreateJail);
    (str "destroy_jail", DestroyJail);
    (str "mount_nullfs", MountNullfs);
    (str "unmount_nullfs", UnmountNullfs);
    (str "set_rctl", SetRctl);
    (str "clear_rctl", ClearRctl);
    (str "attach_zfs", AttachZfs);
    (str "detach_zfs", DetachZfs);
    (str "configure_iface", ConfigureIface);
    (str "teardown_iface", TeardownIface);
    (str "add_pf_rule", AddPfRule);
    (str "remove_pf_rule", RemovePfRule);
    (str "add_ipfw_rule", AddIpfwRule);
    (str "remove_ipfw_rule", RemoveIpfwRule);
    (str "set_iface_up", SetIfaceUp);
    (str "disable_iface_offload", DisableIfaceOffload);
    (str "bridge_add_member", BridgeAddMember);
    (str "bridge_del_member", BridgeDelMember);
    (str "set_iface_inet_addr", SetIfaceInetAddr);
    (str "create_epair", CreateEpair);
    (str "ensure_user_root", EnsureUserRoot);
    (str "set_loginclass_rctl", SetLoginclassRctl);
    (str "clear_loginclass_rctl", ClearLoginclassRctl);
    (str "reclaim_iface_from_vnet", ReclaimIfaceFromVnet);
    (str "flush_pf_anchor", FlushPfAnchor);
    (str "query_jail_rctl", QueryJailRctl);
    (str "configure_ipfw_nat", ConfigureIpfwNat);
    (str "set_jail_cpuset", SetJailCpuset);
    (str "apply_devfs_ruleset", ApplyDevfsRuleset);
    (str "add_devfs_unhide_rule", AddDevfsUnhideRule);
    (str "signal_jail", SignalJail);
    (str "exec_in_jail", ExecInJail);
    (str "set_iface_mac", SetIfaceMac);
    (str "delete_ipfw_nat", DeleteIpfwNat);
    (str "create_bridge", CreateBridge);
    (str "acquire_fw_lease", AcquireFwLease);
    (str "release_fw_lease", ReleaseFwLease);
    (str "apply_devfs_rules", ApplyDevfsRules);
    (str "mount_tmpfs", MountTmpfs) ].

Definition parseVerb (name : bytes) : Verb :=
  match List.find (fun nv => beq name (fst nv)) verbChain with
  | Some (_, v) => v
  | None => Unknown
  end.

(** ** Field validators *)

Definition kKernelJailName : Z := 200.

Definition validateJailName (name : bytes) : bytes :=
  reject is_empty name with str "jail name is empty";
  reject kKernelJailName <? size_z name with
    (str "jail name longer than " ++ dec kKernelJailName ++ str " chars");
  reject beq name (str ".") || beq name (str "..") with str "jail name is reserved";
  check_chars (fun c => isAlnum c || one_of (str "._-") c) (str "jail name") name.

(** One dot-separated label: its bytes are checked as the scan passes them,
    its length and hyphens when the scan reaches the dot (or the end). *)
Definition validateHostLabel (label : bytes) : bytes :=
  ensure check_chars (fun c => isAlnum c || one_of (str "-") c) (str "hostname") label;
  reject size_z label =? 0 with str "empty label in hostname";
  reject 63 <? size_z label with str "hostname label longer than 63 chars";
  reject starts_with (str "-") label || backIs "-" label with
    str "hostname label starts or ends with hyphen";
  [].

Fixpoint validateHostLabels (labels : list bytes) : bytes :=
  match labels with
  | [] => []
  | l :: rest => ensure validateHostLabel l; validateHostLabels rest
  end.

Definition validateHostname (h : bytes) : bytes :=
  reject is_empty h with [];
  reject 253 <? size_z h with str "hostname longer than 253 chars";
  validateHostLabels (split_on "." h).

Definition validateAbsolutePath (p : bytes) : bytes :=
  reject is_empty p with str "path is empty";
  reject 1024 <? size_z p with str "path longer than 1024 chars";
  reject negb (starts_with (str "/") p) with str "path must be absolute";
  reject hasDotDotSegment p with str "path must not contain '..' segments";
  reject hasShellMetachar p with str "path contains shell metacharacters";
  [].

Definition validateZfsDataset (ds : bytes) : bytes :=
  reject is_empty ds with str "dataset is empty";
  reject 255 <? size_z ds with str "dataset longer than 255 chars";
  reject starts_with (str "/") ds with str "dataset must not start with '/'";
  reject backIs "/" ds with str "dataset must not end with '/'";
  reject has_sub (str "//") ds with str "dataset must not contain '//'";
  check_chars (fun c => isAlnum c || one_of (str "._-/:") c) (str "dataset") ds.

Definition validateIfaceName (name : bytes) : bytes :=
  reject is_empty name with str "interface name is empty";
  reject 15 <? size_z name with str "interface name longer than 15 chars";
  check_chars (fun c => isAlnum c || one_of (str "._-") c) (str "interface name") name.

(** The index loop of [validateMacAddress] from position [i]. *)
Fixpoint macLoop (i : Z) (sep : ascii) (s : bytes) : bytes :=
  match s with
  | [] => []
  | c :: t =>
      if i mod 3 =? 2 then
        if negb (Ascii.eqb c sep) then str "inconsistent MAC separator"
        else macLoop (i + 1) sep t
      else if negb (isHexDigit c) then str "MAC must be hex digits"
      else macLoop (i + 1) sep t
  end.

Definition hexDigitVal (c : ascii) : Z :=
  if is_digit c then code c - 48
  else if in_range "a" "f" c then 10 + code c - 97
  else u32 (10 + code c - 65).

Definition macFirstOctet (mac : bytes) : Z :=
  fold_left (fun a c => u32 (a * 16 + hexDigitVal c)) (take 2 mac) 0.

Definition validateMacAddress (mac : bytes) : bytes :=
  reject is_empty mac with [];
  reject negb (size_z mac =? 17) with str "MAC must be 17 chars (aa:bb:cc:dd:ee:ff)";
  let sep := default nul (mac !! 2%nat) in
  reject negb (Ascii.eqb sep ":") && negb (Ascii.eqb sep "-") with
    str "MAC separator must be ':' or '-'";
  ensure macLoop 0 sep mac;
  reject Z.testbit (macFirstOctet mac) 0 with str "MAC multicast bit set in first octet";
  [].

(** [-1] is [None]. *)
Definition parseIpv4Octet (s : bytes) : option Z :=
  if is_empty s || (3 <? size_z s) then None
  else if (1 <? size_z s) && starts_with (str "0") s then None
  else match parseUnsignedDec s with
       | Some v => if 255 <? v then None else Some v
       | None => None
       end.

(** [cidr.substr(0, slash)] and [cidr.substr(slash + 1)]. *)
Definition cutAt (i : nat) (s : bytes) : bytes * bytes := (take i s, drop (S i) s).

Definition prefixLenOk (max : Z) (plen : bytes) : bool :=
  match parseUnsignedDec plen with Some pv => pv <=? max | None => false end.

Definition validateIpv4Cidr (cidr : bytes) : bytes :=
  reject is_empty cidr with [];
  match find_char "/" cidr with
  | None => str "IPv4 CIDR missing '/' prefix length"
  | Some slash =>
      let '(addr, plen) := cutAt slash cidr in
      reject negb (prefixLenOk 32 plen) with str "IPv4 prefix length out of range (0..32)";
      let parts := split_on "." addr in
      reject negb (size_z parts =? 4) with str "IPv4 address must have 4 octets";
      reject negb (forallb (fun p => match parseIpv4Octet p with Some _ => true | None => false end)
                     parts) with
        str "IPv4 octet out of range or malformed";
      []
  end.

(** The group scan of [validateIpv6Cidr]; the result is the error, or the
    number of groups, whether ["::"] was seen and the last open group. *)
Fixpoint v6Loop (cur : bytes) (groups : Z) (sawDoubleColon : bool) (s : bytes)
  : bytes + (Z * bool * bytes) :=
  match s with
  | [] => inr (groups, sawDoubleColon, cur)
  | c :: t =>
      if Ascii.eqb c ":" then
        match t with
        | c2 :: t2 =>
            if Ascii.eqb c2 ":" then
              if sawDoubleColon then inl (str "IPv6 address has more than one '::'")
              else if is_empty cur then v6Loop [] groups true t2
              else if 4 <? size_z cur then inl (str "IPv6 group longer than 4 hex digits")
              else v6Loop [] (groups + 1) true t2
            else if is_empty cur then inl (str "empty IPv6 group")
            else if 4 <? size_z cur then inl (str "IPv6 group longer than 4 hex digits")
            else v6Loop [] (groups + 1) sawDoubleColon t
        | [] =>
            if is_empty cur then inl (str "empty IPv6 group")
            else if 4 <? size_z cur then inl (str "IPv6 group longer than 4 hex digits")
            else v6Loop [] (groups + 1) sawDoubleColon t
        end
      else if negb (isHexDigit c) then
        inl (str "invalid character '" ++ [c] ++ str "' in IPv6 address")
      else v6Loop (cur ++ [c]) groups sawDoubleColon t
  end.

(** [addr.find("::", addr.find("::") + 1) != npos] *)
Definition twoDoubleColons (addr : bytes) : bool :=
  match find_sub (str "::") addr with
  | Some i => has_sub (str "::") (drop (S i) addr)
  | None => false
  end.

Definition validateIpv6Cidr (cidr : bytes) : bytes :=
  reject is_empty cidr with [];
  match find_char "/" cidr with
  | None => str "IPv6 CIDR missing '/' prefix length"
  | Some slash =>
      let '(addr, plen) := cutAt slash cidr in
      reject negb (prefixLenOk 128 plen) with str "IPv6 prefix length out of range (0..128)";
      reject is_empty addr with str "IPv6 address is empty";
      reject 45 <? size_z addr with str "IPv6 address longer than 45 chars";
      reject twoDoubleColons addr with str "IPv6 address has more than one '::'";
      match v6Loop [] 0 false addr with
      | inl e => e
      | inr (groups0, sawDoubleColon, cur) =>
          reject negb (is_empty cur) && (4 <? size_z cur) with
            str "IPv6 group longer than 4 hex digits";
          let groups := if is_empty cur then groups0 else groups0 + 1 in
          if sawDoubleColon then
            (reject 7 <? groups with str "IPv6 has too many groups around '::'"; [])
          else
            (reject negb (groups =? 8) with str "IPv6 must have 8 groups when '::' is absent"; [])
      end
  end.

Fixpoint ruleTextLoop (s : bytes) : bytes :=
  match s with
  | [] => []
  | c :: t =>
      if one_of [newline; cr] c then str "rule text must be a single line"
      else if one_of (str "`$;\") c then str "rule text contains shell metacharacters"
      else ruleTextLoop t
  end.

Definition validateRuleText (text : bytes) : bytes :=
  reject is_empty text with str "rule text is empty";
  reject 1024 <? size_z text with str "rule text longer than 1024 chars";
  ruleTextLoop text.

Definition validateAnchorName (name : bytes) : bytes :=
  reject is_empty name with str "anchor name is empty";
  reject 256 <? size_z name with str "anchor name longer than 256 chars";
  check_chars (fun c => isAlnum c || one_of (str "._-/") c) (str "anchor name") name.

Definition ipfwActions : list bytes :=
  [ str "allow"; str "deny"; str "skipto"; str "nat"; str "fwd"; str "count";
    str "check-state"; str "reset" ].

Definition validateIpfwAction (action : bytes) : bytes :=
  if existsb (beq action) ipfwActions then [] else str "unknown ipfw action".

(** ** jail(8) parameters of create_jail *)

Inductive ParamKind := PBool | PEnforceStatfs | PSecurelevel | PUnsigned | PUint32 | PUuid.

Definition kJailParamWhitelist : list (bytes * ParamKind) :=
  [ (str "allow.raw_sockets", PBool);
    (str "allow.socket_af", PBool);
    (str "allow.sysvipc", PBool);
    (str "allow.mount", PBool);
    (str "allow.mount.zfs", PBool);
    (str "allow.quotas", PBool);
    (str "allow.set_hostname", PBool);
    (str "allow.chflags", PBool);
    (str "allow.mlock", PBool);
    (str "enforce_statfs", PEnforceStatfs);
    (str "securelevel", PSecurelevel);
    (str "children.max", PUnsigned);
    (str "host.hostuuid", PUuid);
    (str "host.hostid", PUint32) ].

Definition allDigits (s : bytes) : bool := negb (is_empty s) && forallb is_digit s.

Definition uuidDash (i : Z) : bool := (i =? 8) || (i =? 13) || (i =? 18) || (i =? 23).

Fixpoint uuidLoop (i : Z) (s : bytes) : bool :=
  match s with
  | [] => true
  | c :: t => (if uuidDash i then Ascii.eqb c "-" else isHexDigit c) && uuidLoop (i + 1) t
  end.

Definition anyOf (v : bytes) (l : list bytes) : bool := existsb (beq v) l.

Definition validateJailParamValue (kind : ParamKind) (v : bytes) : bytes :=
  match kind with
  | PBool =>
      if anyOf v [str "0"; str "1"; str "true"; str "false"] then []
      else str "expected 0/1/true/false"
  | PEnforceStatfs =>
      if anyOf v [str "0"; str "1"; str "2"] then [] else str "expected 0, 1 or 2"
  | PSecurelevel =>
      if anyOf v [str "-1"; str "0"; str "1"; str "2"; str "3"] then []
      else str "expected -1..3"
  | PUnsigned =>
      if allDigits v && (size_z v <=? 9) then [] else str "expected an unsigned integer"
  | PUint32 =>
      if allDigits v && (size_z v <=? 10) && (dec_value v <=? 4294967295) then []
      else str "expected a 32-bit unsigned integer"
  | PUuid =>
      reject negb (size_z v =? 36) with str "expected a UUID";
      reject negb (uuidLoop 0 v) with str "expected a UUID";
      []
  end.

Definition whitelistHelp : bytes :=
  str "(allowed: allow.raw_sockets allow.socket_af allow.sysvipc allow.mount " ++
  str "allow.mount.zfs allow.quotas allow.set_hostname allow.chflags allow.mlock " ++
  str "enforce_statfs securelevel children.max host.hostuuid host.hostid)".

Definition lookupParam (key : bytes) : option ParamKind :=
  snd <$> List.find (fun ks => beq key (fst ks)) kJailParamWhitelist.

Definition validateJailToken (tok : bytes) : bytes :=
  let notKv := str "jail parameters: token '" ++ tok ++ str "' is not key=value" in
  match find_char "=" tok with
  | None => notKv
  | Some eq =>
      reject (Z.of_nat eq =? 0) || (size_z tok <=? Z.of_nat eq + 1) with notKv;
      let '(key, val) := cutAt eq tok in
      match lookupParam key with
      | None =>
          str "jail parameters: '" ++ key ++ str "' is not an allowed jail parameter "
          ++ whitelistHelp
      | Some kind =>
          guard_err (str "jail parameters: '" ++ key ++ str "=" ++ val ++ str "': ")
            (validateJailParamValue kind val) []
      end
  end.

Fixpoint validateJailTokens (toks : list bytes) : bytes :=
  match toks with
  | [] => []
  | t :: rest => ensure validateJailToken t; validateJailTokens rest
  end.

Definition validateJailParameters (parameters : bytes) : bytes :=
  reject is_empty parameters with [];
  reject 4096 <? size_z parameters with str "jail parameters longer than 4096 chars";
  ensure validateRuleText parameters as "jail parameters: ";
  validateJailTokens (words parameters).

(** ** Requests

    One record per verb, field for field; [long] and [unsigned] fields are [Z]
    (the parsers keep them in range, see [PrivOpsNv]). *)

Record CreateJailReq := {
  cj_name : bytes; cj_path : bytes; cj_hostname : bytes; cj_vnet : bool;
  cj_parameters : bytes }.
Record DestroyJailReq := { dj_name : bytes; dj_force : bool }.
Record MountNullfsReq := { mn_source : bytes; mn_target : bytes; mn_readOnly : bool }.
Record UnmountNullfsReq := { un_target : bytes; un_force : bool }.
Record SetRctlReq := { sr_jid : Z; sr_key : bytes; sr_rawValue : bytes }.
Record ClearRctlReq := { cr_jid : Z; cr_key : bytes }.
Record ZfsReq := { zr_jid : Z; zr_dataset : bytes }.
Record ConfigureIfaceReq := {
  ci_jid : Z; ci_ifname : bytes; ci_bridge : bytes; ci_ipv4Cidr : bytes;
  ci_ipv6Cidr : bytes; ci_macAddr : bytes }.
Record IfnameReq := { if_ifname : bytes }.
Record PfRuleReq := { pf_anchor : bytes; pf_ruleText : bytes }.
Record AddIpfwRuleReq := { ai_set : Z; ai_number : Z; ai_action : bytes; ai_body : bytes }.
Record RemoveIpfwRuleReq := { ri_set : Z; ri_number : Z }.
Record BridgeMemberReq := { bm_bridge : bytes; bm_member : bytes }.
Record SetIfaceInetAddrReq := {
  sa_ifname : bytes; sa_addr : bytes; sa_prefixLen : Z; sa_inet6 : bool }.
Record SetLoginclassRctlReq := { sl_loginclass : bytes; sl_key : bytes; sl_rawValue : bytes }.
Record ClearLoginclassRctlReq := { cl_loginclass : bytes; cl_key : bytes }.
Record ReclaimIfaceReq := { rc_ifname : bytes; rc_jailName : bytes }.
Record FlushPfAnchorReq := { fa_anchor : bytes }.
Record QueryJailRctlReq := { qr_jid : Z; qr_limits : bool }.
Record ConfigureIpfwNatReq := { cn_number : Z; cn_config : bytes }.
Record SetJailCpusetReq := { sc_jid : Z; sc_cpuset : bytes }.
Record ApplyDevfsRulesetReq := { ad_mountPath : bytes; ad_ruleset : Z }.
Record AddDevfsUnhideRuleReq := { au_mountPath : bytes; au_pathPattern : bytes }.
Record SignalJailReq := { sj_jid : Z; sj_signal : bytes }.
Record ExecInJailReq := { ex_jid : Z; ex_user : bytes; ex_argv : list bytes; ex_term : bytes }.
Record SetIfaceMacReq := { sm_ifname : bytes; sm_mac : bytes }.
Record DeleteIpfwNatReq := { dn_number : Z }.
Record CreateBridgeReq := { cb_name : bytes }.
Record AcquireFwLeaseReq := { af_jid : Z; af_slot : bool; af_fwd4 : bool; af_fwd6 : bool }.
Record ReleaseFwLeaseReq := { rf_jid : Z }.
Record ApplyDevfsRulesReq := { ar_mountPath : bytes; ar_ruleset : Z; ar_rules : list bytes }.
Record MountTmpfsReq := {
  mt_target : bytes; mt_size : bytes; mt_uid : bytes; mt_gid : bytes; mt_mode : bytes }.

(** ** Per-verb validators *)

Definition validateCreateJail (r : CreateJailReq) : bytes :=
  ensure validateJailName (cj_name r);
  ensure validateAbsolutePath (cj_path r);
  ensure validateHostname (cj_hostname r);
  ensure validateJailParameters (cj_parameters r);
  [].

Definition validateDestroyJail (r : DestroyJailReq) : bytes :=
  ensure validateJailName (dj_name r); [].

Definition validateMountNullfs (r : MountNullfsReq) : bytes :=
  ensure validateAbsolutePath (mn_source r) as "source: ";
  ensure validateAbsolutePath (mn_target r) as "target: ";
  [].

Definition validateUnmountNullfs (r : UnmountNullfsReq) : bytes :=
  ensure validateAbsolutePath (un_target r) as "target: "; [].

Definition validateMountTmpfs (r : MountTmpfsReq) : bytes :=
  ensure validateAbsolutePath (mt_target r) as "target: ";
  ensure Mounts.validateTmpfsSize (mt_size r) as "size: ";
  ensure (if is_empty (mt_uid r) then [] else Mounts.validateDecimal (mt_uid r) (str "uid"));
  ensure (if is_empty (mt_gid r) then [] else Mounts.validateDecimal (mt_gid r) (str "gid"));
  reject negb (Bool.eqb (is_empty (mt_uid r)) (is_empty (mt_gid r))) with
    str "uid and gid must be given together";
  ensure (if is_empty (mt_mode r) then [] else Mounts.validateOctalMode (mt_mode r));
  [].

Definition validateSetRctl (r : SetRctlReq) : bytes :=
  reject sr_jid r <? 1 with str "jid must be >= 1";
  ensure Retune.validateRctlKey (sr_key r);
  ensure Retune.validateRctlValue (sr_key r) (sr_rawValue r);
  [].

Definition validateClearRctl (r : ClearRctlReq) : bytes :=
  reject cr_jid r <? 1 with str "jid must be >= 1";
  ensure Retune.validateRctlKey (cr_key r);
  [].

Definition validateAttachZfs (r : ZfsReq) : bytes :=
  reject zr_jid r <? 1 with str "jid must be >= 1";
  ensure validateZfsDataset (zr_dataset r);
  [].

Definition validateDetachZfs (r : ZfsReq) : bytes :=
  reject zr_jid r <? 1 with str "jid must be >= 1";
  ensure validateZfsDataset (zr_dataset r);
  [].

Definition validateConfigureIface (r : ConfigureIfaceReq) : bytes :=
  reject ci_jid r <? 1 with str "jid must be >= 1";
  ensure validateIfaceName (ci_ifname r) as "ifname: ";
  ensure (if is_empty (ci_bridge r) then [] else validateIfaceName (ci_bridge r)) as "bridge: ";
  ensure validateIpv4Cidr (ci_ipv4Cidr r) as "ipv4: ";
  ensure validateIpv6Cidr (ci_ipv6Cidr r) as "ipv6: ";
  ensure validateMacAddress (ci_macAddr r) as "mac: ";
  [].

Definition validateTeardownIface (r : IfnameReq) : bytes :=
  ensure validateIfaceName (if_ifname r); [].

Definition validateAddPfRule (r : PfRuleReq) : bytes :=
  ensure validateAnchorName (pf_anchor r) as "anchor: ";
  ensure validateRuleText (pf_ruleText r) as "rule: ";
  [].

Definition validateRemovePfRule (r : PfRuleReq) : bytes :=
  ensure validateAnchorName (pf_anchor r) as "anchor: ";
  ensure validateRuleText (pf_ruleText r) as "rule: ";
  [].

Definition validateAddIpfwRule (r : AddIpfwRuleReq) : bytes :=
  reject 31 <? ai_set r with str "ipfw set out of range (0..31)";
  reject (ai_number r <? 1) || (65534 <? ai_number r) with
    str "ipfw rule number out of range (1..65534)";
  ensure validateIpfwAction (ai_action r);
  ensure validateRuleText (ai_body r) as "body: ";
  [].

Definition validateRemoveIpfwRule (r : RemoveIpfwRuleReq) : bytes :=
  reject 31 <? ri_set r with str "ipfw set out of range (0..31)";
  reject (ri_number r <? 1) || (65534 <? ri_number r) with
    str "ipfw rule number out of range (1..65534)";
  [].

Definition validateSetIfaceUp (r : IfnameReq) : bytes := validateIfaceName (if_ifname r).
Definition validateDisableIfaceOffload (r : IfnameReq) : bytes := validateIfaceName (if_ifname r).

Definition validateBridgeAddMember (r : BridgeMemberReq) : bytes :=
  ensure validateIfaceName (bm_bridge r) as "bridge: ";
  ensure validateIfaceName (bm_member r) as "member: ";
  [].

Definition validateBridgeDelMember (r : BridgeMemberReq) : bytes :=
  ensure validateIfaceName (bm_bridge r) as "bridge: ";
  ensure validateIfaceName (bm_member r) as "member: ";
  [].

Definition validateSetIfaceInetAddr (r : SetIfaceInetAddrReq) : bytes :=
  ensure validateIfaceName (sa_ifname r) as "ifname: ";
  if sa_inet6 r then
    (reject 128 <? sa_prefixLen r with str "prefix_len out of range (0..128)";
     ensure validateIpv6Cidr (sa_addr r ++ str "/" ++ dec (sa_prefixLen r)) as "addr: ";
     [])
  else
    (reject 32 <? sa_prefixLen r with str "prefix_len out of range (0..32)";
     ensure validateIpv4Cidr (sa_addr r ++ str "/" ++ dec (sa_prefixLen r)) as "addr: ";
     []).

Definition validateCreateEpair : bytes := [].
Definition validateEnsureUserRoot : bytes := [].

Definition validateSetLoginclassRctl (r : SetLoginclassRctlReq) : bytes :=
  ensure PerUserRctl.validateLoginclassName (sl_loginclass r) as "loginclass: ";
  ensure Retune.validateRctlKey (sl_key r);
  ensure Retune.validateRctlValue (sl_key r) (sl_rawValue r);
  [].

Definition validateClearLoginclassRctl (r : ClearLoginclassRctlReq) : bytes :=
  ensure PerUserRctl.validateLoginclassName (cl_loginclass r) as "loginclass: ";
  ensure Retune.validateRctlKey (cl_key r);
  [].

Definition validateReclaimIfaceFromVnet (r : ReclaimIfaceReq) : bytes :=
  ensure validateIfaceName (rc_ifname r) as "ifname: ";
  ensure validateJailName (rc_jailName r) as "jail_name: ";
  [].

Definition validateFlushPfAnchor (r : FlushPfAnchorReq) : bytes :=
  ensure validateAnchorName (fa_anchor r) as "anchor: "; [].

Definition jidOutOfRange (jid : Z) : bool := (jid =? 0) || (65535 <? jid).

Definition validateQueryJailRctl (r : QueryJailRctlReq) : bytes :=
  reject jidOutOfRange (qr_jid r) with str "jid: out of range (1..65535)"; [].

Definition validateConfigureIpfwNat (r : ConfigureIpfwNatReq) : bytes :=
  reject (cn_number r =? 0) || (65534 <? cn_number r) with
    str "number: out of range (1..65534)";
  ensure validateRuleText (cn_config r) as "config: ";
  [].

Definition validateApplyDevfsRuleset (r : ApplyDevfsRulesetReq) : bytes :=
  ensure validateAbsolutePath (ad_mountPath r) as "mount_path: ";
  reject (ad_ruleset r =? 0) || (65535 <? ad_ruleset r) with
    str "ruleset: out of range (1..65535)";
  [].

Definition validateSignalJail (r : SignalJailReq) : bytes :=
  reject jidOutOfRange (sj_jid r) with str "jid: out of range (1..65535)";
  reject negb (beq (sj_signal r) (str "TERM")) && negb (beq (sj_signal r) (str "KILL"))
         && negb (beq (sj_signal r) (str "HUP")) && negb (beq (sj_signal r) (str "INT")) with
    str "signal: must be one of TERM, KILL, HUP, INT";
  [].

Definition validateDevfsPathGlob (pat what : bytes) : bytes :=
  reject is_empty pat with (what ++ str " is empty");
  reject 256 <? size_z pat with (what ++ str " longer than 256 chars");
  ensure check_chars (fun c => isAlnum c || one_of (str "._-/*") c) what pat;
  reject starts_with (str "/") pat with (what ++ str " must not start with '/'");
  [].

Definition validateAddDevfsUnhideRule (r : AddDevfsUnhideRuleReq) : bytes :=
  ensure validateAbsolutePath (au_mountPath r) as "mount_path: ";
  validateDevfsPathGlob (au_pathPattern r) (str "path_pattern").

(** The tokeniser of [validateDevfsRuleSpec]: single spaces only. *)
Fixpoint devfsTokens (tok : list bytes) (cur : bytes) (s : bytes) : bytes + list bytes :=
  match s with
  | [] =>
      if is_empty cur
      then inl (if is_empty tok then str "rule is empty" else str "trailing space in rule")
      else inr (tok ++ [cur])
  | c :: t =>
      if Ascii.eqb c " " then
        if is_empty cur then inl (str "empty token in rule")
        else devfsTokens (tok ++ [cur]) [] t
      else if one_of [tab; newline; cr] c then
        inl (str "whitespace other than a space in rule")
      else devfsTokens tok (cur ++ [c]) t
  end.

Definition validateInclude (n : bytes) : bytes :=
  reject is_empty n || (5 <? size_z n) with
    str "include: ruleset number out of range (1..65535)";
  reject negb (forallb is_digit n) with str "include: ruleset number must be decimal";
  reject (dec_value n =? 0) || (65535 <? dec_value n) with
    str "include: ruleset number out of range (1..65535)";
  [].

Definition validateDevfsRuleSpec (rule : bytes) : bytes :=
  match devfsTokens [] [] rule with
  | inl e => e
  | inr tok =>
      match tok with
      | [a] =>
          if beq a (str "hide") then []
          else str "rule must be 'hide', 'include <n>' or 'path <glob> unhide'"
      | [a; n] =>
          if beq a (str "include") then validateInclude n
          else str "rule must be 'hide', 'include <n>' or 'path <glob> unhide'"
      | [a; g; u] =>
          if beq a (str "path") && beq u (str "unhide")
          then validateDevfsPathGlob g (str "path glob")
          else str "rule must be 'hide', 'include <n>' or 'path <glob> unhide'"
      | _ => str "rule must be 'hide', 'include <n>' or 'path <glob> unhide'"
      end
  end.

Definition kApplyDevfsRulesMaxRules : Z := 128.

Fixpoint validateDevfsRulesFrom (i : Z) (rules : list bytes) : bytes :=
  match rules with
  | [] => []
  | r :: rest =>
      guard_err (str "rule" ++ dec i ++ str ": ") (validateDevfsRuleSpec r)
        (validateDevfsRulesFrom (i + 1) rest)
  end.

Definition validateApplyDevfsRules (r : ApplyDevfsRulesReq) : bytes :=
  ensure validateAbsolutePath (ar_mountPath r) as "mount_path: ";
  reject (ar_ruleset r =? 0) || (65535 <? ar_ruleset r) with
    str "ruleset: out of range (1..65535)";
  reject is_empty (ar_rules r) with str "rules: empty";
  reject kApplyDevfsRulesMaxRules <? size_z (ar_rules r) with
    (str "rules: more than " ++ dec kApplyDevfsRulesMaxRules ++ str " entries");
  validateDevfsRulesFrom 0 (ar_rules r).

Definition validateSetJailCpuset (r : SetJailCpusetReq) : bytes :=
  reject jidOutOfRange (sc_jid r) with str "jid: out of range (1..65535)";
  reject is_empty (sc_cpuset r) with str "cpuset is empty";
  reject 256 <? size_z (sc_cpuset r) with str "cpuset longer than 256 chars";
  check_chars (fun c => is_digit c || one_of (str ",-") c) (str "cpuset") (sc_cpuset r).

Definition validateJailUserName (user : bytes) : bytes :=
  match user with
  | [] => []
  | c0 :: _ =>
      reject 32 <? size_z user with str "user name longer than 32 chars";
      reject negb (isAlnum c0 && negb (is_digit c0)) && negb (Ascii.eqb c0 "_") with
        str "user name must start with a letter or '_'";
      check_chars (fun c => isAlnum c || one_of (str "._-") c) (str "user name") user
  end.

Definition validateTermName (term : bytes) : bytes :=
  reject 64 <? size_z term with str "term longer than 64 chars";
  check_chars (fun c => isAlnum c || one_of (str "._-+") c) (str "term") term.

Definition kExecInJailMaxArgs : Z := 256.
Definition kExecInJailMaxArgvBytes : Z := 65536.

Fixpoint argvLoop (total : Z) (argv : list bytes) : bytes :=
  match argv with
  | [] => []
  | a :: rest =>
      reject has_char nul a with str "argv: embedded NUL";
      let total' := total + (size_z a + 1) in
      reject kExecInJailMaxArgvBytes <? total' with
        (str "argv: total size exceeds " ++ dec kExecInJailMaxArgvBytes ++ str " bytes");
      argvLoop total' rest
  end.

Definition validateExecInJail (r : ExecInJailReq) : bytes :=
  reject jidOutOfRange (ex_jid r) with str "jid: out of range (1..65535)";
  ensure validateJailUserName (ex_user r) as "user: ";
  ensure validateTermName (ex_term r) as "term: ";
  match ex_argv r with
  | [] => str "argv is empty"
  | a0 :: _ =>
      reject kExecInJailMaxArgs <? size_z (ex_argv r) with
        (str "argv: more than " ++ dec kExecInJailMaxArgs ++ str " arguments");
      reject negb (starts_with (str "/") a0) with str "argv0: must be an absolute path";
      reject 1024 <? size_z a0 with str "argv0: longer than 1024 chars";
      argvLoop 0 (ex_argv r)
  end.

Definition validateSetIfaceMac (r : SetIfaceMacReq) : bytes :=
  ensure validateIfaceName (sm_ifname r) as "ifname: ";
  reject is_empty (sm_mac r) with str "mac: is empty";
  ensure validateMacAddress (sm_mac r) as "mac: ";
  [].

Definition validateDeleteIpfwNat (r : DeleteIpfwNatReq) : bytes :=
  reject (dn_number r =? 0) || (65534 <? dn_number r) with
    str "number: out of range (1..65534)";
  [].

Definition validateCreateBridge (r : CreateBridgeReq) : bytes :=
  ensure validateIfaceName (cb_name r) as "name: ";
  let kPrefix := str "bridge" in
  reject negb (starts_with kPrefix (cb_name r)) || (size_z (cb_name r) =? size_z kPrefix) with
    str "name: must be bridge<N>";
  reject negb (forallb is_digit (drop (length kPrefix) (cb_name r))) with
    str "name: must be bridge<N>";
  [].

Definition validateAcquireFwLease (r : AcquireFwLeaseReq) : bytes :=
  reject jidOutOfRange (af_jid r) with str "jid: out of range (1..65535)";
  reject negb (af_slot r) && negb (af_fwd4 r) && negb (af_fwd6 r) with
    str "nothing requested (slot, fwd4 or fwd6)";
  [].

Definition validateReleaseFwLease (r : ReleaseFwLeaseReq) : bytes :=
  reject jidOutOfRange (rf_jid r) with str "jid: out of range (1..65535)"; [].

End PrivOps.
