(* ===== verification/PrivOpsFacts.v ===== *)
(** * What the privops validators accept

    Grammars for the strings a validated request can carry, independent of the
    validators' control flow, and the theorems that the validators decide them. *)

From S2P Require Import Prelude Limits PerUser PrivOps.

Module PrivOpsFacts.
Import PrivOps.

(** ** Numbers *)

Lemma parseUnsignedDecLoop_ok acc s v :
  0 <= acc <= ulong_max ->
  parseUnsignedDecLoop acc s = Some v <->
  forallb is_digit s = true /\ v = dec_value_from acc s /\ v <= ulong_max.
Proof.
  revert acc. induction s as [|c s IH]; intros acc Ha; cbn [parseUnsignedDecLoop forallb].
  - unfold dec_value_from. cbn. split; [intros [= <-]; lia|intros (_ & -> & _); done].
  - destruct (is_digit c) eqn:D; cbn [negb andb]; [|split; [done|intros [? _]; done]].
    apply is_digit_val in D.
    assert (Hstep : dec_value_from acc (c :: s) = dec_value_from (acc * 10 + digit_val c) s) by done.
    rewrite Hstep.
    destruct (Z.ltb_spec ((ulong_max - digit_val c) / 10) acc) as [Hb|Hb].
    + split; [done|]. intros (Hd & -> & Hle). exfalso.
      rewrite dec_value_from_shift in Hle. pose proof (dec_value_bound s Hd).
      assert (acc * 10 + digit_val c > ulong_max).
      { pose proof (Z.div_mod (ulong_max - digit_val c) 10).
        pose proof (Z.mod_pos_bound (ulong_max - digit_val c) 10). lia. }
      pose proof (Z.pow_pos_nonneg 10 (size_z s)). pose proof (size_z_nonneg s). nia.
    + assert (acc * 10 + digit_val c <= ulong_max).
      { pose proof (Z.mul_div_le (ulong_max - digit_val c) 10). lia. }
      apply IH. lia.
Qed.

(** [parseUnsignedDec] accepts exactly the digit strings whose value fits in
    64 bits, and returns that value. *)
Lemma parseUnsignedDec_ok s v :
  parseUnsignedDec s = Some v <->
  s <> [] /\ forallb is_digit s = true /\ v = dec_value s /\ v <= ulong_max.
Proof.
  unfold parseUnsignedDec. destruct s as [|c s]; cbn [is_empty]; [split; [done|tauto]|].
  rewrite parseUnsignedDecLoop_ok by (vm_compute; split; discriminate).
  unfold dec_value. split; [intros (? & ? & ?)|intros (_ & ? & ? & ?)]; auto.
Qed.

(** ** Paths *)

Definition safePath (p : bytes) : Prop :=
  size_z p <= 1024 /\ (exists rest, p = str "/" ++ rest)
  /\ ~ In (str "..") (split_on "/" p) /\ Forall (fun c => shellMeta c = false) p.

Lemma existsb_false {A} (f : A -> bool) l :
  existsb f l = false <-> Forall (fun x => f x = false) l.
Proof.
  induction l as [|x l IH]; cbn; [done|].
  rewrite orb_false_iff, Forall_cons, IH. done.
Qed.

Lemma hasDotDotSegment_false p :
  hasDotDotSegment p = false <-> ~ In (str "..") (split_on "/" p).
Proof.
  unfold hasDotDotSegment. rewrite existsb_false, Forall_forall. split.
  - intros H Hin. apply list_elem_of_In in Hin. specialize (H _ Hin). cbn in H. done.
  - intros H x Hx. apply beq_neq. intros ->. apply H. by apply list_elem_of_In.
Qed.

Lemma validateAbsolutePath_ok p : validateAbsolutePath p = [] <-> safePath p.
Proof.
  unfold validateAbsolutePath, safePath.
  rewrite !reject_nil by (cbn; discriminate).
  rewrite is_empty_false, negb_false_iff, starts_with_spec, hasDotDotSegment_false.
  unfold hasShellMetachar. rewrite existsb_false, Z.ltb_ge.
  split; [tauto|]. intros (? & [r ->] & ? & ?). cbn. split; [done|]. eauto 8.
Qed.

(** ** jail(8) parameters *)

Definition isUuid (v : bytes) : Prop :=
  size_z v = 36 /\
  forall i c, v !! i = Some c ->
    if uuidDash (Z.of_nat i) then c = "-"%char else isHexDigit c = true.

(** The values jail(8) understands for a parameter of this kind. *)
Definition paramValueOk (kind : ParamKind) (v : bytes) : Prop :=
  match kind with
  | PBool => In v [str "0"; str "1"; str "true"; str "false"]
  | PEnforceStatfs => In v [str "0"; str "1"; str "2"]
  | PSecurelevel => In v [str "-1"; str "0"; str "1"; str "2"; str "3"]
  | PUnsigned => v <> [] /\ all_digits v = true /\ size_z v <= 9
  | PUint32 => v <> [] /\ all_digits v = true /\ size_z v <= 10 /\ dec_value v < 2 ^ 32
  | PUuid => isUuid v
  end.

Lemma anyOf_In v l : anyOf v l = true <-> In v l.
Proof. apply Retune.mem_In. Qed.

Lemma uuidLoop_ok i v :
  uuidLoop i v = true <->
  forall j c, v !! j = Some c ->
    if uuidDash (i + Z.of_nat j) then c = "-"%char else isHexDigit c = true.
Proof.
  revert i. induction v as [|c v IH]; intros i; cbn [uuidLoop].
  - split; [intros _ j c H; by rewrite lookup_nil in H|done].
  - rewrite andb_true_iff, IH. split.
    + intros [H1 H2] [|j] d; cbn.
      * intros [= <-]. replace (i + Z.of_nat 0) with i by lia.
        destruct (uuidDash i); [by apply Ascii.eqb_eq|done].
      * intros Hd. specialize (H2 j d Hd). by replace (i + Z.of_nat (S j)) with (i + 1 + Z.of_nat j) by lia.
    + intros H. split.
      * specialize (H O c eq_refl). replace (i + Z.of_nat 0) with i in H by lia.
        destruct (uuidDash i); [by apply Ascii.eqb_eq|done].
      * intros j d Hd. specialize (H (S j) d Hd).
        by replace (i + Z.of_nat (S j)) with (i + 1 + Z.of_nat j) in H by lia.
Qed.

Lemma if_nil (c : bool) (m : bytes) : m <> [] -> (if c then [] else m) = [] <-> c = true.
Proof. destruct c; [done|]. split; [done|]. discriminate. Qed.

Lemma validateJailParamValue_ok kind v : validateJailParamValue kind v = [] <-> paramValueOk kind v.
Proof.
  destruct kind; cbn [validateJailParamValue paramValueOk].
  1-5: rewrite if_nil by (cbn; discriminate).
  1-3: apply anyOf_In.
  1-2: unfold allDigits, all_digits; rewrite !andb_true_iff, negb_true_iff, is_empty_false.
  - rewrite Z.leb_le. tauto.
  - rewrite !Z.leb_le. change (2 ^ 32) with 4294967296. intuition lia.
  - rewrite !reject_nil by (cbn; discriminate). rewrite !negb_false_iff, Z.eqb_eq, uuidLoop_ok.
    unfold isUuid. cbn. intuition auto.
Qed.

(** A [key=value] token with a whitelisted key and a value of its kind. *)
Definition allowedToken (tok : bytes) : Prop :=
  exists key val kind,
    tok = key ++ str "=" ++ val /\ key <> [] /\ val <> []
    /\ In (key, kind) kJailParamWhitelist /\ paramValueOk kind val.

Lemma lookupParam_In key kind : lookupParam key = Some kind -> In (key, kind) kJailParamWhitelist.
Proof.
  unfold lookupParam. rewrite fmap_Some. intros ([k kd] & Hf & ->).
  apply find_some in Hf as [Hin E]. apply beq_eq in E. cbn in E. by subst.
Qed.

Lemma validateJailToken_ok tok : validateJailToken tok = [] -> allowedToken tok.
Proof.
  unfold validateJailToken. destruct (find_char "=" tok) as [i|] eqn:F; [|discriminate].
  apply find_char_Some in F as (a & b & -> & <- & Hn).
  intros H. rewrite reject_nil in H by (cbn; discriminate). destruct H as [H1 H2].
  apply orb_false_iff in H1 as [Ha Hb].
  unfold cutAt in H2. rewrite take_app_length in H2.
  replace (drop (S (length a)) (a ++ "="%char :: b)) with b in H2.
  2:{ rewrite cons_middle, app_assoc, drop_app_length'; [done|].
      rewrite length_app; cbn; lia. }
  destruct (lookupParam a) as [kind|] eqn:L; [|discriminate H2].
  rewrite guard_err_nil in H2. destruct H2 as [H2 _].
  exists a, b, kind. split; [done|].
  split; [by intros ->|]. split.
  { intros ->. apply Z.leb_gt in Hb. rewrite size_z_app in Hb. unfold size_z in Hb.
    cbn [length] in Hb. lia. }
  split; [by apply lookupParam_In|by apply validateJailParamValue_ok].
Qed.

Lemma validateJailTokens_ok toks : validateJailTokens toks = [] -> Forall allowedToken toks.
Proof.
  induction toks as [|t toks IH]; cbn; [constructor|].
  rewrite guard_err_nil. intros [H1 H2]. constructor; [by apply validateJailToken_ok|auto].
Qed.

Definition ruleByte (c : ascii) : bool :=
  negb (one_of [newline; cr] c) && negb (one_of (str "`$;\") c).

Lemma ruleTextLoop_ok s : ruleTextLoop s = [] <-> forallb ruleByte s = true.
Proof.
  induction s as [|c s IH]; cbn [ruleTextLoop forallb]; [done|]. unfold ruleByte at 1.
  destruct (one_of [newline; cr] c); [split; [discriminate|done]|].
  destruct (one_of (str "`$;\") c); [split; [discriminate|done]|done].
Qed.

Lemma validateRuleText_ok s :
  validateRuleText s = [] <-> s <> [] /\ size_z s <= 1024 /\ forallb ruleByte s = true.
Proof.
  unfold validateRuleText. rewrite !reject_nil by (cbn; discriminate).
  rewrite ruleTextLoop_ok, is_empty_false, Z.ltb_ge. done.
Qed.

Lemma validateJailParameters_ok ps :
  validateJailParameters ps = [] ->
  Forall allowedToken (words ps) /\ size_z ps <= 1024 /\ forallb ruleByte ps = true.
Proof.
  unfold validateJailParameters. destruct ps as [|c ps]; [cbn; repeat split; done || lia|].
  cbn [is_empty]. intros H. rewrite reject_nil in H by (cbn; discriminate).
  rewrite guard_err_nil in H. destruct H as (_ & H1 & H2).
  apply validateRuleText_ok in H1 as (_ & ? & ?). split; [|done]. by apply validateJailTokens_ok.
Qed.

(** ** IPv4 CIDRs *)

Definition octet (n : Z) : Prop := 0 <= n <= 255.

Lemma dec_small_len n : 0 <= n <= 255 -> size_z (dec n) <= 3.
Proof.
  intros H. unfold size_z. enough (length (dec n) <= 3)%nat by lia.
  apply dec_len; [|lia]. change (10 ^ Z.of_nat 3) with 1000. lia.
Qed.

(** [parseIpv4Octet] accepts exactly the canonical decimals 0..255. *)
Lemma parseIpv4Octet_ok s v : parseIpv4Octet s = Some v <-> octet v /\ s = dec v.
Proof.
  unfold parseIpv4Octet, octet. split.
  - destruct (is_empty s || (3 <? size_z s)) eqn:E1; [done|].
    destruct ((1 <? size_z s) && starts_with (str "0") s) eqn:E2; [done|].
    destruct (parseUnsignedDec s) as [w|] eqn:P; [|done].
    destruct (Z.ltb_spec 255 w); [done|]. intros [= ->].
    apply parseUnsignedDec_ok in P as (Hne & Hd & -> & _).
    pose proof (dec_value_bound s Hd). split; [lia|]. apply dec_of_value; [done..|].
    intros Hl. apply andb_false_iff in E2 as [E2|E2]; [lia|done].
  - intros [Hv ->]. pose proof (dec_small_len v Hv).
    destruct (is_empty (dec v)) eqn:E; [apply is_empty_true in E; by apply dec_nonempty in E|].
    destruct (Z.ltb_spec 3 (size_z (dec v))); [lia|]. cbn [orb].
    destruct (_ && _) eqn:E2.
    { apply andb_prop in E2 as [E2 E3]. apply starts_with_spec in E3 as [t Ht].
      pose proof (dec_no_leading_zero _ _ Ht). subst t. rewrite Ht in E2. done. }
    assert (P : parseUnsignedDec (dec v) = Some v).
    { apply parseUnsignedDec_ok. split; [apply dec_nonempty|]. split; [apply dec_digits|].
      rewrite dec_value_dec by lia. split; [done|]. unfold ulong_max. lia. }
    rewrite P. destruct (Z.ltb_spec 255 v); [lia|done].
Qed.

Definition dottedQuad (a b c d : Z) : bytes :=
  dec a ++ str "." ++ dec b ++ str "." ++ dec c ++ str "." ++ dec d.

(** A canonical dotted quad, a slash and a decimal prefix length 0..32. *)
Definition ipv4Cidr (s : bytes) : Prop :=
  exists a b c d plen,
    octet a /\ octet b /\ octet c /\ octet d
    /\ plen <> [] /\ forallb is_digit plen = true /\ dec_value plen <= 32
    /\ s = dottedQuad a b c d ++ str "/" ++ plen.

Lemma split_dottedQuad a b c d :
  split_on "." (dottedQuad a b c d) = [dec a; dec b; dec c; dec d].
Proof.
  unfold dottedQuad. change (str ".") with ["."%char]. cbn [app].
  rewrite !split_on_app, split_on_nosep by (by apply dec_not_In). done.
Qed.

Lemma dottedQuad_no_slash a b c d : ~ In "/"%char (dottedQuad a b c d).
Proof.
  unfold dottedQuad. rewrite !in_app_iff. cbn. intros H.
  repeat destruct H as [H|H]; try discriminate H; try done;
    by (eapply dec_not_In; [|exact H]).
Qed.

Lemma prefixLenOk_spec max plen :
  max <= ulong_max ->
  prefixLenOk max plen = true <->
  plen <> [] /\ forallb is_digit plen = true /\ dec_value plen <= max.
Proof.
  intros Hm. unfold prefixLenOk. destruct (parseUnsignedDec plen) as [v|] eqn:P.
  - apply parseUnsignedDec_ok in P as (? & ? & -> & ?). rewrite Z.leb_le. tauto.
  - split; [done|]. intros (H1 & H2 & H3).
    assert (parseUnsignedDec plen = Some (dec_value plen)) as E; [|congruence].
    apply parseUnsignedDec_ok. repeat split; [done..|lia].
Qed.

Lemma cutAt_app a c b : cutAt (length a) (a ++ c :: b) = (a, b).
Proof.
  unfold cutAt. rewrite take_app_length, cons_middle, app_assoc, drop_app_length'; [done|].
  rewrite length_app; cbn; lia.
Qed.

Lemma validateIpv4Cidr_ok s : validateIpv4Cidr s = [] <-> s = [] \/ ipv4Cidr s.
Proof.
  unfold validateIpv4Cidr. destruct s as [|x s]; [cbn; tauto|]. cbn [is_empty].
  set (t := x :: s). split.
  - intros H. right. destruct (find_char "/" t) as [i|] eqn:F; [|discriminate H].
    apply find_char_Some in F as (addr & plen & -> & <- & Hn). rewrite cutAt_app in H.
    rewrite !reject_nil in H by (cbn; discriminate). destruct H as (Hp & Hs & Ho & _).
    rewrite negb_false_iff in Hp, Hs, Ho. apply prefixLenOk_spec in Hp; [|vm_compute; discriminate].
    pose proof (split_on_join "." addr) as J. apply Z.eqb_eq in Hs.
    destruct (split_on "." addr) as [|p1 [|p2 [|p3 [|p4 [|p5 ps]]]]]; try (unfold size_z in Hs; cbn in Hs; lia).
    cbn [forallb] in Ho. rewrite !andb_true_iff in Ho.
    destruct (parseIpv4Octet p1) as [a|] eqn:E1; [|by destruct Ho].
    destruct (parseIpv4Octet p2) as [b|] eqn:E2; [|by destruct Ho as (_ & ? & _)].
    destruct (parseIpv4Octet p3) as [c|] eqn:E3; [|by destruct Ho as (_ & _ & ? & _)].
    destruct (parseIpv4Octet p4) as [d|] eqn:E4; [|by destruct Ho as (_ & _ & _ & ? & _)].
    apply parseIpv4Octet_ok in E1 as [? ->], E2 as [? ->], E3 as [? ->], E4 as [? ->].
    exists a, b, c, d, plen. destruct Hp as (? & ? & ?). do 7 (split; [done|]).
    rewrite J. unfold dottedQuad. cbn. rewrite app_nil_r. by rewrite <- !app_assoc.
  - intros [?|(a & b & c & d & plen & Ha & Hb & Hc & Hd & H1 & H2 & H3 & ->)]; [done|].
    change (str "/") with ["/"%char]. cbn [app].
    rewrite find_char_app by apply dottedQuad_no_slash. rewrite cutAt_app, split_dottedQuad.
    assert (P : prefixLenOk 32 plen = true) by (apply prefixLenOk_spec; [vm_compute; discriminate|done]).
    rewrite P. cbn [negb]. change (size_z [dec a; dec b; dec c; dec d] =? 4) with true. cbn [negb forallb].
    rewrite (proj2 (parseIpv4Octet_ok (dec a) a)), (proj2 (parseIpv4Octet_ok (dec b) b)),
      (proj2 (parseIpv4Octet_ok (dec c) c)), (proj2 (parseIpv4Octet_ok (dec d) d)) by done.
    done.
Qed.

(** ** Verbs *)

Lemma parseVerb_verbName v : parseVerb (verbName v) = v.
Proof. destruct v; vm_compute; reflexivity. Qed.

Lemma verbChain_names : Forall (fun nv => fst nv = verbName (snd nv)) verbChain.
Proof. unfold verbChain. repeat constructor. Qed.

Lemma parseVerb_known n : parseVerb n <> Unknown -> n = verbName (parseVerb n).
Proof.
  unfold parseVerb. destruct (List.find _ _) as [[m v]|] eqn:F; [|done]. intros _.
  apply find_some in F as [Hin E]. apply beq_eq in E. cbn in E. subst m.
  pose proof verbChain_names as H. rewrite Forall_forall in H.
  apply list_elem_of_In in Hin. exact (H _ Hin).
Qed.

(** ** Host names *)

(** RFC 1123: dot-separated labels of 1..63 letters, digits and inner hyphens. *)
Definition hostLabel (l : bytes) : Prop :=
  1 <= size_z l <= 63
  /\ Forall (fun c => isAlnum c = true \/ c = "-"%char) l
  /\ (forall t, l <> "-"%char :: t) /\ (forall t, l <> t ++ ["-"%char]).

Lemma forallb_Forall {A} (f : A -> bool) l : forallb f l = true <-> Forall (fun x => f x = true) l.
Proof. induction l as [|x l IH]; cbn; [done|]. by rewrite andb_true_iff, Forall_cons, IH. Qed.

Lemma validateHostLabel_ok l : validateHostLabel l = [] <-> hostLabel l.
Proof.
  unfold validateHostLabel, hostLabel.
  rewrite guard_err_nil, check_chars_nil, !reject_nil by (cbn; discriminate).
  rewrite forallb_Forall, orb_false_iff, Z.eqb_neq, Z.ltb_ge.
  rewrite <- (not_true_iff_false (starts_with _ _)), <- (not_true_iff_false (backIs _ _)).
  rewrite backIs_spec, starts_with_spec. pose proof (size_z_nonneg l).
  assert (Hc : Forall (fun c => isAlnum c || one_of (str "-") c = true) l
               <-> Forall (fun c => isAlnum c = true \/ c = "-"%char) l).
  { apply Forall_iff. intros c. rewrite orb_true_iff, one_of_In. cbn. intuition congruence. }
  rewrite Hc. cbn [str list_ascii_of_string app].
  split; [intros (? & ? & ? & [H1 H2] & _)|intros (? & ? & H1 & H2)].
  - split; [lia|]. split; [done|]. split; intros t ->; [apply H1|apply H2]; eauto.
  - split; [done|]. split; [lia|]. split; [lia|]. split; [|done].
    split; intros [t ->]; [by apply (H1 t)|by apply (H2 t)].
Qed.

Lemma validateHostLabels_ok ls : validateHostLabels ls = [] <-> Forall hostLabel ls.
Proof.
  induction ls as [|l ls IH]; cbn; [done|].
  by rewrite guard_err_nil, Forall_cons, validateHostLabel_ok, IH.
Qed.

Lemma validateHostname_ok h :
  validateHostname h = [] <->
  h = [] \/ (size_z h <= 253 /\ Forall hostLabel (split_on "." h)).
Proof.
  unfold validateHostname. destruct h as [|c h]; cbn [is_empty]; [tauto|].
  rewrite reject_nil by (cbn; discriminate). rewrite validateHostLabels_ok, Z.ltb_ge.
  intuition done.
Qed.

(** ** MAC addresses *)

Lemma macLoop_ok i sep s :
  0 <= i -> macLoop i sep s = [] <->
  forall j c, s !! j = Some c ->
    if (i + Z.of_nat j) mod 3 =? 2 then c = sep else isHexDigit c = true.
Proof.
  revert i. induction s as [|x s IH]; intros i Hi; cbn [macLoop].
  { split; [intros _ j c H; by rewrite lookup_nil in H|done]. }
  assert (Hcons : (forall j c, (x :: s) !! j = Some c ->
      if (i + Z.of_nat j) mod 3 =? 2 then c = sep else isHexDigit c = true) <->
    (if i mod 3 =? 2 then x = sep else isHexDigit x = true) /\
    (forall j c, s !! j = Some c ->
      if (i + 1 + Z.of_nat j) mod 3 =? 2 then c = sep else isHexDigit c = true)).
  { split.
    - intros H. split.
      + specialize (H O x eq_refl). by rewrite Z.add_0_r in H.
      + intros j c Hj. specialize (H (S j) c Hj).
        by replace (i + Z.of_nat (S j)) with (i + 1 + Z.of_nat j) in H by lia.
    - intros [H1 H2] [|j] c; cbn.
      + intros [= <-]. by rewrite Z.add_0_r.
      + intros Hj. specialize (H2 j c Hj).
        by replace (i + Z.of_nat (S j)) with (i + 1 + Z.of_nat j) by lia. }
  rewrite Hcons. destruct (i mod 3 =? 2).
  - destruct (Ascii.eqb_spec x sep) as [->|Hne]; cbn [negb]; [rewrite IH by lia; tauto|].
    split; [discriminate|tauto].
  - destruct (isHexDigit x); cbn [negb]; [rewrite IH by lia; tauto|].
    split; [discriminate|intros [? _]; done].
Qed.

(** An accepted MAC is six two-digit hex octets with one kind of separator, and
    a unicast address: the low bit of its first octet is clear. *)
Definition unicastMac (m : bytes) : Prop :=
  size_z m = 17
  /\ (exists sep, (sep = ":"%char \/ sep = "-"%char) /\
       forall j c, m !! j = Some c ->
         if Z.of_nat j mod 3 =? 2 then c = sep else isHexDigit c = true)
  /\ Z.even (macFirstOctet m) = true.

Lemma validateMacAddress_ok m : validateMacAddress m = [] -> m = [] \/ unicastMac m.
Proof.
  unfold validateMacAddress. destruct m as [|x m]; [tauto|]. cbn [is_empty]. intros H. right.
  rewrite !reject_nil, guard_err_nil, reject_nil in H by (cbn; discriminate).
  destruct H as (H1 & H2 & H3 & H4 & _). rewrite negb_false_iff, Z.eqb_eq in H1.
  split; [done|]. split.
  - exists (default nul ((x :: m) !! 2%nat)). split.
    + apply andb_false_iff in H2 as [H2|H2]; rewrite negb_false_iff, Ascii.eqb_eq in H2; tauto.
    + intros j c. apply (proj1 (macLoop_ok 0 _ _ ltac:(lia)) H3 j c).
  - rewrite Z.bit0_odd in H4. by rewrite <- Z.negb_odd, H4.
Qed.

(** ** IPv6 addresses *)

Definition v6Byte (c : ascii) : bool := isHexDigit c || Ascii.eqb c ":".

Lemma v6Loop_bytes cur g saw s r : v6Loop cur g saw s = inr r -> forallb v6Byte s = true.
Proof.
  remember (length s) as n eqn:Hn. revert s cur g saw Hn.
  induction (lt_wf n) as [n _ IH]. intros [|c t] cur g saw ->; [done|].
  assert (Hrec : forall u cur g saw, (length u < S (length t))%nat ->
    v6Loop cur g saw u = inr r -> forallb v6Byte u = true) by (intros; eapply IH; eauto).
  clear IH. cbn [v6Loop forallb length]. unfold v6Byte at 1.
  destruct (Ascii.eqb c ":"); [rewrite orb_true_r; cbn [andb]|].
  - destruct t as [|c2 t2]; [done|].
    destruct (Ascii.eqb c2 ":") eqn:E2.
    + destruct saw; [done|]. cbn [forallb]. unfold v6Byte at 1. rewrite E2, orb_true_r. cbn [andb].
      destruct (is_empty cur); [intros H|destruct (4 <? size_z cur); [done|intros H]];
        (eapply Hrec; [|exact H]; cbn; lia).
    + destruct (is_empty cur); [done|]. destruct (4 <? size_z cur); [done|]. intros H.
      eapply Hrec; [|exact H]; cbn; lia.
  - destruct (isHexDigit c); [|done]. cbn. intros H. eapply Hrec; [|exact H]; cbn; lia.
Qed.

Lemma v6Loop_err_nonempty cur g saw s : v6Loop cur g saw s <> inl [].
Proof.
  remember (length s) as n eqn:Hn. revert s cur g saw Hn.
  induction (lt_wf n) as [n _ IH]. intros [|c t] cur g saw ->; [done|].
  assert (Hrec : forall u cur g saw, (length u < S (length t))%nat ->
    v6Loop cur g saw u <> inl []) by (intros; eapply IH; eauto).
  clear IH. cbn [v6Loop]. destruct (Ascii.eqb c ":").
  - destruct t as [|c2 t2];
      repeat match goal with |- context [if ?b then _ else _] => destruct b end;
      try discriminate; apply Hrec; cbn; lia.
  - destruct (negb (isHexDigit c)); [discriminate|]. apply Hrec; cbn; lia.
Qed.

Lemma validateIpv6Cidr_bytes s :
  validateIpv6Cidr s = [] ->
  s = [] \/ exists addr plen, s = addr ++ str "/" ++ plen
    /\ 1 <= size_z addr <= 45 /\ forallb v6Byte addr = true
    /\ plen <> [] /\ forallb is_digit plen = true /\ dec_value plen <= 128.
Proof.
  unfold validateIpv6Cidr. destruct s as [|x s]; [tauto|]. cbn [is_empty]. set (t := x :: s).
  intros H. right. destruct (find_char "/" t) as [i|] eqn:F; [|discriminate H].
  apply find_char_Some in F as (addr & plen & -> & <- & _). rewrite cutAt_app in H.
  rewrite !reject_nil in H by (cbn; discriminate). destruct H as (Hp & H1 & H2 & _ & H3).
  rewrite negb_false_iff, prefixLenOk_spec in Hp by (vm_compute; discriminate).
  exists addr, plen. split; [done|]. apply is_empty_false in H1. split.
  { rewrite <- size_z_nil in H1. pose proof (size_z_nonneg addr). lia. }
  split; [|done]. destruct (v6Loop [] 0 false addr) eqn:E; [|by eapply v6Loop_bytes].
  subst. exfalso. revert E. apply v6Loop_err_nonempty.
Qed.

(** ** exec_in_jail *)

Lemma argvLoop_ok total argv :
  argvLoop total argv = [] ->
  Forall (fun a => ~ In nul a) argv /\
  (argv <> [] -> total + foldr (fun a n => size_z a + 1 + n) 0 argv <= kExecInJailMaxArgvBytes).
Proof.
  revert total. induction argv as [|a argv IH]; intros total; cbn [argvLoop foldr]; [by split|].
  rewrite !reject_nil by (cbn; discriminate). intros (H1 & H2 & H3).
  apply has_char_false in H1. apply Z.ltb_ge in H2. destruct (IH _ H3) as [Hf Hs].
  split; [by constructor|]. intros _. destruct argv as [|b argv]; [cbn; lia|].
  specialize (Hs ltac:(done)). lia.
Qed.

(** ** devfs rules *)

(** The tokens joined back with single spaces. *)
Definition unwords (ws : list bytes) : bytes := concat (intersperse_head " " ws).

Lemma devfsTokens_join tok cur s r :
  devfsTokens tok cur s = inr r -> exists ws, r = tok ++ ws /\ ws <> [] /\ cur ++ s = unwords ws.
Proof.
  revert tok cur. induction s as [|c s IH]; intros tok cur; cbn [devfsTokens].
  - destruct (is_empty cur); [done|]. intros [= <-]. by exists [cur].
  - destruct (Ascii.eqb_spec c " ") as [->|Hne].
    + destruct (is_empty cur); [done|]. intros H. apply IH in H as (ws & -> & Hn & E).
      exists (cur :: ws). rewrite <- app_assoc. split; [done|]. split; [done|].
      destruct ws as [|w ws]; [done|]. cbn in E |- *. by rewrite E.
    + destruct (one_of _ c); [done|]. intros H. apply IH in H as (ws & -> & Hn & E).
      exists ws. split; [done|]. split; [done|]. by rewrite <- E, <- app_assoc.
Qed.

Lemma devfsTokens_err tok cur s : devfsTokens tok cur s <> inl [].
Proof.
  revert tok cur. induction s as [|c s IH]; intros tok cur; cbn [devfsTokens].
  - destruct (is_empty cur); [|done]. by destruct (is_empty tok).
  - repeat match goal with |- context [if ?b then _ else _] => destruct b end; done.
Qed.

Definition devfsGlob (g : bytes) : Prop :=
  1 <= size_z g <= 256 /\ Forall (fun c => isAlnum c || one_of (str "._-/*") c = true) g
  /\ starts_with (str "/") g = false.

Lemma validateDevfsPathGlob_ok g what :
  what <> [] -> validateDevfsPathGlob g what = [] <-> devfsGlob g.
Proof.
  intros Hw. unfold validateDevfsPathGlob, devfsGlob.
  assert (Ha : forall m : string, what ++ str m <> []).
  { intros m E. by apply app_eq_nil in E as [? _]. }
  rewrite !reject_nil, guard_err_nil, check_chars_nil, reject_nil by apply Ha.
  rewrite forallb_Forall, is_empty_false, Z.ltb_ge, <- size_z_nil.
  pose proof (size_z_nonneg g). intuition lia.
Qed.

(** The three rule forms apply_devfs_rules may install. *)
Definition devfsRule (rule : bytes) : Prop :=
  rule = str "hide"
  \/ (exists n, rule = str "include " ++ n /\ all_digits n = true /\ 1 <= dec_value n <= 65535)
  \/ (exists g, rule = str "path " ++ g ++ str " unhide" /\ devfsGlob g).

Lemma validateInclude_ok n : validateInclude n = [] -> all_digits n = true /\ 1 <= dec_value n <= 65535.
Proof.
  unfold validateInclude. rewrite !reject_nil by (cbn; discriminate).
  intros (_ & H1 & H2 & _). rewrite negb_false_iff in H1. split; [done|].
  pose proof (dec_value_bound n H1). apply orb_false_iff in H2 as [? ?]. lia.
Qed.

Lemma validateDevfsRuleSpec_ok rule : validateDevfsRuleSpec rule = [] -> devfsRule rule.
Proof.
  unfold validateDevfsRuleSpec, devfsRule.
  destruct (devfsTokens [] [] rule) as [e|tok] eqn:E.
  { intros ->. exfalso. revert E. apply devfsTokens_err. }
  apply devfsTokens_join in E as (ws & -> & _ & E). cbn [app] in E |- *. subst rule.
  destruct ws as [|a [|b [|c [|d ws]]]]; try discriminate.
  - destruct (beq_spec a (str "hide")) as [->|]; [|discriminate]. left. cbn. done.
  - destruct (beq_spec a (str "include")) as [->|]; [|discriminate]. intros H.
    right. left. exists b. cbn. rewrite app_nil_r. split; [done|]. by apply validateInclude_ok.
  - destruct (beq_spec a (str "path")) as [->|]; [|discriminate].
    destruct (beq_spec c (str "unhide")) as [->|]; [|discriminate]. cbn [andb]. intros H.
    right. right. exists b. cbn [unwords intersperse_head map concat]. split; [done|].
    by apply validateDevfsPathGlob_ok in H.
Qed.

(** * Properties *)

(** The wire names and the verbs are in bijection: a name parses to a known
    verb exactly when it is that verb's name. *)
Theorem parseVerb_iff (n : bytes) (v : Verb) :
  v <> Unknown -> (parseVerb n = v <-> n = verbName v).
Proof.
  intros Hv. split; [|intros ->; apply parseVerb_verbName].
  intros <-. by apply parseVerb_known.
Qed.

Lemma parseVerb_iff_witness :
  ExecInJail <> Unknown /\ parseVerb (str "exec_in_jail") = ExecInJail.
Proof.
  split; [discriminate|]. apply (parseVerb_iff (str "exec_in_jail") ExecInJail); [discriminate|reflexivity].
Defined.

(** Every path argument that reaches a privops handler is absolute, at most
    1024 bytes, free of [..] segments and of shell metacharacters; and every
    such path is accepted. *)
Theorem validateAbsolutePath_iff (p : bytes) : validateAbsolutePath p = [] <-> safePath p.
Proof. apply validateAbsolutePath_ok. Qed.

(** After create_jail's validation, every whitespace-separated token of the
    parameters is [key=value] with [key] in the whitelist and [value] of the
    shape the parameter takes. *)
Lemma create_jail_tokens r tok : validateCreateJail r = [] -> In tok (words (cj_parameters r)) -> allowedToken tok.
Proof.
  unfold validateCreateJail. rewrite !guard_err_nil. intros (_ & _ & _ & H & _) Hin.
  apply validateJailParameters_ok in H as [H _]. rewrite Forall_forall in H.
  apply H. by apply list_elem_of_In.
Qed.

(** [validateIpv4Cidr] decides the grammar of IPv4 CIDRs: four canonical
    decimal octets (no leading zeros), a slash and a prefix length of at most
    32; the empty string means "not given". *)
Theorem validateIpv4Cidr_iff (s : bytes) : validateIpv4Cidr s = [] <-> s = [] \/ ipv4Cidr s.
Proof. apply validateIpv4Cidr_ok. Qed.

(** [validateHostname] decides the RFC 1123 host-name grammar. *)
Theorem validateHostname_iff (h : bytes) :
  validateHostname h = [] <-> h = [] \/ (size_z h <= 253 /\ Forall hostLabel (split_on "." h)).
Proof. apply validateHostname_ok. Qed.

(** A MAC that set_iface_mac accepts is a well-formed unicast address. *)
Theorem set_iface_mac_unicast (r : SetIfaceMacReq) :
  validateSetIfaceMac r = [] -> unicastMac (sm_mac r).
Proof.
  unfold validateSetIfaceMac. rewrite guard_err_nil, reject_nil, guard_err_nil by (cbn; discriminate).
  intros (_ & H1 & H2 & _). apply validateMacAddress_ok in H2 as [E|]; [|done].
  by rewrite E in H1.
Qed.

Lemma set_iface_mac_unicast_witness :
  unicastMac (str "58:9c:fc:00:11:22").
Proof.
  apply (set_iface_mac_unicast {| sm_ifname := str "epair0a"; sm_mac := str "58:9c:fc:00:11:22" |}).
  vm_compute. reflexivity.
Defined.

(** C37: exec_in_jail runs at most 256 arguments of at most 65536 bytes in all
    (terminators included), none with an embedded NUL, the first an absolute
    path, in a jid of the kernel's 16-bit range. *)
Theorem exec_in_jail_bounds (r : ExecInJailReq) :
  validateExecInJail r = [] -> 0 <= ex_jid r ->
  1 <= ex_jid r <= 65535
  /\ 1 <= size_z (ex_argv r) <= kExecInJailMaxArgs
  /\ (exists a0 rest, ex_argv r = a0 :: rest /\ starts_with (str "/") a0 = true /\ size_z a0 <= 1024)
  /\ Forall (fun a => ~ In nul a) (ex_argv r)
  /\ foldr (fun a n => size_z a + 1 + n) 0 (ex_argv r) <= kExecInJailMaxArgvBytes.
Proof.
  intros H Hj. unfold validateExecInJail in H.
  rewrite reject_nil in H by (cbn; discriminate). rewrite !guard_err_nil in H.
  destruct H as (H1 & _ & _ & H). unfold jidOutOfRange in H1. apply orb_false_iff in H1 as [? ?].
  split; [lia|]. destruct (ex_argv r) as [|a0 rest] eqn:E; [discriminate H|].
  rewrite !reject_nil in H by (cbn; discriminate). destruct H as (H2 & H3 & H4 & H5).
  apply argvLoop_ok in H5 as [Hf Hs]. specialize (Hs ltac:(done)).
  rewrite size_z_cons in *. pose proof (size_z_nonneg rest).
  split; [lia|]. split; [exists a0, rest; rewrite negb_false_iff in H3; split; [done|]; split; [done|lia]|].
  split; [done|]. lia.
Qed.

Lemma exec_in_jail_bounds_witness :
  let r := {| ex_jid := 7; ex_user := []; ex_argv := [str "/bin/sh"; str "-l"]; ex_term := str "xterm" |} in
  1 <= size_z (ex_argv r) <= kExecInJailMaxArgs.
Proof.
  intros r. apply (exec_in_jail_bounds r); [vm_compute; reflexivity|vm_compute; discriminate].
Defined.

(** Every rule apply_devfs_rules may install is [hide], [include <n>] with
    a 16-bit ruleset number, or [path <glob> unhide] with a relative glob over
    a closed alphabet. *)
Theorem apply_devfs_rules_grammar (r : ApplyDevfsRulesReq) :
  validateApplyDevfsRules r = [] -> Forall devfsRule (ar_rules r).
Proof.
  unfold validateApplyDevfsRules. rewrite guard_err_nil, !reject_nil by (cbn; discriminate).
  intros (_ & _ & _ & _ & H). revert H. generalize 0.
  induction (ar_rules r) as [|x rules IH]; intros i; cbn; [constructor|].
  rewrite guard_err_nil. intros [H1 H2]. constructor; [by apply validateDevfsRuleSpec_ok|eauto].
Qed.

Lemma apply_devfs_rules_grammar_witness :
  Forall devfsRule [str "hide"; str "include 4"; str "path dri/* unhide"].
Proof.
  apply (apply_devfs_rules_grammar
    {| ar_mountPath := str "/jails/web/dev"; ar_ruleset := 10001;
       ar_rules := [str "hide"; str "include 4"; str "path dri/* unhide"] |}).
  vm_compute. reflexivity.
Defined.

(** The IPv6 scan counts a group when it meets the colon after it, so an
    address that ends in a lone colon passes: the validator accepts a string
    that is not an IPv6 address. *)
Theorem validateIpv6Cidr_trailing_colon :
  validateIpv6Cidr (str "1:2:3:4:5:6:7:8:/64") = [] /\ validateIpv6Cidr (str "::1:/128") = [].
Proof. split; vm_compute; reflexivity. Qed.

(** The documented 4096-byte limit on create_jail's parameters is not the
    effective one: the rule-text check run on the same string refuses anything
    over 1024 bytes. *)
Theorem jail_parameters_limit_is_1024 (ps : bytes) :
  validateJailParameters ps = [] -> size_z ps <= 1024.
Proof. intros H. by apply validateJailParameters_ok in H as (_ & H & _). Qed.

Lemma jail_parameters_limit_is_1024_witness : size_z (str "securelevel=2") <= 1024.
Proof. apply (jail_parameters_limit_is_1024 (str "securelevel=2")). vm_compute. reflexivity. Defined.

End PrivOpsFacts.
