(* ===== verification/IpAlloc.v ===== *)
(** * IPv4 address pool and lease file: lib/ip_alloc_pure.cpp, lib/network_lease.cpp

    [crate run] gives a jail an address of the host's pool and keeps the leases
    in a text file.  The addresses, pools and lease lines are here; the file's
    operations are those of LineFile.v at this address family. *)

From S2P Require Import Prelude PerUser PrivOps PrivOpsFacts LineFile.

Module IpAlloc.
Import LeaseFile.

(** ** Addresses *)

Record Network := { base : Z; prefixLen : Z }.

(** The accumulating loop of [parseOctet]; [None] past 255. *)
Fixpoint octetLoop (n : Z) (s : bytes) : option Z :=
  match s with
  | [] => Some n
  | c :: t => let n' := n * 10 + digit_val c in if 255 <? n' then None else octetLoop n' t
  end.

Definition parseOctet (s : bytes) : option Z :=
  if is_empty s || (3 <? size_z s) then None
  else if negb (forallb is_digit s) then None
  else if (1 <? size_z s) && starts_with (str "0") s then None
  else octetLoop 0 s.

Fixpoint parseOctets (addr : Z) (parts : list bytes) : bytes + Z :=
  match parts with
  | [] => inr addr
  | p :: rest =>
      match parseOctet p with
      | None => inl (str "invalid octet '" ++ p ++ str "'")
      | Some o => parseOctets (Z.lor (u32 (Z.shiftl addr 8)) o) rest
      end
  end.

Definition parseIp (s : bytes) : bytes + Z :=
  let parts := split_on "." s in
  if negb (size_z parts =? 4) then inl (str "IP must have 4 dotted octets") else parseOctets 0 parts.

Definition formatIp (addr : Z) : bytes :=
  dec (Z.land (Z.shiftr addr 24) 255) ++ str "." ++ dec (Z.land (Z.shiftr addr 16) 255) ++ str "."
  ++ dec (Z.land (Z.shiftr addr 8) 255) ++ str "." ++ dec (Z.land (Z.shiftr addr 0) 255).

(** The digits of the prefix length; [None] past 32. *)
Fixpoint prefixLoop (n : Z) (s : bytes) : option Z :=
  match s with
  | [] => Some n
  | c :: t => let n' := n * 10 + digit_val c in if 32 <? n' then None else prefixLoop n' t
  end.

(** [~((1u << (32 - prefix)) - 1u)] *)
Definition maskOf (prefix : Z) : Z := u32 (Z.lnot (u32 (Z.shiftl 1 (32 - prefix)) - 1)).

Definition parseCidr (cidr : bytes) : bytes + Network :=
  match find_char "/" cidr with
  | None => inl (str "CIDR missing '/'")
  | Some slash =>
      let ipPart := take slash cidr in
      let prePart := drop (S slash) cidr in
      if is_empty prePart then inl (str "CIDR prefix empty")
      else if negb (forallb is_digit prePart) then inl (str "CIDR prefix not numeric")
      else match prefixLoop 0 prePart with
      | None => inl (str "CIDR prefix out of range (0..32)")
      | Some prefix =>
          if (prefix <? 1) || (30 <? prefix) then inl (str "CIDR prefix out of supported range (1..30)")
          else match parseIp ipPart with
          | inl e => inl (str "CIDR address: " ++ e)
          | inr addr =>
              if negb (Z.land addr (maskOf prefix) =? addr) then
                inl (str "CIDR base address '" ++ ipPart ++ str "' is not aligned to /" ++ dec prefix)
              else inr {| base := addr; prefixLen := prefix |}
          end
      end
  end.

Definition gatewayFor (n : Network) : Z := u32 (base n + 1).

Definition broadcastFor (n : Network) : Z :=
  Z.lor (base n) (if prefixLen n =? 32 then 0 else u32 (Z.shiftl 1 (32 - prefixLen n)) - 1).

(** [takenSet.count(a)] *)
Definition isTaken (a : Z) (taken : list Z) : bool := existsb (Z.eqb a) taken.

(** The scan from [a].  It goes on only past an address that is the gateway or
    taken, so as many rounds as there are such addresses, and one more, are
    enough. *)
Fixpoint scan (fuel : nat) (a gw bcast : Z) (taken : list Z) : Z :=
  match fuel with
  | O => 0
  | S f =>
      if negb (a <? bcast) then 0
      else if a =? gw then scan f (u32 (a + 1)) gw bcast taken
      else if isTaken a taken then scan f (u32 (a + 1)) gw bcast taken
      else a
  end.

Definition allocateNext (pool : Network) (taken : list Z) : Z :=
  scan (S (S (length taken))) (u32 (base pool + 2)) (gatewayFor pool) (broadcastFor pool) taken.

(** ** Lease lines *)

Definition Lease : Type := LeaseFile.Lease Z.

Definition kLeaseName : Z := 5 + 128 + 1 + 8.

Definition nameByte (c : ascii) : bool := is_alnum c || one_of (str "._-") c.

Definition nameLooksValid (n : bytes) : bool :=
  negb (is_empty n || (kLeaseName <? size_z n)) && forallb nameByte n.

Definition parseLeaseLine (line : bytes) : bytes + Lease :=
  if is_empty line then inl (str "lease line is empty")
  else match find_char " " line with
  | None => inl (str "lease line missing space separator")
  | Some sp =>
      let name := take sp line in
      let ip := drop (S sp) line in
      if existsb isWs name then inl (str "name has internal whitespace")
      else if existsb isWs ip then inl (str "ip has internal whitespace")
      else if negb (nameLooksValid name) then inl (str "invalid jail name '" ++ name ++ str "'")
      else match parseIp ip with
      | inl e => inl (str "lease ip: " ++ e)
      | inr addr => inr {| l_name := name; l_ip := addr |}
      end
  end.

Definition formatLeaseLine (l : Lease) : bytes := l_name l ++ str " " ++ formatIp (l_ip l).

(** ** The lease file *)

Definition leasePath (rootless : bool) (uid : Z) : bytes :=
  if rootless then RuntimePaths.perUserRoot uid ++ str "/network-leases.txt"
  else str "/var/run/crate/network-leases.txt".

Definition header : bytes :=
  str "# crate network leases — managed by crate run / crate clean" ++ [newline]
  ++ str "# format: <jail-name> <ip>" ++ [newline].

#[global] Instance leaseFormat : LineFormat (LeaseFile.Lease Z) :=
  {| LineFile.parseLine := parseLeaseLine; LineFile.formatLine := formatLeaseLine; LineFile.header := header |}.

#[global] Instance addrPool : LeaseFile.AddrPool Z Network :=
  {| LeaseFile.allocateNext := allocateNext;
     LeaseFile.isZero := fun a => a =? 0;
     LeaseFile.exhausted := fun pool n =>
       str "pool " ++ formatIp (base pool) ++ str "/" ++ dec (prefixLen pool) ++ str " exhausted ("
       ++ dec n ++ str " leases active)" |}.

(** The operations of lib/network_lease.cpp. *)
Definition parseAll : bytes -> bytes + list Lease := LineFile.parseAll.
Definition readAll : File -> bytes + list Lease := LineFile.readAll.
Definition writeAllAtomic : bytes + unit -> list Lease -> File -> (bytes + unit) * File := LineFile.writeAllAtomic.
Definition allocateFor : bytes + unit -> bytes -> Network -> File -> (bytes + Z) * File := LeaseFile.allocateFor.
Definition releaseFor : bytes + unit -> bytes -> File -> (bytes + unit) * File := LeaseFile.releaseFor.

(** ** The pool a jail allocates from (lib/run.cpp)

    With the daemon's socket present each operator has its own lease file and,
    when [network_pool_user_bits] says so, its own part of the pool. *)
Definition allocPool (networkPool : bytes) (pool : Network) (rootless : bool) (userBits uid : Z) : bytes + Network :=
  if rootless && (0 <? userBits) then
    let sub := u32 (prefixLen pool + userBits) in
    if 28 <? sub then inr pool
    else
      let r := PerUserNet.composeIpv4 networkPool sub uid in
      if negb (is_empty (PerUserNet.error r)) then inl (str "network_pool per-user split: " ++ PerUserNet.error r)
      else match parseCidr (PerUserNet.cidr r) with
           | inl e => inl (str "network_pool per-user split '" ++ PerUserNet.cidr r ++ str "': " ++ e)
           | inr n => inr n
           end
  else inr pool.

(** ** Addresses, printed and parsed back *)

Lemma parseOctet_dec n : 0 <= n < 256 -> parseOctet (dec n) = Some n.
Proof.
  intros Hn. rewrite <- (code_chr n Hn). generalize (chr n). intros [[] [] [] [] [] [] [] []]; vm_compute; reflexivity.
Qed.

Lemma parse_formatIp a : 0 <= a < 2 ^ 32 -> parseIp (formatIp a) = inr a.
Proof.
  intros Ha. unfold formatIp. rewrite !PerUserNet.octet_of by lia. rewrite Z.div_1_r.
  unfold parseIp. change (dec _ ++ _) with
    (PrivOpsFacts.dottedQuad (a / 2 ^ 24 mod 256) (a / 2 ^ 16 mod 256) (a / 2 ^ 8 mod 256) (a mod 256)).
  rewrite PrivOpsFacts.split_dottedQuad. cbn [size_z length negb parseOctets].
  change (negb (size_z [_; _; _; _] =? 4)) with false. cbn [parseOctets].
  rewrite !parseOctet_dec by (apply Z.mod_pos_bound; lia). f_equal. by apply PerUserNet.quad_value.
Qed.

Lemma octetLoop_bound n s v : 0 <= n <= 255 -> forallb is_digit s = true -> octetLoop n s = Some v -> 0 <= v <= 255.
Proof.
  revert n. induction s as [|c s IH]; cbn; intros n Hn; [by intros _ [= <-]|].
  intros [Hc Hd]%andb_prop. apply is_digit_val in Hc.
  destruct (Z.ltb_spec 255 (n * 10 + digit_val c)); [done|]. apply IH; [lia|done].
Qed.

Lemma parseOctet_bound s v : parseOctet s = Some v -> 0 <= v <= 255.
Proof.
  unfold parseOctet. destruct (_ || _); [done|]. destruct (forallb is_digit s) eqn:D; [|done]. cbn [negb].
  destruct (_ && _); [done|]. by apply octetLoop_bound.
Qed.

Lemma parseIp_bound s a : parseIp s = inr a -> 0 <= a < 2 ^ 32.
Proof.
  unfold parseIp. destruct (negb _); [done|]. enough (H : forall parts acc, 0 <= acc < 2 ^ 32 ->
    parseOctets acc parts = inr a -> 0 <= a < 2 ^ 32) by (apply H; lia).
  induction parts as [|p parts IH]; intros acc Hacc; cbn [parseOctets]; [by intros [= <-]|].
  destruct (parseOctet p) as [o|] eqn:O; [|done]. apply parseOctet_bound in O. apply IH.
  apply PerUserNet.lor_bound; [lia| |lia]. unfold u32. apply Z.mod_pos_bound. lia.
Qed.

(** ** Pools *)

(** An aligned network with a prefix of 1 to 30 bits. *)
Definition poolOk (n : Network) : Prop :=
  1 <= prefixLen n <= 30 /\ exists q, base n = q * 2 ^ (32 - prefixLen n) /\ 0 <= q < 2 ^ prefixLen n.

Lemma maskOf_master p : 1 <= p <= 30 -> maskOf p = PerUserNet.masterMask p.
Proof.
  intros Hp. rewrite <- (code_chr p) by lia. apply Z.eqb_eq.
  assert (Hc : (1 <=? code (chr p)) && (code (chr p) <=? 30) = true) by (rewrite code_chr; lia).
  revert Hc. generalize (chr p). by_bytes.
Qed.

Lemma parseCidr_pool c n : parseCidr c = inr n -> poolOk n.
Proof.
  unfold parseCidr. destruct (find_char "/" c) as [k|]; [|done]. destruct (is_empty _); [done|].
  destruct (negb _); [done|]. destruct (prefixLoop 0 _) as [p|]; [|done].
  destruct (_ || _) eqn:Hp; [done|]. apply orb_false_iff in Hp as [H1 H2].
  destruct (parseIp _) as [|a] eqn:Ea; [done|]. apply parseIp_bound in Ea. rewrite maskOf_master by lia.
  rewrite PerUserNet.mask_floor by lia. destruct (Z.eqb_spec (a / 2 ^ (32 - p) * 2 ^ (32 - p)) a) as [E|]; [|done].
  intros [= <-]. split; cbn [prefixLen base]; [lia|]. exists (a / 2 ^ (32 - p)). split; [done|].
  split; [apply Z.div_pos; lia|]. apply Z.div_lt_upper_bound; [lia|]. rewrite <- Z.pow_add_r by lia.
  replace (32 - p + p) with 32 by lia. lia.
Qed.

(** The addresses jails may get: not the network's, the gateway's or the
    broadcast address. *)
Definition usable (n : Network) (a : Z) : Prop := base n + 1 < a < base n + 2 ^ (32 - prefixLen n) - 1.

Lemma pool_bounds n : poolOk n ->
  0 <= base n /\ 4 <= 2 ^ (32 - prefixLen n) /\ base n + 2 ^ (32 - prefixLen n) <= 2 ^ 32
  /\ broadcastFor n = base n + 2 ^ (32 - prefixLen n) - 1 /\ gatewayFor n = base n + 1.
Proof.
  intros (Hp & q & Hb & Hq). set (k := 32 - prefixLen n) in *.
  assert (H4 : 4 <= 2 ^ k) by (change 4 with (2 ^ 2); apply Z.pow_le_mono_r; lia).
  assert (H32 : 2 ^ 32 = 2 ^ prefixLen n * 2 ^ k) by (rewrite <- Z.pow_add_r by lia; f_equal; lia).
  assert (Hlt : 2 ^ k < 2 ^ 32) by (apply Z.pow_lt_mono_r; lia).
  assert (Hin : base n + 2 ^ k <= 2 ^ 32) by (rewrite Hb, H32; nia). split; [rewrite Hb; nia|]. split; [done|].
  split; [done|]. split.
  - unfold broadcastFor. fold k. destruct (Z.eqb_spec (prefixLen n) 32); [lia|]. rewrite Z.shiftl_mul_pow2 by lia.
    rewrite Z.mul_1_l, PerUserNet.u32_small by lia. rewrite Hb, lor_below by lia. lia.
  - unfold gatewayFor. apply PerUserNet.u32_small. rewrite Hb in *. nia.
Qed.

(** ** The scan *)

Lemma isTaken_In a taken : isTaken a taken = true <-> In a taken.
Proof.
  unfold isTaken. rewrite existsb_exists. split; [intros (x & Hx & ->%Z.eqb_eq); done|].
  intros H. exists a. split; [done|]. apply Z.eqb_refl.
Qed.

(** Passing a taken address uses up one of those at or above it. *)
Definition from (a x : Z) : bool := a <=? x.

Lemma above_shrinks (a : Z) taken : In a taken ->
  (length (List.filter (from (a + 1)) taken) < length (List.filter (from a) taken))%nat.
Proof.
  assert (Hle : forall l, (length (List.filter (from (a + 1)) l) <= length (List.filter (from a) l))%nat).
  { induction l as [|x l IH]; cbn [List.filter]; [lia|]. destruct (from (a + 1) x) eqn:E1, (from a x) eqn:E2;
      unfold from in E1, E2; cbn [length]; lia. }
  induction taken as [|x taken IH]; [done|]. intros [->|Hin]; cbn [List.filter].
  - specialize (Hle taken). destruct (from (a + 1) a) eqn:E1, (from a a) eqn:E2; unfold from in E1, E2; cbn [length]; lia.
  - specialize (IH Hin). destruct (from (a + 1) x) eqn:E1, (from a x) eqn:E2; unfold from in E1, E2; cbn [length]; lia.
Qed.

Lemma scan_spec fuel a gw bcast taken (r := scan fuel a gw bcast taken) :
  (length (List.filter (from a) taken) < fuel)%nat -> gw < a -> 0 < a -> bcast < 2 ^ 32 ->
  (r = 0 /\ forall x, a <= x < bcast -> In x taken)
  \/ (a <= r < bcast /\ ~ In r taken /\ forall x, a <= x < r -> In x taken).
Proof.
  revert a r. induction fuel as [|fuel IH]; intros a r Hf Hg Ha Hb; [lia|]. unfold r. cbn [scan].
  destruct (Z.ltb_spec a bcast) as [Hlt|]; cbn [negb]; [|left; split; [done|lia]].
  destruct (Z.eqb_spec a gw); [lia|]. destruct (isTaken a taken) eqn:T.
  - apply isTaken_In in T. rewrite PerUserNet.u32_small by lia. pose proof (above_shrinks a taken T).
    destruct (IH (a + 1)) as [[H1 H2]|(H1 & H2 & H3)]; [lia..| |].
    + left. split; [done|]. intros x Hx. destruct (decide (x = a)) as [->|]; [done|]. apply H2. lia.
    + right. split; [lia|]. split; [done|]. intros x Hx. destruct (decide (x = a)) as [->|]; [done|]. apply H3. lia.
  - right. split; [lia|]. split; [|lia]. intros H. apply isTaken_In in H. by rewrite H in T.
Qed.

Lemma allocateNext_spec pool taken (r := allocateNext pool taken) : poolOk pool ->
  (r = 0 /\ forall x, usable pool x -> In x taken)
  \/ (usable pool r /\ ~ In r taken /\ forall x, usable pool x -> x < r -> In x taken).
Proof.
  intros Hp. destruct (pool_bounds pool Hp) as (Hb & H4 & H32 & Ebc & Egw). unfold r, allocateNext.
  rewrite PerUserNet.u32_small, Ebc, Egw by lia. unfold usable.
  destruct (scan_spec (S (S (length taken))) (base pool + 2) (base pool + 1)
              (base pool + 2 ^ (32 - prefixLen pool) - 1) taken) as [[H1 H2]|(H1 & H2 & H3)]; [|lia..| |].
  - pose proof (filter_length_le (from (base pool + 2)) taken). lia.
  - left. split; [done|]. intros x Hx. apply H2. lia.
  - right. split; [lia|]. split; [done|]. intros x Hx Hlt. apply H3. lia.
Qed.

(** ** The laws of LineFile.v *)

Lemma name_bytes n c : nameLooksValid n = true -> In c n -> isWs c = false /\ c <> "#"%char.
Proof.
  unfold nameLooksValid. intros [_ H]%andb_prop Hc. rewrite forallb_forall in H. specialize (H c Hc). clear Hc n.
  assert (E : negb (isWs c) && negb (Ascii.eqb c "#") = true) by (revert c H; by_bytes).
  apply andb_prop in E as [E1 E2]. rewrite negb_true_iff in E1, E2. split; [done|]. by apply Ascii.eqb_neq.
Qed.

Lemma name_nonempty n : nameLooksValid n = true -> n <> [].
Proof. by intros H ->. Qed.

Lemma ws_not_digit c : isWs c = true -> is_digit c = false.
Proof.
  intros W. apply negb_true_iff. revert c W. by_bytes.
Qed.

Lemma ip_bytes a c : In c (formatIp a) -> isWs c = false.
Proof.
  unfold formatIp. rewrite !in_app_iff. intros H. destruct (isWs c) eqn:W; [|done].
  pose proof (ws_not_digit c W) as Hd.
  repeat destruct H as [H|H]; try (by apply (dec_not_In _ _ Hd) in H); try done; by subst.
Qed.

Definition leaseOk (l : Lease) : Prop := nameLooksValid (l_name l) = true /\ 0 <= l_ip l < 2 ^ 32.

Lemma leaseLine_parses (l : Lease) : leaseOk l -> parseLeaseLine (formatLeaseLine l) = inr l.
Proof.
  intros [Hn Hip]. unfold parseLeaseLine, formatLeaseLine. pose proof (name_nonempty _ Hn) as Hne.
  destruct (is_empty _) eqn:E; [apply is_empty_true in E; by destruct (l_name l)|].
  destruct (blank_line_cut (l_name l) (formatIp (l_ip l))) as (-> & -> & ->); [intros c Hc; by apply (name_bytes _ _ Hn)|].
  rewrite existsb_ws by (intros c Hc; by apply (name_bytes _ _ Hn)).
  rewrite existsb_ws by (intros c; apply ip_bytes). rewrite Hn, parse_formatIp by done. by destruct l.
Qed.

#[global] Instance leaseFormatOk : LineFormatOk (LeaseFile.Lease Z).
Proof.
  refine {| entryOk := leaseOk; line_parses := leaseLine_parses |}.
  - intros l [Hn _]. apply blank_line_shape; [by apply name_nonempty|intros c; by apply name_bytes|..];
      intros H; by apply ip_bytes in H.
  - intros rest. apply (two_comments (str "# crate network leases — managed by crate run / crate clean")
      (str "# format: <jail-name> <ip>")); by (vm_compute; intuition discriminate).
Defined.

#[global] Instance addrPoolOk : AddrPoolOk Z Network.
Proof.
  refine {| nameOk := nameLooksValid; LeaseFile.poolOk := poolOk; candidate := usable; lower := Z.lt |}.
  - intros p n a Hp Ha Hn. split; [exact Hn|]. destruct (pool_bounds p Hp) as (Hb & _ & H32 & _).
    unfold usable in Ha. cbn [l_ip]. lia.
  - intros p taken r Hp. destruct (pool_bounds p Hp) as (Hb & _).
    destruct (allocateNext_spec p taken Hp) as [[E H]|(H1 & H2 & H3)].
    + left. split; [|done]. by apply Z.eqb_eq.
    + right. split; [|done]. apply Z.eqb_neq. unfold usable in H1. change (allocateNext p taken <> 0). lia.
Defined.

(** ** Theorems *)

(** The pool allocator returns the least address of a parsed pool that is
    neither taken nor the network, gateway or broadcast address, and 0 exactly
    when there is none. *)
Theorem allocateNext_least (cidr : bytes) (pool : Network) (taken : list Z) (r := allocateNext pool taken) :
  parseCidr cidr = inr pool ->
  (r <> 0 -> usable pool r /\ ~ In r taken /\ forall x, usable pool x -> x < r -> In x taken)
  /\ (r = 0 -> forall x, usable pool x -> In x taken).
Proof.
  intros Hp%parseCidr_pool. pose proof (pool_bounds pool Hp) as (Hb & _).
  destruct (allocateNext_spec pool taken Hp) as [[E H]|(H1 & H2 & H3)]; [by split|].
  split; [done|]. intros E. unfold usable in H1. unfold r in E. lia.
Qed.

Lemma allocateNext_least_witness :
  allocateNext {| base := 0x0A420000; prefixLen := 29 |} [0x0A420002; 0x0A420004] = 0x0A420003
  /\ ~ In 0x0A420003 [0x0A420002; 0x0A420004].
Proof.
  split; [reflexivity|].
  apply (allocateNext_least (str "10.66.0.0/29") {| base := 0x0A420000; prefixLen := 29 |} [0x0A420002; 0x0A420004]);
    [vm_compute; reflexivity|discriminate].
Defined.

(** C36: whatever jails take and give back addresses, of whatever pools, and
    whichever writes of the lease file fail, the file always reads back, no
    two jails ever hold the same address and no jail holds two; and a jail that
    asks when the write succeeds gets the address it holds, or the least free
    one of the pool, or is refused because every usable address is leased. *)
Theorem leases_exclusive (f : File) (jail : bytes) (pool : Network) :
  rtc (lstep (P:=Network)) None f -> nameLooksValid jail = true -> poolOk pool ->
  exists ls, readAll f = inr ls /\ NoDup (map l_name ls) /\ NoDup (map l_ip ls)
  /\ match allocateFor (inr tt) jail pool f with
     | (inr a, f') =>
         (leaseOf jail ls = Some a /\ readAll f' = inr ls)
         \/ (leaseOf jail ls = None /\ usable pool a /\ (forall x, usable pool x -> x < a -> In x (map l_ip ls))
            /\ ~ In a (map l_ip ls) /\ readAll f' = inr (ls ++ [{| l_name := jail; l_ip := a |}]))
     | (inl _, f') => readAll f' = inr ls /\ forall x, usable pool x -> In x (map l_ip ls)
     end.
Proof.
  intros Hr Hn Hp. exact (exclusive (A:=Z) f jail pool Hr Hn Hp).
Qed.

Lemma leases_exclusive_witness :
  let pool := {| base := 0x0A420000; prefixLen := 29 |} in
  let f := snd (allocateFor (inr tt) (str "jail-web-0a1b2c3d") pool None) in
  fst (allocateFor (inr tt) (str "jail-db-00000001") pool f) = inr 0x0A420003
  /\ exists ls, readAll f = inr ls /\ NoDup (map l_ip ls).
Proof.
  intros pool f. split; [vm_compute; reflexivity|].
  assert (Hp : poolOk pool) by (apply (parseCidr_pool (str "10.66.0.0/29")); vm_compute; reflexivity).
  destruct (leases_exclusive f (str "jail-db-00000001") pool) as (ls & H1 & _ & H3 & _).
  - eapply rtc_l; [|apply rtc_refl]. apply LAllocate; [reflexivity|exact Hp].
  - reflexivity.
  - exact Hp.
  - exists ls. split; [exact H1|exact H3].
Defined.

(** Releasing gives back exactly the jail's own lease: afterwards the jail
    holds none and every other jail holds what it held. *)
Theorem release_own_lease_only (f f' : File) (jail : bytes) :
  rtc (lstep (P:=Network)) None f -> releaseFor (inr tt) jail f = (inr tt, f') ->
  exists ls ls', readAll f = inr ls /\ readAll f' = inr ls' /\ leaseOf jail ls' = None
    /\ forall j, j <> jail -> leaseOf j ls' = leaseOf j ls.
Proof.
  apply (released (A:=Z) (P:=Network)).
Qed.

Lemma release_own_lease_only_witness :
  let pool := {| base := 0x0A420000; prefixLen := 29 |} in
  let f := snd (allocateFor (inr tt) (str "jail-web-0a1b2c3d") pool None) in
  exists ls ls', readAll f = inr ls /\ readAll (snd (releaseFor (inr tt) (str "jail-web-0a1b2c3d") f)) = inr ls'
    /\ leaseOf (str "jail-web-0a1b2c3d") ls' = None
    /\ forall j, j <> str "jail-web-0a1b2c3d" -> leaseOf j ls' = leaseOf j ls.
Proof.
  intros pool f. apply (release_own_lease_only f).
  - eapply rtc_l; [|apply rtc_refl]. apply LAllocate; [reflexivity|].
    apply (parseCidr_pool (str "10.66.0.0/29")). vm_compute. reflexivity.
  - vm_compute. reflexivity.
Defined.

(** ** Two operators *)

Lemma prefixLoop_dec s : 0 <= s <= 30 -> prefixLoop 0 (dec s) = Some s.
Proof.
  intros Hs. rewrite <- (code_chr s) by lia. assert (Hc : (code (chr s) <=? 30) = true) by (rewrite code_chr; lia).
  clear Hs. revert Hc. generalize (chr s). intros c Hc.
  enough (H : match prefixLoop 0 (dec (code c)) with Some p => p =? code c | None => false end = true).
  { destruct (prefixLoop 0 (dec (code c))); [|done]. apply Z.eqb_eq in H. by subst. }
  revert c Hc. by_bytes.
Qed.

(** Reading a composed CIDR back gives the network it was composed of. *)
Lemma parseCidr_composed x s n : 0 <= x < 2 ^ 32 -> 0 <= s <= 30 ->
  parseCidr (PerUserNet.formatIpv4 x ++ str "/" ++ dec s) = inr n -> n = {| base := x; prefixLen := s |}.
Proof.
  intros Hx Hs. unfold parseCidr. change (str "/") with ["/"%char]. cbn [app].
  rewrite find_char_app by apply PerUserNet.formatIpv4_no_slash. rewrite take_app_length.
  replace (drop (S _) _) with (dec s)
    by (change ("/"%char :: dec s) with (["/"%char] ++ dec s); rewrite app_assoc, drop_app_length'; [done|];
        rewrite length_app; cbn; lia).
  destruct (is_empty _); [done|]. destruct (negb _); [done|]. rewrite prefixLoop_dec by done.
  destruct (_ || _); [done|].
  replace (PerUserNet.formatIpv4 x) with (formatIp x) by (unfold formatIp, PerUserNet.formatIpv4; by rewrite Z.shiftr_0_r).
  rewrite parse_formatIp by done. destruct (negb _); [done|]. by intros [= <-].
Qed.

Lemma allocPool_block networkPool pool bits u n : 0 <= u -> 0 < bits -> u32 (prefixLen pool + bits) <= 28 ->
  allocPool networkPool pool true bits u = inr n ->
  poolOk n /\ exists mb p, PerUserNet.network4 networkPool = Some (mb, 2 ^ (32 - p)) /\ 0 <= p
    /\ prefixLen n = u32 (prefixLen pool + bits) /\ p < prefixLen n
    /\ base n = mb + u * 2 ^ (32 - prefixLen n) /\ u < 2 ^ (prefixLen n - p).
Proof.
  intros Hu Hb Hs. unfold allocPool. destruct (Z.ltb_spec 0 bits); [|lia]. cbn [andb].
  set (s := u32 (prefixLen pool + bits)) in *. destruct (Z.ltb_spec 28 s); [lia|].
  destruct (is_empty (PerUserNet.error _)) eqn:E; [|done]. apply is_empty_true in E. cbn [negb].
  destruct (PerUserNet.composeIpv4_network _ _ _ Hu E) as (mb & p & Hm & Hp & _ & Hlt & _ & Hr & ->).
  destruct (parseCidr _) as [|n'] eqn:P; [done|]. intros [= <-]. split; [by apply parseCidr_pool in P|].
  apply parseCidr_composed in P; [|done|lia]. subst n'. exists mb, p. cbn [base prefixLen]. auto with lia.
Qed.

(** Operators do not share addresses.  When the host's pool is split per
    operator, addresses allocated for two different operators, each from its
    own part and against its own lease file, are different and lie inside the
    host's pool. *)
Theorem operators_share_no_address (networkPool : bytes) (pool pu pv : Network) (bits u v : Z)
  (takenU takenV : list Z) (a := allocateNext pu takenU) (b := allocateNext pv takenV) :
  0 <= u -> 0 <= v -> u <> v -> 0 < bits -> u32 (prefixLen pool + bits) <= 28 ->
  allocPool networkPool pool true bits u = inr pu -> allocPool networkPool pool true bits v = inr pv ->
  a <> 0 -> b <> 0 ->
  a <> b /\ exists mb size, PerUserNet.network4 networkPool = Some (mb, size) /\ mb <= a < mb + size /\ mb <= b < mb + size.
Proof.
  intros Hu Hv Hne Hb Hs Eu Ev Ha Hb'.
  destruct (allocPool_block _ _ _ _ _ Hu Hb Hs Eu) as (Hpu & mb & p & Hm & Hp & Lu & Hpl & Bu & Hlu).
  destruct (allocPool_block _ _ _ _ _ Hv Hb Hs Ev) as (Hpv & mb' & p' & Hm' & Hp' & Lv & Hpl' & Bv & Hlv).
  rewrite Hm in Hm'. injection Hm' as <- Ep. rewrite Lu in *. rewrite Lv in *.
  set (s := u32 (prefixLen pool + bits)) in *.
  apply Z.pow_inj_r in Ep; [|lia..]. assert (p' = p) as -> by lia.
  destruct (allocateNext_spec pu takenU Hpu) as [[E _]|(Ua & _)]; [done|].
  destruct (allocateNext_spec pv takenV Hpv) as [[E _]|(Ub & _)]; [done|]. fold a in Ua. fold b in Ub.
  unfold usable in Ua, Ub. rewrite Lu, Bu in Ua. rewrite Lv, Bv in Ub.
  assert (Hk : 2 ^ (32 - p) = 2 ^ (s - p) * 2 ^ (32 - s)) by (rewrite <- Z.pow_add_r by lia; f_equal; lia).
  assert (Hpos : 0 < 2 ^ (32 - s)) by (apply Z.pow_pos_nonneg; lia).
  set (k := 2 ^ (32 - s)) in *. set (c := 2 ^ (s - p)) in *.
  assert (Hmul : forall i j, 0 <= i -> i < j -> i * k + k <= j * k) by (intros; nia).
  pose proof (Hmul u c Hu Hlu). pose proof (Hmul v c Hv Hlv).
  assert (0 <= u * k /\ 0 <= v * k) as [? ?] by (split; nia). split.
  - assert (u < v \/ v < u) as [Hlt|Hlt] by lia; apply Hmul in Hlt; lia.
  - exists mb, (2 ^ (32 - p)). split; [done|]. rewrite Hk. lia.
Qed.

Lemma operators_share_no_address_witness :
  allocateNext {| base := 0x0A42E900; prefixLen := 24 |} [] <> allocateNext {| base := 0x0A42EA00; prefixLen := 24 |} [].
Proof.
  apply (operators_share_no_address (str "10.66.0.0/16") {| base := 0x0A420000; prefixLen := 16 |}
    {| base := 0x0A42E900; prefixLen := 24 |} {| base := 0x0A42EA00; prefixLen := 24 |} 8 233 234 [] []);
    [lia|lia|lia|lia|vm_compute; discriminate|vm_compute; reflexivity|vm_compute; reflexivity
    |vm_compute; discriminate|vm_compute; discriminate].
Defined.


End IpAlloc.
