(* ===== verification/Ip6Alloc.v ===== *)
(** * IPv6 address pool and lease file: lib/ip6_alloc_pure.cpp, lib/network_lease6.cpp

    Addresses are 16 bytes in network order, as in the code; [val] is the number
    they stand for.  The file's operations are those of LineFile.v at this
    address family. *)

From S2P Require Import Prelude CStd PerUser IpAlloc LineFile.

Module Ip6Alloc.
Import LeaseFile.

Abbreviation Addr6 := (list Z).
Record Network6 := { base : Addr6; prefixLen : Z }.
Definition zero6 : Addr6 := replicate 16 0.

(** ** The text form *)

Definition isHexChar (c : ascii) : bool := is_digit c || in_range "a" "f" c || in_range "A" "F" c.

Definition hexVal (c : ascii) : Z :=
  if is_digit c then code c - 48
  else if in_range "a" "f" c then 10 + (code c - 97)
  else 10 + (code c - 65).

(** The loop of [parseGroup]: [v = (v << 4) | hexVal(c)] on 32 bits. *)
Fixpoint groupLoop (v : Z) (s : bytes) : option Z :=
  match s with
  | [] => Some (u16 v)
  | c :: t => if negb (isHexChar c) then None else groupLoop (Z.lor (u32 (Z.shiftl v 4)) (hexVal c)) t
  end.

Definition parseGroup (s : bytes) : option Z :=
  if is_empty s || (4 <? size_z s) then None else groupLoop 0 s.

(** [put16] at [pos]: the group's two bytes. *)
Definition put16 (v : Z) : list Z := [u8 (Z.shiftr v 8); u8 (Z.land v 255)].

Definition get16 (a : Addr6) (pos : nat) : Z :=
  u16 (Z.lor (Z.shiftl (default 0 (a !! pos)) 8) (default 0 (a !! S pos))).

(** The [splitGroups] lambda. *)
Fixpoint splitLoop (cur s : bytes) (out : list bytes) : bytes + list bytes :=
  match s with
  | [] => if is_empty cur then inl (str "trailing ':' without '::'") else inr (out ++ [cur])
  | c :: t =>
      if Ascii.eqb c ":" then
        if is_empty cur then inl (str "empty group (consecutive ':' without '::')")
        else splitLoop [] t (out ++ [cur])
      else splitLoop (cur ++ [c]) t out
  end.

Definition splitGroups (part : bytes) : bytes + list bytes :=
  if is_empty part then inr [] else splitLoop [] part [].

(** The groups' bytes, one after the other. *)
Fixpoint putGroups (gs : list bytes) : bytes + list Z :=
  match gs with
  | [] => inr []
  | g :: rest =>
      match parseGroup g with
      | None => inl (str "IPv6 group '" ++ g ++ str "' is not 1..4 hex digits")
      | Some v => match putGroups rest with inl e => inl e | inr b => inr (put16 v ++ b) end
      end
  end.

Definition parseIp6 (s : bytes) : bytes + Addr6 :=
  if is_empty s then inl (str "IPv6 address is empty")
  else if 64 <? size_z s then inl (str "IPv6 address is implausibly long")
  else
    let cc := find_sub (str "::") s in
    if (match cc with Some i => has_sub (str "::") (drop (S i) s) | None => false end)
    then inl (str "IPv6 address has more than one '::': '" ++ s ++ str "'")
    else
      let before := match cc with Some i => take i s | None => s end in
      let after := match cc with Some i => drop (i + 2) s | None => [] end in
      let hasShorthand := match cc with Some _ => true | None => false end in
      match splitGroups before with
      | inl e => inl (str "IPv6 parse: " ++ e ++ str " in '" ++ s ++ str "'")
      | inr beforeGroups =>
          match splitGroups after with
          | inl e => inl (str "IPv6 parse: " ++ e ++ str " in '" ++ s ++ str "'")
          | inr afterGroups =>
              let total := (length beforeGroups + length afterGroups)%nat in
              if (8 <? total)%nat then inl (str "IPv6 has too many groups: '" ++ s ++ str "'")
              else if negb hasShorthand && negb (total =? 8)%nat then
                inl (str "IPv6 needs exactly 8 groups (or '::' shorthand): '" ++ s ++ str "'")
              else if hasShorthand && (total =? 8)%nat then
                inl (str "IPv6 '::' shorthand needs at least one zero group: '" ++ s ++ str "'")
              else match putGroups beforeGroups with
              | inl e => inl e
              | inr b =>
                  match putGroups afterGroups with
                  | inl e => inl e
                  | inr a => inr (b ++ replicate ((8 - total) * 2) 0 ++ a)
                  end
              end
          end
      end.

(** The search for the longest run of zero groups: [curStart], [curLen],
    [bestStart] and [bestLen] after the groups from [i] on. *)
Fixpoint runLoop (i : Z) (g : list Z) (curStart curLen bestStart bestLen : Z) : Z * Z :=
  match g with
  | [] => (bestStart, bestLen)
  | x :: t =>
      if x =? 0 then
        let cs := if curStart <? 0 then i else curStart in
        let cl := if curStart <? 0 then 1 else curLen + 1 in
        if bestLen <? cl then runLoop (i + 1) t cs cl cs cl
        else runLoop (i + 1) t cs cl bestStart bestLen
      else runLoop (i + 1) t (-1) 0 bestStart bestLen
  end.

Definition bestRun (g : list Z) : Z * Z :=
  let '(s, l) := runLoop 0 g (-1) 0 (-1) 0 in if l <? 2 then (-1, 0) else (s, l).

(** The printing loop; [i] grows in every round, so 8 rounds are enough. *)
Fixpoint printLoop (fuel : nat) (i bestStart bestLen : Z) (g : list Z) : bytes :=
  match fuel with
  | O => []
  | S f =>
      if negb (i <? 8) then []
      else if i =? bestStart then str "::" ++ printLoop f (i + bestLen) bestStart bestLen g
      else (if (0 <? i) && negb (i =? bestStart + bestLen) then str ":" else [])
           ++ PerUserNet.hex16 (default 0 (g !! Z.to_nat i)) ++ printLoop f (i + 1) bestStart bestLen g
  end.

Definition groupsOf (a : Addr6) : list Z := map (fun i => get16 a (i * 2)) (List.seq 0 8).

Definition formatIp6 (addr : Addr6) : bytes :=
  let g := groupsOf addr in
  let '(s, l) := bestRun g in printLoop 8 0 s l g.

(** ** Networks *)

(** [a[bit / 8] &= ~(1u << (7 - bit % 8))] for every bit past the prefix. *)
Definition clearBit (a : Addr6) (bit : Z) : Addr6 :=
  alter (fun b => u8 (Z.land b (u32 (Z.lnot (Z.shiftl 1 (7 - bit mod 8)))))) (Z.to_nat (bit / 8)) a.

Definition maskPrefix (a : Addr6) (prefix : Z) : Addr6 :=
  if 128 <=? prefix then a else fold_left clearBit (PerUserNet.zseq prefix 128) a.

Definition aeqb (a b : Addr6) : bool := bool_decide (a = b).

Definition parseCidr6 (cidr : bytes) : bytes + Network6 :=
  match find_char "/" cidr with
  | None => inl (str "missing CIDR mark '/' in '" ++ cidr ++ str "'")
  | Some slash =>
      if has_char "/" (drop (S slash) cidr) then inl (str "more than one '/' in '" ++ cidr ++ str "'")
      else match parseIp6 (take slash cidr) with
      | inl e => inl e
      | inr b =>
          let prefStr := drop (S slash) cidr in
          if is_empty prefStr then inl (str "empty prefix length in '" ++ cidr ++ str "'")
          else if 3 <? size_z prefStr then inl (str "implausible prefix length in '" ++ cidr ++ str "'")
          else if negb (forallb is_digit prefStr) then inl (str "non-numeric prefix length in '" ++ cidr ++ str "'")
          else
            let p := dec_value prefStr in
            if (p <? 1) || (128 <? p) then
              inl (str "IPv6 prefix length out of range (1..128): '" ++ cidr ++ str "'")
            else if negb (aeqb (maskPrefix b p) b) then
              inl (str "IPv6 base address is not aligned to /" ++ dec p ++ str " (host bits set): '"
                   ++ cidr ++ str "'")
            else inr {| base := b; prefixLen := p |}
      end
  end.

(** [++a[i] != 0] from the last byte to the first; [false] when all wrapped. *)
Fixpoint incrementInPlace (a : Addr6) : bool * Addr6 :=
  match a with
  | [] => (false, [])
  | x :: t =>
      let '(ok, t') := incrementInPlace t in
      if ok then (true, x :: t') else let x' := u8 (x + 1) in (negb (x' =? 0), x' :: t')
  end.

Definition gatewayFor (n : Network6) : Addr6 := snd (incrementInPlace (base n)).

Definition inPool (pool : Network6) (addr : Addr6) : bool := aeqb (maskPrefix addr (prefixLen pool)) (base pool).

(** The scan; its bound of 65536 rounds is the code's own. *)
Fixpoint scan (rounds : nat) (pool : Network6) (taken : list Addr6) (candidate : Addr6) : Addr6 :=
  match rounds with
  | O => zero6
  | S r =>
      if negb (inPool pool candidate) then zero6
      else if negb (existsb (aeqb candidate) taken) then candidate
      else match incrementInPlace candidate with
      | (false, _) => zero6
      | (true, c') => scan r pool taken c'
      end
  end.

Definition rounds : nat := Z.to_nat 65536.

Definition allocateNext (pool : Network6) (taken : list Addr6) : Addr6 :=
  match incrementInPlace (base pool) with
  | (false, _) => zero6
  | (true, c1) =>
      match incrementInPlace c1 with
      | (false, _) => zero6
      | (true, c2) => scan rounds pool taken c2
      end
  end.

(** ** Leases *)

Definition leaseNameLooksValid (n : bytes) : bool :=
  negb (is_empty n || (IpAlloc.kLeaseName <? size_z n))
  && forallb (fun c => is_lower c || is_upper c || is_digit c || one_of (str "._-") c) n.

Definition Lease6 : Type := Lease Addr6.

Definition parseLeaseLine6 (line : bytes) : bytes + Lease6 :=
  match find_char " " line with
  | None => inl (str "no space separator")
  | Some sp =>
      let name := take sp line in
      let ip := drop (S sp) line in
      if existsb isWs ip then inl (str "ip has internal whitespace")
      else if negb (leaseNameLooksValid name) then inl (str "invalid jail name '" ++ name ++ str "'")
      else match parseIp6 ip with
      | inl e => inl (str "ip parse: " ++ e)
      | inr a => inr {| l_name := name; l_ip := a |}
      end
  end.

Definition formatLeaseLine6 (l : Lease6) : bytes := l_name l ++ str " " ++ formatIp6 (l_ip l).

Definition leasePath (rootless : bool) (uid : Z) : bytes :=
  if rootless then RuntimePaths.perUserRoot uid ++ str "/network-leases6.txt"
  else str "/var/run/crate/network-leases6.txt".

Definition header : bytes :=
  str "# crate IPv6 leases — managed by crate run / crate clean" ++ [newline]
  ++ str "# format: <jail-name> <ip6>" ++ [newline].

#[global] Instance leaseFormat6 : LineFormat (Lease Addr6) :=
  {| LineFile.parseLine := parseLeaseLine6; LineFile.formatLine := formatLeaseLine6; LineFile.header := header |}.

#[global] Instance addrPool6 : LeaseFile.AddrPool Addr6 Network6 :=
  {| LeaseFile.allocateNext := allocateNext;
     LeaseFile.isZero := fun a => forallb (fun b => b =? 0) a;
     LeaseFile.exhausted := fun pool n =>
       str "IPv6 pool " ++ formatIp6 (base pool) ++ str "/" ++ dec (prefixLen pool) ++ str " exhausted ("
       ++ dec n ++ str " leases active)" |}.

(** The operations of lib/network_lease6.cpp. *)
Definition parseAll : bytes -> bytes + list Lease6 := LineFile.parseAll.
Definition readAll : File -> bytes + list Lease6 := LineFile.readAll.
Definition writeAllAtomic : bytes + unit -> list Lease6 -> File -> (bytes + unit) * File := LineFile.writeAllAtomic.
Definition allocateFor : bytes + unit -> bytes -> Network6 -> File -> (bytes + Addr6) * File := LeaseFile.allocateFor.
Definition releaseFor : bytes + unit -> bytes -> File -> (bytes + unit) * File := LeaseFile.releaseFor.

(** The pool a jail allocates from (lib/run.cpp). *)
Definition allocPool (networkPool6 : bytes) (pool6 : Network6) (rootless : bool) (userBits uid : Z) : bytes + Network6 :=
  if rootless && (0 <? userBits) then
    let sub6 := u32 (prefixLen pool6 + userBits) in
    if 120 <? sub6 then inr pool6
    else
      let r6 := PerUserNet.composeIpv6 networkPool6 sub6 uid in
      if negb (is_empty (PerUserNet.error r6)) then inl (str "network_pool6 per-user split: " ++ PerUserNet.error r6)
      else match parseCidr6 (PerUserNet.cidr r6) with
           | inl e => inl (str "network_pool6 per-user split '" ++ PerUserNet.cidr r6 ++ str "': " ++ e)
           | inr n => inr n
           end
  else inr pool6.

(** ** Addresses as numbers *)

Definition isBytes (a : list Z) : Prop := Forall (fun b => 0 <= b < 256) a.
Definition wf (a : Addr6) : Prop := length a = 16%nat /\ isBytes a.

Fixpoint val (a : list Z) : Z :=
  match a with [] => 0 | x :: t => x * 2 ^ (8 * size_z t) + val t end.

Lemma val_bound a : isBytes a -> 0 <= val a < 2 ^ (8 * size_z a).
Proof.
  induction 1 as [|x a Hx _ IH]; [by vm_compute|]. cbn [val]. rewrite size_z_cons.
  replace (8 * (1 + size_z a)) with (8 + 8 * size_z a) by lia. pose proof (size_z_nonneg a).
  rewrite Z.pow_add_r by lia. change (2 ^ 8) with 256. nia.
Qed.

Lemma wf_bound a : wf a -> 0 <= val a < 2 ^ 128.
Proof. intros [Hl Hb]. apply val_bound in Hb. unfold size_z in Hb. by rewrite Hl in Hb. Qed.

Lemma val_inj a b : isBytes a -> isBytes b -> length a = length b -> val a = val b -> a = b.
Proof.
  intros Ha. revert b. induction Ha as [|x a Hx Ha IH]; intros b Hb Hl Hv; [by destruct b|].
  destruct Hb as [|y b Hy Hb]; [done|]. injection Hl as Hl. cbn [val] in Hv.
  assert (E : size_z b = size_z a) by (unfold size_z; lia). rewrite E in Hv.
  pose proof (val_bound a Ha) as Ba. pose proof (val_bound b Hb) as Bb. rewrite E in Bb.
  set (k := 2 ^ (8 * size_z a)) in *. assert (x = y) as -> by nia. f_equal. apply IH; [done..|lia].
Qed.

Lemma wf_inj a b : wf a -> wf b -> val a = val b -> a = b.
Proof. intros [La Ha] [Lb Hb]. apply val_inj; [done..|congruence]. Qed.

Lemma increment_spec a : isBytes a ->
  let '(ok, a') := incrementInPlace a in
  isBytes a' /\ length a' = length a /\
  if ok then val a' = val a + 1 else val a = 2 ^ (8 * size_z a) - 1 /\ val a' = 0.
Proof.
  induction 1 as [|x a Hx Ha IH]; [cbn; split; [constructor|done]|]. cbn [incrementInPlace].
  destruct (incrementInPlace a) as [[] a']; destruct IH as (IH1 & IH2 & IH3).
  - split; [by constructor|]. cbn [length val]. split; [lia|]. unfold size_z in *. rewrite IH2. lia.
  - destruct IH3 as [IH3 IH4]. unfold u8. assert (Hu : 0 <= (x + 1) mod 2 ^ 8 < 256) by (apply Z.mod_pos_bound; lia).
    split; [by constructor|]. cbn [length val]. split; [lia|].
    assert (E : size_z a' = size_z a) by (unfold size_z; lia). rewrite E, IH4, IH3, size_z_cons.
    replace (8 * (1 + size_z a)) with (8 + 8 * size_z a) by lia. pose proof (size_z_nonneg a).
    rewrite Z.pow_add_r by lia. change (2 ^ 8) with 256 in *. destruct (decide (x = 255)) as [->|].
    + change ((255 + 1) mod 256) with 0. cbn [Z.eqb negb]. lia.
    + rewrite Z.mod_small by lia. destruct (Z.eqb_spec (x + 1) 0); cbn [negb]; lia.
Qed.

Lemma increment_wf a : wf a ->
  let '(ok, a') := incrementInPlace a in
  wf a' /\ if ok then val a' = val a + 1 else val a = 2 ^ 128 - 1.
Proof.
  intros [Hl Hb]. pose proof (increment_spec a Hb) as H. destruct (incrementInPlace a) as [[] a'];
    destruct H as (H1 & H2 & H3); (split; [split; [congruence|done]|]); [done|].
  unfold size_z in H3. rewrite Hl in H3. apply H3.
Qed.

(** Bit [n] of the number is bit [n mod 8] of the byte [n / 8] from the end. *)
Lemma val_testbit a n : isBytes a -> 0 <= n < 8 * size_z a ->
  Z.testbit (val a) n = Z.testbit (default 0 (a !! (length a - 1 - Z.to_nat (n / 8))%nat)) (n mod 8).
Proof.
  intros Ha. revert n. induction Ha as [|x a Hx Ha IH]; intros n Hn; [unfold size_z in Hn; cbn in Hn; lia|].
  rewrite size_z_cons in Hn. cbn [val length]. pose proof (val_bound a Ha) as Hb. pose proof (size_z_nonneg a).
  rewrite <- lor_below, Z.lor_spec, <- Z.shiftl_mul_pow2 by lia.
  assert (Hq : 0 <= n / 8) by (apply Z.div_pos; lia). assert (Hs : size_z a = Z.of_nat (length a)) by done.
  destruct (Z.ltb_spec n (8 * size_z a)) as [Hlt|Hge].
  - rewrite Z.shiftl_spec_low by lia. cbn [orb]. rewrite IH by lia.
    assert (Hd : n / 8 < size_z a) by (apply Z.div_lt_upper_bound; lia).
    replace (S (length a) - 1 - Z.to_nat (n / 8))%nat with (S (length a - 1 - Z.to_nat (n / 8))) by lia. done.
  - rewrite Z.shiftl_spec by lia. assert (Hd : n / 8 = size_z a).
    { symmetry. apply Z.div_unique with (n - 8 * size_z a); lia. }
    rewrite Hd, Hs, Nat2Z.id.
    replace (S (length a) - 1 - length a)%nat with 0%nat by lia. cbn [lookup list_lookup default].
    assert (Hz : Z.testbit (val a) n = false).
    { destruct (Z.eq_dec (val a) 0) as [->|]; [apply Z.bits_0|]. apply Z.bits_above_log2; [lia|].
      assert (Z.log2 (val a) < 8 * size_z a) by (apply Z.log2_lt_pow2; lia). lia. }
    rewrite Hz, orb_false_r. f_equal. rewrite Hs in *. rewrite Z.mod_eq by lia. lia.
Qed.

(** ** Masks *)

Lemma clearBit_wf a bit : wf a -> wf (clearBit a bit).
Proof.
  intros [Hl Hb]. split; [unfold clearBit; by rewrite length_alter|]. apply Forall_forall. intros x Hx.
  apply list_elem_of_lookup in Hx as [i Hi]. unfold clearBit in Hi.
  destruct (decide (i = Z.to_nat (bit / 8))) as [->|Hne].
  - rewrite list_lookup_alter_eq in Hi. destruct (a !! _); [|done]. injection Hi as <-. unfold u8.
    apply Z.mod_pos_bound. lia.
  - rewrite list_lookup_alter_ne in Hi by done. unfold isBytes in Hb. rewrite Forall_lookup in Hb. eauto.
Qed.

Lemma testbit_one k : Z.testbit 1 k = (k =? 0).
Proof.
  destruct (Z.eqb_spec k 0) as [->|]; [done|]. destruct (Z.ltb_spec k 0); [by apply Z.testbit_neg_r|].
  apply Z.bits_above_log2; [done|]. change (Z.log2 1) with 0. lia.
Qed.

Lemma clearBit_testbit a bit n : wf a -> 0 <= bit < 128 -> 0 <= n < 128 ->
  Z.testbit (val (clearBit a bit)) n = Z.testbit (val a) n && negb (n =? 127 - bit).
Proof.
  intros Ha Hbit Hn. pose proof (clearBit_wf a bit Ha) as Hc. destruct Ha as [Hl Hb], Hc as [Hl' Hb'].
  rewrite !val_testbit by (done || unfold size_z; rewrite ?Hl, ?Hl'; lia). rewrite Hl, Hl'. unfold clearBit.
  assert (Hq : 0 <= n / 8 < 16) by (split; [apply Z.div_pos; lia|apply Z.div_lt_upper_bound; lia]).
  assert (Hq' : 0 <= bit / 8 < 16) by (split; [apply Z.div_pos; lia|apply Z.div_lt_upper_bound; lia]).
  pose proof (Z.div_mod n 8) as Dn. pose proof (Z.div_mod bit 8) as Db.
  pose proof (Z.mod_pos_bound n 8) as Mn. pose proof (Z.mod_pos_bound bit 8) as Mb.
  destruct (decide (Z.to_nat (bit / 8) = (16 - 1 - Z.to_nat (n / 8))%nat)) as [E|Hne].
  - rewrite E, list_lookup_alter_eq. destruct (lookup_lt_is_Some_2 a (16 - 1 - Z.to_nat (n / 8))) as [b Eb]; [lia|].
    rewrite Eb. cbn [fmap option_fmap option_map default]. unfold u8, u32, id.
    rewrite Z.mod_pow2_bits_low, Z.land_spec, Z.mod_pow2_bits_low, Z.lnot_spec, Z.shiftl_spec by lia. f_equal. f_equal.
    rewrite testbit_one. destruct (Z.eqb_spec n (127 - bit)); lia.
  - rewrite list_lookup_alter_ne by done. destruct (Z.eqb_spec n (127 - bit)) as [E|]; [exfalso; lia|].
    by rewrite andb_true_r.
Qed.

Lemma clearBits_spec bits a : wf a -> Forall (fun b => 0 <= b < 128) bits ->
  wf (fold_left clearBit bits a) /\ forall n, 0 <= n < 128 ->
  Z.testbit (val (fold_left clearBit bits a)) n = Z.testbit (val a) n && negb (existsb (Z.eqb (127 - n)) bits).
Proof.
  intros Ha Hbits. revert a Ha. induction Hbits as [|b bits Hb _ IH]; intros a Ha; cbn [fold_left existsb].
  - split; [done|]. intros n _. by rewrite andb_true_r.
  - destruct (IH _ (clearBit_wf a b Ha)) as [H1 H2]. split; [done|]. intros n Hn.
    rewrite H2, clearBit_testbit, <- andb_assoc, <- negb_orb by done. do 3 f_equal. lia.
Qed.

Lemma zseq_In k p : In k (PerUserNet.zseq p 128) <-> p <= k < 128.
Proof.
  unfold PerUserNet.zseq. rewrite in_map_iff. split.
  - intros (i & <- & Hi%in_seq). lia.
  - intros Hk. exists (Z.to_nat (k - p)). split; [lia|]. apply in_seq. lia.
Qed.

(** The mask keeps the number's first [p] bits. *)
Lemma maskPrefix_spec a p : wf a -> 0 <= p <= 128 ->
  wf (maskPrefix a p) /\ val (maskPrefix a p) = val a / 2 ^ (128 - p) * 2 ^ (128 - p).
Proof.
  intros Ha Hp. unfold maskPrefix. destruct (Z.leb_spec 128 p).
  - assert (p = 128) as -> by lia. split; [done|]. change (2 ^ (128 - 128)) with 1. rewrite Z.div_1_r. lia.
  - destruct (clearBits_spec (PerUserNet.zseq p 128) a Ha) as [Hw Hbit].
    { apply Forall_forall. intros k Hk%list_elem_of_In%zseq_In. lia. }
    split; [done|]. rewrite <- Z.shiftr_div_pow2, <- Z.shiftl_mul_pow2 by lia. apply Z.bits_inj'. intros n Hn.
    destruct (Z.ltb_spec n 128) as [Hlt|Hge].
    + rewrite Hbit by lia. rewrite Z.shiftl_spec by lia. destruct (Z.ltb_spec n (128 - p)).
      * replace (existsb _ _) with true by (symmetry; apply existsb_exists; exists (127 - n); split;
          [apply zseq_In; lia|apply Z.eqb_refl]).
        rewrite andb_false_r. by rewrite Z.testbit_neg_r by lia.
      * rewrite Z.shiftr_spec by lia. replace (n - (128 - p) + (128 - p)) with n by lia.
        replace (existsb _ _) with false; [by rewrite andb_true_r|]. symmetry. apply not_true_iff_false.
        intros (k & Hk%zseq_In & E%Z.eqb_eq)%existsb_exists. lia.
    + assert (Hz : forall v, 0 <= v < 2 ^ 128 -> Z.testbit v n = false).
      { intros v Hv. destruct (Z.eq_dec v 0) as [->|]; [apply Z.bits_0|]. apply Z.bits_above_log2; [lia|].
        assert (Z.log2 v < 128) by (apply Z.log2_lt_pow2; lia). lia. }
      rewrite Hz by (by apply wf_bound). rewrite Z.shiftl_spec, Z.shiftr_spec by lia.
      replace (n - (128 - p) + (128 - p)) with n by lia. symmetry. apply Hz. by apply wf_bound.
Qed.

(** ** Pools *)

Lemma aeqb_eq a b : aeqb a b = true <-> a = b.
Proof. apply bool_decide_eq_true. Qed.

(** An aligned network. *)
Definition poolOk (n : Network6) : Prop :=
  wf (base n) /\ 1 <= prefixLen n <= 128 /\ maskPrefix (base n) (prefixLen n) = base n.

Definition poolSize (n : Network6) : Z := 2 ^ (128 - prefixLen n).

(** The addresses jails may get: not the network's or the gateway's. *)
Definition usable (n : Network6) (a : Addr6) : Prop :=
  wf a /\ val (base n) + 1 < val a < val (base n) + poolSize n.

Lemma pool_base n : poolOk n -> exists q, val (base n) = q * poolSize n /\ 0 < poolSize n.
Proof.
  intros (Hw & Hp & Hm). exists (val (base n) / poolSize n). unfold poolSize.
  destruct (maskPrefix_spec (base n) (prefixLen n) Hw) as [_ E]; [lia|]. rewrite Hm in E.
  split; [done|]. apply Z.pow_pos_nonneg; lia.
Qed.

Lemma inPool_iff n a : poolOk n -> wf a ->
  inPool n a = true <-> val (base n) <= val a < val (base n) + poolSize n.
Proof.
  intros Hp Ha. destruct (pool_base n Hp) as (q & Hq & Hpos). destruct Hp as (Hw & Hp & Hm).
  destruct (maskPrefix_spec a (prefixLen n) Ha) as [Hmw Hmv]; [lia|]. fold (poolSize n) in Hmv.
  unfold inPool. rewrite aeqb_eq. split.
  - intros E. rewrite E in Hmv. pose proof (Z.div_mod (val a) (poolSize n)) as D.
    pose proof (Z.mod_pos_bound (val a) (poolSize n) Hpos). lia.
  - intros Hr. apply wf_inj; [done..|]. rewrite Hmv, Hq. f_equal. symmetry.
    apply Z.div_unique with (val a - q * poolSize n); lia.
Qed.

Lemma zero6_wf : wf zero6.
Proof. split; [done|]. unfold zero6. repeat (constructor; [lia|]). constructor. Qed.

Lemma isZero_val a : wf a -> forallb (fun b => b =? 0) a = true <-> val a = 0.
Proof.
  intros Ha. split.
  - intros H. assert (a = zero6) as ->; [|done]. destruct Ha as [Hl _]. unfold zero6. rewrite <- Hl. clear Hl.
    induction a as [|x a IH]; [done|]. cbn in H |- *. apply andb_prop in H as [->%Z.eqb_eq H]. f_equal. auto.
  - intros E. assert (a = zero6) as -> by (apply wf_inj; [done|apply zero6_wf|done]). done.
Qed.

(** ** The scan *)

Definition found (pool : Network6) (taken : list Addr6) (lo hi : Z) (r : Addr6) : Prop :=
  (r = zero6 /\ forall x, wf x -> lo <= val x < hi -> val x < val (base pool) + poolSize pool -> In x taken)
  \/ (wf r /\ lo <= val r < hi /\ val r < val (base pool) + poolSize pool /\ ~ In r taken
      /\ forall x, wf x -> lo <= val x < val r -> In x taken).

Lemma scan6_spec k pool taken c : poolOk pool -> wf c -> val (base pool) <= val c ->
  found pool taken (val c) (val c + Z.of_nat k) (scan k pool taken c).
Proof.
  intros Hp. revert c. induction k as [|k IH]; intros c Hc Hb; cbn [scan]; [left; split; [done|lia]|].
  destruct (inPool pool c) eqn:E; cbn [negb].
  - apply inPool_iff in E as [_ Hlt]; [|done..]. destruct (existsb (aeqb c) taken) eqn:T; cbn [negb].
    + apply existsb_exists in T as (c0 & Hin & <-%aeqb_eq).
      assert (Hstep : forall x, wf x -> val c <= val x -> x <> c -> val c + 1 <= val x).
      { intros x Hx Hle Hne. assert (val x <> val c) by (intros Ev; by apply Hne, wf_inj). lia. }
      pose proof (increment_wf c Hc) as Hi. destruct (incrementInPlace c) as [[] c']; destruct Hi as [Hw Hv].
      * destruct (IH c' Hw) as [[H1 H2]|(H1 & H2 & H3 & H4 & H5)]; [lia| |].
        -- left. split; [done|]. intros x Hx Hr1 Hr2. destruct (decide (x = c)) as [->|Hne]; [done|].
           apply H2; [done| |done]. specialize (Hstep x Hx ltac:(lia) Hne). lia.
        -- right. split; [done|]. split; [lia|]. split; [done|]. split; [done|]. intros x Hx Hr.
           destruct (decide (x = c)) as [->|Hne]; [done|]. apply H5; [done|]. specialize (Hstep x Hx ltac:(lia) Hne). lia.
      * left. split; [done|]. intros x Hx Hr _. pose proof (wf_bound x Hx).
        assert (x = c) as -> by (apply wf_inj; [done..|lia]). done.
    + right. split; [done|]. split; [lia|]. split; [done|]. split; [|lia]. intros Hin.
      assert (existsb (aeqb c) taken = true) by (apply existsb_exists; exists c; split; [done|by apply aeqb_eq]).
      congruence.
  - left. split; [done|]. intros x Hx Hr1 Hr2. exfalso. apply not_true_iff_false in E. apply E, inPool_iff; [done..|lia].
Qed.

(** The candidates: the usable addresses among the first 65536. *)
Definition candidate6 (n : Network6) (a : Addr6) : Prop := usable n a /\ val a < val (base n) + 2 + 65536.

Lemma allocateNext6_spec pool taken (r := allocateNext pool taken) : poolOk pool ->
  (r = zero6 /\ forall x, candidate6 pool x -> In x taken)
  \/ (candidate6 pool r /\ ~ In r taken /\ forall x, candidate6 pool x -> val x < val r -> In x taken).
Proof.
  intros Hp. unfold r, allocateNext, candidate6, usable. pose proof (increment_wf _ (proj1 Hp)) as H1.
  destruct (incrementInPlace (base pool)) as [[] c1]; destruct H1 as [W1 V1];
    [|left; split; [done|]; intros x ((Hx & Hr) & _); pose proof (wf_bound x Hx); lia].
  pose proof (increment_wf _ W1) as H2. destruct (incrementInPlace c1) as [[] c2]; destruct H2 as [W2 V2];
    [|left; split; [done|]; intros x ((Hx & Hr) & _); pose proof (wf_bound x Hx); lia].
  destruct (scan6_spec rounds pool taken c2 Hp W2) as [[H1 H2]|(H1 & H2 & H3 & H4 & H5)]; [lia| |].
  - left. split; [done|]. unfold rounds in H2. rewrite Z2Nat.id in H2 by lia.
    intros x ((Hx & Hr) & Hlt). apply H2; [done|lia..].
  - right. unfold rounds in H2. rewrite Z2Nat.id in H2 by lia. fold rounds in H2. split; [split; [split|]; [done|lia..]|].
    split; [done|]. intros x ((Hx & Hr) & Hlt) Hv. apply H5; [done|lia].
Qed.

(** ** Addresses, printed and parsed back *)

(** A group as [formatIp6] prints it. *)
Definition isPiece (p : bytes) : Prop := p <> [] /\ (length p <= 4)%nat /\ forallb isHexChar p = true.

Lemma hexDigit_ok d : 0 <= d < 16 ->
  isHexChar (PerUserNet.hexDigit d) = true /\ hexVal (PerUserNet.hexDigit d) = d.
Proof.
  intros Hd. pose (ok z := isHexChar (PerUserNet.hexDigit z) && (hexVal (PerUserNet.hexDigit z) =? z)).
  assert (H : ok d = true) by (apply (CStd.below_forall 16 ok d); [vm_compute; reflexivity|lia]).
  by apply andb_prop in H as [H1 H2%Z.eqb_eq].
Qed.

Lemma nibbles n : 0 <= n < 2 ^ 32 -> Z.lor (u32 (Z.shiftl (Z.shiftr n 4) 4)) (Z.land n 15) = n.
Proof.
  intros Hn. rewrite Z.shiftl_mul_pow2, Z.shiftr_div_pow2 by lia. change 15 with (Z.ones 4).
  rewrite Z.land_ones by lia. pose proof (Z.div_mod n (2 ^ 4)) as D. pose proof (Z.mod_pos_bound n (2 ^ 4)) as M.
  unfold u32. rewrite Z.mod_small; [|split; [|lia]]. { rewrite lor_below; lia. }
  assert (0 <= n / 2 ^ 4) by (apply Z.div_pos; lia). lia.
Qed.

Lemma nibble_bound n : 0 <= Z.land n 15 < 16.
Proof. change 15 with (Z.ones 4). rewrite Z.land_ones by lia. apply Z.mod_pos_bound. lia. Qed.

Lemma hex_loop_parses k n out : 0 <= n < 2 ^ (4 * Z.of_nat k) -> (k <= 8)%nat ->
  groupLoop 0 (PerUserNet.hex_loop k n out) = groupLoop n out.
Proof.
  revert n out. induction k as [|k IH]; intros n out Hn Hk; cbn [PerUserNet.hex_loop].
  - change (2 ^ (4 * Z.of_nat 0)) with 1 in Hn. assert (n = 0) as -> by lia. done.
  - destruct (Z.leb_spec n 0); [assert (n = 0) as -> by lia; done|].
    assert (Hp : 2 ^ (4 * Z.of_nat (S k)) = 16 * 2 ^ (4 * Z.of_nat k))
      by (replace (4 * Z.of_nat (S k)) with (4 + 4 * Z.of_nat k) by lia; rewrite Z.pow_add_r by lia; done).
    rewrite IH; [|rewrite Z.shiftr_div_pow2 by lia; change (2 ^ 4) with 16;
                   split; [apply Z.div_pos; lia|apply Z.div_lt_upper_bound; lia]|lia].
    cbn [groupLoop]. destruct (hexDigit_ok (Z.land n 15) (nibble_bound n)) as [-> ->]. cbn [negb].
    rewrite nibbles; [done|]. split; [lia|]. assert (2 ^ (4 * Z.of_nat (S k)) <= 2 ^ 32) by (apply Z.pow_le_mono_r; lia). lia.
Qed.

Lemma hex_loop_shape k n out : 0 <= n -> forallb isHexChar out = true ->
  forallb isHexChar (PerUserNet.hex_loop k n out) = true /\ (length (PerUserNet.hex_loop k n out) <= k + length out)%nat
  /\ (out <> [] -> PerUserNet.hex_loop k n out <> []).
Proof.
  revert n out. induction k as [|k IH]; intros n out Hn Ho; cbn [PerUserNet.hex_loop]; [done|].
  destruct (Z.leb_spec n 0); [split; [done|]; split; [lia|done]|].
  destruct (IH (Z.shiftr n 4) (PerUserNet.hexDigit (Z.land n 15) :: out)) as (H1 & H2 & H3).
  - by apply Z.shiftr_nonneg.
  - cbn [forallb]. destruct (hexDigit_ok (Z.land n 15) (nibble_bound n)) as [-> _]. done.
  - split; [done|]. split; [cbn [length] in H2; lia|]. intros _. by apply H3.
Qed.

Lemma group_prints v : 0 <= v < 65536 -> parseGroup (PerUserNet.hex16 v) = Some v /\ isPiece (PerUserNet.hex16 v).
Proof.
  intros Hv. unfold PerUserNet.hex16. destruct (Z.leb_spec v 0).
  { assert (v = 0) as -> by lia. split; [done|]. split; [done|]. split; [cbn; lia|done]. }
  assert (P : isPiece (PerUserNet.hex_loop 4 v [])).
  { destruct (hex_loop_shape 4 v []) as (H1 & H2 & _); [lia|done|]. split; [|by split].
    cbn [PerUserNet.hex_loop]. destruct (Z.leb_spec v 0); [lia|].
    apply (hex_loop_shape 3); [by apply Z.shiftr_nonneg; lia| |done]. cbn [forallb].
    by destruct (hexDigit_ok (Z.land v 15) (nibble_bound v)) as [-> _]. }
  split; [|done]. destruct P as (P1 & P2 & _). unfold parseGroup. apply is_empty_false in P1. rewrite P1.
  destruct (Z.ltb_spec 4 (size_z (PerUserNet.hex_loop 4 v []))) as [Hs|_]; [unfold size_z in Hs; lia|]. cbn [orb].
  rewrite hex_loop_parses by (cbn; lia). cbn [groupLoop]. unfold u16. by rewrite Z.mod_small by lia.
Qed.

Lemma hex_not_colon c : isHexChar c = true -> Ascii.eqb c ":" = false.
Proof. intros H. apply negb_true_iff. revert c H. by_bytes. Qed.

Fixpoint joinColon (l : list bytes) : bytes :=
  match l with
  | [] => []
  | [p] => p
  | p :: rest => p ++ str ":" ++ joinColon rest
  end.

Lemma joinColon_head p rest : isPiece p -> exists c t, joinColon (p :: rest) = c :: t /\ isHexChar c = true.
Proof.
  intros (Hne & _ & Hh). destruct p as [|c p]; [done|]. cbn [forallb] in Hh. apply andb_prop in Hh as [Hc _].
  destruct rest; cbn [joinColon app]; eauto.
Qed.

Lemma joinColon_size l : Forall isPiece l -> (length (joinColon l) <= 5 * length l)%nat.
Proof.
  induction 1 as [|p l (_ & Hp & _) _ IH]; [done|]. destruct l as [|q l]; cbn [joinColon length] in *; [lia|].
  rewrite !length_app. cbn [length str list_ascii_of_string] in *. lia.
Qed.

(** [splitGroups] undoes the joining. *)
Lemma splitLoop_piece cur p s out : forallb isHexChar p = true -> splitLoop cur (p ++ s) out = splitLoop (cur ++ p) s out.
Proof.
  revert cur. induction p as [|c p IH]; intros cur; cbn [forallb app]; [by rewrite app_nil_r|].
  intros [Hc Hp]%andb_prop. cbn [splitLoop]. rewrite (hex_not_colon c Hc), IH, <- app_assoc by done. done.
Qed.

Lemma splitLoop_join l out : l <> [] -> Forall isPiece l -> splitLoop [] (joinColon l) out = inr (out ++ l).
Proof.
  intros Hne Hl. revert out Hne. induction Hl as [|p l (Hp1 & _ & Hp) Hl IH]; intros out Hne; [done|].
  assert (He : is_empty p = false) by (by apply is_empty_false). destruct l as [|q l].
  - cbn [joinColon]. rewrite <- (app_nil_r p) at 1. rewrite splitLoop_piece by done. cbn [app splitLoop]. by rewrite He.
  - change (joinColon (p :: q :: l)) with (p ++ ":"%char :: joinColon (q :: l)). rewrite splitLoop_piece by done.
    cbn [app splitLoop]. rewrite He. change (Ascii.eqb ":" ":") with true. cbn iota. rewrite IH by done.
    by rewrite <- app_assoc.
Qed.

Lemma splitGroups_join l : Forall isPiece l -> splitGroups (joinColon l) = inr l.
Proof.
  intros Hl. unfold splitGroups. destruct l as [|p l]; [done|].
  destruct (joinColon_head p l) as (c & s & E & _); [by inversion Hl|]. rewrite E. cbn [is_empty]. rewrite <- E.
  by rewrite splitLoop_join.
Qed.

(** Where [formatIp6]'s text has two colons in a row. *)
Definition colons : bytes := str "::".

Lemma colons_skip p s : forallb isHexChar p = true ->
  find_sub colons (p ++ s) = (fun i => (length p + i)%nat) <$> find_sub colons s.
Proof.
  induction p as [|c p IH]; cbn [forallb app]; [by intros _; destruct (find_sub colons s)|].
  intros [Hc Hp]%andb_prop. cbn [find_sub]. unfold colons in *.
  change (str "::") with (":"%char :: ":"%char :: []) in *. cbn [starts_with]. apply hex_not_colon in Hc.
  rewrite Ascii.eqb_sym in Hc. rewrite Hc, IH by done. cbn [andb]. by destruct (find_sub _ s).
Qed.

Lemma colons_one c s : isHexChar c = true -> find_sub colons (":"%char :: c :: s) = S <$> find_sub colons (c :: s).
Proof.
  intros Hc%hex_not_colon. rewrite Ascii.eqb_sym in Hc. cbn [find_sub]. unfold colons.
  change (str "::") with (":"%char :: ":"%char :: []). cbn [starts_with]. rewrite Hc.
  change (Ascii.eqb ":" ":") with true. by cbn [andb].
Qed.

Lemma colons_join l s : Forall isPiece l ->
  find_sub colons (joinColon l ++ s) = (fun i => (length (joinColon l) + i)%nat) <$> find_sub colons s.
Proof.
  induction 1 as [|p l (Hp1 & Hp2 & Hp) Hl IH]; [cbn [joinColon app length]; by destruct (find_sub colons s)|].
  destruct l as [|q l]; [by apply colons_skip|].
  change (joinColon (p :: q :: l)) with (p ++ ":"%char :: joinColon (q :: l)).
  destruct (joinColon_head q l) as (c & j & E & Hc); [by inversion Hl|]. rewrite E in IH |- *.
  rewrite <- app_assoc, colons_skip by done. cbn [app]. rewrite colons_one by done. cbn [app] in IH. rewrite IH.
  destruct (find_sub colons s); [|done]. cbn. f_equal. rewrite length_app. cbn [length]. lia.
Qed.

Lemma colons_join_none l : Forall isPiece l -> find_sub colons (joinColon l) = None.
Proof. intros Hl. rewrite <- (app_nil_r (joinColon l)), colons_join by done. done. Qed.

Lemma colons_tail l : Forall isPiece l -> find_sub colons (":"%char :: joinColon l) = None.
Proof.
  intros Hl. destruct l as [|q l]; [done|]. destruct (joinColon_head q l) as (c & j & E & Hc); [by inversion Hl|].
  pose proof (colons_join_none _ Hl) as N. rewrite E in N |- *. rewrite colons_one by done. by rewrite N.
Qed.

Lemma putGroups_hex gs : Forall (fun v => 0 <= v < 65536) gs ->
  putGroups (map PerUserNet.hex16 gs) = inr (flat_map put16 gs).
Proof.
  induction 1 as [|v gs Hv _ IH]; [done|]. cbn [map putGroups flat_map].
  destruct (group_prints v Hv) as [-> _]. by rewrite IH.
Qed.

Lemma pieces_hex gs : Forall (fun v => 0 <= v < 65536) gs -> Forall isPiece (map PerUserNet.hex16 gs).
Proof. induction 1; cbn; constructor; [by apply group_prints|done]. Qed.

(** The text of [formatIp6]: all groups, or those on each side of a run of at
    least two zero groups. *)
Definition isRun (g : list Z) (a b : nat) : Prop := forall k, (a <= k < a + b)%nat -> g !! k = Some 0.

(** [(-1, 0)], or a run of zeros that lies in [g]. *)
Definition runIn (g : list Z) (s l : Z) : Prop :=
  (s = -1 /\ l = 0) \/ exists a b, s = Z.of_nat a /\ l = Z.of_nat b /\ (1 <= b)%nat /\ (a + b <= length g)%nat /\ isRun g a b.

Lemma isRun_snoc g x a b : isRun g a b -> isRun (g ++ [x]) a b.
Proof. intros H k Hk. apply lookup_app_l_Some. auto. Qed.

Lemma runIn_snoc g x s l : runIn g s l -> runIn (g ++ [x]) s l.
Proof.
  intros [H|(a & b & H1 & H2 & H3 & H4 & H5)]; [by left|]. right. exists a, b. rewrite length_app. cbn [length].
  auto 8 using isRun_snoc with lia.
Qed.

Lemma runLoop_spec g pre cs cl bs bl :
  runIn pre cs cl -> (cs = -1 \/ cs + cl = size_z pre) -> runIn pre bs bl ->
  let '(s, l) := runLoop (size_z pre) g cs cl bs bl in runIn (pre ++ g) s l.
Proof.
  revert pre cs cl bs bl. induction g as [|x g IH]; intros pre cs cl bs bl Hc Hend Hb; cbn [runLoop].
  { by rewrite app_nil_r. }
  replace (pre ++ x :: g) with ((pre ++ [x]) ++ g) by (by rewrite <- app_assoc).
  replace (size_z pre + 1) with (size_z (pre ++ [x])) by (rewrite size_z_app; done).
  destruct (Z.eqb_spec x 0) as [->|]; [|apply IH; [by left|by left|by apply runIn_snoc]].
  set (cs' := if cs <? 0 then size_z pre else cs). set (cl' := if cs <? 0 then 1 else cl + 1).
  assert (Hc' : runIn (pre ++ [0]) cs' cl' /\ cs' + cl' = size_z (pre ++ [0])).
  { rewrite size_z_app. change (size_z [0]) with 1. unfold cs', cl'. destruct Hc as [[-> ->]|(a & b & -> & -> & H1 & H2 & H3)].
    - cbn [Z.ltb Z.compare]. split; [|done]. right. exists (length pre), 1%nat. rewrite length_app. cbn [length].
      split; [done|]. split; [done|]. split; [lia|]. split; [lia|]. intros k Hk.
      assert (k = length pre) as -> by lia. by apply list_lookup_middle.
    - destruct (Z.ltb_spec (Z.of_nat a) 0); [lia|]. unfold size_z in Hend. split; [|unfold size_z; lia].
      right. exists a, (S b). rewrite length_app. cbn [length]. split; [done|]. split; [lia|]. split; [lia|].
      split; [lia|]. intros k Hk. destruct (decide (k < length pre)%nat).
      + rewrite lookup_app_l by lia. apply H3. lia.
      + assert (k = length pre) as -> by lia. by apply list_lookup_middle. }
  destruct Hc' as [H1 H2]. destruct (bl <? cl'); apply IH; auto using runIn_snoc.
Qed.

Lemma isRun_split g a b : isRun g a b -> (a + b <= length g)%nat -> g = take a g ++ replicate b 0 ++ drop (a + b) g.
Proof.
  intros H Hl. rewrite <- (take_drop a g) at 1. f_equal. rewrite <- (take_drop b (drop a g)), drop_drop. f_equal.
  apply list_eq. intros i. destruct (decide (i < b)%nat).
  - rewrite lookup_take_lt, lookup_drop, lookup_replicate_2 by done. apply H. lia.
  - rewrite !lookup_ge_None_2; [done|rewrite length_replicate; lia|rewrite length_take; lia].
Qed.

Lemma bestRun_spec g :
  let '(s, l) := bestRun g in
  (s = -1 /\ l = 0) \/
  exists a b, s = Z.of_nat a /\ l = Z.of_nat b /\ (2 <= b)%nat /\ (a + b <= length g)%nat
    /\ g = take a g ++ replicate b 0 ++ drop (a + b) g.
Proof.
  unfold bestRun. pose proof (runLoop_spec g [] (-1) 0 (-1) 0) as H. change (size_z []) with 0 in H. cbn [app] in H.
  destruct (runLoop 0 g (-1) 0 (-1) 0) as [s l]. destruct (Z.ltb_spec l 2); [by left|]. right.
  destruct H as [[-> ->]|(a & b & -> & -> & H1 & H2 & H3)]; [by left|by left|by left|lia|].
  exists a, b. split; [done|]. split; [done|]. split; [lia|]. split; [done|]. by apply isRun_split.
Qed.

Lemma print_all g : length g = 8%nat -> printLoop 8 0 (-1) 0 g = joinColon (map PerUserNet.hex16 g).
Proof.
  intros Hl. do 8 (destruct g as [|? g]; [done|]). destruct g; [|done]. lazy -[PerUserNet.hex16 app]. by rewrite app_nil_r.
Qed.

Lemma print_run g a b : length g = 8%nat -> (2 <= b)%nat -> (a + b <= 8)%nat ->
  printLoop 8 0 (Z.of_nat a) (Z.of_nat b) g
  = joinColon (map PerUserNet.hex16 (take a g)) ++ colons ++ joinColon (map PerUserNet.hex16 (drop (a + b) g)).
Proof.
  intros Hl Hb Hab. do 8 (destruct g as [|? g]; [done|]). destruct g; [|done]. clear Hl.
  destruct a as [|[|[|[|[|[|[|a]]]]]]]; try lia; destruct b as [|[|[|[|[|[|[|[|[|b]]]]]]]]]; try lia;
    lazy -[PerUserNet.hex16 app]; rewrite ?app_nil_r, <- ?app_assoc; reflexivity.
Qed.

Lemma put_get hi lo : 0 <= hi < 256 -> 0 <= lo < 256 -> put16 (u16 (Z.lor (Z.shiftl hi 8) lo)) = [hi; lo].
Proof.
  intros Hh Hl. rewrite Z.shiftl_mul_pow2, lor_below by lia. change (2 ^ 8) with 256. unfold u16, put16.
  rewrite Z.mod_small by lia. rewrite Z.shiftr_div_pow2 by lia. change 255 with (Z.ones 8). rewrite Z.land_ones by lia.
  change (2 ^ 8) with 256. replace ((hi * 256 + lo) / 256) with hi by (apply Z.div_unique with lo; lia).
  replace ((hi * 256 + lo) mod 256) with lo by (apply Z.mod_unique with hi; lia). unfold u8. by rewrite !Z.mod_small by lia.
Qed.

Lemma groups_spec a : wf a ->
  length (groupsOf a) = 8%nat /\ Forall (fun v => 0 <= v < 65536) (groupsOf a) /\ flat_map put16 (groupsOf a) = a.
Proof.
  intros [Hl Hb]. split; [done|]. split.
  - apply Forall_forall. intros v Hv. apply list_elem_of_In, in_map_iff in Hv as (i & <- & _). apply Z.mod_pos_bound. lia.
  - do 16 (destruct a as [|? a]; [done|]). destruct a; [|done]. clear Hl. unfold isBytes in Hb.
    repeat (apply Forall_cons in Hb as [? Hb]). unfold groupsOf. cbn [map List.seq flat_map].
    unfold get16. cbn [lookup list_lookup default Nat.mul Nat.add]. unfold id. by rewrite !put_get.
Qed.

Lemma flat_map_app_list {X Y} (f : X -> list Y) l k : flat_map f (l ++ k) = flat_map f l ++ flat_map f k.
Proof. induction l as [|x l IH]; [done|]. cbn. by rewrite IH, app_assoc. Qed.

Lemma put_zeros n : flat_map put16 (replicate n 0) = replicate (n * 2) 0.
Proof. induction n as [|n IH]; [done|]. cbn [replicate flat_map]. by rewrite IH. Qed.

(** What is left of [parseIp6] once the text is cut at the shorthand. *)
Lemma parse_pieces6 (short : bool) (pb pa : list bytes) bb ba s :
  Forall isPiece pb -> Forall isPiece pa -> putGroups pb = inr bb -> putGroups pa = inr ba ->
  s = (if short then joinColon pb ++ colons ++ joinColon pa else joinColon pb) -> (short = false -> pa = []) -> s <> [] ->
  (if short then (length pb + length pa < 8)%nat else length pb = 8%nat) ->
  parseIp6 s = inr (bb ++ replicate ((8 - (length pb + length pa)) * 2) 0 ++ ba).
Proof.
  intros Pb Pa Gb Ga Hs Hnil Hne Hlen.
  pose proof (joinColon_size _ Pb) as Lb. pose proof (joinColon_size _ Pa) as La.
  unfold parseIp6. destruct (is_empty s) eqn:E; [by apply is_empty_true in E|].
  destruct (Z.ltb_spec 64 (size_z s)) as [Hbig|_].
  { exfalso. unfold size_z in Hbig. subst s. destruct short; [rewrite !length_app in Hbig; change (length colons) with 2%nat in Hbig|]; lia. }
  assert (Hcc : find_sub colons s = if short then Some (length (joinColon pb)) else None).
  { subst s. destruct short; [|by apply colons_join_none]. rewrite colons_join by done.
    change (find_sub colons (colons ++ _)) with (Some 0%nat). cbn [fmap option_fmap option_map]. f_equal. lia. }
  fold colons. rewrite Hcc. destruct short; subst s.
  - rewrite CStd.has_sub_find. replace (drop (S _) _) with (":"%char :: joinColon pa).
    2: { change (_ ++ colons ++ ?y) with (joinColon pb ++ [":"%char] ++ ":"%char :: y).
         rewrite app_assoc, drop_app_length'; [done|]. rewrite length_app. cbn. lia. }
    rewrite colons_tail by done. rewrite take_app_length. replace (drop (_ + 2) _) with (joinColon pa).
    2: { rewrite app_assoc, drop_app_length'; [done|]. rewrite length_app. done. }
    rewrite !splitGroups_join by done. cbn [negb andb].
    destruct (Nat.ltb_spec 8 (length pb + length pa)); [lia|]. destruct (Nat.eqb_spec (length pb + length pa) 8); [lia|].
    by rewrite Gb, Ga.
  - rewrite (Hnil eq_refl) in *. rewrite splitGroups_join, Hlen by done.
    cbn [splitGroups is_empty length Nat.add Nat.ltb Nat.leb negb andb Nat.eqb]. by rewrite Gb, Ga.
Qed.

Lemma parse_groups before after (short : bool) (gb ga : list Z) s :
  Forall (fun v => 0 <= v < 65536) gb -> Forall (fun v => 0 <= v < 65536) ga ->
  before = joinColon (map PerUserNet.hex16 gb) -> after = joinColon (map PerUserNet.hex16 ga) ->
  s = (if short then before ++ colons ++ after else before) -> (short = false -> ga = []) -> s <> [] ->
  (if short then (length gb + length ga < 8)%nat else length gb = 8%nat) ->
  parseIp6 s = inr (flat_map put16 gb ++ replicate ((8 - (length gb + length ga)) * 2) 0 ++ flat_map put16 ga).
Proof.
  intros Hgb Hga -> -> Hs Hnil Hne Hlen. rewrite <- (length_map PerUserNet.hex16 gb), <- (length_map PerUserNet.hex16 ga).
  apply (parse_pieces6 short); rewrite ?length_map; auto using pieces_hex, putGroups_hex.
  intros ->. by rewrite (Hnil eq_refl).
Qed.

Lemma parse_formatIp6 a : wf a -> parseIp6 (formatIp6 a) = inr a.
Proof.
  intros Ha. destruct (groups_spec a Ha) as (Hl & Hg & Ea). unfold formatIp6. pose proof (bestRun_spec (groupsOf a)) as H.
  destruct (bestRun (groupsOf a)) as [s l]. destruct H as [[-> ->]|(n & m & -> & -> & Hm & Hnm & Hsplit)].
  - rewrite print_all by done. rewrite (parse_groups _ [] false (groupsOf a) [] _ Hg ltac:(constructor) eq_refl eq_refl eq_refl);
      [|done| |done].
    + rewrite Hl. cbn [length Nat.add Nat.sub Nat.mul replicate flat_map app]. by rewrite app_nil_r, Ea.
    + destruct (groupsOf a) as [|v g]; [done|]. inversion Hg; subst.
      destruct (joinColon_head (PerUserNet.hex16 v) (map PerUserNet.hex16 g)) as (c & t & E & _); [by apply group_prints|].
      cbn [map]. by rewrite E.
  - rewrite Hl in Hnm. rewrite print_run by done. set (g := groupsOf a) in *.
    assert (Ht : length (take n g) = n) by (rewrite length_take; lia).
    assert (Hd : length (drop (n + m) g) = (8 - (n + m))%nat) by (rewrite length_drop; lia).
    rewrite (parse_groups _ _ true (take n g) (drop (n + m) g) _
      ltac:(by apply Forall_take) ltac:(by apply Forall_drop) eq_refl eq_refl eq_refl); [|done| |lia].
    + rewrite Ht, Hd. replace ((8 - (n + (8 - (n + m)))) * 2)%nat with (m * 2)%nat by lia.
      f_equal. rewrite <- Ea. change (groupsOf a) with g. rewrite Hsplit at 3. by rewrite !flat_map_app_list, put_zeros.
    + intros E. apply (f_equal length) in E. rewrite !length_app in E. change (length colons) with 2%nat in E. cbn in E. lia.
Qed.

(** ** Every address is 16 bytes *)

Lemma groupLoop_bound v s w : groupLoop v s = Some w -> 0 <= w < 65536.
Proof.
  revert v. induction s as [|c s IH]; intros v; cbn [groupLoop].
  - intros [= <-]. apply Z.mod_pos_bound. lia.
  - destruct (negb _); [done|]. apply IH.
Qed.

Lemma putGroups_bytes gs b : putGroups gs = inr b -> length b = (length gs * 2)%nat /\ isBytes b.
Proof.
  revert b. induction gs as [|g gs IH]; intros b; cbn [putGroups]; [intros [= <-]; split; [done|constructor]|].
  unfold parseGroup. destruct (_ || _); [done|]. destruct (groupLoop 0 g) as [v|]; [|done].
  destruct (putGroups gs) as [|b']; [done|]. intros [= <-]. destruct (IH b' eq_refl) as [H1 H2].
  split; [cbn [put16 app length Nat.mul]; lia|]. repeat constructor; [apply Z.mod_pos_bound; lia..|done].
Qed.

Lemma parseIp6_wf s a : parseIp6 s = inr a -> wf a.
Proof.
  unfold parseIp6. destruct (is_empty s); [done|]. destruct (64 <? _); [done|].
  destruct (match find_sub _ s with Some _ => _ | None => _ end); [done|].
  destruct (splitGroups _) as [|gb]; [done|]. destruct (splitGroups _) as [|ga]; [done|].
  destruct (Nat.ltb_spec 8 (length gb + length ga)); [done|]. destruct (_ && _); [done|]. destruct (_ && _); [done|].
  destruct (putGroups gb) as [|b] eqn:Eb; [done|]. destruct (putGroups ga) as [|c] eqn:Ec; [done|]. intros [= <-].
  apply putGroups_bytes in Eb as [Lb Bb]. apply putGroups_bytes in Ec as [Lc Bc]. split.
  - rewrite !length_app, length_replicate. lia.
  - unfold isBytes in *. rewrite !Forall_app. split; [done|]. split; [|done]. apply Forall_replicate. lia.
Qed.

Lemma parseCidr6_pool c n : parseCidr6 c = inr n -> poolOk n.
Proof.
  unfold parseCidr6. destruct (find_char "/" c) as [k|]; [|done]. destruct (has_char _ _); [done|].
  destruct (parseIp6 _) as [|b] eqn:Eb; [done|]. destruct (is_empty _); [done|]. destruct (3 <? _); [done|].
  destruct (negb (forallb _ _)); [done|]. destruct (_ || _) eqn:Hp; [done|]. apply orb_false_iff in Hp as [H1 H2].
  destruct (aeqb _ b) eqn:Em; [|done]. apply aeqb_eq in Em. intros [= <-]. apply parseIp6_wf in Eb.
  split; [done|]. cbn [prefixLen base]. split; [lia|done].
Qed.

Lemma allocPool_poolOk networkPool6 pool rootless bits uid n : poolOk pool ->
  allocPool networkPool6 pool rootless bits uid = inr n -> poolOk n.
Proof.
  intros Hp. unfold allocPool. destruct (_ && _); [|by intros [= <-]]. destruct (120 <? _); [by intros [= <-]|].
  destruct (negb _); [done|]. destruct (parseCidr6 _) eqn:E; [done|]. intros [= <-]. by apply parseCidr6_pool in E.
Qed.

Lemma parsed_wf line l : parseLeaseLine6 line = inr l -> wf (l_ip l).
Proof.
  unfold parseLeaseLine6. destruct (find_char " " line); [|done]. destruct (existsb _ _); [done|].
  destruct (negb _); [done|]. destruct (parseIp6 _) as [|a] eqn:E; [done|]. intros [= <-]. by apply parseIp6_wf in E.
Qed.

(** ** The laws of LineFile.v *)

Lemma name_as_v4 n : leaseNameLooksValid n = IpAlloc.nameLooksValid n.
Proof. reflexivity. Qed.

Definition textChar (c : ascii) : bool := isHexChar c || Ascii.eqb c ":".

Lemma printLoop_chars k i s l g : Forall (fun v => 0 <= v < 65536) g -> forallb textChar (printLoop k i s l g) = true.
Proof.
  intros Hg. revert i. induction k as [|k IH]; intros i; cbn [printLoop]; [done|].
  destruct (negb (i <? 8)); [done|]. destruct (i =? s); rewrite !forallb_app, IH, andb_true_r; [done|].
  apply andb_true_intro. split; [by destruct (_ && _)|].
  assert (Hv : 0 <= default 0 (g !! Z.to_nat i) < 65536).
  { destruct (g !! Z.to_nat i) as [v|] eqn:E; [|cbn; lia]. rewrite Forall_lookup in Hg. by apply (Hg (Z.to_nat i)). }
  destruct (group_prints _ Hv) as [_ (_ & _ & Hh)]. rewrite forallb_forall in Hh |- *. intros c Hc.
  unfold textChar. by rewrite (Hh c Hc).
Qed.

Lemma text_bytes a c : wf a -> In c (formatIp6 a) -> isWs c = false.
Proof.
  intros Ha. destruct (groups_spec a Ha) as (_ & Hg & _). unfold formatIp6. destruct (bestRun _) as [s l]. intros Hc.
  pose proof (printLoop_chars 8 0 s l _ Hg) as H. rewrite forallb_forall in H. specialize (H c Hc).
  apply negb_true_iff. clear Hc. revert c H. by_bytes.
Qed.

Definition leaseOk (l : Lease6) : Prop := leaseNameLooksValid (l_name l) = true /\ wf (l_ip l).

Lemma leaseLine6_parses (l : Lease6) : leaseOk l -> parseLeaseLine6 (formatLeaseLine6 l) = inr l.
Proof.
  intros [Hn Hip]. unfold parseLeaseLine6, formatLeaseLine6.
  destruct (blank_line_cut (l_name l) (formatIp6 (l_ip l))) as (-> & -> & ->); [intros c Hc; by apply (IpAlloc.name_bytes _ _ Hn)|].
  rewrite existsb_ws by (intros c; by apply text_bytes). rewrite Hn, parse_formatIp6 by done. by destruct l.
Qed.

#[global] Instance leaseFormat6Ok : LineFormatOk (Lease Addr6).
Proof.
  refine {| entryOk := leaseOk; line_parses := leaseLine6_parses |}.
  - intros l [Hn Hip]. apply blank_line_shape; [by apply IpAlloc.name_nonempty|intros c; by apply IpAlloc.name_bytes|..];
      intros H; by apply (text_bytes _ _ Hip) in H.
  - intros rest. apply (two_comments (str "# crate IPv6 leases — managed by crate run / crate clean")
      (str "# format: <jail-name> <ip6>")); by (vm_compute; intuition discriminate).
Defined.

#[global] Instance addrPool6Ok : AddrPoolOk Addr6 Network6.
Proof.
  refine {| nameOk := leaseNameLooksValid; LeaseFile.poolOk := poolOk; candidate := candidate6;
            lower := fun a b => val a < val b |}.
  - intros p n a _ [[Ha _] _] Hn. split; [exact Hn|exact Ha].
  - intros p taken r Hp. destruct (allocateNext6_spec p taken Hp) as [[E H]|(H1 & H2 & H3)].
    + left. split; [|done]. change (forallb (fun b => b =? 0) (allocateNext p taken) = true). by rewrite E.
    + right. split; [|done]. apply not_true_iff_false. intros Hz. destruct H1 as [[Hw Hr] _].
      apply (isZero_val _ Hw) in Hz. pose proof (wf_bound _ (proj1 Hp)). lia.
Defined.

(** ** Theorems *)

(** Text and bytes of an IPv6 address agree: the text [formatIp6] prints,
    with its longest run of zero groups cut out, is read back as the same bytes
    exactly when they are an address, 16 values from 0 to 255. *)
Theorem ip6_text_roundtrip a :
  wf a <-> parseIp6 (formatIp6 a) = inr a.
Proof. split; [apply parse_formatIp6|apply parseIp6_wf]. Qed.

(** Whatever a lease file holds, and whichever pool the configuration gives,
    every address that is read from the file or handed to a jail is 16 bytes,
    each from 0 to 255. *)
Theorem ip6_addresses_typed cidr pool io jail (f f' : File) :
  parseCidr6 cidr = inr pool ->
  (forall ls, readAll f = inr ls -> Forall (fun l => wf (l_ip l)) ls)
  /\ wf (gatewayFor pool)
  /\ forall a, allocateFor io jail pool f = (inr a, f') -> wf a.
Proof.
  intros Hp%parseCidr6_pool.
  assert (Hread : forall g ls, readAll g = inr ls -> Forall (fun l => wf (l_ip l)) ls).
  { intros g ls. apply readAll_Forall. apply parsed_wf. }
  split; [apply Hread|]. split.
  { unfold gatewayFor. pose proof (increment_wf _ (proj1 Hp)) as H. destruct (incrementInPlace (base pool)). apply H. }
  intros a. unfold allocateFor, LeaseFile.allocateFor. destruct (LineFile.parseAll (default [] f)) as [|ls] eqn:E; [done|].
  apply (Hread (Some (default [] f))) in E. destruct (leaseOf jail ls) as [b|] eqn:El.
  - intros [= <- _]. apply leaseOf_Some, list_elem_of_In in El. rewrite Forall_forall in E. apply (E _ El).
  - destruct (isZero _) eqn:Z; [done|]. destruct io as [|[]]; [done|]. intros [= <- _].
    destruct (allocateNext6_spec pool (map l_ip ls) Hp) as [[Ez _]|([[H _] _] & _)]; [|done].
    change (forallb (fun b => b =? 0) (allocateNext pool (map l_ip ls)) = false) in Z. by rewrite Ez in Z.
Qed.

Lemma ip6_addresses_typed_witness :
  wf (gatewayFor {| base := 0xfd :: replicate 15 0; prefixLen := 64 |}).
Proof.
  refine (proj1 (proj2 (ip6_addresses_typed (str "fd00::/64") {| base := 0xfd :: replicate 15 0; prefixLen := 64 |}
    (inr tt) (str "jail-web-0a1b2c3d") None None _))). vm_compute. reflexivity.
Defined.

(** IPv6 leases are exclusive.  Whatever jails take and give back
    addresses, of whatever pools, and whichever writes of the lease file fail,
    the file always reads back, no two jails ever hold the same address and no
    jail holds two; and a jail that asks when the write succeeds gets the
    address it holds, or the lowest free one of the pool, or is refused because
    every usable address among the pool's first 65536 is leased. *)
Theorem leases6_exclusive (f : File) (jail : bytes) (pool : Network6) :
  rtc (lstep (P:=Network6)) None f -> leaseNameLooksValid jail = true -> poolOk pool ->
  exists ls, readAll f = inr ls /\ NoDup (map l_name ls) /\ NoDup (map l_ip ls)
  /\ match allocateFor (inr tt) jail pool f with
     | (inr a, f') =>
         (leaseOf jail ls = Some a /\ readAll f' = inr ls)
         \/ (leaseOf jail ls = None /\ candidate6 pool a
            /\ (forall x, candidate6 pool x -> val x < val a -> In x (map l_ip ls))
            /\ ~ In a (map l_ip ls) /\ readAll f' = inr (ls ++ [{| l_name := jail; l_ip := a |}]))
     | (inl _, f') => readAll f' = inr ls /\ forall x, candidate6 pool x -> In x (map l_ip ls)
     end.
Proof. intros Hr Hn Hp. exact (exclusive (A:=Addr6) f jail pool Hr Hn Hp). Qed.

Definition ula : Network6 := {| base := 0xfd :: replicate 15 0; prefixLen := 64 |}.

Lemma ula_ok : poolOk ula.
Proof. apply (parseCidr6_pool (str "fd00::/64")). vm_compute. reflexivity. Qed.

Lemma leases6_exclusive_witness :
  let f := snd (allocateFor (inr tt) (str "jail-web-0a1b2c3d") ula None) in
  match fst (allocateFor (inr tt) (str "jail-db-00000001") ula f) with
  | inr a => formatIp6 a = str "fd00::3"
  | inl _ => False
  end
  /\ exists ls, readAll f = inr ls /\ NoDup (map l_ip ls).
Proof.
  intros f. split; [vm_compute; reflexivity|].
  destruct (leases6_exclusive f (str "jail-db-00000001") ula) as (ls & H1 & _ & H3 & _).
  - eapply rtc_l; [|apply rtc_refl]. apply LAllocate; [reflexivity|apply ula_ok].
  - reflexivity.
  - apply ula_ok.
  - exists ls. split; [exact H1|exact H3].
Defined.

End Ip6Alloc.
