(* ===== verification/RunPure.v ===== *)
(** * Names, users and addresses of a run: lib/run_pure.cpp, lib/warm_pure.cpp, lib/name_limits.h

    How a container's name becomes the kernel's jail name and the key of its
    leases and how it is read back; the in-jail account; the NAT-mode IPv6
    addresses; the run timeout; snapshot names of warm clones. *)

From S2P Require Import Prelude CStd PerUser PrivOps UtilPure IpAlloc LineFile Ip6Alloc.

Module RunPure.
Import CStd.

(** ** lib/warm_pure.cpp *)

Definition kJailName : Z := 128.
Definition nameByte (c : ascii) : bool := is_alnum c || one_of (str "._-") c.

Definition validateJailName (name : bytes) : bytes :=
  reject (is_empty name) with str "jail name is empty";
  reject (kJailName <? size_z name) with (str "jail name longer than " ++ dec kJailName ++ str " chars");
  reject (beq name (str ".") || beq name (str "..")) with str "jail name is reserved";
  check_chars nameByte (str "jail name") name.

(** The segments from the scan of [validateTemplateDataset]: what follows a
    last slash is not looked at when it is empty. *)
Definition validateTemplateDataset (ds : bytes) : bytes :=
  reject (is_empty ds) with str "template dataset is empty";
  reject (256 <? size_z ds) with str "template dataset longer than 256 chars";
  reject (starts_with (str "/") ds || backIs "/" ds) with str "template dataset must not start or end with '/'";
  reject (has_sub (str "//") ds) with str "template dataset must not contain empty path segments";
  ensure check_chars (fun c => is_alnum c || one_of (str "._-/") c) (str "template dataset") ds;
  reject (existsb (fun seg => beq seg (str ".") || beq seg (str "..")) (split_on "/" ds)) with
    str "template dataset must not contain '.' or '..' segments";
  [].

(** The scan stops at the first byte that is refused, each with its message. *)
Fixpoint suffixScan (s : bytes) : bytes :=
  match s with
  | [] => []
  | c :: t =>
      if Ascii.eqb c "@" then str "snapshot suffix must not contain '@'"
      else if Ascii.eqb c "/" then str "snapshot suffix must not contain '/'"
      else if negb (is_alnum c || one_of (str "._-:T+") c) then
        str "invalid character '" ++ [c] ++ str "' in snapshot suffix"
      else suffixScan t
  end.

Definition validateSnapshotSuffix (suffix : bytes) : bytes :=
  reject (is_empty suffix) with str "snapshot suffix is empty";
  reject (64 <? size_z suffix) with str "snapshot suffix longer than 64 chars";
  suffixScan suffix.

Definition warmSnapshotSuffix (unixEpoch : Z) : bytes :=
  str "warm-" ++ Calendar.strftimeIso (Calendar.gmtime unixEpoch).
Definition warmRunSnapshotSuffix (unixEpoch : Z) : bytes :=
  str "warmrun-" ++ Calendar.strftimeIso (Calendar.gmtime unixEpoch).
Definition fullSnapshotName (dataset suffix : bytes) : bytes := dataset ++ str "@" ++ suffix.
Definition buildSnapshotArgv (sourceDataset suffix : bytes) : list bytes :=
  [str "/sbin/zfs"; str "snapshot"; sourceDataset ++ str "@" ++ suffix].
Definition buildCloneArgv (sourceDataset suffix templateDataset : bytes) : list bytes :=
  [str "/sbin/zfs"; str "clone"; sourceDataset ++ str "@" ++ suffix; templateDataset].
Definition buildPromoteArgv (templateDataset : bytes) : list bytes :=
  [str "/sbin/zfs"; str "promote"; templateDataset].
Definition warmRunCloneName (parentDataset jailName hex : bytes) : bytes :=
  parentDataset ++ str "/jail-" ++ jailName ++ str "-" ++ hex.

(** ** lib/run_pure.cpp *)

(** The first byte that fails a test. *)
Definition find_char_not (ok : ascii -> bool) (s : bytes) : option ascii := List.find (fun c => negb (ok c)) s.

Definition envOrDefault (val : option bytes) (def : Z) : Z :=
  match val with
  | None => def
  | Some v => match UtilPure.toUInt v with inr u => u | inl _ => def end
  end.

Definition validateCronUser (user : bytes) : bytes :=
  reject (is_empty user) with str "cron user is empty";
  reject (32 <? size_z user) with str "cron user is longer than 32 chars";
  reject (starts_with (str "-") user) with str "cron user must not start with '-'";
  reject (beq user (str ".") || beq user (str "..")) with str "cron user is reserved";
  reject (negb (forallb nameByte user)) with
    str "cron user contains an invalid character (allowed: [A-Za-z0-9._-])";
  [].

Definition validateCrateFileJailName (crateFile : bytes) : bytes :=
  let name := UtilPure.filePathToBareName crateFile in
  let e := validateJailName name in
  if is_empty e then []
  else str "the jail is named after the .crate file name '" ++ name ++ str "': " ++ e
       ++ str " — rename the file to use only [A-Za-z0-9._-] (max " ++ dec kJailName
       ++ str " chars) before the first '.', or run it with --warm-base/--name".

Definition jailXnamePidSuffix (pid : Z) : bytes := str "_pid" ++ dec_signed pid.

Definition jailXnameHasPid (jailName : bytes) (pid : Z) : bool :=
  let suffix := jailXnamePidSuffix pid in
  if size_z jailName <=? size_z suffix then false else ends_with suffix jailName.

Definition containerNameOf (jailName : bytes) : bytes :=
  match rfind_sub (str "_pid") jailName with
  | None | Some O => jailName
  | Some at_ =>
      let digits := (at_ + 4)%nat in
      if (length jailName <=? digits)%nat then jailName
      else if negb (forallb is_digit (drop digits jailName)) then jailName
      else take at_ jailName
  end.

(** The directory is [jail-<name>-<8 hex>]. *)
Definition containerNameOfJail (jailName jailPath : bytes) : bytes :=
  let byName := containerNameOf jailName in
  if negb (beq byName jailName) then byName
  else
    let dir := RuntimePaths.crateJailDirName jailPath in
    let n := length dir in
    if (5 + 1 + 8 <? n)%nat && bool_decide (dir !! (n - 8 - 1)%nat = Some "-"%char)
       && forallb is_hex (drop (n - 8) dir)
    then take (n - 5 - 8 - 1) (drop 5 dir)
    else jailName.

Definition epairUnit (ifname : bytes) : option Z :=
  let kPrefix := str "epair" in
  if size_z ifname <? size_z kPrefix + 2 then None
  else if negb (starts_with kPrefix ifname) then None
  else if negb (backIs "a" ifname || backIs "b" ifname) then None
  else
    let digits := take (length ifname - 5 - 1) (drop 5 ifname) in
    if is_empty digits || (9 <? size_z digits) then None
    else if negb (forallb is_digit digits) then None
    else Some (u32 (dec_value digits)).

Record RunUser := { ru_name : bytes; ru_root : bool; ru_mirrored : bool; ru_dedicated : bool }.
Definition kDedicatedRunUser : bytes := str "crate".

Definition effectiveRunUser (specUser operatorName : bytes) (operatorUid : Z) : RunUser :=
  if beq specUser (str "root") then
    {| ru_name := str "root"; ru_root := true; ru_mirrored := false; ru_dedicated := false |}
  else if negb (is_empty specUser) then
    {| ru_name := specUser; ru_root := false;
       ru_mirrored := beq specUser operatorName && negb (operatorUid =? 0); ru_dedicated := false |}
  else if (operatorUid =? 0) || beq operatorName (str "root") || is_empty operatorName then
    {| ru_name := kDedicatedRunUser; ru_root := false; ru_mirrored := false; ru_dedicated := true |}
  else
    {| ru_name := operatorName; ru_root := false; ru_mirrored := true; ru_dedicated := false |}.

Definition runUserNeedsAccount (u : RunUser) : bool := negb (ru_root u) && negb (ru_mirrored u).

Definition validateRunUser (user : bytes) : bytes :=
  if is_empty user || beq user (str "root") then []
  else if 32 <? size_z user then str "run/user: name longer than 32 chars"
  else match user with
  | [] => []
  | c0 :: _ =>
      if negb (is_lower c0 || is_upper c0 || Ascii.eqb c0 "_") then
        str "run/user: name must start with a letter or '_'"
      else match find_char_not nameByte user with
      | Some c => str "run/user: invalid character '" ++ [c] ++ str "' in name (allowed: [A-Za-z0-9._-])"
      | None => []
      end
  end.

(** [std::hex] *)
Fixpoint hexLoop (fuel : nat) (n : Z) (out : bytes) : bytes :=
  match fuel with
  | O => out
  | S f => if n <=? 0 then out else hexLoop f (Z.shiftr n 4) (PerUserNet.hexDigit (Z.land n 15) :: out)
  end.
Definition hex64 (n : Z) : bytes := if n <=? 0 then str "0" else hexLoop 16 n [].

(** The offset, over two groups once it needs more than 16 bits. *)
Definition offsetText (offset : Z) : bytes :=
  if 0xffff <? offset then hex64 (Z.shiftr offset 16) ++ str ":" ++ hex64 (Z.land offset 0xffff) else hex64 offset.

Definition epairIp6 (num idx : Z) : bytes :=
  str "fd00:cra7:e::" ++ offsetText (u64 (0x100 + 4 * num + 1 + (if idx =? 0 then 0 else 1))).

Definition kRunTimeoutMax : Z := 30 * 24 * 3600.
Definition kRunTimeoutKillAfter : Z := 10.
Definition kRunTimeoutExitCode : Z := 124.

Definition parseRunTimeout (text : bytes) : bytes + Z :=
  if is_empty text then inl (str "run/timeout: empty value (omit the key for no timeout)")
  else
    let '(ds, unit) := span is_digit text in
    if is_empty ds then
      inl (str "run/timeout: '" ++ text ++ str "' must be a number of seconds, optionally with s/m/h")
    else if 9 <? size_z ds then inl (str "run/timeout: '" ++ text ++ str "' is out of range")
    else
      let mult := if is_empty unit || beq unit (str "s") then Some 1
                  else if beq unit (str "m") then Some 60
                  else if beq unit (str "h") then Some 3600 else None in
      match mult with
      | None => inl (str "run/timeout: unknown unit '" ++ unit ++ str "' in '" ++ text ++ str "' (s, m or h)")
      | Some m =>
          let v := u64 (dec_value ds * m) in
          if v =? 0 then inl (str "run/timeout: 0 means no timeout — omit the key instead")
          else if kRunTimeoutMax <? v then inl (str "run/timeout: '" ++ text ++ str "' exceeds the 30-day maximum")
          else inr (u32 v)
      end.

Definition runTimeoutPrefix (seconds : Z) : list bytes :=
  if seconds =? 0 then []
  else [str "/usr/bin/timeout"; str "-k"; dec kRunTimeoutKillAfter; dec seconds].

Definition runTimedOut (seconds exitCode : Z) : bool := (0 <? seconds) && (exitCode =? kRunTimeoutExitCode).

(** ** Names *)

Lemma pid_text pid : 0 <= pid -> jailXnamePidSuffix pid = str "_pid" ++ dec pid.
Proof. intros H. unfold jailXnamePidSuffix, dec_signed. destruct (Z.ltb_spec pid 0); [lia|done]. Qed.

Lemma containerNameOf_suffix n pid : n <> [] -> 0 <= pid -> containerNameOf (n ++ jailXnamePidSuffix pid) = n.
Proof.
  intros Hn Hp. rewrite pid_text by done. unfold containerNameOf. rewrite rfind_sub_last; [|done|].
  2: { apply (rfind_sub_none "_"%char); [by left|]. cbn [tail app str list_ascii_of_string].
       intros [H|[H|[H|H]]]; [done..|]. by apply (dec_not_In pid "_"%char) in H. }
  destruct n as [|c n']; [done|]. cbn [length]. fold (length n'). set (n := c :: n').
  change (S (length n')) with (length n). rewrite !length_app. change (length (str "_pid")) with 4%nat.
  assert (Hd : (1 <= length (dec pid))%nat) by (pose proof (dec_nonempty pid); destruct (dec pid); [done|cbn; lia]).
  destruct (Nat.leb_spec (length n + (4 + length (dec pid))) (length n + 4)); [lia|].
  replace (drop (length n + 4) _) with (dec pid)
    by (rewrite app_assoc, drop_app_length'; [done|]; rewrite length_app; done).
  pose proof (dec_digits pid) as Hall. unfold all_digits in Hall. rewrite Hall. cbn [negb]. apply take_app_length.
Qed.

Lemma rfind_sub_Some sub s i : rfind_sub sub s = Some i -> starts_with sub (drop i s) = true.
Proof.
  revert i. induction s as [|c s IH]; intros i; cbn [rfind_sub].
  - destruct (starts_with sub []) eqn:E; [|done]. by intros [= <-].
  - destruct (rfind_sub sub s) as [j|] eqn:R; [intros [= <-]; by apply IH|].
    destruct (starts_with sub (c :: s)) eqn:E; [|done]. by intros [= <-].
Qed.

(** A name is kept, or loses exactly a pid suffix. *)
Lemma containerNameOf_cases t :
  containerNameOf t = t \/ exists ds, forallb is_digit ds = true /\ t = containerNameOf t ++ str "_pid" ++ ds.
Proof.
  unfold containerNameOf. destruct (rfind_sub (str "_pid") t) as [[|i]|] eqn:R; [by left| |by left].
  destruct (_ <=? _)%nat; [by left|]. destruct (forallb is_digit (drop (S i + 4) t)) eqn:D; [|by left]. cbn [negb].
  right. exists (drop (S i + 4) t). split; [done|]. apply rfind_sub_Some, starts_with_spec in R as [r R].
  rewrite <- (take_drop (S i) t) at 1. f_equal. rewrite <- drop_drop, R. f_equal.
Qed.

(** Two texts that end in the same decimal number after a byte that is no digit. *)
Lemma digits_tail a b p q c : is_digit c = false -> 0 <= p -> 0 <= q ->
  a ++ c :: dec p = b ++ c :: dec q -> p = q.
Proof.
  intros Hc Hp Hq H. apply (f_equal (@rev ascii)) in H. rewrite !rev_app_distr in H. cbn [rev] in H. rewrite <- !app_assoc in H. cbn [app] in H.
  assert (Hspan : forall n r, span is_digit (rev (dec n) ++ c :: r) = (rev (dec n), c :: r)).
  { intros n r. apply span_stop; [|done]. apply forallb_forall. intros x Hx%in_rev.
    pose proof (dec_digits n) as Hd. unfold all_digits in Hd. rewrite forallb_forall in Hd. auto. }
  pose proof (Hspan p (rev a)) as Ep. rewrite H, Hspan in Ep. injection Ep as E _.
  apply (f_equal (@rev ascii)) in E. rewrite !rev_involutive in E. by apply dec_inj in E.
Qed.

(** The daemon finds the jail of a [crate run] it spawned by its pid, and no
    other run's. *)
Lemma jailXnameHasPid_iff n p q : n <> [] -> 0 <= p -> 0 <= q ->
  jailXnameHasPid (n ++ jailXnamePidSuffix p) q = true <-> p = q.
Proof.
  intros Hn Hp Hq. unfold jailXnameHasPid. rewrite !pid_text by done. split.
  - destruct (_ <=? _); [done|]. intros [t E]%ends_with_spec. revert E. rewrite !app_assoc. intros E.
    apply (digits_tail (n ++ str "_pi") (t ++ str "_pi") p q "d"%char); [done..|].
    rewrite <- !app_assoc. cbn [app]. rewrite <- !app_assoc in E. exact E.
  - intros <-. destruct (Z.leb_spec (size_z (n ++ str "_pid" ++ dec p)) (size_z (str "_pid" ++ dec p))) as [H|_].
    + rewrite size_z_app in H. pose proof (size_z_nil n). pose proof (size_z_nonneg n). assert (size_z n = 0) by lia. tauto.
    + apply ends_with_spec. eauto.
Qed.

Lemma validName_spec n : validateJailName n = [] <->
  n <> [] /\ size_z n <= kJailName /\ n <> str "." /\ n <> str ".." /\ forallb nameByte n = true.
Proof.
  unfold validateJailName. rewrite !reject_nil, check_chars_nil, orb_false_iff, !beq_neq, is_empty_false, Z.ltb_ge by done. tauto.
Qed.

(** ** Theorems *)

(** A container's name survives the trip through the kernel: the jail name
    [crate run] composes from it and its pid is cut back to that name, even
    when the name itself looks like one with a pid; and the daemon's search for
    the jail of the run it spawned matches that run's jail and no other run's. *)
Theorem container_name_roundtrip n pid q :
  validateJailName n = [] -> 0 <= pid -> 0 <= q ->
  containerNameOf (n ++ jailXnamePidSuffix pid) = n /\
  (jailXnameHasPid (n ++ jailXnamePidSuffix pid) q = true <-> pid = q).
Proof.
  intros (Hn & _)%validName_spec Hp Hq. split; [by apply containerNameOf_suffix|by apply jailXnameHasPid_iff].
Qed.

Lemma container_name_roundtrip_witness :
  containerNameOf (str "web_pid7" ++ jailXnamePidSuffix 4242) = str "web_pid7"
  /\ jailXnameHasPid (str "web_pid7" ++ jailXnamePidSuffix 4242) 242 = false.
Proof.
  destruct (container_name_roundtrip (str "web_pid7") 4242 242) as [H1 H2]; [reflexivity|lia|lia|].
  split; [exact H1|]. apply not_true_iff_false. intros H%H2. discriminate H.
Defined.

(** A name the command line accepts is accepted by every later stage: the
    kernel jail name built from it (pids of up to 7 digits) passes the privops
    validator, and the key of its leases passes the check of both lease files. *)
Theorem names_accepted_everywhere n pid hex :
  validateJailName n = [] -> 0 <= pid < 10 ^ 7 -> length hex = 8%nat -> forallb is_hex hex = true ->
  PrivOps.validateJailName (n ++ jailXnamePidSuffix pid) = []
  /\ IpAlloc.nameLooksValid (str "jail-" ++ n ++ str "-" ++ hex) = true
  /\ Ip6Alloc.leaseNameLooksValid (str "jail-" ++ n ++ str "-" ++ hex) = true.
Proof.
  intros (Hn & Hs & _ & _ & Hb)%validName_spec Hpid Hl Hh. unfold kJailName in Hs.
  assert (Hd : (length (dec pid) <= 7)%nat) by (apply dec_len; [exact Hpid|lia]).
  assert (Hdig : forallb nameByte (dec pid) = true).
  { apply forallb_forall. intros c Hc. pose proof (dec_digits pid) as H. unfold all_digits in H.
    rewrite forallb_forall in H. specialize (H c Hc). clear Hc. revert c H. by_bytes. }
  assert (Hhex : forallb nameByte hex = true).
  { apply forallb_forall. intros c Hc. rewrite forallb_forall in Hh. specialize (Hh c Hc). clear Hc. revert c Hh. by_bytes. }
  assert (Hlease : IpAlloc.nameLooksValid (str "jail-" ++ n ++ str "-" ++ hex) = true).
  { unfold IpAlloc.nameLooksValid. change IpAlloc.nameByte with nameByte. rewrite !forallb_app, Hb, Hhex.
    apply andb_true_intro. split; [|done]. apply negb_true_iff, orb_false_iff. split; [done|].
    rewrite !size_z_app. change (size_z (str "jail-")) with 5. change (size_z (str "-")) with 1.
    assert (Hx : size_z hex = 8) by (unfold size_z; lia). rewrite Hx. apply Z.ltb_ge. unfold IpAlloc.kLeaseName. lia. }
  split; [|split; [exact Hlease|by rewrite Ip6Alloc.name_as_v4]].
  rewrite pid_text by lia. unfold PrivOps.validateJailName, PrivOps.kKernelJailName.
  rewrite !reject_nil, check_chars_nil, orb_false_iff, !beq_neq, is_empty_false, Z.ltb_ge by done.
  assert (Hlen : (5 <= length (n ++ str "_pid" ++ dec pid))%nat) by (rewrite !length_app; change (length (str "_pid")) with 4%nat; destruct n; [done|cbn [length]; lia]).
  split; [by destruct n|]. split; [rewrite !size_z_app; change (size_z (str "_pid")) with 4; unfold size_z in *; lia|].
  split; [split; intros E; rewrite E in Hlen; cbn in Hlen; lia|].
  change (fun c => PrivOps.isAlnum c || one_of (str "._-") c) with nameByte. by rewrite !forallb_app, Hb, Hdig.
Qed.

Lemma names_accepted_everywhere_witness :
  PrivOps.validateJailName (str "web" ++ jailXnamePidSuffix 99999) = []
  /\ IpAlloc.nameLooksValid (str "jail-" ++ str "web" ++ str "-" ++ str "0a1b2c3d") = true.
Proof.
  destruct (names_accepted_everywhere (str "web") 99999 (str "0a1b2c3d")) as (H1 & H2 & _); [reflexivity|lia|reflexivity..|].
  split; [exact H1|exact H2].
Defined.

(** NAT-mode IPv6 cannot work: the address [epairIp6] makes for either side
    of any pair is no IPv6 address, because [cra7] has a byte that is no hex
    digit; the program's own parsers refuse it. *)
Theorem epair_ip6_invalid num idx :
  (exists e, Ip6Alloc.parseIp6 (epairIp6 num idx) = inl e) /\ PerUserNet.parseIpv6 (epairIp6 num idx) = None.
Proof.
  unfold epairIp6. generalize (offsetText (u64 (0x100 + 4 * num + 1 + (if idx =? 0 then 0 else 1)))). intros t. split.
  - unfold Ip6Alloc.parseIp6. set (s := str "fd00:cra7:e::" ++ t).
    destruct (is_empty s); [eauto|]. destruct (64 <? size_z s); [eauto|].
    replace (find_sub (str "::") s) with (Some 11%nat) by reflexivity. destruct (has_sub (str "::") (drop 12 s)); [eauto|].
    replace (take 11 s) with (str "fd00:cra7:e") by reflexivity.
    replace (Ip6Alloc.splitGroups (str "fd00:cra7:e")) with (@inr bytes _ [str "fd00"; str "cra7"; str "e"]) by reflexivity.
    destruct (Ip6Alloc.splitGroups (drop (11 + 2) s)) as [|ga]; [eauto|]. destruct (_ <? _)%nat; [eauto|].
    destruct (_ && _); [eauto|]. destruct (_ && _); [eauto|].
    replace (Ip6Alloc.putGroups [str "fd00"; str "cra7"; str "e"])
      with (@inl bytes (list Z) (str "IPv6 group 'cra7' is not 1..4 hex digits")) by reflexivity. eauto.
  - unfold PerUserNet.parseIpv6. destruct (_ || _); [done|]. destruct (PerUserNet.twoDoubleColons _); [done|]. reflexivity.
Qed.

(** A run timeout that is accepted is the number times its unit, between one
    second and 30 days. *)
Lemma parseRunTimeout_exact text v : parseRunTimeout text = inr v ->
  1 <= v <= kRunTimeoutMax /\ exists ds unit m, text = ds ++ unit /\ v = dec_value ds * m
    /\ ((unit = [] \/ unit = str "s") /\ m = 1 \/ unit = str "m" /\ m = 60 \/ unit = str "h" /\ m = 3600).
Proof.
  unfold parseRunTimeout. destruct (is_empty text); [done|]. destruct (span is_digit text) as [ds unit] eqn:Es.
  apply span_spec in Es as (Et & Hd & _). destruct (is_empty ds); [done|].
  destruct (Z.ltb_spec 9 (size_z ds)); [done|].
  assert (Hv : 0 <= dec_value ds < 10 ^ 9).
  { pose proof (dec_value_bound ds Hd). pose proof (Z.pow_le_mono_r 10 (size_z ds) 9). lia. }
  assert (Hm : forall m, 1 <= m <= 3600 -> u64 (dec_value ds * m) = dec_value ds * m).
  { intros m Hm. unfold u64. apply Z.mod_small. nia. }
  destruct (if is_empty unit || beq unit (str "s") then _ else _) as [m|] eqn:Em; [|done].
  assert (Hcase : (unit = [] \/ unit = str "s") /\ m = 1 \/ unit = str "m" /\ m = 60 \/ unit = str "h" /\ m = 3600).
  { destruct (is_empty unit) eqn:E1; [apply is_empty_true in E1; left; split; [by left|by injection Em]|].
    destruct (beq_spec unit (str "s")); [left; split; [by right|by injection Em]|].
    destruct (beq_spec unit (str "m")); [right; left; split; [done|by injection Em]|].
    destruct (beq_spec unit (str "h")); [right; right; split; [done|by injection Em]|done]. }
  assert (Hmr : 1 <= m <= 3600) by lia. rewrite Hm by done.
  destruct (Z.eqb_spec (dec_value ds * m) 0); [done|]. destruct (Z.ltb_spec kRunTimeoutMax (dec_value ds * m)); [done|].
  intros [= <-]. unfold u32. rewrite Z.mod_small by (unfold kRunTimeoutMax in *; nia).
  split; [nia|]. exists ds, unit, m. done.
Qed.

End RunPure.
