(* ===== verification/SpecRegistry.v ===== *)
(** * The spec registry: lib/spec_registry_pure.cpp, lib/spec_registry.cpp

    Which .crate file (or warm-base dataset) a container was started from, kept
    in a line file (LineFile.v) so that a restart can replay it.  The theorem is
    that the file implements a finite map from container names. *)

From S2P Require Import Prelude PerUser LineFile RunPure.

Module SpecRegistry.
Import LineFile.

(** ** lib/spec_registry_pure.cpp *)

Record Entry := { e_name : bytes; e_cratePath : bytes; e_warmBase : bytes }.

#[global] Instance Entry_eq_dec : EqDecision Entry.
Proof. solve_decision. Defined.

Definition kJailName : Z := 128.

Definition isAlnumDashUnderscore (c : ascii) : bool :=
  is_lower c || is_upper c || is_digit c || Ascii.eqb c "-" || Ascii.eqb c "_".

Definition segmentHasDotDot (s : bytes) : bool := existsb (fun seg => beq seg (str "..")) (split_on "/" s).

Definition inQuotes (s : bytes) : bytes := str ": '" ++ s ++ str "'".

Definition validateName (n : bytes) : bytes :=
  reject (is_empty n) with str "name is empty";
  reject (kJailName <? size_z n) with (str "name too long (>" ++ dec kJailName ++ str " chars)" ++ inQuotes n);
  reject (beq n (str ".") || beq n (str "..")) with (str "name is reserved" ++ inQuotes n);
  reject (starts_with (str "-") n || starts_with (str ".") n) with
    (str "name must not start with '-' or '.'" ++ inQuotes n);
  reject (negb (forallb (fun c => isAlnumDashUnderscore c || Ascii.eqb c ".") n)) with
    (str "name contains forbidden char (allowed: [A-Za-z0-9._-])" ++ inQuotes n);
  [].

Definition forbiddenByte (c : ascii) : bool :=
  one_of (str "\'`$;|&*?<>" ++ [dquote; newline; cr]) c.

(** The byte loop of [validatePath]; [p] is the whole path, for the message. *)
Fixpoint pathScan (p s : bytes) : bytes :=
  match s with
  | [] => []
  | c :: t =>
      if (code c <? 0x20) || (code c =? 0x7f) then str "path contains a control character" ++ inQuotes p
      else if forbiddenByte c then str "path contains forbidden char '" ++ [c] ++ str "'" ++ inQuotes p
      else pathScan p t
  end.

Definition validatePath (p : bytes) : bytes :=
  reject (is_empty p) with str "path is empty";
  reject (1024 <? size_z p) with (str "path too long" ++ inQuotes p);
  reject (negb (starts_with (str "/") p)) with (str "path must be absolute" ++ inQuotes p);
  reject (segmentHasDotDot p) with (str "path must not contain '..' segments" ++ inQuotes p);
  pathScan p p.

Definition kWarmBaseTag : bytes := str "warm-base=".

Definition validateEntry (e : Entry) : bytes :=
  ensure validateName (e_name e);
  if negb (is_empty (e_warmBase e)) then
    reject (negb (is_empty (e_cratePath e))) with str "entry has both a crate path and a warm-base dataset";
    ensure ZfsDataset.validateDatasetName (e_warmBase e) as "warm-base: ";
    reject (has_char " " (e_warmBase e)) with str "warm-base dataset contains a space";
    []
  else validatePath (e_cratePath e).

Definition parseLine (line : bytes) : bytes + Entry :=
  match find_char " " line with
  | None => inl (str "no space separator")
  | Some sp =>
      let rest := drop (S sp) line in
      if starts_with (str " ") rest then
        inl (str "duplicate separator (use exactly one space between name and path)")
      else
        let name := take sp line in
        let e := if starts_with kWarmBaseTag rest
                 then {| e_name := name; e_cratePath := []; e_warmBase := drop (length kWarmBaseTag) rest |}
                 else {| e_name := name; e_cratePath := rest; e_warmBase := [] |} in
        let err := validateEntry e in
        if is_empty err then inr e else inl err
  end.

Definition targetOf (e : Entry) : bytes :=
  if negb (is_empty (e_warmBase e)) then kWarmBaseTag ++ e_warmBase e else e_cratePath e.

Definition formatLine (e : Entry) : bytes := e_name e ++ str " " ++ targetOf e.

(** The index of the first entry of that name; [None] is -1. *)
Fixpoint findIndex (entries : list Entry) (name : bytes) : option nat :=
  match entries with
  | [] => None
  | e :: rest => if beq (e_name e) name then Some O else S <$> findIndex rest name
  end.

(** ** lib/spec_registry.cpp *)

Definition registryPath (rootless : bool) (uid : Z) : bytes :=
  if rootless then RuntimePaths.perUserRoot uid ++ str "/spec-registry.txt"
  else str "/var/run/crate/spec-registry.txt".

Definition header : bytes :=
  str "# crate spec registry — managed by `crate run -f` / `crate run --warm-base`" ++ [newline]
  ++ str "# format: <jail-name> <abs-crate-path>  |  <jail-name> warm-base=<dataset>" ++ [newline].

#[global] Instance specFormat : LineFormat Entry :=
  {| LineFile.parseLine := parseLine; LineFile.formatLine := formatLine; LineFile.header := header |}.

Definition parseAll : bytes -> bytes + list Entry := LineFile.parseAll.
Definition readAll : File -> bytes + list Entry := LineFile.readAll.
Definition writeAllAtomic : bytes + unit -> list Entry -> File -> (bytes + unit) * File := LineFile.writeAllAtomic.

Definition upsertEntry (io : bytes + unit) (candidate : Entry) (f : File) : (bytes + unit) * File :=
  let err := validateEntry candidate in
  if negb (is_empty err) then (inl err, f)
  else
    let buf := default [] f in
    match parseAll buf with
    | inl e => (inl e, Some buf)
    | inr entries =>
        match findIndex entries (e_name candidate) with
        | Some idx =>
            if (match entries !! idx with
                | Some e => beq (e_cratePath e) (e_cratePath candidate) && beq (e_warmBase e) (e_warmBase candidate)
                | None => false
                end)
            then (inr tt, Some buf)
            else writeAllAtomic io (<[idx := candidate]> entries) (Some buf)
        | None => writeAllAtomic io (entries ++ [candidate]) (Some buf)
        end
    end.

Definition upsert (io : bytes + unit) (name cratePath : bytes) (f : File) : (bytes + unit) * File :=
  upsertEntry io {| e_name := name; e_cratePath := cratePath; e_warmBase := [] |} f.

Definition remove (io : bytes + unit) (name : bytes) (f : File) : (bytes + unit) * File :=
  let buf := default [] f in
  match parseAll buf with
  | inl e => (inl e, Some buf)
  | inr entries =>
      let kept := List.filter (fun e => negb (beq (e_name e) name)) entries in
      if existsb (fun e => beq (e_name e) name) entries then writeAllAtomic io kept (Some buf)
      else (inr tt, Some buf)
  end.

Definition lookupEntry (name : bytes) (f : File) : bytes + option Entry :=
  match readAll f with
  | inl e => inl e
  | inr entries => inr (List.find (fun e => beq (e_name e) name) entries)
  end.

(** The empty string when there is no entry, and for a warm-base entry. *)
Definition lookup (name : bytes) (f : File) : bytes + bytes :=
  match lookupEntry name f with
  | inl e => inl e
  | inr None => inr []
  | inr (Some e) => inr (e_cratePath e)
  end.

(** ** Lines, written and read back *)

Definition entryValid (e : Entry) : Prop := validateEntry e = [].

Lemma valid_name e : entryValid e -> validateName (e_name e) = [].
Proof. unfold entryValid, validateEntry. by intros [H _]%guard_err_nil. Qed.

Lemma spec_name_bytes n c : validateName n = [] -> In c n -> isWs c = false /\ c <> "#"%char.
Proof.
  unfold validateName. intros H Hc. ok_split H. destruct H as (_ & _ & _ & _ & H & _).
  apply negb_false_iff in H. rewrite forallb_forall in H. specialize (H c Hc). clear Hc n.
  assert (E : negb (isWs c) && negb (Ascii.eqb c "#") = true) by (revert c H; by_bytes).
  apply andb_prop in E as [E1 E2]. rewrite negb_true_iff in E1, E2. split; [done|]. by apply Ascii.eqb_neq.
Qed.

Lemma pathScan_bytes p s c : pathScan p s = [] -> In c s -> c <> newline /\ c <> cr.
Proof.
  induction s as [|x s IH]; cbn [pathScan]; [done|]. destruct (_ || _) eqn:E; [done|]. destruct (forbiddenByte x); [done|].
  intros H [->|Hc]; [|auto]. split; intros ->; vm_compute in E; discriminate.
Qed.

Lemma target_shape e : entryValid e ->
  ~ In newline (targetOf e) /\ ~ In cr (targetOf e) /\ starts_with (str " ") (targetOf e) = false /\ e_name e <> [].
Proof.
  unfold entryValid, validateEntry, targetOf. rewrite guard_err_nil. intros [Hn H].
  assert (Hne : e_name e <> []) by (intros E; by rewrite E in Hn).
  destruct (is_empty (e_warmBase e)) eqn:E; cbn [negb] in *.
  - unfold validatePath in H. ok_split H. destruct H as (_ & _ & H & _ & Hs). apply negb_false_iff in H.
    split; [intros Hc; by apply (pathScan_bytes _ _ _ Hs) in Hc as [? _]|].
    split; [intros Hc; by apply (pathScan_bytes _ _ _ Hs) in Hc as [_ ?]|]. split; [|done].
    apply starts_with_spec in H as [t ->]. done.
  - ok_split H. destruct H as (_ & H & _ & _). unfold ZfsDataset.validateDatasetName in H. ok_split H.
    destruct H as (_ & _ & _ & _ & H & _). apply negb_false_iff in H.
    assert (Hb : forall c, In c (e_warmBase e) -> c <> newline /\ c <> cr).
    { intros c Hc. rewrite forallb_forall in H. specialize (H c Hc). split; intros ->; vm_compute in H; discriminate. }
    split; [|split; [|done]]; rewrite in_app_iff; intros [Hc|Hc]; try (vm_compute in Hc; intuition discriminate);
      by apply Hb in Hc as [? ?].
Qed.

Lemma parse_formatLine e : entryValid e -> parseLine (formatLine e) = inr e.
Proof.
  intros He. destruct (target_shape e He) as (_ & _ & Hsp & Hne). unfold parseLine, formatLine.
  pose proof (valid_name e He) as Hn.
  destruct (blank_line_cut (e_name e) (targetOf e)) as (-> & -> & ->); [intros c Hc; by apply (spec_name_bytes _ _ Hn)|].
  rewrite Hsp. assert (E : (if starts_with kWarmBaseTag (targetOf e)
    then {| e_name := e_name e; e_cratePath := []; e_warmBase := drop (length kWarmBaseTag) (targetOf e) |}
    else {| e_name := e_name e; e_cratePath := targetOf e; e_warmBase := [] |}) = e).
  { unfold entryValid, validateEntry in He. rewrite guard_err_nil in He. destruct He as [_ H]. unfold targetOf.
    destruct e as [n p wb]. cbn [e_name e_cratePath e_warmBase] in *. destruct (is_empty wb) eqn:Ew; cbn [negb] in *.
    - apply is_empty_true in Ew as ->. unfold validatePath in H. ok_split H. destruct H as (_ & _ & H & _).
      apply negb_false_iff, starts_with_spec in H as [t ->]. done.
    - rewrite starts_with_app, drop_app_length. ok_split H. destruct H as [H _]. apply negb_false_iff, is_empty_true in H.
      by subst. }
  rewrite E. unfold entryValid in He. by rewrite He.
Qed.

#[global] Instance specFormatOk : LineFormatOk Entry.
Proof.
  refine {| entryOk := entryValid; line_parses := parse_formatLine |}.
  - intros e He. destruct (target_shape e He) as (H1 & H2 & _ & H4).
    pose proof (valid_name e He) as Hn.
    apply blank_line_shape; [done|intros c; by apply spec_name_bytes|done..].
  - intros rest. apply (two_comments (str "# crate spec registry — managed by `crate run -f` / `crate run --warm-base`")
      (str "# format: <jail-name> <abs-crate-path>  |  <jail-name> warm-base=<dataset>")); by (vm_compute; intuition discriminate).
Defined.

(** ** The file as a finite map *)

Definition view (es : list Entry) : gmap bytes Entry := list_to_map (map (fun e => (e_name e, e)) es).

Lemma view_find es n : view es !! n = List.find (fun e => beq (e_name e) n) es.
Proof.
  induction es as [|e es IH]; [apply lookup_empty|]. unfold view. cbn [map list_to_map foldr List.find fst snd].
  fold (view es). destruct (beq_spec (e_name e) n) as [<-|Hne]; [apply lookup_insert_eq|].
  rewrite lookup_insert_ne by done. apply IH.
Qed.

Lemma findIndex_Some es n i : findIndex es n = Some i -> exists e, es !! i = Some e /\ e_name e = n.
Proof.
  revert i. induction es as [|e es IH]; intros i; cbn [findIndex]; [done|].
  destruct (beq_spec (e_name e) n); [intros [= <-]; eauto|]. destruct (findIndex es n) as [j|]; [|done].
  intros [= <-]. by apply IH.
Qed.

Lemma view_update es e i : findIndex es (e_name e) = Some i -> view (<[i := e]> es) = <[e_name e := e]> (view es).
Proof.
  intros Hi. apply map_eq. intros n. rewrite view_find. revert i Hi. induction es as [|x es IH]; intros i; cbn [findIndex]; [done|].
  destruct (beq_spec (e_name x) (e_name e)) as [Ex|Ex].
  - intros [= <-]. change (<[0%nat := e]> (x :: es)) with (e :: es). cbn [List.find]. destruct (beq_spec (e_name e) n) as [<-|Hne].
    + by rewrite lookup_insert_eq.
    + rewrite lookup_insert_ne, view_find by done. cbn [List.find]. rewrite Ex. by destruct (beq_spec (e_name e) n).
  - destruct (findIndex es (e_name e)) as [j|]; [|done]. intros [= <-]. change (<[S j := e]> (x :: es)) with (x :: <[j := e]> es).
    cbn [List.find].    specialize (IH j eq_refl). destruct (beq_spec (e_name x) n) as [<-|Hne].
    + rewrite lookup_insert_ne by done. rewrite view_find. cbn [List.find]. by rewrite beq_refl.
    + rewrite IH. destruct (decide (e_name e = n)) as [<-|Hn]; [by rewrite !lookup_insert_eq|].
      rewrite !lookup_insert_ne by done. rewrite !view_find. cbn [List.find]. by destruct (beq_spec (e_name x) n).
Qed.

Lemma view_add es e : findIndex es (e_name e) = None -> view (es ++ [e]) = <[e_name e := e]> (view es).
Proof.
  intros Hi. apply map_eq. intros n. rewrite view_find. induction es as [|x es IH].
  - cbn [app List.find]. destruct (beq_spec (e_name e) n) as [<-|]; [by rewrite lookup_insert_eq|].
    rewrite lookup_insert_ne by done. symmetry. apply lookup_empty.
  - cbn [findIndex] in Hi. destruct (beq_spec (e_name x) (e_name e)) as [|Ex]; [done|].
    destruct (findIndex es (e_name e)); [done|]. cbn [app List.find]. specialize (IH eq_refl).
    destruct (beq_spec (e_name x) n) as [<-|Hne].
    + rewrite lookup_insert_ne by done. rewrite view_find. cbn [List.find]. by rewrite beq_refl.
    + rewrite IH. destruct (decide (e_name e = n)) as [<-|Hn]; [by rewrite !lookup_insert_eq|].
      rewrite !lookup_insert_ne by done. rewrite !view_find. cbn [List.find]. by destruct (beq_spec (e_name x) n).
Qed.

Lemma view_remove es n : view (List.filter (fun e => negb (beq (e_name e) n)) es) = delete n (view es).
Proof.
  apply map_eq. intros k. rewrite view_find. induction es as [|x es IH].
  - cbn. symmetry. destruct (decide (n = k)) as [<-|]; [apply lookup_delete_eq|]. by rewrite lookup_delete_ne, lookup_empty.
  - cbn [List.filter List.find]. destruct (beq_spec (e_name x) n) as [Ex|Ex]; cbn [negb].
    + rewrite IH. destruct (decide (n = k)) as [<-|Hk]; [by rewrite !lookup_delete_eq|].
      rewrite !lookup_delete_ne by done. rewrite !view_find. cbn [List.find]. destruct (beq_spec (e_name x) k); [congruence|done].
    + cbn [List.find]. destruct (beq_spec (e_name x) k) as [<-|Hk].
      * rewrite lookup_delete_ne by done. rewrite view_find. cbn [List.find]. by rewrite beq_refl.
      * rewrite IH. destruct (decide (n = k)) as [<-|Hn]; [by rewrite !lookup_delete_eq|].
        rewrite !lookup_delete_ne by done. rewrite !view_find. cbn [List.find]. by destruct (beq_spec (e_name x) k).
Qed.

Definition represents (f : File) (m : gmap bytes Entry) : Prop :=
  exists es, Forall entryValid es /\ stores f es /\ m = view es.

Lemma represents_written es : Forall entryValid es -> represents (Some (LineFile.render es)) (view es).
Proof. intros He. exists es. split; [done|]. split; [by right|done]. Qed.

Lemma represents_lookup f m n : represents f m -> lookupEntry n f = inr (m !! n).
Proof.
  intros (es & Hok & Hf & ->). unfold lookupEntry. change (readAll f) with (LineFile.readAll f).
  rewrite (stores_readAll f es) by done. by rewrite view_find.
Qed.

(** ** The abstract registry *)

Inductive Op :=
| Upsert (io : bytes + unit) (e : Entry)
| Remove (io : bytes + unit) (name : bytes).

Definition exec (f : File) (op : Op) : File :=
  match op with
  | Upsert io e => snd (upsertEntry io e f)
  | Remove io n => snd (remove io n f)
  end.

(** A map, changed by the operations whose write succeeds. *)
Definition specStep (m : gmap bytes Entry) (op : Op) : gmap bytes Entry :=
  match op with
  | Upsert (inr _) e => if is_empty (validateEntry e) then <[e_name e := e]> m else m
  | Remove (inr _) n => delete n m
  | Upsert (inl _) _ | Remove (inl _) _ => m
  end.

Lemma upsert_step f m io e : represents f m -> represents (exec f (Upsert io e)) (specStep m (Upsert io e)).
Proof.
  intros Hr. cbn [exec]. unfold upsertEntry. destruct (is_empty (validateEntry e)) eqn:Ev; cbn [negb].
  2: { cbn [snd specStep]. rewrite Ev. by destruct io. }
  destruct Hr as (es & Hok & Hf & ->). unfold parseAll. rewrite (stores_parse f es) by done. apply stores_open in Hf.
  assert (Hsame : represents (Some (default [] f)) (view es)) by (exists es; done).
  apply is_empty_true in Ev as He. unfold writeAllAtomic, LineFile.writeAllAtomic.
  destruct (findIndex es (e_name e)) as [i|] eqn:Ei.
  - destruct (findIndex_Some _ _ _ Ei) as (x & Hx & Hn). rewrite Hx. destruct (_ && _) eqn:Eq.
    + assert (x = e) as ->. { apply andb_prop in Eq as [E1%beq_eq E2%beq_eq]. destruct x, e. cbn in *. congruence. }
      cbn [snd]. destruct io as [|[]]; cbn [specStep]; [done|]. rewrite Ev. rewrite <- (view_update es e i) by done.
      by rewrite list_insert_id.
    + destruct io as [err|[]]; cbn [snd specStep]; [done|]. rewrite Ev, <- (view_update es e i) by done.
      apply represents_written. by apply Forall_insert.
  - destruct io as [err|[]]; cbn [snd specStep]; [done|]. rewrite Ev, <- (view_add es e) by done.
    apply represents_written, Forall_app. split; [done|]. by apply Forall_singleton.
Qed.

Lemma remove_step f m io n : represents f m -> represents (exec f (Remove io n)) (specStep m (Remove io n)).
Proof.
  intros (es & Hok & Hf & ->). cbn [exec]. unfold remove, parseAll. rewrite (stores_parse f es) by done. apply stores_open in Hf.
  assert (Hsame : represents (Some (default [] f)) (view es)) by (exists es; done).
  destruct (existsb _ es) eqn:E.
  - unfold writeAllAtomic, LineFile.writeAllAtomic. destruct io as [err|[]]; cbn [snd specStep]; [done|].
    rewrite <- view_remove. apply represents_written. apply Forall_forall. intros e He%list_elem_of_In.
    apply filter_In in He as [He _]. rewrite Forall_forall in Hok. by apply Hok, list_elem_of_In.
  - cbn [snd]. destruct io as [err|[]]; cbn [specStep]; [done|]. rewrite delete_id; [done|]. rewrite view_find.
    destruct (List.find _ es) as [e|] eqn:Ef; [|done]. apply find_some in Ef as [He Hn].
    assert (existsb (fun e => beq (e_name e) n) es = true) by (apply existsb_exists; eauto). congruence.
Qed.

(** The spec registry implements a finite map.  Whatever containers are
    recorded and removed, whichever writes of the file fail and whichever
    entries are refused, looking a name up gives what a map changed by the same
    operations holds: the file always reads back, a new entry replaces the old
    one of its name, and no other name is affected. *)
Theorem registry_refines_map (ops : list Op) (name : bytes) :
  lookupEntry name (fold_left exec ops None) = inr (fold_left specStep ops ∅ !! name).
Proof.
  apply represents_lookup.
  enough (H : forall f m, represents f m -> represents (fold_left exec ops f) (fold_left specStep ops m)).
  { apply H. exists []. split; [constructor|]. split; [by left|done]. }
  induction ops as [|op ops IH]; intros f m Hr; [done|]. cbn [fold_left]. apply IH.
  destruct op; [by apply upsert_step|by apply remove_step].
Qed.

(** A name the command line accepts may be refused here: the registry's rule,
    said to be the jail name's, also refuses a leading dot or dash. *)
Lemma dotted_name_not_recorded :
  RunPure.validateJailName (str ".app") = [] /\ validateName (str ".app") <> []
  /\ RunPure.validateJailName (str "-app") = [] /\ validateName (str "-app") <> [].
Proof. repeat split; vm_compute; discriminate. Qed.

Example registry_example :
  let e1 := {| e_name := str "web"; e_cratePath := str "/srv/web.crate"; e_warmBase := [] |} in
  let e2 := {| e_name := str "db"; e_cratePath := []; e_warmBase := str "tank/warm/db" |} in
  let f := fold_left exec [Upsert (inr tt) e1; Upsert (inr tt) e2] None in
  lookup (str "web") f = inr (str "/srv/web.crate") /\ lookupEntry (str "db") f = inr (Some e2)
  /\ lookup (str "web") (exec f (Remove (inr tt) (str "web"))) = inr [].
Proof. vm_compute. done. Qed.

End SpecRegistry.
