(* ===== verification/Authz.v ===== *)
(** * Per-user authorization: lib/privops_authz_pure.{h,cpp}

    The decision function that runs before a privops verb is dispatched for an
    operator whose uid the kernel reported.  The registries it consults are
    an interface here ([OwnerLookup]); [Registry] implements it. *)

From S2P Require Import Prelude PerUser PrivOps.

Module Authz.
Import PrivOps.

Inductive Decision :=
| Allow
| DenyForeignDataset
| DenyForeignLoginclass
| DenyForeignJid
| DenyForeignJailName
| DenyForeignPath
| DenyForeignCreatePath
| DenyForeignSource
| DenyUnownedPath
| DenyForeignAnchor
| DenyUnownedJid
| DenyForeignIface
| DenyHostIface
| DenyForeignDevfsRuleset
| DenyDevfsSharedRuleset.

#[global] Instance Decision_eq_dec : EqDecision Decision.
Proof. solve_decision. Defined.

Definition kPrivateDevfsRulesetMin : Z := 10000.
Definition kPrivateDevfsRulesetMax : Z := 59999.

Definition isPrivateDevfsRuleset (ruleset : Z) : bool :=
  (kPrivateDevfsRulesetMin <=? ruleset) && (ruleset <=? kPrivateDevfsRulesetMax).

Record Owner := { known : bool; o_uid : Z }.
Definition noOwner : Owner := {| known := false; o_uid := 0 |}.

(** The [std::function] members; [None] is an empty function. *)
Record OwnerLookup := {
  byJid : option (Z -> Owner);
  byName : option (bytes -> Owner);
  byPath : option (bytes -> Owner);
  byIface : option (bytes -> Owner);
  byDevfsRuleset : option (Z -> Owner) }.

Definition nullLookup : OwnerLookup :=
  {| byJid := Some (fun _ => noOwner); byName := Some (fun _ => noOwner);
     byPath := Some (fun _ => noOwner); byIface := None; byDevfsRuleset := None |}.

Record Request := {
  dataset : bytes; req_loginclass : bytes; jailName : bytes; jid : Z;
  path : bytes; source : bytes; anchor : bytes; ifname : bytes; devfsRuleset : Z }.

Definition ownedUnder (value prefix : bytes) : bool :=
  if is_empty prefix then true
  else if beq value prefix then true
  else
    let prefixEndsWithSep := backIs "/" prefix in
    (size_z prefix <? size_z value) && starts_with prefix value
    && (prefixEndsWithSep || starts_with (str "/") (drop (length prefix) value)).

Definition datasetOwned (ds zfsPrefix : bytes) : bool := ownedUnder ds zfsPrefix.
Definition pathOwned (p pathPrefix : bytes) : bool := ownedUnder p pathPrefix.

(** [o.uid == env.uid ? Allow : deny] *)
Definition sameUid (o : Owner) (env : PerUserEnv.Env) (deny : Decision) : Decision :=
  if o_uid o =? PerUserEnv.uid env then Allow else deny.

Definition checkOwnedJid (j : Z) (env : PerUserEnv.Env) (lookup : OwnerLookup) : Decision :=
  match byJid lookup with
  | None => Allow
  | Some f =>
      let o := f j in
      if negb (known o) then Allow else sameUid o env DenyForeignJid
  end.

Definition checkOwnedJidStrict (j : Z) (env : PerUserEnv.Env) (lookup : OwnerLookup) : Decision :=
  match byJid lookup with
  | None => DenyUnownedJid
  | Some f =>
      let o := f j in
      if negb (known o) then DenyUnownedJid else sameUid o env DenyForeignJid
  end.

(** [while (i < size && isdigit(name[i])) i++], as the digits skipped. *)
Fixpoint skipDigits (s : bytes) : bytes :=
  match s with c :: t => if is_digit c then skipDigits t else s | [] => [] end.

Definition isEpairIfaceName (name : bytes) : bool :=
  let kPrefix := str "epair" in
  if size_z name <? size_z kPrefix + 2 then false
  else if negb (starts_with kPrefix name) then false
  else
    let digits := drop (length kPrefix) name in
    let rest := skipDigits digits in
    (* i == digitsStart || i != name.size() - 1 *)
    if (size_z rest =? size_z digits) || negb (size_z rest =? 1) then false
    else one_of (str "ab") (default nul (head rest)).

Definition checkOwnedIface (name : bytes) (env : PerUserEnv.Env) (lookup : OwnerLookup) : Decision :=
  match byIface lookup with
  | None => Allow
  | Some f =>
      if negb (isEpairIfaceName name) then DenyHostIface
      else
        let o := f name in
        if negb (known o) then Allow else sameUid o env DenyForeignIface
  end.

Definition checkOwnedDevfsRuleset (ruleset : Z) (env : PerUserEnv.Env) (lookup : OwnerLookup)
  : Decision :=
  if negb (isPrivateDevfsRuleset ruleset) then DenyForeignDevfsRuleset
  else match byDevfsRuleset lookup with
       | None => Allow
       | Some f =>
           let o := f ruleset in
           if negb (known o) then Allow else sameUid o env DenyForeignDevfsRuleset
       end.

Definition checkOwnedName (name : bytes) (env : PerUserEnv.Env) (lookup : OwnerLookup) : Decision :=
  match byName lookup with
  | None => Allow
  | Some f =>
      let o := f name in
      if negb (known o) then Allow else sameUid o env DenyForeignJailName
  end.

Definition checkOwnedPath (p : bytes) (env : PerUserEnv.Env) (lookup : OwnerLookup) : Decision :=
  let o := match byPath lookup with Some f => f p | None => noOwner end in
  if known o then sameUid o env DenyForeignPath
  else if is_empty (PerUserEnv.pathMasterPrefix env) then Allow
  else if pathOwned p (PerUserEnv.pathPrefix env) then Allow else DenyUnownedPath.

Definition sourceForeign (src : bytes) (env : PerUserEnv.Env) : bool :=
  if is_empty (PerUserEnv.pathMasterPrefix env) then false
  else pathOwned src (PerUserEnv.pathMasterPrefix env)
       && negb (pathOwned src (PerUserEnv.pathPrefix env)).

Definition anchorJailName (a : bytes) : bytes :=
  let kPrefix := str "crate/" in
  if size_z a <=? size_z kPrefix then []
  else if negb (starts_with kPrefix a) then []
  else
    let rest := drop (length kPrefix) a in
    if has_char "/" rest then [] else rest.

(** [if (d != Allow) return d; k] *)
Definition andThen (d k : Decision) : Decision := match d with Allow => k | _ => d end.

Definition authorize (v : Verb) (req : Request) (env : PerUserEnv.Env) (lookup : OwnerLookup)
  : Decision :=
  match v with
  | AttachZfs | DetachZfs =>
      if negb (datasetOwned (dataset req) (PerUserEnv.zfsPrefix env)) then DenyForeignDataset
      else checkOwnedJid (jid req) env lookup
  | AddPfRule | RemovePfRule | FlushPfAnchor =>
      let jail := anchorJailName (anchor req) in
      if is_empty jail then DenyForeignAnchor
      else
        let d := checkOwnedName jail env lookup in
        match d with DenyForeignJailName => DenyForeignAnchor | _ => d end
  | SetLoginclassRctl | ClearLoginclassRctl =>
      if beq (req_loginclass req) (PerUserEnv.loginclass env) then Allow
      else DenyForeignLoginclass
  | SetRctl | ClearRctl | SetJailCpuset | QueryJailRctl | SignalJail
  | AcquireFwLease | ReleaseFwLease =>
      checkOwnedJid (jid req) env lookup
  | ConfigureIface =>
      andThen (checkOwnedJid (jid req) env lookup) (checkOwnedIface (ifname req) env lookup)
  | TeardownIface | SetIfaceUp | DisableIfaceOffload | SetIfaceInetAddr | SetIfaceMac
  | BridgeAddMember | BridgeDelMember =>
      checkOwnedIface (ifname req) env lookup
  | ExecInJail => checkOwnedJidStrict (jid req) env lookup
  | DestroyJail => checkOwnedName (jailName req) env lookup
  | ReclaimIfaceFromVnet =>
      andThen (checkOwnedName (jailName req) env lookup) (checkOwnedIface (ifname req) env lookup)
  | CreateJail =>
      if pathOwned (path req) (PerUserEnv.pathPrefix env) then Allow else DenyForeignCreatePath
  | UnmountNullfs | ApplyDevfsRuleset | MountTmpfs => checkOwnedPath (path req) env lookup
  | ApplyDevfsRules =>
      andThen (checkOwnedPath (path req) env lookup)
              (checkOwnedDevfsRuleset (devfsRuleset req) env lookup)
  | AddDevfsUnhideRule =>
      andThen (checkOwnedPath (path req) env lookup) DenyDevfsSharedRuleset
  | MountNullfs =>
      andThen (checkOwnedPath (path req) env lookup)
              (if sourceForeign (source req) env then DenyForeignSource else Allow)
  | Unknown | AddIpfwRule | RemoveIpfwRule | CreateEpair | EnsureUserRoot | ConfigureIpfwNat
  | DeleteIpfwNat | CreateBridge => Allow
  end.

(** The 1.1.12 wrapper. *)
Definition authorizeDataset (v : Verb) (ds lc : bytes) (env : PerUserEnv.Env) : Decision :=
  authorize v
    {| dataset := ds; req_loginclass := lc; jailName := []; jid := 0; path := []; source := [];
       anchor := []; ifname := []; devfsRuleset := 0 |} env nullLookup.

Definition decisionReason (d : Decision) : bytes :=
  match d with
  | Allow => str "allow"
  | DenyForeignDataset => str "dataset is outside the caller's per-user ZFS prefix"
  | DenyForeignLoginclass => str "loginclass is not the caller's crate-<uid> umbrella"
  | DenyForeignJid => str "jid is owned by a different operator"
  | DenyForeignJailName => str "jail name is owned by a different operator"
  | DenyForeignPath => str "path lies inside a jail owned by a different operator"
  | DenyForeignCreatePath =>
      str "create_jail path is outside the caller's per-user path prefix"
  | DenyForeignSource =>
      str "mount source lies inside another operator's per-user path prefix"
  | DenyUnownedPath =>
      str "path is neither inside a jail owned by the caller nor inside the caller's per-user path prefix"
  | DenyForeignAnchor =>
      str "pf anchor is not a crate/<jail> anchor of a jail owned by the caller"
  | DenyUnownedJid =>
      str "jid is not registered to the caller (exec_in_jail requires a jail created through privops by the same operator)"
  | DenyForeignIface => str "interface is an epair half created by a different operator"
  | DenyHostIface =>
      str "interface is not an epair half; host interfaces cannot be named by a per-user caller"
  | DenyForeignDevfsRuleset =>
      str "devfs ruleset is outside the private range 10000..59999 or in use by another jail"
  | DenyDevfsSharedRuleset =>
      str "add_devfs_unhide_rule edits the devfs ruleset the mount uses, which other jails may share; "
      ++ str "use apply_devfs_rules with a private ruleset"
  end.

(** ** Ownership under a prefix *)

(** What "below a prefix" means, component-wise. *)
Definition below (value prefix : bytes) : Prop :=
  value = prefix \/ (exists rest, value = prefix ++ str "/" ++ rest)
  \/ (exists rest, backIs "/" prefix = true /\ rest <> [] /\ value = prefix ++ rest).

Lemma ownedUnder_spec value prefix :
  ownedUnder value prefix = true <-> prefix = [] \/ below value prefix.
Proof.
  unfold ownedUnder, below. destruct prefix as [|p0 ps]; [cbn; tauto|]. cbn [is_empty].
  set (prefix := p0 :: ps). assert (Hne : prefix <> []) by done.
  destruct (beq_spec value prefix) as [->|Hneq]; [tauto|].
  rewrite !andb_true_iff, orb_true_iff, Z.ltb_lt, !starts_with_spec. split.
  - intros [[Hl [t ->]] H]. right. right. rewrite drop_app_length in H.
    destruct H as [H|[u ->]]; [right|left; eauto].
    exists t. split; [done|]. split; [|done]. intros ->. by rewrite app_nil_r in Hneq.
  - intros [?|[?|[[r ->]|(r & Hb & Hr & ->)]]]; [done|done| |].
    + rewrite drop_app_length, !size_z_app. pose proof (size_z_nonneg r).
      change (size_z (str "/")) with 1. split; [split; [lia|eauto]|]. right. eauto.
    + rewrite size_z_app. pose proof (size_z_nonneg r). rewrite <- size_z_nil in Hr.
      split; [split; [lia|eauto]|]. by left.
Qed.

Definition slice (base : bytes) (u : Z) : bytes := base ++ str "/" ++ dec u.

Lemma slice_no_trailing_slash base u : backIs "/" (slice base u) = false.
Proof.
  unfold backIs, slice. rewrite app_assoc, back_app_ne by apply dec_nonempty.
  destruct (back (dec u)) as [c|] eqn:E; [|done].
  destruct (Ascii.eqb_spec c "/") as [->|]; [|done].
  by apply back_In, dec_not_In in E.
Qed.

(** What lies below one operator's slice of a common master prefix. *)
Lemma below_slice value base u :
  below value (slice base u) <->
  value = slice base u \/ exists rest, value = slice base u ++ str "/" ++ rest.
Proof.
  unfold below. rewrite slice_no_trailing_slash. split; [|tauto].
  intros [?|[?|(r & ? & _)]]; [tauto|tauto|done].
Qed.

(** Two operators' slices of the same master prefix share nothing: no value is
    below both. *)
Lemma slices_disjoint value base u v :
  0 <= u -> 0 <= v -> below value (slice base u) -> below value (slice base v) -> u = v.
Proof.
  intros Hu Hv. rewrite !below_slice. unfold slice.
  assert (Hcut : forall w (H : value = base ++ str "/" ++ dec w \/
      exists rest, value = (base ++ str "/" ++ dec w) ++ str "/" ++ rest),
    exists rest, drop (length base + 1) value = rest /\
      (rest = dec w \/ exists r, rest = dec w ++ "/"%char :: r)).
  { intros w H. eexists. split; [reflexivity|].
    assert (E : forall x, drop (length base + 1) (base ++ str "/" ++ x) = x).
    { intros x. rewrite <- drop_drop, drop_app_length. done. }
    destruct H as [->|[r ->]]; [left; apply E|right; exists r].
    by rewrite <- !app_assoc, E. }
  intros H1 H2. apply Hcut in H1 as (r1 & <- & H1). apply Hcut in H2 as (r2 & <- & H2).
  apply dec_inj; [done..|].
  assert (Hf : forall w s, (s = dec w \/ exists r, s = dec w ++ "/"%char :: r) ->
    head (split_on "/" s) = Some (dec w)).
  { intros w s [->|[r ->]]; [rewrite split_on_nosep by (by apply dec_not_In)|
      rewrite split_on_app by (by apply dec_not_In)]; done. }
  apply Hf in H1, H2. congruence.
Qed.

(** ** The checks, one by one *)

(** The caller owns [o], or nobody is recorded as the owner. *)
Definition mine (o : Owner) (env : PerUserEnv.Env) : Prop :=
  known o = true -> o_uid o = PerUserEnv.uid env.

Lemma sameUid_allow o env d : d <> Allow -> sameUid o env d = Allow <-> o_uid o = PerUserEnv.uid env.
Proof. intros Hd. unfold sameUid. rewrite <- Z.eqb_eq. by destruct (_ =? _). Qed.

Lemma known_check o env d (Hd : d <> Allow) :
  (if negb (known o) then Allow else sameUid o env d) = Allow <-> mine o env.
Proof.
  unfold mine. destruct (known o); cbn; [rewrite sameUid_allow by done; tauto|].
  split; done.
Qed.

Lemma checkOwnedJid_allow j env lookup :
  checkOwnedJid j env lookup = Allow <-> forall f, byJid lookup = Some f -> mine (f j) env.
Proof.
  unfold checkOwnedJid. destruct (byJid lookup) as [f|]; [|by split].
  cbn zeta. rewrite known_check by done. split; [intros H g [= <-]; done|auto].
Qed.

Lemma checkOwnedName_allow n env lookup :
  checkOwnedName n env lookup = Allow <-> forall f, byName lookup = Some f -> mine (f n) env.
Proof.
  unfold checkOwnedName. destruct (byName lookup) as [f|]; [|by split].
  cbn zeta. rewrite known_check by done. split; [intros H g [= <-]; done|auto].
Qed.

Lemma checkOwnedIface_allow n env lookup :
  checkOwnedIface n env lookup = Allow <->
  forall f, byIface lookup = Some f -> isEpairIfaceName n = true /\ mine (f n) env.
Proof.
  unfold checkOwnedIface. destruct (byIface lookup) as [f|]; [|by split].
  destruct (isEpairIfaceName n); cbn [negb]; cbn zeta.
  - rewrite known_check by done. split; [intros H g [= <-]; done|intros H; by apply (H f)].
  - split; [done|]. intros H. by destruct (H f eq_refl).
Qed.

Lemma checkOwnedJidStrict_allow j env lookup :
  checkOwnedJidStrict j env lookup = Allow <->
  exists f, byJid lookup = Some f /\ known (f j) = true /\ o_uid (f j) = PerUserEnv.uid env.
Proof.
  unfold checkOwnedJidStrict. destruct (byJid lookup) as [f|]; [|split; [done|by intros (f & ? & _)]].
  cbn zeta. destruct (known (f j)) eqn:K; cbn [negb].
  - rewrite sameUid_allow by done. split; [eauto|by intros (g & [= <-] & _ & ?)].
  - split; [done|]. intros (g & [= <-] & ? & _). congruence.
Qed.

Lemma checkOwnedPath_allow p env lookup :
  checkOwnedPath p env lookup = Allow ->
  let o := match byPath lookup with Some f => f p | None => noOwner end in
  mine o env /\
  (known o = false -> PerUserEnv.pathMasterPrefix env <> [] ->
   pathOwned p (PerUserEnv.pathPrefix env) = true).
Proof.
  unfold checkOwnedPath, mine. cbn zeta. destruct (known _).
  - rewrite sameUid_allow by done. done.
  - destruct (is_empty _) eqn:E; [apply is_empty_true in E; by rewrite E|].
    by destruct (pathOwned _ _).
Qed.

Lemma andThen_allow d k : andThen d k = Allow <-> d = Allow /\ k = Allow.
Proof. destruct d; cbn; intuition congruence. Qed.

End Authz.
