(* ===== verification/OMap.v ===== *)
(** * Containers: [std::map] and [std::sort] *)

From Stdlib Require Import Sorted.
From Stdlib Require Import Permutation Sorted.
From S2P Require Import Prelude.

(** ** Ordered maps: the [std::map] the registries are kept in

  A map is an association list in increasing key order, which is the order
  its iterator visits.  [to_gmap] is the abstract map it stands for. *)


(** The strict order of the keys. *)
Class KeyOrder (K : Type) := {
  klt : K -> K -> bool;
  klt_irrefl : forall k, klt k k = false;
  klt_trans : forall a b c, klt a b = true -> klt b c = true -> klt a c = true;
  klt_total : forall a b, klt a b = false -> klt b a = false -> a = b }.

#[global] Program Instance Z_KeyOrder : KeyOrder Z := { klt := Z.ltb }.
  Next Obligation. intros. apply Z.ltb_irrefl. Qed.
  Next Obligation. intros. lia. Qed.
  Next Obligation. intros. lia. Qed.

(** [std::string]'s [<]: lexicographic on unsigned bytes. *)
Fixpoint bytes_ltb (a b : bytes) : bool :=
  match a, b with
  | [], _ :: _ => true
  | _, [] => false
  | x :: a', y :: b' =>
    if code x <? code y then true
    else if code y <? code x then false else bytes_ltb a' b'
  end.

Lemma bytes_ltb_irrefl a : bytes_ltb a a = false.
Proof. induction a as [|x a IH]; cbn; [done|]. by rewrite Z.ltb_irrefl. Qed.

Lemma bytes_ltb_trans a b c : bytes_ltb a b = true -> bytes_ltb b c = true -> bytes_ltb a c = true.
Proof.
  revert b c. induction a as [|x a IH]; intros [|y b] [|z c]; cbn; try done.
  destruct (Z.ltb_spec (code x) (code y)), (Z.ltb_spec (code y) (code z)),
  (Z.ltb_spec (code x) (code z)), (Z.ltb_spec (code y) (code x)),
  (Z.ltb_spec (code z) (code y)), (Z.ltb_spec (code z) (code x)); try done; try lia; eauto.
Qed.

Lemma bytes_ltb_total a b : bytes_ltb a b = false -> bytes_ltb b a = false -> a = b.
Proof.
  revert b. induction a as [|x a IH]; intros [|y b]; cbn; try done.
  destruct (Z.ltb_spec (code x) (code y)), (Z.ltb_spec (code y) (code x)); try done; try lia.
  intros H1 H2. f_equal; [apply code_inj; lia|eauto].
Qed.

#[global] Instance bytes_KeyOrder : KeyOrder bytes :=
  {| klt := bytes_ltb; klt_irrefl := bytes_ltb_irrefl; klt_trans := bytes_ltb_trans;
   klt_total := bytes_ltb_total |}.

Lemma strongly_sorted_app_In {A} (l1 l2 : list A) (R : A -> A -> Prop) a b :
  StronglySorted R (l1 ++ l2) -> In a l1 -> In b l2 -> R a b.
Proof.
  induction l1 as [|x l1 IH]; cbn; [done|]. inversion 1 as [|? ? Hs Hf]; subst.
  intros [<-|Ha] Hb; [|auto]. rewrite Forall_forall in Hf. apply Hf.
  apply list_elem_of_In, in_app_iff. tauto.
Qed.

Module OMap.
Section omap.
Context {K V : Type} `{KeyOrder K, EqDecision K, Countable K}.
Implicit Type m : list (K * V).

(** [m.find(k)] *)
Fixpoint find (k : K) m : option V :=
  match m with
  | [] => None
  | (k', v) :: t => if decide (k = k') then Some v else find k t
  end.

(** [m.count(k)] *)
Definition count (k : K) m : bool := match find k m with Some _ => true | None => false end.

(** [m[k] = v] *)
Fixpoint insert (k : K) (v : V) m : list (K * V) :=
  match m with
  | [] => [(k, v)]
  | (k', v') :: t =>
      if klt k k' then (k, v) :: m
      else if decide (k = k') then (k, v) :: t
      else (k', v') :: insert k v t
  end.

(** [m.erase(k)] *)
Definition erase (k : K) m : list (K * V) := List.filter (fun kv => negb (bool_decide (fst kv = k))) m.

(** Keys strictly increasing. *)
Definition wf m : Prop := StronglySorted (fun a b => klt (fst a) (fst b) = true) m.

Lemma wf_nil : wf [].
Proof. constructor. Qed.

Lemma wf_cons k v m : wf ((k, v) :: m) <-> wf m /\ Forall (fun kv => klt k (fst kv) = true) m.
Proof. split; [by inversion 1|]. intros [? ?]. by constructor. Qed.

Lemma find_In m k v : wf m -> find k m = Some v <-> In (k, v) m.
Proof.
  induction m as [|[k' v'] m IH]; cbn; [split; [done|tauto]|].
  rewrite wf_cons. intros [Hwf Hlt]. destruct (decide (k = k')) as [->|Hne].
  - split; [intros [= ->]; by left|]. intros [[= ->]|Hin]; [done|].
    rewrite Forall_forall in Hlt. apply list_elem_of_In in Hin. specialize (Hlt _ Hin).
    cbn in Hlt. by rewrite klt_irrefl in Hlt.
  - rewrite IH by done. split; [tauto|]. intros [[= ? ?]|?]; congruence.
Qed.

Lemma find_insert k v k' m : wf m -> find k' (insert k v m) = if decide (k' = k) then Some v else find k' m.
Proof.
  induction m as [|[k0 v0] m IH]; cbn; [done|]. rewrite wf_cons. intros [Hwf Hlt].
  destruct (klt k k0) eqn:L; cbn; [done|]. destruct (decide (k = k0)) as [->|Hne]; cbn.
  - by destruct (decide (k' = k0)).
  - rewrite IH by done. destruct (decide (k' = k0)), (decide (k' = k)); congruence.
Qed.

Lemma In_insert k v m kv : In kv (insert k v m) -> kv = (k, v) \/ In kv m.
Proof.
  induction m as [|[k0 v0] m IH]; cbn; [intros [<-|[]]; tauto|].
  destruct (klt k k0); cbn; [intros [<-|?]; tauto|].
  destruct (decide (k = k0)); cbn; [intros [<-|?]; tauto|]. intros [<-|?]; [tauto|].
  destruct (IH); tauto.
Qed.

Lemma wf_insert k v m : wf m -> wf (insert k v m).
Proof.
  induction m as [|[k0 v0] m IH]; cbn; [intros _; by repeat constructor|].
  rewrite wf_cons. intros [Hwf Hlt]. destruct (klt k k0) eqn:L.
  - rewrite wf_cons. split; [by apply wf_cons|]. constructor; [done|].
    eapply Forall_impl; [exact Hlt|]. intros kv. by apply klt_trans.
  - destruct (decide (k = k0)) as [->|Hne]; [by apply wf_cons|].
    rewrite wf_cons. split; [auto|]. apply Forall_forall. intros kv Hin.
    apply list_elem_of_In, In_insert in Hin as [->|Hin].
    + cbn. destruct (klt k0 k) eqn:L'; [done|]. by destruct Hne; apply klt_total.
    + rewrite Forall_forall in Hlt. apply Hlt. by apply list_elem_of_In.
Qed.

Lemma wf_filter (f : K * V -> bool) m : wf m -> wf (List.filter f m).
Proof.
  induction m as [|[k0 v0] m IH]; cbn; [done|]. rewrite wf_cons. intros [Hwf Hlt].
  destruct (f (k0, v0)); [|auto]. rewrite wf_cons. split; [auto|].
  apply Forall_forall. intros kv Hin. apply list_elem_of_In, filter_In in Hin as [Hin _].
  rewrite Forall_forall in Hlt. apply Hlt. by apply list_elem_of_In.
Qed.

Lemma wf_erase k m : wf m -> wf (erase k m).
Proof. apply wf_filter. Qed.

Lemma find_erase k k' m : find k' (erase k m) = if decide (k' = k) then None else find k' m.
Proof.
  unfold erase. induction m as [|[k0 v0] m IH]; cbn; [by destruct (decide (k' = k))|].
  case_bool_decide as E; cbn; [subst k0|]; rewrite IH.
  - destruct (decide (k' = k)); done.
  - destruct (decide (k' = k0)) as [->|]; [|done]. by destruct (decide (k0 = k)).
Qed.

(** Appending at the end: inserting a key above all others. *)
Lemma insert_last k v m : Forall (fun kv => klt (fst kv) k = true) m -> insert k v m = m ++ [(k, v)].
Proof.
  induction m as [|[k0 v0] m IH]; cbn; [done|]. rewrite Forall_cons. cbn. intros [Hk Hm].
  destruct (klt k k0) eqn:L.
  { pose proof (klt_trans _ _ _ Hk L) as E. by rewrite klt_irrefl in E. }
  destruct (decide (k = k0)) as [->|]; [by rewrite klt_irrefl in Hk|]. by rewrite IH.
Qed.

Lemma find_None_last k m : Forall (fun kv => klt (fst kv) k = true) m -> find k m = None.
Proof.
  induction m as [|[k0 v0] m IH]; cbn; [done|]. rewrite Forall_cons. cbn. intros [Hk Hm].
  destruct (decide (k = k0)) as [->|]; [by rewrite klt_irrefl in Hk|]. auto.
Qed.

(** ** Refinement: an ordered map implements a finite map *)

Definition to_gmap m : gmap K V := list_to_map m.

Lemma to_gmap_lookup m k : to_gmap m !! k = find k m.
Proof.
  unfold to_gmap. induction m as [|[k0 v0] m IH]; cbn; [apply lookup_empty|].
  rewrite lookup_insert. rewrite IH. destruct (decide (k0 = k)), (decide (k = k0)); congruence.
Qed.

Lemma to_gmap_insert k v m : wf m -> to_gmap (insert k v m) = <[k := v]> (to_gmap m).
Proof.
  intros Hwf. apply map_eq. intros k'. rewrite lookup_insert, !to_gmap_lookup, find_insert by done.
  destruct (decide (k' = k)), (decide (k = k')); congruence.
Qed.

Lemma to_gmap_erase k m : to_gmap (erase k m) = delete k (to_gmap m).
Proof.
  apply map_eq. intros k'. rewrite lookup_delete, !to_gmap_lookup, find_erase.
  destruct (decide (k' = k)), (decide (k = k')); congruence.
Qed.
End omap.
End OMap.

#[export] Hint Resolve OMap.wf_nil OMap.wf_insert OMap.wf_erase OMap.wf_filter : crate.

(** ** [std::sort] as an interface

    The standard promises a permutation in which no element comes after one
    it is less than, for a strict weak order; ties may come in any order.  The
    components that sort are proved against this promise.  [insertion] is one
    implementation, so the promise can be kept. *)


(** A strict weak order. *)
Record StrictWeak {A} (lt : A -> A -> bool) : Prop := {
  sw_asym : forall a b, lt a b = true -> lt b a = false;
  sw_negtrans : forall a b c, lt a b = false -> lt b c = false -> lt a c = false }.

Class StdSort := {
  std_sort : forall {A : Type}, (A -> A -> bool) -> list A -> list A;
  std_sort_perm : forall {A} (lt : A -> A -> bool) l, Permutation (std_sort lt l) l;
  std_sort_sorted : forall {A} (lt : A -> A -> bool) l,
    StrictWeak lt -> StronglySorted (fun a b => lt b a = false) (std_sort lt l) }.

(** ** Insertion sort *)

Module Insertion.
Section insertion.
Context {A : Type} (lt : A -> A -> bool).

Fixpoint insert (x : A) (l : list A) : list A :=
  match l with
  | [] => [x]
  | y :: t => if lt y x then y :: insert x t else x :: l
  end.

Definition sort (l : list A) : list A := fold_right insert [] l.

Lemma insert_perm x l : Permutation (insert x l) (x :: l).
Proof.
  induction l as [|y l IH]; cbn; [done|]. destruct (lt y x); [|done].
  etransitivity; [by apply perm_skip|]. apply perm_swap.
Qed.

Lemma sort_perm l : Permutation (sort l) l.
Proof. induction l as [|x l IH]; [done|]. cbn. by rewrite insert_perm, IH. Qed.

Lemma insert_sorted x l :
  StrictWeak lt -> StronglySorted (fun a b => lt b a = false) l ->
  StronglySorted (fun a b => lt b a = false) (insert x l).
Proof.
  intros Hw. induction 1 as [|y l Hl IH Hy]; cbn; [repeat constructor|]. destruct (lt y x) eqn:E.
  - constructor; [done|]. rewrite Forall_forall. intros z Hz.
    apply list_elem_of_In, (Permutation_in _ (insert_perm x l)) in Hz as [<-|Hz].
    + by apply (sw_asym _ Hw).
    + rewrite Forall_forall in Hy. apply Hy. by apply list_elem_of_In.
  - constructor; [by constructor|]. constructor; [done|]. eapply Forall_impl; [done|].
    intros z Hz. by apply (sw_negtrans _ Hw z y x).
Qed.

Lemma sort_sorted l : StrictWeak lt -> StronglySorted (fun a b => lt b a = false) (sort l).
Proof. intros Hw. induction l as [|x l IH]; cbn; [constructor|]. by apply insert_sorted. Qed.

End insertion.
End Insertion.

(** The witness that the interface can be implemented. *)
Definition insertionSort : StdSort :=
  {| std_sort := @Insertion.sort; std_sort_perm := @Insertion.sort_perm;
     std_sort_sorted := fun A lt l Hw => Insertion.sort_sorted lt l Hw |}.

(** ** Orders the program sorts by *)

Lemma by_key_desc {A} (f : A -> Z) : StrictWeak (fun a b => f b <? f a).
Proof. split; intros; lia. Qed.

Lemma by_key_asc {A} (f : A -> Z) : StrictWeak (fun a b => f a <? f b).
Proof. split; intros; lia. Qed.

Lemma bytes_ltb_weak : StrictWeak bytes_ltb.
Proof.
  split.
  - intros a b H. destruct (bytes_ltb b a) eqn:E; [|done].
    pose proof (bytes_ltb_trans _ _ _ H E) as Haa. by rewrite bytes_ltb_irrefl in Haa.
  - intros a b c Hab Hbc. destruct (bytes_ltb a c) eqn:E; [|done].
    destruct (bytes_ltb b a) eqn:Hba.
    + by rewrite (bytes_ltb_trans _ _ _ Hba E) in Hbc.
    + rewrite (bytes_ltb_total _ _ Hab Hba) in E. congruence.
Qed.

(** Lexicographic: a number, then a string. *)
Lemma by_key_then_bytes {A} (f : A -> Z) (g : A -> bytes) :
  StrictWeak (fun a b => if negb (f a =? f b) then f a <? f b else bytes_ltb (g a) (g b)).
Proof.
  split.
  - intros a b. destruct (Z.eqb_spec (f a) (f b)) as [E|]; destruct (Z.eqb_spec (f b) (f a)); cbn; try lia.
    apply (sw_asym _ bytes_ltb_weak).
  - intros a b c. destruct (Z.eqb_spec (f a) (f b)), (Z.eqb_spec (f b) (f c)), (Z.eqb_spec (f a) (f c)); cbn; try lia.
    apply (sw_negtrans _ bytes_ltb_weak).
Qed.
