(* ===== verification/JidOwner.v ===== *)
(** * The jail-ownership registry

    lib/jid_owner_registry_pure.cpp and lib/jid_owner_registry.cpp: which
    operator created which jail.  An ordered map in memory, mirrored into a
    text file after every change. *)

From S2P Require Import Prelude PerUser PrivOps Authz OMap.

Module JidOwner.

Record Entry := { e_uid : Z; e_name : bytes; e_path : bytes }.

(** [std::map<unsigned, Entry>] *)
Definition EntryMap : Type := list (Z * Entry).

(** [uint64_t] arithmetic; the only overflow test is [nv < v]. *)
Fixpoint parseDecimalLoop (v : Z) (s : bytes) : option Z :=
  match s with
  | [] => Some v
  | c :: t =>
      if negb (is_digit c) then None
      else
        let nv := u64 (v * 10 + digit_val c) in
        if nv <? v then None else parseDecimalLoop nv t
  end.

Definition parseDecimal (s : bytes) : option Z :=
  if is_empty s then None else parseDecimalLoop 0 s.

(** Four non-empty columns; a fifth one is refused. *)
Definition splitTabs4 (line : bytes) : option (bytes * bytes * bytes * bytes) :=
  match split_on tab line with
  | [a; b; c; d] =>
      if is_empty a || is_empty b || is_empty c || is_empty d then None else Some (a, b, c, d)
  | _ => None
  end.

Definition serializeEntry (kv : Z * Entry) : bytes :=
  dec (fst kv) ++ [tab] ++ dec (e_uid (snd kv)) ++ [tab] ++ e_name (snd kv) ++ [tab]
  ++ e_path (snd kv) ++ [newline].

Definition serialize (entries : EntryMap) : bytes := concat (map serializeEntry entries).

Definition lineErr (lineNo : Z) (msg : bytes) : bytes :=
  str "line " ++ dec lineNo ++ str ": " ++ msg.

Definition isComment (line : bytes) : bool := is_empty line || starts_with (str "#") line.

(** One line: the error, or the map with the line's entry added. *)
Definition parseLine (lineNo : Z) (line : bytes) (out : EntryMap) : bytes + EntryMap :=
  if isComment line then inr out
  else match splitTabs4 line with
  | None => inl (lineErr lineNo (str "expected exactly 4 tab-separated columns"))
  | Some (c0, c1, c2, c3) =>
      match parseDecimal c0 with
      | Some jidNum =>
          if (jidNum =? 0) || (65535 <? jidNum)
          then inl (lineErr lineNo (str "jid must be 1..65535"))
          else match parseDecimal c1 with
          | Some uidNum =>
              if 4294967295 <? uidNum then inl (lineErr lineNo (str "uid out of range"))
              else if OMap.count jidNum out
              then inl (lineErr lineNo (str "duplicate jid " ++ dec jidNum))
              else inr (OMap.insert jidNum {| e_uid := uidNum; e_name := c2; e_path := c3 |} out)
          | None => inl (lineErr lineNo (str "uid out of range"))
          end
      | None => inl (lineErr lineNo (str "jid must be 1..65535"))
      end
  end.

Fixpoint parseLines (lineNo : Z) (lines : list bytes) (out : EntryMap) : bytes + EntryMap :=
  match lines with
  | [] => inr out
  | l :: rest =>
      match parseLine lineNo l out with
      | inl e => inl e
      | inr out' => parseLines (lineNo + 1) rest out'
      end
  end.

Definition parse (text : bytes) : bytes + EntryMap := parseLines 1 (split_on newline text) [].

Definition lookupByName (entries : EntryMap) (name : bytes) : option (Z * Entry) :=
  List.find (fun kv => beq (e_name (snd kv)) name) entries.

(** [query] equals [p] or starts with [p/]. *)
Definition pathMatches (query p : bytes) : bool :=
  negb (is_empty p)
  && (beq query p
      || ((size_z p <? size_z query) && starts_with p query
          && starts_with (str "/") (drop (length p) query))).

(** The loop keeps the first entry of the greatest matching path length. *)
Definition betterMatch (query : bytes) (best : option (Z * Entry)) (kv : Z * Entry)
  : option (Z * Entry) :=
  if negb (pathMatches query (e_path (snd kv))) then best
  else match best with
       | None => Some kv
       | Some b =>
           if size_z (e_path (snd b)) <? size_z (e_path (snd kv)) then Some kv else best
       end.

Definition findOwnerByPath (entries : EntryMap) (query : bytes) : option (Z * Entry) :=
  fold_left (betterMatch query) entries None.

Definition LiveProbe : Type := Z -> Entry -> bool.

(** The surviving map and how many entries were dropped. *)
Definition reconcile (entries : EntryMap) (isLive : option LiveProbe) : EntryMap * Z :=
  match isLive with
  | None => (entries, 0)
  | Some live =>
      let kept := List.filter (fun kv => live (fst kv) (snd kv)) entries in
      (kept, size_z entries - size_z kept)
  end.

(** *** The mutable registry

    [disk] is the registry file ([None]: it does not exist).  [io] says whether
    the atomic tmpfile + rename of this call succeeds; when it fails the call
    throws after the in-memory map has changed. *)

Record State := { entries : EntryMap; disk : option bytes }.

(** The constructor: load the file if there is one. *)
Definition boot (d : option bytes) : bytes + State :=
  match d with
  | None => inr {| entries := []; disk := None |}
  | Some text =>
      match parse text with
      | inl e => inl e
      | inr m => inr {| entries := m; disk := Some text |}
      end
  end.

Definition persistLocked (io : bool) (m : EntryMap) (s : State) : State :=
  {| entries := m; disk := if io then Some (serialize m) else disk s |}.

Definition recordCreate (io : bool) (jid uid : Z) (name path : bytes) (s : State) : State :=
  persistLocked io
    (OMap.insert jid {| e_uid := uid; e_name := name; e_path := path |} (entries s)) s.

Definition forgetByJid (io : bool) (jid : Z) (s : State) : bool * State :=
  if OMap.count jid (entries s)
  then (true, persistLocked io (OMap.erase jid (entries s)) s)
  else (false, s).

Definition forgetByName (io : bool) (name : bytes) (s : State) : bool * State :=
  match lookupByName (entries s) name with
  | Some (jid, _) => (true, persistLocked io (OMap.erase jid (entries s)) s)
  | None => (false, s)
  end.

Definition reconcileState (io : bool) (probe : option LiveProbe) (s : State) : Z * State :=
  let '(m, dropped) := reconcile (entries s) probe in
  (dropped, if dropped =? 0 then s else persistLocked io m s).

(** [dropIfStaleLocked_]: true when the entry was dropped (the write is best
    effort, its exception swallowed). *)
Definition dropIfStale (io : bool) (probe : option LiveProbe) (jid : Z) (e : Entry) (s : State)
  : bool * State :=
  match probe with
  | None => (false, s)
  | Some live =>
      if live jid e then (false, s)
      else (true, persistLocked io (OMap.erase jid (entries s)) s)
  end.

Definition lookupJid (io : bool) (probe : option LiveProbe) (jid : Z) (s : State)
  : Authz.Owner * State :=
  match OMap.find jid (entries s) with
  | None => (Authz.noOwner, s)
  | Some e =>
      let '(stale, s') := dropIfStale io probe jid e s in
      (if stale then Authz.noOwner
       else {| Authz.known := true; Authz.o_uid := e_uid e |}, s')
  end.

Definition lookupName (io : bool) (probe : option LiveProbe) (name : bytes) (s : State)
  : Authz.Owner * State :=
  match lookupByName (entries s) name with
  | None => (Authz.noOwner, s)
  | Some (jid, e) =>
      let '(stale, s') := dropIfStale io probe jid e s in
      (if stale then Authz.noOwner
       else {| Authz.known := true; Authz.o_uid := e_uid e |}, s')
  end.

Definition lookupPath (path : bytes) (s : State) : Authz.Owner :=
  match findOwnerByPath (entries s) path with
  | None => Authz.noOwner
  | Some (_, e) => {| Authz.known := true; Authz.o_uid := e_uid e |}
  end.

(** ** Parsing and printing *)

(** What the text form can carry. *)
Definition columnOk (s : bytes) : Prop := s <> [] /\ ~ In tab s /\ ~ In newline s.

Definition entryOk (kv : Z * Entry) : Prop :=
  1 <= fst kv <= 65535 /\ 0 <= e_uid (snd kv) < 2 ^ 32
  /\ columnOk (e_name (snd kv)) /\ columnOk (e_path (snd kv)).

(** The map invariant. *)
Definition inv (m : EntryMap) : Prop := OMap.wf m /\ Forall entryOk m.

Lemma parseDecimalLoop_exact v s :
  forallb is_digit s = true -> 0 <= v -> dec_value_from v s < 2 ^ 64 ->
  parseDecimalLoop v s = Some (dec_value_from v s).
Proof.
  revert v. induction s as [|c s IH]; intros v Hd Hv Hb; [done|].
  cbn [forallb] in Hd. apply andb_prop in Hd as [Hc Hd].
  assert (E : dec_value_from v (c :: s) = dec_value_from (v * 10 + digit_val c) s) by done.
  rewrite E in Hb |- *. cbn [parseDecimalLoop]. rewrite Hc. cbn [negb].
  apply is_digit_val in Hc.
  assert (v * 10 + digit_val c < 2 ^ 64).
  { rewrite dec_value_from_shift in Hb. pose proof (dec_value_bound s Hd).
    pose proof (Z.pow_pos_nonneg 10 (size_z s)). pose proof (size_z_nonneg s). nia. }
  unfold u64. rewrite Z.mod_small by lia. destruct (Z.ltb_spec (v * 10 + digit_val c) v); [lia|].
  apply IH; [done|lia|done].
Qed.

(** The weak overflow test suffices for every result the callers keep: the
    accumulator never decreases, so a small result was never wrapped. *)
Lemma parseDecimalLoop_small v s r :
  0 <= v -> parseDecimalLoop v s = Some r -> r < 2 ^ 32 ->
  forallb is_digit s = true /\ r = dec_value_from v s /\ v <= r.
Proof.
  revert v. induction s as [|c s IH]; intros v Hv; cbn [parseDecimalLoop forallb].
  - intros [= <-] _. unfold dec_value_from. cbn. lia.
  - destruct (is_digit c) eqn:D; [|done]. cbn [negb andb]. apply is_digit_val in D.
    destruct (Z.ltb_spec (u64 (v * 10 + digit_val c)) v) as [?|Hge]; [done|]. intros H Hr.
    assert (0 <= u64 (v * 10 + digit_val c)) by (apply Z.mod_pos_bound; done).
    apply IH in H as (Hd & Er & Hle); [|done|done].
    assert (Hs : u64 (v * 10 + digit_val c) = v * 10 + digit_val c).
    { unfold u64 in *. apply Z.mod_small. lia. }
    rewrite Hs in Er, Hle. split; [done|]. split; [done|lia].
Qed.

Lemma parseDecimal_small s r :
  parseDecimal s = Some r -> r < 2 ^ 32 ->
  s <> [] /\ forallb is_digit s = true /\ r = dec_value s /\ 0 <= r.
Proof.
  unfold parseDecimal. destruct s as [|c s]; [done|]. cbn [is_empty]. intros H Hr.
  by apply parseDecimalLoop_small in H as (? & ? & ?).
Qed.

Lemma parseDecimal_dec n : 0 <= n < 2 ^ 64 -> parseDecimal (dec n) = Some n.
Proof.
  intros Hn. unfold parseDecimal.
  destruct (is_empty (dec n)) eqn:E; [apply is_empty_true in E; by apply dec_nonempty in E|].
  assert (Ev : dec_value_from 0 (dec n) = n) by (apply dec_value_dec; lia).
  rewrite parseDecimalLoop_exact; [by rewrite Ev|apply dec_digits|lia|lia].
Qed.

Definition entryLine (kv : Z * Entry) : bytes :=
  dec (fst kv) ++ [tab] ++ dec (e_uid (snd kv)) ++ [tab] ++ e_name (snd kv) ++ [tab]
  ++ e_path (snd kv).

Lemma serializeEntry_line kv : serializeEntry kv = entryLine kv ++ [newline].
Proof. unfold serializeEntry, entryLine. by rewrite <- !app_assoc. Qed.

Lemma entryLine_no_newline kv : entryOk kv -> ~ In newline (entryLine kv).
Proof.
  intros (_ & _ & (_ & _ & Hn) & (_ & _ & Hp)). unfold entryLine. rewrite !in_app_iff.
  intros H. repeat destruct H as [H|H]; try done; try (by apply dec_not_In in H).
Qed.

Lemma splitTabs4_line kv :
  entryOk kv ->
  splitTabs4 (entryLine kv)
  = Some (dec (fst kv), dec (e_uid (snd kv)), e_name (snd kv), e_path (snd kv)).
Proof.
  intros (_ & _ & (Hn1 & Hn2 & _) & (Hp1 & Hp2 & _)). unfold splitTabs4, entryLine. cbn [app].
  rewrite !split_on_app, split_on_nosep by (done || by apply dec_not_In).
  rewrite <- is_empty_false in Hn1, Hp1. rewrite Hn1, Hp1.
  assert (Hd : forall n, is_empty (dec n) = false) by (intros; apply is_empty_false, dec_nonempty).
  by rewrite !Hd.
Qed.

Lemma entryLine_not_comment kv : entryOk kv -> isComment (entryLine kv) = false.
Proof.
  intros _. unfold isComment, entryLine.
  destruct (dec (fst kv)) as [|c s] eqn:E; [by apply dec_nonempty in E|].
  cbn [app is_empty orb]. apply not_true_iff_false. rewrite starts_with_spec. intros [t [= -> _]].
  pose proof (dec_not_In (fst kv) "#" eq_refl) as Hn. rewrite E in Hn. cbn in Hn. tauto.
Qed.

Lemma parseLine_entry n kv out :
  entryOk kv -> OMap.find (fst kv) out = None ->
  parseLine n (entryLine kv) out = inr (OMap.insert (fst kv) (snd kv) out).
Proof.
  intros Hok Hf. unfold parseLine. rewrite entryLine_not_comment, splitTabs4_line by done.
  destruct Hok as (Hj & Hu & _). rewrite !parseDecimal_dec by lia.
  destruct (Z.eqb_spec (fst kv) 0); [lia|]. destruct (Z.ltb_spec 65535 (fst kv)); [lia|].
  destruct (Z.ltb_spec 4294967295 (e_uid (snd kv))); [lia|]. cbn [orb].
  unfold OMap.count. rewrite Hf. by destruct (snd kv).
Qed.

Lemma parseLines_serialize n m out :
  Forall entryOk m -> OMap.wf (out ++ m) ->
  parseLines n (split_on newline (serialize m)) out = inr (out ++ m).
Proof.
  revert n out. induction m as [|kv m IH]; intros n out Hok Hwf.
  { cbn. by rewrite app_nil_r. }
  apply Forall_cons in Hok as [Hkv Hok]. unfold serialize. cbn [map concat].
  rewrite serializeEntry_line, <- app_assoc. cbn [app].
  rewrite split_on_app by (by apply entryLine_no_newline). cbn [parseLines].
  assert (Hlast : Forall (fun p => klt (fst p) (fst kv) = true) out).
  { apply Forall_forall. intros p Hp. apply list_elem_of_In in Hp.
    apply (strongly_sorted_app_In out (kv :: m) (fun a b => klt (fst a) (fst b) = true));
      [done|done|by left]. }
  rewrite parseLine_entry by (done || by apply OMap.find_None_last).
  rewrite OMap.insert_last by done. rewrite <- (surjective_pairing kv).
  change (concat (map serializeEntry m)) with (serialize m).
  rewrite IH; [by rewrite <- app_assoc|done|by rewrite <- app_assoc].
Qed.

Lemma parse_serialize m : inv m -> parse (serialize m) = inr m.
Proof. intros [Hwf Hok]. unfold parse. by apply (parseLines_serialize 1 m []). Qed.

(** Whatever the file holds, a map that loads satisfies the invariant. *)
Lemma parseLine_inv n line out m :
  ~ In newline line -> inv out -> parseLine n line out = inr m -> inv m.
Proof.
  intros Hnl [Hwf Hok]. unfold parseLine. destruct (isComment line); [by intros [= <-]|].
  destruct (splitTabs4 line) as [[[[c0 c1] c2] c3]|] eqn:S; [|done].
  destruct (parseDecimal c0) as [j|] eqn:J; [|done].
  destruct ((j =? 0) || (65535 <? j)) eqn:Rj; [done|]. apply orb_false_iff in Rj as [? ?].
  destruct (parseDecimal c1) as [u|] eqn:U; [|done].
  destruct (Z.ltb_spec 4294967295 u); [done|]. destruct (OMap.count j out); [done|].
  intros [= <-]. split; [by apply OMap.wf_insert|].
  apply parseDecimal_small in J as (_ & _ & _ & ?); [|lia].
  apply parseDecimal_small in U as (_ & _ & _ & ?); [|lia].
  apply Forall_forall. intros kv Hin. apply list_elem_of_In, OMap.In_insert in Hin as [->|Hin].
  2:{ rewrite Forall_forall in Hok. by apply Hok, list_elem_of_In. }
  unfold entryOk. cbn. split; [lia|]. split; [lia|].
  unfold splitTabs4 in S. pose proof (split_on_pieces tab line) as Hp.
  pose proof (split_on_join tab line) as Hj.
  destruct (split_on tab line) as [|a [|b [|c [|d [|]]]]]; try done.
  destruct (is_empty a || is_empty b || is_empty c || is_empty d) eqn:Em; [done|].
  injection S as -> -> -> ->. rewrite !orb_false_iff, !is_empty_false in Em.
  assert (Hsub : forall x, In x c2 \/ In x c3 -> In x line).
  { intros x Hx. rewrite Hj. cbn [concat intersperse_head map].
    repeat (rewrite in_app_iff; cbn [In]). tauto. }
  unfold columnOk. split; (split; [tauto|]); (split; [apply Hp; cbn; tauto|]);
    intros Hx; apply Hnl, Hsub; tauto.
Qed.

Lemma parseLines_inv n lines out m :
  (forall l, In l lines -> ~ In newline l) -> inv out -> parseLines n lines out = inr m -> inv m.
Proof.
  revert n out. induction lines as [|l lines IH]; intros n out Hl Hi; cbn; [by intros [= <-]|].
  destruct (parseLine n l out) as [|out'] eqn:E; [done|]. intros H.
  eapply IH; [..|exact H]; [intros; apply Hl; by right|].
  eapply parseLine_inv; [|exact Hi|exact E]. apply Hl. by left.
Qed.

Lemma parse_inv text m : parse text = inr m -> inv m.
Proof.
  apply parseLines_inv; [intros l; apply split_on_pieces|]. split; [apply OMap.wf_nil|constructor].
Qed.

(** *** Durability: restarting the daemon recovers the map *)

Definition durable (s : State) : Prop :=
  inv (entries s) /\ exists s', boot (disk s) = inr s' /\ entries s' = entries s.

Lemma boot_durable d s : boot d = inr s -> durable s.
Proof.
  destruct d as [text|]; cbn.
  - destruct (parse text) as [|m] eqn:P; [done|]. intros [= <-]. split; [by eapply parse_inv|].
    exists {| entries := m; disk := Some text |}. cbn. by rewrite P.
  - intros [= <-]. split; [split; [apply OMap.wf_nil|constructor]|].
    by exists {| entries := []; disk := None |}.
Qed.

Lemma persist_durable m s : inv m -> durable (persistLocked true m s).
Proof.
  intros Hm. split; [done|]. cbn. rewrite parse_serialize by done. eexists. done.
Qed.

Lemma inv_insert j e m : entryOk (j, e) -> inv m -> inv (OMap.insert j e m).
Proof.
  intros He [Hwf Hok]. split; [by apply OMap.wf_insert|]. apply Forall_forall. intros kv Hin.
  apply list_elem_of_In, OMap.In_insert in Hin as [->|Hin]; [done|].
  rewrite Forall_forall in Hok. by apply Hok, list_elem_of_In.
Qed.

Lemma inv_filter f m : inv m -> inv (List.filter f m).
Proof.
  intros [Hwf Hok]. split; [by apply OMap.wf_filter|]. apply Forall_forall. intros kv Hin.
  apply list_elem_of_In, filter_In in Hin as [Hin _].
  rewrite Forall_forall in Hok. by apply Hok, list_elem_of_In.
Qed.

(** The mutators of the registry, as one operation type. *)
Inductive Op :=
| OpRecord (jid uid : Z) (name path : bytes)
| OpForgetJid (jid : Z)
| OpForgetName (name : bytes)
| OpReconcile (probe : option LiveProbe)
| OpLookupJid (probe : option LiveProbe) (jid : Z)
| OpLookupName (probe : option LiveProbe) (name : bytes).

Definition step (io : bool) (op : Op) (s : State) : State :=
  match op with
  | OpRecord j u n p => recordCreate io j u n p s
  | OpForgetJid j => snd (forgetByJid io j s)
  | OpForgetName n => snd (forgetByName io n s)
  | OpReconcile probe => snd (reconcileState io probe s)
  | OpLookupJid probe j => snd (lookupJid io probe j s)
  | OpLookupName probe n => snd (lookupName io probe n s)
  end.

(** The arguments a recording call carries. *)
Definition opOk (op : Op) : Prop :=
  match op with
  | OpRecord j u n p => entryOk (j, {| e_uid := u; e_name := n; e_path := p |})
  | _ => True
  end.

Lemma dropIfStale_durable probe j e s : durable s -> durable (snd (dropIfStale true probe j e s)).
Proof.
  intros Hd. unfold dropIfStale. destruct probe as [live|]; [|done].
  destruct (live j e); [done|]. apply persist_durable, inv_filter, Hd.
Qed.

Lemma step_durable op s : opOk op -> durable s -> durable (step true op s).
Proof.
  intros Hop Hd. destruct op as [j u n p|j|n|probe|probe j|probe n]; cbn [step].
  - apply persist_durable, inv_insert; [exact Hop|apply Hd].
  - unfold forgetByJid. destruct (OMap.count j (entries s)); [|done].
    apply persist_durable, inv_filter, Hd.
  - unfold forgetByName. destruct (lookupByName (entries s) n) as [[j e]|]; [|done].
    apply persist_durable, inv_filter, Hd.
  - unfold reconcileState, reconcile. destruct probe as [live|]; [|done]. cbn [snd].
    destruct (_ =? 0); [done|]. apply persist_durable, inv_filter, Hd.
  - unfold lookupJid. destruct (OMap.find j (entries s)) as [e|]; [|done].
    pose proof (dropIfStale_durable probe j e s Hd). by destruct (dropIfStale true probe j e s).
  - unfold lookupName. destruct (lookupByName (entries s) n) as [[j e]|]; [|done].
    pose proof (dropIfStale_durable probe j e s Hd). by destruct (dropIfStale true probe j e s).
Qed.

(** *** Path lookup *)

Lemma pathMatches_spec query p :
  pathMatches query p = true <->
  p <> [] /\ (query = p \/ exists rest, query = p ++ str "/" ++ rest).
Proof.
  unfold pathMatches. rewrite andb_true_iff, negb_true_iff, is_empty_false, orb_true_iff, beq_eq,
    !andb_true_iff, Z.ltb_lt, !starts_with_spec.
  split; intros [Hp H]; (split; [done|]).
  - destruct H as [->|[[_ [t ->]] [u Hu]]]; [by left|right].
    rewrite drop_app_length in Hu. subst t. eauto.
  - destruct H as [->|[r ->]]; [by left|right].
    rewrite drop_app_length, !size_z_app. change (size_z (str "/")) with 1.
    pose proof (size_z_nonneg r). split; [split; [lia|eauto]|eauto].
Qed.

(** [root] is [query] or a directory above it. *)
Definition covers (root query : bytes) : Prop :=
  root <> [] /\ (query = root \/ exists rest, query = root ++ str "/" ++ rest).

(** [b] is a longest match of [query] in [m]. *)
Definition longest (query : bytes) (m : EntryMap) (b : Z * Entry) : Prop :=
  In b m /\ pathMatches query (e_path (snd b)) = true /\
  forall kv, In kv m -> pathMatches query (e_path (snd kv)) = true ->
    size_z (e_path (snd kv)) <= size_z (e_path (snd b)).

Lemma findOwnerByPath_spec m query :
  match findOwnerByPath m query with
  | Some b => longest query m b
  | None => forall kv, In kv m -> pathMatches query (e_path (snd kv)) = false
  end.
Proof.
  unfold findOwnerByPath. induction m as [|kv m IH] using rev_ind; [by intros kv []|].
  rewrite fold_left_app. cbn [fold_left]. unfold betterMatch at 1.
  destruct (pathMatches query (e_path (snd kv))) eqn:M; cbn [negb].
  - destruct (fold_left _ m None) as [b|].
    + destruct IH as (Hin & Hm & Hl). destruct (Z.ltb_spec (size_z (e_path (snd b))) (size_z (e_path (snd kv)))).
      * split; [apply in_app_iff; cbn; tauto|]. split; [done|].
        intros kv' [Hin'|[<-|[]]]%in_app_iff Hm'; [|lia]. specialize (Hl _ Hin' Hm'). lia.
      * split; [apply in_app_iff; tauto|]. split; [done|].
        intros kv' [Hin'|[<-|[]]]%in_app_iff Hm'; [auto|lia].
    + split; [apply in_app_iff; cbn; tauto|]. split; [done|].
      intros kv' [Hin'|[<-|[]]]%in_app_iff Hm'; [|lia]. rewrite (IH _ Hin') in Hm'. done.
  - destruct (fold_left _ m None) as [b|].
    + destruct IH as (Hin & Hm & Hl). split; [apply in_app_iff; tauto|]. split; [done|].
      intros kv' [Hin'|[<-|[]]]%in_app_iff Hm'; [auto|congruence].
    + intros kv' [Hin'|[<-|[]]]%in_app_iff; auto.
Qed.

(** ** Theorems *)

(** C32: the jid registry survives a daemon restart: whatever sequence of
    records, forgets, lookups and reconciliations ran since it was loaded, the
    file on disk loads back to exactly the entries in memory, provided that every
    write of the file succeeds and that every recorded jail has a jid in 1..65535, a 32-bit uid and a
    name and a path that are not empty and have no tab or line break. *)
Theorem registry_survives_restart (d : option bytes) (s0 : State) (ops : list Op)
  (s := fold_left (fun s op => step true op s) ops s0) :
  boot d = inr s0 -> Forall opOk ops ->
  exists s', boot (disk s) = inr s' /\ entries s' = entries s.
Proof.
  intros Hb Hops. enough (durable s) as [_ H] by exact H. unfold s. apply boot_durable in Hb.
  revert s0 s Hb. induction Hops as [|op ops Hop _ IH]; intros s0 _ Hd; [done|].
  apply IH. by apply step_durable.
Qed.

Lemma columnOk_test s :
  negb (is_empty s) && forallb (fun c => negb (Ascii.eqb c tab || Ascii.eqb c newline)) s = true -> columnOk s.
Proof.
  rewrite andb_true_iff, negb_true_iff, is_empty_false, forallb_forall. intros [H1 H2].
  split; [done|]. split; intros H; by specialize (H2 _ H).
Qed.

Definition demoOps : list Op :=
  [OpRecord 5 1001 (str "web") (str "/jails/1001/web"); OpRecord 6 1002 (str "db") (str "/jails/1002/db");
   OpForgetName (str "web")].

Lemma registry_survives_restart_witness :
  exists s', boot (disk (fold_left (fun s op => step true op s) demoOps {| entries := []; disk := None |})) = inr s'
    /\ entries s' = [(6, {| e_uid := 1002; e_name := str "db"; e_path := str "/jails/1002/db" |})].
Proof.
  refine (registry_survives_restart None {| entries := []; disk := None |} demoOps eq_refl _).
  repeat (apply Forall_cons; split); try exact I; [..|apply Forall_nil; exact I];
    (split; [cbn; lia|split; [cbn; lia|split; apply columnOk_test; reflexivity]]).
Defined.

(** A path belongs to the registered jail with the longest root that is
    the path itself or a directory above it, on component boundaries; a path
    outside every registered jail has no owner. *)
Theorem path_lookup_longest_match (m : EntryMap) (query : bytes) :
  match findOwnerByPath m query with
  | Some b => In b m /\ covers (e_path (snd b)) query
      /\ forall kv, In kv m -> covers (e_path (snd kv)) query -> size_z (e_path (snd kv)) <= size_z (e_path (snd b))
  | None => forall kv, In kv m -> ~ covers (e_path (snd kv)) query
  end.
Proof.
  pose proof (findOwnerByPath_spec m query) as H. unfold covers. destruct (findOwnerByPath m query) as [b|].
  - destruct H as (Hin & Hm & Hl). split; [done|]. split; [by apply pathMatches_spec|].
    intros kv Hkv Hc. apply Hl; [done|]. by apply pathMatches_spec.
  - intros kv Hin Hc. apply pathMatches_spec in Hc. by rewrite (H _ Hin) in Hc.
Qed.

End JidOwner.
