(* ===== verification/IfaceOwner.v ===== *)
(** * The interface-ownership registry

    lib/iface_owner_registry_pure.cpp and lib/iface_owner_registry.cpp: which
    operator created which epair half.  An ordered map in memory, mirrored
    into a text file after every change. *)

From S2P Require Import Prelude PerUser PrivOps Authz OMap JidOwner.

Module IfaceOwner.
Import Authz.

(** [std::map<std::string, uint32_t>] *)
Definition EntryMap : Type := list (bytes * Z).

Definition isEpairName (name : bytes) : bool := isEpairIfaceName name.

Definition parseDecimal (s : bytes) : option Z :=
  if is_empty s || (10 <? size_z s) then None
  else if forallb is_digit s then Some (dec_value s) else None.

Definition serializeEntry (kv : bytes * Z) : bytes := fst kv ++ [tab] ++ dec (snd kv) ++ [newline].
Definition serialize (entries : EntryMap) : bytes := concat (map serializeEntry entries).

Definition parseLine (lineNo : Z) (line : bytes) (out : EntryMap) : bytes + EntryMap :=
  if JidOwner.isComment line then inr out
  else match split_on tab line with
  | [name; col] =>
      if is_empty name
      then inl (JidOwner.lineErr lineNo (str "expected exactly 2 tab-separated columns"))
      else if negb (isEpairName name)
      then inl (JidOwner.lineErr lineNo (str "'" ++ name ++ str "' is not an epair half"))
      else match parseDecimal col with
      | Some uid =>
          if 4294967295 <? uid then inl (JidOwner.lineErr lineNo (str "uid out of range"))
          else if OMap.count name out
          then inl (JidOwner.lineErr lineNo (str "duplicate interface " ++ name))
          else inr (OMap.insert name uid out)
      | None => inl (JidOwner.lineErr lineNo (str "uid out of range"))
      end
  | _ => inl (JidOwner.lineErr lineNo (str "expected exactly 2 tab-separated columns"))
  end.

Fixpoint parseLines (lineNo : Z) (lines : list bytes) (out : EntryMap) : bytes + EntryMap :=
  match lines with
  | [] => inr out
  | l :: rest =>
      match parseLine lineNo l out with
      | inl e => inl e
      | inr out' => parseLines (lineNo + 1) rest out'
      end
  end.

Definition parse (text : bytes) : bytes + EntryMap := parseLines 1 (split_on newline text) [].

(** [name] with its last byte replaced. *)
Definition withBack (c : ascii) (name : bytes) : bytes := removelast name ++ [c].

Definition peerHalf (name : bytes) : bytes :=
  if negb (isEpairName name) then []
  else withBack (if backIs "a" name then "b" else "a")%char name.

Definition hostHalf (name : bytes) : bytes :=
  if negb (isEpairName name) then [] else withBack "a" name.

Definition LiveProbe : Type := bytes -> bool.

Definition stillLive (live : LiveProbe) (name : bytes) : bool :=
  let probe := hostHalf name in negb (is_empty probe) && live probe.

Definition reconcile (entries : EntryMap) (isLive : option LiveProbe) : EntryMap * Z :=
  match isLive with
  | None => (entries, 0)
  | Some live =>
      let kept := List.filter (fun kv => stillLive live (fst kv)) entries in
      (kept, size_z entries - size_z kept)
  end.

(** *** The mutable registry *)

Record State := { entries : EntryMap; disk : option bytes }.

Definition boot (d : option bytes) : bytes + State :=
  match d with
  | None => inr {| entries := []; disk := None |}
  | Some text =>
      match parse text with
      | inl e => inl e
      | inr m => inr {| entries := m; disk := Some text |}
      end
  end.

Definition persistLocked (io : bool) (m : EntryMap) (s : State) : State :=
  {| entries := m; disk := if io then Some (serialize m) else disk s |}.

(** Only epair halves are recorded. *)
Definition putHalf (name : bytes) (uid : Z) (m : EntryMap) : EntryMap :=
  if isEpairName name then OMap.insert name uid m else m.

Definition recordEpair (io : bool) (a b : bytes) (uid : Z) (s : State) : State :=
  persistLocked io (putHalf b uid (putHalf a uid (entries s))) s.

(** Erases [ifname] and its peer; true when something was erased. *)
Definition erasePair (ifname : bytes) (m : EntryMap) : EntryMap :=
  let m1 := OMap.erase ifname m in
  let peer := peerHalf ifname in
  if is_empty peer then m1 else OMap.erase peer m1.

Definition forgetPair (io : bool) (ifname : bytes) (s : State) : bool * State :=
  let m := erasePair ifname (entries s) in
  if size_z m =? size_z (entries s) then (false, s) else (true, persistLocked io m s).

Definition reconcileState (io : bool) (probe : option LiveProbe) (s : State) : Z * State :=
  let '(m, dropped) := reconcile (entries s) probe in
  (dropped, if dropped =? 0 then s else persistLocked io m s).

Definition lookup (io : bool) (probe : option LiveProbe) (ifname : bytes) (s : State)
  : Owner * State :=
  match OMap.find ifname (entries s) with
  | None => (noOwner, s)
  | Some uid =>
      match probe with
      | None => ({| known := true; o_uid := uid |}, s)
      | Some live =>
          if stillLive live ifname then ({| known := true; o_uid := uid |}, s)
          else (noOwner, persistLocked io (erasePair ifname (entries s)) s)
      end
  end.

(** *** Epair names *)

(** ["epair<N>a"] or ["epair<N>b"] *)
Definition epairHalf (n : bytes) : Prop :=
  exists ds c, n = str "epair" ++ ds ++ [c] /\ ds <> [] /\ all_digits ds = true
    /\ (c = "a"%char \/ c = "b"%char).

Lemma skipDigits_app ds c t :
  all_digits ds = true -> is_digit c = false -> skipDigits (ds ++ c :: t) = c :: t.
Proof.
  unfold all_digits. induction ds as [|d ds IH]; cbn; [by intros _ ->|].
  rewrite andb_true_iff. intros [-> H] Hc. auto.
Qed.

Lemma skipDigits_spec s : exists ds, s = ds ++ skipDigits s /\ all_digits ds = true.
Proof.
  induction s as [|c s [ds [E H]]]; [by exists []|]. cbn. destruct (is_digit c) eqn:D.
  - exists (c :: ds). cbn. split; [by f_equal|]. unfold all_digits in *. cbn. by rewrite D.
  - by exists [].
Qed.

Lemma isEpairName_spec n : isEpairName n = true <-> epairHalf n.
Proof.
  unfold isEpairName, isEpairIfaceName, epairHalf. split.
  - destruct (_ <? _); [done|]. destruct (starts_with (str "epair") n) eqn:S; [|done].
    apply starts_with_spec in S as [t ->]. cbn [negb]. rewrite drop_app_length.
    destruct (skipDigits_spec t) as (ds & E & Hd). revert E. generalize (skipDigits t).
    intros r ->. destruct (_ || _) eqn:O; [done|]. apply orb_false_iff in O as [O1 O2].
    rewrite negb_false_iff, Z.eqb_eq in O2. destruct r as [|c [|c' r]]; try (unfold size_z in O2; cbn in O2; lia).
    cbn [head default]. intros Hc. apply one_of_In in Hc.
    exists ds, c. split; [done|]. split; [by intros ->|]. split; [done|].
    cbn in Hc. destruct Hc as [<-|[<-|[]]]; tauto.
  - intros (ds & c & -> & Hne & Hd & Hc). rewrite !size_z_app, drop_app_length, starts_with_app.
    assert (is_digit c = false) by (by destruct Hc as [->| ->]).
    rewrite skipDigits_app by done. rewrite <- size_z_nil in Hne.
    pose proof (size_z_nonneg ds). rewrite size_z_app. change (size_z [c]) with 1.
    destruct (Z.ltb_spec (size_z (str "epair") + (size_z ds + 1)) (size_z (str "epair") + 2)); [lia|].
    destruct (Z.eqb_spec 1 (size_z ds + 1)); [lia|]. cbn [negb orb Z.eqb].
    cbn [head default]. apply one_of_In. destruct Hc as [->| ->]; cbn; tauto.
Qed.

Lemma epairHalf_set ds c d :
  ds <> [] -> all_digits ds = true -> d = "a"%char \/ d = "b"%char ->
  epairHalf (withBack d (str "epair" ++ ds ++ [c])) /\
  withBack d (str "epair" ++ ds ++ [c]) = str "epair" ++ ds ++ [d].
Proof.
  intros Hne Hd Hc.
  assert (E : withBack d (str "epair" ++ ds ++ [c]) = str "epair" ++ ds ++ [d]).
  { unfold withBack. rewrite app_assoc, removelast_last. by rewrite <- app_assoc. }
  split; [|done]. rewrite E. exists ds, d. done.
Qed.

(** The two halves of a pair are each other's peer, and share the host half. *)
Lemma peerHalf_pair ds :
  ds <> [] -> all_digits ds = true ->
  let a := str "epair" ++ ds ++ ["a"%char] in
  let b := str "epair" ++ ds ++ ["b"%char] in
  peerHalf a = b /\ peerHalf b = a /\ hostHalf a = a /\ hostHalf b = a.
Proof.
  intros Hne Hd a b.
  assert (Ha : isEpairName a = true) by (apply isEpairName_spec; exists ds, "a"%char; tauto).
  assert (Hb : isEpairName b = true) by (apply isEpairName_spec; exists ds, "b"%char; tauto).
  unfold peerHalf, hostHalf, backIs. rewrite Ha, Hb. cbn [negb]. unfold a, b.
  rewrite !app_assoc, !back_app, <- !app_assoc. cbn [Ascii.eqb eqb].
  destruct (epairHalf_set ds "a" "b" Hne Hd ltac:(tauto)) as [_ E1].
  destruct (epairHalf_set ds "b" "a" Hne Hd ltac:(tauto)) as [_ E2].
  destruct (epairHalf_set ds "a" "a" Hne Hd ltac:(tauto)) as [_ E3].
  done.
Qed.

Lemma epairHalf_cases n :
  epairHalf n -> exists ds, ds <> [] /\ all_digits ds = true /\
    (n = str "epair" ++ ds ++ ["a"%char] \/ n = str "epair" ++ ds ++ ["b"%char]).
Proof. intros (ds & c & -> & ? & ? & [->| ->]); exists ds; tauto. Qed.

Lemma peerHalf_involutive n : isEpairName n = true -> peerHalf (peerHalf n) = n /\ isEpairName (peerHalf n) = true
  /\ peerHalf n <> n /\ hostHalf (peerHalf n) = hostHalf n.
Proof.
  intros Hn. apply isEpairName_spec, epairHalf_cases in Hn as (ds & Hne & Hd & H).
  destruct (peerHalf_pair ds Hne Hd) as (P1 & P2 & H1 & H2). cbn zeta in *.
  assert (Hneq : str "epair" ++ ds ++ ["a"%char] <> str "epair" ++ ds ++ ["b"%char]).
  { rewrite !app_assoc. intros E. apply app_inj_tail in E as [_ E]. done. }
  destruct H as [->| ->]; rewrite ?P1, ?P2, ?H1, ?H2; (split; [done|]).
  - split; [apply isEpairName_spec; exists ds, "b"%char; tauto|]. split; congruence.
  - split; [apply isEpairName_spec; exists ds, "a"%char; tauto|]. split; congruence.
Qed.

(** *** Invariants *)

Definition entryOk (kv : bytes * Z) : Prop := isEpairName (fst kv) = true /\ 0 <= snd kv < 2 ^ 32.

Definition inv (m : EntryMap) : Prop := OMap.wf m /\ Forall entryOk m.

(** Both halves of a pair belong to the same operator. *)
Definition paired (m : EntryMap) : Prop :=
  forall n u, OMap.find n m = Some u -> isEpairName n = true /\ OMap.find (peerHalf n) m = Some u.

Lemma paired_erase n m : paired m -> isEpairName n = true -> paired (erasePair n m).
Proof.
  intros Hp Hn x u. destruct (peerHalf_involutive n Hn) as (Hpp & Hpe & Hpn & _).
  unfold erasePair. destruct (is_empty (peerHalf n)) eqn:E.
  { apply is_empty_true in E. rewrite E in Hpe. done. }
  rewrite !OMap.find_erase. destruct (decide (x = peerHalf n)); [done|].
  destruct (decide (x = n)); [done|]. intros Hx. destruct (Hp _ _ Hx) as [Hxe Hxp].
  split; [done|]. destruct (peerHalf_involutive x Hxe) as (Hxx & _ & _ & _).
  destruct (decide (peerHalf x = peerHalf n)) as [E1|]; [rewrite <- Hxx, E1, Hpp in n1; done|].
  destruct (decide (peerHalf x = n)) as [E1|]; [by rewrite <- E1, Hxx in n0|]. done.
Qed.

Lemma paired_record a u m :
  isEpairName a = true -> OMap.wf m -> paired m -> paired (putHalf (peerHalf a) u (putHalf a u m)).
Proof.
  intros Ha Hwf Hp. destruct (peerHalf_involutive a Ha) as (Hpp & Hpe & Hpn & _).
  unfold putHalf. rewrite Ha, Hpe. intros x w.
  rewrite !OMap.find_insert by (auto using OMap.wf_insert).
  destruct (decide (x = peerHalf a)) as [->|Hx1].
  - intros [= <-]. split; [done|]. rewrite Hpp. rewrite decide_False by congruence.
    by rewrite decide_True.
  - destruct (decide (x = a)) as [->|Hx2].
    + intros [= <-]. split; [done|]. by rewrite decide_True.
    + intros Hx. destruct (Hp _ _ Hx) as [Hxe Hxp]. split; [done|].
      destruct (peerHalf_involutive x Hxe) as (Hxx & _ & _ & _).
      rewrite decide_False by congruence. rewrite decide_False; [done|].
      intros E. rewrite E in Hxx. congruence.
Qed.

Lemma find_filter_key (f : bytes -> bool) (m : EntryMap) n :
  OMap.find n (List.filter (fun kv => f (fst kv)) m) = if f n then OMap.find n m else None.
Proof.
  induction m as [|[k v] m IH]; cbn; [by destruct (f n)|].
  destruct (f k) eqn:F; cbn; rewrite IH; destruct (decide (n = k)) as [->|]; try done; by rewrite F.
Qed.

Lemma paired_reconcile live m : paired m -> paired (fst (reconcile m (Some live))).
Proof.
  intros Hp x u. cbn [reconcile fst]. rewrite !find_filter_key.
  destruct (stillLive live x) eqn:S; [|done]. intros Hx. destruct (Hp _ _ Hx) as [Hxe Hxp].
  split; [done|]. destruct (peerHalf_involutive x Hxe) as (_ & _ & _ & Hh).
  unfold stillLive in S |- *. rewrite Hh. cbn zeta in *. by rewrite S.
Qed.

(** *** Round trip *)

Lemma iface_parseDecimal_dec n : 0 <= n < 2 ^ 32 -> parseDecimal (dec n) = Some n.
Proof.
  intros Hn. unfold parseDecimal.
  assert (Hl : size_z (dec n) <= 10).
  { unfold size_z. enough (length (dec n) <= 10)%nat by lia. apply dec_len; [|lia].
    change (10 ^ Z.of_nat 10) with 10000000000. lia. }
  destruct (is_empty (dec n)) eqn:E; [apply is_empty_true in E; by apply dec_nonempty in E|].
  destruct (Z.ltb_spec 10 (size_z (dec n))); [lia|]. cbn [orb].
  pose proof (dec_digits n) as D. unfold all_digits in D. rewrite D.
  by rewrite dec_value_dec by lia.
Qed.

Lemma epairHalf_bytes n c : epairHalf n -> In c n -> is_alnum c = true.
Proof.
  intros (ds & d & -> & _ & Hd & Hc). rewrite !in_app_iff.
  unfold all_digits in Hd. rewrite forallb_forall in Hd. intros [H|[H|H]].
  - cbn in H. repeat destruct H as [<-|H]; try done.
  - specialize (Hd _ H). unfold is_alnum. by rewrite Hd, !orb_true_r.
  - destruct H as [<-|[]]. by destruct Hc as [->| ->].
Qed.

Lemma epairHalf_no n c : epairHalf n -> is_alnum c = false -> ~ In c n.
Proof. intros H Hc Hin. rewrite (epairHalf_bytes n c H Hin) in Hc. done. Qed.

Definition entryLine (kv : bytes * Z) : bytes := fst kv ++ [tab] ++ dec (snd kv).

Lemma iface_parseLine_entry n kv out :
  entryOk kv -> OMap.find (fst kv) out = None ->
  parseLine n (entryLine kv) out = inr (OMap.insert (fst kv) (snd kv) out).
Proof.
  intros [Hn Hu] Hf. pose proof Hn as Hh. apply isEpairName_spec in Hh. unfold parseLine, entryLine.
  destruct (JidOwner.isComment _) eqn:C.
  { exfalso. destruct Hh as (ds & c & E & _). rewrite E in C. done. }
  cbn [app]. rewrite split_on_app by (by apply epairHalf_no).
  rewrite split_on_nosep by (by apply dec_not_In).
  assert (is_empty (fst kv) = false) as -> by (apply is_empty_false; intros E; rewrite E in Hn; done).
  rewrite Hn, iface_parseDecimal_dec by done. cbn [negb].
  destruct (Z.ltb_spec 4294967295 (snd kv)); [lia|]. unfold OMap.count. by rewrite Hf.
Qed.

Lemma iface_parseLines_serialize n m out :
  Forall entryOk m -> OMap.wf (out ++ m) ->
  parseLines n (split_on newline (serialize m)) out = inr (out ++ m).
Proof.
  revert n out. induction m as [|kv m IH]; intros n out Hok Hwf; [cbn; by rewrite app_nil_r|].
  apply Forall_cons in Hok as [Hkv Hok]. unfold serialize. cbn [map concat].
  assert (E : serializeEntry kv = entryLine kv ++ [newline])
    by (unfold serializeEntry, entryLine; by rewrite <- !app_assoc).
  rewrite E, <- app_assoc. cbn [app]. rewrite split_on_app.
  2:{ destruct Hkv as [Hn _]. apply isEpairName_spec in Hn. unfold entryLine. rewrite !in_app_iff.
      intros [H|[H|H]]; [by apply (epairHalf_no _ newline) in H|by destruct H|by apply dec_not_In in H]. }
  cbn [parseLines].
  assert (Hlast : Forall (fun p => klt (fst p) (fst kv) = true) out).
  { apply Forall_forall. intros p Hp. apply list_elem_of_In in Hp.
    apply (strongly_sorted_app_In out (kv :: m) (fun a b => klt (fst a) (fst b) = true));
      [done|done|by left]. }
  rewrite iface_parseLine_entry by (done || by apply OMap.find_None_last).
  rewrite OMap.insert_last by done. rewrite <- (surjective_pairing kv).
  change (concat (map serializeEntry m)) with (serialize m).
  rewrite IH; [by rewrite <- app_assoc|done|by rewrite <- app_assoc].
Qed.

Lemma iface_parse_serialize m : inv m -> parse (serialize m) = inr m.
Proof. intros [Hwf Hok]. unfold parse. by apply (iface_parseLines_serialize 1 m []). Qed.


(** *** Histories of the registry *)

Definition good (m : EntryMap) : Prop := inv m /\ paired m.

(** What the file holds is a good map too, perhaps an older one. *)
Definition goodState (s : State) : Prop :=
  good (entries s) /\ forall t, disk s = Some t -> exists m, good m /\ t = serialize m.

(** One operation, or a restart; any write may fail. *)
Inductive ifstep : State -> State -> Prop :=
| StepRecord io a u s : isEpairName a = true -> 0 <= u < 2 ^ 32 -> ifstep s (recordEpair io a (peerHalf a) u s)
| StepForget io n s : ifstep s (snd (forgetPair io n s))
| StepReconcile io probe s : ifstep s (snd (reconcileState io probe s))
| StepLookup io probe n s : ifstep s (snd (lookup io probe n s))
| StepRestart s s' : boot (disk s) = inr s' -> ifstep s s'.

Lemma iface_inv_filter f m : inv m -> inv (List.filter f m).
Proof.
  intros [Hwf Hok]. split; [by apply OMap.wf_filter|]. apply Forall_forall. intros kv Hin.
  apply list_elem_of_In, filter_In in Hin as [Hin _]. rewrite Forall_forall in Hok. by apply Hok, list_elem_of_In.
Qed.

Lemma iface_inv_put n u m : 0 <= u < 2 ^ 32 -> inv m -> inv (putHalf n u m).
Proof.
  intros Hu [Hwf Hok]. unfold putHalf. destruct (isEpairName n) eqn:E; [|done].
  split; [by apply OMap.wf_insert|]. apply Forall_forall. intros kv Hin.
  apply list_elem_of_In, OMap.In_insert in Hin as [->|Hin]; [done|].
  rewrite Forall_forall in Hok. by apply Hok, list_elem_of_In.
Qed.

Lemma good_erase n m : good m -> good (erasePair n m).
Proof.
  intros [Hi Hp]. split.
  { unfold erasePair. destruct (is_empty _); repeat apply iface_inv_filter; done. }
  destruct (isEpairName n) eqn:E; [by apply paired_erase|].
  unfold erasePair, peerHalf. rewrite E. cbn [negb is_empty]. intros x u. rewrite !OMap.find_erase.
  destruct (decide (x = n)) as [->|]; [done|]. intros Hx. destruct (Hp _ _ Hx) as [Hxe Hxp]. split; [done|].
  destruct (decide (peerHalf x = n)) as [<-|]; [|done].
  destruct (peerHalf_involutive x Hxe) as (_ & Hpe & _). by rewrite Hpe in E.
Qed.

Lemma persist_good io m s : good m -> goodState s -> goodState (persistLocked io m s).
Proof. intros Hm [_ Hd]. split; [done|]. intros t. cbn. destruct io; [intros [= <-]; eauto|auto]. Qed.

Lemma ifstep_good s s' : ifstep s s' -> goodState s -> goodState s'.
Proof.
  intros Hstep Hs. pose proof Hs as [Hg Hd]. destruct Hstep as [io a u s Ha Hu|io n s|io probe s|io probe n s|s s' Hb].
  - apply persist_good; [|done]. split; [by repeat apply iface_inv_put; try apply Hg|].
    apply paired_record; [done|apply Hg|apply Hg].
  - unfold forgetPair. destruct (_ =? _); [done|]. by apply persist_good; [apply good_erase|].
  - unfold reconcileState. destruct probe as [live|]; [|done]. cbn [reconcile fst snd].
    destruct (_ =? 0); [done|]. apply persist_good; [|done].
    split; [apply iface_inv_filter, Hg|apply (paired_reconcile live), Hg].
  - unfold lookup. destruct (OMap.find n (entries s)); [|done]. destruct probe as [live|]; [|done].
    destruct (stillLive live n); [done|]. by apply persist_good; [apply good_erase|].
  - unfold boot in Hb. destruct (disk s) as [t|] eqn:E.
    + destruct (Hd t eq_refl) as (m & Hm & ->). rewrite iface_parse_serialize in Hb by apply Hm.
      injection Hb as <-. split; [done|]. intros t [= <-]. eauto.
    + injection Hb as <-. split; [|done]. split; [split; [apply OMap.wf_nil|constructor]|by intros n u].
Qed.

(** Whatever epairs are recorded, forgotten, looked up and reconciled, and
    however often the daemon restarts (with writes that may fail), only epair
    halves are registered and both halves of a pair have the same owner. *)
Theorem epair_halves_share_owner (s : State) (n : bytes) (u : Z) :
  rtc ifstep {| entries := []; disk := None |} s ->
  OMap.find n (entries s) = Some u ->
  isEpairName n = true /\ OMap.find (peerHalf n) (entries s) = Some u.
Proof.
  intros Hr. enough (goodState s) as [[_ Hp] _] by apply Hp.
  eapply (rtc_ind_r (fun s => goodState s)); [| |exact Hr].
  - split; [|done]. split; [split; [apply OMap.wf_nil|constructor]|by intros n' u'].
  - intros x y _ Hxy Hx. by eapply ifstep_good.
Qed.

Lemma epair_halves_share_owner_witness :
  OMap.find (str "epair3b") (entries (recordEpair true (str "epair3a") (str "epair3b") 1001
                                        {| entries := []; disk := None |})) = Some 1001.
Proof.
  refine (proj2 (epair_halves_share_owner _ (str "epair3a") 1001 _ _)).
  - eapply rtc_l; [|apply rtc_refl]. apply (StepRecord true (str "epair3a") 1001); [reflexivity|lia].
  - reflexivity.
Defined.

End IfaceOwner.
