(* ===== verification/FwLease.v ===== *)
(** * The firewall-lease registry

    lib/fw_lease_pure.cpp and lib/fw_lease_registry.cpp: one lease per jail,
    with the ipfw rule slot it holds and whether it needs IPv4 / IPv6
    forwarding; the first user of a forwarding sysctl switches it on and the
    last one restores the value found. *)

From S2P Require Import Prelude OMap.

Module FwLease.

Record Entry := { slot : Z; fwd4 : bool; fwd6 : bool }.
Definition noEntry : Entry := {| slot := -1; fwd4 := false; fwd6 := false |}.

Definition Leases : Type := list (Z * Entry).
Record State := { leases : Leases; orig4 : Z; orig6 : Z }.
Definition emptyState : State := {| leases := []; orig4 := -1; orig6 := -1 |}.

Record Counts := { c4 : Z; c6 : Z }.
Record Transition := { first4 : bool; last4 : bool; first6 : bool; last6 : bool }.

Definition kMaxSlots : Z := 1500.

Definition users (f : Entry -> bool) (m : Leases) : Z := size_z (List.filter (fun kv => f (snd kv)) m).

Definition counts (m : Leases) : Counts := {| c4 := users fwd4 m; c6 := users fwd6 m |}.

(** The slots in use, [std::set<int> used]. *)
Definition usedSlots (m : Leases) : list Z :=
  List.filter (fun n => 0 <=? n) (map (fun kv => slot (snd kv)) m).

(** [for (i = from; i < maxSlots; i++) if (!used.count(i)) return i; return -1],
    [left] iterations to go. *)
Fixpoint freeFrom (left : nat) (i : Z) (used : list Z) : Z :=
  match left with
  | O => -1
  | S k => if existsb (Z.eqb i) used then freeFrom k (i + 1) used else i
  end.

Definition lowestFreeSlot (m : Leases) (maxSlots : Z) : Z :=
  freeFrom (Z.to_nat maxSlots) 0 (usedSlots m).

Definition diff (before after : Counts) : Transition :=
  {| first4 := (c4 before =? 0) && (0 <? c4 after);
     last4 := (0 <? c4 before) && (c4 after =? 0);
     first6 := (c6 before =? 0) && (0 <? c6 after);
     last6 := (0 <? c6 before) && (c6 after =? 0) |}.

Definition parseInt (f : bytes) (lo hi : Z) : option Z :=
  if is_empty f || (12 <? size_z f) then None
  else
    let '(neg, digits) := match f with
                          | c :: t => if Ascii.eqb c "-" then (true, t) else (false, f)
                          | [] => (false, f)
                          end in
    if neg && is_empty digits then None
    else if negb (all_digits digits) then None
    else
      let v := if neg then - dec_value digits else dec_value digits in
      if (v <? lo) || (hi <? v) then None else Some v.

(** [acquire]: the lease after the call, the transition and the new leases, or
    the error (the state is then unchanged). *)
Definition slotsExhausted : bytes :=
  str "no free firewall slot (" ++ dec kMaxSlots ++ str " in use)".

Definition acquire (m : Leases) (jid : Z) (wantSlot want4 want6 : bool)
  : bytes + (Leases * Entry * Transition) :=
  let before := counts m in
  let e := default noEntry (OMap.find jid m) in
  let done (e : Entry) :=
    let e' := {| slot := slot e; fwd4 := fwd4 e || want4; fwd6 := fwd6 e || want6 |} in
    let m' := OMap.insert jid e' m in
    inr (m', e', diff before (counts m')) in
  if wantSlot && (slot e <? 0) then
    let n := lowestFreeSlot m kMaxSlots in
    if n <? 0 then inl slotsExhausted
    else done {| slot := n; fwd4 := fwd4 e; fwd6 := fwd6 e |}
  else done e.

Definition release (m : Leases) (jid : Z) : bool * Leases * Transition :=
  let before := counts m in
  let found := OMap.count jid m in
  let m' := if found then OMap.erase jid m else m in
  (found, m', diff before (counts m')).

Definition reconcile (m : Leases) (isLive : Z -> bool) : Z * Leases * Transition :=
  let before := counts m in
  let m' := List.filter (fun kv => isLive (fst kv)) m in
  (size_z m - size_z m', m', diff before (counts m')).

(** ** The state file *)

Definition bit (b : bool) : bytes := str (if b then "1" else "0").

Definition serializeEntry (kv : Z * Entry) : bytes :=
  dec (fst kv) ++ [tab] ++ dec_signed (slot (snd kv)) ++ [tab] ++ bit (fwd4 (snd kv)) ++ [tab]
  ++ bit (fwd6 (snd kv)) ++ [newline].

Definition serialize (s : State) : bytes :=
  str "# crate fw leases v1" ++ [newline]
  ++ str "orig4" ++ [tab] ++ dec_signed (orig4 s) ++ [tab] ++ str "orig6" ++ [tab]
  ++ dec_signed (orig6 s) ++ [newline]
  ++ concat (map serializeEntry (leases s)).

Definition lineErr (lineNo : Z) (msg : bytes) : bytes :=
  str "line " ++ dec lineNo ++ str ": " ++ msg.

Definition dropCr (line : bytes) : bytes := if backIs cr line then removelast line else line.

(** The fields of a lease line. *)
Definition parseFields (f : list bytes) : option (Z * Entry) :=
  match f with
  | [f0; f1; f2; f3] =>
      match parseInt f0 1 65535, parseInt f1 (-1) (kMaxSlots - 1), parseInt f2 0 1, parseInt f3 0 1 with
      | Some jid, Some n, Some a, Some b =>
          Some (jid, {| slot := n; fwd4 := a =? 1; fwd6 := b =? 1 |})
      | _, _, _, _ => None
      end
  | _ => None
  end.

Definition origLine (f : list bytes) : option (bytes * bytes) :=
  match f with
  | [f0; f1; f2; f3] => if beq f0 (str "orig4") && beq f2 (str "orig6") then Some (f1, f3) else None
  | _ => None
  end.

Definition parseLine (lineNo : Z) (raw : bytes) (st : State) : bytes + State :=
  let line := dropCr raw in
  if is_empty line || starts_with (str "#") line then inr st
  else
    let f := split_on tab line in
    match origLine f with
    | Some (a, b) =>
        match parseInt a (-1) 1, parseInt b (-1) 1 with
        | Some a', Some b' => inr {| leases := leases st; orig4 := a'; orig6 := b' |}
        | _, _ => inl (lineErr lineNo (str "bad orig values"))
        end
    | None =>
        if negb (size_z f =? 4)
        then inl (lineErr lineNo (str "expected 4 tab-separated fields"))
        else match parseFields f with
             | None => inl (lineErr lineNo (str "bad field value"))
             | Some (jid, e) =>
                 if OMap.count jid (leases st)
                 then inl (lineErr lineNo (str "duplicate jid " ++ default [] (head f)))
                 else inr {| leases := OMap.insert jid e (leases st);
                             orig4 := orig4 st; orig6 := orig6 st |}
             end
    end.

Fixpoint parseLines (lineNo : Z) (lines : list bytes) (st : State) : bytes + State :=
  match lines with
  | [] => inr st
  | l :: rest =>
      match parseLine lineNo l st with
      | inl e => inl e
      | inr st' => parseLines (lineNo + 1) rest st'
      end
  end.

(** The first slot seen twice, in key order. *)
Fixpoint slotTwice (seen : list Z) (m : Leases) : option Z :=
  match m with
  | [] => None
  | (_, e) :: t =>
      if slot e <? 0 then slotTwice seen t
      else if existsb (Z.eqb (slot e)) seen then Some (slot e)
      else slotTwice (slot e :: seen) t
  end.

Definition parse (text : bytes) : bytes + State :=
  match parseLines 1 (split_on newline text) emptyState with
  | inl e => inl e
  | inr st =>
      match slotTwice [] (leases st) with
      | Some n => inl (str "slot " ++ dec_signed n ++ str " held by two leases")
      | None => inr st
      end
  end.

(** ** The registry object

    [Host] is what the registry shares with the host: the two forwarding
    sysctls and the state file.  [Io] says which system calls of a call
    succeed: reading and writing each sysctl ([get], [set]) and the atomic
    tmpfile + rename. *)

Record Host := { sys4 : Z; sys6 : Z; file : option bytes }.
Record Io := { get4 : bool; set4 : bool; get6 : bool; set6 : bool; persist : bool }.
Definition allOk : Io := {| get4 := true; set4 := true; get6 := true; set6 := true; persist := true |}.

Record Registry := { st : State; host : Host }.

(** The [flip] lambda, on the remembered value and the sysctl. *)
Definition flip (getOk setOk first last : bool) (orig cur : Z) : Z * Z :=
  if first then
    if negb getOk then (orig, cur)
    else if cur =? 0 then (if setOk then (0, 1) else (orig, cur))
    else (-1, cur)
  else if last then
    if orig =? 0 then (if setOk then (-1, 0) else (orig, cur)) else (-1, cur)
  else (orig, cur).

Definition applyTransition (io : Io) (t : Transition) (m : Leases) (r : Registry) : Registry :=
  let '(o4, v4) := flip (get4 io) (set4 io) (first4 t) (last4 t) (orig4 (st r)) (sys4 (host r)) in
  let '(o6, v6) := flip (get6 io) (set6 io) (first6 t) (last6 t) (orig6 (st r)) (sys6 (host r)) in
  {| st := {| leases := m; orig4 := o4; orig6 := o6 |};
     host := {| sys4 := v4; sys6 := v6; file := file (host r) |} |}.

(** [false] when it throws. *)
Definition persistLocked (io : Io) (r : Registry) : bool * Registry :=
  (persist io,
   {| st := st r;
      host := {| sys4 := sys4 (host r); sys6 := sys6 (host r);
                 file := if persist io then Some (serialize (st r)) else file (host r) |} |}).

(** The constructor: [inl] is the exception on a malformed file. *)
Definition boot (path : bytes) (h : Host) : bytes + Registry :=
  match file h with
  | None => inr {| st := emptyState; host := h |}
  | Some text =>
      match parse text with
      | inl e => inl (str "fw_lease_registry: " ++ path ++ str ": " ++ e)
      | inr s => inr {| st := s; host := h |}
      end
  end.

Record Result := { r_slot : Z; r_fwd4Users : Z; r_fwd6Users : Z; r_released : bool }.

(** What a call returns: a value, an error string, or an exception. *)
Inductive Outcome (A : Type) := Returned (a : A) | Refused (e : bytes) | Thrown.
Arguments Returned {A}. Arguments Refused {A}. Arguments Thrown {A}.

Definition acquireReg (io : Io) (jid : Z) (wantSlot want4 want6 : bool) (r : Registry)
  : Outcome Result * Registry :=
  match acquire (leases (st r)) jid wantSlot want4 want6 with
  | inl e => (Refused e, r)
  | inr (m, e, t) =>
      let '(ok, r') := persistLocked io (applyTransition io t m r) in
      let c := counts m in
      (if ok then Returned {| r_slot := slot e; r_fwd4Users := c4 c; r_fwd6Users := c6 c;
                              r_released := false |}
       else Thrown, r')
  end.

Definition releaseReg (io : Io) (jid : Z) (r : Registry) : Outcome Result * Registry :=
  let '(found, m, t) := release (leases (st r)) jid in
  let '(ok, r') := if found then persistLocked io (applyTransition io t m r) else (true, r) in
  let c := counts m in
  (if ok then Returned {| r_slot := -1; r_fwd4Users := c4 c; r_fwd6Users := c6 c;
                          r_released := found |}
   else Thrown, r').

Definition reconcileReg (io : Io) (probe : option (Z -> bool)) (r : Registry)
  : Outcome Z * Registry :=
  match probe with
  | None => (Returned 0, r)
  | Some live =>
      let '(dropped, m, t) := reconcile (leases (st r)) live in
      let '(ok, r') := if dropped =? 0 then (true, r)
                       else persistLocked io (applyTransition io t m r) in
      (if ok then Returned dropped else Thrown, r')
  end.

(** ** Slots *)

(** A lease line the state file can carry. *)
Definition entryOk (kv : Z * Entry) : Prop :=
  1 <= fst kv <= 65535 /\ -1 <= slot (snd kv) < kMaxSlots.

(** The invariant of the leases: one per jid, and no slot held twice. *)
Definition inv (m : Leases) : Prop := OMap.wf m /\ Forall entryOk m /\ NoDup (usedSlots m).

Lemma existsb_eqb_In n l : existsb (Z.eqb n) l = true <-> In n l.
Proof.
  rewrite existsb_exists. split; [intros (x & Hx & ->%Z.eqb_eq); done|].
  intros H. exists n. split; [done|]. apply Z.eqb_refl.
Qed.

Lemma freeFrom_spec left i used (n := freeFrom left i used) : 0 <= i ->
  (n = -1 /\ forall k, i <= k < i + Z.of_nat left -> In k used)
  \/ (i <= n < i + Z.of_nat left /\ ~ In n used /\ forall k, i <= k < n -> In k used).
Proof.
  subst n. revert i. induction left as [|left IH]; intros i Hi; cbn [freeFrom].
  { left. split; [done|]. lia. }
  destruct (existsb (Z.eqb i) used) eqn:E.
  - apply existsb_eqb_In in E.
    destruct (IH (i + 1)) as [[-> H]|(Hn & Hni & H)]; [lia| |].
    + left. split; [done|]. intros k Hk. destruct (decide (k = i)) as [->|]; [done|]. apply H. lia.
    + right. split; [lia|]. split; [done|]. intros k Hk.
      destruct (decide (k = i)) as [->|]; [done|]. apply H. lia.
  - right. split; [lia|]. split; [|lia]. rewrite <- existsb_eqb_In. congruence.
Qed.

(** The slot handed out is the least free one; [-1] means all are taken. *)
Definition leastFree (m : Leases) (n : Z) : Prop :=
  0 <= n < kMaxSlots /\ ~ In n (usedSlots m) /\ forall k, 0 <= k < n -> In k (usedSlots m).

Definition exhausted (m : Leases) : Prop := forall k, 0 <= k < kMaxSlots -> In k (usedSlots m).

Lemma lowestFreeSlot_spec m :
  (lowestFreeSlot m kMaxSlots = -1 /\ exhausted m) \/ leastFree m (lowestFreeSlot m kMaxSlots).
Proof.
  unfold lowestFreeSlot, leastFree, exhausted.
  destruct (freeFrom_spec (Z.to_nat kMaxSlots) 0 (usedSlots m)) as [[-> H]|H]; [lia| |].
  - left. split; [done|]. intros k Hk. apply H. unfold kMaxSlots in *. lia.
  - destruct H as (Hn & Hni & H). right. split; [unfold kMaxSlots in *; lia|]. by split.
Qed.

Lemma usedSlots_In n m : In n (usedSlots m) <-> 0 <= n /\ exists jid e, In (jid, e) m /\ slot e = n.
Proof.
  unfold usedSlots. rewrite filter_In, in_map_iff, Z.leb_le. split.
  - intros [([j e] & <- & Hin) Hn]. eauto.
  - intros [Hn (j & e & Hin & <-)]. split; [|done]. by exists (j, e).
Qed.

(** A list of slots without the entry of one jid. *)
Lemma usedSlots_insert_perm jid e m : OMap.wf m ->
  Permutation (usedSlots (OMap.insert jid e m))
    ((if 0 <=? slot e then [slot e] else []) ++ usedSlots (OMap.erase jid m)).
Proof.
  unfold usedSlots. induction m as [|[j0 e0] m IH]; intros Hwf; cbn [OMap.insert].
  { cbn. by destruct (0 <=? slot e). }
  apply OMap.wf_cons in Hwf as [Hwf Hlt].
  assert (Hno : klt jid j0 = true \/ jid = j0 -> OMap.erase jid m = m).
  { intros Hj. apply forallb_filter_id, forallb_forall. intros [j e'] Hin.
    apply list_elem_of_In in Hin. rewrite Forall_forall in Hlt. specialize (Hlt _ Hin). cbn in *.
    case_bool_decide; [|done]. subst j. exfalso. destruct Hj as [Hj| ->]; lia. }
  unfold OMap.erase in *. cbn [List.filter fst]. destruct (klt jid j0) eqn:L.
  - cbn in L. rewrite bool_decide_false by (intros ->; lia). cbn [negb].
    rewrite Hno by tauto. cbn [map List.filter snd]. by destruct (0 <=? slot e).
  - destruct (decide (jid = j0)) as [->|Hne].
    + rewrite bool_decide_true by done. cbn [negb]. rewrite Hno by tauto.
      cbn [map List.filter snd]. by destruct (0 <=? slot e).
    + rewrite bool_decide_false by done. cbn [negb map List.filter snd].
      destruct (0 <=? slot e0); [|by apply IH]. rewrite (IH Hwf). apply Permutation_middle.
Qed.

Lemma usedSlots_filter_NoDup f m : NoDup (usedSlots m) -> NoDup (usedSlots (List.filter f m)).
Proof.
  unfold usedSlots. induction m as [|[j e] m IH]; cbn; [done|].
  destruct (f (j, e)); cbn; destruct (0 <=? slot e) eqn:E; rewrite ?NoDup_cons; try tauto.
  intros [Hni Hnd]. split; [|auto]. intros Hin. apply Hni. apply list_elem_of_In in Hin.
  apply list_elem_of_In. rewrite filter_In, in_map_iff in *.
  destruct Hin as [(kv & <- & Hkv%filter_In) ?]. split; [|done]. exists kv. tauto.
Qed.

Lemma fw_inv_filter f m : inv m -> inv (List.filter f m).
Proof.
  intros (Hwf & Hok & Hnd). split; [by apply OMap.wf_filter|].
  split; [|by apply usedSlots_filter_NoDup]. rewrite Forall_forall in *. intros kv Hin.
  apply Hok. apply list_elem_of_In in Hin. apply filter_In in Hin as [Hin _]. by apply list_elem_of_In.
Qed.

(** A new or changed lease keeps the invariant when its slot is not another
    lease's. *)
Lemma fw_inv_insert jid e m : inv m -> entryOk (jid, e) ->
  (0 <= slot e -> ~ In (slot e) (usedSlots (OMap.erase jid m))) -> inv (OMap.insert jid e m).
Proof.
  intros Hinv He Hs. pose proof Hinv as (Hwf & Hok & Hnd). split; [auto with crate|]. split.
  - rewrite Forall_forall in *. intros kv Hin. apply list_elem_of_In, OMap.In_insert in Hin.
    destruct Hin as [->|Hin]; [done|]. by apply Hok, list_elem_of_In.
  - rewrite usedSlots_insert_perm by done. destruct (Z.leb_spec 0 (slot e)); cbn.
    + rewrite NoDup_cons. split; [rewrite list_elem_of_In; auto|]. by apply usedSlots_filter_NoDup.
    + by apply usedSlots_filter_NoDup.
Qed.

Lemma usedSlots_erase_sub jid n m : In n (usedSlots (OMap.erase jid m)) -> In n (usedSlots m).
Proof.
  rewrite !usedSlots_In. intros [Hn (j & e & Hin & He)]. split; [done|]. exists j, e.
  apply filter_In in Hin. tauto.
Qed.

(** The slot a jid already holds is nobody else's. *)
Lemma own_slot_unique jid e m : inv m -> OMap.find jid m = Some e -> 0 <= slot e ->
  ~ In (slot e) (usedSlots (OMap.erase jid m)).
Proof.
  intros (Hwf & _ & Hnd) Hf Hs.
  assert (E : OMap.insert jid e m = m).
  { clear Hnd Hs. induction m as [|[j0 e0] m IH]; [done|]. cbn in *.
    apply OMap.wf_cons in Hwf as [Hwf Hlt]. destruct (decide (jid = j0)) as [->|Hne].
    - injection Hf as ->. by rewrite Z.ltb_irrefl.
    - specialize (IH Hwf Hf). rewrite IH. destruct (Z.ltb_spec jid j0); [|done].
      apply OMap.find_In in Hf; [|done]. rewrite Forall_forall in Hlt.
      apply list_elem_of_In in Hf. specialize (Hlt _ Hf). cbn in Hlt. lia. }
  pose proof (usedSlots_insert_perm jid e m Hwf) as P. rewrite E in P. rewrite P in Hnd.
  rewrite (proj2 (Z.leb_le _ _) Hs) in Hnd. cbn in Hnd. apply NoDup_cons in Hnd as [Hni _].
  by rewrite list_elem_of_In in Hni.
Qed.

(** ** Round trip of the state file *)

Lemma dec_signed_not_In n c : is_digit c = false -> c <> "-"%char -> ~ In c (dec_signed n).
Proof.
  intros Hd Hc. unfold dec_signed. destruct (n <? 0); [|by apply dec_not_In].
  intros [<-|H]; [done|]. by apply dec_not_In in H.
Qed.

Lemma parseInt_signed n lo hi : lo <= n <= hi -> -1 <= n < 10 ^ 10 ->
  parseInt (dec_signed n) lo hi = Some n.
Proof.
  intros Hr Hn. unfold dec_signed. destruct (Z.ltb_spec n 0).
  { assert (n = -1) as -> by lia. 
    change (parseInt _ lo hi) with (if (-1 <? lo) || (hi <? -1) then None else Some (-1)).
    destruct (Z.ltb_spec (-1) lo), (Z.ltb_spec hi (-1)); lia || done. }
  unfold parseInt. pose proof (dec_len n 10 ltac:(cbn; lia) ltac:(lia)) as Hl.
  rewrite (proj2 (is_empty_false _) (dec_nonempty n)).
  destruct (Z.ltb_spec 12 (size_z (dec n))); [unfold size_z in *; lia|]. cbn [orb].
  pose proof (dec_not_In n "-" eq_refl) as Hm. pose proof (dec_digits n) as Hd.
  destruct (dec n) as [|c s] eqn:E; [by apply dec_nonempty in E|].
  destruct (Ascii.eqb_spec c "-") as [->|]; [by destruct Hm; left|]. cbn [andb].
  rewrite Hd. cbn [negb]. rewrite <- E, dec_value_dec by lia.
  destruct (Z.ltb_spec n lo), (Z.ltb_spec hi n); lia || done.
Qed.

Lemma parseInt_bit b : parseInt (bit b) 0 1 = Some (if b then 1 else 0).
Proof. by destruct b. Qed.

Definition entryLine (kv : Z * Entry) : bytes :=
  dec_signed (fst kv) ++ tab :: dec_signed (slot (snd kv)) ++ tab :: bit (fwd4 (snd kv))
  ++ tab :: bit (fwd6 (snd kv)).

Lemma bit_not_In b c : is_digit c = false -> ~ In c (bit b).
Proof. intros H. destruct b; cbn; intros [<-|[]]; done. Qed.

Lemma entryLine_no c kv : is_digit c = false -> c <> "-"%char -> c <> tab -> ~ In c (entryLine kv).
Proof.
  intros H1 H2 H3. unfold entryLine. repeat (rewrite in_app_iff; cbn [In]). intros H.
  repeat destruct H as [H|H]; try (by apply dec_signed_not_In in H); try (by apply bit_not_In in H);
    by subst c.
Qed.

Lemma fw_serializeEntry_line kv : 0 <= fst kv -> serializeEntry kv = entryLine kv ++ [newline].
Proof.
  intros H. unfold serializeEntry, entryLine.
  rewrite <- app_assoc. cbn [app]. rewrite <- app_assoc. cbn [app]. rewrite <- app_assoc. cbn [app].
  assert (E : dec_signed (fst kv) = dec (fst kv)).
  { unfold dec_signed. destruct (Z.ltb_spec (fst kv) 0); [lia|done]. }
  by rewrite E.
Qed.

Lemma entryLine_plain kv : dropCr (entryLine kv) = entryLine kv /\ is_empty (entryLine kv) = false
  /\ starts_with (str "#") (entryLine kv) = false.
Proof.
  split; [|split].
  - unfold dropCr. destruct (backIs cr (entryLine kv)) eqn:E; [|done]. exfalso.
    unfold backIs in E. destruct (back (entryLine kv)) as [c|] eqn:B; [|done].
    apply Ascii.eqb_eq in E as ->. apply back_In in B. by apply entryLine_no in B.
  - apply is_empty_false. unfold entryLine. by destruct (dec_signed (fst kv)).
  - apply not_true_iff_false. rewrite starts_with_spec. intros [t E].
    apply (entryLine_no "#" kv); [done..|]. rewrite E. by left.
Qed.

Lemma fw_parseLine_entry n kv s : entryOk kv -> OMap.find (fst kv) (leases s) = None ->
  parseLine n (entryLine kv) s
  = inr {| leases := OMap.insert (fst kv) (snd kv) (leases s); orig4 := orig4 s; orig6 := orig6 s |}.
Proof.
  intros [Hj Hs] Hf. unfold parseLine. destruct (entryLine_plain kv) as (-> & -> & ->). cbn [orb].
  assert (Hnt : forall m, ~ In tab (dec_signed m)) by (intros; by apply dec_signed_not_In).
  unfold entryLine. rewrite !split_on_app, split_on_nosep by (done || by apply bit_not_In).
  unfold origLine. destruct (beq_spec (dec_signed (fst kv)) (str "orig4")) as [E|_].
  { exfalso. apply (dec_signed_not_In (fst kv) "o"); [done..|]. rewrite E. by left. }
  cbn [andb size_z List.length Z.of_nat Z.eqb negb parseFields].
  unfold kMaxSlots in *. rewrite !parseInt_signed by lia. rewrite !parseInt_bit.
  unfold OMap.count. change (size_z _ =? 4) with true. cbn [negb]. rewrite Hf.
  destruct (snd kv) as [sl [] []]; done.
Qed.

Lemma fw_parseLines_entries n m s : Forall entryOk m -> OMap.wf (leases s ++ m) ->
  parseLines n (split_on newline (concat (map serializeEntry m))) s
  = inr {| leases := leases s ++ m; orig4 := orig4 s; orig6 := orig6 s |}.
Proof.
  revert n s. induction m as [|kv m IH]; intros n s Hok Hwf.
  { cbn. rewrite app_nil_r. by destruct s. }
  apply Forall_cons in Hok as [Hkv Hok]. cbn [map concat].
  rewrite fw_serializeEntry_line, <- app_assoc by (destruct Hkv; lia). cbn [app].
  rewrite split_on_app by (by apply entryLine_no). cbn [parseLines].
  assert (Hlast : Forall (fun p => klt (fst p) (fst kv) = true) (leases s)).
  { apply Forall_forall. intros p Hp. apply list_elem_of_In in Hp.
    apply (strongly_sorted_app_In (leases s) (kv :: m) (fun a b => klt (fst a) (fst b) = true));
      [done|done|by left]. }
  rewrite fw_parseLine_entry by (done || by apply OMap.find_None_last).
  rewrite OMap.insert_last, <- (surjective_pairing kv) by done.
  rewrite IH; cbn; [by rewrite <- app_assoc|done|by rewrite <- app_assoc].
Qed.

Lemma slotTwice_None seen m : NoDup (seen ++ usedSlots m) -> slotTwice seen m = None.
Proof.
  revert seen. induction m as [|[j e] m IH]; intros seen; cbn; [done|]. unfold usedSlots.
  cbn [map List.filter snd]. destruct (Z.ltb_spec (slot e) 0), (Z.leb_spec 0 (slot e)); try lia; [auto|].
  intros Hnd. destruct (existsb (Z.eqb (slot e)) seen) eqn:E.
  - apply existsb_eqb_In in E. apply NoDup_app in Hnd as (_ & Hd & _).
    destruct (Hd (slot e)); [by apply list_elem_of_In|]. by left.
  - apply IH. cbn. by rewrite Permutation_middle.
Qed.

Definition stateOk (s : State) : Prop :=
  inv (leases s) /\ -1 <= orig4 s <= 1 /\ -1 <= orig6 s <= 1.

Lemma fw_parse_serialize s : stateOk s -> parse (serialize s) = inr s.
Proof.
  intros ((Hwf & Hok & Hnd) & H4 & H6). unfold parse, serialize. cbn [app].
  rewrite (split_on_app newline (str "# crate fw leases v1")) by (vm_compute; intuition discriminate).
  cbn [parseLines]. change (parseLine 1 (str "# crate fw leases v1") emptyState)
    with (inr emptyState : bytes + State). cbn iota.
  assert (Hline : exists l, str "orig4" ++ tab :: dec_signed (orig4 s) ++ tab :: str "orig6" ++ tab ::
      dec_signed (orig6 s) ++ newline :: concat (map serializeEntry (leases s))
      = l ++ newline :: concat (map serializeEntry (leases s)) /\ ~ In newline l
      /\ parseLine 2 l emptyState = inr {| leases := []; orig4 := orig4 s; orig6 := orig6 s |}).
  { exists (str "orig4" ++ tab :: dec_signed (orig4 s) ++ tab :: str "orig6" ++ tab :: dec_signed (orig6 s)).
    split; [by rewrite <- !app_assoc; cbn; rewrite <- !app_assoc; cbn; rewrite <- ?app_assoc|].
    assert (E : forall x, -1 <= x <= 1 -> x = -1 \/ x = 0 \/ x = 1) by lia.
    apply E in H4, H6. destruct H4 as [->|[->| ->]], H6 as [->|[->| ->]];
      (split; [vm_compute; intuition discriminate|reflexivity]). }
  destruct Hline as (l & -> & Hnl & Hp). rewrite split_on_app by done. cbn [parseLines].
  change (1 + 1) with 2. rewrite Hp. rewrite fw_parseLines_entries by done. cbn. rewrite slotTwice_None by done. by destruct s.
Qed.

(** ** Operations on a registry *)

Lemma find_default_slot jid m : inv m ->
  -1 <= slot (default noEntry (OMap.find jid m)) < kMaxSlots.
Proof.
  intros (Hwf & Hok & _). destruct (OMap.find jid m) as [e|] eqn:F; [|done]. cbn.
  apply OMap.find_In, list_elem_of_In in F; [|done]. rewrite Forall_forall in Hok.
  by apply Hok in F as [_ ?].
Qed.

(** What [acquire] does: the caller's lease keeps the slot it has, or gets the
    least free one when it asks for one, and gains the references asked for;
    no other lease changes.  It refuses only when all slots are held. *)
Definition acquired (m : Leases) (jid : Z) (wantSlot want4 want6 : bool) (m' : Leases) (e : Entry)
  : Prop :=
  let old := default noEntry (OMap.find jid m) in
  inv m' /\ OMap.find jid m' = Some e
  /\ (forall j, j <> jid -> OMap.find j m' = OMap.find j m)
  /\ fwd4 e = fwd4 old || want4 /\ fwd6 e = fwd6 old || want6
  /\ (if wantSlot && (slot old <? 0) then leastFree m (slot e) else slot e = slot old).

Lemma acquire_done m jid old sl want4 want6 : inv m -> 1 <= jid <= 65535 -> -1 <= sl < kMaxSlots ->
  (0 <= sl -> ~ In sl (usedSlots (OMap.erase jid m))) ->
  let e := {| slot := sl; fwd4 := fwd4 old || want4; fwd6 := fwd6 old || want6 |} in
  inv (OMap.insert jid e m) /\ OMap.find jid (OMap.insert jid e m) = Some e
  /\ (forall j, j <> jid -> OMap.find j (OMap.insert jid e m) = OMap.find j m).
Proof.
  intros Hinv Hj Hsl Hfree e. split; [by apply fw_inv_insert|].
  destruct Hinv as (Hwf & _). split.
  - rewrite OMap.find_insert by done. by rewrite decide_True.
  - intros j Hne. rewrite OMap.find_insert by done. by rewrite decide_False.
Qed.

Lemma acquire_spec m jid wantSlot want4 want6 : inv m -> 1 <= jid <= 65535 ->
  match acquire m jid wantSlot want4 want6 with
  | inl e => e = slotsExhausted /\ wantSlot = true
             /\ slot (default noEntry (OMap.find jid m)) = -1 /\ exhausted m
  | inr (m', e, t) => acquired m jid wantSlot want4 want6 m' e /\ t = diff (counts m) (counts m')
  end.
Proof.
  intros Hinv Hj. unfold acquire, acquired. pose proof (find_default_slot jid m Hinv) as Hs.
  set (old := default noEntry (OMap.find jid m)) in *.
  destruct (wantSlot && (slot old <? 0)) eqn:E.
  - apply andb_prop in E as [-> El%Z.ltb_lt].
    destruct (lowestFreeSlot_spec m) as [[-> Hx]|Hfree].
    { change (-1 <? 0) with true. cbv iota. split; [done|]. split; [done|]. split; [lia|done]. }
    destruct (Z.ltb_spec (lowestFreeSlot m kMaxSlots) 0); [destruct Hfree; lia|].
    cbv iota zeta. split; [|done]. cbn [slot fwd4 fwd6].
    destruct (acquire_done m jid old (lowestFreeSlot m kMaxSlots) want4 want6) as (?&?&?); try done.
    { destruct Hfree; lia. }
    { intros _ Hin. apply usedSlots_erase_sub in Hin. by destruct Hfree as (_ & ? & _). }
  - cbv iota zeta. split; [|done]. cbn [slot fwd4 fwd6].
    destruct (acquire_done m jid old (slot old) want4 want6) as (?&?&?); try done.
    { intros H0. subst old. destruct (OMap.find jid m) as [e|] eqn:F; [|done].
      by apply own_slot_unique. }
Qed.

(** ** Forwarding

    [base] is the sysctl's value without crate.  While no lease needs it the
    sysctl has that value and nothing is remembered; while one does, it is
    non-zero, and the value to restore is the one remembered. *)
Definition forwardOk (base n orig cur : Z) : Prop :=
  (n = 0 -> orig = -1 /\ cur = base)
  /\ (0 < n -> cur <> 0 /\ (orig = 0 /\ base = 0 /\ cur = 1 \/ orig = -1 /\ cur = base)).

Lemma flip_ok base n n' orig cur : 0 <= n -> 0 <= n' -> forwardOk base n orig cur ->
  let '(o, c) := flip true true ((n =? 0) && (0 <? n')) ((0 <? n) && (n' =? 0)) orig cur in
  forwardOk base n' o c.
Proof.
  intros Hn Hn' [H0 H1]. unfold flip, forwardOk.
  destruct (Z.eqb_spec n 0), (Z.ltb_spec 0 n'), (Z.ltb_spec 0 n), (Z.eqb_spec n' 0); cbn [andb]; try lia.
  - destruct H0 as [-> ->]; [done|]. destruct (Z.eqb_spec base 0); cbn; lia.
  - destruct H1 as [Hc H1]; [done|]. destruct (Z.eqb_spec orig 0); cbn; lia.
Qed.

Definition regInv (base4 base6 : Z) (r : Registry) : Prop :=
  inv (leases (st r))
  /\ forwardOk base4 (users fwd4 (leases (st r))) (orig4 (st r)) (sys4 (host r))
  /\ forwardOk base6 (users fwd6 (leases (st r))) (orig6 (st r)) (sys6 (host r))
  /\ (file (host r) = Some (serialize (st r)) \/ file (host r) = None /\ st r = emptyState).

Lemma forwardOk_orig base n orig cur : 0 <= n -> forwardOk base n orig cur -> -1 <= orig <= 1.
Proof. intros Hn [H0 H1]. destruct (decide (n = 0)); [|assert (0 < n) by lia]; lia. Qed.

Lemma users_nonneg f m : 0 <= users f m.
Proof. apply size_z_nonneg. Qed.

Lemma transition_regInv b4 b6 r m : regInv b4 b6 r -> inv m ->
  regInv b4 b6 (snd (persistLocked allOk
    (applyTransition allOk (diff (counts (leases (st r))) (counts m)) m r))).
Proof.
  intros (Hi & H4 & H6 & Hf) Hm. unfold applyTransition, diff. cbn [get4 set4 get6 set6 allOk].
  cbn [first4 last4 first6 last6 c4 c6 counts].
  pose proof (flip_ok _ _ (users fwd4 m) _ _ (users_nonneg _ _) (users_nonneg _ _) H4) as F4.
  pose proof (flip_ok _ _ (users fwd6 m) _ _ (users_nonneg _ _) (users_nonneg _ _) H6) as F6.
  destruct (flip true true _ _ (orig4 _) _) as [o4 v4]. destruct (flip true true _ _ (orig6 _) _) as [o6 v6].
  split; [done|]. split; [done|]. split; [done|]. by left.
Qed.

(** One call on the registry, every system call succeeding; [Restart] is the
    daemon coming back up on the same state file. *)
Inductive step : Registry -> Registry -> Prop :=
| StepAcquire r jid ws w4 w6 : 1 <= jid <= 65535 -> step r (snd (acquireReg allOk jid ws w4 w6 r))
| StepRelease r jid : step r (snd (releaseReg allOk jid r))
| StepReconcile r live : step r (snd (reconcileReg allOk live r))
| StepRestart r path r' : boot path (host r) = inr r' -> step r r'.

Lemma boot_same b4 b6 r path : regInv b4 b6 r -> boot path (host r) = inr r.
Proof.
  intros (Hi & H4 & H6 & Hf). unfold boot. destruct Hf as [-> | [-> Hs]].
  - rewrite fw_parse_serialize; [by destruct r|]. split; [done|].
    split; eapply forwardOk_orig; eauto using users_nonneg.
  - rewrite <- Hs. by destruct r.
Qed.

Lemma step_regInv b4 b6 r r' : step r r' -> regInv b4 b6 r -> regInv b4 b6 r'.
Proof.
  intros Hstep Hr. pose proof Hr as (Hi & _). destruct Hstep as [r jid ws w4 w6 Hj|r jid|r live|r path r' Hb].
  - unfold acquireReg. pose proof (acquire_spec (leases (st r)) jid ws w4 w6 Hi Hj) as Ha.
    destruct (acquire _ _ _ _ _) as [e|[[m e] t]]; [done|]. destruct Ha as [[Hm _] ->].
    by apply (transition_regInv b4 b6 r m).
  - unfold releaseReg, release. destruct (OMap.count jid (leases (st r))); [|done].
    apply (transition_regInv b4 b6 r); [done|]. by apply fw_inv_filter.
  - unfold reconcileReg. destruct live as [live|]; [|done]. unfold reconcile.
    destruct (_ =? 0); [done|]. apply (transition_regInv b4 b6 r); [done|]. by apply fw_inv_filter.
  - rewrite (boot_same b4 b6) in Hb by done. by injection Hb as <-.
Qed.

(** A daemon started on a host without a state file. *)
Definition fresh (b4 b6 : Z) : Registry :=
  {| st := emptyState; host := {| sys4 := b4; sys6 := b6; file := None |} |}.

Lemma fresh_regInv b4 b6 : regInv b4 b6 (fresh b4 b6).
Proof.
  split; [split; [apply OMap.wf_nil|]; split; constructor|].
  split; [by split|]. split; [by split|]. by right.
Qed.

Lemma reachable_regInv b4 b6 r r' : rtc step r r' -> regInv b4 b6 r -> regInv b4 b6 r'.
Proof. induction 1 as [|r r1 r' Hs _ IH]; [done|]. intros Hr. by eapply IH, step_regInv. Qed.

(** [acquire] gives a jail that asks for a firewall slot the least slot no
    other jail holds (or the one it already has), adds the forwarding
    references asked for and leaves every other lease alone; it refuses exactly
    when a slot is wanted, the jail has none and all 1500 are held. *)
Theorem acquire_least_free_slot (m : Leases) (jid : Z) (wantSlot want4 want6 : bool) :
  inv m -> 1 <= jid <= 65535 ->
  match acquire m jid wantSlot want4 want6 with
  | inl e => e = slotsExhausted /\ wantSlot = true
             /\ slot (default noEntry (OMap.find jid m)) = -1 /\ exhausted m
  | inr (m', e, t) => acquired m jid wantSlot want4 want6 m' e /\ t = diff (counts m) (counts m')
  end.
Proof. apply acquire_spec. Qed.

Lemma acquire_least_free_slot_witness :
  let m := [(3, {| slot := 0; fwd4 := true; fwd6 := false |});
            (7, {| slot := 2; fwd4 := false; fwd6 := false |})] in
  match acquire m 9 true true false with
  | inr (m', e, t) => slot e = 1 /\ inv m'
  | inl _ => False
  end.
Proof.
  intros m. assert (Hm : inv m).
  { split; [repeat constructor|]. split; [repeat constructor; cbn; unfold kMaxSlots; lia|].
    unfold usedSlots, m. cbn. repeat constructor; rewrite ?list_elem_of_In; cbn; lia. }
  pose proof (acquire_least_free_slot m 9 true true false Hm ltac:(lia)) as H.
  destruct (acquire m 9 true true false) as [e|[[m' e] t]] eqn:E.
  - vm_compute in E. discriminate E.
  - destruct H as [[H _] _]. split; [|exact H]. vm_compute in E. by injection E as _ <- _.
Defined.

(** C7: whatever jails acquire and release leases, die and are reconciled, and
    however often the daemon restarts: forwarding is on while some jail needs
    it, has its original value again once none does, no two jails hold the
    same firewall slot, and a restart finds the state it left. *)
Theorem forwarding_restored (b4 b6 : Z) (r : Registry) :
  rtc step (fresh b4 b6) r ->
  (users fwd4 (leases (st r)) = 0 -> sys4 (host r) = b4)
  /\ (0 < users fwd4 (leases (st r)) -> sys4 (host r) <> 0)
  /\ (users fwd6 (leases (st r)) = 0 -> sys6 (host r) = b6)
  /\ (0 < users fwd6 (leases (st r)) -> sys6 (host r) <> 0)
  /\ NoDup (usedSlots (leases (st r)))
  /\ (forall path, boot path (host r) = inr r).
Proof.
  intros Hr. apply (reachable_regInv b4 b6) in Hr; [|apply fresh_regInv].
  assert (Hb : forall path, boot path (host r) = inr r) by (intros; by eapply boot_same).
  destruct Hr as ((_ & _ & Hnd) & [H40 H41] & [H60 H61] & _).
  repeat split; try done; intros H; [by apply H40|by apply H41|by apply H60|by apply H61].
Qed.

Lemma forwarding_restored_witness :
  let r := snd (releaseReg allOk 5 (snd (acquireReg allOk 5 true true false (fresh 0 1)))) in
  sys4 (host (snd (acquireReg allOk 5 true true false (fresh 0 1)))) = 1 /\ sys4 (host r) = 0.
Proof.
  intros r. split; [reflexivity|]. apply (forwarding_restored 0 1 r); [|reflexivity].
  eapply rtc_l; [apply (StepAcquire _ 5 true true false); lia|].
  eapply rtc_l; [apply (StepRelease _ 5)|]. apply rtc_refl.
Defined.

End FwLease.
