(* ===== verification/PrivOpsNv.v ===== *)
(** * Privops requests on the libnv transport: lib/privops_nv_pure.cpp

    The listener flattens an nvlist into a string map; each verb has a parser
    from the map to its request.  Optional fields keep the default of the
    request struct when absent. *)

From S2P Require Import Prelude PrivOps PrivOpsFacts.

Module PrivOpsNv.
Import PrivOps.

(** [std::map<std::string, std::string>] *)
Definition FieldMap : Type := gmap bytes bytes.

Definition long_max : Z := 2 ^ 63 - 1.
Definition long_min : Z := - 2 ^ 63.

(** [std::strtol(s, nullptr, 10)] on a string of an optional ['-'] and digits:
    the value, saturated to [long]. *)
Definition strtol (s : bytes) : Z :=
  match s with
  | c :: t => if Ascii.eqb c "-" then Z.max long_min (- dec_value t) else Z.min long_max (dec_value s)
  | [] => 0
  end.

Definition missing (key : bytes) : bytes := str "missing field '" ++ key ++ str "'".
Definition fieldErr (key what : bytes) : bytes := str "field '" ++ key ++ str "' " ++ what.

Definition requireString (m : FieldMap) (key : bytes) : bytes + bytes :=
  match m !! key with None => inl (missing key) | Some v => inr v end.

Definition requireLong (m : FieldMap) (key : bytes) : bytes + Z :=
  match m !! key with
  | None => inl (missing key)
  | Some [] => inl (fieldErr key (str "is empty"))
  | Some ((c :: t) as s) =>
      if Ascii.eqb c "-" && is_empty t then inl (fieldErr key (str "is not an integer"))
      else if negb (all_digits (if Ascii.eqb c "-" then t else s))
      then inl (fieldErr key (str "is not an integer"))
      else inr (strtol s)
  end.

Definition requireUnsigned (m : FieldMap) (key : bytes) : bytes + Z :=
  v ← requireLong m key;
  if v <? 0 then inl (fieldErr key (str "must be non-negative"))
  else if 0xFFFFFFFF <? v then inl (fieldErr key (str "overflows 32-bit unsigned"))
  else inr v.

(** [dflt] is what [out] holds before the call. *)
Definition optionalString (m : FieldMap) (key dflt : bytes) : bytes + bytes :=
  inr (default dflt (m !! key)).

Definition optionalBool (m : FieldMap) (key : bytes) (dflt : bool) : bytes + bool :=
  match m !! key with
  | None => inr dflt
  | Some v =>
      if beq v (str "true") || beq v (str "1") then inr true
      else if beq v (str "false") || beq v (str "0") then inr false
      else inl (fieldErr key (str "is not a boolean"))
  end.

(** ** Per-verb parsers *)

Definition parseCreateJail (m : FieldMap) : bytes + CreateJailReq :=
  name ← requireString m (str "name");
  path ← requireString m (str "path");
  hostname ← optionalString m (str "hostname") [];
  vnet ← optionalBool m (str "vnet") false;
  parameters ← optionalString m (str "parameters") [];
  inr {| cj_name := name; cj_path := path; cj_hostname := hostname; cj_vnet := vnet;
         cj_parameters := parameters |}.

Definition parseDestroyJail (m : FieldMap) : bytes + DestroyJailReq :=
  name ← requireString m (str "name");
  force ← optionalBool m (str "force") false;
  inr {| dj_name := name; dj_force := force |}.

Definition parseMountNullfs (m : FieldMap) : bytes + MountNullfsReq :=
  source ← requireString m (str "source");
  target ← requireString m (str "target");
  readOnly ← optionalBool m (str "read_only") true;
  inr {| mn_source := source; mn_target := target; mn_readOnly := readOnly |}.

Definition parseUnmountNullfs (m : FieldMap) : bytes + UnmountNullfsReq :=
  target ← requireString m (str "target");
  force ← optionalBool m (str "force") false;
  inr {| un_target := target; un_force := force |}.

Definition parseSetRctl (m : FieldMap) : bytes + SetRctlReq :=
  jid ← requireLong m (str "jid");
  key ← requireString m (str "key");
  value ← requireString m (str "value");
  inr {| sr_jid := jid; sr_key := key; sr_rawValue := value |}.

Definition parseClearRctl (m : FieldMap) : bytes + ClearRctlReq :=
  jid ← requireLong m (str "jid");
  key ← requireString m (str "key");
  inr {| cr_jid := jid; cr_key := key |}.

Definition parseAttachZfs (m : FieldMap) : bytes + ZfsReq :=
  jid ← requireLong m (str "jid");
  dataset ← requireString m (str "dataset");
  inr {| zr_jid := jid; zr_dataset := dataset |}.

Definition parseDetachZfs (m : FieldMap) : bytes + ZfsReq :=
  jid ← requireLong m (str "jid");
  dataset ← requireString m (str "dataset");
  inr {| zr_jid := jid; zr_dataset := dataset |}.

Definition parseConfigureIface (m : FieldMap) : bytes + ConfigureIfaceReq :=
  jid ← requireLong m (str "jid");
  ifname ← requireString m (str "ifname");
  bridge ← optionalString m (str "bridge") [];
  ipv4 ← optionalString m (str "ipv4_cidr") [];
  ipv6 ← optionalString m (str "ipv6_cidr") [];
  mac ← optionalString m (str "mac_addr") [];
  inr {| ci_jid := jid; ci_ifname := ifname; ci_bridge := bridge; ci_ipv4Cidr := ipv4;
         ci_ipv6Cidr := ipv6; ci_macAddr := mac |}.

(** teardown_iface, set_iface_up and disable_iface_offload carry one name. *)
Definition parseIfname (m : FieldMap) : bytes + IfnameReq :=
  ifname ← requireString m (str "ifname"); inr {| if_ifname := ifname |}.

Definition parseTeardownIface : FieldMap -> bytes + IfnameReq := parseIfname.
Definition parseSetIfaceUp : FieldMap -> bytes + IfnameReq := parseIfname.
Definition parseDisableIfaceOffload : FieldMap -> bytes + IfnameReq := parseIfname.

(** add_pf_rule and remove_pf_rule read the same fields. *)
Definition parsePfRule (m : FieldMap) : bytes + PfRuleReq :=
  anchor ← requireString m (str "anchor");
  rule ← requireString m (str "rule");
  inr {| pf_anchor := anchor; pf_ruleText := rule |}.

Definition parseAddPfRule : FieldMap -> bytes + PfRuleReq := parsePfRule.
Definition parseRemovePfRule : FieldMap -> bytes + PfRuleReq := parsePfRule.

Definition parseAddIpfwRule (m : FieldMap) : bytes + AddIpfwRuleReq :=
  set ← requireUnsigned m (str "set");
  number ← requireUnsigned m (str "number");
  action ← requireString m (str "action");
  body ← requireString m (str "body");
  inr {| ai_set := set; ai_number := number; ai_action := action; ai_body := body |}.

Definition parseRemoveIpfwRule (m : FieldMap) : bytes + RemoveIpfwRuleReq :=
  set ← requireUnsigned m (str "set");
  number ← requireUnsigned m (str "number");
  inr {| ri_set := set; ri_number := number |}.

(** bridge_add_member and bridge_del_member read the same fields. *)
Definition parseBridgeMember (m : FieldMap) : bytes + BridgeMemberReq :=
  bridge ← requireString m (str "bridge");
  member ← requireString m (str "member");
  inr {| bm_bridge := bridge; bm_member := member |}.

Definition parseBridgeAddMember : FieldMap -> bytes + BridgeMemberReq := parseBridgeMember.
Definition parseBridgeDelMember : FieldMap -> bytes + BridgeMemberReq := parseBridgeMember.

Definition parseSetIfaceInetAddr (m : FieldMap) : bytes + SetIfaceInetAddrReq :=
  ifname ← requireString m (str "ifname");
  inet6 ← optionalBool m (str "inet6") false;
  addr ← requireString m (str "addr");
  prefixLen ← requireUnsigned m (str "prefix_len");
  inr {| sa_ifname := ifname; sa_addr := addr; sa_prefixLen := prefixLen; sa_inet6 := inet6 |}.

Definition parseSetLoginclassRctl (m : FieldMap) : bytes + SetLoginclassRctlReq :=
  loginclass ← requireString m (str "loginclass");
  key ← requireString m (str "key");
  value ← requireString m (str "value");
  inr {| sl_loginclass := loginclass; sl_key := key; sl_rawValue := value |}.

Definition parseClearLoginclassRctl (m : FieldMap) : bytes + ClearLoginclassRctlReq :=
  loginclass ← requireString m (str "loginclass");
  key ← requireString m (str "key");
  inr {| cl_loginclass := loginclass; cl_key := key |}.

Definition parseReclaimIfaceFromVnet (m : FieldMap) : bytes + ReclaimIfaceReq :=
  ifname ← requireString m (str "ifname");
  jailName ← requireString m (str "jail_name");
  inr {| rc_ifname := ifname; rc_jailName := jailName |}.

Definition parseFlushPfAnchor (m : FieldMap) : bytes + FlushPfAnchorReq :=
  anchor ← requireString m (str "anchor"); inr {| fa_anchor := anchor |}.

Definition parseQueryJailRctl (m : FieldMap) : bytes + QueryJailRctlReq :=
  jid ← requireUnsigned m (str "jid");
  limits ← optionalBool m (str "limits") false;
  inr {| qr_jid := jid; qr_limits := limits |}.

Definition parseSetIfaceMac (m : FieldMap) : bytes + SetIfaceMacReq :=
  ifname ← requireString m (str "ifname");
  mac ← requireString m (str "mac");
  inr {| sm_ifname := ifname; sm_mac := mac |}.

Definition parseDeleteIpfwNat (m : FieldMap) : bytes + DeleteIpfwNatReq :=
  number ← requireUnsigned m (str "number"); inr {| dn_number := number |}.

Definition parseCreateBridge (m : FieldMap) : bytes + CreateBridgeReq :=
  name ← requireString m (str "name"); inr {| cb_name := name |}.

Definition parseAcquireFwLease (m : FieldMap) : bytes + AcquireFwLeaseReq :=
  jid ← requireUnsigned m (str "jid");
  slot ← optionalBool m (str "slot") false;
  fwd4 ← optionalBool m (str "fwd4") false;
  fwd6 ← optionalBool m (str "fwd6") false;
  inr {| af_jid := jid; af_slot := slot; af_fwd4 := fwd4; af_fwd6 := fwd6 |}.

Definition parseReleaseFwLease (m : FieldMap) : bytes + ReleaseFwLeaseReq :=
  jid ← requireUnsigned m (str "jid"); inr {| rf_jid := jid |}.

Definition parseConfigureIpfwNat (m : FieldMap) : bytes + ConfigureIpfwNatReq :=
  number ← requireUnsigned m (str "number");
  config ← requireString m (str "config");
  inr {| cn_number := number; cn_config := config |}.

Definition parseSetJailCpuset (m : FieldMap) : bytes + SetJailCpusetReq :=
  jid ← requireUnsigned m (str "jid");
  cpuset ← requireString m (str "cpuset");
  inr {| sc_jid := jid; sc_cpuset := cpuset |}.

Definition parseApplyDevfsRuleset (m : FieldMap) : bytes + ApplyDevfsRulesetReq :=
  mountPath ← requireString m (str "mount_path");
  ruleset ← requireUnsigned m (str "ruleset");
  inr {| ad_mountPath := mountPath; ad_ruleset := ruleset |}.

Definition parseAddDevfsUnhideRule (m : FieldMap) : bytes + AddDevfsUnhideRuleReq :=
  mountPath ← requireString m (str "mount_path");
  pathPattern ← requireString m (str "path_pattern");
  inr {| au_mountPath := mountPath; au_pathPattern := pathPattern |}.

Definition parseSignalJail (m : FieldMap) : bytes + SignalJailReq :=
  jid ← requireUnsigned m (str "jid");
  signal ← requireString m (str "signal");
  inr {| sj_jid := jid; sj_signal := signal |}.

(** [for (i = 0; i < argc; i++)]: the fields [<prefix><i>], [left] to go. *)
Fixpoint requireIndexed (m : FieldMap) (prefix : bytes) (left : nat) (i : Z) : bytes + list bytes :=
  match left with
  | O => inr []
  | S k =>
      a ← requireString m (prefix ++ dec i);
      rest ← requireIndexed m prefix k (i + 1);
      inr (a :: rest)
  end.

(** [argc] and the fields it counts. *)
Definition requireCounted (m : FieldMap) (prefix : bytes) (limit : Z) : bytes + list bytes :=
  argc ← requireUnsigned m (str "argc");
  if argc =? 0 then inl (str "field 'argc' must be >= 1")
  else if limit <? argc then inl (str "field 'argc' exceeds " ++ dec limit)
  else requireIndexed m prefix (Z.to_nat argc) 0.

Definition parseExecInJail (m : FieldMap) : bytes + ExecInJailReq :=
  jid ← requireUnsigned m (str "jid");
  user ← optionalString m (str "user") [];
  term ← optionalString m (str "term") [];
  argv ← requireCounted m (str "argv") kExecInJailMaxArgs;
  inr {| ex_jid := jid; ex_user := user; ex_argv := argv; ex_term := term |}.

Definition parseApplyDevfsRules (m : FieldMap) : bytes + ApplyDevfsRulesReq :=
  mountPath ← requireString m (str "mount_path");
  ruleset ← requireUnsigned m (str "ruleset");
  rules ← requireCounted m (str "rule") kApplyDevfsRulesMaxRules;
  inr {| ar_mountPath := mountPath; ar_ruleset := ruleset; ar_rules := rules |}.

Definition parseMountTmpfs (m : FieldMap) : bytes + MountTmpfsReq :=
  target ← requireString m (str "target");
  size ← optionalString m (str "size") [];
  uid ← optionalString m (str "uid") [];
  gid ← optionalString m (str "gid") [];
  mode ← optionalString m (str "mode") [];
  inr {| mt_target := target; mt_size := size; mt_uid := uid; mt_gid := gid; mt_mode := mode |}.

(** ** The nvlist header, peeked before libnv reads the request *)

Record NvlistHeader := { bigEndian : bool; descriptors : Z; nv_size : Z }.

Definition kNvlistHeaderSize : nat := 19.
Definition kMaxNvlistRequestBytes : Z := 2 ^ 20.
Definition kMaxNvlistRequestDescriptors : Z := 3.

(** [rd64]: eight bytes, most significant first in the sender's order. *)
Definition rd64 (be : bool) (b : list Z) : Z :=
  fold_left (fun v x => u64 (Z.lor (Z.shiftl v 8) x)) (if be then b else rev b) 0.

Definition byteAt (buf : list Z) (i : nat) : Z := default 0 (buf !! i).

Definition parseNvlistHeader (buf : list Z) : bytes + NvlistHeader :=
  if size_z buf <? Z.of_nat kNvlistHeaderSize then inl (str "short header")
  else if negb (byteAt buf 0 =? 0x6c) then inl (str "bad nvlist magic")
  else if negb (byteAt buf 1 =? 0) then inl (str "unsupported nvlist version")
  else
    let be := negb (Z.land (byteAt buf 2) 0x80 =? 0) in
    inr {| bigEndian := be; descriptors := rd64 be (take 8 (drop 3 buf));
           nv_size := rd64 be (take 8 (drop 11 buf)) |}.

Definition checkNvlistHeaderLimits (h : NvlistHeader) : bytes :=
  reject kMaxNvlistRequestBytes <? nv_size h
    with str "request too large (" ++ dec (nv_size h) ++ str " bytes, limit "
         ++ dec kMaxNvlistRequestBytes ++ str ")";
  reject kMaxNvlistRequestDescriptors <? descriptors h
    with str "too many descriptors (" ++ dec (descriptors h) ++ str ", limit "
         ++ dec kMaxNvlistRequestDescriptors ++ str ")";
  [].

Definition extractVerb (m : FieldMap) : Verb :=
  match m !! str "verb" with None => Unknown | Some n => parseVerb n end.

(** ** The header libnv sends *)

(** Eight bytes of an unsigned 64-bit number, in the sender's order. *)
Definition enc64 (be : bool) (n : Z) : list Z :=
  let bytes := map (fun k => n / 2 ^ (8 * k) mod 256) [7; 6; 5; 4; 3; 2; 1; 0] in
  if be then bytes else rev bytes.

Definition encodeHeader (be : bool) (flags n size : Z) : list Z :=
  [0x6c; 0; (if be then 128 + flags else flags)] ++ enc64 be n ++ enc64 be size.

Lemma rd64_step n j k : j = k + 1 -> 0 <= n < 2 ^ 64 -> 0 <= k <= 6 ->
  u64 (Z.lor (Z.shiftl (n / 2 ^ (8 * j)) 8) (n / 2 ^ (8 * k) mod 256)) = n / 2 ^ (8 * k).
Proof.
  intros -> Hn Hk. rewrite Z.shiftl_mul_pow2 by lia. rewrite lor_below; [|lia|apply Z.mod_pos_bound; lia].
  change (2 ^ 8) with 256. replace (2 ^ (8 * (k + 1))) with (2 ^ (8 * k) * 256).
  2:{ change 256 with (2 ^ 8). rewrite <- Z.pow_add_r by lia. f_equal. lia. }
  assert (Hp : 0 < 2 ^ (8 * k)) by (apply Z.pow_pos_nonneg; lia).
  rewrite <- Z.div_div by lia. pose proof (Z.div_mod (n / 2 ^ (8 * k)) 256) as E.
  replace (n / 2 ^ (8 * k) / 256 * 256 + n / 2 ^ (8 * k) mod 256) with (n / 2 ^ (8 * k)) by lia.
  unfold u64. apply Z.mod_small. split; [apply Z.div_pos; lia|]. apply Z.div_lt_upper_bound; [lia|]. nia.
Qed.

Lemma rd64_enc64 be n : 0 <= n < 2 ^ 64 -> rd64 be (enc64 be n) = n.
Proof.
  intros Hn. unfold rd64, enc64. replace (if be then _ else _)
    with (map (fun k => n / 2 ^ (8 * k) mod 256) [7; 6; 5; 4; 3; 2; 1; 0]) by (by destruct be; rewrite ?rev_involutive).
  cbn [map fold_left]. assert (E : u64 (Z.lor (Z.shiftl 0 8) (n / 2 ^ (8 * 7) mod 256)) = n / 2 ^ (8 * 7)).
  { rewrite Z.shiftl_0_l, Z.lor_0_l. assert (0 <= n / 2 ^ (8 * 7) < 256).
    { split; [apply Z.div_pos; lia|]. apply Z.div_lt_upper_bound; lia. }
    rewrite (Z.mod_small (_ / _)) by lia. unfold u64. apply Z.mod_small. lia. }
  rewrite E, (rd64_step n 7 6), (rd64_step n 6 5), (rd64_step n 5 4), (rd64_step n 4 3), (rd64_step n 3 2),
    (rd64_step n 2 1), (rd64_step n 1 0) by lia. by rewrite Z.div_1_r.
Qed.

(** The pre-check on the nvlist header sees the real numbers: for either
    byte order of the sender the parsed header is the one that was sent, and
    it passes exactly when the request announces at most 1 MiB and at most
    three descriptors. *)
Theorem nvlist_header_checked (be : bool) (flags n size : Z) (rest : list Z) :
  0 <= flags < 128 -> 0 <= n < 2 ^ 64 -> 0 <= size < 2 ^ 64 ->
  exists h, parseNvlistHeader (encodeHeader be flags n size ++ rest) = inr h
    /\ bigEndian h = be /\ descriptors h = n /\ nv_size h = size
    /\ (checkNvlistHeaderLimits h = [] <-> size <= 1048576 /\ n <= 3).
Proof.
  intros Hf Hn Hs. assert (Hbe : negb (Z.land (if be then 128 + flags else flags) 0x80 =? 0) = be).
  { destruct be.
    - change 128 with (1 * 2 ^ 7) at 1. rewrite <- lor_below by lia.
      destruct (Z.eqb_spec (Z.land (Z.lor (1 * 2 ^ 7) flags) 128) 0) as [E|]; [|done].
      assert (B : Z.testbit (Z.land (Z.lor (1 * 2 ^ 7) flags) 128) 7 = true) by (by rewrite Z.land_spec, Z.lor_spec).
      by rewrite E in B.
    - assert (E : Z.land flags 128 = 0); [|by rewrite E]. apply Z.bits_inj'. intros i Hi.
      rewrite Z.land_spec, Z.bits_0. destruct (Z.eqb_spec i 7) as [->|Hne].
      + replace flags with (flags mod 2 ^ 7) by (apply Z.mod_small; lia). by rewrite Z.mod_pow2_bits_high by lia.
      + change 128 with (2 ^ 7). by rewrite Z.pow2_bits_false, andb_false_r by lia. }
  assert (El : forall x, length (enc64 be x) = 8%nat) by (intros; by destruct be).
  set (fl := if be then _ else _) in *. set (buf := encodeHeader be flags n size ++ rest).
  assert (Hbuf : buf = 0x6c :: 0 :: fl :: enc64 be n ++ enc64 be size ++ rest)
    by (unfold buf, encodeHeader; cbn [app]; by rewrite <- app_assoc).
  assert (Hd : take 8 (drop 3 buf) = enc64 be n) by (rewrite Hbuf; change (drop 3 (_ :: _ :: _ :: ?x)) with x; by rewrite take_app_length').
  assert (Hz : take 8 (drop 11 buf) = enc64 be size).
  { rewrite Hbuf. change (drop 11 (_ :: _ :: _ :: ?x)) with (drop 8 x).
    by rewrite drop_app_length', take_app_length'. }
  unfold parseNvlistHeader. destruct (Z.ltb_spec (size_z buf) (Z.of_nat kNvlistHeaderSize)) as [Hl|_].
  { rewrite Hbuf in Hl. unfold size_z in Hl. cbn [length] in Hl. rewrite !length_app, !El in Hl. unfold kNvlistHeaderSize in Hl. lia. }
  replace (byteAt buf 0) with 0x6c by (by rewrite Hbuf). replace (byteAt buf 1) with 0 by (by rewrite Hbuf).
  replace (byteAt buf 2) with fl by (by rewrite Hbuf). rewrite Hbe, Hd, Hz, !rd64_enc64 by done.
  eexists. split; [reflexivity|]. cbn [bigEndian descriptors nv_size]. do 3 (split; [done|]).
  unfold checkNvlistHeaderLimits. cbn [descriptors nv_size]. unfold kMaxNvlistRequestBytes, kMaxNvlistRequestDescriptors.
  destruct (Z.ltb_spec (2 ^ 20) size); [split; [done|lia]|]. destruct (Z.ltb_spec 3 n); [split; [done|lia]|].
  split; [|done]. lia.
Qed.

Lemma nvlist_header_checked_witness :
  exists h, parseNvlistHeader (encodeHeader true 1 3 70000 ++ [1; 2]) = inr h
    /\ bigEndian h = true /\ descriptors h = 3 /\ nv_size h = 70000
    /\ (checkNvlistHeaderLimits h = [] <-> 70000 <= 1048576 /\ 3 <= 3).
Proof. apply nvlist_header_checked; lia. Defined.


End PrivOpsNv.
