(* ===== verification/Client.v ===== *)
(** * The privops client: lib/privops_client_pure.cpp

    One builder per verb turns a request into the fields sent over libnv.  The
    theorem is that the daemon's parser (PrivOpsNv.v) gives the request back.
    The socket and libnv are not modelled. *)

From S2P Require Import Prelude PrivOps PrivOpsNv.

Module Client.
Import PrivOps PrivOpsNv.

(** ** Text forms *)

(** [toString(long)]: digits of the magnitude, then the sign. *)
Definition toStringLong (n : Z) : bytes :=
  if n =? 0 then str "0"
  else
    let neg := n <? 0 in
    let m := u64 (if neg then - n else n) in
    (if neg then ["-"%char] else []) ++ dec_loop (dec_fuel m) m [].

Definition toStringUnsigned (u : Z) : bytes :=
  if u =? 0 then str "0" else dec_loop (dec_fuel u) u [].

Definition boolText (b : bool) : bytes := if b then str "true" else str "false".

(** A braced initializer of the map. *)
Definition fields (l : list (string * bytes)) : FieldMap :=
  list_to_map (map (fun kv => (str (fst kv), snd kv)) l).

(** ** Where the socket is: the environment, then the default path *)

Definition defaultSocket : bytes := str "/var/run/crate/crated-privops.sock".

Definition detectSocketPath (env : option bytes) (isSocket : bytes -> bool) : bytes :=
  match env with
  | Some (_ :: _ as e) => e
  | _ => if isSocket defaultSocket then defaultSocket else []
  end.

(** ** Builders *)

Definition buildSetRctl (jid : Z) (key rawValue : bytes) : FieldMap :=
  fields [("verb", str "set_rctl"); ("jid", toStringLong jid); ("key", key); ("value", rawValue)]%string.

Definition buildClearRctl (jid : Z) (key : bytes) : FieldMap :=
  fields [("verb", str "clear_rctl"); ("jid", toStringLong jid); ("key", key)]%string.

Definition buildAttachZfs (jid : Z) (dataset : bytes) : FieldMap :=
  fields [("verb", str "attach_zfs"); ("jid", toStringLong jid); ("dataset", dataset)]%string.

Definition buildDetachZfs (jid : Z) (dataset : bytes) : FieldMap :=
  fields [("verb", str "detach_zfs"); ("jid", toStringLong jid); ("dataset", dataset)]%string.

Definition buildMountNullfs (source target : bytes) (readOnly : bool) : FieldMap :=
  fields [("verb", str "mount_nullfs"); ("source", source); ("target", target); ("read_only", boolText readOnly)]%string.

Definition buildUnmountNullfs (target : bytes) (force : bool) : FieldMap :=
  fields [("verb", str "unmount_nullfs"); ("target", target); ("force", boolText force)]%string.

Definition buildConfigureIface (jid : Z) (ifname bridge ipv4Cidr ipv6Cidr macAddr : bytes) : FieldMap :=
  fields [("verb", str "configure_iface"); ("jid", toStringLong jid); ("ifname", ifname); ("bridge", bridge); ("ipv4_cidr", ipv4Cidr); ("ipv6_cidr", ipv6Cidr); ("mac_addr", macAddr)]%string.

Definition buildTeardownIface (ifname : bytes) : FieldMap :=
  fields [("verb", str "teardown_iface"); ("ifname", ifname)]%string.

Definition buildAddPfRule (anchor ruleText : bytes) : FieldMap :=
  fields [("verb", str "add_pf_rule"); ("anchor", anchor); ("rule", ruleText)]%string.

Definition buildRemovePfRule (anchor ruleText : bytes) : FieldMap :=
  fields [("verb", str "remove_pf_rule"); ("anchor", anchor); ("rule", ruleText)]%string.

Definition buildAddIpfwRule (set_ number : Z) (action body : bytes) : FieldMap :=
  fields [("verb", str "add_ipfw_rule"); ("set", toStringUnsigned set_); ("number", toStringUnsigned number); ("action", action); ("body", body)]%string.

Definition buildRemoveIpfwRule (set_ number : Z) : FieldMap :=
  fields [("verb", str "remove_ipfw_rule"); ("set", toStringUnsigned set_); ("number", toStringUnsigned number)]%string.

Definition buildCreateJail (name path hostname : bytes) (vnet : bool) (parameters : bytes) : FieldMap :=
  fields [("verb", str "create_jail"); ("name", name); ("path", path); ("hostname", hostname); ("vnet", boolText vnet); ("parameters", parameters)]%string.

Definition buildDestroyJail (name : bytes) (force : bool) : FieldMap :=
  fields [("verb", str "destroy_jail"); ("name", name); ("force", boolText force)]%string.

Definition buildSetIfaceUp (ifname : bytes) : FieldMap :=
  fields [("verb", str "set_iface_up"); ("ifname", ifname)]%string.

Definition buildDisableIfaceOffload (ifname : bytes) : FieldMap :=
  fields [("verb", str "disable_iface_offload"); ("ifname", ifname)]%string.

Definition buildBridgeAddMember (bridge member : bytes) : FieldMap :=
  fields [("verb", str "bridge_add_member"); ("bridge", bridge); ("member", member)]%string.

Definition buildBridgeDelMember (bridge member : bytes) : FieldMap :=
  fields [("verb", str "bridge_del_member"); ("bridge", bridge); ("member", member)]%string.

Definition buildSetLoginclassRctl (loginclass key rawValue : bytes) : FieldMap :=
  fields [("verb", str "set_loginclass_rctl"); ("loginclass", loginclass); ("key", key); ("value", rawValue)]%string.

Definition buildClearLoginclassRctl (loginclass key : bytes) : FieldMap :=
  fields [("verb", str "clear_loginclass_rctl"); ("loginclass", loginclass); ("key", key)]%string.

Definition buildReclaimIfaceFromVnet (ifname jailName : bytes) : FieldMap :=
  fields [("verb", str "reclaim_iface_from_vnet"); ("ifname", ifname); ("jail_name", jailName)]%string.

Definition buildFlushPfAnchor (anchor : bytes) : FieldMap :=
  fields [("verb", str "flush_pf_anchor"); ("anchor", anchor)]%string.

Definition buildSetIfaceMac (ifname mac : bytes) : FieldMap :=
  fields [("verb", str "set_iface_mac"); ("ifname", ifname); ("mac", mac)]%string.

Definition buildDeleteIpfwNat (number : Z) : FieldMap :=
  fields [("verb", str "delete_ipfw_nat"); ("number", dec number)]%string.

Definition buildCreateBridge (name : bytes) : FieldMap :=
  fields [("verb", str "create_bridge"); ("name", name)]%string.

Definition buildReleaseFwLease (jid : Z) : FieldMap :=
  fields [("verb", str "release_fw_lease"); ("jid", toStringUnsigned jid)]%string.

Definition buildConfigureIpfwNat (number : Z) (config : bytes) : FieldMap :=
  fields [("verb", str "configure_ipfw_nat"); ("number", dec number); ("config", config)]%string.

Definition buildSetJailCpuset (jid : Z) (cpuset : bytes) : FieldMap :=
  fields [("verb", str "set_jail_cpuset"); ("jid", dec jid); ("cpuset", cpuset)]%string.

Definition buildApplyDevfsRuleset (mountPath : bytes) (ruleset : Z) : FieldMap :=
  fields [("verb", str "apply_devfs_ruleset"); ("mount_path", mountPath); ("ruleset", dec ruleset)]%string.

Definition buildAddDevfsUnhideRule (mountPath pathPattern : bytes) : FieldMap :=
  fields [("verb", str "add_devfs_unhide_rule"); ("mount_path", mountPath); ("path_pattern", pathPattern)]%string.

Definition buildSignalJail (jid : Z) (signal : bytes) : FieldMap :=
  fields [("verb", str "signal_jail"); ("jid", dec jid); ("signal", signal)]%string.

Definition buildCreateEpair : FieldMap := fields [("verb", str "create_epair")]%string.
Definition buildEnsureUserRoot : FieldMap := fields [("verb", str "ensure_user_root")]%string.

(** Optional booleans are sent only when set. *)
Definition setIf (b : bool) (key : string) (m : FieldMap) : FieldMap :=
  if b then <[str key := str "true"]> m else m.

Definition buildSetIfaceInetAddr (ifname addr : bytes) (prefixLen : Z) (inet6 : bool) : FieldMap :=
  setIf inet6 "inet6"
    (fields [("verb", str "set_iface_inet_addr"); ("ifname", ifname); ("addr", addr);
             ("prefix_len", toStringUnsigned prefixLen)]%string).

Definition buildQueryJailRctl (jid : Z) (limits : bool) : FieldMap :=
  setIf limits "limits" (fields [("verb", str "query_jail_rctl"); ("jid", dec jid)]%string).

Definition buildAcquireFwLease (jid : Z) (slot fwd4 fwd6 : bool) : FieldMap :=
  setIf fwd6 "fwd6" (setIf fwd4 "fwd4" (setIf slot "slot"
    (fields [("verb", str "acquire_fw_lease"); ("jid", toStringUnsigned jid)]%string))).

(** [m[prefix + to_string(i)] = l[i]], from index [i] on. *)
Fixpoint addIndexed (m : FieldMap) (prefix : bytes) (i : Z) (l : list bytes) : FieldMap :=
  match l with
  | [] => m
  | x :: t => addIndexed (<[prefix ++ dec i := x]> m) prefix (i + 1) t
  end.

Definition buildApplyDevfsRules (mountPath : bytes) (ruleset : Z) (rules : list bytes) : FieldMap :=
  addIndexed
    (fields [("verb", str "apply_devfs_rules"); ("mount_path", mountPath); ("ruleset", dec ruleset);
             ("argc", dec (size_z rules))]%string) (str "rule") 0 rules.

(** A field that is left out when empty. *)
Definition setNonEmpty (key : string) (v : bytes) (m : FieldMap) : FieldMap :=
  if is_empty v then m else <[str key := v]> m.

Definition buildExecInJail (jid : Z) (user : bytes) (argv : list bytes) (term : bytes) : FieldMap :=
  addIndexed
    (setNonEmpty "term" term (setNonEmpty "user" user
      (fields [("verb", str "exec_in_jail"); ("jid", dec jid); ("argc", dec (size_z argv))]%string)))
    (str "argv") 0 argv.

(** Parameters other than these four are not sent. *)
Definition isTmpfsParam (k : bytes) : bool :=
  beq k (str "size") || beq k (str "uid") || beq k (str "gid") || beq k (str "mode").

Definition buildMountTmpfs (target : bytes) (params : list (bytes * bytes)) : FieldMap :=
  fold_left (fun m kv => if isTmpfsParam (fst kv) then <[fst kv := snd kv]> m else m) params
    (fields [("verb", str "mount_tmpfs"); ("target", target)]%string).

(** ** All requests *)

(** One constructor per verb, with the request the daemon parses. *)
Inductive Request :=
| RqSetRctl (r : SetRctlReq)
| RqClearRctl (r : ClearRctlReq)
| RqAttachZfs (r : ZfsReq)
| RqDetachZfs (r : ZfsReq)
| RqMountNullfs (r : MountNullfsReq)
| RqUnmountNullfs (r : UnmountNullfsReq)
| RqConfigureIface (r : ConfigureIfaceReq)
| RqTeardownIface (r : IfnameReq)
| RqAddPfRule (r : PfRuleReq)
| RqRemovePfRule (r : PfRuleReq)
| RqAddIpfwRule (r : AddIpfwRuleReq)
| RqRemoveIpfwRule (r : RemoveIpfwRuleReq)
| RqCreateJail (r : CreateJailReq)
| RqDestroyJail (r : DestroyJailReq)
| RqSetIfaceUp (r : IfnameReq)
| RqDisableIfaceOffload (r : IfnameReq)
| RqBridgeAddMember (r : BridgeMemberReq)
| RqBridgeDelMember (r : BridgeMemberReq)
| RqSetLoginclassRctl (r : SetLoginclassRctlReq)
| RqClearLoginclassRctl (r : ClearLoginclassRctlReq)
| RqReclaimIfaceFromVnet (r : ReclaimIfaceReq)
| RqFlushPfAnchor (r : FlushPfAnchorReq)
| RqSetIfaceMac (r : SetIfaceMacReq)
| RqDeleteIpfwNat (r : DeleteIpfwNatReq)
| RqCreateBridge (r : CreateBridgeReq)
| RqReleaseFwLease (r : ReleaseFwLeaseReq)
| RqConfigureIpfwNat (r : ConfigureIpfwNatReq)
| RqSetJailCpuset (r : SetJailCpusetReq)
| RqApplyDevfsRuleset (r : ApplyDevfsRulesetReq)
| RqAddDevfsUnhideRule (r : AddDevfsUnhideRuleReq)
| RqSignalJail (r : SignalJailReq)
| RqSetIfaceInetAddr (r : SetIfaceInetAddrReq)
| RqQueryJailRctl (r : QueryJailRctlReq)
| RqAcquireFwLease (r : AcquireFwLeaseReq)
| RqCreateEpair
| RqEnsureUserRoot
| RqApplyDevfsRules (r : ApplyDevfsRulesReq)
| RqExecInJail (r : ExecInJailReq)
| RqMountTmpfs (r : MountTmpfsReq).

Definition verbOf (q : Request) : Verb :=
  match q with
  | RqSetRctl _ => SetRctl
  | RqClearRctl _ => ClearRctl
  | RqAttachZfs _ => AttachZfs
  | RqDetachZfs _ => DetachZfs
  | RqMountNullfs _ => MountNullfs
  | RqUnmountNullfs _ => UnmountNullfs
  | RqConfigureIface _ => ConfigureIface
  | RqTeardownIface _ => TeardownIface
  | RqAddPfRule _ => AddPfRule
  | RqRemovePfRule _ => RemovePfRule
  | RqAddIpfwRule _ => AddIpfwRule
  | RqRemoveIpfwRule _ => RemoveIpfwRule
  | RqCreateJail _ => CreateJail
  | RqDestroyJail _ => DestroyJail
  | RqSetIfaceUp _ => SetIfaceUp
  | RqDisableIfaceOffload _ => DisableIfaceOffload
  | RqBridgeAddMember _ => BridgeAddMember
  | RqBridgeDelMember _ => BridgeDelMember
  | RqSetLoginclassRctl _ => SetLoginclassRctl
  | RqClearLoginclassRctl _ => ClearLoginclassRctl
  | RqReclaimIfaceFromVnet _ => ReclaimIfaceFromVnet
  | RqFlushPfAnchor _ => FlushPfAnchor
  | RqSetIfaceMac _ => SetIfaceMac
  | RqDeleteIpfwNat _ => DeleteIpfwNat
  | RqCreateBridge _ => CreateBridge
  | RqReleaseFwLease _ => ReleaseFwLease
  | RqConfigureIpfwNat _ => ConfigureIpfwNat
  | RqSetJailCpuset _ => SetJailCpuset
  | RqApplyDevfsRuleset _ => ApplyDevfsRuleset
  | RqAddDevfsUnhideRule _ => AddDevfsUnhideRule
  | RqSignalJail _ => SignalJail
  | RqSetIfaceInetAddr _ => SetIfaceInetAddr
  | RqQueryJailRctl _ => QueryJailRctl
  | RqAcquireFwLease _ => AcquireFwLease
  | RqCreateEpair => CreateEpair
  | RqEnsureUserRoot => EnsureUserRoot
  | RqApplyDevfsRules _ => ApplyDevfsRules
  | RqExecInJail _ => ExecInJail
  | RqMountTmpfs _ => MountTmpfs
  end.

(** The parameters of a tmpfs request, absent when empty. *)
Definition tmpfsParams (r : MountTmpfsReq) : list (bytes * bytes) :=
  List.filter (fun kv => negb (is_empty (snd kv)))
    [(str "size", mt_size r); (str "uid", mt_uid r); (str "gid", mt_gid r); (str "mode", mt_mode r)].

Definition build (q : Request) : FieldMap :=
  match q with
  | RqSetRctl r => buildSetRctl (sr_jid r) (sr_key r) (sr_rawValue r)
  | RqClearRctl r => buildClearRctl (cr_jid r) (cr_key r)
  | RqAttachZfs r => buildAttachZfs (zr_jid r) (zr_dataset r)
  | RqDetachZfs r => buildDetachZfs (zr_jid r) (zr_dataset r)
  | RqMountNullfs r => buildMountNullfs (mn_source r) (mn_target r) (mn_readOnly r)
  | RqUnmountNullfs r => buildUnmountNullfs (un_target r) (un_force r)
  | RqConfigureIface r => buildConfigureIface (ci_jid r) (ci_ifname r) (ci_bridge r) (ci_ipv4Cidr r) (ci_ipv6Cidr r) (ci_macAddr r)
  | RqTeardownIface r => buildTeardownIface (if_ifname r)
  | RqAddPfRule r => buildAddPfRule (pf_anchor r) (pf_ruleText r)
  | RqRemovePfRule r => buildRemovePfRule (pf_anchor r) (pf_ruleText r)
  | RqAddIpfwRule r => buildAddIpfwRule (ai_set r) (ai_number r) (ai_action r) (ai_body r)
  | RqRemoveIpfwRule r => buildRemoveIpfwRule (ri_set r) (ri_number r)
  | RqCreateJail r => buildCreateJail (cj_name r) (cj_path r) (cj_hostname r) (cj_vnet r) (cj_parameters r)
  | RqDestroyJail r => buildDestroyJail (dj_name r) (dj_force r)
  | RqSetIfaceUp r => buildSetIfaceUp (if_ifname r)
  | RqDisableIfaceOffload r => buildDisableIfaceOffload (if_ifname r)
  | RqBridgeAddMember r => buildBridgeAddMember (bm_bridge r) (bm_member r)
  | RqBridgeDelMember r => buildBridgeDelMember (bm_bridge r) (bm_member r)
  | RqSetLoginclassRctl r => buildSetLoginclassRctl (sl_loginclass r) (sl_key r) (sl_rawValue r)
  | RqClearLoginclassRctl r => buildClearLoginclassRctl (cl_loginclass r) (cl_key r)
  | RqReclaimIfaceFromVnet r => buildReclaimIfaceFromVnet (rc_ifname r) (rc_jailName r)
  | RqFlushPfAnchor r => buildFlushPfAnchor (fa_anchor r)
  | RqSetIfaceMac r => buildSetIfaceMac (sm_ifname r) (sm_mac r)
  | RqDeleteIpfwNat r => buildDeleteIpfwNat (dn_number r)
  | RqCreateBridge r => buildCreateBridge (cb_name r)
  | RqReleaseFwLease r => buildReleaseFwLease (rf_jid r)
  | RqConfigureIpfwNat r => buildConfigureIpfwNat (cn_number r) (cn_config r)
  | RqSetJailCpuset r => buildSetJailCpuset (sc_jid r) (sc_cpuset r)
  | RqApplyDevfsRuleset r => buildApplyDevfsRuleset (ad_mountPath r) (ad_ruleset r)
  | RqAddDevfsUnhideRule r => buildAddDevfsUnhideRule (au_mountPath r) (au_pathPattern r)
  | RqSignalJail r => buildSignalJail (sj_jid r) (sj_signal r)
  | RqSetIfaceInetAddr r => buildSetIfaceInetAddr (sa_ifname r) (sa_addr r) (sa_prefixLen r) (sa_inet6 r)
  | RqQueryJailRctl r => buildQueryJailRctl (qr_jid r) (qr_limits r)
  | RqAcquireFwLease r => buildAcquireFwLease (af_jid r) (af_slot r) (af_fwd4 r) (af_fwd6 r)
  | RqCreateEpair => buildCreateEpair
  | RqEnsureUserRoot => buildEnsureUserRoot
  | RqApplyDevfsRules r => buildApplyDevfsRules (ar_mountPath r) (ar_ruleset r) (ar_rules r)
  | RqExecInJail r => buildExecInJail (ex_jid r) (ex_user r) (ex_argv r) (ex_term r)
  | RqMountTmpfs r => buildMountTmpfs (mt_target r) (tmpfsParams r)
  end.

Definition rmap {A B} (f : A -> B) (r : bytes + A) : bytes + B := match r with inl e => inl e | inr a => inr (f a) end.
Notation "f <$r> x" := (rmap f x) (at level 61, left associativity) : crate_scope.

(** What the daemon reads for a verb. *)
Definition parse (v : Verb) (m : FieldMap) : option (bytes + Request) :=
  match v with
  | Unknown => None
  | SetRctl => Some (RqSetRctl <$r> parseSetRctl m)
  | ClearRctl => Some (RqClearRctl <$r> parseClearRctl m)
  | AttachZfs => Some (RqAttachZfs <$r> parseAttachZfs m)
  | DetachZfs => Some (RqDetachZfs <$r> parseDetachZfs m)
  | MountNullfs => Some (RqMountNullfs <$r> parseMountNullfs m)
  | UnmountNullfs => Some (RqUnmountNullfs <$r> parseUnmountNullfs m)
  | ConfigureIface => Some (RqConfigureIface <$r> parseConfigureIface m)
  | TeardownIface => Some (RqTeardownIface <$r> parseTeardownIface m)
  | AddPfRule => Some (RqAddPfRule <$r> parseAddPfRule m)
  | RemovePfRule => Some (RqRemovePfRule <$r> parseRemovePfRule m)
  | AddIpfwRule => Some (RqAddIpfwRule <$r> parseAddIpfwRule m)
  | RemoveIpfwRule => Some (RqRemoveIpfwRule <$r> parseRemoveIpfwRule m)
  | CreateJail => Some (RqCreateJail <$r> parseCreateJail m)
  | DestroyJail => Some (RqDestroyJail <$r> parseDestroyJail m)
  | SetIfaceUp => Some (RqSetIfaceUp <$r> parseSetIfaceUp m)
  | DisableIfaceOffload => Some (RqDisableIfaceOffload <$r> parseDisableIfaceOffload m)
  | BridgeAddMember => Some (RqBridgeAddMember <$r> parseBridgeAddMember m)
  | BridgeDelMember => Some (RqBridgeDelMember <$r> parseBridgeDelMember m)
  | SetLoginclassRctl => Some (RqSetLoginclassRctl <$r> parseSetLoginclassRctl m)
  | ClearLoginclassRctl => Some (RqClearLoginclassRctl <$r> parseClearLoginclassRctl m)
  | ReclaimIfaceFromVnet => Some (RqReclaimIfaceFromVnet <$r> parseReclaimIfaceFromVnet m)
  | FlushPfAnchor => Some (RqFlushPfAnchor <$r> parseFlushPfAnchor m)
  | SetIfaceMac => Some (RqSetIfaceMac <$r> parseSetIfaceMac m)
  | DeleteIpfwNat => Some (RqDeleteIpfwNat <$r> parseDeleteIpfwNat m)
  | CreateBridge => Some (RqCreateBridge <$r> parseCreateBridge m)
  | ReleaseFwLease => Some (RqReleaseFwLease <$r> parseReleaseFwLease m)
  | ConfigureIpfwNat => Some (RqConfigureIpfwNat <$r> parseConfigureIpfwNat m)
  | SetJailCpuset => Some (RqSetJailCpuset <$r> parseSetJailCpuset m)
  | ApplyDevfsRuleset => Some (RqApplyDevfsRuleset <$r> parseApplyDevfsRuleset m)
  | AddDevfsUnhideRule => Some (RqAddDevfsUnhideRule <$r> parseAddDevfsUnhideRule m)
  | SignalJail => Some (RqSignalJail <$r> parseSignalJail m)
  | SetIfaceInetAddr => Some (RqSetIfaceInetAddr <$r> parseSetIfaceInetAddr m)
  | QueryJailRctl => Some (RqQueryJailRctl <$r> parseQueryJailRctl m)
  | AcquireFwLease => Some (RqAcquireFwLease <$r> parseAcquireFwLease m)
  | CreateEpair => Some (inr RqCreateEpair)
  | EnsureUserRoot => Some (inr RqEnsureUserRoot)
  | ApplyDevfsRules => Some (RqApplyDevfsRules <$r> parseApplyDevfsRules m)
  | ExecInJail => Some (RqExecInJail <$r> parseExecInJail m)
  | MountTmpfs => Some (RqMountTmpfs <$r> parseMountTmpfs m)
  end.

(** What the client's argument types hold, and the daemon's counts. *)
Definition isLong (n : Z) : Prop := - 2 ^ 63 <= n < 2 ^ 63.
Definition isUnsigned (n : Z) : Prop := 0 <= n < 2 ^ 32.

Definition inRange (q : Request) : Prop :=
  match q with
  | RqSetRctl r => isLong (sr_jid r)
  | RqClearRctl r => isLong (cr_jid r)
  | RqAttachZfs r => isLong (zr_jid r)
  | RqDetachZfs r => isLong (zr_jid r)
  | RqConfigureIface r => isLong (ci_jid r)
  | RqAddIpfwRule r => isUnsigned (ai_set r) /\ isUnsigned (ai_number r)
  | RqRemoveIpfwRule r => isUnsigned (ri_set r) /\ isUnsigned (ri_number r)
  | RqDeleteIpfwNat r => isUnsigned (dn_number r)
  | RqReleaseFwLease r => isUnsigned (rf_jid r)
  | RqConfigureIpfwNat r => isUnsigned (cn_number r)
  | RqSetJailCpuset r => isUnsigned (sc_jid r)
  | RqApplyDevfsRuleset r => isUnsigned (ad_ruleset r)
  | RqSignalJail r => isUnsigned (sj_jid r)
  | RqSetIfaceInetAddr r => isUnsigned (sa_prefixLen r)
  | RqQueryJailRctl r => isUnsigned (qr_jid r)
  | RqAcquireFwLease r => isUnsigned (af_jid r)
  | RqApplyDevfsRules r => isUnsigned (ar_ruleset r) /\ 1 <= size_z (ar_rules r) <= kApplyDevfsRulesMaxRules
  | RqExecInJail r => isUnsigned (ex_jid r) /\ 1 <= size_z (ex_argv r) <= kExecInJailMaxArgs
  | _ => True
  end.


(** * Theorems *)

(** ** Numbers *)

Lemma toStringUnsigned_dec u : 0 <= u -> toStringUnsigned u = dec u.
Proof.
  intros Hu. unfold toStringUnsigned, dec. destruct (Z.eqb_spec u 0) as [->|]; [done|].
  by destruct (Z.leb_spec u 0); [lia|].
Qed.

Lemma toStringLong_dec n : isLong n -> toStringLong n = dec_signed n.
Proof.
  unfold isLong. intros Hn. unfold toStringLong, dec_signed. destruct (Z.eqb_spec n 0) as [->|]; [done|].
  unfold u64. destruct (Z.ltb_spec n 0).
  - rewrite Z.mod_small by lia. unfold dec. by destruct (Z.leb_spec (- n) 0); [lia|].
  - rewrite Z.mod_small by lia. unfold dec. by destruct (Z.leb_spec n 0); [lia|].
Qed.

(** ** Fields *)

Fixpoint alookup (k : bytes) (l : list (string * bytes)) : option bytes :=
  match l with
  | [] => None
  | (s, v) :: t => if beq (str s) k then Some v else alookup k t
  end.

Lemma fields_lookup l k : fields l !! k = alookup k l.
Proof.
  unfold fields. induction l as [|[s v] l IH]; [apply lookup_empty|]. cbn [map list_to_map fst snd alookup].
  destruct (beq (str s) k) eqn:E.
  - apply beq_eq in E as <-. apply lookup_insert_eq.
  - apply beq_neq in E. rewrite <- IH. by apply lookup_insert_ne.
Qed.

Lemma insert_fields k v l : <[str k := v]> (fields l) = fields ((k, v) :: l).
Proof. done. Qed.

Lemma setIf_fields b k l : setIf b k (fields l) = fields ((if b then [(k, str "true")] else []) ++ l).
Proof. by destruct b. Qed.

Lemma setNonEmpty_fields k v l : setNonEmpty k v (fields l) = fields ((if is_empty v then [] else [(k, v)]) ++ l).
Proof. unfold setNonEmpty. by destruct (is_empty v). Qed.

Lemma reqS m k v : m !! k = Some v -> requireString m k = inr v.
Proof. unfold requireString. by intros ->. Qed.

Lemma dec_signed_shape n :
  exists c t, dec_signed n = c :: t /\ (Ascii.eqb c "-" && is_empty t) = false /\
    all_digits (if Ascii.eqb c "-" then t else dec_signed n) = true.
Proof.
  unfold dec_signed. destruct (Z.ltb_spec n 0).
  - exists "-"%char, (dec (- n)). split; [done|]. change (Ascii.eqb "-" "-") with true. pose proof (dec_nonempty (- n)).
    split; [by destruct (dec (- n))|apply dec_digits].
  - pose proof (dec_nonempty n). pose proof (dec_digits n) as Hd. destruct (dec n) as [|c t] eqn:E; [done|].
    exists c, t. split; [done|]. assert (Ascii.eqb c "-" = false) as ->; [|done].
    unfold all_digits in Hd. cbn [forallb] in Hd. apply andb_true_iff in Hd as [Hc _].
    destruct (Ascii.eqb_spec c "-") as [->|]; done.
Qed.

Lemma strtol_dec n : isLong n -> strtol (dec_signed n) = n.
Proof.
  unfold isLong. intros Hn. unfold dec_signed. destruct (Z.ltb_spec n 0).
  - change (strtol ("-"%char :: dec (- n))) with (Z.max long_min (- dec_value (dec (- n)))).
    rewrite dec_value_dec by lia. unfold long_min. lia.
  - pose proof (dec_digits n) as Hd. pose proof (dec_nonempty n). destruct (dec n) as [|c t] eqn:E; [done|].
    unfold strtol. unfold all_digits in Hd. cbn [forallb] in Hd. apply andb_true_iff in Hd as [Hc _].
    destruct (Ascii.eqb_spec c "-") as [->|]; [done|]. rewrite <- E, dec_value_dec by lia. unfold long_max. lia.
Qed.

Lemma reqL_signed m k n : m !! k = Some (dec_signed n) -> isLong n -> requireLong m k = inr n.
Proof.
  intros Hm Hn. unfold requireLong. rewrite Hm. destruct (dec_signed_shape n) as (c & t & E & H1 & H2).
  rewrite E in *. rewrite H1, H2. cbn [negb]. rewrite <- E. by rewrite strtol_dec.
Qed.

Lemma reqL m k n : m !! k = Some (toStringLong n) -> isLong n -> requireLong m k = inr n.
Proof. intros Hm Hn. rewrite toStringLong_dec in Hm by done. by apply reqL_signed. Qed.

Lemma reqU m k n : m !! k = Some (dec n) -> isUnsigned n -> requireUnsigned m k = inr n.
Proof.
  unfold isUnsigned. intros Hm Hn. unfold requireUnsigned. rewrite (reqL_signed m k n).
  - change (inr n ≫= ?f) with (f n). cbv beta. destruct (Z.ltb_spec n 0); [lia|].
    by destruct (Z.ltb_spec 0xFFFFFFFF n); [lia|].
  - rewrite Hm. unfold dec_signed. by destruct (Z.ltb_spec n 0); [lia|].
  - unfold isLong. lia.
Qed.

Lemma reqU' m k n : m !! k = Some (toStringUnsigned n) -> isUnsigned n -> requireUnsigned m k = inr n.
Proof. intros Hm Hn. rewrite toStringUnsigned_dec in Hm by (unfold isUnsigned in Hn; lia). by apply reqU. Qed.

Lemma optB m k b d : m !! k = Some (boolText b) -> optionalBool m k d = inr b.
Proof. unfold optionalBool. intros ->. by destruct b. Qed.

Lemma optB_set m k (b : bool) : m !! k = (if b then Some (str "true") else None) -> optionalBool m k false = inr b.
Proof. unfold optionalBool. intros ->. by destruct b. Qed.

Lemma optS m k v d : m !! k = Some v -> optionalString m k d = inr v.
Proof. unfold optionalString. by intros ->. Qed.

Lemma optS_ne m k v : m !! k = (if is_empty v then None else Some v) -> optionalString m k [] = inr v.
Proof. unfold optionalString. intros ->. by destruct v. Qed.

(** ** Indexed fields *)

Lemma addIndexed_other m p i l k : (forall j, k <> p ++ dec j) -> addIndexed m p i l !! k = m !! k.
Proof.
  intros Hk. revert m i. induction l as [|x l IH]; intros m i; [done|]. cbn [addIndexed].
  rewrite IH. apply lookup_insert_ne. intros E. by apply (Hk i).
Qed.

Lemma addIndexed_before m p i l j :
  0 <= j < i -> addIndexed m p i l !! (p ++ dec j) = m !! (p ++ dec j).
Proof.
  revert m i. induction l as [|x l IH]; intros m i Hj; [done|]. cbn [addIndexed].
  rewrite IH by lia. apply lookup_insert_ne. intros E%app_inv_head%dec_inj; lia.
Qed.

Lemma requireIndexed_ok l m0 p i m :
  0 <= i -> m = addIndexed m0 p i l -> requireIndexed m p (length l) i = inr l.
Proof.
  revert m0 i. induction l as [|x l IH]; intros m0 i Hi Hm; [done|]. cbn [length requireIndexed].
  rewrite (reqS _ _ x).
  - change (inr x ≫= ?f) with (f x). cbv beta. cbn [addIndexed] in Hm. rewrite (IH _ (i + 1)) by (lia || done). done.
  - rewrite Hm. cbn [addIndexed]. rewrite addIndexed_before by lia. apply lookup_insert_eq.
Qed.

Lemma requireCounted_ok m0 p l limit :
  (forall j, str "argc" <> p ++ dec j) -> m0 !! str "argc" = Some (dec (size_z l)) ->
  1 <= size_z l <= limit -> limit < 2 ^ 32 -> requireCounted (addIndexed m0 p 0 l) p limit = inr l.
Proof.
  intros Hp Hm Hl Hlim. unfold requireCounted. rewrite (reqU _ _ (size_z l)).
  - change (inr (size_z l) ≫= ?f) with (f (size_z l)). cbv beta.
    destruct (Z.eqb_spec (size_z l) 0); [lia|]. destruct (Z.ltb_spec limit (size_z l)); [lia|].
    unfold size_z. rewrite Nat2Z.id. by eapply requireIndexed_ok.
  - by rewrite addIndexed_other.
  - unfold isUnsigned. lia.
Qed.

(** A key that no indexed field can be: it differs before the digits. *)
Lemma not_indexed k p j : starts_with p k = false -> k <> p ++ dec j.
Proof. intros H ->. by rewrite starts_with_app in H. Qed.

(** ** Round trip *)

Ltac look := rewrite ?insert_fields, ?setIf_fields, ?setNonEmpty_fields, ?fields_lookup; try reflexivity.
Ltac bind1 := match goal with |- context [mbind ?f (inr ?a)] => change (mbind f (inr a)) with (f a); cbv beta end.
Ltac read :=
  first
    [ erewrite reqS by look
    | erewrite reqL by first [assumption|look]
    | erewrite reqU by first [assumption|look]
    | erewrite reqU' by first [assumption|look]
    | erewrite optB by look
    | erewrite optB_set by look
    | erewrite optS by look ].

Lemma rmap_inr {A B} (f : A -> B) a (r : bytes + A) : r = inr a -> f <$r> r = inr (f a).
Proof. by intros ->. Qed.

Lemma parse_mount_tmpfs r : parseMountTmpfs (buildMountTmpfs (mt_target r) (tmpfsParams r)) = inr r.
Proof.
  destruct r as [target size uid gid mode]. unfold parseMountTmpfs, tmpfsParams. cbn [mt_target mt_size mt_uid mt_gid mt_mode].
  assert (E : buildMountTmpfs target (List.filter (fun kv => negb (is_empty (snd kv)))
      [(str "size", size); (str "uid", uid); (str "gid", gid); (str "mode", mode)])
    = setNonEmpty "mode" mode (setNonEmpty "gid" gid (setNonEmpty "uid" uid (setNonEmpty "size" size
        (fields [("verb", str "mount_tmpfs"); ("target", target)]%string))))).
  { by destruct size, uid, gid, mode. }
  rewrite E, !setNonEmpty_fields. clear E. rewrite (reqS _ (str "target") target) by (rewrite fields_lookup; by destruct size, uid, gid, mode). bind1.
  rewrite (optS_ne _ (str "size") size) by (rewrite fields_lookup; by destruct size, uid, gid, mode). bind1.
  rewrite (optS_ne _ (str "uid") uid) by (rewrite fields_lookup; by destruct size, uid, gid, mode). bind1.
  rewrite (optS_ne _ (str "gid") gid) by (rewrite fields_lookup; by destruct size, uid, gid, mode). bind1.
  rewrite (optS_ne _ (str "mode") mode) by (rewrite fields_lookup; by destruct size, uid, gid, mode). bind1. done.
Qed.

Lemma parse_exec r :
  isUnsigned (ex_jid r) -> 1 <= size_z (ex_argv r) <= kExecInJailMaxArgs ->
  parseExecInJail (buildExecInJail (ex_jid r) (ex_user r) (ex_argv r) (ex_term r)) = inr r.
Proof.
  destruct r as [jid user argv term]. cbn [ex_jid ex_argv ex_user ex_term]. intros Hj Ha.
  unfold parseExecInJail, buildExecInJail. rewrite !setNonEmpty_fields.
  set (m := fields _).
  assert (Hother : forall k, starts_with (str "argv") k = false -> addIndexed m (str "argv") 0 argv !! k = m !! k).
  { intros k Hk. apply addIndexed_other. intros j. by apply not_indexed. }
  assert (Hm : forall k, m !! k = alookup k ((if is_empty term then [] else [("term"%string, term)]) ++
    (if is_empty user then [] else [("user"%string, user)]) ++
    [("verb", str "exec_in_jail"); ("jid", dec jid); ("argc", dec (size_z argv))]%string)) by (intros; apply fields_lookup).
  erewrite (reqU _ (str "jid")); [|rewrite Hother, Hm by done; by destruct (is_empty term), (is_empty user)|done]. bind1.
  rewrite (optS_ne _ (str "user") user) by (rewrite Hother, Hm by done; by destruct term, user). bind1.
  rewrite (optS_ne _ (str "term") term) by (rewrite Hother, Hm by done; by destruct term, user). bind1.
  erewrite requireCounted_ok; [done|by intros j; apply not_indexed| |done|done].
  rewrite Hm. by destruct (is_empty term), (is_empty user).
Qed.

Lemma parse_devfs_rules r :
  isUnsigned (ar_ruleset r) -> 1 <= size_z (ar_rules r) <= kApplyDevfsRulesMaxRules ->
  parseApplyDevfsRules (buildApplyDevfsRules (ar_mountPath r) (ar_ruleset r) (ar_rules r)) = inr r.
Proof.
  destruct r as [mp rs rules]. cbn [ar_mountPath ar_ruleset ar_rules]. intros Hr Hl.
  unfold parseApplyDevfsRules, buildApplyDevfsRules. set (m := fields _).
  assert (Hother : forall k, (forall j, k <> str "rule" ++ dec j) -> addIndexed m (str "rule") 0 rules !! k = m !! k).
  { intros k Hk. by apply addIndexed_other. }
  assert (Hset : forall j, str "ruleset" <> str "rule" ++ dec j).
  { intros j E. assert (In "s"%char (dec j)) as Hin.
    { change (str "ruleset") with (str "rule" ++ str "set") in E. apply app_inv_head in E. rewrite <- E. by left. }
    by apply dec_not_In in Hin. }
  erewrite (reqS _ (str "mount_path")) by (rewrite Hother by (intros; by apply not_indexed); unfold m; by rewrite fields_lookup). bind1.
  erewrite (reqU _ (str "ruleset")); [|rewrite Hother by done; unfold m; by rewrite fields_lookup|done]. bind1.
  erewrite requireCounted_ok; [done|by intros j; apply not_indexed| |done|done].
  unfold m. by rewrite fields_lookup.
Qed.

Create HintDb client.
#[local] Hint Unfold parseSetRctl buildSetRctl parseClearRctl buildClearRctl parseAttachZfs buildAttachZfs parseDetachZfs buildDetachZfs parseMountNullfs buildMountNullfs parseUnmountNullfs buildUnmountNullfs parseConfigureIface buildConfigureIface parseTeardownIface buildTeardownIface parseAddPfRule buildAddPfRule parseRemovePfRule buildRemovePfRule parseAddIpfwRule buildAddIpfwRule parseRemoveIpfwRule buildRemoveIpfwRule parseCreateJail buildCreateJail parseDestroyJail buildDestroyJail parseSetIfaceUp buildSetIfaceUp parseDisableIfaceOffload buildDisableIfaceOffload parseBridgeAddMember buildBridgeAddMember parseBridgeDelMember buildBridgeDelMember parseSetLoginclassRctl buildSetLoginclassRctl parseClearLoginclassRctl buildClearLoginclassRctl parseReclaimIfaceFromVnet buildReclaimIfaceFromVnet parseFlushPfAnchor buildFlushPfAnchor parseSetIfaceMac buildSetIfaceMac parseDeleteIpfwNat buildDeleteIpfwNat parseCreateBridge buildCreateBridge parseReleaseFwLease buildReleaseFwLease parseConfigureIpfwNat buildConfigureIpfwNat parseSetJailCpuset buildSetJailCpuset parseApplyDevfsRuleset buildApplyDevfsRuleset parseAddDevfsUnhideRule buildAddDevfsUnhideRule parseSignalJail buildSignalJail
  parseIfname parsePfRule parseBridgeMember buildCreateEpair buildEnsureUserRoot : client.

Lemma client_parse q : inRange q -> parse (verbOf q) (build q) = Some (inr q).
Proof.
  destruct q as [r|r|r|r|r|r|r|r|r|r|r|r|r|r|r|r|r|r|r|r|r|r|r|r|r|r|r|r|r|r|r|r|r|r| | |r|r|r];
    cbn [inRange verbOf parse build]; intros Hr; f_equal; try (apply rmap_inr); try done.
  32:{ destruct r as [ifname addr plen inet6]. cbn in *. unfold parseSetIfaceInetAddr, buildSetIfaceInetAddr.
       rewrite (reqS _ (str "ifname") ifname) by (look; by destruct inet6). bind1.
       erewrite (optB_set _ (str "inet6") inet6) by (look; by destruct inet6). bind1.
       rewrite (reqS _ (str "addr") addr) by (look; by destruct inet6). bind1.
       erewrite (reqU' _ _ plen) by (first [done|look; by destruct inet6]). bind1. done. }
  32:{ destruct r as [jid limits]. cbn in *. unfold parseQueryJailRctl, buildQueryJailRctl.
       erewrite (reqU _ _ jid) by (first [done|look; by destruct limits]). bind1.
       erewrite (optB_set _ (str "limits") limits) by (look; by destruct limits). bind1. done. }
  32:{ destruct r as [jid slot fwd4 fwd6]. cbn in *. unfold parseAcquireFwLease, buildAcquireFwLease.
       erewrite (reqU' _ _ jid) by (first [done|look; by destruct slot, fwd4, fwd6]). bind1.
       erewrite (optB_set _ (str "slot") slot) by (look; by destruct slot, fwd4, fwd6). bind1.
       erewrite (optB_set _ (str "fwd4") fwd4) by (look; by destruct slot, fwd4, fwd6). bind1.
       erewrite (optB_set _ (str "fwd6") fwd6) by (look; by destruct slot, fwd4, fwd6). bind1. done. }
  32: apply parse_devfs_rules; tauto.
  32: apply parse_exec; tauto.
  32: apply parse_mount_tmpfs.
  all: destruct r; cbn in Hr |- *; repeat match goal with H : _ /\ _ |- _ => destruct H end.
  all: autounfold with client; repeat read; reflexivity.
Qed.


Lemma client_verb q : exists name, build q !! str "verb" = Some name /\ parseVerb name = verbOf q.
Proof.
  exists (verbName (verbOf q)). split; [|by destruct q].
  destruct q; cbn [build verbOf]; try (autounfold with client; rewrite fields_lookup; reflexivity).
  - unfold buildSetIfaceInetAddr. rewrite setIf_fields, fields_lookup. by destruct (sa_inet6 r).
  - unfold buildQueryJailRctl. rewrite setIf_fields, fields_lookup. by destruct (qr_limits r).
  - unfold buildAcquireFwLease. rewrite !setIf_fields, fields_lookup. by destruct (af_slot r), (af_fwd4 r), (af_fwd6 r).
  - unfold buildApplyDevfsRules. rewrite addIndexed_other by (intros; by apply not_indexed). by rewrite fields_lookup.
  - unfold buildExecInJail. rewrite addIndexed_other by (intros; by apply not_indexed).
    rewrite !setNonEmpty_fields, fields_lookup. by destruct (ex_term r), (ex_user r).
  - destruct r as [target size uid gid mode]. unfold buildMountTmpfs, tmpfsParams. cbn [mt_target mt_size mt_uid mt_gid mt_mode].
    by destruct size, uid, gid, mode.
Qed.

(** C33: Client and daemon agree on the wire format of every verb: the fields the
    client builds carry the verb's name, and the daemon's parser for that verb
    gives back exactly the request the client was asked to send.  The request ranges
    over the daemon's types, with the jids, numbers and rulesets within their
    C types, 1 to 256 arguments for exec_in_jail and 1 to 128 rules for
    apply_devfs_rules; what a client's builder takes beyond those types (further options of
    a tmpfs mount) is not sent. *)
Theorem client_roundtrip q :
  inRange q ->
  exists name, build q !! str "verb" = Some name /\ parseVerb name = verbOf q /\
    parse (verbOf q) (build q) = Some (inr q).
Proof.
  intros Hq. destruct (client_verb q) as (name & H1 & H2). exists name. split; [done|]. split; [done|].
  by apply client_parse.
Qed.

Definition sampleExec : Request :=
  RqExecInJail {| ex_jid := 7; ex_user := str "www"; ex_argv := [str "/bin/ls"; str "-l"]; ex_term := [] |}.

Lemma client_roundtrip_witness : parse ExecInJail (build sampleExec) = Some (inr sampleExec).
Proof.
  destruct (client_roundtrip sampleExec) as (name & _ & _ & H); [|exact H].
  split; [split; reflexivity || discriminate|vm_compute; split; discriminate].
Defined.

(** An empty argument list is built but refused by the daemon. *)
Lemma empty_argv_refused jid :
  isUnsigned jid ->
  parse ExecInJail (build (RqExecInJail {| ex_jid := jid; ex_user := []; ex_argv := []; ex_term := [] |}))
  = Some (inl (str "field 'argc' must be >= 1")).
Proof.
  intros Hj. cbn [parse build ex_jid ex_user ex_argv ex_term]. unfold parseExecInJail, buildExecInJail.
  cbn [addIndexed setNonEmpty is_empty].
  rewrite (reqU _ (str "jid") jid) by (done || by rewrite fields_lookup). reflexivity.
Qed.

End Client.
