(* ===== verification/Wire.v ===== *)
(** * JSON requests and replies: lib/json_pure.cpp, privops_wire_pure.cpp *)

From S2P Require Import Prelude PrivOpsNv PrivOps.

(** ** JSON strings, integers and booleans

    lib/json_pure.cpp (the escaper) and the decoders at the top of
    lib/privops_wire_pure.cpp.  A position in the body is the suffix of the
    body that starts there. *)


Module Json.

Definition backslash : ascii := chr 92.

(** A byte as [\u%04x] prints it. *)
Definition hexDigit (d : Z) : ascii := if d <? 10 then chr (48 + d) else chr (87 + d).
Definition hex4 (n : Z) : bytes :=
  [hexDigit (n / 4096 mod 16); hexDigit (n / 256 mod 16); hexDigit (n / 16 mod 16); hexDigit (n mod 16)].

Definition escapeChar (c : ascii) : bytes :=
  let n := code c in
  if n =? 34 then [backslash; dquote]
  else if n =? 92 then [backslash; backslash]
  else if n =? 8 then [backslash; "b"%char]
  else if n =? 12 then [backslash; "f"%char]
  else if n =? 10 then [backslash; "n"%char]
  else if n =? 13 then [backslash; "r"%char]
  else if n =? 9 then [backslash; "t"%char]
  else if n <? 0x20 then backslash :: "u"%char :: hex4 n
  else [c].

Definition escape (s : bytes) : bytes := concat (map escapeChar s).

Definition quote (s : bytes) : bytes := dquote :: escape s ++ [dquote].

(** ** Decoding *)

Definition hexVal (c : ascii) : option Z :=
  let n := code c in
  if (48 <=? n) && (n <=? 57) then Some (n - 48)
  else if (97 <=? n) && (n <=? 102) then Some (n - 97 + 10)
  else if (65 <=? n) && (n <=? 70) then Some (n - 65 + 10)
  else None.

Definition hexVal4 (a b c d : ascii) : option Z :=
  match hexVal a, hexVal b, hexVal c, hexVal d with
  | Some a, Some b, Some c, Some d => Some (((a * 16 + b) * 16 + c) * 16 + d)
  | _, _, _, _ => None
  end.

(** A BMP code point in UTF-8. *)
Definition utf8 (cp : Z) : bytes :=
  if cp <? 0x80 then [chr cp]
  else if cp <? 0x800 then [chr (Z.lor 0xC0 (Z.shiftr cp 6)); chr (Z.lor 0x80 (Z.land cp 0x3F))]
  else [chr (Z.lor 0xE0 (Z.shiftr cp 12)); chr (Z.lor 0x80 (Z.land (Z.shiftr cp 6) 0x3F));
        chr (Z.lor 0x80 (Z.land cp 0x3F))].

(** The byte a two-byte escape stands for; an unknown one is kept. *)
Definition unescape (e : ascii) : ascii :=
  if Ascii.eqb e "n" then newline else if Ascii.eqb e "r" then cr
  else if Ascii.eqb e "t" then tab else if Ascii.eqb e "b" then chr 8
  else if Ascii.eqb e "f" then chr 12 else e.

(** The text after the opening quote: what was decoded (also on failure, where
    the caller's string keeps it) and the rest after the closing quote. *)
Fixpoint decodeString (out s : bytes) : bytes * option bytes :=
  match s with
  | [] => (out, None)
  | c :: t =>
      if Ascii.eqb c dquote then (out, Some t)
      else if Ascii.eqb c backslash then
        match t with
        | [] => (out ++ [c], None)
        | e :: t' =>
            if Ascii.eqb e "u" then
              match t' with
              | h1 :: h2 :: h3 :: h4 :: t'' =>
                  match hexVal4 h1 h2 h3 h4 with
                  | Some cp => decodeString (out ++ utf8 cp) t''
                  | None => decodeString (out ++ [e]) t'
                  end
              | _ => decodeString (out ++ [e]) t'
              end
            else decodeString (out ++ [unescape e]) t'
        end
      else decodeString (out ++ [c]) t
  end.

Fixpoint spanDigits (s : bytes) : bytes * bytes :=
  match s with
  | c :: t => if is_digit c then let '(d, r) := spanDigits t in (c :: d, r) else ([], s)
  | [] => ([], [])
  end.

Definition jsonWs (c : ascii) : bool :=
  Ascii.eqb c " " || Ascii.eqb c tab || Ascii.eqb c newline || Ascii.eqb c cr.

(** A signed integer token, ended by white space, [,], a closing bracket or the
    end of the body. *)
Definition decodeJsonInteger (s : bytes) : option Z :=
  let '(neg, t) := match s with
                   | c :: t => if Ascii.eqb c "-" then (true, t) else (false, s)
                   | [] => (false, s)
                   end in
  let '(digits, rest) := spanDigits t in
  if is_empty digits then None
  else if match rest with
          | [] => false
          | c :: _ => negb (jsonWs c || Ascii.eqb c "," || Ascii.eqb c "}" || Ascii.eqb c "]")
          end
  then None
  else Some (PrivOpsNv.strtol (if neg then "-"%char :: digits else digits)).

Definition decodeJsonBool (s : bytes) : option bool :=
  if starts_with (str "true") s then Some true
  else if starts_with (str "false") s then Some false
  else None.

(** ** Round trip *)

Lemma decode_escapeChar out c t :
  decodeString out (escapeChar c ++ t) = decodeString (out ++ [c]) t.
Proof. destruct c as [[] [] [] [] [] [] [] []]; reflexivity. Qed.

Lemma decode_escape out s t :
  decodeString out (escape s ++ dquote :: t) = (out ++ s, Some t).
Proof.
  unfold escape. revert out. induction s as [|c s IH]; intros out; cbn [map concat app].
  { cbn. by rewrite app_nil_r. }
  rewrite <- app_assoc, decode_escapeChar, IH. by rewrite <- app_assoc.
Qed.

(** An escaped string has no bare quote, so it cannot end its field early. *)
Lemma escape_plain s : Forall (fun c => 32 <= code c /\ c <> dquote /\ c <> backslash) s -> escape s = s.
Proof.
  unfold escape. induction 1 as [|c s (Hc & Hq & Hb) _ IH]; [done|]. cbn [map concat]. rewrite IH.
  assert (E : escapeChar c = [c]); [|by rewrite E].
  assert (Hn : code c <> 34 /\ code c <> 92).
  { split; intros E; [apply Hq|apply Hb]; apply code_inj; by rewrite E. }
  unfold escapeChar. repeat (rewrite (proj2 (Z.eqb_neq _ _)) by lia).
  by rewrite (proj2 (Z.ltb_ge _ _)) by lia.
Qed.


(** Every byte string survives JSON: what [escape] writes between two
    quotes, the privops decoder reads back, stopping at the closing quote, for
    all bytes (control characters, quotes and backslashes included). *)
Theorem json_string_roundtrip (s rest : bytes) :
  exists tail, quote s ++ rest = dquote :: tail /\ decodeString [] tail = (s, Some rest).
Proof.
  exists (escape s ++ dquote :: rest). split; [unfold quote; cbn; by rewrite <- app_assoc|]. by rewrite decode_escape.
Qed.

End Json.

(** ** Privops requests and replies in JSON: lib/privops_wire_pure.cpp

    The HTTP transport's field extractors and per-verb parsers, the reply
    bodies both transports send, and the parse-validate-501 table. *)


Module Wire.
Import PrivOps.

(** ** Locating a field *)

Inductive LocateResult := LAbsent | LAfterColon (rest : bytes) | LMalformed.

Fixpoint skipWs (s : bytes) : bytes :=
  match s with c :: t => if Json.jsonWs c then skipWs t else s | [] => [] end.

Definition needle (fieldName : bytes) : bytes := dquote :: fieldName ++ [dquote].

(** The first occurrence of the quoted name, wherever it is in the body. *)
Definition locateField (body fieldName : bytes) : LocateResult :=
  match find_sub (needle fieldName) body with
  | None => LAbsent
  | Some k =>
      match skipWs (drop (k + length (needle fieldName)) body) with
      | c :: t => if Ascii.eqb c ":" then LAfterColon (skipWs t) else LMalformed
      | [] => LMalformed
      end
  end.

(** ** Extractors: absent (""), an error, or present ("PRESENT") *)

Inductive Status := Absent | Bad (e : bytes) | Present.

Definition fieldErr (fieldName what : bytes) : bytes := str "field '" ++ fieldName ++ str "' " ++ what.

(** The status and what [out] holds afterwards. *)
Definition extractStringField (body fieldName out : bytes) : Status * bytes :=
  match locateField body fieldName with
  | LAbsent => (Absent, out)
  | LMalformed => (Bad (fieldErr fieldName (str "malformed")), out)
  | LAfterColon (c :: t) =>
      if negb (Ascii.eqb c dquote) then (Bad (fieldErr fieldName (str "is not a string")), out)
      else match Json.decodeString [] t with
           | (s, None) => (Bad (fieldErr fieldName (str "has unterminated string")), s)
           | (s, Some _) => (Present, s)
           end
  | LAfterColon [] => (Bad (fieldErr fieldName (str "is not a string")), out)
  end.

Definition extractLongField (body fieldName : bytes) (out : Z) : Status * Z :=
  match locateField body fieldName with
  | LAbsent => (Absent, out)
  | LMalformed => (Bad (fieldErr fieldName (str "malformed")), out)
  | LAfterColon s =>
      match Json.decodeJsonInteger s with
      | None => (Bad (fieldErr fieldName (str "is not an integer")), out)
      | Some v => (Present, v)
      end
  end.

Definition extractUnsignedField (body fieldName : bytes) (out : Z) : Status * Z :=
  match extractLongField body fieldName 0 with
  | (Present, v) =>
      if v <? 0 then (Bad (fieldErr fieldName (str "must be non-negative")), out)
      else if 0xFFFFFFFF <? v then (Bad (fieldErr fieldName (str "overflows 32-bit unsigned")), out)
      else (Present, v)
  | (r, _) => (r, out)
  end.

Definition extractBoolField (body fieldName : bytes) (out : bool) : Status * bool :=
  match locateField body fieldName with
  | LAbsent => (Absent, out)
  | LMalformed => (Bad (fieldErr fieldName (str "malformed")), out)
  | LAfterColon s =>
      match Json.decodeJsonBool s with
      | None => (Bad (fieldErr fieldName (str "is not a boolean")), out)
      | Some b => (Present, b)
      end
  end.

(** Required: absence is an error. *)
Definition require {A} (fieldName : bytes) (r : Status * A) : bytes + A :=
  match r with
  | (Absent, _) => inl (str "missing field '" ++ fieldName ++ str "'")
  | (Bad e, _) => inl e
  | (Present, v) => inr v
  end.

(** Optional: [if (!r.empty() && r != kPresent) return r;] *)
Definition optional {A} (r : Status * A) : bytes + A :=
  match r with (Bad e, _) => inl e | (_, v) => inr v end.

(** Ignored: the status is thrown away. *)
Definition ignored {A} (r : Status * A) : bytes + A := inr (snd r).

Definition requireStringField (body fieldName : bytes) : bytes + bytes :=
  require fieldName (extractStringField body fieldName []).
Definition requireLongField (body fieldName : bytes) : bytes + Z :=
  require fieldName (extractLongField body fieldName 0).
Definition requireUnsignedField (body fieldName : bytes) : bytes + Z :=
  require fieldName (extractUnsignedField body fieldName 0).

(** ** Per-verb parsers *)

Definition parseCreateJail (body : bytes) : bytes + CreateJailReq :=
  name ← requireStringField body (str "name");
  path ← requireStringField body (str "path");
  hostname ← optional (extractStringField body (str "hostname") []);
  vnet ← optional (extractBoolField body (str "vnet") false);
  parameters ← optional (extractStringField body (str "parameters") []);
  inr {| cj_name := name;
         cj_path := path; cj_hostname := hostname; cj_vnet := vnet; cj_parameters := parameters |}.

Definition parseDestroyJail (body : bytes) : bytes + DestroyJailReq :=
  name ← requireStringField body (str "name");
  force ← optional (extractBoolField body (str "force") false);
  inr {| dj_name := name; dj_force := force |}.

Definition parseMountNullfs (body : bytes) : bytes + MountNullfsReq :=
  source ← requireStringField body (str "source");
  target ← requireStringField body (str "target");
  readOnly ← optional (extractBoolField body (str "read_only") true);
  inr {| mn_source := source; mn_target := target; mn_readOnly := readOnly |}.

Definition parseUnmountNullfs (body : bytes) : bytes + UnmountNullfsReq :=
  target ← requireStringField body (str "target");
  force ← optional (extractBoolField body (str "force") false);
  inr {| un_target := target; un_force := force |}.

Definition parseSetRctl (body : bytes) : bytes + SetRctlReq :=
  jid ← requireLongField body (str "jid");
  key ← requireStringField body (str "key");
  value ← requireStringField body (str "value");
  inr {| sr_jid := jid; sr_key := key; sr_rawValue := value |}.

Definition parseClearRctl (body : bytes) : bytes + ClearRctlReq :=
  jid ← requireLongField body (str "jid");
  key ← requireStringField body (str "key");
  inr {| cr_jid := jid; cr_key := key |}.

Definition parseAttachZfs (body : bytes) : bytes + ZfsReq :=
  jid ← requireLongField body (str "jid");
  dataset ← requireStringField body (str "dataset");
  inr {| zr_jid := jid; zr_dataset := dataset |}.

Definition parseDetachZfs (body : bytes) : bytes + ZfsReq :=
  jid ← requireLongField body (str "jid");
  dataset ← requireStringField body (str "dataset");
  inr {| zr_jid := jid; zr_dataset := dataset |}.

Definition parseConfigureIface (body : bytes) : bytes + ConfigureIfaceReq :=
  jid ← requireLongField body (str "jid");
  ifname ← requireStringField body (str "ifname");
  bridge ← optional (extractStringField body (str "bridge") []);
  ipv4 ← optional (extractStringField body (str "ipv4_cidr") []);
  ipv6 ← optional (extractStringField body (str "ipv6_cidr") []);
  mac ← optional (extractStringField body (str "mac_addr") []);
  inr {| ci_jid := jid;
         ci_ifname := ifname; ci_bridge := bridge; ci_ipv4Cidr := ipv4; ci_ipv6Cidr := ipv6; ci_macAddr := mac |}.

(** teardown_iface, set_iface_up and disable_iface_offload carry one name. *)
Definition parseIfname (body : bytes) : bytes + IfnameReq :=
  ifname ← requireStringField body (str "ifname");
  inr {| if_ifname := ifname |}.

Definition parseTeardownIface : bytes -> bytes + IfnameReq := parseIfname.
Definition parseSetIfaceUp : bytes -> bytes + IfnameReq := parseIfname.
Definition parseDisableIfaceOffload : bytes -> bytes + IfnameReq := parseIfname.

Definition parsePfRule (body : bytes) : bytes + PfRuleReq :=
  anchor ← requireStringField body (str "anchor");
  rule ← requireStringField body (str "rule");
  inr {| pf_anchor := anchor; pf_ruleText := rule |}.

Definition parseAddPfRule : bytes -> bytes + PfRuleReq := parsePfRule.
Definition parseRemovePfRule : bytes -> bytes + PfRuleReq := parsePfRule.

Definition parseAddIpfwRule (body : bytes) : bytes + AddIpfwRuleReq :=
  set ← requireUnsignedField body (str "set");
  number ← requireUnsignedField body (str "number");
  action ← requireStringField body (str "action");
  rule ← requireStringField body (str "body");
  inr {| ai_set := set; ai_number := number; ai_action := action; ai_body := rule |}.

Definition parseRemoveIpfwRule (body : bytes) : bytes + RemoveIpfwRuleReq :=
  set ← requireUnsignedField body (str "set");
  number ← requireUnsignedField body (str "number");
  inr {| ri_set := set; ri_number := number |}.

Definition parseBridgeMember (body : bytes) : bytes + BridgeMemberReq :=
  bridge ← requireStringField body (str "bridge");
  member ← requireStringField body (str "member");
  inr {| bm_bridge := bridge; bm_member := member |}.

Definition parseBridgeAddMember : bytes -> bytes + BridgeMemberReq := parseBridgeMember.
Definition parseBridgeDelMember : bytes -> bytes + BridgeMemberReq := parseBridgeMember.

Definition parseSetIfaceInetAddr (body : bytes) : bytes + SetIfaceInetAddrReq :=
  inet6 ← ignored (extractBoolField body (str "inet6") false);
  ifname ← requireStringField body (str "ifname");
  addr ← requireStringField body (str "addr");
  prefixLen ← requireUnsignedField body (str "prefix_len");
  inr {| sa_ifname := ifname; sa_addr := addr; sa_prefixLen := prefixLen; sa_inet6 := inet6 |}.

(** create_epair and ensure_user_root read no field. *)
Definition parseNothing (body : bytes) : bytes + unit := inr tt.

Definition parseSetLoginclassRctl (body : bytes) : bytes + SetLoginclassRctlReq :=
  loginclass ← requireStringField body (str "loginclass");
  key ← requireStringField body (str "key");
  value ← requireStringField body (str "value");
  inr {| sl_loginclass := loginclass; sl_key := key; sl_rawValue := value |}.

Definition parseClearLoginclassRctl (body : bytes) : bytes + ClearLoginclassRctlReq :=
  loginclass ← requireStringField body (str "loginclass");
  key ← requireStringField body (str "key");
  inr {| cl_loginclass := loginclass; cl_key := key |}.

Definition parseReclaimIfaceFromVnet (body : bytes) : bytes + ReclaimIfaceReq :=
  ifname ← requireStringField body (str "ifname");
  jailName ← requireStringField body (str "jail_name");
  inr {| rc_ifname := ifname; rc_jailName := jailName |}.

Definition parseFlushPfAnchor (body : bytes) : bytes + FlushPfAnchorReq :=
  anchor ← requireStringField body (str "anchor");
  inr {| fa_anchor := anchor |}.

Definition parseQueryJailRctl (body : bytes) : bytes + QueryJailRctlReq :=
  jid ← requireUnsignedField body (str "jid");
  limits ← ignored (extractBoolField body (str "limits") false);
  inr {| qr_jid := jid; qr_limits := limits |}.

Definition parseSetIfaceMac (body : bytes) : bytes + SetIfaceMacReq :=
  ifname ← requireStringField body (str "ifname");
  mac ← requireStringField body (str "mac");
  inr {| sm_ifname := ifname; sm_mac := mac |}.

Definition parseDeleteIpfwNat (body : bytes) : bytes + DeleteIpfwNatReq :=
  number ← requireUnsignedField body (str "number");
  inr {| dn_number := number |}.

Definition parseCreateBridge (body : bytes) : bytes + CreateBridgeReq :=
  name ← requireStringField body (str "name");
  inr {| cb_name := name |}.

Definition parseAcquireFwLease (body : bytes) : bytes + AcquireFwLeaseReq :=
  jid ← requireUnsignedField body (str "jid");
  slot ← ignored (extractBoolField body (str "slot") false);
  fwd4 ← ignored (extractBoolField body (str "fwd4") false);
  fwd6 ← ignored (extractBoolField body (str "fwd6") false);
  inr {| af_jid := jid; af_slot := slot; af_fwd4 := fwd4; af_fwd6 := fwd6 |}.

Definition parseReleaseFwLease (body : bytes) : bytes + ReleaseFwLeaseReq :=
  jid ← requireUnsignedField body (str "jid");
  inr {| rf_jid := jid |}.

Definition parseConfigureIpfwNat (body : bytes) : bytes + ConfigureIpfwNatReq :=
  number ← requireUnsignedField body (str "number");
  config ← requireStringField body (str "config");
  inr {| cn_number := number; cn_config := config |}.

Definition parseSetJailCpuset (body : bytes) : bytes + SetJailCpusetReq :=
  jid ← requireUnsignedField body (str "jid");
  cpuset ← requireStringField body (str "cpuset");
  inr {| sc_jid := jid; sc_cpuset := cpuset |}.

Definition parseApplyDevfsRuleset (body : bytes) : bytes + ApplyDevfsRulesetReq :=
  mountPath ← requireStringField body (str "mount_path");
  ruleset ← requireUnsignedField body (str "ruleset");
  inr {| ad_mountPath := mountPath; ad_ruleset := ruleset |}.

Definition parseAddDevfsUnhideRule (body : bytes) : bytes + AddDevfsUnhideRuleReq :=
  mountPath ← requireStringField body (str "mount_path");
  pathPattern ← requireStringField body (str "path_pattern");
  inr {| au_mountPath := mountPath; au_pathPattern := pathPattern |}.

(** [for (i = 0; i < argc; i++)]: the fields [<prefix><i>], [left] to go. *)
Fixpoint requireIndexed (body prefix : bytes) (left : nat) (i : Z) : bytes + list bytes :=
  match left with
  | O => inr []
  | S k =>
      a ← requireStringField body (prefix ++ dec i);
      rest ← requireIndexed body prefix k (i + 1);
      inr (a :: rest)
  end.

Definition requireCounted (body prefix : bytes) (limit : Z) : bytes + list bytes :=
  argc ← requireUnsignedField body (str "argc");
  if argc =? 0 then inl (str "field 'argc' must be >= 1")
  else if limit <? argc then inl (str "field 'argc' exceeds " ++ dec limit)
  else requireIndexed body prefix (Z.to_nat argc) 0.

Definition parseExecInJail (body : bytes) : bytes + ExecInJailReq :=
  jid ← requireUnsignedField body (str "jid");
  user ← ignored (extractStringField body (str "user") []);
  term ← ignored (extractStringField body (str "term") []);
  argv ← requireCounted body (str "argv") kExecInJailMaxArgs;
  inr {| ex_jid := jid; ex_user := user; ex_argv := argv; ex_term := term |}.

Definition parseSignalJail (body : bytes) : bytes + SignalJailReq :=
  jid ← requireUnsignedField body (str "jid");
  signal ← requireStringField body (str "signal");
  inr {| sj_jid := jid; sj_signal := signal |}.

Definition parseMountTmpfs (body : bytes) : bytes + MountTmpfsReq :=
  target ← requireStringField body (str "target");
  size ← ignored (extractStringField body (str "size") []);
  uid ← ignored (extractStringField body (str "uid") []);
  gid ← ignored (extractStringField body (str "gid") []);
  mode ← ignored (extractStringField body (str "mode") []);
  inr {| mt_target := target; mt_size := size; mt_uid := uid; mt_gid := gid; mt_mode := mode |}.

Definition parseApplyDevfsRules (body : bytes) : bytes + ApplyDevfsRulesReq :=
  mountPath ← requireStringField body (str "mount_path");
  ruleset ← requireUnsignedField body (str "ruleset");
  rules ← requireCounted body (str "rule") kApplyDevfsRulesMaxRules;
  inr {| ar_mountPath := mountPath; ar_ruleset := ruleset; ar_rules := rules |}.

Definition parseVerbFromPath (path : bytes) : Verb :=
  let prefix := str "/api/v1/privops/" in
  if negb (starts_with prefix path) then Unknown
  else
    let verb := drop (length prefix) path in
    if is_empty verb || has_char "/" verb then Unknown else parseVerb verb.

(** ** Reply bodies *)

(** A value of a reply: text (escaped and quoted), a number, or a boolean. *)
Inductive JVal := JStr (s : bytes) | JNum (n : Z) | JBool (b : bool).

Definition jval (v : JVal) : bytes :=
  match v with
  | JStr s => Json.quote s
  | JNum n => dec_signed n
  | JBool b => str (if b then "true" else "false")
  end.

Definition jfield (kv : string * JVal) : bytes := dquote :: str (fst kv) ++ dquote :: ":"%char :: jval (snd kv).

Fixpoint joinComma (l : list bytes) : bytes :=
  match l with [] => [] | [x] => x | x :: t => x ++ ","%char :: joinComma t end.

Definition obj (l : list (string * JVal)) : bytes := "{"%char :: joinComma (map jfield l) ++ ["}"%char].

(** The error replies quote a fixed text around the escaped reason. *)
Definition errorObj (inner : bytes) : bytes :=
  str "{" ++ [dquote] ++ str "error" ++ [dquote] ++ str ":" ++ [dquote] ++ inner ++ [dquote] ++ str "}".

Definition formatNotImplemented (v : Verb) : bytes :=
  errorObj (str "verb '" ++ verbName v ++ str "' not yet implemented (handler lands in a 0.9.x release)").
Definition formatParseError (reason : bytes) : bytes := errorObj (str "parse: " ++ Json.escape reason).
Definition formatValidateError (reason : bytes) : bytes := errorObj (str "validate: " ++ Json.escape reason).
Definition formatHandlerError (kind reason : bytes) : bytes :=
  errorObj (Json.escape kind ++ str ": " ++ Json.escape reason).

Definition formatMountTmpfsSuccess (target : bytes) : bytes :=
  obj [("mounted", JBool true); ("target", JStr target)]%string.

Definition formatSetRctlSuccess (jid : Z) (key : bytes) (rawValue : bytes) : bytes :=
  obj [("set", JBool true); ("jid", JNum jid); ("key", JStr key); ("value", JStr rawValue)]%string.

Definition formatClearRctlSuccess (jid : Z) (key : bytes) : bytes :=
  obj [("cleared", JBool true); ("jid", JNum jid); ("key", JStr key)]%string.

Definition formatAttachZfsSuccess (jid : Z) (dataset : bytes) : bytes :=
  obj [("attached", JBool true); ("jid", JNum jid); ("dataset", JStr dataset)]%string.

Definition formatDetachZfsSuccess (jid : Z) (dataset : bytes) : bytes :=
  obj [("detached", JBool true); ("jid", JNum jid); ("dataset", JStr dataset)]%string.

Definition formatMountNullfsSuccess (source : bytes) (target : bytes) (readOnly : bool) : bytes :=
  obj [("mounted", JBool true); ("source", JStr source);
       ("target", JStr target); ("read_only", JBool readOnly)]%string.

Definition formatUnmountNullfsSuccess (target : bytes) : bytes :=
  obj [("unmounted", JBool true); ("target", JStr target)]%string.

Definition formatConfigureIfaceSuccess (jid : Z) (ifname : bytes) (bridge : bytes) (ipv4Cidr : bytes) (ipv6Cidr : bytes) (macAddr : bytes) : bytes :=
  obj [("configured", JBool true); ("jid", JNum jid); ("ifname", JStr ifname); ("bridge", JStr bridge);
       ("ipv4_cidr", JStr ipv4Cidr); ("ipv6_cidr", JStr ipv6Cidr); ("mac_addr", JStr macAddr)]%string.

Definition formatTeardownIfaceSuccess (ifname : bytes) : bytes :=
  obj [("destroyed", JBool true); ("ifname", JStr ifname)]%string.

Definition formatAddPfRuleSuccess (anchor : bytes) (ruleText : bytes) : bytes :=
  obj [("loaded", JBool true); ("anchor", JStr anchor); ("rule", JStr ruleText)]%string.

Definition formatRemovePfRuleSuccess (anchor : bytes) : bytes :=
  obj [("flushed_anchor", JBool true); ("anchor", JStr anchor)]%string.

Definition formatAddIpfwRuleSuccess (set : Z) (number : Z) (action : bytes) (body : bytes) : bytes :=
  obj [("added", JBool true); ("set", JNum set); ("number", JNum number);
       ("action", JStr action); ("body", JStr body)]%string.

Definition formatRemoveIpfwRuleSuccess (set : Z) (number : Z) : bytes :=
  obj [("removed", JBool true); ("set", JNum set); ("number", JNum number)]%string.

Definition formatCreateJailSuccess (name : bytes) (path : bytes) : bytes :=
  obj [("created", JBool true); ("name", JStr name); ("path", JStr path)]%string.

Definition formatDestroyJailSuccess (name : bytes) : bytes :=
  obj [("destroyed", JBool true); ("name", JStr name)]%string.

Definition formatSetIfaceUpSuccess (ifname : bytes) : bytes :=
  obj [("up", JBool true); ("ifname", JStr ifname)]%string.

Definition formatDisableIfaceOffloadSuccess (ifname : bytes) : bytes :=
  obj [("offload_disabled", JBool true); ("ifname", JStr ifname)]%string.

Definition formatBridgeAddMemberSuccess (bridge : bytes) (member : bytes) : bytes :=
  obj [("added", JBool true); ("bridge", JStr bridge); ("member", JStr member)]%string.

Definition formatBridgeDelMemberSuccess (bridge : bytes) (member : bytes) : bytes :=
  obj [("removed", JBool true); ("bridge", JStr bridge); ("member", JStr member)]%string.

Definition formatSetIfaceInetAddrSuccess (ifname : bytes) (addr : bytes) (prefixLen : Z) : bytes :=
  obj [("set", JBool true); ("ifname", JStr ifname);
       ("addr", JStr addr); ("prefix_len", JNum prefixLen)]%string.

Definition formatEnsureUserRootSuccess (uid : Z) (path : bytes) : bytes :=
  obj [("ensured", JBool true); ("uid", JNum uid); ("path", JStr path)]%string.

Definition formatCreateEpairSuccess (ifaceA : bytes) (ifaceB : bytes) : bytes :=
  obj [("created", JBool true); ("a", JStr ifaceA); ("b", JStr ifaceB)]%string.

Definition formatSetLoginclassRctlSuccess (loginclass : bytes) (key : bytes) (rawValue : bytes) : bytes :=
  obj [("set", JBool true); ("loginclass", JStr loginclass);
       ("key", JStr key); ("value", JStr rawValue)]%string.

Definition formatClearLoginclassRctlSuccess (loginclass : bytes) (key : bytes) : bytes :=
  obj [("cleared", JBool true); ("loginclass", JStr loginclass); ("key", JStr key)]%string.

Definition formatReclaimIfaceFromVnetSuccess (ifname : bytes) (jailName : bytes) : bytes :=
  obj [("reclaimed", JBool true); ("ifname", JStr ifname); ("jail_name", JStr jailName)]%string.

Definition formatFlushPfAnchorSuccess (anchor : bytes) : bytes :=
  obj [("flushed", JBool true); ("anchor", JStr anchor)]%string.

Definition formatQueryJailRctlSuccess (jid : Z) (output : bytes) : bytes :=
  obj [("jid", JNum jid); ("output", JStr output)]%string.

Definition formatConfigureIpfwNatSuccess (number : Z) : bytes :=
  obj [("configured", JBool true); ("number", JNum number)]%string.

Definition formatSetJailCpusetSuccess (jid : Z) (cpuset : bytes) : bytes :=
  obj [("bound", JBool true); ("jid", JNum jid); ("cpuset", JStr cpuset)]%string.

Definition formatApplyDevfsRulesetSuccess (mountPath : bytes) (ruleset : Z) : bytes :=
  obj [("applied", JBool true); ("mount_path", JStr mountPath); ("ruleset", JNum ruleset)]%string.

Definition formatAddDevfsUnhideRuleSuccess (mountPath : bytes) (pathPattern : bytes) : bytes :=
  obj [("added", JBool true); ("mount_path", JStr mountPath);
       ("path_pattern", JStr pathPattern)]%string.

Definition formatApplyDevfsRulesSuccess (mountPath : bytes) (ruleset : Z) (rules : Z) : bytes :=
  obj [("applied", JBool true); ("mount_path", JStr mountPath);
       ("ruleset", JNum ruleset); ("rules", JNum rules)]%string.

Definition formatSetIfaceMacSuccess (ifname : bytes) (mac : bytes) : bytes :=
  obj [("set", JBool true); ("ifname", JStr ifname); ("mac", JStr mac)]%string.

Definition formatDeleteIpfwNatSuccess (number : Z) : bytes :=
  obj [("deleted", JBool true); ("number", JNum number)]%string.

Definition formatCreateBridgeSuccess (name : bytes) : bytes :=
  obj [("created", JBool true); ("name", JStr name)]%string.

Definition formatAcquireFwLeaseSuccess (jid : Z) (slot : Z) (fwd4Users : Z) (fwd6Users : Z) : bytes :=
  obj [("jid", JNum jid); ("slot", JNum slot);
       ("fwd4_users", JNum fwd4Users); ("fwd6_users", JNum fwd6Users)]%string.

Definition formatReleaseFwLeaseSuccess (jid : Z) (released : bool) (fwd4Users : Z) (fwd6Users : Z) : bytes :=
  obj [("jid", JNum jid); ("released", JBool released);
       ("fwd4_users", JNum fwd4Users); ("fwd6_users", JNum fwd6Users)]%string.

Definition formatExecInJailSuccess (jid : Z) (pid : Z) : bytes :=
  obj [("started", JBool true); ("jid", JNum jid); ("pid", JNum pid)]%string.

Definition formatSignalJailSuccess (jid : Z) (signal : bytes) : bytes :=
  obj [("signalled", JBool true); ("jid", JNum jid); ("signal", JStr signal)]%string.

(** ** Parse, validate, 501 *)

Record DispatchResult := { status : Z; body : bytes }.

Definition answer (s : Z) (b : bytes) : DispatchResult := {| status := s; body := b |}.

(** Parse, then validate, then [k]. *)
Definition parseThenValidate {Req R} (parsed : bytes + Req) (validate : Req -> bytes)
  (bad : DispatchResult -> R) (k : Req -> R) : R :=
  match parsed with
  | inl e => bad (answer 400 (formatParseError e))
  | inr r =>
      match validate r with
      | [] => k r
      | e => bad (answer 400 (formatValidateError e))
      end
  end.

Definition runVerb {Req} (body : bytes) (v : Verb) (parse : bytes -> bytes + Req)
  (validate : Req -> bytes) : DispatchResult :=
  parseThenValidate (parse body) validate id (fun _ => answer 501 (formatNotImplemented v)).

Definition parseValidateAndDispatch (v : Verb) (body : bytes) : DispatchResult :=
  match v with
  | CreateJail => runVerb body v parseCreateJail validateCreateJail
  | DestroyJail => runVerb body v parseDestroyJail validateDestroyJail
  | MountNullfs => runVerb body v parseMountNullfs validateMountNullfs
  | UnmountNullfs => runVerb body v parseUnmountNullfs validateUnmountNullfs
  | SetRctl => runVerb body v parseSetRctl validateSetRctl
  | ClearRctl => runVerb body v parseClearRctl validateClearRctl
  | AttachZfs => runVerb body v parseAttachZfs validateAttachZfs
  | DetachZfs => runVerb body v parseDetachZfs validateDetachZfs
  | ConfigureIface => runVerb body v parseConfigureIface validateConfigureIface
  | TeardownIface => runVerb body v parseTeardownIface validateTeardownIface
  | AddPfRule => runVerb body v parseAddPfRule validateAddPfRule
  | RemovePfRule => runVerb body v parseRemovePfRule validateRemovePfRule
  | AddIpfwRule => runVerb body v parseAddIpfwRule validateAddIpfwRule
  | RemoveIpfwRule => runVerb body v parseRemoveIpfwRule validateRemoveIpfwRule
  | SetIfaceUp => runVerb body v parseSetIfaceUp validateSetIfaceUp
  | DisableIfaceOffload => runVerb body v parseDisableIfaceOffload validateDisableIfaceOffload
  | BridgeAddMember => runVerb body v parseBridgeAddMember validateBridgeAddMember
  | BridgeDelMember => runVerb body v parseBridgeDelMember validateBridgeDelMember
  | SetIfaceInetAddr => runVerb body v parseSetIfaceInetAddr validateSetIfaceInetAddr
  | CreateEpair => runVerb body v parseNothing (fun _ => validateCreateEpair)
  | EnsureUserRoot => runVerb body v parseNothing (fun _ => validateEnsureUserRoot)
  | SetLoginclassRctl => runVerb body v parseSetLoginclassRctl validateSetLoginclassRctl
  | ClearLoginclassRctl => runVerb body v parseClearLoginclassRctl validateClearLoginclassRctl
  | ReclaimIfaceFromVnet => runVerb body v parseReclaimIfaceFromVnet validateReclaimIfaceFromVnet
  | FlushPfAnchor => runVerb body v parseFlushPfAnchor validateFlushPfAnchor
  | QueryJailRctl => runVerb body v parseQueryJailRctl validateQueryJailRctl
  | ConfigureIpfwNat => runVerb body v parseConfigureIpfwNat validateConfigureIpfwNat
  | SetJailCpuset => runVerb body v parseSetJailCpuset validateSetJailCpuset
  | ApplyDevfsRuleset => runVerb body v parseApplyDevfsRuleset validateApplyDevfsRuleset
  | AddDevfsUnhideRule => runVerb body v parseAddDevfsUnhideRule validateAddDevfsUnhideRule
  | SignalJail => runVerb body v parseSignalJail validateSignalJail
  | ExecInJail => runVerb body v parseExecInJail validateExecInJail
  | SetIfaceMac => runVerb body v parseSetIfaceMac validateSetIfaceMac
  | DeleteIpfwNat => runVerb body v parseDeleteIpfwNat validateDeleteIpfwNat
  | CreateBridge => runVerb body v parseCreateBridge validateCreateBridge
  | AcquireFwLease => runVerb body v parseAcquireFwLease validateAcquireFwLease
  | ReleaseFwLease => runVerb body v parseReleaseFwLease validateReleaseFwLease
  | ApplyDevfsRules => runVerb body v parseApplyDevfsRules validateApplyDevfsRules
  | MountTmpfs => runVerb body v parseMountTmpfs validateMountTmpfs
  | Unknown => answer 404 (errorObj (str "unknown privops verb"))
  end.


(** The JSON field finder looks for the quoted name anywhere in the body,
    so a string value equal to the name of a later field hides that field: a
    well-formed create_jail for a jail called [path] is refused, and accepted
    under any other name. *)
Theorem value_equal_to_field_name_refused :
  let request name := obj [("name", JStr (str name)); ("path", JStr (str "/jails/a"))]%string in
  parseCreateJail (request "path") = inl (str "field 'path' malformed")
  /\ validateJailName (str "path") = []
  /\ exists r, parseCreateJail (request "web") = inr r /\ validateCreateJail r = [].
Proof. split; [reflexivity|]. split; [reflexivity|]. eexists. split; reflexivity. Qed.

End Wire.
