(* ===== verification/Passwd.v ===== *)
(** * A jail's passwd and group files: lib/passwd_pure.cpp

    exec_in_jail resolves its user from the jail's own files, before the fork. *)

From S2P Require Import Prelude.

Module Passwd.

Record User := {
  u_name : bytes; u_uid : Z; u_gid : Z; u_loginClass : bytes; u_home : bytes; u_shell : bytes }.

Definition noUser : User :=
  {| u_name := []; u_uid := 0; u_gid := 0; u_loginClass := []; u_home := []; u_shell := [] |}.

Definition splitColons (line : bytes) : list bytes := split_on ":" line.

Definition parseId (s : bytes) : option Z :=
  if is_empty s || (10 <? size_z s) then None
  else if negb (all_digits s) then None
  else if 0xFFFFFFFF <? dec_value s then None
  else Some (dec_value s).

(** master.passwd(5), 10 fields, or passwd(5), 7 fields. *)
Definition parseEither (line : bytes) : option User :=
  if is_empty line || starts_with (str "#") line then None
  else match splitColons line with
  | [n; _; u; g; cls; _; _; _; home; shell] =>
      if is_empty n then None
      else uid ← parseId u; gid ← parseId g;
           Some {| u_name := n; u_uid := uid; u_gid := gid; u_loginClass := cls;
                   u_home := home; u_shell := shell |}
  | [n; _; u; g; _; home; shell] =>
      if is_empty n then None
      else uid ← parseId u; gid ← parseId g;
           Some {| u_name := n; u_uid := uid; u_gid := gid; u_loginClass := [];
                   u_home := home; u_shell := shell |}
  | _ => None
  end.

Definition parseMasterPasswdLine (line : bytes) : option User :=
  if is_empty line || starts_with (str "#") line then None
  else if negb (size_z (splitColons line) =? 10) then None
  else parseEither line.

Definition dropCr (line : bytes) : bytes := if backIs cr line then removelast line else line.

Fixpoint lookupLines (lines : list bytes) (name : bytes) : option User :=
  match lines with
  | [] => None
  | l :: rest =>
      match parseEither (dropCr l) with
      | Some u => if beq (u_name u) name then Some u else lookupLines rest name
      | None => lookupLines rest name
      end
  end.

Definition lookupUser (content name : bytes) : option User :=
  if is_empty name then None else lookupLines (split_on newline content) name.

(** The gid of a group(5) line that lists [user]. *)
Definition groupLine (line user : bytes) : option Z :=
  if is_empty line || starts_with (str "#") line then None
  else match splitColons line with
  | [_; _; g; members] =>
      gid ← parseId g;
      if existsb (fun m => beq m user) (split_on "," members) then Some gid else None
  | _ => None
  end.

Fixpoint groupLines (lines : list bytes) (user : bytes) (maxGroups : Z) (groups : list Z) : list Z :=
  match lines with
  | [] => groups
  | l :: rest =>
      if maxGroups <=? size_z groups then groups
      else
        match groupLine (dropCr l) user with
        | Some gid =>
            groupLines rest user maxGroups
              (if existsb (Z.eqb gid) groups then groups else groups ++ [gid])
        | None => groupLines rest user maxGroups groups
        end
  end.

Definition supplementaryGroups (content user : bytes) (primaryGid maxGroups : Z) : list Z :=
  if is_empty user || (maxGroups <=? 1) then [primaryGid]
  else groupLines (split_on newline content) user maxGroups [primaryGid].

(** ** Lookup *)

Lemma parseId_bound s v : parseId s = Some v -> 0 <= v <= 0xFFFFFFFF.
Proof.
  unfold parseId. destruct (is_empty s || _); [done|]. destruct (negb (all_digits s)) eqn:D; [done|].
  destruct (Z.ltb_spec 0xFFFFFFFF (dec_value s)); [done|]. intros [= <-]. split; [|done].
  apply negb_false_iff in D. by apply dec_value_bound in D as [? _].
Qed.

Lemma parseEither_bounds line u :
  parseEither line = Some u -> u_name u <> [] /\ 0 <= u_uid u <= 0xFFFFFFFF /\ 0 <= u_gid u <= 0xFFFFFFFF.
Proof.
  unfold parseEither. destruct (is_empty line || _); [done|].
  destruct (splitColons line) as [|n [|p [|i [|g [|a [|b [|c [|d [|e [|f [|]]]]]]]]]]]; try done;
    (destruct n as [|n0 n]; [done|]); cbn [is_empty];
    (destruct (parseId i) as [uid|] eqn:U; [|done]); (destruct (parseId g) as [gid|] eqn:G; [|done]);
    intros [= <-]; apply parseId_bound in U, G; done.
Qed.

(** The entry returned is the first one of that name. *)
Definition firstNamed (lines : list bytes) (name : bytes) (u : User) : Prop :=
  exists pre l post, lines = pre ++ l :: post /\ parseEither (dropCr l) = Some u /\ u_name u = name
    /\ forall l' v, In l' pre -> parseEither (dropCr l') = Some v -> u_name v <> name.

Lemma firstNamed_skip l lines name u :
  (forall v, parseEither (dropCr l) = Some v -> u_name v <> name) ->
  firstNamed (l :: lines) name u <-> firstNamed lines name u.
Proof.
  intros Hl. split.
  - intros (pre & l0 & post & E & P0 & Hn0 & Hpre). destruct pre as [|p pre]; cbn in E; injection E as -> ->.
    + by destruct (Hl u P0).
    + exists pre, l0, post. split; [done|]. split; [done|]. split; [done|]. intros. eapply Hpre; [by right|done].
  - intros (pre & l0 & post & -> & P0 & Hn0 & Hpre). exists (l :: pre), l0, post.
    split; [done|]. split; [done|]. split; [done|]. intros l' w [<-|Hin] Hw; [by apply Hl|by eapply Hpre].
Qed.

Lemma lookupLines_first lines name u : lookupLines lines name = Some u <-> firstNamed lines name u.
Proof.
  induction lines as [|l lines IH]; cbn [lookupLines].
  { split; [done|]. intros (pre & l & post & E & _). by destruct pre. }
  destruct (parseEither (dropCr l)) as [v|] eqn:P; [destruct (beq_spec (u_name v) name) as [Hn|Hn]|].
  - split.
    + intros [= <-]. exists [], l, lines. split; [done|]. split; [done|]. split; [done|]. by intros ? ? [].
    + intros (pre & l0 & post & E & P0 & Hn0 & Hpre). destruct pre as [|p pre]; cbn in E; injection E as -> ->.
      * congruence.
      * by destruct (Hpre p v); [left|..].
  - rewrite IH, firstNamed_skip; [done|]. intros w Hw. congruence.
  - rewrite IH, firstNamed_skip; [done|]. intros w Hw. congruence.
Qed.

(** ** Groups *)

Definition listedIn (content user : bytes) (gid : Z) : Prop :=
  exists l, In l (split_on newline content) /\ groupLine (dropCr l) user = Some gid.

Lemma groupLines_spec lines user maxGroups groups :
  NoDup groups -> size_z groups <= maxGroups ->
  let r := groupLines lines user maxGroups groups in
  NoDup r /\ size_z r <= maxGroups /\ (exists more, r = groups ++ more)
  /\ forall g, In g r -> In g groups \/ exists l, In l lines /\ groupLine (dropCr l) user = Some g.
Proof.
  revert groups. induction lines as [|l lines IH]; intros groups Hnd Hsz; cbn [groupLines].
  { split; [done|]. split; [done|]. split; [exists []; by rewrite app_nil_r|tauto]. }
  destruct (Z.leb_spec maxGroups (size_z groups)).
  { split; [done|]. split; [done|]. split; [exists []; by rewrite app_nil_r|tauto]. }
  destruct (groupLine (dropCr l) user) as [gid|] eqn:G.
  - destruct (existsb (Z.eqb gid) groups) eqn:E.
    + destruct (IH groups Hnd Hsz) as (? & ? & ? & Hin). split; [done|]. split; [done|]. split; [done|].
      intros g Hg. destruct (Hin g Hg) as [?|(l' & ? & ?)]; [tauto|]. right. exists l'. split; [by right|done].
    + assert (Hni : ~ In gid groups).
      { intros Hi. assert (existsb (Z.eqb gid) groups = true); [|congruence].
        apply existsb_exists. exists gid. split; [done|]. apply Z.eqb_refl. }
      destruct (IH (groups ++ [gid])) as (? & ? & [more Er] & Hin).
      { apply NoDup_app. split; [done|]. split; [|apply NoDup_singleton].
        intros x Hx Hg. apply list_elem_of_singleton in Hg as ->. by apply list_elem_of_In in Hx. }
      { rewrite size_z_app. change (size_z [gid]) with 1. lia. }
      split; [done|]. split; [done|]. split; [exists (gid :: more); by rewrite Er, <- app_assoc|].
      intros g Hg. destruct (Hin g Hg) as [[?|[<-|[]]]%in_app_iff|(l' & ? & ?)]; [tauto| |].
      * right. exists l. split; [by left|done].
      * right. exists l'. split; [by right|done].
  - destruct (IH groups Hnd Hsz) as (? & ? & ? & Hin). split; [done|]. split; [done|]. split; [done|].
    intros g Hg. destruct (Hin g Hg) as [?|(l' & ? & ?)]; [tauto|]. right. exists l'. split; [by right|done].
Qed.

(** The groups exec_in_jail hands to setgroups(2) are distinct, at most 64
    (or the one primary group), start with the primary group, and every other
    one is a group whose line lists the user. *)
Theorem supplementaryGroups_sound (content user : bytes) (primaryGid : Z)
  (r := supplementaryGroups content user primaryGid 64) :
  NoDup r /\ size_z r <= 64 /\ head r = Some primaryGid
  /\ forall g, In g r -> g = primaryGid \/ listedIn content user g.
Proof.
  subst r. unfold supplementaryGroups.
  destruct (is_empty user || (64 <=? 1)).
  { split; [apply NoDup_singleton|]. split; [done|]. split; [done|]. intros g [<-|[]]. by left. }
  destruct (groupLines_spec (split_on newline content) user 64 [primaryGid]) as (Hnd & Hsz & [more E] & Hin);
    [apply NoDup_singleton|done|].
  split; [done|]. split; [done|]. rewrite E. split; [done|]. rewrite <- E.
  intros g Hg. destruct (Hin g Hg) as [[<-|[]]|?]; [by left|by right].
Qed.

End Passwd.
