(* ===== verification/Sys.v ===== *)
(** * The system under the daemon

    What the privops handlers ask of the kernel and of the tools they run, as
    events.  [World] answers them; an answer may depend on everything that
    happened before, so a world stands for any kernel, any other process and
    any failure.  [Daemon] is the state crated keeps between requests. *)

From S2P Require Import Prelude JidOwner IfaceOwner FwLease.

Module Sys.

(** JailQuery::JailInfo, the fields the handlers read. *)
Record JailInfo := { ji_jid : Z; ji_path : bytes; ji_dying : bool }.

(** realpath(3): the resolved path, ENOENT, or another error. *)
Inductive Resolved := RPath (p : bytes) | RNoEnt | RError (msg : bytes).

(** What only reads. *)
Inductive Query :=
| QJailByJid (jid : Z)
| QJailByName (name : bytes)
| QRealpath (p : bytes)
| QJailFile (root rel : bytes)
| QDevfsMount (path : bytes)
| QDevfsShow (ruleset : Z).

(** What changes something outside the daemon. *)
Inductive Call :=
| Exec (argv : list bytes)
| ZfsJail (jid : Z) (dataset : bytes)
| ZfsUnjail (jid : Z) (dataset : bytes)
| Nmount (iov : list (bytes * bytes)) (readOnly : bool)
| Unmount (target : bytes) (force : bool)
| MoveToVnet (ifname : bytes) (jid : Z)
| MoveFromVnet (ifname jailName : bytes)
| BridgeAdd (bridge member : bytes)
| BridgeDel (bridge member : bytes)
| IfDestroy (ifname : bytes)
| IfUp (ifname : bytes)
| IfOffload (ifname : bytes)
| IfInet (ifname addr : bytes) (prefixLen : Z)
| IfInet6 (ifname addr : bytes) (prefixLen : Z)
| IfMac (ifname mac : bytes)
| IfCreateEpair
| IfCreate (name : bytes)
| PfAdd (anchor rules : bytes)
| PfFlush (anchor : bytes)
| IpfwDelete (number : Z)
| MkUserRoot (uid : Z)
(** pdfork, then in the child jail_attach and, with credentials, setgroups /
    setgid / setuid, and execve *)
| JailProc (jid : Z) (cred : option (Z * Z * list Z)) (argv env : list bytes)
| AuditLine (uid : Z) (line : bytes).

Inductive Event := Asked (q : Query) | Did (c : Call).

(** Newest first. *)
Definition Log : Type := list Event.

Record World := {
  jailByJid : Log -> Z -> option JailInfo;
  jailByName : Log -> bytes -> option JailInfo;
  realpath : Log -> bytes -> Resolved;
  jailFile : Log -> bytes -> bytes -> option bytes;
  devfsMounted : Log -> bytes -> bool;
  (** [None]: the probe command failed. *)
  devfsShow : Log -> Z -> option bytes;
  (** [inl]: the exception's text or strerror; [inr]: the output. *)
  run : Log -> Call -> bytes + bytes;
  (** pid and process descriptor of a successful pdfork *)
  forked : Log -> Z * Z;
  now : Log -> Z;
  (** the registries' liveness probes, and which of their writes succeed *)
  jidProbe : Log -> option JidOwner.LiveProbe;
  ifProbe : Log -> option IfaceOwner.LiveProbe;
  jidIo : Log -> bool;
  ifIo : Log -> bool;
  fwIo : Log -> FwLease.Io;
  (** the text of the exception when the lease file cannot be written *)
  fwError : Log -> bytes }.

(** g_devfsClaims: who filled a devfs ruleset, for which mount. *)
Record DevfsRulesetClaim := { cl_uid : Z; cl_mountPath : bytes }.

(** The process-global state of daemon/privops_handlers.cpp. *)
Record Daemon := {
  log : Log;
  jidReg : option JidOwner.State;
  ifReg : option IfaceOwner.State;
  devfsClaims : gmap Z DevfsRulesetClaim;
  fwReg : option FwLease.Registry }.

(** ** The state monad *)

Definition M (A : Type) : Type := Daemon -> A * Daemon.

#[global] Instance M_ret : MRet M := fun _ a d => (a, d).
#[global] Instance M_bind : MBind M := fun _ _ f m d => let '(a, d') := m d in f a d'.

Definition get : M Daemon := fun d => (d, d).

Definition event (e : Event) : M unit := fun d =>
  (tt, {| log := e :: log d; jidReg := jidReg d; ifReg := ifReg d; devfsClaims := devfsClaims d;
          fwReg := fwReg d |}).
Definition setJidReg (s : JidOwner.State) : M unit := fun d =>
  (tt, {| log := log d; jidReg := Some s; ifReg := ifReg d; devfsClaims := devfsClaims d;
          fwReg := fwReg d |}).
Definition setIfReg (s : IfaceOwner.State) : M unit := fun d =>
  (tt, {| log := log d; jidReg := jidReg d; ifReg := Some s; devfsClaims := devfsClaims d;
          fwReg := fwReg d |}).
Definition setClaims (c : gmap Z DevfsRulesetClaim) : M unit := fun d =>
  (tt, {| log := log d; jidReg := jidReg d; ifReg := ifReg d; devfsClaims := c; fwReg := fwReg d |}).
Definition setFwReg (r : FwLease.Registry) : M unit := fun d =>
  (tt, {| log := log d; jidReg := jidReg d; ifReg := ifReg d; devfsClaims := devfsClaims d;
          fwReg := Some r |}).

Section sys.
Context (w : World).

(** Ask, with the event recorded; the answer is the world's at that point. *)
Definition ask {A} (q : Query) (f : Log -> A) : M A :=
  d ← get; _ ← event (Asked q); mret (f (log d)).

Definition getJailByJid (jid : Z) : M (option JailInfo) :=
  ask (QJailByJid jid) (fun l => jailByJid w l jid).
Definition getJailByName (name : bytes) : M (option JailInfo) :=
  ask (QJailByName name) (fun l => jailByName w l name).
Definition resolve (p : bytes) : M Resolved := ask (QRealpath p) (fun l => realpath w l p).
Definition readJailEtcFile (root rel : bytes) : M (option bytes) :=
  ask (QJailFile root rel) (fun l => jailFile w l root rel).
Definition devfsMountLive (path : bytes) : M bool :=
  ask (QDevfsMount path) (fun l => devfsMounted w l path).

(** Do one thing. *)
Definition call (c : Call) : M (bytes + bytes) :=
  d ← get; _ ← event (Did c); mret (run w (log d) c).

(** Do things in order until one throws. *)
Fixpoint callAll (cs : list Call) : M (bytes + unit) :=
  match cs with
  | [] => mret (inr tt)
  | c :: rest =>
      r ← call c;
      match r with inl e => mret (inl e) | inr _ => callAll rest end
  end.
End sys.

(** ** Reasoning about runs *)

Lemma bind_run {A B} (m : M A) (f : A -> M B) d : (m ≫= f) d = let '(a, d') := m d in f a d'.
Proof. done. Qed.

Lemma ask_run {A} q (f : Log -> A) d : ask q f d = (f (log d), snd (event (Asked q) d)).
Proof. done. Qed.

(** The calls made between two states, oldest first. *)
Definition calls (l : Log) : list Call :=
  rev (omap (fun e => match e with Did c => Some c | Asked _ => None end) l).

End Sys.
