(* ===== verification/Handlers.v ===== *)
(** * The privops handlers: daemon/privops_handlers.cpp, handle<Verb>

    Each handler checks what only the running system can tell (the jail is
    alive, the path is canonical) and then makes its calls in order; the first
    failure ends it.  The FreeBSD branch is the one modelled. *)

From S2P Require Import Prelude PrivOps Limits PerUser Passwd FwLease Wire Sys.

Module Handlers.
Import PrivOps Wire Sys.

Section handlers.
Context (w : World).

Definition reply (s : Z) (b : bytes) : M DispatchResult := mret (answer s b).
Definition failure (s : Z) (kind reason : bytes) : M DispatchResult :=
  reply s (formatHandlerError kind reason).

(** [try { calls } catch (e) { return {500, formatHandlerError(kind, e)}; } return {200, ok};] *)
Definition tryAll (cs : list Call) (kind ok : bytes) : M DispatchResult :=
  r ← callAll w cs;
  match r with inl e => failure 500 kind e | inr _ => reply 200 ok end.

(** Canonical paths *)
Definition nonCanonicalReason (p what : bytes) : M bytes :=
  r ← resolve w p;
  mret match r with
       | RNoEnt => []
       | RError msg => what ++ str ": cannot resolve '" ++ p ++ str "': " ++ msg
       | RPath q =>
           if beq p q then []
           else what ++ str ": '" ++ p ++ str "' is not canonical (resolves to '" ++ q
                ++ str "'; symlink or non-normalised component)"
       end.

Definition rejectNonCanonical (reason : bytes) : M DispatchResult :=
  failure 400 (str "path_not_canonical") reason.

Definition canonical (p what : bytes) (k : M DispatchResult) : M DispatchResult :=
  e ← nonCanonicalReason p what;
  match e with [] => k | _ => rejectNonCanonical e end.

(** [getJailByJid((int)r.jid)], 404 when there is none. *)
Definition withJail (jid : Z) (k : M DispatchResult) : M DispatchResult :=
  j ← getJailByJid w (i32 jid);
  match j with
  | None => failure 404 (str "jail_not_found") (str "no running jail with jid " ++ dec_signed jid)
  | Some _ => k
  end.

Definition CRATE_PATH_IFCONFIG : bytes := str "/sbin/ifconfig".
Definition CRATE_PATH_JEXEC : bytes := str "/usr/sbin/jexec".
Definition CRATE_PATH_JAIL : bytes := str "/usr/sbin/jail".
Definition CRATE_PATH_RCTL : bytes := str "/usr/bin/rctl".
Definition CRATE_PATH_IPFW : bytes := str "/sbin/ipfw".
Definition CRATE_PATH_DEVFS : bytes := str "/sbin/devfs".
Definition CRATE_PATH_CPUSET : bytes := str "/usr/bin/cpuset".

Definition handleSetRctl (r : SetRctlReq) : M DispatchResult :=
  withJail (sr_jid r)
    (tryAll [Exec (Retune.buildSetArgv (i32 (sr_jid r))
                     {| Retune.rp_key := sr_key r; Retune.rp_rawValue := sr_rawValue r |})]
       (str "exec_failed") (formatSetRctlSuccess (sr_jid r) (sr_key r) (sr_rawValue r))).

Definition handleClearRctl (r : ClearRctlReq) : M DispatchResult :=
  withJail (cr_jid r)
    (tryAll [Exec (Retune.buildClearArgv (i32 (cr_jid r)) (cr_key r))]
       (str "exec_failed") (formatClearRctlSuccess (cr_jid r) (cr_key r))).

Definition handleAttachZfs (r : ZfsReq) : M DispatchResult :=
  withJail (zr_jid r)
    (tryAll [ZfsJail (i32 (zr_jid r)) (zr_dataset r)]
       (str "exec_failed") (formatAttachZfsSuccess (zr_jid r) (zr_dataset r))).

Definition handleDetachZfs (r : ZfsReq) : M DispatchResult :=
  withJail (zr_jid r)
    (tryAll [ZfsUnjail (i32 (zr_jid r)) (zr_dataset r)]
       (str "exec_failed") (formatDetachZfsSuccess (zr_jid r) (zr_dataset r))).

Definition handleMountNullfs (r : MountNullfsReq) : M DispatchResult :=
  canonical (mn_target r) (str "target")
    (canonical (mn_source r) (str "source")
       (tryAll [Nmount [(str "fstype", str "nullfs"); (str "fspath", mn_target r);
                        (str "target", mn_source r)] (mn_readOnly r)]
          (str "nmount_failed")
          (formatMountNullfsSuccess (mn_source r) (mn_target r) (mn_readOnly r)))).

Definition handleUnmountNullfs (r : UnmountNullfsReq) : M DispatchResult :=
  canonical (un_target r) (str "target")
    (tryAll [Unmount (un_target r) (un_force r)]
       (str "unmount_failed") (formatUnmountNullfsSuccess (un_target r))).

(** [for (i = 5; i < size - 1; i++) if (!digit) return "";] *)
Definition computeEpairPair (ifname : bytes) : bytes :=
  if size_z ifname <? 7 then []
  else if negb (starts_with (str "epair") ifname) then []
  else
    match back ifname with
    | None => []
    | Some last =>
        if negb (Ascii.eqb last "a") && negb (Ascii.eqb last "b") then []
        else if negb (all_digits (drop 5 (removelast ifname))) then []
        else removelast ifname ++ [if Ascii.eqb last "a" then "b"%char else "a"%char]
    end.

(** [jexec <jid> ifconfig <ifname> <args>] *)
Definition jexecIfconfig (r : ConfigureIfaceReq) (args : list bytes) : Call :=
  Exec (CRATE_PATH_JEXEC :: dec_signed (ci_jid r) :: CRATE_PATH_IFCONFIG :: ci_ifname r :: args).

Definition optCall (cond : bytes) (c : Call) : list Call := if is_empty cond then [] else [c].

Definition configureCalls (r : ConfigureIfaceReq) (hostHalf : bytes) : list Call :=
  let conf :=
    optCall (ci_ipv4Cidr r) (jexecIfconfig r [str "inet"; ci_ipv4Cidr r])
    ++ optCall (ci_ipv6Cidr r) (jexecIfconfig r [str "inet6"; ci_ipv6Cidr r])
    ++ optCall (ci_macAddr r) (jexecIfconfig r [str "ether"; ci_macAddr r]) in
  MoveToVnet (ci_ifname r) (i32 (ci_jid r))
  :: conf
  ++ (if is_empty conf then [] else [jexecIfconfig r [str "up"]])
  ++ optCall (ci_bridge r) (BridgeAdd (ci_bridge r) hostHalf).

Definition handleConfigureIface (r : ConfigureIfaceReq) : M DispatchResult :=
  withJail (ci_jid r)
    (let hostHalf := if is_empty (ci_bridge r) then [] else computeEpairPair (ci_ifname r) in
     if negb (is_empty (ci_bridge r)) && is_empty hostHalf then
       failure 400 (str "non_epair_with_bridge")
         (str "bridge attach requires an epair-shaped ifname (got '" ++ ci_ifname r ++ str "')")
     else
       tryAll (configureCalls r hostHalf) (str "exec_failed")
         (formatConfigureIfaceSuccess (ci_jid r) (ci_ifname r) (ci_bridge r) (ci_ipv4Cidr r)
            (ci_ipv6Cidr r) (ci_macAddr r))).

Definition handleTeardownIface (r : IfnameReq) : M DispatchResult :=
  tryAll [IfDestroy (if_ifname r)] (str "destroy_failed") (formatTeardownIfaceSuccess (if_ifname r)).

Definition handleAddPfRule (r : PfRuleReq) : M DispatchResult :=
  tryAll [PfAdd (pf_anchor r) (pf_ruleText r)] (str "pfctl_failed")
    (formatAddPfRuleSuccess (pf_anchor r) (pf_ruleText r)).

Definition handleRemovePfRule (r : PfRuleReq) : M DispatchResult :=
  tryAll [PfFlush (pf_anchor r)] (str "pfctl_failed") (formatRemovePfRuleSuccess (pf_anchor r)).

Definition handleAddIpfwRule (r : AddIpfwRuleReq) : M DispatchResult :=
  tryAll [Exec ([CRATE_PATH_IPFW; str "add"; dec (ai_number r); str "set"; dec (ai_set r); ai_action r]
                ++ words (ai_body r))]
    (str "ipfw_failed") (formatAddIpfwRuleSuccess (ai_set r) (ai_number r) (ai_action r) (ai_body r)).

Definition handleRemoveIpfwRule (r : RemoveIpfwRuleReq) : M DispatchResult :=
  tryAll [IpfwDelete (ri_number r)] (str "ipfw_failed")
    (formatRemoveIpfwRuleSuccess (ri_set r) (ri_number r)).

(** [jail -c name=.. path=.. [host.hostname=..] [vnet] params.. persist] *)
Definition createJailArgv (r : CreateJailReq) : list bytes :=
  [CRATE_PATH_JAIL; str "-c"; str "name=" ++ cj_name r; str "path=" ++ cj_path r]
  ++ (if is_empty (cj_hostname r) then [] else [str "host.hostname=" ++ cj_hostname r])
  ++ (if cj_vnet r then [str "vnet"] else [])
  ++ words (cj_parameters r)
  ++ [str "persist"].

Definition handleCreateJail (r : CreateJailReq) : M DispatchResult :=
  canonical (cj_path r) (str "path")
    (tryAll [Exec (createJailArgv r)] (str "jail_failed")
       (formatCreateJailSuccess (cj_name r) (cj_path r))).

Definition handleDestroyJail (r : DestroyJailReq) : M DispatchResult :=
  tryAll [Exec [CRATE_PATH_JAIL; str (if dj_force r then "-R" else "-r"); dj_name r]]
    (str "jail_failed") (formatDestroyJailSuccess (dj_name r)).

Definition handleSetIfaceUp (r : IfnameReq) : M DispatchResult :=
  tryAll [IfUp (if_ifname r)] (str "ifconfig_failed") (formatSetIfaceUpSuccess (if_ifname r)).

Definition handleDisableIfaceOffload (r : IfnameReq) : M DispatchResult :=
  tryAll [IfOffload (if_ifname r)] (str "ifconfig_failed")
    (formatDisableIfaceOffloadSuccess (if_ifname r)).

Definition handleBridgeAddMember (r : BridgeMemberReq) : M DispatchResult :=
  tryAll [BridgeAdd (bm_bridge r) (bm_member r)] (str "ifconfig_failed")
    (formatBridgeAddMemberSuccess (bm_bridge r) (bm_member r)).

Definition handleBridgeDelMember (r : BridgeMemberReq) : M DispatchResult :=
  tryAll [BridgeDel (bm_bridge r) (bm_member r)] (str "ifconfig_failed")
    (formatBridgeDelMemberSuccess (bm_bridge r) (bm_member r)).

Definition handleSetIfaceInetAddr (r : SetIfaceInetAddrReq) : M DispatchResult :=
  tryAll [if sa_inet6 r then IfInet6 (sa_ifname r) (sa_addr r) (i32 (sa_prefixLen r))
          else IfInet (sa_ifname r) (sa_addr r) (i32 (sa_prefixLen r))]
    (str "ifconfig_failed") (formatSetIfaceInetAddrSuccess (sa_ifname r) (sa_addr r) (sa_prefixLen r)).

(** The names IfconfigOps::createEpair makes of what ifconfig printed: the
    line, and the line with a trailing 'a' turned into 'b'. *)
Fixpoint dropNewlines (rev : bytes) : bytes :=
  match rev with
  | c :: t => if Ascii.eqb c newline || Ascii.eqb c cr then dropNewlines t else rev
  | [] => []
  end.

Definition createEpair (output : bytes) : bytes * bytes :=
  let a := rev (dropNewlines (rev output)) in
  (a, if backIs "a" a then removelast a ++ ["b"%char] else a).

Definition handleCreateEpair : M DispatchResult :=
  r ← call w IfCreateEpair;
  match r with
  | inl e => failure 500 (str "ifconfig_failed") e
  | inr output => let '(a, b) := createEpair output in reply 200 (formatCreateEpairSuccess a b)
  end.

Definition handleEnsureUserRoot (peerUid : Z) : M DispatchResult :=
  if peerUid =? 0 then
    failure 400 (str "no_peer_uid")
      (str "ensure_user_root needs the libnv transport (peer uid > 0); root uses /var/run/crate directly")
  else
    tryAll [MkUserRoot peerUid] (str "mkdir_failed")
      (formatEnsureUserRootSuccess peerUid (RuntimePaths.perUserRoot peerUid)).

Definition loginclassRule (loginclass key : bytes) : bytes :=
  str "loginclass:" ++ loginclass ++ str ":" ++ key ++ str ":deny".

Definition handleSetLoginclassRctl (r : SetLoginclassRctlReq) : M DispatchResult :=
  tryAll [Exec [CRATE_PATH_RCTL; str "-a";
                loginclassRule (sl_loginclass r) (sl_key r) ++ str "=" ++ sl_rawValue r]]
    (str "exec_failed")
    (formatSetLoginclassRctlSuccess (sl_loginclass r) (sl_key r) (sl_rawValue r)).

Definition handleClearLoginclassRctl (r : ClearLoginclassRctlReq) : M DispatchResult :=
  tryAll [Exec [CRATE_PATH_RCTL; str "-r"; loginclassRule (cl_loginclass r) (cl_key r)]]
    (str "exec_failed") (formatClearLoginclassRctlSuccess (cl_loginclass r) (cl_key r)).

Definition handleReclaimIfaceFromVnet (r : ReclaimIfaceReq) : M DispatchResult :=
  tryAll [MoveFromVnet (rc_ifname r) (rc_jailName r)] (str "ifconfig_failed")
    (formatReclaimIfaceFromVnetSuccess (rc_ifname r) (rc_jailName r)).

Definition handleFlushPfAnchor (r : FlushPfAnchorReq) : M DispatchResult :=
  tryAll [PfFlush (fa_anchor r)] (str "pfctl_failed") (formatFlushPfAnchorSuccess (fa_anchor r)).

(** The reply carries the command's output. *)
Definition handleQueryJailRctl (r : QueryJailRctlReq) : M DispatchResult :=
  o ← call w (Exec [CRATE_PATH_RCTL; str (if qr_limits r then "-h" else "-u");
                    str "jail:" ++ dec (qr_jid r)]);
  match o with
  | inl e => failure 500 (str "rctl_failed") e
  | inr out => reply 200 (formatQueryJailRctlSuccess (qr_jid r) out)
  end.

Definition handleConfigureIpfwNat (r : ConfigureIpfwNatReq) : M DispatchResult :=
  tryAll [Exec ([CRATE_PATH_IPFW; str "nat"; dec (cn_number r); str "config"] ++ words (cn_config r))]
    (str "ipfw_failed") (formatConfigureIpfwNatSuccess (cn_number r)).

Definition handleSetJailCpuset (r : SetJailCpusetReq) : M DispatchResult :=
  tryAll [Exec [CRATE_PATH_CPUSET; str "-l"; sc_cpuset r; str "-j"; dec (sc_jid r)]]
    (str "cpuset_failed") (formatSetJailCpusetSuccess (sc_jid r) (sc_cpuset r)).

Definition devfsApplyset (mountPath : bytes) : Call :=
  Exec [CRATE_PATH_DEVFS; str "-m"; mountPath; str "rule"; str "applyset"].
Definition devfsUse (mountPath : bytes) (ruleset : Z) : Call :=
  Exec [CRATE_PATH_DEVFS; str "-m"; mountPath; str "ruleset"; dec ruleset].

Definition handleApplyDevfsRuleset (r : ApplyDevfsRulesetReq) : M DispatchResult :=
  canonical (ad_mountPath r) (str "mount_path")
    (tryAll [devfsUse (ad_mountPath r) (ad_ruleset r); devfsApplyset (ad_mountPath r)]
       (str "devfs_failed") (formatApplyDevfsRulesetSuccess (ad_mountPath r) (ad_ruleset r))).

Definition handleAddDevfsUnhideRule (r : AddDevfsUnhideRuleReq) : M DispatchResult :=
  canonical (au_mountPath r) (str "mount_path")
    (tryAll [Exec [CRATE_PATH_DEVFS; str "-m"; au_mountPath r; str "rule"; str "add"; str "path";
                   au_pathPattern r; str "unhide"];
             devfsApplyset (au_mountPath r)]
       (str "devfs_failed") (formatAddDevfsUnhideRuleSuccess (au_mountPath r) (au_pathPattern r))).

Definition handleMountTmpfs (r : MountTmpfsReq) : M DispatchResult :=
  let opt (k v : bytes) := if is_empty v then [] else [(k, v)] in
  canonical (mt_target r) (str "target")
    (tryAll [Nmount ([(str "fstype", str "tmpfs"); (str "fspath", mt_target r)]
                     ++ opt (str "size") (mt_size r) ++ opt (str "uid") (mt_uid r)
                     ++ opt (str "gid") (mt_gid r) ++ opt (str "mode") (mt_mode r)) false]
       (str "nmount_failed") (formatMountTmpfsSuccess (mt_target r))).

(** [devfs rule -s <rs> add <tokens>], empty tokens skipped *)
Definition devfsAddRule (ruleset : Z) (rule : bytes) : Call :=
  Exec ([CRATE_PATH_DEVFS; str "rule"; str "-s"; dec ruleset; str "add"]
        ++ List.filter (fun t => negb (is_empty t)) (split_on " " rule)).

Definition handleApplyDevfsRules (r : ApplyDevfsRulesReq) : M DispatchResult :=
  canonical (ar_mountPath r) (str "mount_path")
    (_ ← call w (Exec [CRATE_PATH_DEVFS; str "rule"; str "-s"; dec (ar_ruleset r); str "delset"]);
     tryAll (map (devfsAddRule (ar_ruleset r)) (ar_rules r)
             ++ [devfsUse (ar_mountPath r) (ar_ruleset r); devfsApplyset (ar_mountPath r)])
       (str "devfs_failed")
       (formatApplyDevfsRulesSuccess (ar_mountPath r) (ar_ruleset r) (size_z (ar_rules r)))).

Definition handleSignalJail (r : SignalJailReq) : M DispatchResult :=
  tryAll [Exec [CRATE_PATH_JEXEC; dec (sj_jid r); str "/bin/kill"; str "-" ++ sj_signal r; str "-1"]]
    (str "jexec_failed") (formatSignalJailSuccess (sj_jid r) (sj_signal r)).

Definition handleSetIfaceMac (r : SetIfaceMacReq) : M DispatchResult :=
  tryAll [IfMac (sm_ifname r) (sm_mac r)] (str "ifconfig_failed")
    (formatSetIfaceMacSuccess (sm_ifname r) (sm_mac r)).

Definition handleDeleteIpfwNat (r : DeleteIpfwNatReq) : M DispatchResult :=
  tryAll [Exec [CRATE_PATH_IPFW; str "nat"; dec (dn_number r); str "delete"]]
    (str "ipfw_failed") (formatDeleteIpfwNatSuccess (dn_number r)).

Definition handleCreateBridge (r : CreateBridgeReq) : M DispatchResult :=
  tryAll [IfCreate (cb_name r); IfUp (cb_name r)] (str "ifconfig_failed")
    (formatCreateBridgeSuccess (cb_name r)).

(** ** Firewall leases *)

Definition noFwRegistry : M DispatchResult :=
  failure 503 (str "no_fw_lease_registry") (str "crated has no firewall-lease registry").

Definition handleAcquireFwLease (r : AcquireFwLeaseReq) : M DispatchResult :=
  d ← get;
  match fwReg d with
  | None => noFwRegistry
  | Some _ =>
      j ← getJailByJid w (i32 (af_jid r));
      if match j with Some ji => ji_dying ji | None => true end then
        failure 404 (str "jail_not_found")
          (str "jid " ++ dec (af_jid r) ++ str " is not a running jail")
      else
        d' ← get;
        match fwReg d' with
        | None => noFwRegistry
        | Some reg =>
            let '(out, reg') := FwLease.acquireReg (fwIo w (log d')) (af_jid r) (af_slot r)
                                  (af_fwd4 r) (af_fwd6 r) reg in
            _ ← setFwReg reg';
            match out with
            | FwLease.Refused e => failure 409 (str "fw_lease_exhausted") e
            | FwLease.Thrown => failure 500 (str "fw_lease_failed") (fwError w (log d'))
            | FwLease.Returned x =>
                reply 200 (formatAcquireFwLeaseSuccess (af_jid r) (FwLease.r_slot x)
                             (FwLease.r_fwd4Users x) (FwLease.r_fwd6Users x))
            end
        end
  end.

Definition handleReleaseFwLease (r : ReleaseFwLeaseReq) : M DispatchResult :=
  d ← get;
  match fwReg d with
  | None => noFwRegistry
  | Some reg =>
      let '(out, reg') := FwLease.releaseReg (fwIo w (log d)) (rf_jid r) reg in
      _ ← setFwReg reg';
      match out with
      | FwLease.Refused e => failure 500 (str "fw_lease_failed") e
      | FwLease.Thrown => failure 500 (str "fw_lease_failed") (fwError w (log d))
      | FwLease.Returned x =>
          reply 200 (formatReleaseFwLeaseSuccess (rf_jid r) (FwLease.r_released x)
                       (FwLease.r_fwd4Users x) (FwLease.r_fwd6Users x))
      end
  end.

(** ** exec_in_jail *)

Record ExecIo := { stdinFd : Z; stdoutFd : Z; stderrFd : Z }.

Definition root : bytes := str "root".

(** The user to run as, resolved from the jail's own passwd file. *)
Definition resolveUser (jailPath name : bytes) : M (DispatchResult + Passwd.User) :=
  let switchUser := negb (beq name root) in
  master ← readJailEtcFile w jailPath (str "etc/master.passwd");
  content ← match master with
            | Some c => mret (Some c)
            | None => readJailEtcFile w jailPath (str "etc/passwd")
            end;
  mret match content with
       | Some c =>
           match Passwd.lookupUser c name with
           | Some u => inr u
           | None =>
               if switchUser then
                 inl (answer 404 (formatHandlerError (str "user_not_found")
                        (str "user '" ++ name ++ str "' is not in the jail's passwd file")))
               else inr {| Passwd.u_name := root; Passwd.u_uid := 0; Passwd.u_gid := 0;
                           Passwd.u_loginClass := []; Passwd.u_home := []; Passwd.u_shell := [] |}
           end
       | None =>
           if switchUser then
             inl (answer 404 (formatHandlerError (str "user_not_found")
                                (str "jail has no readable etc/master.passwd")))
           else inr {| Passwd.u_name := name; Passwd.u_uid := 0; Passwd.u_gid := 0;
                       Passwd.u_loginClass := []; Passwd.u_home := []; Passwd.u_shell := [] |}
       end.

Definition execEnv (u : Passwd.User) (term : bytes) : list bytes :=
  let or (v d : bytes) := if is_empty v then d else v in
  [str "PATH=/sbin:/bin:/usr/sbin:/usr/bin:/usr/local/sbin:/usr/local/bin";
   str "HOME=" ++ or (Passwd.u_home u) (str "/"); str "SHELL=" ++ or (Passwd.u_shell u) (str "/bin/sh");
   str "USER=" ++ Passwd.u_name u; str "LOGNAME=" ++ Passwd.u_name u]
  ++ (if is_empty term then [] else [str "TERM=" ++ term]).

(** The reply and the process descriptor ([-1]: none). *)
Definition handleExecInJail (r : ExecInJailReq) (io : ExecIo) : M (DispatchResult * Z) :=
  let bad (d : DispatchResult) : M (DispatchResult * Z) := mret (d, -1) in
  if (stdinFd io <? 0) || (stdoutFd io <? 0) || (stderrFd io <? 0) then
    bad (answer 400 (formatHandlerError (str "missing_descriptors")
           (str "exec_in_jail needs stdin/stdout/stderr descriptors (libnv transport only)")))
  else
    j ← getJailByJid w (i32 (ex_jid r));
    match j with
    | Some {| ji_path := path; ji_dying := false |} =>
        let name := if is_empty (ex_user r) then root else ex_user r in
        let switchUser := negb (beq name root) in
        u ← resolveUser path name;
        match u with
        | inl d => bad d
        | inr user =>
            if switchUser && (Passwd.u_uid user =? 0) then
              bad (answer 403 (formatHandlerError (str "user_is_root")
                     (str "user '" ++ Passwd.u_name user ++ str "' maps to uid 0 in the jail")))
            else
              g ← readJailEtcFile w path (str "etc/group");
              let groups := match g with
                            | Some c => Passwd.supplementaryGroups c (Passwd.u_name user)
                                          (Passwd.u_gid user) 64
                            | None => [Passwd.u_gid user]
                            end in
              d ← get;
              out ← call w (JailProc (i32 (ex_jid r))
                              (if switchUser then Some (Passwd.u_uid user, Passwd.u_gid user, groups)
                               else None)
                              (ex_argv r) (execEnv user (ex_term r)));
              match out with
              | inl e => bad (answer 500 (formatHandlerError (str "pdfork_failed") e))
              | inr _ =>
                  let '(pid, pd) := forked w (log d) in
                  mret (answer 200 (formatExecInJailSuccess (ex_jid r) pid), pd)
              end
        end
    | _ =>
        bad (answer 404 (formatHandlerError (str "jail_not_found")
               (str "jid " ++ dec (ex_jid r) ++ str " is not a running jail")))
    end.

End handlers.
End Handlers.
