(* ===== verification/Dispatch.v ===== *)
(** * The privops dispatchers: daemon/privops_handlers.cpp

    [dispatchPrivOpFromMap] is the libnv entry point: it authorizes the caller
    by its peer uid, then parses, validates and runs the verb, then updates the
    registries.  [dispatchPrivOp] is the HTTP (admin) entry point. *)

From S2P Require Import Prelude PerUser PrivOps Authz OMap JidOwner IfaceOwner FwLease PrivOpsNv.
From S2P Require Import Wire Sys Handlers.

Module Dispatch.
Import PrivOps PrivOpsNv Wire Sys Handlers.

(** ** [std::stoul(s)]

    Leading white space, an optional sign, then as many digits as there are;
    [None] is the exception (no digit, or past [ULONG_MAX]).  A minus sign
    negates modulo 2^64. *)

Fixpoint skipSpace (s : bytes) : bytes :=
  match s with c :: t => if is_space c then skipSpace t else s | [] => [] end.

Definition stoul (s : bytes) : option Z :=
  let s1 := skipSpace s in
  let '(neg, s2) := match s1 with
                    | c :: t => if Ascii.eqb c "-" then (true, t)
                                else if Ascii.eqb c "+" then (false, t) else (false, s1)
                    | [] => (false, s1)
                    end in
  let '(digits, _) := Json.spanDigits s2 in
  if is_empty digits then None
  else if ulong_max <? dec_value digits then None
  else Some (if neg then u64 (- dec_value digits) else dec_value digits).

(** [try { x = static_cast<unsigned>(std::stoul(s)); } catch (...) { x = 0; }] *)
Definition gateUnsigned (s : bytes) : Z :=
  match stoul s with Some v => u32 v | None => 0 end.

(** What the operator configures: setPerUserAuthzConfig, setUmbrellaConfig. *)
Record Config := {
  perUserAuthzCfg : PerUserEnv.Config;
  umbrellaRules : list (bytes * bytes) }.

Section dispatch.
Context (w : World) (cfg : Config).

(** ** Devfs ruleset claims *)

(** [out.find_first_not_of(" \t\r\n") == npos]; a failed probe counts as in use. *)
Definition devfsRulesetEmpty (ruleset : Z) : M bool :=
  o ← ask (QDevfsShow ruleset) (fun l => devfsShow w l ruleset);
  mret match o with Some out => forallb (Json.jsonWs) out | None => false end.

Definition devfsRulesetOwner (ruleset : Z) : M Authz.Owner :=
  d ← get;
  match devfsClaims d !! ruleset with
  | Some c =>
      live ← devfsMountLive w (cl_mountPath c);
      match live with
      | true => mret {| Authz.known := true; Authz.o_uid := cl_uid c |}
      | false => _ ← setClaims (delete ruleset (devfsClaims d)); mret Authz.noOwner
      end
  | None =>
      e ← devfsRulesetEmpty ruleset;
      mret match e with
           | true => Authz.noOwner
           | false => {| Authz.known := true; Authz.o_uid := 0 |}
           end
  end.

(** [&&] short-circuits: the mount is probed only for another uid's claim. *)
Definition claimDevfsRuleset (ruleset uid : Z) (mountPath : bytes) (force : bool) : M bool :=
  d ← get;
  taken ← match devfsClaims d !! ruleset with
          | Some c =>
              if negb force && negb (cl_uid c =? uid) then devfsMountLive w (cl_mountPath c)
              else mret false
          | None => mret false
          end;
  match taken with
  | true => mret false
  | false =>
      _ ← setClaims (<[ruleset := {| cl_uid := uid; cl_mountPath := mountPath |}]> (devfsClaims d));
      mret true
  end.

(** ** The gate *)

Definition field (m : FieldMap) (key : bytes) : bytes := default [] (m !! key).

(** The path the gate judges. *)
Definition gatePath (v : Verb) (m : FieldMap) : bytes :=
  match v with
  | MountNullfs | UnmountNullfs | MountTmpfs => field m (str "target")
  | ApplyDevfsRuleset | AddDevfsUnhideRule | ApplyDevfsRules => field m (str "mount_path")
  | CreateJail => field m (str "path")
  | _ => []
  end.

(** The interface the gate judges. *)
Definition gateIfname (v : Verb) (m : FieldMap) : bytes :=
  match v with
  | ConfigureIface | TeardownIface | SetIfaceUp | DisableIfaceOffload | SetIfaceInetAddr | SetIfaceMac
  | ReclaimIfaceFromVnet => field m (str "ifname")
  | BridgeAddMember | BridgeDelMember => field m (str "member")
  | _ => []
  end.

Definition gateRequest (v : Verb) (m : FieldMap) (ruleset : Z) : Authz.Request :=
  {| Authz.dataset := field m (str "dataset");
     Authz.req_loginclass := field m (str "loginclass");
     Authz.jailName := match v with
                       | ReclaimIfaceFromVnet => field m (str "jail_name")
                       | _ => field m (str "name")
                       end;
     Authz.jid := let s := field m (str "jid") in if is_empty s then 0 else gateUnsigned s;
     Authz.path := gatePath v m;
     Authz.source := match v with MountNullfs => field m (str "source") | _ => [] end;
     Authz.anchor := match v with
                     | AddPfRule | RemovePfRule | FlushPfAnchor => field m (str "anchor")
                     | _ => []
                     end;
     Authz.ifname := gateIfname v m;
     Authz.devfsRuleset := ruleset |}.

(** The lookups the authorizer makes, in order, on a given lookup object. *)
Inductive Lookup := LJid (j : Z) | LName (n : bytes) | LIface (i : bytes) | LDevfs (r : Z).

Definition lookupsOf (v : Verb) (req : Authz.Request) (env : PerUserEnv.Env) (lk : Authz.OwnerLookup)
  : list Lookup :=
  let jid := [LJid (Authz.jid req)] in
  let name n := [LName n] in
  let iface := if Authz.isEpairIfaceName (Authz.ifname req) then [LIface (Authz.ifname req)] else [] in
  match v with
  | AttachZfs | DetachZfs =>
      if Authz.datasetOwned (Authz.dataset req) (PerUserEnv.zfsPrefix env) then jid else []
  | AddPfRule | RemovePfRule | FlushPfAnchor =>
      let jail := Authz.anchorJailName (Authz.anchor req) in
      if is_empty jail then [] else name jail
  | SetRctl | ClearRctl | SetJailCpuset | QueryJailRctl | SignalJail
  | AcquireFwLease | ReleaseFwLease | ExecInJail => jid
  | ConfigureIface =>
      jid ++ match Authz.checkOwnedJid (Authz.jid req) env lk with Authz.Allow => iface | _ => [] end
  | TeardownIface | SetIfaceUp | DisableIfaceOffload | SetIfaceInetAddr | SetIfaceMac
  | BridgeAddMember | BridgeDelMember => iface
  | DestroyJail => name (Authz.jailName req)
  | ReclaimIfaceFromVnet =>
      name (Authz.jailName req)
      ++ match Authz.checkOwnedName (Authz.jailName req) env lk with Authz.Allow => iface | _ => [] end
  | ApplyDevfsRules =>
      match Authz.checkOwnedPath (Authz.path req) env lk with
      | Authz.Allow => if Authz.isPrivateDevfsRuleset (Authz.devfsRuleset req)
                       then [LDevfs (Authz.devfsRuleset req)] else []
      | _ => []
      end
  | _ => []
  end.

(** What one lookup answers, and what it leaves behind (a stale entry is
    dropped on the way). *)
Definition doLookup (l : Lookup) : M Authz.Owner :=
  d ← get;
  match l with
  | LJid j =>
      match jidReg d with
      | None => mret Authz.noOwner
      | Some s => let '(o, s') := JidOwner.lookupJid (jidIo w (log d)) (jidProbe w (log d)) j s in
                  _ ← setJidReg s'; mret o
      end
  | LName n =>
      match jidReg d with
      | None => mret Authz.noOwner
      | Some s => let '(o, s') := JidOwner.lookupName (jidIo w (log d)) (jidProbe w (log d)) n s in
                  _ ← setJidReg s'; mret o
      end
  | LIface i =>
      match ifReg d with
      | None => mret Authz.noOwner
      | Some s => let '(o, s') := IfaceOwner.lookup (ifIo w (log d)) (ifProbe w (log d)) i s in
                  _ ← setIfReg s'; mret o
      end
  | LDevfs r => devfsRulesetOwner r
  end.

(** The lookup object of a request: what each function would answer now. *)
Definition lookupOf (d : Daemon) : Authz.OwnerLookup :=
  let answer1 (l : Lookup) := fst (doLookup l d) in
  {| Authz.byJid := Some (fun j => answer1 (LJid j));
     Authz.byName := Some (fun n => answer1 (LName n));
     Authz.byPath := Some (fun p => match jidReg d with
                                    | None => Authz.noOwner
                                    | Some s => JidOwner.lookupPath p s
                                    end);
     Authz.byIface := match ifReg d with
                      | None => None
                      | Some _ => Some (fun i => answer1 (LIface i))
                      end;
     Authz.byDevfsRuleset := Some (fun r => answer1 (LDevfs r)) |}.

(** Run the lookups for their effect. *)
Fixpoint doLookups (ls : list Lookup) : M unit :=
  match ls with [] => mret tt | l :: rest => _ ← doLookup l; doLookups rest end.

Definition authorizeNow (v : Verb) (req : Authz.Request) (env : PerUserEnv.Env) : M Authz.Decision :=
  d ← get;
  _ ← doLookups (lookupsOf v req env (lookupOf d));
  mret (Authz.authorize v req env (lookupOf d)).

Definition isApplyDevfsRules (v : Verb) : bool := match v with ApplyDevfsRules => true | _ => false end.

(** The ruleset apply_devfs_rules names, 0 for every other verb. *)
Definition requestRuleset (v : Verb) (m : FieldMap) : Z :=
  if isApplyDevfsRules v then
    match m !! str "ruleset" with Some s => gateUnsigned s | None => 0 end
  else 0.
Definition requestMount (v : Verb) (m : FieldMap) : bytes :=
  if isApplyDevfsRules v then field m (str "mount_path") else [].

Definition gate (v : Verb) (m : FieldMap) (rootlessPerUser : bool) (operatorUid : Z) : M Authz.Decision :=
  let ruleset := requestRuleset v m in
  let mount := requestMount v m in
  if rootlessPerUser && (0 <? operatorUid) then
    let env := fst (PerUserEnv.composeForUid (perUserAuthzCfg cfg) operatorUid) in
    dec ← authorizeNow v (gateRequest v m ruleset) env;
    match dec with
    | Authz.Allow =>
        if isApplyDevfsRules v then
          ok ← claimDevfsRuleset ruleset operatorUid mount false;
          mret match ok with true => Authz.Allow | false => Authz.DenyForeignDevfsRuleset end
        else mret Authz.Allow
    | _ => mret dec
    end
  else if isApplyDevfsRules v then
    _ ← claimDevfsRuleset ruleset operatorUid mount true; mret Authz.Allow
  else mret Authz.Allow.

(** ** Running the verb *)

(** Parse, validate, handle; the process descriptor is [-1] but for exec_in_jail. *)
Definition runHandler {Req} (parsed : bytes + Req) (validate : Req -> bytes)
  (h : Req -> M DispatchResult) : M (DispatchResult * Z) :=
  parseThenValidate parsed validate (fun d => mret (d, -1)) (fun r => d ← h r; mret (d, -1)).

Definition unknownVerb : DispatchResult := answer 404 (errorObj (str "unknown or missing 'verb' field")).

Definition runVerbFromMap (v : Verb) (m : FieldMap) (operatorUid : Z) (io : option ExecIo)
  : M (DispatchResult * Z) :=
  match v with
  | SetRctl => runHandler (PrivOpsNv.parseSetRctl m) validateSetRctl (handleSetRctl w)
  | ClearRctl => runHandler (PrivOpsNv.parseClearRctl m) validateClearRctl (handleClearRctl w)
  | AttachZfs => runHandler (PrivOpsNv.parseAttachZfs m) validateAttachZfs (handleAttachZfs w)
  | DetachZfs => runHandler (PrivOpsNv.parseDetachZfs m) validateDetachZfs (handleDetachZfs w)
  | MountNullfs => runHandler (PrivOpsNv.parseMountNullfs m) validateMountNullfs (handleMountNullfs w)
  | UnmountNullfs => runHandler (PrivOpsNv.parseUnmountNullfs m) validateUnmountNullfs (handleUnmountNullfs w)
  | ConfigureIface => runHandler (PrivOpsNv.parseConfigureIface m) validateConfigureIface (handleConfigureIface w)
  | TeardownIface => runHandler (PrivOpsNv.parseTeardownIface m) validateTeardownIface (handleTeardownIface w)
  | AddPfRule => runHandler (PrivOpsNv.parseAddPfRule m) validateAddPfRule (handleAddPfRule w)
  | RemovePfRule => runHandler (PrivOpsNv.parseRemovePfRule m) validateRemovePfRule (handleRemovePfRule w)
  | AddIpfwRule => runHandler (PrivOpsNv.parseAddIpfwRule m) validateAddIpfwRule (handleAddIpfwRule w)
  | RemoveIpfwRule => runHandler (PrivOpsNv.parseRemoveIpfwRule m) validateRemoveIpfwRule (handleRemoveIpfwRule w)
  | CreateJail => runHandler (PrivOpsNv.parseCreateJail m) validateCreateJail (handleCreateJail w)
  | DestroyJail => runHandler (PrivOpsNv.parseDestroyJail m) validateDestroyJail (handleDestroyJail w)
  | SetIfaceUp => runHandler (PrivOpsNv.parseSetIfaceUp m) validateSetIfaceUp (handleSetIfaceUp w)
  | DisableIfaceOffload => runHandler (PrivOpsNv.parseDisableIfaceOffload m) validateDisableIfaceOffload (handleDisableIfaceOffload w)
  | BridgeAddMember => runHandler (PrivOpsNv.parseBridgeAddMember m) validateBridgeAddMember (handleBridgeAddMember w)
  | BridgeDelMember => runHandler (PrivOpsNv.parseBridgeDelMember m) validateBridgeDelMember (handleBridgeDelMember w)
  | SetIfaceInetAddr => runHandler (PrivOpsNv.parseSetIfaceInetAddr m) validateSetIfaceInetAddr (handleSetIfaceInetAddr w)
  | EnsureUserRoot => d ← handleEnsureUserRoot w operatorUid; mret (d, -1)
  | CreateEpair => d ← handleCreateEpair w; mret (d, -1)
  | SetLoginclassRctl => runHandler (PrivOpsNv.parseSetLoginclassRctl m) validateSetLoginclassRctl (handleSetLoginclassRctl w)
  | ClearLoginclassRctl => runHandler (PrivOpsNv.parseClearLoginclassRctl m) validateClearLoginclassRctl (handleClearLoginclassRctl w)
  | ReclaimIfaceFromVnet => runHandler (PrivOpsNv.parseReclaimIfaceFromVnet m) validateReclaimIfaceFromVnet (handleReclaimIfaceFromVnet w)
  | FlushPfAnchor => runHandler (PrivOpsNv.parseFlushPfAnchor m) validateFlushPfAnchor (handleFlushPfAnchor w)
  | QueryJailRctl => runHandler (PrivOpsNv.parseQueryJailRctl m) validateQueryJailRctl (handleQueryJailRctl w)
  | ConfigureIpfwNat => runHandler (PrivOpsNv.parseConfigureIpfwNat m) validateConfigureIpfwNat (handleConfigureIpfwNat w)
  | SetJailCpuset => runHandler (PrivOpsNv.parseSetJailCpuset m) validateSetJailCpuset (handleSetJailCpuset w)
  | ApplyDevfsRuleset => runHandler (PrivOpsNv.parseApplyDevfsRuleset m) validateApplyDevfsRuleset (handleApplyDevfsRuleset w)
  | AddDevfsUnhideRule => runHandler (PrivOpsNv.parseAddDevfsUnhideRule m) validateAddDevfsUnhideRule (handleAddDevfsUnhideRule w)
  | ApplyDevfsRules => runHandler (PrivOpsNv.parseApplyDevfsRules m) validateApplyDevfsRules (handleApplyDevfsRules w)
  | MountTmpfs => runHandler (PrivOpsNv.parseMountTmpfs m) validateMountTmpfs (handleMountTmpfs w)
  | SignalJail => runHandler (PrivOpsNv.parseSignalJail m) validateSignalJail (handleSignalJail w)
  | ExecInJail =>
      parseThenValidate (PrivOpsNv.parseExecInJail m) validateExecInJail (fun d => mret (d, -1))
        (fun r => match io with
                  | None => mret (answer 400 (formatHandlerError (str "missing_descriptors")
                              (str "exec_in_jail needs stdin/stdout/stderr descriptors")), -1)
                  | Some io => handleExecInJail w r io
                  end)
  | SetIfaceMac => runHandler (PrivOpsNv.parseSetIfaceMac m) validateSetIfaceMac (handleSetIfaceMac w)
  | DeleteIpfwNat => runHandler (PrivOpsNv.parseDeleteIpfwNat m) validateDeleteIpfwNat (handleDeleteIpfwNat w)
  | CreateBridge => runHandler (PrivOpsNv.parseCreateBridge m) validateCreateBridge (handleCreateBridge w)
  | AcquireFwLease => runHandler (PrivOpsNv.parseAcquireFwLease m) validateAcquireFwLease (handleAcquireFwLease w)
  | ReleaseFwLease => runHandler (PrivOpsNv.parseReleaseFwLease m) validateReleaseFwLease (handleReleaseFwLease w)
  | Unknown => mret (unknownVerb, -1)
  end.

(** ** After the verb *)

Definition is2xx (s : Z) : bool := (200 <=? s) && (s <? 300).

Definition outcomeFor (s : Z) : bytes :=
  if is2xx s then str "ok"
  else if s =? 400 then str "parse_or_validate"
  else if s =? 403 then str "forbidden"
  else if s =? 404 then str "not_found"
  else if s =? 429 then str "rate_limit"
  else if (500 <=? s) && (s <? 600) then str "server_error"
  else str "other".

Definition formatLine (ts uid : Z) (verb : bytes) (s : Z) : bytes :=
  obj [("ts", JNum ts); ("uid", JNum uid); ("verb", JStr verb); ("status", JNum s);
       ("outcome", JStr (outcomeFor s))]%string.

Definition maybeWritePerUserAudit (rootlessPerUser : bool) (uid : Z) (v : Verb) (s : Z) : M unit :=
  if negb rootlessPerUser || (uid =? 0) then mret tt
  else d ← get; _ ← call w (AuditLine uid (formatLine (now w (log d)) uid (verbName v) s)); mret tt.

(** Every rule is tried; a failure is logged only. *)
Fixpoint callEach (cs : list Call) : M unit :=
  match cs with [] => mret tt | c :: rest => _ ← call w c; callEach rest end.

Definition umbrellaRule (uid : Z) (kv : bytes * bytes) : Call :=
  Exec [CRATE_PATH_RCTL; str "-a";
        str "loginclass:" ++ (str "crate-" ++ dec uid) ++ str ":" ++ fst kv ++ str ":deny=" ++ snd kv].

Definition maybeApplyUmbrella (v : Verb) (uid s : Z) : M unit :=
  match v with
  | CreateJail =>
      if (uid =? 0) || negb (is2xx s) then mret tt
      else callEach (map (umbrellaRule uid) (umbrellaRules cfg))
  | _ => mret tt
  end.

Definition maybeUpdateJidOwnerRegistry (v : Verb) (uid : Z) (m : FieldMap) (s preDestroyJid : Z) : M unit :=
  d0 ← get;
  match jidReg d0 with
  | None => mret tt
  | Some _ =>
      if (uid =? 0) || negb (is2xx s) then mret tt
      else match v with
      | CreateJail =>
          let name := field m (str "name") in
          if is_empty name then mret tt
          else
            j ← getJailByName w name;
            d ← get;
            match j, jidReg d with
            | Some ji, Some reg =>
                setJidReg (JidOwner.recordCreate (jidIo w (log d)) (u32 (ji_jid ji)) uid name
                             (field m (str "path")) reg)
            | _, _ => mret tt
            end
      | DestroyJail =>
          let name := field m (str "name") in
          if is_empty name then mret tt
          else
            d ← get;
            match jidReg d with
            | None => mret tt
            | Some reg =>
                let io := jidIo w (log d) in
                let '(found, reg1) := if preDestroyJid =? 0 then (false, reg)
                                      else JidOwner.forgetByJid io preDestroyJid reg in
                setJidReg (if found then reg1 else snd (JidOwner.forgetByName io name reg1))
            end
      | _ => mret tt
      end
  end.

Definition maybeUpdateIfaceOwnerRegistry (v : Verb) (uid : Z) (m : FieldMap) (r : DispatchResult) : M unit :=
  d ← get;
  match ifReg d with
  | None => mret tt
  | Some reg =>
      if (uid =? 0) || negb (is2xx (status r)) then mret tt
      else match v with
      | CreateEpair =>
          match extractStringField (body r) (str "a") [], extractStringField (body r) (str "b") [] with
          | (Present, a), (Present, b) => setIfReg (IfaceOwner.recordEpair (ifIo w (log d)) a b uid reg)
          | _, _ => mret tt
          end
      | TeardownIface =>
          let ifname := field m (str "ifname") in
          if is_empty ifname then mret tt
          else setIfReg (snd (IfaceOwner.forgetPair (ifIo w (log d)) ifname reg))
      | _ => mret tt
      end
  end.

Definition maybeReleaseFwLease (v : Verb) (s preDestroyJid : Z) : M unit :=
  match v with
  | DestroyJail =>
      d ← get;
      match fwReg d with
      | None => mret tt
      | Some reg =>
          if (preDestroyJid =? 0) || negb (is2xx s) then mret tt
          else setFwReg (snd (FwLease.releaseReg (fwIo w (log d)) preDestroyJid reg))
      end
  | _ => mret tt
  end.

(** The jid behind destroy_jail's name, resolved before the jail goes. *)
Definition resolvePreDestroy (v : Verb) (m : FieldMap) : M Z :=
  match v with
  | DestroyJail =>
      let name := field m (str "name") in
      if is_empty name then mret 0
      else j ← getJailByName w name;
           mret match j with
                | Some ji => if 0 <? ji_jid ji then u32 (ji_jid ji) else 0
                | None => 0
                end
  | _ => mret 0
  end.

Definition forbidden (dec : Authz.Decision) : DispatchResult :=
  answer 403 (formatHandlerError (str "forbidden") (Authz.decisionReason dec)).

(** The reply and the process descriptor handed back. *)
Definition dispatchPrivOpFromMap (m : FieldMap) (rootlessPerUser : bool) (operatorUid : Z)
  (io : option ExecIo) : M (DispatchResult * Z) :=
  let v := extractVerb m in
  dec ← gate v m rootlessPerUser operatorUid;
  match dec with
  | Authz.Allow =>
      pre ← resolvePreDestroy v m;
      '(result, pd) ← runVerbFromMap v m operatorUid io;
      _ ← maybeWritePerUserAudit rootlessPerUser operatorUid v (status result);
      _ ← maybeApplyUmbrella v operatorUid (status result);
      _ ← maybeUpdateJidOwnerRegistry v operatorUid m (status result) pre;
      _ ← maybeUpdateIfaceOwnerRegistry v operatorUid m result;
      _ ← maybeReleaseFwLease v (status result) pre;
      mret (result, pd)
  | _ => mret (forbidden dec, -1)
  end.

(** ** The HTTP entry point *)

Definition handled {Req} (parsed : bytes + Req) (validate : Req -> bytes)
  (h : Req -> M DispatchResult) : M DispatchResult :=
  parseThenValidate parsed validate (fun d => mret d) h.

Definition runVerbFromBody (v : Verb) (body : bytes) (operatorUid : Z) : M DispatchResult :=
  match v with
  | SetRctl => handled (Wire.parseSetRctl body) validateSetRctl (handleSetRctl w)
  | ClearRctl => handled (Wire.parseClearRctl body) validateClearRctl (handleClearRctl w)
  | AttachZfs => handled (Wire.parseAttachZfs body) validateAttachZfs (handleAttachZfs w)
  | DetachZfs => handled (Wire.parseDetachZfs body) validateDetachZfs (handleDetachZfs w)
  | MountNullfs => handled (Wire.parseMountNullfs body) validateMountNullfs (handleMountNullfs w)
  | UnmountNullfs => handled (Wire.parseUnmountNullfs body) validateUnmountNullfs (handleUnmountNullfs w)
  | ConfigureIface => handled (Wire.parseConfigureIface body) validateConfigureIface (handleConfigureIface w)
  | TeardownIface => handled (Wire.parseTeardownIface body) validateTeardownIface (handleTeardownIface w)
  | AddPfRule => handled (Wire.parseAddPfRule body) validateAddPfRule (handleAddPfRule w)
  | RemovePfRule => handled (Wire.parseRemovePfRule body) validateRemovePfRule (handleRemovePfRule w)
  | AddIpfwRule => handled (Wire.parseAddIpfwRule body) validateAddIpfwRule (handleAddIpfwRule w)
  | RemoveIpfwRule => handled (Wire.parseRemoveIpfwRule body) validateRemoveIpfwRule (handleRemoveIpfwRule w)
  | CreateJail => handled (Wire.parseCreateJail body) validateCreateJail (handleCreateJail w)
  | DestroyJail => handled (Wire.parseDestroyJail body) validateDestroyJail (handleDestroyJail w)
  | SetIfaceUp => handled (Wire.parseSetIfaceUp body) validateSetIfaceUp (handleSetIfaceUp w)
  | DisableIfaceOffload => handled (Wire.parseDisableIfaceOffload body) validateDisableIfaceOffload (handleDisableIfaceOffload w)
  | BridgeAddMember => handled (Wire.parseBridgeAddMember body) validateBridgeAddMember (handleBridgeAddMember w)
  | BridgeDelMember => handled (Wire.parseBridgeDelMember body) validateBridgeDelMember (handleBridgeDelMember w)
  | SetIfaceInetAddr => handled (Wire.parseSetIfaceInetAddr body) validateSetIfaceInetAddr (handleSetIfaceInetAddr w)
  | SetLoginclassRctl => handled (Wire.parseSetLoginclassRctl body) validateSetLoginclassRctl (handleSetLoginclassRctl w)
  | ClearLoginclassRctl => handled (Wire.parseClearLoginclassRctl body) validateClearLoginclassRctl (handleClearLoginclassRctl w)
  | ReclaimIfaceFromVnet => handled (Wire.parseReclaimIfaceFromVnet body) validateReclaimIfaceFromVnet (handleReclaimIfaceFromVnet w)
  | FlushPfAnchor => handled (Wire.parseFlushPfAnchor body) validateFlushPfAnchor (handleFlushPfAnchor w)
  | QueryJailRctl => handled (Wire.parseQueryJailRctl body) validateQueryJailRctl (handleQueryJailRctl w)
  | ConfigureIpfwNat => handled (Wire.parseConfigureIpfwNat body) validateConfigureIpfwNat (handleConfigureIpfwNat w)
  | SetJailCpuset => handled (Wire.parseSetJailCpuset body) validateSetJailCpuset (handleSetJailCpuset w)
  | ApplyDevfsRuleset => handled (Wire.parseApplyDevfsRuleset body) validateApplyDevfsRuleset (handleApplyDevfsRuleset w)
  | AddDevfsUnhideRule => handled (Wire.parseAddDevfsUnhideRule body) validateAddDevfsUnhideRule (handleAddDevfsUnhideRule w)
  | ApplyDevfsRules => handled (Wire.parseApplyDevfsRules body) validateApplyDevfsRules (handleApplyDevfsRules w)
  | MountTmpfs => handled (Wire.parseMountTmpfs body) validateMountTmpfs (handleMountTmpfs w)
  | SignalJail => handled (Wire.parseSignalJail body) validateSignalJail (handleSignalJail w)
  | SetIfaceMac => handled (Wire.parseSetIfaceMac body) validateSetIfaceMac (handleSetIfaceMac w)
  | DeleteIpfwNat => handled (Wire.parseDeleteIpfwNat body) validateDeleteIpfwNat (handleDeleteIpfwNat w)
  | CreateBridge => handled (Wire.parseCreateBridge body) validateCreateBridge (handleCreateBridge w)
  | AcquireFwLease => handled (Wire.parseAcquireFwLease body) validateAcquireFwLease (handleAcquireFwLease w)
  | ReleaseFwLease => handled (Wire.parseReleaseFwLease body) validateReleaseFwLease (handleReleaseFwLease w)
  | EnsureUserRoot => handleEnsureUserRoot w operatorUid
  | CreateEpair => handleCreateEpair w
  | ExecInJail =>
      failure 400 (str "transport_unsupported")
        (str "exec_in_jail is only available over the libnv privops socket")
  | Unknown => mret (parseValidateAndDispatch v body)
  end.

Definition dispatchPrivOp (v : Verb) (body : bytes) (rootlessPerUser : bool) (operatorUid : Z)
  : M DispatchResult :=
  r ← runVerbFromBody v body operatorUid;
  _ ← maybeWritePerUserAudit rootlessPerUser operatorUid v (status r);
  mret r.

End dispatch.
End Dispatch.
