(* ===== verification/DispatchFacts.v ===== *)
(** * What the libnv dispatcher lets a tenant do

    A run of the dispatcher is described by the calls it adds to the log.
    [emits m P]: every call a computation makes satisfies [P]. *)

From S2P Require Import Prelude PerUser PrivOps PrivOpsFacts Authz OMap.
From S2P Require Import JidOwner IfaceOwner Limits Passwd FwLease PrivOpsNv Wire Sys Handlers Dispatch.

Module DispatchFacts.
Import PrivOps Wire PrivOpsNv Sys Handlers Dispatch.

(** ** Emission *)

Definition evOk (P : Call -> Prop) (e : Event) : Prop := match e with Did c => P c | Asked _ => True end.

Definition emitsAt {A} (d : Daemon) (m : M A) (P : Call -> Prop) : Prop :=
  exists new, log (snd (m d)) = new ++ log d /\ Forall (evOk P) new.

Definition emits {A} (m : M A) (P : Call -> Prop) : Prop := forall d, emitsAt d m P.

Create HintDb emits.

Section emission.
Context (w : World) (P : Call -> Prop).

Lemma emitsAt_same {A} d (m : M A) : log (snd (m d)) = log d -> emitsAt d m P.
Proof. intros H. exists []. by rewrite H. Qed.

Lemma emitsAt_bind {A B} d (m : M A) (f : A -> M B) :
  emitsAt d m P -> emitsAt (snd (m d)) (f (fst (m d))) P -> emitsAt d (m ≫= f) P.
Proof.
  intros (n1 & E1 & F1) (n2 & E2 & F2). exists (n2 ++ n1). rewrite bind_run.
  destruct (m d) as [a d1]. cbn in *. rewrite E2, E1, app_assoc. split; [done|]. by apply Forall_app.
Qed.

Lemma emits_bind {A B} (m : M A) (f : A -> M B) :
  emits m P -> (forall a, emits (f a) P) -> emits (m ≫= f) P.
Proof. intros Hm Hf d. apply emitsAt_bind; [apply Hm|apply Hf]. Qed.

Lemma emits_ret {A} (a : A) : emits (mret a) P.
Proof. intros d. by apply emitsAt_same. Qed.
Lemma emits_get : emits get P.
Proof. intros d. by apply emitsAt_same. Qed.
Lemma emits_setJidReg s : emits (setJidReg s) P.
Proof. intros d. by apply emitsAt_same. Qed.
Lemma emits_setIfReg s : emits (setIfReg s) P.
Proof. intros d. by apply emitsAt_same. Qed.
Lemma emits_setClaims s : emits (setClaims s) P.
Proof. intros d. by apply emitsAt_same. Qed.
Lemma emits_setFwReg s : emits (setFwReg s) P.
Proof. intros d. by apply emitsAt_same. Qed.

Lemma emits_ask {A} q (f : Log -> A) : emits (ask q f) P.
Proof. intros d. exists [Asked q]. split; [done|]. by repeat constructor. Qed.

Lemma emits_call c : P c -> emits (call w c) P.
Proof. intros Hc d. exists [Did c]. split; [done|]. by repeat constructor. Qed.

Lemma emits_callAll cs : Forall P cs -> emits (callAll w cs) P.
Proof.
  induction 1 as [|c cs Hc _ IH]; cbn [callAll]; [apply emits_ret|].
  apply emits_bind; [by apply emits_call|]. intros [e|o]; [apply emits_ret|done].
Qed.

Lemma emits_callEach cs : Forall P cs -> emits (callEach w cs) P.
Proof.
  induction 1 as [|c cs Hc _ IH]; cbn [callEach]; [apply emits_ret|].
  apply emits_bind; [by apply emits_call|done].
Qed.

Lemma emits_reply s b : emits (reply s b) P.
Proof. apply emits_ret. Qed.
Lemma emits_failure s k r : emits (failure s k r) P.
Proof. apply emits_ret. Qed.

Lemma emits_tryAll cs k ok : Forall P cs -> emits (tryAll w cs k ok) P.
Proof.
  intros H. unfold tryAll. apply emits_bind; [by apply emits_callAll|].
  intros [e|o]; [apply emits_failure|apply emits_reply].
Qed.

Lemma emits_canonical p what k : emits k P -> emits (canonical w p what k) P.
Proof.
  intros H. unfold canonical, nonCanonicalReason, resolve. apply emits_bind.
  - apply emits_bind; [apply emits_ask|]. intros r. apply emits_ret.
  - intros [|c e]; [done|]. apply emits_failure.
Qed.

(** A jid no jail can have ends the handler. *)
Lemma emits_withJail jid k :
  (forall l, jailByJid w l (i32 jid) = None) \/ emits k P -> emits (withJail w jid k) P.
Proof.
  intros H. unfold withJail, getJailByJid. destruct H as [H|H].
  - intros d. unfold emitsAt. rewrite bind_run, ask_run, H. exists [Asked (QJailByJid (i32 jid))].
    split; [done|]. by repeat constructor.
  - apply emits_bind; [apply emits_ask|]. intros [j|]; [done|apply emits_failure].
Qed.

Lemma emits_parseThenValidate {Req A} (parsed : bytes + Req) validate (bad : DispatchResult -> M A) k :
  (forall d, emits (bad d) P) ->
  (forall r, parsed = inr r -> validate r = [] -> emits (k r) P) ->
  emits (parseThenValidate parsed validate bad k) P.
Proof.
  intros Hb Hk. unfold parseThenValidate. destruct parsed as [e|r]; [apply Hb|].
  destruct (validate r) eqn:E; [by apply Hk|apply Hb].
Qed.

Lemma emits_runHandler {Req} (parsed : bytes + Req) validate h :
  (forall r, parsed = inr r -> validate r = [] -> emits (h r) P) -> emits (runHandler parsed validate h) P.
Proof.
  intros H. apply emits_parseThenValidate; [intros; apply emits_ret|].
  intros r Hp Hv. apply emits_bind; [by apply H|]. intros d. apply emits_ret.
Qed.
End emission.

#[export] Hint Resolve emits_ret emits_get emits_setJidReg emits_setIfReg emits_setClaims emits_setFwReg
  emits_ask emits_call emits_callAll emits_reply emits_failure emits_tryAll emits_canonical : emits.

(** Peel a computation down to the calls it makes. *)
Ltac emit :=
  repeat first
    [ progress intros
    | solve [auto 2 with emits nocore]
    | apply emits_runHandler
    | apply emits_parseThenValidate
    | apply emits_canonical
    | apply emits_withJail; right
    | apply emits_tryAll
    | apply emits_call
    | apply emits_bind
    | match goal with
      | |- emits (match ?x with _ => _ end) _ => destruct x
      | |- emits (let '(_, _) := ?x in _) _ => destruct x
      end ].

(** ** The gate makes no call *)

Lemma gate_emits w cfg v m rpu u : emits (gate w cfg v m rpu u) (fun _ => False).
Proof.
  assert (Hask : forall r, emits (devfsRulesetOwner w r) (fun _ => False)).
  { intros r. unfold devfsRulesetOwner, devfsMountLive, devfsRulesetEmpty. emit. }
  assert (Hclaim : forall r u' p f, emits (claimDevfsRuleset w r u' p f) (fun _ => False)).
  { intros. unfold claimDevfsRuleset, devfsMountLive. emit. }
  assert (Hl : forall l, emits (doLookup w l) (fun _ => False)).
  { intros l. unfold doLookup. emit. }
  assert (Hls : forall ls, emits (doLookups w ls) (fun _ => False)).
  { induction ls as [|l ls IH]; cbn [doLookups]; [emit|]. apply emits_bind; auto. }
  unfold gate, authorizeNow. emit.
Qed.

(** ** The authorizer asks nothing else

    [authorizeNow] performs the lookups of [lookupsOf]; the decision depends on
    no other answer. *)

Definition lookupAt (lk : Authz.OwnerLookup) (l : Lookup) : option Authz.Owner :=
  match l with
  | LJid j => (fun f => f j) <$> Authz.byJid lk
  | LName n => (fun f => f n) <$> Authz.byName lk
  | LIface i => (fun f => f i) <$> Authz.byIface lk
  | LDevfs r => (fun f => f r) <$> Authz.byDevfsRuleset lk
  end.

Section agree.
Context (env : PerUserEnv.Env) (lk lk' : Authz.OwnerLookup).
Let agree (l : Lookup) : Prop := lookupAt lk l = lookupAt lk' l.

Ltac agreed proj H := unfold agree, lookupAt in H; destruct (proj lk), (proj lk'); cbn in H; try done;
  injection H as H; by rewrite H.

Lemma agree_jid j : agree (LJid j) -> Authz.checkOwnedJid j env lk = Authz.checkOwnedJid j env lk'.
Proof using Type. intros H. unfold Authz.checkOwnedJid. agreed @Authz.byJid H. Qed.

Lemma agree_jidStrict j : agree (LJid j) -> Authz.checkOwnedJidStrict j env lk = Authz.checkOwnedJidStrict j env lk'.
Proof using Type. intros H. unfold Authz.checkOwnedJidStrict. agreed @Authz.byJid H. Qed.

Lemma agree_name n : agree (LName n) -> Authz.checkOwnedName n env lk = Authz.checkOwnedName n env lk'.
Proof using Type. intros H. unfold Authz.checkOwnedName. agreed @Authz.byName H. Qed.

Lemma agree_iface i : is_Some (Authz.byIface lk) <-> is_Some (Authz.byIface lk') ->
  Forall agree (if Authz.isEpairIfaceName i then [LIface i] else []) ->
  Authz.checkOwnedIface i env lk = Authz.checkOwnedIface i env lk'.
Proof using Type.
  intros Hs H. unfold Authz.checkOwnedIface.
  destruct (Authz.byIface lk) as [f|] eqn:E, (Authz.byIface lk') as [f'|] eqn:E'; try done.
  - destruct (Authz.isEpairIfaceName i); [|done]. apply Forall_cons in H as [H _]. unfold agree in H.
    cbn in H. rewrite E, E' in H. injection H as H. by rewrite H.
  - destruct Hs as [Hs _]. destruct (Hs ltac:(eauto)). done.
  - destruct Hs as [_ Hs]. destruct (Hs ltac:(eauto)). done.
Qed.

Lemma agree_devfs r : Forall agree (if Authz.isPrivateDevfsRuleset r then [LDevfs r] else []) ->
  Authz.checkOwnedDevfsRuleset r env lk = Authz.checkOwnedDevfsRuleset r env lk'.
Proof using Type.
  unfold Authz.checkOwnedDevfsRuleset. destruct (Authz.isPrivateDevfsRuleset r); [|done].
  intros [H _]%Forall_cons. cbn [negb]. agreed @Authz.byDevfsRuleset H.
Qed.

Lemma agree_andThen d d' k k' : d = d' -> (d = Authz.Allow -> k = k') -> Authz.andThen d k = Authz.andThen d' k'.
Proof using Type. intros <- H. destruct d; cbn; auto. Qed.

Lemma agree_path p : Authz.byPath lk = Authz.byPath lk' ->
  Authz.checkOwnedPath p env lk = Authz.checkOwnedPath p env lk'.
Proof using Type. unfold Authz.checkOwnedPath. by intros ->. Qed.

Lemma lookups_suffice v req :
  Authz.byPath lk = Authz.byPath lk' -> (is_Some (Authz.byIface lk) <-> is_Some (Authz.byIface lk')) ->
  Forall agree (lookupsOf v req env lk) ->
  Authz.authorize v req env lk = Authz.authorize v req env lk'.
Proof using Type.
  intros Hp Hi. destruct v; cbn [lookupsOf Authz.authorize]; intros H;
    auto using agree_iface, agree_path;
    try (apply Forall_cons in H as [H _]; auto using agree_jid, agree_jidStrict, agree_name; fail).
  all: try (apply agree_andThen; [by apply agree_path|done]).
  all: try (destruct (Authz.datasetOwned _ _); [|done]; apply Forall_cons in H as [H _]; by apply agree_jid).
  all: try (destruct (is_empty _); [done|]; apply Forall_cons in H as [H _]; by rewrite (agree_name _ H)).
  all: try (apply Forall_cons in H as [H1 H2]; apply agree_andThen;
    [by first [apply agree_jid | apply agree_name]|]; intros E; rewrite E in H2; by apply agree_iface).
  apply agree_andThen; [by apply agree_path|]. intros E. rewrite E in H. by apply agree_devfs.
Qed.
End agree.

(** ** A request of a tenant

    [rootlessPerUser] is on and the peer uid is not root's: every call of the
    run satisfies [P] if the verb's handler, run only when the authorizer
    allows the request, emits [P], and so do the audit line and the umbrella
    rules. *)

Section tenant.
Context (w : World) (cfg : Config) (u : Z) (Hu : 0 < u).

Definition tenantEnv : PerUserEnv.Env := fst (PerUserEnv.composeForUid (perUserAuthzCfg cfg) u).

Definition allowed (d : Daemon) (m : FieldMap) : Prop :=
  let v := extractVerb m in
  Authz.authorize v (gateRequest v m (requestRuleset v m)) tenantEnv (lookupOf w d) = Authz.Allow.

Lemma authorizeNow_result d v req env :
  fst (authorizeNow w v req env d) = Authz.authorize v req env (lookupOf w d).
Proof. unfold authorizeNow. rewrite !bind_run. cbn. rewrite bind_run. by destruct (doLookups w _ d). Qed.

Lemma gate_allow d v m : fst (gate w cfg v m true u d) = Authz.Allow ->
  Authz.authorize v (gateRequest v m (requestRuleset v m)) tenantEnv (lookupOf w d) = Authz.Allow.
Proof using Hu.
  unfold gate. rewrite (proj2 (Z.ltb_lt _ _) Hu). cbn [andb]. rewrite bind_run.
  change (fst (PerUserEnv.composeForUid _ u)) with tenantEnv.
  pose proof (authorizeNow_result d v (gateRequest v m (requestRuleset v m)) tenantEnv) as E.
  destruct (authorizeNow w v _ tenantEnv d) as [dec d1]. cbn [fst] in E. rewrite <- E. by destruct dec.
Qed.

Lemma dispatch_emits P d m io :
  (forall line, P (AuditLine u line)) ->
  (forall kv, P (umbrellaRule u kv)) ->
  (allowed d m -> emits (runVerbFromMap w (extractVerb m) m u io) P) ->
  emitsAt d (dispatchPrivOpFromMap w cfg m true u io) P.
Proof using Hu.
  intros Haudit Humb Hrun. unfold dispatchPrivOpFromMap. set (v := extractVerb m) in *.
  apply emitsAt_bind.
  { destruct (gate_emits w cfg v m true u d) as (new & E & F). exists new. split; [done|].
    eapply Forall_impl; [exact F|]. by intros []. }
  destruct (fst (gate w cfg v m true u d)) eqn:E; try apply emits_ret.
  apply gate_allow in E. specialize (Hrun E).
  apply emits_bind; [unfold resolvePreDestroy, getJailByName; emit|]. intros pre.
  apply emits_bind; [done|]. intros [res pd].
  apply emits_bind; [unfold maybeWritePerUserAudit; emit; auto|]. intros _.
  apply emits_bind.
  { unfold maybeApplyUmbrella. emit. apply emits_callEach, Forall_forall. intros c Hc.
    apply list_elem_of_In, in_map_iff in Hc as (kv & <- & _). auto. }
  intros _. apply emits_bind; [unfold maybeUpdateJidOwnerRegistry, getJailByName; emit|].
  intros _. apply emits_bind; [unfold maybeUpdateIfaceOwnerRegistry; emit|].
  intros _. apply emits_bind; [unfold maybeReleaseFwLease; emit|]. intros _. apply emits_ret.
Qed.
End tenant.

(** A call a run makes. *)
Definition makes {A} (d : Daemon) (m : M A) (c : Call) : Prop :=
  exists pre post, log (snd (m d)) = pre ++ Did c :: post ++ log d.

Lemma emits_makes {A} d (m : M A) P c : emitsAt d m P -> makes d m c -> P c.
Proof.
  intros (new & E & F) (pre & post & E'). rewrite E in E'.
  change (pre ++ Did c :: post ++ log d) with (pre ++ (Did c :: post) ++ log d) in E'.
  rewrite app_assoc in E'. apply app_inv_tail in E' as ->.
  apply Forall_app in F as [_ F]. by apply Forall_cons in F as [? _].
Qed.

(** ** The numbers the gate and the handlers read *)

Lemma spanDigits_all s : all_digits s = true -> Json.spanDigits s = (s, []).
Proof.
  unfold all_digits. induction s as [|c s IH]; cbn [forallb Json.spanDigits]; [done|].
  intros [-> H]%andb_prop. by rewrite IH.
Qed.

Lemma digit_not_special c : is_digit c = true ->
  is_space c = false /\ Ascii.eqb c "-" = false /\ Ascii.eqb c "+" = false.
Proof. destruct c as [[] [] [] [] [] [] [] []]; cbn; intros; by repeat split. Qed.

Lemma gateUnsigned_digits s : s <> [] -> all_digits s = true ->
  gateUnsigned s = if ulong_max <? dec_value s then 0 else u32 (dec_value s).
Proof.
  intros Hne Hd. destruct s as [|c s]; [done|]. pose proof Hd as Hd'. unfold all_digits in Hd'.
  cbn [forallb] in Hd'. apply andb_prop in Hd' as [Hc _].
  destruct (digit_not_special c Hc) as (Hs & Hm & Hp).
  unfold gateUnsigned, stoul. cbn [skipSpace]. rewrite Hs, Hm, Hp, spanDigits_all by done. cbn [is_empty].
  by destruct (ulong_max <? dec_value (c :: s)).
Qed.

Lemma requireLong_ok m key j : requireLong m key = inr j -> 1 <= j ->
  exists s, m !! key = Some s /\ s <> [] /\ all_digits s = true /\ j = Z.min long_max (dec_value s).
Proof.
  unfold requireLong. destruct (m !! key) as [[|c s]|]; [done| |done].
  destruct (Ascii.eqb_spec c "-") as [->|Hc]; cbn [andb].
  - destruct (is_empty s); [done|]. destruct (negb (all_digits s)) eqn:D; [done|].
    intros [= <-] H. apply negb_false_iff, dec_value_bound in D. 
    change (1 <= Z.max long_min (- dec_value s)) in H. unfold long_min in H. lia.
  - destruct (negb (all_digits (c :: s))) eqn:D; [done|]. apply negb_false_iff in D.
    intros [= <-] _. exists (c :: s). split; [done|]. split; [done|]. split; [done|].
    unfold strtol. by destruct (Ascii.eqb_spec c "-").
Qed.

Lemma requireUnsigned_ok m key j : requireUnsigned m key = inr j -> 1 <= j ->
  exists s, m !! key = Some s /\ s <> [] /\ all_digits s = true /\ j = dec_value s /\ j <= 0xFFFFFFFF.
Proof.
  unfold requireUnsigned. intros (v & Hv & H)%result_bind_inr Hj.
  destruct (Z.ltb_spec v 0); [done|]. destruct (Z.ltb_spec 0xFFFFFFFF v); [done|]. injection H as ->.
  apply requireLong_ok in Hv as (s & E & Hne & Hd & Ej); [|done]. exists s.
  unfold long_max in *. repeat split; try done; lia.
Qed.

(** The gate's jid is the one the handler acts on, or the handler acts on
    [(int)LONG_MAX = -1], which no jail has. *)
Lemma gate_jid v m rs j : requireLong m (str "jid") = inr j -> 1 <= j ->
  Authz.jid (gateRequest v m rs) = u32 j \/ i32 j = -1.
Proof.
  intros H Hj. apply requireLong_ok in H as (s & E & Hne & Hd & ->); [|done].
  unfold gateRequest, field. cbn [Authz.jid]. rewrite E. change (default [] (Some s)) with s. cbn zeta.
  rewrite (proj2 (is_empty_false s) Hne), gateUnsigned_digits by done. pose proof (dec_value_bound s Hd).
  destruct (decide (dec_value s <= long_max)).
  - left. rewrite Z.min_r by done. unfold long_max, ulong_max in *. destruct (Z.ltb_spec (2 ^ 64 - 1) (dec_value s)); [lia|done].
  - right. rewrite Z.min_l by lia. reflexivity.
Qed.

Lemma gate_jid_unsigned v m rs j : requireUnsigned m (str "jid") = inr j -> 1 <= j ->
  Authz.jid (gateRequest v m rs) = j.
Proof.
  intros H Hj. apply requireUnsigned_ok in H as (s & E & Hne & Hd & -> & Hmax); [|done].
  unfold gateRequest, field. cbn [Authz.jid]. rewrite E. change (default [] (Some s)) with s. cbn zeta.
  rewrite (proj2 (is_empty_false s) Hne), gateUnsigned_digits by done.
  unfold ulong_max, u32. destruct (Z.ltb_spec (2 ^ 64 - 1) (dec_value s)); [lia|].
  rewrite Z.mod_small by lia. done.
Qed.

Lemma u32_i32 j : u32 (i32 j) = u32 j.
Proof.
  unfold u32, i32, to_signed. cbn zeta. destruct (_ <? _); [apply Z.mod_mod; lia|].
  replace (j mod 2 ^ 32 - 2 ^ 32) with (j mod 2 ^ 32 + (-1) * 2 ^ 32) by lia.
  rewrite Z.mod_add by lia. apply Z.mod_mod. lia.
Qed.

Lemma i32_small j : 0 <= j < 2 ^ 31 -> i32 j = j.
Proof.
  intros H. unfold i32, to_signed. rewrite Z.mod_small by lia.
  change (2 ^ (32 - 1)) with (2 ^ 31). destruct (Z.ltb_spec j (2 ^ 31)); lia.
Qed.

(** The parsed request's fields come from the map the gate reads. *)
Lemma requireString_field m key s : requireString m key = inr s -> field m key = s.
Proof. unfold requireString, field. destruct (m !! key); [intros [= <-]|]; done. Qed.

Lemma optionalString_field m key s : optionalString m key [] = inr s -> field m key = s.
Proof. unfold optionalString, field. by intros [= <-]. Qed.

(** Take a successful parse apart. *)
Ltac unparse H :=
  repeat match type of H with
  | (_ ≫= _) = inr _ =>
      let a := fresh "a" in let Ha := fresh "Ha" in
      apply result_bind_inr in H as (a & Ha & H); cbv beta in H
  end;
  injection H as <-; cbn [sr_jid sr_key sr_rawValue cr_jid cr_key zr_jid zr_dataset ci_jid ci_ifname ci_bridge
    ci_ipv4Cidr ci_ipv6Cidr ci_macAddr if_ifname pf_anchor pf_ruleText bm_bridge bm_member sa_ifname sa_addr
    sa_prefixLen sa_inet6 sl_loginclass sl_key sl_rawValue cl_loginclass cl_key rc_ifname rc_jailName fa_anchor
    qr_jid qr_limits sc_jid sc_cpuset ad_mountPath ad_ruleset au_mountPath au_pathPattern sj_jid sj_signal ex_jid
    ex_user ex_argv ex_term sm_ifname sm_mac cb_name af_jid rf_jid ar_mountPath ar_ruleset ar_rules mt_target
    mt_size mt_uid mt_gid mt_mode cj_name cj_path cj_hostname cj_vnet cj_parameters dj_name dj_force mn_source
    mn_target mn_readOnly un_target un_force] in *.

Ltac fields :=
  repeat match goal with
  | H : requireString ?m ?k = inr ?s |- _ => apply requireString_field in H; subst s
  | H : optionalString ?m ?k [] = inr ?s |- _ => apply optionalString_field in H; subst s
  end.

(** ** The HTTP entry point refuses what the pure pipeline refuses *)

Lemma handled_refused {Req} body v (parse : bytes -> bytes + Req) validate h d :
  status (runVerb body v parse validate) = 400 ->
  handled (parse body) validate h d = (runVerb body v parse validate, d).
Proof.
  unfold runVerb, handled, parseThenValidate. destruct (parse body) as [e|r]; [done|].
  destruct (validate r); [|done]. by intros H.
Qed.

Lemma runVerbFromBody_refused w v body u d : v <> ExecInJail ->
  status (parseValidateAndDispatch v body) = 400 ->
  runVerbFromBody w v body u d = (parseValidateAndDispatch v body, d).
Proof.
  intros Hv. destruct v; cbn [parseValidateAndDispatch runVerbFromBody]; try done; by apply handled_refused.
Qed.

End DispatchFacts.
