(* ===== verification/Tenant.v ===== *)
(** * Tenant isolation

    The theorems about [dispatchPrivOpFromMap] for a caller whose peer uid is
    not root's, with per-user mode on: every call the daemon makes for it is
    one the registries and the caller's own prefixes permit. *)

From S2P Require Import Prelude PerUser PrivOps PrivOpsFacts Authz OMap.
From S2P Require Import JidOwner IfaceOwner Limits Passwd FwLease PrivOpsNv Wire Sys Handlers Dispatch.
From S2P Require Import DispatchFacts.

Module Tenant.
Import PrivOps Wire PrivOpsNv Sys Handlers Dispatch DispatchFacts.

Section tenant.
Context (w : World) (cfg : Config) (u : Z) (d : Daemon).
Context (Hu : 0 < u) (Hjids : forall l j, j <= 0 -> jailByJid w l j = None).

Let env : PerUserEnv.Env := tenantEnv cfg u.

(** ** Specification *)

(** Who the registries name as the owner when the request arrives. *)
Definition owner (l : Lookup) : option Z :=
  let o := fst (doLookup w l d) in if Authz.known o then Some (Authz.o_uid o) else None.

Definition pathOwner (p : bytes) : option Z :=
  match jidReg d with
  | None => None
  | Some s => option_map (fun kv => JidOwner.e_uid (snd kv)) (JidOwner.findOwnerByPath (JidOwner.entries s) p)
  end.

Definition notForeign (l : Lookup) : Prop := forall v, owner l = Some v -> v = u.

(** What a request may name, by kind. *)
Record Rules := {
  r_dataset : bytes -> Prop;
  (** where something is mounted, unmounted or hidden *)
  r_path : bytes -> Prop;
  (** the root of a new jail *)
  r_create : bytes -> Prop;
  (** what a nullfs mount shows *)
  r_source : bytes -> Prop;
  r_iface : bytes -> Prop }.

(** What the authorizer tests. *)
Definition judged : Rules := {|
  r_dataset := fun ds => Authz.datasetOwned ds (PerUserEnv.zfsPrefix env) = true;
  r_path := fun p => match pathOwner p with
                     | Some v => v = u
                     | None => PerUserEnv.pathMasterPrefix env = [] \/ Authz.pathOwned p (PerUserEnv.pathPrefix env) = true
                     end;
  r_create := fun p => Authz.pathOwned p (PerUserEnv.pathPrefix env) = true;
  r_source := fun src => Authz.sourceForeign src env = false;
  r_iface := fun i => ifReg d <> None -> Authz.isEpairIfaceName i = true /\ notForeign (LIface i) |}.

(** The master prefixes without their final slash. *)
Definition zfsBase : bytes := ZfsDataset.stripSlash (PerUserEnv.zfsMasterPrefix (perUserAuthzCfg cfg)).
Definition pathBase : bytes := ZfsDataset.stripSlash (PerUserEnv.pathMasterPrefixCfg (perUserAuthzCfg cfg)).

(** What isolation means: datasets and new jails in the operator's slice of the
    master prefixes, mount points in its own jails or, outside every registered
    jail, in its slice; no directory in another operator's slice is shown by a
    mount; interfaces are epair halves no other operator is registered for. *)
Definition confined : Rules := {|
  r_dataset := fun ds => Authz.below ds (Authz.slice zfsBase u);
  r_path := fun p => match pathOwner p with Some v => v = u | None => Authz.below p (Authz.slice pathBase u) end;
  r_create := fun p => Authz.below p (Authz.slice pathBase u);
  r_source := fun src => forall v, 0 <= v -> v <> u -> ~ Authz.below src (Authz.slice pathBase v);
  r_iface := fun i => Authz.isEpairIfaceName i = true /\ notForeign (LIface i) |}.

(** The commands a tenant's request may run. *)
Inductive execOk (r : Rules) : list bytes -> Prop :=
| ExecRctlJail flag j rest :
    notForeign (LJid (u32 j)) -> execOk r [CRATE_PATH_RCTL; flag; str "jail:" ++ dec_signed j ++ rest]
| ExecRctlLoginclass flag rest :
    execOk r [CRATE_PATH_RCTL; flag; str "loginclass:" ++ PerUserRctl.loginclassName u ++ str ":" ++ rest]
| ExecJexec j rest : notForeign (LJid (u32 j)) -> execOk r (CRATE_PATH_JEXEC :: dec_signed j :: rest)
| ExecCpuset set j :
    notForeign (LJid (u32 j)) -> execOk r [CRATE_PATH_CPUSET; str "-l"; set; str "-j"; dec_signed j]
| ExecCreate name path rest :
    r_create r path -> execOk r (CRATE_PATH_JAIL :: str "-c" :: (str "name=" ++ name) :: (str "path=" ++ path) :: rest)
| ExecDestroy flag name : notForeign (LName name) -> execOk r [CRATE_PATH_JAIL; flag; name]
| ExecDevfsMount path rest : r_path r path -> execOk r (CRATE_PATH_DEVFS :: str "-m" :: path :: rest)
| ExecDevfsSet n rest :
    Authz.isPrivateDevfsRuleset n = true -> notForeign (LDevfs n) ->
    execOk r (CRATE_PATH_DEVFS :: str "rule" :: str "-s" :: dec n :: rest)
| ExecIpfw rest : execOk r (CRATE_PATH_IPFW :: rest).

Definition permittedBy (r : Rules) (c : Call) : Prop :=
  match c with
  | Exec argv => execOk r argv
  | ZfsJail j ds | ZfsUnjail j ds => r_dataset r ds /\ notForeign (LJid (u32 j))
  | Nmount iov _ =>
      exists target, In (str "fspath", target) iov /\ r_path r target
        /\ forall src, In (str "target", src) iov -> r_source r src
  | Unmount target _ => r_path r target
  | MoveToVnet i j => r_iface r i /\ notForeign (LJid (u32 j))
  | MoveFromVnet i name => r_iface r i /\ notForeign (LName name)
  | BridgeAdd _ i => exists i', r_iface r i' /\ (i = i' \/ i = computeEpairPair i')
  | BridgeDel _ i | IfDestroy i | IfOffload i | IfInet i _ _ | IfInet6 i _ _ | IfMac i _ => r_iface r i
  | IfUp i => r_iface r i \/ starts_with (str "bridge") i = true
  | PfAdd a _ | PfFlush a =>
      exists jail, a = str "crate/" ++ jail /\ ~ In "/"%char jail /\ notForeign (LName jail)
  | JailProc j _ _ _ => owner (LJid (u32 j)) = Some u
  | MkUserRoot v | AuditLine v _ => v = u
  | IfCreateEpair | IpfwDelete _ => True
  | IfCreate name => starts_with (str "bridge") name = true
  end.

Definition ifaceOk : bytes -> Prop := r_iface judged.
Definition pathOk : bytes -> Prop := r_path judged.
Definition permitted : Call -> Prop := permittedBy judged.

Record Stronger (r r' : Rules) : Prop := {
  s_dataset : forall x, r_dataset r x -> r_dataset r' x;
  s_path : forall x, r_path r x -> r_path r' x;
  s_create : forall x, r_create r x -> r_create r' x;
  s_source : forall x, r_source r x -> r_source r' x;
  s_iface : forall x, r_iface r x -> r_iface r' x }.

Lemma permittedBy_mono r r' c : Stronger r r' -> permittedBy r c -> permittedBy r' c.
Proof.
  intros [Hd Hp Hc Hs Hi]. destruct c; cbn [permittedBy]; try solve [done|auto|intros [? ?]; auto].
  - intros E. destruct E; constructor; auto.
  - intros (t & Ht & Hpt & Hsrc). exists t. auto.
  - intros (i' & Hi' & E). eauto.
  - intros [?|?]; auto.
Qed.

(** ** What the authorizer's answers mean *)

Lemma tenantEnv_uid : PerUserEnv.uid env = u.
Proof using Hu.
  unfold env, tenantEnv. destruct (decide (u <= RuntimePaths.int32_max)).
  - apply PerUserEnv.composeForUid_base. lia.
  - by rewrite PerUserEnv.composeForUid_big by lia.
Qed.

Lemma tenantEnv_loginclass : PerUserEnv.loginclass env = PerUserRctl.loginclassName u \/ PerUserEnv.loginclass env = [].
Proof using Hu.
  unfold env, tenantEnv. destruct (decide (u <= RuntimePaths.int32_max)).
  - left. apply PerUserEnv.composeForUid_base. lia.
  - right. by rewrite PerUserEnv.composeForUid_big by lia.
Qed.

Lemma mine_notForeign l : Authz.mine (fst (doLookup w l d)) env -> notForeign l.
Proof using Hu.
  unfold Authz.mine, notForeign, owner. rewrite tenantEnv_uid. cbn zeta.
  destruct (Authz.known _); [|done]. intros H v [= <-]. auto.
Qed.

Lemma jid_allow j : Authz.checkOwnedJid j env (lookupOf w d) = Authz.Allow -> notForeign (LJid j).
Proof using Hu. rewrite Authz.checkOwnedJid_allow. intros H. apply mine_notForeign. by apply (H _ eq_refl). Qed.

Lemma name_allow n : Authz.checkOwnedName n env (lookupOf w d) = Authz.Allow -> notForeign (LName n).
Proof using Hu. rewrite Authz.checkOwnedName_allow. intros H. apply mine_notForeign. by apply (H _ eq_refl). Qed.

Lemma iface_allow i : Authz.checkOwnedIface i env (lookupOf w d) = Authz.Allow -> ifaceOk i.
Proof using Hu.
  rewrite Authz.checkOwnedIface_allow. unfold ifaceOk. cbn [r_iface judged]. intros H Hreg. unfold lookupOf in H. cbn [Authz.byIface] in H.
  destruct (ifReg d); [|done]. destruct (H _ eq_refl) as [? Hm]. split; [done|]. by apply mine_notForeign.
Qed.

Lemma strict_allow j : Authz.checkOwnedJidStrict j env (lookupOf w d) = Authz.Allow -> owner (LJid j) = Some u.
Proof using Hu.
  rewrite Authz.checkOwnedJidStrict_allow. intros (f & [= <-] & Hk & Ho). unfold owner. cbn zeta in *.
  rewrite Hk, Ho, tenantEnv_uid. done.
Qed.

Lemma path_allow p : Authz.checkOwnedPath p env (lookupOf w d) = Authz.Allow -> pathOk p.
Proof using Hu.
  intros H. apply Authz.checkOwnedPath_allow in H as [Hm Hu']. unfold pathOk. cbn [r_path judged]. unfold pathOwner.
  unfold lookupOf in *. cbn [Authz.byPath] in *. unfold Authz.mine, JidOwner.lookupPath in *.
  rewrite tenantEnv_uid in Hm. destruct (jidReg d) as [s|]; [destruct (JidOwner.findOwnerByPath _ p) as [[j e]|]|];
    cbn in *; [auto| |];
    (destruct (PerUserEnv.pathMasterPrefix env) eqn:E; [by left|right; by apply Hu']).
Qed.

Lemma devfs_allow n : Authz.checkOwnedDevfsRuleset n env (lookupOf w d) = Authz.Allow ->
  Authz.isPrivateDevfsRuleset n = true /\ notForeign (LDevfs n).
Proof using Hu.
  unfold Authz.checkOwnedDevfsRuleset. destruct (Authz.isPrivateDevfsRuleset n); [|done]. cbn [negb].
  unfold lookupOf. cbn [Authz.byDevfsRuleset]. cbn zeta. rewrite Authz.known_check by done.
  intros H. split; [done|]. by apply mine_notForeign.
Qed.

Lemma anchor_allow a : Authz.anchorJailName a <> [] ->
  a = str "crate/" ++ Authz.anchorJailName a /\ ~ In "/"%char (Authz.anchorJailName a).
Proof.
  unfold Authz.anchorJailName. destruct (size_z a <=? _); [done|].
  destruct (starts_with (str "crate/") a) eqn:S; [|done]. cbn [negb].
  apply starts_with_spec in S as [t ->]. change (length (str "crate/")) with 6%nat.
  change (drop 6 (str "crate/" ++ t)) with t. destruct (has_char "/" t) eqn:H; [done|].
  intros _. split; [done|]. by apply has_char_false in H.
Qed.

(** ** The verbs, one by one *)

(** A jid the gate let through, read as [long]: it is not another operator's,
    or no jail has it. *)
Lemma long_jid v m rs j : requireLong m (str "jid") = inr j -> 1 <= j ->
  notForeign (LJid (Authz.jid (gateRequest v m rs))) ->
  (forall l, jailByJid w l (i32 j) = None) \/ notForeign (LJid (u32 j)).
Proof using Hjids.
  intros H Hj Hn. destruct (gate_jid v m rs j H Hj) as [E|E]; [right; by rewrite <- E|left].
  intros l. apply Hjids. lia.
Qed.

Lemma notForeign_i32 j : notForeign (LJid (u32 j)) -> notForeign (LJid (u32 (i32 j))).
Proof. by rewrite u32_i32. Qed.

Lemma unsigned_jid v m rs j : requireUnsigned m (str "jid") = inr j -> jidOutOfRange j = false ->
  Authz.jid (gateRequest v m rs) = j /\ 1 <= j <= 65535 /\ u32 j = j /\ dec_signed j = dec j.
Proof.
  unfold jidOutOfRange. intros H [Hz Hm]%orb_false_iff. pose proof H as H'.
  unfold requireUnsigned in H'. apply result_bind_inr in H' as (x & _ & Hx).
  destruct (Z.ltb_spec x 0); [done|]. destruct (0xFFFFFFFF <? x); [done|]. injection Hx as ->.
  assert (Hj : 1 <= j <= 65535) by lia. split; [apply gate_jid_unsigned; [done|lia]|]. split; [done|].
  unfold u32, dec_signed. rewrite Z.mod_small by lia. destruct (Z.ltb_spec j 0); [lia|done].
Qed.

(** One call. *)
Lemma permitted1 c : permitted c -> Forall permitted [c].
Proof. by repeat constructor. Qed.

Ltac start p :=
  intros Ha; apply emits_runHandler; let r := fresh "r" in let Hp := fresh "Hp" in let Hv := fresh "Hv" in
  intros r Hp Hv; unfold p in Hp; unparse Hp; fields.

(** Verbs that carry a [long] jid. *)

(** The shared part: the jid is in range and, past [withJail], not foreign. *)
Ltac long_jid v m rs x Hx Ha :=
  apply emits_withJail;
  destruct (long_jid v m rs x Hx ltac:(lia) Ha) as [Hnone|Hok]; [by left|right].

Lemma SetRctl_permitted m rs :
  Authz.authorize SetRctl (gateRequest SetRctl m rs) env (lookupOf w d) = Authz.Allow ->
  emits (runHandler (parseSetRctl m) validateSetRctl (handleSetRctl w)) permitted.
Proof using Hu Hjids.
  start parseSetRctl. cbn [Authz.authorize] in Ha. apply jid_allow in Ha. unfold validateSetRctl in Hv. ok_split Hv. destruct Hv as [Hj _].
  unfold handleSetRctl. cbn [sr_jid cr_jid] in *. long_jid SetRctl m rs a Ha0 Ha.
  apply emits_tryAll, permitted1. apply (ExecRctlJail judged (str "-a") (i32 a)). by apply notForeign_i32.
Qed.

Lemma ClearRctl_permitted m rs :
  Authz.authorize ClearRctl (gateRequest ClearRctl m rs) env (lookupOf w d) = Authz.Allow ->
  emits (runHandler (parseClearRctl m) validateClearRctl (handleClearRctl w)) permitted.
Proof using Hu Hjids.
  start parseClearRctl. cbn [Authz.authorize] in Ha. apply jid_allow in Ha. unfold validateClearRctl in Hv. ok_split Hv. destruct Hv as [Hj _].
  unfold handleClearRctl. cbn [sr_jid cr_jid] in *. long_jid ClearRctl m rs a Ha0 Ha.
  apply emits_tryAll, permitted1. apply (ExecRctlJail judged (str "-r") (i32 a)). by apply notForeign_i32.
Qed.

Lemma AttachZfs_permitted m rs :
  Authz.authorize AttachZfs (gateRequest AttachZfs m rs) env (lookupOf w d) = Authz.Allow ->
  emits (runHandler (parseAttachZfs m) validateAttachZfs (handleAttachZfs w)) permitted.
Proof using Hu Hjids.
  start parseAttachZfs. cbn [Authz.authorize] in Ha.
  destruct (Authz.datasetOwned _ _) eqn:Hds in Ha; [|done]. cbn [negb] in Ha. apply jid_allow in Ha.
  unfold validateAttachZfs in Hv. ok_split Hv. destruct Hv as [Hj _].
  unfold handleAttachZfs. cbn [zr_jid zr_dataset] in *. long_jid AttachZfs m rs a Ha0 Ha.
  apply emits_tryAll, permitted1. split; [done|]. by apply notForeign_i32.
Qed.

Lemma DetachZfs_permitted m rs :
  Authz.authorize DetachZfs (gateRequest DetachZfs m rs) env (lookupOf w d) = Authz.Allow ->
  emits (runHandler (parseDetachZfs m) validateDetachZfs (handleDetachZfs w)) permitted.
Proof using Hu Hjids.
  start parseDetachZfs. cbn [Authz.authorize] in Ha.
  destruct (Authz.datasetOwned _ _) eqn:Hds in Ha; [|done]. cbn [negb] in Ha. apply jid_allow in Ha.
  unfold validateDetachZfs in Hv. ok_split Hv. destruct Hv as [Hj _].
  unfold handleDetachZfs. cbn [zr_jid zr_dataset] in *. long_jid DetachZfs m rs a Ha0 Ha.
  apply emits_tryAll, permitted1. split; [done|]. by apply notForeign_i32.
Qed.

(** configure_iface: the move, the commands in the jail, the bridge. *)
Lemma configureCalls_permitted r hostHalf :
  ifaceOk (ci_ifname r) -> notForeign (LJid (u32 (ci_jid r))) ->
  (ci_bridge r <> [] -> hostHalf = computeEpairPair (ci_ifname r)) ->
  Forall permitted (configureCalls r hostHalf).
Proof.
  intros Hi Hj Hh. unfold configureCalls.
  assert (Hx : forall args, permitted (jexecIfconfig r args)).
  { intros args. apply (ExecJexec judged (ci_jid r)). done. }
  assert (Ho : forall cond args, Forall permitted (optCall cond (jexecIfconfig r args))).
  { intros cond args. unfold optCall. destruct (is_empty cond); [constructor|by apply permitted1]. }
  apply Forall_cons. split; [split; [done|by apply notForeign_i32]|].
  repeat (apply Forall_app; split); auto.
  - destruct (is_empty _); [constructor|by apply permitted1].
  - unfold optCall. destruct (ci_bridge r) as [|c b] eqn:B; [constructor|]. apply permitted1.
    exists (ci_ifname r). split; [done|]. right. by apply Hh.
Qed.

Lemma ConfigureIface_permitted m rs :
  Authz.authorize ConfigureIface (gateRequest ConfigureIface m rs) env (lookupOf w d) = Authz.Allow ->
  emits (runHandler (parseConfigureIface m) validateConfigureIface (handleConfigureIface w)) permitted.
Proof using Hu Hjids.
  start parseConfigureIface. cbn [Authz.authorize] in Ha. apply Authz.andThen_allow in Ha as [Ha Hi].
  apply jid_allow in Ha. apply iface_allow in Hi. cbn [Authz.ifname gateRequest gateIfname] in Hi.
  unfold validateConfigureIface in Hv. ok_split Hv. destruct Hv as [Hj _].
  unfold handleConfigureIface. cbn [ci_jid ci_ifname ci_bridge] in *. long_jid ConfigureIface m rs a Ha0 Ha.
  destruct (negb _ && _); [apply emits_failure|]. apply emits_tryAll, configureCalls_permitted; try done.
  cbn [ci_bridge ci_ifname]. intros Hb. by rewrite (proj2 (is_empty_false _) Hb).
Qed.

Lemma QueryJailRctl_permitted m rs :
  Authz.authorize QueryJailRctl (gateRequest QueryJailRctl m rs) env (lookupOf w d) = Authz.Allow ->
  emits (runHandler (parseQueryJailRctl m) validateQueryJailRctl (handleQueryJailRctl w)) permitted.
Proof using Hu.
  start parseQueryJailRctl. cbn [Authz.authorize] in Ha. apply jid_allow in Ha. unfold validateQueryJailRctl in Hv. ok_split Hv.
  destruct (unsigned_jid QueryJailRctl m rs a Ha0) as (Ej & Hr & Eu & Ed); [by apply Hv|].
  unfold handleQueryJailRctl. apply emits_bind; [|intros [e|out]; [apply emits_failure|apply emits_reply]].
  apply emits_call. cbn [permitted permittedBy qr_jid]. rewrite <- Ed, <- (app_nil_r (dec_signed a)).
  apply ExecRctlJail. by rewrite Eu, <- Ej.
Qed.

Lemma SetJailCpuset_permitted m rs :
  Authz.authorize SetJailCpuset (gateRequest SetJailCpuset m rs) env (lookupOf w d) = Authz.Allow ->
  emits (runHandler (parseSetJailCpuset m) validateSetJailCpuset (handleSetJailCpuset w)) permitted.
Proof using Hu.
  start parseSetJailCpuset. cbn [Authz.authorize] in Ha. apply jid_allow in Ha. unfold validateSetJailCpuset in Hv. ok_split Hv.
  destruct (unsigned_jid SetJailCpuset m rs a Ha0) as (Ej & Hr & Eu & Ed); [by apply Hv|].
  apply emits_tryAll, permitted1. cbn [permitted permittedBy sc_jid]. rewrite <- Ed. apply ExecCpuset. by rewrite Eu, <- Ej.
Qed.

Lemma SignalJail_permitted m rs :
  Authz.authorize SignalJail (gateRequest SignalJail m rs) env (lookupOf w d) = Authz.Allow ->
  emits (runHandler (parseSignalJail m) validateSignalJail (handleSignalJail w)) permitted.
Proof using Hu.
  start parseSignalJail. cbn [Authz.authorize] in Ha. apply jid_allow in Ha. unfold validateSignalJail in Hv. ok_split Hv.
  destruct (unsigned_jid SignalJail m rs a Ha0) as (Ej & Hr & Eu & Ed); [by apply Hv|].
  apply emits_tryAll, permitted1. cbn [permitted permittedBy sj_jid]. rewrite <- Ed. apply ExecJexec. by rewrite Eu, <- Ej.
Qed.

(** Verbs that name an interface. *)

Lemma TeardownIface_permitted m rs :
  Authz.authorize TeardownIface (gateRequest TeardownIface m rs) env (lookupOf w d) = Authz.Allow ->
  emits (runHandler (parseTeardownIface m) validateTeardownIface (handleTeardownIface w)) permitted.
Proof using Hu.
  intros Ha.  cbn [Authz.authorize Authz.ifname Authz.jailName Authz.path Authz.source Authz.anchor gateRequest gateIfname gatePath] in Ha. apply iface_allow in Ha.
  apply emits_runHandler. intros r Hp Hv. unfold parseTeardownIface, parseIfname in Hp. unparse Hp. fields.
  apply emits_tryAll, permitted1. done.
Qed.

Lemma SetIfaceUp_permitted m rs :
  Authz.authorize SetIfaceUp (gateRequest SetIfaceUp m rs) env (lookupOf w d) = Authz.Allow ->
  emits (runHandler (parseSetIfaceUp m) validateSetIfaceUp (handleSetIfaceUp w)) permitted.
Proof using Hu.
  intros Ha.  cbn [Authz.authorize Authz.ifname Authz.jailName Authz.path Authz.source Authz.anchor gateRequest gateIfname gatePath] in Ha. apply iface_allow in Ha.
  apply emits_runHandler. intros r Hp Hv. unfold parseSetIfaceUp, parseIfname in Hp. unparse Hp. fields.
  apply emits_tryAll, permitted1. by left.
Qed.

Lemma DisableIfaceOffload_permitted m rs :
  Authz.authorize DisableIfaceOffload (gateRequest DisableIfaceOffload m rs) env (lookupOf w d) = Authz.Allow ->
  emits (runHandler (parseDisableIfaceOffload m) validateDisableIfaceOffload (handleDisableIfaceOffload w)) permitted.
Proof using Hu.
  intros Ha.  cbn [Authz.authorize Authz.ifname Authz.jailName Authz.path Authz.source Authz.anchor gateRequest gateIfname gatePath] in Ha. apply iface_allow in Ha.
  apply emits_runHandler. intros r Hp Hv. unfold parseDisableIfaceOffload, parseIfname in Hp. unparse Hp. fields.
  apply emits_tryAll, permitted1. done.
Qed.

Lemma BridgeAddMember_permitted m rs :
  Authz.authorize BridgeAddMember (gateRequest BridgeAddMember m rs) env (lookupOf w d) = Authz.Allow ->
  emits (runHandler (parseBridgeAddMember m) validateBridgeAddMember (handleBridgeAddMember w)) permitted.
Proof using Hu.
  intros Ha.  cbn [Authz.authorize Authz.ifname Authz.jailName Authz.path Authz.source Authz.anchor gateRequest gateIfname gatePath] in Ha. apply iface_allow in Ha.
  apply emits_runHandler. intros r Hp Hv. unfold parseBridgeAddMember, parseBridgeMember in Hp. unparse Hp. fields.
  apply emits_tryAll, permitted1. eexists. split; [exact Ha|by left].
Qed.

Lemma BridgeDelMember_permitted m rs :
  Authz.authorize BridgeDelMember (gateRequest BridgeDelMember m rs) env (lookupOf w d) = Authz.Allow ->
  emits (runHandler (parseBridgeDelMember m) validateBridgeDelMember (handleBridgeDelMember w)) permitted.
Proof using Hu.
  intros Ha.  cbn [Authz.authorize Authz.ifname Authz.jailName Authz.path Authz.source Authz.anchor gateRequest gateIfname gatePath] in Ha. apply iface_allow in Ha.
  apply emits_runHandler. intros r Hp Hv. unfold parseBridgeDelMember, parseBridgeMember in Hp. unparse Hp. fields.
  apply emits_tryAll, permitted1. done.
Qed.

Lemma SetIfaceInetAddr_permitted m rs :
  Authz.authorize SetIfaceInetAddr (gateRequest SetIfaceInetAddr m rs) env (lookupOf w d) = Authz.Allow ->
  emits (runHandler (parseSetIfaceInetAddr m) validateSetIfaceInetAddr (handleSetIfaceInetAddr w)) permitted.
Proof using Hu.
  start parseSetIfaceInetAddr. cbn [Authz.authorize Authz.ifname Authz.jailName Authz.path Authz.source Authz.anchor gateRequest gateIfname gatePath] in Ha. apply iface_allow in Ha.
  apply emits_tryAll, permitted1. cbn [sa_inet6 sa_ifname]. by destruct a0.
Qed.

Lemma SetIfaceMac_permitted m rs :
  Authz.authorize SetIfaceMac (gateRequest SetIfaceMac m rs) env (lookupOf w d) = Authz.Allow ->
  emits (runHandler (parseSetIfaceMac m) validateSetIfaceMac (handleSetIfaceMac w)) permitted.
Proof using Hu.
  start parseSetIfaceMac. cbn [Authz.authorize Authz.ifname Authz.jailName Authz.path Authz.source Authz.anchor gateRequest gateIfname gatePath] in Ha. apply iface_allow in Ha. by apply emits_tryAll, permitted1.
Qed.

Lemma ReclaimIfaceFromVnet_permitted m rs :
  Authz.authorize ReclaimIfaceFromVnet (gateRequest ReclaimIfaceFromVnet m rs) env (lookupOf w d) = Authz.Allow ->
  emits (runHandler (parseReclaimIfaceFromVnet m) validateReclaimIfaceFromVnet (handleReclaimIfaceFromVnet w)) permitted.
Proof using Hu.
  start parseReclaimIfaceFromVnet. cbn [Authz.authorize Authz.ifname Authz.jailName Authz.path Authz.source Authz.anchor gateRequest gateIfname gatePath] in Ha. apply Authz.andThen_allow in Ha as [Hn Hi].
  apply name_allow in Hn. apply iface_allow in Hi. by apply emits_tryAll, permitted1.
Qed.

(** create_bridge makes a bridge and brings it up. *)
Lemma CreateBridge_permitted m :
  emits (runHandler (parseCreateBridge m) validateCreateBridge (handleCreateBridge w)) permitted.
Proof.
  apply emits_runHandler. intros r Hp Hv. unfold validateCreateBridge in Hv. cbn zeta in Hv. ok_split Hv.
  destruct Hv as (_ & [Hb%negb_false_iff _] & _). apply emits_tryAll, Forall_cons.
  split; [done|]. apply permitted1. by right.
Qed.

(** pf anchors. *)

Lemma anchor_decision v m rs (a := field m (str "anchor")) :
  match v with AddPfRule | RemovePfRule | FlushPfAnchor => True | _ => False end ->
  Authz.authorize v (gateRequest v m rs) env (lookupOf w d) = Authz.Allow ->
  exists jail, a = str "crate/" ++ jail /\ ~ In "/"%char jail /\ notForeign (LName jail).
Proof using Hu.
  intros Hv Ha. exists (Authz.anchorJailName a).
  assert (H : is_empty (Authz.anchorJailName a) = false
    /\ Authz.checkOwnedName (Authz.anchorJailName a) env (lookupOf w d) = Authz.Allow).
  { destruct v; try done; cbn [Authz.authorize Authz.anchor gateRequest] in Ha; fold a in Ha;
      (destruct (is_empty (Authz.anchorJailName a)); [done|]);
      (destruct (Authz.checkOwnedName _ env _) eqn:E; try done); split; congruence. }
  destruct H as [Hne Hn]. apply is_empty_false, anchor_allow in Hne as [E Hs].
  split; [done|]. split; [done|]. by apply name_allow.
Qed.

Lemma AddPfRule_permitted m rs :
  Authz.authorize AddPfRule (gateRequest AddPfRule m rs) env (lookupOf w d) = Authz.Allow ->
  emits (runHandler (parseAddPfRule m) validateAddPfRule (handleAddPfRule w)) permitted.
Proof using Hu.
  intros Ha. apply anchor_decision in Ha; [|done]. apply emits_runHandler. intros r Hp Hv.
  unfold parseAddPfRule, parsePfRule in Hp. unparse Hp. fields. by apply emits_tryAll, permitted1.
Qed.

Lemma RemovePfRule_permitted m rs :
  Authz.authorize RemovePfRule (gateRequest RemovePfRule m rs) env (lookupOf w d) = Authz.Allow ->
  emits (runHandler (parseRemovePfRule m) validateRemovePfRule (handleRemovePfRule w)) permitted.
Proof using Hu.
  intros Ha. apply anchor_decision in Ha; [|done]. apply emits_runHandler. intros r Hp Hv.
  unfold parseRemovePfRule, parsePfRule in Hp. unparse Hp. fields. by apply emits_tryAll, permitted1.
Qed.

Lemma FlushPfAnchor_permitted m rs :
  Authz.authorize FlushPfAnchor (gateRequest FlushPfAnchor m rs) env (lookupOf w d) = Authz.Allow ->
  emits (runHandler (parseFlushPfAnchor m) validateFlushPfAnchor (handleFlushPfAnchor w)) permitted.
Proof using Hu.
  intros Ha. apply anchor_decision in Ha; [|done]. apply emits_runHandler. intros r Hp Hv.
  unfold parseFlushPfAnchor in Hp. unparse Hp. fields. by apply emits_tryAll, permitted1.
Qed.

(** Paths. *)

Lemma UnmountNullfs_permitted m rs :
  Authz.authorize UnmountNullfs (gateRequest UnmountNullfs m rs) env (lookupOf w d) = Authz.Allow ->
  emits (runHandler (parseUnmountNullfs m) validateUnmountNullfs (handleUnmountNullfs w)) permitted.
Proof using Hu.
  start parseUnmountNullfs. cbn [Authz.authorize Authz.ifname Authz.jailName Authz.path Authz.source Authz.anchor gateRequest gateIfname gatePath] in Ha. apply path_allow in Ha. by apply emits_canonical, emits_tryAll, permitted1.
Qed.

Lemma ApplyDevfsRuleset_permitted m rs :
  Authz.authorize ApplyDevfsRuleset (gateRequest ApplyDevfsRuleset m rs) env (lookupOf w d) = Authz.Allow ->
  emits (runHandler (parseApplyDevfsRuleset m) validateApplyDevfsRuleset (handleApplyDevfsRuleset w)) permitted.
Proof using Hu.
  start parseApplyDevfsRuleset. cbn [Authz.authorize Authz.ifname Authz.jailName Authz.path Authz.source Authz.anchor gateRequest gateIfname gatePath] in Ha. apply path_allow in Ha. apply emits_canonical, emits_tryAll, Forall_cons.
  split; [by apply ExecDevfsMount|]. by apply permitted1, ExecDevfsMount.
Qed.

Lemma MountTmpfs_permitted m rs :
  Authz.authorize MountTmpfs (gateRequest MountTmpfs m rs) env (lookupOf w d) = Authz.Allow ->
  emits (runHandler (parseMountTmpfs m) validateMountTmpfs (handleMountTmpfs w)) permitted.
Proof using Hu.
  start parseMountTmpfs. cbn [Authz.authorize Authz.ifname Authz.jailName Authz.path Authz.source Authz.anchor gateRequest gateIfname gatePath] in Ha. apply path_allow in Ha. apply emits_canonical, emits_tryAll, permitted1. exists (field m (str "target")).
  split; [by right; left|]. split; [done|]. intros src Hin. exfalso. revert Hin. cbn [mt_target app In].
  rewrite !in_app_iff. destruct (is_empty _), (is_empty _), (is_empty _), (is_empty _); cbn [In]; intuition discriminate.
Qed.

Lemma MountNullfs_permitted m rs :
  Authz.authorize MountNullfs (gateRequest MountNullfs m rs) env (lookupOf w d) = Authz.Allow ->
  emits (runHandler (parseMountNullfs m) validateMountNullfs (handleMountNullfs w)) permitted.
Proof using Hu.
  start parseMountNullfs. cbn [Authz.authorize Authz.ifname Authz.jailName Authz.path Authz.source Authz.anchor gateRequest gateIfname gatePath] in Ha. apply Authz.andThen_allow in Ha as [Ha Hs]. apply path_allow in Ha.
  destruct (Authz.sourceForeign _ env) eqn:Es; [done|].
  apply emits_canonical, emits_canonical, emits_tryAll, permitted1. exists (field m (str "target")).
  split; [by right; left|]. split; [done|]. cbn [In mn_source mn_target]. intros src H.
  destruct H as [H|[H|[H|[]]]]; [discriminate H|discriminate H|injection H as <-; exact Es].
Qed.

(** add_devfs_unhide_rule is never allowed for a tenant. *)
Lemma AddDevfsUnhideRule_denied m rs :
  Authz.authorize AddDevfsUnhideRule (gateRequest AddDevfsUnhideRule m rs) env (lookupOf w d) <> Authz.Allow.
Proof. cbn [Authz.authorize]. rewrite Authz.andThen_allow. intros [_ H]. discriminate H. Qed.

Lemma requireUnsigned_nonneg m key j : requireUnsigned m key = inr j -> 0 <= j.
Proof.
  unfold requireUnsigned. intros (x & _ & H)%result_bind_inr. destruct (Z.ltb_spec x 0); [done|].
  destruct (0xFFFFFFFF <? x); [done|]. by injection H as <-.
Qed.

Lemma ruleset_gate m n : requireUnsigned m (str "ruleset") = inr n -> 1 <= n ->
  requestRuleset ApplyDevfsRules m = n.
Proof.
  intros H Hn. apply requireUnsigned_ok in H as (s & E & Hne & Hd & -> & Hmax); [|done].
  unfold requestRuleset. cbn [isApplyDevfsRules]. rewrite E, gateUnsigned_digits by done.
  unfold ulong_max, u32. destruct (Z.ltb_spec (2 ^ 64 - 1) (dec_value s)); [lia|]. by rewrite Z.mod_small by lia.
Qed.

Lemma ApplyDevfsRules_permitted m  :
  Authz.authorize ApplyDevfsRules (gateRequest ApplyDevfsRules m (requestRuleset ApplyDevfsRules m)) env (lookupOf w d)
  = Authz.Allow ->
  emits (runHandler (parseApplyDevfsRules m) validateApplyDevfsRules (handleApplyDevfsRules w)) permitted.
Proof using Hu.
  start parseApplyDevfsRules. cbn [Authz.authorize Authz.ifname Authz.jailName Authz.path Authz.source Authz.anchor gateRequest gateIfname gatePath] in Ha. cbn [Authz.devfsRuleset] in Ha.
  apply Authz.andThen_allow in Ha as [Ha Hd]. apply path_allow in Ha. apply devfs_allow in Hd as [Hp Hn].
  unfold validateApplyDevfsRules in Hv. cbn [ar_mountPath ar_ruleset] in Hv. ok_split Hv.
  assert (E : requestRuleset ApplyDevfsRules m = a0).
  { apply ruleset_gate; [done|]. apply requireUnsigned_nonneg in Ha1. lia. }
  rewrite E in *. apply emits_canonical, emits_bind; [|intros _; apply emits_tryAll].
  - apply emits_call. by apply ExecDevfsSet.
  - apply Forall_app. split; [|apply Forall_cons; split; [by apply ExecDevfsMount|by apply permitted1, ExecDevfsMount]].
    apply Forall_forall. intros c Hc.
    apply list_elem_of_In, in_map_iff in Hc as (rule & <- & _). by apply ExecDevfsSet.
Qed.

(** The caller's own loginclass. *)

Lemma loginclass_is_mine lc : PerUserRctl.validateLoginclassName lc = [] -> lc = PerUserEnv.loginclass env ->
  lc = PerUserRctl.loginclassName u.
Proof using Hu.
  intros Hv E. destruct tenantEnv_loginclass as [E'|E']; [congruence|]. rewrite E' in E. subst lc. discriminate Hv.
Qed.

Lemma SetLoginclassRctl_permitted m rs :
  Authz.authorize SetLoginclassRctl (gateRequest SetLoginclassRctl m rs) env (lookupOf w d) = Authz.Allow ->
  emits (runHandler (parseSetLoginclassRctl m) validateSetLoginclassRctl (handleSetLoginclassRctl w)) permitted.
Proof using Hu.
  start parseSetLoginclassRctl. cbn [Authz.authorize Authz.req_loginclass gateRequest] in Ha.
  destruct (beq_spec (field m (str "loginclass")) (PerUserEnv.loginclass env)) as [E|]; [|done].
  unfold validateSetLoginclassRctl in Hv. ok_split Hv. destruct Hv as [Hv _].
  apply emits_tryAll, permitted1. cbn [permitted permittedBy sl_loginclass sl_key] in *. unfold loginclassRule.
  rewrite (loginclass_is_mine _ Hv E), <- ?app_assoc. apply ExecRctlLoginclass.
Qed.

Lemma ClearLoginclassRctl_permitted m rs :
  Authz.authorize ClearLoginclassRctl (gateRequest ClearLoginclassRctl m rs) env (lookupOf w d) = Authz.Allow ->
  emits (runHandler (parseClearLoginclassRctl m) validateClearLoginclassRctl (handleClearLoginclassRctl w)) permitted.
Proof using Hu.
  start parseClearLoginclassRctl. cbn [Authz.authorize Authz.req_loginclass gateRequest] in Ha.
  destruct (beq_spec (field m (str "loginclass")) (PerUserEnv.loginclass env)) as [E|]; [|done].
  unfold validateClearLoginclassRctl in Hv. ok_split Hv. destruct Hv as [Hv _].
  apply emits_tryAll, permitted1. cbn [permitted permittedBy cl_loginclass cl_key] in *. unfold loginclassRule.
  rewrite (loginclass_is_mine _ Hv E), <- ?app_assoc. apply ExecRctlLoginclass.
Qed.

(** Jails. *)

Lemma CreateJail_permitted m rs :
  Authz.authorize CreateJail (gateRequest CreateJail m rs) env (lookupOf w d) = Authz.Allow ->
  emits (runHandler (parseCreateJail m) validateCreateJail (handleCreateJail w)) permitted.
Proof using Hu.
  start parseCreateJail. cbn [Authz.authorize Authz.path gateRequest gatePath] in Ha.
  destruct (Authz.pathOwned _ _) eqn:E in Ha; [|done].
  apply emits_canonical, emits_tryAll, permitted1. by apply ExecCreate.
Qed.

Lemma DestroyJail_permitted m rs :
  Authz.authorize DestroyJail (gateRequest DestroyJail m rs) env (lookupOf w d) = Authz.Allow ->
  emits (runHandler (parseDestroyJail m) validateDestroyJail (handleDestroyJail w)) permitted.
Proof using Hu.
  start parseDestroyJail. cbn [Authz.authorize Authz.jailName gateRequest] in Ha. apply name_allow in Ha.
  apply emits_tryAll, permitted1. by apply ExecDestroy.
Qed.

(** The lease registry calls nothing. *)
Lemma fwLease_emits P :
  (forall r, emits (handleAcquireFwLease w r) P) /\ (forall r, emits (handleReleaseFwLease w r) P).
Proof.
  split; intros r; [unfold handleAcquireFwLease, getJailByJid, noFwRegistry|unfold handleReleaseFwLease, noFwRegistry];
    emit.
Qed.

(** The process exec_in_jail starts: the jail the request names, and as another
    user than root never with uid 0. *)
Definition credOk (r : ExecInJailReq) (cred : option (Z * Z * list Z)) : Prop :=
  match cred with
  | None => ex_user r = [] \/ ex_user r = root
  | Some (uid, _, groups) => ex_user r <> root /\ uid <> 0 /\ NoDup groups /\ size_z groups <= 64
  end.

Lemma groups_ok g name gid :
  let groups := match g with Some c => Passwd.supplementaryGroups c name gid 64 | None => [gid] end in
  NoDup groups /\ size_z groups <= 64.
Proof.
  destruct g as [c|]; cbn zeta; [|split; [apply NoDup_singleton|done]].
  unfold Passwd.supplementaryGroups. destruct (_ || _); [split; [apply NoDup_singleton|done]|].
  edestruct (Passwd.groupLines_spec (split_on newline c) name 64 [gid]) as (? & ? & _);
    [apply NoDup_singleton|done|done].
Qed.

Lemma execInJail_emits P r io :
  (forall cred env', credOk r cred -> P (JailProc (i32 (ex_jid r)) cred (ex_argv r) env')) ->
  emits (handleExecInJail w r io) P.
Proof.
  intros HP. unfold handleExecInJail, getJailByJid. destruct (_ || _ || _); [apply emits_ret|].
  apply emits_bind; [apply emits_ask|]. intros [[jj path []]|]; try apply emits_ret.
  apply emits_bind; [unfold resolveUser, readJailEtcFile; emit|]. intros [dr|user]; [apply emits_ret|].
  destruct (_ && _) eqn:Hroot; [apply emits_ret|]. unfold readJailEtcFile.
  apply emits_bind; [apply emits_ask|]. intros g. apply emits_bind; [apply emits_get|]. intros d0.
  apply emits_bind; [|intros [e|out]; [apply emits_ret|destruct (forked w (log d0)); apply emits_ret]].
  apply emits_call, HP. unfold credOk. destruct (groups_ok g (Passwd.u_name user) (Passwd.u_gid user)) as [Hnd Hsz].
  destruct (ex_user r) as [|c s] eqn:Eu; cbn [is_empty] in *; [by left|].
  destruct (beq_spec (c :: s) root) as [Er|Er]; cbn [negb andb] in *; [by right|].
  split; [done|]. split; [|done]. by apply Z.eqb_neq.
Qed.

Lemma ExecInJail_jid m rs r : Authz.authorize ExecInJail (gateRequest ExecInJail m rs) env (lookupOf w d) = Authz.Allow ->
  parseExecInJail m = inr r -> validateExecInJail r = [] ->
  owner (LJid (ex_jid r)) = Some u /\ 1 <= ex_jid r <= 65535 /\ i32 (ex_jid r) = ex_jid r /\ u32 (ex_jid r) = ex_jid r.
Proof using Hu.
  intros Ha Hp Hv. unfold parseExecInJail in Hp. unparse Hp. unfold validateExecInJail in Hv. ok_split Hv.
  cbn [ex_jid] in *. destruct (unsigned_jid ExecInJail m rs a Ha0) as (Ej & Hr & Eu & _).
  { by apply Hv. }
  cbn [Authz.authorize] in Ha. apply strict_allow in Ha. rewrite Ej in Ha.
  repeat split; try done; try lia. apply i32_small. lia.
Qed.

(** ** Every verb *)

Lemma verbs_permitted m io : allowed w cfg u d m -> emits (runVerbFromMap w (extractVerb m) m u io) permitted.
Proof using Hu Hjids.
  unfold allowed. cbn zeta. fold env. intros Ha. destruct (fwLease_emits permitted) as [Hacq Hrel].
  destruct (extractVerb m) eqn:V; cbn [runVerbFromMap].
  all: try solve [ eauto using SetRctl_permitted, ClearRctl_permitted, AttachZfs_permitted, DetachZfs_permitted,
    ConfigureIface_permitted, QueryJailRctl_permitted, SetJailCpuset_permitted, SignalJail_permitted ].
  all: try solve [ eauto using TeardownIface_permitted, SetIfaceUp_permitted, DisableIfaceOffload_permitted,
    BridgeAddMember_permitted, BridgeDelMember_permitted, SetIfaceInetAddr_permitted, SetIfaceMac_permitted,
    ReclaimIfaceFromVnet_permitted, CreateBridge_permitted ].
  all: try solve [ eauto using AddPfRule_permitted, RemovePfRule_permitted, FlushPfAnchor_permitted,
    UnmountNullfs_permitted, ApplyDevfsRuleset_permitted, MountTmpfs_permitted, MountNullfs_permitted,
    ApplyDevfsRules_permitted, SetLoginclassRctl_permitted, ClearLoginclassRctl_permitted,
    CreateJail_permitted, DestroyJail_permitted ].
  all: try (by apply AddDevfsUnhideRule_denied in Ha).
  all: try (apply emits_runHandler; intros r Hp Hv; solve [auto]).
  all: try (apply emits_runHandler; intros r Hp Hv; apply emits_tryAll, permitted1; solve [apply ExecIpfw|done]).
  - apply emits_ret.
  - apply emits_bind; [|intros; apply emits_ret]. unfold handleCreateEpair.
    emit. done.
  - apply emits_bind; [|intros; apply emits_ret]. unfold handleEnsureUserRoot.
    destruct (u =? 0); [apply emits_failure|]. by apply emits_tryAll, permitted1.
  - apply emits_parseThenValidate; [intros; apply emits_ret|]. intros r Hp Hv.
    destruct io as [io|]; [|apply emits_ret]. apply execInJail_emits. intros cred env' _.
    destruct (ExecInJail_jid m _ r Ha Hp Hv) as (Ho & _ & -> & E). cbn [permitted permittedBy]. by rewrite E.
Qed.

End tenant.

(** ** A concrete system, for the witnesses

    Jail 5 runs from /jails/1001/web; every command succeeds. *)

Definition demoJail : JailInfo := {| ji_jid := 5; ji_path := str "/jails/1001/web"; ji_dying := false |}.

Definition demoWorld : World :=
  {| jailByJid := fun _ j => if j =? 5 then Some demoJail else None;
     jailByName := fun _ n => if beq n (str "web") then Some demoJail else None;
     realpath := fun _ p => RPath p;
     jailFile := fun _ _ _ => None;
     devfsMounted := fun _ _ => true;
     devfsShow := fun _ _ => Some [];
     run := fun _ c => inr match c with IfCreateEpair => str "epair7a" ++ [newline] | _ => [] end;
     forked := fun _ => (4711, 9);
     now := fun _ => 0;
     jidProbe := fun _ => None; ifProbe := fun _ => None;
     jidIo := fun _ => true; ifIo := fun _ => true; fwIo := fun _ => FwLease.allOk; fwError := fun _ => [] |}.

Definition demoCfg : Config :=
  {| perUserAuthzCfg :=
       {| PerUserEnv.zfsMasterPrefix := str "tank/crate"; PerUserEnv.pathMasterPrefixCfg := str "/jails";
          PerUserEnv.networkMasterCidr4 := []; PerUserEnv.networkSubPrefixLen4 := 24;
          PerUserEnv.networkMasterCidr6 := []; PerUserEnv.networkSubPrefixLen6 := 64 |};
     umbrellaRules := [(str "maxproc", str "100")] |}.

(** Jail 5 is registered to operator 1001. *)
Definition demoDaemon : Daemon :=
  {| log := [];
     jidReg := Some {| JidOwner.entries := [(5, {| JidOwner.e_uid := 1001; JidOwner.e_name := str "web";
                                                    JidOwner.e_path := str "/jails/1001/web" |})];
                       JidOwner.disk := None |};
     ifReg := Some {| IfaceOwner.entries := []; IfaceOwner.disk := None |};
     devfsClaims := ∅; fwReg := None |}.

Definition fieldsOf (l : list (string * string)) : FieldMap :=
  list_to_map (map (fun kv => (str (fst kv), str (snd kv))) l).

Definition demoExec : FieldMap :=
  fieldsOf [("verb", "exec_in_jail"); ("jid", "5"); ("argc", "1"); ("argv0", "/bin/date")]%string.

Definition demoAttach (ds : string) : FieldMap :=
  fieldsOf [("verb", "attach_zfs"); ("jid", "5"); ("dataset", ds)]%string.

Definition demoIo : option ExecIo := Some {| stdinFd := 0; stdoutFd := 1; stderrFd := 2 |}.

Lemma demoJids l j : j <= 0 -> jailByJid demoWorld l j = None.
Proof. intros H. cbn. destruct (Z.eqb_spec j 5); [lia|done]. Qed.

(** ** Theorems *)

Lemma makes_permitted w cfg u d m io c : 0 < u -> (forall l j, j <= 0 -> jailByJid w l j = None) ->
  makes d (dispatchPrivOpFromMap w cfg m true u io) c -> permitted w cfg u d c.
Proof.
  intros Hu Hjids Hc. refine (emits_makes _ _ _ _ _ Hc). apply (dispatch_emits w cfg u Hu).
  - done.
  - intros kv. unfold umbrellaRule. cbn [permitted permittedBy].
    replace (str "crate-" ++ dec u) with (PerUserRctl.loginclassName u); [apply ExecRctlLoginclass|].
    unfold PerUserRctl.loginclassName. by rewrite PerUserRctl.uidStr_dec by lia.
  - intros Ha. by apply verbs_permitted.
Qed.

(** The caller's dataset prefix is its slice of the master prefix. *)
Lemma zfsPrefix_slice cfg u : 0 <= u <= RuntimePaths.int32_max ->
  PerUserEnv.zfsMasterPrefix (perUserAuthzCfg cfg) <> [] ->
  PerUserEnv.zfsPrefix (tenantEnv cfg u)
  = Authz.slice (ZfsDataset.stripSlash (PerUserEnv.zfsMasterPrefix (perUserAuthzCfg cfg))) u.
Proof.
  intros Hu Hne. unfold tenantEnv.
  destruct (PerUserEnv.composeForUid_base (perUserAuthzCfg cfg) u Hu) as (_ & -> & _).
  unfold PerUserEnv.baseEnv. cbn [PerUserEnv.zfsPrefix]. rewrite (proj2 (is_empty_false _) Hne).
  unfold ZfsDataset.composePerUserPrefix, Authz.slice. by rewrite PerUserEnv.zfs_uidStr_dec by lia.
Qed.

Lemma slice_nonempty base u : Authz.slice base u <> [].
Proof. unfold Authz.slice. by destruct base. Qed.

Lemma pathPrefix_slice cfg u : 0 <= u <= RuntimePaths.int32_max -> pathBase cfg <> [] ->
  PerUserEnv.pathPrefix (tenantEnv cfg u) = Authz.slice (pathBase cfg) u
  /\ PerUserEnv.pathMasterPrefix (tenantEnv cfg u) = pathBase cfg.
Proof.
  intros Hu Hne. unfold tenantEnv.
  destruct (PerUserEnv.composeForUid_base (perUserAuthzCfg cfg) u Hu) as (_ & _ & -> & -> & _).
  unfold PerUserEnv.baseEnv, pathBase in *. cbn [PerUserEnv.pathPrefix PerUserEnv.pathMasterPrefix].
  by destruct (PerUserEnv.pathMasterPrefixCfg (perUserAuthzCfg cfg)).
Qed.

Lemma owned_below value prefix : prefix <> [] -> Authz.ownedUnder value prefix = true <-> Authz.below value prefix.
Proof. intros Hne. rewrite Authz.ownedUnder_spec. tauto. Qed.

(** What lies in a slice lies below the master prefix. *)
Lemma below_base value base u : Authz.below value (Authz.slice base u) -> Authz.below value base.
Proof.
  rewrite Authz.below_slice. unfold Authz.below, Authz.slice. intros [->|[r ->]]; right; left; [by exists (dec u)|].
  exists (dec u ++ str "/" ++ r). by rewrite <- !app_assoc.
Qed.

(** With the prefixes configured and the interface registry on, what the
    authorizer tests is isolation. *)
Lemma judged_confined w cfg u d : 0 < u <= RuntimePaths.int32_max ->
  PerUserEnv.zfsMasterPrefix (perUserAuthzCfg cfg) <> [] -> pathBase cfg <> [] -> ifReg d <> None ->
  Stronger (judged w cfg u d) (confined w cfg u d).
Proof.
  intros Hu Hz Hp Hi. destruct (pathPrefix_slice cfg u ltac:(lia) Hp) as [Ep Em].
  assert (Hs := slice_nonempty (pathBase cfg) u). split; cbn [judged confined r_dataset r_path r_create r_source r_iface].
  - intros ds. rewrite zfsPrefix_slice by (done || lia). apply owned_below, slice_nonempty.
  - intros p. rewrite Ep, Em. destruct (pathOwner d p); [done|]. intros [?|H]; [done|]. by apply owned_below in H.
  - intros p. rewrite Ep. by apply owned_below.
  - intros src. unfold Authz.sourceForeign, Authz.pathOwned. rewrite Ep, Em. rewrite (proj2 (is_empty_false _) Hp). intros E v Hv Hne B.
    apply andb_false_iff in E as [E|E%negb_false_iff].
    + apply below_base, owned_below in B; [congruence|done].
    + apply owned_below in E; [|done]. apply Hne. symmetry. eapply Authz.slices_disjoint; [| |exact E|exact B]; lia.
  - auto.
Qed.


Lemma demoConfigured : 0 < 1001 <= RuntimePaths.int32_max
  /\ PerUserEnv.zfsMasterPrefix (perUserAuthzCfg demoCfg) <> [] /\ pathBase demoCfg <> [] /\ ifReg demoDaemon <> None.
Proof. vm_compute. repeat split; discriminate. Qed.


(** C2: exec_in_jail starts a process only in a jail registered to the caller,
    and when the request names a user other than root the process never has
    uid 0, whatever the jail's passwd file says. *)
Theorem exec_in_jail_own_jail_only (w : World) (cfg : Config) (u : Z) (d : Daemon) (m : FieldMap)
  (io : option ExecIo) (j : Z) (cred : option (Z * Z * list Z)) (argv env : list bytes) :
  0 < u ->
  makes d (dispatchPrivOpFromMap w cfg m true u io) (JailProc j cred argv env) ->
  owner w d (LJid j) = Some u /\ 1 <= j <= 65535
  /\ match cred with
     | None => field m (str "user") = [] \/ field m (str "user") = root
     | Some (uid, _, groups) => field m (str "user") <> root /\ uid <> 0 /\ NoDup groups
     end.
Proof.
  intros Hu Hc.
  set (P c := match c with
              | JailProc j cred _ _ => owner w d (LJid j) = Some u /\ 1 <= j <= 65535
                  /\ match cred with
                     | None => field m (str "user") = [] \/ field m (str "user") = root
                     | Some (uid, _, groups) => field m (str "user") <> root /\ uid <> 0 /\ NoDup groups
                     end
              | _ => True
              end).
  refine (emits_makes _ _ P _ _ Hc). apply (dispatch_emits w cfg u Hu); [done..|].
  unfold allowed. cbn zeta. intros Ha. destruct (fwLease_emits w P) as [Hacq Hrel].
  destruct (extractVerb m) eqn:V; cbn [runVerbFromMap].
  all: try (apply emits_runHandler; intros r _ _; solve [auto]).
  all: try (apply emits_runHandler; intros r _ _; unfold handleSetRctl, handleClearRctl, handleAttachZfs,
    handleDetachZfs, handleMountNullfs, handleUnmountNullfs, handleCreateJail, handleQueryJailRctl,
    handleApplyDevfsRuleset, handleAddDevfsUnhideRule, handleMountTmpfs, handleSetIfaceInetAddr; emit;
    solve [ repeat constructor | destruct (sa_inet6 r); repeat constructor ]).
  - apply emits_ret.
  - apply emits_runHandler. intros r _ _. unfold handleConfigureIface, configureCalls. emit.
    apply Forall_cons. split; [done|]. unfold optCall.
    repeat (apply Forall_app; split); destruct (is_empty _); by repeat constructor.
  - apply emits_bind; [|intros; apply emits_ret]. unfold handleCreateEpair. emit. done.
  - apply emits_bind; [|intros; apply emits_ret]. unfold handleEnsureUserRoot. emit. by repeat constructor.
  - apply emits_parseThenValidate; [intros; apply emits_ret|]. intros r Hp Hv.
    destruct io as [io|]; [|apply emits_ret]. apply execInJail_emits. intros cr env' Hcr.
    destruct (ExecInJail_jid w cfg u d Hu m _ r Ha Hp Hv) as (Ho & Hr & -> & E). split; [done|]. split; [done|].
    unfold parseExecInJail in Hp. unparse Hp. fields. unfold credOk in Hcr. cbn [ex_user] in Hcr.
    destruct cr as [[[uid gid] groups]|]; [|done]. by destruct Hcr as (? & ? & ? & _).
  - apply emits_runHandler. intros r _ _. unfold handleApplyDevfsRules. emit; [done|].
    apply Forall_app. split; [|by repeat constructor]. apply Forall_forall. intros c Hin.
    by apply list_elem_of_In, in_map_iff in Hin as (rule & <- & _).
Qed.

Lemma exec_in_jail_own_jail_only_witness :
  owner demoWorld demoDaemon (LJid 5) = Some 1001.
Proof.
  refine (proj1 (exec_in_jail_own_jail_only demoWorld demoCfg 1001 demoDaemon demoExec demoIo 5 None
    [str "/bin/date"] (execEnv {| Passwd.u_name := root; Passwd.u_uid := 0; Passwd.u_gid := 0;
       Passwd.u_loginClass := []; Passwd.u_home := []; Passwd.u_shell := [] |} []) _ _)); [lia|].
  eexists [_], [_; _; _; _]. vm_compute. reflexivity.
Defined.

(** ** The command line of jail(8) *)

(** The optional arguments a request can put on it, in full. *)
Inductive jailArgument : bytes -> Prop :=
| JVnet : jailArgument (str "vnet")
| JHostname h : h <> [] -> validateHostname h = [] -> jailArgument (str "host.hostname=" ++ h)
| JSwitch key val :
    In key [str "allow.raw_sockets"; str "allow.socket_af"; str "allow.sysvipc"; str "allow.mount"; str "allow.mount.zfs";
            str "allow.quotas"; str "allow.set_hostname"; str "allow.chflags"; str "allow.mlock"] ->
    In val [str "0"; str "1"; str "true"; str "false"] -> jailArgument (key ++ str "=" ++ val)
| JStatfs val : In val [str "0"; str "1"; str "2"] -> jailArgument (str "enforce_statfs=" ++ val)
| JSecurelevel val : In val [str "-1"; str "0"; str "1"; str "2"; str "3"] -> jailArgument (str "securelevel=" ++ val)
| JChildren val : all_digits val = true -> 1 <= size_z val <= 9 -> jailArgument (str "children.max=" ++ val)
| JHostuuid val : PrivOpsFacts.isUuid val -> jailArgument (str "host.hostuuid=" ++ val)
| JHostid val : all_digits val = true -> dec_value val < 2 ^ 32 -> jailArgument (str "host.hostid=" ++ val).

(** Parameters that would run commands on the host, mount, move or rename the
    jail, or give it addresses, interfaces or devices. *)
Definition hostReach : list bytes :=
  [str "exec."; str "command="; str "mount"; str "allow.mount.nullfs"; str "allow.mount.devfs"; str "allow.mount.tmpfs"; str "path="; str "name=";
   str "jid="; str "ip4"; str "ip6"; str "interface"; str "vnet.interface"; str "devfs_ruleset"; str "osrelease"; str "sysv"].

Lemma allowedToken_argument tok : PrivOpsFacts.allowedToken tok -> jailArgument tok.
Proof.
  intros (key & val & kind & -> & _ & Hv & Hin & Hok). cbn [kJailParamWhitelist In] in Hin.
  assert (1 <= size_z val) by (destruct val; [done|rewrite size_z_cons; pose proof (size_z_nonneg val); lia]).
  repeat (destruct Hin as [[= <- <-]|Hin]; [first
    [ apply JSwitch; [cbn [In]; tauto|exact Hok] | exact (JStatfs val Hok) | exact (JSecurelevel val Hok) | exact (JHostuuid val Hok)
    | destruct Hok as (? & ? & ?); exact (JChildren val ltac:(done) ltac:(done))
    | destruct Hok as (? & ? & ? & ?); exact (JHostid val ltac:(done) ltac:(done)) ]|]). done.
Qed.

Lemma argument_reach a bad : jailArgument a -> In bad hostReach -> starts_with bad a = false.
Proof.
  intros Ha Hb. destruct Ha as [|h _ _|key val Hk _|val _|val _|val _ _|val _|val _ _]; cbn [hostReach In] in Hb;
    try (repeat (destruct Hb as [<-|Hb]; [reflexivity|]); done).
  cbn [In] in Hk. repeat (destruct Hk as [<-|Hk]; [repeat (destruct Hb as [<-|Hb]; [reflexivity|]); done|]). done.
Qed.

(** A call that runs jail -c, and does so for a validated request. *)
Definition fromRequest (c : Call) : Prop :=
  match c with
  | Exec (p :: f :: rest) => p = CRATE_PATH_JAIL -> f = str "-c" -> exists r, validateCreateJail r = [] /\ p :: f :: rest = createJailArgv r
  | _ => True
  end.

Lemma jail_from_request w cfg u d m io c : 0 < u ->
  makes d (dispatchPrivOpFromMap w cfg m true u io) c -> fromRequest c.
Proof.
  intros Hu Hc. refine (emits_makes _ _ fromRequest _ _ Hc). apply (dispatch_emits w cfg u Hu); [done|by intros ? ?|].
  intros _. destruct (fwLease_emits w fromRequest) as [Hacq Hrel].
  destruct (extractVerb m); cbn [runVerbFromMap].
  all: try (apply emits_runHandler; intros r _ _; solve [auto]).
  all: try (apply emits_runHandler; intros r _ _; unfold handleSetRctl, handleClearRctl, handleAttachZfs,
    handleDetachZfs, handleMountNullfs, handleUnmountNullfs, handleQueryJailRctl,
    handleApplyDevfsRuleset, handleAddDevfsUnhideRule, handleMountTmpfs, handleSetIfaceInetAddr; emit;
    solve [ repeat constructor; by intros ? | destruct (sa_inet6 r); repeat constructor ]).
  - apply emits_ret.
  - apply emits_runHandler. intros r _ Hv. apply emits_canonical, emits_tryAll, Forall_singleton. intros _ _. by exists r.
  - apply emits_runHandler. intros r _ _. apply emits_tryAll, Forall_singleton. intros _. by destruct (dj_force r).
  - apply emits_runHandler. intros r _ _. unfold handleConfigureIface, configureCalls. emit.
    apply Forall_cons. split; [done|]. unfold optCall.
    repeat (apply Forall_app; split); destruct (is_empty _); repeat constructor; by intros ?.
  - apply emits_bind; [|intros; apply emits_ret]. unfold handleCreateEpair. emit. done.
  - apply emits_bind; [|intros; apply emits_ret]. unfold handleEnsureUserRoot. emit. by repeat constructor.
  - apply emits_parseThenValidate; [intros; apply emits_ret|]. intros r Hp Hv.
    destruct io as [io|]; [|apply emits_ret]. by apply execInJail_emits.
  - apply emits_runHandler. intros r _ _. unfold handleApplyDevfsRules. emit; [by intros ?|].
    apply Forall_app. split; [|repeat constructor; by intros ?]. apply Forall_forall. intros c' Hin.
    apply list_elem_of_In, in_map_iff in Hin as (rule & <- & _). by intros ?.
Qed.

(** C6: whatever an operator other than root sends in per-user mode, a command
    [jail -c] that crated runs for it has the name, the path, the closing
    [persist] and, in between, only arguments of a closed list: vnet, a valid host
    name, nine switches (allow.mount and allow.mount.zfs among them, no other
    mount permission) set to 0, 1, true or false, enforce_statfs 0..2,
    securelevel -1..3, children.max of at most nine digits, a UUID and a 32-bit
    host id.  So no argument of the request runs a command on the host
    ([exec.*], [command]), mounts, repeats the path or the name, or sets
    addresses, interfaces or the devfs ruleset; and the path is absolute,
    without [..] components and shell metacharacters. *)
Theorem jail_command_line_closed (w : World) (cfg : Config) (u : Z) (d : Daemon) (m : FieldMap) (io : option ExecIo)
  (args : list bytes) :
  0 < u -> makes d (dispatchPrivOpFromMap w cfg m true u io) (Exec (CRATE_PATH_JAIL :: str "-c" :: args)) ->
  exists name path options,
    args = [str "name=" ++ name; str "path=" ++ path] ++ options ++ [str "persist"]
    /\ PrivOpsFacts.safePath path
    /\ Forall (fun a => jailArgument a /\ Forall (fun bad => starts_with bad a = false) hostReach) options.
Proof.
  intros Hu Hc. destruct (jail_from_request w cfg u d m io _ Hu Hc eq_refl eq_refl) as (r & Hv & E). injection E as ->.
  exists (cj_name r), (cj_path r), ((if is_empty (cj_hostname r) then [] else [str "host.hostname=" ++ cj_hostname r])
    ++ (if cj_vnet r then [str "vnet"] else []) ++ words (cj_parameters r)).
  split; [by rewrite <- !app_assoc|]. pose proof Hv as Hv'. unfold validateCreateJail in Hv'. rewrite !guard_err_nil in Hv'.
  destruct Hv' as (_ & Hp & Hh & _). split; [by apply PrivOpsFacts.validateAbsolutePath_ok|].
  apply Forall_forall. intros a Ha. assert (Hj : jailArgument a).
  { apply list_elem_of_In in Ha. rewrite !in_app_iff in Ha. destruct Ha as [Ha|[Ha|Ha]].
    - destruct (cj_hostname r) as [|h hs] eqn:Eh; [done|]. destruct Ha as [<-|[]]. by apply JHostname.
    - destruct (cj_vnet r); [destruct Ha as [<-|[]]; constructor|done].
    - apply allowedToken_argument. by eapply PrivOpsFacts.create_jail_tokens. }
  split; [done|]. apply Forall_forall. intros bad Hb. apply argument_reach; [done|by apply list_elem_of_In].
Qed.

Lemma jail_command_line_closed_witness :
  let m := fieldsOf [("verb", "create_jail"); ("name", "db"); ("path", "/jails/1001/db"); ("parameters", "allow.mount=1 securelevel=2")]%string in
  exists options,
    makes demoDaemon (dispatchPrivOpFromMap demoWorld demoCfg m true 1001 None)
      (Exec (CRATE_PATH_JAIL :: str "-c" :: [str "name=db"; str "path=/jails/1001/db"] ++ options ++ [str "persist"]))
    /\ options = [str "allow.mount=1"; str "securelevel=2"] /\ Forall jailArgument options.
Proof.
  intros m. exists [str "allow.mount=1"; str "securelevel=2"].
  assert (Hm : makes demoDaemon (dispatchPrivOpFromMap demoWorld demoCfg m true 1001 None)
    (Exec (CRATE_PATH_JAIL :: str "-c" :: [str "name=db"; str "path=/jails/1001/db"] ++ [str "allow.mount=1"; str "securelevel=2"] ++ [str "persist"])))
    by (eexists [_; _; _], [_]; vm_compute; reflexivity).
  split; [exact Hm|]. split; [reflexivity|].
  destruct (jail_command_line_closed demoWorld demoCfg 1001 demoDaemon m None _ ltac:(lia) Hm) as (n & p & o & E & _ & F).
  cbn [app] in E. injection E as _ _ E.
  apply (app_inj_tail [str "allow.mount=1"; str "securelevel=2"]) in E as [<- _]. eapply Forall_impl; [exact F|]. intros a Ha. apply Ha.
Defined.


(** A request the authorizer denies has no effect outside the daemon: the
    reply is 403 with the decision's reason, no process descriptor is handed
    out and no call is made. *)
Theorem denied_makes_no_call (w : World) (cfg : Config) (u : Z) (d : Daemon) (m : FieldMap) (io : option ExecIo)
  (v := extractVerb m) (dec := Authz.authorize v (gateRequest v m (requestRuleset v m)) (tenantEnv cfg u)
                                 (lookupOf w d)) :
  0 < u -> dec <> Authz.Allow ->
  fst (dispatchPrivOpFromMap w cfg m true u io d) = (forbidden dec, -1)
  /\ forall c, ~ makes d (dispatchPrivOpFromMap w cfg m true u io) c.
Proof.
  intros Hu Hdec. assert (Hg : fst (gate w cfg v m true u d) = dec).
  { unfold gate. rewrite (proj2 (Z.ltb_lt _ _) Hu). cbn [andb]. rewrite bind_run.
    change (fst (PerUserEnv.composeForUid _ u)) with (tenantEnv cfg u).
    pose proof (authorizeNow_result w d v (gateRequest v m (requestRuleset v m)) (tenantEnv cfg u)) as E.
    fold dec in E. destruct (authorizeNow w v _ _ d) as [dec' d1]. cbn [fst] in E. subst dec'.
    by destruct dec. }
  split.
  - unfold dispatchPrivOpFromMap. fold v. rewrite bind_run. destruct (gate w cfg v m true u d) as [dec' d1].
    cbn [fst] in Hg. subst dec'. by destruct dec.
  - intros c Hc. refine (emits_makes _ _ (fun _ => False) _ _ Hc). unfold dispatchPrivOpFromMap. fold v.
    apply emitsAt_bind; [apply gate_emits|]. rewrite Hg. destruct dec; try apply emits_ret. done.
Qed.

Lemma denied_makes_no_call_witness :
  status (fst (fst (dispatchPrivOpFromMap demoWorld demoCfg demoExec true 1002 demoIo demoDaemon))) = 403.
Proof.
  rewrite (proj1 (denied_makes_no_call demoWorld demoCfg 1002 demoDaemon demoExec demoIo ltac:(lia)
    ltac:(vm_compute; discriminate))). reflexivity.
Defined.

(** The dataset a call attaches to a jail or detaches from one. *)
Definition datasetOf (c : Call) : option bytes := match c with ZfsJail _ ds | ZfsUnjail _ ds => Some ds | _ => None end.

Lemma dataset_in_slice w cfg u d m io c ds : 0 < u <= RuntimePaths.int32_max ->
  (forall l j, j <= 0 -> jailByJid w l j = None) -> PerUserEnv.zfsMasterPrefix (perUserAuthzCfg cfg) <> [] ->
  makes d (dispatchPrivOpFromMap w cfg m true u io) c -> datasetOf c = Some ds -> Authz.below ds (Authz.slice (zfsBase cfg) u).
Proof.
  intros Hu Hw Hne H E. apply makes_permitted in H; [|lia|done].
  destruct c; try done; injection E as ->; destruct H as [H _]; cbn [judged r_dataset] in H;
    rewrite zfsPrefix_slice in H by (done || lia); by apply owned_below in H; [|apply slice_nonempty].
Qed.

(** C5: with a ZFS master prefix configured, a kernel that knows no jid below 1,
    and for operators with uids in 1..INT32_MAX, a dataset crated attaches to a jail or detaches from one for
    an operator is never one it attaches or detaches for another: not by any
    request, with any configuration of jails and registries, at any time. *)
Theorem dataset_has_one_tenant (w w' : World) (cfg : Config) (u u' : Z) (d d' : Daemon) (m m' : FieldMap)
  (io io' : option ExecIo) (c c' : Call) (ds : bytes) :
  0 < u <= RuntimePaths.int32_max -> 0 < u' <= RuntimePaths.int32_max -> u <> u' ->
  (forall l j, j <= 0 -> jailByJid w l j = None) -> (forall l j, j <= 0 -> jailByJid w' l j = None) ->
  PerUserEnv.zfsMasterPrefix (perUserAuthzCfg cfg) <> [] ->
  makes d (dispatchPrivOpFromMap w cfg m true u io) c -> datasetOf c = Some ds ->
  datasetOf c' = Some ds -> ~ makes d' (dispatchPrivOpFromMap w' cfg m' true u' io') c'.
Proof.
  intros Hu Hu' Hne Hw Hw' Hz H E E' H'. eapply dataset_in_slice in H; [|done..]. eapply dataset_in_slice in H'; [|done..].
  apply Hne. eapply Authz.slices_disjoint; [| |exact H|exact H']; lia.
Qed.

(** What operator 1001 attaches, nothing detaches for operator 1002. *)
Lemma dataset_has_one_tenant_witness :
  makes demoDaemon (dispatchPrivOpFromMap demoWorld demoCfg (demoAttach "tank/crate/1001/db") true 1001 None)
      (ZfsJail 5 (str "tank/crate/1001/db"))
  /\ forall m' j', ~ makes demoDaemon (dispatchPrivOpFromMap demoWorld demoCfg m' true 1002 None)
      (ZfsUnjail j' (str "tank/crate/1001/db")).
Proof.
  assert (H : makes demoDaemon (dispatchPrivOpFromMap demoWorld demoCfg (demoAttach "tank/crate/1001/db") true 1001
    None) (ZfsJail 5 (str "tank/crate/1001/db"))) by (eexists [_], [_]; vm_compute; reflexivity).
  split; [exact H|]. intros m' j'.
  exact (dataset_has_one_tenant demoWorld demoWorld demoCfg 1001 1002 demoDaemon demoDaemon _ m' None None _ (ZfsUnjail j' _)
    (str "tank/crate/1001/db") ltac:(vm_compute; split; [reflexivity|discriminate])
    ltac:(vm_compute; split; [reflexivity|discriminate]) ltac:(discriminate) demoJids demoJids ltac:(discriminate) H eq_refl eq_refl).
Defined.

(** The jid the authorizer judges is the jid the handler hands to the
    kernel: for a request whose jid field parses and passes the validator, the
    gate's 32-bit number is the kernel jid's, unless the decimal number does
    not fit a [long], when the handler asks for jail [-1]. *)
Theorem gate_judges_handler_jid (m : FieldMap) (v : Verb) (ruleset j : Z) :
  requireLong m (str "jid") = inr j -> 1 <= j ->
  Authz.jid (gateRequest v m ruleset) = u32 (i32 j) \/ i32 j = -1.
Proof. rewrite u32_i32. apply gate_jid. Qed.

Lemma gate_judges_handler_jid_witness :
  let m := fieldsOf [("jid", "4294967301")]%string in
  requireLong m (str "jid") = inr 4294967301 /\ Authz.jid (gateRequest SetRctl m 0) = 5.
Proof.
  intros m. assert (H : requireLong m (str "jid") = inr 4294967301) by (vm_compute; reflexivity).
  split; [exact H|]. destruct (gate_judges_handler_jid m SetRctl 0 4294967301 H ltac:(lia)) as [E|E].
  - rewrite E. reflexivity.
  - vm_compute in E. discriminate E.
Defined.

Lemma gate_decides w cfg v m u d : 0 < u -> isApplyDevfsRules v = false ->
  fst (gate w cfg v m true u d) = Authz.authorize v (gateRequest v m (requestRuleset v m)) (tenantEnv cfg u) (lookupOf w d).
Proof.
  intros Hu Hv. unfold gate. rewrite (proj2 (Z.ltb_lt _ _) Hu). cbn [andb]. rewrite bind_run.
  change (fst (PerUserEnv.composeForUid _ u)) with (tenantEnv cfg u).
  pose proof (authorizeNow_result w d v (gateRequest v m (requestRuleset v m)) (tenantEnv cfg u)) as E.
  destruct (authorizeNow w v _ _ d) as [dec d1]. cbn [fst] in E. subst dec. rewrite Hv. by destruct (Authz.authorize _ _ _ _).
Qed.

(** C40: an operator whose uid is above INT32_MAX is not confined.  Composing its
    environment fails, and the gate of the dispatcher judges its requests in the
    empty environment all the same, whatever prefixes are configured: a jail may
    be created at any path; attaching or detaching a dataset is decided by the
    jid alone, whichever dataset it is; and a nullfs mount of any source passes
    when its target is in no registered jail. *)
Theorem uid_above_int32_unconfined (w : World) (cfg : Config) (u : Z) (d : Daemon) (m : FieldMap) :
  RuntimePaths.int32_max < u ->
  snd (PerUserEnv.composeForUid (perUserAuthzCfg cfg) u) <> []
  /\ fst (gate w cfg CreateJail m true u d) = Authz.Allow
  /\ (forall v, v = AttachZfs \/ v = DetachZfs ->
        fst (gate w cfg v m true u d)
        = Authz.checkOwnedJid (Authz.jid (gateRequest v m (requestRuleset v m))) (PerUserEnv.emptyEnv u) (lookupOf w d))
  /\ (pathOwner d (field m (str "target")) = None -> fst (gate w cfg MountNullfs m true u d) = Authz.Allow).
Proof.
  intros Hu. assert (0 < u) by (unfold RuntimePaths.int32_max in *; lia).
  assert (E : tenantEnv cfg u = PerUserEnv.emptyEnv u) by (apply PerUserEnv.composeForUid_big; done).
  split; [|split; [|split]].
  - unfold PerUserEnv.composeForUid, RuntimePaths.validateUid. destruct (Z.ltb_spec u 0); [lia|].
    destruct (Z.ltb_spec RuntimePaths.int32_max u); [done|lia].
  - by rewrite gate_decides, E.
  - intros v [->| ->]; by rewrite gate_decides, E.
  - intros Hp. rewrite gate_decides, E by done. cbn [Authz.authorize Authz.path Authz.source gateRequest gatePath].
    unfold Authz.checkOwnedPath, lookupOf, pathOwner in *. cbn [Authz.byPath] in *. unfold JidOwner.lookupPath.
    destruct (jidReg d) as [s|]; [|done]. by destruct (JidOwner.findOwnerByPath _ _).
Qed.

Lemma uid_above_int32_unconfined_witness :
  let m := fieldsOf [("verb", "create_jail"); ("name", "x"); ("path", "/jails/1001/web")]%string in
  makes demoDaemon (dispatchPrivOpFromMap demoWorld demoCfg m true 4000000000 None)
    (Exec (createJailArgv {| cj_name := str "x"; cj_path := str "/jails/1001/web"; cj_hostname := [];
                             cj_vnet := false; cj_parameters := [] |}))
  /\ fst (gate demoWorld demoCfg CreateJail m true 4000000000 demoDaemon) = Authz.Allow
  /\ fst (gate demoWorld demoCfg CreateJail m true 1002 demoDaemon) = Authz.DenyForeignCreatePath.
Proof.
  intros m. split; [eexists [_; _; _], [_]; vm_compute; reflexivity|]. split; [|vm_compute; reflexivity].
  exact (proj1 (proj2 (uid_above_int32_unconfined demoWorld demoCfg 4000000000 demoDaemon m ltac:(vm_compute; reflexivity)))).
Defined.

(** ** The HTTP entry point *)

(** A JSON request that does not parse or does not validate has no effect:
    the daemon answers exactly what the pure parse-and-validate pipeline
    answers, and the only thing it does is append to the caller's audit log. *)
Theorem bad_body_refused (w : World) (v : Verb) (b : bytes) (rpu : bool) (u : Z) (d : Daemon) :
  v <> ExecInJail ->
  status (parseValidateAndDispatch v b) = 400 ->
  fst (dispatchPrivOp w v b rpu u d) = parseValidateAndDispatch v b
  /\ forall c, makes d (dispatchPrivOp w v b rpu u) c -> rpu = true /\ exists line, c = AuditLine u line.
Proof.
  intros Hv Hs. pose proof (runVerbFromBody_refused w v b u d Hv Hs) as E. split.
  - unfold dispatchPrivOp. rewrite bind_run, E. rewrite bind_run. by destruct (maybeWritePerUserAudit _ _ _ _ _ d).
  - intros c Hc. refine (emits_makes d _ (fun c => rpu = true /\ exists line, c = AuditLine u line) c _ Hc).
    unfold dispatchPrivOp. apply emitsAt_bind; [apply emitsAt_same; by rewrite E|].
    rewrite E. cbn [fst snd]. apply emits_bind; [|intros; apply emits_ret]. unfold maybeWritePerUserAudit.
    destruct rpu; [|apply emits_ret]. cbn [negb orb]. emit. eauto.
Qed.

Definition demoBadBody : bytes :=
  obj [("name", JStr (str "web")); ("path", JStr (str "/jails/../etc"))]%string.

Lemma bad_body_refused_witness :
  fst (dispatchPrivOp demoWorld CreateJail demoBadBody true 1001 demoDaemon)
  = parseValidateAndDispatch CreateJail demoBadBody.
Proof.
  apply (bad_body_refused demoWorld CreateJail demoBadBody true 1001 demoDaemon).
  - discriminate.
  - vm_compute. reflexivity.
Defined.

End Tenant.
