(* ===== verification/Ownership.v ===== *)
(** * Who owns what after a request

    What a successful create_epair or create_jail leaves in the ownership
    registries, so that the next request is judged against it. *)

From S2P Require Import Prelude PerUser PrivOps PrivOpsFacts Authz OMap JidOwner IfaceOwner FwLease PrivOpsNv.
From S2P Require Import Wire Sys Handlers Dispatch DispatchFacts Tenant.

Module Ownership.
Import PrivOps Wire PrivOpsNv Sys Handlers Dispatch DispatchFacts Tenant.

(** ** Reading a field back out of a reply *)

Lemma find_sub_skip sub c s : head sub <> Some c -> sub <> [] -> find_sub sub (c :: s) = S <$> find_sub sub s.
Proof.
  intros Hh Hne. destruct sub as [|x sub]; [done|]. cbn [find_sub starts_with].
  destruct (Ascii.eqb_spec x c) as [->|]; [done|]. done.
Qed.

Lemma find_sub_step sub c s : starts_with sub (c :: s) = false -> find_sub sub (c :: s) = S <$> find_sub sub s.
Proof. intros H. cbn [find_sub]. by rewrite H. Qed.

Lemma find_sub_skip_app sub a s : sub <> [] -> (forall c, In c a -> head sub <> Some c) ->
  find_sub sub (a ++ s) = (fun k => (length a + k)%nat) <$> find_sub sub s.
Proof.
  intros Hne. induction a as [|c a IH]; intros H; cbn [app].
  { by destruct (find_sub sub s). }
  rewrite find_sub_skip by (auto; apply H; by left). rewrite IH by (intros; apply H; by right).
  by destruct (find_sub sub s).
Qed.

Lemma epair_escape a : IfaceOwner.epairHalf a -> Json.escape a = a.
Proof.
  intros Ha. apply Json.escape_plain, Forall_forall. intros c Hc. apply list_elem_of_In in Hc.
  pose proof (IfaceOwner.epairHalf_bytes a c Ha Hc) as Hal. clear Hc.
  revert c Hal. intros [[] [] [] [] [] [] [] []]; vm_compute; intros; try discriminate; repeat split; discriminate.
Qed.

Lemma extract_string_at pre name v tail (body := pre ++ needle name ++ ":"%char :: Json.quote v ++ tail) :
  find_sub (needle name) body = Some (length pre) ->
  extractStringField body name [] = (Present, v).
Proof.
  intros Hf. unfold extractStringField, locateField. rewrite Hf. unfold body.
  rewrite app_assoc, <- length_app, drop_app_length. unfold Json.quote.
  replace ((dquote :: Json.escape v ++ [dquote]) ++ tail)
    with (dquote :: Json.escape v ++ dquote :: tail) by (cbn; by rewrite <- app_assoc).
  change (skipWs (":"%char :: ?x)) with (":"%char :: x). cbn match.
  change (Ascii.eqb ":" ":") with true. cbn match.
  change (skipWs (dquote :: ?x)) with (dquote :: x). cbn match.
  change (negb (Ascii.eqb dquote dquote)) with false. cbn match. by rewrite Json.decode_escape.
Qed.

Lemma epair_no_quote a c : IfaceOwner.epairHalf a -> In c a -> Some dquote <> Some c.
Proof. intros Ha Hc [= <-]. by apply (IfaceOwner.epairHalf_no a dquote Ha) in Hc. Qed.

(** The reply of create_epair, read back as the dispatcher does. *)
Lemma create_epair_reply a b : IfaceOwner.epairHalf a ->
  extractStringField (formatCreateEpairSuccess a b) (str "a") [] = (Present, a)
  /\ extractStringField (formatCreateEpairSuccess a b) (str "b") [] = (Present, b).
Proof.
  intros Ha. pose (pre := "{"%char :: needle (str "created") ++ str ":true,").
  pose (mid := needle (str "a") ++ ":"%char :: Json.quote a).
  assert (E : formatCreateEpairSuccess a b
    = pre ++ needle (str "a") ++ ":"%char :: Json.quote a ++ ","%char :: needle (str "b") ++ ":"%char
        :: Json.quote b ++ ["}"%char]).
  { unfold formatCreateEpairSuccess, obj. cbn [map joinComma jfield jval fst snd]. unfold pre. cbn.
    rewrite <- !app_assoc. cbn. by rewrite <- ?app_assoc. }
  rewrite E. split; [by apply extract_string_at|].
  replace (pre ++ _) with ((pre ++ mid ++ [","%char]) ++ needle (str "b") ++ ":"%char :: Json.quote b ++ ["}"%char])
    by (unfold mid; rewrite <- !app_assoc; cbn; by rewrite <- !app_assoc).
  apply extract_string_at. unfold mid, Json.quote. rewrite (epair_escape a Ha).
  assert (Hr : exists r, a = str "epair" ++ r /\ forall c, In c r -> Some dquote <> Some c).
  { pose proof (fun c => epair_no_quote a c Ha) as Hq. destruct Ha as (ds & c & -> & _).
    exists (ds ++ [c]). split; [done|]. intros x Hx. apply Hq, in_or_app. by right. }
  destruct Hr as (r & -> & Hr). unfold pre, needle at 2 3. cbn [str list_ascii_of_string app].
  rewrite <- !app_assoc. cbn [str list_ascii_of_string app]. rewrite !find_sub_step by reflexivity.
  rewrite find_sub_skip_app by done. rewrite !find_sub_step by reflexivity.
  replace (find_sub _ _) with (Some O) by reflexivity. cbn. rewrite !length_app. cbn. f_equal. lia.
Qed.

(** ** Computations that leave the registries alone *)

Record quietly (d d' : Daemon) : Prop := {
  q_log : exists new, log d' = new ++ log d;
  q_jid : jidReg d' = jidReg d;
  q_if : ifReg d' = ifReg d }.

Definition quiet {A} (m : M A) : Prop := forall d, quietly d (snd (m d)).

Lemma quietly_refl d : quietly d d.
Proof. split; [by exists []|done|done]. Qed.

Lemma quietly_trans d1 d2 d3 : quietly d1 d2 -> quietly d2 d3 -> quietly d1 d3.
Proof.
  intros [(n1 & E1) J1 I1] [(n2 & E2) J2 I2]. split; [|congruence|congruence].
  exists (n2 ++ n1). by rewrite E2, E1, app_assoc.
Qed.

Lemma quietly_In d d' e : quietly d d' -> In e (log d) -> In e (log d').
Proof. intros [(n & ->) _ _] H. apply in_or_app. by right. Qed.

Lemma quiet_ret {A} (a : A) : quiet (mret a).
Proof. intros d. apply quietly_refl. Qed.

Lemma quiet_bind {A B} (m : M A) (f : A -> M B) : quiet m -> (forall a, quiet (f a)) -> quiet (m ≫= f).
Proof.
  intros Hm Hf d. rewrite bind_run. specialize (Hm d). destruct (m d) as [a d1].
  exact (quietly_trans _ _ _ Hm (Hf a d1)).
Qed.

Lemma quiet_event e : quiet (event e).
Proof. intros d. split; [by exists [e]|done|done]. Qed.

Lemma quiet_get : quiet get.
Proof. intros d. apply quietly_refl. Qed.

Lemma quiet_ask {A} q (f : Log -> A) : quiet (ask q f).
Proof. repeat (apply quiet_bind; [auto using quiet_get, quiet_event|intros]). apply quiet_ret. Qed.

Lemma quiet_call w c : quiet (call w c).
Proof. repeat (apply quiet_bind; [auto using quiet_get, quiet_event|intros]). apply quiet_ret. Qed.

Lemma quiet_callEach w cs : quiet (callEach w cs).
Proof.
  induction cs as [|c cs IH]; cbn [callEach]; [apply quiet_ret|]. by apply quiet_bind; [apply quiet_call|].
Qed.

Lemma quiet_audit w rpu u v s : quiet (maybeWritePerUserAudit w rpu u v s).
Proof.
  unfold maybeWritePerUserAudit. destruct (_ || _); [apply quiet_ret|].
  repeat (apply quiet_bind; [auto using quiet_get, quiet_call|intros]). apply quiet_ret.
Qed.

Lemma quiet_umbrella w cfg v u s : quiet (maybeApplyUmbrella w cfg v u s).
Proof.
  unfold maybeApplyUmbrella. destruct v; try apply quiet_ret.
  destruct (_ || _); [apply quiet_ret|apply quiet_callEach].
Qed.

Lemma quiet_fwLease w v s j : quiet (maybeReleaseFwLease w v s j).
Proof.
  unfold maybeReleaseFwLease. destruct v; try apply quiet_ret. apply quiet_bind; [apply quiet_get|].
  intros d. destruct (fwReg d); [|apply quiet_ret]. destruct (_ || _); [apply quiet_ret|].
  intros d'. split; [by exists []|done|done].
Qed.

(** A verb that makes no lookup passes the gate without a trace. *)
Lemma gate_quiet w cfg v m u d : v = CreateEpair \/ v = CreateJail ->
  snd (gate w cfg v m true u d) = d.
Proof.
  intros Hv. unfold gate. destruct (0 <? u); [|by destruct Hv as [->| ->]]. cbn [andb].
  rewrite bind_run. destruct (authorizeNow w v _ _ d) as [dec d1] eqn:E.
  assert (d1 = d) as -> by (destruct Hv as [-> | ->]; by injection E as _ ->).
  destruct Hv as [->| ->], dec; done.
Qed.

(** A create that succeeded: what the handler returned, the audit line and the
    umbrella rules, then the two registries' updates. *)
Lemma create_success w cfg m u io d (v := extractVerb m) (out := dispatchPrivOpFromMap w cfg m true u io d) :
  v = CreateEpair \/ v = CreateJail -> status (fst (fst out)) = 200 ->
  exists res pd d1 d2, runVerbFromMap w v m u io d = ((res, pd), d1) /\ status res = 200 /\ quietly d1 d2
    /\ fst out = (res, pd)
    /\ quietly (snd (maybeUpdateIfaceOwnerRegistry w v u m res (snd (maybeUpdateJidOwnerRegistry w v u m 200 0 d2))))
         (snd out).
Proof.
  intros Hv. unfold out, dispatchPrivOpFromMap. fold v. rewrite bind_run.
  pose proof (gate_quiet w cfg v m u d Hv) as Hg. destruct (gate w cfg v m true u d) as [dec d0].
  cbn [snd] in Hg. subst d0. destruct dec; try (intros H; discriminate H).
  rewrite bind_run. replace (resolvePreDestroy w v m d) with (0, d) by (by destruct Hv as [-> | ->]).
  cbn match. rewrite bind_run. destruct (runVerbFromMap w v m u io d) as [[res pd] d1].
  rewrite bind_run. pose proof (quiet_audit w true u v (status res) d1) as Q1.
  destruct (maybeWritePerUserAudit w true u v (status res) d1) as [[] d1'].
  rewrite bind_run. pose proof (quiet_umbrella w cfg v u (status res) d1') as Q2.
  destruct (maybeApplyUmbrella w cfg v u (status res) d1') as [[] d2]. cbn [snd] in Q1, Q2.
  rewrite bind_run. destruct (maybeUpdateJidOwnerRegistry w v u m (status res) 0 d2) as [[] d3] eqn:E3.
  rewrite bind_run. destruct (maybeUpdateIfaceOwnerRegistry w v u m res d3) as [[] d4] eqn:E4.
  rewrite bind_run. pose proof (quiet_fwLease w v (status res) 0 d4) as Q3.
  destruct (maybeReleaseFwLease w v (status res) 0 d4) as [[] d5]. cbn [fst snd mret M_ret] in *.
  intros Hs. exists res, pd, d1, d2. split; [done|]. split; [done|].
  split; [by apply (quietly_trans _ d1')|]. split; [done|]. rewrite <- Hs, E3. cbn [snd]. by rewrite E4.
Qed.

(** ** create_epair *)

Lemma createEpair_names ds : ds <> [] -> all_digits ds = true ->
  let n := str "epair" ++ ds ++ ["a"%char] in
  createEpair (n ++ [newline]) = (n, IfaceOwner.peerHalf n) /\ IfaceOwner.epairHalf n.
Proof.
  intros Hne Hd n. assert (Hn : IfaceOwner.epairHalf n) by (exists ds, "a"%char; tauto).
  split; [|done]. unfold createEpair. rewrite rev_app_distr. cbn [rev app dropNewlines].
  change (Ascii.eqb newline newline || _) with true. cbn match.
  assert (E : rev (dropNewlines (rev n)) = n).
  { unfold n. rewrite app_assoc. generalize (str "epair" ++ ds). intros x. rewrite rev_app_distr.
    change (rev ["a"%char] ++ rev x) with ("a"%char :: rev x). cbn [dropNewlines].
    change (Ascii.eqb "a" newline || Ascii.eqb "a" cr) with false. cbn [rev]. by rewrite rev_involutive. }
  rewrite E. assert (Hb : backIs "a" n = true).
  { apply backIs_spec. exists (str "epair" ++ ds). unfold n. by rewrite app_assoc. }
  rewrite Hb. f_equal. unfold IfaceOwner.peerHalf.
  by rewrite (proj2 (IfaceOwner.isEpairName_spec n) Hn), Hb.
Qed.

Lemma create_epair_handled w m u io d res pd d1 :
  runVerbFromMap w CreateEpair m u io d = ((res, pd), d1) -> status res = 200 ->
  quietly d d1 /\ exists out, run w (log d) IfCreateEpair = inr out
    /\ body res = formatCreateEpairSuccess (fst (createEpair out)) (snd (createEpair out)).
Proof.
  cbn [runVerbFromMap]. rewrite bind_run. unfold handleCreateEpair. rewrite bind_run.
  assert (Q := quiet_call w IfCreateEpair d).
  replace (call w IfCreateEpair d) with (run w (log d) IfCreateEpair, snd (call w IfCreateEpair d)) by done.
  destruct (run w (log d) IfCreateEpair) as [e|out].
  - intros E Hs. by injection E as <- <- <-.
  - destruct (createEpair out) as [a b] eqn:Ec. intros E _. injection E as <- <- <-.
    split; [exact Q|]. exists out. by rewrite Ec.
Qed.

(** ** create_jail *)

Lemma create_jail_handled w m u io d res pd d1 :
  runVerbFromMap w CreateJail m u io d = ((res, pd), d1) -> status res = 200 ->
  quietly d d1 /\ exists r, parseCreateJail m = inr r /\ validateCreateJail r = []
    /\ In (Did (Exec (createJailArgv r))) (log d1).
Proof.
  cbn [runVerbFromMap]. unfold runHandler, parseThenValidate.
  destruct (parseCreateJail m) as [e|r]; [intros E Hs; by injection E as <- <- <-|].
  destruct (validateCreateJail r) eqn:Hv; [|intros E Hs; by injection E as <- <- <-].
  rewrite bind_run. unfold handleCreateJail, canonical, nonCanonicalReason, resolve. rewrite !bind_run, ask_run.
  match goal with |- context [mret ?x _] => destruct x end;
    [|intros E Hs; by injection E as <- <- <-].
  cbn [mret M_ret]. set (d0 := snd (event _ d)). assert (Q0 : quietly d d0) by apply quiet_event.
  unfold tryAll. cbn [callAll]. rewrite !bind_run. cbn [call].
  assert (Q1 := quiet_call w (Exec (createJailArgv r)) d0).
  replace (call w (Exec (createJailArgv r)) d0)
    with (run w (log d0) (Exec (createJailArgv r)), snd (call w (Exec (createJailArgv r)) d0)) by done.
  destruct (run w (log d0) _); intros E Hs; injection E as <- <- <-; [done|].
  split; [exact (quietly_trans _ _ _ Q0 Q1)|]. exists r. split; [done|]. split; [done|]. by left.
Qed.

(** The record left by a create_jail that succeeded. *)
Lemma create_jail_record w cfg m u io d s r ji (out := dispatchPrivOpFromMap w cfg m true u io d) :
  0 < u -> extractVerb m = CreateJail -> jidReg d = Some s -> parseCreateJail m = inr r ->
  (forall l, In (Did (Exec (createJailArgv r))) l -> jailByName w l (cj_name r) = Some ji) ->
  status (fst (fst out)) = 200 ->
  exists s', jidReg (snd out) = Some s' /\ JidOwner.entries s' = OMap.insert (u32 (ji_jid ji))
    {| JidOwner.e_uid := u; JidOwner.e_name := cj_name r; JidOwner.e_path := cj_path r |} (JidOwner.entries s).
Proof.
  intros Hu Hv Hs Hp Hji Hst. unfold out in *.
  destruct (create_success w cfg m u io d ltac:(auto) Hst) as (res & pd & d1 & d2 & Hrun & Hres & Q2 & _ & Q3).
  rewrite Hv in Hrun, Q3. destruct (create_jail_handled w m u io d res pd d1 Hrun Hres) as (Q1 & r' & Hp' & Hval & Hin).
  rewrite Hp in Hp'. injection Hp' as <-. apply (quietly_In _ _ _ Q2) in Hin.
  assert (Hj2 : jidReg d2 = Some s) by (by rewrite (q_jid _ _ Q2), (q_jid _ _ Q1)).
  assert (Hname : field m (str "name") = cj_name r /\ field m (str "path") = cj_path r).
  { unfold parseCreateJail in Hp. unparse Hp. fields. done. }
  destruct Hname as [Hname Hpath].
  assert (Hne : is_empty (cj_name r) = false).
  { unfold validateCreateJail in Hval. destruct (cj_name r); [discriminate Hval|done]. }
  rewrite (q_jid _ _ Q3). unfold maybeUpdateJidOwnerRegistry. rewrite bind_run. cbn [get]. cbn match.
  rewrite Hj2. destruct (Z.eqb_spec u 0); [lia|]. cbn [orb negb]. change (negb (is2xx 200)) with false. cbn match zeta.
  rewrite Hname, Hne. cbn match. unfold getJailByName. rewrite bind_run, ask_run, (Hji _ Hin), bind_run. cbn [get]. cbn match.
  cbn [event snd jidReg]. rewrite Hj2. eexists. unfold maybeUpdateIfaceOwnerRegistry. rewrite bind_run. cbn [get].
  cbn match. rewrite Hpath. destruct (ifReg _); [|done]. by destruct (_ || _).
Qed.

(** After a create_jail that succeeded, the registry names the caller as
    the owner of the new jail's jid, as long as its liveness probe sees the
    jail, and no other jail's entry has changed. *)
Theorem create_jail_owned (w : World) (cfg : Config) (m : FieldMap) (u : Z) (io : option ExecIo) (d : Daemon)
  (s : JidOwner.State) (r : CreateJailReq) (ji : JailInfo)
  (out := dispatchPrivOpFromMap w cfg m true u io d) :
  0 < u -> extractVerb m = CreateJail ->
  jidReg d = Some s -> OMap.wf (JidOwner.entries s) ->
  parseCreateJail m = inr r ->
  (forall l, In (Did (Exec (createJailArgv r))) l -> jailByName w l (cj_name r) = Some ji) ->
  (forall l live e, jidProbe w l = Some live -> live (u32 (ji_jid ji)) e = true) ->
  status (fst (fst out)) = 200 ->
  owner w (snd out) (LJid (u32 (ji_jid ji))) = Some u
  /\ forall j, j <> u32 (ji_jid ji) -> forall s', jidReg (snd out) = Some s' ->
       OMap.find j (JidOwner.entries s') = OMap.find j (JidOwner.entries s).
Proof.
  intros Hu Hv Hs Hwf Hp Hji Hlive Hst.
  destruct (create_jail_record w cfg m u io d s r ji Hu Hv Hs Hp Hji Hst) as (s' & Hs' & He). fold out in Hs'.
  split.
  - unfold owner, doLookup. rewrite bind_run. cbn [get]. cbn match. rewrite Hs'. unfold JidOwner.lookupJid.
    rewrite He, OMap.find_insert, decide_True by done. unfold JidOwner.dropIfStale.
    destruct (jidProbe w _) as [live|] eqn:El; [|done]. by rewrite (Hlive _ _ _ El).
  - intros j Hj s'' Hs''. rewrite Hs' in Hs''. injection Hs'' as <-.
    by rewrite He, OMap.find_insert, decide_False.
Qed.

Definition demoCreate : FieldMap :=
  fieldsOf [("verb", "create_jail"); ("name", "web"); ("path", "/jails/1001/web")]%string.

Definition demoEmpty : Daemon :=
  {| log := []; jidReg := Some {| JidOwner.entries := []; JidOwner.disk := None |};
     ifReg := Some {| IfaceOwner.entries := []; IfaceOwner.disk := None |}; devfsClaims := ∅; fwReg := None |}.

Lemma create_jail_owned_witness :
  owner demoWorld (snd (dispatchPrivOpFromMap demoWorld demoCfg demoCreate true 1001 None demoEmpty)) (LJid 5)
  = Some 1001.
Proof.
  refine (proj1 (create_jail_owned demoWorld demoCfg demoCreate 1001 None demoEmpty _ _ demoJail ltac:(lia)
    _ eq_refl _ _ _ _ _)).
  - vm_compute. reflexivity.
  - apply OMap.wf_nil.
  - vm_compute. reflexivity.
  - reflexivity.
  - discriminate.
  - vm_compute. reflexivity.
Defined.

(** What ifconfig(8) prints for [ifconfig epair create]. *)
Definition epairLine (out : bytes) : Prop :=
  exists ds, out = (str "epair" ++ ds ++ ["a"%char]) ++ [newline] /\ ds <> [] /\ all_digits ds = true.

(** The record left by a create_epair that succeeded. *)
Lemma create_epair_record w cfg m u io d s (out := dispatchPrivOpFromMap w cfg m true u io d) :
  0 < u -> extractVerb m = CreateEpair -> ifReg d = Some s ->
  (forall o, run w (log d) IfCreateEpair = inr o -> epairLine o) ->
  status (fst (fst out)) = 200 ->
  exists a s', IfaceOwner.isEpairName a = true
    /\ body (fst (fst out)) = formatCreateEpairSuccess a (IfaceOwner.peerHalf a)
    /\ ifReg (snd out) = Some s'
    /\ IfaceOwner.entries s' = IfaceOwner.putHalf (IfaceOwner.peerHalf a) u
                                 (IfaceOwner.putHalf a u (IfaceOwner.entries s)).
Proof.
  intros Hu Hv Hs Hout Hst. unfold out in *.
  destruct (create_success w cfg m u io d ltac:(auto) Hst) as (res & pd & d1 & d2 & Hrun & Hres & Q2 & Hfst & Q3).
  rewrite Hv in Hrun, Q3. destruct (create_epair_handled w m u io d res pd d1 Hrun Hres) as (Q1 & o & Ho & Hb).
  destruct (Hout o Ho) as (ds & -> & Hne & Hd). destruct (createEpair_names ds Hne Hd) as [Ec Hn].
  set (a := str "epair" ++ ds ++ ["a"%char]) in *. rewrite Ec in Hb. cbn [fst snd] in Hb.
  rewrite Hfst. exists a. rewrite (q_if _ _ Q3).
  replace (snd (maybeUpdateJidOwnerRegistry w CreateEpair u m 200 0 d2)) with d2.
  2:{ unfold maybeUpdateJidOwnerRegistry. rewrite bind_run. cbn [get]. cbn match.
      destruct (jidReg d2); [|done]. by destruct (_ || _). }
  unfold maybeUpdateIfaceOwnerRegistry. rewrite bind_run. cbn [get]. cbn match.
  rewrite (q_if _ _ Q2), (q_if _ _ Q1), Hs, Hres. destruct (Z.eqb_spec u 0); [lia|]. cbn [orb].
  change (negb (is2xx 200)) with false. cbn match. rewrite Hb.
  destruct (create_epair_reply a (IfaceOwner.peerHalf a) Hn) as [-> ->]. eexists.
  split; [by apply IfaceOwner.isEpairName_spec|]. split; [done|]. by split.
Qed.

(** After a create_epair that succeeded, both halves the reply names belong
    to the caller, and every pair in the registry still has one owner for its
    two halves. *)
Theorem create_epair_owned (w : World) (cfg : Config) (m : FieldMap) (u : Z) (io : option ExecIo) (d : Daemon)
  (s : IfaceOwner.State) (out := dispatchPrivOpFromMap w cfg m true u io d) :
  0 < u -> extractVerb m = CreateEpair ->
  ifReg d = Some s -> OMap.wf (IfaceOwner.entries s) -> IfaceOwner.paired (IfaceOwner.entries s) ->
  (forall o, run w (log d) IfCreateEpair = inr o -> epairLine o) ->
  status (fst (fst out)) = 200 ->
  exists a b s', body (fst (fst out)) = formatCreateEpairSuccess a b
    /\ ifReg (snd out) = Some s' /\ IfaceOwner.paired (IfaceOwner.entries s')
    /\ OMap.find a (IfaceOwner.entries s') = Some u /\ OMap.find b (IfaceOwner.entries s') = Some u.
Proof.
  intros Hu Hv Hs Hwf Hp Hout Hst.
  destruct (create_epair_record w cfg m u io d s Hu Hv Hs Hout Hst) as (a & s' & Ha & Hb & Hs' & He).
  exists a, (IfaceOwner.peerHalf a), s'. split; [done|]. split; [done|].
  assert (Hp' : IfaceOwner.paired (IfaceOwner.entries s')).
  { rewrite He. by apply IfaceOwner.paired_record. }
  split; [done|]. destruct (IfaceOwner.peerHalf_involutive a Ha) as (Hpp & Hpe & _).
  assert (Hf : OMap.find (IfaceOwner.peerHalf a) (IfaceOwner.entries s') = Some u).
  { rewrite He. unfold IfaceOwner.putHalf. rewrite Hpe, Ha.
    by rewrite OMap.find_insert, decide_True by (auto using OMap.wf_insert). }
  destruct (Hp' _ _ Hf) as [_ Hf']. rewrite Hpp in Hf'. done.
Qed.

Lemma create_epair_owned_witness :
  exists a b s', body (fst (fst (dispatchPrivOpFromMap demoWorld demoCfg (fieldsOf [("verb", "create_epair")]%string)
                                  true 1001 None demoEmpty))) = formatCreateEpairSuccess a b
    /\ ifReg (snd (dispatchPrivOpFromMap demoWorld demoCfg (fieldsOf [("verb", "create_epair")]%string)
                     true 1001 None demoEmpty)) = Some s'
    /\ IfaceOwner.paired (IfaceOwner.entries s')
    /\ OMap.find a (IfaceOwner.entries s') = Some 1001 /\ OMap.find b (IfaceOwner.entries s') = Some 1001.
Proof.
  refine (create_epair_owned demoWorld demoCfg (fieldsOf [("verb", "create_epair")]%string) 1001 None demoEmpty _
    ltac:(lia) _ eq_refl _ _ _ _).
  - vm_compute. reflexivity.
  - apply OMap.wf_nil.
  - intros n v. discriminate.
  - intros o E. injection E as <-. exists ["7"%char]. split; [reflexivity|]. split; [discriminate|reflexivity].
  - vm_compute. reflexivity.
Defined.

(** ** The peer of an epair half *)

Lemma back_snoc (s : bytes) c : back (s ++ [c]) = Some c.
Proof. unfold back. induction s as [|x [|y s] IH]; done. Qed.

Lemma computeEpairPair_half n : IfaceOwner.epairHalf n -> computeEpairPair n = IfaceOwner.peerHalf n.
Proof.
  intros Hn. pose proof (proj2 (IfaceOwner.isEpairName_spec n) Hn) as E. unfold IfaceOwner.peerHalf. rewrite E. cbn [negb].
  destruct Hn as (ds & c & -> & Hne & Hd & Hc). unfold computeEpairPair, IfaceOwner.withBack.
  destruct (Z.ltb_spec (size_z (str "epair" ++ ds ++ [c])) 7) as [Hl|_].
  { rewrite !size_z_app in Hl. change (size_z (str "epair")) with 5 in Hl. change (size_z [c]) with 1 in Hl.
    destruct ds; [done|]. unfold size_z in Hl. cbn [length] in Hl. lia. }
  rewrite (proj2 (starts_with_spec _ _)) by eauto. cbn [negb]. rewrite app_assoc, back_snoc, removelast_last.
  change (drop 5 (str "epair" ++ ds)) with ds. rewrite Hd. cbn [negb]. unfold backIs. rewrite back_snoc. by destruct Hc as [-> | ->].
Qed.

Lemma computeEpairPair_only n : computeEpairPair n <> [] -> IfaceOwner.epairHalf n.
Proof.
  unfold computeEpairPair. destruct (Z.ltb_spec (size_z n) 7) as [|Hl]; [done|].
  destruct (starts_with (str "epair") n) eqn:S; [|done]. cbn [negb]. apply starts_with_spec in S as [t ->].
  destruct t as [|c ds _] using rev_ind; [by rewrite app_nil_r in Hl|].
  rewrite app_assoc, back_snoc, removelast_last. change (drop 5 (str "epair" ++ ds)) with ds.
  destruct (all_digits ds) eqn:D; [|by destruct (_ && _)]. intros H.
  exists ds, c. split; [by rewrite app_assoc|]. split.
  { intros ->. by rewrite app_nil_l, size_z_app in Hl. }
  split; [done|]. destruct (Ascii.eqb_spec c "a"); [by left|]. destruct (Ascii.eqb_spec c "b"); [by right|done].
Qed.

(** The host half configure_iface puts on the bridge is the other half of
    the interface the authorizer judged: the handler's [computeEpairPair] and
    the ownership registry's [peerHalf], written apart, agree on every name. *)
Theorem computeEpairPair_is_peerHalf (n : bytes) : computeEpairPair n = IfaceOwner.peerHalf n.
Proof.
  destruct (IfaceOwner.isEpairName n) eqn:E.
  - by apply computeEpairPair_half, IfaceOwner.isEpairName_spec.
  - unfold IfaceOwner.peerHalf. rewrite E. cbn [negb]. destruct (computeEpairPair n) eqn:C; [done|].
    assert (H : IfaceOwner.epairHalf n) by (apply computeEpairPair_only; by rewrite C).
    apply IfaceOwner.isEpairName_spec in H. by rewrite H in E.
Qed.

(** ** A registry that does not load *)

Definition demoTab : FieldMap :=
  <[str "path" := str "/jails/1001/a" ++ [tab]]> (fieldsOf [("verb", "create_jail"); ("name", "web")]%string).

(** A tenant's create_jail whose path contains a tab is accepted (the path
    validator refuses only shell metacharacters, which a tab is not), and the
    line then written to the jid registry does not load: the registry's
    constructor throws at the next start of the daemon. *)
Theorem tab_in_path_breaks_registry :
  exists s', status (fst (fst (dispatchPrivOpFromMap demoWorld demoCfg demoTab true 1001 None demoEmpty))) = 200
    /\ jidReg (snd (dispatchPrivOpFromMap demoWorld demoCfg demoTab true 1001 None demoEmpty)) = Some s'
    /\ exists e, JidOwner.boot (JidOwner.disk s') = inl e.
Proof.
  eexists. split; [vm_compute; reflexivity|]. split; [vm_compute; reflexivity|].
  eexists. vm_compute. reflexivity.
Qed.

End Ownership.
