(* ===== verification/Auth.v ===== *)
(** * HTTP authorization: lib/auth_pure.cpp, lib/pool_pure.cpp, daemon/auth.cpp

    Bearer tokens with a role, an expiry time, a path scope and a pool list.
    SHA-256 belongs to OpenSSL: it is the parameter [sha256]; the request is
    what httplib gives: its path and a header lookup. *)

From S2P Require Import Prelude CStd.

Module Auth.

Record AuthToken := {
  t_name : bytes; tokenHash : bytes; role : bytes; expiresAt : Z;
  scope : list bytes; pools : list bytes }.

Definition bearerPrefix : bytes := str "Bearer ".

Definition parseBearerToken (authHeader : bytes) : bytes :=
  if size_z authHeader <=? size_z bearerPrefix then []
  else if negb (starts_with bearerPrefix authHeader) then []
  else drop (length bearerPrefix) authHeader.

(** [requiredRole == "viewer"] lets any role pass. *)
Definition roleAllows (t : AuthToken) (requiredRole : bytes) : bool :=
  if beq requiredRole (str "viewer") then true
  else beq (role t) requiredRole || beq (role t) (str "admin").

Definition checkTokenRole (hash : bytes) (tokens : list AuthToken) (requiredRole : bytes) : bool :=
  match List.find (fun t => beq (tokenHash t) hash) tokens with
  | Some t => roleAllows t requiredRole
  | None => false
  end.

(** ** Expiry *)

Definition digitAt (s : bytes) (i : nat) : bool :=
  match s !! i with Some c => is_digit c | None => false end.
Definition byteAt (s : bytes) (i : nat) (c : ascii) : bool :=
  match s !! i with Some x => Ascii.eqb x c | None => false end.

(** [std::atoi(s.substr(pos, n).c_str())] on digits. *)
Definition field (s : bytes) (pos n : nat) : Z := dec_value (take n (drop pos s)).

Definition parseIso8601Utc (s : bytes) : Z :=
  if size_z s <? 20 then -1
  else if negb (byteAt s 4 "-" && byteAt s 7 "-" && byteAt s 10 "T" && byteAt s 13 ":" && byteAt s 16 ":")
  then -1
  else if negb (forallb (digitAt s) [0; 1; 2; 3; 5; 6; 8; 9; 11; 12; 14; 15; 17; 18]%nat) then -1
  else
    let mon := field s 5 2 - 1 in
    let mday := field s 8 2 in
    let hour := field s 11 2 in
    let min := field s 14 2 in
    let sec := field s 17 2 in
    if (mon <? 0) || (11 <? mon) then -1
    else if (mday <? 1) || (31 <? mday) then -1
    else if (hour <? 0) || (23 <? hour) then -1
    else if (min <? 0) || (59 <? min) then -1
    else if (sec <? 0) || (60 <? sec) then -1
    else
      let tz := drop 19 s in
      if negb (beq tz (str "Z")) && negb (beq tz (str "+00:00")) && negb (beq tz (str "-00:00")) then -1
      else Calendar.timegm (field s 0 4) mon mday hour min sec.

Definition isExpired (t : AuthToken) (now : Z) : bool :=
  if expiresAt t =? 0 then false else expiresAt t <? now.

(** Config::load on a token's [expires_at]: absent, a timestamp, or the
    exception for one that does not parse. *)
Definition loadExpiry (raw : option bytes) : option Z :=
  match raw with
  | None => Some 0
  | Some s => let parsed := parseIso8601Utc s in if parsed <? 0 then None else Some parsed
  end.

(** ** Scope *)

(** One pattern of the scope against a path. *)
Definition scopeMatch (path p : bytes) : bool :=
  if is_empty p then false
  else if CStd.ends_with (str "/*") p then
    let prefix := take (length p - 1) p in
    (size_z prefix <? size_z path) && starts_with prefix path
  else beq path p.

Definition pathInScope (sc : list bytes) (path : bytes) : bool :=
  if is_empty sc then true else existsb (scopeMatch path) sc.

(** ** Pools: lib/pool_pure.cpp *)

Definition inferPool (jailName : bytes) (separator : ascii) : bytes :=
  match find_char separator jailName with
  | None => []
  | Some O => []
  | Some pos => take pos jailName
  end.

Definition validatePoolName (name : bytes) : bytes :=
  reject (is_empty name) with str "pool name is empty";
  reject (32 <? size_z name) with str "pool name longer than 32 chars";
  if beq name (str "*") then []
  else
    reject (negb (match name with c :: _ => is_alnum c | [] => false end)) with
      str "pool name must start with a letter or digit";
    check_chars (fun c => is_alnum c || Ascii.eqb c "_" || Ascii.eqb c "-") (str "pool name") name.

Definition tokenAllowsContainer (tokenPools : list bytes) (containerPool : bytes) : bool :=
  if is_empty tokenPools then true
  else if existsb (fun p => beq p (str "*")) tokenPools then true
  else if is_empty containerPool then false
  else existsb (fun p => beq p containerPool) tokenPools.

(** ** Requests *)

Record Request := { r_path : bytes; r_header : bytes -> bytes }.
Record Config := { tokens : list AuthToken; poolSeparator : ascii }.

Section auth.
Context (sha256 : bytes -> bytes).

Definition checkBearerAuth (authHeader : bytes) (toks : list AuthToken) (requiredRole : bytes) : bool :=
  let token := parseBearerToken authHeader in
  if is_empty token then false else checkTokenRole (sha256 token) toks requiredRole.

Definition checkBearerAuthFull (authHeader : bytes) (toks : list AuthToken)
    (requiredRole path : bytes) (now : Z) : bool :=
  let token := parseBearerToken authHeader in
  if is_empty token then false
  else match List.find (fun t => beq (tokenHash t) (sha256 token)) toks with
       | None => false
       | Some t =>
           if isExpired t now then false
           else if negb (pathInScope (scope t) path) then false
           else roleAllows t requiredRole
       end.

(** The marker the pre-routing handler stamps after erasing any copy the
    client sent. *)
Definition isUnixSocketPeer (req : Request) : bool :=
  beq (r_header req (str "X-Crated-Listener")) (str "unix").

Definition isAuthorized (req : Request) (config : Config) (requiredRole : bytes) (now : Z) : bool :=
  if isUnixSocketPeer req then true
  else checkBearerAuthFull (r_header req (str "Authorization")) (tokens config) requiredRole (r_path req) now.

Definition isAuthorizedForContainer (req : Request) (config : Config) (requiredRole containerName : bytes)
    (now : Z) : bool :=
  if negb (isAuthorized req config requiredRole now) then false
  else if isUnixSocketPeer req then true
  else
    let rawToken := parseBearerToken (r_header req (str "Authorization")) in
    if is_empty rawToken then false
    else match List.find (fun t => beq (tokenHash t) (sha256 rawToken)) (tokens config) with
         | None => false
         | Some t => tokenAllowsContainer (pools t) (inferPool containerName (poolSeparator config))
         end.

End auth.

(** * Theorems *)

(** What a scope pattern covers: itself, or with a final [/*] everything
    strictly below. *)
Inductive covers : bytes -> bytes -> Prop :=
  | covers_exact p : p <> [] -> (forall q, p <> q ++ str "/*") -> covers p p
  | covers_below q rest : rest <> [] -> covers (q ++ str "/*") (q ++ str "/" ++ rest).

Lemma take_glob (q : bytes) : take (length (q ++ str "/*") - 1) (q ++ str "/*") = q ++ str "/".
Proof.
  rewrite length_app. cbn [length str list_ascii_of_string].
  replace (length q + 2 - 1)%nat with (length q + 1)%nat by lia.
  by rewrite take_app_add.
Qed.

Lemma scopeMatch_iff path p : scopeMatch path p = true <-> covers p path.
Proof.
  unfold scopeMatch. destruct (is_empty p) eqn:He.
  { destruct p; [|done]. split; [done|]. inversion 1 as [|q]; [done|]. by destruct q. }
  assert (Hne : p <> []) by (by intros ->). clear He.
  destruct (CStd.ends_with (str "/*") p) eqn:E.
  - apply CStd.ends_with_spec in E as [q Hq]. rewrite Hq, take_glob, andb_true_iff, Z.ltb_lt.
    rewrite starts_with_spec. split.
    + intros [Hl [t ->]]. rewrite <- app_assoc. apply covers_below.
      intros ->. rewrite app_nil_r in Hl. lia.
    + inversion 1 as [? ? H0|q' rest Hr Hq' Hp]; subst.
      * by specialize (H0 q).
      * apply app_inj_2 in Hq' as [-> _]; [|done]. rewrite (app_assoc q). split; [|eauto].
        rewrite (size_z_app (q ++ str "/")). destruct rest; [done|]. rewrite size_z_cons. pose proof (size_z_nonneg rest). lia.
  - rewrite beq_eq. split.
    + intros ->. apply covers_exact; [done|]. intros q Hq.
      assert (CStd.ends_with (str "/*") p = true) by (apply CStd.ends_with_spec; eauto). congruence.
    + inversion 1 as [|q rest Hr Hq]; subst; [done|].
      assert (CStd.ends_with (str "/*") (q ++ str "/*") = true) by (apply CStd.ends_with_spec; eauto). congruence.
Qed.

Lemma pathInScope_iff sc path :
  pathInScope sc path = true <-> sc = [] \/ exists p, In p sc /\ covers p path.
Proof.
  unfold pathInScope. destruct sc as [|p sc]; [cbn; tauto|]. cbn [is_empty].
  rewrite existsb_exists. split.
  - intros (q & Hq & H%scopeMatch_iff). eauto.
  - intros [|(q & Hq & H%scopeMatch_iff)]; [done|eauto].
Qed.

Lemma parseBearerToken_iff h tok :
  tok <> [] -> parseBearerToken h = tok <-> h = bearerPrefix ++ tok.
Proof.
  intros Hne. unfold parseBearerToken. split.
  - destruct (size_z h <=? _); [congruence|]. destruct (starts_with bearerPrefix h) eqn:E; [|cbn; congruence].
    apply starts_with_spec in E as [t ->]. cbn [negb]. rewrite drop_app_length. by intros ->.
  - intros ->. rewrite size_z_app. destruct tok as [|x tok]; [done|]. rewrite size_z_cons.
    pose proof (size_z_nonneg tok). destruct (Z.leb_spec (size_z bearerPrefix + (1 + size_z tok)) (size_z bearerPrefix)); [lia|].
    by rewrite starts_with_app.
Qed.

(** The token a request presents: the first of the configuration whose hash
    is that of its bearer token. *)
Definition presents (sha256 : bytes -> bytes) (config : Config) (req : Request) (t : AuthToken) : Prop :=
  exists tok a b, r_header req (str "Authorization") = bearerPrefix ++ tok /\ tok <> [] /\
    tokens config = a ++ t :: b /\ tokenHash t = sha256 tok /\ Forall (fun u => tokenHash u <> sha256 tok) a.

Section facts.
Context (sha256 : bytes -> bytes) (config : Config) (req : Request).

Lemma presents_iff t :
  presents sha256 config req t <->
  parseBearerToken (r_header req (str "Authorization")) <> [] /\
  List.find (fun u => beq (tokenHash u) (sha256 (parseBearerToken (r_header req (str "Authorization")))))
    (tokens config) = Some t.
Proof.
  rewrite CStd.find_first. split.
  - intros (tok & a & b & Hh & Hne & Ht & Hhash & Ha). apply (parseBearerToken_iff _ tok Hne) in Hh as ->.
    split; [done|]. exists a, b. split; [done|]. split; [by apply beq_eq|].
    eapply Forall_impl; [done|]. intros u Hu. by apply beq_neq.
  - intros (Hne & a & b & Ht & Hx & Ha). exists (parseBearerToken (r_header req (str "Authorization"))), a, b.
    split; [by apply parseBearerToken_iff|]. split; [done|]. split; [done|]. split; [by apply beq_eq|].
    eapply Forall_impl; [done|]. intros u Hu. by apply beq_neq.
Qed.

Lemma isAuthorized_token requiredRole now :
  isUnixSocketPeer req = false ->
  isAuthorized sha256 req config requiredRole now = true <->
  exists t, presents sha256 config req t /\ (expiresAt t = 0 \/ now <= expiresAt t) /\
    (scope t = [] \/ exists p, In p (scope t) /\ covers p (r_path req)) /\
    (requiredRole = str "viewer" \/ role t = requiredRole \/ role t = str "admin").
Proof.
  intros Hu. unfold isAuthorized. rewrite Hu. unfold checkBearerAuthFull.
  assert (Hrole : forall t, roleAllows t requiredRole = true <->
    requiredRole = str "viewer" \/ role t = requiredRole \/ role t = str "admin").
  { intros t. unfold roleAllows. destruct (beq requiredRole (str "viewer")) eqn:E.
    - apply beq_eq in E. tauto.
    - rewrite orb_true_iff, !beq_eq. apply beq_neq in E. tauto. }
  assert (Hexp : forall t, isExpired t now = false <-> expiresAt t = 0 \/ now <= expiresAt t).
  { intros t. unfold isExpired. destruct (Z.eqb_spec (expiresAt t) 0); [tauto|]. rewrite Z.ltb_ge. tauto. }
  split.
  - destruct (is_empty _) eqn:He; [done|]. destruct (List.find _ _) as [t|] eqn:Ef; [|done].
    destruct (isExpired t now) eqn:Hx; [done|]. destruct (pathInScope _ _) eqn:Hp; [|done]. cbn [negb].
    intros Hr. exists t. rewrite presents_iff. split; [|by rewrite <- Hexp, <- pathInScope_iff, <- Hrole].
    split; [|done]. intros E. by rewrite E in He.
  - intros (t & [Hne Hf]%presents_iff & Hx%Hexp & Hp%pathInScope_iff & Hr%Hrole).
    destruct (parseBearerToken _) eqn:E; [done|]. cbn [is_empty]. by rewrite Hf, Hx, Hp.
Qed.

(** Over TCP, a request on a container is let through exactly when it presents
    a configured token that has not expired, whose scope covers the path,
    whose role suffices, and whose pools include the container's: the first
    entry with the token's hash decides all four. *)
Theorem container_access_iff requiredRole container now :
  isUnixSocketPeer req = false ->
  isAuthorizedForContainer sha256 req config requiredRole container now = true <->
  exists t, presents sha256 config req t /\ (expiresAt t = 0 \/ now <= expiresAt t) /\
    (scope t = [] \/ exists p, In p (scope t) /\ covers p (r_path req)) /\
    (requiredRole = str "viewer" \/ role t = requiredRole \/ role t = str "admin") /\
    (pools t = [] \/ In (str "*") (pools t) \/
     (inferPool container (poolSeparator config) <> [] /\ In (inferPool container (poolSeparator config)) (pools t))).
Proof.
  intros Hu. unfold isAuthorizedForContainer. rewrite Hu.
  assert (Hpool : forall l c, tokenAllowsContainer l c = true <-> l = [] \/ In (str "*") l \/ (c <> [] /\ In c l)).
  { assert (He : forall x l, existsb (fun p => beq p x) l = true <-> In x l).
    { intros x l. rewrite existsb_exists. split; [intros (y & ? & ->%beq_eq); done|]. eauto using beq_refl. }
    intros l c. unfold tokenAllowsContainer. destruct l as [|q l]; [cbn; tauto|]. cbn [is_empty].
    destruct (existsb _ (q :: l)) eqn:Hs; [apply He in Hs; tauto|].
    assert (~ In (str "*") (q :: l)) by (rewrite <- He, Hs; done).
    destruct c as [|x c]; [cbn [is_empty]; split; [done|]; by intros [?|[?|[? _]]]|]. cbn [is_empty]. rewrite He.
    split; [intros; right; right; done|]. intros [|[|[_ ?]]]; done. }
  destruct (isAuthorized sha256 req config requiredRole now) eqn:Ha; cbn [negb].
  - apply isAuthorized_token in Ha as (t & Hp & H1 & H2 & H3); [|done].
    pose proof Hp as [Hne Hf]%presents_iff. destruct (parseBearerToken _) eqn:E; [done|]. cbn [is_empty].
    rewrite Hf, Hpool. split; [eauto 10|]. intros (t' & Hp' & _ & _ & _ & H).
    apply presents_iff in Hp' as [_ Hf']. rewrite E, Hf in Hf'. by injection Hf' as ->.
  - split; [done|]. intros (t & H1 & H2 & H3 & H4 & _).
    enough (isAuthorized sha256 req config requiredRole now = true) by congruence.
    apply isAuthorized_token; [done|]. eauto 10.
Qed.

End facts.

(** A token given the expiry time of the epoch never expires: the timestamp
    parses to 0, which stands for no expiry. *)
Theorem epoch_expiry_never_expires t now :
  loadExpiry (Some (str "1970-01-01T00:00:00Z")) = Some (expiresAt t) -> isExpired t now = false.
Proof.
  intros H. unfold isExpired. replace (expiresAt t) with 0; [done|].
  vm_compute in H. by injection H.
Qed.

Definition deployToken : AuthToken :=
  {| t_name := str "ci"; tokenHash := str "sha256:secret"; role := str "admin"; expiresAt := 0;
     scope := [str "/api/v1/containers/*"]; pools := [str "dev"] |}.
Definition deployConfig : Config := {| tokens := [deployToken]; poolSeparator := "-"%char |}.
Definition deployReq : Request :=
  {| r_path := str "/api/v1/containers/dev-web/start";
     r_header := fun h => if beq h (str "Authorization") then str "Bearer secret" else [] |}.

Lemma container_access_iff_witness :
  (exists t, presents (app (str "sha256:")) deployConfig deployReq t) /\
  isAuthorizedForContainer (app (str "sha256:")) deployReq deployConfig (str "admin") (str "prod-web") 5 = false.
Proof.
  split; [|vm_compute; reflexivity].
  destruct (proj1 (container_access_iff (app (str "sha256:")) deployConfig deployReq (str "admin") (str "dev-web") 5 eq_refl))
    as (t & H & _); [vm_compute; reflexivity|]. exists t. exact H.
Defined.

Lemma epoch_expiry_never_expires_witness : isExpired deployToken 99 = false.
Proof. apply (epoch_expiry_never_expires deployToken 99). vm_compute. reflexivity. Defined.

Example iso8601_leap : parseIso8601Utc (str "2024-02-29T12:00:00Z") = 1709208000.
Proof. vm_compute. reflexivity. Qed.

Example iso8601_century : parseIso8601Utc (str "2100-03-01T00:00:00+00:00") = 4107542400.
Proof. vm_compute. reflexivity. Qed.

End Auth.
