(* ===== verification/RateLimit.v ===== *)
(** * The request rate limiter: daemon/rate_limit_pure.cpp, rate_limit.cpp

    Per-second counters keyed by client and endpoint.  The state is the
    process-global table [g_buckets]; the wall second is an argument. *)

From Stdlib Require Import Sorted.
From S2P Require Import Prelude.

Module RateLimit.

(** Fresh keys start at [{0, 0}]. *)
Record Bucket := { counter : Z; second : Z }.
Definition freshBucket : Bucket := {| counter := 0; second := 0 |}.

Record Decision := { newState : Bucket; allowed : bool }.

(** [RateLimitPure::check]; [counter] is an [int] that never passes
    [maxPerSecond], so its increment does not overflow. *)
Definition checkBucket (bucket : Bucket) (now maxPerSecond : Z) : Decision :=
  if maxPerSecond <=? 0 then
    {| newState := {| counter := 0; second := now |}; allowed := true |}
  else if negb (second bucket =? now) then
    {| newState := {| counter := 1; second := now |}; allowed := true |}
  else if counter bucket <? maxPerSecond then
    {| newState := {| counter := counter bucket + 1; second := now |}; allowed := true |}
  else {| newState := bucket; allowed := false |}.

Definition retryAfterSeconds : Z := 1.

Abbreviation Table := (gmap bytes Bucket).

(** [g_buckets[key]] creates a fresh bucket for a new key. *)
Definition bucketOf (g : Table) (key : bytes) : Bucket := default freshBucket (g !! key).

(** [RateLimit::check]: the answer and the table after it. *)
Definition check (g : Table) (key : bytes) (now maxPerSecond : Z) : bool * Table :=
  let d := checkBucket (bucketOf g key) now maxPerSecond in
  (allowed d, <[key := newState d]> g).

Definition reset (g : Table) : Table := ∅.

(** ** Histories *)

(** A request: its key and the wall second it came in. *)
Abbreviation Req := (bytes * Z)%type.

Section history.
(** The cap each key is checked with. *)
Context (cap : bytes -> Z).

(** The answers to a sequence of requests. *)
Fixpoint run (g : Table) (reqs : list Req) : list bool :=
  match reqs with
  | [] => []
  | (key, now) :: t => let '(b, g') := check g key now (cap key) in b :: run g' t
  end.

(** The abstract limiter keeps every request it allowed, and allows one when
    fewer than the cap were allowed for its key in its second. *)
Definition inSecond (served : list Req) (r : Req) : Z :=
  Z.of_nat (length (List.filter (fun s => bool_decide (s = r)) served)).

Definition specAllow (served : list Req) (r : Req) : bool :=
  (cap (fst r) <=? 0) || (inSecond served r <? cap (fst r)).

Fixpoint specRun (served : list Req) (reqs : list Req) : list bool :=
  match reqs with
  | [] => []
  | r :: t => specAllow served r :: specRun (if specAllow served r then r :: served else served) t
  end.

(** The requests that were allowed, in order. *)
Definition servedOf (reqs : list Req) (answers : list bool) : list Req :=
  map fst (List.filter snd (combine reqs answers)).

(** ** Refinement *)

Lemma inSecond_cons served r s :
  inSecond (r :: served) s = inSecond served s + if bool_decide (r = s) then 1 else 0.
Proof.
  unfold inSecond. cbn [List.filter]. case_bool_decide; cbn [length]; lia.
Qed.

Lemma inSecond_none served r : (forall s, In s served -> s <> r) -> inSecond served r = 0.
Proof.
  intros H. unfold inSecond. induction served as [|x l IH]; [done|]. cbn [List.filter].
  rewrite bool_decide_eq_false_2 by (apply H; by left). apply IH. intros s Hs. apply H. by right.
Qed.

(** How a bucket stands for the past of its key, at clock [clock]. *)
Definition bucketInv (served : list Req) (clock : Z) (key : bytes) (b : Bucket) : Prop :=
  cap key <= 0 \/
  (b = freshBucket /\ forall t, ~ In (key, t) served) \/
  (second b <= clock /\ counter b = inSecond served (key, second b) /\
   forall t, In (key, t) served -> t <= second b).

Definition tableInv (served : list Req) (clock : Z) (g : Table) : Prop :=
  forall key, bucketInv served clock key (bucketOf g key).

Lemma bucketOf_insert g key b k : bucketOf (<[key := b]> g) k = if decide (k = key) then b else bucketOf g k.
Proof.
  unfold bucketOf. destruct (decide (k = key)) as [-> |].
  - by rewrite lookup_insert_eq.
  - by rewrite lookup_insert_ne.
Qed.

Lemma bucketInv_other served clock now key k t b :
  k <> key -> clock <= now -> bucketInv served clock k b ->
  bucketInv ((key, t) :: served) now k b.
Proof.
  intros Hne Hle [H|[[-> H]|(H1 & H2 & H3)]]; [by left|right; left|right; right].
  - split; [done|]. intros u [[=]|Hu]; [congruence|]. by eapply H.
  - split; [lia|]. rewrite inSecond_cons, bool_decide_eq_false_2 by congruence. split; [lia|].
    intros u [[=]|Hu]; [congruence|auto].
Qed.

Lemma bucketInv_later served clock now k b :
  clock <= now -> bucketInv served clock k b -> bucketInv served now k b.
Proof. intros Hle [H|[H|(H1 & H2 & H3)]]; [by left|by right; left|]. right; right. split; [lia|done]. Qed.

(** The count of this second, read off the bucket. *)
Lemma bucketInv_count served clock now key b :
  0 < cap key -> clock <= now -> bucketInv served clock key b ->
  inSecond served (key, now) = if second b =? now then counter b else 0.
Proof.
  intros Hc Hle [H|[[-> H]|(H1 & H2 & H3)]]; [lia|..].
  - rewrite inSecond_none by (intros s Hs ->; by eapply H). by destruct (_ =? _).
  - destruct (Z.eqb_spec (second b) now) as [E|Hne]; [by rewrite H2, E|].
    apply inSecond_none. intros s Hs ->. specialize (H3 _ Hs). lia.
Qed.

Lemma check_refines served clock g key now :
  tableInv served clock g -> clock <= now ->
  fst (check g key now (cap key)) = specAllow served (key, now) /\
  tableInv (if specAllow served (key, now) then (key, now) :: served else served) now
    (snd (check g key now (cap key))).
Proof.
  intros Hinv Hle. unfold check, specAllow, checkBucket. cbn [fst snd].
  destruct (Z.leb_spec (cap key) 0) as [Hc|Hc]; cbn [orb allowed newState].
  { split; [done|]. intros k. rewrite bucketOf_insert. destruct (decide (k = key)) as [-> |]; [by left|].
    by eapply bucketInv_other. }
  rewrite (bucketInv_count served clock now key (bucketOf g key)) by (try done; apply Hinv).
  pose proof (bucketInv_count served clock now key _ Hc Hle (Hinv key)) as Hcount.
  set (b := bucketOf g key) in *.
  assert (Hother : forall b' s', (s' = served \/ s' = (key, now) :: served) ->
    bucketInv s' now key b' -> tableInv s' now (<[key := b']> g)).
  { intros b' s' Hs' Hb' k. rewrite bucketOf_insert. destruct (decide (k = key)) as [-> |]; [done|].
    destruct Hs' as [-> | ->]; [by eapply bucketInv_later|by eapply bucketInv_other]. }
  assert (Hnew : forall n, n = inSecond served (key, now) + 1 ->
    bucketInv ((key, now) :: served) now key {| counter := n; second := now |}).
  { intros n ->. right; right. cbn [second counter]. split; [lia|].
    rewrite inSecond_cons, bool_decide_eq_true_2 by done. split; [done|].
    intros t [[= <-]|Ht]; [lia|]. destruct (Hinv key) as [?|[[_ H]|(H1 & _ & H3)]]; [lia|by apply H in Ht|].
    specialize (H3 _ Ht). lia. }
  destruct (Z.eqb_spec (second b) now) as [E|Hne]; cbn [negb].
  - destruct (Z.ltb_spec (counter b) (cap key)); cbn [allowed newState]; (split; [done|]).
    + apply Hother; [by right|]. apply Hnew. lia.
    + apply Hother; [by left|]. by eapply bucketInv_later.
  - cbn [allowed newState]. destruct (Z.ltb_spec 0 (cap key)); [|lia]. split; [done|].
    apply Hother; [by right|]. apply Hnew. lia.
Qed.

Lemma run_refines reqs served clock g :
  tableInv served clock g -> StronglySorted Z.le (clock :: map snd reqs) ->
  run g reqs = specRun served reqs.
Proof.
  revert served clock g. induction reqs as [|[key now] reqs IH]; intros served clock g Hinv Hs; [done|].
  cbn [run specRun]. inversion Hs as [|? ? Hs' Hf]; subst. cbn [map snd] in *.
  apply Forall_cons in Hf as [Hle _]. destruct (check_refines served clock g key now Hinv Hle) as [Ha Hi].
  destruct (check g key now (cap key)) as [b g']. cbn [fst snd] in *. subst b. f_equal. by eapply IH.
Qed.

Lemma tableInv_empty clock : tableInv [] clock ∅.
Proof. intros key. right. left. unfold bucketOf. rewrite lookup_empty. by split; [|intros ? []]. Qed.

(** C38: As long as the wall clock does not step back, the limiter answers every
    sequence of requests as the abstract one: a request is allowed exactly
    when fewer than the cap of its key were allowed in the same second. *)
Theorem rate_limit_refines_spec reqs t0 :
  StronglySorted Z.le (t0 :: map snd reqs) -> run ∅ reqs = specRun [] reqs.
Proof. intros H. eapply run_refines; [apply tableInv_empty|done]. Qed.

(** ** Consequences *)

Lemma specRun_cap reqs served key now :
  0 < cap key -> inSecond served (key, now) <= cap key ->
  inSecond served (key, now) + inSecond (servedOf reqs (specRun served reqs)) (key, now) <= cap key.
Proof.
  intros Hc. revert served. induction reqs as [|r reqs IH]; intros served Hs.
  { change (servedOf [] (specRun served [])) with (@nil Req). unfold inSecond at 2. cbn. lia. }
  unfold servedOf in *. cbn [specRun combine List.filter snd].
  destruct (specAllow served r) eqn:Ha.
  - cbn [map fst]. rewrite inSecond_cons. specialize (IH (r :: served)). rewrite inSecond_cons in IH.
    case_bool_decide as E; [|lia]. subst r. unfold specAllow in Ha. cbn [fst] in Ha.
    destruct (Z.leb_spec (cap key) 0); [lia|]. cbn in Ha. lia.
  - by apply IH.
Qed.

(** In no second are more than the cap of a key's requests allowed, whatever
    other requests come in between. *)
Theorem rate_limit_cap reqs t0 key now :
  StronglySorted Z.le (t0 :: map snd reqs) -> 0 < cap key ->
  inSecond (servedOf reqs (run ∅ reqs)) (key, now) <= cap key.
Proof.
  intros Hs Hc. rewrite (run_refines reqs [] t0) by (done || apply tableInv_empty).
  pose proof (specRun_cap reqs [] key now Hc) as H. unfold inSecond in H at 1 2. cbn in H. lia.
Qed.

(** The table after a sequence of requests. *)
Fixpoint after (g : Table) (reqs : list Req) : Table :=
  match reqs with
  | [] => g
  | (key, now) :: t => after (snd (check g key now (cap key))) t
  end.

Lemma after_other g reqs key : Forall (fun r => fst r <> key) reqs -> bucketOf (after g reqs) key = bucketOf g key.
Proof.
  intros H. revert g. induction H as [|[k now] reqs Hk _ IH]; intros g; [done|]. cbn [after].
  rewrite IH. unfold check. cbn [snd]. rewrite bucketOf_insert. by destruct (decide (key = k)); [subst|].
Qed.

(** A refused client that comes back when [Retry-After] told it to is served,
    whatever the other clients asked meanwhile. *)
Theorem retry_after_is_served g key now others :
  fst (check g key now (cap key)) = false -> Forall (fun r => fst r <> key) others ->
  fst (check (after (snd (check g key now (cap key))) others) key (now + retryAfterSeconds) (cap key)) = true.
Proof.
  unfold check at 1 2 3. cbn [fst snd]. intros Hd Ho. unfold checkBucket at 1.
  destruct (cap key <=? 0); [done|]. rewrite after_other by done.
  rewrite bucketOf_insert. destruct (decide (key = key)); [|done].
  unfold checkBucket in *. destruct (cap key <=? 0); [done|].
  destruct (Z.eqb_spec (second (bucketOf g key)) now) as [E|]; [|done]. cbn [negb] in *.
  destruct (_ <? _); [done|]. cbn [newState]. rewrite E. unfold retryAfterSeconds.
  by destruct (Z.eqb_spec now (now + 1)); [lia|].
Qed.

End history.

Definition twoPerSecond (key : bytes) : Z := 2.
Definition burst : list (bytes * Z) := [(str "a", 7); (str "a", 7); (str "b", 7); (str "a", 7); (str "a", 8)].

Lemma burst_sorted : StronglySorted Z.le (0 :: map snd burst).
Proof. unfold burst. cbn [map snd]. repeat apply SSorted_cons; repeat constructor; cbn; lia. Qed.

Lemma rate_limit_refines_spec_witness :
  run twoPerSecond ∅ burst = specRun twoPerSecond [] burst /\
  specRun twoPerSecond [] burst = [true; true; true; false; true].
Proof. split; [exact (rate_limit_refines_spec twoPerSecond burst 0 burst_sorted)|vm_compute; reflexivity]. Defined.

Lemma rate_limit_cap_witness :
  inSecond (servedOf burst (run twoPerSecond ∅ burst)) (str "a", 7) <= 2.
Proof. exact (rate_limit_cap twoPerSecond burst 0 (str "a") 7 burst_sorted eq_refl). Defined.

Definition full : gmap bytes Bucket := {[ str "a" := {| counter := 2; second := 7 |} ]}.

Lemma retry_after_is_served_witness :
  fst (check (after twoPerSecond (snd (check full (str "a") 7 2)) [(str "b", 8)]) (str "a") 8 2) = true.
Proof.
  refine (retry_after_is_served twoPerSecond full (str "a") 7 [(str "b", 8)] _ _);
    [vm_compute; reflexivity|repeat constructor; discriminate].
Defined.

End RateLimit.
