(* ===== verification/Ws.v ===== *)
(** * WebSocket frames: daemon/ws_pure.cpp, and the console pump of
    daemon/ws_console.cpp

    [parseFrame] decodes one frame from the front of a buffer; the pump
    appends what it receives to [wsBuf] and handles the complete frames.  The
    handshake is in WsHandshake.v. *)

From S2P Require Import Prelude CStd PrivOpsNv.

Module Ws.

Inductive Opcode := Continuation | Text | Binary | Close | Ping | Pong.

#[global] Instance Opcode_eq_dec : EqDecision Opcode.
Proof. solve_decision. Defined.

Definition opcodeVal (o : Opcode) : Z :=
  match o with Continuation => 0 | Text => 1 | Binary => 2 | Close => 8 | Ping => 9 | Pong => 10 end.

(** [static_cast<Opcode>(op)] after the switch that refuses reserved values. *)
Definition opcodeOf (op : Z) : option Opcode :=
  if op =? 0 then Some Continuation else if op =? 1 then Some Text else if op =? 2 then Some Binary
  else if op =? 8 then Some Close else if op =? 9 then Some Ping else if op =? 10 then Some Pong
  else None.

Record Frame := { opcode : Opcode; fin : bool; masked : bool; payload : bytes }.

Definition kMaxFramePayload : Z := 1024 * 1024.

(** What [parseFrame] returns: 0, -1, or the bytes consumed and the frame. *)
Inductive FrameResult := NeedMore | BadFrame | Got (consumed : nat) (f : Frame).

(** [v ^ maskKey[k % 4]] *)
Definition xorAt (key : list Z) (k : nat) (b : ascii) : ascii :=
  chr (Z.lxor (code b) (default 0 (key !! (k mod 4)%nat))).

(** The payload length and the position after it; [inl] is the early return. *)
Definition frameLen (len : Z) (buf : bytes) : FrameResult + (Z * nat) :=
  if len =? 126 then
    if size_z buf <? 2 + 2 then inl NeedMore
    else match drop 2 buf with
         | b2 :: b3 :: _ => inr (Z.lor (Z.shiftl (code b2) 8) (code b3), 4%nat)
         | _ => inl NeedMore
         end
  else if len =? 127 then
    if size_z buf <? 2 + 8 then inl NeedMore
    else
      let l := fold_left (fun v c => u64 (Z.lor (Z.shiftl v 8) (code c))) (take 8 (drop 2 buf)) 0 in
      if Z.testbit l 63 then inl BadFrame else inr (l, 10%nat)
  else inr (len, 2%nat).

(** The two fixed bytes: opcode, FIN, MASK and the 7-bit length; [None] for a
    reserved opcode and for a control frame that is fragmented or long. *)
Definition frameHead (b0 b1 : Z) : option (Opcode * bool * bool * Z) :=
  let fin := negb (Z.land b0 0x80 =? 0) in
  let op := Z.land b0 0x0f in
  let masked := negb (Z.land b1 0x80 =? 0) in
  let len := Z.land b1 0x7f in
  match opcodeOf op with
  | None => None
  | Some opc =>
      let isControl := negb (Z.land op 0x8 =? 0) in
      if isControl && (negb fin || (125 <? len)) then None else Some (opc, fin, masked, len)
  end.

(** The rest, once the length is known: the mask key and the payload. *)
Definition frameBody (opc : Opcode) (fin masked : bool) (len : Z) (pos : nat) (buf : bytes) : FrameResult :=
  if kMaxFramePayload <? len then BadFrame
  else if masked && (size_z buf <? Z.of_nat pos + 4) then NeedMore
  else
    let maskKey := if masked then map code (take 4 (drop pos buf)) else [0; 0; 0; 0] in
    let pos := if masked then (pos + 4)%nat else pos in
    if size_z buf <? Z.of_nat pos + len then NeedMore
    else
      let raw := take (Z.to_nat len) (drop pos buf) in
      Got (pos + Z.to_nat len)
        {| opcode := opc; fin := fin; masked := masked;
           payload := if masked then imap (xorAt maskKey) raw else raw |}.

Definition parseFrame (buf : bytes) : FrameResult :=
  match buf with
  | b0 :: b1 :: _ =>
      match frameHead (code b0) (code b1) with
      | None => BadFrame
      | Some (opc, fin, masked, len0) =>
          match frameLen len0 buf with
          | inl r => r
          | inr (len, pos) => frameBody opc fin masked len pos buf
          end
      end
  | _ => NeedMore
  end.

(** The length field of [encodeFrame]. *)
Definition encodeLen (maskBit len : Z) : bytes :=
  if len <=? 125 then [chr (Z.lor maskBit len)]
  else if len <=? 0xffff then
    [chr (Z.lor maskBit 126); chr (Z.land (Z.shiftr len 8) 0xff); chr (Z.land len 0xff)]
  else
    chr (Z.lor maskBit 127)
    :: map (fun k => chr (Z.land (Z.shiftr len (k * 8)) 0xff)) [7; 6; 5; 4; 3; 2; 1; 0].

(** [key[k] = k < maskKey.size() ? maskKey[k] : 0] *)
Definition maskBytes (maskKey : bytes) : bytes := map (fun k => default nul (maskKey !! k)) [0; 1; 2; 3]%nat.

Definition encodeFrame (op : Opcode) (pl : bytes) (mask : bool) (maskKey : bytes) : bytes :=
  let maskBit := if mask then 0x80 else 0x00 in
  let key := maskBytes maskKey in
  [chr (Z.lor 0x80 (opcodeVal op))] ++ encodeLen maskBit (size_z pl)
  ++ (if mask then key ++ imap (xorAt (map code key)) pl else pl).

Definition encodeCloseFrame (cod : Z) (reason : bytes) : bytes :=
  encodeFrame Close
    ([chr (Z.land (Z.shiftr cod 8) 0xff); chr (Z.land cod 0xff)] ++ reason) false [].

(** ** The console pump *)

(** What the pump keeps and what it wrote to the shell and to the peer. *)
Record Pump := { wsBuf : bytes; closed : bool; toShell : list bytes; toPeer : list bytes }.

Definition startPump : Pump := {| wsBuf := []; closed := false; toShell := []; toPeer := [] |}.

(** The switch on the opcode; its [break] leaves the switch only. *)
Definition onFrame (p : Pump) (f : Frame) : Pump :=
  match opcode f with
  | Close => {| wsBuf := wsBuf p; closed := true; toShell := toShell p; toPeer := toPeer p |}
  | Ping => {| wsBuf := wsBuf p; closed := closed p; toShell := toShell p;
               toPeer := toPeer p ++ [encodeFrame Pong (payload f) false []] |}
  | Pong => p
  | Text | Binary | Continuation =>
      {| wsBuf := wsBuf p; closed := closed p; toShell := toShell p ++ [payload f]; toPeer := toPeer p |}
  end.

Definition setBuf (p : Pump) (b : bytes) : Pump :=
  {| wsBuf := b; closed := closed p; toShell := toShell p; toPeer := toPeer p |}.
Definition setClosed (p : Pump) : Pump :=
  {| wsBuf := wsBuf p; closed := true; toShell := toShell p; toPeer := toPeer p |}.

(** [while (!wsBuf.empty())]; every frame takes at least two bytes off. *)
Fixpoint frames (fuel : nat) (p : Pump) : Pump :=
  match fuel with
  | O => p
  | S k =>
      if is_empty (wsBuf p) then p
      else match parseFrame (wsBuf p) with
           | NeedMore => p
           | BadFrame => setClosed p
           | Got consumed f => frames k (onFrame (setBuf p (drop consumed (wsBuf p))) f)
           end
  end.

(** The wsFd side of one turn: [recv] gave [chunk]; empty is end of file. *)
Definition onRecv (p : Pump) (chunk : bytes) : Pump :=
  if is_empty chunk then setClosed p
  else let p' := setBuf p (wsBuf p ++ chunk) in frames (length (wsBuf p')) p'.

(** The shell's side: its output goes out as one binary frame. *)
Definition onShell (p : Pump) (out : bytes) : Pump :=
  if is_empty out then setClosed p
  else {| wsBuf := wsBuf p; closed := closed p; toShell := toShell p;
          toPeer := toPeer p ++ [encodeFrame Binary out false []] |}.

(** [while (!closed)] over the chunks received. *)
Fixpoint pump (p : Pump) (chunks : list bytes) : Pump :=
  match chunks with
  | [] => p
  | c :: t => if closed p then p else pump (onRecv p c) t
  end.

(** * Lemmas *)

(** ** Masking *)

Lemma chr_xor_xor b k : 0 <= k < 256 -> chr (Z.lxor (code (chr (Z.lxor (code b) k))) k) = b.
Proof.
  intros Hk. pose proof (code_bound b).
  assert (0 <= Z.lxor (code b) k < 256).
  { split; [apply Z.lxor_nonneg; lia|]. destruct (Z.eq_dec (Z.lxor (code b) k) 0) as [->|]; [lia|].
    apply Z.log2_lt_cancel. change (Z.log2 256) with 8.
    eapply Z.le_lt_trans; [apply Z.log2_lxor; lia|]. apply Z.max_lub_lt.
    - destruct (Z.eq_dec (code b) 0) as [->|]; [done|]. apply Z.log2_lt_pow2; lia.
    - destruct (Z.eq_dec k 0) as [->|]; [done|]. apply Z.log2_lt_pow2; lia. }
  rewrite code_chr by done. rewrite Z.lxor_assoc, Z.lxor_nilpotent, Z.lxor_0_r. apply chr_code.
Qed.

Lemma imap_xor_xor key l :
  Forall (fun k => 0 <= k < 256) key -> imap (xorAt key) (imap (xorAt key) l) = l.
Proof.
  intros Hk. apply list_eq. intros i. rewrite !list_lookup_imap. destruct (l !! i) as [b|]; [|done].
  cbn. f_equal. unfold xorAt. apply chr_xor_xor.
  destruct (key !! (i mod 4)%nat) as [k|] eqn:E; cbn; [|lia].
  rewrite Forall_forall in Hk. eapply Hk, list_elem_of_lookup_2. exact E.
Qed.

(** ** A frame is decided by its own bytes *)

Lemma size_take (m : nat) (b : bytes) : (m <= length b)%nat -> size_z (take m b) = Z.of_nat m.
Proof. intros H. unfold size_z. rewrite length_take. lia. Qed.

Lemma take_drop_inner (k pos m : nat) (b : bytes) :
  (pos + k <= m)%nat -> take k (drop pos (take m b)) = take k (drop pos b).
Proof. intros H. rewrite !take_drop_commute. by rewrite take_take, Nat.min_l by lia. Qed.

(** [r] depends on the first [pos] bytes only, and asks for more below that. *)
Lemma frameLen_prefix len0 b l pos m :
  frameLen len0 b = inr (l, pos) -> (2 <= m <= length b)%nat ->
  (2 <= pos <= length b)%nat /\
  frameLen len0 (take m b) = if decide (m < pos)%nat then inl NeedMore else inr (l, pos).
Proof.
  intros H Hm. unfold frameLen in *. destruct (len0 =? 126) eqn:E6.
  - unfold size_z in H at 1. rewrite size_take by lia. destruct (Z.ltb_spec (Z.of_nat (length b)) (2 + 2)); [done|].
    destruct b as [|b0 [|b1 [|b2 [|b3 r]]]]; cbn in Hm; [cbn in *; lia..|]. cbn [drop skipn] in H.
    injection H as <- <-. split; [cbn; lia|]. destruct (decide (m < 4)%nat); [by destruct (Z.ltb_spec (Z.of_nat m) (2 + 2)); [|lia]|].
    destruct (Z.ltb_spec (Z.of_nat m) (2 + 2)); [lia|]. do 4 (destruct m as [|m]; [lia|]). done.
  - destruct (len0 =? 127) eqn:E7.
    + unfold size_z in H at 1. rewrite size_take by lia. destruct (Z.ltb_spec (Z.of_nat (length b)) (2 + 8)); [done|].
      destruct (Z.testbit _ 63) eqn:Et in H; [done|]. injection H as <- <-. split; [lia|].
      destruct (decide (m < 10)%nat); [by destruct (Z.ltb_spec (Z.of_nat m) (2 + 8)); [|lia]|].
      destruct (Z.ltb_spec (Z.of_nat m) (2 + 8)); [lia|].
      rewrite take_drop_inner by lia. by rewrite Et.
    + injection H as <- <-. split; [lia|]. by destruct (decide (m < 2)%nat); [lia|].
Qed.

Lemma frameBody_prefix opc fi mk l pos b n f m :
  0 <= l -> (pos <= m <= length b)%nat -> frameBody opc fi mk l pos b = Got n f ->
  (pos <= n <= length b)%nat /\ size_z (payload f) <= kMaxFramePayload /\
  frameBody opc fi mk l pos (take m b) = if decide (m < n)%nat then NeedMore else Got n f.
Proof.
  intros Hl Hm H. unfold frameBody in *. destruct (Z.ltb_spec kMaxFramePayload l) as [|Hcap]; [done|].
  rewrite size_take by lia. unfold size_z in H.
  destruct (mk && _) eqn:E1 in H; [done|]. cbv zeta in H |- *.
  set (pos' := if mk then (pos + 4)%nat else pos) in *.
  assert (Hpos : (pos <= pos')%nat) by (unfold pos'; destruct mk; lia).
  destruct (Z.ltb_spec (Z.of_nat (length b)) (Z.of_nat pos' + l)) as [|Hb]; [done|].
  injection H as <- <-. split; [lia|]. split.
  { cbn [payload]. unfold size_z. destruct mk; rewrite ?length_imap, length_take; lia. }
  destruct (decide (m < pos' + Z.to_nat l)%nat).
  - destruct mk; cbn [andb]; unfold pos' in *.
    + destruct (Z.ltb_spec (Z.of_nat m) (Z.of_nat pos + 4)); [done|].
      by destruct (Z.ltb_spec (Z.of_nat m) (Z.of_nat (pos + 4) + l)); [|lia].
    + by destruct (Z.ltb_spec (Z.of_nat m) (Z.of_nat pos + l)); [|lia].
  - replace (mk && (Z.of_nat m <? Z.of_nat pos + 4)) with false.
    2:{ unfold pos' in *. destruct mk; [|done]. cbn. lia. }
    destruct (Z.ltb_spec (Z.of_nat m) (Z.of_nat pos' + l)); [lia|].
    rewrite !(take_drop_inner (Z.to_nat l)) by lia. destruct mk; [|done].
    rewrite !(take_drop_inner 4) by (unfold pos' in *; lia). done.
Qed.

Lemma frameLen_stops len0 b n f : frameLen len0 b <> inl (Got n f).
Proof.
  unfold frameLen. destruct (_ =? 126); [destruct (_ <? _); [done|]; by destruct (drop 2 b) as [|? [|? ?]]|].
  destruct (_ =? 127); [|done]. destruct (_ <? _); [done|]. cbv zeta. by destruct (Z.testbit _ _).
Qed.

Lemma frameLen_nonneg len0 b l pos : 0 <= len0 -> frameLen len0 b = inr (l, pos) -> 0 <= l.
Proof.
  unfold frameLen. intros H0. destruct (len0 =? 126).
  - destruct (_ <? _); [done|]. destruct (drop 2 b) as [|b2 [|b3 r]]; [done..|]. intros [= <- _].
    apply Z.lor_nonneg. split; [apply Z.shiftl_nonneg|]; apply code_bound.
  - destruct (len0 =? 127); [|by intros [= <- _]]. destruct (_ <? _); [done|]. cbv zeta.
    destruct (Z.testbit _ _); [done|]. intros [= <- _].
    assert (forall (l : bytes) v, 0 <= v -> 0 <= fold_left (fun v c => u64 (Z.lor (Z.shiftl v 8) (code c))) l v) as H.
    { induction l as [|c l IH]; intros v Hv; [done|]. cbn [fold_left]. apply IH, Z.mod_pos_bound. lia. }
    by apply H.
Qed.

Lemma frameHead_len b0 b1 opc fi mk l : frameHead b0 b1 = Some (opc, fi, mk, l) -> 0 <= l.
Proof.
  unfold frameHead. destruct (opcodeOf _); [|done]. destruct (_ && _); [done|]. intros [= _ _ _ <-].
  apply Z.land_nonneg. by right.
Qed.

Lemma parse_pieces b n f :
  parseFrame b = Got n f ->
  (2 <= n <= length b)%nat /\ size_z (payload f) <= kMaxFramePayload /\
  forall m, (m <= length b)%nat ->
    parseFrame (take m b) = if decide (m < n)%nat then NeedMore else Got n f.
Proof.
  intros H. destruct b as [|b0 [|b1 r]]; [done..|]. cbn [parseFrame] in H.
  destruct (frameHead (code b0) (code b1)) as [[[[opc fi] mk] len0]|] eqn:Eh; [|done].
  destruct (frameLen len0 (b0 :: b1 :: r)) as [x|[l pos]] eqn:El; [by subst x; apply frameLen_stops in El|].
  pose proof (frameLen_nonneg _ _ _ _ (frameHead_len _ _ _ _ _ _ Eh) El) as Hl.
  set (b := b0 :: b1 :: r) in *. assert (Hlen : (2 <= length b)%nat) by (cbn; lia).
  destruct (frameLen_prefix len0 b l pos (length b) El) as [Hp _]; [lia|].
  destruct (frameBody_prefix opc fi mk l pos b n f (length b) Hl ltac:(lia) H) as (Hn & Hcap & _).
  split; [lia|]. split; [done|]. intros m Hm. destruct (decide (m < 2)%nat).
  { destruct (decide (m < n)%nat); [|lia]. by destruct m as [|[|m]]; [..|lia]. }
  assert (E : parseFrame (take m b) = match frameLen len0 (take m b) with
    | inl r => r | inr (len, pos) => frameBody opc fi mk len pos (take m b) end).
  { destruct m as [|[|m]]; [lia..|]. cbn [take b parseFrame]. by rewrite Eh. }
  rewrite E. destruct (frameLen_prefix len0 b l pos m El) as [_ ->]; [lia|].
  destruct (decide (m < pos)%nat); [by destruct (decide (m < n)%nat); [|lia]|].
  by destruct (frameBody_prefix opc fi mk l pos b n f m Hl ltac:(lia) H) as (_ & _ & ->).
Qed.

(** [parseFrame] can be fed piece by piece: a frame that parses is decided by
    the bytes it consumes, which are at least two and all in the buffer; every
    shorter piece of it asks for more; and its payload is at most 1 MiB. *)
Theorem parseFrame_incremental b n f :
  parseFrame b = Got n f ->
  (2 <= n <= length b)%nat /\ size_z (payload f) <= kMaxFramePayload /\
  forall m, (m <= length b)%nat ->
    parseFrame (take m b) = if decide (m < n)%nat then NeedMore else Got n f.
Proof. apply parse_pieces. Qed.

(** ** Round trip *)

Definition isControl (op : Opcode) : bool := negb (Z.land (opcodeVal op) 0x8 =? 0).

(** What may be sent: at most 1 MiB, control frames at most 125 bytes. *)
Definition encodable (op : Opcode) (pl : bytes) : Prop :=
  size_z pl <= kMaxFramePayload /\ (isControl op = true -> size_z pl <= 125).

Definition maskBit (mask : bool) : Z := if mask then 0x80 else 0x00.

Definition headOk (op : Opcode) (mask : bool) (l : Z) : bool :=
  (isControl op && (125 <? l)) ||
  bool_decide (frameHead (code (chr (Z.lor 0x80 (opcodeVal op)))) (code (chr (Z.lor (maskBit mask) l)))
               = Some (op, true, mask, l)).

Lemma frameHead_encode op mask l :
  0 <= l < 128 -> (isControl op = true -> l <= 125) ->
  frameHead (code (chr (Z.lor 0x80 (opcodeVal op)))) (code (chr (Z.lor (maskBit mask) l)))
  = Some (op, true, mask, l).
Proof.
  intros Hl Hc. assert (H : headOk op mask l = true).
  { revert Hl. apply (CStd.below_forall 128 (headOk op mask)). destruct op, mask; vm_compute; reflexivity. }
  apply orb_true_iff in H as [[H1 H2]%andb_true_iff|H]; [specialize (Hc H1); lia|].
  by apply bool_decide_eq_true in H.
Qed.

Lemma code_byte z : code (chr (Z.land z 0xff)) = z mod 256.
Proof.
  change 0xff with (Z.ones 8). rewrite Z.land_ones by lia. change (2 ^ 8) with 256.
  apply code_chr, Z.mod_pos_bound. lia.
Qed.

Definition b1Len (len : Z) : Z := if len <=? 125 then len else if len <=? 0xffff then 126 else 127.

Lemma encodeLen_head mb len : exists t, encodeLen mb len = chr (Z.lor mb (b1Len len)) :: t.
Proof. unfold encodeLen, b1Len. destruct (len <=? 125); [eauto|]. destruct (len <=? 0xffff); eauto. Qed.

Lemma frameLen_encode mb b0 len rest :
  0 <= len < 2 ^ 63 ->
  frameLen (b1Len len) (b0 :: encodeLen mb len ++ rest) = inr (len, S (length (encodeLen mb len))).
Proof.
  intros Hlen. unfold frameLen, b1Len, encodeLen. destruct (Z.leb_spec len 125).
  { destruct (Z.eqb_spec len 126), (Z.eqb_spec len 127); [lia..|done]. }
  destruct (Z.leb_spec len 0xffff).
  - change (126 =? 126) with true. cbv iota. unfold size_z. cbn [length app].
    destruct (Z.ltb_spec (Z.of_nat (S (S (S (S (length rest)))))) (2 + 2)); [lia|].
    cbn [drop skipn]. do 2 f_equal. rewrite !code_byte, Z.shiftr_div_pow2, Z.shiftl_mul_pow2 by lia.
    assert (len / 2 ^ 8 < 256) by (apply Z.div_lt_upper_bound; lia). pose proof (Z.div_pos len (2 ^ 8)).
    rewrite (Z.mod_small (len / 2 ^ 8)) by lia. change 256 with (2 ^ 8) at 1.
    rewrite lor_below; [|lia|apply Z.mod_pos_bound; lia]. change (2 ^ 8) with 256. pose proof (Z.div_mod len 256). lia.
  - change (127 =? 126) with false. change (127 =? 127) with true. cbv iota. unfold size_z.
    cbn [length app map]. rewrite (proj2 (Z.ltb_ge _ (2 + 8))) by lia.
    cbn [drop skipn take firstn]. cbv zeta.
    assert (E : fold_left (fun v c => u64 (Z.lor (Z.shiftl v 8) (code c)))
      (map (fun k => chr (Z.land (Z.shiftr len (k * 8)) 0xff)) [7; 6; 5; 4; 3; 2; 1; 0]) 0 = len).
    { trans (PrivOpsNv.rd64 true (PrivOpsNv.enc64 true len)); [|apply PrivOpsNv.rd64_enc64; lia]. unfold PrivOpsNv.rd64, PrivOpsNv.enc64.
      cbn [map fold_left]. by rewrite !code_byte, !Z.shiftr_div_pow2 by lia. }
    cbn [map] in E. change (take 0 rest) with (@nil ascii). rewrite E.
    rewrite Z.bits_above_log2; [done|lia|].
    destruct (Z.eq_dec len 0) as [->|]; [done|]. apply Z.log2_lt_pow2; lia.
Qed.

Lemma maskBytes_range key : Forall (fun k => 0 <= k < 256) (map code (maskBytes key)).
Proof. rewrite Forall_forall. intros k (c & <- & _)%list_elem_of_In%in_map_iff. apply code_bound. Qed.

Lemma frame_parses op pl mask key rest :
  encodable op pl ->
  parseFrame (encodeFrame op pl mask key ++ rest)
  = Got (length (encodeFrame op pl mask key)) {| opcode := op; fin := true; masked := mask; payload := pl |}.
Proof.
  intros [Hcap Hctl]. unfold encodeFrame. fold (maskBit mask). set (L := encodeLen (maskBit mask) (size_z pl)).
  set (T := if mask then _ else pl). cbn [app]. rewrite <- app_assoc.
  destruct (encodeLen_head (maskBit mask) (size_z pl)) as [t Ht]. fold L in Ht.
  assert (Hsz : 0 <= size_z pl < 2 ^ 63) by (pose proof (size_z_nonneg pl); unfold kMaxFramePayload in Hcap; lia).
  pose proof (frameLen_encode (maskBit mask) (chr (Z.lor 0x80 (opcodeVal op))) (size_z pl) (T ++ rest) Hsz) as HL.
  fold L in HL.
  assert (Hhead : frameHead (code (chr (Z.lor 0x80 (opcodeVal op)))) (code (chr (Z.lor (maskBit mask) (b1Len (size_z pl)))))
    = Some (op, true, mask, b1Len (size_z pl))).
  { apply frameHead_encode; unfold b1Len.
    - destruct (Z.leb_spec (size_z pl) 125); [lia|]. destruct (_ <=? _); lia.
    - intros Hc. specialize (Hctl Hc). destruct (Z.leb_spec (size_z pl) 125); lia. }
  set (buf := chr (Z.lor 0x80 (opcodeVal op)) :: L ++ T ++ rest) in *.
  assert (E : parseFrame buf = frameBody op true mask (size_z pl) (S (length L)) buf).
  { transitivity (match frameLen (b1Len (size_z pl)) buf with
      | inl r => r | inr (len, pos) => frameBody op true mask len pos buf end); [|by rewrite HL].
    unfold buf at 1. rewrite Ht. cbn [app parseFrame]. rewrite Hhead. unfold buf. by rewrite Ht. }
  rewrite E. unfold frameBody. destruct (Z.ltb_spec kMaxFramePayload (size_z pl)); [lia|].
  assert (HD : drop (S (length L)) buf = T ++ rest) by (unfold buf; cbn [drop skipn]; apply drop_app_length).
  assert (Hbuf : size_z buf = 1 + (Z.of_nat (length L) + (size_z T + size_z rest))).
  { unfold buf. rewrite size_z_cons, !size_z_app. done. }
  pose proof (size_z_nonneg rest). assert (Hlen : size_z pl = Z.of_nat (length pl)) by done.
  destruct mask; cbv zeta; cbn [andb].
  - assert (HT : size_z T = 4 + size_z pl).
    { unfold T, size_z. rewrite length_app, length_imap. cbn [length maskBytes map]. lia. }
    destruct (Z.ltb_spec (size_z buf) (Z.of_nat (S (length L)) + 4)); [lia|].
    destruct (Z.ltb_spec (size_z buf) (Z.of_nat (S (length L) + 4) + size_z pl)); [lia|].
    rewrite <- drop_drop, !HD. unfold T. rewrite <- app_assoc.
    rewrite take_app_length', drop_app_length' by done.
    rewrite take_app_length' by (rewrite length_imap; lia).
    rewrite imap_xor_xor by apply maskBytes_range. f_equal. cbn [length]. rewrite !length_app, length_imap.
    cbn [length maskBytes map]. lia.
  - unfold T in *. destruct (Z.ltb_spec (size_z buf) (Z.of_nat (S (length L)) + size_z pl)); [lia|].
    rewrite HD, take_app_length' by lia. f_equal. cbn [length]. rewrite length_app. lia.
Qed.

(** What [encodeFrame] sends, masked or not, [parseFrame] reads back: the same
    opcode and payload, as one final frame, leaving whatever follows. *)
Theorem frame_roundtrip op pl mask key rest :
  encodable op pl ->
  parseFrame (encodeFrame op pl mask key ++ rest)
  = Got (length (encodeFrame op pl mask key)) {| opcode := op; fin := true; masked := mask; payload := pl |}.
Proof. apply frame_parses. Qed.

(** ** Frames of a client

    What RFC 6455 lets a client send, written independently of [encodeFrame]:
    any part of a fragmented message, the length in any of the three fields it
    fits into, any mask. *)

Inductive Width := Width7 | Width16 | Width64.

Record Sent := { s_op : Opcode; s_fin : bool; s_width : Width; s_mask : option (ascii * ascii * ascii * ascii); s_payload : bytes }.

Fixpoint digits256 (n : nat) (x : Z) : bytes := match n with O => [] | S k => digits256 k (x / 256) ++ [chr (x mod 256)] end.

Definition lenField (w : Width) (maskBit len : Z) : bytes :=
  match w with
  | Width7 => [chr (maskBit + len)]
  | Width16 => chr (maskBit + 126) :: digits256 2 len
  | Width64 => chr (maskBit + 127) :: digits256 8 len
  end.

(** The mask's bytes in turn. *)
Fixpoint maskWith (key : ascii * ascii * ascii * ascii) (pl : bytes) : bytes :=
  match pl with
  | [] => []
  | x :: t => let '(a, b, c, d) := key in chr (Z.lxor (code x) (code a)) :: maskWith (b, c, d, a) t
  end.

Definition enc (s : Sent) : bytes :=
  chr ((if s_fin s then 128 else 0) + opcodeVal (s_op s))
  :: match s_mask s with
     | None => lenField (s_width s) 0 (size_z (s_payload s)) ++ s_payload s
     | Some ((a, b, c, d) as key) => lenField (s_width s) 128 (size_z (s_payload s)) ++ [a; b; c; d] ++ maskWith key (s_payload s)
     end.
Definition wire (fs : list Sent) : bytes := concat (map enc fs).

(** At most 1 MiB, in a field that holds the length; control frames are whole
    and short. *)
Definition legal (s : Sent) : Prop :=
  size_z (s_payload s) <= kMaxFramePayload
  /\ match s_width s with Width7 => size_z (s_payload s) <= 125 | Width16 => size_z (s_payload s) < 65536 | Width64 => True end
  /\ (isControl (s_op s) = true -> s_fin s = true /\ s_width s = Width7).

Definition isMasked (s : Sent) : bool := match s_mask s with Some _ => true | None => false end.
Definition frameOf (s : Sent) : Frame :=
  {| opcode := s_op s; fin := s_fin s; masked := isMasked s; payload := s_payload s |}.

(** *** They are parsed as they were meant *)

Definition first7 (s : Sent) : Z := match s_width s with Width7 => size_z (s_payload s) | Width16 => 126 | Width64 => 127 end.

Definition headTest (op : Opcode) (fi mask : bool) (l : Z) : bool :=
  (isControl op && (negb fi || (125 <? l)))
  || bool_decide (frameHead (code (chr ((if fi then 128 else 0) + opcodeVal op))) (code (chr ((if mask then 128 else 0) + l)))
                  = Some (op, fi, mask, l)).

Lemma frameHead_sent op (fi mask : bool) l : 0 <= l < 128 -> (isControl op = true -> fi = true /\ l <= 125) ->
  frameHead (code (chr ((if fi then 128 else 0) + opcodeVal op))) (code (chr ((if mask then 128 else 0) + l))) = Some (op, fi, mask, l).
Proof.
  intros Hl Hc. assert (H : headTest op fi mask l = true).
  { revert Hl. apply (CStd.below_forall 128 (headTest op fi mask)). destruct op, fi, mask; vm_compute; reflexivity. }
  apply orb_true_iff in H as [[H1 H2]%andb_true_iff|H]; [|by apply bool_decide_eq_true in H].
  destruct (Hc H1) as [-> ?]. cbn [negb orb] in H2. lia.
Qed.

Lemma digits256_value n x : map code (digits256 n x) = map (fun k => x / 256 ^ Z.of_nat k mod 256) (rev (seq 0 n)).
Proof.
  revert x. induction n as [|n IH]; intros x; [done|]. cbn [digits256 seq rev]. rewrite !map_app, IH. f_equal.
  - rewrite <- seq_shift, <- map_rev, map_map. apply map_ext. intros k. rewrite Z.div_div by lia. do 2 f_equal. rewrite Nat2Z.inj_succ, Z.pow_succ_r by lia. done.
  - cbn [map]. rewrite code_chr by (apply Z.mod_pos_bound; lia). change (256 ^ Z.of_nat 0) with 1. by rewrite Z.div_1_r.
Qed.

(** The length field of the frame, after the first byte. *)
Lemma frameLen_sent s b0 m rest (L := lenField (s_width s) m (size_z (s_payload s))) : legal s ->
  frameLen (first7 s) (b0 :: L ++ rest) = inr (size_z (s_payload s), S (length L)).
Proof.
  intros (Hcap & Hw & _). unfold L, first7, frameLen. pose proof (size_z_nonneg (s_payload s)) as H0. set (len := size_z (s_payload s)) in *.
  destruct (s_width s); cbn [lenField].
  - destruct (Z.eqb_spec len 126), (Z.eqb_spec len 127); [lia..|done].
  - change (126 =? 126) with true. cbv iota. pose proof (digits256_value 2 len) as E. cbn [seq rev app map] in E.
    destruct (digits256 2 len) as [|x [|y [|? ?]]]; try done. injection E as Ex Ey.
    unfold size_z. cbn [length app]. rewrite (proj2 (Z.ltb_ge _ (2 + 2))) by lia. cbn [drop skipn]. do 2 f_equal. rewrite Ex, Ey.
    change (256 ^ Z.of_nat 1) with 256. change (256 ^ Z.of_nat 0) with 1. rewrite Z.div_1_r.
    assert (len / 256 < 256) by (apply Z.div_lt_upper_bound; lia). pose proof (Z.div_pos len 256).
    rewrite (Z.mod_small (len / 256)), Z.shiftl_mul_pow2 by lia. rewrite lor_below; [|lia|apply Z.mod_pos_bound; lia].
    change (2 ^ 8) with 256. pose proof (Z.div_mod len 256). lia.
  - change (127 =? 126) with false. change (127 =? 127) with true. cbv iota zeta.
    pose proof (digits256_value 8 len) as E. assert (HL : length (digits256 8 len) = 8%nat) by (rewrite <- (length_map code), E; done).
    rewrite <- !app_comm_cons. change (drop 2 (b0 :: ?x :: ?l)) with l.
    rewrite (proj2 (Z.ltb_ge (size_z (b0 :: _)) (2 + 8))) by (unfold size_z; cbn [length]; rewrite length_app, HL; lia).
    rewrite take_app_length' by done.
    assert (F : fold_left (fun v c => u64 (Z.lor (Z.shiftl v 8) (code c))) (digits256 8 len) 0 = len).
    { trans (PrivOpsNv.rd64 true (PrivOpsNv.enc64 true len)); [|apply PrivOpsNv.rd64_enc64; unfold kMaxFramePayload in Hcap; lia].
      unfold PrivOpsNv.rd64. change (PrivOpsNv.enc64 true len) with (map (fun k => len / 256 ^ Z.of_nat k mod 256) (rev (seq 0 8))).
      rewrite <- E. generalize (digits256 8 len) as l. intros l. generalize 0 as v. induction l as [|c l IH]; intros v; [done|]. cbn [map fold_left]. apply IH. }
    rewrite F. rewrite Z.bits_above_log2; [done|lia|]. destruct (Z.eq_dec len 0) as [->|]; [done|]. apply Z.log2_lt_pow2; [lia|].
    unfold kMaxFramePayload in Hcap. lia.
Qed.

Lemma maskWith_imap key pl : maskWith key pl = let '(a, b, c, d) := key in imap (xorAt (map code [a; b; c; d])) pl.
Proof.
  revert key. induction pl as [|x pl IH]; intros [[[a b] c] d]; [done|]. cbn [maskWith imap]. f_equal. rewrite IH. apply imap_ext. intros i y _.
  unfold xorAt, compose. do 3 f_equal. rewrite <- (Nat.Div0.add_mod_idemp_r 1 i 4 : (1 + i mod 4) mod 4 = S i mod 4)%nat.
  pose proof (Nat.mod_upper_bound i 4 ltac:(lia)) as H. destruct (i mod 4)%nat as [|[|[|[|?]]]]; [done..|lia].
Qed.

Lemma sent_parses s rest : legal s -> parseFrame (enc s ++ rest) = Got (length (enc s)) (frameOf s).
Proof.
  intros Hl. pose proof Hl as (Hcap & Hw & Hctl). pose proof (size_z_nonneg (s_payload s)) as H0.
  set (m := if isMasked s then 128 else 0). set (L := lenField (s_width s) m (size_z (s_payload s))).
  set (T := match s_mask s with Some ((a, b, c, d) as key) => [a; b; c; d] ++ maskWith key (s_payload s) | None => s_payload s end).
  assert (Henc : enc s = chr ((if s_fin s then 128 else 0) + opcodeVal (s_op s)) :: L ++ T).
  { unfold enc, L, T, m, isMasked. by destruct (s_mask s) as [[[[a b] c] d]|]. }
  assert (exists t, L = chr (m + first7 s) :: t) as [t Ht] by (unfold L, first7; destruct (s_width s); eexists; reflexivity).
  assert (Hhead : frameHead (code (chr ((if s_fin s then 128 else 0) + opcodeVal (s_op s)))) (code (chr (m + first7 s)))
    = Some (s_op s, s_fin s, isMasked s, first7 s)).
  { apply frameHead_sent; unfold first7; [destruct (s_width s); lia|]. intros H. destruct (Hctl H) as [-> E]. rewrite E in *. done. }
  set (b0 := chr (_ + opcodeVal _)) in *. rewrite Henc. cbn [app]. rewrite <- app_assoc.
  pose proof (frameLen_sent s b0 m (T ++ rest) Hl) as HL. fold L in HL. set (buf := b0 :: L ++ T ++ rest) in *.
  assert (E : parseFrame buf = frameBody (s_op s) (s_fin s) (isMasked s) (size_z (s_payload s)) (S (length L)) buf).
  { transitivity (match frameLen (first7 s) buf with
      | inl r => r | inr (len, pos) => frameBody (s_op s) (s_fin s) (isMasked s) len pos buf end); [|by rewrite HL].
    unfold buf at 1. rewrite Ht. cbn [app parseFrame]. rewrite Hhead. unfold buf. by rewrite Ht. }
  rewrite E. unfold frameBody. destruct (Z.ltb_spec kMaxFramePayload (size_z (s_payload s))); [lia|].
  assert (HD : drop (S (length L)) buf = T ++ rest) by (unfold buf; cbn [drop skipn]; apply drop_app_length).
  assert (Hbuf : size_z buf = 1 + (Z.of_nat (length L) + (size_z T + size_z rest))) by (unfold buf; rewrite size_z_cons, !size_z_app; done).
  pose proof (size_z_nonneg rest). assert (Hlen : size_z (s_payload s) = Z.of_nat (length (s_payload s))) by done.
  unfold frameOf, isMasked in *. cbn [length]. rewrite length_app. unfold T in *. destruct (s_mask s) as [[[[a b] c] d]|]; cbv zeta; cbn [andb].
  - rewrite maskWith_imap in *. set (key := map code [a; b; c; d]) in *.
    assert (HT : size_z ([a; b; c; d] ++ imap (xorAt key) (s_payload s)) = 4 + size_z (s_payload s)).
    { unfold size_z. rewrite length_app, length_imap. cbn [length]. lia. }
    rewrite (proj2 (Z.ltb_ge _ (Z.of_nat (S (length L)) + 4))) by lia. rewrite (proj2 (Z.ltb_ge _ (Z.of_nat (S (length L) + 4) + _))) by lia.
    rewrite <- drop_drop, !HD. rewrite <- app_assoc, take_app_length', drop_app_length' by done. rewrite take_app_length' by (rewrite length_imap; lia).
    fold key. rewrite imap_xor_xor by (repeat constructor; apply code_bound). f_equal. rewrite length_app, length_imap. cbn [length]. lia.
  - rewrite (proj2 (Z.ltb_ge _ (Z.of_nat (S (length L)) + _))) by lia. rewrite HD, take_app_length' by lia. f_equal. lia.
Qed.

(** ** The console stream *)

(** What the frames mean: input for the shell, and the answers to pings. *)
Definition shellInput (fs : list Sent) : list bytes :=
  map s_payload (List.filter (fun s => negb (isControl (s_op s))) fs).
Definition pongs (fs : list Sent) : list bytes :=
  map (fun s => encodeFrame Pong (s_payload s) false []) (List.filter (fun s => bool_decide (s_op s = Ping)) fs).
Definition closes (fs : list Sent) : bool := existsb (fun s => bool_decide (s_op s = Close)) fs.

(** A Close frame, if there is one, is the last. *)
Definition closesLast (fs : list Sent) : Prop := forall pre f post, fs = pre ++ f :: post -> s_op f = Close -> post = [].

Lemma enc_piece s m : legal s -> (m < length (enc s))%nat -> parseFrame (take m (enc s)) = NeedMore.
Proof.
  intros Hl Hm. pose proof (sent_parses s [] Hl) as H. rewrite app_nil_r in H. apply parse_pieces in H as (_ & _ & Hp).
  rewrite Hp by lia. by destruct (decide _).
Qed.

Lemma enc_length s : legal s -> (2 <= length (enc s))%nat.
Proof. intros Hl. pose proof (sent_parses s [] Hl) as H. by apply parse_pieces in H as ([? _] & _). Qed.

Lemma onFrame_sent p s :
  onFrame p (frameOf s) = {| wsBuf := wsBuf p; closed := closed p || closes [s]; toShell := toShell p ++ shellInput [s];
                             toPeer := toPeer p ++ pongs [s] |}.
Proof.
  destruct p as [b c sh pe], s as [op fi w mk pl]. destruct op; cbn; by rewrite ?app_nil_r, ?orb_false_r, ?orb_true_r.
Qed.

Lemma frames_stream fuel p fs r :
  Forall legal fs -> wsBuf p ++ r = wire fs -> (length (wsBuf p) <= fuel)%nat ->
  exists fs1 fs2 b, fs = fs1 ++ fs2 /\ b ++ r = wire fs2 /\
    (forall f t, fs2 = f :: t -> (length b < length (enc f))%nat) /\
    frames fuel p = {| wsBuf := b; closed := closed p || closes fs1; toShell := toShell p ++ shellInput fs1;
                       toPeer := toPeer p ++ pongs fs1 |}.
Proof.
  intros Hs. revert fuel p. induction Hs as [|f fs Hf Hs IH]; intros fuel p Hw Hfuel.
  { apply app_eq_nil in Hw as [Hb ->]. exists [], [], []. split; [done|]. split; [done|]. split; [done|].
    replace (frames fuel p) with p by (destruct fuel; cbn [frames]; by rewrite ?Hb).
    destruct p as [b c sh pe]. cbn in *. subst. by rewrite !app_nil_r, orb_false_r. }
  change (wsBuf p ++ r = enc f ++ wire fs) in Hw.
  destruct (decide (length (wsBuf p) < length (enc f))%nat) as [Hlt|Hge].
  - exists [], (f :: fs), (wsBuf p). split; [done|]. split; [done|]. split; [by intros ? ? [= <- <-]|].
    assert (Hp : p = {| wsBuf := wsBuf p; closed := closed p || closes []; toShell := toShell p ++ shellInput [];
      toPeer := toPeer p ++ pongs [] |}) by (destruct p; cbn in *; by rewrite !app_nil_r, orb_false_r).
    rewrite <- Hp. assert (Hb : wsBuf p = take (length (wsBuf p)) (enc f)).
    { apply (f_equal (take (length (wsBuf p)))) in Hw. rewrite take_app_length, take_app_le in Hw by lia. done. }
    destruct fuel as [|k]; cbn [frames]; [done|]. destruct (is_empty (wsBuf p)); [done|].
    rewrite Hb, enc_piece by done. done.
  - assert (exists b', wsBuf p = enc f ++ b' /\ b' ++ r = wire fs) as (b' & Hb & Hr).
    { exists (drop (length (enc f)) (wsBuf p)).
      pose proof (f_equal (take (length (enc f))) Hw) as Ht. pose proof (f_equal (drop (length (enc f))) Hw) as Hd.
      rewrite take_app_length, take_app_le in Ht by lia. rewrite drop_app_length, drop_app_le in Hd by lia.
      split; [|done]. rewrite <- Ht at 1. by rewrite take_drop. }
    pose proof (enc_length f Hf) as Hn2. pose proof (sent_parses f b' Hf) as Hpf.
    destruct fuel as [|k]; [rewrite Hb, length_app in Hfuel; lia|].
    destruct (IH k (onFrame (setBuf p b') (frameOf f))) as (fs1 & fs2 & b & -> & Hw2 & Hstop & E).
    { rewrite onFrame_sent. done. }
    { rewrite onFrame_sent. cbn [wsBuf setBuf]. rewrite Hb, length_app in Hfuel. lia. }
    exists (f :: fs1), fs2, b. split; [done|]. split; [done|]. split; [done|].
    cbn [frames]. destruct (is_empty (wsBuf p)) eqn:He.
    { rewrite Hb in He. destruct (enc f) eqn:Ef; [cbn in Hn2; lia|done]. }
    rewrite Hb, Hpf, drop_app_length, E, onFrame_sent. cbn [closed toShell toPeer setBuf].
    rewrite <- !app_assoc, <- orb_assoc. f_equal; [|f_equal..]; unfold shellInput, pongs, closes; cbn [List.filter existsb];
      [by rewrite orb_false_r|by destruct (isControl (s_op f))|by case_bool_decide].
Qed.

Lemma closes_end fs1 fs2 : closesLast (fs1 ++ fs2) -> closes fs1 = true -> fs2 = [].
Proof.
  intros Hl (f & Hf & Hc%bool_decide_eq_true)%existsb_exists. apply in_split in Hf as (a & b & ->).
  specialize (Hl a f (b ++ fs2)). rewrite <- app_assoc in Hl. specialize (Hl eq_refl Hc). by apply app_eq_nil in Hl as [_ ->].
Qed.

Lemma closesLast_tail fs1 fs2 : closesLast (fs1 ++ fs2) -> closesLast fs2.
Proof. intros H pre f post -> Hc. apply (H (fs1 ++ pre) f post); [by rewrite <- app_assoc|done]. Qed.

Lemma pump_stream_from chunks p fs :
  Forall legal fs -> closesLast fs -> closed p = false -> Forall (fun c => c <> []) chunks ->
  wsBuf p ++ concat chunks = wire fs ->
  (forall f t, fs = f :: t -> (length (wsBuf p) < length (enc f))%nat) ->
  pump p chunks = {| wsBuf := []; closed := closes fs; toShell := toShell p ++ shellInput fs; toPeer := toPeer p ++ pongs fs |}.
Proof.
  intros Hs Hl Hc Hne. revert p fs Hs Hl Hc.
  induction Hne as [|c chunks Hcne Hne IH]; intros p fs Hs Hl Hc Hw Hstop; cbn [pump].
  - cbn in Hw. rewrite app_nil_r in Hw. destruct fs as [|f fs].
    + destruct p as [b cl sh pe]. cbn in *. subst. by rewrite !app_nil_r.
    + specialize (Hstop f fs eq_refl). rewrite Hw in Hstop.
      change (wire (f :: fs)) with (enc f ++ wire fs) in Hstop. rewrite length_app in Hstop. lia.
  - rewrite Hc. unfold onRecv. destruct c as [|x c]; [done|]. cbn [is_empty].
    cbn [concat] in Hw. rewrite app_assoc in Hw.
    destruct (frames_stream (length (wsBuf (setBuf p (wsBuf p ++ x :: c)))) (setBuf p (wsBuf p ++ x :: c)) fs (concat chunks))
      as (fs1 & fs2 & b & -> & Hw2 & Hst & E); [done..|].
    rewrite E. cbn [closed setBuf]. rewrite Hc. cbn [orb]. apply Forall_app in Hs as [_ Hs2]. destruct (closes fs1) eqn:Ec.
    + pose proof (closes_end _ _ Hl Ec) as ->. apply app_eq_nil in Hw2 as [-> Hch]. rewrite app_nil_r.
      destruct Hne as [|d ds Hd _]; [cbn [pump]; by rewrite Ec|]. apply app_eq_nil in Hch as [? _]. done.
    + rewrite (IH _ fs2) by (done || by eapply closesLast_tail). cbn [toShell toPeer setBuf]. unfold shellInput, pongs, closes in *.
      by rewrite !List.filter_app, !map_app, <- !app_assoc, existsb_app, Ec.
Qed.


(** ** Concrete frames *)

Definition hello : Sent :=
  {| s_op := Text; s_fin := true; s_width := Width7; s_mask := Some (chr 0x37, chr 0xfa, chr 0x21, chr 0x3d); s_payload := str "Hello" |}.
Definition firstPart : Sent := {| s_op := Text; s_fin := false; s_width := Width16; s_mask := Some (chr 1, chr 2, chr 3, chr 4); s_payload := str "Hel" |}.
Definition lastPart : Sent := {| s_op := Continuation; s_fin := true; s_width := Width64; s_mask := None; s_payload := str "lo" |}.
Definition ping : Sent := {| s_op := Ping; s_fin := true; s_width := Width7; s_mask := None; s_payload := str "x" |}.
Definition bye : Sent := {| s_op := Close; s_fin := true; s_width := Width7; s_mask := Some (nul, nul, nul, nul); s_payload := [] |}.

(** The masked "Hello" of RFC 6455, section 5.7; [encodeFrame] sends it so too. *)
Example hello_bytes :
  map code (enc hello) = [0x81; 0x85; 0x37; 0xfa; 0x21; 0x3d; 0x7f; 0x9f; 0x4d; 0x51; 0x58]
  /\ encodeFrame Text (str "Hello") true (map chr [0x37; 0xfa; 0x21; 0x3d]) = enc hello.
Proof. vm_compute. done. Qed.

Lemma frame_roundtrip_witness :
  parseFrame (encodeFrame Text (str "Hello") true (str "key!") ++ str "..")
  = Got 11 {| opcode := Text; fin := true; masked := true; payload := str "Hello" |}.
Proof. apply (frame_roundtrip Text (str "Hello") true (str "key!") (str "..")). split; [done|discriminate]. Defined.

Lemma parseFrame_incremental_witness : parseFrame (take 7 (enc hello)) = NeedMore.
Proof.
  destruct (parseFrame_incremental (enc hello) 11 (frameOf hello)) as (_ & _ & H); [vm_compute; reflexivity|].
  rewrite (H 7%nat) by (vm_compute; lia). reflexivity.
Defined.


(** A close frame does not stop the inner loop: frames behind it in the same
    buffer still reach the shell. *)
Theorem frames_after_close_reach_shell :
  pump startPump [wire [bye; hello]]
  = {| wsBuf := []; closed := true; toShell := [str "Hello"]; toPeer := [] |}.
Proof. vm_compute. reflexivity. Qed.

End Ws.
