(* ===== verification/Rfc3174.v ===== *)
(** * SHA-1 as RFC 3174 defines it

    A reference for the hash of the WebSocket handshake, written from the
    text of the RFC and independent of the program: words are numbers below
    2^32, the functions f are given bit by bit, a rotation is a multiplication
    and a division, and bytes are the big-endian digits of numbers. *)

From S2P Require Import Prelude CStd.

Module Rfc3174.
Import CStd.

(** ** Words *)

Definition word (x : Z) : Prop := 0 <= x < 2 ^ 32.

(** The number whose bits are [f 0], [f 1], ..., [f (n - 1)]. *)
Fixpoint fromBits (n : nat) (f : Z -> bool) : Z :=
  match n with O => 0 | S k => Z.b2z (f 0) + 2 * fromBits k (fun i => f (i + 1)) end.

(** S^n(X), the circular left shift. *)
Definition circular (n x : Z) : Z := (x * 2 ^ n) mod 2 ^ 32 + x / 2 ^ (32 - n).

(** ** Functions and constants: section 5 *)

(** B chooses between C and D; the parity; the majority. *)
Definition choose (b c d : bool) : bool := if b then c else d.
Definition parity (b c d : bool) : bool := xorb b (xorb c d).
Definition majority (b c d : bool) : bool := if b then c || d else c && d.

Definition bitwise (g : bool -> bool -> bool -> bool) (b c d : Z) : Z :=
  fromBits 32 (fun i => g (Z.testbit b i) (Z.testbit c i) (Z.testbit d i)).

Definition f (t : nat) : Z -> Z -> Z -> Z :=
  bitwise (if Nat.leb t 19 then choose else if Nat.leb t 39 then parity else if Nat.leb t 59 then majority else parity).

(** Of K(0), K(20), K(40) and K(60), 2^30 times the roots of 2, 3, 5 and 10. *)
Definition K (t : nat) : Z :=
  Z.sqrt (2 ^ 60 * (if Nat.leb t 19 then 2 else if Nat.leb t 39 then 3 else if Nat.leb t 59 then 5 else 10)).

(** ** Bytes and numbers *)

Definition fromBytes (s : bytes) : Z := fold_left (fun n c => n * 256 + code c) s 0.
Fixpoint toBytes (n : nat) (x : Z) : bytes := match n with O => [] | S k => toBytes k (x / 256) ++ [chr (x mod 256)] end.

(** The pieces of [n] bytes of a text. *)
Fixpoint pieces (n fuel : nat) (s : bytes) : list bytes :=
  match fuel, s with S k, _ :: _ => take n s :: pieces n k (drop n s) | _, _ => [] end.

(** ** Padding: section 4 *)

(** A one bit, zeros up to 64 bits short of a multiple of 512, and the number
    of bits in two words. *)
Definition padded (message : bytes) : bytes :=
  message ++ [chr 128] ++ repeat nul (Z.to_nat ((55 - size_z message) mod 64)) ++ toBytes 8 (size_z message * 8).

(** ** The digest: section 6.1 *)

(** W(t-3), W(t-8), W(t-14) and W(t-16) of the words so far, the last one first. *)
Definition nextW (w : list Z) : list Z :=
  circular 1 (Z.lxor (nth 2 w 0) (Z.lxor (nth 7 w 0) (Z.lxor (nth 13 w 0) (nth 15 w 0)))) :: w.
Definition schedule (block : bytes) : list Z := rev (Nat.iter 64 nextW (rev (map fromBytes (pieces 4 16 block)))).

Definition Five : Type := Z * Z * Z * Z * Z.

Definition step (t : nat) (w : Z) (s : Five) : Five :=
  let '(a, b, c, d, e) := s in
  ((circular 5 a + f t b c d + e + w + K t) mod 2 ^ 32, a, circular 30 b, c, d).

Fixpoint steps (t : nat) (ws : list Z) (s : Five) : Five :=
  match ws with [] => s | w :: rest => steps (S t) rest (step t w s) end.

Definition plus5 (x y : Five) : Five :=
  let '(a, b, c, d, e) := x in let '(a', b', c', d', e') := y in
  ((a + a') mod 2 ^ 32, (b + b') mod 2 ^ 32, (c + c') mod 2 ^ 32, (d + d') mod 2 ^ 32, (e + e') mod 2 ^ 32).

Definition compress (h : Five) (block : bytes) : Five := plus5 h (steps 0 (schedule block) h).

Definition start : Five := (0x67452301, 0xEFCDAB89, 0x98BADCFE, 0x10325476, 0xC3D2E1F0).

Definition sha1 (message : bytes) : bytes :=
  let p := padded message in
  let '(a, b, c, d, e) := fold_left compress (pieces 64 (length p) p) start in
  concat (map (toBytes 4) [a; b; c; d; e]).

(** ** Checks against the RFC *)

(** The constants in hexadecimal. *)
Example constants : map K [0; 20; 40; 60]%nat = [0x5A827999; 0x6ED9EBA1; 0x8F1BBCDC; 0xCA62C1D6].
Proof. vm_compute. reflexivity. Qed.

(** The first two test cases of section 7.3. *)
Example test_cases :
  map code (sha1 (str "abc"))
  = [0xA9; 0x99; 0x3E; 0x36; 0x47; 0x06; 0x81; 0x6A; 0xBA; 0x3E; 0x25; 0x71; 0x78; 0x50; 0xC2; 0x6C; 0x9C; 0xD0; 0xD8; 0x9D]
  /\ map code (sha1 (str "abcdbcdecdefdefgefghfghighijhijkijkljklmklmnlmnomnopnopq"))
  = [0x84; 0x98; 0x3E; 0x44; 0x1C; 0x3B; 0xD2; 0x6E; 0xBA; 0xAE; 0x4A; 0xA1; 0xF9; 0x51; 0x29; 0xE5; 0xE5; 0x46; 0x70; 0xF1].
Proof. vm_compute. done. Qed.

(** ** Facts about the words *)

Lemma fromBits_bits n g i : 0 <= i -> Z.testbit (fromBits n g) i = (i <? Z.of_nat n) && g i.
Proof.
  revert g i. induction n as [|n IH]; intros g i Hi; cbn [fromBits]; [rewrite Z.bits_0; change (Z.of_nat 0) with 0; by destruct (Z.ltb_spec i 0); [lia|]|].
  rewrite Z.add_comm. destruct (Z.eq_dec i 0) as [->|Hne].
  - rewrite Z.testbit_0_r. done.
  - replace i with (Z.succ (i - 1)) at 1 by lia. rewrite Z.testbit_succ_r, IH by lia. replace (i - 1 + 1) with i by lia.
    f_equal. destruct (Z.ltb_spec (i - 1) (Z.of_nat n)), (Z.ltb_spec i (Z.of_nat (S n))); lia || done.
Qed.

Lemma word_high x i : word x -> 32 <= i -> Z.testbit x i = false.
Proof. intros W H. rewrite <- (Z.mod_small x (2 ^ 32)) by exact W. by apply Z.mod_pow2_bits_high. Qed.

Lemma word_bits x : 0 <= x -> (forall i, 32 <= i -> Z.testbit x i = false) -> word x.
Proof.
  intros H B. split; [done|]. destruct (Z.eq_dec x 0) as [->|Hx]; [lia|]. apply Z.log2_lt_pow2; [lia|].
  destruct (Z.lt_ge_cases (Z.log2 x) 32) as [|G]; [done|]. specialize (B _ G). rewrite Z.bit_log2 in B by lia. done.
Qed.

Lemma bitwise_is g x b c d : 0 <= x -> (forall i, 32 <= i -> Z.testbit x i = false) ->
  (forall i, 0 <= i < 32 -> Z.testbit x i = g (Z.testbit b i) (Z.testbit c i) (Z.testbit d i)) -> x = bitwise g b c d.
Proof.
  intros H0 Hh Hl. apply Z.bits_inj'. intros i Hi. unfold bitwise. rewrite fromBits_bits by done. change (Z.of_nat 32) with 32.
  destruct (Z.ltb_spec i 32); cbn [andb]; [by apply Hl|by apply Hh].
Qed.

Lemma pieces_cons n k s : s <> [] -> pieces n (S k) s = take n s :: pieces n k (drop n s).
Proof. by destruct s. Qed.

(** A text made of blocks is cut into them. *)
Lemma pieces_concat n bs : (0 < n)%nat -> Forall (fun b : bytes => length b = n) bs -> forall fuel, (length bs <= fuel)%nat -> pieces n fuel (concat bs) = bs.
Proof.
  intros Hn. induction 1 as [|b bs Hb _ IH]; intros fuel Hf; [by destruct fuel|]. destruct fuel as [|fuel]; [cbn in Hf; lia|]. cbn [concat].
  rewrite pieces_cons by (destruct b; [cbn in Hb; lia|done]). rewrite take_app_length', drop_app_length' by done. f_equal. apply IH. cbn in Hf. lia.
Qed.
End Rfc3174.
