(* ===== verification/WsHandshake.v ===== *)
(** * The WebSocket handshake: daemon/ws_pure.cpp

    SHA-1, base64 and the upgrade request.  The frames are in Ws.v, what
    SHA-1 is meant to be in Rfc3174.v. *)

From S2P Require Import Prelude CStd Rfc3174.

Module WsHandshake.
Import CStd.

(** ** SHA-1 *)

Definition rotl32 (v n : Z) : Z := Z.lor (u32 (Z.shiftl v n)) (Z.shiftr v (32 - n)).

Record H5 := { h0 : Z; h1 : Z; h2 : Z; h3 : Z; h4 : Z }.

(** The first sixteen words of the schedule. *)
Fixpoint blockWords (n : nat) (block : bytes) : list Z :=
  match n, block with
  | S k, a :: b :: c :: d :: t =>
      Z.lor (Z.lor (Z.lor (u32 (Z.shiftl (code a) 24)) (Z.shiftl (code b) 16)) (Z.shiftl (code c) 8)) (code d)
      :: blockWords k t
  | _, _ => []
  end.

Definition wAt (w : list Z) (i : nat) : Z := default 0 (w !! i).

(** [for (i = 16; i < 80; i++) w[i] = ...] *)
Fixpoint extend (n : nat) (w : list Z) : list Z :=
  match n with
  | O => w
  | S k =>
      let i := length w in
      extend k (w ++ [rotl32 (Z.lxor (Z.lxor (Z.lxor (wAt w (i - 3)) (wAt w (i - 8))) (wAt w (i - 14)))
                                (wAt w (i - 16))) 1])
  end.

Definition sha1F (i : nat) (b c d : Z) : Z * Z :=
  if Nat.ltb i 20 then (Z.lor (Z.land b c) (Z.land (u32 (Z.lnot b)) d), 0x5A827999)
  else if Nat.ltb i 40 then (Z.lxor (Z.lxor b c) d, 0x6ED9EBA1)
  else if Nat.ltb i 60 then (Z.lor (Z.lor (Z.land b c) (Z.land b d)) (Z.land c d), 0x8F1BBCDC)
  else (Z.lxor (Z.lxor b c) d, 0xCA62C1D6).

(** [for (i = 0; i < 80; i++)], from [i] on. *)
Fixpoint rounds (i : nat) (w : list Z) (s : H5) : H5 :=
  match w with
  | [] => s
  | wi :: t =>
      let '(f, k) := sha1F i (h1 s) (h2 s) (h3 s) in
      let x := u32 (rotl32 (h0 s) 5 + f + h4 s + k + wi) in
      rounds (S i) t {| h0 := x; h1 := h0 s; h2 := rotl32 (h1 s) 30; h3 := h2 s; h4 := h3 s |}
  end.

Definition sha1Block (block : bytes) (h : H5) : H5 :=
  let s := rounds 0 (extend 64 (blockWords 16 block)) h in
  {| h0 := u32 (h0 h + h0 s); h1 := u32 (h1 h + h1 s); h2 := u32 (h2 h + h2 s);
     h3 := u32 (h3 h + h3 s); h4 := u32 (h4 h + h4 s) |}.

Definition initH : H5 :=
  {| h0 := 0x67452301; h1 := 0xEFCDAB89; h2 := 0x98BADCFE; h3 := 0x10325476; h4 := 0xC3D2E1F0 |}.

(** [memcpy(dst + pos, data, n)] on a buffer. *)
Definition write (pos : nat) (data buf : bytes) : bytes :=
  take pos buf ++ data ++ drop (pos + length data) buf.
Definition zeros (n : nat) : bytes := replicate n nul.

(** [while (i + 64 <= input.size())]: the state, what is left of the input,
    and the block buffer. *)
Fixpoint fullBlocks (fuel : nat) (input block : bytes) (h : H5) : H5 * bytes * bytes :=
  match fuel with
  | O => (h, input, block)
  | S k =>
      if Nat.leb 64 (length input)
      then let block := write 0 (take 64 input) block in
           fullBlocks k (drop 64 input) block (sha1Block block h)
      else (h, input, block)
  end.

(** [block[56 + b] = totalBits >> ((7 - b) * 8)] *)
Definition bitLen (n : Z) : bytes := map (fun b => chr (Z.shiftr n ((7 - b) * 8))) [0; 1; 2; 3; 4; 5; 6; 7].

Definition wordBytes (x : Z) : bytes :=
  map (fun s => chr (Z.land (Z.shiftr x s) 0xff)) [24; 16; 8; 0].

Definition digest (h : H5) : bytes := concat (map wordBytes [h0 h; h1 h; h2 h; h3 h; h4 h]).

(** [block0] is what the uninitialised buffer holds. *)
Definition sha1Raw (block0 input : bytes) : bytes :=
  let totalBits := u64 (size_z input * 8) in
  let '(h, tail, block) := fullBlocks (length input) input block0 initH in
  let rem := length tail in
  let block := write rem [chr 0x80] (write 0 tail block) in
  let '(block, h) :=
    if Nat.ltb 56 (rem + 1)
    then let block := write (rem + 1) (zeros (64 - rem - 1)) block in
         (write 0 (zeros 56) block, sha1Block block h)
    else (write (rem + 1) (zeros (56 - rem - 1)) block, h) in
  let block := write 56 (bitLen totalBits) block in
  digest (sha1Block block h).

(** ** Base64 *)

Definition alphabet : bytes := str "ABCDEFGHIJKLMNOPQRSTUVWXYZabcdefghijklmnopqrstuvwxyz0123456789+/".

Definition sextet (n s : Z) : ascii := default nul (alphabet !! Z.to_nat (Z.land (Z.shiftr n s) 0x3f)).

Fixpoint base64Encode (input : bytes) : bytes :=
  match input with
  | a :: b :: c :: t =>
      let n := Z.lor (Z.lor (Z.shiftl (code a) 16) (Z.shiftl (code b) 8)) (code c) in
      sextet n 18 :: sextet n 12 :: sextet n 6 :: sextet n 0 :: base64Encode t
  | [a; b] =>
      let n := Z.lor (Z.shiftl (code a) 16) (Z.shiftl (code b) 8) in
      [sextet n 18; sextet n 12; sextet n 6; "="%char]
  | [a] =>
      let n := Z.shiftl (code a) 16 in
      [sextet n 18; sextet n 12; "="%char; "="%char]
  | [] => []
  end.

(** ** Handshake *)

Definition GUID : bytes := str "258EAFA5-E914-47DA-95CA-C5AB0DC85B11".

Definition computeAcceptKey (block0 clientKey : bytes) : bytes :=
  base64Encode (sha1Raw block0 (clientKey ++ GUID)).

Definition isBlank (c : ascii) : bool := one_of [" "%char; tab; cr; newline] c.

Fixpoint trimFront (s : bytes) : bytes :=
  match s with c :: t => if isBlank c then trimFront t else s | [] => [] end.
Definition trim (s : bytes) : bytes := rev (trimFront (rev (trimFront s))).

Definition toLower (s : bytes) : bytes := map tolower s.
Definition ieq (a b : bytes) : bool := beq (toLower a) (toLower b).

Definition crlf : bytes := [cr; newline].

Record Headers := { sawUpgrade : bool; sawConnection : bool; hdrKey : bytes; hdrVersion : Z }.

(** One header line. *)
Definition onHeader (h : Headers) (line : bytes) : Headers :=
  match find_char ":" line with
  | None => h
  | Some colon =>
      let name := trim (take colon line) in
      let val := trim (drop (S colon) line) in
      let lname := toLower name in
      if beq lname (str "upgrade") then
        if ieq val (str "websocket")
        then {| sawUpgrade := true; sawConnection := sawConnection h; hdrKey := hdrKey h; hdrVersion := hdrVersion h |}
        else h
      else if beq lname (str "connection") then
        if has_sub (str "upgrade") (toLower val)
        then {| sawUpgrade := sawUpgrade h; sawConnection := true; hdrKey := hdrKey h; hdrVersion := hdrVersion h |}
        else h
      else if beq lname (str "sec-websocket-key") then
        {| sawUpgrade := sawUpgrade h; sawConnection := sawConnection h; hdrKey := val; hdrVersion := hdrVersion h |}
      else if beq lname (str "sec-websocket-version") then
        {| sawUpgrade := sawUpgrade h; sawConnection := sawConnection h; hdrKey := hdrKey h;
           hdrVersion := default 0 (stoi val) |}
      else h
  end.

(** The header loop: up to an empty line or the last CRLF.  Every turn takes
    two bytes off, so the length is enough fuel. *)
Fixpoint headerLoop (fuel : nat) (s : bytes) (h : Headers) : Headers :=
  match fuel with
  | O => h
  | S k =>
      match find_sub crlf s with
      | None => h
      | Some O => h
      | Some nl => headerLoop k (drop (nl + 2) s) (onHeader h (take nl s))
      end
  end.

Record HandshakeRequest := { ok : bool; failureReason : bytes; clientKey : bytes; version : Z; path : bytes }.

Definition failed (reason key : bytes) (v : Z) (p : bytes) : HandshakeRequest :=
  {| ok := false; failureReason := reason; clientKey := key; version := v; path := p |}.

Definition noHeaders : Headers := {| sawUpgrade := false; sawConnection := false; hdrKey := []; hdrVersion := 0 |}.

Definition parseHandshakeRequest (raw : bytes) : HandshakeRequest :=
  match find_sub crlf raw with
  | None => failed (str "missing CRLF after request line") [] 0 []
  | Some firstNl =>
      let firstLine := take firstNl raw in
      match find_char " " firstLine with
      | None => failed (str "malformed request line") [] 0 []
      | Some sp1 =>
          match find_char " " (drop (S sp1) firstLine) with
          | None => failed (str "malformed request line") [] 0 []
          | Some len =>
              if negb (ieq (take sp1 firstLine) (str "GET")) then failed (str "method must be GET") [] 0 []
              else
                let p := take len (drop (S sp1) firstLine) in
                let rest := drop (firstNl + 2) raw in
                let h := headerLoop (length rest) rest noHeaders in
                let fail m := failed m (hdrKey h) (hdrVersion h) p in
                if negb (sawUpgrade h) then fail (str "missing 'Upgrade: websocket' header")
                else if negb (sawConnection h) then fail (str "missing 'Connection: Upgrade' header")
                else if is_empty (hdrKey h) then fail (str "missing Sec-WebSocket-Key header")
                else if negb (hdrVersion h =? 13) then fail (str "unsupported Sec-WebSocket-Version")
                else {| ok := true; failureReason := []; clientKey := hdrKey h; version := hdrVersion h; path := p |}
          end
      end
  end.

Definition buildHandshakeResponse (acceptKey : bytes) : bytes :=
  str "HTTP/1.1 101 Switching Protocols" ++ crlf ++ str "Upgrade: websocket" ++ crlf
  ++ str "Connection: Upgrade" ++ crlf ++ str "Sec-WebSocket-Accept: " ++ acceptKey ++ crlf ++ crlf.

Definition buildHandshakeRejection (reason : bytes) : bytes :=
  let body := str "{" ++ [dquote] ++ str "error" ++ [dquote] ++ str ":" ++ [dquote] ++ reason ++ [dquote] ++ str "}" in
  str "HTTP/1.1 400 Bad Request" ++ crlf ++ str "Content-Type: application/json" ++ crlf
  ++ str "Content-Length: " ++ dec (size_z body) ++ crlf ++ str "Connection: close" ++ crlf ++ crlf ++ body.

(** * Theorems *)

(** The example of RFC 6455, section 1.3. *)
Example acceptKey_rfc6455 :
  computeAcceptKey (zeros 64) (str "dGhlIHNhbXBsZSBub25jZQ==") = str "s3pPLMBiTxaQ9kYGzzhZRbK+xOo=".
Proof. vm_compute. reflexivity. Qed.

(** ** Base64 is invertible *)

Definition unsextet (c : ascii) : option Z := Z.of_nat <$> find_char c alphabet.

(** The decoder of RFC 4648, for reference. *)
Fixpoint base64Decode (s : bytes) : option bytes :=
  match s with
  | [] => Some []
  | a :: b :: c :: d :: t =>
      match unsextet a, unsextet b with
      | Some x, Some y =>
          if Ascii.eqb c "=" then (if is_empty t then Some [chr (x * 4 + y / 16)] else None)
          else match unsextet c with
               | Some z =>
                   if Ascii.eqb d "=" then
                     (if is_empty t then Some [chr (x * 4 + y / 16); chr (y * 16 + z / 4)] else None)
                   else match unsextet d, base64Decode t with
                        | Some w, Some r =>
                            Some (chr (x * 4 + y / 16) :: chr (y * 16 + z / 4) :: chr (z * 64 + w) :: r)
                        | _, _ => None
                        end
               | None => None
               end
      | _, _ => None
      end
  | _ => None
  end.

Definition sextetOk (i : Z) : bool :=
  bool_decide (unsextet (default nul (alphabet !! Z.to_nat i)) = Some i)
  && negb (Ascii.eqb (default nul (alphabet !! Z.to_nat i)) "=").

Lemma sextet_inv n s :
  0 <= s -> unsextet (sextet n s) = Some (n / 2 ^ s mod 64) /\ Ascii.eqb (sextet n s) "=" = false.
Proof.
  intros Hs. unfold sextet. change 0x3f with (Z.ones 6). rewrite Z.land_ones, Z.shiftr_div_pow2 by lia.
  change (2 ^ 6) with 64. set (i := n / 2 ^ s mod 64).
  assert (Hi : 0 <= i < Z.of_nat 64) by (apply Z.mod_pos_bound; lia).
  pose proof (below_forall 64 sextetOk i ltac:(vm_compute; reflexivity) Hi) as H.
  unfold sextetOk in H. rewrite andb_true_iff, negb_true_iff in H. destruct H as [H1 H2].
  by apply bool_decide_eq_true in H1.
Qed.

Lemma three_bytes a b c :
  Z.lor (Z.lor (Z.shiftl (code a) 16) (Z.shiftl (code b) 8)) (code c) = code a * 65536 + code b * 256 + code c.
Proof.
  pose proof (code_bound a). pose proof (code_bound b). pose proof (code_bound c).
  rewrite !Z.shiftl_mul_pow2 by lia. rewrite (lor_below (code a) (code b * 2 ^ 8) 16) by (cbn; lia).
  replace (code a * 2 ^ 16 + code b * 2 ^ 8) with ((code a * 256 + code b) * 2 ^ 8) by lia.
  rewrite (lor_below _ (code c) 8) by (cbn; lia). lia.
Qed.

Lemma chr_is (a : ascii) z : z = code a -> chr z = a.
Proof. intros ->. apply chr_code. Qed.

Lemma chr_mod_is (a : ascii) z : z mod 256 = code a -> chr z = a.
Proof. intros H. unfold chr. rewrite H. rewrite <- (chr_code a) at 2. unfold chr. rewrite (Z.mod_small (code a)); [done|apply code_bound]. Qed.

Ltac bits := Z.to_euclidean_division_equations; lia.

(** [base64Encode] loses nothing: the standard decoder gives the input back. *)
Theorem base64_roundtrip s : base64Decode (base64Encode s) = Some s.
Proof.
  assert (Hind : forall n t, (length t <= n)%nat -> base64Decode (base64Encode t) = Some t); [|by eapply Hind].
  induction n as [|n IH]; intros t Hn; [by destruct t; [|cbn in Hn; lia]|].
  destruct t as [|a [|b [|c t]]]; [done|..]; cbn [base64Encode base64Decode]; cbv zeta.
  - replace (Z.shiftl (code a) 16) with (code a * 65536) by (by rewrite Z.shiftl_mul_pow2).
    destruct (sextet_inv (code a * 65536) 18 ltac:(lia)) as [-> _],
      (sextet_inv (code a * 65536) 12 ltac:(lia)) as [-> _].
    pose proof (code_bound a). cbn [is_empty]. do 2 f_equal. apply chr_is.
    change (2 ^ 18) with 262144. change (2 ^ 12) with 4096. bits.
  - replace (Z.lor _ _) with (code a * 65536 + code b * 256).
    2:{ pose proof (three_bytes a b nul) as E. change (code nul) with 0 in E. rewrite Z.lor_0_r in E. lia. }
    set (n0 := code a * 65536 + code b * 256).
    destruct (sextet_inv n0 18 ltac:(lia)) as [-> _], (sextet_inv n0 12 ltac:(lia)) as [-> _], (sextet_inv n0 6 ltac:(lia)) as [-> ->].
    pose proof (code_bound a). pose proof (code_bound b). cbn [is_empty]. unfold n0.
    change (2 ^ 18) with 262144. change (2 ^ 12) with 4096. change (2 ^ 6) with 64.
    change (Ascii.eqb "=" "=") with true. cbv iota. do 2 f_equal; [apply chr_is; bits|].
    f_equal. apply chr_mod_is. bits.
  - rewrite three_bytes. set (n0 := code a * 65536 + code b * 256 + code c).
    destruct (sextet_inv n0 18 ltac:(lia)) as [-> _], (sextet_inv n0 12 ltac:(lia)) as [-> _], (sextet_inv n0 6 ltac:(lia)) as [-> ->],
      (sextet_inv n0 0 ltac:(lia)) as [-> ->].
    rewrite (IH t) by (cbn in Hn; lia).
    pose proof (code_bound a). pose proof (code_bound b). pose proof (code_bound c). unfold n0.
    change (2 ^ 18) with 262144. change (2 ^ 12) with 4096. change (2 ^ 6) with 64. change (2 ^ 0) with 1.
    do 2 f_equal; [apply chr_is; bits|]. f_equal; [apply chr_mod_is; bits|]. f_equal. apply chr_mod_is. bits.
Qed.

(** ** The padding and the blocks *)

Definition hashBlocks (blocks : list bytes) (h : H5) : H5 := fold_left (fun h b => sha1Block b h) blocks h.

Definition isBlock (b : bytes) : Prop := length b = 64%nat.

Lemma write_at (a data b : bytes) pos :
  pos = length a -> write pos data (a ++ b) = a ++ data ++ drop (length data) b.
Proof. intros ->. unfold write. by rewrite take_app_length, drop_app_add. Qed.

Lemma write_front (data b : bytes) : write 0 data b = data ++ drop (length data) b.
Proof. done. Qed.

Lemma zeros_length n : length (zeros n) = n.
Proof. apply length_replicate. Qed.

Lemma fullBlocks_spec fuel input block h h' tail block' :
  (length input <= fuel)%nat -> isBlock block -> fullBlocks fuel input block h = (h', tail, block') ->
  isBlock block' /\ (length tail < 64)%nat /\
  exists bs, Forall isBlock bs /\ input = concat bs ++ tail /\ h' = hashBlocks bs h.
Proof.
  unfold isBlock. revert input block h. induction fuel as [|k IH]; intros input block h Hf Hb; cbn [fullBlocks].
  - intros [= <- <- <-]. split; [done|]. split; [lia|]. by exists [].
  - destruct (Nat.leb_spec 64 (length input)) as [Hle|]; [|intros [= <- <- <-]; split; [done|]; split; [done|]; by exists []].
    assert (Hw : write 0 (take 64 input) block = take 64 input).
    { rewrite write_front, length_take, Nat.min_l, (drop_ge block) by lia. apply app_nil_r. }
    rewrite Hw. intros H. apply IH in H as (H1 & H2 & bs & Hbs & E & ->).
    + split; [done|]. split; [done|]. exists (take 64 input :: bs). split; [|split; [|done]].
      * constructor; [rewrite length_take; lia|done].
      * cbn [concat]. rewrite <- app_assoc, <- E. by rewrite take_drop.
    + rewrite length_drop. lia.
    + rewrite length_take. lia.
Qed.

Lemma drop_all_but (b : bytes) n : (length b <= n)%nat -> drop n b = [].
Proof. apply drop_ge. Qed.

Lemma blocks_size bs : Forall isBlock bs -> size_z (concat bs) = 64 * Z.of_nat (length bs).
Proof.
  induction 1 as [|b bs Hb _ IH]; [done|]. cbn [concat length]. rewrite size_z_app, IH.
  unfold size_z. rewrite Hb. lia.
Qed.

(** How many zeros the padding has, by the length of the last, partial block. *)
Lemma padding_zeros input bs tail : Forall isBlock bs -> input = concat bs ++ tail -> (length tail < 64)%nat ->
  Z.to_nat ((55 - size_z input) mod 64)
  = if Nat.ltb 56 (length tail + 1) then (119 - length tail)%nat else (55 - length tail)%nat.
Proof.
  intros Hbs -> Ht. rewrite size_z_app, blocks_size by done. unfold size_z. generalize (Z.of_nat (length bs)). intros q.
  destruct (Nat.ltb_spec 56 (length tail + 1)).
  - replace (55 - (64 * q + Z.of_nat (length tail))) with (119 - Z.of_nat (length tail) + (- q - 1) * 64) by lia.
    rewrite Z.mod_add, Z.mod_small by lia. lia.
  - replace (55 - (64 * q + Z.of_nat (length tail))) with (55 - Z.of_nat (length tail) + (- q) * 64) by lia.
    rewrite Z.mod_add, Z.mod_small by lia. lia.
Qed.

Definition padding (input : bytes) : bytes :=
  input ++ [chr 0x80] ++ zeros (Z.to_nat ((55 - size_z input) mod 64)) ++ bitLen (u64 (size_z input * 8)).

(** The compression function is folded over the blocks of the padded message,
    whatever the buffer held before. *)
Lemma sha1Raw_blocks block0 input :
  isBlock block0 ->
  exists blocks, Forall isBlock blocks /\ concat blocks = padding input /\
    sha1Raw block0 input = digest (hashBlocks blocks initH).
Proof.
  intros Hb0. unfold sha1Raw.
  destruct (fullBlocks (length input) input block0 initH) as [[h tail] block] eqn:E.
  apply fullBlocks_spec in E as (Hb & Ht & bs & Hbs & Hin & ->); [|lia|done].
  set (bl := bitLen _). assert (Hbl : length bl = 8%nat) by done. unfold isBlock in Hb.
  cbv zeta. rewrite (write_front tail), (write_at tail) by done. cbn [length]. set (D := drop 1 _).
  assert (HD : length D = (63 - length tail)%nat) by (unfold D; rewrite !length_drop; lia).
  pose proof (padding_zeros input bs tail Hbs Hin ltac:(lia)) as Hz.
  assert (Hpad : padding input = concat bs ++ tail ++ [chr 0x80] ++ zeros (Z.to_nat ((55 - size_z input) mod 64)) ++ bl).
  { unfold padding. fold bl. by rewrite Hin at 1; rewrite <- app_assoc. }
  rewrite Hpad, Hz, !(app_assoc tail). destruct (Nat.ltb_spec 56 (length tail + 1)) as [Hlt|Hge].
  - rewrite (write_at (tail ++ [chr 128])) by (rewrite length_app; cbn; lia).
    rewrite (drop_all_but D) by (rewrite zeros_length; lia). rewrite app_nil_r.
    set (b1 := (tail ++ [chr 128]) ++ zeros _).
    assert (Hb1 : length b1 = 64%nat) by (unfold b1; rewrite !length_app, zeros_length; cbn; lia).
    rewrite (write_front (zeros 56)), (write_at (zeros 56)) by (by rewrite zeros_length).
    rewrite (drop_all_but (drop _ b1)) by (rewrite length_drop, zeros_length; lia). rewrite app_nil_r.
    exists (bs ++ [b1; zeros 56 ++ bl]). split; [|split].
    + apply Forall_app. split; [done|]. constructor; [exact Hb1|constructor; [|constructor]]. unfold isBlock.
      by rewrite length_app, zeros_length, Hbl.
    + rewrite concat_app. cbn [concat]. rewrite app_nil_r. f_equal. unfold b1. rewrite <- (app_assoc (tail ++ _)).
      f_equal. rewrite app_assoc. f_equal. unfold zeros. rewrite <- replicate_add. f_equal. lia.
    + unfold hashBlocks. by rewrite fold_left_app.
  - rewrite (write_at (tail ++ [chr 128])) by (rewrite length_app; cbn; lia).
    rewrite zeros_length, (app_assoc _ (zeros (56 - length tail - 1))).
    set (F := (tail ++ [chr 128]) ++ zeros (56 - length tail - 1)).
    assert (HF : length F = 56%nat) by (unfold F; rewrite !length_app, zeros_length; cbn; lia).
    rewrite (write_at F) by done. rewrite (drop_all_but (drop _ D)) by (rewrite length_drop; lia).
    rewrite app_nil_r. exists (bs ++ [F ++ bl]). split; [|split].
    + apply Forall_app. split; [done|]. constructor; [|constructor]. unfold isBlock. by rewrite length_app, HF, Hbl.
    + rewrite concat_app. cbn [concat]. rewrite app_nil_r. f_equal. unfold F. rewrite <- !app_assoc.
      do 2 f_equal. f_equal. f_equal. lia.
    + unfold hashBlocks. by rewrite fold_left_app.
Qed.

(** ** The code's words are the standard's *)

Import Rfc3174.

Lemma u32_word x : word (u32 x).
Proof. unfold word, u32. apply Z.mod_pos_bound. lia. Qed.

Lemma byte_chr z : chr z = chr (z mod 256).
Proof. unfold chr. by rewrite Z.mod_mod by lia. Qed.

Lemma rotl32_circular n x : 0 < n < 32 -> word x -> rotl32 x n = circular n x.
Proof.
  intros Hn [H0 H1]. unfold rotl32, circular, u32. rewrite Z.shiftl_mul_pow2, Z.shiftr_div_pow2 by lia.
  assert (E : (x * 2 ^ n) mod 2 ^ 32 = (x mod 2 ^ (32 - n)) * 2 ^ n).
  { replace (2 ^ 32) with (2 ^ (32 - n) * 2 ^ n) by (rewrite <- Z.pow_add_r by lia; f_equal; lia). by rewrite Z.mul_mod_distr_r by lia. }
  rewrite E. apply lor_below; [lia|]. split; [apply Z.div_pos; lia|]. apply Z.div_lt_upper_bound; [lia|]. rewrite <- Z.pow_add_r by lia. by replace (32 - n + n) with 32 by lia.
Qed.

Lemma circular_word n x : 0 < n < 32 -> word x -> word (circular n x).
Proof.
  intros Hn W. rewrite <- rotl32_circular by done. unfold rotl32. apply word_bits.
  - apply Z.lor_nonneg. split; [apply u32_word|]. apply Z.shiftr_nonneg, W.
  - intros i Hi. rewrite Z.lor_spec, (word_high _ _ (u32_word _) Hi), Z.shiftr_spec by lia. cbn [orb]. apply word_high; [done|lia].
Qed.

Lemma lxor_word x y : word x -> word y -> word (Z.lxor x y).
Proof.
  intros X Y. apply word_bits; [apply Z.lxor_nonneg; split; intros; [apply Y|apply X]|].
  intros i Hi. by rewrite Z.lxor_spec, !word_high.
Qed.

(** The four kinds of round. *)
Lemma sha1F_standard i b c d : word b -> word c -> word d -> sha1F i b c d = (f i b c d, K i).
Proof.
  intros B C D. assert (N : forall i, 32 <= i -> Z.testbit b i = false /\ Z.testbit c i = false /\ Z.testbit d i = false) by (intros; by rewrite !word_high).
  assert (U : forall j, 0 <= j < 32 -> Z.testbit (u32 (Z.lnot b)) j = negb (Z.testbit b j)).
  { intros j Hj. unfold u32. rewrite Z.mod_pow2_bits_low, Z.lnot_spec by lia. done. }
  pose proof (u32_word (Z.lnot b)) as L. unfold sha1F, f, K.
  destruct (Nat.ltb_spec i 20), (Nat.leb_spec i 19); try lia; [|destruct (Nat.ltb_spec i 40), (Nat.leb_spec i 39); try lia;
    [|destruct (Nat.ltb_spec i 60), (Nat.leb_spec i 59); try lia]]; (apply f_equal2; [|by vm_compute]); apply bitwise_is.
  all: try (rewrite ?Z.lor_nonneg, ?Z.land_nonneg, ?Z.lxor_nonneg; unfold word in *; intuition lia).
  all: intros j Hj; rewrite ?Z.lor_spec, ?Z.lxor_spec, ?Z.land_spec.
  all: try (destruct (N j Hj) as (-> & -> & ->); rewrite ?andb_false_r; reflexivity).
  all: rewrite ?U by done; by destruct (Z.testbit b j), (Z.testbit c j), (Z.testbit d j).
Qed.

Definition five (h : H5) : Five := (h0 h, h1 h, h2 h, h3 h, h4 h).
Definition words5 (h : H5) : Prop := word (h0 h) /\ word (h1 h) /\ word (h2 h) /\ word (h3 h) /\ word (h4 h).

Lemma rounds_standard ws : forall i h, words5 h -> five (rounds i ws h) = steps i ws (five h).
Proof.
  induction ws as [|w ws IH]; intros i h (A & B & C & D & E); [done|]. cbn [rounds steps]. rewrite sha1F_standard by done. cbv zeta.
  rewrite !rotl32_circular by (done || lia). rewrite IH.
  - f_equal. unfold step, five. cbn [h0 h1 h2 h3 h4]. repeat f_equal. unfold u32. f_equal. lia.
  - split; [apply u32_word|]. cbn [h0 h1 h2 h3 h4]. split; [done|]. split; [by apply circular_word; [lia|]|done].
Qed.

(** The sixteen words of a block. *)
Lemma four_bytes a b c d :
  Z.lor (Z.lor (Z.lor (u32 (Z.shiftl (code a) 24)) (Z.shiftl (code b) 16)) (Z.shiftl (code c) 8)) (code d) = fromBytes [a; b; c; d].
Proof.
  pose proof (code_bound a). pose proof (code_bound b). pose proof (code_bound c). pose proof (code_bound d).
  rewrite !Z.shiftl_mul_pow2 by lia. unfold u32. rewrite Z.mod_small by (cbn; lia).
  rewrite (lor_below (code a) (code b * 2 ^ 16) 24) by (cbn; lia).
  replace (code a * 2 ^ 24 + code b * 2 ^ 16) with ((code a * 256 + code b) * 2 ^ 16) by lia. rewrite (lor_below _ (code c * 2 ^ 8) 16) by (cbn; lia).
  replace ((code a * 256 + code b) * 2 ^ 16 + code c * 2 ^ 8) with (((code a * 256 + code b) * 256 + code c) * 2 ^ 8) by lia.
  rewrite (lor_below _ (code d) 8) by (cbn; lia). unfold fromBytes. cbn [fold_left]. lia.
Qed.

Lemma blockWords_standard n block : (4 * n <= length block)%nat -> blockWords n block = map fromBytes (pieces 4 n block) /\ length (blockWords n block) = n.
Proof.
  revert block. induction n as [|n IH]; intros block H; [done|]. destruct block as [|a [|b [|c [|d t]]]]; try (cbn in H; lia).
  cbn [blockWords pieces take drop map length]. rewrite four_bytes. destruct (IH t) as [-> ->]; [cbn in H; lia|]. done.
Qed.

Lemma fromBytes_word a b c d : word (fromBytes [a; b; c; d]).
Proof. pose proof (code_bound a). pose proof (code_bound b). pose proof (code_bound c). pose proof (code_bound d). unfold word, fromBytes. cbn [fold_left]. lia. Qed.

Lemma blockWords_words n block : Forall word (blockWords n block).
Proof.
  revert block. induction n as [|n IH]; intros block; [constructor|]. destruct block as [|a [|b [|c [|d t]]]]; try constructor; [|apply IH].
  rewrite four_bytes. apply fromBytes_word.
Qed.

(** The schedule; the code keeps it in order, the reference backwards. *)
Lemma wAt_back w k : (k < length w)%nat -> wAt w (length w - S k) = nth k (rev w) 0.
Proof.
  intros H. unfold wAt. rewrite rev_nth by done. by rewrite nth_lookup.
Qed.

Lemma nth_word w k : Forall word w -> word (nth k w 0).
Proof.
  intros F. destruct (nth_in_or_default k w 0) as [H| ->]; [|unfold word; lia]. rewrite List.Forall_forall in F. by apply F.
Qed.

Lemma extend_standard n : forall w, (16 <= length w)%nat -> Forall word w ->
  extend n w = rev (Nat.iter n nextW (rev w)) /\ Forall word (extend n w).
Proof.
  induction n as [|n IH]; intros w L F; [by cbn; rewrite rev_involutive|]. cbn [extend]. cbv zeta.
  replace (length w - 3)%nat with (length w - S 2)%nat by lia. replace (length w - 8)%nat with (length w - S 7)%nat by lia.
  replace (length w - 14)%nat with (length w - S 13)%nat by lia. replace (length w - 16)%nat with (length w - S 15)%nat by lia.
  rewrite !wAt_back by lia. assert (R : Forall word (rev w)) by (by apply Forall_rev). rewrite !Z.lxor_assoc.
  set (x := Z.lxor _ _). assert (X : word x) by (unfold x; repeat apply lxor_word; by apply nth_word). rewrite rotl32_circular by (done || lia).
  destruct (IH (w ++ [circular 1 x])) as [-> G].
  - rewrite length_app. lia.
  - apply Forall_app. split; [done|]. constructor; [by apply circular_word; [lia|]|constructor].
  - split; [|exact G]. rewrite rev_unit, Nat.iter_succ_r. done.
Qed.

Lemma schedule_standard block : isBlock block -> extend 64 (blockWords 16 block) = schedule block.
Proof.
  unfold isBlock, schedule. generalize 64%nat at 2 3 as n. intros n Hb. destruct (blockWords_standard 16 block) as [E L]; [lia|].
  destruct (extend_standard n (blockWords 16 block)) as [-> _]; [lia|apply blockWords_words|]. by rewrite E.
Qed.

Lemma compress_eq h block : compress h block = plus5 h (steps 0 (schedule block) h).
Proof. reflexivity. Qed.

Lemma plus_five h s :
  five {| h0 := u32 (h0 h + h0 s); h1 := u32 (h1 h + h1 s); h2 := u32 (h2 h + h2 s); h3 := u32 (h3 h + h3 s); h4 := u32 (h4 h + h4 s) |}
  = plus5 (five h) (five s).
Proof. reflexivity. Qed.

Lemma words_sum h s :
  words5 {| h0 := u32 (h0 h + h0 s); h1 := u32 (h1 h + h1 s); h2 := u32 (h2 h + h2 s); h3 := u32 (h3 h + h3 s); h4 := u32 (h4 h + h4 s) |}.
Proof. unfold words5. cbn [h0 h1 h2 h3 h4]. do 4 (split; [apply u32_word|]). apply u32_word. Qed.

Lemma sha1Block_eq block h (s := rounds 0 (extend 64 (blockWords 16 block)) h) :
  sha1Block block h = {| h0 := u32 (h0 h + h0 s); h1 := u32 (h1 h + h1 s); h2 := u32 (h2 h + h2 s); h3 := u32 (h3 h + h3 s); h4 := u32 (h4 h + h4 s) |}.
Proof. reflexivity. Qed.

Lemma sha1Block_words block h : words5 (sha1Block block h).
Proof. rewrite sha1Block_eq. apply words_sum. Qed.

Lemma sha1Block_standard block h : isBlock block -> words5 h -> five (sha1Block block h) = compress (five h) block.
Proof.
  intros Hb W. rewrite compress_eq, sha1Block_eq, schedule_standard by exact Hb. rewrite <- (rounds_standard _ _ _ W). apply plus_five.
Qed.

Lemma fold_cons {A B} (g : A -> B -> A) x l a : fold_left g (x :: l) a = fold_left g l (g a x).
Proof. reflexivity. Qed.

Lemma hashBlocks_standard bs : Forall isBlock bs -> forall h, words5 h -> five (hashBlocks bs h) = fold_left compress bs (five h).
Proof.
  unfold hashBlocks. induction 1 as [|b bs Hb _ IH]; intros h W; [done|]. rewrite !fold_cons, <- (sha1Block_standard b h Hb W). apply IH, sha1Block_words.
Qed.

(** The length field and the digest, most significant byte first. *)
Lemma shifted_byte x k : 0 <= k -> chr (Z.land (Z.shiftr x k) 0xff) = chr (x / 2 ^ k mod 256).
Proof. intros Hk. change 0xff with (Z.ones 8). by rewrite Z.land_ones, Z.shiftr_div_pow2 by lia. Qed.

Lemma wordBytes_standard x : wordBytes x = toBytes 4 x.
Proof.
  unfold wordBytes. cbn [map toBytes app]. rewrite !shifted_byte by lia. rewrite !Z.div_div by lia. change (2 ^ 0) with 1. by rewrite Z.div_1_r.
Qed.

Lemma bitLen_standard n : 0 <= n -> bitLen (u64 n) = toBytes 8 n.
Proof.
  intros Hn. unfold bitLen. cbn [map toBytes app]. rewrite !Z.div_div by lia.
  assert (B : forall k, 0 <= k <= 56 -> chr (Z.shiftr (u64 n) k) = chr (n / 2 ^ k mod 256)).
  { intros k Hk. rewrite byte_chr. f_equal. rewrite Z.shiftr_div_pow2 by lia. unfold u64. apply Z.bits_inj'. intros j Hj. change 256 with (2 ^ 8).
    rewrite !Z.testbit_mod_pow2, !Z.div_pow2_bits, Z.testbit_mod_pow2 by lia. destruct (Z.ltb_spec j 8); [|done]. cbn [andb].
    by destruct (Z.ltb_spec (j + k) 64); [|lia]. }
  rewrite !B by lia. change (2 ^ ((7 - 7) * 8)) with 1. by rewrite Z.div_1_r.
Qed.

Lemma padding_standard input : padding input = padded input.
Proof.
  unfold padding, padded. rewrite bitLen_standard by (unfold size_z; lia). do 3 f_equal. unfold zeros. generalize (Z.to_nat ((55 - size_z input) mod 64)). intros k.
  induction k as [|k IH]; [done|]. cbn. by rewrite IH.
Qed.

(** C39: [sha1Raw] computes SHA-1 for every input, whatever its
    uninitialised buffer held: the result is the digest that the reference of
    Rfc3174.v, written from the RFC and not from the code, defines, with its own
    padding and length field, schedule, round functions, constants, start values
    and byte order. *)
Theorem sha1Raw_standard block0 input : isBlock block0 -> sha1Raw block0 input = sha1 input.
Proof.
  intros Hb. destruct (sha1Raw_blocks block0 input Hb) as (bs & F & C & ->). unfold sha1. rewrite <- padding_standard, <- C.
  rewrite (pieces_concat 64 bs) by (first [lia | done | apply Nat.le_trans with (64 * length bs)%nat; [lia|];
    pose proof (blocks_size bs F); unfold size_z in *; lia]).
  pose proof (hashBlocks_standard bs F initH) as H. unfold five at 2 in H. change (_, _, _, _, _) with start in H at 1.
  rewrite <- H by (repeat split; vm_compute; congruence). unfold five, digest. cbn [map]. by rewrite !wordBytes_standard.
Qed.

Lemma sha1Raw_standard_witness : sha1Raw (repeat "x"%char 64) (str "abc") = sha1 (str "abc").
Proof. apply sha1Raw_standard. reflexivity. Defined.

(** ** The upgrade request *)

(** Surplus fuel changes nothing: each header takes its line and CRLF off. *)
Lemma headerLoop_fuel k s h : (length s <= k)%nat -> headerLoop k s h = headerLoop (length s) s h.
Proof.
  remember (length s) as n eqn:En. revert k s h En.
  induction n as [n IH] using lt_wf_ind. intros k s h En Hk.
  destruct n as [|n]. { destruct s; [|done]. by destruct k. }
  destruct k as [|k]; [lia|]. cbn [headerLoop]. destruct (find_sub crlf s) as [[|nl]|]; [done| |done].
  assert (Hl : length (drop (S nl + 2) s) = (S n - (S nl + 2))%nat) by (rewrite length_drop; lia).
  rewrite (IH (length (drop (S nl + 2) s))) with (k := k), (IH (length (drop (S nl + 2) s))) with (k := n) by (done || lia).
  done.
Qed.

(** A request that is accepted asked for version 13 and gave a key. *)
Lemma handshake_ok raw :
  ok (parseHandshakeRequest raw) = true ->
  version (parseHandshakeRequest raw) = 13 /\ clientKey (parseHandshakeRequest raw) <> [] /\
  failureReason (parseHandshakeRequest raw) = [].
Proof.
  unfold parseHandshakeRequest. destruct (find_sub crlf raw); [|done]. destruct (find_char _ _); [|done].
  destruct (find_char _ _); [|done]. destruct (negb (ieq _ _)); [done|]. cbv zeta.
  set (h := headerLoop _ _ _). destruct (negb (sawUpgrade h)); [done|]. destruct (negb (sawConnection h)); [done|].
  destruct (hdrKey h) eqn:Ek; [done|]. cbn [is_empty].
  destruct (Z.eqb_spec (hdrVersion h) 13); [|done]. done.
Qed.

Definition sampleRequest : bytes :=
  str "GET /console/web HTTP/1.1" ++ crlf ++ str "Host: h" ++ crlf ++ str "UPGRADE: WebSocket" ++ crlf
  ++ str "Connection: keep-alive, Upgrade" ++ crlf ++ str "Sec-WebSocket-Key: dGhlIHNhbXBsZSBub25jZQ==" ++ crlf
  ++ str "Sec-WebSocket-Version: 13" ++ crlf ++ crlf.

Example sample_accepted :
  parseHandshakeRequest sampleRequest
  = {| ok := true; failureReason := []; clientKey := str "dGhlIHNhbXBsZSBub25jZQ=="; version := 13;
       path := str "/console/web" |}.
Proof. vm_compute. reflexivity. Qed.

End WsHandshake.
