(* ===== verification/ControlSocketPure.v ===== *)
(** * The control sockets' rules: daemon/control_socket_pure.cpp

    Validation of a socket's configuration, its routes, the access decision,
    the JSON and HTTP subset it speaks.  The connection handler is
    ControlSocket.v. *)

From S2P Require Import Prelude CStd OMap Wire Auth.

Module ControlSocketPure.
Import CStd.

(** ** Data *)

Record ControlSocketSpec :=
  { sp_path : bytes; sp_group : bytes; sp_mode : Z; sp_pools : list bytes; sp_role : bytes }.

Inductive Action :=
  Unknown | ListContainers | GetContainer | GetContainerStats | PatchResources | PostStart | PostStop | PostRestart.

Record ParsedRoute := { rt_action : Action; rt_container : bytes }.

Inductive Decision := Allow | DenyGidMismatch | DenyPoolMismatch | DenyRoleMismatch | DenyUnknownAction.

Record AuthorizeInput :=
  { peerUid : Z; peerGid : Z; socketExpectedGid : Z; socketRole : bytes; socketPools : list bytes;
    action : Action; container : bytes; poolSeparator : ascii }.

Record ResourcesPatch := { pcpu : bytes; memoryuse : bytes; readbps : bytes; writebps : bytes }.

Record ContainerSummary := { cs_name : bytes; cs_pool : bytes; cs_state : bytes; cs_jid : Z }.

Record ParsedHttp := { method : bytes; hpath : bytes; contentLength : Z }.

(** ** Configuration *)

Definition backslash : ascii := chr 92.
Definition squote : ascii := chr 39.

Definition shellMeta (c : ascii) : bool :=
  one_of (str ";`$|&<>*? " ++ [backslash; newline; cr; dquote; squote; tab]) c.
Definition hasShellMetachar (s : bytes) : bool := existsb shellMeta s.

Definition hasDotDot (p : bytes) : bool := existsb (fun seg => beq seg (str "..")) (split_on "/" p).

Definition nameByte (c : ascii) : bool := is_alnum c || one_of (str "._-") c.

Definition kRoot : bytes := str "/var/run/crate/control/".

Fixpoint groupScan (s : bytes) : bytes :=
  match s with
  | [] => []
  | c :: t => if negb (nameByte c) then str "control_socket: group contains invalid character '" ++ [c] ++ str "'"
              else groupScan t
  end.

Fixpoint poolsScan (pools : list bytes) : bytes :=
  match pools with
  | [] => []
  | p :: rest =>
      if beq p (str "*") then poolsScan rest
      else if is_empty p || (64 <? size_z p) then str "control_socket: pool name out of length bounds (1..64)"
      else if negb (forallb nameByte p) then str "control_socket: pool '" ++ p ++ str "' contains invalid character"
      else poolsScan rest
  end.

Definition validateSocketSpec (spec : ControlSocketSpec) : bytes :=
  reject (is_empty (sp_path spec)) with str "control_socket: path is empty";
  reject (1024 <? size_z (sp_path spec)) with str "control_socket: path longer than 1024 chars";
  reject (negb (starts_with (str "/") (sp_path spec))) with str "control_socket: path must be absolute";
  reject (hasDotDot (sp_path spec)) with str "control_socket: path must not contain '..' segments";
  reject (hasShellMetachar (sp_path spec)) with
    str "control_socket: path contains shell metacharacters or whitespace";
  reject ((size_z (sp_path spec) <=? size_z kRoot) || negb (starts_with kRoot (sp_path spec))) with
    str "control_socket: path must live under /var/run/crate/control/";
  reject (is_empty (sp_group spec)) with str "control_socket: group is empty";
  reject (32 <? size_z (sp_group spec)) with str "control_socket: group longer than 32 chars";
  ensure groupScan (sp_group spec);
  reject (0x1ff <? sp_mode spec) with str "control_socket: mode out of range (must be 0..0777)";
  reject (negb (beq (sp_role spec) (str "admin")) && negb (beq (sp_role spec) (str "viewer"))) with
    (str "control_socket: role must be 'admin' or 'viewer', got '" ++ sp_role spec ++ str "'");
  reject (is_empty (sp_pools spec)) with
    (str "control_socket: pools list is empty (use [" ++ [dquote] ++ str "*" ++ [dquote] ++ str "] for all-pools)");
  poolsScan (sp_pools spec).

Definition isModeSafe (mode : Z) : bool := Z.land mode 7 =? 0.

(** ** Routes *)

(** Non-empty components. *)
Fixpoint splitPathLoop (buf s : bytes) : list bytes :=
  match s with
  | [] => if is_empty buf then [] else [buf]
  | c :: t =>
      if Ascii.eqb c "/" then (if is_empty buf then [] else [buf]) ++ splitPathLoop [] t
      else splitPathLoop (buf ++ [c]) t
  end.
Definition splitPath (p : bytes) : list bytes := splitPathLoop [] p.

Definition validContainerName (n : bytes) : bool :=
  negb (is_empty n || (64 <? size_z n)) && forallb nameByte n.

Definition unknownRoute : ParsedRoute := {| rt_action := Unknown; rt_container := [] |}.

Definition parseRoute (meth path : bytes) : ParsedRoute :=
  match splitPath path with
  | v :: c :: k :: rest =>
      if negb (beq v (str "v1") && beq c (str "control") && beq k (str "containers")) then unknownRoute
      else match rest with
      | [] => {| rt_action := if beq meth (str "GET") then ListContainers else Unknown; rt_container := [] |}
      | [name] =>
          if negb (validContainerName name) then unknownRoute
          else {| rt_action := if beq meth (str "GET") then GetContainer else Unknown; rt_container := name |}
      | [name; verb] =>
          if negb (validContainerName name) then unknownRoute
          else {| rt_action :=
                    if beq verb (str "stats") && beq meth (str "GET") then GetContainerStats
                    else if beq verb (str "resources") && beq meth (str "PATCH") then PatchResources
                    else if beq verb (str "start") && beq meth (str "POST") then PostStart
                    else if beq verb (str "stop") && beq meth (str "POST") then PostStop
                    else if beq verb (str "restart") && beq meth (str "POST") then PostRestart
                    else Unknown;
                  rt_container := name |}
      | _ => unknownRoute
      end
  | _ => unknownRoute
  end.

(** ** The decision *)

Definition actionIsMutating (a : Action) : bool :=
  match a with PatchResources | PostStart | PostStop | PostRestart => true | _ => false end.

Definition actionLabel (a : Action) : bytes :=
  match a with
  | ListContainers => str "list" | GetContainer => str "get" | GetContainerStats => str "stats"
  | PatchResources => str "patch" | PostStart => str "start" | PostStop => str "stop"
  | PostRestart => str "restart" | Unknown => str "unknown"
  end.

Definition poolVisibleOnSocket (pool : bytes) (pools : list bytes) : bool :=
  existsb (fun p => beq p (str "*") || beq p pool) pools.

Definition perContainer (a : Action) : bool :=
  match a with Unknown | ListContainers => false | _ => true end.

Definition action_eqb (a b : Action) : bool :=
  match a, b with
  | Unknown, Unknown | ListContainers, ListContainers | GetContainer, GetContainer
  | GetContainerStats, GetContainerStats | PatchResources, PatchResources | PostStart, PostStart
  | PostStop, PostStop | PostRestart, PostRestart => true
  | _, _ => false
  end.

Definition authorize (i : AuthorizeInput) : Decision :=
  if action_eqb (action i) Unknown then DenyUnknownAction
  else if (peerGid i <? 0) || negb (peerGid i =? socketExpectedGid i) then DenyGidMismatch
  else if actionIsMutating (action i) && negb (beq (socketRole i) (str "admin")) then DenyRoleMismatch
  else if perContainer (action i)
          && negb (poolVisibleOnSocket (Auth.inferPool (container i) (poolSeparator i)) (socketPools i))
  then DenyPoolMismatch
  else Allow.

Definition httpStatusFor (d : Decision) : Z :=
  match d with Allow => 200 | DenyUnknownAction => 404 | _ => 403 end.

(** ** JSON bodies *)

Definition trim (s : bytes) : bytes := rev (skipSpace (rev (skipSpace s))).

Definition unescape (e : ascii) : option ascii :=
  if Ascii.eqb e dquote then Some dquote
  else if Ascii.eqb e backslash then Some backslash
  else if Ascii.eqb e "/" then Some "/"%char
  else if Ascii.eqb e "n" then Some newline
  else if Ascii.eqb e "r" then Some cr
  else if Ascii.eqb e "t" then Some tab
  else None.

(** After the opening quote: the string, and what follows the closing one. *)
Fixpoint stringLoop (s val : bytes) : bytes + (bytes * bytes) :=
  match s with
  | [] => inl (str "unterminated string")
  | c :: t =>
      if Ascii.eqb c dquote then inr (val, t)
      else if Ascii.eqb c backslash then
        match t with
        | [] => inl (str "trailing backslash in string")
        | e :: t' =>
            match unescape e with
            | Some x => stringLoop t' (val ++ [x])
            | None => inl (str "unsupported escape '" ++ [backslash; e] ++ str "'")
            end
        end
      else stringLoop t (val ++ [c])
  end.

(** [total] is the size of the whole text, so that the cursor is
    [total - |s|]. *)
Definition readString (total : Z) (s : bytes) : bytes + (bytes * bytes) :=
  let s1 := skipSpace s in
  match s1 with
  | c :: t =>
      if Ascii.eqb c dquote then stringLoop t []
      else inl (str "expected '" ++ [dquote] ++ str "' at position " ++ dec (total - size_z s1))
  | [] => inl (str "expected '" ++ [dquote] ++ str "' at position " ++ dec (total - size_z s1))
  end.

(** Each round reads two strings, so as many rounds as there are bytes are
    enough; [None] stands for a loop that does not end. *)
Fixpoint pairLoop (fuel : nat) (total : Z) (s : bytes) (out : list (bytes * bytes))
  : option (bytes + list (bytes * bytes)) :=
  match fuel with
  | O => None
  | S f =>
      match readString total s with
      | inl e => Some (inl e)
      | inr (key, s1) =>
          match skipSpace s1 with
          | c :: s2 =>
              if negb (Ascii.eqb c ":") then Some (inl (str "expected ':' after key '" ++ key ++ str "'"))
              else match readString total s2 with
              | inl e => Some (inl e)
              | inr (val, s3) =>
                  let out' := out ++ [(key, val)] in
                  match skipSpace s3 with
                  | [] => Some (inr out')
                  | c :: s4 =>
                      if Ascii.eqb c "," then pairLoop f total s4 out'
                      else Some (inl (str "unexpected character '" ++ [c] ++ str "' after value"))
                  end
              end
          | [] => Some (inl (str "expected ':' after key '" ++ key ++ str "'"))
          end
      end
  end.

Definition parseFlatJsonObject (raw : bytes) : option (bytes + list (bytes * bytes)) :=
  let s := trim raw in
  if is_empty s then Some (inl (str "JSON body is empty"))
  else if negb (starts_with (str "{") s) || negb (backIs "}" s) then Some (inl (str "JSON body must be an object {...}"))
  else
    let s1 := trim (take (length s - 2) (drop 1 s)) in
    if is_empty s1 then Some (inl (str "JSON object is empty (no fields)"))
    else pairLoop (S (length s1)) (size_z s1) s1 [].

Definition noPatch : ResourcesPatch := {| pcpu := []; memoryuse := []; readbps := []; writebps := [] |}.

(** The keys, in order; the last value of a key counts. *)
Fixpoint patchKeys (kv : list (bytes * bytes)) (p : ResourcesPatch) : bytes + ResourcesPatch :=
  match kv with
  | [] => inr p
  | (k, v) :: rest =>
      if beq k (str "pcpu") then
        patchKeys rest {| pcpu := v; memoryuse := memoryuse p; readbps := readbps p; writebps := writebps p |}
      else if beq k (str "memoryuse") then
        patchKeys rest {| pcpu := pcpu p; memoryuse := v; readbps := readbps p; writebps := writebps p |}
      else if beq k (str "readbps") then
        patchKeys rest {| pcpu := pcpu p; memoryuse := memoryuse p; readbps := v; writebps := writebps p |}
      else if beq k (str "writebps") then
        patchKeys rest {| pcpu := pcpu p; memoryuse := memoryuse p; readbps := readbps p; writebps := v |}
      else inl (str "unsupported resource key '" ++ k ++ str "' (allowed: pcpu, memoryuse, readbps, writebps)")
  end.

Definition parseResourcesPatch (body : bytes) : option (bytes + ResourcesPatch) :=
  match parseFlatJsonObject body with
  | None => None
  | Some (inl e) => Some (inl e)
  | Some (inr kv) =>
      Some (match patchKeys kv noPatch with
            | inl e => inl e
            | inr p =>
                if is_empty (pcpu p) && is_empty (memoryuse p) && is_empty (readbps p) && is_empty (writebps p)
                then inl (str "no recognised keys in patch body") else inr p
            end)
  end.

Definition q (s : string) : bytes := [dquote] ++ str s ++ [dquote].

Definition renderErrorJson (msg : bytes) : bytes := str "{" ++ q "error" ++ str ":" ++ Json.quote msg ++ str "}".

Definition renderPatchOkJson (p : ResourcesPatch) : bytes :=
  let emit k v := if is_empty v then [] else [q k ++ str ":" ++ Json.quote v] in
  str "{" ++ q "applied" ++ str ":{"
  ++ joined (str ",") (emit "pcpu"%string (pcpu p) ++ emit "memoryuse"%string (memoryuse p)
                       ++ emit "readbps"%string (readbps p) ++ emit "writebps"%string (writebps p))
  ++ str "}}".

Section render.
Context `{StdSort}.

Definition renderContainer (c : ContainerSummary) : bytes :=
  str "{" ++ q "name" ++ str ":" ++ Json.quote (cs_name c) ++ str "," ++ q "pool" ++ str ":" ++ Json.quote (cs_pool c)
  ++ str "," ++ q "state" ++ str ":" ++ Json.quote (cs_state c) ++ str "," ++ q "jid" ++ str ":" ++ dec_signed (cs_jid c) ++ str "}".

Definition renderContainersJson (items : list ContainerSummary) : bytes :=
  str "{" ++ q "containers" ++ str ":["
  ++ joined (str ",") (map renderContainer (std_sort (fun a b => bytes_ltb (cs_name a) (cs_name b)) items)) ++ str "]}".

End render.

(** ** HTTP *)

Definition reasonForStatus (status : Z) : bytes :=
  if status =? 200 then str "OK" else if status =? 400 then str "Bad Request"
  else if status =? 403 then str "Forbidden" else if status =? 404 then str "Not Found"
  else if status =? 405 then str "Method Not Allowed" else if status =? 411 then str "Length Required"
  else if status =? 413 then str "Payload Too Large" else if status =? 429 then str "Too Many Requests"
  else if status =? 500 then str "Internal Server Error" else if status =? 501 then str "Not Implemented"
  else str "Unknown".

Definition toLower (s : bytes) : bytes := map tolower s.

Definition methodLooksValid (m : bytes) : bool :=
  negb (is_empty m || (16 <? size_z m)) && forallb (fun c => is_upper c || is_lower c) m.

Definition pathLooksValid (p : bytes) : bool :=
  negb (is_empty p || (1024 <? size_z p)) && starts_with (str "/") p
  && forallb (fun c => (0x21 <=? code c) && (code c <=? 0x7e)) p.

Definition crlf : bytes := [cr; newline].

(** The digits of Content-Length; the cap is checked after each. *)
Fixpoint lengthLoop (n : Z) (s : bytes) : bytes + Z :=
  match s with
  | [] => inr n
  | c :: t =>
      if negb (is_digit c) then inl (str "Content-Length not numeric")
      else let n' := n * 10 + digit_val c in
           if 65536 <? n' then inl (str "Content-Length over 64KB cap") else lengthLoop n' t
  end.

Fixpoint skipBlanks (s : bytes) : bytes :=
  match s with c :: t => if Ascii.eqb c " " || Ascii.eqb c tab then skipBlanks t else s | [] => [] end.

(** One header line: the Content-Length after it. *)
Definition onHeader (len : Z) (line : bytes) : bytes + Z :=
  match find_char ":" line with
  | None => inl (str "header missing ':'")
  | Some colon =>
      let name := toLower (take colon line) in
      let value := skipBlanks (drop (S colon) line) in
      if beq name (str "content-length") then
        if is_empty value then inl (str "Content-Length empty") else lengthLoop 0 value
      else inr len
  end.

(** Each round passes one line end, so as many rounds as bytes are enough. *)
Fixpoint headerLoop (fuel : nat) (s : bytes) (len : Z) : bytes + Z :=
  match fuel with
  | O => inl (str "header block truncated")
  | S f =>
      if is_empty s then inl (str "header block truncated")
      else match find_sub crlf s with
      | None => inl (str "header block not terminated by CRLF")
      | Some O => inr len
      | Some e =>
          if (4096 <? e)%nat then inl (str "header line too long")
          else match onHeader len (take e s) with
          | inl m => inl m
          | inr len' => headerLoop f (drop (e + 2) s) len'
          end
      end
  end.

(** [inl]: [bad], with the error. *)
Definition parseHttpHead (head : bytes) : bytes + ParsedHttp :=
  match find_sub crlf head with
  | None => inl (str "no CRLF after request line")
  | Some eol =>
      let requestLine := take eol head in
      if 1024 + 32 <? size_z requestLine then inl (str "request line too long")
      else match find_char " " requestLine with
      | None => inl (str "request line missing SP after method")
      | Some sp1 =>
          let rest := drop (S sp1) requestLine in
          match find_char " " rest with
          | None => inl (str "request line missing SP after path")
          | Some sp2 =>
              let meth := take sp1 requestLine in
              let path := take sp2 rest in
              let version := drop (S sp2) rest in
              if negb (methodLooksValid meth) then inl (str "invalid HTTP method")
              else if negb (pathLooksValid path) then inl (str "invalid HTTP path")
              else if negb (beq version (str "HTTP/1.0")) && negb (beq version (str "HTTP/1.1")) then
                inl (str "unsupported HTTP version (need 1.0 or 1.1)")
              else match headerLoop (S (length head)) (drop (eol + 2) head) 0 with
              | inl e => inl e
              | inr len => inr {| method := meth; hpath := path; contentLength := len |}
              end
          end
      end
  end.

Definition buildHttpResponse (status : Z) (body : bytes) : bytes :=
  str "HTTP/1.1 " ++ dec status ++ str " " ++ reasonForStatus status ++ crlf
  ++ str "Content-Type: application/json" ++ crlf
  ++ str "Content-Length: " ++ dec (size_z body) ++ crlf
  ++ str "Connection: close" ++ crlf ++ crlf ++ body.

(** ** The parser of bodies ends *)

Lemma skipSpace_length s : (length (skipSpace s) <= length s)%nat.
Proof. induction s as [|c s IH]; cbn [skipSpace]; [done|]. destruct (is_space c); cbn [length]; lia. Qed.

Lemma stringLoop_shrinks n s val v r : (length s <= n)%nat -> stringLoop s val = inr (v, r) -> (length r < length s)%nat.
Proof.
  revert s val. induction n as [|n IH]; intros [|c s] val Hn; cbn [stringLoop length] in *; try done; try lia.
  destruct (Ascii.eqb c dquote); [intros [= _ <-]; lia|]. destruct (Ascii.eqb c backslash).
  - destruct s as [|e s]; [done|]. destruct (unescape e); [|done]. cbn [length] in *. intros H%IH; lia.
  - intros H%IH; lia.
Qed.

Lemma readString_shrinks total s v r : readString total s = inr (v, r) -> (length r < length s)%nat.
Proof.
  unfold readString. pose proof (skipSpace_length s). destruct (skipSpace s) as [|c t]; [done|].
  destruct (Ascii.eqb c dquote); [|done]. intros E. apply (stringLoop_shrinks (length t)) in E; [|done].
  cbn [length] in *. lia.
Qed.

Lemma pairLoop_total fuel total s out : (length s < fuel)%nat -> exists r, pairLoop fuel total s out = Some r.
Proof.
  revert s out. induction fuel as [|f IH]; intros s out Hf; [lia|]. cbn [pairLoop].
  destruct (readString total s) as [|[k s1]] eqn:E1; [eauto|]. apply readString_shrinks in E1.
  pose proof (skipSpace_length s1). destruct (skipSpace s1) as [|c s2]; [eauto|]. destruct (negb _); [eauto|].
  destruct (readString total s2) as [|[v s3]] eqn:E2; [eauto|]. apply readString_shrinks in E2.
  pose proof (skipSpace_length s3). destruct (skipSpace s3) as [|d s4]; [eauto|]. destruct (Ascii.eqb d ","); [|eauto].
  apply IH. cbn [length] in *. lia.
Qed.

Lemma parseResourcesPatch_total body : exists r, parseResourcesPatch body = Some r.
Proof.
  unfold parseResourcesPatch, parseFlatJsonObject. destruct (is_empty (trim body)); [eauto|]. destruct (_ || _); [eauto|].
  set (s := trim (take _ _)). destruct (is_empty s); [eauto|].
  destruct (pairLoop_total (S (length s)) (size_z s) s []) as [[|] ->]; [lia|eauto..].
Qed.

(** ** The decision *)

Lemma authorize_Allow i : authorize i = Allow ->
  action i <> Unknown /\ 0 <= peerGid i /\ peerGid i = socketExpectedGid i
  /\ (actionIsMutating (action i) = true -> socketRole i = str "admin")
  /\ (perContainer (action i) = true ->
      poolVisibleOnSocket (Auth.inferPool (container i) (poolSeparator i)) (socketPools i) = true).
Proof.
  unfold authorize. destruct (action_eqb (action i) Unknown) eqn:Ea; [done|].
  destruct ((peerGid i <? 0) || _) eqn:Eg; [done|]. apply orb_false_iff in Eg as [G1 G2]. apply negb_false_iff in G2.
  destruct (_ && negb (beq _ _)) eqn:Er; [done|]. destruct (_ && negb (poolVisibleOnSocket _ _)) eqn:Ep; [done|]. intros _.
  split; [intros E; by rewrite E in Ea|]. split; [lia|]. split; [by apply Z.eqb_eq|]. split.
  - intros M. rewrite M in Er. apply negb_false_iff in Er. by apply beq_eq.
  - intros M. rewrite M in Ep. by apply negb_false_iff in Ep.
Qed.

(** With a validated configuration, names without a pool are visible on
    sockets for all pools only. *)
Lemma validPools pools : poolsScan pools = [] -> ~ In [] pools.
Proof.
  induction pools as [|p pools IH]; cbn [poolsScan]; [tauto|]. destruct (beq_spec p (str "*")) as [->|].
  - intros H [E|E]; [discriminate E|by apply IH].
  - destruct (is_empty p || _) eqn:E; [done|]. destruct (negb _); [done|]. intros H [->|Hin]; [done|by apply IH].
Qed.

Lemma no_pool_visible pools : ~ In [] pools -> poolVisibleOnSocket [] pools = true ->
  forall pool, poolVisibleOnSocket pool pools = true.
Proof.
  intros Hne H pool. unfold poolVisibleOnSocket in *. apply existsb_exists in H as (p & Hp & E).
  apply existsb_exists. exists p. split; [done|]. apply orb_prop in E as [->|E%beq_eq]; [done|]. by subst.
Qed.

Lemma spec_pools spec : validateSocketSpec spec = [] -> ~ In [] (sp_pools spec).
Proof. unfold validateSocketSpec. intros H. ok_split H. apply validPools. intuition. Qed.

End ControlSocketPure.
