(* ===== verification/RoutesPure.v ===== *)
(** * Helpers of the REST API: lib/jail_query.cpp, daemon/routes_pure.cpp, transfer_pure.cpp *)

From S2P Require Import Prelude CStd PerUser RunPure Auth Wire.

(** ** Running jails by name: lib/jail_query.cpp

    The kernel's answers are the parameter [Jails]; [findContainer] is the
    search by kernel name, jid or container name that both API planes use.  How
    a pool, the part of a name before the separator, survives the pid suffix and
    the search is proved here once for both. *)


Module JailQuery.

Record JailInfo :=
  { ji_jid : Z; ji_name : bytes; ji_path : bytes; ji_hostname : bytes; ji_ip4 : bytes; ji_dying : bool }.

(** The kernel's answers during one lookup. *)
Record Jails :=
  { getJailByName : bytes -> option JailInfo; getJailByJid : Z -> option JailInfo; jailList : list JailInfo }.

Definition getAllJails (k : Jails) (crateOnly : bool) : list JailInfo :=
  if crateOnly then List.filter (fun j => RuntimePaths.isCrateJailPath (ji_path j)) (jailList k) else jailList k.

Definition containerOf (j : JailInfo) : bytes := RunPure.containerNameOfJail (ji_name j) (ji_path j).

(** The jail, and [*matches]. *)
Definition findContainer (k : Jails) (target : bytes) : option JailInfo * Z :=
  if is_empty target then (None, 0)
  else match getJailByName k target with
  | Some j => (Some j, 1)
  | None =>
      match (if (size_z target <=? 9) && forallb is_digit target then getJailByJid k (dec_value target) else None) with
      | Some j => (Some j, 1)
      | None =>
          let l := List.filter (fun j => negb (ji_dying j || beq (ji_name j) target) && beq (containerOf j) target)
                     (getAllJails k true) in
          (match l with [j] => Some j | _ => None end, size_z l)
      end
  end.

(** ** Pools of names *)

(** The separators that occur in no pid suffix and no jid. *)
Definition sepOk (sep : ascii) : Prop := ~ In sep (str "_pid0123456789").

Lemma inferPool_none n sep : ~ In sep n -> Auth.inferPool n sep = [].
Proof. intros H%find_char_None. unfold Auth.inferPool. by rewrite H. Qed.

Lemma find_char_prefix c a b : In c a -> find_char c (a ++ b) = find_char c a.
Proof.
  induction a as [|x a IH]; [done|]. intros Hin. cbn [app find_char]. destruct (Ascii.eqb_spec x c) as [|Hne]; [done|].
  rewrite IH; [done|]. by destruct Hin.
Qed.

Lemma inferPool_prefix c t sep : In sep c -> Auth.inferPool (c ++ t) sep = Auth.inferPool c sep.
Proof.
  intros H. unfold Auth.inferPool. rewrite find_char_prefix by done.
  destruct (find_char sep c) as [[|i]|] eqn:E; [done| |done]. apply find_char_Some in E as (a & b & -> & Hl & _).
  rewrite take_app_le; [done|]. rewrite length_app. cbn [length]. lia.
Qed.

(** jail_get(2) by name returns the jail of that name. *)
Definition kernelNames (k : Jails) : Prop := forall n j, getJailByName k n = Some j -> ji_name j = n.

(** What the search may return: the jail of that name, one found by its jid, or
    one that runs the container of that name. *)
Lemma findContainer_cases k t j m : kernelNames k -> findContainer k t = (Some j, m) ->
  ji_name j = t \/ forallb is_digit t = true \/ containerOf j = t.
Proof.
  intros Hk. unfold findContainer. destruct (is_empty t); [done|].
  destruct (getJailByName k t) as [j'|] eqn:En; [intros [= -> _]; left; by apply (Hk _ _ En)|].
  destruct (if (size_z t <=? 9) && forallb is_digit t then _ else _) as [j'|] eqn:Ej.
  - intros [= -> _]. destruct ((size_z t <=? 9) && forallb is_digit t) eqn:D; [|done]. apply andb_prop in D as [_ D]. tauto.
  - destruct (List.filter _ _) as [|j0 [|]] eqn:F; [done| |done]. intros [= -> _]. right. right.
    assert (Hin : In j (List.filter (fun j => negb (ji_dying j || beq (ji_name j) t) && beq (containerOf j) t) (getAllJails k true)))
      by (rewrite F; by left).
    apply filter_In in Hin as [_ E]. by apply andb_prop in E as [_ E%beq_eq].
Qed.

(** A jid has no pool. *)
Lemma digits_no_pool sep t : sepOk sep -> forallb is_digit t = true -> Auth.inferPool t sep = [].
Proof.
  intros Hs D. apply inferPool_none. intros Hin. apply Hs. rewrite forallb_forall in D.
  specialize (D _ Hin). clear - D. apply one_of_In. revert D. generalize sep. by_bytes.
Qed.

(** A jail's kernel name and its container's are of one pool. *)
Lemma container_pool sep t : sepOk sep -> Auth.inferPool (RunPure.containerNameOf t) sep = Auth.inferPool t sep.
Proof.
  intros Hsep. destruct (RunPure.containerNameOf_cases t) as [->|(ds & Hd & E)]; [done|].
  set (c := RunPure.containerNameOf t) in *. destruct (in_dec Ascii.ascii_dec sep c) as [Hin|Hnot].
  - by rewrite E, inferPool_prefix.
  - rewrite !inferPool_none; [done| |done]. rewrite E, !in_app_iff. intros [H|[H|H]]; [done|..]; apply Hsep.
    + change (str "_pid0123456789") with (str "_pid" ++ str "0123456789"). apply in_app_iff. by left.
    + rewrite forallb_forall in Hd. specialize (Hd _ H). clear - Hd. apply one_of_In. revert Hd. generalize sep. by_bytes.
Qed.

(** ** Example hosts *)

Definition hostJails (js : list JailInfo) : Jails :=
  {| getJailByName := fun n => List.find (fun j => beq (ji_name j) n) js;
     getJailByJid := fun i => List.find (fun j => ji_jid j =? i) js; jailList := js |}.

Lemma hostJails_names js : kernelNames (hostJails js).
Proof. intros n j [_ E]%find_some. by apply beq_eq. Qed.

End JailQuery.

(** ** Helpers of the REST routes: daemon/routes_pure.cpp, daemon/transfer_pure.cpp

    Server-sent events, snapshot names, the one-field JSON reader, and the
    names, replies and magic bytes of exported and imported archives. *)


Module RoutesPure.

(** ** routes_pure.cpp *)

(** The loop of [looksLikeNumber] from the position after the sign. *)
Fixpoint numberLoop (sawDigit sawDot : bool) (s : bytes) : bool :=
  match s with
  | [] => sawDigit
  | c :: t =>
      if is_digit c then numberLoop true sawDot t
      else if Ascii.eqb c "." && negb sawDot then numberLoop sawDigit true t
      else false
  end.

Definition looksLikeNumber (s : bytes) : bool :=
  match s with
  | [] => false
  | c :: t => numberLoop false false (if Ascii.eqb c "-" then t else s)
  end.

Record StatsInput := { si_name : bytes; si_jid : Z; si_ip : bytes; si_usage : list (bytes * bytes) }.

Definition quoted (s : bytes) : bytes := [dquote] ++ s ++ [dquote].

Definition usageField (kv : bytes * bytes) : bytes :=
  str "," ++ Json.quote (fst kv) ++ str ":" ++ (if looksLikeNumber (snd kv) then snd kv else Json.quote (snd kv)).

Definition formatStatsSseEvent (i : StatsInput) (unixEpoch : Z) : bytes :=
  str "data: {" ++ quoted (str "ts") ++ str ":" ++ dec_signed unixEpoch
  ++ str "," ++ quoted (str "name") ++ str ":" ++ Json.quote (si_name i)
  ++ str "," ++ quoted (str "jid") ++ str ":" ++ dec_signed (si_jid i)
  ++ str "," ++ quoted (str "ip") ++ str ":" ++ Json.quote (si_ip i)
  ++ concat (map usageField (si_usage i)) ++ str "}" ++ [newline; newline].

(** The characters of snapshot and artifact names. *)
Definition fileByte (c : ascii) : bool := is_alnum c || one_of (str "._-") c.

Definition validateSnapshotName (name : bytes) : bytes :=
  reject (is_empty name) with str "snapshot name is empty";
  reject (64 <? size_z name) with str "snapshot name is longer than 64 chars";
  reject (beq name (str ".") || beq name (str "..")) with str "snapshot name is reserved";
  check_chars fileByte (str "snapshot name") name.

Fixpoint skipJsonWs (s : bytes) : bytes :=
  match s with c :: t => if Json.jsonWs c then skipJsonWs t else s | [] => [] end.

(** The text after the opening quote; the empty string when it is not closed. *)
Fixpoint fieldLoop (out s : bytes) : bytes :=
  match s with
  | [] => []
  | c :: t =>
      if Ascii.eqb c dquote then out
      else if Ascii.eqb c Json.backslash then
        match t with
        | e :: t' => fieldLoop (out ++ [Json.unescape e]) t'
        | [] => []
        end
      else fieldLoop (out ++ [c]) t
  end.

Definition extractStringField (body fieldName : bytes) : bytes :=
  let needle := quoted fieldName in
  match find_sub needle body with
  | None => []
  | Some k =>
      match skipJsonWs (drop (k + length needle) body) with
      | c :: t =>
          if negb (Ascii.eqb c ":") then []
          else match skipJsonWs t with
          | d :: t' => if negb (Ascii.eqb d dquote) then [] else fieldLoop [] t'
          | [] => []
          end
      | [] => []
      end
  end.

(** ** transfer_pure.cpp *)

Definition kArtifactFile : Z := 255.

Fixpoint artifactScan (s : bytes) : bytes :=
  match s with
  | [] => []
  | c :: t =>
      if fileByte c then artifactScan t
      else if Ascii.eqb c " " then str "invalid space character in artifact name"
      else if Ascii.eqb c "/" then str "invalid '/' in artifact name (no path traversal)"
      else str "invalid character '" ++ [c] ++ str "' in artifact name"
  end.

Definition validateArtifactName (name : bytes) : bytes :=
  reject (is_empty name) with str "artifact name is empty";
  reject (kArtifactFile <? size_z name) with str "artifact name is longer than " ++ dec kArtifactFile ++ str " chars";
  reject (beq name (str ".") || beq name (str "..")) with str "artifact name is reserved";
  artifactScan name.

Definition kSuffix : bytes := str ".crate".

(** The backward scan over the digits is the scan over the reversed stem. *)
Definition artifactContainerName (filename : bytes) : bytes :=
  if size_z filename <=? size_z kSuffix then []
  else if negb (CStd.ends_with kSuffix filename) then []
  else
    let stem := take (length filename - length kSuffix) filename in
    match CStd.span is_digit (rev stem) with
    | ([], _) => []
    | (_, c :: before) => if Ascii.eqb c "-" then rev before else []
    | (_, []) => []
    end.

Definition formatExportResponse (file : bytes) (sizeBytes : Z) (sha256Hex : bytes) : bytes :=
  str "{" ++ quoted (str "file") ++ str ":" ++ quoted file ++ str "," ++ quoted (str "size") ++ str ":" ++ dec sizeBytes
  ++ str "," ++ quoted (str "sha256") ++ str ":" ++ quoted sha256Hex ++ str "}".

Definition formatImportResponse : bytes -> Z -> bytes -> bytes := formatExportResponse.

Inductive Archive := Xz | Encrypted | UnknownArchive.

Definition sniffArchiveType (leading : bytes) : Archive :=
  if starts_with (map chr [0xFD; 0x37; 0x7A; 0x58; 0x5A; 0x00]) leading then Xz
  else if starts_with (str "Salted__") leading then Encrypted
  else UnknownArchive.

Definition hexEncode (raw : bytes) : bytes :=
  concat (map (fun c => [Json.hexDigit (Z.land (Z.shiftr (code c) 4) 0xf); Json.hexDigit (Z.land (code c) 0xf)]) raw).

(** ** Facts *)

Lemma artifactScan_nil s : artifactScan s = [] -> Forall (fun c => fileByte c = true) s.
Proof.
  induction s as [|c s IH]; cbn [artifactScan]; [constructor|]. destruct (fileByte c) eqn:E; [intros H; constructor; eauto|].
  destruct (Ascii.eqb c " "); [done|]. by destruct (Ascii.eqb c "/").
Qed.

Lemma fileByte_no_slash c : fileByte c = true -> c <> "/"%char.
Proof. by intros H ->. Qed.

(** A validated artifact name is one path component, and neither dot name. *)
Lemma artifact_one_component name : validateArtifactName name = [] ->
  name <> [] /\ ~ In "/"%char name /\ name <> str "." /\ name <> str "..".
Proof.
  unfold validateArtifactName. destruct (is_empty name) eqn:He; [done|]. apply is_empty_false in He.
  destruct (kArtifactFile <? size_z name); [done|]. destruct (beq name _ || _) eqn:Hr; [done|]. intros Hs%artifactScan_nil.
  apply orb_false_iff in Hr as [H1%beq_neq H2%beq_neq]. split; [done|]. split; [|done].
  intros Hin. rewrite Forall_forall in Hs. by apply (fileByte_no_slash "/"); [apply Hs, list_elem_of_In|].
Qed.

(** The name of an export gives back the jail it came from. *)
Lemma artifact_container_roundtrip name t : name <> [] ->
  artifactContainerName (name ++ str "-" ++ dec t ++ kSuffix) = name.
Proof.
  intros Hn. set (stem := name ++ str "-" ++ dec t).
  replace (name ++ str "-" ++ dec t ++ kSuffix) with (stem ++ kSuffix) by (unfold stem; by rewrite <- !app_assoc).
  assert (0 < size_z stem) as Hl.
  { unfold stem. rewrite size_z_app. destruct name; [done|]. rewrite size_z_cons. pose proof (size_z_nonneg name).
    pose proof (size_z_nonneg (str "-" ++ dec t)). lia. }
  unfold artifactContainerName. rewrite size_z_app. destruct (Z.leb_spec (size_z stem + size_z kSuffix) (size_z kSuffix)); [lia|].
  assert (CStd.ends_with kSuffix (stem ++ kSuffix) = true) as -> by (apply CStd.ends_with_spec; eauto). cbn [negb].
  rewrite length_app, Nat.add_sub, take_app_length. unfold stem. rewrite !rev_app_distr, <- app_assoc. cbn [rev app str list_ascii_of_string].
  rewrite CStd.span_stop; [|apply forallb_forall; intros c Hc%in_rev; pose proof (dec_digits t) as D; unfold all_digits in D; rewrite forallb_forall in D; by apply D|done].
  destruct (rev (dec t)) eqn:E.
  - apply (f_equal (@rev ascii)) in E. rewrite rev_involutive in E. by apply dec_nonempty in E.
  - cbn [Ascii.eqb Bool.eqb andb]. apply rev_involutive.
Qed.

(** Unlike the privops decoder, this one does not know [\u]. *)
Example field_reads : extractStringField (str "{" ++ quoted (str "name") ++ str " : " ++ quoted (str "nightly") ++ str "}") (str "name")
  = str "nightly".
Proof. reflexivity. Qed.

Example artifact_reads : artifactContainerName (str "dev-web_pid42-1700000000.crate") = str "dev-web_pid42".
Proof. reflexivity. Qed.

End RoutesPure.
