(* ===== verification/ControlSocket.v ===== *)
(** * A connection to a control socket: daemon/control_socket.cpp

    One connection is read, parsed, judged and dispatched, the handlers
    included.  What the daemon asks of the outside is [Env]: the kernel's jails
    as each lookup sees them (they may change in between), the spec registry's
    file, stat(2), stop, fork and rctl(8).  What it changes is a list of
    [Effect]s, in order. *)

From S2P Require Import Prelude CStd OMap RoutesPure LineFile SpecRegistry RunPure Wire Auth RateLimit ControlSocketPure.

Module ControlSocket.
Import CStd JailQuery ControlSocketPure.

(** ** The outside *)

Record Env := {
  gateJails : Jails;                  (** as the second gate sees them *)
  jails : Jails;                      (** as the handler sees them *)
  registry : bytes + LineFile.File;   (** the spec registry, or why it cannot be read *)
  exists_ : bytes -> bool;            (** stat(2) *)
  stopCrate : bytes -> bytes + bool;  (** an exception's text, or the result *)
  fork : bytes + Z;                   (** strerror, or the child's pid *)
  rctl : bytes -> bytes + unit;       (** adding a rule *)
  rctlUsage : Z -> bytes + bytes;     (** [rctl -u] of a jail *)
  wall : Z;                           (** the second *)
}.

Inductive Effect :=
| SetLimit (j : JailInfo) (rule : bytes)
| StopJail (j : JailInfo) (timeout : Z)
| StartContainer (name cratePath : bytes) (owner : Z).

Record Outcome := { status : Z; resBody : bytes; effects : list Effect }.

Definition reply (s : Z) (b : bytes) : Outcome := {| status := s; resBody := b; effects := [] |}.
Definition failure (s : Z) (msg : bytes) : Outcome := reply s (renderErrorJson msg).
Definition after (es : list Effect) (o : Outcome) : Outcome :=
  {| status := status o; resBody := resBody o; effects := es ++ effects o |}.

Section connection.
Context `{StdSort} (env : Env).

(** ** Handlers *)

Definition handleList (spec : ControlSocketSpec) (sep : ascii) : Outcome :=
  let visible j := poolVisibleOnSocket (Auth.inferPool (ji_name j) sep) (sp_pools spec) in
  reply 200 (renderContainersJson
    (map (fun j => {| cs_name := ji_name j; cs_pool := Auth.inferPool (ji_name j) sep;
                      cs_state := if ji_dying j then str "dying" else str "running"; cs_jid := ji_jid j |})
       (List.filter visible (getAllJails (jails env) true)))).

Definition findNamed (name : bytes) : Outcome + JailInfo :=
  match findContainer (jails env) name with
  | (Some j, _) => inr j
  | (None, matches) =>
      inl (if 1 <? matches then
             failure 409 (str "more than one running jail is named '" ++ name ++ str "'; use its jail name or jid")
           else failure 404 (str "container not found"))
  end.

Definition withJail (name : bytes) (k : JailInfo -> Outcome) : Outcome :=
  match findNamed name with inl o => o | inr j => k j end.

Definition plain (s : bytes) : bytes := [dquote] ++ s ++ [dquote].

Definition handleGet (name : bytes) : Outcome :=
  withJail name (fun j =>
    reply 200 (str "{" ++ q "name" ++ str ":" ++ plain (ji_name j) ++ str "," ++ q "jid" ++ str ":" ++ dec_signed (ji_jid j)
      ++ str "," ++ q "path" ++ str ":" ++ plain (ji_path j) ++ str "," ++ q "hostname" ++ str ":" ++ plain (ji_hostname j)
      ++ str "," ++ q "ip4" ++ str ":" ++ plain (ji_ip4 j) ++ str "," ++ q "dying" ++ str ":"
      ++ (if ji_dying j then str "true" else str "false") ++ str "}")).

(** [k=v] lines into the [std::map]. *)
Definition usageLine (m : list (bytes * bytes)) (line : bytes) : list (bytes * bytes) :=
  match find_char "=" line with
  | Some eq => OMap.insert (take eq line) (drop (S eq) line) m
  | None => m
  end.

Definition handleStats (name : bytes) : Outcome :=
  withJail name (fun j =>
    let usage := match rctlUsage env (ji_jid j) with
                 | inr raw => fold_left usageLine (getlines raw) []
                 | inl _ => []
                 end in
    reply 200 (str "{" ++ q "jid" ++ str ":" ++ dec_signed (ji_jid j) ++ str "," ++ q "usage" ++ str ":{"
      ++ joined (str ",") (map (fun kv => plain (fst kv) ++ str ":" ++ plain (snd kv)) usage) ++ str "}}")).

Definition owner (peerUid : Z) : Z := if 0 <? peerUid then u32 peerUid else 0.

(** [SpecRegistry::lookup] *)
Definition lookupSpec (name : bytes) : bytes + bytes :=
  match registry env with inl e => inl e | inr f => SpecRegistry.lookup name f end.

Definition starting (what name cratePath : bytes) : bytes :=
  str "{" ++ q "status" ++ str ":" ++ plain what ++ str "," ++ q "container" ++ str ":" ++ plain name
  ++ str "," ++ q "crate_path" ++ str ":" ++ plain cratePath ++ str "}".

Definition handleStart (name : bytes) (peerUid : Z) : Outcome :=
  let '(running, matches) := findContainer (jails env) name in
  if (match running with Some _ => true | None => false end) || (0 <? matches) then
    failure 409 (str "container is already running")
  else
    let containerName := RunPure.containerNameOf name in
    match lookupSpec containerName with
    | inl e => failure 500 (str "spec-registry read failed: " ++ e)
    | inr cratePath =>
        if is_empty cratePath then
          failure 404 (str "no spec registered for '" ++ containerName
            ++ str "' — start it once via `crate run -f <file>` so the registry can record the path")
        else if negb (exists_ env cratePath) then
          failure 410 (str "registered .crate path no longer exists: " ++ cratePath)
        else match fork env with
        | inl e => failure 500 (str "fork failed: " ++ e)
        | inr _ => after [StartContainer containerName cratePath (owner peerUid)]
                     (reply 202 (starting (str "starting") name cratePath))
        end
    end.

Definition handleStop (name : bytes) : Outcome :=
  withJail name (fun j =>
    after [StopJail j 10]
      (match stopCrate env (ji_name j) with
       | inr true => reply 200 (str "{" ++ q "status" ++ str ":" ++ q "stopped" ++ str "," ++ q "container" ++ str ":"
                                ++ plain name ++ str "}")
       | inr false => failure 500 (str "stop returned failure")
       | inl e => failure 500 (str "stop failed: " ++ e)
       end)).

Definition handleRestart (name : bytes) (peerUid : Z) : Outcome :=
  withJail name (fun j =>
    let containerName := containerOf j in
    match lookupSpec containerName with
    | inl e => failure 500 (str "spec-registry read failed: " ++ e)
    | inr cratePath =>
        if is_empty cratePath then failure 404 (str "no spec registered for '" ++ containerName ++ str "' — cannot restart")
        else if negb (exists_ env cratePath) then
          failure 410 (str "registered .crate path no longer exists: " ++ cratePath)
        else
          after [StopJail j 10]
            (match stopCrate env (ji_name j) with
             | inl e => failure 500 (str "stop phase failed: " ++ e)
             | inr false => failure 500 (str "stop phase returned failure")
             | inr true =>
                 match fork env with
                 | inl e => failure 500 (str "stopped, but fork for restart failed: " ++ e)
                 | inr _ => after [StartContainer containerName cratePath (owner peerUid)]
                              (reply 202 (starting (str "restarting") containerName cratePath))
                 end
             end)
    end).

(** [applyOne] for each key; the first failure throws. *)
Fixpoint applyLimits (j : JailInfo) (kvs : list (string * bytes)) (done_ : Outcome) : Outcome :=
  match kvs with
  | [] => done_
  | (k, v) :: rest =>
      if is_empty v then applyLimits j rest done_
      else
        let rule := str "jail:" ++ ji_name j ++ str ":" ++ str k ++ str ":deny=" ++ v in
        after [SetLimit j rule]
          (match rctl env rule with
           | inl e => failure 500 (str "rctl(8) failed: " ++ e)
           | inr _ => applyLimits j rest done_
           end)
  end.

(** [None]: the body's parser did not end (it always does). *)
Definition handlePatch (name body : bytes) : option Outcome :=
  match findNamed name with
  | inl o => Some o
  | inr j =>
      match parseResourcesPatch body with
      | None => None
      | Some (inl e) => Some (failure 400 e)
      | Some (inr p) =>
          Some (applyLimits j [("pcpu", pcpu p); ("memoryuse", memoryuse p); ("readbps", readbps p);
                               ("writebps", writebps p)]%string
                  (reply 200 (renderPatchOkJson p)))
      end
  end.

(** ** Reading the request *)

Definition kMaxHeader : Z := 8 * 1024.
Definition needle : bytes := crlf ++ crlf.

(** read(2): at most [n] bytes of what arrived first; nothing at the end of the
    stream, on an error or after the timeout. *)
Definition read (n : nat) (segs : list bytes) : bytes * list bytes :=
  match segs with
  | [] => ([], [])
  | s :: rest => (take n s, if is_empty (drop n s) then rest else drop n s :: rest)
  end.

(** Every round adds a byte, so [kMaxHeader + 1] rounds are enough; [None] is
    [bad]. *)
Fixpoint readUntilNeedle (fuel : nat) (buf : bytes) (segs : list bytes) : option (bytes * list bytes) :=
  match fuel with
  | O => None
  | S f =>
      if has_sub needle buf then Some (buf, segs)
      else if kMaxHeader <=? size_z buf then None
      else let '(chunk, segs') := read 1024 segs in
           if is_empty chunk then None else readUntilNeedle f (buf ++ chunk) segs'
  end.

(** [want] more bytes; every round reads at least one. *)
Fixpoint readExact (fuel want : nat) (buf : bytes) (segs : list bytes) : option (bytes * list bytes) :=
  match fuel with
  | O => None
  | S f =>
      if (want <=? length buf)%nat then Some (buf, segs)
      else let '(chunk, segs') := read (Nat.min (want - length buf) 1024) segs in
           if is_empty chunk then None else readExact f want (buf ++ chunk) segs'
  end.

(** The head and the body, or the text of the 400. *)
Definition readRequest (segs : list bytes) : bytes + (ParsedHttp * bytes) :=
  match readUntilNeedle (S (Z.to_nat kMaxHeader)) [] segs with
  | None => inl (str "malformed or oversized request head")
  | Some (headBlob, segs1) =>
      let endOfHead := (default 0 (find_sub needle headBlob) + 4)%nat in
      let head := take endOfHead headBlob in
      let carried := drop endOfHead headBlob in
      match parseHttpHead head with
      | inl e => inl (str "HTTP parse: " ++ e)
      | inr parsed =>
          let len := Z.to_nat (contentLength parsed) in
          if (length carried <? len)%nat then
            match readExact (S len) (len - length carried) [] segs1 with
            | None => inl (str "body shorter than Content-Length")
            | Some (more, _) => inr (parsed, carried ++ more)
            end
          else inr (parsed, take len carried)
      end
  end.

(** ** The connection *)

Definition denied (d : Decision) : bytes :=
  match d with
  | DenyGidMismatch => str "peer credentials do not match the socket's expected group"
  | DenyPoolMismatch => str "container is outside the pools served by this socket"
  | DenyRoleMismatch => str "this socket has the 'viewer' role; PATCH requires 'admin'"
  | DenyUnknownAction => str "unknown route"
  | Allow => str "denied"
  end.

Definition kRead : Z := 100.
Definition kMutating : Z := 10.

Definition rateKey (uid gid : Z) (a : Action) : bytes :=
  str "uid:" ++ dec_signed uid ++ str "|gid:" ++ dec_signed gid ++ str "|" ++ actionLabel a.

Definition dispatch (route : ParsedRoute) (spec : ControlSocketSpec) (sep : ascii) (peerUid : Z) (body : bytes)
  : option Outcome :=
  let name := rt_container route in
  match rt_action route with
  | ListContainers => Some (handleList spec sep)
  | GetContainer => Some (handleGet name)
  | GetContainerStats => Some (handleStats name)
  | PatchResources => handlePatch name body
  | PostStop => Some (handleStop name)
  | PostRestart => Some (handleRestart name peerUid)
  | PostStart => Some (handleStart name peerUid)
  | Unknown => Some (reply 500 [])
  end.

(** The second gate: the jail a name resolves to must be visible under its own
    name too. *)
Definition gatePasses (route : ParsedRoute) (spec : ControlSocketSpec) (sep : ascii) : bool :=
  if action_eqb (rt_action route) ListContainers || action_eqb (rt_action route) PostStart then true
  else match fst (findContainer (gateJails env) (rt_container route)) with
  | Some j =>
      beq (ji_name j) (rt_container route) || poolVisibleOnSocket (Auth.inferPool (ji_name j) sep) (sp_pools spec)
  | None => true
  end.

(** [peer]: what getpeereid(2) said. *)
Definition handleConnection (spec : ControlSocketSpec) (expectedGid : Z) (sep : ascii) (peer : option (Z * Z))
  (segs : list bytes) (buckets : gmap bytes RateLimit.Bucket) : option (Outcome * gmap bytes RateLimit.Bucket) :=
  let '(uid, gid) := default (-1, -1) peer in
  match readRequest segs with
  | inl e => Some (failure 400 e, buckets)
  | inr (parsed, body) =>
      let route := parseRoute (method parsed) (hpath parsed) in
      let d := authorize {| peerUid := uid; peerGid := gid; socketExpectedGid := expectedGid;
                            socketRole := sp_role spec; socketPools := sp_pools spec;
                            action := rt_action route; container := rt_container route; poolSeparator := sep |} in
      match d with
      | Allow =>
          let cap := if actionIsMutating (rt_action route) then kMutating else kRead in
          let '(ok, buckets') := RateLimit.check buckets (rateKey uid gid (rt_action route)) (wall env) cap in
          if negb ok then
            Some (failure 429 (str "rate limit exceeded; retry in " ++ dec RateLimit.retryAfterSeconds ++ str "s"), buckets')
          else if negb (gatePasses route spec sep) then
            Some (failure 403 (str "container is outside the pools served by this socket"), buckets')
          else (fun o => (o, buckets')) <$> dispatch route spec sep uid body
      | _ => Some (failure (httpStatusFor d) (denied d), buckets)
      end
  end.

(** What is written to the peer. *)
Definition response (o : Outcome) : bytes := buildHttpResponse (status o) (resBody o).

End connection.

(** ** What a connection may change *)

#[local] Set Default Proof Using "Type*".

Section safety.
Context (spec : ControlSocketSpec) (sep : ascii).
Hypothesis Hspec : validateSocketSpec spec = [].
Hypothesis Hsep : sepOk sep.

Definition visible (name : bytes) : Prop := poolVisibleOnSocket (Auth.inferPool name sep) (sp_pools spec) = true.

(** A jail the socket serves: by its kernel name, or by the name of the
    container it runs. *)
Definition served (j : JailInfo) : Prop := visible (ji_name j) \/ visible (containerOf j).

Lemma visible_container t : visible t -> visible (RunPure.containerNameOf t).
Proof. unfold visible. by rewrite container_pool. Qed.

Lemma findContainer_served k t j m : kernelNames k -> visible t -> findContainer k t = (Some j, m) -> served j.
Proof.
  intros Hk Hv [<-|[D| <-]]%findContainer_cases; [by left| |by right|done]. left. unfold visible in *.
  rewrite digits_no_pool in Hv by done. apply no_pool_visible; [by apply spec_pools|done].
Qed.

(** What one connection may do. *)
Definition effectOk (uid : Z) (es : list Effect) (e : Effect) : Prop :=
  match e with
  | SetLimit j _ | StopJail j _ => served j
  | StartContainer c _ o => o = owner uid /\ (visible c \/ exists j t, In (StopJail j t) es /\ c = containerOf j)
  end.

Definition effectsOk (uid : Z) (es : list Effect) : Prop := Forall (effectOk uid es) es.

Context `{StdSort} (env : Env).
Hypothesis Hkernel : kernelNames (jails env).

Lemma findNamed_served t (j : JailInfo) : visible t -> findNamed env t = inr j -> served j.
Proof.
  intros Hv. unfold findNamed. destruct (findContainer (jails env) t) as [[j'|] m] eqn:E; [|done].
  intros [= ->]. by apply (findContainer_served (jails env) t j m).
Qed.

Lemma findNamed_miss t o : findNamed env t = inl o -> effects o = [].
Proof.
  unfold findNamed. destruct (findContainer (jails env) t) as [[j'|] m]; [done|]. intros [= <-]. by destruct (1 <? m).
Qed.

Lemma effectsOk_nil uid : effectsOk uid [].
Proof. constructor. Qed.

Lemma withJail_ok uid t k : visible t -> (forall j, served j -> effectsOk uid (effects (k j))) ->
  effectsOk uid (effects (withJail env t k)).
Proof.
  intros Hv Hk. unfold withJail. destruct (findNamed env t) as [o|j] eqn:E.
  - rewrite (findNamed_miss t o E). apply effectsOk_nil.
  - apply Hk. by apply (findNamed_served t).
Qed.

Lemma start_ok uid t : visible t -> effectsOk uid (effects (handleStart env t uid)).
Proof.
  intros Hv. unfold handleStart. destruct (findContainer (jails env) t) as [r m]. destruct (_ || _); [apply effectsOk_nil|].
  destruct (lookupSpec env _) as [|p]; [apply effectsOk_nil|]. destruct (is_empty p); [apply effectsOk_nil|].
  destruct (negb _); [apply effectsOk_nil|]. destruct (fork env); [apply effectsOk_nil|].
  constructor; [|constructor]. split; [done|]. left. by apply visible_container.
Qed.

Lemma stop_ok uid t : visible t -> effectsOk uid (effects (handleStop env t)).
Proof.
  intros Hv. apply withJail_ok; [done|]. intros j Hj. destruct (stopCrate env (ji_name j)) as [|[]];
    (constructor; [exact Hj|constructor]).
Qed.

Lemma restart_ok uid t : visible t -> effectsOk uid (effects (handleRestart env t uid)).
Proof.
  intros Hv. apply withJail_ok; [done|]. intros j Hj. cbv beta zeta. destruct (lookupSpec env _) as [|p]; [apply effectsOk_nil|].
  destruct (is_empty p); [apply effectsOk_nil|]. destruct (negb _); [apply effectsOk_nil|].
  destruct (stopCrate env (ji_name j)) as [|[]]; [constructor; [exact Hj|constructor]| |constructor; [exact Hj|constructor]].
  destruct (fork env); [constructor; [exact Hj|constructor]|]. constructor; [exact Hj|]. constructor; [|constructor].
  split; [done|]. right. exists j, 10. split; [by left|done].
Qed.

Lemma applyLimits_ok j kvs o : effects o = [] ->
  Forall (fun e => exists r, e = SetLimit j r) (effects (applyLimits env j kvs o)).
Proof.
  intros Ho. induction kvs as [|[k v] kvs IH]; cbn [applyLimits]; [rewrite Ho; constructor|].
  destruct (is_empty v); [done|]. cbn [after effects app]. constructor; [eauto|]. destruct (rctl env _); [constructor|done].
Qed.

Lemma patch_ok uid t body o : visible t -> handlePatch env t body = Some o -> effectsOk uid (effects o).
Proof.
  intros Hv. unfold handlePatch. destruct (findNamed env t) as [o'|j] eqn:E.
  - intros [= <-]. rewrite (findNamed_miss t o' E). apply effectsOk_nil.
  - destruct (parseResourcesPatch body) as [[|p]|]; [intros [= <-]; apply effectsOk_nil| |done]. intros [= <-].
    set (es := effects _). pose proof (applyLimits_ok j [("pcpu", pcpu p); ("memoryuse", memoryuse p);
      ("readbps", readbps p); ("writebps", writebps p)]%string (reply 200 (renderPatchOkJson p)) eq_refl) as Hl.
    fold es in Hl. unfold effectsOk. eapply Forall_impl; [exact Hl|]. intros e [r ->].
    by apply (findNamed_served t).
Qed.

Lemma dispatch_ok route uid body o :
  (perContainer (rt_action route) = true -> visible (rt_container route)) ->
  dispatch env route spec sep uid body = Some o ->
  effectsOk uid (effects o) /\ (effects o <> [] -> actionIsMutating (rt_action route) = true).
Proof.
  unfold dispatch. intros Hv. destruct (rt_action route) eqn:Ea; cbn [perContainer actionIsMutating] in *.
  - intros [= <-]. split; [apply effectsOk_nil|done].
  - intros [= <-]. split; [apply effectsOk_nil|done].
  - intros [= <-]. unfold handleGet, withJail. destruct (findNamed env _) as [o'|] eqn:E; [rewrite (findNamed_miss _ _ E)|];
      (split; [apply effectsOk_nil|done]).
  - intros [= <-]. unfold handleStats, withJail. destruct (findNamed env _) as [o'|] eqn:E; [rewrite (findNamed_miss _ _ E)|];
      (split; [apply effectsOk_nil|done]).
  - intros Hp. split; [|done]. by apply (patch_ok uid (rt_container route) body); [apply Hv|].
  - intros [= <-]. split; [|done]. by apply start_ok, Hv.
  - intros [= <-]. split; [|done]. by apply stop_ok, Hv.
  - intros [= <-]. split; [|done]. by apply restart_ok, Hv.
Qed.

End safety.

(** ** Reading, however the request arrives *)

Lemma dispatch_total `{StdSort} env route spec sep uid body : exists o, dispatch env route spec sep uid body = Some o.
Proof.
  unfold dispatch. destruct (rt_action route); eauto. unfold handlePatch. destruct (findNamed env _); [eauto|].
  destruct (parseResourcesPatch_total body) as [[|] ->]; eauto.
Qed.

(** A stream of non-empty segments. *)
Definition stream (segs : list bytes) : Prop := Forall (fun s => s <> []) segs.

Lemma read_spec n segs chunk segs' : stream segs -> (0 < n)%nat -> segs <> [] -> read n segs = (chunk, segs') ->
  stream segs' /\ concat segs = chunk ++ concat segs' /\ chunk <> [] /\ (length chunk <= n)%nat.
Proof.
  intros Hs Hn Hne. destruct segs as [|s rest]; [done|]. unfold stream in *. apply Forall_cons in Hs as [Hs Hr].
  cbn [read]. intros [= <- <-].
  assert (Hc : take n s <> []) by (destruct n; [lia|]; by destruct s). assert (Hl : (length (take n s) <= n)%nat) by (rewrite length_take; lia).
  destruct (is_empty (drop n s)) eqn:E.
  - apply is_empty_true in E. split; [done|]. split; [|done]. cbn [concat]. rewrite <- (take_drop n s) at 1. by rewrite E, app_nil_r.
  - apply is_empty_false in E. split; [by constructor|]. split; [|done]. cbn [concat]. by rewrite app_assoc, take_drop.
Qed.

Lemma concat_nonempty (segs : list bytes) : concat segs <> [] -> segs <> [].
Proof. by intros H ->. Qed.

Lemma app_split (a b c d : bytes) : a ++ b = c ++ d -> (length c <= length a)%nat ->
  exists e, a = c ++ e /\ e ++ b = d.
Proof.
  intros E Hl. exists (drop (length c) a). assert (take (length c) a = c) as Ht.
  { apply (f_equal (take (length c))) in E. by rewrite take_app_length, take_app_le in E by done. }
  split; [by rewrite <- Ht at 1; rewrite take_drop|]. apply (app_inv_head c). rewrite app_assoc.
  rewrite <- Ht at 1. by rewrite take_drop.
Qed.

Section reading.
Context (head rest : bytes).
Hypothesis Hhead : find_sub needle (head ++ rest) = Some (length head - 4)%nat.
Hypothesis Hlen : (4 <= length head)%nat.
Hypothesis Hmax : size_z head <= kMaxHeader.

Lemma needle_in_front buf tl : buf ++ tl = head ++ rest ->
  (length head <= length buf)%nat -> find_sub needle buf = Some (length head - 4)%nat.
Proof. intros E Hl. apply (find_sub_first_end needle buf tl); [by rewrite E|]. cbn [needle crlf app length]. lia. Qed.

Lemma needle_not_before buf tl : buf ++ tl = head ++ rest -> has_sub needle buf = true -> (length head <= length buf)%nat.
Proof.
  intros E. rewrite has_sub_find. destruct (find_sub needle buf) as [k|] eqn:F; [intros _|done].
  pose proof (find_sub_app needle buf tl k F) as G. rewrite E, Hhead in G. injection G as <-.
  apply find_sub_bound in F. cbn [needle crlf app length] in F. lia.
Qed.

Lemma needle_after buf tl : buf ++ tl = head ++ rest -> has_sub needle buf = false -> (length buf < length head)%nat.
Proof.
  intros E Hs. destruct (Nat.lt_ge_cases (length buf) (length head)) as [|Hge]; [done|].
  rewrite has_sub_find, (needle_in_front buf tl E Hge) in Hs. done.
Qed.

(** The loop ends with a buffer that holds the head, and no byte is lost. *)
Lemma readUntilNeedle_complete fuel buf segs : stream segs -> buf ++ concat segs = head ++ rest ->
  (0 < fuel)%nat -> (length head < fuel + length buf)%nat ->
  exists buf' segs', readUntilNeedle fuel buf segs = Some (buf', segs') /\ stream segs'
  /\ buf' ++ concat segs' = head ++ rest /\ (length head <= length buf')%nat.
Proof.
  revert buf segs. induction fuel as [|f IH]; intros buf segs Hs E Hf Hl; [lia|]. cbn [readUntilNeedle].
  destruct (has_sub needle buf) eqn:Hn; [exists buf, segs; eauto using needle_not_before|].
  apply (needle_after buf (concat segs) E) in Hn. unfold size_z in *.
  destruct (Z.leb_spec kMaxHeader (Z.of_nat (length buf))); [lia|].
  assert (segs <> []) as Hne.
  { apply concat_nonempty. intros C. apply (f_equal length) in E. rewrite C, !length_app in E. cbn [length] in E. lia. }
  destruct (read 1024 segs) as [chunk segs'] eqn:Er. apply read_spec in Er as (Hs' & Ec & Hc & _); [|done|lia|done].
  destruct (is_empty chunk) eqn:Ei; [by apply is_empty_true in Ei|]. rewrite Ec, app_assoc in E.
  assert (0 < length chunk)%nat by (destruct chunk; [done|cbn; lia]).
  apply (IH (buf ++ chunk) segs' Hs' E); [lia|]. rewrite length_app. lia.
Qed.

End reading.

Lemma readExact_complete fuel want buf segs : stream segs -> (length buf <= want)%nat ->
  (want <= length buf + length (concat segs))%nat -> (want < fuel + length buf)%nat ->
  exists segs', readExact fuel want buf segs = Some (take want (buf ++ concat segs), segs').
Proof.
  revert buf segs. induction fuel as [|f IH]; intros buf segs Hs Hb Hw Hf; [lia|]. cbn [readExact].
  destruct (Nat.leb_spec want (length buf)).
  - exists segs. rewrite take_app_le, firstn_all2 by lia. done.
  - assert (segs <> []) as Hne by (apply concat_nonempty; intros C; rewrite C in Hw; cbn [length] in Hw; lia).
    destruct (read _ segs) as [chunk segs'] eqn:Er. apply read_spec in Er as (Hs' & Ec & Hc & Hl); [|done|lia|done].
    destruct (is_empty chunk) eqn:Ei; [by apply is_empty_true in Ei|].
    assert (0 < length chunk)%nat by (destruct chunk; [done|cbn; lia]). rewrite Ec, length_app in Hw.
    destruct (IH (buf ++ chunk) segs') as [segs'' ->]; [done|rewrite length_app; lia..|].
    exists segs''. by rewrite Ec, <- app_assoc.
Qed.

(** ** The theorems *)

Section theorems.
Context `{StdSort}.

Lemma quiet (s : Z) (msg : bytes) (b : gmap bytes RateLimit.Bucket) (P : Outcome -> Prop) :
  exists o b', Some (failure s msg, b) = Some (o, b') /\ (effects o <> [] -> P o).
Proof. exists (failure s msg), b. split; [done|]. by intros []. Qed.

(** C4: The pool separator is none of the characters of [_pid] and no digit (with
    [_], which the configuration offers, a name without a pool reads as one; see
    [underscore_separator_starts_poolless]), and the jail the kernel returns for
    a name has that name.  Then a connection to a control socket whose
    configuration passed validation is always answered, and changes the system
    only for a peer of the socket's group, on a socket with the admin role; every
    jail it stops or limits is one the socket serves, under its kernel name or
    its container's, and every container it starts is visible on the socket, or
    is the one the jail it stopped just before was running, and belongs to the
    peer. *)
Theorem control_effects_authorized env spec expectedGid sep peer segs buckets :
  validateSocketSpec spec = [] -> sepOk sep -> kernelNames (jails env) ->
  exists o buckets', handleConnection env spec expectedGid sep peer segs buckets = Some (o, buckets')
  /\ (effects o <> [] ->
      exists uid, peer = Some (uid, expectedGid) /\ sp_role spec = str "admin" /\ effectsOk spec sep uid (effects o)).
Proof.
  intros Hv Hs Hk. unfold handleConnection. destruct (default (-1, -1) peer) as [uid gid] eqn:Ep.
  destruct (readRequest segs) as [e|[parsed body]]; [apply (quiet _ _ _ (fun o => exists uid, peer = Some (uid, expectedGid) /\ _ /\ effectsOk spec sep uid (effects o)))|].
  set (route := parseRoute _ _). set (d := authorize _).
  destruct d eqn:Ed; subst d; try apply (quiet _ _ _ (fun o => exists uid, peer = Some (uid, expectedGid) /\ _ /\ effectsOk spec sep uid (effects o))). destruct (RateLimit.check _ _ _ _) as [ok buckets'].
  destruct (negb ok); [apply (quiet _ _ _ (fun o => exists uid, peer = Some (uid, expectedGid) /\ _ /\ effectsOk spec sep uid (effects o)))|]. destruct (negb (gatePasses _ _ _ _)); [apply (quiet _ _ _ (fun o => exists uid, peer = Some (uid, expectedGid) /\ _ /\ effectsOk spec sep uid (effects o)))|].
  destruct (dispatch_total env route spec sep uid body) as [o Eo]. rewrite Eo. cbn [fmap option_fmap option_map].
  exists o, buckets'. split; [done|]. intros Hne.
  apply authorize_Allow in Ed as (_ & Hg & Hgid & Hadm & Hvis). cbn in Hg, Hgid, Hadm, Hvis.
  destruct (dispatch_ok spec sep Hv Hs env Hk route uid body o Hvis Eo) as [Hok Hmut].
  exists uid. split; [|split; [by apply Hadm, Hmut|done]].
  destruct peer as [[u g]|]; cbn in Ep; [by simplify_eq|]. injection Ep as <- <-. lia.
Qed.

(** However the bytes of a request are cut up on their way, the request
    read is the one sent: a head that ends at the first blank line and is at most
    kMaxHeader bytes long, and the body its Content-Length announces, whatever
    follows it. *)
Theorem request_any_chunking head body rest segs parsed :
  stream segs -> concat segs = head ++ body ++ rest ->
  find_sub needle (head ++ body ++ rest) = Some (length head - 4)%nat -> (4 <= length head)%nat ->
  size_z head <= kMaxHeader ->
  parseHttpHead head = inr parsed -> contentLength parsed = size_z body ->
  readRequest segs = inr (parsed, body).
Proof.
  intros Hs E Hn Hl Hm Hp Hc. unfold readRequest.
  destruct (readUntilNeedle_complete head (body ++ rest) Hn Hl Hm (S (Z.to_nat kMaxHeader)) [] segs Hs E)
    as (buf & segs' & -> & Hs' & Eb & Hb); [lia|unfold size_z in Hm; cbn [length]; lia|].
  rewrite (needle_in_front head (body ++ rest) Hn Hl Hm buf (concat segs') Eb Hb). cbv beta zeta. cbn [default from_option id].
  replace (length head - 4 + 4)%nat with (length head) by lia.
  assert (exists carried, buf = head ++ carried /\ carried ++ concat segs' = body ++ rest) as (carried & -> & Ecar).
  { apply app_split in Eb; [|done]. exact Eb. }
  rewrite take_app_length, drop_app_length, Hp, Hc. unfold size_z. rewrite Nat2Z.id.
  pose proof (f_equal length Ecar) as El. rewrite !length_app in El.
  destruct (Nat.ltb_spec (length carried) (length body)).
  - destruct (readExact_complete (S (length body)) (length body - length carried) [] segs' Hs') as [segs'' ->];
      [cbn [length]; lia..|]. cbn [app]. do 2 f_equal.
    apply (f_equal (take (length body))) in Ecar. rewrite take_app_length in Ecar. rewrite <- Ecar at 2.
    rewrite take_app. by rewrite (take_ge carried) by lia.
  - do 2 f_equal. apply (f_equal (take (length body))) in Ecar. by rewrite take_app_length, take_app_le in Ecar by lia.
Qed.

End theorems.

(** ** A host *)

Definition adminSpec (pool : string) : ControlSocketSpec :=
  {| sp_path := str "/var/run/crate/control/dev.sock"; sp_group := str "developers"; sp_mode := 432;
     sp_pools := [str pool]; sp_role := str "admin" |}.

(** The jail [dev-web_pid42] runs; its container's spec and two others are
    recorded. *)
Definition devWeb : JailInfo :=
  {| ji_jid := 7; ji_name := str "dev-web_pid42"; ji_path := str "/var/run/crate/jail-dev-web-0a1b2c3d";
     ji_hostname := str "dev-web"; ji_ip4 := str "10.66.0.2"; ji_dying := false |}.

Definition host (js : list JailInfo) : Env :=
  {| gateJails := hostJails js; jails := hostJails js;
     registry := inr (Some (str "dev-web /crates/web.crate" ++ [newline] ++ str "dev /crates/plain.crate" ++ [newline]
                            ++ str "prod-db /crates/db.crate" ++ [newline]));
     exists_ := fun _ => true; stopCrate := fun _ => inr true; fork := inr 4711; rctl := fun _ => inr tt;
     rctlUsage := fun _ => inr []; wall := 1700000000 |}.

Definition post (path : string) : list bytes :=
  [str "POST "; str path ++ str " HTTP/1.1" ++ crlf; crlf].

Definition effectsOf (r : option (Outcome * gmap bytes RateLimit.Bucket)) : list Effect :=
  match r with Some (o, _) => effects o | None => [] end.

Definition ask (js : list JailInfo) (pool : string) (sep : ascii) (gid : Z) (segs : list bytes) : list Effect :=
  effectsOf (handleConnection (H := insertionSort) (host js) (adminSpec pool) 1001 sep (Some (1000, gid)) segs ∅).

Lemma control_effects_authorized_witness :
  exists o buckets',
    handleConnection (H := insertionSort) (host [devWeb]) (adminSpec "dev") 1001 "-" (Some (1000, 1001))
      (post "/v1/control/containers/dev-web/restart") ∅ = Some (o, buckets')
    /\ (effects o <> [] ->
        exists uid, Some (1000, 1001) = Some (uid, 1001) /\ sp_role (adminSpec "dev") = str "admin"
          /\ effectsOk (adminSpec "dev") "-" uid (effects o)).
Proof.
  apply (@control_effects_authorized insertionSort); [vm_compute; reflexivity|vm_compute; intuition discriminate|].
  apply hostJails_names.
Defined.

Example restart_restarts : ask [devWeb] "dev" "-" 1001 (post "/v1/control/containers/dev-web/restart")
  = [StopJail devWeb 10; StartContainer (str "dev-web") (str "/crates/web.crate") 1000].
Proof. vm_compute. reflexivity. Qed.

Example other_group : ask [devWeb] "dev" "-" 1002 (post "/v1/control/containers/dev-web/restart") = [].
Proof. vm_compute. reflexivity. Qed.

(** A jail renamed with jail(8) into the socket's pool, while
    its container's is not: a restart starts the container of the other pool. *)
Definition renamed : JailInfo :=
  {| ji_jid := 8; ji_name := str "dev-copy"; ji_path := str "/var/run/crate/jail-prod-db-0a1b2c3d";
     ji_hostname := str "db"; ji_ip4 := []; ji_dying := false |}.

Lemma restart_leaves_pool : ask [renamed] "dev" "-" 1001 (post "/v1/control/containers/dev-copy/restart")
    = [StopJail renamed 10; StartContainer (str "prod-db") (str "/crates/db.crate") 1000]
  /\ ask [] "dev" "-" 1001 (post "/v1/control/containers/prod-db/start") = [].
Proof. vm_compute. split; reflexivity. Qed.

(** With the separator [_] the pid suffix of a name without a pool reads as one
    of pool [dev]: such a name starts the container [dev], which the socket does
    not show under its own name. *)
Lemma underscore_separator_starts_poolless :
  ask [] "dev" "_" 1001 (post "/v1/control/containers/dev_pid1/start")
    = [StartContainer (str "dev") (str "/crates/plain.crate") 1000]
  /\ ask [] "dev" "_" 1001 (post "/v1/control/containers/dev/start") = [].
Proof. vm_compute. split; reflexivity. Qed.

(** The values of a PATCH go to rctl(8) as they came. *)
Definition patchRequest (body : bytes) : list bytes :=
  [str "PATCH /v1/control/containers/dev-web_pid42/resources HTTP/1.1" ++ crlf;
   str "Content-Length: " ++ dec (size_z body) ++ crlf ++ crlf ++ take 3 body; drop 3 body].

Lemma patch_values_unchecked :
  ask [devWeb] "dev" "-" 1001 (patchRequest (str "{" ++ q "pcpu" ++ str ":" ++ q "900,x" ++ str "}"))
  = [SetLimit devWeb (str "jail:dev-web_pid42:pcpu:deny=900,x")].
Proof. vm_compute. reflexivity. Qed.

Definition listRequest : bytes := str "GET /v1/control/containers HTTP/1.1" ++ crlf ++ crlf.

Lemma request_any_chunking_witness :
  readRequest (map (fun c => [c]) listRequest)
  = inr ({| method := str "GET"; hpath := str "/v1/control/containers"; contentLength := 0 |}, []).
Proof.
  apply (request_any_chunking listRequest [] []); try (vm_compute; reflexivity).
  - repeat constructor; discriminate.
  - vm_compute. repeat constructor.
  - vm_compute. discriminate.
Defined.

End ControlSocket.
