(* ===== verification/GuiRegistry.v ===== *)
(** * The registry of GUI sessions: lib/gui_registry.cpp

    A file of one line per X session, read and rewritten under flock(2).  The
    object between [lock] and [unlock] is [Reg]: the map in memory and whether it
    was read.  kill(2) with signal 0 is the parameter [alive]. *)

From S2P Require Import Prelude CStd OMap.

Module GuiRegistry.
Import CStd.

Record GuiEntry := {
  ownerPid : Z; displayNum : Z; xServerPid : Z; vncPort : Z; wsPort : Z; mode : bytes; jailName : bytes }.

(** [std::map<pid_t, GuiEntry>]; the file as the lock holder finds it. *)
Record Reg := { file : bytes; entries : list (Z * GuiEntry); inMemory : bool; changed : bool }.

Definition lock (f : bytes) : Reg := {| file := f; entries := []; inMemory := false; changed := false |}.

Definition setEntries (es : list (Z * GuiEntry)) (c : bool) (r : Reg) : Reg :=
  {| file := file r; entries := es; inMemory := inMemory r; changed := c |}.

(** ** The text form *)

(** [is >> n] for an [int]: white space, a sign, digits; [None] is failbit. *)
Definition readInt (s : bytes) : option (Z * bytes) :=
  let '(neg, s2) := sign (skipSpace s) in
  let '(digits, rest) := span is_digit s2 in
  let v := if neg then - dec_value digits else dec_value digits in
  if is_empty digits then None
  else if (2 ^ 31 - 1 <? v) || (v <? - 2 ^ 31) then None
  else Some (v, rest).

(** [is >> n] for an [unsigned]: a minus sign negates modulo 2^32. *)
Definition readUnsigned (s : bytes) : option (Z * bytes) :=
  let '(neg, s2) := sign (skipSpace s) in
  let '(digits, rest) := span is_digit s2 in
  if is_empty digits then None
  else if 2 ^ 32 - 1 <? dec_value digits then None
  else Some (if neg then u32 (- dec_value digits) else dec_value digits, rest).

(** [is >> s] for a string *)
Definition readWord (s : bytes) : option (bytes * bytes) :=
  let '(w, rest) := span (fun c => negb (is_space c)) (skipSpace s) in
  if is_empty w then None else Some (w, rest).

Definition parseLine (line : bytes) : option GuiEntry :=
  '(p, s1) ← readInt line; '(d, s2) ← readUnsigned s1; '(x, s3) ← readInt s2; '(v, s4) ← readUnsigned s3;
  '(w, s5) ← readUnsigned s4; '(m, s6) ← readWord s5; '(j, _) ← readWord s6;
  Some {| ownerPid := p; displayNum := d; xServerPid := x; vncPort := v; wsPort := w; mode := m; jailName := j |}.

Definition formatLine (e : GuiEntry) : bytes :=
  dec_signed (ownerPid e) ++ str " " ++ dec (displayNum e) ++ str " " ++ dec_signed (xServerPid e) ++ str " "
  ++ dec (vncPort e) ++ str " " ++ dec (wsPort e) ++ str " " ++ mode e ++ str " " ++ jailName e.

(** A line is a C string. *)
Definition onLine (es : list (Z * GuiEntry)) (line : bytes) : list (Z * GuiEntry) :=
  match parseLine (cstr line) with Some e => OMap.insert (ownerPid e) e es | None => es end.

Definition readIntoMemory (r : Reg) : Reg :=
  {| file := file r; entries := fold_left onLine (getlines (file r)) (entries r); inMemory := true; changed := changed r |}.

Definition writeToFile (r : Reg) : bytes := concat (map (fun kv => formatLine (snd kv) ++ [newline]) (entries r)).

(** What the file holds after [unlock]; its I/O succeeds. *)
Definition unlock (r : Reg) : bytes := if changed r then writeToFile r else file r.

(** ** The operations *)

Definition ensureRead (r : Reg) : Reg := if inMemory r then r else readIntoMemory r.

Section ops.
Context (alive : Z -> bool).

Definition garbageCollect (r : Reg) : Reg :=
  let kept := List.filter (fun kv => alive (fst kv)) (entries r) in
  setEntries kept (changed r || (length kept <? length (entries r))%nat) r.

(** The loop ends: the numbers used are finitely many. *)
Fixpoint firstFree (fuel : nat) (used : list Z) (disp : Z) : option Z :=
  match fuel with
  | O => None
  | S f => if existsb (Z.eqb disp) used then firstFree f used (u32 (disp + 1)) else Some disp
  end.

Definition displays (r : Reg) : list Z := map (fun kv => displayNum (snd kv)) (entries r).

Definition allocateDisplay (r : Reg) : option Z * Reg :=
  let r' := garbageCollect (ensureRead r) in
  (firstFree (S (length (entries r'))) (displays r') 10, r').

Definition registerEntry (e : GuiEntry) (r : Reg) : Reg :=
  let r' := garbageCollect (ensureRead r) in
  setEntries (OMap.insert (ownerPid e) e (entries r')) true r'.

Definition unregisterEntry (pid : Z) (r : Reg) : Reg :=
  let r' := ensureRead r in setEntries (OMap.erase pid (entries r')) true r'.

Definition getEntries (r : Reg) : list GuiEntry * Reg :=
  let r' := garbageCollect (ensureRead r) in (map snd (entries r'), r').

End ops.

Definition findEntry (p : GuiEntry -> bool) (r : Reg) : option GuiEntry := List.find p (map snd (entries r)).

(** The first of the passes that finds an entry. *)
Definition orElse {A} (a b : option A) : option A := match a with Some x => Some x | None => b end.

Definition findByTarget (target : bytes) (r : Reg) : option GuiEntry :=
  orElse (findEntry (fun e => beq (jailName e) target) r)
  (orElse (findEntry (fun e => starts_with (str "jail-" ++ target) (jailName e)) r)
  (match stoi target with
   | Some num => orElse (findEntry (fun e => i32 (displayNum e) =? num) r) (findEntry (fun e => ownerPid e =? num) r)
   | None => None
   end)).

(** ** What a session writes is read back *)

Definition word (s : bytes) : Prop := s <> [] /\ Forall (fun c => is_space c = false /\ c <> nul) s.

Definition entryOk (e : GuiEntry) : Prop :=
  0 < ownerPid e < 2 ^ 31 /\ 0 <= displayNum e < 2 ^ 32 /\ 0 <= xServerPid e < 2 ^ 31 /\ 0 <= vncPort e < 2 ^ 32
  /\ 0 <= wsPort e < 2 ^ 32 /\ word (mode e) /\ word (jailName e).

Lemma number_front n rest : let t := dec n ++ str " " ++ rest in
  sign (skipSpace t) = (false, t) /\ span is_digit t = (dec n, " "%char :: rest).
Proof.
  intros t. assert (all_digits (dec n) = true) as D by apply dec_digits. split; [|by apply span_stop].
  unfold t. pose proof (dec_nonempty n). destruct (dec n) as [|c d]; [done|]. unfold all_digits in D. cbn [forallb] in D.
  apply andb_prop in D as [D _]. cbn [app skipSpace]. rewrite (is_digit_not_space c D). cbn [sign].
  pose proof (is_digit_not_sign c D) as S. apply orb_false_iff in S as [-> ->]. done.
Qed.

Lemma is_empty_dec n : is_empty (dec n) = false.
Proof. apply is_empty_false, dec_nonempty. Qed.

Lemma readInt_dec n rest : 0 <= n < 2 ^ 31 -> readInt (dec n ++ str " " ++ rest) = Some (n, str " " ++ rest).
Proof.
  intros Hn. unfold readInt. destruct (number_front n rest) as [-> ->]. rewrite is_empty_dec, dec_value_dec by lia.
  by destruct (Z.ltb_spec (2 ^ 31 - 1) n), (Z.ltb_spec n (- 2 ^ 31)); try lia.
Qed.

Lemma readUnsigned_dec n rest : 0 <= n < 2 ^ 32 -> readUnsigned (dec n ++ str " " ++ rest) = Some (n, str " " ++ rest).
Proof.
  intros Hn. unfold readUnsigned. destruct (number_front n rest) as [-> ->]. rewrite is_empty_dec, dec_value_dec by lia.
  by destruct (Z.ltb_spec (2 ^ 32 - 1) n); try lia.
Qed.

Lemma readInt_space s : readInt (str " " ++ s) = readInt s.
Proof. done. Qed.
Lemma readUnsigned_space s : readUnsigned (str " " ++ s) = readUnsigned s.
Proof. done. Qed.

Lemma word_span w rest : word w -> (forall c t, rest = c :: t -> is_space c = true) ->
  readWord (str " " ++ w ++ rest) = Some (w, rest).
Proof.
  intros [Hne Hw] Hr. unfold readWord. cbn [str list_ascii_of_string app skipSpace].
  change (is_space " ") with true. cbv iota.
  assert (skipSpace (w ++ rest) = w ++ rest) as ->.
  { destruct w as [|c w]; [done|]. apply Forall_cons in Hw as [[Hc _] _]. cbn [app skipSpace]. by rewrite Hc. }
  assert (forallb (fun c => negb (is_space c)) w = true) as Hb.
  { apply forallb_forall. intros c Hc. rewrite Forall_forall in Hw. apply list_elem_of_In in Hc. by destruct (Hw c Hc) as [-> _]. }
  destruct rest as [|c rest].
  - rewrite app_nil_r, span_all by done. by destruct w.
  - rewrite span_stop; [by destruct w|done|]. by rewrite (Hr c rest eq_refl).
Qed.

Lemma dec_signed_nonneg n : 0 <= n -> dec_signed n = dec n.
Proof. intros H. unfold dec_signed. by destruct (Z.ltb_spec n 0); [lia|]. Qed.

Lemma parse_format e : entryOk e -> parseLine (formatLine e) = Some e.
Proof.
  intros (H1 & H2 & H3 & H4 & H5 & H6 & H7). unfold formatLine, parseLine. rewrite !dec_signed_nonneg by lia.
  rewrite readInt_dec by lia. cbn [mbind option_bind]. rewrite readUnsigned_space, readUnsigned_dec by lia. cbn [mbind option_bind].
  rewrite readInt_space, readInt_dec by lia. cbn [mbind option_bind]. rewrite readUnsigned_space, readUnsigned_dec by lia.
  cbn [mbind option_bind]. rewrite readUnsigned_space, readUnsigned_dec by lia. cbn [mbind option_bind].
  rewrite word_span; [|done|by intros c t [= <- _]]. cbn [mbind option_bind].
  rewrite <- (app_nil_r (jailName e)) at 1. rewrite word_span by done. cbn. by destruct e.
Qed.

Lemma digits_no (c : ascii) n : is_digit c = false -> ~ In c (dec n).
Proof. intros Hc Hin. pose proof (dec_digits n) as D. unfold all_digits in D. rewrite forallb_forall in D. by rewrite D in Hc. Qed.

Lemma formatLine_plain e c : entryOk e -> is_digit c = false -> c <> " "%char -> (is_space c = true \/ c = nul) ->
  ~ In c (formatLine e).
Proof.
  intros (H1 & H2 & H3 & H4 & H5 & [_ Hm] & [_ Hj]) Hd Hs Hc. unfold formatLine. rewrite !dec_signed_nonneg by lia.
  assert (forall w, Forall (fun c => is_space c = false /\ c <> nul) w -> ~ In c w) as Hw.
  { intros w Hw Hin. rewrite Forall_forall in Hw. apply list_elem_of_In, Hw in Hin as [E1 E2]. destruct Hc; congruence. }
  assert (~ In c (str " ")) as Hb by (intros [E|[]]; by apply Hs).
  rewrite !in_app_iff. pose proof (digits_no c (ownerPid e) Hd). pose proof (digits_no c (displayNum e) Hd).
  pose proof (digits_no c (xServerPid e) Hd). pose proof (digits_no c (vncPort e) Hd). pose proof (digits_no c (wsPort e) Hd).
  pose proof (Hw _ Hm). pose proof (Hw _ Hj). tauto.
Qed.

(** ** The file between two lock holders *)

Definition sessions (es : list (Z * GuiEntry)) : Prop :=
  OMap.wf es /\ Forall (fun kv => fst kv = ownerPid (snd kv) /\ entryOk (snd kv)) es.

(** A file some [unlock] wrote, with what it holds; at first there is none. *)
Definition holds (f : bytes) (es : list (Z * GuiEntry)) : Prop :=
  sessions es /\ f = concat (map (fun kv => formatLine (snd kv) ++ [newline]) es).

Lemma onLine_all es acc : sessions es ->
  Forall (fun kv => Forall (fun kv' => fst kv < fst kv') es) acc -> Forall (fun kv => fst kv = ownerPid (snd kv)) acc ->
  fold_left onLine (map (fun kv => formatLine (snd kv)) es) acc = acc ++ es.
Proof.
  revert acc. induction es as [|[k e] es IH]; intros acc [Hwf Hok] Hlt Hk; cbn [map fold_left]; [by rewrite app_nil_r|].
  apply Forall_cons in Hok as [[Ek He] Hok]. cbn [fst snd] in *. apply OMap.wf_cons in Hwf as [Hwf Hmin].
  assert (onLine acc (formatLine e) = acc ++ [(k, e)]) as ->.
  { unfold onLine. rewrite cstr_no_nul by (apply formatLine_plain; [done..|by right]). rewrite parse_format by done. rewrite <- Ek.
    apply OMap.insert_last. eapply Forall_impl; [exact Hlt|]. intros kv [H _]%Forall_cons. cbn in H |- *. lia. }
  rewrite IH; [by rewrite <- app_assoc|done| |apply Forall_app; auto].
  apply Forall_app. split.
  - eapply Forall_impl; [exact Hlt|]. by intros kv [_ H]%Forall_cons.
  - constructor; [|constructor]. eapply Forall_impl; [exact Hmin|]. intros kv H. cbn in H |- *. lia.
Qed.

Lemma read_holds f es : holds f es -> ensureRead (lock f) = {| file := f; entries := es; inMemory := true; changed := false |}.
Proof.
  intros [Hs ->]. unfold ensureRead, lock, readIntoMemory. cbn [inMemory entries file changed]. f_equal.
  replace (map (fun kv => formatLine (snd kv) ++ [newline]) es)
    with (map (fun l => l ++ [newline]) (map (fun kv => formatLine (snd kv)) es)) by (by rewrite map_map).
  rewrite getlines_concat; [by rewrite onLine_all|].
  destruct Hs as [_ Hok]. apply Forall_map. eapply Forall_impl; [exact Hok|]. intros kv [_ He]. cbn.
  apply formatLine_plain; [done..|by left].
Qed.

Section sessions.
Context (alive : Z -> bool).

Lemma sessions_filter p es : sessions es -> sessions (List.filter p es).
Proof.
  intros [Hw Hf]. split; [by apply OMap.wf_filter|]. apply List.Forall_forall. intros kv [Hin _]%filter_In.
  rewrite List.Forall_forall in Hf. by apply Hf.
Qed.

Lemma filter_same_length {A} (p : A -> bool) l : (length l <= length (List.filter p l))%nat -> List.filter p l = l.
Proof.
  induction l as [|x l IH]; [done|]. cbn [List.filter]. pose proof (List.filter_length_le p l). destruct (p x); cbn [length]; intros Hl.
  - f_equal. apply IH. lia.
  - lia.
Qed.

(** What each operation leaves in the file. *)
Lemma allocate_holds f es : holds f es ->
  holds (unlock (snd (allocateDisplay alive (lock f)))) (List.filter (fun kv => alive (fst kv)) es).
Proof.
  intros Hh. unfold allocateDisplay. rewrite (read_holds f es Hh). destruct Hh as [Hs Hf]. split; [by apply sessions_filter|].
  cbn [snd]. unfold unlock, garbageCollect, setEntries, writeToFile. cbn [changed entries file orb].
  destruct (Nat.ltb_spec (length (List.filter (fun kv => alive (fst kv)) es)) (length es)); [done|].
  by rewrite filter_same_length.
Qed.

Lemma register_holds f es e : holds f es -> entryOk e ->
  holds (unlock (registerEntry alive e (lock f))) (OMap.insert (ownerPid e) e (List.filter (fun kv => alive (fst kv)) es)).
Proof.
  intros Hh He. unfold registerEntry. rewrite (read_holds f es Hh). destruct Hh as [Hs Hf].
  destruct (sessions_filter (fun kv => alive (fst kv)) es Hs) as [Hw Hfo]. split; [|done].
  split; [by apply OMap.wf_insert|]. apply List.Forall_forall. intros kv [->|Hin]%OMap.In_insert; [done|].
  rewrite List.Forall_forall in Hfo. by apply Hfo.
Qed.

Lemma unregister_holds f es pid : holds f es -> holds (unlock (unregisterEntry pid (lock f))) (OMap.erase pid es).
Proof.
  intros Hh. unfold unregisterEntry. rewrite (read_holds f es Hh). destruct Hh as [Hs Hf]. split; [|done].
  by apply sessions_filter.
Qed.

(** ** Display numbers *)

Lemma run_in_used (used : list Z) (n : nat) : (forall k, 10 <= k < 10 + Z.of_nat n -> In k used) -> (n <= length used)%nat.
Proof.
  intros H. rewrite <- (length_seq n 0), <- (length_map (fun k => 10 + Z.of_nat k) (seq 0 n)).
  apply NoDup_incl_length.
  - apply NoDup_ListNoDup, NoDup_fmap_2; [intros a b; lia|apply NoDup_seq].
  - intros k (i & <- & Hi%in_seq)%in_map_iff. apply H. lia.
Qed.

Lemma firstFree_spec fuel used (n : nat) : Z.of_nat (length used) < 2 ^ 31 ->
  (length used < fuel + n)%nat -> (forall k, 10 <= k < 10 + Z.of_nat n -> In k used) ->
  exists d, firstFree fuel used (10 + Z.of_nat n) = Some d /\ 10 <= d /\ ~ In d used /\ forall k, 10 <= k < d -> In k used.
Proof.
  intros Hl. revert n. induction fuel as [|f IH]; intros n Hf Hn; pose proof (run_in_used used n Hn); [lia|]. cbn [firstFree].
  destruct (existsb (Z.eqb (10 + Z.of_nat n)) used) eqn:E.
  - apply existsb_exists in E as (x & Hx & <-%Z.eqb_eq).
    replace (u32 (10 + Z.of_nat n + 1)) with (10 + Z.of_nat (S n)) by (unfold u32; rewrite Z.mod_small; lia).
    apply IH; [lia|]. intros k Hk. destruct (Z.eq_dec k (10 + Z.of_nat n)) as [->|]; [done|]. apply Hn. lia.
  - exists (10 + Z.of_nat n). split; [done|]. split; [lia|]. split; [|done]. intros Hin. apply not_true_iff_false in E. apply E.
    apply existsb_exists. eexists. split; [done|apply Z.eqb_refl].
Qed.

Definition liveDisplays (es : list (Z * GuiEntry)) : list Z :=
  map (fun kv => displayNum (snd kv)) (List.filter (fun kv => alive (fst kv)) es).

(** An allocation terminates with the lowest number from 10 on that no live
    session has registered. *)
Lemma allocate_least f es : holds f es -> Z.of_nat (length es) < 2 ^ 31 ->
  exists d, fst (allocateDisplay alive (lock f)) = Some d /\ 10 <= d /\ ~ In d (liveDisplays es)
  /\ forall k, 10 <= k < d -> In k (liveDisplays es).
Proof.
  intros Hh Hl. unfold allocateDisplay. rewrite (read_holds f es Hh). cbn [fst garbageCollect setEntries entries displays].
  pose proof (List.filter_length_le (fun kv => alive (fst kv)) es).
  apply (firstFree_spec _ (liveDisplays es) 0); unfold liveDisplays; rewrite ?length_map; cbn [Z.of_nat]; lia.
Qed.

Lemma allocate_same f es g : holds f es -> holds g (List.filter (fun kv => alive (fst kv)) es) ->
  fst (allocateDisplay alive (lock g)) = fst (allocateDisplay alive (lock f)).
Proof.
  intros Hf Hg. unfold allocateDisplay. rewrite (read_holds f es Hf), (read_holds g _ Hg). cbv zeta. unfold garbageCollect, setEntries. cbn [fst entries].
  assert (List.filter (fun kv => alive (fst kv)) (List.filter (fun kv : Z * GuiEntry => alive (fst kv)) es)
          = List.filter (fun kv => alive (fst kv)) es) as E.
  { clear. induction es as [|kv es IH]; [done|]. cbn [List.filter]. destruct (alive (fst kv)) eqn:E; [|done].
    cbn [List.filter]. by rewrite E, IH. }
  unfold displays. cbn [entries]. by rewrite E.
Qed.

Lemma live_insert es e kv : sessions es -> alive (ownerPid e) = true -> alive (fst kv) = true ->
  fst kv <> ownerPid e -> In kv es -> In kv (OMap.insert (ownerPid e) e (List.filter (fun kv => alive (fst kv)) es)).
Proof.
  intros Hs He Ha Hne Hin. destruct (sessions_filter (fun kv => alive (fst kv)) es Hs) as [Hw _].
  destruct kv as [k x]. apply OMap.find_In; [by apply OMap.wf_insert|]. rewrite OMap.find_insert by done.
  destruct (decide (k = ownerPid e)); [done|]. apply OMap.find_In; [done|]. by apply filter_In.
Qed.

Lemma inserted es e : sessions es -> In (ownerPid e, e) (OMap.insert (ownerPid e) e es).
Proof. intros [Hw _]. apply OMap.find_In; [by apply OMap.wf_insert|]. rewrite OMap.find_insert by done. by destruct (decide _). Qed.

(** The display numbers of two containers that start at the same time
    collide.  An allocation reserves nothing: when both runs allocate before
    either registers, which is what the X setup does (it starts the X server
    in between, for up to five seconds), they get the same number, whatever
    sessions there are, and the registry then lists both sessions on it. *)
Theorem display_race f es e1 e2 :
  holds f es -> entryOk e1 -> entryOk e2 -> ownerPid e1 <> ownerPid e2 ->
  alive (ownerPid e1) = true -> alive (ownerPid e2) = true ->
  let a1 := allocateDisplay alive (lock f) in
  let a2 := allocateDisplay alive (lock (unlock (snd a1))) in
  fst a1 = Some (displayNum e1) -> fst a2 = Some (displayNum e2) ->
  let f1 := unlock (registerEntry alive e1 (lock (unlock (snd a2)))) in
  let f2 := unlock (registerEntry alive e2 (lock f1)) in
  displayNum e1 = displayNum e2
  /\ In e1 (fst (getEntries alive (lock f2))) /\ In e2 (fst (getEntries alive (lock f2))).
Proof.
  intros Hh He1 He2 Hne Ha1 Ha2 a1 a2 Hd1 Hd2 f1 f2. pose proof (allocate_holds f es Hh) as H1. fold a1 in H1.
  split; [pose proof (allocate_same f es _ Hh H1) as E; fold a1 a2 in E; congruence|].
  pose proof (allocate_holds _ _ H1) as H2. fold a2 in H2. pose proof (register_holds _ _ e1 H2 He1) as H3. fold f1 in H3.
  pose proof (register_holds _ _ e2 H3 He2) as H4. fold f2 in H4. unfold getEntries. rewrite (read_holds f2 _ H4).
  cbn [fst garbageCollect setEntries entries]. destruct H3 as [Hs3 _], H4 as [Hs4 _], H2 as [Hs2 _].
  split; apply in_map_iff; [exists (ownerPid e1, e1)|exists (ownerPid e2, e2)]; (split; [done|]); apply filter_In; (split; [|done]).
  - apply live_insert; [done..|]. apply inserted. by apply sessions_filter.
  - apply inserted. by apply sessions_filter.
Qed.

End sessions.

Definition session (pid disp : Z) (jail : string) : GuiEntry :=
  {| ownerPid := pid; displayNum := disp; xServerPid := pid + 1; vncPort := 5900 + disp; wsPort := 0;
     mode := str "headless"; jailName := str jail |}.

Lemma session_ok pid disp jail : 0 < pid < 2 ^ 31 - 1 -> 0 <= disp < 2 ^ 31 -> word (str jail) -> entryOk (session pid disp jail).
Proof. intros Hp Hd Hw. unfold entryOk, session. cbn. repeat split; try lia; try apply Hw; repeat constructor; discriminate. Qed.

Lemma display_race_witness : exists f,
  In (session 100 10 "web_pid100") (fst (getEntries (fun _ => true) (lock f)))
  /\ In (session 200 10 "db_pid200") (fst (getEntries (fun _ => true) (lock f))).
Proof.
  eexists. refine (proj2 (display_race (fun _ => true) [] [] (session 100 10 "web_pid100") (session 200 10 "db_pid200") _ _ _ _ _ _ _ _)).
  - split; [split; constructor|reflexivity].
  - apply session_ok; [lia..|]. split; [discriminate|]. repeat constructor; discriminate.
  - apply session_ok; [lia..|]. split; [discriminate|]. repeat constructor; discriminate.
  - discriminate.
  - reflexivity.
  - reflexivity.
  - vm_compute. reflexivity.
  - vm_compute. reflexivity.
Defined.

(** [findByTarget] does not read the file: right after [lock] it finds nothing,
    whatever sessions there are. *)
Lemma findByTarget_unread target f : findByTarget target (lock f) = None.
Proof. unfold findByTarget, orElse, findEntry, lock. cbn [entries map List.find]. by destruct (stoi target). Qed.

Example findByTarget_read :
  let f := unlock (registerEntry (fun _ => true) (session 100 10 "web_pid100") (lock [])) in
  findByTarget (str "web_pid100") (snd (getEntries (fun _ => true) (lock f))) = Some (session 100 10 "web_pid100").
Proof. vm_compute. reflexivity. Qed.

End GuiRegistry.
