(* ===== verification/Routes.v ===== *)
(** * The REST API: daemon/routes.cpp

    One request from the route cpp-httplib matched to the reply.  The library
    matches URLs and fills path parameters: a [Route] is what it gives a handler,
    the names as they stand in the URL.  What the daemon asks of the outside is
    [Env]; what it changes and what it reveals is a list of [Effect]s, in order.
    The loops behind a followed log and a stream of statistics run after the
    handler returned; they are the effects [FollowLog] and [StreamUsage], and one
    round of the latter is [statsTick]. *)

From S2P Require Import Prelude CStd OMap PerUser LineFile SpecRegistry RunPure Wire Auth RateLimit RoutesPure PrivOps GuiRegistry.

Module Routes.
Import CStd JailQuery PrivOps RoutesPure.

(** ** Requests *)

Record Request := {
  path : bytes; headers : list (bytes * bytes); params : bytes -> bytes; body : bytes; remote_addr : bytes }.

Inductive Route :=
| Healthz | ListContainers | Gui (name : bytes) | Host | Metrics | Stats (name : bytes) | Logs (name : bytes)
| Stop (name : bytes) | Start (name : bytes) | Destroy (name : bytes) | Restart (name : bytes)
| ListSnapshots (name : bytes) | CreateSnapshot (name : bytes) | DeleteSnapshot (name snap : bytes)
| StatsStream (name : bytes) | Export (name : bytes) | ExportDownload (filename : bytes) | Import_ (name : bytes)
| PrivOp (verb : bytes).

(** httplib's headers: a multimap that ignores case; the first of a name. *)
Definition sameHeader (a b : bytes) : bool := beq (map tolower a) (map tolower b).

Definition getHeader (hs : list (bytes * bytes)) (k : bytes) : bytes :=
  match List.find (fun kv => sameHeader (fst kv) k) hs with Some kv => snd kv | None => [] end.

Definition listenerHeader : bytes := str "X-Crated-Listener".

(** The pre-routing handler. *)
Definition stamp (isUnixListener : bool) (hs : list (bytes * bytes)) : list (bytes * bytes) :=
  List.filter (fun kv => negb (sameHeader (fst kv) listenerHeader)) hs
  ++ [(listenerHeader, if isUnixListener then str "unix" else str "tcp")].

Definition authReq (req : Request) : Auth.Request :=
  {| Auth.r_path := path req; Auth.r_header := getHeader (headers req) |}.

Definition getClientId (req : Request) : bytes :=
  if beq (getHeader (headers req) listenerHeader) (str "unix") then str "unix"
  else if is_empty (remote_addr req) then str "tcp" else remote_addr req.

(** ** The outside *)

Record SnapshotInfo := { sn_name : bytes; sn_used : bytes; sn_refer : bytes; sn_creation : bytes }.

(** How far storing an upload got. *)
Inductive Upload := OpenFails | WriteFails | RenameFails | Stored.

Record Env := {
  jails : Jails;
  stillThere : nat -> bool;             (** the jail, at each look of the stop loop *)
  killSucceeds : bool;                  (** jexec kill -KILL *)
  jls : bytes + bytes;
  guiFile : bytes + bytes;              (** the GUI registry's file, or why it does not open *)
  hostInfo : bytes + (bytes * bytes * bytes * Z * Z);
  metrics : bytes;
  registry : bytes + LineFile.File;
  fileExists : bytes -> bool;
  stopCrate : bytes -> bytes + bool;    (** an exception's text, or the result *)
  fork : option Z;                      (** the child's pid *)
  rctlUsage : Z -> bytes + bytes;
  tailLog : Z -> bytes -> bytes + bytes;
  getZfsDataset : bytes -> bytes;
  listSnapshots : bytes -> bytes + list SnapshotInfo;
  zfsSnapshot : bytes -> bytes + unit;
  zfsDestroy : bytes -> bytes + unit;
  packJail : JailInfo -> bytes -> bytes + unit;
  statSize : bytes -> option Z;
  openFile : bytes -> bool;
  upload : Upload;
  sha256OfFile : bytes -> bytes;
  privOp : Verb -> bytes -> Z * bytes;  (** [dispatchPrivOp], for uid 0 *)
  wall : Z;                             (** time(2) *)
}.

Inductive Effect :=
| SignalAll (j : JailInfo) (signal : string)
| RemoveJail (j : JailInfo)
| StopJail (j : JailInfo) (timeout : Z)
| StartContainer (name crateFile : bytes) (owner : Z)
| CreateSnap (dataset snap : bytes)
| DestroySnap (dataset snap : bytes)
| PackJail (j : JailInfo) (outPath : bytes)
| StoreUpload (outPath : bytes)
| RunPrivOp (v : Verb) (body : bytes)
| ShowJails | ShowHost | ShowMetrics
| ShowGui (name : bytes) (e : GuiRegistry.GuiEntry)
| ShowUsage (j : JailInfo) | StreamUsage (j : JailInfo)
| ShowLog (j : JailInfo) (lines : Z) | FollowLog (j : JailInfo)
| ShowSnapshots (dataset : bytes)
| SendFile (file : bytes).

Record Outcome := { status : Z; resBody : bytes; effects : list Effect }.

(** What the daemon keeps between requests: the rate limiter's buckets and
    [g_streamingClients]. *)
Record State := { buckets : gmap bytes RateLimit.Bucket; streaming : Z }.

Definition kMaxStreamingClients : Z := 32.
Definition kRead : Z := 100.
Definition kMutating : Z := 10.

Definition q (s : string) : bytes := quoted (str s).

Definition jsonOk (es : list Effect) (data : bytes) : Outcome :=
  {| status := 200; resBody := str "{" ++ q "status" ++ str ":" ++ q "ok" ++ str "," ++ q "data" ++ str ":" ++ data ++ str "}";
     effects := es |}.

Definition jsonError (code : Z) (msg : bytes) : Outcome :=
  {| status := code;
     resBody := str "{" ++ q "status" ++ str ":" ++ q "error" ++ str "," ++ q "error" ++ str ":" ++ Json.quote msg ++ str "}";
     effects := [] |}.

Definition after (es : list Effect) (o : Outcome) : Outcome :=
  {| status := status o; resBody := resBody o; effects := es ++ effects o |}.

Definition orThrow {A} (r : bytes + A) (k : A -> Outcome) : Outcome :=
  match r with inl e => jsonError 500 e | inr a => k a end.

Section handlers.
Context (sha256 : bytes -> bytes) (config : Auth.Config) (env : Env) (req : Request).

Definition isAuthorized (role : string) : bool := Auth.isAuthorized sha256 (authReq req) config (str role) (wall env).
Definition isAuthorizedForContainer (role : string) (name : bytes) : bool :=
  Auth.isAuthorizedForContainer sha256 (authReq req) config (str role) name (wall env).

(** The guard at the head of most handlers. *)
Definition forContainer (role : string) (name : bytes) (k : Outcome) : Outcome :=
  if negb (isAuthorizedForContainer role name) then jsonError 403 (str "unauthorized") else k.

Definition ambiguous (name : bytes) : Outcome :=
  jsonError 409 (str "more than one running jail is named '" ++ name ++ str "'; use its jail name or jid").

Definition findRouteJail (role : string) (name : bytes) (k : JailInfo -> Outcome) : Outcome :=
  match findContainer (jails env) name with
  | (None, matches) => if 1 <? matches then ambiguous name else jsonError 404 (str "container not found")
  | (Some jail, _) =>
      if negb (beq (ji_name jail) name) && negb (isAuthorizedForContainer role (ji_name jail))
      then jsonError 403 (str "unauthorized") else k jail
  end.

(** The jail a route may stop before it goes on: none runs, or an authorized
    one does. *)
Definition findRunning (role : string) (name : bytes) (k : option JailInfo -> Outcome) : Outcome :=
  let '(jail, matches) := findContainer (jails env) name in
  match jail with
  | None => if 1 <? matches then ambiguous name else k None
  | Some j =>
      if negb (beq (ji_name j) name) && negb (isAuthorizedForContainer role (ji_name j))
      then jsonError 403 (str "unauthorized") else k (Some j)
  end.

Definition specPathForContainer (containerName : bytes) : bytes :=
  let conventional := str "/var/run/crate/" ++ containerName ++ str ".crate" in
  let fallback := if fileExists env conventional then conventional else [] in
  match (match registry env with inl e => inl e | inr f => SpecRegistry.lookup containerName f end) with
  | inr p => if negb (is_empty p) && fileExists env p then p else fallback
  | inl _ => fallback
  end.

(** ** F1 *)

Definition handleListContainers : Outcome := orThrow (jls env) (fun out => jsonOk [ShowJails] out).

Definition handleContainerGui (name : bytes) : Outcome :=
  orThrow (guiFile env) (fun f =>
    match GuiRegistry.findByTarget name (GuiRegistry.lock f) with
    | None => jsonError 404 (str "no GUI session for container '" ++ name ++ str "'")
    | Some e =>
        jsonOk [ShowGui name e]
          (str "{" ++ q "display" ++ str ":" ++ dec (GuiRegistry.displayNum e)
           ++ str "," ++ q "pid" ++ str ":" ++ dec_signed (GuiRegistry.ownerPid e)
           ++ str "," ++ q "xpid" ++ str ":" ++ dec_signed (GuiRegistry.xServerPid e)
           ++ str "," ++ q "vnc_port" ++ str ":" ++ dec (GuiRegistry.vncPort e)
           ++ str "," ++ q "ws_port" ++ str ":" ++ dec (GuiRegistry.wsPort e)
           ++ str "," ++ q "mode" ++ str ":" ++ quoted (GuiRegistry.mode e)
           ++ str "," ++ q "jail" ++ str ":" ++ quoted (GuiRegistry.jailName e) ++ str "}")
    end).

Definition handleHostInfo : Outcome :=
  orThrow (hostInfo env) (fun '(hostname, osrelease, machine, ncpu, physmem) =>
    jsonOk [ShowHost]
      (str "{" ++ q "hostname" ++ str ":" ++ quoted hostname ++ str "," ++ q "osrelease" ++ str ":" ++ quoted osrelease
       ++ str "," ++ q "machine" ++ str ":" ++ quoted machine ++ str "," ++ q "ncpu" ++ str ":" ++ dec_signed ncpu
       ++ str "," ++ q "physmem" ++ str ":" ++ dec physmem ++ str "}")).

Definition handleMetrics : Outcome := {| status := 200; resBody := metrics env; effects := [ShowMetrics] |}.

(** ** F2 *)

(** [k=v] lines. *)
Definition keyValue (line : bytes) : option (bytes * bytes) :=
  (fun eq => (take eq line, drop (S eq) line)) <$> find_char "=" line.

Definition usageMap (raw : bytes) : list (bytes * bytes) :=
  fold_left (fun m line => match keyValue line with Some (k, v) => OMap.insert k v m | None => m end) (getlines raw) [].

Definition handleContainerStats (name : bytes) : Outcome :=
  forContainer "viewer" name (findRouteJail "viewer" name (fun jail =>
    orThrow (rctlUsage env (ji_jid jail)) (fun out =>
      jsonOk [ShowUsage jail]
        (str "{" ++ q "name" ++ str ":" ++ quoted (ji_name jail) ++ str "," ++ q "jid" ++ str ":" ++ dec_signed (ji_jid jail)
         ++ str "," ++ q "ip" ++ str ":" ++ quoted (ji_ip4 jail)
         ++ concat (map (fun kv => str "," ++ quoted (fst kv) ++ str ":" ++ snd kv) (usageMap out)) ++ str "}")))).

(** The number of looks, each a second after the other, that still saw the
    jail; [None] when it outlived them all. *)
Fixpoint waitGone (looks i : nat) : option nat :=
  match looks with
  | O => None
  | S l => if stillThere env i then waitGone l (S i) else Some i
  end.

Definition stopped (jail : JailInfo) (more : bytes) : bytes :=
  str "{" ++ q "stopped" ++ str ":true," ++ q "name" ++ str ":" ++ quoted (ji_name jail) ++ more ++ str "}".

Definition handleContainerStop (name : bytes) : Outcome :=
  forContainer "admin" name (findRouteJail "admin" name (fun jail =>
    after [SignalAll jail "TERM"]
      (match waitGone 10 0 with
       | Some _ => jsonOk [] (stopped jail [])
       | None =>
           let removal := if killSucceeds env && stillThere env 10 then [RemoveJail jail] else [] in
           after (SignalAll jail "KILL" :: removal) (jsonOk [] (stopped jail (str "," ++ q "forced" ++ str ":true")))
       end))).

Definition spawned (what containerName : bytes) (pid : Z) : bytes :=
  str "{" ++ quoted what ++ str ":true," ++ q "async" ++ str ":true," ++ q "pid" ++ str ":" ++ dec_signed pid
  ++ str "," ++ q "name" ++ str ":" ++ Json.quote containerName ++ str "}".

Definition handleContainerStart (name : bytes) : Outcome :=
  forContainer "admin" name
    (let '(running, matches) := findContainer (jails env) name in
     if (match running with Some _ => true | None => false end) || (0 <? matches) then
       jsonError 409 (str "container already running")
     else
       let containerName := RunPure.containerNameOf name in
       let crateFile := specPathForContainer containerName in
       if is_empty crateFile then jsonError 404 (str "no saved .crate file for '" ++ containerName ++ str "'")
       else match fork env with
       | None => jsonError 500 (str "failed to start container: fork failed")
       | Some pid => jsonOk [StartContainer containerName crateFile 0] (spawned (str "started") containerName pid)
       end).

Definition boolText (b : bool) : bytes := if b then str "true" else str "false".

Definition handleContainerDestroy (name : bytes) : Outcome :=
  forContainer "admin" name (findRunning "admin" name (fun jail =>
    let done_ wasRunning := jsonOk []
      (str "{" ++ q "destroyed" ++ str ":" ++ boolText wasRunning ++ str "," ++ q "was_running" ++ str ":" ++ boolText wasRunning
       ++ str "," ++ q "name" ++ str ":" ++ quoted name ++ str "}") in
    match jail with
    | None => done_ false
    | Some j =>
        after [StopJail j 10]
          (match stopCrate env (ji_name j) with
           | inl e => jsonError 500 (str "stop failed: " ++ e)
           | inr false => jsonError 500 (str "stop returned failure")
           | inr true => done_ true
           end)
    end)).

(** [std::stoi] of the parameter; 100 by default and on any exception. *)
Definition tailLines : Z := default 100 (stoi (params req (str "tail"))).

Definition handleContainerLogs (st : State) (name : bytes) : Outcome * State :=
  let followParam := params req (str "follow") in
  let follow := beq followParam (str "true") || beq followParam (str "1") in
  let body := fun jail =>
    let logPath := str "/var/log/crate/" ++ ji_name jail ++ str "/console.log" in
    if negb follow then
      orThrow (tailLog env tailLines logPath) (fun out =>
        jsonOk [ShowLog jail tailLines]
          (str "{" ++ q "name" ++ str ":" ++ quoted (ji_name jail) ++ str "," ++ q "log" ++ str ":" ++ Json.quote out ++ str "}"))
    else if kMaxStreamingClients <=? streaming st then
      jsonError 503 (str "log-stream concurrency limit reached (" ++ dec kMaxStreamingClients ++ str " clients); retry shortly")
    else {| status := 200; resBody := []; effects := [FollowLog jail] |} in
  let o := forContainer "viewer" name (findRouteJail "viewer" name body) in
  (o, match effects o with
      | [FollowLog _] => {| buckets := buckets st; streaming := streaming st + 1 |}
      | _ => st
      end).

Definition handleContainerRestart (name : bytes) : Outcome :=
  forContainer "admin" name (findRunning "admin" name (fun jail =>
    let containerName := match jail with Some j => containerOf j | None => RunPure.containerNameOf name end in
    let crateFile := specPathForContainer containerName in
    if is_empty crateFile then
      jsonError 404 (str "no saved .crate file for '" ++ containerName ++ str "'; "
        ++ match jail with Some _ => str "the container keeps running" | None => str "nothing to restart" end)
    else
      let run := match fork env with
                 | None => jsonError 500 (str "failed to start container after stop: fork failed")
                 | Some pid => jsonOk [StartContainer containerName crateFile 0] (spawned (str "restarted") containerName pid)
                 end in
      match jail with
      | None => run
      | Some j =>
          after [StopJail j 10]
            (match stopCrate env (ji_name j) with
             | inl e => jsonError 500 (str "stop phase failed: " ++ e)
             | inr false => jsonError 500 (str "stop phase returned failure")
             | inr true => run
             end)
      end)).

(** ** Snapshots *)

Definition datasetForJail (name : bytes) : bytes :=
  match getJailByName (jails env) name with
  | Some jail => getZfsDataset env (ji_path jail)
  | None => name
  end.

Definition withDataset (name : bytes) (k : bytes -> Outcome) : Outcome :=
  let ds := datasetForJail name in
  if is_empty ds then jsonError 404 (str "container or dataset not found") else k ds.

Definition renderSnapshot (s : SnapshotInfo) : bytes :=
  let shortName := match find_char "@" (sn_name s) with Some at_ => drop (S at_) (sn_name s) | None => sn_name s end in
  str "{" ++ q "name" ++ str ":" ++ quoted shortName ++ str "," ++ q "used" ++ str ":" ++ quoted (sn_used s)
  ++ str "," ++ q "refer" ++ str ":" ++ quoted (sn_refer s) ++ str "," ++ q "creation" ++ str ":" ++ quoted (sn_creation s) ++ str "}".

Definition handleListSnapshots (name : bytes) : Outcome :=
  forContainer "viewer" name (withDataset name (fun ds =>
    orThrow (listSnapshots env ds) (fun snaps =>
      jsonOk [ShowSnapshots ds]
        (str "{" ++ q "dataset" ++ str ":" ++ quoted ds ++ str "," ++ q "snapshots" ++ str ":["
         ++ joined (str ",") (map renderSnapshot snaps) ++ str "]}")))).

Definition dropEnd (n : nat) (s : bytes) : bytes := take (length s - n) s.

(** The date is ISO 8601's, without its ten bytes of time.
    [strftime(buf, n, "auto_%Y-%m-%d_%H%M%S", gmtime)] *)
Definition autoName (t : Z) : bytes :=
  let tm := Calendar.gmtime t in
  str "auto_" ++ dropEnd 10 (Calendar.strftimeIso tm) ++ str "_" ++ Calendar.pad2 (Calendar.tm_hour tm)
  ++ Calendar.pad2 (Calendar.tm_min tm) ++ Calendar.pad2 (Calendar.tm_sec tm).

Definition validSnapshot (snap : bytes) (k : Outcome) : Outcome :=
  let reason := validateSnapshotName snap in if negb (is_empty reason) then jsonError 400 reason else k.

Definition handleCreateSnapshot (name : bytes) : Outcome :=
  forContainer "admin" name (withDataset name (fun ds =>
    let given := extractStringField (body req) (str "name") in
    let snapName := if is_empty given then autoName (wall env) else given in
    validSnapshot snapName
      (let fullName := ds ++ str "@" ++ snapName in
       after [CreateSnap ds snapName] (orThrow (zfsSnapshot env fullName) (fun _ =>
         jsonOk [] (str "{" ++ q "created" ++ str ":true," ++ q "snapshot" ++ str ":" ++ quoted fullName ++ str "}")))))).

Definition handleDeleteSnapshot (name snap : bytes) : Outcome :=
  forContainer "admin" name (validSnapshot snap (withDataset name (fun ds =>
    let fullName := ds ++ str "@" ++ snap in
    after [DestroySnap ds snap] (orThrow (zfsDestroy env fullName) (fun _ =>
      jsonOk [] (str "{" ++ q "deleted" ++ str ":true," ++ q "snapshot" ++ str ":" ++ quoted fullName ++ str "}")))))).

(** ** The stream of statistics *)

Definition handleStatsStream (name : bytes) : Outcome :=
  forContainer "viewer" name (findRouteJail "viewer" name (fun jail =>
    {| status := 200; resBody := []; effects := [StreamUsage jail] |})).

(** One round of the loop behind it: [inl] is the last event. *)
Definition statsTick (jail : JailInfo) (there : bool) : bytes + bytes :=
  if negb there then
    inl (str "event: end" ++ [newline] ++ str "data: {" ++ q "reason" ++ str ":" ++ q "jail-gone" ++ str "}" ++ [newline; newline])
  else
    let usage := match rctlUsage env (ji_jid jail) with
                 | inr out => omap keyValue (getlines out)
                 | inl _ => []
                 end in
    inr (formatStatsSseEvent {| si_name := ji_name jail; si_jid := ji_jid jail; si_ip := ji_ip4 jail; si_usage := usage |} (wall env)).

(** ** Transfers *)

Definition ARTIFACT_DIR : bytes := str "/var/run/crate".

Definition validArtifact (name : bytes) (k : Outcome) : Outcome :=
  let reason := validateArtifactName name in if negb (is_empty reason) then jsonError 400 reason else k.

Definition handleContainerExport (name : bytes) : Outcome :=
  forContainer "admin" name (findRouteJail "admin" name (fun jail =>
    let filename := ji_name jail ++ str "-" ++ dec (wall env) ++ str ".crate" in
    validArtifact filename
      (let outPath := ARTIFACT_DIR ++ str "/" ++ filename in
       after [PackJail jail outPath] (orThrow (packJail env jail outPath) (fun _ =>
         match statSize env outPath with
         | None => jsonError 500 (str "export pipeline produced no output file")
         | Some size => jsonOk [] (formatExportResponse filename size (sha256OfFile env outPath))
         end))))).

Definition handleExportDownload (filename : bytes) : Outcome :=
  validArtifact filename
    (let containerName := artifactContainerName filename in
     if is_empty containerName then jsonError 400 (str "artifact name is not <container>-<time>.crate")
     else forContainer "admin" containerName
       (let path := ARTIFACT_DIR ++ str "/" ++ filename in
        match statSize env path with
        | None => jsonError 404 (str "artifact not found")
        | Some _ => if negb (openFile env path) then jsonError 500 (str "open failed")
                    else {| status := 200; resBody := []; effects := [SendFile path] |}
        end)).

Definition handleContainerImport (name : bytes) : Outcome :=
  forContainer "admin" name (validArtifact (name ++ str ".crate")
    (if is_empty (body req) then jsonError 400 (str "empty body — expected raw .crate octet-stream")
     else match sniffArchiveType (take 16 (body req)) with
     | UnknownArchive => jsonError 400 (str "body is not a crate archive (xz or openssl-encrypted)")
     | _ =>
         let filename := name ++ str ".crate" in
         let outPath := ARTIFACT_DIR ++ str "/" ++ filename in
         match upload env with
         | OpenFails => jsonError 500 (str "open temp failed")
         | WriteFails => jsonError 500 (str "write failed")
         | RenameFails => jsonError 500 (str "rename failed")
         | Stored => jsonOk [StoreUpload outPath] (formatImportResponse filename (size_z (body req)) (sha256OfFile env outPath))
         end
     end)).

(** ** Privileged operations *)

Definition handlePrivOp (verbName : bytes) : Outcome :=
  if negb (isAuthorized "admin") then jsonError 403 (str "unauthorized")
  else
    let v := parseVerb verbName in
    let '(s, b) := privOp env v (body req) in
    {| status := s; resBody := b; effects := [RunPrivOp v (body req)] |}.

(** ** registerRoutes *)

Definition withRole (role : string) (k : Outcome) : Outcome :=
  if negb (isAuthorized role) then jsonError 403 (str "unauthorized") else k.

(** The endpoint of the rate limiter's key and its cap; the health check has
    none. *)
Definition limit (r : Route) : option (string * Z) :=
  match r with
  | Healthz => None
  | ListContainers => Some ("/api/v1/containers", kRead)
  | Gui _ => Some ("/api/v1/containers/gui", kRead)
  | Host => Some ("/api/v1/host", kRead)
  | Metrics => Some ("/metrics", kRead)
  | Stats _ => Some ("/api/v1/containers/stats", kRead)
  | Logs _ => Some ("/api/v1/containers/logs", kRead)
  | Stop _ => Some ("/api/v1/containers/stop", kMutating)
  | Start _ => Some ("/api/v1/containers/start", kMutating)
  | Destroy _ => Some ("/api/v1/containers/destroy", kMutating)
  | Restart _ => Some ("/api/v1/containers/restart", kMutating)
  | ListSnapshots _ => Some ("/api/v1/containers/snapshots-list", kRead)
  | CreateSnapshot _ => Some ("/api/v1/containers/snapshots-create", kMutating)
  | DeleteSnapshot _ _ => Some ("/api/v1/containers/snapshots-delete", kMutating)
  | StatsStream _ => Some ("/api/v1/containers/stats-stream", kRead)
  | Export _ => Some ("/api/v1/containers/export", kMutating)
  | ExportDownload _ => Some ("/api/v1/exports/download", kRead)
  | Import_ _ => Some ("/api/v1/imports", kMutating)
  | PrivOp _ => Some ("/api/v1/privops", kMutating)
  end%string.

Definition handle (st : State) (r : Route) : Outcome * State :=
  match r with
  | Healthz => ({| status := 200; resBody := str "{" ++ q "status" ++ str ":" ++ q "ok" ++ str "}"; effects := [] |}, st)
  | ListContainers => (withRole "viewer" handleListContainers, st)
  | Gui name => (forContainer "viewer" name (handleContainerGui name), st)
  | Host => (withRole "viewer" handleHostInfo, st)
  | Metrics => (handleMetrics, st)
  | Stats name => (handleContainerStats name, st)
  | Logs name => handleContainerLogs st name
  | Stop name => (handleContainerStop name, st)
  | Start name => (handleContainerStart name, st)
  | Destroy name => (handleContainerDestroy name, st)
  | Restart name => (handleContainerRestart name, st)
  | ListSnapshots name => (handleListSnapshots name, st)
  | CreateSnapshot name => (handleCreateSnapshot name, st)
  | DeleteSnapshot name snap => (handleDeleteSnapshot name snap, st)
  | StatsStream name => (handleStatsStream name, st)
  | Export name => (handleContainerExport name, st)
  | ExportDownload filename => (handleExportDownload filename, st)
  | Import_ name => (handleContainerImport name, st)
  | PrivOp verb => (handlePrivOp verb, st)
  end.

Definition limited (st : State) (r : Route) : Outcome * State :=
  match limit r with
  | None => handle st r
  | Some (endpoint, cap) =>
      let '(ok, bs) := RateLimit.check (buckets st) (getClientId req ++ str "|" ++ str endpoint) (wall env) cap in
      let st' := {| buckets := bs; streaming := streaming st |} in
      if negb ok then (jsonError 429 (str "rate limit exceeded"), st') else handle st' r
  end.

End handlers.

(** A request as the listener receives it: stamped, then handled. *)
Definition serve (sha256 : bytes -> bytes) (config : Auth.Config) (isUnixListener : bool) (env : Env) (st : State)
  (r : Route) (req : Request) : Outcome * State :=
  limited sha256 config env
    {| path := path req; headers := stamp isUnixListener (headers req); params := params req; body := body req;
       remote_addr := remote_addr req |} st r.

(** ** The listener's mark *)

Lemma getHeader_app hs hs' k : getHeader (hs ++ hs') k
  = match List.find (fun kv => sameHeader (fst kv) k) hs with Some kv => snd kv | None => getHeader hs' k end.
Proof. unfold getHeader. induction hs as [|kv hs IH]; cbn [app List.find]; [done|]. by destruct (sameHeader (fst kv) k). Qed.

(** Whatever headers the client sent, the mark is the listener's. *)
Lemma stamped_listener b hs : getHeader (stamp b hs) listenerHeader = if b then str "unix" else str "tcp".
Proof.
  unfold stamp. rewrite getHeader_app. assert (List.find (fun kv => sameHeader (fst kv) listenerHeader)
    (List.filter (fun kv => negb (sameHeader (fst kv) listenerHeader)) hs) = None) as ->; [|done].
  induction hs as [|kv hs IH]; [done|]. cbn [List.filter]. destruct (sameHeader (fst kv) listenerHeader) eqn:E; cbn [negb]; [done|].
  cbn [List.find]. by rewrite E.
Qed.

Lemma sameHeader_trans a b c : sameHeader a b = true -> sameHeader a c = sameHeader b c.
Proof. unfold sameHeader. by intros ->%beq_eq. Qed.

Lemma stamped_other b hs k : sameHeader listenerHeader k = false -> getHeader (stamp b hs) k = getHeader hs k.
Proof.
  intros Hk. unfold stamp. rewrite getHeader_app. induction hs as [|kv hs IH].
  - unfold getHeader. cbn [List.filter List.find fst]. by rewrite Hk.
  - cbn [List.filter]. unfold getHeader at 2. cbn [List.find]. destruct (sameHeader (fst kv) listenerHeader) eqn:E; cbn [negb].
    + rewrite (sameHeader_trans _ _ k E), Hk. exact IH.
    + cbn [List.find]. destruct (sameHeader (fst kv) k); [done|exact IH].
Qed.

(** ** What a token allows *)

#[local] Set Default Proof Using "Type*".

(** The container a route names, or the file. *)
Definition routeName (r : Route) : bytes :=
  match r with
  | Gui n | Stats n | Logs n | Stop n | Start n | Destroy n | Restart n | ListSnapshots n | CreateSnapshot n
  | DeleteSnapshot n _ | StatsStream n | Export n | ExportDownload n | Import_ n => n
  | _ => []
  end.

Section safety.
Context (sha256 : bytes -> bytes) (config : Auth.Config) (env : Env) (req : Request).
Hypothesis Hsep : sepOk (Auth.poolSeparator config).

(** The request presents a configured token that has not expired, whose scope
    covers the path, whose role suffices and whose pools include the container,
    where there is one. *)
Definition granted (role : string) (container : option bytes) : Prop :=
  exists t, Auth.presents sha256 config (authReq req) t
  /\ (Auth.expiresAt t = 0 \/ wall env <= Auth.expiresAt t)
  /\ (Auth.scope t = [] \/ exists p, In p (Auth.scope t) /\ Auth.covers p (path req))
  /\ (str role = str "viewer" \/ Auth.role t = str role \/ Auth.role t = str "admin")
  /\ match container with
     | None => True
     | Some c => Auth.pools t = [] \/ In (str "*") (Auth.pools t)
                 \/ (Auth.inferPool c (Auth.poolSeparator config) <> []
                     /\ In (Auth.inferPool c (Auth.poolSeparator config)) (Auth.pools t))
     end.

(** The container the route names, or the file. *)
Context (target : bytes).

(** The running jail that the route's name finds. *)
Definition named (j : JailInfo) : Prop := exists m, findContainer (jails env) target = (Some j, m).

(** The container started is the one the route names, or the one that the jail
    found under that name was running; its archive is the one on record. *)
Definition permitted (e : Effect) : Prop :=
  match e with
  | SignalAll j _ | RemoveJail j | StopJail j _ => named j /\ granted "admin" (Some (ji_name j))
  | StartContainer c file owner =>
      owner = 0 /\ file = specPathForContainer env c
      /\ ((c = RunPure.containerNameOf target /\ granted "admin" (Some c))
          \/ exists j, named j /\ granted "admin" (Some (ji_name j)) /\ c = containerOf j)
  | CreateSnap ds s | DestroySnap ds s =>
      validateSnapshotName s = [] /\ granted "admin" (Some target) /\ ds = datasetForJail env target
  | PackJail j p => named j /\ granted "admin" (Some (ji_name j))
      /\ exists t, p = ARTIFACT_DIR ++ str "/" ++ ji_name j ++ str "-" ++ dec t ++ str ".crate" /\ ~ In "/"%char (ji_name j)
  | StoreUpload p => p = ARTIFACT_DIR ++ str "/" ++ target ++ str ".crate" /\ ~ In "/"%char target /\ granted "admin" (Some target)
  | SendFile p => p = ARTIFACT_DIR ++ str "/" ++ target /\ ~ In "/"%char target /\ granted "admin" (Some (artifactContainerName target))
  | RunPrivOp _ _ => granted "admin" None
  | ShowJails | ShowHost => granted "viewer" None
  | ShowMetrics => True
  | ShowGui n _ => n = target /\ granted "viewer" (Some n)
  | ShowUsage j | StreamUsage j | ShowLog j _ | FollowLog j => named j /\ granted "viewer" (Some (ji_name j))
  | ShowSnapshots ds => granted "viewer" (Some target) /\ ds = datasetForJail env target
  end.

(** The request on the TCP listener. *)
Definition onTcp : Request :=
  {| path := path req; headers := stamp false (headers req); params := params req; body := body req;
     remote_addr := remote_addr req |}.

Lemma tcp_not_unix : Auth.isUnixSocketPeer (authReq onTcp) = false.
Proof. unfold Auth.isUnixSocketPeer. cbn [Auth.r_header authReq headers onTcp]. by rewrite stamped_listener. Qed.

Lemma presents_onTcp t : Auth.presents sha256 config (authReq onTcp) t -> Auth.presents sha256 config (authReq req) t.
Proof. unfold Auth.presents. cbn [Auth.r_header authReq headers onTcp]. by rewrite stamped_other. Qed.

Lemma granted_container role name : isAuthorizedForContainer sha256 config env onTcp role name = true -> granted role (Some name).
Proof.
  intros (t & Hp%presents_onTcp & H)%Auth.container_access_iff; [|apply tcp_not_unix]. by exists t.
Qed.

Lemma granted_role role : isAuthorized sha256 config env onTcp role = true -> granted role None.
Proof.
  intros (t & Hp%presents_onTcp & H1 & H2 & H3)%Auth.isAuthorized_token; [|apply tcp_not_unix]. by exists t.
Qed.

Lemma granted_start n : granted "admin" (Some n) -> granted "admin" (Some (RunPure.containerNameOf n)).
Proof. unfold granted. by rewrite container_pool. Qed.

Definition ok (o : Outcome) : Prop := Forall permitted (effects o).

Lemma ok_error code msg : ok (jsonError code msg).
Proof. constructor. Qed.

Lemma ok_quiet d : ok (jsonOk [] d).
Proof. constructor. Qed.

Lemma ok_after es o : Forall permitted es -> ok o -> ok (after es o).
Proof. intros H1 H2. by apply Forall_app. Qed.

Lemma ok_throw {A} (r : bytes + A) k : (forall a, ok (k a)) -> ok (orThrow r k).
Proof. intros H. destruct r; [apply ok_error|apply H]. Qed.

Lemma forContainer_ok role name k : (granted role (Some name) -> ok k) -> ok (forContainer sha256 config env onTcp role name k).
Proof.
  intros H. unfold forContainer. destruct (isAuthorizedForContainer _ _ _ _ _ _) eqn:E; [|apply ok_error].
  by apply H, granted_container.
Qed.

Lemma withRole_ok role k : (granted role None -> ok k) -> ok (withRole sha256 config env onTcp role k).
Proof.
  intros H. unfold withRole. destruct (isAuthorized _ _ _ _ _) eqn:E; [|apply ok_error]. by apply H, granted_role.
Qed.

Lemma named_granted role name (j : JailInfo) (k : Outcome) : granted role (Some name) -> (granted role (Some (ji_name j)) -> ok k) ->
  ok (if negb (beq (ji_name j) name) && negb (isAuthorizedForContainer sha256 config env onTcp role (ji_name j))
      then jsonError 403 (str "unauthorized") else k).
Proof.
  intros Hn Hk. destruct (beq_spec (ji_name j) name) as [E|]; cbn [negb andb]; [apply Hk; by rewrite E|].
  destruct (isAuthorizedForContainer _ _ _ _ _ _) eqn:E; [|apply ok_error]. by apply Hk, granted_container.
Qed.

Lemma findRouteJail_ok role k : granted role (Some target) -> (forall j, named j -> granted role (Some (ji_name j)) -> ok (k j)) ->
  ok (findRouteJail sha256 config env onTcp role target k).
Proof.
  intros Hn Hk. unfold findRouteJail. destruct (findContainer (jails env) target) as [[j|] m] eqn:E.
  - apply named_granted; [done|]. apply Hk. by exists m.
  - destruct (1 <? m); apply ok_error.
Qed.

Lemma findRunning_ok role k : granted role (Some target) ->
  (forall j, named j -> granted role (Some (ji_name j)) -> ok (k (Some j))) -> ok (k None) ->
  ok (findRunning sha256 config env onTcp role target k).
Proof.
  intros Hn Hk H0. unfold findRunning. destruct (findContainer (jails env) target) as [[j|] m] eqn:E.
  - apply named_granted; [done|]. apply Hk. by exists m.
  - destruct (1 <? m); [apply ok_error|done].
Qed.

Lemma withDataset_ok name k : (forall ds, ds = datasetForJail env name -> ok (k ds)) -> ok (withDataset env name k).
Proof. intros H. unfold withDataset. destruct (is_empty _); [apply ok_error|by apply H]. Qed.

Lemma validSnapshot_ok s k : (validateSnapshotName s = [] -> ok k) -> ok (validSnapshot s k).
Proof. intros H. unfold validSnapshot. destruct (validateSnapshotName s); [by apply H|apply ok_error]. Qed.

Lemma validArtifact_ok s k : (~ In "/"%char s -> ok k) -> ok (validArtifact s k).
Proof.
  intros H. unfold validArtifact. destruct (validateArtifactName s) eqn:E; [|apply ok_error].
  apply H. by apply artifact_one_component in E as (_ & ? & _).
Qed.

(** One layer of a handler. *)
Ltac layer :=
  cbv beta zeta;
  match goal with
  | |- ok (jsonError _ _) => apply ok_error
  | |- ok (ambiguous _) => apply ok_error
  | |- ok (jsonOk [] _) => apply ok_quiet
  | |- ok (after _ _) => apply ok_after
  | |- ok (orThrow _ _) => apply ok_throw; intros ?
  | |- ok (forContainer _ _ _ _ _ _ _) => apply forContainer_ok; intros ?
  | |- ok (findRouteJail _ _ _ _ _ _ _) => apply findRouteJail_ok; [assumption|intros ? ? ?]
  | |- ok (findRunning _ _ _ _ _ _ _) => apply findRunning_ok; [assumption|intros ? ? ?|]
  | |- ok (withDataset _ _ _) => apply withDataset_ok; intros ? ?
  | |- ok (validSnapshot _ _) => apply validSnapshot_ok; intros ?
  | |- ok (validArtifact _ _) => apply validArtifact_ok; intros ?
  | |- ok (withRole _ _ _ _ _ _) => apply withRole_ok; intros ?
  | |- ok (if ?b then _ else _) => destruct b
  | |- ok (match ?x with _ => _ end) => destruct x
  end.

Ltac each := repeat first [apply Forall_nil_2 | apply Forall_cons_2].

Lemma api_start_ok : ok (handleContainerStart sha256 config env onTcp target).
Proof.
  unfold handleContainerStart. layer. destruct (findContainer (jails env) target) as [r m]. repeat layer.
  each. split; [done|]. split; [done|]. left. split; [done|]. by apply granted_start.
Qed.

Lemma api_stop_ok : ok (handleContainerStop sha256 config env onTcp target).
Proof. unfold handleContainerStop. repeat layer; each; try done. destruct (_ && _); each; done. Qed.

Lemma destroy_ok : ok (handleContainerDestroy sha256 config env onTcp target).
Proof. unfold handleContainerDestroy. repeat layer; each; done. Qed.

Lemma api_restart_ok : ok (handleContainerRestart sha256 config env onTcp target).
Proof.
  unfold handleContainerRestart. repeat layer; each; try done.
  - split; [done|]. split; [done|]. right. eauto.
  - split; [done|]. split; [done|]. left. split; [done|]. by apply granted_start.
Qed.

Lemma logs_ok st : ok (fst (handleContainerLogs sha256 config env onTcp st target)).
Proof. unfold handleContainerLogs. cbn [fst]. repeat layer; each; done. Qed.

Lemma export_ok : ok (handleContainerExport sha256 config env onTcp target).
Proof.
  unfold handleContainerExport. repeat layer; each. split; [done|]. split; [done|]. exists (wall env). split; [done|].
  intros Hin. match goal with H : ~ In _ _ |- _ => apply H end. apply in_app_iff. by left.
Qed.

Lemma import_ok : ok (handleContainerImport sha256 config env onTcp target).
Proof.
  unfold handleContainerImport. repeat layer; each; (split; [done|]);
    (split; [|done]); intros Hin; match goal with H : ~ In _ _ |- _ => apply H end; apply in_app_iff; by left.
Qed.

Lemma download_ok : ok (handleExportDownload sha256 config env onTcp target).
Proof. unfold handleExportDownload. repeat layer; each; done. Qed.

Lemma snapshots_ok snap : ok (handleListSnapshots sha256 config env onTcp target)
  /\ ok (handleCreateSnapshot sha256 config env onTcp target) /\ ok (handleDeleteSnapshot sha256 config env onTcp target snap).
Proof.
  unfold handleListSnapshots, handleCreateSnapshot, handleDeleteSnapshot. repeat split; repeat layer; each; done.
Qed.

Lemma privOp_ok verb : ok (handlePrivOp sha256 config env onTcp verb).
Proof.
  unfold handlePrivOp. destruct (isAuthorized _ _ _ _ _) eqn:E; [|apply ok_error]. cbn [negb].
  destruct (privOp env _ _). constructor; [by apply granted_role|constructor].
Qed.

Lemma handle_ok st r : routeName r = target -> ok (fst (handle sha256 config env onTcp st r)).
Proof.
  intros E. destruct r; cbn [routeName] in E; try subst; cbn [handle fst]; try (repeat constructor; done);
    auto using api_start_ok, api_stop_ok, destroy_ok, api_restart_ok, logs_ok, export_ok, import_ok, download_ok, privOp_ok.
  - unfold handleListContainers. repeat layer. by repeat constructor.
  - unfold handleContainerGui. repeat layer. by repeat constructor.
  - unfold handleHostInfo. repeat layer. by repeat constructor.
  - unfold handleContainerStats. repeat layer. by repeat constructor.
  - apply (snapshots_ok []).
  - apply (snapshots_ok []).
  - apply snapshots_ok.
  - unfold handleStatsStream. repeat layer. by repeat constructor.
Qed.

End safety.


(** The GUI route never finds a session: it searches the registry without
    reading its file, so a client that may ask for a container's display and VNC
    ports is told there is no session, whatever the registry holds. *)
Theorem gui_route_finds_nothing sha256 config isUnix env st name req :
  let o := fst (serve sha256 config isUnix env st (Gui name) req) in
  (status o = 429 \/ status o = 403 \/ status o = 404 \/ status o = 500) /\ effects o = [].
Proof.
  unfold serve, limited. cbn [limit]. destruct (RateLimit.check _ _ _ _) as [[] bs]; cbn [negb]; [|cbn; tauto].
  cbn [handle fst]. unfold forContainer. destruct (isAuthorizedForContainer _ _ _ _ _ _); cbn [negb]; [|cbn; tauto].
  unfold handleContainerGui, orThrow. destruct (guiFile env) as [|f]; [cbn; tauto|].
  rewrite GuiRegistry.findByTarget_unread. cbn. tauto.
Qed.

(** ** A host with two pools *)

Definition devJail : JailInfo :=
  {| ji_jid := 7; ji_name := str "dev-web_pid42"; ji_path := str "/var/run/crate/jail-dev-web-0a1b2c3d";
     ji_hostname := str "dev-web"; ji_ip4 := str "10.66.0.2"; ji_dying := false |}.

Definition prodJail : JailInfo :=
  {| ji_jid := 8; ji_name := str "prod-db_pid43"; ji_path := str "/var/run/crate/jail-prod-db-0a1b2c3e";
     ji_hostname := str "prod-db"; ji_ip4 := str "10.66.0.3"; ji_dying := false |}.

Definition host : Env :=
  {| jails := hostJails [devJail; prodJail]; stillThere := fun i => (i <? 2)%nat; killSucceeds := true;
     jls := inr (str "{}");
     guiFile := inr (str "42 10 43 5910 0 headless dev-web_pid42" ++ [newline]);
     hostInfo := inl []; metrics := []; registry := inr None; fileExists := fun _ => true; stopCrate := fun _ => inr true;
     fork := Some 4711; rctlUsage := fun _ => inl []; tailLog := fun _ _ => inl []; getZfsDataset := fun _ => str "tank/dev";
     listSnapshots := fun _ => inr []; zfsSnapshot := fun _ => inr tt; zfsDestroy := fun _ => inr tt;
     packJail := fun _ _ => inr tt; statSize := fun _ => Some 1; openFile := fun _ => true; upload := Stored;
     sha256OfFile := fun _ => []; privOp := fun _ _ => (200, []); wall := 1700000000 |}.

Definition poolToken (role : string) : Auth.AuthToken :=
  {| Auth.t_name := str "team"; Auth.tokenHash := str "secret"; Auth.role := str role; Auth.expiresAt := 0; Auth.scope := [];
     Auth.pools := [str "dev"] |}.
Definition poolConfig (role : string) : Auth.Config := {| Auth.tokens := [poolToken role]; Auth.poolSeparator := "-"%char |}.

(** A client that also claims to sit on the Unix socket. *)
Definition teamRequest : Request :=
  {| path := str "/api"; headers := [(str "x-crated-listener", str "unix"); (str "authorization", str "Bearer secret")];
     params := fun _ => []; body := []; remote_addr := str "192.0.2.1" |}.

Definition askApi (role : string) (r : Route) : Z * list Effect :=
  let o := fst (serve (fun t => t) (poolConfig role) false host {| buckets := ∅; streaming := 0 |} r teamRequest) in
  (status o, effects o).


Example team_stops_its_own : askApi "admin" (Stop (str "dev-web")) = (200, [SignalAll devJail "TERM"]).
Proof. vm_compute. reflexivity. Qed.

Example team_not_others : askApi "admin" (Stop (str "prod-db")) = (403, []) /\ askApi "admin" (Stop (str "8")) = (403, []).
Proof. vm_compute. split; reflexivity. Qed.

(** Two routes have no pool to judge by: a viewer of one pool is shown every jail
    of the host, and an admin of one pool runs privileged operations on any jail. *)
Lemma pools_do_not_bind_all_routes :
  askApi "viewer" ListContainers = (200, [ShowJails])
  /\ askApi "admin" (PrivOp (str "destroy_jail")) = (200, [RunPrivOp DestroyJail []]).
Proof. vm_compute. split; reflexivity. Qed.

End Routes.
