(* ===== verification/HubPure.v ===== *)
(** * Decisions of the hub: hub/aggregator_pure.cpp, hub/datacenter_pure.cpp, hub/scheduling_pure.cpp, hub/ha_pure.cpp

    What the hub computes from the nodes it polls: summaries, the container list
    of a node's reply, placement and failover.  [std::sort] is the interface of
    OMap.v. *)

From Stdlib Require Import Permutation Sorted.
From S2P Require Import Prelude CStd OMap Wire RoutesPure.

Module HubPure.
Import CStd RoutesPure.

(** ** aggregator_pure.cpp *)

(** Also the node view of scheduling_pure.h, which has the same fields. *)
Record NodeView := { nv_name : bytes; nv_host : bytes; reachable : bool; containerCount : Z }.

(** A summary of nodes, and of one datacenter's. *)
Record Summary := { nodesTotal : Z; nodesReachable : Z; nodesDown : Z; containersTotal : Z }.

Definition noNodes : Summary := {| nodesTotal := 0; nodesReachable := 0; nodesDown := 0; containersTotal := 0 |}.

(** The counters are [unsigned]. *)
Definition countNode (s : Summary) (n : NodeView) : Summary :=
  if reachable n then
    {| nodesTotal := nodesTotal s; nodesReachable := u32 (nodesReachable s + 1); nodesDown := nodesDown s;
       containersTotal := u32 (containersTotal s + containerCount n) |}
  else {| nodesTotal := nodesTotal s; nodesReachable := nodesReachable s; nodesDown := u32 (nodesDown s + 1);
          containersTotal := containersTotal s |}.

Definition summarise (nodes : list NodeView) : Summary :=
  fold_left countNode nodes
    {| nodesTotal := u32 (size_z nodes); nodesReachable := 0; nodesDown := 0; containersTotal := 0 |}.

Definition q (s : string) : bytes := quoted (str s).

Definition renderCounts (s : Summary) : bytes :=
  q "nodes_total" ++ str ":" ++ dec (nodesTotal s) ++ str "," ++ q "nodes_reachable" ++ str ":" ++ dec (nodesReachable s)
  ++ str "," ++ q "nodes_down" ++ str ":" ++ dec (nodesDown s) ++ str "," ++ q "containers_total" ++ str ":" ++ dec (containersTotal s).

Definition renderSummaryJson (s : Summary) : bytes := str "{" ++ renderCounts s ++ str "}".

Definition trimWs (s : bytes) : bytes := rev (skipJsonWs (rev (skipJsonWs s))).

Record Scan := { sc_count : Z; sc_depth : Z; sc_inString : bool; sc_escape : bool; sc_seen : bool }.

Definition scanByte (s : Scan) (c : ascii) : Scan :=
  if sc_escape s then
    {| sc_count := sc_count s; sc_depth := sc_depth s; sc_inString := sc_inString s; sc_escape := false; sc_seen := sc_seen s |}
  else if sc_inString s then
    {| sc_count := sc_count s; sc_depth := sc_depth s; sc_inString := negb (Ascii.eqb c dquote);
       sc_escape := Ascii.eqb c Json.backslash; sc_seen := sc_seen s |}
  else if Ascii.eqb c dquote then
    {| sc_count := sc_count s; sc_depth := sc_depth s; sc_inString := true; sc_escape := false; sc_seen := true |}
  else if Ascii.eqb c "{" then
    {| sc_count := if sc_depth s =? 0 then sc_count s + 1 else sc_count s; sc_depth := sc_depth s + 1; sc_inString := false;
       sc_escape := false; sc_seen := true |}
  else if Ascii.eqb c "}" then
    {| sc_count := sc_count s; sc_depth := if 0 <? sc_depth s then sc_depth s - 1 else sc_depth s; sc_inString := false;
       sc_escape := false; sc_seen := sc_seen s |}
  else
    {| sc_count := sc_count s; sc_depth := sc_depth s; sc_inString := false; sc_escape := false;
       sc_seen := sc_seen s || negb (Json.jsonWs c || Ascii.eqb c ",") |}.

Definition countTopLevelObjects (json : bytes) : Z :=
  let t := trimWs json in
  if size_z t <? 2 then 0
  else match t with
  | c :: rest =>
      if negb (Ascii.eqb c "[") || negb (backIs "]" rest) then 0
      else
        let s := fold_left scanByte (removelast rest)
                   {| sc_count := 0; sc_depth := 0; sc_inString := false; sc_escape := false; sc_seen := false |} in
        if negb (sc_depth s =? 0) || sc_inString s then 0 else if negb (sc_seen s) then 0 else sc_count s
  | [] => 0
  end.

(** The bytes up to the bracket that closes the one the text starts with;
    [None] is npos.  [n] bytes were passed. *)
Fixpoint arrayEnd (depth : Z) (inStr esc : bool) (s : bytes) : option bytes :=
  match s with
  | [] => None
  | c :: t =>
      if esc then (cons c) <$> arrayEnd depth inStr false t
      else if inStr then (cons c) <$> arrayEnd depth (negb (Ascii.eqb c dquote)) (Ascii.eqb c Json.backslash) t
      else if Ascii.eqb c dquote then (cons c) <$> arrayEnd depth true false t
      else if Ascii.eqb c "[" || Ascii.eqb c "{" then (cons c) <$> arrayEnd (depth + 1) false false t
      else if Ascii.eqb c "]" || Ascii.eqb c "}" then
        if depth - 1 =? 0 then Some [c] else (cons c) <$> arrayEnd (depth - 1) false false t
      else (cons c) <$> arrayEnd depth false false t
  end.

(** A position in the body is the rest of it from there on. *)
Definition valueAfterKey (key from : bytes) : option bytes :=
  let needle := quoted key in
  p ← find_sub needle from;
  let after := drop (p + length needle) from in
  c ← find_char ":" after;
  Some (skipJsonWs (drop (S c) after)).

Definition startsArray (s : bytes) : bool := match s with c :: _ => Ascii.eqb c "[" | [] => false end.

Definition arrayAt (p : option bytes) : bytes :=
  match p with
  | Some s => if startsArray s then default [] (arrayEnd 0 false false s) else []
  | None => []
  end.

Definition orEmptyArray (arr : bytes) : bytes := if is_empty arr then str "[]" else arr.

Definition extractContainerArray (body : bytes) : bytes :=
  match skipJsonWs body with
  | [] => str "[]"
  | c :: _ as s =>
      if Ascii.eqb c "[" then orEmptyArray (arrayAt (Some s))
      else if negb (Ascii.eqb c "{") then str "[]"
      else
        let d := valueAfterKey (str "data") s in
        if match d with Some v => startsArray v | None => false end then orEmptyArray (arrayAt d)
        else
          let searchFrom := default s d in
          match valueAfterKey (str "jail-information") searchFrom with
          | Some ji => orEmptyArray (arrayAt (valueAfterKey (str "jail") ji))
          | None => str "[]"
          end
  end.

(** [host, port, ok] *)
Definition parsePort (portStr : bytes) (defaultPort : Z) : option Z :=
  if is_empty portStr then Some defaultPort
  else if 5 <? size_z portStr then None
  else if negb (forallb is_digit portStr) then None
  else let v := dec_value portStr in if (v <? 1) || (65535 <? v) then None else Some v.

Definition hostAndPort (host portStr : bytes) (defaultPort : Z) : option (bytes * Z) :=
  if is_empty host then None else (fun p => (host, p)) <$> parsePort portStr defaultPort.

Definition splitHostPort (spec : bytes) (defaultPort : Z) : option (bytes * Z) :=
  match spec with
  | [] => None
  | c :: rest =>
      if Ascii.eqb c "[" then
        match find_char "]" rest with
        | None => None
        | Some close =>
            let host := take close rest in
            match drop (S close) rest with
            | [] => hostAndPort host [] defaultPort
            | d :: portStr => if negb (Ascii.eqb d ":") then None
                              else if is_empty portStr then None else hostAndPort host portStr defaultPort
            end
        end
      else match find_char ":" spec with
      | None => hostAndPort spec [] defaultPort
      | Some i =>
          if has_char ":" (drop (S i) spec) then hostAndPort spec [] defaultPort
          else
            let portStr := drop (S i) spec in
            if is_empty portStr then None else hostAndPort (take i spec) portStr defaultPort
      end
  end.

(** ** datacenter_pure.cpp *)

Record DcView := { dv_node : NodeView; datacenter : bytes }.

Definition validateName (name : bytes) : bytes :=
  reject (is_empty name) with str "datacenter name is empty";
  reject (32 <? size_z name) with str "datacenter name longer than 32 chars";
  check_chars fileByte (str "datacenter name") name.

Definition canonicalName (raw : bytes) : bytes := if is_empty raw then str "default" else raw.

Definition onView (by_ : list (bytes * Summary)) (v : DcView) : list (bytes * Summary) :=
  let key := canonicalName (datacenter v) in
  let s := default noNodes (OMap.find key by_) in
  OMap.insert key (countNode {| nodesTotal := u32 (nodesTotal s + 1); nodesReachable := nodesReachable s;
                                nodesDown := nodesDown s; containersTotal := containersTotal s |} (dv_node v)) by_.

(** The summaries with their names, in the map's order. *)
Definition groupAndSummarise (views : list DcView) : list (bytes * Summary) := fold_left onView views [].

Definition renderJson (dcs : list (bytes * Summary)) : bytes :=
  str "[" ++ joined (str ",") (map (fun kv => str "{" ++ q "name" ++ str ":" ++ quoted (fst kv) ++ str "," ++ renderCounts (snd kv) ++ str "}") dcs)
  ++ str "]".

(** ** scheduling_pure.cpp *)

Record Recommendation := {
  targetName : bytes; targetHost : bytes; targetCount : Z; runnerUpCount : Z; confidence : Z; rationale : bytes }.

Definition kAntiFlapPercent : Z := 10.

Definition byLoad (a b : NodeView) : bool :=
  if negb (containerCount a =? containerCount b) then containerCount a <? containerCount b
  else bytes_ltb (nv_name a) (nv_name b).

Definition noCandidate : Recommendation :=
  {| targetName := []; targetHost := []; targetCount := 0; runnerUpCount := 0; confidence := 0;
     rationale := str "no reachable nodes" |}.

(** The multiplication is an [unsigned]'s. *)
Definition tolerance (best : Z) : Z := u32 (best + u32 (best * kAntiFlapPercent) / 100).

Definition keepOn (cur best : NodeView) : Recommendation :=
  {| targetName := nv_name cur; targetHost := nv_host cur; targetCount := containerCount cur;
     runnerUpCount := containerCount best; confidence := 100;
     rationale := str "keep on '" ++ nv_name cur ++ str "' (count " ++ dec (containerCount cur) ++ str " within "
       ++ dec kAntiFlapPercent ++ str "% of least-loaded '" ++ nv_name best ++ str "' count " ++ dec (containerCount best) ++ str ")" |}.

Definition confidenceOf (sole : bool) (best runnerUp : Z) : Z :=
  if sole then 100
  else if runnerUp =? 0 then 50
  else if runnerUp <=? best then 0
  else let pct := (runnerUp - best) * 100 ÷ runnerUp in if 100 <? pct then 100 else pct.

Definition placeOn (best : NodeView) (rest : list NodeView) : Recommendation :=
  let runnerUp := match rest with n :: _ => containerCount n | [] => containerCount best end in
  {| targetName := nv_name best; targetHost := nv_host best; targetCount := containerCount best; runnerUpCount := runnerUp;
     confidence := confidenceOf (is_empty rest) (containerCount best) runnerUp;
     rationale := str "place on '" ++ nv_name best ++ str "' (count " ++ dec (containerCount best)
       ++ match rest with
          | n :: _ => str " vs runner-up '" ++ nv_name n ++ str "' count " ++ dec runnerUp
          | [] => str ", sole reachable node"
          end ++ str ")" |}.

Section pick.
Context `{StdSort}.

Definition pickLeastLoaded (nodes : list NodeView) (currentNodeHint : bytes) : Recommendation :=
  match std_sort byLoad (List.filter reachable nodes) with
  | [] => noCandidate
  | best :: rest =>
      let cur := if is_empty currentNodeHint then None
                 else List.find (fun n => beq (nv_name n) currentNodeHint) (best :: rest) in
      match cur with
      | Some c => if containerCount c <=? tolerance (containerCount best) then keepOn c best else placeOn best rest
      | None => placeOn best rest
      end
  end.

End pick.

Definition renderRecommendationJson (rec : Recommendation) : bytes :=
  str "{"
  ++ (if is_empty (targetName rec) then
        q "target" ++ str ":null," ++ q "rationale" ++ str ":" ++ Json.quote (rationale rec)
      else
        q "target" ++ str ":" ++ Json.quote (targetName rec) ++ str "," ++ q "host" ++ str ":" ++ Json.quote (targetHost rec)
        ++ str "," ++ q "container_count" ++ str ":" ++ dec (targetCount rec)
        ++ str "," ++ q "runner_up_count" ++ str ":" ++ dec (runnerUpCount rec)
        ++ str "," ++ q "confidence" ++ str ":" ++ dec_signed (confidence rec)
        ++ str "," ++ q "rationale" ++ str ":" ++ Json.quote (rationale rec))
  ++ str "}".

Definition hexUpper (d : Z) : ascii := if d <? 10 then chr (48 + d) else chr (55 + d).

Definition urlEncode (s : bytes) : bytes :=
  concat (map (fun c => if is_alnum c || one_of (str "._~-") c then [c]
                        else ["%"%char; hexUpper (code c / 16); hexUpper (code c mod 16)]) s).

Definition buildLeastLoadedUrl (hubUrl currentNodeHint : bytes) : bytes :=
  let base := if backIs "/" hubUrl then removelast hubUrl else hubUrl in
  base ++ str "/api/v1/scheduling/least-loaded"
  ++ (if is_empty currentNodeHint then [] else str "?current=" ++ urlEncode currentNodeHint).

(** [regex_search] of the quoted key, a colon with optional white space around
    it and a quoted value without a quote in it: the value, at the leftmost place
    that matches.  White space is that of the C locale. *)
Definition fieldHere (key s : bytes) : option bytes :=
  let needle := quoted key in
  if negb (starts_with needle s) then None
  else match skipSpace (drop (length needle) s) with
  | c :: t =>
      if negb (Ascii.eqb c ":") then None
      else match skipSpace t with
      | d :: t' =>
          if negb (Ascii.eqb d dquote) then None
          else let '(v, rest) := span (fun c => negb (Ascii.eqb c dquote)) t' in
               if is_empty rest then None else Some v
      | [] => None
      end
  | [] => None
  end.

Fixpoint searchField (key s : bytes) : option bytes :=
  match fieldHere key s with
  | Some v => Some v
  | None => match s with [] => None | _ :: t => searchField key t end
  end.

Definition extractTargetField (jsonBody : bytes) : bytes := default [] (searchField (str "target") jsonBody).
Definition extractHostField (jsonBody : bytes) : bytes := default [] (searchField (str "host") jsonBody).

Definition buildMigrateArgv (cratePath jail fromHost toHost fromTokenFile toTokenFile : bytes) : list bytes :=
  [cratePath; str "migrate"; jail; str "--from"; fromHost; str "--to"; toHost;
   str "--from-token-file"; fromTokenFile; str "--to-token-file"; toTokenFile].

(** ** ha_pure.cpp *)

Record HaSpec := { containerName : bytes; primaryNode : bytes; partnerNodes : list bytes }.
Record HaView := { hv_name : bytes; hv_reachable : bool; unreachableSeconds : Z }.
Record MigrationOrder := { o_container : bytes; fromNode : bytes; toNode : bytes; reason : bytes }.

Definition findNode (nodes : list HaView) (name : bytes) : option HaView := List.find (fun n => beq (hv_name n) name) nodes.

Definition kJailName : Z := 128.

Definition isValidName (s : bytes) : bool :=
  if is_empty s || (kJailName <? size_z s) then false else forallb fileByte s.

(** The first partner that is reachable. *)
Definition firstReachable (nodes : list HaView) (partners : list bytes) : option bytes :=
  List.find (fun p => match findNode nodes p with Some n => hv_reachable n | None => false end) partners.

Definition orderFor (nodes : list HaView) (thresholdSeconds : Z) (s : HaSpec) : option MigrationOrder :=
  match findNode nodes (primaryNode s) with
  | None => None
  | Some primary =>
      if hv_reachable primary then None
      else if unreachableSeconds primary <? thresholdSeconds then None
      else match firstReachable nodes (partnerNodes s) with
      | None => None
      | Some p =>
          Some {| o_container := containerName s; fromNode := primaryNode s; toNode := p;
                  reason := str "primary node '" ++ primaryNode s ++ str "' down for " ++ dec_signed (unreachableSeconds primary)
                    ++ str "s (>= threshold " ++ dec_signed thresholdSeconds ++ str "s)" |}
      end
  end.

Definition evaluateFailoverOrders (specs : list HaSpec) (nodes : list HaView) (thresholdSeconds : Z) : list MigrationOrder :=
  omap (orderFor nodes thresholdSeconds) specs.

Definition renderOrder (o : MigrationOrder) : bytes :=
  str "{" ++ q "container" ++ str ":" ++ Json.quote (o_container o) ++ str "," ++ q "from_node" ++ str ":" ++ Json.quote (fromNode o)
  ++ str "," ++ q "to_node" ++ str ":" ++ Json.quote (toNode o) ++ str "," ++ q "reason" ++ str ":" ++ Json.quote (reason o) ++ str "}".

Definition renderOrdersJson (orders : list MigrationOrder) : bytes :=
  str "[" ++ joined (str ",") (map renderOrder orders) ++ str "]".

Fixpoint partnerScan (idx : bytes) (seen partners : list bytes) : bytes :=
  match partners with
  | [] => []
  | p :: rest =>
      if negb (isValidName p) then idx ++ str ": invalid partner node name '" ++ p ++ str "'"
      else if existsb (beq p) seen then idx ++ str ": partner '" ++ p ++ str "' duplicated or matches primary"
      else partnerScan idx (p :: seen) rest
  end.

Fixpoint specScan (i : Z) (specs : list HaSpec) : bytes :=
  match specs with
  | [] => []
  | s :: rest =>
      let idx := str "ha[" ++ dec i ++ str "]" in
      if negb (isValidName (containerName s)) then idx ++ str ": invalid container name '" ++ containerName s ++ str "'"
      else if negb (isValidName (primaryNode s)) then idx ++ str ": invalid primary node name '" ++ primaryNode s ++ str "'"
      else if is_empty (partnerNodes s) then idx ++ str ": at least one partner_nodes entry is required"
      else match partnerScan idx [primaryNode s] (partnerNodes s) with
      | [] => specScan (i + 1) rest
      | e => e
      end
  end.

Definition validateSpecs (specs : list HaSpec) : bytes := specScan 0 specs.

(** ** Placement *)

Section placement.
Context `{StdSort}.

Lemma byLoad_weak : StrictWeak byLoad.
Proof. apply by_key_then_bytes. Qed.

(** The first in load order is a least loaded reachable node. *)
Lemma sorted_best nodes best rest : std_sort byLoad (List.filter reachable nodes) = best :: rest ->
  In best nodes /\ reachable best = true /\ forall n, In n nodes -> reachable n = true -> containerCount best <= containerCount n.
Proof.
  intros E. pose proof (std_sort_perm byLoad (List.filter reachable nodes)) as Hp. rewrite E in Hp.
  assert (Hin : In best (List.filter reachable nodes)) by (apply (Permutation_in _ Hp); by left).
  apply filter_In in Hin as [H1 H2]. split; [done|]. split; [done|]. intros n Hn Hr.
  assert (Hin : In n (best :: rest)) by (apply (Permutation_in _ (Permutation_sym Hp)); by apply filter_In).
  destruct Hin as [<-|Hin]; [lia|]. pose proof (std_sort_sorted byLoad (List.filter reachable nodes) byLoad_weak) as Hs.
  rewrite E in Hs. apply StronglySorted_inv in Hs as [_ Hf]. rewrite List.Forall_forall in Hf. specialize (Hf n Hin).
  unfold byLoad in Hf. destruct (Z.eqb_spec (containerCount n) (containerCount best)); cbn [negb] in Hf; lia.
Qed.

Lemma sorted_none nodes : std_sort byLoad (List.filter reachable nodes) = [] -> forall n, In n nodes -> reachable n = false.
Proof.
  intros E n Hn. pose proof (std_sort_perm byLoad (List.filter reachable nodes)) as Hp. rewrite E in Hp.
  apply Permutation_nil in Hp. destruct (reachable n) eqn:R; [|done]. by assert (In n []) by (rewrite <- Hp; by apply filter_In).
Qed.

Lemma confidence_bounds sole best runnerUp : 0 <= best -> 0 <= runnerUp -> 0 <= confidenceOf sole best runnerUp <= 100.
Proof.
  intros Hb Hr. unfold confidenceOf. destruct sole; [lia|]. destruct (Z.eqb_spec runnerUp 0); [lia|].
  destruct (Z.leb_spec runnerUp best); [lia|]. set (pct := (runnerUp - best) * 100 ÷ runnerUp).
  assert (0 <= pct) by (apply Z.quot_pos; lia). destruct (Z.ltb_spec 100 pct); lia.
Qed.

(** What a recommendation is: none when no node is reachable; otherwise a
    reachable node, either the one the caller is on, when its load is within the
    tolerance of the least, or a least loaded one. *)
Lemma pick_spec nodes hint : let rec := pickLeastLoaded nodes hint in
  (rec = noCandidate /\ forall n, In n nodes -> reachable n = false)
  \/ exists best n, In best nodes /\ reachable best = true
     /\ (forall m, In m nodes -> reachable m = true -> containerCount best <= containerCount m)
     /\ In n nodes /\ reachable n = true /\ targetName rec = nv_name n /\ targetHost rec = nv_host n /\ targetCount rec = containerCount n
     /\ ((nv_name n = hint /\ hint <> [] /\ containerCount n <= tolerance (containerCount best)) \/ n = best).
Proof.
  unfold pickLeastLoaded. destruct (std_sort byLoad (List.filter reachable nodes)) as [|best rest] eqn:E.
  - left. split; [done|by apply sorted_none].
  - right. destruct (sorted_best nodes best rest E) as (H1 & H2 & H3). exists best.
    destruct (if is_empty hint then None else _) as [c|] eqn:Ec; [|exists best; naive_solver].
    destruct (Z.leb_spec (containerCount c) (tolerance (containerCount best))) as [Ht|]; [|exists best; naive_solver].
    destruct (is_empty hint) eqn:Eh; [done|]. apply is_empty_false in Eh. apply find_some in Ec as [Hin Hn%beq_eq].
    rewrite <- E in Hin. apply (Permutation_in _ (std_sort_perm byLoad _)) in Hin. apply filter_In in Hin as [Hc1 Hc2].
    exists c. naive_solver.
Qed.

End placement.

(** ** Datacenters add up *)

Definition inDc (dc : bytes) (v : DcView) : bool := beq (canonicalName (datacenter v)) dc.

(** The summary of a datacenter is the summary of its nodes. *)
Definition dcSummary (views : list DcView) (dc : bytes) : Summary := summarise (map dv_node (List.filter (inDc dc) views)).

Lemma summarise_snoc nodes n : summarise (nodes ++ [n])
  = countNode {| nodesTotal := u32 (nodesTotal (summarise nodes) + 1); nodesReachable := nodesReachable (summarise nodes);
                 nodesDown := nodesDown (summarise nodes); containersTotal := containersTotal (summarise nodes) |} n.
Proof.
  unfold summarise. rewrite fold_left_app. cbn [fold_left].
  assert (forall l a b c d e, fold_left countNode l {| nodesTotal := a; nodesReachable := b; nodesDown := c; containersTotal := d |}
    = {| nodesTotal := a;
         nodesReachable := nodesReachable (fold_left countNode l {| nodesTotal := e; nodesReachable := b; nodesDown := c; containersTotal := d |});
         nodesDown := nodesDown (fold_left countNode l {| nodesTotal := e; nodesReachable := b; nodesDown := c; containersTotal := d |});
         containersTotal := containersTotal (fold_left countNode l {| nodesTotal := e; nodesReachable := b; nodesDown := c; containersTotal := d |}) |}) as G.
  { induction l as [|x l IH]; intros; [done|]. cbn [fold_left]. unfold countNode at 2 4 6 8. cbn.
    destruct (reachable x); apply IH. }
  rewrite (G nodes (u32 (size_z (nodes ++ [n]))) 0 0 0 (u32 (size_z nodes))). f_equal. f_equal.
  rewrite (G nodes (u32 (size_z nodes)) 0 0 0 (u32 (size_z nodes))). cbn [nodesTotal]. rewrite size_z_app, size_z_cons. change (size_z (@nil NodeView)) with 0.
  unfold u32. rewrite Zplus_mod_idemp_l. f_equal.
Qed.

Lemma onView_spec views : OMap.wf (groupAndSummarise views)
  /\ forall dc, OMap.find dc (groupAndSummarise views)
     = if existsb (inDc dc) views then Some (dcSummary views dc) else None.
Proof.
  induction views as [|v views [Hw Hf]] using rev_ind; [split; [constructor|done]|].
  unfold groupAndSummarise in *. rewrite fold_left_app. cbn [fold_left]. unfold onView at 1 3.
  set (key := canonicalName (datacenter v)). set (acc := fold_left onView views []) in *.
  split; [by apply OMap.wf_insert|]. intros dc. rewrite OMap.find_insert by done. rewrite existsb_app. cbn [existsb].
  unfold dcSummary. rewrite List.filter_app. cbn [List.filter].
  change (inDc dc v) with (beq key dc). destruct (decide (dc = key)) as [->|Hne].
  - rewrite beq_refl. cbn [orb]. rewrite orb_true_r. rewrite map_app. cbn [map]. rewrite summarise_snoc. f_equal. f_equal.
    rewrite Hf. destruct (existsb (inDc key) views) eqn:E; [done|].
    assert (List.filter (inDc key) views = []) as ->; [|done]. apply not_true_iff_false in E.
    destruct (List.filter (inDc key) views) as [|x l] eqn:F; [done|]. exfalso. apply E, existsb_exists. exists x.
    apply filter_In. rewrite F. by left.
  - destruct (beq_spec key dc) as [->|]; [done|]. by rewrite !orb_false_r, app_nil_r, Hf.
Qed.

End HubPure.
