(* ===== verification/Hub.v ===== *)
(** * The hub: hub/poller.cpp, hub/api.cpp, the schedule command of hub/main.cpp

    The poller's table of nodes as a state that polls change, the API's answers
    as functions of it, and the one-shot client.  The nodes' HTTP replies are the
    parameter of a poll; reading the YAML configuration, SQLite and the threads
    are not modelled: a poll and an answer are atomic, as the mutex makes them. *)

From S2P Require Import Prelude CStd OMap Wire RoutesPure HubPure.

Module Hub.
Import CStd RoutesPure HubPure.

(** ** poller.cpp *)

Record NodeConfig := { nc_name : bytes; nc_host : bytes; nc_datacenter : bytes }.

Record NodeStatus := {
  ns_name : bytes; ns_host : bytes; ns_datacenter : bytes; ns_reachable : bool; hostInfo : bytes; containers : bytes;
  containersStale : bool; lastError : bytes; firstDownAt : Z }.

(** No response, or a status and a body. *)
Abbreviation Response := (option (Z * bytes)).

(** One poll: time(2), what making the client threw, and the two replies. *)
Record Poll := { p_time : Z; clientError : option bytes; hostRes : Response; ctRes : Response }.

Definition body200 (r : Response) : option bytes :=
  match r with Some (s, b) => if s =? 200 then Some b else None | None => None end.

Definition newStatus (node : NodeConfig) : NodeStatus :=
  {| ns_name := nc_name node; ns_host := nc_host node; ns_datacenter := nc_datacenter node; ns_reachable := false;
     hostInfo := []; containers := []; containersStale := false; lastError := []; firstDownAt := 0 |}.

Definition downAt (s : NodeStatus) (now : Z) : Z := if firstDownAt s =? 0 then now else firstDownAt s.

(** The catch block. *)
Definition pollFailed (s : NodeStatus) (now : Z) (e : bytes) : NodeStatus :=
  {| ns_name := ns_name s; ns_host := ns_host s; ns_datacenter := ns_datacenter s; ns_reachable := false; hostInfo := hostInfo s;
     containers := containers s; containersStale := true; lastError := e; firstDownAt := downAt s now |}.

Definition onHostRes (s : NodeStatus) (p : Poll) : NodeStatus :=
  match body200 (hostRes p) with
  | Some b =>
      {| ns_name := ns_name s; ns_host := ns_host s; ns_datacenter := ns_datacenter s; ns_reachable := true; hostInfo := b;
         containers := containers s; containersStale := containersStale s; lastError := lastError s; firstDownAt := 0 |}
  | None =>
      {| ns_name := ns_name s; ns_host := ns_host s; ns_datacenter := ns_datacenter s; ns_reachable := false; hostInfo := hostInfo s;
         containers := containers s; containersStale := containersStale s; lastError := lastError s; firstDownAt := downAt s (p_time p) |}
  end.

Definition onCtRes (s : NodeStatus) (p : Poll) : NodeStatus :=
  let '(cts, stale, err) :=
    match body200 (ctRes p) with
    | Some b => (extractContainerArray b, false, [])
    | None => (containers s, true,
               match ctRes p with Some (st, _) => str "containers: HTTP " ++ dec_signed st | None => str "containers: no response" end)
    end in
  {| ns_name := ns_name s; ns_host := ns_host s; ns_datacenter := ns_datacenter s; ns_reachable := ns_reachable s; hostInfo := hostInfo s;
     containers := cts; containersStale := stale; lastError := err; firstDownAt := firstDownAt s |}.

(** The new status, and the sample recorded in the store. *)
Definition pollNode (node : NodeConfig) (s : NodeStatus) (p : Poll) : NodeStatus * option (bytes * bytes * bytes) :=
  match splitHostPort (nc_host node) 9800, clientError p with
  | None, _ => (pollFailed s (p_time p) (str "invalid node host '" ++ nc_host node ++ str "' (want host, host:port or [v6]:port)"), None)
  | Some _, Some e => (pollFailed s (p_time p) e, None)
  | Some _, None =>
      let s' := onCtRes (onHostRes s p) p in
      (s', match body200 (ctRes p) with
           | Some _ => if ns_reachable s' then Some (nc_name node, hostInfo s', containers s') else None
           | None => None
           end)
  end.

(** A history: which node was polled, and how it went. *)
Abbreviation History := (list (nat * Poll)).

Definition pollStep (nodes : list NodeConfig) (sts : list NodeStatus) (e : nat * Poll) : list NodeStatus :=
  match nodes !! fst e, sts !! fst e with
  | Some node, Some s => <[fst e := fst (pollNode node s (snd e))]> sts
  | _, _ => sts
  end.

Definition statusesAfter (nodes : list NodeConfig) (h : History) : list NodeStatus :=
  fold_left (pollStep nodes) h (map newStatus nodes).

(** ** api.cpp *)

Definition okJson (data : bytes) : bytes := str "{" ++ q "status" ++ str ":" ++ q "ok" ++ str "," ++ q "data" ++ str ":" ++ data ++ str "}".

Definition boolText (b : bool) : bytes := if b then str "true" else str "false".

Definition renderNode (s : NodeStatus) : bytes :=
  str "{" ++ q "name" ++ str ":" ++ Json.quote (ns_name s) ++ str "," ++ q "host" ++ str ":" ++ Json.quote (ns_host s)
  ++ str "," ++ q "datacenter" ++ str ":" ++ Json.quote (canonicalName (ns_datacenter s))
  ++ str "," ++ q "reachable" ++ str ":" ++ boolText (ns_reachable s) ++ str "," ++ q "stale" ++ str ":" ++ boolText (containersStale s)
  ++ (if is_empty (lastError s) then [] else str "," ++ q "error" ++ str ":" ++ Json.quote (lastError s)) ++ str "}".

Definition nodesBody (sts : list NodeStatus) : bytes := okJson (str "[" ++ joined (str ",") (map renderNode sts) ++ str "]").

(** GET /api/v1/nodes/:host/containers *)
Definition nodeContainers (sts : list NodeStatus) (host : bytes) : Z * bytes :=
  match List.find (fun s => beq (ns_name s) host || beq (ns_host s) host) sts with
  | Some s => (200, okJson (if is_empty (containers s) then str "[]" else containers s))
  | None => (404, str "{" ++ q "status" ++ str ":" ++ q "error" ++ str "," ++ q "error" ++ str ":" ++ q "node not found" ++ str "}")
  end.

Definition containersBody (sts : list NodeStatus) : bytes :=
  okJson (str "[" ++ joined (str ",")
    (map (fun s => str "{" ++ q "node" ++ str ":" ++ Json.quote (ns_name s) ++ str "," ++ q "stale" ++ str ":" ++ boolText (containersStale s)
                   ++ str "," ++ q "containers" ++ str ":" ++ extractContainerArray (containers s) ++ str "}")
       (List.filter (fun s => negb (is_empty (containers s))) sts)) ++ str "]").

Definition view (s : NodeStatus) : NodeView :=
  {| nv_name := ns_name s; nv_host := ns_host s; reachable := ns_reachable s; containerCount := countTopLevelObjects (containers s) |}.

Definition aggregateBody (sts : list NodeStatus) : bytes := okJson (renderSummaryJson (summarise (map view sts))).

Definition datacentersBody (sts : list NodeStatus) : bytes :=
  okJson (renderJson (groupAndSummarise (map (fun s => {| dv_node := view s; datacenter := ns_datacenter s |}) sts))).

Definition haView (now : Z) (s : NodeStatus) : HaView :=
  {| hv_name := ns_name s; hv_reachable := ns_reachable s;
     unreachableSeconds := if (0 <? firstDownAt s) && negb (ns_reachable s) then now - firstDownAt s else 0 |}.

Definition haOrders (specs : list HaSpec) (thresholdSeconds now : Z) (sts : list NodeStatus) : list MigrationOrder :=
  evaluateFailoverOrders specs (map (haView now) sts) thresholdSeconds.

Definition ordersBody (specs : list HaSpec) (thresholdSeconds now : Z) (sts : list NodeStatus) : bytes :=
  okJson (renderOrdersJson (haOrders specs thresholdSeconds now sts)).

Definition leastLoadedBody `{StdSort} (sts : list NodeStatus) (current : bytes) : bytes :=
  okJson (renderRecommendationJson (pickLeastLoaded (map view sts) current)).

(** Prometheus label values. *)
Definition labelByte (c : ascii) : bytes :=
  if Ascii.eqb c Json.backslash || Ascii.eqb c dquote then [Json.backslash; c]
  else if Ascii.eqb c newline then [Json.backslash; "n"%char] else [c].

Definition metricsBody (sts : list NodeStatus) : bytes :=
  str "# HELP crate_hub_nodes_total Total configured nodes" ++ [newline] ++ str "# TYPE crate_hub_nodes_total gauge" ++ [newline]
  ++ str "crate_hub_nodes_total " ++ dec (size_z sts) ++ [newline]
  ++ str "# HELP crate_hub_nodes_reachable Reachable nodes" ++ [newline] ++ str "# TYPE crate_hub_nodes_reachable gauge" ++ [newline]
  ++ str "crate_hub_nodes_reachable " ++ dec (size_z (List.filter ns_reachable sts)) ++ [newline]
  ++ concat (map (fun s => str "crate_hub_node_up{host=" ++ quoted (concat (map labelByte (ns_name s))) ++ str "} "
                           ++ (if ns_reachable s then str "1" else str "0") ++ [newline]) sts).

(** POST /api/v1/admin/prune: the status, and whether old samples are deleted. *)
Definition prune (remote_addr : bytes) : Z * bool :=
  if negb (beq remote_addr (str "127.0.0.1")) && negb (beq remote_addr (str "::1")) then (403, false) else (200, true).

(** ** main.cpp: crate-hub schedule *)

Record ScheduleArgs := {
  jail : bytes; fromHost : bytes; fromTokenFile : bytes; toTokenFile : bytes; currentNodeHint : bytes; hubUrl : bytes; dryRun : bool }.

Definition defaultArgs : ScheduleArgs :=
  {| jail := []; fromHost := []; fromTokenFile := []; toTokenFile := []; currentNodeHint := [];
     hubUrl := str "http://localhost:9810"; dryRun := false |}.

(** An option with a value. *)
Definition setOption (a : ScheduleArgs) (opt v : bytes) : option ScheduleArgs :=
  if beq opt (str "--from") then
    Some {| jail := jail a; fromHost := v; fromTokenFile := fromTokenFile a; toTokenFile := toTokenFile a;
            currentNodeHint := currentNodeHint a; hubUrl := hubUrl a; dryRun := dryRun a |}
  else if beq opt (str "--from-token-file") then
    Some {| jail := jail a; fromHost := fromHost a; fromTokenFile := v; toTokenFile := toTokenFile a;
            currentNodeHint := currentNodeHint a; hubUrl := hubUrl a; dryRun := dryRun a |}
  else if beq opt (str "--to-token-file") then
    Some {| jail := jail a; fromHost := fromHost a; fromTokenFile := fromTokenFile a; toTokenFile := v;
            currentNodeHint := currentNodeHint a; hubUrl := hubUrl a; dryRun := dryRun a |}
  else if beq opt (str "--current") then
    Some {| jail := jail a; fromHost := fromHost a; fromTokenFile := fromTokenFile a; toTokenFile := toTokenFile a;
            currentNodeHint := v; hubUrl := hubUrl a; dryRun := dryRun a |}
  else if beq opt (str "--hub-url") then
    Some {| jail := jail a; fromHost := fromHost a; fromTokenFile := fromTokenFile a; toTokenFile := toTokenFile a;
            currentNodeHint := currentNodeHint a; hubUrl := v; dryRun := dryRun a |}
  else None.

(** What the command ends in: an exit code, or execv(2). *)
Inductive Exit := ExitCode (code : Z) | Exec (argv : list bytes).

(** An argument that is not an option with its value. *)
Definition plainArg (a : ScheduleArgs) (x : bytes) : Exit + ScheduleArgs :=
  if beq x (str "--dry-run") then
    inr {| jail := jail a; fromHost := fromHost a; fromTokenFile := fromTokenFile a; toTokenFile := toTokenFile a;
           currentNodeHint := currentNodeHint a; hubUrl := hubUrl a; dryRun := true |}
  else if starts_with (str "-") x then inl (ExitCode 1)
  else if is_empty (jail a) then
    inr {| jail := x; fromHost := fromHost a; fromTokenFile := fromTokenFile a; toTokenFile := toTokenFile a;
           currentNodeHint := currentNodeHint a; hubUrl := hubUrl a; dryRun := dryRun a |}
  else inl (ExitCode 1).

Definition isHelp (x : bytes) : bool := beq x (str "-h") || beq x (str "--help").

Fixpoint parseArgs (a : ScheduleArgs) (args : list bytes) : Exit + ScheduleArgs :=
  match args with
  | [] => inr a
  | x :: rest =>
      if isHelp x then inl (ExitCode 0)
      else match rest with
      | v :: rest' =>
          match setOption a x v with
          | Some a' => parseArgs a' rest'
          | None => match plainArg a x with inl e => inl e | inr a' => parseArgs a' rest end
          end
      | [] => plainArg a x
      end
  end.

Definition cratePath : bytes := str "/usr/local/bin/crate".

(** [hub]: the hub's reply to the path asked for. *)
Definition scheduleSubcommand (args : list bytes) (hub : bytes -> bytes -> Response) : Exit :=
  match parseArgs defaultArgs args with
  | inl e => e
  | inr a =>
      if is_empty (jail a) || is_empty (fromHost a) || is_empty (fromTokenFile a) || is_empty (toTokenFile a) then ExitCode 1
      else match hub (hubUrl a) (buildLeastLoadedUrl [] (currentNodeHint a)) with
      | None => ExitCode 1
      | Some (status, body) =>
          if negb (status =? 200) then ExitCode 1
          else
            let target := extractTargetField body in
            let toHost := extractHostField body in
            if is_empty target || is_empty toHost then ExitCode 1
            else if negb (is_empty (currentNodeHint a)) && beq target (currentNodeHint a) then ExitCode 0
            else if dryRun a then ExitCode 0
            else Exec (buildMigrateArgv cratePath (jail a) (fromHost a) toHost (fromTokenFile a) (toTokenFile a))
      end
  end.

(** ** Histories *)

(** A poll that found the node up. *)
Definition succeeded (node : NodeConfig) (p : Poll) : bool :=
  match splitHostPort (nc_host node) 9800, clientError p, body200 (hostRes p) with
  | Some _, None, Some _ => true
  | _, _, _ => false
  end.

(** The polls of one node, oldest first. *)
Definition pollsOf (i : nat) (h : History) : list Poll := map snd (List.filter (fun e => (fst e =? i)%nat) h).

(** The last poll found the node up. *)
Definition up (node : NodeConfig) (ps : list Poll) : Prop := exists before p, ps = before ++ [p] /\ succeeded node p = true.

(** Every poll since [t] failed, and the one before, if any, did not. *)
Definition downSince (node : NodeConfig) (ps : list Poll) (t : Z) : Prop :=
  exists before p after, ps = before ++ p :: after /\ p_time p = t
  /\ Forall (fun p => succeeded node p = false) (p :: after) /\ (before = [] \/ up node before).

Lemma pollsOf_snoc i h e : pollsOf i (h ++ [e]) = pollsOf i h ++ (if (fst e =? i)%nat then [snd e] else []).
Proof.
  unfold pollsOf. rewrite List.filter_app, map_app. cbn [List.filter]. by destruct (fst e =? i)%nat.
Qed.

Lemma pollStep_length nodes sts e : length (pollStep nodes sts e) = length sts.
Proof. unfold pollStep. destruct (nodes !! fst e), (sts !! fst e); try done. by rewrite length_insert. Qed.

Lemma statuses_length nodes h : length (statusesAfter nodes h) = length nodes.
Proof.
  induction h as [|e h IH] using rev_ind; unfold statusesAfter in *; [apply length_map|].
  rewrite fold_left_app. cbn [fold_left]. by rewrite pollStep_length.
Qed.

Lemma pollNode_fields node s p : let s' := fst (pollNode node s p) in
  ns_name s' = ns_name s /\ ns_host s' = ns_host s /\ ns_reachable s' = succeeded node p
  /\ firstDownAt s' = if succeeded node p then 0 else downAt s (p_time p).
Proof.
  unfold pollNode, succeeded. destruct (splitHostPort _ _); [|done]. destruct (clientError p); [done|]. cbn [fst].
  unfold onCtRes, onHostRes. destruct (body200 (hostRes p)), (body200 (ctRes p)); done.
Qed.

(** What the poller keeps of a node's history. *)
Definition keeps (node : NodeConfig) (ps : list Poll) (s : NodeStatus) : Prop :=
  ns_name s = nc_name node /\ ns_host s = nc_host node
  /\ ((ps = [] /\ ns_reachable s = false /\ firstDownAt s = 0)
     \/ (up node ps /\ ns_reachable s = true /\ firstDownAt s = 0)
     \/ (downSince node ps (firstDownAt s) /\ ns_reachable s = false /\ 0 < firstDownAt s)).

Lemma keeps_poll node ps s p : keeps node ps s -> 0 < p_time p -> keeps node (ps ++ [p]) (fst (pollNode node s p)).
Proof.
  intros (Hn & Hh & Hk) Ht. destruct (pollNode_fields node s p) as (H1 & H2 & Hr & Hd).
  split; [by rewrite H1|]. split; [by rewrite H2|].
  rewrite Hr, Hd. right. destruct (succeeded node p) eqn:Es; [left; split; [by exists ps, p|done]|right].
  unfold downAt. destruct Hk as [(-> & _ & ->)|[(Hu & _ & ->)|((b & x & a & -> & E & Hf & Hb) & _ & Hp)]].
  - split; [|done]. exists [], p, []. split; [done|]. split; [done|]. split; [by constructor|by left].
  - split; [|done]. exists ps, p, []. split; [done|]. split; [done|]. split; [by constructor|by right].
  - destruct (Z.eqb_spec (firstDownAt s) 0); [lia|]. split; [|done]. exists b, x, (a ++ [p]).
    split; [by rewrite <- app_assoc|]. split; [done|]. split; [|done]. rewrite app_comm_cons. apply Forall_app. by split; [|constructor].
Qed.

Lemma statuses_keep nodes h i node : Forall (fun e => 0 < p_time (snd e)) h -> nodes !! i = Some node ->
  exists s, statusesAfter nodes h !! i = Some s /\ keeps node (pollsOf i h) s.
Proof.
  intros Ht Hn. induction h as [|e h IH] using rev_ind.
  - exists (newStatus node). split; [|by repeat split; left]. unfold statusesAfter. cbn. by rewrite list_lookup_fmap, Hn.
  - apply Forall_app in Ht as [Ht He]. apply Forall_cons in He as [He _]. destruct (IH Ht) as (s & Hs & Hk).
    unfold statusesAfter in *. rewrite fold_left_app. cbn [fold_left]. set (sts := fold_left _ _ _) in *. unfold pollStep.
    rewrite pollsOf_snoc. destruct (Nat.eqb_spec (fst e) i) as [E|E].
    + rewrite E, Hn, Hs. eexists. split; [|by apply keeps_poll]. apply list_lookup_insert_eq. by apply lookup_lt_Some in Hs.
    + rewrite app_nil_r. exists s. split; [|done]. destruct (nodes !! fst e), (sts !! fst e); try done. by rewrite list_lookup_insert_ne.
Qed.

(** ** Failover *)

Lemma find_index {A} (f : A -> bool) l x :
  List.find f l = Some x <-> exists i, l !! i = Some x /\ f x = true /\ forall j y, (j < i)%nat -> l !! j = Some y -> f y = false.
Proof.
  induction l as [|a l IH]; cbn [List.find].
  - split; [done|]. by intros (i & H & _).
  - destruct (f a) eqn:Ha.
    + split.
      * intros [= <-]. exists 0%nat. split; [done|]. split; [done|]. intros; lia.
      * intros ([|i] & Hi & Hx & Hj); [done|]. exfalso. rewrite (Hj 0%nat a) in Ha; [done|lia|done].
    + rewrite IH. split.
      * intros (i & Hi & Hx & Hj). exists (S i). split; [done|]. split; [done|]. intros [|j] y Hlt Hy; [by injection Hy as <-|].
        apply (Hj j); [lia|done].
      * intros ([|i] & Hi & Hx & Hj); [injection Hi as ->; congruence|]. exists i. split; [done|]. split; [done|].
        intros j y Hlt Hy. apply (Hj (S j) y); [lia|done].
Qed.

(** The first configured node of a name. *)
Definition nodeNamed (nodes : list NodeConfig) (name : bytes) (i : nat) (node : NodeConfig) : Prop :=
  nodes !! i = Some node /\ nc_name node = name /\ forall j n, (j < i)%nat -> nodes !! j = Some n -> nc_name n <> name.

Definition isUp (nodes : list NodeConfig) (h : History) (name : bytes) : Prop :=
  exists i node, nodeNamed nodes name i node /\ up node (pollsOf i h).

Section failover.
Context (nodes : list NodeConfig) (h : History) (now : Z).
Hypothesis Htimes : Forall (fun e => 0 < p_time (snd e)) h.

#[local] Set Default Proof Using "Type*".

Lemma findNode_named name v : findNode (map (haView now) (statusesAfter nodes h)) name = Some v <->
  exists i node s, nodeNamed nodes name i node /\ statusesAfter nodes h !! i = Some s /\ keeps node (pollsOf i h) s /\ v = haView now s.
Proof.
  assert (Hnode : forall j s, statusesAfter nodes h !! j = Some s -> exists n, nodes !! j = Some n /\ keeps n (pollsOf j h) s).
  { intros j s Hs. destruct (lookup_lt_is_Some_2 nodes j) as [n Hn]; [rewrite <- (statuses_length nodes h); by apply lookup_lt_Some in Hs|].
    destruct (statuses_keep nodes h j n Htimes Hn) as (s' & Hs' & Hk). rewrite Hs in Hs'. injection Hs' as <-. eauto. }
  unfold findNode. rewrite find_index. split.
  - intros (i & Hi & Hv%beq_eq & Hj). rewrite list_lookup_fmap in Hi. destruct (statusesAfter nodes h !! i) as [s|] eqn:Es; [|done].
    injection Hi as <-. destruct (Hnode i s Es) as (n & Hn & Hk). exists i, n, s. split; [|done]. split; [done|].
    destruct Hk as (Hname & _). split; [by rewrite <- Hname|]. intros j m Hlt Hm E.
    destruct (statuses_keep nodes h j m Htimes Hm) as (s' & Hs' & Hk' & _). specialize (Hj j (haView now s') Hlt).
    rewrite list_lookup_fmap, Hs' in Hj. specialize (Hj eq_refl). apply beq_neq in Hj. apply Hj. cbn. congruence.
  - intros (i & n & s & (Hn & Hname & Hj) & Hs & Hk & ->). exists i. rewrite list_lookup_fmap, Hs. split; [done|].
    split; [apply beq_eq; cbn; destruct Hk as [-> _]; done|]. intros j v Hlt Hv. rewrite list_lookup_fmap in Hv.
    destruct (statusesAfter nodes h !! j) as [s'|] eqn:Es; [|done]. injection Hv as <-. destruct (Hnode j s' Es) as (m & Hm & Hk' & _).
    apply beq_neq. cbn. rewrite Hk'. by apply (Hj j).
Qed.

Lemma nodeNamed_unique name i j n m : nodeNamed nodes name i n -> nodeNamed nodes name j m -> i = j /\ n = m.
Proof.
  intros (Hi & Ei & Hi') (Hj & Ej & Hj'). destruct (Nat.lt_trichotomy i j) as [|[->|]].
  - by destruct (Hj' i n).
  - split; [done|]. congruence.
  - by destruct (Hi' j m).
Qed.

Lemma up_nonempty node ps t : up node ps -> ~ downSince node ps t.
Proof.
  intros (b & p & -> & Hp) (b' & x & a & E & _ & Hf & _). assert (In p (x :: a)) as Hin.
  { destruct (exists_last (l := x :: a)) as (l & y & Ey); [done|]. rewrite Ey, app_assoc in E. apply app_inj_tail in E as [_ <-].
    rewrite Ey. apply in_app_iff. right. by left. }
  rewrite List.Forall_forall in Hf. specialize (Hf p Hin). congruence.
Qed.

(** A streak starts at one time only. *)
Lemma downSince_unique node ps t t' : downSince node ps t -> downSince node ps t' -> t = t'.
Proof.
  intros (b & x & a & E & Ht & Hf & Hb) (b' & x' & a' & E' & Ht' & Hf' & Hb'). rewrite E in E'.
  assert (forall b x a b' x' a', b ++ x :: a = b' ++ x' :: a' -> Forall (fun p => succeeded node p = false) (x :: a) ->
    (b' = [] \/ up node b') -> (length b' <= length b)%nat) as G.
  { clear. intros b x a b' x' a' E Hf [->|(l & p & -> & Hp)]; [cbn; lia|]. rewrite length_app. cbn [length].
    destruct (Nat.le_gt_cases (length l + 1) (length b)) as [|Hgt]; [done|]. exfalso.
    assert ((b ++ x :: a) !! length l = Some p) as Hl by (rewrite E, <- app_assoc; cbn; by rewrite list_lookup_middle).
    rewrite lookup_app_r in Hl by lia. apply list_elem_of_lookup_2 in Hl. rewrite Forall_forall in Hf. specialize (Hf p Hl). congruence. }
  assert (length b = length b') as Hl.
  { apply Nat.le_antisymm; [eapply (G b' x' a' b x a); done|eapply (G b x a b' x' a'); done]. }
  apply app_inj_1 in E' as [_ [= -> _]]; [congruence|done].
Qed.

Definition views : list HaView := map (haView now) (statusesAfter nodes h).

Definition viewUp (name : bytes) : bool := match findNode views name with Some n => hv_reachable n | None => false end.

Lemma viewUp_iff name : viewUp name = true <-> isUp nodes h name.
Proof.
  unfold viewUp. split.
  - destruct (findNode views name) as [v|] eqn:E; [|done]. apply findNode_named in E as (i & n & s & Hn & Hs & Hk & ->). cbn. intros Hr.
    exists i, n. split; [done|]. destruct Hk as (_ & _ & [(_ & H & _)|[(H & _)|(_ & H & _)]]); [congruence|done|congruence].
  - intros (i & n & Hn & Hu). pose proof Hn as (Hl & _). destruct (statuses_keep nodes h i n Htimes Hl) as (s & Hs & Hk).
    assert (findNode views name = Some (haView now s)) as -> by (apply findNode_named; by exists i, n, s). cbn.
    destruct Hk as (_ & _ & [(E & _)|[(_ & H & _)|(H & _)]]); [|done|by apply up_nonempty in H].
    destruct Hu as (b & p & Eb & _). rewrite E in Eb. by destruct b.
Qed.

Lemma viewDown name v threshold : 0 < threshold -> findNode views name = Some v ->
  (hv_reachable v = false /\ threshold <= unreachableSeconds v) <->
  exists i node t, nodeNamed nodes name i node /\ downSince node (pollsOf i h) t /\ threshold <= now - t /\ unreachableSeconds v = now - t.
Proof.
  intros Hth E. apply findNode_named in E as (i & n & s & Hn & Hs & Hk & ->). destruct Hk as (_ & _ & Hk). cbn. split.
  - intros [Hr Ht]. rewrite Hr in *. destruct Hk as [(_ & _ & E)|[(_ & H & _)|(Hd & _ & Hp)]]; [rewrite E in Ht; cbn in Ht; lia|congruence|].
    destruct (Z.ltb_spec 0 (firstDownAt s)); [|lia]. cbn in *. by exists i, n, (firstDownAt s).
  - intros (j & m & t & Hm & Hd & Ht & Hu). destruct (nodeNamed_unique name i j n m Hn Hm) as [<- <-].
    destruct Hk as [(E & _)|[(Hup & _)|(Hd' & Hr & Hp)]].
    + rewrite E in Hd. destruct Hd as ([|] & ? & ? & ? & _); done.
    + by destruct (up_nonempty n (pollsOf i h) t).
    + rewrite Hu. by rewrite Hr.
Qed.

End failover.

(** C8: The hub orders a failover exactly when the poll history calls for it.
    For every policy, every history of polls at positive times and every
    threshold of at least a second: an order is published when the
    primary has failed every poll since a time at least the threshold ago, and
    not before, one success in between starting the count again; it goes to the
    first partner of the policy whose last poll succeeded; and nothing is
    published when there is none.  With a threshold of zero it is not so:
    [zero_threshold_fails_over_unpolled]. *)
Theorem ha_failover_iff nodes h specs threshold now o :
  Forall (fun e => 0 < p_time (snd e)) h -> 0 < threshold ->
  In o (haOrders specs threshold now (statusesAfter nodes h)) <->
  exists s i node t before p after, In s specs /\ nodeNamed nodes (primaryNode s) i node
  /\ downSince node (pollsOf i h) t /\ threshold <= now - t
  /\ partnerNodes s = before ++ p :: after /\ isUp nodes h p /\ Forall (fun n => ~ isUp nodes h n) before
  /\ o = {| o_container := containerName s; fromNode := primaryNode s; toNode := p;
            reason := str "primary node '" ++ primaryNode s ++ str "' down for " ++ dec_signed (now - t)
              ++ str "s (>= threshold " ++ dec_signed threshold ++ str "s)" |}.
Proof.
  intros Ht Hth. unfold haOrders, evaluateFailoverOrders. fold (views nodes h now).
  assert (Hfirst : forall ps p, firstReachable (views nodes h now) ps = Some p <->
    exists b a, ps = b ++ p :: a /\ isUp nodes h p /\ Forall (fun n => ~ isUp nodes h n) b).
  { intros ps p. unfold firstReachable. rewrite find_first. apply exist_proper. intros b. apply exist_proper. intros a.
    change (match findNode (views nodes h now) p with Some n => hv_reachable n | None => false end) with (viewUp nodes h now p).
    rewrite (viewUp_iff nodes h now Ht). do 2 (apply and_iff_compat_l). split; intros Hf; (eapply Forall_impl; [exact Hf|]); intros n Hn.
    - rewrite <- (viewUp_iff nodes h now Ht n). unfold viewUp. by rewrite Hn.
    - apply not_true_iff_false. intros E. apply Hn. by apply (viewUp_iff nodes h now Ht n). }
  rewrite <- list_elem_of_In, list_elem_of_omap. split.
  - intros (s & Hs & Ho). unfold orderFor in Ho. destruct (findNode (views nodes h now) (primaryNode s)) as [v|] eqn:E; [|done].
    destruct (hv_reachable v) eqn:Hr; [done|]. destruct (Z.ltb_spec (unreachableSeconds v) threshold); [done|].
    destruct (firstReachable _ _) as [p|] eqn:Ef; [|done]. injection Ho as <-. apply Hfirst in Ef as (b & a & Ep & Hu & Hb).
    destruct (proj1 (viewDown nodes h now Ht (primaryNode s) v threshold Hth E)) as (i & n & t & Hn & Hd & Hle & Eu); [done|].
    exists s, i, n, t, b, p, a. rewrite Eu. by rewrite <- list_elem_of_In.
  - intros (s & i & n & t & b & p & a & Hs & Hn & Hd & Hle & Ep & Hu & Hb & ->). exists s. split; [by apply list_elem_of_In|].
    pose proof Hn as (Hl & _). destruct (statuses_keep nodes h i n Ht Hl) as (st & Hst & Hk).
    assert (findNode (views nodes h now) (primaryNode s) = Some (haView now st)) as E by (apply (findNode_named nodes h now Ht); by exists i, n, st).
    assert (unreachableSeconds (haView now st) = now - t) as Eu.
    { destruct Hk as (_ & _ & [(E0 & _)|[(Hup & _)|(Hd' & Hr & Hp)]]).
      - rewrite E0 in Hd. destruct Hd as ([|] & ? & ? & ? & _); done.
      - by destruct (up_nonempty n (pollsOf i h) t).
      - rewrite (downSince_unique n _ _ _ Hd Hd'). cbn. rewrite Hr. destruct (Z.ltb_spec 0 (firstDownAt st)); [done|lia]. }
    unfold orderFor. rewrite E.
    destruct (proj2 (viewDown nodes h now Ht (primaryNode s) _ threshold Hth E)) as [-> Hge]; [by exists i, n, t|].
    destruct (Z.ltb_spec (unreachableSeconds (haView now st)) threshold); [lia|].
    assert (firstReachable (views nodes h now) (partnerNodes s) = Some p) as -> by (apply Hfirst; eauto). by rewrite Eu.
Qed.

(** ** Two nodes *)

Definition alpha : NodeConfig := {| nc_name := str "alpha"; nc_host := str "alpha.example.com:9800"; nc_datacenter := [] |}.
Definition beta : NodeConfig := {| nc_name := str "beta"; nc_host := str "[fd00::2]"; nc_datacenter := str "dc2" |}.
Definition fine (t : Z) : Poll := {| p_time := t; clientError := None; hostRes := Some (200, []); ctRes := Some (200, str "[{}]") |}.
Definition silent (t : Z) : Poll := {| p_time := t; clientError := None; hostRes := None; ctRes := None |}.

Definition webSpec : HaSpec := {| containerName := str "web"; primaryNode := str "alpha"; partnerNodes := [str "gamma"; str "beta"] |}.

(** alpha answered at 100 and has been silent since 115. *)
Definition outage : History := [(0%nat, fine 100); (1%nat, fine 101); (0%nat, silent 115); (1%nat, fine 116); (0%nat, silent 130)].

Lemma ha_failover_iff_witness :
  haOrders [webSpec] 60 174 (statusesAfter [alpha; beta] outage) = []
  /\ exists o, In o (haOrders [webSpec] 60 175 (statusesAfter [alpha; beta] outage)) /\ toNode o = str "beta".
Proof.
  split; [vm_compute; reflexivity|].
  exists {| o_container := str "web"; fromNode := str "alpha"; toNode := str "beta";
            reason := str "primary node 'alpha' down for 60s (>= threshold 60s)" |}. split; [|reflexivity].
  apply (ha_failover_iff [alpha; beta] outage [webSpec] 60 175); [repeat constructor|lia|].
  exists webSpec, 0%nat, alpha, 115, [str "gamma"], (str "beta"), []. split; [by left|].
  split; [split; [reflexivity|split; [reflexivity|intros; lia]]|].
  split. { exists [fine 100], (silent 115), [silent 130]. split; [reflexivity|]. split; [reflexivity|].
    split; [by repeat constructor|]. right. exists [], (fine 100). split; reflexivity. }
  split; [lia|]. split; [reflexivity|].
  split. { exists 1%nat, beta. split; [split; [reflexivity|split; [reflexivity|]]|exists [fine 101], (fine 116); split; reflexivity].
    intros [|j] n Hj Hn; [injection Hn as <-; discriminate|lia]. }
  split; [|reflexivity]. constructor; [|constructor]. intros (i & n & (Hn & E & _) & _).
  destruct i as [|[|i]]; [injection Hn as <-; discriminate E|injection Hn as <-; discriminate E|discriminate Hn].
Defined.

(** With a threshold of 0 the hub orders a failover away from a node it has not
    polled yet, once a partner answered: until then the node counts as down. *)
Lemma zero_threshold_fails_over_unpolled :
  map toNode (haOrders [webSpec] 0 100 (statusesAfter [alpha; beta] [(1%nat, fine 99)])) = [str "beta"].
Proof. vm_compute. reflexivity. Qed.

(** ** The schedule command *)

(** Bytes that JSON leaves as they are. *)
Definition plainText (s : bytes) : Prop := Forall (fun c => 32 <= code c /\ c <> dquote /\ c <> Json.backslash) s.

Lemma plain_no_quote s : plainText s -> ~ In dquote s.
Proof. intros H Hin. unfold plainText in H. rewrite Forall_forall in H. apply list_elem_of_In, H in Hin as (_ & Hd & _). done. Qed.

Lemma search_skip key c t : fieldHere key (c :: t) = None -> searchField key (c :: t) = searchField key t.
Proof. intros H. cbn [searchField]. by rewrite H. Qed.

Lemma search_plain key s rest : ~ In dquote s -> searchField key (s ++ dquote :: rest) = searchField key (dquote :: rest).
Proof.
  induction s as [|c s IH]; intros Hs; [done|]. cbn [app]. rewrite search_skip; [apply IH; intros H; apply Hs; by right|].
  unfold fieldHere, quoted. cbn [app starts_with]. destruct (Ascii.eqb_spec dquote c) as [E|]; [|done]. destruct Hs. by left.
Qed.

(** The value of a field is not taken for a name: a comma follows it. *)
Lemma value_no_field key v rest : ~ In dquote key -> ~ In dquote v -> fieldHere key (dquote :: v ++ dquote :: ","%char :: rest) = None.
Proof.
  intros Hk Hv. unfold fieldHere. destruct (starts_with (quoted key) _) eqn:E; [|done]. cbn [negb].
  apply starts_with_spec in E as [r E]. unfold quoted in *. cbn [app] in E. injection E as E. rewrite <- app_assoc in E. cbn [app] in E.
  assert (v = key /\ r = ","%char :: rest) as [-> ->].
  { revert key Hk E. induction v as [|x v IH]; intros [|y key] Hk E; cbn [app] in E.
    - injection E as ->. done.
    - injection E as E _. destruct Hk. by left.
    - injection E as E _. destruct Hv. by left.
    - injection E as -> E. destruct (IH (fun H => Hv (or_intror H)) key (fun H => Hk (or_intror H)) E) as [-> ->]. done. }
  cbn [app length]. replace (drop _ _) with (","%char :: rest); [done|].
  change (dquote :: key ++ dquote :: ","%char :: rest) with ((dquote :: key) ++ [dquote] ++ ","%char :: rest).
  rewrite app_assoc, drop_app_length'; [done|]. cbn [length]. rewrite !length_app. done.
Qed.

Lemma field_found key v rest : ~ In dquote v -> searchField key (quoted key ++ str ":" ++ dquote :: v ++ dquote :: rest) = Some v.
Proof.
  intros Hv. set (s := quoted key ++ _). assert (fieldHere key s = Some v) as F.
  { unfold fieldHere, s. rewrite starts_with_app, drop_app_length. cbn [negb str list_ascii_of_string app skipSpace].
    change (is_space ":") with false. cbn [Ascii.eqb Bool.eqb andb negb]. change (skipSpace (dquote :: ?t)) with (dquote :: t). cbv iota beta.
    rewrite Ascii.eqb_refl. cbn [negb]. rewrite span_stop; [done| |by rewrite Ascii.eqb_refl].
    apply forallb_forall. intros c Hc. apply negb_true_iff, Ascii.eqb_neq. by intros ->. }
  destruct s; [discriminate F|]. cbn [searchField]. by rewrite F.
Qed.

(** The reply up to the fields the command reads. *)
Lemma reply_shape rec : plainText (targetName rec) -> plainText (targetHost rec) -> targetName rec <> [] ->
  exists tl, okJson (renderRecommendationJson rec)
  = str "{" ++ q "status" ++ str ":" ++ q "ok" ++ str "," ++ q "data" ++ str ":{"
    ++ q "target" ++ str ":" ++ dquote :: targetName rec ++ dquote :: str "," ++ q "host" ++ str ":" ++ dquote :: targetHost rec ++ dquote :: tl.
Proof.
  intros Hn Hh Hne. unfold renderRecommendationJson. destruct (is_empty (targetName rec)) eqn:E; [by apply is_empty_true in E|].
  unfold Json.quote at 1 2. rewrite !Json.escape_plain by done. clear E. eexists. unfold okJson.
  repeat (rewrite <- !app_assoc || cbn [app]). reflexivity.
Qed.

(** What the command reads out of the hub's reply. *)
Lemma reply_fields rec : plainText (targetName rec) -> plainText (targetHost rec) -> targetName rec <> [] ->
  extractTargetField (okJson (renderRecommendationJson rec)) = targetName rec
  /\ extractHostField (okJson (renderRecommendationJson rec)) = targetHost rec.
Proof.
  intros Hn Hh Hne. destruct (reply_shape rec Hn Hh Hne) as [tl ->]. pose proof (plain_no_quote _ Hn) as Qn. pose proof (plain_no_quote _ Hh) as Qh.
  unfold extractTargetField, extractHostField. set (inner := q "target" ++ _).
  assert (Hskip : forall key, key = str "target" \/ key = str "host" ->
    searchField key (str "{" ++ q "status" ++ str ":" ++ q "ok" ++ str "," ++ q "data" ++ str ":{" ++ inner) = searchField key inner).
  { intros key [-> | ->]; cbn [str list_ascii_of_string q quoted app]; do 23 (rewrite search_skip by reflexivity); reflexivity. }
  rewrite !Hskip by tauto. unfold inner. split; [unfold q; by rewrite field_found|].
  cbn [q quoted str list_ascii_of_string app]. do 9 (rewrite search_skip by reflexivity).
  rewrite search_skip by (apply value_no_field; [vm_compute; intuition discriminate|done]).
  rewrite search_plain by done. do 2 (rewrite search_skip by reflexivity).
  change (default [] (searchField (str "host") (quoted (str "host") ++ str ":" ++ dquote :: targetHost rec ++ dquote :: tl)) = targetHost rec).
  by rewrite field_found.
Qed.

Definition load (s : NodeStatus) : Z := countTopLevelObjects (containers s).

(** A node whose name and address JSON leaves as they are. *)
Definition plainNode (s : NodeStatus) : Prop :=
  plainText (ns_name s) /\ ns_name s <> [] /\ plainText (ns_host s) /\ ns_host s <> [].

Definition leastLoaded (sts : list NodeStatus) (s : NodeStatus) : Prop :=
  In s sts /\ ns_reachable s = true /\ forall m, In m sts -> ns_reachable m = true -> load s <= load m.

Section schedule.
Context `{StdSort}.

(** Crate-hub schedule and the hub together put a container where they
    should: whenever a node answers, the command either moves the container to a
    reachable node with the fewest containers of all reachable ones, at that
    node's address, or leaves it on the node it is on, which then is reachable and
    least loaded or within the tolerance of the least. *)
Theorem schedule_moves_to_least_loaded sts args a :
  Forall plainNode sts -> Exists (fun s => ns_reachable s = true) sts ->
  parseArgs defaultArgs args = inr a ->
  jail a <> [] -> fromHost a <> [] -> fromTokenFile a <> [] -> toTokenFile a <> [] -> dryRun a = false ->
  let r := scheduleSubcommand args (fun _ _ => Some (200, leastLoadedBody sts (currentNodeHint a))) in
  exists best, leastLoaded sts best
  /\ (r = Exec (buildMigrateArgv cratePath (jail a) (fromHost a) (ns_host best) (fromTokenFile a) (toTokenFile a))
     \/ exists s, r = ExitCode 0 /\ In s sts /\ ns_reachable s = true /\ ns_name s = currentNodeHint a
        /\ (load s <= tolerance (load best) \/ s = best)).
Proof.
  intros Hp Hex Ha Hj Hf Hft Htt Hd r. unfold r, scheduleSubcommand. rewrite Ha, (proj2 (is_empty_false _) Hj), (proj2 (is_empty_false _) Hf),
    (proj2 (is_empty_false _) Hft), (proj2 (is_empty_false _) Htt). cbn [orb negb Z.eqb Pos.eqb].
  unfold leastLoadedBody. set (rec := pickLeastLoaded (map view sts) (currentNodeHint a)).
  destruct (pick_spec (map view sts) (currentNodeHint a)) as [[_ Hnone]|(best & n & Hb & Hbr & Hle & Hn & Hnr & En & Eh & _ & Hc)].
  { exfalso. apply Exists_exists in Hex as (x & Hx & Hr). specialize (Hnone (view x)). cbn in Hnone. rewrite Hnone in Hr; [done|].
    apply in_map. by apply list_elem_of_In. }
  fold rec in En, Eh. apply in_map_iff in Hb as (sb & <- & Hb). apply in_map_iff in Hn as (sn & <- & Hn).
  cbn [view nv_name nv_host reachable containerCount] in Hbr, Hle, Hnr, En, Eh, Hc.
  rewrite List.Forall_forall in Hp. destruct (Hp sn Hn) as (P1 & P2 & P3 & P4).
  assert (Hbest : leastLoaded sts sb).
  { split; [done|]. split; [done|]. intros m Hm Hr. by apply (Hle (view m)); [apply in_map|]. }
  assert (Hsame : view sn = view sb -> leastLoaded sts sn).
  { intros [= _ _ _ El]. destruct Hbest as (_ & _ & Hl). split; [done|]. split; [done|]. intros m Hm Hr. specialize (Hl m Hm Hr).
    unfold load in *. lia. }
  assert (Hfield : extractTargetField (okJson (renderRecommendationJson rec)) = ns_name sn
                   /\ extractHostField (okJson (renderRecommendationJson rec)) = ns_host sn).
  { rewrite <- En, <- Eh. apply reply_fields; congruence. }
  destruct Hfield as [Ef1 Ef2]. cbv beta zeta. rewrite Ef1, Ef2.
  rewrite (proj2 (is_empty_false _) P2), (proj2 (is_empty_false _) P4). cbn [orb]. rewrite Hd.
  destruct Hc as [(E & Hne & Ht)|Ev].
  - rewrite (proj2 (is_empty_false _) Hne), E, beq_refl. cbn [negb andb]. exists sb. split; [done|]. right. exists sn.
    split; [done|]. split; [done|]. split; [done|]. split; [done|]. by left.
  - exists sn. split; [by apply Hsame|]. destruct (negb (is_empty (currentNodeHint a)) && beq (ns_name sn) (currentNodeHint a)) eqn:E; [|by left].
    apply andb_prop in E as [_ E%beq_eq]. right. exists sn. split; [done|]. split; [done|]. split; [done|]. split; [done|]. by right.
Qed.

End schedule.

Definition node (name host : string) (up_ : bool) (cts : string) : NodeStatus :=
  {| ns_name := str name; ns_host := str host; ns_datacenter := []; ns_reachable := up_; hostInfo := []; containers := str cts;
     containersStale := false; lastError := []; firstDownAt := 0 |}.

Definition cluster : list NodeStatus :=
  [node "alpha" "alpha:9800" true "[{},{}]"; node "beta" "beta:9800" true "[{}]"; node "gamma" "gamma:9800" false "[]"].

Definition scheduleArgs : list bytes :=
  map str ["web"; "--from"; "alpha:9800"; "--from-token-file"; "/a"; "--to-token-file"; "/b"; "--current"; "alpha"]%string.

Definition scheduled : ScheduleArgs :=
  {| jail := str "web"; fromHost := str "alpha:9800"; fromTokenFile := str "/a"; toTokenFile := str "/b";
     currentNodeHint := str "alpha"; hubUrl := str "http://localhost:9810"; dryRun := false |}.

Lemma schedule_moves_to_least_loaded_witness :
  exists best, leastLoaded cluster best
  /\ (scheduleSubcommand scheduleArgs (fun _ _ => Some (200, leastLoadedBody (H := insertionSort) cluster (str "alpha")))
      = Exec (buildMigrateArgv cratePath (str "web") (str "alpha:9800") (ns_host best) (str "/a") (str "/b"))
     \/ exists s, ns_name s = str "alpha" /\ In s cluster).
Proof.
  destruct (@schedule_moves_to_least_loaded insertionSort cluster scheduleArgs scheduled) as (best & Hb & Hr);
    [|by left|reflexivity|discriminate|discriminate|discriminate|discriminate|reflexivity|].
  - repeat constructor; (try discriminate); repeat (constructor; [split; [vm_compute; discriminate|split; discriminate]|]); constructor.
  - exists best. split; [exact Hb|]. destruct Hr as [Hr|(s & _ & Hs & _ & Hn & _)]; [left; exact Hr|right; by exists s].
Defined.

Example schedule_execs :
  scheduleSubcommand scheduleArgs (fun _ _ => Some (200, leastLoadedBody (H := insertionSort) cluster (str "alpha")))
  = Exec (map str ["/usr/local/bin/crate"; "migrate"; "web"; "--from"; "alpha:9800"; "--to"; "beta:9800";
                   "--from-token-file"; "/a"; "--to-token-file"; "/b"]%string).
Proof. vm_compute. reflexivity. Qed.

End Hub.
