(* ===== verification/Topo.v ===== *)
(** * Start order of a stack: [topoSort] of lib/stack_pure.h

    The containers of a stack file are started in an order in which every
    container comes after the ones it depends on.  The source is a template
    over any [T] with a name and a list of dependencies; so is the model.  Node
    degrees are C++ [int]s; a stack has fewer than 2^31 dependencies, so they
    do not wrap. *)

From Stdlib Require Import Permutation Lia.
From S2P Require Import Prelude OMap.

Module Topo.

(** [StackEntry], the type the template is instantiated with in the tests. *)
Record StackEntry := { e_name : bytes; e_depends : list bytes }.

Section topo.
Context {T : Type} (name : T -> bytes) (depends : T -> list bytes).

Abbreviation Index := (list (bytes * nat)).

(** The first loop: the index of each name, or the duplicate. *)
Fixpoint indexNames (i : nat) (es : list T) (nameIdx : Index) : bytes + Index :=
  match es with
  | [] => inr nameIdx
  | e :: t =>
      if OMap.count (name e) nameIdx
      then inl (str "stack: duplicate container name '" ++ name e ++ str "' in stack file")
      else indexNames (S i) t (OMap.insert (name e) i nameIdx)
  end.

(** The second loop: the first dependency that is no container. *)
Fixpoint unknownDep (nameIdx : Index) (es : list T) : option (T * bytes) :=
  match es with
  | [] => None
  | e :: t =>
      match List.find (fun d => negb (OMap.count d nameIdx)) (depends e) with
      | Some d => Some (e, d)
      | None => unknownDep nameIdx t
      end
  end.

(** [nameIdx[d]]: a missing key would be created with value 0. *)
Definition idxOf (nameIdx : Index) (d : bytes) : nat := default O (OMap.find d nameIdx).

Record Graph := { inDeg : list Z; adj : list (list nat) }.

(** [adj[di].push_back(i); inDeg[i]++] *)
Definition addEdge (i : nat) (g : Graph) (di : nat) : Graph :=
  {| inDeg := alter (Z.add 1) i (inDeg g); adj := alter (fun l => l ++ [i]) di (adj g) |}.

(** The loop over [entries[i].depends], for [i] from the given index on. *)
Fixpoint addEdges (nameIdx : Index) (i : nat) (es : list T) (g : Graph) : Graph :=
  match es with
  | [] => g
  | e :: t => addEdges nameIdx (S i) t (fold_left (addEdge i) (map (idxOf nameIdx) (depends e)) g)
  end.

(** [for (i = 0; i < n; i++) if (inDeg[i] == 0) q.push(i)] *)
Fixpoint zeros (i : nat) (deg : list Z) : list nat :=
  match deg with
  | [] => []
  | d :: t => if d =? 0 then i :: zeros (S i) t else zeros (S i) t
  end.

(** [if (--inDeg[next] == 0) q.push(next)] *)
Definition relax (st : list Z * list nat) (next : nat) : list Z * list nat :=
  let '(deg, q) := st in
  let deg' := alter (fun d => d - 1) next deg in
  (deg', if default (-1) (deg' !! next) =? 0 then q ++ [next] else q).

(** [while (!q.empty())]; [None] is out of fuel. *)
Fixpoint drain (fuel : nat) (entries : list T) (adj : list (list nat))
    (deg : list Z) (q : list nat) (sorted : list T) : option (list T) :=
  match q with
  | [] => Some sorted
  | cur :: q' =>
      match fuel with
      | O => None
      | S f =>
          let sorted' := sorted ++ option_list (entries !! cur) in
          let '(deg', q'') := fold_left relax (default [] (adj !! cur)) (deg, q') in
          drain f entries adj deg' q'' sorted'
      end
  end.

(** [topoSort(entries)]: the exception's text, or the order.  Each entry is
    queued once, so as many turns as entries are enough. *)
Definition topoSort (entries : list T) : option (bytes + list T) :=
  match indexNames 0 entries [] with
  | inl e => Some (inl e)
  | inr nameIdx =>
      match unknownDep nameIdx entries with
      | Some (e, d) =>
          Some (inl (str "stack: container '" ++ name e ++ str "' depends on unknown container '"
                       ++ d ++ str "'"))
      | None =>
          let n := length entries in
          let g := addEdges nameIdx 0 entries {| inDeg := replicate n 0; adj := replicate n [] |} in
          match drain n entries (adj g) (inDeg g) (zeros 0 (inDeg g)) [] with
          | None => None
          | Some sorted =>
              if Nat.eqb (length sorted) n then Some (inr sorted)
              else Some (inl (str "stack: circular dependency detected in stack file"))
          end
      end
  end.

(** What a start order promises: whoever is depended on comes first. *)
Definition ordered (l : list T) : Prop :=
  forall a e b, l = a ++ e :: b -> forall d, In d (depends e) -> exists e', In e' a /\ name e' = d.

(** ** The name index *)

Definition indexes (es : list T) (m : Index) : Prop :=
  forall d k, OMap.find d m = Some k <-> exists e, es !! k = Some e /\ name e = d.

Lemma indexes_snoc es e m :
  OMap.wf m -> indexes es m -> OMap.find (name e) m = None ->
  indexes (es ++ [e]) (OMap.insert (name e) (length es) m).
Proof.
  intros Hwf H Hn d k. rewrite OMap.find_insert by done.
  destruct (decide (d = name e)) as [-> |Hd].
  - split.
    + intros [= <-]. exists e. by rewrite list_lookup_middle.
    + intros (e' & Hk & E). apply lookup_snoc_Some in Hk as [[Hlt Hk]|[<- _]]; [|done].
      assert (OMap.find (name e) m = Some k) by (apply H; eauto). congruence.
  - rewrite (H d k). split; intros (e' & Hk & E); exists e'; (split; [|done]).
    + apply lookup_snoc_Some. left. by apply lookup_lt_Some in Hk as ?.
    + apply lookup_snoc_Some in Hk as [[_ Hk]|[_ <-]]; [done|congruence].
Qed.

Lemma indexNames_spec es done0 m :
  OMap.wf m -> indexes done0 m -> NoDup (map name done0) ->
  match indexNames (length done0) es m with
  | inr m' => indexes (done0 ++ es) m' /\ NoDup (map name (done0 ++ es))
  | inl _ => ~ NoDup (map name (done0 ++ es))
  end.
Proof.
  revert done0 m. induction es as [|e es IH]; intros done0 m Hwf Hi Hnd; cbn [indexNames].
  - by rewrite app_nil_r.
  - unfold OMap.count. destruct (OMap.find (name e) m) as [k|] eqn:Ef.
    + apply Hi in Ef as (e' & Hk & E). rewrite map_app. cbn. rewrite NoDup_app.
      intros (_ & Hdis & _). apply (Hdis (name e)); [|left].
      rewrite <- E. by apply list_elem_of_fmap_2, list_elem_of_lookup_2 with k.
    + specialize (IH (done0 ++ [e]) (OMap.insert (name e) (length done0) m)).
      rewrite <- app_assoc, length_app, Nat.add_comm in IH. cbn in IH. apply IH.
      * by apply OMap.wf_insert.
      * by apply indexes_snoc.
      * rewrite map_app. apply NoDup_app. split; [done|]. split; [|apply NoDup_singleton].
        intros x Hx Hx'. apply list_elem_of_singleton in Hx' as ->.
        apply list_elem_of_fmap in Hx as (e' & E & [k Hk]%list_elem_of_lookup).
        assert (OMap.find (name e) m = Some k) by (apply Hi; eauto). congruence.
Qed.

Lemma unknownDep_None m es :
  unknownDep m es = None <-> forall e d, In e es -> In d (depends e) -> exists k, OMap.find d m = Some k.
Proof.
  induction es as [|e es IH]; cbn [unknownDep]; [done|].
  destruct (List.find _ (depends e)) as [d|] eqn:E.
  - apply find_some in E as [Hin Hd]. split; [done|]. intros H.
    destruct (H e d (or_introl eq_refl) Hin) as [k Hk]. unfold OMap.count in Hd. by rewrite Hk in Hd.
  - rewrite IH. split.
    + intros H e' d [<-|He'] Hd; [|eauto]. pose proof (find_none _ _ E d Hd) as Hc.
      unfold OMap.count in Hc. destruct (OMap.find d m) eqn:?; [eauto|done].
    + intros H e' d He'. apply H. by right.
Qed.

(** ** The graph

    [preds i]: the indices entry [i] depends on, with multiplicity. *)

Section graph.
Context (entries : list T) (m : Index).
Abbreviation n := (length entries).

Definition preds (i : nat) : list nat :=
  match entries !! i with Some e => map (idxOf m) (depends e) | None => [] end.

Abbreviation occ := (count_occ Nat.eq_dec).

Definition degAt (deg : list Z) (i : nat) : Z := default 0 (deg !! i).
Definition adjAt (a : list (list nat)) (i : nat) : list nat := default [] (a !! i).

Lemma default_alter {A} (x : A) (f : A -> A) l i j :
  (i < length l)%nat ->
  default x (alter f i l !! j) = if decide (j = i) then f (default x (l !! i)) else default x (l !! j).
Proof.
  intros Hi. rewrite list_lookup_alter. destruct (decide (i = j)), (decide (j = i)); try congruence.
  by destruct (lookup_lt_is_Some_2 l i Hi) as [v ->].
Qed.

Lemma occ_snoc l x i : occ (l ++ [x]) i = (occ l i + if Nat.eq_dec x i then 1 else 0)%nat.
Proof. rewrite count_occ_app. cbn. by destruct (Nat.eq_dec x i). Qed.

Lemma addEdge_fold ps i g :
  (i < length (inDeg g))%nat -> Forall (fun p => (p < length (adj g))%nat) ps ->
  let g' := fold_left (addEdge i) ps g in
  length (inDeg g') = length (inDeg g) /\ length (adj g') = length (adj g) /\
  (forall j, degAt (inDeg g') j = degAt (inDeg g) j + if decide (j = i) then Z.of_nat (length ps) else 0) /\
  (forall k j, occ (adjAt (adj g') k) j = occ (adjAt (adj g) k) j + if decide (j = i) then occ ps k else 0)%nat.
Proof.
  revert g. induction ps as [|p ps IH]; intros g Hi Hps; cbn [fold_left].
  - split; [done|]. split; [done|]. split; intros; destruct (decide _); cbn; lia.
  - apply Forall_cons in Hps as [Hp Hps].
    destruct (IH (addEdge i g p)) as (L1 & L2 & D & A).
    { cbn. by rewrite length_alter. }
    { cbn. by rewrite length_alter. }
    rewrite L1, L2. cbn [addEdge inDeg adj]. rewrite !length_alter.
    split; [done|]. split; [done|]. split.
    + intros j. rewrite D. cbn [addEdge inDeg length]. unfold degAt. rewrite default_alter by done.
      destruct (decide (j = i)) as [-> |]; lia.
    + intros k j. rewrite A. cbn [addEdge adj count_occ]. unfold adjAt. rewrite default_alter by done.
      destruct (decide (k = p)) as [-> |Hk]; [rewrite occ_snoc|].
      * destruct (Nat.eq_dec p p); [|done]. destruct (Nat.eq_dec i j), (decide (j = i)); subst; try done; lia.
      * by destruct (Nat.eq_dec p k); [congruence|].
Qed.

(** The built graph: degrees and adjacency are those of [preds]. *)
Definition graphOf (k : nat) (g : Graph) : Prop :=
  length (inDeg g) = n /\ length (adj g) = n /\
  (forall j, degAt (inDeg g) j = if decide (j < k)%nat then Z.of_nat (length (preds j)) else 0) /\
  (forall p j, occ (adjAt (adj g) p) j = if decide (j < k)%nat then occ (preds j) p else O).

Hypothesis preds_bound : forall i, Forall (fun p => (p < n)%nat) (preds i).

Lemma addEdges_spec done0 es g :
  entries = done0 ++ es -> graphOf (length done0) g ->
  graphOf n (addEdges m (length done0) es g).
Proof using All.
  revert done0 g. induction es as [|e es IH]; intros done0 g E Hg; cbn [addEdges].
  - by rewrite E, app_nil_r.
  - assert (He : preds (length done0) = map (idxOf m) (depends e)).
    { unfold preds. by rewrite E, list_lookup_middle. }
    assert (Hn : (length done0 < n)%nat) by (rewrite E, length_app; cbn; lia).
    specialize (IH (done0 ++ [e]) (fold_left (addEdge (length done0)) (map (idxOf m) (depends e)) g)).
    rewrite <- app_assoc, length_app, Nat.add_comm in IH. apply IH; [done|].
    destruct Hg as (L1 & L2 & D & A). rewrite <- He.
    destruct (addEdge_fold (preds (length done0)) (length done0) g) as (L1' & L2' & D' & A').
    { by rewrite L1. }
    { rewrite L2. apply preds_bound. }
    split; [congruence|]. split; [congruence|]. split.
    + intros j. rewrite D', D. cbn [length Nat.add].
      destruct (decide (j = length done0)), (decide (j < length done0)%nat),
        (decide (j < S (length done0))%nat); try subst j; lia.
    + intros p j. rewrite A', A. cbn [length Nat.add].
      destruct (decide (j = length done0)), (decide (j < length done0)%nat),
        (decide (j < S (length done0))%nat); try subst j; lia.
Qed.

Lemma graph_ok :
  graphOf n (addEdges m 0 entries {| inDeg := replicate n 0; adj := replicate n [] |}).
Proof using All.
  apply (addEdges_spec []); [done|]. split; [apply length_replicate|]. split; [apply length_replicate|].
  unfold degAt, adjAt. cbn [inDeg adj length]. split; intros.
  all: destruct (decide _) as [|_]; [lia|].
  - by destruct (replicate n 0 !! j) eqn:E; [apply lookup_replicate_1 in E as [-> _]|].
  - by destruct (replicate n [] !! p) eqn:E; [apply lookup_replicate_1 in E as [-> _]|].
Qed.

Lemma zeros_In deg k i :
  In i (zeros k deg) <-> (k <= i)%nat /\ deg !! (i - k)%nat = Some 0.
Proof.
  revert k. induction deg as [|d deg IH]; intros k; cbn [zeros].
  - split; [done|]. by intros [_ ?].
  - specialize (IH (S k)). destruct (decide (i = k)) as [-> |Hne].
    + rewrite Nat.sub_diag. cbn. destruct (Z.eqb_spec d 0) as [-> |]; cbn; rewrite IH.
      * split; [by auto|]. by left.
      * split; [lia|]. intros [_ [= ->]]. done.
    + assert (In i (if d =? 0 then k :: zeros (S k) deg else zeros (S k) deg) <-> In i (zeros (S k) deg)) as ->.
      { destruct (d =? 0); cbn; [|done]. split; [by intros [?|?]|by right]. }
      rewrite IH. destruct (decide (k < i)%nat).
      * replace (i - k)%nat with (S (i - S k)) by lia. cbn. split; intros [? ?]; split; lia || done.
      * split; lia.
Qed.

Lemma zeros_NoDup deg k : NoDup (zeros k deg).
Proof.
  revert k. induction deg as [|d deg IH]; intros k; cbn [zeros]; [constructor|].
  destruct (d =? 0); [|done]. constructor; [|done].
  intros [H _]%list_elem_of_In%zeros_In. lia.
Qed.

(** ** The queue *)

Lemma degAt_pos deg i : 0 < degAt deg i -> (i < length deg)%nat.
Proof.
  unfold degAt. intros H. destruct (decide (i < length deg)%nat); [done|].
  rewrite lookup_ge_None_2 in H by lia. done.
Qed.

(** One turn's inner loop takes an edge off per occurrence and queues, once
    each, the nodes whose last edge went. *)
Lemma relax_fold l deg q :
  (forall i, Z.of_nat (occ l i) <= degAt deg i) ->
  exists deg' new, fold_left relax l (deg, q) = (deg', q ++ new) /\
    length deg' = length deg /\ NoDup new /\
    (forall i, degAt deg' i = degAt deg i - Z.of_nat (occ l i)) /\
    (forall i, In i new <-> 0 < degAt deg i /\ degAt deg' i = 0).
Proof.
  revert deg q. induction l as [|x l IH]; intros deg q Hocc.
  - exists deg, []. rewrite app_nil_r. split; [done|]. split; [done|]. split; [constructor|].
    split; [cbn; lia|]. intros i. cbn. lia.
  - assert (Hx : (x < length deg)%nat).
    { apply degAt_pos. specialize (Hocc x). cbn in Hocc. destruct (Nat.eq_dec x x); [lia|done]. }
    set (deg1 := alter (fun d => d - 1) x deg).
    assert (D1 : forall i, degAt deg1 i = degAt deg i - if Nat.eq_dec x i then 1 else 0).
    { intros i. unfold degAt, deg1. rewrite default_alter by done.
      destruct (decide (i = x)), (Nat.eq_dec x i); subst; try congruence; lia. }
    assert (Hz : (default (-1) (deg1 !! x) =? 0) = (degAt deg1 x =? 0)).
    { unfold degAt. destruct (lookup_lt_is_Some_2 deg1 x) as [v ->]; [|done].
      unfold deg1. by rewrite length_alter. }
    cbn [fold_left relax]. fold deg1. rewrite Hz.
    destruct (IH deg1 (if degAt deg1 x =? 0 then q ++ [x] else q))
      as (deg' & new & -> & L & Hnd & D & Hin).
    { intros i. specialize (Hocc i). rewrite D1. cbn [count_occ] in Hocc. destruct (Nat.eq_dec x i); lia. }
    exists deg', ((if (degAt deg1 x =? 0)%Z then [x] else []) ++ new).
    split; [destruct (degAt deg1 x =? 0); [by rewrite <- app_assoc|done]|].
    split; [unfold deg1 in L; by rewrite length_alter in L|].
    assert (Hxnew : degAt deg1 x = 0 -> ~ In x new) by (intros E Hi; apply Hin in Hi; lia).
    split.
    { destruct (Z.eqb_spec (degAt deg1 x) 0) as [E|]; [|done]. constructor; [|done].
      rewrite list_elem_of_In. auto. }
    assert (D' : forall i, degAt deg' i = degAt deg i - Z.of_nat (occ (x :: l) i)).
    { intros i. rewrite D, D1. cbn [count_occ]. destruct (Nat.eq_dec x i); lia. }
    split; [done|]. intros i. rewrite in_app_iff, Hin. pose proof (Hocc i) as Ho.
    pose proof (D1 i) as D1i. pose proof (D1 x) as D1x. pose proof (D i) as Di. cbn [count_occ] in Ho.
    destruct (Nat.eq_dec x x); [|done].
    destruct (Z.eqb_spec (degAt deg1 x) 0) as [E|E]; cbn [In]; destruct (Nat.eq_dec x i); try subst i; lia.
Qed.

(** The dependencies of [i] that are not started yet. *)
Definition waiting (idx : list nat) (i : nat) : list nat :=
  List.filter (fun p => bool_decide (p ∉ idx)) (preds i).

Lemma waiting_snoc idx cur i :
  cur ∉ idx -> (length (waiting (idx ++ [cur]) i) + occ (preds i) cur = length (waiting idx i))%nat.
Proof.
  intros Hc. unfold waiting. induction (preds i) as [|p ps IH]; [done|]. cbn [List.filter count_occ].
  assert (Hsnoc : p ∈ idx ++ [cur] <-> p ∈ idx \/ p = cur) by (by rewrite elem_of_app, list_elem_of_singleton).
  destruct (Nat.eq_dec p cur) as [-> |Hne].
  - rewrite (bool_decide_eq_true_2 (cur ∉ idx)), (bool_decide_eq_false_2 (cur ∉ idx ++ [cur])) by tauto.
    cbn. lia.
  - destruct (decide (p ∈ idx)).
    + rewrite !bool_decide_eq_false_2 by tauto. lia.
    + rewrite !bool_decide_eq_true_2 by tauto. cbn. lia.
Qed.

Lemma waiting_nil idx i : length (waiting idx i) = O <-> Forall (fun p => In p idx) (preds i).
Proof.
  unfold waiting. induction (preds i) as [|p ps IH]; cbn [List.filter]; [by split|].
  rewrite Forall_cons, <- IH, <- list_elem_of_In.
  destruct (decide (p ∈ idx)).
  - rewrite bool_decide_eq_false_2 by tauto. tauto.
  - rewrite bool_decide_eq_true_2 by done. cbn. split; [lia|tauto].
Qed.

Context (a : list (list nat)).
Hypothesis adj_ok : forall p j, (j < n)%nat -> occ (adjAt a p) j = occ (preds j) p.
Hypothesis adj_bound : forall p, Forall (fun j => (j < n)%nat) (adjAt a p).

(** The state between two turns: [idx] started, [q] ready. *)
Record Inv (idx q : list nat) (deg : list Z) : Prop := {
  inv_len : length deg = n;
  inv_nodup : NoDup (idx ++ q);
  inv_ready : forall i, In i (idx ++ q) <-> (i < n)%nat /\ degAt deg i = 0;
  inv_deg : forall i, (i < n)%nat -> degAt deg i = Z.of_nat (length (waiting idx i));
  inv_ord : forall b i c, idx = b ++ i :: c -> Forall (fun p => In p b) (preds i) }.

Lemma occ_bounded p i : (n <= i)%nat -> occ (adjAt a p) i = O.
Proof using All.
  intros Hi. apply count_occ_not_In. intros Hin.
  pose proof (adj_bound p) as H. rewrite Forall_forall in H.
  specialize (H i (proj2 (list_elem_of_In _ _) Hin)). cbn in H. lia.
Qed.

Lemma inv_step idx cur q deg :
  Inv idx (cur :: q) deg ->
  exists deg' q', fold_left relax (adjAt a cur) (deg, q) = (deg', q') /\ Inv (idx ++ [cur]) q' deg'.
Proof using All.
  intros [Hlen Hnd Hready Hdeg Hord].
  assert (Hcur : cur ∉ idx).
  { intros H. apply NoDup_app in Hnd as (_ & Hd & _). by eapply Hd; [|left]. }
  destruct (proj1 (Hready cur)) as [Hcn Hc0]; [apply in_app_iff; right; by left|].
  assert (Hocc : forall i, Z.of_nat (occ (adjAt a cur) i) <= degAt deg i).
  { intros i. destruct (decide (i < n)%nat).
    - rewrite adj_ok, Hdeg by done. pose proof (waiting_snoc idx cur i Hcur). lia.
    - rewrite occ_bounded by lia. unfold degAt. rewrite lookup_ge_None_2 by lia. done. }
  destruct (relax_fold (adjAt a cur) deg q Hocc) as (deg' & new & E & L & Hnew & D & Hin).
  exists deg', (q ++ new). split; [done|].
  assert (Hnew0 : forall i, In i new -> ~ In i (idx ++ cur :: q)).
  { intros i Hi [_ H0]%Hready. apply Hin in Hi. lia. }
  assert (Hperm : (idx ++ [cur]) ++ q ++ new = (idx ++ cur :: q) ++ new).
  { by rewrite <- !app_assoc. }
  split.
  - congruence.
  - rewrite Hperm. apply NoDup_app. split; [done|]. split; [|done].
    intros i Hi Hi'. eapply Hnew0; [by apply list_elem_of_In|by apply list_elem_of_In].
  - intros i. rewrite Hperm, in_app_iff, Hready, Hin, D. pose proof (Hocc i).
    split; [|lia]. intros [?|[? ?]]; [lia|]. split; [|lia].
    rewrite <- Hlen. by apply degAt_pos.
  - intros i Hi. rewrite D, adj_ok, Hdeg by done. pose proof (waiting_snoc idx cur i Hcur). lia.
  - intros b i c Hb. destruct c as [|y c _] using rev_ind.
    + apply app_inj_tail in Hb as [-> ->]. apply waiting_nil. specialize (Hdeg i Hcn). lia.
    + rewrite app_comm_cons, app_assoc in Hb. apply app_inj_tail in Hb as [-> _]. by eapply Hord.
Qed.

Lemma NoDup_bound (l : list nat) : NoDup l -> (forall i, In i l -> (i < n)%nat) -> (length l <= n)%nat.
Proof.
  intros Hnd Hb. rewrite <- (length_seq n 0). apply NoDup_incl_length; [by apply NoDup_ListNoDup|].
  intros i Hi. apply in_seq. specialize (Hb i Hi). lia.
Qed.

Lemma drain_spec fuel idx q deg :
  Inv idx q deg -> (n <= fuel + length idx)%nat ->
  exists idx' deg', drain fuel entries a deg q (omap (entries !!.) idx) = Some (omap (entries !!.) idx')
    /\ Inv idx' [] deg'.
Proof using All.
  revert idx q deg. induction fuel as [|f IH]; intros idx q deg Hinv Hf; destruct q as [|cur q]; cbn [drain].
  1, 3: by exists idx, deg.
  - exfalso. pose proof (NoDup_bound (idx ++ cur :: q) (inv_nodup _ _ _ Hinv)) as H.
    rewrite length_app in H. cbn in H. enough (length idx + S (length q) <= n)%nat by lia.
    apply H. intros i Hi. by apply (inv_ready _ _ _ Hinv).
  - destruct (inv_step _ _ _ _ Hinv) as (deg' & q' & E & Hinv').
    change (default [] (a !! cur)) with (adjAt a cur). rewrite E.
    replace (omap (entries !!.) idx ++ option_list (entries !! cur)) with (omap (entries !!.) (idx ++ [cur])).
    + apply IH; [done|]. rewrite length_app. cbn. lia.
    + rewrite omap_app. by f_equal.
Qed.

End graph.

Lemma omap_lookup_Forall2 (es : list T) idx :
  (forall i, In i idx -> (i < length es)%nat) ->
  Forall2 (fun i e => es !! i = Some e) idx (omap (es !!.) idx).
Proof.
  induction idx as [|i idx IH]; intros H; cbn; [constructor|].
  destruct (lookup_lt_is_Some_2 es i) as [e E]; [apply H; by left|]. rewrite E.
  constructor; [done|]. apply IH. intros j Hj. apply H. by right.
Qed.

Lemma omap_lookup_seq (es : list T) : omap (es !!.) (seq 0 (length es)) = es.
Proof.
  induction es as [|e es IH]; [done|]. cbn. f_equal. rewrite <- fmap_S_seq.
  rewrite <- IH at 2. generalize (seq 0 (length es)) as l.
  induction l as [|i l IHl]; [done|]. cbn. by destruct (es !! i); rewrite <- IHl.
Qed.

(** Everything the loops before the queue establish. *)
Lemma setup entries m :
  indexNames 0 entries [] = inr m -> unknownDep m entries = None ->
  let g := addEdges m 0 entries {| inDeg := replicate (length entries) 0; adj := replicate (length entries) [] |} in
  indexes entries m /\ NoDup (map name entries) /\
  exists idx deg,
    drain (length entries) entries (adj g) (inDeg g) (zeros 0 (inDeg g)) [] = Some (omap (entries !!.) idx) /\
    Inv entries m idx [] deg.
Proof.
  intros Hm Hu g. pose proof (indexNames_spec entries [] []) as H. cbn [length app map] in H.
  rewrite Hm in H. destruct H as [Hi Hnd]; [constructor|..|constructor|].
  { intros d k. split; [done|]. by intros (e & ? & _). }
  split; [done|]. split; [done|].
  assert (Hb : forall i, Forall (fun p => (p < length entries)%nat) (preds entries m i)).
  { intros i. unfold preds. destruct (entries !! i) as [e|] eqn:E; [|constructor].
    rewrite Forall_forall. intros p (d & <- & Hd)%list_elem_of_In%in_map_iff.
    apply list_elem_of_lookup_2 in E. rewrite unknownDep_None in Hu.
    destruct (Hu e d) as [k Hk]; [by apply list_elem_of_In|done|].
    unfold idxOf. rewrite Hk. cbn. apply Hi in Hk as (e' & Hk & _). by apply lookup_lt_Some in Hk. }
  destruct (graph_ok entries m Hb) as (L1 & L2 & D & A). fold g in L1, L2, D, A.
  apply (drain_spec entries m Hb (adj g)) with (idx := []).
  - intros p j Hj. rewrite A. by destruct (decide _).
  - intros p. rewrite Forall_forall. intros j Hj%list_elem_of_In%(count_occ_In Nat.eq_dec).
    rewrite A in Hj. destruct (decide _); [done|lia].
  - split.
    + done.
    + apply zeros_NoDup.
    + intros i. cbn [app]. rewrite zeros_In, Nat.sub_0_r. unfold degAt. split.
      * intros [_ E]. rewrite E. split; [|done]. rewrite <- L1. by eapply lookup_lt_Some.
      * intros [Hn E]. split; [lia|]. destruct (lookup_lt_is_Some_2 (inDeg g) i) as [v Hv]; [by rewrite L1|].
        rewrite Hv in E |- *. by f_equal.
    + intros i Hn. rewrite D. destruct (decide _); [|done]. unfold waiting. do 2 f_equal. symmetry.
      induction (preds entries m i) as [|p ps IH]; [done|]. cbn. by f_equal.
    + by intros [] ? ?.
  - cbn. lia.
Qed.

Lemma inv_bound entries m idx deg i : Inv entries m idx [] deg -> In i idx -> (i < length entries)%nat.
Proof. intros H Hi. apply (inv_ready _ _ _ _ _ H). by rewrite app_nil_r. Qed.

(** A final state that started everything is a permutation in which every
    dependency comes first. *)
Lemma final_ordered entries m idx deg :
  indexes entries m -> unknownDep m entries = None -> Inv entries m idx [] deg ->
  ordered (omap (entries !!.) idx).
Proof.
  intros Hi Hu Hinv b e c E d Hd.
  pose proof (omap_lookup_Forall2 entries idx (fun i => inv_bound _ _ _ _ i Hinv)) as H2.
  rewrite E in H2. apply Forall2_app_inv_r in H2 as (ib & ic & Hb & Hc & ->).
  apply Forall2_cons_inv_r in Hc as (i & ic' & He & _ & ->).
  pose proof (inv_ord _ _ _ _ _ Hinv ib i ic' eq_refl) as Hp. rewrite Forall_forall in Hp.
  rewrite unknownDep_None in Hu.
  destruct (Hu e d) as [k Hk]; [by eapply list_elem_of_In, list_elem_of_lookup_2|done|].
  assert (Hin : In k ib).
  { apply (Hp k). unfold preds. rewrite He. apply list_elem_of_In, in_map_iff. exists d.
    split; [|done]. unfold idxOf. by rewrite Hk. }
  apply Hi in Hk as (e' & Hk & Hn). exists e'. split; [|done].
  apply list_elem_of_In, list_elem_of_lookup_1 in Hin as [j Hj].
  destruct (Forall2_lookup_l _ _ _ _ _ Hb Hj) as (e'' & Hj' & He'').
  rewrite Hk in He''. injection He'' as <-. by eapply list_elem_of_In, list_elem_of_lookup_2.
Qed.

Lemma final_permutation entries m idx deg :
  Inv entries m idx [] deg -> length (omap (entries !!.) idx) = length entries ->
  Permutation (omap (entries !!.) idx) entries.
Proof.
  intros Hinv Hl. trans (omap (entries !!.) (seq 0 (length entries)));
    [apply omap_Permutation|by rewrite omap_lookup_seq].
  rewrite <- (Forall2_length _ _ _ (omap_lookup_Forall2 entries idx (fun i => inv_bound _ _ _ _ i Hinv))) in Hl.
  apply NoDup_Permutation_bis.
  - apply NoDup_ListNoDup. pose proof (inv_nodup _ _ _ _ _ Hinv) as H. by rewrite app_nil_r in H.
  - rewrite length_seq. lia.
  - intros i Hi. apply in_seq. pose proof (inv_bound _ _ _ _ i Hinv Hi). lia.
Qed.

(** When a start order exists, the loop starts everything: what is left over
    would have a first entry in that order, which is ready. *)
Lemma final_complete entries m idx deg ord :
  indexes entries m -> Inv entries m idx [] deg -> Permutation ord entries -> ordered ord ->
  forall i, (i < length entries)%nat -> In i idx.
Proof.
  intros Hi Hinv Hperm Hord.
  enough (forall b c, ord = b ++ c -> forall i e, entries !! i = Some e -> In e b -> In i idx) as H.
  { intros i Hn. destruct (lookup_lt_is_Some_2 entries i Hn) as [e He].
    apply (H ord [] (eq_sym (app_nil_r _)) i e He). apply Permutation_sym in Hperm.
    eapply Permutation_in; [done|]. by eapply list_elem_of_In, list_elem_of_lookup_2. }
  induction b as [|e b IH] using rev_ind; intros c E i e0 He0 Hin; [done|].
  rewrite <- app_assoc in E. apply in_app_iff in Hin as [Hin|[<-|[]]]; [by eapply IH|].
  assert (Hn : (i < length entries)%nat) by by eapply lookup_lt_Some.
  rewrite <- (app_nil_r idx).
  apply (inv_ready _ _ _ _ _ Hinv). split; [done|]. rewrite (inv_deg _ _ _ _ _ Hinv) by done.
  change 0 with (Z.of_nat 0). f_equal. apply waiting_nil. unfold preds. rewrite He0.
  rewrite Forall_forall. intros p (d & <- & Hd)%list_elem_of_In%in_map_iff.
  destruct (Hord b e c E d Hd) as (e' & He' & Hname).
  assert (In e' entries) as [k Hk]%list_elem_of_In%list_elem_of_lookup_1.
  { eapply Permutation_in; [done|]. rewrite E. apply in_app_iff. by left. }
  assert (Hf : OMap.find d m = Some k) by (apply Hi; eauto).
  unfold idxOf. rewrite Hf. cbn. by eapply IH.
Qed.

Lemma ordered_known l e d : ordered l -> In e l -> In d (depends e) -> exists e', In e' l /\ name e' = d.
Proof.
  intros Ho (b & c & E)%in_split Hd. destruct (Ho b e c E d Hd) as (e' & ? & ?).
  exists e'. rewrite E, in_app_iff. auto.
Qed.

Lemma topoSort_inr entries l :
  topoSort entries = Some (inr l) -> NoDup (map name entries) /\ Permutation l entries /\ ordered l.
Proof.
  unfold topoSort. destruct (indexNames 0 entries []) as [e|m] eqn:Hm; [done|].
  destruct (unknownDep m entries) as [[e d]|] eqn:Hu; [done|].
  destruct (setup entries m Hm Hu) as (Hi & Hnd & idx & deg & -> & Hinv).
  destruct (Nat.eqb_spec (length (omap (entries !!.) idx)) (length entries)) as [Hl|]; [|done].
  intros [= <-]. eauto using final_permutation, final_ordered.
Qed.

(** Distinct names are indexed without an error. *)
Lemma indexNames_ok entries :
  NoDup (map name entries) -> exists m, indexNames 0 entries [] = inr m /\ indexes entries m.
Proof.
  intros Hnd. pose proof (indexNames_spec entries [] []) as H. cbn [length app map] in H.
  assert (Hi : indexes [] []) by (split; [done|]; by intros (? & ? & _)).
  specialize (H ltac:(constructor) Hi ltac:(constructor)).
  destruct (indexNames 0 entries []) as [e|m]; [done|]. exists m. tauto.
Qed.

(** [topoSort] terminates on every stack: its queue loop turns at most once
    per entry, duplicates, self-dependencies and cycles included. *)
Theorem topoSort_terminates entries : exists r, topoSort entries = Some r.
Proof.
  unfold topoSort. destruct (indexNames 0 entries []) as [e|m] eqn:Hm; [eauto|].
  destruct (unknownDep m entries) as [[e d]|] eqn:Hu; [eauto|].
  destruct (setup entries m Hm Hu) as (_ & _ & idx & deg & -> & _). destruct (Nat.eqb _ _); eauto.
Qed.

(** The order [topoSort] returns has exactly the given entries, and each
    comes after every container it depends on. *)
Theorem topoSort_sound entries l :
  topoSort entries = Some (inr l) -> Permutation l entries /\ ordered l.
Proof. intros H. apply topoSort_inr in H. tauto. Qed.

(** [topoSort] returns an order exactly when there is one: names are distinct
    and some arrangement of the entries puts dependencies first.  So the
    duplicate, unknown-container and cycle errors are raised only when due. *)
Theorem topoSort_complete entries :
  (exists l, topoSort entries = Some (inr l)) <->
  NoDup (map name entries) /\ exists ord, Permutation ord entries /\ ordered ord.
Proof.
  split.
  - intros [l Hl]. apply topoSort_inr in Hl. split; [|exists l]; tauto.
  - intros (Hnd & ord & Hperm & Hord). destruct (indexNames_ok entries Hnd) as (m & Hm & Hi).
    unfold topoSort. rewrite Hm.
    assert (Hu : unknownDep m entries = None).
    { apply unknownDep_None. intros e d He Hd.
      destruct (ordered_known ord e d Hord) as (e' & He' & Hn); [|done|].
      { eapply Permutation_in; [by apply Permutation_sym|done]. }
      apply (Permutation_in _ Hperm), list_elem_of_In, list_elem_of_lookup_1 in He' as [k Hk].
      exists k. apply Hi. eauto. }
    rewrite Hu. destruct (setup entries m Hm Hu) as (_ & _ & idx & deg & -> & Hinv).
    rewrite <- (Forall2_length _ _ _ (omap_lookup_Forall2 entries idx (fun i => inv_bound _ _ _ _ i Hinv))).
    destruct (Nat.eqb_spec (length idx) (length entries)) as [|Hne]; [eauto|]. exfalso. apply Hne.
    pose proof (inv_nodup _ _ _ _ _ Hinv) as Hnd'. rewrite app_nil_r in Hnd'.
    apply Nat.le_antisymm; [apply NoDup_bound; [done|by eauto using inv_bound]|].
    rewrite <- (length_seq (length entries) 0). apply NoDup_incl_length; [apply NoDup_ListNoDup, NoDup_seq|].
    intros i [_ Hlt]%in_seq. by eapply final_complete.
Qed.

End topo.

Definition webStack : list StackEntry :=
  [ {| e_name := str "web"; e_depends := [str "app"; str "db"] |};
    {| e_name := str "app"; e_depends := [str "db"] |};
    {| e_name := str "db"; e_depends := [] |} ].

Lemma topoSort_sound_witness :
  exists l, topoSort e_name e_depends webStack = Some (inr l) /\ map e_name l = [str "db"; str "app"; str "web"] /\
    ordered e_name e_depends l.
Proof.
  eexists. split; [vm_compute; reflexivity|]. split; [reflexivity|].
  apply (topoSort_sound e_name e_depends webStack). vm_compute. reflexivity.
Defined.

(** A container that depends on itself is a cycle. *)
Example topoSort_self :
  topoSort e_name e_depends [ {| e_name := str "a"; e_depends := [str "a"] |} ]
  = Some (inl (str "stack: circular dependency detected in stack file")).
Proof. vm_compute. reflexivity. Qed.

End Topo.
