(* ===== verification/StackPure.v ===== *)
(** * Stack files: lib/stack_pure.cpp

    CIDR parsing, the validators of names and addresses that reach a root
    shell, the shell fragments themselves, the numbering of ipfw policy rules,
    and where templates are looked for.  [topoSort] is in Topo.v.
    [inet_pton] belongs to libc: it is the parameter [pton4] (the address in
    host order) and [pton6] (whether the literal is accepted). *)

From S2P Require Import Prelude CStd OMap.

Module StackPure.
Import CStd.

(** NameLimits::kJailName *)
Definition kJailName : Z := 128.

Section libc.
Context (pton4 : bytes -> option Z) (pton6 : bytes -> bool).

(** [baseAddr] and [prefixLen], or [None] for [false]. *)
Definition parseCidr (cidr : bytes) : option (Z * Z) :=
  match find_char "/" cidr with
  | None => None
  | Some slashPos =>
      let addrStr := take slashPos cidr in
      let suffix := drop (S slashPos) cidr in
      if is_empty suffix || starts_with (str "-") suffix then None
      else match stoulPos suffix with
           | None => None
           | Some (p, pos) =>
               if negb (Nat.eqb pos (length suffix)) then None
               else if 32 <? p then None
               else match pton4 (cstr addrStr) with
                    | Some a => Some (a, u32 p)
                    | None => None
                    end
           end
  end.

Definition isIpv6Address (addr : bytes) : bool := pton6 (cstr addr).

Definition ipFromCidr (cidr : bytes) : bytes :=
  match find_char "/" cidr with Some pos => take pos cidr | None => cidr end.

Definition hostsLine (kv : bytes * bytes) : bytes := snd kv ++ str " " ++ fst kv ++ [newline].

Definition buildHostsEntries (nameToIp : list (bytes * bytes)) : bytes :=
  concat (map hostsLine nameToIp).

Definition stackNameChar (c : ascii) : bool :=
  is_lower c || is_upper c || is_digit c || one_of (str "._-") c.

Definition validateStackName (name : bytes) : bytes :=
  reject (is_empty name) with str "name is empty";
  reject (kJailName <? size_z name) with
    (str "name is longer than " ++ dec kJailName ++ str " chars");
  reject (beq name (str ".") || beq name (str "..")) with str "name is reserved";
  reject (starts_with (str "-") name) with str "name must not start with '-'";
  reject (negb (forallb stackNameChar name)) with
    str "name contains an invalid character (allowed: [A-Za-z0-9._-])";
  [].

Definition stackIpChar (c : ascii) : bool :=
  is_digit c || in_range "a" "f" c || in_range "A" "F" c || one_of (str ".:/") c.

(** The prefix after the slash: at most three digits, in the family's range. *)
Definition validatePrefix (maxPrefix : Z) (suffix : bytes) : bytes :=
  reject (is_empty suffix || (3 <? size_z suffix)) with str "CIDR prefix is malformed";
  reject (negb (forallb is_digit suffix)) with str "CIDR prefix must be numeric";
  reject (maxPrefix <? dec_value suffix) with
    str "CIDR prefix is out of range for the address family";
  [].

Definition validateStackIp (ip : bytes) : bytes :=
  reject (is_empty ip) with str "address is empty";
  reject (negb (forallb stackIpChar ip)) with str "address contains an invalid character";
  let slash := find_char "/" ip in
  let bare := match slash with Some p => take p ip | None => ip end in
  let check maxPrefix :=
    match slash with Some p => validatePrefix maxPrefix (drop (S p) ip) | None => [] end in
  match pton4 (cstr bare) with
  | Some _ => check 32
  | None => if pton6 (cstr bare) then check 128
            else str "address is neither a valid IPv4 nor IPv6 literal"
  end.

(** ** The shell fragments *)

Definition bsl : ascii := chr 92.
Definition quote : ascii := chr 39.

(** The literal two bytes [\n] of the fragment, which printf(1) expands. *)
Definition escNl : bytes := [bsl; "n"%char].

(** The loop over the map: the lines, or the first refused entry. *)
Fixpoint hostsLines (m : list (bytes * bytes)) : bytes + bytes :=
  match m with
  | [] => inr []
  | (name, ip) :: t =>
      match validateStackName name with
      | (_ :: _) as e => inl (str "stack hosts: container '" ++ name ++ str "': " ++ e)
      | [] =>
          match validateStackIp ip with
          | (_ :: _) as e => inl (str "stack hosts: container '" ++ name ++ str "' address: " ++ e)
          | [] =>
              match hostsLines t with
              | inl e => inl e
              | inr rest => inr (ip ++ str " " ++ name ++ escNl ++ rest)
              end
          end
      end
  end.

(** [inl err], or the command; an empty map gives the empty command. *)
Definition hostsCommand (nameToIp : list (bytes * bytes)) : bytes + bytes :=
  if is_empty nameToIp then inr []
  else match hostsLines nameToIp with
       | inl e => inl e
       | inr body =>
           inr (str "printf '" ++ escNl ++ str "# crate stack containers" ++ escNl ++ body
                  ++ str "' >> /etc/hosts")
       end.

Definition dnsCommand (gateway : bytes) : bytes + bytes :=
  match validateStackIp gateway with
  | (_ :: _) as e => inl (str "stack dns: gateway: " ++ e)
  | [] => inr (str "printf 'nameserver " ++ gateway ++ escNl ++ str "' > /etc/resolv.conf")
  end.

End libc.

(** ** Jails and ipfw rules *)

Definition jailNameMatchesContainer (jailName container : bytes) : bool :=
  if is_empty container then false
  else
    let prefix := container ++ str "_pid" in
    if size_z jailName <=? size_z prefix then false
    else if negb (starts_with prefix jailName) then false
    else forallb is_digit (drop (length prefix) jailName).

(** The digit loop of one line: at most six digits. *)
Fixpoint ruleDigits (room : nat) (v : Z) (s : bytes) : Z * bytes :=
  match room, s with
  | S r, c :: t => if is_digit c then ruleDigits r (v * 10 + digit_val c) t else (v, s)
  | _, _ => (v, s)
  end.

Fixpoint skipBlanks (s : bytes) : bytes :=
  match s with c :: t => if Ascii.eqb c " " then skipBlanks t else s | [] => [] end.

(** The rule number of a line. *)
Definition ruleNumber (line : bytes) : option Z :=
  let s := skipBlanks line in
  let '(v, rest) := ruleDigits 6 0 s in
  if Nat.eqb (length rest) (length s) || (v =? 0) || (65535 <? v) then None
  else match rest with
       | c :: _ => if negb (Ascii.eqb c " ") && negb (Ascii.eqb c tab) then None else Some v
       | [] => Some v
       end.

Definition ipfwRuleNumbers (ipfwListOutput : bytes) : list Z :=
  omap ruleNumber (getlines ipfwListOutput).

(** [taken.lower_bound(slot)]: the least used number from [slot] on. *)
Definition lowerBound (slot : Z) (used : list Z) : option Z :=
  fold_right (fun u acc => if slot <=? u then Some (match acc with Some v => Z.min u v | None => u end)
                           else acc) None used.

(** The loop over slots; [unsigned] arithmetic.  [None] is out of fuel. *)
Fixpoint slotLoop (fuel : nat) (used : list Z) (end_ width slot : Z) : option Z :=
  match fuel with
  | O => None
  | S f =>
      if u32 (u32 (slot + width) - 1) <=? end_ then
        match lowerBound slot used with
        | None => Some slot
        | Some v => if u32 (u32 (slot + width) - 1) <? v then Some slot
                    else slotLoop f used end_ width (u32 (slot + width))
        end
      else Some 0
  end.

Definition freePolicySlot (fuel : nat) (used : list Z) (base end_ width : Z) : option Z :=
  if (width =? 0) || (end_ <? base) then Some 0
  else slotLoop fuel used end_ width base.

(** The defaults of stack_pure.h. *)
Definition policyBase : Z := 30000.
Definition policyEnd : Z := 39999.
Definition policyWidth : Z := 100.

(** One line of the listing: its number when it is a policy rule of [bridge]. *)
Definition bridgeRule (bridge : bytes) (lo hi : Z) (line : bytes) : option Z :=
  match ipfwRuleNumbers line with
  | [] => None
  | n :: _ =>
      if (n <? lo) || (hi <? n) then None
      else
        let needle := str " via " ++ bridge in
        match find_sub needle line with
        | None => None
        | Some p =>
            match drop (p + length needle) line with
            | c :: _ => if negb (Ascii.eqb c " ") && negb (Ascii.eqb c tab) && negb (Ascii.eqb c cr)
                        then None else Some n
            | [] => Some n
            end
        end
  end.

(** [if (std::find(...) == out.end()) out.push_back(n)] *)
Definition pushNew {A} `{EqDecision A} (out : list A) (n : A) : list A :=
  if bool_decide (n ∈ out) then out else out ++ [n].

Definition policyRulesForBridge (ipfwListOutput bridge : bytes) (lo hi : Z) : list Z :=
  if is_empty bridge then []
  else fold_left pushNew (omap (bridgeRule bridge lo hi) (getlines ipfwListOutput)) [].

(** ** Pool addresses and templates *)

Fixpoint poolPrefix (subnets : list bytes) : bytes :=
  match subnets with
  | [] => str "/24"
  | s :: t =>
      match find_char "/" s with
      | None => poolPrefix t
      | Some slash => if Nat.leb (length s) (slash + 1) then poolPrefix t else drop slash s
      end
  end.

Definition poolCidr (ip : bytes) (subnets : list bytes) : bytes := ip ++ poolPrefix subnets.

Definition poolEligible (mode memberBridge networkBridge : bytes) (ownIp : bool) : bool :=
  if ownIp then false
  else if negb (beq mode (str "bridge")) && negb (beq mode (str "auto")) then false
  else negb (is_empty memberBridge) && beq memberBridge networkBridge.

(** [add]: not empty, not there yet. *)
Definition addCandidate (out : list bytes) (p : bytes) : list bytes :=
  if is_empty p then out else pushNew out p.

Definition under (dir rel : bytes) : bytes :=
  if is_empty dir then rel else if backIs "/" dir then dir ++ rel else dir ++ str "/" ++ rel.

Definition pathLike (name : bytes) : bool :=
  has_char "/" name || ends_with (str ".yml") name || ends_with (str ".yaml") name.

Definition templateCandidates (name stackDir home : bytes) : list bytes :=
  if is_empty name then []
  else if pathLike name then
    if starts_with (str "/") name then addCandidate [] name
    else addCandidate (addCandidate [] (under stackDir name)) name
  else
    let out := if is_empty home then []
               else addCandidate [] (under home (str ".config/crate/templates/" ++ name ++ str ".yml")) in
    let out := addCandidate out (str "/usr/local/share/crate/templates/" ++ name ++ str ".yml") in
    addCandidate out (under stackDir (name ++ str ".yml")).

(** * Theorems *)

(** ** What the hosts fragment does

    printf(1) on a format with no directives: [\n] is a newline, every other
    byte is itself; [None] when the format has another escape or a [%]. *)
Fixpoint printfText (s : bytes) : option bytes :=
  match s with
  | [] => Some []
  | c :: t =>
      if Ascii.eqb c bsl then
        match t with
        | d :: t' => if Ascii.eqb d "n" then cons newline <$> printfText t' else None
        | [] => None
        end
      else if Ascii.eqb c "%" then None
      else cons c <$> printfText t
  end.

(** Bytes that mean themselves to the shell's quotes and to printf. *)
Definition inert (c : ascii) : bool :=
  negb (Ascii.eqb c bsl) && negb (Ascii.eqb c "%") && negb (Ascii.eqb c quote).

Lemma printfText_inert a b :
  forallb inert a = true -> printfText (a ++ b) = app a <$> printfText b.
Proof.
  induction a as [|c a IH]; [intros _; cbn [app]; by destruct (printfText b)|]. cbn [forallb app printfText].
  intros [Hc Ha]%andb_true_iff. unfold inert in Hc. rewrite !andb_true_iff, !negb_true_iff in Hc.
  destruct Hc as [[-> ->] _]. rewrite IH by done. by destruct (printfText b).
Qed.

Lemma printfText_nl b : printfText (escNl ++ b) = cons newline <$> printfText b.
Proof. done. Qed.

Lemma inert_no_quote a : forallb inert a = true -> ~ In quote a.
Proof. rewrite forallb_forall. intros H Hin. by specialize (H _ Hin). Qed.

Lemma stackNameChar_inert c : stackNameChar c = true -> inert c = true.
Proof. revert c. by_bytes. Qed.

Lemma stackIpChar_inert c : stackIpChar c = true -> inert c = true.
Proof. revert c. by_bytes. Qed.

Lemma forallb_impl {A} (f g : A -> bool) l :
  (forall x, f x = true -> g x = true) -> forallb f l = true -> forallb g l = true.
Proof. rewrite !forallb_forall. eauto. Qed.

Lemma validateStackName_inert name : validateStackName name = [] -> forallb inert name = true.
Proof.
  unfold validateStackName. intros H. ok_split H. destruct H as (_ & _ & _ & _ & H & _).
  apply negb_false_iff in H. eauto using forallb_impl, stackNameChar_inert.
Qed.

Section libc_facts.
Context (pton4 : bytes -> option Z) (pton6 : bytes -> bool).
Abbreviation validIp := (validateStackIp pton4 pton6).
Abbreviation hosts := (hostsCommand pton4 pton6).

Lemma validateStackIp_inert ip : validIp ip = [] -> forallb inert ip = true.
Proof.
  unfold validateStackIp. destruct (is_empty ip); [done|].
  destruct (forallb stackIpChar ip) eqn:E; [|done]. intros _. eauto using forallb_impl, stackIpChar_inert.
Qed.

Lemma hostsLines_inr m body :
  hostsLines pton4 pton6 m = inr body ->
  ~ In quote body /\ printfText body = Some (buildHostsEntries m) /\
  Forall (fun kv => validateStackName (fst kv) = [] /\ validIp (snd kv) = []) m.
Proof.
  revert body. induction m as [|[name ip] m IH]; cbn [hostsLines]; intros body.
  - intros [= <-]. split; [by intros []|]. split; [done|constructor].
  - destruct (validateStackName name) eqn:Hn; [|done]. destruct (validIp ip) eqn:Hi; [|done].
    destruct (hostsLines pton4 pton6 m) as [|rest]; [done|]. intros <-%(inj inr).
    destruct (IH rest eq_refl) as (Hq & Hp & Hm).
    pose proof (validateStackName_inert _ Hn) as HnI. pose proof (validateStackIp_inert _ Hi) as HiI.
    split; [|split; [|by constructor]].
    + rewrite !in_app_iff. intros [H|[H|[H|[H|H]]]].
      * by apply inert_no_quote in HiI.
      * by destruct H as [H|[]].
      * by apply inert_no_quote in HnI.
      * by destruct H as [H|[H|[]]].
      * done.
    + rewrite printfText_inert, printfText_inert, printfText_inert, printfText_nl, Hp by done.
      cbn [fmap option_fmap option_map]. unfold buildHostsEntries. cbn [map concat hostsLine fst snd].
      f_equal. unfold hostsLine. cbn [fst snd]. by rewrite <- !app_assoc.
Qed.

(** What [stack up] runs as root in each jail appends the intended lines and
    nothing else: the fragment is one single-quoted printf format with no
    quote inside, and printf writes the header followed by exactly the
    [buildHostsEntries] lines, whatever names and addresses the stack has. *)
Theorem hostsCommand_prints m cmd :
  m <> [] -> hosts m = inr cmd ->
  exists fmt, cmd = str "printf '" ++ fmt ++ str "' >> /etc/hosts" /\ ~ In quote fmt /\
    printfText fmt = Some ([newline] ++ str "# crate stack containers" ++ [newline] ++ buildHostsEntries m).
Proof.
  intros Hm. unfold hostsCommand. destruct m as [|kv m]; [done|]. cbn [is_empty].
  destruct (hostsLines pton4 pton6 (kv :: m)) as [|body] eqn:E; [done|]. intros <-%(inj inr).
  apply hostsLines_inr in E as (Hq & Hp & _).
  exists (escNl ++ str "# crate stack containers" ++ escNl ++ body).
  split; [done|]. split.
  - rewrite !in_app_iff. intros [H|[H|[H|H]]]; [..|done].
    all: revert H; apply has_char_false; reflexivity.
  - rewrite printfText_nl, printfText_inert, printfText_nl, Hp by reflexivity. done.
Qed.

(** The command is refused exactly when an entry is not valid. *)
Lemma hostsCommand_ok m :
  (exists cmd, hosts m = inr cmd) <->
  Forall (fun kv => validateStackName (fst kv) = [] /\ validIp (snd kv) = []) m.
Proof.
  unfold hostsCommand. destruct m as [|kv m]; [split; [constructor|eauto]|]. cbn [is_empty].
  split.
  - intros [cmd H]. destruct (hostsLines pton4 pton6 (kv :: m)) as [|body] eqn:E; [done|].
    by apply hostsLines_inr in E as (_ & _ & ?).
  - intros H. enough (exists body, hostsLines pton4 pton6 (kv :: m) = inr body) as [body ->] by eauto.
    induction H as [|[name ip] l [Hn Hi] _ [rest IH]]; cbn [hostsLines fst snd] in *; [eauto|].
    rewrite Hn, Hi, IH. eauto.
Qed.

Lemma dnsCommand_prints gw cmd :
  dnsCommand pton4 pton6 gw = inr cmd ->
  exists fmt, cmd = str "printf '" ++ fmt ++ str "' > /etc/resolv.conf" /\ ~ In quote fmt /\
    printfText fmt = Some (str "nameserver " ++ gw ++ [newline]).
Proof.
  unfold dnsCommand. destruct (validIp gw) eqn:Hi; [|done]. intros <-%(inj inr).
  apply validateStackIp_inert in Hi. exists (str "nameserver " ++ gw ++ escNl). split; [|split].
  - by rewrite <- !app_assoc.
  - rewrite !in_app_iff. intros [H|[H|H]]; [|by apply inert_no_quote in Hi|].
    all: revert H; apply has_char_false; reflexivity.
  - rewrite printfText_inert, printfText_inert by done. done.
Qed.

(** [parseCidr] means to refuse a negative prefix, but tests only the first
    byte: a blank before the minus sign is skipped by [stoul], which wraps,
    so this address is accepted with prefix 24. *)
Theorem parseCidr_accepts_negative_prefix a :
  pton4 (str "10.0.0.0") = Some a ->
  parseCidr pton4 (str "10.0.0.0/ -18446744073709551592") = Some (a, 24).
Proof.
  intros H. unfold parseCidr.
  assert (stoulPos (str " -18446744073709551592") = Some (24, 22%nat)) as E by (vm_compute; reflexivity).
  change (find_char "/" (str "10.0.0.0/ -18446744073709551592")) with (Some 8%nat). cbv iota zeta.
  change (drop 9 (str "10.0.0.0/ -18446744073709551592")) with (str " -18446744073709551592"). rewrite E.
  change (cstr (take 8 (str "10.0.0.0/ -18446744073709551592"))) with (str "10.0.0.0"). rewrite H. done.
Qed.

End libc_facts.

Definition onlyHost (s : bytes) : option Z := if beq s (str "10.0.0.5") then Some 167772165 else None.
Definition webHosts : list (bytes * bytes) := [(str "db", str "10.0.0.5"); (str "web", str "10.0.0.5/24")].

Lemma hostsCommand_prints_witness :
  exists fmt cmd, hostsCommand onlyHost (fun _ => false) webHosts = inr cmd /\
    cmd = str "printf '" ++ fmt ++ str "' >> /etc/hosts" /\ ~ In quote fmt.
Proof.
  destruct (hostsCommand_prints onlyHost (fun _ => false) webHosts
    (str "printf '" ++ escNl ++ str "# crate stack containers" ++ escNl ++ str "10.0.0.5 db" ++ escNl
       ++ str "10.0.0.5/24 web" ++ escNl ++ str "' >> /etc/hosts")) as (fmt & E & H & _).
  - discriminate.
  - vm_compute. reflexivity.
  - exists fmt. eexists. split; [vm_compute; reflexivity|]. split; [exact E|exact H].
Defined.

Lemma parseCidr_accepts_negative_prefix_witness :
  parseCidr (fun _ => Some 167772160) (str "10.0.0.0/ -18446744073709551592") = Some (167772160, 24).
Proof. apply (parseCidr_accepts_negative_prefix (fun _ => Some 167772160) 167772160). reflexivity. Defined.

(** ** Which container a jail belongs to *)

Lemma jailName_iff jail c :
  jailNameMatchesContainer jail c = true <->
  c <> [] /\ exists d, d <> [] /\ all_digits d = true /\ jail = c ++ str "_pid" ++ d.
Proof.
  unfold jailNameMatchesContainer. destruct c as [|x c]; [cbn; split; [done|by intros [? _]]|].
  cbn [is_empty]. set (p := (x :: c) ++ str "_pid"). split.
  - destruct (Z.leb_spec (size_z jail) (size_z p)) as [|Hsz]; [done|].
    destruct (starts_with p jail) eqn:Hs; [|done]. cbn [negb].
    apply starts_with_spec in Hs as [d ->]. rewrite drop_app_length. intros Hd.
    split; [done|]. exists d. rewrite size_z_app in Hsz. split; [|split; [done|by rewrite app_assoc]].
    intros ->. rewrite (proj2 (size_z_nil []) eq_refl) in Hsz. lia.
  - intros (_ & d & Hne & Hd & ->). rewrite app_assoc. fold p. rewrite starts_with_app, drop_app_length.
    rewrite size_z_app. destruct d as [|y d]; [done|]. rewrite size_z_cons.
    pose proof (size_z_nonneg d). destruct (Z.leb_spec (size_z p + (1 + size_z d)) (size_z p)); [lia|done].
Qed.

Lemma digits_suffix_unique a b x y d1 d2 :
  all_digits d1 = true -> all_digits d2 = true -> is_digit x = false -> is_digit y = false ->
  a ++ x :: d1 = b ++ y :: d2 -> a = b /\ d1 = d2.
Proof.
  unfold all_digits. intros H1 H2 Hx Hy E. apply (f_equal (@rev ascii)) in E.
  rewrite !rev_app_distr in E. cbn in E. rewrite <- !app_assoc in E. cbn in E.
  apply (f_equal (span is_digit)) in E.
  assert (forall d, forallb is_digit d = true -> forallb is_digit (rev d) = true) as Hr.
  { intros d. rewrite !forallb_forall. intros H c Hc. by apply H, in_rev. }
  rewrite !span_stop in E by auto. injection E as Ed _ Ea.
  split; [by apply (inj (@rev ascii)) in Ea || (apply (f_equal (@rev ascii)) in Ea; rewrite !rev_involutive in Ea)|].
  apply (f_equal (@rev ascii)) in Ed. by rewrite !rev_involutive in Ed.
Qed.

(** A running jail belongs to at most one container of a stack, so [stack exec]
    and [stack down] never reach another container's jail. *)
Theorem jail_one_container jail c1 c2 :
  jailNameMatchesContainer jail c1 = true -> jailNameMatchesContainer jail c2 = true -> c1 = c2.
Proof.
  intros (_ & d1 & _ & H1 & ->)%jailName_iff (_ & d2 & _ & H2 & E)%jailName_iff.
  change (str "_pid" ++ d1) with (str "_pi" ++ "d"%char :: d1) in E.
  change (str "_pid" ++ d2) with (str "_pi" ++ "d"%char :: d2) in E. rewrite !app_assoc in E.
  apply digits_suffix_unique in E as [E _]; [|done..]. by apply app_inv_tail in E.
Qed.

Lemma jail_one_container_witness :
  jailNameMatchesContainer (str "db_pid1_pid77") (str "db_pid1") = true /\
  jailNameMatchesContainer (str "db_pid1_pid77") (str "db") = false.
Proof.
  split; [reflexivity|].
  destruct (jailNameMatchesContainer (str "db_pid1_pid77") (str "db")) eqn:E; [|reflexivity].
  pose proof (jail_one_container (str "db_pid1_pid77") (str "db_pid1") (str "db") eq_refl E) as H. discriminate H.
Defined.

(** ** Policy slots *)

(** The block of rule numbers at [slot] holds a used one. *)
Definition blockUsed (used : list Z) (width slot : Z) : Prop :=
  exists u, In u used /\ slot <= u <= slot + width - 1.

Lemma lowerBound_spec slot used :
  match lowerBound slot used with
  | None => forall u, In u used -> u < slot
  | Some v => In v used /\ slot <= v /\ forall u, In u used -> slot <= u -> v <= u
  end.
Proof.
  induction used as [|x l IH]; [by intros ? []|]. cbn [lowerBound fold_right].
  fold (lowerBound slot l). destruct (Z.leb_spec slot x).
  - destruct (lowerBound slot l) as [v|].
    + destruct IH as (Hv & Hs & Hmin). split; [|split; [lia|]].
      * destruct (Z.min_spec x v) as [[_ ->]|[_ ->]]; [by left|by right].
      * intros u [<-|Hu] Hle; [lia|]. specialize (Hmin u Hu Hle). lia.
    + split; [by left|]. split; [lia|]. intros u [<-|Hu] ?; [lia|]. specialize (IH u Hu). lia.
  - destruct (lowerBound slot l) as [v|].
    + destruct IH as (Hv & Hs & Hmin). split; [by right|]. split; [done|]. intros u [<-|Hu] ?; [lia|]. auto.
    + intros u [<-|Hu]; [done|auto].
Qed.

Lemma slotLoop_spec fuel used end_ width slot :
  0 < width -> 0 <= slot -> end_ + width + 1 < 2 ^ 32 -> slot <= end_ + 1 ->
  end_ - slot + 1 < Z.of_nat fuel * width ->
  exists k, 0 <= k /\ (forall i, 0 <= i < k -> blockUsed used width (slot + i * width)) /\
    let s := slot + k * width in
    (s + width - 1 <= end_ /\ ~ blockUsed used width s /\ slotLoop fuel used end_ width slot = Some s)
    \/ (end_ < s + width - 1 /\ slotLoop fuel used end_ width slot = Some 0).
Proof.
  intros Hw. revert slot. induction fuel as [|f IH]; intros slot H0 He Hs Hf; [lia|].
  rewrite Nat2Z.inj_succ, Z.mul_succ_l in Hf. cbn [slotLoop]. unfold u32.
  rewrite (Z.mod_small (slot + width)), (Z.mod_small (slot + width - 1)) by lia.
  destruct (Z.leb_spec (slot + width - 1) end_) as [Hle|Hgt].
  2:{ exists 0. split; [lia|]. split; [lia|]. right. rewrite Z.mul_0_l, Z.add_0_r. split; [lia|done]. }
  pose proof (lowerBound_spec slot used) as Hlb. destruct (lowerBound slot used) as [v|] eqn:Ev.
  - destruct Hlb as (Hv & Hsv & Hmin). destruct (Z.ltb_spec (slot + width - 1) v) as [Hfree|Hused].
    + exists 0. split; [lia|]. split; [lia|]. left. rewrite Z.mul_0_l, Z.add_0_r. split; [done|]. split; [|done].
      intros (u & Hu & Hr). specialize (Hmin u Hu). lia.
    + destruct (IH (slot + width)) as (k & Hk & Hall & Hres); [lia..|].
      exists (k + 1). replace (slot + (k + 1) * width) with (slot + width + k * width) by lia.
      split; [lia|]. split; [|done]. intros i Hi. destruct (Z.eq_dec i 0) as [-> |].
      * exists v. split; [done|]. lia.
      * replace (slot + i * width) with (slot + width + (i - 1) * width) by lia. apply Hall. lia.
  - exists 0. split; [lia|]. split; [lia|]. left. rewrite Z.mul_0_l, Z.add_0_r. split; [done|]. split; [|done].
    intros (u & Hu & Hr). specialize (Hlb u Hu). lia.
Qed.

(** [freePolicySlot] terminates and returns the first block of [width] rule
    numbers, counted from [base], that holds no rule in use; 0 when every block
    up to [end] holds one.  The range must not reach the top of [unsigned]. *)
Theorem freePolicySlot_first used base end_ width fuel :
  0 < width -> 0 <= base <= end_ -> end_ + width + 1 < 2 ^ 32 -> end_ - base + 1 < Z.of_nat fuel * width ->
  exists k, 0 <= k /\ (forall i, 0 <= i < k -> blockUsed used width (base + i * width)) /\
    let s := base + k * width in
    (s + width - 1 <= end_ /\ ~ blockUsed used width s /\ freePolicySlot fuel used base end_ width = Some s)
    \/ (end_ < s + width - 1 /\ freePolicySlot fuel used base end_ width = Some 0).
Proof.
  intros Hw Hb He Hf. unfold freePolicySlot.
  destruct (Z.eqb_spec width 0); [lia|]. destruct (Z.ltb_spec end_ base); [lia|].
  apply slotLoop_spec; lia.
Qed.

Lemma freePolicySlot_first_witness :
  freePolicySlot 102 [30005; 30199; 30450] policyBase policyEnd policyWidth = Some 30200 /\
  exists k, 0 <= k /\ forall i, 0 <= i < k -> blockUsed [30005; 30199; 30450] policyWidth (policyBase + i * policyWidth).
Proof.
  split; [vm_compute; reflexivity|].
  destruct (freePolicySlot_first [30005; 30199; 30450] policyBase policyEnd policyWidth 102)
    as (k & Hk & H & _); [unfold policyWidth, policyBase, policyEnd; lia..|].
  exists k. split; [exact Hk|exact H].
Defined.

(** ** Lists without duplicates *)

Lemma pushNew_NoDup {A} `{EqDecision A} (out : list A) n : NoDup out -> NoDup (pushNew out n).
Proof.
  intros H. unfold pushNew. case_bool_decide as Hn; [done|]. apply NoDup_app. split; [done|].
  split; [|apply NoDup_singleton]. intros x Hx ->%list_elem_of_singleton. done.
Qed.

Lemma pushNew_In {A} `{EqDecision A} (out : list A) n x : In x (pushNew out n) <-> In x out \/ x = n.
Proof.
  unfold pushNew. case_bool_decide as Hn.
  - apply list_elem_of_In in Hn. split; [by left|]. by intros [?| ->].
  - rewrite in_app_iff. cbn. firstorder.
Qed.

Lemma pushNew_fold {A} `{EqDecision A} (l out : list A) :
  NoDup out -> NoDup (fold_left pushNew l out) /\ forall x, In x (fold_left pushNew l out) <-> In x out \/ In x l.
Proof.
  revert out. induction l as [|n l IH]; intros out Hout; cbn [fold_left]; [cbn; tauto|].
  destruct (IH (pushNew out n) (pushNew_NoDup out n Hout)) as [H1 H2]. split; [done|].
  intros x. rewrite H2, pushNew_In. cbn. firstorder congruence.
Qed.

(** What [stack down] deletes: policy rules in the range, each once. *)
Lemma policyRules_range out bridge lo hi n :
  In n (policyRulesForBridge out bridge lo hi) -> lo <= n <= hi.
Proof.
  unfold policyRulesForBridge. destruct (is_empty bridge); [done|].
  destruct (pushNew_fold (omap (bridgeRule bridge lo hi) (getlines out)) [] NoDup_nil_2) as [_ H].
  intros [[]|(line & _ & Hr)%list_elem_of_In%list_elem_of_omap]%H.
  unfold bridgeRule in Hr. destruct (ipfwRuleNumbers line) as [|k ks]; [done|].
  destruct ((k <? lo) || (hi <? k)) eqn:E; [done|]. apply orb_false_iff in E.
  destruct (find_sub _ line); [|done]. destruct (drop _ line) as [|c t].
  - injection Hr as ->. lia.
  - destruct (_ && _); [done|]. injection Hr as ->. lia.
Qed.

Lemma templateCandidates_NoDup name dir home : NoDup (templateCandidates name dir home).
Proof.
  assert (H : forall out p, NoDup out -> NoDup (addCandidate out p)).
  { intros out p Ho. unfold addCandidate. destruct (is_empty p); [done|]. by apply pushNew_NoDup. }
  unfold templateCandidates. destruct (is_empty name); [constructor|].
  destruct (pathLike name); [destruct (starts_with _ _); auto using NoDup_nil_2|].
  destruct (is_empty home); auto using NoDup_nil_2.
Qed.

End StackPure.
