(* ===== verification/Backup.v ===== *)
(** * Backup names and plans: lib/backup_pure.cpp, and the file name parser of
    lib/backup_prune_pure.cpp

    Snapshot suffixes carry a UTC time; a stream file is named after its jail,
    its snapshot and, when incremental, its base.  The pruning decision is in
    BackupPrune.v. *)

From S2P Require Import Prelude CStd.

Module Backup.
Import CStd.

Definition kBackupPrefix : bytes := str "backup-".
Definition kReplPrefix : bytes := str "repl-".
(** NameLimits::kJailName *)
Definition kJailName : Z := 128.

Definition snapshotSuffixWithPrefix (prefix : bytes) (unixEpoch : Z) : bytes :=
  prefix ++ Calendar.strftimeIso (Calendar.gmtime unixEpoch).
Definition snapshotSuffix (unixEpoch : Z) : bytes := snapshotSuffixWithPrefix kBackupPrefix unixEpoch.

Definition fullSnapshotName (dataset suffix : bytes) : bytes := dataset ++ str "@" ++ suffix.

Definition streamFilename (jailName suffix incFromSuffix : bytes) : bytes :=
  if is_empty incFromSuffix then jailName ++ str "-" ++ suffix ++ str ".zstream"
  else jailName ++ str "-" ++ suffix ++ str ".inc-from-" ++ incFromSuffix ++ str ".zstream".

(** ** Validators *)

Definition shellMeta : bytes :=
  str ";`$|&<>" ++ [chr 92; newline; cr] ++ str "*?" ++ [dquote] ++ str "'".
Definition hasShellMetachar (s : bytes) : bool := existsb (one_of shellMeta) s.
Definition hasDotDotSegment (p : bytes) : bool := existsb (beq (str "..")) (split_on "/" p).

Definition nameChar (c : ascii) : bool := is_alnum c || one_of (str "._-") c.

Definition validateJailName (name : bytes) : bytes :=
  reject (is_empty name) with str "jail name is empty";
  reject (kJailName <? size_z name) with
    (str "jail name longer than " ++ dec kJailName ++ str " chars");
  reject (beq name (str ".") || beq name (str "..")) with str "jail name is reserved";
  check_chars nameChar (str "jail name") name.

Definition validateOutputDir (dir : bytes) : bytes :=
  reject (is_empty dir) with str "output directory is empty";
  reject (1024 <? size_z dir) with str "output directory longer than 1024 chars";
  reject (negb (starts_with (str "/") dir)) with str "output directory must be absolute";
  reject (hasDotDotSegment dir) with str "output directory must not contain '..' segments";
  reject (hasShellMetachar dir) with str "output directory contains shell metacharacters";
  [].

(** The character loop of [validateSinceName]. *)
Fixpoint sinceChars (s : bytes) : bytes :=
  match s with
  | [] => []
  | c :: t =>
      reject (Ascii.eqb c "@") with str "--since must not contain '@'";
      reject (Ascii.eqb c "/") with str "--since must not contain '/'";
      reject (negb (is_alnum c || one_of (str "._-:T+") c)) with
        (str "invalid character '" ++ [c] ++ str "' in --since value");
      sinceChars t
  end.

Definition validateSinceName (name : bytes) : bytes :=
  reject (is_empty name) with str "--since value is empty";
  reject (128 <? size_z name) with str "--since value longer than 128 chars";
  sinceChars name.

(** ** zfs command lines *)

Definition zfs : bytes := str "/sbin/zfs".
Definition buildSnapshotArgv (dataset suffix : bytes) : list bytes :=
  [zfs; str "snapshot"; dataset ++ str "@" ++ suffix].
Definition buildSendArgv (dataset currSuffix prevSuffix : bytes) : list bytes :=
  if is_empty prevSuffix then [zfs; str "send"; dataset ++ str "@" ++ currSuffix]
  else [zfs; str "send"; str "-i"; dataset ++ str "@" ++ prevSuffix; dataset ++ str "@" ++ currSuffix].
Definition buildRecvArgv (destDataset : bytes) : list bytes := [zfs; str "recv"; destDataset].
Definition buildDestroySnapshotArgv (dataset suffix : bytes) : list bytes :=
  [zfs; str "destroy"; dataset ++ str "@" ++ suffix].

(** ** Retention *)

Record RetentionPolicy := { hourly : Z; daily : Z; weekly : Z; monthly : Z }.
Definition noRetention : RetentionPolicy := {| hourly := 0; daily := 0; weekly := 0; monthly := 0 |}.

Fixpoint parseUnsignedLoop (n : Z) (s : bytes) : option Z :=
  match s with
  | [] => Some n
  | c :: t =>
      if negb (is_digit c) then None
      else let n := n * 10 + digit_val c in
           if 0xFFFFFFFF <? n then None else parseUnsignedLoop n t
  end.
Definition parseUnsigned (s : bytes) : option Z := if is_empty s then None else parseUnsignedLoop 0 s.

(** One [key=value] pair. *)
Definition retentionPair (p : RetentionPolicy) (pair : bytes) : bytes + RetentionPolicy :=
  match find_char "=" pair with
  | None => inl (str "retention pair must be 'key=value', got '" ++ pair ++ str "'")
  | Some eq =>
      let key := take eq pair in
      match parseUnsigned (drop (S eq) pair) with
      | None => inl (str "retention value for '" ++ key ++ str "' must be a non-negative integer")
      | Some n =>
          if beq key (str "hourly") then
            inr {| hourly := n; daily := daily p; weekly := weekly p; monthly := monthly p |}
          else if beq key (str "daily") then
            inr {| hourly := hourly p; daily := n; weekly := weekly p; monthly := monthly p |}
          else if beq key (str "weekly") then
            inr {| hourly := hourly p; daily := daily p; weekly := n; monthly := monthly p |}
          else if beq key (str "monthly") then
            inr {| hourly := hourly p; daily := daily p; weekly := weekly p; monthly := n |}
          else inl (str "unknown retention key '" ++ key ++ str "' (allowed: hourly|daily|weekly|monthly)")
      end
  end.

Fixpoint retentionPairs (p : RetentionPolicy) (pairs : list bytes) : bytes + RetentionPolicy :=
  match pairs with
  | [] => inr p
  | x :: t => match retentionPair p x with inl e => inl e | inr p' => retentionPairs p' t end
  end.

(** A comma at the end of the text starts no further pair. *)
Definition parseRetention (spec : bytes) : bytes + RetentionPolicy :=
  if is_empty spec then inl (str "retention spec is empty")
  else retentionPairs noRetention (dropLastEmpty (split_on "," spec)).

(** ** Full or incremental *)

Inductive PlanKind := Full | Incremental | PlanError.
Record Plan := { p_kind : PlanKind; p_reason : bytes; sinceSuffix : bytes }.
Record Inputs := {
  sinceProvided : bool; sinceName : bytes; priorBackupExists : bool; priorSnapshotSuffix : bytes }.

Definition choosePlan (i : Inputs) (autoIncremental : bool) : Plan :=
  if sinceProvided i then
    if is_empty (sinceName i) then
      {| p_kind := PlanError; p_reason := str "--since given but value is empty"; sinceSuffix := [] |}
    else {| p_kind := Incremental; p_reason := []; sinceSuffix := sinceName i |}
  else if autoIncremental && priorBackupExists i then
    {| p_kind := Incremental; p_reason := []; sinceSuffix := priorSnapshotSuffix i |}
  else {| p_kind := Full; p_reason := []; sinceSuffix := [] |}.

(** ** backup_prune_pure.cpp: file names *)

Definition validateDir (dir : bytes) : bytes :=
  reject (is_empty dir) with str "directory is empty";
  reject (1024 <? size_z dir) with str "directory longer than 1024 chars";
  reject (negb (starts_with (str "/") dir)) with str "directory must be absolute";
  reject (hasDotDotSegment dir) with str "directory must not contain '..' segments";
  reject (hasShellMetachar dir) with str "directory contains shell metacharacters";
  [].

Definition validateJailFilter (name : bytes) : bytes :=
  if is_empty name then [] else validateJailName name.

Record StreamFile := { filename : bytes; jailName : bytes; suffix : bytes; incFromSuffix : bytes; unixEpoch : Z }.

Definition byteIs (s : bytes) (i : nat) (c : ascii) : bool :=
  match s !! i with Some x => Ascii.eqb x c | None => false end.

Definition digits (s : bytes) : bool := if is_empty s then false else forallb is_digit s.

(** 0 is the failure. *)
Definition parseSuffixEpoch (suffix : bytes) : Z :=
  if negb (size_z suffix =? size_z kBackupPrefix + 20) then 0
  else if negb (starts_with kBackupPrefix suffix) then 0
  else
    let body := drop (length kBackupPrefix) suffix in
    if negb (byteIs body 4 "-" && byteIs body 7 "-" && byteIs body 10 "T" && byteIs body 13 ":"
             && byteIs body 16 ":" && byteIs body 19 "Z") then 0
    else
      let y_s := take 4 body in
      let m_s := take 2 (drop 5 body) in
      let d_s := take 2 (drop 8 body) in
      let hh_s := take 2 (drop 11 body) in
      let mm_s := take 2 (drop 14 body) in
      let ss_s := take 2 (drop 17 body) in
      if negb (digits y_s && digits m_s && digits d_s && digits hh_s && digits mm_s && digits ss_s) then 0
      else
        let y := dec_value y_s in let m := dec_value m_s in let d := dec_value d_s in
        let hh := dec_value hh_s in let mm := dec_value mm_s in let ss := dec_value ss_s in
        if (y <? 1970) || (9999 <? y) then 0
        else if (m <? 1) || (12 <? m) then 0
        else if (d <? 1) || (31 <? d) then 0
        else if (23 <? hh) || (59 <? mm) || (60 <? ss) then 0
        else
          let e := Calendar.civilToEpoch y m d hh mm ss in
          if e <=? 0 then 0 else e.

Definition kExt : bytes := str ".zstream".
Definition kIncTag : bytes := str ".inc-from-".
Definition kBackupTag : bytes := str "-backup-".

(** The stem before the extension: the part before the tag and the base. *)
Definition splitInc (stem : bytes) : bytes * bytes :=
  match find_sub kIncTag stem with
  | Some incPos => (take incPos stem, drop (incPos + length kIncTag) stem)
  | None => (stem, [])
  end.

Definition parseStreamFilename (basename : bytes) : bytes + StreamFile :=
  if size_z basename <=? size_z kExt then inl (str "filename too short for .zstream suffix")
  else if negb (ends_with kExt basename) then inl (str "filename does not end in .zstream")
  else
    let '(stem, incFrom) := splitInc (take (length basename - length kExt) basename) in
    match rfind_sub kBackupTag stem with
    | None | Some O => inl (str "filename does not contain '-backup-' separator")
    | Some bp =>
        let jail := take bp stem in
        let suf := drop (S bp) stem in
        if is_empty jail || (kJailName <? size_z jail) then inl (str "jail name out of length bounds")
        else if negb (forallb nameChar jail) then inl (str "jail name contains invalid character")
        else
          let epoch := parseSuffixEpoch suf in
          if epoch =? 0 then inl (str "snapshot suffix is not a valid 'backup-<utc-iso8601>'")
          else if negb (is_empty incFrom) && (parseSuffixEpoch incFrom =? 0)
          then inl (str "inc-from-<suffix> is not a valid 'backup-<utc-iso8601>'")
          else inr {| filename := basename; jailName := jail; suffix := suf; incFromSuffix := incFrom;
                      unixEpoch := epoch |}
    end.

(** * Theorems *)

(** ** Snapshot suffixes *)

(** The epochs whose year has four digits, from the second second of 1970. *)
Definition datable (e : Z) : Prop := 0 < e < 253402300800.

(** The twenty bytes of a date. *)
Definition isoBytes (y m d hh mm ss : Z) : bytes :=
  Calendar.pad4 y ++ str "-" ++ Calendar.pad2 m ++ str "-" ++ Calendar.pad2 d ++ str "T" ++ Calendar.pad2 hh
  ++ str ":" ++ Calendar.pad2 mm ++ str ":" ++ Calendar.pad2 ss ++ str "Z".

Lemma snapshotSuffix_bytes e :
  datable e -> exists y m d hh mm ss,
    snapshotSuffix e = kBackupPrefix ++ isoBytes y m d hh mm ss /\
    1970 <= y <= 9999 /\ 1 <= m <= 12 /\ 1 <= d <= 31 /\ 0 <= hh <= 23 /\ 0 <= mm <= 59 /\ 0 <= ss <= 59 /\
    Calendar.civilToEpoch y m d hh mm ss = e.
Proof.
  intros He. destruct (Calendar.gmtime_ok e) as (H1 & H2 & H3 & H4 & H5 & H6 & H7); [unfold datable in He; lia|].
  set (t := Calendar.gmtime e) in *.
  exists (Calendar.tm_year t), (Calendar.tm_mon t + 1), (Calendar.tm_mday t), (Calendar.tm_hour t), (Calendar.tm_min t), (Calendar.tm_sec t).
  split; [|repeat split; lia || done]. unfold snapshotSuffix, snapshotSuffixWithPrefix, Calendar.strftimeIso. fold t.
  destruct (Z.ltb_spec (Calendar.tm_year t) 1000); [lia|]. by destruct (Z.ltb_spec (Calendar.tm_year t) 10000); [|lia].
Qed.

Lemma pad2_value n : 0 <= n < 100 -> dec_value (Calendar.pad2 n) = n.
Proof.
  intros Hn. unfold Calendar.pad2, dec_value, dec_value_from. cbn [fold_left].
  assert (0 <= n / 10 < 10) by (Z.to_euclidean_division_equations; lia).
  rewrite !digit_chr_val by (try done; apply Z.mod_pos_bound; lia).
  pose proof (Z.div_mod n 10). lia.
Qed.

Lemma pad2_digits n : 0 <= n < 100 -> forallb is_digit (Calendar.pad2 n) = true.
Proof.
  intros Hn. assert (0 <= n / 10 < 10) by (Z.to_euclidean_division_equations; lia).
  cbn [Calendar.pad2 forallb]. rewrite !digit_chr_digit; [done|apply Z.mod_pos_bound; lia|done].
Qed.

Lemma pad4_value n : 0 <= n < 10000 -> dec_value (Calendar.pad4 n) = n /\ forallb is_digit (Calendar.pad4 n) = true.
Proof.
  intros Hn. assert (0 <= n / 100 < 100) by (Z.to_euclidean_division_equations; lia).
  assert (0 <= n mod 100 < 100) by (apply Z.mod_pos_bound; lia). unfold Calendar.pad4. split.
  - unfold dec_value. rewrite dec_value_from_app, dec_value_from_shift.
    change (dec_value_from 0 (Calendar.pad2 (n / 100))) with (dec_value (Calendar.pad2 (n / 100))).
    rewrite !pad2_value by done. change (10 ^ size_z (Calendar.pad2 (n mod 100))) with 100.
    pose proof (Z.div_mod n 100). lia.
  - by rewrite forallb_app, !pad2_digits.
Qed.

Lemma parseSuffixEpoch_iso y m d hh mm ss :
  1970 <= y <= 9999 -> 1 <= m <= 12 -> 1 <= d <= 31 -> 0 <= hh <= 23 -> 0 <= mm <= 59 -> 0 <= ss <= 60 ->
  0 < Calendar.civilToEpoch y m d hh mm ss ->
  parseSuffixEpoch (kBackupPrefix ++ isoBytes y m d hh mm ss) = Calendar.civilToEpoch y m d hh mm ss.
Proof.
  intros Hy Hm Hd Hhh Hmm Hss He. unfold parseSuffixEpoch.
  rewrite starts_with_app, drop_app_length.
  change (size_z (kBackupPrefix ++ isoBytes y m d hh mm ss) =? size_z kBackupPrefix + 20) with true. cbn [negb].
  set (b := isoBytes y m d hh mm ss).
  change (byteIs b 4 "-" && byteIs b 7 "-" && byteIs b 10 "T" && byteIs b 13 ":" && byteIs b 16 ":" && byteIs b 19 "Z")
    with true. cbn [negb]. cbv zeta.
  change (take 4 b) with (Calendar.pad4 y). change (take 2 (drop 5 b)) with (Calendar.pad2 m).
  change (take 2 (drop 8 b)) with (Calendar.pad2 d). change (take 2 (drop 11 b)) with (Calendar.pad2 hh).
  change (take 2 (drop 14 b)) with (Calendar.pad2 mm). change (take 2 (drop 17 b)) with (Calendar.pad2 ss).
  destruct (pad4_value y ltac:(lia)) as [Hyv Hyd].
  assert (Hdig : forall n, 0 <= n < 100 -> digits (Calendar.pad2 n) = true) by (intros n Hn; apply (pad2_digits n Hn)).
  change (digits (Calendar.pad4 y)) with (forallb is_digit (Calendar.pad4 y)).
  rewrite Hyd, !Hdig by lia. cbn [andb negb]. rewrite Hyv, !pad2_value by lia.
  destruct (Z.ltb_spec y 1970), (Z.ltb_spec 9999 y); [lia..|]. cbn [orb].
  destruct (Z.ltb_spec m 1), (Z.ltb_spec 12 m); [lia..|]. cbn [orb].
  destruct (Z.ltb_spec d 1), (Z.ltb_spec 31 d); [lia..|]. cbn [orb].
  destruct (Z.ltb_spec 23 hh), (Z.ltb_spec 59 mm), (Z.ltb_spec 60 ss); [lia..|]. cbn [orb].
  by destruct (Z.leb_spec (Calendar.civilToEpoch y m d hh mm ss) 0); [lia|].
Qed.

Lemma parse_snapshotSuffix e : datable e -> parseSuffixEpoch (snapshotSuffix e) = e.
Proof.
  intros He. destruct (snapshotSuffix_bytes e He) as (y & m & d & hh & mm & ss & -> & H1 & H2 & H3 & H4 & H5 & H6 & H7).
  unfold datable in He. rewrite parseSuffixEpoch_iso; lia.
Qed.

(** The snapshot name a backup gets carries its time: reading the suffix back
    gives the same second, for every time up to the year 9999. *)
Theorem snapshot_suffix_roundtrip e : 0 < e < 253402300800 -> parseSuffixEpoch (snapshotSuffix e) = e.
Proof. apply parse_snapshotSuffix. Qed.

Lemma snapshot_suffix_roundtrip_witness :
  snapshotSuffix 1767225600 = str "backup-2026-01-01T00:00:00Z" /\ parseSuffixEpoch (snapshotSuffix 1767225600) = 1767225600.
Proof. split; [vm_compute; reflexivity|apply snapshot_suffix_roundtrip; lia]. Defined.

(** ** Searching *)

(** A match cannot run over a byte the pattern does not have. *)
Lemma starts_with_cut sub a x c :
  ~ In x sub -> starts_with sub (a ++ x :: c) = true -> starts_with sub a = true.
Proof.
  revert a. induction sub as [|s sub IH]; intros a Hx; [done|]. destruct a as [|y a]; cbn [app starts_with].
  - intros [E _]%andb_true_iff. apply Ascii.eqb_eq in E as ->. cbn in Hx. tauto.
  - rewrite !andb_true_iff. intros [-> H]. split; [done|]. apply IH; [cbn in Hx; tauto|done].
Qed.

Lemma starts_with_shorter sub a : starts_with sub [] = false -> (length a < length sub)%nat -> starts_with sub a = false.
Proof.
  intros _. revert a. induction sub as [|s sub IH]; intros a Hl; [cbn in Hl; lia|].
  destruct a as [|x a]; [done|]. cbn [starts_with]. rewrite IH by (cbn in Hl; lia). apply andb_false_r.
Qed.

Lemma find_sub_over sub a x c :
  sub <> [] -> ~ In x sub -> find_sub sub a = None ->
  find_sub sub (a ++ x :: c) = (fun i => (length a + S i)%nat) <$> find_sub sub c.
Proof.
  intros Hne Hx. induction a as [|y a IH].
  - intros _. cbn [app find_sub]. destruct (starts_with sub (x :: c)) eqn:E.
    { apply (starts_with_cut sub [] x c Hx) in E. by destruct sub. }
    by destruct (find_sub sub c).
  - cbn [app find_sub]. destruct (starts_with sub (y :: a)) eqn:E1; [done|].
    destruct (starts_with sub (y :: a ++ x :: c)) eqn:E2.
    { change (y :: a ++ x :: c) with ((y :: a) ++ x :: c) in E2. apply starts_with_cut in E2; [congruence|done]. }
    intros H. destruct (find_sub sub a) eqn:E; [done|]. rewrite IH by done. by destruct (find_sub sub c).
Qed.

Lemma find_sub_no_head h sub c : ~ In h c -> find_sub (h :: sub) c = None.
Proof.
  induction c as [|x c IH]; intros H; [done|]. cbn [find_sub starts_with].
  destruct (Ascii.eqb_spec h x) as [->|]; [cbn in H; tauto|]. cbn [andb]. rewrite IH; [done|]. cbn in H. tauto.
Qed.

Lemma find_sub_first h sub p r : ~ In h p -> find_sub (h :: sub) (p ++ (h :: sub) ++ r) = Some (length p).
Proof.
  induction p as [|x p IH]; intros H.
  - cbn [app]. change (h :: sub ++ r) with ((h :: sub) ++ r). cbn [find_sub].
    unfold find_sub. destruct ((h :: sub) ++ r) eqn:E; [done|]. rewrite <- E, starts_with_app. done.
  - cbn [app] in IH |- *. cbn [find_sub starts_with]. destruct (Ascii.eqb_spec h x) as [->|]; [cbn in H; tauto|].
    cbn [andb]. rewrite IH; [done|]. cbn in H. tauto.
Qed.

(** ** Stream file names *)

(** What a snapshot suffix of a datable time is made of. *)
Definition suffixChar (c : ascii) : bool := is_digit c || one_of (str "-T:Z") c.

Lemma suffix_shape e :
  datable e -> exists d, snapshotSuffix e = str "backup-" ++ d /\ forallb suffixChar d = true /\ d <> [] /\
    (forall c t, d = c :: t -> is_digit c = true).
Proof.
  intros He. destruct (snapshotSuffix_bytes e He) as (y & m & d & hh & mm & ss & -> & H1 & H2 & H3 & H4 & H5 & H6 & _).
  exists (isoBytes y m d hh mm ss). split; [done|].
  assert (Hc : forall n, 0 <= n < 100 -> forallb suffixChar (Calendar.pad2 n) = true).
  { intros n Hn. pose proof (pad2_digits n Hn) as Hd. cbn [Calendar.pad2 forallb] in *. unfold suffixChar.
    rewrite andb_true_r in *. apply andb_true_iff in Hd as [-> ->]. done. }
  assert (0 <= y / 100 < 100) by (Z.to_euclidean_division_equations; lia).
  assert (0 <= y mod 100 < 100) by (apply Z.mod_pos_bound; lia).
  split; [|split; [done|]].
  - unfold isoBytes, Calendar.pad4. rewrite !forallb_app, !Hc by lia. done.
  - intros c t [= <- _]. pose proof (pad2_digits (y / 100) ltac:(lia)) as Hd. cbn [Calendar.pad2 forallb] in Hd.
    by apply andb_true_iff in Hd as [? _].
Qed.

Lemma suffixChar_not c d : suffixChar c = false -> forallb suffixChar d = true -> ~ In c d.
Proof. rewrite forallb_forall. intros Hc H Hin. by rewrite H in Hc. Qed.

Lemma in_backup (c : ascii) d : c <> "b"%char -> c <> "a"%char -> c <> "c"%char -> c <> "k"%char -> c <> "u"%char ->
  c <> "p"%char -> c <> "-"%char -> ~ In c d -> ~ In c (str "backup-" ++ d).
Proof. intros. rewrite in_app_iff. cbn. intuition congruence. Qed.

(** The inc-from tag is found where it was put, and only there. *)
Lemma splitInc_full jail e :
  datable e -> find_sub kIncTag (jail ++ str "-") = None ->
  splitInc (jail ++ str "-" ++ snapshotSuffix e) = (jail ++ str "-" ++ snapshotSuffix e, []).
Proof.
  intros He Hj. destruct (suffix_shape e He) as (d & -> & Hd & _). unfold splitInc.
  rewrite app_assoc. change (str "backup-" ++ d) with ("b"%char :: str "ackup-" ++ d).
  rewrite find_sub_over; [|done|vm_compute; intuition discriminate|done].
  change kIncTag with ("."%char :: str "inc-from-") at 1. rewrite find_sub_no_head; [done|].
  rewrite in_app_iff. intros [H|H]; [vm_compute in H; intuition discriminate|]. by apply (suffixChar_not "." d).
Qed.

Lemma splitInc_incremental jail e inc :
  datable e -> find_sub kIncTag (jail ++ str "-") = None ->
  splitInc ((jail ++ str "-" ++ snapshotSuffix e) ++ kIncTag ++ inc) = (jail ++ str "-" ++ snapshotSuffix e, inc).
Proof.
  intros He Hj. destruct (suffix_shape e He) as (d & -> & Hd & _). unfold splitInc.
  assert (E : find_sub kIncTag ((jail ++ str "-" ++ str "backup-" ++ d) ++ kIncTag ++ inc)
    = Some (length (jail ++ str "-" ++ str "backup-" ++ d))).
  { replace ((jail ++ str "-" ++ str "backup-" ++ d) ++ kIncTag ++ inc)
      with ((jail ++ str "-") ++ "b"%char :: (str "ackup-" ++ d) ++ kIncTag ++ inc) by (by rewrite <- !app_assoc).
    rewrite find_sub_over; [|done|vm_compute; intuition discriminate|done].
    change kIncTag with ("."%char :: str "inc-from-"). rewrite find_sub_first.
    - cbn [fmap option_fmap option_map]. f_equal. rewrite !length_app. cbn [length str list_ascii_of_string]. lia.
    - rewrite in_app_iff. intros [H|H]; [vm_compute in H; intuition discriminate|]. by apply (suffixChar_not "." d). }
  rewrite E, take_app_length, <- drop_drop, drop_app_length, drop_app_length. done.
Qed.

Lemma rfind_backup jail e :
  datable e -> rfind_sub kBackupTag (jail ++ str "-" ++ snapshotSuffix e) = Some (length jail).
Proof.
  intros He. destruct (suffix_shape e He) as (d & -> & Hd & Hne & Hhead).
  change (str "-" ++ str "backup-" ++ d) with (kBackupTag ++ d). apply rfind_sub_last; [done|].
  assert (Hnone : rfind_sub kBackupTag d = None).
  { apply (rfind_sub_none "b"); [vm_compute; tauto|]. by apply (suffixChar_not "b" d). }
  destruct d as [|c t]; [done|]. specialize (Hhead c t eq_refl).
  change (tail (kBackupTag ++ c :: t)) with (str "backup-" ++ c :: t).
  cbn [str list_ascii_of_string app rfind_sub]. cbn [rfind_sub] in Hnone. rewrite Hnone.
  assert (Hb : Ascii.eqb "b" c = false) by (destruct (Ascii.eqb_spec "b" c) as [<-|]; done).
  change kBackupTag with ("-"%char :: "b"%char :: str "ackup-"). cbn [starts_with]. by rewrite Hb.
Qed.

(** A jail name whose streams can be told apart: valid, and without the tag,
    also when the separator is put behind it. *)
Definition nameable (jail : bytes) : Prop :=
  validateJailName jail = [] /\ find_sub kIncTag (jail ++ str "-") = None.

Lemma nameable_ok jail :
  nameable jail -> jail <> [] /\ size_z jail <= kJailName /\ forallb nameChar jail = true.
Proof.
  intros [H _]. unfold validateJailName in H. ok_split H. destruct H as (H1 & H2 & _ & H3).
  split; [by intros ->|]. split; [lia|done].
Qed.

Lemma parse_stem jail e inc base :
  nameable jail -> datable e -> (inc = [] \/ parseSuffixEpoch inc <> 0) ->
  (size_z base <=? size_z kExt) = false -> ends_with kExt base = true ->
  splitInc (take (length base - length kExt) base) = (jail ++ str "-" ++ snapshotSuffix e, inc) ->
  parseStreamFilename base
  = inr {| filename := base; jailName := jail; suffix := snapshotSuffix e; incFromSuffix := inc; unixEpoch := e |}.
Proof.
  intros Hn He Hinc Hsz Hend Hsplit. unfold parseStreamFilename. rewrite Hsz, Hend, Hsplit, rfind_backup by done.
  cbn [negb]. destruct (nameable_ok jail Hn) as (Hne & Hlen & Hch). destruct jail as [|x jail]; [done|].
  cbn [length]. change (S (length jail)) with (length (x :: jail)).
  rewrite take_app_length. change (drop (S (length (x :: jail)))) with (fun l : bytes => drop (S (length (x :: jail))) l).
  cbv beta. rewrite <- Nat.add_1_r, drop_app_add. change (drop 1 (str "-" ++ snapshotSuffix e)) with (snapshotSuffix e).
  cbn [is_empty orb]. destruct (Z.ltb_spec kJailName (size_z (x :: jail))); [lia|]. rewrite Hch. cbn [negb].
  rewrite parse_snapshotSuffix by done. unfold datable in He. destruct (Z.eqb_spec e 0); [lia|].
  destruct Hinc as [->|Hinc]; [done|]. destruct (Z.eqb_spec (parseSuffixEpoch inc) 0); [done|]. by rewrite andb_false_r.
Qed.

(** Every stream that [crate backup] names is recognised by the pruner, with
    the same jail, snapshot, base and time, for full and incremental streams
    of any jail whose name does not contain the inc-from tag. *)
Theorem stream_filename_roundtrip jail e base :
  nameable jail -> 0 < e < 253402300800 -> match base with Some b => 0 < b < 253402300800 | None => True end ->
  let inc := match base with Some b => snapshotSuffix b | None => [] end in
  let name := streamFilename jail (snapshotSuffix e) inc in
  parseStreamFilename name
  = inr {| filename := name; jailName := jail; suffix := snapshotSuffix e; incFromSuffix := inc; unixEpoch := e |}.
Proof.
  intros Hn He Hb inc name. pose proof Hn as [_ Htag].
  assert (Hfile : exists stem, name = stem ++ kExt /\ stem <> [] /\ splitInc stem = (jail ++ str "-" ++ snapshotSuffix e, inc)).
  { unfold name, streamFilename, inc. destruct base as [b|].
    - assert (is_empty (snapshotSuffix b) = false) as ->
        by (destruct (suffix_shape b Hb) as (d & -> & _); done).
      exists ((jail ++ str "-" ++ snapshotSuffix e) ++ kIncTag ++ snapshotSuffix b). split; [|split].
      + by rewrite <- !app_assoc.
      + by destruct jail.
      + by apply splitInc_incremental.
    - exists (jail ++ str "-" ++ snapshotSuffix e). split; [by rewrite <- !app_assoc|]. split; [by destruct jail|].
      by apply splitInc_full. }
  destruct Hfile as (stem & -> & Hne & Hs). apply parse_stem; try done.
  - unfold inc. destruct base as [b|]; [right|by left]. rewrite parse_snapshotSuffix by done. lia.
  - rewrite size_z_app. destruct stem as [|x stem]; [done|]. rewrite size_z_cons. pose proof (size_z_nonneg stem). lia.
  - apply ends_with_spec. eauto.
  - rewrite length_app, Nat.add_sub, take_app_length. done.
Qed.

Lemma stream_filename_roundtrip_witness :
  let name := streamFilename (str "web-1") (snapshotSuffix 1767225600) (snapshotSuffix 1767139200) in
  name = str "web-1-backup-2026-01-01T00:00:00Z.inc-from-backup-2025-12-31T00:00:00Z.zstream" /\
  exists f, parseStreamFilename name = inr f /\ jailName f = str "web-1".
Proof.
  split; [vm_compute; reflexivity|]. eexists. split.
  - apply (stream_filename_roundtrip (str "web-1") 1767225600 (Some 1767139200)); [split; vm_compute; reflexivity|lia|lia].
  - reflexivity.
Defined.

(** A jail name with the inc-from tag in it is valid for [crate backup], but no
    stream of that jail is ever recognised, so none is pruned. *)
Theorem tagged_jail_never_pruned :
  validateJailName (str "a.inc-from") = [] /\
  exists e, parseStreamFilename (streamFilename (str "a.inc-from") (snapshotSuffix 1767225600) []) = inl e.
Proof. split; [vm_compute; reflexivity|]. eexists. vm_compute. reflexivity. Qed.

End Backup.
