(* ===== verification/BackupPrune.v ===== *)
(** * Which backup streams to delete: lib/backup_prune_pure.cpp

    [decidePrune] splits a directory's streams into those to keep, to remove
    and to report as orphans.  Vectors of indices into [files] are lists of
    (index, file) pairs; [std::sort] is the interface of OMap.v, so the
    theorems hold for any order of ties. *)

From Stdlib Require Import Permutation Sorted.
From S2P Require Import Prelude CStd OMap Backup.

Module BackupPrune.
Import Backup.

Definition hourBucket (epoch : Z) : Z := Z.quot epoch 3600.
Definition dayBucket (epoch : Z) : Z := Z.quot epoch 86400.
Definition weekBucket (epoch : Z) : Z := Z.quot epoch (86400 * 7).
Definition monthBucket (epoch : Z) : Z :=
  let t := Calendar.gmtime epoch in Calendar.tm_year t * 12 + Calendar.tm_mon t.

(** An index and the file it names. *)
Abbreviation Item := (nat * StreamFile)%type.

Definition epochOf (x : Item) : Z := unixEpoch (snd x).

(** The loop of [bucketKeep]: the indices kept, newest first. *)
Fixpoint bucketLoop (n : Z) (fn : Z -> Z) (seen : list Z) (items : list Item) : list nat :=
  match items with
  | [] => []
  | x :: t =>
      let key := fn (epochOf x) in
      if bool_decide (key ∈ seen) then bucketLoop n fn seen t
      else
        let seen := key :: seen in
        fst x :: (if n <=? size_z seen then [] else bucketLoop n fn seen t)
  end.

Definition bucketKeep (fulls : list Item) (n : Z) (fn : Z -> Z) : list nat :=
  if n =? 0 then [] else bucketLoop n fn [] fulls.

Record PruneDecision := { keep : list bytes; remove : list bytes; orphans : list bytes }.

(** The walk over the incrementals, oldest first: those based on a kept
    suffix, which join the kept suffixes, and the others. *)
Fixpoint incLoop (keptSuffixes : list bytes) (incs : list Item) : list StreamFile * list StreamFile :=
  match incs with
  | [] => ([], [])
  | (_, f) :: t =>
      if existsb (beq (incFromSuffix f)) keptSuffixes
      then let '(k, o) := incLoop (suffix f :: keptSuffixes) t in (f :: k, o)
      else let '(k, o) := incLoop keptSuffixes t in (k, f :: o)
  end.

Section prune.
Context `{StdSort}.

Definition indexed (files : list StreamFile) : list Item := imap pair files.

Definition isBad (x : Item) : bool := epochOf x =? 0.
Definition isFull (x : Item) : bool := negb (isBad x) && is_empty (incFromSuffix (snd x)).
Definition isInc (x : Item) : bool := negb (isBad x) && negb (is_empty (incFromSuffix (snd x))).

Definition fullsByEpochDesc (files : list StreamFile) : list Item :=
  std_sort (fun a b => epochOf b <? epochOf a) (List.filter isFull (indexed files)).

Definition incrementals (files : list StreamFile) : list Item :=
  std_sort (fun a b => if negb (epochOf a =? epochOf b) then epochOf a <? epochOf b
                       else bytes_ltb (filename (snd a)) (filename (snd b)))
    (List.filter isInc (indexed files)).

(** The union of what the four policies keep. *)
Definition keptIndices (files : list StreamFile) (policy : RetentionPolicy) : list nat :=
  let fulls := fullsByEpochDesc files in
  bucketKeep fulls (hourly policy) hourBucket ++ bucketKeep fulls (daily policy) dayBucket
  ++ bucketKeep fulls (weekly policy) weekBucket ++ bucketKeep fulls (monthly policy) monthBucket.

Definition isKept (kept : list nat) (x : Item) : bool := bool_decide (fst x ∈ kept).

Definition decidePruneOneJail (files : list StreamFile) (policy : RetentionPolicy) (deleteOrphans : bool)
    : PruneDecision :=
  let fulls := fullsByEpochDesc files in
  let kept := keptIndices files policy in
  let keptSuffixes := map (fun x => suffix (snd x)) (List.filter (isKept kept) fulls) in
  let '(kinc, orph) := incLoop keptSuffixes (incrementals files) in
  let bad := List.filter isBad (indexed files) in
  {| keep := map (fun x => filename (snd x)) (List.filter (isKept kept) fulls) ++ map filename kinc;
     remove := map (fun x => filename (snd x)) (List.filter (fun x => negb (isKept kept x)) fulls)
               ++ (if deleteOrphans then map filename orph else []);
     orphans := (if deleteOrphans then [] else map filename orph) ++ map (fun x => filename (snd x)) bad |}.

(** [byJail[f.jailName].push_back(f)] *)
Definition addToJail (m : list (bytes * list StreamFile)) (f : StreamFile) : list (bytes * list StreamFile) :=
  OMap.insert (jailName f) (default [] (OMap.find (jailName f) m) ++ [f]) m.
Definition byJail (files : list StreamFile) : list (bytes * list StreamFile) := fold_left addToJail files [].

Definition decidePrune (files : list StreamFile) (policy : RetentionPolicy) (deleteOrphans : bool)
    : PruneDecision :=
  let ds := map (fun kv => decidePruneOneJail (snd kv) policy deleteOrphans) (byJail files) in
  {| keep := std_sort bytes_ltb (concat (map keep ds));
     remove := std_sort bytes_ltb (concat (map remove ds));
     orphans := std_sort bytes_ltb (concat (map orphans ds)) |}.

(** * Theorems *)

(** ** One jail: every stream gets exactly one fate *)

Lemma Permutation_filter_split {A} (f : A -> bool) l :
  Permutation (List.filter f l ++ List.filter (fun x => negb (f x)) l) l.
Proof.
  induction l as [|x l IH]; cbn; [done|]. destruct (f x); cbn.
  - by apply perm_skip.
  - rewrite <- Permutation_middle. by apply perm_skip.
Qed.

Lemma filters_split items :
  Permutation (List.filter isFull items ++ List.filter isInc items ++ List.filter isBad items) items.
Proof.
  induction items as [|x l IH]; [done|]. cbn [List.filter]. unfold isFull, isInc in *.
  destruct (isBad x); cbn [negb andb].
  - rewrite !app_assoc. rewrite <- Permutation_middle, <- !app_assoc. by apply perm_skip.
  - destruct (is_empty _); cbn [negb app].
    + by apply perm_skip.
    + rewrite <- Permutation_middle. by apply perm_skip.
Qed.

Lemma snd_imap (g : nat -> StreamFile -> Item) files :
  (forall i x, snd (g i x) = x) -> map snd (imap g files) = files.
Proof.
  revert g. induction files as [|f files IH]; intros g Hg; [done|]. rewrite imap_cons. cbn [map].
  rewrite Hg, IH; [done|]. intros. apply Hg.
Qed.

Lemma snd_indexed files : map snd (indexed files) = files.
Proof. by apply snd_imap. Qed.

Lemma incLoop_split ks incs :
  Permutation (fst (incLoop ks incs) ++ snd (incLoop ks incs)) (map snd incs).
Proof.
  revert ks. induction incs as [|[i f] incs IH]; intros ks; cbn [incLoop map snd]; [done|].
  destruct (existsb _ ks).
  - specialize (IH (suffix f :: ks)). destruct (incLoop _ incs) as [k o]. cbn in *. by apply perm_skip.
  - specialize (IH ks). destruct (incLoop ks incs) as [k o]. cbn in *. rewrite <- Permutation_middle. by apply perm_skip.
Qed.

Lemma one_jail_partition files policy del :
  let d := decidePruneOneJail files policy del in
  Permutation (keep d ++ remove d ++ orphans d) (map filename files).
Proof.
  cbv zeta. unfold decidePruneOneJail. set (fulls := fullsByEpochDesc files). set (kept := keptIndices files policy).
  set (ks := map _ (List.filter (isKept kept) fulls)).
  pose proof (incLoop_split ks (incrementals files)) as Hinc.
  destruct (incLoop ks (incrementals files)) as [kinc orph]. cbn [fst snd keep remove orphans] in *.
  set (fname := fun x : Item => filename (snd x)).
  set (A := map fname (List.filter (isKept kept) fulls)).
  set (B := map fname (List.filter (fun x => negb (isKept kept x)) fulls)).
  set (C := map filename kinc). set (D := map filename orph). set (E := map fname (List.filter isBad _)).
  assert (Hi : Permutation (C ++ D) (map fname (List.filter isInc (indexed files)))).
  { unfold C, D. rewrite <- map_app, Hinc, map_map. apply Permutation_map, std_sort_perm. }
  assert (Hf : Permutation (A ++ B) (map fname (List.filter isFull (indexed files)))).
  { unfold A, B. rewrite <- map_app. apply Permutation_map. rewrite Permutation_filter_split. apply std_sort_perm. }
  assert (Hall : Permutation (map filename files) ((A ++ B) ++ (C ++ D) ++ E)).
  { rewrite Hf, Hi. unfold E. rewrite <- !map_app. rewrite <- (snd_indexed files) at 1. rewrite map_map.
    apply Permutation_map, Permutation_sym, filters_split. }
  rewrite Hall. destruct del; rewrite ?app_nil_r, <- ?app_assoc; cbn [app]; apply Permutation_app_head;
    rewrite !app_assoc; apply Permutation_app_tail; by rewrite (Permutation_app_comm C B), <- !app_assoc.
Qed.

(** ** All jails *)

Lemma addToJail_perm m f :
  OMap.wf m -> Permutation (concat (map snd (addToJail m f))) (f :: concat (map snd m)).
Proof.
  unfold addToJail. set (k := jailName f). induction m as [|[k' v'] m IH]; [done|].
  intros Hwf. apply OMap.wf_cons in Hwf as [Hwf Hlt]. cbn [OMap.find OMap.insert].
  destruct (decide (k = k')) as [-> |Hne].
  - rewrite klt_irrefl. destruct (decide (k' = k')); [|done].
    cbn [default map snd concat]. unfold id. rewrite <- app_assoc. cbn [app]. by rewrite <- Permutation_middle.
  - destruct (klt k k') eqn:E.
    + replace (OMap.find k m) with (@None (list StreamFile)); [done|].
      symmetry. destruct (OMap.find k m) as [v|] eqn:Ef; [|done]. apply OMap.find_In in Ef; [|done].
      rewrite Forall_forall in Hlt. apply list_elem_of_In, Hlt in Ef. cbn in Ef.
      pose proof (klt_trans _ _ _ E Ef) as Hkk. by rewrite klt_irrefl in Hkk.
    + destruct (decide (k = k')); [done|]. cbn [map snd concat]. rewrite IH by done. by rewrite <- Permutation_middle.
Qed.

Lemma byJail_spec files :
  OMap.wf (byJail files) /\
  Permutation (concat (map snd (byJail files))) files /\
  forall j l, OMap.find j (byJail files) = Some l <-> l <> [] /\ l = List.filter (fun f => bool_decide (jailName f = j)) files.
Proof.
  unfold byJail. induction files as [|f files IH] using rev_ind.
  { split; [constructor|]. split; [done|]. intros j l. cbn. split; [done|]. by intros [? ->]. }
  rewrite fold_left_app. cbn [fold_left]. set (m := fold_left addToJail files []) in *.
  destruct IH as (Hwf & Hperm & Hfind).
  assert (Hp : Permutation (concat (map snd (addToJail m f))) (files ++ [f])).
  { rewrite addToJail_perm by done. rewrite Hperm. apply Permutation_cons_append. }
  unfold addToJail in *. set (old := default [] (OMap.find (jailName f) m)).
  assert (Hold : old = List.filter (fun g => bool_decide (jailName g = jailName f)) files).
  { unfold old. destruct (OMap.find (jailName f) m) as [l|] eqn:E; [by apply Hfind in E as [_ ->]|].
    cbn. destruct (List.filter _ files) eqn:E2; [done|].
    assert (OMap.find (jailName f) m = Some (s :: l)) by (apply Hfind; by rewrite E2). congruence. }
  split; [by apply OMap.wf_insert|]. split; [done|].
  intros j l. rewrite OMap.find_insert by done. rewrite List.filter_app. cbn [List.filter].
  destruct (decide (j = jailName f)) as [-> |Hne].
  - rewrite bool_decide_eq_true_2 by done. rewrite Hold. split.
    + intros [= <-]. split; [|done]. by destruct (List.filter _ files).
    + intros [_ ->]. done.
  - rewrite bool_decide_eq_false_2 by congruence. rewrite app_nil_r. apply Hfind.
Qed.

Lemma parts_perm (ds : list PruneDecision) :
  Permutation (concat (map keep ds) ++ concat (map remove ds) ++ concat (map orphans ds))
    (concat (map (fun d => keep d ++ remove d ++ orphans d) ds)).
Proof.
  induction ds as [|d ds IH]; [done|]. cbn [map concat]. rewrite <- IH, <- !app_assoc.
  apply Permutation_app_head. rewrite !app_assoc. apply Permutation_app_tail.
  rewrite (Permutation_app_comm (concat (map keep ds)) (remove d)), <- !app_assoc. apply Permutation_app_head.
  rewrite (Permutation_app_comm (concat (map remove ds)) (orphans d)). rewrite !app_assoc. apply Permutation_app_tail.
  apply Permutation_app_comm.
Qed.

(** [decidePrune] gives every stream exactly one fate: the kept, removed and
    orphaned names together are the given files, each as often as given. *)
Theorem prune_partition files policy del :
  let d := decidePrune files policy del in
  Permutation (keep d ++ remove d ++ orphans d) (map filename files).
Proof.
  cbv zeta. unfold decidePrune. cbn [keep remove orphans]. rewrite !std_sort_perm, parts_perm.
  destruct (byJail_spec files) as (_ & Hperm & _). apply (Permutation_map filename) in Hperm.
  etransitivity; [|exact Hperm]. rewrite concat_map, !map_map. clear Hperm.
  induction (byJail files) as [|[j l] m IH]; [done|]. cbn [map concat snd].
  apply Permutation_app; [apply one_jail_partition|exact IH].
Qed.

(** ** Kept streams can be restored *)

(** Restoring a stream needs its whole chain: a full stream, or an incremental
    of the same jail on top of a restorable one, all kept. *)
Inductive restorable (files : list StreamFile) (kept : bytes -> Prop) : StreamFile -> Prop :=
  | restore_full f : In f files -> incFromSuffix f = [] -> kept (filename f) -> restorable files kept f
  | restore_inc f g : In f files -> kept (filename f) -> restorable files kept g ->
      jailName g = jailName f -> suffix g = incFromSuffix f -> restorable files kept f.

Lemma restorable_mono files files' kept kept' f :
  (forall x, In x files -> In x files') -> (forall x, kept x -> kept' x) ->
  restorable files kept f -> restorable files' kept' f.
Proof. intros Hf Hk. induction 1; [apply restore_full|eapply restore_inc]; eauto. Qed.

Lemma incLoop_restorable files (P : bytes -> Prop) j ks incs :
  (forall x, In x incs -> In (snd x) files /\ jailName (snd x) = j) ->
  (forall s, In s ks -> exists g, restorable files P g /\ jailName g = j /\ suffix g = s) ->
  (forall f, In f (fst (incLoop ks incs)) -> P (filename f)) ->
  forall f, In f (fst (incLoop ks incs)) -> restorable files P f.
Proof.
  revert ks. induction incs as [|[i f] incs IH]; intros ks Hin Hks HP; cbn [incLoop] in *; [done|].
  destruct (Hin (i, f) (or_introl eq_refl)) as [Hf Hj]. cbn [snd] in *.
  destruct (existsb (beq (incFromSuffix f)) ks) eqn:E.
  - specialize (IH (suffix f :: ks)). destruct (incLoop (suffix f :: ks) incs) as [k o]. cbn [fst] in *.
    apply existsb_exists in E as (s & Hs & <-%beq_eq). destruct (Hks _ Hs) as (g & Hg & Hgj & Hgs).
    assert (Hr : restorable files P f).
    { eapply restore_inc; [done|apply HP; by left|done|congruence|done]. }
    intros f' [<-|Hf']; [done|]. apply IH; [..|done].
    + intros x Hx. apply Hin. by right.
    + intros s' [<-|Hs']; [eauto|auto].
    + intros f'' Hf''. apply HP. by right.
  - specialize (IH ks). destruct (incLoop ks incs) as [k o]. cbn [fst] in *.
    apply IH; [|done|done]. intros x Hx. apply Hin. by right.
Qed.

Lemma in_indexed files x : In x (indexed files) -> In (snd x) files.
Proof. intros H1. rewrite <- (snd_indexed files). by apply in_map. Qed.

Lemma in_fulls files x : In x (fullsByEpochDesc files) <-> In x (indexed files) /\ isFull x = true.
Proof.
  unfold fullsByEpochDesc. rewrite <- filter_In. split; apply Permutation_in; [|apply Permutation_sym]; apply std_sort_perm.
Qed.

Lemma in_incs files x : In x (incrementals files) <-> In x (indexed files) /\ isInc x = true.
Proof.
  unfold incrementals. rewrite <- filter_In. split; apply Permutation_in; [|apply Permutation_sym]; apply std_sort_perm.
Qed.

Lemma one_jail_restorable files policy del j :
  (forall f, In f files -> jailName f = j) ->
  let d := decidePruneOneJail files policy del in
  forall n, In n (keep d) -> exists f, filename f = n /\ restorable files (fun x => In x (keep d)) f.
Proof.
  intros Hj d n. unfold d, decidePruneOneJail. set (fulls := fullsByEpochDesc files). set (kept := keptIndices files policy).
  set (ks := map _ (List.filter (isKept kept) fulls)).
  destruct (incLoop ks (incrementals files)) as [kinc orph] eqn:E. cbn [keep].
  set (K := map _ (List.filter (isKept kept) fulls) ++ map filename kinc).
  assert (Hfull : forall x, In x (List.filter (isKept kept) fulls) -> restorable files (fun y => In y K) (snd x)).
  { intros x Hx. pose proof Hx as [Hx1 _]%filter_In. apply in_fulls in Hx1 as [Hx1 Hx2].
    apply restore_full; [by apply in_indexed| |].
    - unfold isFull in Hx2. apply andb_true_iff in Hx2 as [_ Hx2]. by destruct (incFromSuffix (snd x)).
    - unfold K. apply in_app_iff. left. apply in_map_iff. eauto. }
  intros Hn. unfold K in Hn. apply in_app_iff in Hn as [(x & <- & Hx)%in_map_iff|(f & <- & Hf)%in_map_iff].
  - exists (snd x). auto.
  - exists f. split; [done|]. apply (incLoop_restorable files (fun y => In y K) j ks (incrementals files)).
    + intros x [Hx _]%in_incs. apply in_indexed in Hx. auto.
    + intros s (x & <- & Hx)%in_map_iff. exists (snd x). split; [auto|]. split; [|done].
      apply Hj, in_indexed. by apply filter_In in Hx as [[Hx _]%in_fulls _].
    + rewrite E. intros g Hg. apply in_app_iff. right. by apply in_map.
    + by rewrite E.
Qed.

Lemma in_byJail files j l :
  In (j, l) (byJail files) -> l = List.filter (fun f => bool_decide (jailName f = j)) files.
Proof.
  destruct (byJail_spec files) as (Hwf & _ & Hfind). intros Hin%OMap.find_In; [|done]. by apply Hfind in Hin as [_ ->].
Qed.

Lemma in_keep files policy del n :
  In n (keep (decidePrune files policy del)) <->
  exists j l, In (j, l) (byJail files) /\ In n (keep (decidePruneOneJail l policy del)).
Proof.
  unfold decidePrune. cbn [keep]. split.
  - intros Hn. apply (Permutation_in _ (std_sort_perm _ _)) in Hn. rewrite map_map in Hn.
    apply in_concat in Hn as (x & ([j l] & <- & Hl)%in_map_iff & Hn). eauto.
  - intros (j & l & Hl & Hn). eapply Permutation_in; [apply Permutation_sym, std_sort_perm|]. rewrite map_map.
    apply in_concat. eexists. split; [|exact Hn]. apply in_map_iff. by exists (j, l).
Qed.

(** C34: Pruning never keeps a stream it made useless: every kept stream has its
    whole chain kept, down to a full stream of the same jail. *)
Theorem prune_keeps_restorable files policy del n :
  In n (keep (decidePrune files policy del)) ->
  exists f, filename f = n /\ restorable files (fun x => In x (keep (decidePrune files policy del))) f.
Proof.
  intros (j & l & Hl & Hn)%in_keep.
  assert (Hj : forall f, In f l -> jailName f = j /\ In f files).
  { intros f Hf. rewrite (in_byJail files j l Hl) in Hf. apply filter_In in Hf as [? ?%bool_decide_eq_true]. done. }
  destruct (one_jail_restorable l policy del j (fun f Hf => proj1 (Hj f Hf)) n Hn) as (f & Hf & Hr).
  exists f. split; [done|]. eapply restorable_mono; [| |exact Hr].
  - intros x Hx. by apply Hj.
  - intros x Hx. apply in_keep. eauto.
Qed.

(** ** What a policy retains *)

(** The four bucketings with their counts. *)
Definition policies (p : RetentionPolicy) : list (Z * (Z -> Z)) :=
  [(hourly p, hourBucket); (daily p, dayBucket); (weekly p, weekBucket); (monthly p, monthBucket)].

Definition keyOf (fn : Z -> Z) (x : Item) : Z := fn (epochOf x).

(** The first item of a bucket is kept while fewer than [n] buckets have been
    met before it. *)
Lemma bucketLoop_keeps n fn seen a x b :
  NoDup seen -> (keyOf fn x) ∉ seen -> (forall y, In y a -> keyOf fn y <> keyOf fn x) ->
  (forall ks, NoDup ks -> (forall k, In k ks -> In k seen \/ exists y, In y a /\ keyOf fn y = k) -> size_z ks < n) ->
  In (fst x) (bucketLoop n fn seen (a ++ x :: b)).
Proof.
  revert seen. induction a as [|y a IH]; intros seen Hnd Hx Ha Hn; cbn [app bucketLoop].
  - fold (keyOf fn x). rewrite bool_decide_eq_false_2 by done. by left.
  - fold (keyOf fn y). case_bool_decide as Hy.
    + apply IH; [done|done|intros z Hz; apply Ha; by right|]. intros ks Hks Hk. apply Hn; [done|].
      intros k Hin. destruct (Hk k Hin) as [?|(z & ? & ?)]; [by left|right; exists z; cbn; auto].
    + assert (Hlt : size_z (keyOf fn y :: seen) < n).
      { apply Hn; [by constructor|]. intros k [<-|?]; [right; exists y; cbn; auto|by left]. }
      destruct (Z.leb_spec n (size_z (keyOf fn y :: seen))); [lia|]. right.
      apply IH; [by constructor| |intros z Hz; apply Ha; by right|].
      * intros [E|?]%elem_of_cons; [|done]. by apply (Ha y (or_introl eq_refl)).
      * intros ks Hks Hk. apply Hn; [done|]. intros k Hin.
        destruct (Hk k Hin) as [[<-|?]|(z & ? & ?)]; [right; exists y; cbn; auto|by left|right; exists z; cbn; auto].
Qed.

Lemma first_with {A} (P : A -> Prop) `{forall x, Decision (P x)} l x :
  In x l -> P x -> exists a y b, l = a ++ y :: b /\ P y /\ (forall z, In z a -> ~ P z) /\ (y = x \/ In x b).
Proof.
  induction l as [|z l IH]; [done|]. intros Hin Hx. destruct (decide (P z)) as [Hz|Hz].
  - exists [], z, l. split; [done|]. split; [done|]. split; [by intros ? []|].
    destruct Hin as [->|?]; [by left|by right].
  - destruct Hin as [->|Hin]; [done|]. destruct (IH Hin Hx) as (a & y & b & -> & Hy & Ha & Hxy).
    exists (z :: a), y, b. split; [done|]. split; [done|]. split; [|done]. intros w [<-|Hw]; auto.
Qed.

(** Fulls come newest first. *)
Lemma fulls_desc files a b z w :
  fullsByEpochDesc files = a ++ b -> In z a -> In w b -> epochOf w <= epochOf z.
Proof.
  intros E Hz Hw.
  pose proof (std_sort_sorted (fun a b => epochOf b <? epochOf a) (List.filter isFull (indexed files)) (by_key_desc epochOf)) as Hs.
  fold (fullsByEpochDesc files) in Hs. rewrite E in Hs.
  pose proof (strongly_sorted_app_In _ _ _ z w Hs Hz Hw) as H1. cbn in H1. lia.
Qed.

Lemma one_jail_retains files policy del n fn f :
  In (n, fn) (policies policy) -> In f files -> unixEpoch f <> 0 -> incFromSuffix f = [] ->
  (forall ks, NoDup ks ->
     (forall k, In k ks -> k <> fn (unixEpoch f) /\
        exists h, In h files /\ incFromSuffix h = [] /\ unixEpoch f <= unixEpoch h /\ fn (unixEpoch h) = k) ->
     size_z ks < n) ->
  exists g, In g files /\ incFromSuffix g = [] /\ fn (unixEpoch g) = fn (unixEpoch f) /\
    unixEpoch f <= unixEpoch g /\ In (filename g) (keep (decidePruneOneJail files policy del)).
Proof.
  intros Hp Hf He Hinc Hn.
  assert (exists x, snd x = f /\ In x (fullsByEpochDesc files)) as (x & Hxf & Hx).
  { rewrite <- (snd_indexed files) in Hf. apply in_map_iff in Hf as (x & Hxf & Hx). exists x. split; [done|].
    apply in_fulls. split; [done|]. unfold isFull, isBad, epochOf. rewrite Hxf, Hinc.
    by destruct (Z.eqb_spec (unixEpoch f) 0). }
  destruct (first_with (fun y => keyOf fn y = keyOf fn x) _ x Hx eq_refl) as (a & y & b & EL & Hy & Ha & Hyx).
  assert (Hxe : epochOf x <= epochOf y).
  { destruct Hyx as [->|Hb]; [lia|].
    apply (fulls_desc files (a ++ [y]) b); [by rewrite <- app_assoc|apply in_app_iff; right; by left|done]. }
  assert (Hae : forall z, In z a -> epochOf x <= epochOf z).
  { intros z Hz. trans (epochOf y); [done|]. apply (fulls_desc files a (y :: b)); [done|done|by left]. }
  assert (Hin : forall z, In z (fullsByEpochDesc files) -> In (snd z) files /\ incFromSuffix (snd z) = []).
  { intros z [Hz1 Hz2]%in_fulls. split; [by apply in_indexed|]. unfold isFull in Hz2.
    apply andb_true_iff in Hz2 as [_ Hz2]. by destruct (incFromSuffix (snd z)). }
  assert (Hkept : In (fst y) (bucketKeep (fullsByEpochDesc files) n fn)).
  { assert (Hpos : 0 < n) by (apply (Hn []); [constructor|by intros ? []]).
    unfold bucketKeep. destruct (Z.eqb_spec n 0); [lia|]. rewrite EL. apply bucketLoop_keeps.
    - constructor.
    - apply not_elem_of_nil.
    - intros z Hz. rewrite Hy. auto.
    - intros ks Hks Hk. apply Hn; [done|]. intros k Hkin. destruct (Hk k Hkin) as [[]|(z & Hz & <-)].
      specialize (Ha z Hz). unfold keyOf, epochOf in Ha. rewrite Hxf in Ha. split; [done|].
      destruct (Hin z) as [Hz1 Hz2]; [rewrite EL; apply in_app_iff; by left|].
      exists (snd z). split; [done|]. split; [done|]. split; [|done]. specialize (Hae z Hz). unfold epochOf in Hae. by rewrite Hxf in Hae. }
  assert (Hyin : In y (fullsByEpochDesc files)) by (rewrite EL; apply in_app_iff; right; by left).
  destruct (Hin y Hyin) as [Hy1 Hy2]. exists (snd y). split; [done|]. split; [done|].
  split; [unfold keyOf, epochOf in Hy; by rewrite Hxf in Hy|]. split; [unfold epochOf in Hxe; by rewrite Hxf in Hxe|].
  unfold decidePruneOneJail. destruct (incLoop _ _) as [kinc orph]. cbn [keep]. apply in_app_iff. left.
  apply in_map_iff. exists y. split; [done|]. apply filter_In. split; [done|]. unfold isKept. apply bool_decide_eq_true.
  unfold keptIndices. apply list_elem_of_In. rewrite !in_app_iff.
  destruct Hp as [[= <- <-]|[[= <- <-]|[[= <- <-]|[[= <- <-]|[]]]]]; auto.
Qed.

(** A policy of [n] hours, days, weeks or months retains for each jail, in each
    of its [n] most recent buckets that hold a full stream, the newest one or
    a later one: when fewer than [n] other buckets hold fulls at least as new
    as [f], a full of [f]'s bucket no older than [f] is kept. *)
Theorem prune_retains files policy del n fn f :
  In (n, fn) (policies policy) -> In f files -> unixEpoch f <> 0 -> incFromSuffix f = [] ->
  (forall ks, NoDup ks ->
     (forall k, In k ks -> k <> fn (unixEpoch f) /\
        exists h, In h files /\ jailName h = jailName f /\ incFromSuffix h = [] /\
                  unixEpoch f <= unixEpoch h /\ fn (unixEpoch h) = k) ->
     size_z ks < n) ->
  exists g, In g files /\ jailName g = jailName f /\ incFromSuffix g = [] /\ fn (unixEpoch g) = fn (unixEpoch f) /\
    unixEpoch f <= unixEpoch g /\ In (filename g) (keep (decidePrune files policy del)).
Proof.
  intros Hp Hf He Hinc Hn. destruct (byJail_spec files) as (Hwf & _ & Hfind).
  set (l := List.filter (fun g => bool_decide (jailName g = jailName f)) files).
  assert (Hl : forall g, In g l <-> In g files /\ jailName g = jailName f)
    by (intros g; unfold l; by rewrite filter_In, bool_decide_eq_true).
  assert (Hfl : In f l) by (by apply Hl).
  assert (Hj : In (jailName f, l) (byJail files)).
  { apply OMap.find_In; [done|]. apply Hfind. split; [|done]. by intros E; rewrite E in Hfl. }
  destruct (one_jail_retains l policy del n fn f Hp Hfl He Hinc) as (g & Hg & H1 & H2 & H3 & H4).
  { intros ks Hks Hk. apply Hn; [done|]. intros k Hin. destruct (Hk k Hin) as (Hne & h & Hh & ?).
    split; [done|]. exists h. apply Hl in Hh. tauto. }
  apply Hl in Hg as [Hg1 Hg2]. exists g. do 5 (split; [done|]). apply in_keep. eauto.
Qed.

End prune.
(** ** A small directory *)

Definition stream (jail : bytes) (e : Z) (base : option Z) : StreamFile :=
  let inc := match base with Some b => snapshotSuffix b | None => [] end in
  {| filename := streamFilename jail (snapshotSuffix e) inc; jailName := jail; suffix := snapshotSuffix e;
     incFromSuffix := inc; unixEpoch := e |}.

(** Two jails; the chain of web's older full, and a newer full. *)
Definition sampleDir : list StreamFile :=
  [ stream (str "web") 1767225600 None; stream (str "web") 1767312000 (Some 1767225600);
    stream (str "db") 1767225600 None; stream (str "web") 1767398400 None;
    stream (str "web") 1767484800 (Some 1767312000) ].

Definition daily1 : RetentionPolicy := {| hourly := 0; daily := 1; weekly := 0; monthly := 0 |}.
Definition daily2 : RetentionPolicy := {| hourly := 0; daily := 2; weekly := 0; monthly := 0 |}.

(** With one day kept, web's old chain goes: its base is removed. *)
Example sample_daily1 :
  decidePrune (H := insertionSort) sampleDir daily1 false
  = {| keep := [filename (stream (str "db") 1767225600 None); filename (stream (str "web") 1767398400 None)];
       remove := [filename (stream (str "web") 1767225600 None)];
       orphans := [filename (stream (str "web") 1767312000 (Some 1767225600));
                   filename (stream (str "web") 1767484800 (Some 1767312000))] |}.
Proof. vm_compute. reflexivity. Qed.

Lemma prune_partition_witness :
  Permutation
    (keep (decidePrune (H := insertionSort) sampleDir daily1 true)
     ++ remove (decidePrune (H := insertionSort) sampleDir daily1 true)
     ++ orphans (decidePrune (H := insertionSort) sampleDir daily1 true)) (map filename sampleDir).
Proof. exact (@prune_partition insertionSort sampleDir daily1 true). Defined.

(** With two days kept, the incremental on an incremental stays. *)
Lemma prune_keeps_restorable_witness :
  exists f, filename f = filename (stream (str "web") 1767484800 (Some 1767312000)) /\
    restorable sampleDir (fun x => In x (keep (decidePrune (H := insertionSort) sampleDir daily2 false))) f.
Proof.
  apply (@prune_keeps_restorable insertionSort sampleDir daily2 false).
  vm_compute. tauto.
Defined.

Lemma prune_retains_witness :
  exists g, In g sampleDir /\ jailName g = str "db" /\
    In (filename g) (keep (decidePrune (H := insertionSort) sampleDir daily1 false)).
Proof.
  destruct (@prune_retains insertionSort sampleDir daily1 false 1 dayBucket (stream (str "db") 1767225600 None))
    as (g & Hg & Hj & _ & _ & _ & Hk).
  - right. left. reflexivity.
  - right. right. left. reflexivity.
  - discriminate.
  - reflexivity.
  - intros ks _ Hks. destruct ks as [|k ks]; [reflexivity|exfalso].
    destruct (Hks k (or_introl eq_refl)) as (Hne & h & Hh & Hj & _ & _ & Hkey). apply Hne. rewrite <- Hkey.
    destruct Hh as [<-|[<-|[<-|[<-|[<-|[]]]]]]; try discriminate Hj. reflexivity.
  - exists g. split; [exact Hg|]. split; [exact Hj|exact Hk].
Defined.

End BackupPrune.
