(* ===== verification/RecordUpd.v ===== *)
(** * Record update

    [r <| f := v |>] is [r] with field [f] set to [v], as an assignment to a
    member is in the code.  A record type gets it by giving its eta expansion;
    the update of a field is computed from that by replacing the projection. *)

From S2P Require Import Prelude.

Class Eta (R : Type) := eta : R -> R.

Class Update {R T : Type} (proj : R -> T) := update : (T -> T) -> R -> R.

Ltac solve_update :=
  match goal with
  | |- @Update ?R ?T ?proj =>
      let e := eval unfold eta in (@eta R _) in
      let e := eval hnf in e in
      let e := eval pattern proj in e in
      match e with
      | ?build _ => exact (fun (f : T -> T) (r : R) => build (fun x => f (proj x)) r)
      end
  end.

#[export] Hint Extern 0 (Update _) => solve_update : typeclass_instances.

Notation "r '<|' p ':=' v '|>'" := (update (proj := p) (fun _ => v) r) (at level 1, left associativity, p at level 9) : crate_scope.
Notation "r '<|' p '::=' f '|>'" := (update (proj := p) f r) (at level 1, left associativity, p at level 9) : crate_scope.
