(* ===== verification/NetAddr.v ===== *)
(** * Address and host name syntax: lib/netaddr_pure.cpp

    The checks that specs, stacks and the GUI options share.  They are compared
    with the two parsers that give addresses their meaning, [IpAlloc.parseIp]
    and [Ip6Alloc.parseIp6]. *)

From S2P Require Import Prelude CStd IpAlloc Ip6Alloc.

Module NetAddr.
Import CStd.

(** ** IPv4 *)

Definition isV4Octet (s : bytes) : bool :=
  if is_empty s || (3 <? size_z s) then false
  else if negb (forallb is_digit s) then false
  else dec_value s <=? 255.

(** The [for] loop, [left] octets to go, from [pos] on. *)
Fixpoint v4Loop (left : nat) (s : bytes) : bool :=
  match left with
  | O => is_empty s
  | S O => isV4Octet s
  | S left' =>
      match find_char "." s with
      | None => false
      | Some dot => if negb (isV4Octet (take dot s)) then false else v4Loop left' (drop (S dot) s)
      end
  end.

Definition isV4 (s : bytes) : bool := v4Loop 4 s.

Definition looksLikeV4Shape (s : bytes) : bool :=
  negb (is_empty s) && forallb (fun c => Ascii.eqb c "." || is_digit c) s && has_char "." s.

(** ** IPv6 *)

(** The inner loop: at most [n] hexadecimal digits. *)
Fixpoint hexRun (n : nat) (s : bytes) : bytes * bytes :=
  match n, s with
  | S n', c :: t => if is_hex c then let '(h, r) := hexRun n' t in (c :: h, r) else ([], s)
  | _, _ => ([], s)
  end.

(** The [while] loop on the rest of the text.  Every round consumes a byte, so
    the length of the text, and one more, is enough fuel. *)
Fixpoint v6Loop (fuel : nat) (sawDoubleColon prevGroup : bool) (groups : nat) (s : bytes) : bool :=
  match fuel with
  | O => false
  | S f =>
      match s with
      | [] => if sawDoubleColon then (groups <=? 7)%nat else (groups =? 8)%nat
      | c :: t =>
          if starts_with (str "::") s then
            if sawDoubleColon then false else v6Loop f true false groups (drop 2 s)
          else if Ascii.eqb c ":" then
            if negb prevGroup || is_empty t then false else v6Loop f sawDoubleColon false groups t
          else
            let '(hex, rest) := hexRun 4 s in
            if is_empty hex then false
            else if match rest with x :: _ => negb (Ascii.eqb x ":") | [] => false end then false
            else v6Loop f sawDoubleColon true (S groups) rest
      end
  end.

Definition isV6 (s : bytes) : bool :=
  if is_empty s then false else v6Loop (S (length s)) false false 0 s.

(** ** Host names *)

Definition labelOk (label : bytes) : bool :=
  negb (is_empty label || (63 <? size_z label))
  && match label with c :: _ => is_alnum c | [] => false end
  && match back label with Some c => is_alnum c | None => false end
  && forallb (fun c => is_alnum c || Ascii.eqb c "-") label.

(** The [while] loop, one label a round. *)
Fixpoint hostLoop (fuel : nat) (s : bytes) : bool :=
  match fuel with
  | O => false
  | S f =>
      if is_empty s then true
      else
        let '(label, rest) := span (fun c => negb (Ascii.eqb c ".")) s in
        if negb (labelOk label) then false else hostLoop f (tail rest)
  end.

Definition isHostname (s : bytes) : bool :=
  if is_empty s || (253 <? size_z s) then false else hostLoop (S (length s)) s.

(** * IPv4: four octets *)

Lemma v4Loop_spec n s : v4Loop (S n) s = true <-> exists l, length l = S n /\ split_on "." s = l /\ Forall (fun o => isV4Octet o = true) l.
Proof.
  revert s. induction n as [|n IH]; intros s.
  - change (v4Loop 1 s) with (isV4Octet s). split.
    + intros H. exists [s]. split; [done|]. split; [|by constructor]. apply split_on_nosep. intros Hin.
      unfold isV4Octet in H. destruct (_ || _); [done|]. destruct (forallb is_digit s) eqn:E; [|done].
      rewrite forallb_forall in E. by specialize (E _ Hin).
    + intros (l & Hl & E & HF). destruct l as [|o []]; [done| |done]. pose proof (split_on_join "." s) as J.
      rewrite E in J. cbn in J. rewrite app_nil_r in J. subst o. by apply Forall_inv in HF.
  - change (v4Loop (S (S n)) s) with (match find_char "." s with None => false | Some dot => if negb (isV4Octet (take dot s)) then false else v4Loop (S n) (drop (S dot) s) end).
    destruct (find_char "." s) as [d|] eqn:Ed.
    + apply find_char_Some in Ed as (a & b & -> & <- & Ha). rewrite split_on_app, take_app_length by done.
      replace (drop (S (length a)) (a ++ "."%char :: b)) with b by (change ("."%char :: b) with (["."%char] ++ b); rewrite app_assoc, drop_app_length'; [done|rewrite length_app; cbn; lia]).
      destruct (isV4Octet a) eqn:Oa; cbn [negb].
      * rewrite IH. split.
        -- intros (l & Hl & <- & HF). exists (a :: split_on "." b). cbn. split; [by rewrite Hl|]. split; [done|]. by constructor.
        -- intros (l & Hl & <- & HF). exists (split_on "." b). split; [by injection Hl|]. split; [done|]. by apply Forall_inv_tail in HF.
      * split; [done|]. intros (l & Hl & <- & HF). apply Forall_inv in HF. congruence.
    + split; [done|]. intros (l & Hl & <- & _). apply find_char_None in Ed. by rewrite split_on_nosep in Hl.
Qed.

Lemma isV4_iff s : isV4 s = true <-> length (split_on "." s) = 4%nat /\ Forall (fun o => isV4Octet o = true) (split_on "." s).
Proof. unfold isV4. rewrite v4Loop_spec. split; [by intros (l & ? & -> & ?)|intros [? ?]; eauto]. Qed.

Lemma octetLoop_spec n s v : 0 <= n -> forallb is_digit s = true -> IpAlloc.octetLoop n s = Some v -> v = dec_value_from n s /\ (s <> [] -> v <= 255).
Proof.
  revert n. induction s as [|c s IH]; intros n Hn; [by intros _ [= <-]|]. cbn [forallb]. intros [Hc Hs]%andb_prop.
  apply is_digit_val in Hc. cbn [IpAlloc.octetLoop]. destruct (Z.ltb_spec 255 (n * 10 + digit_val c)); [done|].
  intros H0. pose proof H0 as [-> Hb]%IH; [|lia|done]. split; [done|]. intros _. destruct s; [cbn; lia|by apply Hb].
Qed.

Lemma octetLoop_below n s : 0 <= n -> forallb is_digit s = true -> dec_value_from n s <= 255 -> n <= 255 -> IpAlloc.octetLoop n s = Some (dec_value_from n s).
Proof.
  revert n. induction s as [|c s IH]; intros n Hn; [done|]. cbn [forallb]. intros [Hc Hs]%andb_prop Hv _. pose proof Hc as Hc'.
  apply is_digit_val in Hc'. cbn [IpAlloc.octetLoop]. change (dec_value_from n (c :: s)) with (dec_value_from (n * 10 + digit_val c) s) in *.
  assert (n * 10 + digit_val c <= dec_value_from (n * 10 + digit_val c) s).
  { rewrite dec_value_from_shift. pose proof (dec_value_bound s Hs). pose proof (Z.pow_pos_nonneg 10 (size_z s) ltac:(lia) (size_z_nonneg s)). nia. }
  destruct (Z.ltb_spec 255 (n * 10 + digit_val c)); [lia|]. by rewrite IH by (done || lia).
Qed.

(** An octet the pool parser reads is one the syntax check accepts, and a
    leading zero is the only difference between the two. *)
Lemma octets_agree s :
  isV4Octet s = true <-> (exists v, IpAlloc.parseOctet s = Some v) \/ (1 < size_z s /\ starts_with (str "0") s = true /\ isV4Octet s = true).
Proof.
  unfold isV4Octet, IpAlloc.parseOctet. destruct (_ || _) eqn:Hsz; [split; [done|intros [[? ?]|(_ & _ & ?)]; done]|].
  destruct (forallb is_digit s) eqn:Hd; cbn [negb]; [|split; [done|intros [[? ?]|(_ & _ & ?)]; done]].
  rewrite Z.leb_le. destruct (Z.ltb_spec 1 (size_z s)); cbn [andb].
  - destruct (starts_with (str "0") s); [split; [by right|intros [[? ?]|(_ & _ & ?)]; done]|]. split.
    + intros Hv. left. eexists. by apply octetLoop_below.
    + intros [[v Hv]|(_ & ? & _)]; [|done]. apply octetLoop_spec in Hv as [-> Hb]; [|done..]. apply Hb.
      apply orb_false_elim in Hsz as [? _]. by destruct s.
  - split.
    + intros Hv. left. eexists. by apply octetLoop_below.
    + intros [[v Hv]|(? & _ & _)]; [|lia]. apply octetLoop_spec in Hv as [-> Hb]; [|done..]. apply Hb.
      apply orb_false_elim in Hsz as [? _]. by destruct s.
Qed.

Lemma parseOctets_some acc l : (exists a, IpAlloc.parseOctets acc l = inr a) <-> Forall (fun o => exists v, IpAlloc.parseOctet o = Some v) l.
Proof.
  revert acc. induction l as [|o l IH]; intros acc; cbn [IpAlloc.parseOctets]; [split; [constructor|eauto]|].
  rewrite Forall_cons. destruct (IpAlloc.parseOctet o) as [v|].
  - rewrite IH. split; [intros ?; split; eauto|tauto].
  - split; [intros [? ?]; done|intros [[? ?] _]; done].
Qed.

(** Every address the pool parser reads is an address to the spec parser. *)
Lemma parseIp_isV4 s a : IpAlloc.parseIp s = inr a -> isV4 s = true.
Proof.
  unfold IpAlloc.parseIp. destruct (Z.eqb_spec (size_z (split_on "." s)) 4) as [E|]; [cbn [negb]|done]. intros H. apply isV4_iff.
  split; [unfold size_z in E; lia|]. eapply Forall_impl; [apply (proj1 (parseOctets_some 0 _)); eauto|].
  intros o Ho. apply octets_agree. by left.
Qed.

(** * IPv6: the check and the parser accept the same texts *)

Import Ip6Alloc.

(** Eight groups, or fewer on the two sides of one [::]. *)
Definition shorthand (o : option (list bytes)) : bytes := match o with None => [] | Some l => colons ++ joinColon l end.
Definition pieces (o : option (list bytes)) : list bytes := default [] o.

Definition v6Text (s : bytes) : Prop :=
  exists l o, Forall isPiece l /\ Forall isPiece (pieces o) /\ s = joinColon l ++ shorthand o
    /\ match o with Some r => (length l + length r < 8)%nat | None => length l = 8%nat end.

(** Groups, each with a colon in front. *)
Definition afterSep (l : list bytes) : bytes := concat (map (cons ":"%char) l).

Lemma joinColon_cons p l : joinColon (p :: l) = p ++ afterSep l.
Proof.
  revert p. induction l as [|q l IH]; intros p; [cbn; by rewrite app_nil_r|].
  change (joinColon (p :: q :: l)) with (p ++ ":"%char :: joinColon (q :: l)). by rewrite IH.
Qed.

Lemma afterSep_cons l : l <> [] -> afterSep l = ":"%char :: joinColon l.
Proof. destruct l as [|p l]; [done|]. intros _. by rewrite joinColon_cons. Qed.

Lemma hexRun_spec n s h r : hexRun n s = (h, r) ->
  s = h ++ r /\ (length h <= n)%nat /\ forallb is_hex h = true /\ ((length h < n)%nat -> match r with c :: _ => is_hex c = false | [] => True end).
Proof.
  revert s h r. induction n as [|n IH]; intros s h r.
  - cbn [hexRun]. intros [= <- <-]. split; [done|]. split; [done|]. split; [done|]. intros H. cbn in H. lia.
  - destruct s as [|c s]; cbn [hexRun]; [intros [= <- <-]; cbn; repeat split; lia|]. destruct (is_hex c) eqn:Hc.
    + destruct (hexRun n s) as [h' r'] eqn:E. intros [= <- <-]. apply IH in E as (-> & ? & ? & Hr). cbn. rewrite Hc.
      split; [done|]. split; [lia|]. split; [done|]. intros ?. apply Hr. lia.
    + intros [= <- <-]. split; [done|]. cbn. split; [lia|]. done.
Qed.

Lemma hexRun_piece p c r : isPiece p -> is_hex c = false -> hexRun 4 (p ++ c :: r) = (p, c :: r).
Proof.
  intros (_ & Hl & Hh) Hc. revert Hl. generalize 4%nat. induction p as [|x p IH]; intros n Hl; cbn [app].
  - destruct n; cbn; [done|]. by rewrite Hc.
  - cbn [forallb] in Hh. apply andb_prop in Hh as [Hx Hp]. destruct n as [|n]; cbn in Hl; [lia|]. cbn.
    change (is_hex x = true) in Hx. rewrite Hx, IH; [done|done|lia].
Qed.

Lemma hexRun_all p : isPiece p -> hexRun 4 p = (p, []).
Proof.
  intros (_ & Hl & Hh). revert Hl. generalize 4%nat. induction p as [|x p IH]; intros n Hl; [by destruct n|].
  cbn [forallb] in Hh. apply andb_prop in Hh as [Hx Hp]. destruct n as [|n]; cbn in Hl; [lia|]. cbn.
  change (is_hex x = true) in Hx. rewrite Hx, IH; [done|done|lia].
Qed.

(** What is left of a text, after a group or not, before the shorthand or not. *)
Definition restText (saw prev : bool) (n : nat) (s : bytes) : Prop :=
  exists l o, Forall isPiece l /\ Forall isPiece (pieces o)
    /\ s = (if prev then afterSep l else joinColon l) ++ shorthand o /\ (saw = true -> o = None)
    /\ if saw || bool_decide (is_Some o) then (n + length l + length (pieces o) <= 7)%nat else (n + length l = 8)%nat.

Definition colonNext (s : bytes) : Prop := match s with c :: _ => c = ":"%char | [] => True end.

Lemma rest_nil saw prev n : restText saw prev n [] <-> if saw then (n <= 7)%nat else n = 8%nat.
Proof.
  split.
  - intros (l & o & Hl & _ & E & Ho & Hn). symmetry in E. apply app_eq_nil in E as [E1 E2]. destruct o; [done|].
    assert (l = []) as ->.
    { destruct l as [|p l]; [done|]. destruct prev; [done|]. rewrite joinColon_cons in E1. apply app_eq_nil in E1 as [-> _].
      apply Forall_inv in Hl as [? _]. done. }
    cbn in Hn. rewrite orb_false_r in Hn. destruct saw; lia.
  - intros H. exists [], None. split; [done|]. split; [done|]. split; [by destruct prev|]. split; [done|].
    cbn. rewrite orb_false_r. destruct saw; lia.
Qed.

Lemma piece_head p s c t : isPiece p -> p ++ s = c :: t -> is_hex c = true /\ c <> ":"%char.
Proof.
  intros (Hne & _ & Hh) E. destruct p as [|x p]; [done|]. injection E as -> _. cbn [forallb] in Hh.
  apply andb_prop in Hh as [Hx _]. split; [done|]. by intros ->.
Qed.

Lemma rest_short saw prev n t : restText saw prev n (colons ++ t) <-> saw = false /\ restText true false n t.
Proof.
  split.
  - intros (l & o & Hl & Hr & E & Ho & Hn). destruct l as [|p l].
    + destruct o as [r|]; [|by destruct prev]. assert (saw = false) as -> by (destruct saw; [by specialize (Ho eq_refl)|done]).
      split; [done|]. assert (t = joinColon r) as -> by (destruct prev; cbn in E; congruence).
      exists r, None. cbn in *. rewrite app_nil_r. repeat split; auto. lia.
    + exfalso. apply Forall_inv in Hl. destruct prev.
      * injection E as E. symmetry in E. change (concat _) with (afterSep l) in E. rewrite <- app_assoc in E.
        by apply piece_head in E as [_ ?].
      * symmetry in E. rewrite joinColon_cons, <- app_assoc in E. by apply piece_head in E as [_ ?].
  - intros [-> (l & o & Hl & Hr & -> & Ho & Hn)]. rewrite (Ho eq_refl) in *. exists [], (Some l). cbn in *.
    rewrite app_nil_r. split; [done|]. split; [done|]. split; [by destruct prev|]. split; [done|]. lia.
Qed.

Lemma rest_colon saw n t : t <> [] -> starts_with colons (":"%char :: t) = false ->
  restText saw true n (":"%char :: t) <-> restText saw false n t.
Proof.
  intros Ht Hc. split; intros (l & o & Hl & Hr & E & Ho & Hn); exists l, o; split; auto; split; auto; split; auto.
  - destruct l as [|p l]; [destruct o; [|done]; exfalso; by rewrite E in Hc|].
    rewrite afterSep_cons in E by done. by injection E.
  - destruct l as [|p l]; [|by rewrite afterSep_cons, E by done].
    exfalso. destruct o; [|by apply Ht]. by subst t.
Qed.

Lemma rest_group saw n p r : isPiece p -> colonNext r -> restText saw false n (p ++ r) <-> restText saw true (S n) r.
Proof.
  intros Hp Hr. split; intros (l & o & Hl & Ho & E & Hs & Hn).
  - destruct l as [|q l].
    { exfalso. destruct o as [k|]; cbn in E; [by apply piece_head in E as [_ ?]|]. apply app_eq_nil in E as [-> _]. by destruct Hp. }
    rewrite joinColon_cons, <- app_assoc in E. apply Forall_cons in Hl as [Hq Hl].
    assert (Hnext : colonNext (afterSep l ++ shorthand o)) by (destruct l; [by destruct o|done]).
    assert (forall a x b y, isPiece a -> isPiece b -> colonNext x -> colonNext y -> a ++ x = b ++ y -> a = b /\ x = y) as inj.
    { intros a x b y Ha Hb Hx Hy Eq. assert (forall c z, isPiece c -> colonNext z -> hexRun 4 (c ++ z) = (c, z)) as R.
      { intros c [|w z] Hc Hz; [rewrite app_nil_r; by apply hexRun_all|]. cbn in Hz. subst w. by apply hexRun_piece. }
      pose proof (R a x Ha Hx) as R1. rewrite Eq, R in R1 by done. by injection R1 as -> ->. }
    apply inj in E as [-> ->]; [|done..]. exists l, o. repeat split; auto. cbn [length] in Hn.
    destruct (saw || _); lia.
  - exists (p :: l), o. rewrite joinColon_cons, <- app_assoc, E. repeat split; auto. cbn [length]. destruct (saw || _); lia.
Qed.

Lemma v6Loop_spec f saw prev n s : (length s < f)%nat -> (prev = true -> colonNext s) ->
  v6Loop f saw prev n s = true <-> restText saw prev n s.
Proof.
  revert saw prev n s. induction f as [|f IH]; intros saw prev n s Hf Hp; [lia|]. cbn [v6Loop]. destruct s as [|c t].
  - rewrite rest_nil. destruct saw; [apply Nat.leb_le|apply Nat.eqb_eq].
  - destruct (starts_with (str "::") (c :: t)) eqn:Es.
    { apply starts_with_spec in Es as [r Er]. rewrite Er. fold colons. rewrite rest_short. change (drop 2 (colons ++ r)) with r.
      destruct saw; [split; [done|by intros [? _]]|]. rewrite Er in Hf. cbn in Hf. rewrite IH; [tauto|lia|done]. }
    destruct (Ascii.eqb_spec c ":") as [->|Hc].
    { destruct prev; cbn [negb orb].
      - destruct t as [|x t']; [|rewrite rest_colon by done; apply IH; [cbn in *; lia|done]].
        cbn [is_empty]. split; [done|]. intros (l & o & Hl & _ & E & _ & _). exfalso. destruct l as [|p l].
        + by destruct o.
        + injection E as E. apply Forall_inv in Hl as [? _]. change (concat _) with (afterSep l) in E.
          rewrite <- app_assoc in E. by destruct p.
      - split; [done|]. intros (l & o & Hl & _ & E & _ & _). exfalso. destruct l as [|p l].
        + destruct o as [k|]; [|done]. cbn in E. by injection E as ->.
        + symmetry in E. apply Forall_inv in Hl. rewrite joinColon_cons, <- app_assoc in E. by apply piece_head in E as [_ ?]. }
    destruct prev; [by specialize (Hp eq_refl)|].
    destruct (hexRun 4 (c :: t)) as [h r] eqn:Eh. pose proof Eh as (E & Hl & Hh & Hstop)%hexRun_spec.
    assert (Hrest : forall p q, isPiece p -> colonNext q -> c :: t = p ++ q -> hexRun 4 (c :: t) = (p, q)).
    { intros p q Hq Hn ->. destruct q as [|w q]; [rewrite app_nil_r; by apply hexRun_all|]. cbn in Hn. subst w. by apply hexRun_piece. }
    assert (Hforce : restText saw false n (c :: t) -> isPiece h /\ colonNext r).
    { intros (l & o & HF & _ & E' & _ & _). destruct l as [|p l].
      { exfalso. destruct o as [k|]; [|done]. cbn in E'. by injection E' as -> _. }
      apply Forall_inv in HF. rewrite joinColon_cons, <- app_assoc in E'. apply Hrest in E'; [|done|].
      - rewrite Eh in E'. injection E' as -> ->. split; [done|]. destruct l; [by destruct o|done].
      - destruct l; [by destruct o|done]. }
    destruct h as [|x h]; cbn [is_empty]; [split; [done|]; intros [[? _] _]%Hforce; done|].
    destruct r as [|y r].
    + rewrite E, rest_group; [|done|done]. apply IH; [cbn in *; lia|done].
    + destruct (Ascii.eqb_spec y ":") as [->|Hy]; cbn [negb]; [|split; [done|]; by intros [_ ?]%Hforce].
      rewrite E, rest_group; [|done|done]. apply IH; [|done].
      apply (f_equal length) in E. rewrite length_app in E. cbn in *. lia.
Qed.

Lemma isV6_text s : isV6 s = true <-> v6Text s.
Proof.
  unfold isV6. destruct s as [|c t].
  - cbn [is_empty]. split; [done|]. intros (l & o & Hl & _ & E & Hn). symmetry in E. apply app_eq_nil in E as [E Eo].
    destruct o; [done|]. destruct l as [|p l]; [done|]. rewrite joinColon_cons in E. apply app_eq_nil in E as [-> _].
    by apply Forall_inv in Hl as [? _].
  - cbn [is_empty]. rewrite v6Loop_spec by (lia || done). split; intros (l & o & Hl & Ho & E & H).
    + destruct H as [_ H]. exists l, o. repeat split; auto. destruct o; cbn in *; lia.
    + exists l, o. repeat split; auto; [done|]. destruct o; cbn in *; lia.
Qed.

Lemma piece_parses p : isPiece p <-> ~ In ":"%char p /\ exists v, parseGroup p = Some v.
Proof.
  assert (forall v s, (exists w, groupLoop v s = Some w) <-> forallb isHexChar s = true) as G.
  { intros v s. revert v. induction s as [|c s IH]; intros v; cbn [groupLoop forallb]; [split; eauto|].
    destruct (isHexChar c); cbn [negb andb]; [apply IH|]. split; [intros [? ?]; done|done]. }
  unfold isPiece, parseGroup. split.
  - intros (Hne & Hl & Hh). split.
    + intros Hin. rewrite forallb_forall in Hh. by specialize (Hh _ Hin).
    + apply is_empty_false in Hne. rewrite Hne. destruct (Z.ltb_spec 4 (size_z p)) as [H|_]; [unfold size_z in H; lia|]. by apply G.
  - intros [_ [v Hv]]. destruct (is_empty p) eqn:E; [done|]. destruct (Z.ltb_spec 4 (size_z p)) as [|H]; [done|]. cbn [orb] in Hv.
    split; [by apply is_empty_false|]. split; [unfold size_z in H; lia|]. apply (G 0). eauto.
Qed.

Lemma putGroups_some l : Forall isPiece l -> exists b, putGroups l = inr b.
Proof.
  induction 1 as [|p l [_ [v Hv]]%piece_parses _ [b Hb]]; cbn [putGroups]; [eauto|]. rewrite Hv, Hb. eauto.
Qed.

Lemma splitLoop_inv cur s out gs : ~ In ":"%char cur -> splitLoop cur s out = inr gs ->
  exists l, gs = out ++ l /\ cur ++ s = joinColon l /\ l <> [] /\ Forall (fun g => ~ In ":"%char g) l.
Proof.
  revert cur out. induction s as [|c s IH]; intros cur out Hcur; cbn [splitLoop].
  - destruct (is_empty cur) eqn:E; [done|]. intros [= <-]. exists [cur]. rewrite app_nil_r. repeat split; [done|by constructor].
  - destruct (Ascii.eqb_spec c ":") as [->|Hc].
    + destruct (is_empty cur); [done|]. intros (l & -> & E & Hne & HF)%IH; [|by intros []].
      exists (cur :: l). rewrite <- app_assoc. split; [done|]. split; [|split; [done|by constructor]].
      rewrite joinColon_cons, afterSep_cons by done. cbn in E. by rewrite E.
    + intros (l & -> & E & H)%IH; [|intros [?|[?|[]]]%in_app_iff; congruence]. exists l. rewrite <- app_assoc in E. split; [done|]. by split.
Qed.

Lemma splitGroups_inv part gs : splitGroups part = inr gs -> part = joinColon gs /\ Forall (fun g => ~ In ":"%char g) gs.
Proof.
  unfold splitGroups. destruct part; cbn [is_empty]; [by intros [= <-]|].
  intros (l & -> & E & _ & HF)%splitLoop_inv; [|by intros []]. by split.
Qed.

Lemma putGroups_pieces gs b : Forall (fun g => ~ In ":"%char g) gs -> putGroups gs = inr b -> Forall isPiece gs.
Proof.
  intros HF. revert b. induction HF as [|g gs Hg _ IH]; intros b; cbn [putGroups]; [constructor|].
  destruct (parseGroup g) as [v|] eqn:E; [|done]. destruct (putGroups gs) as [|c]; [done|]. intros _.
  constructor; [apply piece_parses; eauto|by eapply IH].
Qed.

Lemma find_sub_split sub s i : find_sub sub s = Some i -> s = take i s ++ sub ++ drop (i + length sub) s.
Proof.
  revert i. induction s as [|c s IH]; intros i; cbn [find_sub].
  - destruct (starts_with sub []) eqn:E; [|done]. intros [= <-]. apply starts_with_spec in E as [t E]. by destruct sub.
  - destruct (starts_with sub (c :: s)) eqn:E.
    + intros [= <-]. apply starts_with_spec in E as [t ->]. cbn. by rewrite drop_app_length.
    + destruct (find_sub sub s) as [j|]; [|done]. intros [= <-]. cbn [take drop Nat.add app]. by rewrite <- IH.
Qed.

Lemma parseIp6_text s : (exists a, parseIp6 s = inr a) <-> v6Text s.
Proof.
  split.
  - intros [a H]. unfold parseIp6 in H. destruct (is_empty s) eqn:He; [done|]. destruct (64 <? _); [done|].
    fold colons in H. destruct (find_sub colons s) as [i|] eqn:Ec.
    + destruct (has_sub _ _); [done|]. destruct (splitGroups (take i s)) as [|gb] eqn:Eb; [done|].
      destruct (splitGroups (drop (i + 2) s)) as [|ga] eqn:Ea; [done|]. destruct (Nat.ltb_spec 8 (length gb + length ga)); [done|].
      cbn [negb andb] in H. destruct (Nat.eqb_spec (length gb + length ga) 8); [done|].
      destruct (putGroups gb) eqn:Pb; [done|]. destruct (putGroups ga) eqn:Pa; [done|].
      apply splitGroups_inv in Eb as [Eb Fb]. apply splitGroups_inv in Ea as [Ea Fa]. apply find_sub_split in Ec.
      exists gb, (Some ga). split; [by eapply putGroups_pieces|]. split; [by eapply putGroups_pieces|]. split; [|lia].
      cbn [shorthand]. by rewrite <- Eb, <- Ea.
    + destruct (splitGroups s) as [|gb] eqn:Eb; [done|]. cbn [splitGroups is_empty length] in H. rewrite Nat.add_0_r in H.
      destruct (Nat.ltb_spec 8 (length gb)); [done|]. cbn [negb andb] in H. destruct (Nat.eqb_spec (length gb) 8); [|done].
      destruct (putGroups gb) eqn:Pb; [done|]. apply splitGroups_inv in Eb as [Eb Fb]. exists gb, None.
      split; [by eapply putGroups_pieces|]. cbn. by rewrite app_nil_r.
  - intros (l & o & Hl & Ho & E & Hn). destruct (putGroups_some l Hl) as [b Hb]. destruct (putGroups_some _ Ho) as [c Hc].
    assert (s <> []). { intros ->. assert (isV6 [] = true) as ?; [apply isV6_text; by exists l, o|done]. }
    eexists. apply (parse_pieces6 (bool_decide (is_Some o)) l (pieces o) b c); auto.
    + rewrite E. destruct o; cbn; [done|by rewrite app_nil_r].
    + by destruct o.
    + by destruct o.
Qed.

(** The spec parser's IPv6 syntax check and the address pool's parser, two
    independent readers of the same notation, accept exactly the same texts, so
    an address that passes the check can always be given its value. *)
Theorem isV6_agrees_with_parser s : isV6 s = true <-> exists a, Ip6Alloc.parseIp6 s = inr a.
Proof. by rewrite isV6_text, parseIp6_text. Qed.

(** * Host names: labels between dots, one dot allowed at the end *)

Lemma hostLoop_spec f s : (length s < f)%nat -> hostLoop f s = forallb labelOk (dropLastEmpty (split_on "." s)).
Proof.
  revert s. induction f as [|f IH]; intros s Hf; [lia|]. cbn [hostLoop]. destruct s as [|c t]; [done|]. cbn [is_empty].
  destruct (span _ (c :: t)) as [label rest] eqn:E. apply span_spec in E as (E & Hl & Hr).
  assert (Hdot : ~ In "."%char label) by (intros Hin; rewrite forallb_forall in Hl; by specialize (Hl _ Hin)).
  rewrite E. destruct rest as [|x rest]; cbn [tail].
  - rewrite app_nil_r in *. rewrite split_on_nosep by done. rewrite <- E at 2. cbn [dropLastEmpty is_empty forallb].
    rewrite <- E. destruct f; [cbn in Hf; lia|]. cbn [hostLoop is_empty]. by destruct (labelOk (c :: t)).
  - specialize (Hr x rest eq_refl). apply negb_false_iff, Ascii.eqb_eq in Hr. subst x. rewrite split_on_app by done.
    assert (length rest < f)%nat by (apply (f_equal length) in E; rewrite length_app in E; cbn in *; lia).
    rewrite IH by done. pose proof (split_on_ne "." rest). destruct (split_on "." rest) as [|w ws]; [done|].
    change (dropLastEmpty (label :: w :: ws)) with (label :: dropLastEmpty (w :: ws)). cbn [forallb]. by destruct (labelOk label).
Qed.

Lemma isHostname_iff s : isHostname s = true <->
  s <> [] /\ size_z s <= 253 /\ forallb labelOk (dropLastEmpty (split_on "." s)) = true.
Proof.
  unfold isHostname. rewrite hostLoop_spec by lia. destruct (is_empty s) eqn:E.
  - apply is_empty_true in E as ->. split; [done|]. by intros [? _].
  - apply is_empty_false in E. cbn [orb]. destruct (Z.ltb_spec 253 (size_z s)); [split; [done|]; lia|]. tauto.
Qed.

Lemma host_piece sep (c : ascii) s : In c s -> c <> sep -> exists w, In w (split_on sep s) /\ In c w.
Proof.
  intros Hc N. rewrite (split_on_join sep s) in Hc. apply in_concat in Hc as (w & Hw & Hc). unfold intersperse_head in Hw. destruct (split_on sep s) as [|a l]; [done|].
  destruct Hw as [<-|(x & <- & Hx)%in_map_iff]; [exists a; split; [by left|done]|]. destruct Hc as [->|Hc]; [done|]. exists x. split; [by right|done].
Qed.

Lemma dropLastEmpty_In w l : In w l -> w <> [] -> In w (dropLastEmpty l).
Proof.
  induction l as [|a l IH]; [done|]. intros H N. cbn [dropLastEmpty]. destruct l as [|b l]; [destruct H as [->|[]]; destruct w; [done|by left]|].
  destruct H as [->|H]; [by left|right; by apply IH].
Qed.

Lemma isHostname_chars n c : isHostname n = true -> In c n -> is_alnum c || Ascii.eqb c "-" || Ascii.eqb c "." = true.
Proof.
  intros (_ & _ & F)%isHostname_iff Hc. destruct (Ascii.eqb_spec c ".") as [->|N]; [done|]. destruct (host_piece "." c n Hc N) as (w & Hw & Hcw).
  rewrite forallb_forall in F. specialize (F w (dropLastEmpty_In w _ Hw ltac:(by destruct w))). unfold labelOk in F. apply andb_true_iff in F as [_ F].
  rewrite forallb_forall in F. by rewrite (F c Hcw).
Qed.


End NetAddr.
