(* ===== verification/Throttle.v ===== *)
(** * Bandwidth limits: lib/throttle_pure.cpp, lib/throttle.cpp

    [crate throttle] shapes a jail's traffic with two dummynet pipes and two
    ipfw rules, whose numbers are computed from the jail's id. *)

From S2P Require Import Prelude CStd NetAddr.

Module Throttle.
Import CStd.

(** ** Validation *)

Definition isAllDigits (s : bytes) : bool := negb (is_empty s) && forallb is_digit s.

(** The loop of [numericPrefixOk]: [sawDot] and [sawDigit] so far. *)
Fixpoint numericLoop (sawDot sawDigit : bool) (s : bytes) : bool :=
  match s with
  | [] => sawDigit
  | c :: t =>
      if is_digit c then numericLoop sawDot true t
      else if Ascii.eqb c "." && negb sawDot then numericLoop true sawDigit t
      else false
  end.

Definition numericPrefixOk (s : bytes) (bodyLen : nat) : bool :=
  if (bodyLen =? 0)%nat then false else numericLoop false false (take bodyLen s).

(** [for (auto suf : sufs) if (endsWith(s, suf)) ...]: the first suffix that
    fits decides; [None] when none does. *)
Fixpoint suffixed (sufs : list bytes) (what s : bytes) : option bytes :=
  match sufs with
  | [] => None
  | suf :: rest =>
      if ends_with suf s then
        Some (if numericPrefixOk s (length s - length suf) then []
              else what ++ str " body must be a number, got '" ++ s ++ str "'")
      else suffixed rest what s
  end.

Definition validateRate (rate : bytes) : bytes :=
  if is_empty rate then str "rate is empty"
  else if 32 <? size_z rate then str "rate is unreasonably long"
  else match suffixed [str "Kbit/s"; str "Mbit/s"; str "Gbit/s"] (str "rate") rate with
  | Some e => e
  | None =>
      match suffixed [str "KB/s"; str "MB/s"; str "GB/s"] (str "rate") rate with
      | Some e => e
      | None =>
          if isAllDigits rate then []
          else str "rate must be 'NK?bit/s', 'NK?B/s', or a plain integer (bytes/s); got '" ++ rate ++ str "'"
      end
  end.

Definition validateBurst (burst : bytes) : bytes :=
  if is_empty burst then []
  else if 32 <? size_z burst then str "burst is unreasonably long"
  else match suffixed [str "KB"; str "MB"; str "GB"] (str "burst") burst with
  | Some e => e
  | None =>
      if isAllDigits burst then []
      else str "burst must be 'NK?B' or a plain integer (bytes); got '" ++ burst ++ str "'"
  end.

(** The slot count is accumulated in a [long] with no check; two's complement
    stands for what the compiled code does past 63 bits. *)
Definition slotCount (queue : bytes) : Z := fold_left (fun n c => i64 (n * 10 + digit_val c)) queue 0.

Definition validateQueue (queue : bytes) : bytes :=
  if is_empty queue then []
  else if 32 <? size_z queue then str "queue is unreasonably long"
  else if isAllDigits queue then
    let n := slotCount queue in
    if (n <? 1) || (1000 <? n) then str "queue (slot count) must be 1..1000" else []
  else match suffixed [str "KB"; str "MB"] (str "queue") queue with
  | Some e => e
  | None => str "queue must be a slot count (1..1000) or 'NK?B'; got '" ++ queue ++ str "'"
  end.

(** The octet loop of [validateIp], [left] octets to go. *)
Fixpoint ipLoop (left : nat) (s : bytes) : bytes :=
  match left with
  | O => if is_empty s then [] else str "jail IP has trailing data"
  | S O => if NetAddr.isV4Octet s then [] else str "jail IP has invalid octet"
  | S left' =>
      match find_char "." s with
      | None => str "jail IP missing octet"
      | Some dot =>
          if negb (NetAddr.isV4Octet (take dot s)) then str "jail IP has invalid octet"
          else ipLoop left' (drop (S dot) s)
      end
  end.

Definition validateIp (ip : bytes) : bytes :=
  if is_empty ip then str "jail IP is empty"
  else if 15 <? size_z ip then str "jail IP longer than 15 chars"
  else ipLoop 4 ip.

(** ** Numbers: [unsigned] arithmetic on 32 bits *)

Definition kPipeBase : Z := 10000.
Definition kRuleBase : Z := 20000.

Definition pipeIdForJail (jid : Z) (egress : bool) : Z := u32 (kPipeBase + u32 (jid * 2) + (if egress then 1 else 0)).
Definition ruleIdForJail (jid : Z) (egress : bool) : Z := u32 (kRuleBase + u32 (jid * 2) + (if egress then 1 else 0)).

Definition validateJidForIds (jid : Z) : bytes :=
  if jid <? 1 then str "jid must be >= 1"
  else if 4999 <? jid then
    str "jid " ++ dec_signed jid ++ str " exceeds the throttle id space (max jid 4999): "
    ++ str "rule ids would reach the auto-fw NAT range at 30000"
  else [].

(** ** The request *)

Record ThrottleSpec := {
  ingressRate : bytes; ingressBurst : bytes; egressRate : bytes; egressBurst : bytes; queue : bytes }.

Definition validateSpec (s : ThrottleSpec) : bytes :=
  guard_err (str "ingress rate: ") (if is_empty (ingressRate s) then [] else validateRate (ingressRate s)) (
  guard_err (str "egress rate: ") (if is_empty (egressRate s) then [] else validateRate (egressRate s)) (
  guard_err (str "ingress burst: ") (validateBurst (ingressBurst s)) (
  guard_err (str "egress burst: ") (validateBurst (egressBurst s)) (
  guard_err (str "queue: ") (validateQueue (queue s)) (
  if negb (is_empty (ingressBurst s)) && is_empty (ingressRate s) then str "ingress burst given without ingress rate"
  else if negb (is_empty (egressBurst s)) && is_empty (egressRate s) then str "egress burst given without egress rate"
  else []))))).

Definition hasAnyThrottle (s : ThrottleSpec) : bool := negb (is_empty (ingressRate s)) || negb (is_empty (egressRate s)).

(** ** The commands *)

Definition buildPipeConfigArgv (pipeId : Z) (rate burst q : bytes) : list bytes :=
  [str "/sbin/ipfw"; str "pipe"; dec pipeId; str "config"; str "bw"; rate]
  ++ (if is_empty burst then [] else [str "burst"; burst])
  ++ (if is_empty q then [] else [str "queue"; q]).

Definition buildBindArgv (ruleId pipeId : Z) (jailIp : bytes) (egress : bool) : list bytes :=
  if egress then
    [str "/sbin/ipfw"; str "add"; dec ruleId; str "pipe"; dec pipeId;
     str "ip"; str "from"; jailIp; str "to"; str "any"; str "out"]
  else
    [str "/sbin/ipfw"; str "add"; dec ruleId; str "pipe"; dec pipeId;
     str "ip"; str "from"; str "any"; str "to"; jailIp; str "in"].

Definition buildRuleDeleteArgv (ruleId : Z) : list bytes := [str "/sbin/ipfw"; str "delete"; dec ruleId].
Definition buildPipeDeleteArgv (pipeId : Z) : list bytes := [str "/sbin/ipfw"; str "pipe"; dec pipeId; str "delete"].
Definition buildPipeShowArgv (pipeId : Z) : list bytes := [str "/sbin/ipfw"; str "pipe"; str "show"; dec pipeId].

(** [clearJailThrottle]: rules first, then the pipes they refer to. *)
Definition clearJailThrottle (jid : Z) : list (list bytes) :=
  [buildRuleDeleteArgv (ruleIdForJail jid false); buildRuleDeleteArgv (ruleIdForJail jid true);
   buildPipeDeleteArgv (pipeIdForJail jid false); buildPipeDeleteArgv (pipeIdForJail jid true)].

(** [applyDirection]: the commands it runs, each after the one before
    succeeded (the two deletions may fail). *)
Definition applyDirection (jid : Z) (jailIp rate burst q : bytes) (egress : bool) : bytes + list (list bytes) :=
  match validateJidForIds jid with
  | [] =>
      let pipeId := pipeIdForJail jid egress in
      let ruleId := ruleIdForJail jid egress in
      inr [buildRuleDeleteArgv ruleId; buildPipeDeleteArgv pipeId;
           buildPipeConfigArgv pipeId rate burst q; buildBindArgv ruleId pipeId jailIp egress]
  | e => inl e
  end.

(** * Lemmas *)

Lemma validateJidForIds_nil jid : validateJidForIds jid = [] <-> 1 <= jid <= 4999.
Proof.
  unfold validateJidForIds. destruct (Z.ltb_spec jid 1); [split; [done|lia]|].
  destruct (Z.ltb_spec 4999 jid); [split; [done|lia]|]. split; [lia|done].
Qed.

Lemma throttle_ids_plain jid egress : 1 <= jid <= 4999 ->
  ruleIdForJail jid egress = 20000 + 2 * jid + (if egress then 1 else 0) /\
  pipeIdForJail jid egress = 10000 + 2 * jid + (if egress then 1 else 0).
Proof.
  intros H. unfold ruleIdForJail, pipeIdForJail, kRuleBase, kPipeBase, u32.
  destruct egress; rewrite !Z.mod_small by (rewrite ?Z.mod_small; lia); lia.
Qed.

(** Distinct jails and directions have distinct rules and pipes, and every rule
    is in the range the orphan sweep looks at. *)
Lemma throttle_ids_distinct jid egress jid' egress' : 1 <= jid <= 4999 -> 1 <= jid' <= 4999 ->
  ruleIdForJail jid egress = ruleIdForJail jid' egress' \/ pipeIdForJail jid egress = pipeIdForJail jid' egress' ->
  jid = jid' /\ egress = egress'.
Proof.
  intros H H'. destruct (throttle_ids_plain jid egress H) as [-> ->], (throttle_ids_plain jid' egress' H') as [-> ->].
  destruct egress, egress'; intros [?|?]; split; (done || lia).
Qed.

Lemma ipLoop_v4 n s : ipLoop (S n) s = [] <-> NetAddr.v4Loop (S n) s = true.
Proof.
  revert s. induction n as [|n IH]; intros s.
  - cbn [ipLoop NetAddr.v4Loop]. by destruct (NetAddr.isV4Octet s).
  - change (NetAddr.v4Loop (S (S n)) s) with (match find_char "." s with None => false | Some dot => if negb (NetAddr.isV4Octet (take dot s)) then false else NetAddr.v4Loop (S n) (drop (S dot) s) end).
    change (ipLoop (S (S n)) s) with (match find_char "." s with None => str "jail IP missing octet" | Some dot => if negb (NetAddr.isV4Octet (take dot s)) then str "jail IP has invalid octet" else ipLoop (S n) (drop (S dot) s) end).
    destruct (find_char "." s) as [d|]; [|done]. destruct (NetAddr.isV4Octet _); cbn [negb]; [apply IH|done].
Qed.

Lemma octet_size o : NetAddr.isV4Octet o = true -> 0 < size_z o <= 3.
Proof.
  unfold NetAddr.isV4Octet. destruct (is_empty o) eqn:E; [done|]. destruct (Z.ltb_spec 3 (size_z o)); [done|]. intros _.
  apply is_empty_false in E. pose proof (size_z_nonneg o). destruct (Z.eq_dec (size_z o) 0) as [Hz|]; [by apply size_z_nil in Hz|lia].
Qed.

(** The throttle's own address check accepts what the spec parser's accepts. *)
Lemma validateIp_isV4 ip : validateIp ip = [] <-> NetAddr.isV4 ip = true.
Proof.
  unfold validateIp. split.
  - destruct (is_empty ip); [done|]. destruct (15 <? size_z ip); [done|]. apply ipLoop_v4.
  - intros H. pose proof H as [Hl HF]%NetAddr.isV4_iff.
    assert (Hs : 0 < size_z ip <= 15).
    { rewrite (split_on_join "." ip) at 1 2. destruct (split_on "." ip) as [|a [|b [|c [|d []]]]]; try done.
      rewrite !Forall_cons in HF. destruct HF as (Ha & Hb & Hc & Hd & _).
      apply octet_size in Ha, Hb, Hc, Hd. cbn [intersperse_head map concat].
      autorewrite with crate. change (size_z (@nil ascii)) with 0. lia. }
    destruct (is_empty ip) eqn:E; [apply is_empty_true in E as ->; by destruct Hs|].
    destruct (Z.ltb_spec 15 (size_z ip)); [lia|]. by apply ipLoop_v4.
Qed.

End Throttle.
