(* ===== verification/AutoFw.v ===== *)
(** * Automatic firewalling: lib/auto_fw_pure.cpp

    The pf and ipfw rules that give a bridged jail its way out, the numbers of
    the ipfw ones, and the scans of [ipfw list], [ipfw nat show] and [pfctl -sn]
    output by which [crate clean] and [crate run] find what dead jails left. *)

From S2P Require Import Prelude CStd.

Module AutoFw.
Import CStd.

(** ** pf rules *)

Definition validateExternalIface (iface : bytes) : bytes :=
  if is_empty iface then str "external interface is empty"
  else if 15 <? size_z iface then str "external interface name longer than 15 chars (FreeBSD IFNAMSIZ)"
  else match List.find (fun c => negb (is_alnum c || one_of (str "._") c)) iface with
  | Some c => str "external interface contains invalid character '" ++ [c] ++ str "'"
  | None => []
  end.

Fixpoint addressLoop (sawSlash : bool) (s : bytes) : bytes :=
  match s with
  | [] => []
  | c :: t =>
      if Ascii.eqb c "/" then
        if sawSlash then str "rule address has more than one '/'" else addressLoop true t
      else if is_digit c || Ascii.eqb c "." then addressLoop sawSlash t
      else str "rule address contains invalid character '" ++ [c] ++ str "'"
  end.

Definition validateRuleAddress (addr : bytes) : bytes :=
  if is_empty addr then str "rule address is empty"
  else if 18 <? size_z addr then str "rule address longer than 18 chars (max '255.255.255.255/32')"
  else addressLoop false addr.

Definition formatSnatRule (externalIface jailAddr : bytes) : bytes :=
  str "nat on " ++ externalIface ++ str " inet from " ++ jailAddr ++ str " to ! " ++ jailAddr
  ++ str " -> (" ++ externalIface ++ str ")".

Definition formatSnatAnchorLine (externalIface jailAddr : bytes) : bytes :=
  formatSnatRule externalIface jailAddr ++ [newline].

Definition validateProto (proto : bytes) : bytes :=
  if is_empty proto then str "proto is empty"
  else if negb (beq proto (str "tcp")) && negb (beq proto (str "udp")) then
    str "proto must be 'tcp' or 'udp', got '" ++ proto ++ str "'"
  else [].

Definition validatePort (port : Z) : bytes :=
  if port =? 0 then str "port 0 is invalid"
  else if 65535 <? port then str "port " ++ dec port ++ str " > 65535"
  else [].

Definition formatPortToken (lo hi : Z) : bytes := if lo =? hi then dec lo else dec lo ++ str ":" ++ dec hi.

Definition formatRdrRule (externalIface proto : bytes) (hostPortLo hostPortHi : Z) (jailAddr : bytes)
    (jailPortLo jailPortHi : Z) : bytes :=
  str "rdr on " ++ externalIface ++ str " inet proto " ++ proto ++ str " from any to (" ++ externalIface ++ str ")"
  ++ str " port " ++ formatPortToken hostPortLo hostPortHi ++ str " -> " ++ jailAddr
  ++ str " port " ++ formatPortToken jailPortLo jailPortHi.

Definition formatRdrAnchorLine (externalIface proto : bytes) (hostPortLo hostPortHi : Z) (jailAddr : bytes)
    (jailPortLo jailPortHi : Z) : bytes :=
  formatRdrRule externalIface proto hostPortLo hostPortHi jailAddr jailPortLo jailPortHi ++ [newline].

(** ** ipfw numbers *)

Definition kIpfwNatBase : Z := 30000.
Definition kIpfwRuleBase : Z := 40000.
Definition kIpfwRuleRangeEnd : Z := 60000.
Definition kIpfwIdMax : Z := 65535.
Definition kIpfwMaxJid : Z := 9999.

Definition natIdForJail (jid : Z) : Z := u32 (kIpfwNatBase + u32 jid).
Definition ruleIdForJail (jid : Z) : Z := u32 (kIpfwRuleBase + 2 * u32 jid).
Definition loopbackRuleIdForJail (jid : Z) : Z := u32 (kIpfwRuleBase + 2 * u32 jid + 1).

Definition validateIpfwIdsForJid (jid : Z) : bytes :=
  if jid <? 1 then str "jid must be >= 1"
  else if kIpfwMaxJid <? jid then
    str "jid " ++ dec_signed jid ++ str " exceeds the ipfw auto-fw id space (max jid " ++ dec kIpfwMaxJid
    ++ str "): NAT instance would reach the rule range"
  else [].

Definition validateIpfwNatId (id : Z) : bytes :=
  if id <? kIpfwNatBase then str "ipfw NAT id below 30000 reserved range"
  else if kIpfwIdMax <? id then str "ipfw NAT id exceeds 16-bit max"
  else [].

(** ** ipfw commands *)

Record RedirPort := {
  proto : bytes; hostPortLo : Z; hostPortHi : Z; jailAddr : bytes; jailPortLo : Z; jailPortHi : Z }.

Definition buildIpfwNatConfigArgv (natId : Z) (externalIface : bytes) : list bytes :=
  [str "/sbin/ipfw"; str "nat"; dec natId; str "config"; str "if"; externalIface].

Definition portToken (lo hi : Z) : bytes := if lo =? hi then dec lo else dec lo ++ str "-" ++ dec hi.

Definition redirTokens (r : RedirPort) : list bytes :=
  [str "redir_port"; proto r; jailAddr r ++ str ":" ++ portToken (jailPortLo r) (jailPortHi r);
   portToken (hostPortLo r) (hostPortHi r)].

Definition buildIpfwNatConfigWithRedirsArgv (natId : Z) (externalIface : bytes) (redirs : list RedirPort) : list bytes :=
  buildIpfwNatConfigArgv natId externalIface ++ flat_map redirTokens redirs.

Definition buildIpfwNatRuleArgv (ruleId natId : Z) (addr externalIface : bytes) : list bytes :=
  [str "/sbin/ipfw"; str "add"; dec ruleId; str "nat"; dec natId; str "ip"; str "from"; addr; str "to"; str "any";
   str "out"; str "via"; externalIface].

Definition buildIpfwRuleDeleteArgv (ruleId : Z) : list bytes := [str "/sbin/ipfw"; str "delete"; dec ruleId].
Definition buildIpfwNatDeleteArgv (natId : Z) : list bytes := [str "/sbin/ipfw"; str "nat"; dec natId; str "delete"].

Definition buildIpfwHostLoopbackNatArgv (ruleId natId : Z) : list bytes :=
  [str "/sbin/ipfw"; str "add"; dec ruleId; str "nat"; dec natId; str "tcp"; str "from"; str "me"; str "to"; str "me"].

(** ** Scans of the tools' output *)

Definition isBlank (c : ascii) : bool := one_of [" "%char; chr 9] c.

(** [if (!line.empty() && line.back() == '\r') line.pop_back();] *)
Definition chomp (line : bytes) : bytes := if backIs (chr 13) line then removelast line else line.

(** The digit loop of [parseLeadingNumber]; [None] past five digits. *)
Fixpoint numberLoop (n : Z) (s : bytes) : option Z :=
  match s with
  | c :: t =>
      if is_digit c then let n' := n * 10 + digit_val c in if 99999 <? n' then None else numberLoop n' t
      else Some n
  | [] => Some n
  end.

Definition parseLeadingNumber (line : bytes) : Z :=
  match snd (span isBlank line) with
  | c :: t => if is_digit c then default (-1) (numberLoop 0 (c :: t)) else -1
  | [] => -1
  end.

Definition running (jid : Z) (runningJids : list Z) : bool := existsb (Z.eqb jid) runningJids.

(** The loop over the lines that the three scans share: the number on a line,
    the jid behind it, and the test for a running jail. *)
Definition orphanOf (number : bytes -> Z) (lo hi : Z) (jidOf : Z -> Z) (runningJids : list Z) (line : bytes) : list Z :=
  let n := number (chomp line) in
  if (n <? lo) || (hi <=? n) then []
  else if running (jidOf n) runningJids then [] else [n].

Definition pickOrphanIpfwRulesByJid (ipfwListOutput : bytes) (runningJids : list Z) : list Z :=
  flat_map (orphanOf parseLeadingNumber kIpfwRuleBase kIpfwRuleRangeEnd (fun n => (n - kIpfwRuleBase) / 2) runningJids)
    (getlines ipfwListOutput).

Definition pickOrphanIpfwThrottleRulesByJid (ipfwListOutput : bytes) (runningJids : list Z) : list Z :=
  flat_map (orphanOf parseLeadingNumber 20000 30000 (fun n => (n - 20000) / 2) runningJids) (getlines ipfwListOutput).

(** The number in an [ipfw nat N config ...] line, or -1. *)
Fixpoint natNumberLoop (n : Z) (s : bytes) : Z :=
  match s with
  | [] => n
  | c :: t =>
      if is_digit c then let n' := n * 10 + digit_val c in if 99999 <? n' then -1 else natNumberLoop n' t
      else -1
  end.

Definition natNumber (line : bytes) : Z :=
  match words line with
  | tok1 :: tok2 :: tok3 :: _ =>
      if negb (beq tok1 (str "ipfw")) || negb (beq tok2 (str "nat")) then -1 else natNumberLoop 0 tok3
  | _ => -1
  end.

Definition pickOrphanIpfwNatIds (ipfwNatListOutput : bytes) (runningJids : list Z) : list Z :=
  flat_map (orphanOf natNumber 30000 40000 (fun n => n - 30000) runningJids) (getlines ipfwNatListOutput).

(** One line of [pfctl -s Anchors]. *)
Definition anchorName (line0 : bytes) : list bytes :=
  let line := chomp line0 in
  let tok := rev (snd (span isBlank (rev (snd (span isBlank line))))) in
  let kPrefix := str "crate/" in
  if is_empty tok then []
  else if (size_z tok <=? size_z kPrefix) || negb (starts_with kPrefix tok) then []
  else let name := drop 6 tok in if has_char "/" name then [] else [name].

Definition parseCrateAnchorJailNames (pfctlAnchorsOutput : bytes) : list bytes :=
  flat_map anchorName (getlines pfctlAnchorsOutput).

Record RdrHostPort := { rp_proto : bytes; rp_lo : Z; rp_hi : Z }.

(** The [readNum] lambda: the digits at the head of what is left before the
    arrow; [None] is [false]. *)
Fixpoint readLoop (acc : Z) (s : bytes) : option (Z * bytes) :=
  match s with
  | c :: t =>
      if is_digit c then let acc' := acc * 10 + digit_val c in if 65535 <? acc' then None else readLoop acc' t
      else Some (acc, s)
  | [] => Some (acc, [])
  end.

Definition readNum (s : bytes) : option (Z * bytes) :=
  match s with
  | c :: _ => if is_digit c then readLoop 0 s else None
  | [] => None
  end.

Definition isSpaceChar (c : ascii) : bool := Ascii.eqb c " ".

(** What lies between [" port "] and the arrow. *)
Definition readPorts (w0 : bytes) : option (Z * Z) :=
  let w1 := snd (span isSpaceChar w0) in
  let w2 := match w1 with c :: t => if Ascii.eqb c "=" then snd (span isSpaceChar t) else w1 | [] => w1 end in
  match readNum w2 with
  | None => None
  | Some (lo, w3) =>
      match w3 with
      | c :: t =>
          if Ascii.eqb c ":" then
            match readNum t with None => None | Some (hi, _) => Some (if hi <? lo then (hi, lo) else (lo, hi)) end
          else Some (lo, lo)
      | [] => Some (lo, lo)
      end
  end.

Definition rdrPortsOf (line0 : bytes) : list RdrHostPort :=
  let line := chomp line0 in
  if negb (has_sub (str "rdr") line) then []
  else match find_sub (str "->") line with
  | None => []
  | Some arrow =>
      let go proto :=
        match find_sub (str " port ") line with
        | None => []
        | Some p =>
            if (arrow <? p)%nat then []
            else match readPorts (take (arrow - (p + 6)) (drop (p + 6) line)) with
            | None => []
            | Some (lo, hi) => [{| rp_proto := proto; rp_lo := lo; rp_hi := hi |}]
            end
        end in
      if has_sub (str "proto tcp") line then go (str "tcp")
      else if has_sub (str "proto udp") line then go (str "udp")
      else []
  end.

Definition parseRdrHostPorts (pfctlNatOutput : bytes) : list RdrHostPort :=
  flat_map rdrPortsOf (getlines pfctlNatOutput).

Definition rdrHostPortTaken (taken : list RdrHostPort) (proto : bytes) (lo hi : Z) : bool :=
  let '(lo, hi) := if hi <? lo then (hi, lo) else (lo, hi) in
  existsb (fun t => beq (rp_proto t) proto && (rp_lo t <=? hi) && (lo <=? rp_hi t)) taken.

(** * What the sweep finds *)

(** A line of [ipfw list]: the rule's number on five digits, then the rule. *)
Definition pad5 (n : Z) : bytes := replicate (5 - length (dec n)) "0"%char ++ dec n.
Definition ipfwLine (r : Z * bytes) : bytes := pad5 (fst r) ++ str " " ++ snd r.
Definition ipfwList (l : list (Z * bytes)) : bytes := concat (map (fun r => ipfwLine r ++ [newline]) l).

Definition lineOk (r : Z * bytes) : Prop := 0 <= fst r <= 65535 /\ ~ In newline (snd r) /\ ~ In (chr 13) (snd r).

Lemma validateIpfwIds_nil jid : validateIpfwIdsForJid jid = [] <-> 1 <= jid <= 9999.
Proof.
  unfold validateIpfwIdsForJid, kIpfwMaxJid. destruct (Z.ltb_spec jid 1); [split; [done|lia]|].
  destruct (Z.ltb_spec 9999 jid); [split; [done|lia]|]. split; [lia|done].
Qed.

Lemma ids_plain jid : 1 <= jid <= 9999 ->
  natIdForJail jid = 30000 + jid /\ ruleIdForJail jid = 40000 + 2 * jid /\ loopbackRuleIdForJail jid = 40001 + 2 * jid.
Proof.
  intros H. unfold natIdForJail, ruleIdForJail, loopbackRuleIdForJail, kIpfwNatBase, kIpfwRuleBase, u32.
  rewrite !Z.mod_small by (rewrite ?Z.mod_small; lia). lia.
Qed.

(** No two jails share a number, and no number leaves its range. *)
Lemma autofw_ids_distinct jid jid' : 1 <= jid <= 9999 -> 1 <= jid' <= 9999 -> jid <> jid' ->
  natIdForJail jid <> natIdForJail jid' /\ ruleIdForJail jid <> ruleIdForJail jid' /\
  loopbackRuleIdForJail jid <> loopbackRuleIdForJail jid' /\ ruleIdForJail jid <> loopbackRuleIdForJail jid' /\
  30000 < natIdForJail jid < 40000 /\ 40000 < ruleIdForJail jid < 60000 /\ 40000 < loopbackRuleIdForJail jid < 60000.
Proof. intros H H' Hne. destruct (ids_plain jid H) as (-> & -> & ->), (ids_plain jid' H') as (-> & -> & ->). lia. Qed.

Lemma running_In jid r : running jid r = true <-> In jid r.
Proof.
  unfold running. rewrite existsb_exists. split; [intros (x & Hx & E); apply Z.eqb_eq in E; by subst|].
  intros H. exists jid. by rewrite Z.eqb_refl.
Qed.

Lemma numberLoop_digits n s c rest : all_digits s = true -> 0 <= n -> dec_value_from n s <= 99999 -> is_digit c = false ->
  numberLoop n (s ++ c :: rest) = Some (dec_value_from n s).
Proof.
  unfold all_digits. revert n. induction s as [|d s IH]; intros n Hd Hn Hv Hc.
  - cbn. by rewrite Hc.
  - cbn [forallb] in Hd. apply andb_prop in Hd as [Hd Hs]. cbn [app numberLoop]. rewrite Hd.
    change (dec_value_from n (d :: s)) with (dec_value_from (n * 10 + digit_val d) s) in *.
    apply is_digit_val in Hd. rewrite dec_value_from_shift in Hv. pose proof (dec_value_bound s Hs).
    pose proof (Z.pow_pos_nonneg 10 (size_z s) ltac:(lia) (size_z_nonneg s)).
    destruct (Z.ltb_spec 99999 (n * 10 + digit_val d)); [nia|]. rewrite IH; [done|done|lia|by rewrite dec_value_from_shift|done].
Qed.

Lemma pad5_digits n : all_digits (pad5 n) = true.
Proof.
  unfold pad5, all_digits. rewrite forallb_app. apply andb_true_intro. split; [|apply dec_digits].
  by induction (5 - length (dec n))%nat.
Qed.

Lemma pad5_value n : 0 <= n -> dec_value (pad5 n) = n.
Proof.
  intros Hn. unfold pad5, dec_value. rewrite dec_value_from_app. induction (5 - length (dec n))%nat as [|k IH].
  - by apply dec_value_dec.
  - cbn [replicate]. change (dec_value_from 0 ("0"%char :: replicate k "0"%char)) with (dec_value_from 0 (replicate k "0"%char)). done.
Qed.

Lemma leading_number r : lineOk r -> parseLeadingNumber (chomp (ipfwLine r)) = fst r.
Proof.
  intros (Hn & _ & Hcr). destruct r as [n b]. cbn [fst snd] in *.
  assert (chomp (ipfwLine (n, b)) = ipfwLine (n, b)) as ->.
  { unfold chomp. destruct (backIs (chr 13) (ipfwLine (n, b))) eqn:E; [|done]. exfalso.
    apply backIs_spec in E as [t E]. assert (In (chr 13) (ipfwLine (n, b))) as Hin by (rewrite E; apply in_app_iff; right; by left).
    unfold ipfwLine in Hin. cbn [fst snd] in Hin. rewrite !in_app_iff in Hin. destruct Hin as [Hin|[Hin|Hin]]; [| |done].
    - pose proof (pad5_digits n) as Hd. unfold all_digits in Hd. rewrite forallb_forall in Hd. by apply Hd in Hin.
    - by destruct Hin as [?|[]]. }
  unfold parseLeadingNumber, ipfwLine. cbn [fst snd].
  pose proof (pad5_digits n) as Hd. pose proof (pad5_value n (proj1 Hn)) as Hv.
  destruct (pad5 n) as [|c s] eqn:Es.
  { exfalso. unfold pad5 in Es. apply app_eq_nil in Es as [_ Es]. by apply dec_nonempty in Es. }
  assert (is_digit c = true) as Hc by (unfold all_digits in Hd; cbn [forallb] in Hd; by apply andb_prop in Hd as [? _]).
  assert (isBlank c = false) as Hb. { clear - Hc. apply negb_true_iff. revert c Hc. by_bytes. }
  cbn [app span]. rewrite Hb. cbn [snd]. rewrite Hc. change (str " " ++ b) with (" "%char :: b).
  change (c :: s ++ " "%char :: b) with ((c :: s) ++ " "%char :: b).
  rewrite numberLoop_digits; [cbn [default]; exact Hv|done|lia|change (dec_value (c :: s) <= 99999); lia|done].
Qed.

Lemma ipfwList_lines l : Forall lineOk l -> getlines (ipfwList l) = map ipfwLine l.
Proof.
  intros Hl. unfold ipfwList. rewrite <- (map_map ipfwLine (fun x => x ++ [newline])). apply getlines_concat. apply Forall_map.
  eapply Forall_impl; [exact Hl|]. intros [n b] (_ & Hnl & _) Hin. unfold ipfwLine in Hin. cbn [fst snd] in *.
  rewrite !in_app_iff in Hin. destruct Hin as [Hin|[[?|[]]|?]]; [|done..].
  pose proof (pad5_digits n) as Hd. unfold all_digits in Hd. rewrite forallb_forall in Hd. by apply Hd in Hin.
Qed.

(** A scan of a rule listing keeps, in order, the numbers of the range whose jail is dead. *)
Lemma scan_exact lo hi jidOf r l : Forall lineOk l ->
  flat_map (orphanOf parseLeadingNumber lo hi jidOf r) (getlines (ipfwList l)) =
  List.filter (fun n => (lo <=? n) && (n <? hi) && negb (running (jidOf n) r)) (map fst l).
Proof.
  intros Hl. rewrite ipfwList_lines by done. induction Hl as [|x l Hx Hl IH]; [done|]. cbn [map flat_map List.filter].
  rewrite IH. unfold orphanOf at 1. rewrite leading_number by done.
  destruct (Z.ltb_spec (fst x) lo), (Z.leb_spec lo (fst x)), (Z.leb_spec hi (fst x)), (Z.ltb_spec (fst x) hi); try lia; cbn [orb andb]; try done.
  by destruct (running (jidOf (fst x)) r).
Qed.

End AutoFw.
