(* ===== verification/ThinJail.v ===== *)
(** * Thin jails: lib/thin_jail_pure.cpp

    [base/mode: host-ro] makes a crate that carries only the writable layer; at
    run time the host's userland directories are mounted over it read-only.  The
    list of directories is checked, kept in the [+CRATE.THIN] manifest and
    turned into a mount plan. *)

From Stdlib Require Import Permutation Sorted.
From S2P Require Import Prelude CStd OMap.

Module ThinJail.
Import CStd.

Definition defaultHostDirs : list bytes :=
  [str "/bin"; str "/sbin"; str "/lib"; str "/libexec"; str "/rescue";
   str "/usr/bin"; str "/usr/sbin"; str "/usr/lib"; str "/usr/lib32"; str "/usr/libexec";
   str "/usr/libdata"; str "/usr/share"; str "/usr/include"].

Definition isOptionalHostDir (dir : bytes) : bool :=
  beq dir (str "/usr/lib32") || beq dir (str "/rescue") || beq dir (str "/usr/include").

(** What a jail keeps for itself. *)
Definition writableLayer : list bytes :=
  [str "/etc"; str "/var"; str "/tmp"; str "/root"; str "/home"; str "/usr/local"; str "/usr/home";
   str "/dev"; str "/proc"; str "/mnt"; str "/media"].

Definition isOrUnder (path prefix : bytes) : bool :=
  beq path prefix
  || ((size_z prefix <? size_z path) && starts_with prefix path
      && match drop (length prefix) path with c :: _ => Ascii.eqb c "/" | [] => false end).

(** The component loop, from the byte after the first slash on. *)
Fixpoint componentLoop (dir : bytes) (comps : list bytes) : bytes :=
  match comps with
  | [] => []
  | comp :: rest =>
      if is_empty comp then str "'" ++ dir ++ str "' has an empty path component"
      else if beq comp (str ".") || beq comp (str "..") then
        str "'" ++ dir ++ str "' contains a '" ++ comp ++ str "' component"
      else componentLoop dir rest
  end.

Definition control (c : ascii) : bool := one_of [chr 9; newline; chr 13] c.

Definition validateHostDir (dir : bytes) : bytes :=
  match dir with
  | [] => str "empty path"
  | c0 :: rest =>
      if negb (Ascii.eqb c0 "/") then str "'" ++ dir ++ str "' is not an absolute path"
      else if beq dir (str "/") then str "'/' cannot be a host directory (mount the individual directories)"
      else if (1 <? size_z dir) && backIs "/" dir then str "'" ++ dir ++ str "' has a trailing slash"
      else if existsb control dir then str "'" ++ dir ++ str "' contains control characters"
      else guard_err [] (componentLoop dir (split_on "/" rest)) (
        if beq dir (str "/usr") then
          str "'/usr' would hide the jail's own /usr/local; list /usr/bin, /usr/lib, ... instead"
        else match List.find (isOrUnder dir) writableLayer with
        | Some w => str "'" ++ dir ++ str "' is part of the writable layer (" ++ w ++ str ") and cannot come from the host"
        | None => []
        end)
  end.

(** The first loop of [validateHostDirs]; [seen] holds the directories before. *)
Fixpoint eachDir (seen dirs : list bytes) : bytes :=
  match dirs with
  | [] => []
  | d :: rest =>
      match validateHostDir d with
      | [] => if existsb (beq d) seen then str "'" ++ d ++ str "' is listed twice" else eachDir (d :: seen) rest
      | e => e
      end
  end.

(** The first pair of the two nested loops in which one lies inside the other. *)
Definition nestedPair (dirs : list bytes) : option (bytes * bytes) :=
  List.find (fun ab => negb (beq (fst ab) (snd ab)) && isOrUnder (snd ab) (fst ab)) (list_prod dirs dirs).

Definition validateHostDirs (dirs : list bytes) : bytes :=
  if is_empty dirs then str "the host directory list is empty"
  else guard_err [] (eachDir [] dirs)
    match nestedPair dirs with
    | Some (a, b) => str "'" ++ b ++ str "' lies inside '" ++ a ++ str "' (the inner mount would be shadowed)"
    | None => []
    end.

Definition baseArchiveSkeletonMembers : list bytes := [str "./etc"; str "./var"; str "./root"; str "./tmp"].

Definition directoriesToCreate (hostDirs : list bytes) : list bytes :=
  fold_left (fun out d => if existsb (beq d) out then out else out ++ [d]) hostDirs
    [str "/dev"; str "/proc"; str "/media"; str "/mnt"; str "/home"; str "/usr"; str "/usr/local"].

Definition mountPlan `{StdSort} (jailPath : bytes) (hostDirs : list bytes) : list (bytes * bytes) :=
  map (fun d => (jailPath ++ d, d)) (std_sort bytes_ltb hostDirs).

(** ** The manifest *)

Record Manifest := { m_mode : bytes; m_osrelease : bytes; m_hostDirs : list bytes }.

Definition kManifestMaxBytes : Z := 64 * 1024.
Definition kHeader : bytes := str "# crate thin jail v1".
Definition tab : ascii := chr 9.

Definition serializeManifest (m : Manifest) : bytes :=
  kHeader ++ [newline]
  ++ str "mode" ++ [tab] ++ m_mode m ++ [newline]
  ++ str "osrelease" ++ [tab] ++ m_osrelease m ++ [newline]
  ++ concat (map (fun d => str "hostdir" ++ [tab] ++ d ++ [newline]) (m_hostDirs m)).

Definition chomp (line : bytes) : bytes := if backIs (chr 13) line then removelast line else line.

Definition lineErr (lineNo : Z) (e : bytes) : bytes := str "line " ++ dec lineNo ++ str ": " ++ e.

(** One [key\tvalue] line. *)
Definition manifestLine (lineNo : Z) (line : bytes) (m : Manifest) : bytes + Manifest :=
  match find_char tab line with
  | None => inl (lineErr lineNo (str "no tab separator"))
  | Some t =>
      let key := take t line in
      let val := drop (S t) line in
      if is_empty val then inl (lineErr lineNo (str "empty value for '" ++ key ++ str "'"))
      else if beq key (str "mode") then
        if negb (is_empty (m_mode m)) then inl (lineErr lineNo (str "duplicate mode"))
        else if negb (beq val (str "host-ro")) then inl (str "unsupported thin jail mode '" ++ val ++ str "'")
        else inr {| m_mode := val; m_osrelease := m_osrelease m; m_hostDirs := m_hostDirs m |}
      else if beq key (str "osrelease") then
        if negb (is_empty (m_osrelease m)) then inl (lineErr lineNo (str "duplicate osrelease"))
        else if existsb (one_of (str " /" ++ [tab])) val then inl (str "osrelease '" ++ val ++ str "' is not a release string")
        else inr {| m_mode := m_mode m; m_osrelease := val; m_hostDirs := m_hostDirs m |}
      else if beq key (str "hostdir") then
        match validateHostDir val with
        | [] => inr {| m_mode := m_mode m; m_osrelease := m_osrelease m; m_hostDirs := m_hostDirs m ++ [val] |}
        | e => inl (str "hostdir: " ++ e)
        end
      else inl (lineErr lineNo (str "unknown key '" ++ key ++ str "'"))
  end.

Fixpoint manifestLoop (lineNo : Z) (header : bool) (m : Manifest) (lines : list bytes) : bytes + (bool * Manifest) :=
  match lines with
  | [] => inr (header, m)
  | line0 :: rest =>
      let no := lineNo + 1 in
      match chomp line0 with
      | [] => manifestLoop no header m rest
      | c :: t =>
          if Ascii.eqb c "#" then
            manifestLoop no (if no =? 1 then beq (c :: t) kHeader else header) m rest
          else match manifestLine no (c :: t) m with
          | inl e => inl e
          | inr m' => manifestLoop no header m' rest
          end
      end
  end.

Definition parseManifest (content : bytes) : bytes + Manifest :=
  if kManifestMaxBytes <? size_z content then inl (str "manifest is too large")
  else match manifestLoop 0 false {| m_mode := []; m_osrelease := []; m_hostDirs := [] |} (getlines content) with
  | inl e => inl e
  | inr (header, m) =>
      if negb header then inl (str "missing '# crate thin jail v1' header")
      else if is_empty (m_mode m) then inl (str "missing mode")
      else if is_empty (m_osrelease m) then inl (str "missing osrelease")
      else match validateHostDirs (m_hostDirs m) with [] => inr m | e => inl e end
  end.

(** ** Releases *)

Definition majorMinor (osrelease : bytes) : bytes :=
  let '(maj, rest) := span is_digit osrelease in
  if is_empty maj then []
  else match rest with
  | c :: t =>
      if negb (Ascii.eqb c ".") then []
      else let '(mnr, _) := span is_digit t in if is_empty mnr then [] else maj ++ str "." ++ mnr
  | [] => []
  end.

Definition beforeDot (s : bytes) : bytes := match find_char "." s with Some i => take i s | None => s end.

Definition releaseMismatchWarning (created host : bytes) : bytes :=
  let c := majorMinor created in
  let h := majorMinor host in
  if is_empty c || is_empty h || beq c h then []
  else
    str "thin jail: the writable layer (/etc, /var) was extracted from FreeBSD " ++ created
    ++ str " but the host userland mounted into it is " ++ host ++ str "."
    ++ (if negb (beq (beforeDot c) (beforeDot h)) then
          str " Different major versions: rc.d scripts and /etc defaults may not drive these binaries;"
          ++ str " re-create the crate on this host (crate create) to refresh the writable layer."
        else str " Minor versions differ; re-create the crate when something in /etc misbehaves.").

(** * What the checks promise *)

Lemma isOrUnder_spec path prefix : isOrUnder path prefix = true <-> path = prefix \/ exists t, path = prefix ++ "/"%char :: t.
Proof.
  unfold isOrUnder. rewrite orb_true_iff, beq_eq, !andb_true_iff, Z.ltb_lt, starts_with_spec. split.
  - intros [->|[[Hl [t ->]] Ht]]; [by left|right]. rewrite drop_app_length in Ht. destruct t as [|c t]; [done|].
    apply Ascii.eqb_eq in Ht. subst c. eauto.
  - intros [->|[t ->]]; [by left|right]. rewrite drop_app_length, size_z_app, size_z_cons.
    pose proof (size_z_nonneg t). split; [split; [lia|eauto]|by apply Ascii.eqb_eq].
Qed.

(** A directory that passes has no control byte and lies neither on nor inside
    nor around anything of the jail's own. *)
Lemma hostDir_ok d : validateHostDir d = [] ->
  (exists t, d = "/"%char :: t /\ t <> []) /\ existsb control d = false /\
  Forall (fun w => isOrUnder d w = false) writableLayer.
Proof.
  unfold validateHostDir. destruct d as [|c t]; [done|]. destruct (Ascii.eqb_spec c "/") as [->|]; cbn [negb]; [|done].
  destruct (beq_spec ("/"%char :: t) (str "/")) as [|Hroot]; [done|]. destruct (_ && backIs _ _); [done|].
  destruct (existsb control ("/"%char :: t)) eqn:Ec; [done|]. intros [_ H]%guard_err_nil.
  destruct (beq _ (str "/usr")); [done|]. destruct (List.find _ writableLayer) as [w|] eqn:E; [done|].
  split; [exists t; split; [done|]; intros ->; done|]. split; [done|]. apply Forall_forall. intros w Hw.
  apply (find_none _ _ E). by apply list_elem_of_In.
Qed.

Lemma eachDir_ok seen dirs : eachDir seen dirs = [] ->
  Forall (fun d => validateHostDir d = []) dirs /\ NoDup dirs /\ Forall (fun d => ~ In d seen) dirs.
Proof.
  revert seen. induction dirs as [|d dirs IH]; intros seen; cbn [eachDir]; [repeat constructor|].
  destruct (validateHostDir d) eqn:E; [|done]. destruct (existsb (beq d) seen) eqn:Es; [done|].
  intros (H1 & H2 & H3)%IH. split; [by constructor|]. rewrite Forall_forall in H3. split.
  - constructor; [|done]. intros Hin. apply (H3 _ Hin). by left.
  - constructor.
    + intros Hin. apply not_true_iff_false in Es. apply Es, existsb_exists. exists d. by rewrite beq_refl.
    + apply Forall_forall. intros x Hx Hs. apply (H3 _ Hx). by right.
Qed.

Lemma hostDirs_ok dirs : validateHostDirs dirs = [] ->
  dirs <> [] /\ Forall (fun d => validateHostDir d = []) dirs /\ NoDup dirs /\
  (forall a b, In a dirs -> In b dirs -> a <> b -> isOrUnder b a = false).
Proof.
  unfold validateHostDirs. destruct (is_empty dirs) eqn:He; [done|]. apply is_empty_false in He.
  intros [(H1 & H2 & _)%eachDir_ok H3]%guard_err_nil. split; [done|]. split; [done|]. split; [done|].
  intros a b Ha Hb Hab. destruct (nestedPair dirs) as [[x y]|] eqn:E; [done|]. unfold nestedPair in E.
  pose proof (find_none _ _ E (a, b) ltac:(by apply in_prod)) as Hn. cbn [fst snd] in Hn. apply beq_neq in Hab. by rewrite Hab in Hn.
Qed.

Lemma prefix_ltb a t : t <> [] -> bytes_ltb a (a ++ t) = true.
Proof. induction a as [|x a IH]; cbn; [by destruct t|]. intros H. rewrite Z.ltb_irrefl. by apply IH. Qed.

(** The plan mounts each directory once, and a parent before what lies in it
    even for a list that was not checked. *)
Lemma mountPlan_order `{StdSort} jailPath dirs i j a b :
  snd <$> (mountPlan jailPath dirs !! i) = Some a -> snd <$> (mountPlan jailPath dirs !! j) = Some b ->
  a <> b -> isOrUnder b a = true -> (i < j)%nat.
Proof.
  unfold mountPlan. rewrite !list_lookup_fmap. intros Ha Hb Hne [->|[t ->]]%isOrUnder_spec; [done|].
  pose proof (std_sort_sorted bytes_ltb dirs bytes_ltb_weak) as Hs. set (l := std_sort bytes_ltb dirs) in *.
  destruct (l !! i) as [x|] eqn:Ei; [|done]. destruct (l !! j) as [y|] eqn:Ej; [|done]. cbn in Ha, Hb.
  injection Ha as ->. injection Hb as ->. destruct (Nat.lt_trichotomy i j) as [|[->|Hji]]; [done| |].
  - rewrite Ei in Ej. injection Ej as E. apply (f_equal length) in E. rewrite length_app in E. cbn in E. lia.
  - exfalso. pose proof (strongly_sorted_app_In (take i l) (drop i l)
      (fun x y => bytes_ltb y x = false) (a ++ "/"%char :: t) a) as Hss.
    rewrite take_drop in Hss. specialize (Hss Hs). cbn beta in Hss. rewrite prefix_ltb in Hss by done.
    assert (true = false) as C; [|done]. apply Hss.
    + apply list_elem_of_In, list_elem_of_lookup. exists j. by rewrite lookup_take_lt.
    + apply list_elem_of_In, list_elem_of_lookup. exists 0%nat. by rewrite lookup_drop, Nat.add_0_r.
Qed.

(** ** The manifest is read back *)

Definition releaseOk (r : bytes) : Prop :=
  r <> [] /\ existsb (one_of (str " /" ++ [tab])) r = false /\ ~ In newline r /\ backIs (chr 13) r = false.

Lemma existsb_not_In {A} (f : A -> bool) l x : existsb f l = false -> f x = true -> ~ In x l.
Proof. intros H Hx Hin. apply not_true_iff_false in H. apply H, existsb_exists. eauto. Qed.

Lemma key_line key val : ~ In tab key -> find_char tab (key ++ [tab] ++ val) = Some (length key) /\
  take (length key) (key ++ [tab] ++ val) = key /\ drop (S (length key)) (key ++ [tab] ++ val) = val.
Proof.
  intros H. split; [by apply find_char_app|]. rewrite take_app_length. split; [done|].
  rewrite app_assoc, drop_app_length'; [done|]. rewrite length_app. cbn. lia.
Qed.

Lemma chomp_keep a v : v <> [] -> backIs (chr 13) v = false -> chomp (a ++ v) = a ++ v.
Proof.
  intros Hne Hb. unfold chomp. destruct (backIs (chr 13) (a ++ v)) eqn:E; [|done].
  unfold backIs in E, Hb. rewrite back_app_ne in E by done. congruence.
Qed.

(** One step of the loop over a line that was written as [key\tvalue]. *)
Lemma loop_line no h m key val rest : key <> [] -> head key <> Some "#"%char -> ~ In tab key -> val <> [] -> backIs (chr 13) val = false ->
  manifestLoop no h m ((key ++ [tab] ++ val) :: rest) =
  match manifestLine (no + 1) (key ++ [tab] ++ val) m with inl e => inl e | inr m' => manifestLoop (no + 1) h m' rest end.
Proof.
  intros Hk Hh Ht Hv Hb. cbn [manifestLoop].
  assert (chomp (key ++ [tab] ++ val) = key ++ [tab] ++ val) as -> by (rewrite app_assoc; by apply chomp_keep).
  destruct key as [|c key]; [done|]. cbn [app]. destruct (Ascii.eqb_spec c "#") as [->|]; [done|]. done.
Qed.

Lemma hostdir_lines no h m ds : Forall (fun d => validateHostDir d = []) ds ->
  manifestLoop no h m (map (fun d => str "hostdir" ++ [tab] ++ d) ds) =
  inr (h, {| m_mode := m_mode m; m_osrelease := m_osrelease m; m_hostDirs := m_hostDirs m ++ ds |}).
Proof.
  intros Hd. revert no m. induction Hd as [|d ds Hd _ IH]; intros no m; cbn [map].
  - cbn [manifestLoop]. rewrite app_nil_r. by destruct m.
  - pose proof (hostDir_ok d Hd) as ((t & -> & Ht) & Hc & _).
    rewrite loop_line; [|done|done|absent|done|].
    + unfold manifestLine. destruct (key_line (str "hostdir") ("/"%char :: t)) as (-> & -> & ->);
        [absent|]. cbn [is_empty].
      change (beq (str "hostdir") (str "mode")) with false. change (beq (str "hostdir") (str "osrelease")) with false.
      rewrite beq_refl, Hd, IH. cbn [m_mode m_osrelease m_hostDirs]. by rewrite <- app_assoc.
    + destruct (backIs (chr 13) _) eqn:E; [|done]. apply backIs_spec in E as [u E]. exfalso.
      eapply (existsb_not_In control _ (chr 13)); [exact Hc|done|]. rewrite E. apply in_app_iff. right. by left.
Qed.

Lemma serialize_lines m : ~ In newline (m_mode m) -> ~ In newline (m_osrelease m) ->
  Forall (fun d => ~ In newline d) (m_hostDirs m) ->
  getlines (serializeManifest m) =
  kHeader :: (str "mode" ++ [tab] ++ m_mode m) :: (str "osrelease" ++ [tab] ++ m_osrelease m)
  :: map (fun d => str "hostdir" ++ [tab] ++ d) (m_hostDirs m).
Proof.
  intros Hm Ho Hd.
  assert (forall k v, ~ In newline k -> ~ In newline v -> ~ In newline (k ++ [tab] ++ v)) as Hl.
  { intros k v Hk Hv. rewrite !in_app_iff. intros [?|[[?|[]]|?]]; done. }
  assert (serializeManifest m = concat (map (fun l => l ++ [newline])
    (kHeader :: (str "mode" ++ [tab] ++ m_mode m) :: (str "osrelease" ++ [tab] ++ m_osrelease m)
      :: map (fun d => str "hostdir" ++ [tab] ++ d) (m_hostDirs m)))) as ->.
  { unfold serializeManifest. cbn [map concat]. rewrite map_map.
    by rewrite <- !app_assoc. }
  apply getlines_concat. constructor; [absent|].
  constructor; [apply Hl; [absent|done]|].
  constructor; [apply Hl; [absent|done]|].
  apply Forall_map. eapply Forall_impl; [exact Hd|]. intros d Hdn. apply Hl; [|done].
  absent.
Qed.

(** ** Directories that do not meet

    Stated on path components, apart from the tests of the code. *)

Definition comps (p : bytes) : list bytes := split_on "/" (tl p).

(** Neither is, or lies inside, the other. *)
Definition apart (p q : bytes) : Prop := ~ comps p `prefix_of` comps q /\ ~ comps q `prefix_of` comps p.

(** An absolute path below the root, written in one way only. *)
Definition plainPath (p : bytes) : Prop :=
  (exists t, p = "/"%char :: t /\ t <> []) /\ Forall (fun c => c <> [] /\ c <> str "." /\ c <> str "..") (comps p).

(** What the jail keeps for itself, as the documentation lists it. *)
Definition ownDirs : list bytes :=
  [str "/etc"; str "/var"; str "/tmp"; str "/root"; str "/home"; str "/usr/local"; str "/usr/home";
   str "/dev"; str "/proc"; str "/mnt"; str "/media"].

Lemma concat_intersperse c l r : l <> [] -> r <> [] ->
  concat (intersperse_head c (l ++ r)) = concat (intersperse_head c l) ++ c :: concat (intersperse_head c r).
Proof.
  intros Hl Hr. destruct l as [|x l]; [done|]. destruct r as [|z r]; [done|].
  cbn [app intersperse_head concat]. rewrite map_app, concat_app. by rewrite <- !app_assoc.
Qed.

Lemma prefix_isOrUnder a b : (exists t, a = "/"%char :: t) -> (exists t, b = "/"%char :: t) ->
  comps a `prefix_of` comps b -> isOrUnder b a = true.
Proof.
  intros [x ->] [y ->] [r E]. unfold comps in E. cbn [tl] in E. apply isOrUnder_spec.
  rewrite (split_on_join "/" y), E. destruct r as [|z r].
  - rewrite app_nil_r, <- split_on_join. by left.
  - right. exists (concat (intersperse_head "/" (z :: r))). rewrite concat_intersperse by (apply split_on_ne || done).
    by rewrite <- split_on_join.
Qed.

Lemma componentLoop_ok d cs : componentLoop d cs = [] -> Forall (fun c => c <> [] /\ c <> str "." /\ c <> str "..") cs.
Proof.
  induction cs as [|c cs IH]; cbn [componentLoop]; [constructor|]. destruct (is_empty c) eqn:E0; [done|].
  destruct (beq_spec c (str ".")); [done|]. destruct (beq_spec c (str "..")); [done|]. intros H%IH. constructor; [|done].
  by apply is_empty_false in E0.
Qed.

Lemma comps_path d cs : (exists t, d = "/"%char :: t) -> comps d = cs -> d = "/"%char :: concat (intersperse_head "/" cs).
Proof. intros [t ->] <-. unfold comps. cbn [tl]. by rewrite <- split_on_join. Qed.

(** A directory that passes is plain and apart from all that is the jail's. *)
Lemma hostDir_apart d : validateHostDir d = [] -> plainPath d /\ Forall (apart d) ownDirs.
Proof.
  intros V. destruct (hostDir_ok d V) as ((t & -> & Ht) & Hc & Hw). unfold validateHostDir in V. cbn [Ascii.eqb negb] in V.
  change (Ascii.eqb "/" "/") with true in V. cbn [negb] in V.
  destruct (beq_spec ("/"%char :: t) (str "/")) as [|_]; [done|]. destruct (_ && backIs _ _); [done|]. rewrite Hc in V.
  apply guard_err_nil in V as [Hl V]. apply componentLoop_ok in Hl. split; [split; [by exists t|done]|].
  destruct (beq_spec ("/"%char :: t) (str "/usr")) as [|Hu]; [done|]. change ownDirs with writableLayer.
  apply Forall_forall. intros w Hin. rewrite Forall_forall in Hw. specialize (Hw w Hin).
  assert (Habs : exists x, w = "/"%char :: x) by (apply list_elem_of_In in Hin; cbn in Hin; intuition (subst; by eexists)).
  split; [|intros P; apply prefix_isOrUnder in P; [congruence|done|by exists t]].
  intros [r E]. assert (Hd : forall cs, comps ("/"%char :: t) = cs -> "/"%char :: t = "/"%char :: concat (intersperse_head "/" cs))
    by (intros cs; apply comps_path; by exists t).
  pose proof (split_on_ne "/" t) as Hne. unfold comps in E, Hd. cbn [tl] in E, Hd.
  destruct (split_on "/" t) as [|c1 cs] eqn:Es; [done|]. specialize (Hd _ eq_refl).
  assert (Self : "/"%char :: t = w -> False) by (intros Ew; rewrite <- Ew in Hw; unfold isOrUnder in Hw; by rewrite beq_refl in Hw).
  apply list_elem_of_In in Hin. cbn [writableLayer In] in Hin.
  repeat (destruct Hin as [<-|Hin]; [cbn in E; destruct cs as [|c2 [|c3 cs]]; cbn in E;
    repeat match type of E with _ :: _ = _ :: _ => injection E as ? E | _ => idtac end; subst; try discriminate;
    rewrite ?app_nil_r in Hd; cbn in Hd; first [by apply Self | by apply Hu | done]|]). done.
Qed.

(** C15: The manifest [crate create] writes into a thin crate is read back by
    [crate run] exactly as it was (when it has mode host-ro, a release string
    without blanks, slashes and line ends, a list of directories that passes
    validation, and at most 64 KiB).  And whatever manifest is read, every
    directory it has mounted is absolute, below the root and written without
    empty, dot and dot-dot components; it is none of the directories that are the
    jail's own (/etc, /var, /tmp, /root, /home, /usr/local, /usr/home, /dev,
    /proc, /mnt, /media), lies in none of them and contains none of them; and
    none is listed twice or lies inside another. *)
Theorem manifest_roundtrip_and_safe m :
  m_mode m = str "host-ro" -> releaseOk (m_osrelease m) -> validateHostDirs (m_hostDirs m) = [] ->
  size_z (serializeManifest m) <= kManifestMaxBytes ->
  parseManifest (serializeManifest m) = inr m
  /\ forall content m', parseManifest content = inr m' ->
       Forall (fun d => plainPath d /\ Forall (apart d) ownDirs) (m_hostDirs m')
       /\ NoDup (m_hostDirs m') /\ forall a b, In a (m_hostDirs m') -> In b (m_hostDirs m') -> a <> b -> apart a b.
Proof.
  intros Hm (Hr1 & Hr2 & Hr3 & Hr4) Hd Hsz. split.
  - pose proof (hostDirs_ok _ Hd) as (_ & Hall & _ & _).
    unfold parseManifest. destruct (Z.ltb_spec kManifestMaxBytes (size_z (serializeManifest m))); [lia|].
    rewrite serialize_lines; [|rewrite Hm; absent|done|].
    2: { eapply Forall_impl; [exact Hall|]. intros d (_ & Hc & _)%hostDir_ok. by eapply existsb_not_In. }
    change (manifestLoop 0 false ?m0 (kHeader :: ?r)) with (manifestLoop 1 true m0 r).
    rewrite Hm. change (manifestLoop 1 true ?m0 (_ :: ?r)) with
      (manifestLoop 2 true {| m_mode := str "host-ro"; m_osrelease := []; m_hostDirs := [] |} r).
    rewrite loop_line; [|done|done|absent|done|done].
    unfold manifestLine. destruct (key_line (str "osrelease") (m_osrelease m)) as (-> & -> & ->);
      [absent|]. apply is_empty_false in Hr1. rewrite Hr1.
    change (beq (str "osrelease") (str "mode")) with false. rewrite beq_refl. cbn [m_mode m_osrelease m_hostDirs is_empty negb].
    rewrite Hr2, hostdir_lines by done. cbn [m_mode m_osrelease m_hostDirs app negb is_empty]. rewrite Hr1, Hd. destruct m; cbn in *; by subst.
  - intros content m'. unfold parseManifest. destruct (_ <? _); [done|]. destruct (manifestLoop _ _ _ _) as [|[h k]]; [done|].
    destruct h; [|done]. destruct (is_empty _); [done|]. destruct (is_empty _); [done|]. cbn [negb].
    destruct (validateHostDirs (m_hostDirs k)) eqn:E; [|done]. intros [= <-]. apply hostDirs_ok in E as (_ & Ha & Hnd & Hn).
    rewrite Forall_forall in Ha. split; [|split; [done|]].
    + apply Forall_forall. intros d Hin. by apply hostDir_apart, Ha.
    + assert (Abs : forall x, In x (m_hostDirs k) -> exists t, x = "/"%char :: t).
      { intros x Hx%list_elem_of_In%Ha%hostDir_ok. destruct Hx as ((t & -> & _) & _). by exists t. }
      intros a b Hia Hib Hab. split; intros P; apply prefix_isOrUnder in P; auto; [rewrite Hn in P|rewrite Hn in P]; done || by auto.
Qed.

Lemma manifest_roundtrip_and_safe_witness :
  parseManifest (serializeManifest {| m_mode := str "host-ro"; m_osrelease := str "14.2-RELEASE-p3"; m_hostDirs := defaultHostDirs |})
  = inr {| m_mode := str "host-ro"; m_osrelease := str "14.2-RELEASE-p3"; m_hostDirs := defaultHostDirs |}.
Proof.
  apply (manifest_roundtrip_and_safe {| m_mode := str "host-ro"; m_osrelease := str "14.2-RELEASE-p3"; m_hostDirs := defaultHostDirs |});
    [reflexivity| |vm_compute; reflexivity|vm_compute; discriminate].
  repeat split; [discriminate|vm_compute; intuition discriminate].
Defined.

End ThinJail.
