(* ===== verification/SpecParts.v ===== *)
(** * Parts of a spec: lib/privacy_pure.cpp, devices_pure.cpp, compositor_pure.cpp, wireguard_runtime_pure.cpp, ipsec_runtime_pure.cpp

    The small modules that the spec parser and the runtime share. *)

From S2P Require Import Prelude CStd NetAddr.

(** ** What a jail says about the machine: lib/privacy_pure.cpp

    The host id and host name a jail presents, and the MD5 by which the kernel
    derives the numeric host id from the UUID. *)


Module Privacy.
Import CStd.

Inductive Mode := Host | Random | Fixed.

Definition lower (s : bytes) : bytes := map tolower s.

(** ** MD5 *)

Record Md5 := { ma : Z; mb : Z; mc : Z; md : Z; len : Z; buf : bytes }.

Definition init : Md5 :=
  {| ma := 0x67452301; mb := 0xefcdab89; mc := 0x98badcfe; md := 0x10325476; len := 0; buf := [] |}.

Definition rol (x s : Z) : Z := Z.lor (u32 (Z.shiftl x s)) (Z.shiftr x (32 - s)).

Definition K : list Z := [
  0xd76aa478; 0xe8c7b756; 0x242070db; 0xc1bdceee; 0xf57c0faf; 0x4787c62a; 0xa8304613; 0xfd469501;
  0x698098d8; 0x8b44f7af; 0xffff5bb1; 0x895cd7be; 0x6b901122; 0xfd987193; 0xa679438e; 0x49b40821;
  0xf61e2562; 0xc040b340; 0x265e5a51; 0xe9b6c7aa; 0xd62f105d; 0x02441453; 0xd8a1e681; 0xe7d3fbc8;
  0x21e1cde6; 0xc33707d6; 0xf4d50d87; 0x455a14ed; 0xa9e3e905; 0xfcefa3f8; 0x676f02d9; 0x8d2a4c8a;
  0xfffa3942; 0x8771f681; 0x6d9d6122; 0xfde5380c; 0xa4beea44; 0x4bdecfa9; 0xf6bb4b60; 0xbebfbc70;
  0x289b7ec6; 0xeaa127fa; 0xd4ef3085; 0x04881d05; 0xd9d4d039; 0xe6db99e5; 0x1fa27cf8; 0xc4ac5665;
  0xf4292244; 0x432aff97; 0xab9423a7; 0xfc93a039; 0x655b59c3; 0x8f0ccc92; 0xffeff47d; 0x85845dd1;
  0x6fa87e4f; 0xfe2ce6e0; 0xa3014314; 0x4e0811a1; 0xf7537e82; 0xbd3af235; 0x2ad7d2bb; 0xeb86d391].

Definition S : list Z :=
  [7; 12; 17; 22; 7; 12; 17; 22; 7; 12; 17; 22; 7; 12; 17; 22;
   5; 9; 14; 20; 5; 9; 14; 20; 5; 9; 14; 20; 5; 9; 14; 20;
   4; 11; 16; 23; 4; 11; 16; 23; 4; 11; 16; 23; 4; 11; 16; 23;
   6; 10; 15; 21; 6; 10; 15; 21; 6; 10; 15; 21; 6; 10; 15; 21].

Definition at_ (l : list Z) (i : nat) : Z := default 0 (l !! i).

(** [M[i]]: the block's words, least significant byte first. *)
Fixpoint blockWords (n : nat) (p : bytes) : list Z :=
  match n, p with
  | Datatypes.S k, a :: b :: c :: d :: t =>
      Z.lor (Z.lor (Z.lor (code a) (Z.shiftl (code b) 8)) (Z.shiftl (code c) 16)) (u32 (Z.shiftl (code d) 24)) :: blockWords k t
  | _, _ => []
  end.

Definition not32 (x : Z) : Z := u32 (Z.lnot x).

(** The round function and the index of the word it takes. *)
Definition roundF (i : nat) (B C D : Z) : Z * nat :=
  if (i <? 16)%nat then (Z.lor (Z.land B C) (Z.land (not32 B) D), i)
  else if (i <? 32)%nat then (Z.lor (Z.land D B) (Z.land (not32 D) C), ((5 * i + 1) mod 16)%nat)
  else if (i <? 48)%nat then (Z.lxor (Z.lxor B C) D, ((3 * i + 5) mod 16)%nat)
  else (Z.lxor C (Z.lor B (not32 D)), ((7 * i) mod 16)%nat).

Definition round (M : list Z) (st : Z * Z * Z * Z) (i : nat) : Z * Z * Z * Z :=
  let '(A, B, C, D) := st in
  let '(F, g) := roundF i B C D in
  (D, u32 (B + rol (u32 (A + F + at_ K i + at_ M g)) (at_ S i)), B, C).

Definition block (p : bytes) (h : Z * Z * Z * Z) : Z * Z * Z * Z :=
  let '(a, b, c, d) := h in
  let '(A, B, C, D) := fold_left (round (blockWords 16 p)) (List.seq 0 64) h in
  (u32 (a + A), u32 (b + B), u32 (c + C), u32 (d + D)).

Definition words4 (m : Md5) : Z * Z * Z * Z := (ma m, mb m, mc m, md m).
Definition withWords (h : Z * Z * Z * Z) (n : Z) (b : bytes) : Md5 :=
  let '(a, b0, c, d) := h in {| ma := a; mb := b0; mc := c; md := d; len := n; buf := b |}.

(** The [while (n > 0)] loop.  The buffer always has room, so every round takes
    at least one byte and the length of the data is enough fuel. *)
Fixpoint updateLoop (fuel : nat) (h : Z * Z * Z * Z) (b p : bytes) : (Z * Z * Z * Z) * bytes :=
  match fuel, p with
  | Datatypes.S f, _ :: _ =>
      let n := Nat.min (64 - length b) (length p) in
      let b' := b ++ take n p in
      if (length b' =? 64)%nat then updateLoop f (block b' h) [] (drop n p) else updateLoop f h b' (drop n p)
  | _, _ => (h, b)
  end.

Definition update (m : Md5) (p : bytes) : Md5 :=
  let '(h, b) := updateLoop (length p) (words4 m) (buf m) p in withWords h (u64 (len m + size_z p)) b.

(** [while (bufLen != 56) update(&zero, 1);]: at most 63 rounds. *)
Fixpoint padLoop (fuel : nat) (m : Md5) : Md5 :=
  match fuel with
  | O => m
  | Datatypes.S f => if (length (buf m) =? 56)%nat then m else padLoop f (update m [nul])
  end.

Definition lenBytes (bits : Z) : bytes := map (fun i => chr (Z.shiftr bits (8 * i))) [0; 1; 2; 3; 4; 5; 6; 7].

Definition hexPair (w i : Z) : bytes :=
  let byte := u8 (Z.shiftr w (8 * i)) in
  let hx := str "0123456789abcdef" in
  [default nul (hx !! Z.to_nat (Z.shiftr byte 4)); default nul (hx !! Z.to_nat (Z.land byte 15))].

Definition hexWord (w : Z) : bytes := flat_map (hexPair w) [0; 1; 2; 3].

Definition finish (m : Md5) : bytes :=
  let bits := u64 (len m * 8) in
  let m1 := update m [chr 0x80] in
  let m2 := update (padLoop 64 m1) (lenBytes bits) in
  flat_map hexWord [ma m2; mb m2; mc m2; md m2].

Definition md5Hex (data : bytes) : bytes := finish (update init data).

(** ** Host id and host name *)

Definition dashAt (i : nat) : bool := (i =? 8)%nat || (i =? 13)%nat || (i =? 18)%nat || (i =? 23)%nat.

Definition isUuid (s : bytes) : bool :=
  (size_z s =? 36)
  && forallb (fun ic => if dashAt (fst ic) then Ascii.eqb (snd ic) "-" else is_hex (snd ic)) (combine (List.seq 0 36) s).

Definition parseHostid (text : bytes) : bytes + (Mode * bytes) :=
  if is_empty text || beq text (str "host") then inr (Host, [])
  else if beq text (str "random") then inr (Random, [])
  else if isUuid text then inr (Fixed, lower text)
  else inl (str "privacy/hostid: '" ++ text ++ str "' is not 'host', 'random' or a UUID (xxxxxxxx-xxxx-xxxx-xxxx-xxxxxxxxxxxx)").

Definition parseHostname (text : bytes) : bytes + (Mode * bytes) :=
  if is_empty text || beq text (str "host") then inr (Host, [])
  else if beq text (str "random") then inr (Random, [])
  else if (size_z text <=? 255) && NetAddr.isHostname text then inr (Fixed, text)
  else inl (str "privacy/hostname: '" ++ text ++ str "' is not 'host', 'random' or a host name").

Definition hexDigitVal (c : ascii) : Z := if 97 <=? code c then code c - 97 + 10 else code c - 48.

Definition uuidFromHex (hex32 : bytes) : bytes :=
  if negb (size_z hex32 =? 32) then []
  else if negb (forallb is_hex hex32) then []
  else
    let h0 := <[12%nat := "4"%char]> (lower hex32) in
    let v := hexDigitVal (default nul (h0 !! 16%nat)) in
    let h := <[16%nat := default nul (str "89ab" !! Z.to_nat (Z.land v 3))]> h0 in
    take 8 h ++ str "-" ++ take 4 (drop 8 h) ++ str "-" ++ take 4 (drop 12 h) ++ str "-"
    ++ take 4 (drop 16 h) ++ str "-" ++ take 12 (drop 20 h).

(** The accumulator is an [unsigned long]; eight digits fit. *)
Definition hostidFromUuid (uuid : bytes) : Z :=
  fold_left (fun v c => Z.lor (u64 (Z.shiftl v 4)) (hexDigitVal c)) (take 8 (md5Hex uuid)) 0.

Definition randomHostname (hex : bytes) : bytes := str "crate-" ++ lower (take 8 hex).

Definition jailParams (uuid : bytes) : list bytes :=
  if is_empty uuid then [] else [str "host.hostuuid=" ++ uuid; str "host.hostid=" ++ dec (hostidFromUuid uuid)].

Definition hostidFileContent (uuid : bytes) : bytes := uuid ++ [newline].

(** * MD5 follows the standard *)

(** The test suite of RFC 1321. *)
Example md5_rfc1321 :
  md5Hex [] = str "d41d8cd98f00b204e9800998ecf8427e"
  /\ md5Hex (str "message digest") = str "f96b697d7cb7938d525a2f31aaf161d0"
  /\ md5Hex (str "12345678901234567890123456789012345678901234567890123456789012345678901234567890")
     = str "57edf4a22be3c955ac49da2e2107b67a".
Proof. vm_compute. repeat split. Qed.

(** RFC 1321, section 3.4: the four auxiliary functions and the sixteen steps
    [[abcd k s i]] of each round, with [T[i]] the table of sines. *)
Definition rfcF (x y z : Z) : Z := Z.lor (Z.land x y) (Z.land (not32 x) z).
Definition rfcG (x y z : Z) : Z := Z.lor (Z.land x z) (Z.land y (not32 z)).
Definition rfcH (x y z : Z) : Z := Z.lxor (Z.lxor x y) z.
Definition rfcI (x y z : Z) : Z := Z.lxor y (Z.lor x (not32 z)).

Definition rfcSteps : list ((Z -> Z -> Z -> Z) * nat * Z) :=
  map (fun ks => (rfcF, fst ks, snd ks))
    (combine [0; 1; 2; 3; 4; 5; 6; 7; 8; 9; 10; 11; 12; 13; 14; 15]%nat (concat (replicate 4 [7; 12; 17; 22])))
  ++ map (fun ks => (rfcG, fst ks, snd ks))
    (combine [1; 6; 11; 0; 5; 10; 15; 4; 9; 14; 3; 8; 13; 2; 7; 12]%nat (concat (replicate 4 [5; 9; 14; 20])))
  ++ map (fun ks => (rfcH, fst ks, snd ks))
    (combine [5; 8; 11; 14; 1; 4; 7; 10; 13; 0; 3; 6; 9; 12; 15; 2]%nat (concat (replicate 4 [4; 11; 16; 23])))
  ++ map (fun ks => (rfcI, fst ks, snd ks))
    (combine [0; 7; 14; 5; 12; 3; 10; 1; 8; 15; 6; 13; 4; 11; 2; 9]%nat (concat (replicate 4 [6; 10; 15; 21]))).

(** [a = b + ((a + F(b,c,d) + X[k] + T[i]) <<< s)]; the next step has its
    registers turned by one. *)
Definition rfcStep (X : list Z) (st : Z * Z * Z * Z) (step : (Z -> Z -> Z -> Z) * nat * Z * Z) : Z * Z * Z * Z :=
  let '(a, b, c, d) := st in
  let '(f, k, s, t) := step in
  (d, u32 (b + rol (u32 (a + f b c d + t + at_ X k)) s), b, c).

Definition rfcBlock (p : bytes) (h : Z * Z * Z * Z) : Z * Z * Z * Z :=
  let '(a, b, c, d) := h in
  let '(A, B, C, D) := fold_left (rfcStep (blockWords 16 p)) (combine rfcSteps K) h in
  (u32 (a + A), u32 (b + B), u32 (c + C), u32 (d + D)).

(** The message padded with a one bit, zeros and its bit length, 64 bytes at a
    time. *)
Definition padded (data : bytes) : bytes :=
  data ++ [chr 0x80] ++ replicate (Z.to_nat ((55 - size_z data) mod 64)) nul ++ lenBytes (u64 (size_z data * 8)).

Fixpoint absorb (comp : bytes -> Z * Z * Z * Z -> Z * Z * Z * Z) (fuel : nat) (h : Z * Z * Z * Z) (s : bytes) : (Z * Z * Z * Z) * bytes :=
  match fuel with
  | O => (h, s)
  | Datatypes.S f => if (64 <=? length s)%nat then absorb comp f (comp (take 64 s) h) (drop 64 s) else (h, s)
  end.

Definition rfcMd5 (data : bytes) : bytes :=
  let p := padded data in
  let '(a, b, c, d) := fst (absorb rfcBlock (length p) (0x67452301, 0xefcdab89, 0x98badcfe, 0x10325476) p) in
  flat_map hexWord [a; b; c; d].

Definition roundFn (i : nat) : Z -> Z -> Z -> Z :=
  if (i <? 16)%nat then rfcF else if (i <? 32)%nat then rfcG else if (i <? 48)%nat then rfcH else rfcI.

Lemma steps_table : combine rfcSteps K = map (fun i => (roundFn i, snd (roundF i 0 0 0), at_ S i, at_ K i)) (List.seq 0 64).
Proof. cbv -[rfcF rfcG rfcH rfcI]. reflexivity. Qed.

Lemma fold_left_map {A B C} (f : A -> B -> A) (g : C -> B) l a : fold_left f (map g l) a = fold_left (fun x c => f x (g c)) l a.
Proof. revert a. induction l as [|c l IH]; intros a; [done|]. cbn. apply IH. Qed.

Lemma fold_left_ext {A B} (f g : A -> B -> A) l a : (forall a b, f a b = g a b) -> fold_left f l a = fold_left g l a.
Proof. intros H. revert a. induction l as [|b l IH]; intros a; [done|]. cbn. by rewrite H, IH. Qed.

Lemma block_rfc p h : block p h = rfcBlock p h.
Proof.
  unfold block, rfcBlock. destruct h as [[[a b] c] d]. rewrite steps_table, fold_left_map.
  rewrite (fold_left_ext (round (blockWords 16 p)) (fun x i => rfcStep (blockWords 16 p) x (roundFn i, snd (roundF i 0 0 0), at_ S i, at_ K i))); [done|].
  intros [[[x y] z] w] i. unfold round, rfcStep, roundF, roundFn.
  destruct (i <? 16)%nat; [done|]. destruct (i <? 32)%nat; [|by destruct (i <? 48)%nat].
  cbn [snd]. unfold rfcG. by rewrite (Z.land_comm y w), (Z.land_comm z (not32 w)).
Qed.

(** ** The buffered loop is the loop over whole blocks *)

Lemma absorb_fuel comp f g h s : (length s <= f)%nat -> (length s <= g)%nat -> absorb comp f h s = absorb comp g h s.
Proof.
  revert g h s. induction f as [|f IH]; intros g h s Hf Hg.
  - destruct s; [|cbn in Hf; lia]. by destruct g.
  - destruct g as [|g]; [destruct s; [done|cbn in Hg; lia]|]. cbn [absorb]. destruct (Nat.leb_spec 64 (length s)); [|done].
    apply IH; rewrite length_drop; lia.
Qed.

Definition absorbAll (comp : bytes -> Z * Z * Z * Z -> Z * Z * Z * Z) (h : Z * Z * Z * Z) (s : bytes) := absorb comp (length s) h s.

Lemma absorbAll_step comp h s : (64 <= length s)%nat -> absorbAll comp h s = absorbAll comp (comp (take 64 s) h) (drop 64 s).
Proof.
  intros H. unfold absorbAll. destruct (length s) as [|n] eqn:E; [lia|]. cbn [absorb]. rewrite E. destruct (Nat.leb_spec 64 (Datatypes.S n)); [|lia].
  apply absorb_fuel; rewrite length_drop; lia.
Qed.

Lemma absorbAll_small comp h s : (length s < 64)%nat -> absorbAll comp h s = (h, s).
Proof.
  intros H. unfold absorbAll. destruct (length s) as [|n] eqn:E; [done|]. cbn [absorb]. rewrite E. by destruct (Nat.leb_spec 64 (Datatypes.S n)); [lia|].
Qed.

Lemma absorbAll_app comp h a b h' r : absorbAll comp h a = (h', r) -> absorbAll comp h (a ++ b) = absorbAll comp h' (r ++ b).
Proof.
  remember (length a) as n eqn:Hn. revert a h Hn. induction n as [n IH] using lt_wf_ind. intros a h Hn.
  destruct (le_lt_dec 64 (length a)) as [Hl|Hl].
  - rewrite absorbAll_step by done. intros E. rewrite absorbAll_step by (rewrite length_app; lia).
    rewrite take_app_le, drop_app_le by done. eapply IH; [|reflexivity|exact E]. rewrite length_drop. lia.
  - rewrite absorbAll_small by done. by intros [= <- <-].
Qed.

Lemma absorbAll_rest comp h s : length (snd (absorbAll comp h s)) = (length s mod 64)%nat.
Proof.
  remember (length s) as n eqn:Hn. revert s h Hn. induction n as [n IH] using lt_wf_ind. intros s h Hn.
  destruct (le_lt_dec 64 (length s)) as [Hl|Hl].
  - rewrite absorbAll_step by done. rewrite (IH (length (drop 64 s))); [|rewrite length_drop; lia|done]. rewrite length_drop, Hn.
    rewrite <- (Nat.Div0.mod_add (length s - 64) 1). f_equal. lia.
  - rewrite absorbAll_small, Hn by done. cbn [snd]. by rewrite Nat.mod_small.
Qed.

Lemma updateLoop_spec fuel h b p : (length b < 64)%nat -> (length p <= fuel)%nat -> updateLoop fuel h b p = absorbAll block h (b ++ p).
Proof.
  revert h b p. induction fuel as [|f IH]; intros h b p Hb Hp.
  - destruct p; [|cbn in Hp; lia]. by rewrite app_nil_r, absorbAll_small.
  - destruct p as [|x p]; [by rewrite app_nil_r, absorbAll_small|]. set (q := x :: p) in *.
    change (updateLoop (Datatypes.S f) h b q) with (let n := Nat.min (64 - length b) (length q) in let b' := b ++ take n q in
      if (length b' =? 64)%nat then updateLoop f (block b' h) [] (drop n q) else updateLoop f h b' (drop n q)). cbv zeta.
    set (n := Nat.min (64 - length b) (length q)). assert (Hn : (1 <= n)%nat) by (subst n q; cbn; lia).
    assert (Hlen : length (b ++ take n q) = (length b + n)%nat) by (rewrite length_app, length_take; subst n; lia).
    destruct (Nat.eqb_spec (length (b ++ take n q)) 64) as [E|E].
    + rewrite IH; [|cbn; lia|rewrite length_drop; lia]. rewrite (absorbAll_step _ _ (b ++ q)) by (rewrite length_app; lia).
      assert (b ++ q = (b ++ take n q) ++ drop n q) as -> by (by rewrite <- app_assoc, take_drop).
      by rewrite take_app_length', drop_app_length' by done.
    + rewrite IH by (rewrite ?length_drop; lia). by rewrite <- app_assoc, take_drop.
Qed.

(** The state after the bytes [s], as the hash sees it. *)
Definition holds (m : Md5) (h0 : Z * Z * Z * Z) (s : bytes) : Prop := absorbAll block h0 s = (words4 m, buf m).

Lemma withWords_words h n b : words4 (withWords h n b) = h /\ buf (withWords h n b) = b /\ len (withWords h n b) = n.
Proof. by destruct h as [[[? ?] ?] ?]. Qed.

Lemma update_holds m h0 s p : holds m h0 s -> holds (update m p) h0 (s ++ p) /\ len (update m p) = u64 (len m + size_z p).
Proof.
  intros Hm. unfold holds in *. assert (Hb : (length (buf m) < 64)%nat).
  { pose proof (absorbAll_rest block h0 s) as E. rewrite Hm in E. cbn [snd] in E. rewrite E. apply Nat.mod_upper_bound. lia. }
  unfold update. rewrite updateLoop_spec by done. rewrite (absorbAll_app _ _ _ _ _ _ Hm).
  destruct (absorbAll block (words4 m) (buf m ++ p)) as [h b]. destruct (withWords_words h (u64 (len m + size_z p)) b) as (-> & -> & ->). done.
Qed.

Lemma padLoop_holds k m h0 s : holds m h0 s -> (Z.to_nat ((56 - Z.of_nat (length s)) mod 64) <= k)%nat ->
  holds (padLoop k m) h0 (s ++ replicate (Z.to_nat ((56 - Z.of_nat (length s)) mod 64)) nul).
Proof.
  revert m s. induction k as [|k IH]; intros m s Hm Hk.
  - replace (Z.to_nat _) with 0%nat by lia. cbn. by rewrite app_nil_r.
  - assert (Hb : length (buf m) = (length s mod 64)%nat).
    { pose proof (absorbAll_rest block h0 s) as E. unfold holds in Hm. by rewrite Hm in E. }
    cbn [padLoop]. rewrite Hb. destruct (Nat.eqb_spec (length s mod 64) 56) as [E|E].
    + replace (Z.to_nat _) with 0%nat; [cbn; by rewrite app_nil_r|].
      apply (f_equal Z.of_nat) in E. rewrite Nat2Z.inj_mod in E. Z.to_euclidean_division_equations; lia.
    + assert (E2 : Z.to_nat ((56 - Z.of_nat (length s)) mod 64) = Datatypes.S (Z.to_nat ((56 - Z.of_nat (length (s ++ [nul]))) mod 64))).
      { rewrite length_app. cbn [length]. assert (Z.of_nat (length s) mod 64 <> 56) by (intros C; apply E; apply Nat2Z.inj; by rewrite Nat2Z.inj_mod).
        rewrite Nat2Z.inj_add. Z.to_euclidean_division_equations; lia. }
      rewrite E2 in *. cbn [replicate]. change (nul :: ?r) with ([nul] ++ r). rewrite app_assoc.
      apply IH; [by apply update_holds|lia].
Qed.

(** [md5Hex] computes the MD5 of RFC 1321 for every input. *)
Theorem md5Hex_standard data : md5Hex data = rfcMd5 data.
Proof.
  set (h0 := (0x67452301, 0xefcdab89, 0x98badcfe, 0x10325476)).
  assert (H0 : holds init h0 []) by done.
  destruct (update_holds _ _ _ data H0) as [H1 L1]. cbn [app] in H1.
  unfold md5Hex, finish, rfcMd5. set (m := update init data) in *.
  destruct (update_holds _ _ _ [chr 0x80] H1) as [H2 _].
  pose proof (padLoop_holds 64 _ _ _ H2 ltac:(Z.to_euclidean_division_equations; lia)) as H3.
  assert (Hl : u64 (len m * 8) = u64 (size_z data * 8)).
  { rewrite L1. cbn [len init]. unfold u64. by rewrite Z.add_0_l, Zmult_mod_idemp_l. }
  destruct (update_holds _ _ _ (lenBytes (u64 (len m * 8))) H3) as [H4 _].
  assert (Hp : ((data ++ [chr 128]) ++ replicate (Z.to_nat ((56 - Z.of_nat (length (data ++ [chr 128]))) mod 64)) nul)
    ++ lenBytes (u64 (len m * 8)) = padded data).
  { unfold padded. rewrite Hl, <- !app_assoc, length_app. cbn [length]. unfold size_z.
    by replace (56 - Z.of_nat (length data + 1)) with (55 - Z.of_nat (length data)) by lia. }
  rewrite Hp in H4.
  unfold holds, absorbAll in H4. cbv zeta.
  assert (absorb rfcBlock (length (padded data)) h0 (padded data) = absorb block (length (padded data)) h0 (padded data)) as E.
  { generalize (length (padded data)) as n. intros n. generalize h0 (padded data). induction n as [|n IH]; intros h q; [done|].
    cbn [absorb]. destruct (64 <=? length q)%nat; [|done]. by rewrite block_rfc, IH. }
  fold h0. rewrite E, H4. by unfold words4.
Qed.

End Privacy.

(** ** Device classes: lib/devices_pure.cpp

    What a jail's [/dev] shows beyond the basic nodes, as devfs rules. *)


Module Devices.

Record Devices := {
  sound : bool; gpu : bool; video : bool; input : bool; usb : bool; serial : bool; all : bool }.

Definition none : Devices :=
  {| sound := false; gpu := false; video := false; input := false; usb := false; serial := false; all := false |}.

Definition merge (d o : Devices) : Devices :=
  {| sound := sound d || sound o; gpu := gpu d || gpu o; video := video d || video o; input := input d || input o;
     usb := usb d || usb o; serial := serial d || serial o; all := all d || all o |}.

Definition any (d : Devices) : bool := sound d || gpu d || video d || input d || usb d || serial d.

Definition classNames : list bytes := [str "sound"; str "gpu"; str "video"; str "input"; str "usb"; str "serial"].

Definition enabled (d : Devices) (name : bytes) : bool :=
  if beq name (str "sound") then sound d
  else if beq name (str "gpu") then gpu d
  else if beq name (str "video") then video d
  else if beq name (str "input") then input d
  else if beq name (str "usb") then usb d
  else if beq name (str "serial") then serial d
  else false.

(** [None]: no such class. *)
Definition setClass (d : Devices) (name : bytes) (v : bool) : option Devices :=
  let '(Build_Devices so gp vi inp us se al) := d in
  if beq name (str "sound") then Some (Build_Devices v gp vi inp us se al)
  else if beq name (str "gpu") then Some (Build_Devices so v vi inp us se al)
  else if beq name (str "video") then Some (Build_Devices so gp v inp us se al)
  else if beq name (str "input") then Some (Build_Devices so gp vi v us se al)
  else if beq name (str "usb") then Some (Build_Devices so gp vi inp v se al)
  else if beq name (str "serial") then Some (Build_Devices so gp vi inp us v al)
  else None.

Definition describe (d : Devices) : bytes :=
  if all d then str "all"
  else
    let out := fold_left (fun out c => if enabled d c then out ++ (if is_empty out then [] else str ", ") ++ c else out) classNames [] in
    if is_empty out then str "none" else out.

Definition patternsFor (cls : bytes) : list bytes :=
  if beq cls (str "sound") then [str "dsp*"; str "mixer*"; str "sndstat"; str "audio*"; str "midi*"]
  else if beq cls (str "gpu") then [str "dri"; str "dri/*"; str "drm"; str "drm/*"; str "nvidia*"]
  else if beq cls (str "video") then [str "video*"]
  else if beq cls (str "input") then [str "input"; str "input/*"]
  else if beq cls (str "usb") then [str "usb"; str "usb/*"; str "usbctl"; str "ugen*"; str "uhid*"; str "u2f*"]
  else if beq cls (str "serial") then [str "cua*"; str "ttyu*"; str "ttyU*"]
  else [].

Definition addPattern (out : list bytes) (p : bytes) : list bytes := if existsb (beq p) out then out else out ++ [p].

Definition unhidePatterns (d : Devices) : list bytes :=
  fold_left (fun out c => if enabled d c then fold_left addPattern (patternsFor c) out else out) classNames [].

Definition baseRules (withBpf : bool) : list bytes :=
  [str "hide"; str "path null unhide"; str "path zero unhide"; str "path crypto unhide";
   str "path random unhide"; str "path urandom unhide"; str "path tty unhide"; str "path ptmx unhide";
   str "path pts unhide"; str "path pts/* unhide"; str "path fd unhide"; str "path fd/* unhide";
   str "path stdin unhide"; str "path stdout unhide"; str "path stderr unhide";
   str "path fuse unhide"; str "path zfs unhide"]
  ++ (if withBpf then [str "path bpf* unhide"] else []).

Definition buildRules (d : Devices) (customRuleset : Z) (withBpf : bool) : list bytes :=
  (if 1 <=? customRuleset then [str "include " ++ dec customRuleset] else baseRules withBpf)
  ++ map (fun p => str "path " ++ p ++ str " unhide") (unhidePatterns d).

(** [pid % 50000] of a [long] made non-negative. *)
Definition rulesetNumberFor (pid : Z) : Z := 10000 + u32 (Z.rem (Z.abs pid) 50000).

Definition nextRulesetNumber (ruleset : Z) : Z := if (ruleset <? 10000) || (59999 <=? ruleset) then 10000 else ruleset + 1.

Definition warnings (d : Devices) : list bytes :=
  (if all d then [str "devices: all — the host's whole /dev is visible inside the jail (disks, memory, keyboards); name the classes the program needs instead"] else [])
  ++ (if input d then [str "devices/input exposes /dev/input/*: everything typed on the host's keyboard is readable from inside the jail"] else [])
  ++ (if usb d then [str "devices/usb exposes every USB device of the host (ugen*, uhid*), not one of them"] else [])
  ++ (if serial d then [str "devices/serial exposes the host's serial ports (cua*, ttyu*)"] else []).

(** * Lemmas *)

Definition allDevices : list Devices :=
  let b := [false; true] in
  flat_map (fun s => flat_map (fun g => flat_map (fun v => flat_map (fun i => flat_map (fun u => flat_map (fun e =>
    map (Build_Devices s g v i u e) b) b) b) b) b) b) b.

Lemma allDevices_complete d : In d allDevices.
Proof. destruct d as [[] [] [] [] [] [] []]; vm_compute; tauto. Qed.

(** A device node is shown exactly when a class that is enabled lists it. *)
Lemma unhide_iff d p : In p (unhidePatterns d) <-> exists c, In c classNames /\ enabled d c = true /\ In p (patternsFor c).
Proof.
  unfold unhidePatterns. assert (Hadd : forall out q x, In x (addPattern out q) <-> In x out \/ x = q).
  { intros out q x. unfold addPattern. destruct (existsb (beq q) out) eqn:E.
    - apply existsb_exists in E as (y & Hy & Hq). apply beq_eq in Hq. subst y. split; [tauto|]. intros [?| ->]; done.
    - rewrite in_app_iff. cbn. intuition congruence. }
  assert (Hfold : forall l out x, In x (fold_left addPattern l out) <-> In x out \/ In x l).
  { induction l as [|q l IH]; intros out x; cbn; [tauto|]. rewrite IH, Hadd. intuition congruence. }
  assert (forall l out, In p (fold_left (fun out c => if enabled d c then fold_left addPattern (patternsFor c) out else out) l out)
    <-> In p out \/ exists c, In c l /\ enabled d c = true /\ In p (patternsFor c)) as H; [|by rewrite H; cbn; intuition].
  induction l as [|c l IH]; intros out; cbn [fold_left]; [split; [tauto|]; intros [?|(? & [] & _)]; done|].
  rewrite IH. destruct (enabled d c) eqn:Ec; [rewrite Hfold|]; split.
  - intros [[?|?]|(x & ? & ? & ?)]; [tauto| |]; right; [exists c|exists x]; cbn; tauto.
  - intros [?|(x & [->|?] & ? & ?)]; [tauto|tauto|]. right. eauto.
  - intros [?|(x & ? & ? & ?)]; [tauto|]. right. exists x. cbn. tauto.
  - intros [?|(x & [->|?] & ? & ?)]; [tauto|congruence|]. right. eauto.
Qed.

(** Merging specs shows what either of them shows. *)
Lemma merge_enabled d o c : enabled (merge d o) c = enabled d c || enabled o c.
Proof. unfold enabled. repeat (destruct (beq c _); [done|]). done. Qed.

(** Ruleset numbers stay where no system ruleset is. *)
Lemma ruleset_range pid : 10000 <= rulesetNumberFor pid < 60000 /\ 10000 <= nextRulesetNumber (rulesetNumberFor pid) < 60000.
Proof.
  assert (H : 10000 <= rulesetNumberFor pid < 60000).
  { unfold rulesetNumberFor, u32. pose proof (Z.rem_bound_pos (Z.abs pid) 50000). rewrite Z.mod_small; lia. }
  split; [done|]. unfold nextRulesetNumber. destruct (Z.ltb_spec (rulesetNumberFor pid) 10000), (Z.leb_spec 59999 (rulesetNumberFor pid)); cbn [orb]; lia.
Qed.

End Devices.

(** ** A compositor inside the jail: lib/compositor_pure.cpp *)


Module Compositor.

Inductive Backend := Headless | Drm.

Definition parseBackend (s : bytes) : option Backend :=
  if is_empty s || beq s (str "headless") then Some Headless else if beq s (str "drm") then Some Drm else None.

Definition backendName (b : Backend) : bytes := match b with Headless => str "headless" | Drm => str "drm" end.

(** The shell characters [gui.compositor] refuses. *)
Definition kForbidden : bytes := str ";&|<>`$(){}[]*?!\" ++ [chr 34] ++ str "'".

Definition flushToken (token : bytes) (argv : list bytes) : list bytes := if is_empty token then argv else argv ++ [token].

Fixpoint commandLoop (token : bytes) (argv : list bytes) (cmd : bytes) : bytes + list bytes :=
  match cmd with
  | [] => inr (flushToken token argv)
  | c :: t =>
      if Ascii.eqb c nul then inl (str "command contains a NUL byte")
      else if one_of [" "%char; chr 9] c then commandLoop [] (flushToken token argv) t
      else if (code c <? 0x20) || (code c =? 0x7f) then
        inl (str "command contains a control character — gui.compositor takes a plain "
             ++ str "command + args; use a wrapper script for anything else")
      else if one_of kForbidden c then
        inl (str "command contains unsupported shell metacharacter '" ++ [c]
             ++ str "' — gui.compositor takes a plain command + args (no shell features); "
             ++ str "use a wrapper script for pipes/redirects/substitution")
      else commandLoop (token ++ [c]) argv t
  end.

Definition parseCompositorCommand (cmd : bytes) : bytes + list bytes :=
  match commandLoop [] [] cmd with
  | inl e => inl e
  | inr [] => inl (str "gui.compositor is empty — give a command to run, e.g. 'sway' or 'cage firefox'")
  | inr argv => inr argv
  end.

Definition requiredDevfsUnhide (b : Backend) (gpuAccel : bool) : list bytes :=
  match b with
  | Headless => if gpuAccel then [str "dri"; str "dri/*"] else []
  | Drm => [str "dri"; str "dri/*"; str "input/*"]
  end.

Definition needsSeatd (b : Backend) : bool := match b with Drm => true | Headless => false end.

Definition seatdSocketCandidates : list bytes := [str "/var/run/seatd.sock"; str "/run/seatd.sock"].
Definition defaultWaylandSocket : bytes := str "wayland-0".

Definition composeEnv (b : Backend) (runtimeDir seatdSock : bytes) (gpuAccel : bool) : list (bytes * bytes) :=
  (str "XDG_RUNTIME_DIR", runtimeDir) ::
  match b with
  | Headless =>
      [(str "WLR_BACKEND", str "headless"); (str "WLR_HEADLESS_OUTPUTS", str "1");
       (str "WLR_LIBINPUT_NO_DEVICES", str "1"); (str "WLR_RENDERER", if gpuAccel then str "gles2" else str "pixman")]
  | Drm =>
      [(str "WLR_BACKEND", str "drm"); (str "WLR_RENDERER", str "gles2")]
      ++ (if is_empty seatdSock then [] else [(str "LIBSEAT_BACKEND", str "seatd"); (str "SEATD_SOCK", seatdSock)])
  end.

Definition wayvncArgs (host : bytes) (port : Z) : list bytes := [host; dec port].

Definition bindByte (c : ascii) : bool := is_digit c || is_upper c || is_lower c || one_of (str ".:-_") c.

Definition resolveVncBind (requested : bytes) : bytes + bytes :=
  if is_empty requested then inr (str "127.0.0.1")
  else if 255 <? size_z requested then inl (str "gui.vnc_bind is too long")
  else if negb (forallb bindByte requested) then
    inl (str "gui.vnc_bind must be an address or hostname "
         ++ str "([A-Za-z0-9.:_-]); got an unsupported character")
  else inr requested.

Definition vncBindIsPublic (bind : bytes) : bool :=
  negb (beq bind (str "127.0.0.1") || beq bind (str "::1") || beq bind (str "localhost")).

(** * Lemmas *)

Definition plainByte (c : ascii) : bool :=
  negb (code c <? 0x20) && negb (code c =? 0x7f) && negb (one_of kForbidden c) && negb (Ascii.eqb c " ").

Lemma commandLoop_plain token argv cmd r :
  forallb plainByte token = true -> Forall (fun a => a <> [] /\ forallb plainByte a = true) argv ->
  commandLoop token argv cmd = inr r -> Forall (fun a => a <> [] /\ forallb plainByte a = true) r.
Proof.
  assert (Hfl : forall t l, forallb plainByte t = true -> Forall (fun a => a <> [] /\ forallb plainByte a = true) l ->
    Forall (fun a => a <> [] /\ forallb plainByte a = true) (flushToken t l)).
  { intros t l Ht Hl. unfold flushToken. destruct (is_empty t) eqn:E; [done|]. apply is_empty_false in E.
    apply Forall_app. split; [done|]. by constructor. }
  revert token argv. induction cmd as [|c t IH]; intros token argv Ht Ha; cbn [commandLoop].
  - intros [= <-]. by apply Hfl.
  - destruct (Ascii.eqb_spec c nul); [done|]. destruct (one_of _ c) eqn:Eb; [apply IH; [done|by apply Hfl]|].
    destruct (code c <? 0x20) eqn:E1; [done|]. destruct (code c =? 0x7f) eqn:E2; [done|]. cbn [orb].
    destruct (one_of kForbidden c) eqn:E3; [done|]. apply IH; [|done]. rewrite forallb_app, Ht. cbn [forallb andb].
    unfold plainByte. rewrite E1, E2, E3. cbn in Eb. apply orb_false_elim in Eb as [-> _]. done.
Qed.

(** A command that is accepted is at least one word, and no word has a byte
    that a shell would treat specially. *)
Lemma compositor_plain cmd argv : parseCompositorCommand cmd = inr argv ->
  argv <> [] /\ Forall (fun a => a <> [] /\ forallb plainByte a = true) argv.
Proof.
  unfold parseCompositorCommand. destruct (commandLoop [] [] cmd) as [|[|a l]] eqn:E; [done..|]. intros [= <-].
  split; [done|]. by apply (commandLoop_plain [] [] cmd).
Qed.

Lemma parseBackend_name b : parseBackend (backendName b) = Some b.
Proof. by destruct b. Qed.

End Compositor.

(** ** VPN options of a spec: lib/wireguard_runtime_pure.cpp, lib/ipsec_runtime_pure.cpp *)


Module VpnRuntime.

(** ** WireGuard *)

Definition wgMeta (c : ascii) : bool := one_of (str ";`$|&<>\" ++ [newline; chr 13]) c.

Definition wgShown (c : ascii) : bytes :=
  if Ascii.eqb c newline then str "\n" else if Ascii.eqb c (chr 13) then str "\r" else [c].

Definition validateConfigPath (p : bytes) : bytes :=
  match p with
  | [] => str "wireguard.config path is empty"
  | c0 :: _ =>
      if 255 <? size_z p then str "wireguard.config path is longer than 255 chars"
      else if negb (Ascii.eqb c0 "/") then str "wireguard.config path must be absolute"
      else if existsb (beq (str "..")) (split_on "/" p) then str "wireguard.config path must not contain '..' segments"
      else match List.find wgMeta p with
      | Some c => str "wireguard.config path contains shell metacharacter '" ++ wgShown c ++ str "'"
      | None => []
      end
  end.

Definition wgUpArgv (configPath : bytes) : list bytes := [str "/usr/local/bin/wg-quick"; str "up"; configPath].
Definition wgDownArgv (configPath : bytes) : list bytes := [str "/usr/local/bin/wg-quick"; str "down"; configPath].
Definition wgEnabled (configPath : bytes) : bool := negb (is_empty configPath).

(** ** IPsec *)

Definition validateConnName (name : bytes) : bytes :=
  if is_empty name then str "ipsec conn name is empty"
  else if 32 <? size_z name then str "ipsec conn name longer than 32 chars"
  else if beq name (str "%default") then str "ipsec conn name '%default' is reserved by strongSwan"
  else match List.find (fun c => negb (is_alnum c || one_of (str "._-") c)) name with
  | Some c => str "invalid character '" ++ [c] ++ str "' in ipsec conn name"
  | None => []
  end.

Definition buildAutoArgv (verb connName : bytes) : list bytes := [str "/usr/local/sbin/ipsec"; str "auto"; verb; connName].
Definition ipsecAddArgv (connName : bytes) : list bytes := buildAutoArgv (str "--add") connName.
Definition ipsecUpArgv (connName : bytes) : list bytes := buildAutoArgv (str "--up") connName.
Definition ipsecDownArgv (connName : bytes) : list bytes := buildAutoArgv (str "--down") connName.
Definition ipsecDeleteArgv (connName : bytes) : list bytes := buildAutoArgv (str "--delete") connName.
Definition ipsecEnabled (connName : bytes) : bool := negb (is_empty connName).

(** * Lemmas *)

Lemma configPath_ok p : validateConfigPath p = [] ->
  (exists t, p = "/"%char :: t) /\ ~ In (str "..") (split_on "/" p) /\ existsb wgMeta p = false.
Proof.
  unfold validateConfigPath. destruct p as [|c t]; [done|]. destruct (255 <? _); [done|].
  destruct (Ascii.eqb_spec c "/") as [->|]; [|done]. cbn [negb].
  destruct (existsb _ (split_on "/" _)) eqn:E; [done|]. destruct (List.find wgMeta _) as [x|] eqn:F; [done|]. intros _.
  split; [eauto|]. split.
  - intros Hin. apply not_true_iff_false in E. apply E, existsb_exists. exists (str ".."). by rewrite beq_refl.
  - apply not_true_iff_false. intros (x & Hx & Hm)%existsb_exists. by rewrite (find_none _ _ F x Hx) in Hm.
Qed.

(** Nothing but letters, digits and three signs reaches ipsec(8). *)
Lemma connName_ok name : validateConnName name = [] -> name <> [] /\ forallb (fun c => is_alnum c || one_of (str "._-") c) name = true.
Proof.
  unfold validateConnName. destruct (is_empty name) eqn:E; [done|]. destruct (32 <? _); [done|]. destruct (beq _ _); [done|].
  destruct (List.find _ name) as [x|] eqn:F; [done|]. intros _. split; [by apply is_empty_false|].
  apply forallb_forall. intros c Hc. by apply negb_false_iff, (find_none _ _ F c Hc).
Qed.

(** Except that a name may start with a dash. *)
Example connName_may_look_like_an_option : validateConnName (str "--help") = [].
Proof. reflexivity. Qed.

End VpnRuntime.
