(* ===== verification/Yaml.v ===== *)
(** * YAML documents

    yaml-cpp is not part of the repository: a parsed document is its documented
    data model, and its conversions are the parameters of [Yaml], with what its
    documentation says of them.  The helpers below are the loops over nodes that
    the parsers of specs, stacks and configuration files share. *)

From S2P Require Import Prelude CStd UtilPure.

Unset Elimination Schemes.

(** [YAML::Node], by [NodeType]. *)
Inductive Node :=
  | Null
  | Scalar (s : bytes)
  | Sequence (l : list Node)
  | Map (l : list (Node * Node)).

Set Elimination Schemes.

Class Yaml := {
  (** [node.as<std::string>()]; [None] is the exception. *)
  asString : Node -> option bytes;
  (** [YAML::convert<bool>::decode] *)
  decodeBool : Node -> option bool;
  (** [operator<<] *)
  emit : Node -> bytes;
  (** the text of yaml-cpp's exceptions *)
  yamlError : bytes;
  asString_scalar : forall s, asString (Scalar s) = Some s;
  asString_collection : forall l m, asString (Sequence l) = None /\ asString (Map m) = None;
  decodeBool_collection : forall l m, decodeBool (Sequence l) = None /\ decodeBool (Map m) = None;
  decodeBool_words : decodeBool (Scalar (str "true")) = Some true /\ decodeBool (Scalar (str "false")) = Some false }.

(** A library that fits the documentation, for evaluation: the words of YAML 1.1. *)
Definition bool_of_word (s : bytes) : option bool :=
  if existsb (beq s) [str "true"; str "yes"; str "on"; str "y"] then Some true
  else if existsb (beq s) [str "false"; str "no"; str "off"; str "n"] then Some false
  else None.

Definition plainYaml : Yaml := {|
  asString := fun n => match n with Scalar s => Some s | _ => None end;
  decodeBool := fun n => match n with Scalar s => bool_of_word s | _ => None end;
  emit := fun n => match n with Scalar s => s | _ => [] end;
  yamlError := str "bad conversion";
  asString_scalar := fun s => eq_refl;
  asString_collection := fun l m => conj eq_refl eq_refl;
  decodeBool_collection := fun l m => conj eq_refl eq_refl;
  decodeBool_words := conj eq_refl eq_refl |}.

Definition IsNull (n : Node) : bool := match n with Null => true | _ => false end.
Definition IsScalar (n : Node) : bool := match n with Scalar _ => true | _ => false end.
Definition IsSequence (n : Node) : bool := match n with Sequence _ => true | _ => false end.
Definition IsMap (n : Node) : bool := match n with Map _ => true | _ => false end.

(** [operator<<] of [node.Type()], an enumeration. *)
Definition typeText (n : Node) : bytes :=
  str match n with Null => "1" | Scalar _ => "2" | Sequence _ => "3" | Map _ => "4" end.

(** ** Loops in the error monad *)

(** [if (c) ERR(m)] *)
Definition errIf (c : bool) (m : bytes) : bytes + unit := if c then inl m else inr tt.

(** [if (auto e = check; !e.empty()) ERR(pre << e)] *)
Definition errOn (pre e : bytes) : bytes + unit := match e with [] => inr tt | _ => inl (pre ++ e) end.

Fixpoint foldM {A B} (f : A -> B -> bytes + A) (l : list B) (a : A) : bytes + A :=
  match l with
  | [] => inr a
  | b :: t => match f a b with inl e => inl e | inr a' => foldM f t a' end
  end.

Fixpoint forM {B} (f : B -> bytes + unit) (l : list B) : bytes + unit :=
  match l with
  | [] => inr tt
  | b :: t => match f b with inl e => inl e | inr _ => forM f t end
  end.

Fixpoint mapM {A B} (f : A -> bytes + B) (l : list A) : bytes + list B :=
  match l with
  | [] => inr []
  | a :: t => match f a with inl e => inl e | inr b => match mapM f t with inl e => inl e | inr r => inr (b :: r) end end
  end.

Section nodes.
Context `{Yaml}.

(** [AsString] *)
Definition AsString (n : Node) : bytes + bytes := match asString n with Some s => inr s | None => inl yamlError end.

(** [for (auto k : node)] where the body starts by reading [k.first]: nothing
    for a scalar or null; an element of a sequence has no [first], so reading it
    raises. *)
Definition entries (n : Node) : bytes + list (Node * Node) :=
  match n with
  | Map l => inr l
  | Sequence (_ :: _) => inl yamlError
  | _ => inr []
  end.

(** The elements [for (auto e : node)] visits, for a node that is a sequence. *)
Definition elements (n : Node) : list Node := match n with Sequence l => l | _ => [] end.

(** [node[key]] of a map: the first entry whose key reads as [key]. *)
Definition field (key : bytes) (n : Node) : option Node :=
  match n with
  | Map l => snd <$> List.find (fun kv => bool_decide (asString (fst kv) = Some key)) l
  | _ => None
  end.

(** [scalar(node, out, opath)] *)
Definition scalar (n : Node) (opath : bytes) : bytes + bytes :=
  if IsScalar n then AsString n
  else inl (str "unsupported " ++ opath ++ str " object of type " ++ typeText n ++ str ", only scalar is allowed").

(** [listOrScalar]: what it adds, in order; [None] is [false]. *)
Definition listOrScalar (n : Node) : bytes + option (list bytes) :=
  match n with
  | Sequence l => match mapM AsString l with inl e => inl e | inr r => inr (Some r) end
  | Scalar _ => match AsString n with inl e => inl e | inr s => inr (UtilPure.splitString s (str " ")) end
  | _ => inr None
  end.

Definition listOrScalarOnly (n : Node) (opath : bytes) : bytes + list bytes :=
  match listOrScalar n with
  | inl e => inl e
  | inr (Some l) => inr l
  | inr None => inl (str "unsupported " ++ opath ++ str " object of type " ++ typeText n ++ str ", only list or scalar are allowed")
  end.

(** [if (!YAML::convert<bool>::decode(node, out)) ERR(m)] *)
Definition boolean (n : Node) (m : bytes) : bytes + bool := match decodeBool n with Some b => inr b | None => inl m end.
End nodes.

(** * Lemmas *)

Lemma errIf_ok c m u : errIf c m = inr u <-> c = false.
Proof. destruct c, u; cbn; split; done. Qed.

Lemma errOn_ok pre e u : errOn pre e = inr u <-> e = [].
Proof. destruct e, u; cbn; split; done. Qed.

(** An invariant of the state holds after a loop that succeeds. *)
Lemma foldM_inv {A B} (P : A -> Prop) (f : A -> B -> bytes + A) l a r :
  (forall a b a', In b l -> P a -> f a b = inr a' -> P a') -> P a -> foldM f l a = inr r -> P r.
Proof.
  revert a. induction l as [|b l IH]; intros a Hf Ha; cbn [foldM]; [by intros [= <-]|].
  destruct (f a b) as [e|a'] eqn:E; [done|]. apply IH; [|by eapply Hf; [left| |]].
  intros x y z Hy. apply Hf. by right.
Qed.

Lemma forM_ok {B} (f : B -> bytes + unit) l u : forM f l = inr u <-> Forall (fun b => f b = inr tt) l.
Proof.
  destruct u. induction l as [|b l IH]; cbn [forM]; [split; [constructor|done]|]. rewrite Forall_cons.
  destruct (f b) as [e|[]]; [split; [done|by intros [? _]]|]. rewrite IH. tauto.
Qed.

Lemma mapM_ok {A B} (f : A -> bytes + B) l r : mapM f l = inr r <-> Forall2 (fun a b => f a = inr b) l r.
Proof.
  revert r. induction l as [|a l IH]; intros r; cbn [mapM].
  - split; [intros [= <-]; constructor|]. by inversion 1.
  - destruct (f a) as [e|b] eqn:E; [split; [done|]; inversion 1; congruence|].
    destruct (mapM f l) as [e|t] eqn:Et.
    + split; [done|]. inversion 1 as [|? y ? r' ? H2]; subst. apply IH in H2. done.
    + split; [intros [= <-]; constructor; [done|by apply IH]|].
      inversion 1 as [|? y ? r' ? H2]; subst. apply IH in H2. congruence.
Qed.

(** Inverts a monadic computation that succeeded. *)
Ltac minv H :=
  repeat match type of H with
  | (_ ≫= _) = inr _ => let x := fresh "v" in let E := fresh "E" in apply result_bind_inr in H as (x & E & H); cbn beta in H
  end.
