(* ===== verification/Spec.v ===== *)
(** * Container specs: lib/spec.h, lib/spec_pure.cpp

    The data of a spec with the defaults of its members, the queries on its
    network options, the small parsers of lib/spec_pure.cpp and
    [Spec::validate].  The YAML parser is in SpecParse.v, the preprocessing and
    merging of specs in SpecMerge.v. *)

From S2P Require Import Prelude CStd UtilPure OMap RecordUpd NetAddr Limits RunPure PrivOps SpecParts Yaml.

Module Spec.

(** ** Data *)

Inductive NetMode := Nat | Bridge | Passthrough | Netgraph | AutoMode.
Inductive IpMode := IpAuto | IpStatic | Dhcp | IpNone.
Inductive Ip6Mode := Ip6None | Slaac | Ip6Static.

#[export] Instance NetMode_eq_dec : EqDecision NetMode.
Proof. solve_decision. Defined.
#[export] Instance IpMode_eq_dec : EqDecision IpMode.
Proof. solve_decision. Defined.
#[export] Instance Ip6Mode_eq_dec : EqDecision Ip6Mode.
Proof. solve_decision. Defined.

Definition PortRange : Type := Z * Z.

Record ExtraInterface := {
  ex_networkName : bytes; ex_mode : NetMode; ex_bridgeIface : bytes; ex_passthroughIface : bytes;
  ex_netgraphIface : bytes; ex_ipMode : IpMode; ex_staticIp : bytes; ex_gateway : bytes; ex_ip6Mode : Ip6Mode;
  ex_staticIp6 : bytes; ex_staticMac : bool; ex_vlanId : Z }.

Record NetOptDetails := {
  networkName : bytes; mode : NetMode; outboundWan : bool; outboundLan : bool; outboundHost : bool; outboundDns : bool;
  ipv6 : bool; inboundPortsTcp : list (PortRange * PortRange); inboundPortsUdp : list (PortRange * PortRange);
  bridgeIface : bytes; autoCreateBridge : bool; passthroughIface : bytes; netgraphIface : bytes; ipMode : IpMode;
  staticIp : bytes; gateway : bytes; ip6Mode : Ip6Mode; staticIp6 : bytes; staticMac : bool; vlanId : Z;
  extraInterfaces : list ExtraInterface }.

(** The classes derived from [OptDetails]. *)
Inductive OptDetails :=
  | NetOpt (d : NetOptDetails)
  | TorOpt (controlPort : bool)
  | WireguardOpt (configPath : bytes)
  | IpsecOpt (connName confPath : bytes).

Record Share := { sh_jail : bytes; sh_host : bytes; sh_readOnly : bool }.
Record Tmpfs := { tm_path : bytes; tm_size : bytes }.
Record DnsFilter := { df_allow : list bytes; df_block : list bytes; df_redirectBlocked : bytes }.
Record CowOptions := { cow_mode : bytes; cow_backend : bytes }.
Record X11Options := { x11_mode : bytes; x11_resolution : bytes; x11_clipboardEnabled : bool }.
Record ClipboardOptions := { clip_mode : bytes; clip_direction : bytes }.
Record DbusOptions := { dbus_systemBus : bool; dbus_sessionBus : bool; dbus_allowOwn : list bytes; dbus_denySend : list bytes }.
Record ManagedService := { svc_name : bytes; svc_enable : bool; svc_rcvar : bytes }.
Record ProxyEntry := { px_host : bytes; px_jail : bytes; px_direction : bytes }.
Record SocketProxy := { sp_share : list bytes; sp_proxy : list ProxyEntry }.
Record FirewallPolicy := { fw_blockIp : list bytes; fw_allowTcp : list Z; fw_allowUdp : list Z; fw_defaultPolicy : bytes }.
Record SecurityAdvanced := { sa_capsicum : bool; sa_macRules : list bytes; sa_macAllowPorts : list Z; sa_hideOtherJails : bool }.
Record TerminalOptions := { tty_devfsRuleset : Z; tty_allowRawTty : bool }.
Record GuiOptions := {
  gui_mode : bytes; gui_resolution : bytes; gui_vnc : bool; gui_vncNative : bool; gui_vncPort : Z; gui_novnc : bool;
  gui_vncPassword : bytes; gui_gpuDevice : bytes; gui_gpuDriver : bytes; gui_backend : bytes; gui_compositor : bytes;
  gui_vncBind : bytes }.
Record Healthcheck := { hc_test : bytes; hc_intervalSec : Z; hc_timeoutSec : Z; hc_retries : Z; hc_startPeriodSec : Z }.
Record RestartPolicy := { rs_policy : bytes; rs_maxRetries : Z; rs_delaySec : Z }.
Record BaseContainer := { bc_type : bytes; bc_name : bytes }.
Record CronJob := { cron_schedule : bytes; cron_command : bytes; cron_user : bytes }.

(** [std::map<std::string, V>] *)
Abbreviation StrMap V := (list (bytes * V)).

Record Spec := {
  baseKeep : list bytes; baseKeepWildcard : list bytes; baseRemove : list bytes; baseHostRo : bool; baseHostDirs : list bytes;
  pkgInstall : list bytes; pkgLocalOverride : list (bytes * bytes); pkgAdd : list bytes; pkgNuke : list bytes; pkgKeepPkg : bool;
  runCmdExecutable : bytes; runCmdArgs : bytes; runServices : list bytes; runUser : bytes; runTimeoutSec : Z;
  dirsShare : list Share; filesShare : list Share; tmpfs : list Tmpfs; etcKeep : list bytes;
  options : StrMap (option OptDetails); zfsDatasets : list bytes;
  allowSysvipc : bool; allowMqueue : bool; ipcRawSocketsOverride : bool; ipcRawSocketsValue : bool;
  limits : StrMap bytes; diskQuota : bytes;
  encrypted : bool; encryptionMethod : bytes; encryptionKeyformat : bytes; encryptionCipher : bytes;
  dnsFilter : option DnsFilter;
  enforceStatfs : Z; allowQuotas : bool; allowSetHostname : bool; allowChflags : bool; allowMlock : bool;
  securelevel : Z; childrenMax : Z; cpuset : bytes;
  cowOptions : option CowOptions; x11Options : option X11Options; clipboardOptions : option ClipboardOptions;
  privacyHostid : bytes; privacyHostname : bytes; dbusOptions : option DbusOptions;
  managedServices : list ManagedService; servicesAutoStart : bool; servicesAutoStartExplicit : bool;
  socketProxy : option SocketProxy; firewallPolicy : option FirewallPolicy; securityAdvanced : option SecurityAdvanced;
  terminalOptions : option TerminalOptions; devices : Devices.Devices; guiOptions : option GuiOptions;
  healthcheck : option Healthcheck; restartPolicy : option RestartPolicy; baseContainer : option BaseContainer;
  depends : list bytes; cronJobs : list CronJob; scripts : StrMap (StrMap bytes) }.

(** ** Assignment to members *)

#[export] Instance eta_ExtraInterface : Eta ExtraInterface := fun r => {| ex_networkName := ex_networkName r; ex_mode
  := ex_mode r; ex_bridgeIface := ex_bridgeIface r; ex_passthroughIface := ex_passthroughIface r; ex_netgraphIface :=
  ex_netgraphIface r; ex_ipMode := ex_ipMode r; ex_staticIp := ex_staticIp r; ex_gateway := ex_gateway r; ex_ip6Mode
  := ex_ip6Mode r; ex_staticIp6 := ex_staticIp6 r; ex_staticMac := ex_staticMac r; ex_vlanId := ex_vlanId r |}.
#[export] Instance eta_NetOptDetails : Eta NetOptDetails := fun r => {| networkName := networkName r; mode := mode r;
  outboundWan := outboundWan r; outboundLan := outboundLan r; outboundHost := outboundHost r; outboundDns :=
  outboundDns r; ipv6 := ipv6 r; inboundPortsTcp := inboundPortsTcp r; inboundPortsUdp := inboundPortsUdp r;
  bridgeIface := bridgeIface r; autoCreateBridge := autoCreateBridge r; passthroughIface := passthroughIface r;
  netgraphIface := netgraphIface r; ipMode := ipMode r; staticIp := staticIp r; gateway := gateway r; ip6Mode :=
  ip6Mode r; staticIp6 := staticIp6 r; staticMac := staticMac r; vlanId := vlanId r; extraInterfaces :=
  extraInterfaces r |}.
#[export] Instance eta_Share : Eta Share := fun r => {| sh_jail := sh_jail r; sh_host := sh_host r; sh_readOnly :=
  sh_readOnly r |}.
#[export] Instance eta_Tmpfs : Eta Tmpfs := fun r => {| tm_path := tm_path r; tm_size := tm_size r |}.
#[export] Instance eta_DnsFilter : Eta DnsFilter := fun r => {| df_allow := df_allow r; df_block := df_block r;
  df_redirectBlocked := df_redirectBlocked r |}.
#[export] Instance eta_CowOptions : Eta CowOptions := fun r => {| cow_mode := cow_mode r; cow_backend := cow_backend r
  |}.
#[export] Instance eta_X11Options : Eta X11Options := fun r => {| x11_mode := x11_mode r; x11_resolution :=
  x11_resolution r; x11_clipboardEnabled := x11_clipboardEnabled r |}.
#[export] Instance eta_ClipboardOptions : Eta ClipboardOptions := fun r => {| clip_mode := clip_mode r; clip_direction
  := clip_direction r |}.
#[export] Instance eta_DbusOptions : Eta DbusOptions := fun r => {| dbus_systemBus := dbus_systemBus r;
  dbus_sessionBus := dbus_sessionBus r; dbus_allowOwn := dbus_allowOwn r; dbus_denySend := dbus_denySend r |}.
#[export] Instance eta_ManagedService : Eta ManagedService := fun r => {| svc_name := svc_name r; svc_enable :=
  svc_enable r; svc_rcvar := svc_rcvar r |}.
#[export] Instance eta_ProxyEntry : Eta ProxyEntry := fun r => {| px_host := px_host r; px_jail := px_jail r;
  px_direction := px_direction r |}.
#[export] Instance eta_SocketProxy : Eta SocketProxy := fun r => {| sp_share := sp_share r; sp_proxy := sp_proxy r |}.
#[export] Instance eta_FirewallPolicy : Eta FirewallPolicy := fun r => {| fw_blockIp := fw_blockIp r; fw_allowTcp :=
  fw_allowTcp r; fw_allowUdp := fw_allowUdp r; fw_defaultPolicy := fw_defaultPolicy r |}.
#[export] Instance eta_SecurityAdvanced : Eta SecurityAdvanced := fun r => {| sa_capsicum := sa_capsicum r;
  sa_macRules := sa_macRules r; sa_macAllowPorts := sa_macAllowPorts r; sa_hideOtherJails := sa_hideOtherJails r |}.
#[export] Instance eta_TerminalOptions : Eta TerminalOptions := fun r => {| tty_devfsRuleset := tty_devfsRuleset r;
  tty_allowRawTty := tty_allowRawTty r |}.
#[export] Instance eta_GuiOptions : Eta GuiOptions := fun r => {| gui_mode := gui_mode r; gui_resolution :=
  gui_resolution r; gui_vnc := gui_vnc r; gui_vncNative := gui_vncNative r; gui_vncPort := gui_vncPort r; gui_novnc :=
  gui_novnc r; gui_vncPassword := gui_vncPassword r; gui_gpuDevice := gui_gpuDevice r; gui_gpuDriver := gui_gpuDriver
  r; gui_backend := gui_backend r; gui_compositor := gui_compositor r; gui_vncBind := gui_vncBind r |}.
#[export] Instance eta_Healthcheck : Eta Healthcheck := fun r => {| hc_test := hc_test r; hc_intervalSec :=
  hc_intervalSec r; hc_timeoutSec := hc_timeoutSec r; hc_retries := hc_retries r; hc_startPeriodSec :=
  hc_startPeriodSec r |}.
#[export] Instance eta_RestartPolicy : Eta RestartPolicy := fun r => {| rs_policy := rs_policy r; rs_maxRetries :=
  rs_maxRetries r; rs_delaySec := rs_delaySec r |}.
#[export] Instance eta_BaseContainer : Eta BaseContainer := fun r => {| bc_type := bc_type r; bc_name := bc_name r |}.
#[export] Instance eta_CronJob : Eta CronJob := fun r => {| cron_schedule := cron_schedule r; cron_command :=
  cron_command r; cron_user := cron_user r |}.
#[export] Instance eta_Spec : Eta Spec := fun r => {| baseKeep := baseKeep r; baseKeepWildcard := baseKeepWildcard r;
  baseRemove := baseRemove r; baseHostRo := baseHostRo r; baseHostDirs := baseHostDirs r; pkgInstall := pkgInstall r;
  pkgLocalOverride := pkgLocalOverride r; pkgAdd := pkgAdd r; pkgNuke := pkgNuke r; pkgKeepPkg := pkgKeepPkg r;
  runCmdExecutable := runCmdExecutable r; runCmdArgs := runCmdArgs r; runServices := runServices r; runUser := runUser
  r; runTimeoutSec := runTimeoutSec r; dirsShare := dirsShare r; filesShare := filesShare r; tmpfs := tmpfs r; etcKeep
  := etcKeep r; options := options r; zfsDatasets := zfsDatasets r; allowSysvipc := allowSysvipc r; allowMqueue :=
  allowMqueue r; ipcRawSocketsOverride := ipcRawSocketsOverride r; ipcRawSocketsValue := ipcRawSocketsValue r; limits
  := limits r; diskQuota := diskQuota r; encrypted := encrypted r; encryptionMethod := encryptionMethod r;
  encryptionKeyformat := encryptionKeyformat r; encryptionCipher := encryptionCipher r; dnsFilter := dnsFilter r;
  enforceStatfs := enforceStatfs r; allowQuotas := allowQuotas r; allowSetHostname := allowSetHostname r; allowChflags
  := allowChflags r; allowMlock := allowMlock r; securelevel := securelevel r; childrenMax := childrenMax r; cpuset :=
  cpuset r; cowOptions := cowOptions r; x11Options := x11Options r; clipboardOptions := clipboardOptions r;
  privacyHostid := privacyHostid r; privacyHostname := privacyHostname r; dbusOptions := dbusOptions r;
  managedServices := managedServices r; servicesAutoStart := servicesAutoStart r; servicesAutoStartExplicit :=
  servicesAutoStartExplicit r; socketProxy := socketProxy r; firewallPolicy := firewallPolicy r; securityAdvanced :=
  securityAdvanced r; terminalOptions := terminalOptions r; devices := devices r; guiOptions := guiOptions r;
  healthcheck := healthcheck r; restartPolicy := restartPolicy r; baseContainer := baseContainer r; depends := depends
  r; cronJobs := cronJobs r; scripts := scripts r |}.

(** ** Default members *)

(** [NetOptDetails::NetOptDetails()] *)
Definition blankNet : NetOptDetails := {|
  networkName := []; mode := Nat; outboundWan := false; outboundLan := false; outboundHost := false; outboundDns := false;
  ipv6 := false; inboundPortsTcp := []; inboundPortsUdp := []; bridgeIface := []; autoCreateBridge := false;
  passthroughIface := []; netgraphIface := []; ipMode := IpAuto; staticIp := []; gateway := []; ip6Mode := Ip6None;
  staticIp6 := []; staticMac := false; vlanId := -1; extraInterfaces := [] |}.

Definition createDefault : NetOptDetails :=
  blankNet <| outboundWan := true |> <| outboundLan := true |> <| outboundHost := true |> <| outboundDns := true |>.

Definition blankExtra : ExtraInterface := {|
  ex_networkName := []; ex_mode := Bridge; ex_bridgeIface := []; ex_passthroughIface := []; ex_netgraphIface := [];
  ex_ipMode := IpAuto; ex_staticIp := []; ex_gateway := []; ex_ip6Mode := Ip6None; ex_staticIp6 := [];
  ex_staticMac := false; ex_vlanId := -1 |}.

(** [Spec()] *)
Definition blankSpec : Spec := {|
  baseKeep := []; baseKeepWildcard := []; baseRemove := []; baseHostRo := false; baseHostDirs := [];
  pkgInstall := []; pkgLocalOverride := []; pkgAdd := []; pkgNuke := []; pkgKeepPkg := true;
  runCmdExecutable := []; runCmdArgs := []; runServices := []; runUser := []; runTimeoutSec := 0;
  dirsShare := []; filesShare := []; tmpfs := []; etcKeep := []; options := []; zfsDatasets := [];
  allowSysvipc := false; allowMqueue := false; ipcRawSocketsOverride := false; ipcRawSocketsValue := false;
  limits := []; diskQuota := []; encrypted := false; encryptionMethod := []; encryptionKeyformat := [];
  encryptionCipher := []; dnsFilter := None; enforceStatfs := -1; allowQuotas := false; allowSetHostname := false;
  allowChflags := false; allowMlock := false; securelevel := -1; childrenMax := -1; cpuset := []; cowOptions := None;
  x11Options := None; clipboardOptions := None; privacyHostid := []; privacyHostname := []; dbusOptions := None;
  managedServices := []; servicesAutoStart := true; servicesAutoStartExplicit := false; socketProxy := None;
  firewallPolicy := None; securityAdvanced := None; terminalOptions := None; devices := Devices.none; guiOptions := None;
  healthcheck := None; restartPolicy := None; baseContainer := None; depends := []; cronJobs := []; scripts := [] |}.

(** ** Queries *)

Definition allowOutbound (n : NetOptDetails) : bool := outboundWan n || outboundLan n || outboundHost n || outboundDns n.
Definition allowInbound (n : NetOptDetails) : bool := negb (is_empty (inboundPortsTcp n)) || negb (is_empty (inboundPortsUdp n)).
Definition isNatMode (n : NetOptDetails) : bool := bool_decide (mode n = Nat).
Definition needsIpfw (n : NetOptDetails) : bool := bool_decide (mode n = Nat).
Definition needsDhcp (n : NetOptDetails) : bool := bool_decide (ipMode n = Dhcp).

Definition optionExists (s : Spec) (opt : bytes) : bool := OMap.count opt (options s).

(** [getOptionDetails]: the entry's pointer.  Each name is only ever given
    details of its own class, so the static casts below are to that class. *)
Definition getOptionDetails (s : Spec) (opt : bytes) : option OptDetails := mjoin (OMap.find opt (options s)).

Definition optionNet (s : Spec) : option NetOptDetails :=
  match getOptionDetails s (str "net") with Some (NetOpt d) => Some d | _ => None end.
Definition optionTor (s : Spec) : option bool :=
  match getOptionDetails s (str "tor") with Some (TorOpt c) => Some c | _ => None end.
Definition optionWireguard (s : Spec) : option bytes :=
  match getOptionDetails s (str "wireguard") with Some (WireguardOpt p) => Some p | _ => None end.
Definition optionIpsec (s : Spec) : option (bytes * bytes) :=
  match getOptionDetails s (str "ipsec") with Some (IpsecOpt c f) => Some (c, f) | _ => None end.

(** ** Small parsers *)

(** The digit loop of [parseIntInRange]: at most nine digits, so the [long]
    cannot overflow. *)
Definition parseIntInRange (s : bytes) (lo hi : Z) (what : bytes) : bytes + Z :=
  match s with
  | [] => inl (what ++ str ": empty value")
  | c :: t =>
      let neg := Ascii.eqb c "-" in
      let ds := if Ascii.eqb c "-" || Ascii.eqb c "+" then t else s in
      let notInt := what ++ str ": '" ++ s ++ str "' is not an integer" in
      if is_empty ds || (9 <? size_z ds) then inl notInt
      else if negb (forallb is_digit ds) then inl notInt
      else
        let v := if neg then - dec_value ds else dec_value ds in
        if (v <? lo) || (hi <? v) then
          inl (what ++ str ": " ++ s ++ str " is out of range (" ++ dec_signed lo ++ str ".." ++ dec_signed hi ++ str ")")
        else inr v
  end.

Definition parsePort (s what : bytes) : bytes + Z := parseIntInRange s 1 65535 what.

Definition parsePortRange (s : bytes) : bytes + PortRange :=
  let r := match find_char "-" s with
           | None => a ← parsePort s (str "port"); b ← parsePort s (str "port"); inr (a, b)
           | Some h => a ← parsePort (take h s) (str "port range start"); b ← parsePort (drop (S h) s) (str "port range end"); inr (a, b)
           end in
  match r with
  | inl e => inl e
  | inr (a, b) => if b <? a then inl (str "port range '" ++ s ++ str "' is reversed (start > end)") else inr (a, b)
  end.

(** One [while] loop of [substituteVars], on what follows [pos]: what was
    replaced is not looked at again.  [None] is a loop that does not end. *)
Fixpoint substVarLoop (fuel : nat) (token val s : bytes) : option bytes :=
  match fuel with
  | O => None
  | S f =>
      match find_sub token s with
      | None => Some s
      | Some pos => (fun r => take pos s ++ val ++ r) <$> substVarLoop f token val (drop (pos + length token) s)
      end
  end.

Definition varToken (name : bytes) : bytes := str "${" ++ name ++ str "}".

Definition substituteVars (input : bytes) (vars : StrMap bytes) : bytes :=
  fold_left (fun s kv => default s (substVarLoop (S (length s)) (varToken (fst kv)) (snd kv) s)) vars input.

Definition validateTopLevelNetwork (v : bytes) : bytes :=
  if beq v (str "auto") then []
  else if is_empty v then str "top-level 'network:' must be a string (currently only 'auto' is supported)"
  else str "top-level 'network: " ++ v ++ str "' is not supported (the only currently-accepted value is 'auto'; "
       ++ str "for richer config use 'options.net' instead)".

Definition quoted (v : bytes) : bytes := str "'" ++ v ++ str "'".

Definition validateStaticIp4 (v : bytes) : bytes :=
  if is_empty v then str "address is empty"
  else if negb (has_char "/" v) then (if NetAddr.isV4 v then [] else quoted v ++ str " is not an IPv4 address")
  else guard_err (quoted v ++ str ": ") (PrivOps.validateIpv4Cidr v) [].

Definition validateStaticIp6 (v : bytes) : bytes :=
  if is_empty v then str "address is empty"
  else if negb (has_char "/" v) then (if NetAddr.isV6 v then [] else quoted v ++ str " is not an IPv6 address")
  else guard_err (quoted v ++ str ": ") (PrivOps.validateIpv6Cidr v) [].

Definition validateGateway4 (v : bytes) : bytes :=
  if is_empty v then str "gateway is empty"
  else if has_char "/" v then str "gateway must be a bare IPv4 address, not a CIDR"
  else if NetAddr.isV4 v then [] else quoted v ++ str " is not an IPv4 address".

(** ** [Spec::validate] *)

(** crate.yml's [networks], and what else specs take from it. *)
Record NetworkDef := { nd_mode : bytes; nd_bridge : bytes; nd_interface : bytes; nd_gateway : bytes; nd_vlan : Z;
                       nd_staticMac : bool; nd_ip6 : bytes }.
Record Settings := { networks : StrMap NetworkDef; defaultBridge : bytes; staticMacDefault : bool }.

Definition isFullPath (path : bytes) : bool := match path with c :: _ => Ascii.eqb c "/" | [] => false end.

Definition allOptions : list bytes :=
  [str "x11"; str "net"; str "ssl-certs"; str "tor"; str "video"; str "gl"; str "wireguard"; str "ipsec";
   str "no-rm-static-libs"; str "dbg-ktrace"].

Definition validLimits : list bytes :=
  [str "cputime"; str "datasize"; str "stacksize"; str "coredumpsize"; str "memoryuse"; str "memorylocked"; str "maxproc";
   str "openfiles"; str "vmemoryuse"; str "pseudoterminals"; str "swapuse"; str "nthr"; str "msgqqueued"; str "msgqsize";
   str "nmsgq"; str "nsem"; str "nsemop"; str "nshm"; str "shmsize"; str "wallclock"; str "pcpu"; str "readbps";
   str "writebps"; str "readiops"; str "writeiops"].

Definition mem (s : bytes) (l : list bytes) : bool := existsb (beq s) l.

Section validate.
(** The caller's passwd entry, the system configuration, and the script
    sections that the build collects from the sources. *)
Context (pw : option UtilPure.PwEnt) (cfg : Settings) (allScriptSections : list bytes).

(** [isFullPath(Util::pathSubstituteVarsInPath(p))]; the substitution raises
    without a passwd entry. *)
Definition fullAfterSubst (p : bytes) : bytes + bool :=
  match UtilPure.pathSubstituteVarsInPath pw p with
  | Some q => inr (isFullPath q)
  | None => inl (str "getpwuid failed")
  end.

(** [!isFullPath(subst(jail)) || !isFullPath(subst(host))] *)
Definition checkShare (s : Share) : bytes + unit :=
  let e := str "the shared directory paths have to be a full paths, share=" ++ sh_jail s ++ str "->" ++ sh_host s in
  a ← fullAfterSubst (sh_jail s);
  if negb a then inl e
  else b ← fullAfterSubst (sh_host s); errIf (negb b) e.

Definition checkFileShare (s : Share) : bytes + unit :=
  _ ← checkShare s;
  errIf (sh_readOnly s) (str "files/share: a file share cannot be read-only: " ++ sh_jail s).

(** The duplicate search over [pkgLocalOverride]; [pkgs] is the map so far. *)
Fixpoint checkOverrides (pkgs : StrMap bytes) (l : list (bytes * bytes)) : bytes + unit :=
  match l with
  | [] => inr tt
  | (k, v) :: rest =>
      match OMap.find k pkgs with
      | Some v0 => inl (str "duplicate local override packages: " ++ k ++ str "->" ++ v0 ++ str " and " ++ k ++ str "->" ++ v)
      | None => checkOverrides (OMap.insert k v pkgs) rest
      end
  end.

(** The tmpfs loop; [before] are the entries before this one. *)
Fixpoint checkTmpfs (shares : list Share) (before l : list Tmpfs) : bytes + unit :=
  match l with
  | [] => inr tt
  | t :: rest =>
      _ ← errOn (str "tmpfs: ") (Mounts.validateTmpfsPath (tm_path t));
      _ ← errOn (str "tmpfs/" ++ tm_path t ++ str ": ") (Mounts.validateTmpfsSize (tm_size t));
      _ ← errIf (existsb (fun b => beq (tm_path b) (tm_path t)) before) (str "tmpfs: '" ++ tm_path t ++ str "' is listed twice");
      _ ← errIf (existsb (fun d => beq (sh_jail d) (tm_path t)) shares)
            (str "tmpfs: '" ++ tm_path t ++ str "' is also a dirs/share destination — the tmpfs would hide the share");
      checkTmpfs shares (before ++ [t]) rest
  end.

(** Differences of [unsigned]s. *)
Definition checkSpan (r : PortRange * PortRange) : bytes + unit :=
  let '((a, b), (c, d)) := r in
  errIf (negb (u32 (b - a) =? u32 (d - c)))
    (str "port ranges have different spans:" ++ dec a ++ str "-" ++ dec b ++ str " and " ++ dec c ++ str "-" ++ dec d).

Definition available : bytes := concat (map (fun n => str " " ++ fst n) (networks cfg)).

Definition checkNetworkName (n : bytes) : bytes + unit :=
  errIf (negb (is_empty n) && negb (OMap.count n (networks cfg)))
    (str "options/net/network '" ++ n ++ str "' not found in system config"
     ++ (if is_empty (networks cfg) then str "; no networks defined in crate.yml" else str "; available:" ++ available)).

Definition extraTag (i : nat) : bytes := str "options/net/extra[" ++ dec (Z.of_nat i) ++ str "]".

Definition checkExtraName (ie : nat * ExtraInterface) : bytes + unit :=
  let n := ex_networkName (snd ie) in
  errIf (negb (is_empty n) && negb (OMap.count n (networks cfg)))
    (extraTag (fst ie) ++ str "/network '" ++ n ++ str "' not found in system config").

Definition checkExtra (ie : nat * ExtraInterface) : bytes + unit :=
  let '(i, ex) := ie in
  _ ← errIf (bool_decide (ex_mode ex = Bridge) && is_empty (ex_bridgeIface ex)) (extraTag i ++ str "/mode=bridge requires 'bridge' field");
  _ ← errIf (bool_decide (ex_mode ex = Passthrough) && is_empty (ex_passthroughIface ex)) (extraTag i ++ str "/mode=passthrough requires 'interface' field");
  _ ← errIf (bool_decide (ex_mode ex = Netgraph) && is_empty (ex_netgraphIface ex)) (extraTag i ++ str "/mode=netgraph requires 'interface' field");
  _ ← errIf (bool_decide (ex_mode ex = Nat)) (extraTag i ++ str "/mode=nat is not allowed for extra interfaces");
  _ ← errIf (negb (is_empty (ex_gateway ex)) && negb (bool_decide (ex_ipMode ex = IpStatic))) (extraTag i ++ str "/gateway is only valid with static IP");
  errIf (bool_decide (ex_ip6Mode ex = Ip6Static) && is_empty (ex_staticIp6 ex)) (extraTag i ++ str "/ip6 with static address requires an IPv6 address").

Definition numbered {A} (l : list A) : list (nat * A) := combine (List.seq 0 (length l)) l.

Definition checkModes (o : NetOptDetails) : bytes + unit :=
  let isMode m := bool_decide (mode o = m) in
  _ ← errIf (isMode Bridge && is_empty (bridgeIface o)) (str "options/net/mode=bridge requires 'bridge' field (e.g. bridge: bridge0)");
  _ ← errIf (autoCreateBridge o && negb (isMode Bridge)) (str "options/net/auto_create_bridge: true is only meaningful in bridge mode");
  _ ← errIf (isMode Passthrough && is_empty (passthroughIface o)) (str "options/net/mode=passthrough requires 'interface' field");
  _ ← errIf (isMode Netgraph && is_empty (netgraphIface o)) (str "options/net/mode=netgraph requires 'interface' field");
  _ ← (if isMode Nat then
         _ ← errIf (negb (is_empty (bridgeIface o))) (str "options/net/bridge is only valid with mode=bridge");
         _ ← errIf (bool_decide (ipMode o = Dhcp)) (str "options/net/ip=dhcp is not valid with mode=nat (NAT uses automatic IP)");
         errIf (bool_decide (ipMode o = IpStatic)) (str "options/net/ip with static address is not valid with mode=nat")
       else inr tt);
  _ ← errIf (negb (isMode Nat) && allowInbound o) (str "options/net/inbound-tcp/udp are only valid with mode=nat");
  _ ← errIf (negb (is_empty (gateway o)) && negb (bool_decide (ipMode o = IpStatic))) (str "options/net/gateway is only valid with static IP");
  _ ← errIf ((0 <=? vlanId o) && isMode Nat) (str "options/net/vlan is only valid with bridge, passthrough, or netgraph mode");
  _ ← errIf (staticMac o && isMode Nat) (str "options/net/static-mac is only valid with bridge, passthrough, or netgraph mode");
  _ ← errIf (negb (bool_decide (ip6Mode o = Ip6None)) && isMode Nat)
        (str "options/net/ip6 (slaac/static) is only valid with bridge, passthrough, or netgraph mode; use ipv6: true for NAT mode");
  _ ← errIf (bool_decide (ip6Mode o = Ip6Static) && is_empty (staticIp6 o)) (str "options/net/ip6 with static address requires an IPv6 address (e.g. fd00::50/64)");
  errIf (negb (is_empty (extraInterfaces o)) && isMode Nat)
    (str "options/net/extra interfaces are only valid with bridge, passthrough, or netgraph primary mode").

Definition checkNet (o : NetOptDetails) : bytes + unit :=
  _ ← forM checkSpan (inboundPortsTcp o);
  _ ← forM checkSpan (inboundPortsUdp o);
  _ ← checkNetworkName (networkName o);
  _ ← forM checkExtraName (numbered (extraInterfaces o));
  _ ← checkModes o;
  forM checkExtra (numbered (extraInterfaces o)).

Definition checkZfs (ds : bytes) : bytes + unit :=
  errIf (is_empty ds || starts_with (str "/") ds || has_sub (str "..") ds) (str "invalid ZFS dataset name: " ++ ds).

Definition checkEncryption (s : Spec) : bytes + unit :=
  if encrypted s then
    _ ← errIf (negb (is_empty (encryptionMethod s)) && negb (beq (encryptionMethod s) (str "zfs")))
          (str "only 'zfs' encryption method is currently supported");
    _ ← errIf (negb (is_empty (encryptionKeyformat s)) && negb (mem (encryptionKeyformat s) [str "passphrase"; str "hex"; str "raw"]))
          (str "unsupported encryption keyformat: " ++ encryptionKeyformat s);
    errIf (negb (is_empty (encryptionCipher s))
           && negb (mem (encryptionCipher s) [str "aes-256-gcm"; str "aes-256-ccm"; str "aes-128-gcm"; str "aes-128-ccm"]))
      (str "unsupported encryption cipher: " ++ encryptionCipher s)
  else inr tt.

Definition checkCow (c : CowOptions) : bytes + unit :=
  _ ← errIf (negb (mem (cow_mode c) [str "ephemeral"; str "persistent"])) (str "cow/mode must be 'ephemeral' or 'persistent'");
  errIf (negb (mem (cow_backend c) [str "zfs"; str "unionfs"])) (str "cow/backend must be 'zfs' or 'unionfs'").

Definition checkProxy (p : ProxyEntry) : bytes + unit :=
  _ ← errIf (negb (isFullPath (px_host p))) (str "socket_proxy/proxy/host path must be absolute: " ++ px_host p);
  errIf (negb (isFullPath (px_jail p))) (str "socket_proxy/proxy/jail path must be absolute: " ++ px_jail p).

Definition checkSocketProxy (sp : SocketProxy) : bytes + unit :=
  _ ← forM (fun s => errIf (negb (isFullPath s)) (str "socket_proxy/share paths must be absolute: " ++ s)) (sp_share sp);
  forM checkProxy (sp_proxy sp).

Definition checkFwPort (what : bytes) (port : Z) : bytes + unit :=
  errIf ((port =? 0) || (65535 <? port)) (what ++ str " port out of range: " ++ dec port).

Definition checkFirewall (f : FirewallPolicy) : bytes + unit :=
  _ ← forM (checkFwPort (str "firewall/allow-tcp")) (fw_allowTcp f);
  forM (checkFwPort (str "firewall/allow-udp")) (fw_allowUdp f).

Definition checkPrivacy (r : bytes + (Privacy.Mode * bytes)) : bytes + unit := match r with inl e => inl e | inr _ => inr tt end.

(** [if (ptr) ...] *)
Definition whenSome {A} (o : option A) (f : A -> bytes + unit) : bytes + unit := match o with Some a => f a | None => inr tt end.

(** What is checked before the options. *)
Definition validateRun (s : Spec) : bytes + unit :=
  _ ← errIf (is_empty (runCmdExecutable s) && is_empty (runServices s) && negb (optionExists s (str "tor")))
        (str "crate has to have either the executable to run, some services to run, or both, it can't have nothing to do");
  _ ← checkOverrides [] (pkgLocalOverride s);
  _ ← errIf (negb (is_empty (runCmdExecutable s)) && negb (isFullPath (runCmdExecutable s)))
        (str "the executable path has to be a full path, executable=" ++ runCmdExecutable s);
  _ ← errOn [] (RunPure.validateRunUser (runUser s));
  _ ← errIf (RunPure.kRunTimeoutMax <? runTimeoutSec s) (str "run/timeout exceeds the 30-day maximum");
  _ ← checkPrivacy (Privacy.parseHostid (privacyHostid s));
  checkPrivacy (Privacy.parseHostname (privacyHostname s)).

Definition validateFiles (s : Spec) : bytes + unit :=
  _ ← forM checkShare (dirsShare s);
  _ ← forM checkFileShare (filesShare s);
  _ ← checkTmpfs (dirsShare s) [] (tmpfs s);
  _ ← forM (fun n => errOn [] (Mounts.validateEtcKeepName n)) (etcKeep s);
  forM (fun p => ok ← fullAfterSubst p; errIf (negb ok) (str "pkg/add entries must be absolute paths to .txz package files: " ++ p)) (pkgAdd s).

Definition validateOptions (s : Spec) : bytes + unit :=
  _ ← forM (fun o => errIf (negb (mem (fst o) allOptions)) (str "the unknown option '" ++ fst o ++ str "' was supplied")) (options s);
  _ ← forM (fun x => errIf (is_empty (fst x) || negb (mem (fst x) allScriptSections)) (str "the unknown script section '" ++ fst x ++ str "' was supplied")) (scripts s);
  whenSome (optionNet s) checkNet.

Definition validateSections (s : Spec) : bytes + unit :=
  _ ← forM checkZfs (zfsDatasets s);
  _ ← forM (fun l => errIf (negb (mem (fst l) validLimits)) (str "unknown resource limit: " ++ fst l)) (limits s);
  _ ← checkEncryption s;
  _ ← errIf (negb (enforceStatfs s =? -1) && ((enforceStatfs s <? 0) || (2 <? enforceStatfs s))) (str "security/enforce_statfs must be 0, 1, or 2");
  _ ← whenSome (cowOptions s) checkCow;
  _ ← whenSome (clipboardOptions s) (fun c =>
        errIf (negb (mem (clip_mode c) [str "isolated"; str "shared"; str "none"])) (str "clipboard/mode must be 'isolated', 'shared', or 'none'"));
  _ ← whenSome (dbusOptions s) (fun d =>
        errIf (negb (dbus_systemBus d) && negb (dbus_sessionBus d)) (str "dbus section present but both system and session are disabled"));
  _ ← forM (fun m => errIf (is_empty (svc_name m)) (str "managed service entry missing name")) (managedServices s);
  _ ← whenSome (socketProxy s) checkSocketProxy;
  _ ← whenSome (firewallPolicy s) checkFirewall;
  _ ← whenSome (terminalOptions s) (fun t =>
        errIf (negb (tty_devfsRuleset t =? -1) && ((tty_devfsRuleset t <? 0) || (65535 <? tty_devfsRuleset t))) (str "terminal/devfs_ruleset must be 0-65535"));
  _ ← whenSome (optionWireguard s) (fun p => if is_empty p then inr tt else errOn (str "options/wireguard/config: ") (VpnRuntime.validateConfigPath p));
  whenSome (optionIpsec s) (fun cf => if is_empty (fst cf) then inr tt else errOn (str "options/ipsec/conn: ") (VpnRuntime.validateConnName (fst cf))).

Definition validate (s : Spec) : bytes + unit :=
  _ ← validateRun s;
  _ ← validateFiles s;
  _ ← validateOptions s;
  validateSections s.
End validate.

End Spec.
