(* ===== verification/SpecParse.v ===== *)
(** * The spec parser: [parseSpecFromNode] of lib/spec.cpp

    One definition per top-level section, each an update of the spec that may
    fail: the sections from [base] to [options].  The others, and the loop over
    the keys of the document, are in SpecSections.v. *)

From S2P Require Import Prelude CStd UtilPure OMap RecordUpd Limits RunPure PrivOps SpecParts ThinJail Yaml Spec.

Module SpecParse.
Import Spec.

Definition allOptionsLst : list bytes :=
  [str "x11"; str "net"; str "ssl-certs"; str "tor"; str "video"; str "gl"; str "no-rm-static-libs"; str "dbg-ktrace";
   str "wireguard"; str "ipsec"].

(** [std::set<std::string>], in iteration order. *)
Definition setOf (l : list bytes) : list bytes := map fst (fold_left (fun m k => OMap.insert k tt m) l []).

Section parse.
Context `{Yaml}.

(** [for (auto b : node) { if (isKey(b, ...)) ... }] *)
Definition eachEntry {A} (n : Node) (f : A -> bytes -> Node -> Node -> bytes + A) (a : A) : bytes + A :=
  es ← entries n;
  foldM (fun x kv => k ← AsString (fst kv); f x k (fst kv) (snd kv)) es a.

Definition unknown {A} (section : bytes) (key : Node) : bytes + A :=
  inl (str "unknown element " ++ section ++ str "/" ++ emit key ++ str " in spec").

Definition isKey (k : bytes) (names : list bytes) : bool := mem k names.

(** ** base, pkg, run *)

Definition baseEntry (s : Spec) (k : bytes) (kn v : Node) : bytes + Spec :=
  if isKey k [str "keep"] then l ← listOrScalarOnly v (str "base/keep"); inr (s <| baseKeep ::= fun x => x ++ l |>)
  else if isKey k [str "keep-wildcard"] then
    l ← listOrScalarOnly v (str "base/keep-wildcard"); inr (s <| baseKeepWildcard ::= fun x => x ++ l |>)
  else if isKey k [str "remove"] then l ← listOrScalarOnly v (str "base/remove"); inr (s <| baseRemove ::= fun x => x ++ l |>)
  else if isKey k [str "mode"] then
    _ ← errIf (negb (IsScalar v)) (str "base/mode must be a scalar: full or host-ro");
    m ← AsString v;
    if beq m (str "host-ro") then inr (s <| baseHostRo := true |>)
    else if negb (beq m (str "full")) then inl (str "unknown base/mode '" ++ m ++ str "' in spec (expected full or host-ro)")
    else inr s
  else if isKey k [str "host-dirs"] then
    l ← listOrScalarOnly v (str "base/host-dirs");
    let s' := s <| baseHostDirs ::= fun x => x ++ l |> in
    _ ← errOn (str "base/host-dirs: ") (ThinJail.validateHostDirs (baseHostDirs s'));
    inr s'
  else unknown (str "base") kn.

Definition parseBase (n : Node) (s : Spec) : bytes + Spec :=
  s' ← eachEntry n baseEntry s;
  _ ← errIf (negb (is_empty (baseHostDirs s')) && negb (baseHostRo s')) (str "base/host-dirs is only meaningful with base/mode: host-ro");
  inr s'.

Definition overridePair (kv : Node * Node) : bytes + (bytes * bytes) := a ← AsString (fst kv); b ← AsString (snd kv); inr (a, b).

Definition pkgEntry (s : Spec) (k : bytes) (kn v : Node) : bytes + Spec :=
  if isKey k [str "install"] then l ← listOrScalarOnly v (str "pkg/install"); inr (s <| pkgInstall ::= fun x => x ++ l |>)
  else if isKey k [str "local-override"] then
    _ ← errIf (negb (IsMap v)) (str "pkg/local-override must be a map of package name to local package file path");
    es ← entries v;
    l ← mapM overridePair es;
    inr (s <| pkgLocalOverride ::= fun x => x ++ l |>)
  else if isKey k [str "add"] then l ← listOrScalarOnly v (str "pkg/add"); inr (s <| pkgAdd ::= fun x => x ++ l |>)
  else if isKey k [str "nuke"] then l ← listOrScalarOnly v (str "pkg/nuke"); inr (s <| pkgNuke ::= fun x => x ++ l |>)
  else if isKey k [str "keep-pkg"] then
    _ ← errIf (negb (IsScalar v)) (str "pkg/keep-pkg must be a boolean");
    w ← AsString v;
    if mem w [str "true"; str "yes"; str "on"] then inr (s <| pkgKeepPkg := true |>)
    else if mem w [str "false"; str "no"; str "off"] then inr (s <| pkgKeepPkg := false |>)
    else inl (str "pkg/keep-pkg must be a boolean, got '" ++ w ++ str "'")
  else unknown (str "pkg") kn.

Definition parsePkg (n : Node) (s : Spec) : bytes + Spec := eachEntry n pkgEntry s.

Definition runEntry (s : Spec) (k : bytes) (kn v : Node) : bytes + Spec :=
  if isKey k [str "command"] then
    command ← scalar v (str "run/command");
    match find_char " " command with
    | None => inr (s <| runCmdExecutable := command |>)
    | Some space => inr (s <| runCmdExecutable := take space command |> <| runCmdArgs := drop space command |>)
    end
  else if isKey k [str "service"] then l ← listOrScalarOnly v (str "run/service"); inr (s <| runServices ::= fun x => x ++ l |>)
  else if isKey k [str "user"] then
    u ← scalar v (str "run/user");
    _ ← errOn [] (RunPure.validateRunUser u);
    inr (s <| runUser := u |>)
  else if isKey k [str "timeout"] then
    t ← scalar v (str "run/timeout");
    sec ← RunPure.parseRunTimeout t;
    inr (s <| runTimeoutSec := sec |>)
  else unknown (str "run") kn.

Definition parseRun (n : Node) (s : Spec) : bytes + Spec := eachEntry n runEntry s.

(** ** dirs, files, tmpfs, etc *)

Definition oneDirShare (s : Spec) (e : Node) : bytes + Spec :=
  match e with
  | Scalar _ =>
      p ← AsString e;
      let '(p', ro) := Mounts.splitRoSuffix p in
      inr (s <| dirsShare ::= fun x => x ++ [{| sh_jail := p'; sh_host := p'; sh_readOnly := ro |}] |>)
  | Sequence [a; b] =>
      jail ← AsString a; host ← AsString b;
      let '(jail', roJail) := Mounts.splitRoSuffix jail in
      let '(host', roHost) := Mounts.splitRoSuffix host in
      inr (s <| dirsShare ::= fun x => x ++ [{| sh_jail := jail'; sh_host := host'; sh_readOnly := roHost || roJail |}] |>)
  | Sequence [a; b; c] =>
      jail ← AsString a; host ← AsString b; flag ← AsString c;
      match Mounts.parseRoFlag flag with
      | inl err => inl (str "dirs/share: " ++ err)
      | inr ro => inr (s <| dirsShare ::= fun x => x ++ [{| sh_jail := jail; sh_host := host; sh_readOnly := ro |}] |>)
      end
  | _ => inl (str "elements of the dirs/share list have to be scalars or lists [jailDir, hostDir] or [jailDir, hostDir, ro|rw]")
  end.

Definition dirsEntry (s : Spec) (k : bytes) (kn v : Node) : bytes + Spec :=
  if isKey k [str "share"] then
    if IsSequence v then foldM oneDirShare (elements v) s else inl (str "dirs/share has to be a list")
  else unknown (str "dirs") kn.

Definition parseDirs (n : Node) (s : Spec) : bytes + Spec := eachEntry n dirsEntry s.

Definition oneFileShare (s : Spec) (e : Node) : bytes + Spec :=
  match e with
  | Scalar _ =>
      p ← AsString e;
      let '(p', ro) := Mounts.splitRoSuffix p in
      if ro then inl (str "files/share: '" ++ p ++ str "' — a file share is a hard link or a copy and cannot be read-only; share its directory with :ro instead")
      else inr (s <| filesShare ::= fun x => x ++ [{| sh_jail := p'; sh_host := p'; sh_readOnly := false |}] |>)
  | Sequence [a; b] =>
      jail ← AsString a; host ← AsString b;
      inr (s <| filesShare ::= fun x => x ++ [{| sh_jail := jail; sh_host := host; sh_readOnly := false |}] |>)
  | Sequence [_; _; _] =>
      inl (str "files/share: a file share cannot be read-only (hard link or copy); share its directory with :ro instead")
  | _ => inl (str "elements of the files/share list have to be scalars or lists of size two (fromFile, toFile)")
  end.

Definition filesEntry (s : Spec) (k : bytes) (kn v : Node) : bytes + Spec :=
  if isKey k [str "share"] then
    _ ← errIf (negb (IsSequence v)) (str "files/share must be a list");
    foldM oneFileShare (elements v) s
  else unknown (str "files") kn.

Definition parseFiles (n : Node) (s : Spec) : bytes + Spec :=
  _ ← errIf (negb (IsMap n)) (str "files must be a map");
  eachEntry n filesEntry s.

(** The [add] lambda. *)
Definition addTmpfs (s : Spec) (path size : bytes) : bytes + Spec :=
  _ ← errOn (str "tmpfs: ") (Mounts.validateTmpfsPath path);
  _ ← errOn (str "tmpfs/" ++ path ++ str ": ") (Mounts.validateTmpfsSize size);
  _ ← errIf (existsb (fun t => beq (tm_path t) path) (tmpfs s)) (str "tmpfs: '" ++ path ++ str "' is listed twice");
  inr (s <| tmpfs ::= fun x => x ++ [{| tm_path := path; tm_size := size |}] |>).

Definition tmpfsItem (s : Spec) (e : Node) : bytes + Spec :=
  _ ← errIf (negb (IsScalar e)) (str "tmpfs: list entries must be paths");
  p ← AsString e;
  addTmpfs s p [].

Definition tmpfsEntry (s : Spec) (kv : Node * Node) : bytes + Spec :=
  let '(kn, v) := kv in
  size ← (if IsScalar v then AsString v
          else if negb (IsNull v) then inl (str "tmpfs/" ++ emit kn ++ str ": the size must be a scalar like 512m")
          else inr []);
  p ← AsString kn;
  addTmpfs s p size.

Definition parseTmpfs (n : Node) (s : Spec) : bytes + Spec :=
  match n with
  | Sequence l => foldM tmpfsItem l s
  | Map l => foldM tmpfsEntry l s
  | _ => inl (str "tmpfs must be a list of paths or a map path -> size")
  end.

Definition keepName (s : Spec) (n : bytes) : bytes + Spec :=
  _ ← errOn [] (Mounts.validateEtcKeepName n);
  inr (if mem n (etcKeep s) then s else s <| etcKeep ::= fun x => x ++ [n] |>).

Definition etcEntry (s : Spec) (k : bytes) (kn v : Node) : bytes + Spec :=
  if isKey k [str "keep"] then names ← listOrScalarOnly v (str "etc/keep"); foldM keepName names s
  else unknown (str "etc") kn.

Definition parseEtc (n : Node) (s : Spec) : bytes + Spec :=
  _ ← errIf (negb (IsMap n)) (str "etc must be a map");
  eachEntry n etcEntry s.

(** ** network and options *)

Definition modeText (m : NetMode) : bytes :=
  match m with Bridge => str "bridge" | Passthrough => str "passthrough" | Netgraph => str "netgraph" | _ => str "?" end.

Definition setOption (s : Spec) (k : bytes) (d : option OptDetails) : Spec := s <| options ::= OMap.insert k d |>.

Definition parseNetwork (n : Node) (s : Spec) : bytes + Spec :=
  _ ← errIf (negb (IsScalar n)) (str "top-level 'network' must be a scalar string (currently 'auto')");
  v ← AsString n;
  _ ← errOn [] (validateTopLevelNetwork v);
  let details := default blankNet (optionNet s) in
  if beq v (str "auto") then
    _ ← errIf (negb (bool_decide (mode details = Nat)) && negb (bool_decide (mode details = AutoMode)))
          (str "top-level 'network: auto' conflicts with options.net.mode = '" ++ modeText (mode details) ++ str "' — pick one");
    inr (setOption s (str "net") (Some (NetOpt (details <| mode := AutoMode |>))))
  else inr (setOption s (str "net") (Some (NetOpt details))).

(** [Add] for the options map: [(void)container[val]] *)
Definition addOption (s : Spec) (k : bytes) : Spec := if OMap.count k (options s) then s else setOption s k None.

Definition optionsList (s0 : Spec) (names : list bytes) : Spec :=
  let s1 := fold_left addOption names s0 in
  let s2 := if OMap.count (str "net") (options s1) then setOption s1 (str "net") (Some (NetOpt createDefault)) else s1 in
  if OMap.count (str "tor") (options s2) then
    setOption (setOption s2 (str "tor") (Some (TorOpt false))) (str "net") (Some (NetOpt (blankNet <| outboundWan := true |>)))
  else s2.

Definition outboundWord (size : Z) (d : NetOptDetails) (v : bytes) : bytes + NetOptDetails :=
  if beq v (str "all") then
    _ ← errIf (1 <? size) (str "net/outbound contains other elements besides 'all'");
    inr (d <| outboundWan := true |> <| outboundLan := true |> <| outboundHost := true |> <| outboundDns := true |>)
  else if beq v (str "none") then
    _ ← errIf (1 <? size) (str "net/outbound contains other elements besides 'none'"); inr d
  else if beq v (str "wan") then inr (d <| outboundWan := true |>)
  else if beq v (str "lan") then inr (d <| outboundLan := true |>)
  else if beq v (str "host") then inr (d <| outboundHost := true |>)
  else if beq v (str "dns") then inr (d <| outboundDns := true |>)
  else inl (str "net/outbound contains the unknown element '" ++ v ++ str "'").

(** [Add] for the port lists. *)
Definition portItem (w : bytes) : bytes + (PortRange * PortRange) := v ← UtilPure.toUInt w; inr ((v, v), (v, v)).

Definition portEntry (kv : Node * Node) : bytes + (PortRange * PortRange) :=
  a ← AsString (fst kv); ra ← parsePortRange a; b ← AsString (snd kv); rb ← parsePortRange b; inr (ra, rb).

Definition inbound (what : bytes) (v : Node) : bytes + list (PortRange * PortRange) :=
  r ← listOrScalar v;
  match r with
  | Some l => mapM portItem l
  | None =>
      match v with
      | Map l => mapM portEntry l
      | _ => inl (str "options/net/" ++ what ++ str " value must be an array, a scalar or a map")
      end
  end.

Definition netMode (w : bytes) : option NetMode :=
  if beq w (str "nat") then Some Nat
  else if beq w (str "bridge") then Some Bridge
  else if beq w (str "passthrough") then Some Passthrough
  else if beq w (str "netgraph") then Some Netgraph
  else if beq w (str "auto") then Some AutoMode
  else None.

(** [vlan] is parsed into 1..4094, then tested again. *)
Definition vlanOf (what w : bytes) : bytes + Z :=
  v ← parseIntInRange w 1 4094 what;
  _ ← errIf ((v <? 1) || (4094 <? v)) (what ++ str " must be 1-4094");
  inr v.

Definition extraEntry (x : ExtraInterface) (k : bytes) (kn v : Node) : bytes + ExtraInterface :=
  let at_ f := str "options/net/extra[]/" ++ str f in
  if isKey k [str "network"] then w ← AsString v; inr (x <| ex_networkName := w |>)
  else if isKey k [str "mode"] then
    w ← AsString v;
    if beq w (str "bridge") then inr (x <| ex_mode := Bridge |>)
    else if beq w (str "passthrough") then inr (x <| ex_mode := Passthrough |>)
    else if beq w (str "netgraph") then inr (x <| ex_mode := Netgraph |>)
    else inl (at_ "mode must be 'bridge', 'passthrough', or 'netgraph'")
  else if isKey k [str "bridge"] then w ← AsString v; inr (x <| ex_bridgeIface := w |>)
  else if isKey k [str "interface"] then
    w ← AsString v;
    _ ← errOn (at_ "interface: ") (PrivOps.validateIfaceName w);
    inr (x <| ex_passthroughIface := w |> <| ex_netgraphIface := w |>)
  else if isKey k [str "ip"] then
    w ← AsString v;
    if beq w (str "dhcp") then inr (x <| ex_ipMode := Dhcp |>)
    else if beq w (str "none") then inr (x <| ex_ipMode := IpNone |>)
    else _ ← errOn (at_ "ip: ") (validateStaticIp4 w); inr (x <| ex_ipMode := IpStatic |> <| ex_staticIp := w |>)
  else if isKey k [str "gateway"] then
    w ← AsString v; _ ← errOn (at_ "gateway: ") (validateGateway4 w); inr (x <| ex_gateway := w |>)
  else if isKey k [str "ip6"] then
    w ← AsString v;
    if beq w (str "slaac") then inr (x <| ex_ip6Mode := Slaac |>)
    else if beq w (str "none") then inr (x <| ex_ip6Mode := Ip6None |>)
    else _ ← errOn (at_ "ip6: ") (validateStaticIp6 w); inr (x <| ex_ip6Mode := Ip6Static |> <| ex_staticIp6 := w |>)
  else if isKey k [str "static-mac"] then b ← boolean v (at_ "static-mac must be a boolean"); inr (x <| ex_staticMac := b |>)
  else if isKey k [str "vlan"] then w ← AsString v; n ← vlanOf (at_ "vlan") w; inr (x <| ex_vlanId := n |>)
  else inl (str "unknown field options/net/extra[]/" ++ k).

Definition extraItem (e : Node) : bytes + ExtraInterface :=
  _ ← errIf (negb (IsMap e)) (str "each entry in options/net/extra must be a map");
  eachEntry e extraEntry blankExtra.

(** The value of [ipv6]. *)
Definition ipv6Value (v : Node) (d : NetOptDetails) : bytes + NetOptDetails :=
  if IsScalar v then
    w ← AsString v;
    if mem w [str "true"; str "yes"] then inr (d <| ipv6 := true |>)
    else if mem w [str "false"; str "no"] then inr (d <| ipv6 := false |>)
    else if beq w (str "slaac") then inr (d <| ip6Mode := Slaac |>)
    else if beq w (str "none") then inr (d <| ip6Mode := Ip6None |>)
    else inr (d <| ip6Mode := Ip6Static |> <| staticIp6 := w |>)
  else b ← boolean v (str "options/net/ipv6 value must be a boolean, 'slaac', 'none', or an IPv6 address"); inr (d <| ipv6 := b |>).

Definition netEntry (d : NetOptDetails) (k : bytes) (kn v : Node) : bytes + NetOptDetails :=
  if isKey k [str "outbound"] then
    l ← listOrScalarOnly v (str "net/outbound");
    let words := setOf l in
    foldM (outboundWord (size_z words)) words d
  else if isKey k [str "inbound-tcp"] then l ← inbound (str "inbound-tcp") v; inr (d <| inboundPortsTcp ::= fun x => x ++ l |>)
  else if isKey k [str "inbound-udp"] then l ← inbound (str "inbound-udp") v; inr (d <| inboundPortsUdp ::= fun x => x ++ l |>)
  else if isKey k [str "ipv6"] then ipv6Value v d
  else if isKey k [str "network"] then w ← AsString v; inr (d <| networkName := w |>)
  else if isKey k [str "mode"] then
    w ← AsString v;
    match netMode w with
    | Some m => inr (d <| mode := m |>)
    | None => inl (str "options/net/mode must be 'nat', 'bridge', 'passthrough', 'netgraph', or 'auto'")
    end
  else if isKey k [str "bridge"] then w ← AsString v; inr (d <| bridgeIface := w |>)
  else if isKey k [str "auto_create_bridge"] then
    w ← AsString v; inr (d <| autoCreateBridge := mem w [str "true"; str "yes"; str "on"; str "1"] |>)
  else if isKey k [str "interface"] then w ← AsString v; inr (d <| passthroughIface := w |> <| netgraphIface := w |>)
  else if isKey k [str "ip"] then
    w ← AsString v;
    if beq w (str "dhcp") then inr (d <| ipMode := Dhcp |>)
    else if beq w (str "none") then inr (d <| ipMode := IpNone |>)
    else _ ← errOn (str "options/net/ip: ") (validateStaticIp4 w); inr (d <| ipMode := IpStatic |> <| staticIp := w |>)
  else if isKey k [str "gateway"] then
    w ← AsString v; _ ← errOn (str "options/net/gateway: ") (validateGateway4 w); inr (d <| gateway := w |>)
  else if isKey k [str "ip6"] then
    w ← AsString v;
    if beq w (str "slaac") then inr (d <| ip6Mode := Slaac |>)
    else if beq w (str "none") then inr (d <| ip6Mode := Ip6None |>)
    else _ ← errOn (str "options/net/ip6: ") (validateStaticIp6 w); inr (d <| ip6Mode := Ip6Static |> <| staticIp6 := w |>)
  else if isKey k [str "static-mac"] then b ← boolean v (str "options/net/static-mac must be a boolean"); inr (d <| staticMac := b |>)
  else if isKey k [str "vlan"] then w ← AsString v; n ← vlanOf (str "options/net/vlan") w; inr (d <| vlanId := n |>)
  else if isKey k [str "extra"] then
    _ ← errIf (negb (IsSequence v)) (str "options/net/extra must be a list of interface configurations");
    l ← mapM extraItem (elements v);
    inr (d <| extraInterfaces ::= fun x => x ++ l |>)
  else inl (str "the invalid value options/net/" ++ emit kn ++ str " supplied").

Definition torEntry (c : bool) (k : bytes) (kn v : Node) : bytes + bool :=
  if isKey k [str "control-port"] then
    match decodeBool v with
    | Some b => inr b
    | None => w ← AsString v; inl (str "options/tor/control-port can't be converted to boolean: " ++ w)
    end
  else inl (str "the invalid value options/tor/" ++ emit kn ++ str " supplied").

Definition wireguardEntry (p : bytes) (k : bytes) (kn v : Node) : bytes + bytes :=
  if isKey k [str "config"] then AsString v
  else inl (str "the invalid value options/wireguard/" ++ emit kn ++ str " supplied").

Definition ipsecEntry (cf : bytes * bytes) (k : bytes) (kn v : Node) : bytes + (bytes * bytes) :=
  if isKey k [str "conn"] then w ← AsString v; inr (w, snd cf)
  else if isKey k [str "conf"] then w ← AsString v; inr (fst cf, w)
  else inl (str "the invalid value options/ipsec/" ++ emit kn ++ str " supplied").

(** One option of the extended format. *)
Definition extendedOption (n : Node) (s : Spec) (soptName : bytes) : bytes + Spec :=
  match field soptName n with
  | None => inr s
  | Some soptVal =>
      if beq soptName (str "net") then
        d ← (if IsMap soptVal then eachEntry soptVal netEntry blankNet else inr createDefault);
        inr (setOption s soptName (Some (NetOpt d)))
      else if beq soptName (str "tor") then
        c ← (if IsMap soptVal then eachEntry soptVal torEntry false else inr false);
        let s1 := setOption s soptName (Some (TorOpt c)) in
        let net := default blankNet (optionNet s1) in
        inr (setOption s1 (str "net") (Some (NetOpt (net <| outboundWan := true |>))))
      else if beq soptName (str "wireguard") then
        p ← (if IsMap soptVal then eachEntry soptVal wireguardEntry [] else inr []);
        inr (setOption s soptName (Some (WireguardOpt p)))
      else if beq soptName (str "ipsec") then
        cf ← (if IsMap soptVal then eachEntry soptVal ipsecEntry ([], []) else inr ([], []));
        inr (setOption s soptName (Some (IpsecOpt (fst cf) (snd cf))))
      else
        _ ← errIf (negb (IsNull soptVal)) (str "options/* values must be empty when options are in the extended format");
        inr (addOption s soptName)
  end.

Definition extendedName (kv : Node * Node) : bytes + unit :=
  name ← AsString (fst kv);
  _ ← errIf (negb (IsMap (snd kv)) && negb (IsNull (snd kv)))
        (str "options/" ++ name ++ str " value must be a map or empty when options are in the extended format");
  errIf (negb (mem name allOptionsLst))
    (str "unknown option '" ++ name ++ str "' in options (known: x11, net, ssl-certs, tor, video, gl, "
     ++ str "no-rm-static-libs, dbg-ktrace, wireguard, ipsec)").

Definition parseOptions (n : Node) (s : Spec) : bytes + Spec :=
  r ← listOrScalar n;
  match r with
  | Some names => inr (optionsList s names)
  | None =>
      match n with
      | Map l =>
          _ ← forM extendedName l;
          foldM (extendedOption n) allOptionsLst s
      | _ => inl (str "options are not scalar, list or map")
      end
  end.
End parse.
End SpecParse.
