(* ===== verification/SpecSections.v ===== *)
(** * The spec parser, second half: [parseSpecFromNode] of lib/spec.cpp

    The sections from [zfs] to [scripts], the loop over the keys of the
    document, and [parseSpec], [parseSpecWithVars]. *)

From S2P Require Import Prelude CStd UtilPure OMap RecordUpd Limits RunPure PrivOps SpecParts ThinJail Yaml Spec SpecParse.

Module SpecSections.
Import Spec SpecParse.

(** ** Default members of the sections' structures *)

Definition blankDns : DnsFilter := {| df_allow := []; df_block := []; df_redirectBlocked := [] |}.
Definition blankX11 : X11Options := {| x11_mode := str "shared"; x11_resolution := str "1280x720"; x11_clipboardEnabled := true |}.
Definition blankClipboard : ClipboardOptions := {| clip_mode := str "shared"; clip_direction := str "both" |}.
Definition blankDbus : DbusOptions := {| dbus_systemBus := false; dbus_sessionBus := true; dbus_allowOwn := []; dbus_denySend := [] |}.
Definition blankService : ManagedService := {| svc_name := []; svc_enable := true; svc_rcvar := [] |}.
Definition blankProxy : ProxyEntry := {| px_host := []; px_jail := []; px_direction := str "bidirectional" |}.
Definition blankSocketProxy : SocketProxy := {| sp_share := []; sp_proxy := [] |}.
Definition blankFirewall : FirewallPolicy := {| fw_blockIp := []; fw_allowTcp := []; fw_allowUdp := []; fw_defaultPolicy := str "allow" |}.
Definition blankAdvanced : SecurityAdvanced :=
  {| sa_capsicum := false; sa_macRules := []; sa_macAllowPorts := []; sa_hideOtherJails := true |}.
Definition blankTerminal : TerminalOptions := {| tty_devfsRuleset := -1; tty_allowRawTty := false |}.
Definition blankGui : GuiOptions := {|
  gui_mode := str "nested"; gui_resolution := str "1280x720"; gui_vnc := false; gui_vncNative := false; gui_vncPort := 0;
  gui_novnc := false; gui_vncPassword := []; gui_gpuDevice := []; gui_gpuDriver := []; gui_backend := [];
  gui_compositor := []; gui_vncBind := [] |}.
Definition blankHealthcheck : Healthcheck :=
  {| hc_test := []; hc_intervalSec := 30; hc_timeoutSec := 5; hc_retries := 3; hc_startPeriodSec := 0 |}.
Definition blankRestart : RestartPolicy := {| rs_policy := str "no"; rs_maxRetries := 3; rs_delaySec := 5 |}.
Definition blankBaseContainer : BaseContainer := {| bc_type := []; bc_name := [] |}.
Definition blankCron : CronJob := {| cron_schedule := []; cron_command := []; cron_user := [] |}.

#[export] Instance eta_Devices : Eta Devices.Devices := fun d =>
  Devices.Build_Devices (Devices.sound d) (Devices.gpu d) (Devices.video d) (Devices.input d) (Devices.usb d)
    (Devices.serial d) (Devices.all d).

Section sections.
Context `{Yaml}.

Definition mapOnly (n : Node) (m : bytes) : bytes + unit := errIf (negb (IsMap n)) m.

(** [scalar] into a member that must then be one of some words. *)
Definition word (v : Node) (opath : bytes) (allowed : list bytes) (m : bytes) : bytes + bytes :=
  w ← scalar v opath; _ ← errIf (negb (mem w allowed)) m; inr w.

(** ** zfs, ipc, limits, encrypted, dns_filter *)

Definition zfsEntry (s : Spec) (k : bytes) (kn v : Node) : bytes + Spec :=
  if isKey k [str "datasets"] then l ← listOrScalarOnly v (str "zfs/datasets"); inr (s <| zfsDatasets ::= fun x => x ++ l |>)
  else unknown (str "zfs") kn.

Definition parseZfs (n : Node) (s : Spec) : bytes + Spec := eachEntry n zfsEntry s.

Definition ipcEntry (s : Spec) (k : bytes) (kn v : Node) : bytes + Spec :=
  if isKey k [str "sysvipc"] then b ← boolean v (str "ipc/sysvipc must be a boolean"); inr (s <| allowSysvipc := b |>)
  else if isKey k [str "raw_sockets"; str "raw-sockets"] then
    b ← boolean v (str "ipc/raw_sockets must be a boolean");
    inr (s <| ipcRawSocketsOverride := true |> <| ipcRawSocketsValue := b |>)
  else if isKey k [str "mqueue"] then b ← boolean v (str "ipc/mqueue must be a boolean"); inr (s <| allowMqueue := b |>)
  else unknown (str "ipc") kn.

Definition parseIpc (n : Node) (s : Spec) : bytes + Spec := _ ← mapOnly n (str "ipc must be a map"); eachEntry n ipcEntry s.

(** The checks of [limits/disk_quota]. *)
Definition checkDiskQuota (dq : bytes) : bytes + unit :=
  let bad m := str "invalid disk_quota '" ++ dq ++ str "': " ++ str m in
  _ ← errIf (size_z dq <? 2) (bad "must be an integer followed by K, M, G, or T (e.g. '10G', '500M')");
  _ ← errIf (negb (one_of (str "KMGT") (default "000"%char (last dq)))) (bad "must end with K, M, G, or T");
  let numPart := take (length dq - 1) dq in
  _ ← errIf (negb (forallb is_digit numPart)) (bad "prefix must be an integer");
  errIf (is_empty numPart || starts_with (str "0") numPart) (bad "must start with a non-zero integer").

Definition limitsEntry (s : Spec) (k : bytes) (kn v : Node) : bytes + Spec :=
  if beq k (str "disk_quota") then dq ← AsString v; _ ← checkDiskQuota dq; inr (s <| diskQuota := dq |>)
  else w ← AsString v; inr (s <| limits ::= OMap.insert k w |>).

Definition parseLimits (n : Node) (s : Spec) : bytes + Spec :=
  _ ← mapOnly n (str "limits must be a map of resource-name to value");
  eachEntry n limitsEntry s.

Definition encryptedEntry (s : Spec) (k : bytes) (kn v : Node) : bytes + Spec :=
  if isKey k [str "method"] then w ← scalar v (str "encrypted/method"); inr (s <| encryptionMethod := w |>)
  else if isKey k [str "keyformat"] then w ← scalar v (str "encrypted/keyformat"); inr (s <| encryptionKeyformat := w |>)
  else if isKey k [str "cipher"] then w ← scalar v (str "encrypted/cipher"); inr (s <| encryptionCipher := w |>)
  else unknown (str "encrypted") kn.

Definition parseEncrypted (n : Node) (s : Spec) : bytes + Spec :=
  if IsScalar n then b ← boolean n (str "encrypted must be a boolean or a map"); inr (s <| encrypted := b |>)
  else if IsMap n then eachEntry n encryptedEntry (s <| encrypted := true |>)
  else inl (str "encrypted must be a boolean or a map").

Definition dnsEntry (d : DnsFilter) (k : bytes) (kn v : Node) : bytes + DnsFilter :=
  if isKey k [str "allow"] then l ← listOrScalarOnly v (str "dns_filter/allow"); inr (d <| df_allow ::= fun x => x ++ l |>)
  else if isKey k [str "block"] then l ← listOrScalarOnly v (str "dns_filter/block"); inr (d <| df_block ::= fun x => x ++ l |>)
  else if isKey k [str "redirect_blocked"; str "redirect-blocked"] then
    w ← scalar v (str "dns_filter/redirect_blocked"); inr (d <| df_redirectBlocked := w |>)
  else unknown (str "dns_filter") kn.

Definition parseDnsFilter (n : Node) (s : Spec) : bytes + Spec :=
  _ ← mapOnly n (str "dns_filter must be a map");
  d ← eachEntry n dnsEntry blankDns;
  inr (s <| dnsFilter := Some d |>).

(** ** security, cow, x11, privacy, clipboard, dbus *)

(** [children_max]: [std::stoi], any exception caught. *)
Definition childrenMaxOf (v : Node) : bytes + Z :=
  match asString v ≫= CStd.stoi with
  | None => inl (str "security/children_max must be a non-negative integer")
  | Some c => _ ← errIf (c <? 0) (str "security/children_max must be >= 0"); inr c
  end.

Definition securityEntry (s : Spec) (k : bytes) (kn v : Node) : bytes + Spec :=
  if isKey k [str "enforce_statfs"; str "enforce-statfs"] then
    w ← AsString v; z ← parseIntInRange w (-1) 2 (str "security/enforce_statfs"); inr (s <| enforceStatfs := z |>)
  else if isKey k [str "allow_quotas"; str "allow-quotas"] then
    b ← boolean v (str "security/allow_quotas must be a boolean"); inr (s <| allowQuotas := b |>)
  else if isKey k [str "allow_set_hostname"; str "allow-set-hostname"] then
    b ← boolean v (str "security/allow_set_hostname must be a boolean"); inr (s <| allowSetHostname := b |>)
  else if isKey k [str "allow_chflags"; str "allow-chflags"] then
    b ← boolean v (str "security/allow_chflags must be a boolean"); inr (s <| allowChflags := b |>)
  else if isKey k [str "allow_mlock"; str "allow-mlock"] then
    b ← boolean v (str "security/allow_mlock must be a boolean"); inr (s <| allowMlock := b |>)
  else if isKey k [str "securelevel"; str "secure-level"] then
    w ← AsString v; z ← parseIntInRange w (-1) 3 (str "security/securelevel"); inr (s <| securelevel := z |>)
  else if isKey k [str "children_max"; str "children-max"] then c ← childrenMaxOf v; inr (s <| childrenMax := c |>)
  else if isKey k [str "cpuset"; str "cpu-set"] then w ← AsString v; inr (s <| cpuset := w |>)
  else unknown (str "security") kn.

Definition parseSecurity (n : Node) (s : Spec) : bytes + Spec :=
  _ ← mapOnly n (str "security must be a map"); eachEntry n securityEntry s.

Definition cowEntry (c : CowOptions) (k : bytes) (kn v : Node) : bytes + CowOptions :=
  if isKey k [str "mode"] then
    w ← word v (str "cow/mode") [str "ephemeral"; str "persistent"] (str "cow/mode must be 'ephemeral' or 'persistent'");
    inr (c <| cow_mode := w |>)
  else if isKey k [str "backend"] then
    w ← word v (str "cow/backend") [str "zfs"; str "unionfs"] (str "cow/backend must be 'zfs' or 'unionfs'");
    inr (c <| cow_backend := w |>)
  else unknown (str "cow") kn.

Definition parseCow (n : Node) (s : Spec) : bytes + Spec :=
  _ ← mapOnly n (str "cow must be a map");
  c ← eachEntry n cowEntry {| cow_mode := str "ephemeral"; cow_backend := str "zfs" |};
  inr (s <| cowOptions := Some c |>).

Definition x11Entry (x : X11Options) (k : bytes) (kn v : Node) : bytes + X11Options :=
  if isKey k [str "mode"] then
    w ← word v (str "x11/mode") [str "nested"; str "shared"; str "none"] (str "x11/mode must be 'nested', 'shared', or 'none'");
    inr (x <| x11_mode := w |>)
  else if isKey k [str "resolution"] then w ← scalar v (str "x11/resolution"); inr (x <| x11_resolution := w |>)
  else if isKey k [str "clipboard"] then b ← boolean v (str "x11/clipboard must be a boolean"); inr (x <| x11_clipboardEnabled := b |>)
  else unknown (str "x11") kn.

Definition parseX11 (n : Node) (s : Spec) : bytes + Spec :=
  _ ← mapOnly n (str "x11 must be a map (e.g. x11: {mode: nested})");
  x ← eachEntry n x11Entry blankX11;
  inr (addOption (s <| x11Options := Some x |>) (str "x11")).

Definition privacyEntry (s : Spec) (k : bytes) (kn v : Node) : bytes + Spec :=
  if isKey k [str "hostid"] then
    w ← scalar v (str "privacy/hostid"); _ ← checkPrivacy (Privacy.parseHostid w); inr (s <| privacyHostid := w |>)
  else if isKey k [str "hostname"] then
    w ← scalar v (str "privacy/hostname"); _ ← checkPrivacy (Privacy.parseHostname w); inr (s <| privacyHostname := w |>)
  else unknown (str "privacy") kn.

Definition parsePrivacy (n : Node) (s : Spec) : bytes + Spec :=
  _ ← mapOnly n (str "privacy must be a map (hostid, hostname)"); eachEntry n privacyEntry s.

Definition clipboardEntry (c : ClipboardOptions) (k : bytes) (kn v : Node) : bytes + ClipboardOptions :=
  if isKey k [str "mode"] then
    w ← word v (str "clipboard/mode") [str "isolated"; str "shared"; str "none"] (str "clipboard/mode must be 'isolated', 'shared', or 'none'");
    inr (c <| clip_mode := w |>)
  else if isKey k [str "direction"] then
    w ← word v (str "clipboard/direction") [str "in"; str "out"; str "both"; str "none"]
          (str "clipboard/direction must be 'in', 'out', 'both', or 'none'");
    inr (c <| clip_direction := w |>)
  else unknown (str "clipboard") kn.

Definition parseClipboard (n : Node) (s : Spec) : bytes + Spec :=
  _ ← mapOnly n (str "clipboard must be a map");
  c ← eachEntry n clipboardEntry blankClipboard;
  inr (s <| clipboardOptions := Some c |>).

Definition dbusPolicyEntry (d : DbusOptions) (k : bytes) (kn v : Node) : bytes + DbusOptions :=
  if isKey k [str "allow_own"; str "allow-own"] then
    l ← listOrScalarOnly v (str "dbus/policy/allow_own"); inr (d <| dbus_allowOwn ::= fun x => x ++ l |>)
  else if isKey k [str "deny_send"; str "deny-send"] then
    l ← listOrScalarOnly v (str "dbus/policy/deny_send"); inr (d <| dbus_denySend ::= fun x => x ++ l |>)
  else unknown (str "dbus/policy") kn.

Definition dbusEntry (d : DbusOptions) (k : bytes) (kn v : Node) : bytes + DbusOptions :=
  if isKey k [str "system"] then b ← boolean v (str "dbus/system must be a boolean"); inr (d <| dbus_systemBus := b |>)
  else if isKey k [str "session"] then b ← boolean v (str "dbus/session must be a boolean"); inr (d <| dbus_sessionBus := b |>)
  else if isKey k [str "policy"] then _ ← mapOnly v (str "dbus/policy must be a map"); eachEntry v dbusPolicyEntry d
  else unknown (str "dbus") kn.

Definition parseDbus (n : Node) (s : Spec) : bytes + Spec :=
  _ ← mapOnly n (str "dbus must be a map");
  d ← eachEntry n dbusEntry blankDbus;
  inr (s <| dbusOptions := Some d |>).
(** ** services, socket_proxy, firewall, security_advanced, terminal *)

Definition serviceEntry (m : ManagedService) (k : bytes) (kn v : Node) : bytes + ManagedService :=
  if isKey k [str "name"] then w ← AsString v; inr (m <| svc_name := w |>)
  else if isKey k [str "enable"] then b ← boolean v (str "services/managed/enable must be a boolean"); inr (m <| svc_enable := b |>)
  else if isKey k [str "rcvar"] then w ← AsString v; inr (m <| svc_rcvar := w |>)
  else inl (str "unknown field in services/managed: " ++ emit kn).

Definition managedService (svc : Node) : bytes + ManagedService :=
  ms ← match svc with
       | Scalar _ => w ← AsString svc; inr (blankService <| svc_name := w |>)
       | Map _ => eachEntry svc serviceEntry blankService
       | _ => inl (str "services/managed entries must be scalars or maps")
       end;
  _ ← errIf (is_empty (svc_name ms)) (str "services/managed entry missing 'name'");
  inr ms.

Definition servicesEntry (s : Spec) (k : bytes) (kn v : Node) : bytes + Spec :=
  if isKey k [str "managed"] then
    _ ← errIf (negb (IsSequence v)) (str "services/managed must be a list");
    l ← mapM managedService (elements v);
    inr (s <| managedServices ::= fun x => x ++ l |>)
  else if isKey k [str "auto_start"; str "auto-start"] then
    b ← boolean v (str "services/auto_start must be a boolean");
    inr (s <| servicesAutoStart := b |> <| servicesAutoStartExplicit := true |>)
  else unknown (str "services") kn.

Definition parseServices (n : Node) (s : Spec) : bytes + Spec :=
  _ ← mapOnly n (str "services must be a map"); eachEntry n servicesEntry s.

Definition proxyField (p : ProxyEntry) (k : bytes) (kn v : Node) : bytes + ProxyEntry :=
  if isKey k [str "host"] then w ← AsString v; inr (p <| px_host := w |>)
  else if isKey k [str "jail"] then w ← AsString v; inr (p <| px_jail := w |>)
  else if isKey k [str "direction"] then
    w ← AsString v;
    _ ← errIf (negb (mem w [str "bidirectional"; str "in"; str "out"])) (str "socket_proxy/proxy/direction must be 'bidirectional', 'in', or 'out'");
    inr (p <| px_direction := w |>)
  else inl (str "unknown field in socket_proxy/proxy: " ++ emit kn).

Definition proxyItem (n : Node) : bytes + ProxyEntry :=
  _ ← mapOnly n (str "socket_proxy/proxy entries must be maps");
  p ← eachEntry n proxyField blankProxy;
  _ ← errIf (is_empty (px_host p) || is_empty (px_jail p)) (str "socket_proxy/proxy entries require 'host' and 'jail' fields");
  inr p.

Definition socketProxyEntry (p : SocketProxy) (k : bytes) (kn v : Node) : bytes + SocketProxy :=
  if isKey k [str "share"] then l ← listOrScalarOnly v (str "socket_proxy/share"); inr (p <| sp_share ::= fun x => x ++ l |>)
  else if isKey k [str "proxy"] then
    _ ← errIf (negb (IsSequence v)) (str "socket_proxy/proxy must be a list");
    l ← mapM proxyItem (elements v);
    inr (p <| sp_proxy ::= fun x => x ++ l |>)
  else unknown (str "socket_proxy") kn.

Definition parseSocketProxy (n : Node) (s : Spec) : bytes + Spec :=
  _ ← mapOnly n (str "socket_proxy must be a map");
  p ← eachEntry n socketProxyEntry blankSocketProxy;
  inr (s <| socketProxy := Some p |>).

Definition portOf (what : bytes) (n : Node) : bytes + Z := w ← AsString n; parsePort w what.

(** A list of ports or one port; a map or nothing adds none. *)
Definition portList (what : bytes) (v : Node) : bytes + list Z :=
  match v with
  | Sequence l => mapM (portOf what) l
  | Scalar _ => p ← portOf what v; inr [p]
  | _ => inr []
  end.

Definition firewallEntry (f : FirewallPolicy) (k : bytes) (kn v : Node) : bytes + FirewallPolicy :=
  if isKey k [str "block-ip"; str "block_ip"] then
    l ← listOrScalarOnly v (str "firewall/block-ip"); inr (f <| fw_blockIp ::= fun x => x ++ l |>)
  else if isKey k [str "allow-tcp"; str "allow_tcp"] then
    l ← portList (str "firewall/allow_tcp") v; inr (f <| fw_allowTcp ::= fun x => x ++ l |>)
  else if isKey k [str "allow-udp"; str "allow_udp"] then
    l ← portList (str "firewall/allow_udp") v; inr (f <| fw_allowUdp ::= fun x => x ++ l |>)
  else if isKey k [str "default"] then
    w ← word v (str "firewall/default") [str "allow"; str "block"] (str "firewall/default must be 'allow' or 'block'");
    inr (f <| fw_defaultPolicy := w |>)
  else unknown (str "firewall") kn.

Definition parseFirewall (n : Node) (s : Spec) : bytes + Spec :=
  _ ← mapOnly n (str "firewall must be a map");
  f ← eachEntry n firewallEntry blankFirewall;
  inr (s <| firewallPolicy := Some f |>).

(** [mac_portacl]: anything but a list of ports adds none. *)
Definition portaclEntry (a : SecurityAdvanced) (k : bytes) (kn v : Node) : bytes + SecurityAdvanced :=
  if isKey k [str "allow_ports"; str "allow-ports"] then
    l ← mapM (portOf (str "security_advanced/mac_portacl/allow_ports")) (elements v);
    inr (a <| sa_macAllowPorts ::= fun x => x ++ l |>)
  else inl (str "unknown element security_advanced/mac_portacl/" ++ emit kn).

Definition advancedEntry (a : SecurityAdvanced) (k : bytes) (kn v : Node) : bytes + SecurityAdvanced :=
  if isKey k [str "capsicum"] then b ← boolean v (str "security_advanced/capsicum must be a boolean"); inr (a <| sa_capsicum := b |>)
  else if isKey k [str "mac_bsdextended"; str "mac-bsdextended"] then
    l ← listOrScalarOnly v (str "security_advanced/mac_bsdextended"); inr (a <| sa_macRules ::= fun x => x ++ l |>)
  else if isKey k [str "mac_portacl"; str "mac-portacl"] then if IsMap v then eachEntry v portaclEntry a else inr a
  else if isKey k [str "hide_other_jails"; str "hide-other-jails"] then
    b ← boolean v (str "security_advanced/hide_other_jails must be a boolean"); inr (a <| sa_hideOtherJails := b |>)
  else unknown (str "security_advanced") kn.

Definition parseSecurityAdvanced (n : Node) (s : Spec) : bytes + Spec :=
  _ ← mapOnly n (str "security_advanced must be a map");
  a ← eachEntry n advancedEntry blankAdvanced;
  inr (s <| securityAdvanced := Some a |>).

(** [Util::toUInt(AsString(node))] *)
Definition unsignedOf (v : Node) : bytes + Z := w ← AsString v; UtilPure.toUInt w.

Definition terminalEntry (t : TerminalOptions) (k : bytes) (kn v : Node) : bytes + TerminalOptions :=
  if isKey k [str "devfs_ruleset"; str "devfs-ruleset"] then z ← unsignedOf v; inr (t <| tty_devfsRuleset := i32 z |>)
  else if isKey k [str "allow_raw_tty"; str "allow-raw-tty"] then
    b ← boolean v (str "terminal/allow_raw_tty must be a boolean"); inr (t <| tty_allowRawTty := b |>)
  else unknown (str "terminal") kn.

Definition parseTerminal (n : Node) (s : Spec) : bytes + Spec :=
  _ ← mapOnly n (str "terminal must be a map");
  t ← eachEntry n terminalEntry blankTerminal;
  inr (s <| terminalOptions := Some t |>).

(** ** devices, gui *)

Definition unknownClass {A} (cls : bytes) : bytes + A :=
  inl (str "devices: unknown class '" ++ cls ++ str "' (sound, gpu, video, input, usb, serial)").

Definition deviceItem (d : Devices.Devices) (e : Node) : bytes + Devices.Devices :=
  _ ← errIf (negb (IsScalar e)) (str "devices: list entries must be class names");
  w ← AsString e;
  match Devices.setClass d w true with Some d' => inr d' | None => unknownClass w end.

Definition deviceEntry (d : Devices.Devices) (kv : Node * Node) : bytes + Devices.Devices :=
  on ← boolean (snd kv) (str "devices/" ++ emit (fst kv) ++ str " must be a boolean");
  w ← AsString (fst kv);
  match Devices.setClass d w on with Some d' => inr d' | None => unknownClass (emit (fst kv)) end.

Definition parseDevices (n : Node) (s : Spec) : bytes + Spec :=
  match n with
  | Scalar _ =>
      v ← AsString n;
      if beq v (str "all") then inr (s <| devices ::= fun d => d <| Devices.all := true |> |>)
      else _ ← errIf (negb (beq v (str "none"))) (str "devices: expected 'all', 'none', a list or a map of classes, got '" ++ v ++ str "'"); inr s
  | Sequence l => d ← foldM deviceItem l (devices s); inr (s <| devices := d |>)
  | Map l => d ← foldM deviceEntry l (devices s); inr (s <| devices := d |>)
  | Null => inl (str "devices must be 'all', 'none', a list or a map")
  end.

Definition guiModes : list bytes := [str "nested"; str "headless"; str "gpu"; str "auto"; str "wayland"].

Definition guiEntry (g : GuiOptions) (k : bytes) (kn v : Node) : bytes + GuiOptions :=
  if isKey k [str "mode"] then
    w ← word v (str "gui/mode") (guiModes ++ [str "compositor"])
          (str "gui/mode must be 'nested', 'headless', 'gpu', 'auto', 'wayland', or 'compositor'");
    inr (g <| gui_mode := w |>)
  else if isKey k [str "backend"] then
    w ← word v (str "gui/backend") [[]; str "headless"; str "drm"] (str "gui/backend must be 'headless' or 'drm'");
    inr (g <| gui_backend := w |>)
  else if isKey k [str "compositor"] then w ← scalar v (str "gui/compositor"); inr (g <| gui_compositor := w |>)
  else if isKey k [str "vnc_bind"; str "vnc-bind"] then w ← scalar v (str "gui/vnc_bind"); inr (g <| gui_vncBind := w |>)
  else if isKey k [str "resolution"] then w ← scalar v (str "gui/resolution"); inr (g <| gui_resolution := w |>)
  else if isKey k [str "vnc"] then b ← boolean v (str "gui/vnc must be a boolean"); inr (g <| gui_vnc := b |>)
  else if isKey k [str "vnc_native"; str "vnc-native"] then b ← boolean v (str "gui/vnc_native must be a boolean"); inr (g <| gui_vncNative := b |>)
  else if isKey k [str "vnc_port"; str "vnc-port"] then p ← portOf (str "gui/vnc_port") v; inr (g <| gui_vncPort := p |>)
  else if isKey k [str "novnc"] then b ← boolean v (str "gui/novnc must be a boolean"); inr (g <| gui_novnc := b |>)
  else if isKey k [str "vnc_password"; str "vnc-password"] then w ← scalar v (str "gui/vnc_password"); inr (g <| gui_vncPassword := w |>)
  else if isKey k [str "gpu_device"; str "gpu-device"] then w ← scalar v (str "gui/gpu_device"); inr (g <| gui_gpuDevice := w |>)
  else if isKey k [str "gpu_driver"; str "gpu-driver"] then
    w ← word v (str "gui/gpu_driver") [[]; str "nvidia"; str "amdgpu"; str "intel"; str "dummy"]
          (str "gui/gpu_driver must be 'nvidia', 'amdgpu', 'intel', or 'dummy'");
    inr (g <| gui_gpuDriver := w |>)
  else unknown (str "gui") kn.

Definition isCompositor (g : GuiOptions) : bool := beq (gui_mode g) (str "compositor").

(** The checks after the loop. *)
Definition checkGui (g : GuiOptions) : bytes + unit :=
  let c := isCompositor g in
  _ ← errIf (c && is_empty (gui_compositor g)) (str "gui/mode=compositor requires gui/compositor (the command to run, e.g. 'sway')");
  _ ← (if c then
         _ ← match Compositor.parseCompositorCommand (gui_compositor g) with inl e => inl (str "gui/compositor: " ++ e) | inr _ => inr tt end;
         match Compositor.resolveVncBind (gui_vncBind g) with inl e => inl (str "gui/vnc_bind: " ++ e) | inr _ => inr tt end
       else inr tt);
  _ ← errIf (negb c && negb (is_empty (gui_compositor g))) (str "gui/compositor is only valid with gui/mode=compositor");
  _ ← errIf (negb (is_empty (gui_backend g)) && negb c) (str "gui/backend is only valid with gui/mode=compositor");
  errIf (negb (is_empty (gui_vncBind g)) && negb c) (str "gui/vnc_bind is only valid with gui/mode=compositor").

Definition parseGui (n : Node) (s : Spec) : bytes + Spec :=
  if IsScalar n then
    m ← AsString n;
    _ ← errIf (negb (mem m guiModes))
          (str "gui scalar shorthand must be 'nested', 'headless', 'gpu', 'auto', or 'wayland' (got '" ++ m ++ str "')");
    inr (s <| guiOptions := Some (blankGui <| gui_mode := m |>) |>)
  else
    _ ← mapOnly n (str "gui must be a scalar (mode shorthand) or a map");
    g ← eachEntry n guiEntry blankGui;
    _ ← checkGui g;
    inr (s <| guiOptions := Some g |>).
(** ** healthcheck, base_container, cron, restart, scripts *)

Definition healthEntry (h : Healthcheck) (k : bytes) (kn v : Node) : bytes + Healthcheck :=
  if isKey k [str "test"] then w ← scalar v (str "healthcheck/test"); inr (h <| hc_test := w |>)
  else if isKey k [str "interval"] then
    z ← unsignedOf v;
    _ ← errIf (z =? 0) (str "healthcheck/interval must be at least 1 second");
    inr (h <| hc_intervalSec := z |>)
  else if isKey k [str "timeout"] then z ← unsignedOf v; inr (h <| hc_timeoutSec := z |>)
  else if isKey k [str "retries"] then z ← unsignedOf v; inr (h <| hc_retries := z |>)
  else if isKey k [str "start_period"; str "start-period"] then z ← unsignedOf v; inr (h <| hc_startPeriodSec := z |>)
  else unknown (str "healthcheck") kn.

Definition parseHealthcheck (n : Node) (s : Spec) : bytes + Spec :=
  h ← match n with
      | Scalar _ => w ← AsString n; inr (blankHealthcheck <| hc_test := w |>)
      | Map _ =>
          h ← eachEntry n healthEntry blankHealthcheck;
          _ ← errIf (is_empty (hc_test h)) (str "healthcheck requires a 'test' command");
          inr h
      | _ => inl (str "healthcheck must be a scalar (test command) or a map")
      end;
  inr (s <| healthcheck := Some h |>).

Definition parseDepends (n : Node) (s : Spec) : bytes + Spec :=
  l ← listOrScalarOnly n (str "depends"); inr (s <| depends ::= fun x => x ++ l |>).

Definition baseContainerEntry (b : BaseContainer) (k : bytes) (kn v : Node) : bytes + BaseContainer :=
  if isKey k [str "type"] then w ← scalar v (str "base_container/type"); inr (b <| bc_type := w |>)
  else if isKey k [str "name"] then w ← scalar v (str "base_container/name"); inr (b <| bc_name := w |>)
  else unknown (str "base_container") kn.

Definition parseBaseContainer (n : Node) (s : Spec) : bytes + Spec :=
  _ ← mapOnly n (str "base_container must be a map with 'type' and 'name'");
  b0 ← eachEntry n baseContainerEntry blankBaseContainer;
  let b := if is_empty (bc_type b0) then b0 <| bc_type := str "jail" |> else b0 in
  _ ← errIf (negb (beq (bc_type b) (str "jail"))) (str "base_container/type must be 'jail' (only type currently supported)");
  _ ← errIf (is_empty (bc_name b)) (str "base_container/name is required (jail name or JID)");
  inr (s <| baseContainer := Some b |>).

Definition cronField (j : CronJob) (k : bytes) (kn v : Node) : bytes + CronJob :=
  if isKey k [str "schedule"] then w ← scalar v (str "cron/schedule"); inr (j <| cron_schedule := w |>)
  else if isKey k [str "command"] then w ← scalar v (str "cron/command"); inr (j <| cron_command := w |>)
  else if isKey k [str "user"] then w ← scalar v (str "cron/user"); inr (j <| cron_user := w |>)
  else unknown (str "cron") kn.

(** Five fields, or one that starts with [@]. *)
Definition goodSchedule (sched : bytes) : bool :=
  let n := length (words sched) in
  (n =? 5)%nat || ((n =? 1)%nat && starts_with (str "@") sched).

Definition checkCron (j : CronJob) : bytes + unit :=
  _ ← errIf (is_empty (cron_schedule j)) (str "cron entry requires 'schedule' (e.g., '0 3 * * *')");
  _ ← errIf (is_empty (cron_command j)) (str "cron entry requires 'command'");
  _ ← errIf (existsb (one_of [chr 10; chr 13; chr 9]) (cron_schedule j) || existsb (one_of [chr 10; chr 13]) (cron_command j))
        (str "cron entry: schedule/command must be single-line");
  errIf (negb (goodSchedule (cron_schedule j)))
    (str "cron/schedule '" ++ cron_schedule j ++ str "' must have 5 fields (min hour dom mon dow) or be @reboot/@daily/...").

Definition cronItem (e : Node) : bytes + CronJob :=
  _ ← mapOnly e (str "each cron entry must be a map with 'schedule' and 'command'");
  j ← eachEntry e cronField blankCron;
  _ ← checkCron j;
  inr j.

Definition parseCron (n : Node) (s : Spec) : bytes + Spec :=
  _ ← errIf (negb (IsSequence n)) (str "cron must be a list of {schedule, command} entries");
  l ← mapM cronItem (elements n);
  inr (s <| cronJobs ::= fun x => x ++ l |>).

Definition restartEntry (r : RestartPolicy) (k : bytes) (kn v : Node) : bytes + RestartPolicy :=
  if isKey k [str "policy"] then w ← scalar v (str "restart/policy"); inr (r <| rs_policy := w |>)
  else if isKey k [str "max_retries"] then z ← unsignedOf v; inr (r <| rs_maxRetries := z |>)
  else if isKey k [str "delay"] then
    z ← unsignedOf v;
    _ ← errIf (z =? 0) (str "restart/delay must be at least 1 second");
    inr (r <| rs_delaySec := z |>)
  else unknown (str "restart") kn.

Definition restartPolicies : list bytes := [str "no"; str "on-failure"; str "always"; str "unless-stopped"].

Definition parseRestart (n : Node) (s : Spec) : bytes + Spec :=
  r ← match n with
      | Scalar _ => w ← AsString n; inr (blankRestart <| rs_policy := w |>)
      | Map _ => eachEntry n restartEntry blankRestart
      | _ => inl (str "restart must be a scalar or a map")
      end;
  _ ← errIf (negb (mem (rs_policy r) restartPolicies)) (str "restart/policy must be one of: no, on-failure, always, unless-stopped");
  inr (s <| restartPolicy := Some r |>).

(** The lambdas of [parseScriptsSection]. *)
Definition isSequenceOfScalars (n : Node) : bool :=
  match n with Sequence l => negb (is_empty l) && forallb IsScalar l | _ => false end.

Definition isSequenceOfSequenceOfScalars (n : Node) : bool :=
  match n with Sequence l => negb (is_empty l) && forallb isSequenceOfScalars l | _ => false end.

Definition scriptText (n : Node) : bytes + option bytes :=
  if IsScalar n then w ← AsString n; inr (Some (w ++ [newline]))
  else if isSequenceOfScalars n then
    ls ← mapM AsString (elements n);
    inr (Some (flat_map (fun w => w ++ [newline]) ls))
  else inr None.

Definition errMsg : bytes :=
  str "scripts must be scalars, arrays of scalars, arrays of arrays of scalars, or maps of scalars or of arrays of scalars".

Definition numberedScript (section : bytes) (mi : StrMap bytes * Z) (elt : Node) : bytes + (StrMap bytes * Z) :=
  t ← scriptText elt;
  match t with
  | Some w => inr (OMap.insert (str "script#" ++ dec (snd mi)) w (fst mi), u32 (snd mi + 1))
  | None => inl (errMsg ++ str " '" ++ section ++ str "' #1")
  end.

Definition namedScript (section : bytes) (m : StrMap bytes) (kv : Node * Node) : bytes + StrMap bytes :=
  t ← scriptText (snd kv);
  match t with
  | Some w => k ← AsString (fst kv); inr (OMap.insert k w m)
  | None => inl (errMsg ++ str ", problematic section '" ++ section ++ str "' #2")
  end.

Definition parseScriptsSection (section : bytes) (n : Node) : bytes + StrMap bytes :=
  t ← scriptText n;
  match t with
  | Some w => inr [([], w)]
  | None =>
      if isSequenceOfSequenceOfScalars n then r ← foldM (numberedScript section) (elements n) ([], 1); inr (fst r)
      else match n with
           | Map l => foldM (namedScript section) l []
           | _ => inl (errMsg ++ str " '" ++ section ++ str "' #3")
           end
  end.

Definition scriptsEntry (s : Spec) (k : bytes) (kn v : Node) : bytes + Spec :=
  _ ← errIf (OMap.count k (scripts s)) (str "duplicate 'scripts/" ++ k ++ str "'");
  m ← parseScriptsSection k v;
  inr (s <| scripts ::= OMap.insert k m |>).

Definition parseScripts (n : Node) (s : Spec) : bytes + Spec :=
  _ ← mapOnly n (str "scripts must be a map"); eachEntry n scriptsEntry s.

(** ** The document *)

(** The [isKey] tests of the loop over the document, with what each branch does. *)
Definition sections : list (list bytes * (Node -> Spec -> bytes + Spec)) := [
  ([str "base"], parseBase); ([str "pkg"], parsePkg); ([str "run"], parseRun); ([str "dirs"], parseDirs);
  ([str "files"], parseFiles); ([str "tmpfs"], parseTmpfs); ([str "etc"], parseEtc); ([str "network"], parseNetwork);
  ([str "options"], parseOptions); ([str "zfs"], parseZfs); ([str "ipc"], parseIpc); ([str "limits"], parseLimits);
  ([str "encrypted"], parseEncrypted); ([str "dns_filter"; str "dns-filter"], parseDnsFilter);
  ([str "security"], parseSecurity); ([str "cow"], parseCow); ([str "x11"], parseX11); ([str "privacy"], parsePrivacy);
  ([str "clipboard"], parseClipboard); ([str "dbus"], parseDbus); ([str "services"], parseServices);
  ([str "socket_proxy"; str "socket-proxy"], parseSocketProxy); ([str "firewall"], parseFirewall);
  ([str "security_advanced"; str "security-advanced"], parseSecurityAdvanced); ([str "terminal"], parseTerminal);
  ([str "devices"], parseDevices); ([str "gui"], parseGui); ([str "healthcheck"], parseHealthcheck);
  ([str "depends"], parseDepends); ([str "base_container"; str "base-container"], parseBaseContainer);
  ([str "cron"], parseCron); ([str "restart"; str "restart_policy"], parseRestart); ([str "scripts"], parseScripts)].

Definition topEntry (s : Spec) (k : bytes) (kn v : Node) : bytes + Spec :=
  match List.find (fun sec => isKey k (fst sec)) sections with
  | Some sec => snd sec v s
  | None => inl (str "unknown top-level element '" ++ emit kn ++ str "' in spec")
  end.

Definition parseSpecFromNode (top : Node) : bytes + Spec := eachEntry top topEntry blankSpec.

(** [YAML::LoadFile] of a file's bytes; [None] if it cannot be opened. *)
Definition parseSpec (load : bytes -> bytes + Node) (file : option bytes) : bytes + Spec :=
  match file with
  | None => inl yamlError
  | Some content => top ← load content; parseSpecFromNode top
  end.

Definition parseSpecWithVars (load : bytes -> bytes + Node) (fname : bytes) (file : option bytes) (vars : StrMap bytes) : bytes + Spec :=
  if is_empty vars then parseSpec load file
  else match file with
       | None => inl (str "cannot open spec file: " ++ fname)
       | Some content => top ← load (substituteVars content vars); parseSpecFromNode top
       end.
End sections.
End SpecSections.
