(* ===== verification/SpecFacts.v ===== *)
(** * What the spec parser guarantees

    The invariant of the specs [parseSpecFromNode] returns, one lemma per
    section. *)

From S2P Require Import Prelude CStd UtilPure OMap RecordUpd Limits RunPure PrivOps SpecParts ThinJail Yaml Spec SpecParse SpecSections.

Module SpecFacts.
Import Spec SpecParse SpecSections.

#[local] Arguments mem : simpl never.
#[local] Arguments str : simpl never.

Definition goodPort (p : Z) : Prop := 1 <= p <= 65535.

Definition goodExtra (x : ExtraInterface) : Prop :=
  ex_mode x <> Nat /\ (ex_vlanId x = -1 \/ 1 <= ex_vlanId x <= 4094)
  /\ (ex_ipMode x = IpStatic -> validateStaticIp4 (ex_staticIp x) = [])
  /\ (ex_ip6Mode x = Ip6Static -> validateStaticIp6 (ex_staticIp6 x) = [])
  /\ (ex_gateway x = [] \/ validateGateway4 (ex_gateway x) = []).

(** The host's range of a rule, and the jail's. *)
Definition orderedRule (r : PortRange * PortRange) : Prop := fst (fst r) <= snd (fst r) /\ fst (snd r) <= snd (snd r).

Definition goodNet (d : NetOptDetails) : Prop :=
  (vlanId d = -1 \/ 1 <= vlanId d <= 4094)
  /\ (ipMode d = IpStatic -> validateStaticIp4 (staticIp d) = [])
  /\ (gateway d = [] \/ validateGateway4 (gateway d) = [])
  /\ Forall goodExtra (extraInterfaces d)
  /\ Forall orderedRule (inboundPortsTcp d) /\ Forall orderedRule (inboundPortsUdp d).

Record Parsed (s : Spec) : Prop := {
  p_hostDirs : baseHostDirs s = [] \/ ThinJail.validateHostDirs (baseHostDirs s) = [];
  p_runUser : RunPure.validateRunUser (runUser s) = [];
  p_runTimeout : 0 <= runTimeoutSec s <= RunPure.kRunTimeoutMax;
  p_files : Forall (fun f => sh_readOnly f = false) (filesShare s);
  p_tmpfs : Forall (fun t => Mounts.validateTmpfsPath (tm_path t) = [] /\ Mounts.validateTmpfsSize (tm_size t) = []) (tmpfs s);
  p_tmpfs_once : NoDup (map tm_path (tmpfs s));
  p_etcKeep : Forall (fun n => Mounts.validateEtcKeepName n = []) (etcKeep s);
  p_etcKeep_once : NoDup (etcKeep s);
  p_options : OMap.wf (options s);
  p_net : forall d, optionNet s = Some d -> goodNet d;
  p_diskQuota : diskQuota s = [] \/ checkDiskQuota (diskQuota s) = inr tt;
  p_statfs : -1 <= enforceStatfs s <= 2;
  p_securelevel : -1 <= securelevel s <= 3;
  p_children : -1 <= childrenMax s;
  p_cow : whenSome (cowOptions s) checkCow = inr tt;
  p_hostid : checkPrivacy (Privacy.parseHostid (privacyHostid s)) = inr tt;
  p_hostname : checkPrivacy (Privacy.parseHostname (privacyHostname s)) = inr tt;
  p_clipboard : forall c, clipboardOptions s = Some c ->
    mem (clip_mode c) [str "isolated"; str "shared"; str "none"] = true
    /\ mem (clip_direction c) [str "in"; str "out"; str "both"; str "none"] = true;
  p_services : Forall (fun m => svc_name m <> []) (managedServices s);
  p_proxy : forall p, socketProxy s = Some p -> Forall (fun e => px_host e <> [] /\ px_jail e <> []) (sp_proxy p);
  p_firewall : forall f, firewallPolicy s = Some f -> Forall goodPort (fw_allowTcp f) /\ Forall goodPort (fw_allowUdp f);
  p_advanced : forall a, securityAdvanced s = Some a -> Forall goodPort (sa_macAllowPorts a);
  p_gui : forall g, guiOptions s = Some g -> checkGui g = inr tt /\ mem (gui_mode g) (guiModes ++ [str "compositor"]) = true;
  p_health : forall h, healthcheck s = Some h -> 1 <= hc_intervalSec h;
  p_restart : forall r, restartPolicy s = Some r -> mem (rs_policy r) restartPolicies = true /\ 1 <= rs_delaySec r;
  p_base : forall b, baseContainer s = Some b -> bc_type b = str "jail" /\ bc_name b <> [];
  p_cron : Forall (fun j => checkCron j = inr tt) (cronJobs s) }.

Section facts.
Context `{Yaml}.

Lemma eachEntry_inv {A} (P : A -> Prop) f n a r :
  (forall a k kn v a', P a -> f a k kn v = inr a' -> P a') -> P a -> eachEntry n f a = inr r -> P r.
Proof.
  intros Hf Ha E. unfold eachEntry in E. minv E. revert E. apply foldM_inv; [|done].
  intros x kv x' _ Hx E. minv E. by eapply Hf.
Qed.

Lemma blank_parsed : Parsed blankSpec.
Proof. constructor; cbn; try done; try (by left); try (by constructor); vm_compute; done. Qed.

Ltac entry :=
  repeat match goal with
  | E : inl _ = inr _ |- _ => discriminate
  | E : unknown _ _ = inr _ |- _ => discriminate
  | E : inr _ = inr _ |- _ => injection E as E; try subst
  | E : (_ ≫= _) = inr _ |- _ => apply result_bind_inr in E as (? & ? & ?)
  | E : errIf _ _ = inr _ |- _ => apply errIf_ok in E
  | E : errOn _ _ = inr _ |- _ => apply errOn_ok in E
  | E : match ?b with _ => _ end = inr _ |- _ => destruct b eqn:?
  end.

(** The fields a section does not assign keep their property. *)
Ltac keeps P := destruct P; constructor; cbn; try done.

(** For a section that is a loop over its keys. *)
Tactic Notation "loop" reference(sec) reference(ent) :=
  let P := fresh "P" in let E := fresh "E" in
  intros P E; unfold sec, mapOnly in E; entry;
  match goal with E : eachEntry _ _ _ = inr _ |- _ => revert E end;
  apply (eachEntry_inv Parsed); [clear; intros ? ? ? ? ? P E; unfold ent in E; entry; keeps P|try exact P; try keeps P].

(** For a section that fills a structure of its own. *)
Tactic Notation "structure" reference(sec) :=
  let P := fresh "P" in let E := fresh "E" in intros P E; unfold sec, mapOnly in E; entry; keeps P.

Tactic Notation "within" constr(Q) reference(ent) :=
  match goal with E : eachEntry _ _ _ = inr _ |- _ => refine (eachEntry_inv Q _ _ _ _ _ _ E) end; [let P := fresh "P" in let E := fresh "E" in clear; intros ? ? ? ? ? P E; unfold ent in E; entry|].

Lemma zfs_parsed n s s' : Parsed s -> parseZfs n s = inr s' -> Parsed s'.
Proof. loop parseZfs zfsEntry. Qed.

Lemma ipc_parsed n s s' : Parsed s -> parseIpc n s = inr s' -> Parsed s'.
Proof. loop parseIpc ipcEntry. Qed.

Lemma limits_parsed n s s' : Parsed s -> parseLimits n s = inr s' -> Parsed s'.
Proof. loop parseLimits limitsEntry. destruct x0. by right. Qed.

Lemma encrypted_parsed n s s' : Parsed s -> parseEncrypted n s = inr s' -> Parsed s'.
Proof.
  intros P E. unfold parseEncrypted in E. entry; [keeps P|].
  revert E. apply (eachEntry_inv Parsed); [|keeps P]. clear. intros s k kn v s' P E. unfold encryptedEntry in E. entry; keeps P.
Qed.

Lemma dns_parsed n s s' : Parsed s -> parseDnsFilter n s = inr s' -> Parsed s'.
Proof. structure parseDnsFilter. Qed.

Lemma parseIntInRange_range w lo hi what z : parseIntInRange w lo hi what = inr z -> lo <= z <= hi.
Proof.
  unfold parseIntInRange. destruct w as [|c t]; [done|]. cbv zeta. repeat case_match; try done; intros [= <-]; lia.
Qed.

Lemma childrenMaxOf_range v c : childrenMaxOf v = inr c -> 0 <= c.
Proof. unfold childrenMaxOf. case_match; [|done]. intros. entry. lia. Qed.

Lemma security_parsed n s s' : Parsed s -> parseSecurity n s = inr s' -> Parsed s'.
Proof.
  loop parseSecurity securityEntry.
  all: match goal with E : parseIntInRange _ _ _ _ = inr _ |- _ => apply parseIntInRange_range in E; lia | _ => idtac end.
  apply childrenMaxOf_range in H0. lia.
Qed.

Lemma word_in v opath allowed m w : word v opath allowed m = inr w -> mem w allowed = true.
Proof. unfold word. intros. entry. by apply negb_false_iff. Qed.

Lemma cow_parsed n s s' : Parsed s -> parseCow n s = inr s' -> Parsed s'.
Proof.
  structure parseCow. within (fun c => checkCow c = inr tt) cowEntry; [| |done].
  all: unfold checkCow in *; cbn; entry; apply word_in in H0; by rewrite H0, ?H1, ?H2.
Qed.

Lemma optionNet_set s k o : OMap.wf (options s) -> optionNet (setOption s k o) =
  if decide (k = str "net") then match o with Some (NetOpt d) => Some d | _ => None end else optionNet s.
Proof.
  intros W. unfold optionNet, getOptionDetails, setOption. change (options (s <| options ::= _ |>)) with (OMap.insert k o (options s)).
  rewrite OMap.find_insert by done. destruct (decide (str "net" = k)), (decide (k = str "net")); congruence || done.
Qed.

(** Setting an option keeps the invariant if it leaves a good network. *)
Lemma setOption_parsed s k o : (forall d, k = str "net" -> o = Some (NetOpt d) -> goodNet d) -> Parsed s -> Parsed (setOption s k o).
Proof.
  intros Hd P. pose proof (optionNet_set s k o (p_options s P)) as E. keeps P; [by apply OMap.wf_insert|].
  intros d. change (optionNet _) with (optionNet (setOption s k o)) at 1. rewrite E.
  destruct (decide (k = str "net")) as [Hk|]; [|by apply p_net0]. destruct o as [[]|]; try done. intros [= <-]. by apply Hd.
Qed.

Lemma addOption_parsed s k : Parsed s -> Parsed (addOption s k).
Proof. intros P. unfold addOption. case_match; [done|]. by apply setOption_parsed. Qed.

Lemma x11_parsed n s s' : Parsed s -> parseX11 n s = inr s' -> Parsed s'.
Proof.
  intros P E. unfold parseX11, mapOnly in E. entry. apply addOption_parsed. keeps P.
Qed.

Lemma privacy_parsed n s s' : Parsed s -> parsePrivacy n s = inr s' -> Parsed s'.
Proof. loop parsePrivacy privacyEntry. all: by destruct x0. Qed.

Lemma clipboard_parsed n s s' : Parsed s -> parseClipboard n s = inr s' -> Parsed s'.
Proof.
  structure parseClipboard. intros c [= <-].
  within (fun c => mem (clip_mode c) [str "isolated"; str "shared"; str "none"] = true
    /\ mem (clip_direction c) [str "in"; str "out"; str "both"; str "none"] = true) clipboardEntry; [| |done].
  all: cbn; apply word_in in H0; by destruct P.
Qed.

Lemma dbus_parsed n s s' : Parsed s -> parseDbus n s = inr s' -> Parsed s'.
Proof. structure parseDbus. Qed.

Lemma mapM_Forall {A B} (Q : B -> Prop) (f : A -> bytes + B) l r :
  (forall a b, f a = inr b -> Q b) -> mapM f l = inr r -> Forall Q r.
Proof. intros Hf E%mapM_ok. induction E; constructor; eauto. Qed.

Lemma managedService_named n m : managedService n = inr m -> svc_name m <> [].
Proof. unfold managedService. intros. entry; by apply is_empty_false. Qed.

Lemma services_parsed n s s' : Parsed s -> parseServices n s = inr s' -> Parsed s'.
Proof.
  loop parseServices servicesEntry. apply Forall_app_2; [done|]. eapply mapM_Forall; [|done]. apply managedService_named.
Qed.

Lemma proxyItem_complete n p : proxyItem n = inr p -> px_host p <> [] /\ px_jail p <> [].
Proof. unfold proxyItem. intros. entry. destruct (px_host p), (px_jail p); done. Qed.

Lemma socketProxy_parsed n s s' : Parsed s -> parseSocketProxy n s = inr s' -> Parsed s'.
Proof.
  structure parseSocketProxy. intros p [= <-].
  within (fun p => Forall (fun e => px_host e <> [] /\ px_jail e <> []) (sp_proxy p)) socketProxyEntry; [done| |by constructor].
  apply Forall_app_2; [done|]. eapply mapM_Forall; [|done]. apply proxyItem_complete.
Qed.

Lemma portOf_good what n p : portOf what n = inr p -> goodPort p.
Proof. unfold portOf, parsePort. intros. entry. by eapply parseIntInRange_range. Qed.

Lemma portList_good what v l : portList what v = inr l -> Forall goodPort l.
Proof.
  unfold portList. destruct v; intros; entry; try done.
  - constructor; [by eapply portOf_good|done].
  - eapply mapM_Forall; [|done]. intros. by eapply portOf_good.
Qed.

Lemma firewall_parsed n s s' : Parsed s -> parseFirewall n s = inr s' -> Parsed s'.
Proof.
  structure parseFirewall. intros f [= <-].
  within (fun f => Forall goodPort (fw_allowTcp f) /\ Forall goodPort (fw_allowUdp f)) firewallEntry; [done| | |done|by repeat constructor].
  all: apply portList_good in H0; destruct P; split; try done; by apply Forall_app_2.
Qed.

Lemma advanced_parsed n s s' : Parsed s -> parseSecurityAdvanced n s = inr s' -> Parsed s'.
Proof.
  structure parseSecurityAdvanced. intros a [= <-].
  within (fun a => Forall goodPort (sa_macAllowPorts a)) advancedEntry; try done.
  within (fun a => Forall goodPort (sa_macAllowPorts a)) portaclEntry; [|done].
  apply Forall_app_2; [done|]. eapply mapM_Forall; [|done]. intros ? ?. apply portOf_good.
Qed.

Lemma terminal_parsed n s s' : Parsed s -> parseTerminal n s = inr s' -> Parsed s'.
Proof. structure parseTerminal. Qed.

Lemma devices_parsed n s s' : Parsed s -> parseDevices n s = inr s' -> Parsed s'.
Proof. intros P E. destruct n; cbn in E; entry; keeps P. Qed.

Lemma checkGui_plain m : mem m guiModes = true -> checkGui (blankGui <| gui_mode := m |>) = inr tt.
Proof.
  unfold mem, guiModes. intros Hm. apply existsb_exists in Hm as (w & Hin & ->%beq_eq). by repeat destruct Hin as [<-|Hin].
Qed.

Lemma guiEntry_mode g k kn v g' : mem (gui_mode g) (guiModes ++ [str "compositor"]) = true ->
  guiEntry g k kn v = inr g' -> mem (gui_mode g') (guiModes ++ [str "compositor"]) = true.
Proof. intros P E. unfold guiEntry in E. entry; cbn; try done. by eapply word_in. Qed.

Lemma gui_parsed n s s' : Parsed s -> parseGui n s = inr s' -> Parsed s'.
Proof.
  structure parseGui; intros g [= <-].
  - apply negb_false_iff in H1. split; [by apply checkGui_plain|]. change (mem x (guiModes ++ [str "compositor"]) = true). unfold mem in *. by rewrite existsb_app, H1.
  - split; [by destruct x1|]. revert H1.
    apply (eachEntry_inv (fun g => mem (gui_mode g) (guiModes ++ [str "compositor"]) = true)); [|done]. apply guiEntry_mode.
Qed.

Lemma unsignedOf_nonneg v z : unsignedOf v = inr z -> 0 <= z.
Proof. unfold unsignedOf. intros. entry. match goal with E : _ |- _ => apply UtilPure.toUInt_bound in E; lia end. Qed.

Lemma health_parsed n s s' : Parsed s -> parseHealthcheck n s = inr s' -> Parsed s'.
Proof.
  structure parseHealthcheck; intros h [= <-]; try done.
  within (fun h => 1 <= hc_intervalSec h) healthEntry; try done. cbn. apply unsignedOf_nonneg in H0. lia.
Qed.

Lemma depends_parsed n s s' : Parsed s -> parseDepends n s = inr s' -> Parsed s'.
Proof. structure parseDepends. Qed.

Lemma baseContainer_parsed n s s' : Parsed s -> parseBaseContainer n s = inr s' -> Parsed s'.
Proof.
  structure parseBaseContainer. intros b [= <-]. apply negb_false_iff, beq_eq in H2. split; [done|].
  intros E. by rewrite E in H3.
Qed.

Lemma cron_parsed n s s' : Parsed s -> parseCron n s = inr s' -> Parsed s'.
Proof.
  structure parseCron. apply Forall_app_2; [done|]. eapply mapM_Forall; [|done]. clear.
  intros e j E. unfold cronItem in E. entry. by destruct x1.
Qed.

Lemma restart_parsed n s s' : Parsed s -> parseRestart n s = inr s' -> Parsed s'.
Proof.
  structure parseRestart; intros r [= <-]; (split; [by apply negb_false_iff|]); try done.
  within (fun r => 1 <= rs_delaySec r) restartEntry; try done. cbn. apply unsignedOf_nonneg in H0. lia.
Qed.

Lemma scripts_parsed n s s' : Parsed s -> parseScripts n s = inr s' -> Parsed s'.
Proof. loop parseScripts scriptsEntry. Qed.

Lemma base_parsed n s s' : Parsed s -> parseBase n s = inr s' -> Parsed s'.
Proof. loop parseBase baseEntry. by right. Qed.

Lemma pkg_parsed n s s' : Parsed s -> parsePkg n s = inr s' -> Parsed s'.
Proof. loop parsePkg pkgEntry. Qed.

Lemma run_parsed n s s' : Parsed s -> parseRun n s = inr s' -> Parsed s'.
Proof.
  loop parseRun runEntry. apply RunPure.parseRunTimeout_exact in H1. lia.
Qed.

Lemma oneDirShare_parsed s e s' : Parsed s -> oneDirShare s e = inr s' -> Parsed s'.
Proof. intros P E. unfold oneDirShare in E. entry; keeps P. Qed.

Lemma dirs_parsed n s s' : Parsed s -> parseDirs n s = inr s' -> Parsed s'.
Proof.
  intros P E. unfold parseDirs in E. within Parsed dirsEntry; [|done].
  match goal with E : foldM _ _ _ = inr _ |- _ => revert E end. apply foldM_inv; [|done]. intros ? ? ? _. apply oneDirShare_parsed.
Qed.

Lemma oneFileShare_parsed s e s' : Parsed s -> oneFileShare s e = inr s' -> Parsed s'.
Proof. intros P E. unfold oneFileShare in E. entry; keeps P; apply Forall_app_2; by repeat constructor. Qed.

Lemma files_parsed n s s' : Parsed s -> parseFiles n s = inr s' -> Parsed s'.
Proof.
  intros P E. unfold parseFiles in E. entry. within Parsed filesEntry; [|done].
  match goal with E : foldM _ _ _ = inr _ |- _ => revert E end. apply foldM_inv; [|done]. intros ? ? ? _. apply oneFileShare_parsed.
Qed.

Lemma NoDup_snoc {A} (l : list A) a : NoDup l -> ~ In a l -> NoDup (l ++ [a]).
Proof. intros Hl Ha. apply NoDup_app. repeat split; [done| |apply NoDup_singleton]. intros x Hx ->%list_elem_of_singleton. by rewrite list_elem_of_In in Hx. Qed.

Lemma existsb_beq_In a l : existsb (beq a) l = false -> ~ In a l.
Proof. intros E Hin. assert (existsb (beq a) l = true) by (apply existsb_exists; exists a; by rewrite beq_refl). congruence. Qed.

Lemma addTmpfs_parsed s path size s' : Parsed s -> addTmpfs s path size = inr s' -> Parsed s'.
Proof.
  intros P E. unfold addTmpfs in E. entry. keeps P.
  - apply Forall_app_2; [done|]. by repeat constructor.
  - rewrite map_app. apply NoDup_snoc; [done|]. apply existsb_beq_In. cbn. rewrite <- H2.
    clear. induction (tmpfs s) as [|t l IH]; cbn; [done|]. rewrite IH. f_equal. apply eq_true_iff_eq. rewrite !beq_eq. split; congruence.
Qed.

Lemma tmpfs_parsed n s s' : Parsed s -> parseTmpfs n s = inr s' -> Parsed s'.
Proof.
  intros P E. unfold parseTmpfs in E. destruct n; entry; revert E; apply foldM_inv; try done; intros ? e ? _ Q E.
  - unfold tmpfsItem in E. entry. by eapply addTmpfs_parsed.
  - unfold tmpfsEntry in E. destruct e. entry; by eapply addTmpfs_parsed.
Qed.

Lemma keepName_parsed s n s' : Parsed s -> keepName s n = inr s' -> Parsed s'.
Proof.
  intros P E. unfold keepName in E. entry. case_match; [done|]. keeps P; [apply Forall_app_2; [done|by repeat constructor]|].
  apply NoDup_snoc; [done|]. by apply existsb_beq_In.
Qed.

Lemma etc_parsed n s s' : Parsed s -> parseEtc n s = inr s' -> Parsed s'.
Proof.
  intros P E. unfold parseEtc in E. entry. within Parsed etcEntry; [|done].
  match goal with E : foldM _ _ _ = inr _ |- _ => revert E end. apply foldM_inv; [|done]. intros ? ? ? _. apply keepName_parsed.
Qed.

(** ** network and options *)

Lemma vlanOf_range what w v : vlanOf what w = inr v -> 1 <= v <= 4094.
Proof. unfold vlanOf. intros. entry. by eapply parseIntInRange_range. Qed.

Lemma extraEntry_good x k kn v x' : goodExtra x -> extraEntry x k kn v = inr x' -> goodExtra x'.
Proof.
  intros (Hm & Hv & H4 & H6 & Hg) E. unfold extraEntry in E. entry; unfold goodExtra; cbn; repeat split; auto; try done.
  right. by eapply vlanOf_range.
Qed.

Lemma extraItem_good e x : extraItem e = inr x -> goodExtra x.
Proof.
  unfold extraItem. intros. entry. match goal with E : eachEntry _ _ _ = inr _ |- _ => revert E end.
  apply eachEntry_inv; [apply extraEntry_good|]. unfold goodExtra. cbn. repeat split; auto; done.
Qed.

Lemma outboundWord_good n d w d' : goodNet d -> outboundWord n d w = inr d' -> goodNet d'.
Proof. intros P E. unfold outboundWord in E. entry; done. Qed.

Lemma parsePortRange_ordered w r : parsePortRange w = inr r -> fst r <= snd r.
Proof.
  unfold parsePortRange. intros E. match goal with E : match ?m with _ => _ end = _ |- _ => destruct m as [e|[a b]]; [done|] end.
  destruct (b <? a) eqn:L; [done|]. injection E as <-. cbn. lia.
Qed.

Lemma inbound_ordered what v l : inbound what v = inr l -> Forall orderedRule l.
Proof.
  unfold inbound. intros E. apply result_bind_inr in E as ([ws|] & _ & E).
  - eapply mapM_Forall; [|done]. intros w r Er. unfold portItem in Er. apply result_bind_inr in Er as (p & _ & [= <-]). split; cbn; lia.
  - destruct v as [| | |m]; try done. eapply mapM_Forall; [|done]. intros kv r Er. unfold portEntry in Er. entry.
    split; cbn; by eapply parsePortRange_ordered.
Qed.

Lemma netEntry_good d k kn v d' : goodNet d -> netEntry d k kn v = inr d' -> goodNet d'.
Proof.
  intros P E. unfold netEntry, ipv6Value in E. entry; try done.
  1: { revert H1. apply foldM_inv; [|done]. intros ? ? ? _. apply outboundWord_good. }
  all: destruct P as (Hv & H4 & Hg & Hx & Ht & Hu); unfold goodNet; cbn; repeat split; auto; try done.
  1-2: apply Forall_app_2; [done|]; by eapply inbound_ordered.
  - right. by eapply vlanOf_range.
  - apply Forall_app_2; [done|]. eapply mapM_Forall; [|done]. apply extraItem_good.
Qed.

(** The primary interface's static IPv6 address is checked where it comes from
    [ip6]; [ipv6] stores one unchecked. *)
Definition goodIp6 (d : NetOptDetails) : Prop := ip6Mode d = Ip6Static -> validateStaticIp6 (staticIp6 d) = [].
Definition hasKey (k : bytes) (n : Node) : Prop := exists l kv, n = Map l /\ In kv l /\ AsString (fst kv) = inr k.

Lemma netEntry_ip6 d k kn v d' : k <> str "ipv6" -> goodIp6 d -> netEntry d k kn v = inr d' -> goodIp6 d'.
Proof.
  intros N P E. unfold netEntry in E. assert (isKey k [str "ipv6"] = false) as Ek.
  { unfold isKey, mem. cbn [existsb]. rewrite orb_false_r. by apply beq_neq. }
  rewrite Ek in E. entry; try (by unfold goodIp6; cbn).
  revert H1. apply foldM_inv; [|done]. intros a w a' _ Pa Ea. unfold outboundWord in Ea. entry; done.
Qed.

Lemma netMap_ip6 m d : eachEntry m netEntry blankNet = inr d -> goodIp6 d \/ hasKey (str "ipv6") m.
Proof.
  unfold eachEntry. intros E. minv E. destruct m as [| | |l]; cbn [entries] in E0.
  1-2: injection E0 as <-; injection E as <-; by left.
  { destruct l; [|done]. injection E0 as <-. injection E as <-. by left. }
  injection E0 as <-. destruct (decide (Exists (fun kv => AsString (fst kv) = inr (str "ipv6")) l)) as [X|X].
  - right. apply List.Exists_exists in X as (kv & Hi & Hk). by exists l, kv.
  - left. revert E. apply foldM_inv; [|done]. intros a kv a' Hi Pa Ea. minv Ea. eapply netEntry_ip6; [|exact Pa|exact Ea].
    intros ->. apply X, List.Exists_exists. by exists kv.
Qed.

Lemma blankNet_good : goodNet blankNet.
Proof. unfold goodNet. cbn. repeat split; auto; done. Qed.

Lemma optionNet_good s : Parsed s -> goodNet (default blankNet (optionNet s)).
Proof. intros P. destruct (optionNet s) eqn:E; [by apply (p_net s P)|apply blankNet_good]. Qed.

Lemma network_parsed n s s' : Parsed s -> parseNetwork n s = inr s' -> Parsed s'.
Proof.
  intros P E. pose proof (optionNet_good s P). unfold parseNetwork in E. cbv zeta in E. entry.
  all: apply setOption_parsed; [|done]; by intros d _ [= <-].
Qed.

Lemma optionsList_parsed s names : Parsed s -> Parsed (optionsList s names).
Proof.
  intros P. unfold optionsList.
  assert (Q : Parsed (fold_left addOption names s)).
  { revert s P. induction names as [|k l IH]; intros s P; cbn; [done|]. apply IH. by apply addOption_parsed. }
  pose proof blankNet_good.
  repeat case_match; repeat (apply setOption_parsed; [by intros d ? [= <-]|]); done.
Qed.

Lemma extendedOption_parsed n s k s' : Parsed s -> extendedOption n s k = inr s' -> Parsed s'.
Proof.
  intros P E. unfold extendedOption in E. destruct (field k n) as [v|]; [|by injection E as <-]. pose proof blankNet_good.
  destruct (beq k (str "net")) eqn:Ek.
  { entry; (apply setOption_parsed; [|done]); intros d _ [= <-]; [|done].
    match goal with E : eachEntry _ _ _ = inr _ |- _ => revert E end. apply eachEntry_inv; [apply netEntry_good|done]. }
  entry; try (by apply addOption_parsed).
  all: try (apply setOption_parsed; [|done]; by intros ? _ [=]).
  all: match goal with |- Parsed (setOption ?t _ _) => assert (Q : Parsed t) by (apply setOption_parsed; [by intros ? _ [=]|done]) end.
  all: apply setOption_parsed; [|done]; intros d _ [= <-]; exact (optionNet_good _ Q).
Qed.

Lemma options_parsed n s s' : Parsed s -> parseOptions n s = inr s' -> Parsed s'.
Proof.
  intros P E. unfold parseOptions in E. entry; [by apply optionsList_parsed|].
  match goal with E : foldM _ _ _ = inr _ |- _ => revert E end. apply foldM_inv; [|done]. intros ? ? ? _. apply extendedOption_parsed.
Qed.

Lemma sections_parsed : Forall (fun sec => forall n s s', Parsed s -> snd sec n s = inr s' -> Parsed s') sections.
Proof.
  unfold sections. let next l := constructor; [exact l|] in
  next base_parsed; next pkg_parsed; next run_parsed; next dirs_parsed; next files_parsed; next tmpfs_parsed;
  next etc_parsed; next network_parsed; next options_parsed; next zfs_parsed; next ipc_parsed; next limits_parsed;
  next encrypted_parsed; next dns_parsed; next security_parsed; next cow_parsed; next x11_parsed; next privacy_parsed;
  next clipboard_parsed; next dbus_parsed; next services_parsed; next socketProxy_parsed; next firewall_parsed; next advanced_parsed;
  next terminal_parsed; next devices_parsed; next gui_parsed; next health_parsed; next depends_parsed; next baseContainer_parsed;
  next cron_parsed; next restart_parsed; next scripts_parsed;
  constructor.
Qed.

Lemma topEntry_parsed s k kn v s' : Parsed s -> topEntry s k kn v = inr s' -> Parsed s'.
Proof.
  intros P E. unfold topEntry in E. destruct (List.find _ sections) as [sec|] eqn:Ef; [|done].
  apply find_some in Ef as [Hin _]. pose proof sections_parsed as Hall. rewrite List.Forall_forall in Hall. by eapply Hall.
Qed.

Lemma parseSpecFromNode_parsed top s : parseSpecFromNode top = inr s -> Parsed s.
Proof. apply eachEntry_inv; [apply topEntry_parsed|apply blank_parsed]. Qed.

(** ** [Spec::validate] on parsed specs *)

Lemma bind_tt {A} (r : bytes + unit) (k : bytes + A) (x : A) : (r ≫= fun _ => k) = inr x <-> r = inr tt /\ k = inr x.
Proof. destruct r as [e|[]]; cbn; [split; [done|by intros [? _]]|]. tauto. Qed.

Lemma spec_mem_In w l : mem w l = true <-> In w l.
Proof.
  unfold mem. rewrite existsb_exists. split; [intros (y & Hy & ->%beq_eq); done|]. intros Hw. exists w. by rewrite beq_refl.
Qed.

Section validated.
Context (pw : option UtilPure.PwEnt) (cfg : Settings) (secs : list bytes).

(** A path that is absolute after substitution. *)
Definition full (p : bytes) : Prop := fullAfterSubst pw p = inr true.

Lemma checkShare_ok d : checkShare pw d = inr tt <-> full (sh_jail d) /\ full (sh_host d).
Proof.
  unfold checkShare, full. destruct (fullAfterSubst pw (sh_jail d)) as [|[]]; cbn; try (split; [done|by intros [[=] _]]).
  destruct (fullAfterSubst pw (sh_host d)) as [|[]]; cbn; split; try done; by intros [_ [=]].
Qed.

Lemma checkFileShare_ok d : sh_readOnly d = false -> checkFileShare pw d = inr tt <-> full (sh_jail d) /\ full (sh_host d).
Proof. intros Hr. unfold checkFileShare. rewrite Hr, bind_tt, checkShare_ok. cbn. tauto. Qed.

Lemma checkOverrides_ok pkgs l : OMap.wf pkgs -> checkOverrides pkgs l = inr tt <->
  NoDup (map fst l) /\ Forall (fun kv => OMap.find (fst kv) pkgs = None) l.
Proof.
  revert pkgs. induction l as [|[k v] l IH]; intros pkgs W; cbn [checkOverrides map fst].
  { split; [repeat constructor|done]. }
  rewrite NoDup_cons, Forall_cons. cbn [fst].
  destruct (OMap.find k pkgs) eqn:E; [split; [done|by intros (_ & [=] & _)]|].
  rewrite IH by by apply OMap.wf_insert. rewrite !Forall_forall. setoid_rewrite OMap.find_insert; [|done..].
  split.
  - intros [Hn Hf]. repeat split; try done.
    + intros (x & -> & Hx)%list_elem_of_fmap. specialize (Hf x Hx). by rewrite decide_True in Hf.
    + intros x Hx. specialize (Hf x Hx). by case_decide.
  - intros ((Hni & Hn) & _ & Hf). split; [done|]. intros x Hx. rewrite decide_False; [by apply Hf|].
    intros Ex. apply Hni. apply list_elem_of_fmap. by exists x.
Qed.

Definition goodTmpfs (t : Tmpfs) : Prop := Mounts.validateTmpfsPath (tm_path t) = [] /\ Mounts.validateTmpfsSize (tm_size t) = [].

Lemma existsb_path_In {A} (f : A -> bytes) p l : existsb (fun b => beq (f b) p) l = false <-> ~ In p (map f l).
Proof.
  rewrite <- not_true_iff_false, existsb_exists, in_map_iff. split; intros Hn (x & Hx); apply Hn; exists x.
  - destruct Hx as [<- Hx]. by rewrite beq_refl.
  - destruct Hx as [Hx ->%beq_eq]. done.
Qed.

Lemma checkTmpfs_ok shares before l : Forall goodTmpfs l -> NoDup (map tm_path (before ++ l)) ->
  checkTmpfs shares before l = inr tt <-> Forall (fun t => ~ In (tm_path t) (map sh_jail shares)) l.
Proof.
  revert before. induction l as [|t l IH]; intros before Hg Hn; cbn [checkTmpfs]; [split; [constructor|done]|].
  apply Forall_cons in Hg as [[Hp Hs] Hg]. rewrite Hp, Hs, Forall_cons. cbn [errOn mbind result_bind].
  replace (existsb _ before) with false.
  2: { symmetry. apply existsb_path_In. rewrite map_app in Hn. apply NoDup_app in Hn as (_ & Hd & _). intros Hin.
       eapply Hd; [by apply list_elem_of_In|]. by left. }
  cbn [errIf mbind result_bind]. rewrite bind_tt, errIf_ok, existsb_path_In, IH; [done|done|]. by rewrite <- app_assoc.
Qed.

Lemma forM_iff {A} (f : A -> bytes + unit) (Q : A -> Prop) l u : (forall a, f a = inr tt <-> Q a) -> forM f l = inr u <-> Forall Q l.
Proof. intros Hf. rewrite forM_ok. split; intros HF; (eapply Forall_impl; [exact HF|]); intros a; apply Hf. Qed.

Lemma whenSome_ok {A} (o : option A) f : whenSome o f = inr tt <-> forall a, o = Some a -> f a = inr tt.
Proof. destruct o as [x|]; cbn; split; try done; [by intros Hf a [= <-]|]. intros Hf. by apply Hf. Qed.

Lemma full_check p m : (ok ← fullAfterSubst pw p; errIf (negb ok) m) = inr tt <-> full p.
Proof. unfold full. destruct (fullAfterSubst pw p) as [|[]]; cbn; split; done. Qed.

Lemma validateRun_parsed s : Parsed s -> validateRun s = inr tt <->
  (runCmdExecutable s <> [] \/ runServices s <> [] \/ optionExists s (str "tor") = true)
  /\ NoDup (map fst (pkgLocalOverride s))
  /\ (runCmdExecutable s = [] \/ isFullPath (runCmdExecutable s) = true).
Proof.
  intros P. unfold validateRun. rewrite !bind_tt, !errIf_ok, errOn_ok, checkOverrides_ok by apply OMap.wf_nil.
  rewrite (p_runUser s P), (p_hostid s P), (p_hostname s P). pose proof (p_runTimeout s P).
  rewrite !andb_false_iff, !negb_false_iff, !is_empty_false, is_empty_true.
  assert (HF : Forall (fun kv => OMap.find (fst kv) (@nil (bytes * bytes)) = None) (pkgLocalOverride s)) by by apply Forall_true.
  split; [tauto|]. intros (? & ? & ?). repeat split; try tauto. apply Z.ltb_ge. lia.
Qed.

Lemma validateFiles_parsed s : Parsed s -> validateFiles pw s = inr tt <->
  Forall (fun d => full (sh_jail d) /\ full (sh_host d)) (dirsShare s ++ filesShare s)
  /\ Forall (fun t => ~ In (tm_path t) (map sh_jail (dirsShare s))) (tmpfs s)
  /\ Forall full (pkgAdd s).
Proof.
  intros P. unfold validateFiles. rewrite !bind_tt, checkTmpfs_ok by apply P.
  rewrite (forM_iff _ _ _ _ checkShare_ok), Forall_app.
  assert (E1 : forM (checkFileShare pw) (filesShare s) = inr tt <-> Forall (fun d => full (sh_jail d) /\ full (sh_host d)) (filesShare s)).
  { rewrite forM_ok. pose proof (p_files s P) as Hr. rewrite Forall_forall in Hr. rewrite !Forall_forall.
    split; intros Hf x Hx; specialize (Hf x Hx); by apply checkFileShare_ok; auto. }
  assert (E2 : forM (fun n => errOn [] (Mounts.validateEtcKeepName n)) (etcKeep s) = inr tt).
  { apply forM_ok. eapply Forall_impl; [apply (p_etcKeep s P)|]. intros n Hn. cbn beta in *. by rewrite Hn. }
  rewrite E1, E2, (forM_iff _ full) by (intros; apply full_check). tauto.
Qed.

Lemma validateOptions_parsed s : validateOptions cfg secs s = inr tt <->
  Forall (fun o => In (fst o) allOptions) (options s)
  /\ Forall (fun x => fst x <> [] /\ In (fst x) secs) (scripts s)
  /\ (forall d, optionNet s = Some d -> checkNet cfg d = inr tt).
Proof.
  unfold validateOptions. rewrite !bind_tt.
  rewrite (forM_iff _ (fun o => In (fst o) allOptions)) by (intros; by rewrite errIf_ok, negb_false_iff, spec_mem_In).
  rewrite (forM_iff _ (fun x => fst x <> [] /\ In (fst x) secs)) by (intros; by rewrite errIf_ok, orb_false_iff, negb_false_iff, spec_mem_In, is_empty_false).
  by rewrite whenSome_ok.
Qed.

(** What the sections must satisfy beyond what the parser guarantees. *)
Record SectionsValid (s : Spec) : Prop := {
  v_zfs : Forall (fun ds => ds <> [] /\ starts_with (str "/") ds = false /\ has_sub (str "..") ds = false) (zfsDatasets s);
  v_limits : Forall (fun l => In (fst l) validLimits) (limits s);
  v_encryption : checkEncryption s = inr tt;
  v_dbus : forall d, dbusOptions s = Some d -> dbus_systemBus d = true \/ dbus_sessionBus d = true;
  v_proxy : forall p, socketProxy s = Some p -> checkSocketProxy p = inr tt;
  v_terminal : forall t, terminalOptions s = Some t -> -1 <= tty_devfsRuleset t <= 65535;
  v_wireguard : forall p, optionWireguard s = Some p -> p = [] \/ VpnRuntime.validateConfigPath p = [];
  v_ipsec : forall c f, optionIpsec s = Some (c, f) -> c = [] \/ VpnRuntime.validateConnName c = [] }.

Lemma checkFirewall_good f : Forall goodPort (fw_allowTcp f) -> Forall goodPort (fw_allowUdp f) -> checkFirewall f = inr tt.
Proof.
  intros Ht Hu. unfold checkFirewall. rewrite bind_tt, !forM_ok.
  split; (eapply Forall_impl; [eassumption|]); intros p [? ?]; apply errIf_ok, orb_false_iff; split; lia.
Qed.

Lemma empty_or (p : bytes) pre e : (if is_empty p then inr tt else errOn pre e) = inr tt <-> p = [] \/ e = [].
Proof. destruct p; cbn [is_empty]; [split; auto|]. rewrite errOn_ok. split; [by right|by intros [|]]. Qed.

Lemma validateSections_parsed s : Parsed s -> validateSections s = inr tt <-> SectionsValid s.
Proof.
  intros P. unfold validateSections. rewrite !bind_tt, (p_cow s P).
  rewrite (forM_iff checkZfs (fun ds => ds <> [] /\ starts_with (str "/") ds = false /\ has_sub (str "..") ds = false)).
  2: { intros ds. unfold checkZfs. rewrite errIf_ok, !orb_false_iff, is_empty_false. tauto. }
  rewrite (forM_iff _ (fun l => In (fst l) validLimits)) by (intros; by rewrite errIf_ok, negb_false_iff, spec_mem_In).
  rewrite (forM_iff _ (fun m => svc_name m <> [])) by (intros; by rewrite errIf_ok, is_empty_false).
  rewrite !whenSome_ok. setoid_rewrite errIf_ok. setoid_rewrite empty_or.
  pose proof (p_services s P). pose proof (p_statfs s P).
  assert (Hfw : forall f, firewallPolicy s = Some f -> checkFirewall f = inr tt)
    by (intros f Hf; by apply checkFirewall_good; apply (p_firewall s P)).
  assert (Hclip : forall c, clipboardOptions s = Some c -> negb (mem (clip_mode c) [str "isolated"; str "shared"; str "none"]) = false)
    by (intros c Hc; by rewrite (proj1 (p_clipboard s P c Hc))).
  assert (Hst : negb (enforceStatfs s =? -1) && ((enforceStatfs s <? 0) || (2 <? enforceStatfs s)) = false) by lia.
  split.
  - intros (Hz & Hl & He & _ & _ & _ & Hd & _ & Hp & _ & Ht & Hw & Hi). constructor; try done.
    + intros d Hd'. specialize (Hd d Hd'). destruct (dbus_systemBus d), (dbus_sessionBus d); auto.
    + intros t Ht'. specialize (Ht t Ht'). lia.
    + intros c f Hc. exact (Hi _ Hc).
  - intros []. repeat split; try done.
    + intros d Hd. destruct (v_dbus0 d Hd) as [->| ->]; [done|by rewrite andb_false_r].
    + intros t Ht. specialize (v_terminal0 t Ht). lia.
    + intros [c f]. apply v_ipsec0.
Qed.
End validated.

(** C11: a spec that the parser returns satisfies its invariant [Parsed]: the
    tmpfs mounts and kept /etc names are valid and listed once, the run user,
    timeout, privacy and disk quota settings are valid, file shares are never
    read-only, static IPv4 addresses, gateways and VLANs of the network and static
    IPv6 addresses of its extra interfaces are valid, inbound port ranges are ordered,
    every firewall and portacl port is in 1..65535, the gui section is
    consistent, health checks and restarts have a delay of at least a second,
    and every cron job is one crontab line.  The static IPv6 address of the primary
    interface, which the invariant does not speak of, is valid when the network section
    it is read from has no [ipv6] key: that one stores any word as an address. *)
Theorem parser_invariant (top : Node) (s : Spec) : parseSpecFromNode top = inr s ->
  Parsed s /\ forall m d, eachEntry m netEntry blankNet = inr d -> goodIp6 d \/ hasKey (str "ipv6") m.
Proof. intros E. split; [by eapply parseSpecFromNode_parsed|apply netMap_ip6]. Qed.

(** C10: for a parsed spec, [Spec::validate] accepts exactly when there is
    something to run, no package is overridden twice, every path that has to be
    absolute is, no tmpfs hides a share, the options and script sections are
    known, the network options are consistent and the remaining sections pass:
    every other check of it is already ensured by the parser. *)
Theorem validate_after_parse (pw : option UtilPure.PwEnt) (cfg : Settings) (secs : list bytes) (top : Node) (s : Spec) :
  parseSpecFromNode top = inr s ->
  validate pw cfg secs s = inr tt <->
    (runCmdExecutable s <> [] \/ runServices s <> [] \/ optionExists s (str "tor") = true)
    /\ NoDup (map fst (pkgLocalOverride s))
    /\ (runCmdExecutable s = [] \/ isFullPath (runCmdExecutable s) = true)
    /\ Forall (fun d => full pw (sh_jail d) /\ full pw (sh_host d)) (dirsShare s ++ filesShare s)
    /\ Forall (fun t => ~ In (tm_path t) (map sh_jail (dirsShare s))) (tmpfs s)
    /\ Forall (full pw) (pkgAdd s)
    /\ Forall (fun o => In (fst o) allOptions) (options s)
    /\ Forall (fun x => fst x <> [] /\ In (fst x) secs) (scripts s)
    /\ (forall d, optionNet s = Some d -> checkNet cfg d = inr tt)
    /\ SectionsValid s.
Proof.
  intros P%parseSpecFromNode_parsed. unfold validate.
  rewrite !bind_tt, validateRun_parsed, validateFiles_parsed, validateOptions_parsed, validateSections_parsed by done. tauto.
Qed.
End facts.

(** A document that uses most of the sections. *)
Definition sampleDoc : Node :=
  let S x := Scalar (str x) in
  Map [(S "run", Map [(S "command", S "/usr/local/bin/nginx -g"); (S "user", S "www"); (S "timeout", S "2h")]);
       (S "dirs", Map [(S "share", Sequence [Sequence [S "/data"; S "/home/u/data"; S "ro"]; S "/var/cache:ro"])]);
       (S "tmpfs", Map [(S "/tmp", S "512m"); (S "/var/tmp", Null)]);
       (S "options", Map [(S "net", Map [(S "mode", S "bridge"); (S "bridge", S "bridge0"); (S "ip", S "10.0.0.5/24");
                                         (S "gateway", S "10.0.0.1"); (S "vlan", S "100")]); (S "ssl-certs", Null)]);
       (S "limits", Map [(S "memoryuse", S "1G"); (S "disk_quota", S "10G")]);
       (S "firewall", Map [(S "allow-tcp", Sequence [S "80"; S "443"]); (S "default", S "block")]);
       (S "healthcheck", Map [(S "test", S "/bin/true"); (S "interval", S "10")]);
       (S "cron", Sequence [Map [(S "schedule", S "0 3 * * *"); (S "command", S "/bin/backup")]]);
       (S "restart", S "on-failure");
       (S "gui", Map [(S "mode", S "compositor"); (S "compositor", S "sway")])]%string.

Definition sampleSpec : Spec := match @parseSpecFromNode plainYaml sampleDoc with inr s => s | inl _ => blankSpec end.

Lemma parser_invariant_witness : Parsed sampleSpec /\ length (cronJobs sampleSpec) = 1%nat.
Proof. split; [apply (@parser_invariant plainYaml sampleDoc sampleSpec); vm_compute; reflexivity|vm_compute; reflexivity]. Defined.

Definition sampleCfg : Settings := {| networks := []; defaultBridge := []; staticMacDefault := false |}.

Lemma validate_after_parse_witness : NoDup (map fst (pkgLocalOverride sampleSpec)) /\ SectionsValid sampleSpec.
Proof.
  assert (V : validate None sampleCfg [] sampleSpec = inr tt) by (vm_compute; reflexivity).
  apply (@validate_after_parse plainYaml None sampleCfg [] sampleDoc sampleSpec) in V; [|vm_compute; reflexivity].
  destruct V as (_ & Hn & _ & _ & _ & _ & _ & _ & _ & Hs). split; [exact Hn|exact Hs].
Defined.
End SpecFacts.
