(* ===== verification/SpecMerge.v ===== *)
(** * Copying, preprocessing and merging specs: lib/spec.cpp

    The copy constructor, [Spec::preprocess] and [mergeSpecs]. *)

From S2P Require Import Prelude CStd UtilPure OMap RecordUpd Limits RunPure PrivOps SpecParts ThinJail Yaml Spec SpecParse SpecSections SpecFacts.

Module SpecMerge.
Import Spec SpecParse SpecSections SpecFacts.

(** [Spec::Spec(const Spec &)]: every member but [pkgKeepPkg], which keeps its
    default member initializer.  The entries of [options] are shared pointers:
    the copy has the same details objects. *)
Definition copySpec (o : Spec) : Spec := o <| pkgKeepPkg := pkgKeepPkg blankSpec |>.

(** ** preprocess *)

(** The package of the [gl] option; [None] is [pciconf] failing. *)
Definition glDriver (pci : option bytes) : list bytes :=
  match pci with
  | None => [str "nvidia-driver"]
  | Some out =>
      if has_sub (str "vendor=0x10de") out then [str "nvidia-driver"]
      else if has_sub (str "vendor=0x1002") out then [str "drm-kmod"]
      else if has_sub (str "vendor=0x8086") out then [str "drm-kmod"]
      else []
  end.

(** [scripts[section][name] = text] *)
Definition setScript (sec name text : bytes) (m : StrMap (StrMap bytes)) : StrMap (StrMap bytes) :=
  OMap.insert sec (OMap.insert name text (default [] (OMap.find sec m))) m.

Definition sslCerts (s : Spec) : Spec :=
  if optionExists s (str "ssl-certs")
  then s <| options ::= OMap.erase (str "ssl-certs") |> <| pkgInstall ::= fun x => x ++ [str "ca_root_nss"] |> else s.

Definition torActions (s : Spec) : Spec :=
  match optionTor s with
  | None => s
  | Some controlPort =>
      let s1 := s <| pkgInstall ::= fun x => x ++ [str "tor"] |> <| runServices ::= fun x => str "tor" :: x |>
                  <| baseKeep ::= fun x => x ++ [str "/usr/bin/limits"; str "/usr/bin/su"; str "/bin/ps"; str "/bin/csh"] |>
                  <| baseKeepWildcard ::= fun x => x ++ [str "/usr/lib/pam_*.so"; str "/usr/lib/pam_*.so.*"] |> in
      if controlPort
      then s1 <| scripts ::= setScript (str "run:before-start-services") (str "openTorControlPort")
                               (str "echo ControlPort 9051 >> /usr/local/etc/tor/torrc") |>
      else s1
  end.

Definition glActions (pci : option bytes) (s : Spec) : Spec :=
  if optionExists s (str "gl")
  then s <| options ::= OMap.erase (str "gl") |> <| pkgInstall ::= fun x => x ++ [str "mesa-dri"] ++ glDriver pci |> else s.

Definition ktraceActions (s : Spec) : Spec :=
  if optionExists s (str "dbg-ktrace") then s <| baseKeep ::= fun x => x ++ [str "/usr/bin/ktrace"] |> else s.

Section config.
Context (cfg : Settings).

(** [if (dst.empty() && !src.empty()) dst = src] *)
Definition fill (src dst : bytes) : bytes := if is_empty dst && negb (is_empty src) then src else dst.

(** [mode: auto] *)
Definition expandAuto (d : NetOptDetails) : NetOptDetails :=
  if bool_decide (mode d = AutoMode) then
    d <| mode := Bridge |>
      <| bridgeIface ::= fun b => if is_empty b then (if is_empty (defaultBridge cfg) then str "crate0" else defaultBridge cfg) else b |>
      <| autoCreateBridge := true |>
  else d.

Definition namedMode (w : bytes) (m : NetMode) : NetMode :=
  if beq w (str "bridge") then Bridge
  else if beq w (str "passthrough") then Passthrough
  else if beq w (str "netgraph") then Netgraph
  else m.

(** The address mode and address a named network gives. *)
Definition namedIp6 (def : NetworkDef) (m : Ip6Mode) (a : bytes) : Ip6Mode * bytes :=
  if bool_decide (m = Ip6None) && negb (is_empty (nd_ip6 def)) then
    if beq (nd_ip6 def) (str "slaac") then (Slaac, a)
    else if negb (beq (nd_ip6 def) (str "none")) then (Ip6Static, nd_ip6 def)
    else (m, a)
  else (m, a).

(** [if (vlanId < 0 && def.vlan >= 0) vlanId = def.vlan] *)
Definition fillVlan (n v : Z) : Z := if (v <? 0) && (0 <=? n) then n else v.

(** The fields of a named network, where the spec leaves them open. *)
Definition applyNamed (def : NetworkDef) (d : NetOptDetails) : NetOptDetails :=
  let ip6 := namedIp6 def (ip6Mode d) (staticIp6 d) in
  {| networkName := networkName d;
     mode := if bool_decide (mode d = Nat) && negb (is_empty (nd_mode def)) then namedMode (nd_mode def) (mode d) else mode d;
     outboundWan := outboundWan d; outboundLan := outboundLan d; outboundHost := outboundHost d; outboundDns := outboundDns d;
     ipv6 := ipv6 d; inboundPortsTcp := inboundPortsTcp d; inboundPortsUdp := inboundPortsUdp d;
     bridgeIface := fill (nd_bridge def) (bridgeIface d); autoCreateBridge := autoCreateBridge d;
     passthroughIface := fill (nd_interface def) (passthroughIface d); netgraphIface := fill (nd_interface def) (netgraphIface d);
     ipMode := ipMode d; staticIp := staticIp d; gateway := fill (nd_gateway def) (gateway d);
     ip6Mode := fst ip6; staticIp6 := snd ip6; staticMac := staticMac d || nd_staticMac def;
     vlanId := fillVlan (nd_vlan def) (vlanId d); extraInterfaces := extraInterfaces d |}.

Definition extraMode (def : NetworkDef) (x : ExtraInterface) : NetMode :=
  if beq (nd_mode def) (str "bridge") && is_empty (ex_bridgeIface x) then Bridge
  else if beq (nd_mode def) (str "passthrough") && is_empty (ex_passthroughIface x) then Passthrough
  else if beq (nd_mode def) (str "netgraph") && is_empty (ex_netgraphIface x) then Netgraph
  else ex_mode x.

Definition applyNamedExtra (def : NetworkDef) (x : ExtraInterface) : ExtraInterface :=
  let ip6 := namedIp6 def (ex_ip6Mode x) (ex_staticIp6 x) in
  {| ex_networkName := ex_networkName x; ex_mode := extraMode def x;
     ex_bridgeIface := fill (nd_bridge def) (ex_bridgeIface x);
     ex_passthroughIface := fill (nd_interface def) (ex_passthroughIface x);
     ex_netgraphIface := fill (nd_interface def) (ex_netgraphIface x);
     ex_ipMode := ex_ipMode x; ex_staticIp := ex_staticIp x; ex_gateway := fill (nd_gateway def) (ex_gateway x);
     ex_ip6Mode := fst ip6; ex_staticIp6 := snd ip6; ex_staticMac := ex_staticMac x || nd_staticMac def;
     ex_vlanId := fillVlan (nd_vlan def) (ex_vlanId x) |}.

Definition resolveExtra (x : ExtraInterface) : ExtraInterface :=
  if is_empty (ex_networkName x) then x
  else match OMap.find (ex_networkName x) (networks cfg) with Some def => applyNamedExtra def x | None => x end.

Definition resolvePrimary (d : NetOptDetails) : NetOptDetails :=
  if is_empty (networkName d) then d
  else match OMap.find (networkName d) (networks cfg) with Some def => applyNamed def d | None => d end.

Definition applyDefaults (d : NetOptDetails) : NetOptDetails :=
  let d1 := if bool_decide (mode d = Bridge) && is_empty (bridgeIface d) && negb (is_empty (defaultBridge cfg))
            then d <| bridgeIface := defaultBridge cfg |> else d in
  if negb (bool_decide (mode d1 = Nat)) && negb (staticMac d1) && staticMacDefault cfg then d1 <| staticMac := true |> else d1.

(** What the block on [optionNetWr()] writes into the details object. *)
Definition resolveNet (d : NetOptDetails) : NetOptDetails :=
  let d1 := resolvePrimary (expandAuto d) in
  applyDefaults (d1 <| extraInterfaces ::= map resolveExtra |>).

Definition withNet (s : Spec) : Spec :=
  match optionNet s with Some d => setOption s (str "net") (Some (NetOpt (resolveNet d))) | None => s end.

(** The result, and the spec it was called on afterwards: the details of [net]
    are one object, reached from both. *)
Definition preprocess (pci : option bytes) (self : Spec) : Spec * Spec :=
  (withNet (ktraceActions (glActions pci (torActions (sslCerts (copySpec self))))), withNet self).
End config.

(** ** mergeSpecs *)

Definition ifSet (overlay base : bytes) : bytes := if is_empty overlay then base else overlay.

(** [if (overlay.p) result.p = copy of it] *)
Definition ifPtr {A} (overlay base : option A) : option A := match overlay with Some _ => overlay | None => base end.

Definition mergeTmpfs (l : list Tmpfs) (v : Tmpfs) : list Tmpfs :=
  if existsb (fun t => beq (tm_path t) (tm_path v)) l
  then map (fun t => if beq (tm_path t) (tm_path v) then t <| tm_size := tm_size v |> else t) l
  else l ++ [v].

Definition addOnce (l : list bytes) (n : bytes) : list bytes := if mem n l then l else l ++ [n].

Definition insertAll {V} (m : StrMap V) (l : StrMap V) : StrMap V := fold_left (fun m kv => OMap.insert (fst kv) (snd kv) m) l m.

Definition mergeScripts (m : StrMap (StrMap bytes)) (l : StrMap (StrMap bytes)) : StrMap (StrMap bytes) :=
  fold_left (fun m s => fold_left (fun m sc => setScript (fst s) (fst sc) (snd sc) m) (snd s) m) l m.

(** [if (overlay.b) result.b = true] *)
Definition orSet (overlay base : bool) : bool := if overlay then true else base.

(** [if (overlay.n >= 0) result.n = overlay.n] *)
Definition ifNonNeg (overlay base : Z) : Z := if 0 <=? overlay then overlay else base.

(** The result starts as a copy of [b]; every statement assigns one member. *)
Definition mergeSpecs (b o : Spec) : Spec := {|
  baseKeep := baseKeep b ++ baseKeep o;
  baseKeepWildcard := baseKeepWildcard b ++ baseKeepWildcard o;
  baseRemove := baseRemove b ++ baseRemove o;
  baseHostRo := baseHostRo b || baseHostRo o;
  baseHostDirs := if is_empty (baseHostDirs o) then baseHostDirs b else baseHostDirs o;
  pkgInstall := pkgInstall b ++ pkgInstall o;
  pkgLocalOverride := pkgLocalOverride b ++ pkgLocalOverride o;
  pkgAdd := pkgAdd b ++ pkgAdd o;
  pkgNuke := pkgNuke b ++ pkgNuke o;
  pkgKeepPkg := pkgKeepPkg b && pkgKeepPkg o;
  runCmdExecutable := ifSet (runCmdExecutable o) (runCmdExecutable b);
  runCmdArgs := if is_empty (runCmdExecutable o) then runCmdArgs b else runCmdArgs o;
  runServices := runServices b ++ runServices o;
  runUser := ifSet (runUser o) (runUser b);
  runTimeoutSec := if runTimeoutSec o =? 0 then runTimeoutSec b else runTimeoutSec o;
  dirsShare := dirsShare b ++ dirsShare o;
  filesShare := filesShare b ++ filesShare o;
  tmpfs := fold_left mergeTmpfs (tmpfs o) (tmpfs b);
  etcKeep := fold_left addOnce (etcKeep o) (etcKeep b);
  options := insertAll (options b) (options o);
  zfsDatasets := zfsDatasets b ++ zfsDatasets o;
  allowSysvipc := orSet (allowSysvipc o) (allowSysvipc b);
  allowMqueue := orSet (allowMqueue o) (allowMqueue b);
  ipcRawSocketsOverride := orSet (ipcRawSocketsOverride o) (ipcRawSocketsOverride b);
  ipcRawSocketsValue := if ipcRawSocketsOverride o then ipcRawSocketsValue o else ipcRawSocketsValue b;
  limits := insertAll (limits b) (limits o);
  diskQuota := ifSet (diskQuota o) (diskQuota b);
  encrypted := if encrypted o then encrypted o else encrypted b;
  encryptionMethod := ifSet (encryptionMethod o) (encryptionMethod b);
  encryptionKeyformat := ifSet (encryptionKeyformat o) (encryptionKeyformat b);
  encryptionCipher := ifSet (encryptionCipher o) (encryptionCipher b);
  dnsFilter := ifPtr (dnsFilter o) (dnsFilter b);
  enforceStatfs := ifNonNeg (enforceStatfs o) (enforceStatfs b);
  allowQuotas := orSet (allowQuotas o) (allowQuotas b);
  allowSetHostname := orSet (allowSetHostname o) (allowSetHostname b);
  allowChflags := orSet (allowChflags o) (allowChflags b);
  allowMlock := orSet (allowMlock o) (allowMlock b);
  securelevel := ifNonNeg (securelevel o) (securelevel b);
  childrenMax := ifNonNeg (childrenMax o) (childrenMax b);
  cpuset := ifSet (cpuset o) (cpuset b);
  cowOptions := ifPtr (cowOptions o) (cowOptions b);
  x11Options := ifPtr (x11Options o) (x11Options b);
  clipboardOptions := ifPtr (clipboardOptions o) (clipboardOptions b);
  privacyHostid := ifSet (privacyHostid o) (privacyHostid b);
  privacyHostname := ifSet (privacyHostname o) (privacyHostname b);
  dbusOptions := ifPtr (dbusOptions o) (dbusOptions b);
  managedServices := managedServices b ++ managedServices o;
  servicesAutoStart := if servicesAutoStartExplicit o then servicesAutoStart o else servicesAutoStart b;
  servicesAutoStartExplicit := orSet (servicesAutoStartExplicit o) (servicesAutoStartExplicit b);
  socketProxy := ifPtr (socketProxy o) (socketProxy b);
  firewallPolicy := ifPtr (firewallPolicy o) (firewallPolicy b);
  securityAdvanced := ifPtr (securityAdvanced o) (securityAdvanced b);
  terminalOptions := ifPtr (terminalOptions o) (terminalOptions b);
  devices := Devices.merge (devices b) (devices o);
  guiOptions := ifPtr (guiOptions o) (guiOptions b);
  healthcheck := ifPtr (healthcheck o) (healthcheck b);
  restartPolicy := ifPtr (restartPolicy o) (restartPolicy b);
  baseContainer := ifPtr (baseContainer o) (baseContainer b);
  depends := if is_empty (depends o) then depends b ++ depends o else depends o;
  cronJobs := cronJobs b ++ cronJobs o;
  scripts := mergeScripts (scripts b) (scripts o) |}.

(** * Lemmas *)

Lemma fill_idem src dst : fill src (fill src dst) = fill src dst.
Proof. unfold fill. destruct dst, src; done. Qed.

Lemma namedIp6_idem def m a : let r := namedIp6 def m a in namedIp6 def (fst r) (snd r) = r.
Proof.
  unfold namedIp6. cbv zeta. destruct (nd_ip6 def) as [|c w]; [by rewrite !andb_false_r|]. destruct m; try reflexivity.
  destruct (beq (c :: w) (str "slaac")) eqn:E2; [done|]. by destruct (beq (c :: w) (str "none")) eqn:E3; cbn -[beq]; rewrite ?E2, ?E3.
Qed.

Lemma namedMode_idem w m : namedMode w (namedMode w m) = namedMode w m.
Proof. unfold namedMode. repeat case_match; congruence. Qed.

Lemma namedMode_manual w m : m <> AutoMode -> namedMode w m <> AutoMode.
Proof. unfold namedMode. repeat case_match; congruence. Qed.

Lemma fillVlan_idem n v : fillVlan n (fillVlan n v) = fillVlan n v.
Proof. unfold fillVlan. repeat case_match; lia. Qed.

Lemma fill_empty src dst : fill src dst = [] <-> src = [] /\ dst = [].
Proof. unfold fill. destruct src, dst; cbn; split; try done; by intros []. Qed.

Lemma orb_idem a b : a || b || b = a || b.
Proof. by destruct a, b. Qed.

Lemma is_empty_fill src dst : is_empty (fill src dst) = is_empty dst && is_empty src.
Proof. unfold fill. by destruct dst, src. Qed.

Lemma extraMode_idem def x : extraMode def (applyNamedExtra def x) = extraMode def x.
Proof.
  unfold extraMode at 1. cbn [ex_mode ex_bridgeIface ex_passthroughIface ex_netgraphIface applyNamedExtra].
  rewrite !is_empty_fill. unfold extraMode.
  destruct (beq_spec (nd_mode def) (str "bridge")) as [->|_]; [|destruct (beq_spec (nd_mode def) (str "passthrough")) as [->|_]].
  - by destruct (is_empty (ex_bridgeIface x)), (is_empty (nd_bridge def)).
  - by destruct (is_empty (ex_passthroughIface x)), (is_empty (nd_interface def)).
  - destruct (beq (nd_mode def) (str "netgraph")); [|done]. by destruct (is_empty (ex_netgraphIface x)), (is_empty (nd_interface def)).
Qed.

Lemma applyNamedExtra_idem def x : applyNamedExtra def (applyNamedExtra def x) = applyNamedExtra def x.
Proof.
  pose proof (namedIp6_idem def (ex_ip6Mode x) (ex_staticIp6 x)) as H6. cbv zeta in H6.
  unfold applyNamedExtra at 1. rewrite extraMode_idem. cbn [ex_networkName ex_mode ex_bridgeIface ex_passthroughIface ex_netgraphIface ex_ipMode
    ex_staticIp ex_gateway ex_ip6Mode ex_staticIp6 ex_staticMac ex_vlanId applyNamedExtra].
  by rewrite H6, !fill_idem, fillVlan_idem, orb_idem.
Qed.

Lemma resolveExtra_idem cfg x : resolveExtra cfg (resolveExtra cfg x) = resolveExtra cfg x.
Proof.
  unfold resolveExtra. destruct (is_empty (ex_networkName x)) eqn:En; [by rewrite En|].
  destruct (OMap.find (ex_networkName x) (networks cfg)) as [def|] eqn:Ef; [|by rewrite En, Ef].
  change (ex_networkName (applyNamedExtra def x)) with (ex_networkName x). rewrite En, Ef. apply applyNamedExtra_idem.
Qed.

Section resolved.
Context (cfg : Settings).

Definition namedOf (d : NetOptDetails) : option NetworkDef :=
  if is_empty (networkName d) then None else OMap.find (networkName d) (networks cfg).

Lemma resolvePrimary_named d : resolvePrimary cfg d = match namedOf d with Some def => applyNamed def d | None => d end.
Proof. unfold resolvePrimary, namedOf. by case_match. Qed.

(** What makes the details a fixed point. *)
Definition Settled (d : NetOptDetails) : Prop :=
  mode d <> AutoMode /\ (forall def, namedOf d = Some def -> applyNamed def d = d) /\ map (resolveExtra cfg) (extraInterfaces d) = extraInterfaces d
  /\ (mode d = Bridge -> bridgeIface d = [] -> defaultBridge cfg = [])
  /\ (mode d <> Nat -> staticMacDefault cfg = true -> staticMac d = true).

Lemma settled_fixed d : Settled d -> resolveNet cfg d = d.
Proof.
  intros (Hm & Hn & Hx & Hb & Hs). unfold resolveNet, expandAuto. rewrite bool_decide_false by done.
  rewrite resolvePrimary_named. replace (match namedOf d with Some def => applyNamed def d | None => d end) with d
    by (destruct (namedOf d) as [def|]; [by rewrite (Hn def)|done]).
  assert (E : d <| extraInterfaces ::= map (resolveExtra cfg) |> = d).
  { unfold update, eta, eta_NetOptDetails. cbn. rewrite Hx. by destruct d. }
  rewrite E. unfold applyDefaults.
  replace (bool_decide (mode d = Bridge) && is_empty (bridgeIface d) && negb (is_empty (defaultBridge cfg))) with false.
  2: { case_bool_decide; [|done]. destruct (bridgeIface d); [|done]. cbn. by rewrite Hb. }
  replace (negb (bool_decide (mode d = Nat)) && negb (staticMac d) && staticMacDefault cfg) with false; [done|].
  case_bool_decide; [done|]. destruct (staticMacDefault cfg); [by rewrite Hs|by rewrite andb_false_r].
Qed.

Lemma fill_fixed src dst : (dst = [] -> src = []) -> fill src dst = dst.
Proof. intros Hs. unfold fill. destruct dst; [|done]. by rewrite Hs. Qed.

(** The fields a named network cannot change any more. *)
Definition Named (def : NetworkDef) (r : NetOptDetails) : Prop :=
  (mode r = Nat -> is_empty (nd_mode def) = true \/ namedMode (nd_mode def) Nat = Nat)
  /\ (bridgeIface r = [] -> nd_bridge def = []) /\ (passthroughIface r = [] -> nd_interface def = [])
  /\ (netgraphIface r = [] -> nd_interface def = []) /\ (gateway r = [] -> nd_gateway def = [])
  /\ namedIp6 def (ip6Mode r) (staticIp6 r) = (ip6Mode r, staticIp6 r)
  /\ staticMac r || nd_staticMac def = staticMac r /\ fillVlan (nd_vlan def) (vlanId r) = vlanId r.

Lemma named_fixed def r : Named def r -> applyNamed def r = r.
Proof.
  intros (Hm & Hb & Hp & Hn & Hg & H6 & Hs & Hv). unfold applyNamed.
  rewrite H6, Hs, Hv, !fill_fixed by done. cbn [fst snd].
  replace (if bool_decide (mode r = Nat) && negb (is_empty (nd_mode def)) then namedMode (nd_mode def) (mode r) else mode r) with (mode r);
    [by destruct r|].
  case_bool_decide as En; [|done]. rewrite En in *. destruct (Hm eq_refl) as [->|E]; [done|]. rewrite E. by case_match.
Qed.

Lemma applyNamed_named def d : Named def (applyNamed def d).
Proof.
  pose proof (namedIp6_idem def (ip6Mode d) (staticIp6 d)) as H6. cbv zeta in H6.
  unfold Named. cbn [mode bridgeIface passthroughIface netgraphIface gateway ip6Mode staticIp6 staticMac vlanId applyNamed].
  repeat split; try (by intros [? _]%fill_empty).
  - destruct (is_empty (nd_mode def)) eqn:Em; [by left|]. right. rewrite andb_true_r in H. case_bool_decide as En; [by rewrite En in H|done].
  - rewrite H6. by destruct (namedIp6 def (ip6Mode d) (staticIp6 d)).
  - apply orb_idem.
  - apply fillVlan_idem.
Qed.

(** [applyDefaults] and the extra interfaces only fill the bridge and the MAC. *)
Lemma applyDefaults_fields d : let r := applyDefaults cfg d in
  networkName r = networkName d /\ mode r = mode d /\ passthroughIface r = passthroughIface d /\ netgraphIface r = netgraphIface d
  /\ gateway r = gateway d /\ ip6Mode r = ip6Mode d /\ staticIp6 r = staticIp6 d /\ vlanId r = vlanId d
  /\ extraInterfaces r = extraInterfaces d /\ (bridgeIface r = [] -> bridgeIface d = []) /\ (staticMac d = true -> staticMac r = true)
  /\ (mode d = Bridge -> bridgeIface r = [] -> defaultBridge cfg = []) /\ (mode d <> Nat -> staticMacDefault cfg = true -> staticMac r = true).
Proof.
  unfold applyDefaults. cbv zeta.
  destruct (bool_decide (mode d = Bridge) && is_empty (bridgeIface d) && negb (is_empty (defaultBridge cfg))) eqn:C1.
  - apply andb_true_iff in C1 as [[C1%bool_decide_eq_true C2%is_empty_true]%andb_true_iff C3].
    change (mode (d <| bridgeIface := defaultBridge cfg |>)) with (mode d). change (staticMac (d <| bridgeIface := defaultBridge cfg |>)) with (staticMac d).
    destruct (negb (bool_decide (mode d = Nat)) && negb (staticMac d) && staticMacDefault cfg) eqn:C4; cbn; repeat split; try done.
    intros Hm Hd. rewrite bool_decide_false, Hd in C4 by done. by destruct (staticMac d).
  - assert (HB : mode d = Bridge -> bridgeIface d = [] -> defaultBridge cfg = []).
    { intros Em Eb. rewrite bool_decide_true, Eb in C1 by done. by destruct (defaultBridge cfg). }
    destruct (negb (bool_decide (mode d = Nat)) && negb (staticMac d) && staticMacDefault cfg) eqn:C4; cbn; repeat split; try done.
    intros Hm Hd. rewrite bool_decide_false, Hd in C4 by done. by destruct (staticMac d).
Qed.

Lemma expandAuto_manual d : mode (expandAuto cfg d) <> AutoMode.
Proof. unfold expandAuto. by case_bool_decide. Qed.

Lemma resolveNet_settled d : Settled (resolveNet cfg d).
Proof.
  unfold resolveNet. set (e := expandAuto cfg d). pose proof (expandAuto_manual d : mode e <> AutoMode) as He. clearbody e.
  set (d1 := resolvePrimary cfg e). set (d2 := d1 <| extraInterfaces ::= map (resolveExtra cfg) |>).
  pose proof (applyDefaults_fields d2) as Hf. cbv zeta in Hf. set (r := applyDefaults cfg d2) in *. clearbody r.
  destruct Hf as (F1 & F2 & F3 & F4 & F5 & F6 & F7 & F8 & F9 & F10 & F11 & F12 & F13).
  assert (Hd1 : networkName d1 = networkName e /\ mode d1 <> AutoMode).
  { unfold d1. rewrite resolvePrimary_named. case_match; [|done]. split; [done|]. cbn. case_match; [by apply namedMode_manual|done]. }
  destruct Hd1 as [Hn1 Hm1].
  assert (Hn : namedOf r = namedOf e) by (unfold namedOf; rewrite F1; change (networkName d2) with (networkName d1); by rewrite Hn1).
  split; [|split; [|split; [|split]]].
  - rewrite F2. exact Hm1.
  - rewrite Hn. intros def Hdef. apply named_fixed.
    assert (E1 : d1 = applyNamed def e) by (unfold d1; by rewrite resolvePrimary_named, Hdef).
    destruct (applyNamed_named def e) as (N1 & N2 & N3 & N4 & N5 & N6 & N7 & N8). rewrite <- E1 in *.
    unfold Named. rewrite F2, F3, F4, F5, F6, F7, F8. repeat split; try done; [naive_solver|].
    destruct (nd_staticMac def); [|by rewrite orb_false_r]. rewrite F11; [done|]. rewrite orb_true_r in N7. exact (eq_sym N7).
  - rewrite F9. change (extraInterfaces d2) with (map (resolveExtra cfg) (extraInterfaces d1)). rewrite map_map.
    apply map_ext. apply resolveExtra_idem.
  - intros Hm. apply F12. by rewrite <- F2.
  - intros Hm. apply F13. by rewrite <- F2.
Qed.

Lemma resolveNet_idem d : resolveNet cfg (resolveNet cfg d) = resolveNet cfg d.
Proof. apply settled_fixed, resolveNet_settled. Qed.
End resolved.

(** ** preprocess *)

Lemma optionNet_erase s k : k <> str "net" -> optionNet (s <| options ::= OMap.erase k |>) = optionNet s.
Proof.
  intros Hk. unfold optionNet, getOptionDetails. change (options (s <| options ::= _ |>)) with (OMap.erase k (options s)).
  rewrite OMap.find_erase. by rewrite decide_False by congruence.
Qed.

Lemma sslCerts_net s : optionNet (sslCerts s) = optionNet s.
Proof. unfold sslCerts. case_match; [|done]. transitivity (optionNet (s <| options ::= OMap.erase (str "ssl-certs") |>)); [done|by apply optionNet_erase]. Qed.

Lemma torActions_net s : optionNet (torActions s) = optionNet s.
Proof. unfold torActions. by repeat case_match. Qed.

Lemma glActions_net pci s : optionNet (glActions pci s) = optionNet s.
Proof. unfold glActions. case_match; [|done]. transitivity (optionNet (s <| options ::= OMap.erase (str "gl") |>)); [done|by apply optionNet_erase]. Qed.

Lemma ktraceActions_net s : optionNet (ktraceActions s) = optionNet s.
Proof. unfold ktraceActions. by case_match. Qed.

Definition prepared (pci : option bytes) (self : Spec) : Spec := ktraceActions (glActions pci (torActions (sslCerts (copySpec self)))).

Lemma prepared_net pci self : optionNet (prepared pci self) = optionNet self.
Proof. unfold prepared. by rewrite ktraceActions_net, glActions_net, torActions_net, sslCerts_net. Qed.

Lemma prepared_wf pci self : OMap.wf (options self) -> OMap.wf (options (prepared pci self)).
Proof.
  intros W. unfold prepared, ktraceActions, glActions, torActions, sslCerts.
  repeat case_match; cbn; repeat apply OMap.wf_erase; done.
Qed.

Lemma withNet_net cfg s : OMap.wf (options s) -> optionNet (withNet cfg s) = resolveNet cfg <$> optionNet s.
Proof. intros W. unfold withNet. destruct (optionNet s) as [d|] eqn:E; [|by rewrite E]. by rewrite optionNet_set. Qed.

Lemma withNet_wf cfg s : OMap.wf (options s) -> OMap.wf (options (withNet cfg s)).
Proof. intros W. unfold withNet. case_match; [|done]. by apply OMap.wf_insert. Qed.

(** [preprocess] writes the resolved network into the details object that
    the spec it is called on shares with its result, although it is [const]:
    both then have the same network options; they never keep the mode [auto];
    and because the resolution is idempotent, preprocessing the changed spec
    again gives the same network. *)
Theorem preprocess_network (cfg : Settings) (pci pci' : option bytes) (self : Spec) :
  OMap.wf (options self) ->
  let r := fst (preprocess cfg pci self) in
  let self' := snd (preprocess cfg pci self) in
  optionNet r = resolveNet cfg <$> optionNet self
  /\ optionNet self' = optionNet r
  /\ (forall d, optionNet r = Some d -> mode d <> AutoMode)
  /\ optionNet (fst (preprocess cfg pci' self')) = optionNet r.
Proof.
  intros W. cbv zeta. unfold preprocess. cbn [fst snd]. fold (prepared pci self) (prepared pci' (withNet cfg self)).
  rewrite !withNet_net by auto using prepared_wf, withNet_wf. rewrite !prepared_net, !withNet_net by done.
  repeat split; [|destruct (optionNet self); cbn; [by rewrite resolveNet_idem|done]].
  intros d Hd. destruct (optionNet self) as [d0|]; [|done]. injection Hd as <-. apply resolveNet_settled.
Qed.

Lemma preprocess_network_witness :
  mode <$> optionNet (fst (preprocess sampleCfg None (setOption blankSpec (str "net") (Some (NetOpt (blankNet <| mode := AutoMode |>))))))
    = Some Bridge
  /\ mode <$> optionNet (snd (preprocess sampleCfg None (setOption blankSpec (str "net") (Some (NetOpt (blankNet <| mode := AutoMode |>))))))
    = Some Bridge.
Proof.
  assert (W : OMap.wf (options (setOption blankSpec (str "net") (Some (NetOpt (blankNet <| mode := AutoMode |>)))))) by (repeat constructor).
  destruct (preprocess_network sampleCfg None None _ W) as (E1 & E2 & _). rewrite E2, E1. split; vm_compute; reflexivity.
Defined.

(** [pkg/keep-pkg: false] never takes effect: the parser stores it, but the
    copy constructor that [preprocess] starts with leaves the member out, and
    every spec a crate is created from went through [preprocess]. *)
Theorem keep_pkg_lost (cfg : Settings) (pci : option bytes) :
  (exists s, @parseSpecFromNode plainYaml (Map [(Scalar (str "pkg"), Map [(Scalar (str "keep-pkg"), Scalar (str "false"))])]) = inr s
             /\ pkgKeepPkg s = false)
  /\ forall self, pkgKeepPkg (fst (preprocess cfg pci self)) = true.
Proof.
  split; [eexists; by split|]. intros self. unfold preprocess, withNet, ktraceActions, glActions, torActions, sslCerts. cbn [fst].
  repeat case_match; done.
Qed.

(** ** mergeSpecs *)

Lemma addOnce_good (Q : bytes -> Prop) o l : Forall Q o -> Forall Q l -> NoDup l ->
  Forall Q (fold_left addOnce o l) /\ NoDup (fold_left addOnce o l).
Proof.
  revert l. induction o as [|n o IH]; intros l Ho Hl Hn; cbn [fold_left]; [done|].
  apply Forall_cons in Ho as [Hq Ho]. unfold addOnce at 2 4. destruct (mem n l) eqn:E; [by apply IH|].
  apply IH; [done|by apply Forall_app_2; [|apply Forall_singleton]|]. apply NoDup_snoc; [done|by apply existsb_beq_In].
Qed.

Lemma map_path_same v l : map tm_path (map (fun t => if beq (tm_path t) (tm_path v) then t <| tm_size := tm_size v |> else t) l) = map tm_path l.
Proof. rewrite map_map. apply map_ext. intros t. by case_match. Qed.

Lemma mergeTmpfs_good o l : Forall goodTmpfs o -> Forall goodTmpfs l -> NoDup (map tm_path l) ->
  Forall goodTmpfs (fold_left mergeTmpfs o l) /\ NoDup (map tm_path (fold_left mergeTmpfs o l)).
Proof.
  revert l. induction o as [|v o IH]; intros l Ho Hl Hn; cbn [fold_left]; [done|].
  apply Forall_cons in Ho as [Hv Ho]. unfold mergeTmpfs at 2 4. destruct (existsb _ l) eqn:E; apply IH; try done.
  - apply Forall_map. eapply Forall_impl; [exact Hl|]. intros t [Hp Hs]. destruct Hv. by case_match.
  - by rewrite map_path_same.
  - apply Forall_app_2; [done|by apply Forall_singleton].
  - rewrite map_app. apply NoDup_snoc; [done|]. by apply existsb_path_In.
Qed.

Lemma insertAll_wf {V} (m l : StrMap V) : OMap.wf m -> OMap.wf (insertAll m l).
Proof. unfold insertAll. revert m. induction l; intros m W; cbn; [done|]. apply IHl. by apply OMap.wf_insert. Qed.

(** The overlay's entry wins. *)
Lemma insertAll_find {V} (m l : StrMap V) k : OMap.wf m -> OMap.wf l ->
  OMap.find k (insertAll m l) = match OMap.find k l with Some v => Some v | None => OMap.find k m end.
Proof.
  unfold insertAll. revert m. induction l as [|[k' v] l IH]; intros m Wm Wl; [done|]. apply OMap.wf_cons in Wl as [Wl Hk].
  cbn [fold_left fst snd OMap.find]. rewrite IH, OMap.find_insert by (auto using OMap.wf_insert).
  case_decide as Ek; [|done]. subst k'. destruct (OMap.find k l) as [w|] eqn:E; [|done].
  apply OMap.find_In in E; [|done]. rewrite List.Forall_forall in Hk. specialize (Hk _ E). cbn in Hk. by rewrite bytes_ltb_irrefl in Hk.
Qed.

Lemma ifSet_cases (Q : bytes -> Prop) o b : Q o -> Q b -> Q (ifSet o b).
Proof. unfold ifSet. by case_match. Qed.

Lemma ifPtr_cases {A} (Q : A -> Prop) (o b : option A) :
  (forall x, o = Some x -> Q x) -> (forall x, b = Some x -> Q x) -> forall x, ifPtr o b = Some x -> Q x.
Proof. intros Ho Hb x. destruct o; cbn; auto. Qed.

Lemma merge_net b o d : OMap.wf (options b) -> OMap.wf (options o) ->
  optionNet (mergeSpecs b o) = Some d -> optionNet o = Some d \/ optionNet b = Some d.
Proof.
  intros Wb Wo. unfold optionNet, getOptionDetails. cbn [options mergeSpecs]. rewrite insertAll_find by done.
  destruct (OMap.find (str "net") (options o)); auto.
Qed.

(** Merging parsed specs keeps the parser's invariant. *)
Lemma mergeSpecs_parsed b o : Parsed b -> Parsed o -> Parsed (mergeSpecs b o).
Proof.
  intros Pb Po. pose proof (mergeTmpfs_good (tmpfs o) (tmpfs b) (p_tmpfs _ Po) (p_tmpfs _ Pb) (p_tmpfs_once _ Pb)) as [T1 T2].
  pose proof (addOnce_good _ (etcKeep o) (etcKeep b) (p_etcKeep _ Po) (p_etcKeep _ Pb) (p_etcKeep_once _ Pb)) as [K1 K2].
  pose proof (merge_net b o) as Hnet. destruct Pb, Po. constructor; try done.
  6: { intros d Hd. destruct (Hnet d p_options0 p_options1 Hd); auto. }
  5: by apply insertAll_wf.
  all: cbn [mergeSpecs baseHostDirs runUser runTimeoutSec filesShare diskQuota enforceStatfs securelevel childrenMax cowOptions
    privacyHostid privacyHostname clipboardOptions managedServices socketProxy firewallPolicy securityAdvanced guiOptions
    healthcheck restartPolicy baseContainer cronJobs].
  all: try (by apply Forall_app_2); try (by apply ifPtr_cases); unfold ifNonNeg, ifSet, ifPtr; try (by case_match).
Qed.
End SpecMerge.
