(* ===== verification/Ctx.v ===== *)
(** * Context files: lib/ctx.cpp

    Two files under an exclusive lock: the pids that use the shared outbound NAT
    rule ([FwUsers]) and the slot of ipfw rule numbers each running crate has
    ([FwSlots]).  An object holds the file's content between [lock] and
    [unlock]; [alive] is [kill(pid, 0)] not failing with [ESRCH]. *)

From S2P Require Import Prelude CStd LineFile OMap.

Module Ctx.
Import CStd.

(** [Util::Fs::readFileLines(fd)]: [getline] keeps the newline, and the line is
    copied as a C string. *)
Fixpoint rawLines (cur s : bytes) : list bytes :=
  match s with
  | [] => if is_empty cur then [] else [cstr cur]
  | c :: t => if Ascii.eqb c newline then cstr (cur ++ [c]) :: rawLines [] t else rawLines (cur ++ [c]) t
  end.

Definition readFileLines (content : bytes) : list bytes := rawLines [] content.

Abbreviation PidSet := (list (Z * unit)).
Abbreviation PidMap := (list (Z * Z)).

(** ** FwUsers *)

Record FwUsers := { u_file : bytes; pids : PidSet; u_inMemory : bool; u_changed : bool }.

Definition lockUsers (content : bytes) : FwUsers := {| u_file := content; pids := []; u_inMemory := false; u_changed := false |}.

Definition isEmpty (u : FwUsers) : bool := if u_inMemory u then is_empty (pids u) else size_z (u_file u) =? 0.

Definition addUser (pid : Z) (u : FwUsers) : FwUsers :=
  if u_inMemory u
  then {| u_file := u_file u; pids := OMap.insert pid tt (pids u); u_inMemory := true; u_changed := true |}
  else {| u_file := u_file u ++ dec_signed pid ++ [newline]; pids := pids u; u_inMemory := false; u_changed := u_changed u |}.

(** One line: [pids.insert(std::stoul(line))], exceptions ignored. *)
Definition readPid (m : PidSet) (line : bytes) : PidSet :=
  if is_empty line then m
  else match stoulPos line with Some (v, _) => OMap.insert (i32 v) tt m | None => m end.

Definition readUsers (u : FwUsers) : FwUsers :=
  {| u_file := u_file u; pids := fold_left readPid (readFileLines (u_file u)) (pids u); u_inMemory := true; u_changed := u_changed u |}.

(** Whether a key stays when dead pids are erased. *)
Definition keepAlive {V} (alive : Z -> bool) (m : list (Z * V)) : list (Z * V) := List.filter (fun kv => alive (fst kv)) m.

Definition collectUsers (alive : Z -> bool) (u : FwUsers) : FwUsers :=
  let u1 := if u_inMemory u then u else readUsers u in
  let live := keepAlive alive (pids u1) in
  {| u_file := u_file u1; pids := live; u_inMemory := true;
     u_changed := u_changed u1 || negb (length live =? length (pids u1))%nat |}.

Definition delUser (alive : Z -> bool) (pid : Z) (u : FwUsers) : FwUsers :=
  let u1 := collectUsers alive u in
  {| u_file := u_file u1; pids := OMap.erase pid (pids u1); u_inMemory := u_inMemory u1; u_changed := true |}.

Definition usersText (m : PidSet) : bytes := flat_map (fun kv => dec_signed (fst kv) ++ [newline]) m.

(** [unlock]: the file's content afterwards. *)
Definition unlockUsers (u : FwUsers) : bytes := if u_changed u then usersText (pids u) else u_file u.

(** ** FwSlots *)

Record FwSlots := { s_file : bytes; slots : PidMap; s_inMemory : bool; s_changed : bool }.

Definition lockSlots (content : bytes) : FwSlots := {| s_file := content; slots := []; s_inMemory := false; s_changed := false |}.

(** [is >> i] for an [int] and for an [unsigned]: the value and what follows;
    [None] sets the stream's failbit. *)
Definition extractInt (s : bytes) : option (Z * bytes) :=
  let '(neg, s2) := sign (skipSpace s) in
  let '(digits, rest) := span is_digit s2 in
  let v := if neg then - dec_value digits else dec_value digits in
  if is_empty digits || (2 ^ 31 - 1 <? v) || (v <? - 2 ^ 31) then None else Some (v, rest).

Definition extractUnsigned (s : bytes) : option (Z * bytes) :=
  let '(neg, s2) := sign (skipSpace s) in
  let '(digits, rest) := span is_digit s2 in
  if is_empty digits || (2 ^ 32 - 1 <? dec_value digits) then None
  else Some (u32 (if neg then - dec_value digits else dec_value digits), rest).

Definition readSlot (m : PidMap) (line : bytes) : PidMap :=
  match extractInt line with
  | Some (pid, rest) => match extractUnsigned rest with Some (slot, _) => OMap.insert pid slot m | None => m end
  | None => m
  end.

Definition readSlots (s : FwSlots) : FwSlots :=
  {| s_file := s_file s; slots := fold_left readSlot (readFileLines (s_file s)) (slots s); s_inMemory := true; s_changed := s_changed s |}.

Definition collectSlots (alive : Z -> bool) (s : FwSlots) : FwSlots :=
  {| s_file := s_file s; slots := keepAlive alive (slots s); s_inMemory := s_inMemory s; s_changed := s_changed s |}.

(** [while (usedSlots.count(slot)) slot++;] *)
Fixpoint freeSlot (fuel : nat) (used : list Z) (slot : Z) : Z :=
  match fuel with
  | O => slot
  | S f => if existsb (Z.eqb slot) used then freeSlot f used (u32 (slot + 1)) else slot
  end.

Definition allocate (alive : Z -> bool) (pid : Z) (s : FwSlots) : Z * FwSlots :=
  let s1 := collectSlots alive (if s_inMemory s then s else readSlots s) in
  let used := map snd (slots s1) in
  let slot := freeSlot (S (length used)) used 0 in
  (slot, {| s_file := s_file s1; slots := OMap.insert pid slot (slots s1); s_inMemory := s_inMemory s1; s_changed := true |}).

Definition release (pid : Z) (s : FwSlots) : FwSlots :=
  let s1 := if s_inMemory s then s else readSlots s in
  {| s_file := s_file s1; slots := OMap.erase pid (slots s1); s_inMemory := s_inMemory s1; s_changed := true |}.

Definition slotLine (kv : Z * Z) : bytes := dec_signed (fst kv) ++ str " " ++ dec (snd kv).
Definition slotsText (m : PidMap) : bytes := flat_map (fun kv => slotLine kv ++ [newline]) m.

Definition unlockSlots (s : FwSlots) : bytes := if s_changed s then slotsText (slots s) else s_file s.

(** ** What the callers do under one lock *)

Definition takeSlot (alive : Z -> bool) (pid : Z) (content : bytes) : Z * bytes :=
  let '(slot, s) := allocate alive pid (lockSlots content) in (slot, unlockSlots s).

Definition dropSlot (pid : Z) (content : bytes) : bytes := unlockSlots (release pid (lockSlots content)).

(** [crate clean]: locks and unlocks. *)
Definition cleanSlots (content : bytes) : bytes := unlockSlots (lockSlots content).

Definition cleanUsers (alive : Z -> bool) (content : bytes) : bytes := unlockUsers (collectUsers alive (lockUsers content)).

(** * Lemmas *)

(** ** The lines of a written file *)

Lemma rawLines_app cur a b : ~ In newline a -> ~ In nul (cur ++ a) ->
  rawLines cur (a ++ newline :: b) = (cur ++ a ++ [newline]) :: rawLines [] b.
Proof.
  revert cur. induction a as [|c a IH]; intros cur Hn H0; cbn [app rawLines].
  - rewrite (proj2 (Ascii.eqb_eq _ _) eq_refl). rewrite app_nil_r in H0. rewrite cstr_no_nul; [done|].
    rewrite in_app_iff. cbn. intros [?|[?|[]]]; done.
  - destruct (Ascii.eqb_spec c newline) as [->|]; [by destruct Hn; left|].
    rewrite IH, <- app_assoc; [done|by intros ?; apply Hn; right|by rewrite <- app_assoc].
Qed.

Lemma readFileLines_text {A} (f : A -> bytes) l : (forall a, In a l -> ~ In newline (f a) /\ ~ In nul (f a)) ->
  readFileLines (flat_map (fun a => f a ++ [newline]) l) = map (fun a => f a ++ [newline]) l.
Proof.
  unfold readFileLines. induction l as [|a l IH]; intros Hl; [done|]. cbn [flat_map map].
  destruct (Hl a (or_introl eq_refl)). rewrite <- app_assoc. cbn [app]. rewrite rawLines_app by done. cbn [app].
  f_equal. apply IH. intros x Hx. apply Hl. by right.
Qed.

(** ** Slots *)

(** A slot map as the operations leave it. *)
Record good (m : PidMap) : Prop := {
  g_wf : OMap.wf m;
  g_range : Forall (fun kv => 0 < fst kv < 2 ^ 31 /\ 0 <= snd kv < 2 ^ 32) m;
  g_once : NoDup (map snd m) }.

Lemma number_stop n c r : is_digit c = false ->
  sign (skipSpace (dec n ++ c :: r)) = (false, dec n ++ c :: r) /\ span is_digit (dec n ++ c :: r) = (dec n, c :: r).
Proof.
  intros Hc. pose proof (dec_digits n) as Hd. pose proof (dec_nonempty n) as Hne. unfold all_digits in Hd. split.
  - destruct (dec n) as [|d t]; [done|]. cbn [forallb] in Hd. apply andb_true_iff in Hd as [Hd _].
    cbn [app skipSpace]. rewrite is_digit_not_space by done. unfold sign.
    pose proof (is_digit_not_sign d Hd) as [-> ->]%orb_false_iff. done.
  - by apply span_stop.
Qed.

Lemma extractInt_dec n c r : is_digit c = false -> 0 <= n < 2 ^ 31 -> extractInt (dec n ++ c :: r) = Some (n, c :: r).
Proof.
  intros Hc Hn. unfold extractInt. destruct (number_stop n c r Hc) as [-> ->]. rewrite dec_value_dec by lia.
  pose proof (dec_nonempty n). destruct (dec n); [done|]. cbn [is_empty orb].
  destruct (Z.ltb_spec (2 ^ 31 - 1) n); [lia|]. destruct (Z.ltb_spec n (- 2 ^ 31)); [lia|]. done.
Qed.

Lemma extractUnsigned_dec n c r : is_digit c = false -> 0 <= n < 2 ^ 32 -> extractUnsigned (" "%char :: dec n ++ c :: r) = Some (n, c :: r).
Proof.
  intros Hc Hn. unfold extractUnsigned. cbn [skipSpace is_space]. change (is_space " ") with true. cbv iota.
  destruct (number_stop n c r Hc) as [-> ->]. rewrite dec_value_dec by lia.
  pose proof (dec_nonempty n). destruct (dec n); [done|]. cbn [is_empty orb].
  destruct (Z.ltb_spec (2 ^ 32 - 1) n); [lia|]. unfold u32. by rewrite Z.mod_small.
Qed.

Lemma readSlot_line kv m : 0 < fst kv < 2 ^ 31 -> 0 <= snd kv < 2 ^ 32 ->
  readSlot m (slotLine kv ++ [newline]) = OMap.insert (fst kv) (snd kv) m.
Proof.
  intros Hp Hs. unfold readSlot, slotLine, dec_signed. destruct (Z.ltb_spec (fst kv) 0); [lia|].
  rewrite <- !app_assoc. cbn [str app]. change (str " ") with [" "%char]. cbn [app].
  rewrite extractInt_dec by (done || lia). by rewrite extractUnsigned_dec.
Qed.

Lemma slotLine_plain kv c : 0 < fst kv -> is_digit c = false -> c <> " "%char -> ~ In c (slotLine kv).
Proof.
  intros Hp Hc Hs. unfold slotLine, dec_signed. destruct (Z.ltb_spec (fst kv) 0); [lia|]. rewrite !in_app_iff.
  intros [Hin|[[E|[]]|Hin]]; [by eapply dec_not_In| by apply Hs |by eapply dec_not_In].
Qed.

(** Reading a written file gives the map back. *)
Lemma slots_roundtrip m : good m -> slots (readSlots (lockSlots (slotsText m))) = m.
Proof.
  intros [W R _]. cbn [readSlots lockSlots slots s_file]. unfold slotsText.
  rewrite (readFileLines_text slotLine).
  2: { intros kv Hin. rewrite List.Forall_forall in R. destruct (R kv Hin) as [? _]. split; (apply slotLine_plain; [lia|reflexivity|by vm_compute]). }
  assert (G : forall l acc, Forall (fun kv => 0 < fst kv < 2 ^ 31 /\ 0 <= snd kv < 2 ^ 32) l -> OMap.wf (acc ++ l) ->
    fold_left readSlot (map (fun a => slotLine a ++ [newline]) l) acc = acc ++ l); [|by apply (G m [])].
  clear. induction l as [|[k v] l IH]; intros acc R W; cbn [map fold_left]; [by rewrite app_nil_r|].
  apply Forall_cons in R as [[Hk Hv] R]. rewrite readSlot_line by done. cbn [fst snd]. rewrite OMap.insert_last.
  - rewrite IH, <- app_assoc; [done|done|by rewrite <- app_assoc].
  - apply List.Forall_forall. intros kv Hin. exact (strongly_sorted_app_In acc ((k, v) :: l) _ kv (k, v) W Hin (or_introl eq_refl)).
Qed.

(** More numbers than the list is long cannot all be in it. *)
Lemma below_not_all used : ~ (forall t, 0 <= t < Z.of_nat (S (length used)) -> In t used).
Proof.
  intros Hall. assert (Hincl : incl (map Z.of_nat (List.seq 0 (S (length used)))) used).
  { intros x (n & <- & Hn)%in_map_iff. apply in_seq in Hn. apply Hall. lia. }
  apply NoDup_incl_length in Hincl; [rewrite length_map, length_seq in Hincl; lia|].
  apply NoDup_ListNoDup, NoDup_fmap_2; [intros ? ?; lia|apply NoDup_seq].
Qed.

(** The search for a slot ends at the least free one. *)
Lemma freeSlot_spec used : Z.of_nat (length used) < 2 ^ 32 - 1 ->
  let s := freeSlot (S (length used)) used 0 in
  ~ In s used /\ (forall t, 0 <= t < s -> In t used) /\ 0 <= s <= Z.of_nat (length used).
Proof.
  intros Hlen. cbv zeta.
  assert (G : forall fuel k, Z.of_nat fuel + k = Z.of_nat (S (length used)) -> 0 <= k ->
    (forall t, 0 <= t < k -> In t used) ->
    let s := freeSlot fuel used k in ~ In s used /\ (forall t, 0 <= t < s -> In t used) /\ 0 <= s <= Z.of_nat (length used)).
  2: { apply G; [lia|lia|]. intros; lia. }
  induction fuel as [|f IH]; intros k Ef Hk Hall; cbv zeta; cbn [freeSlot].
  - destruct (below_not_all used). intros t Ht. apply Hall. lia.
  - destruct (existsb (Z.eqb k) used) eqn:E.
    + apply existsb_exists in E as (x & Hx & ->%Z.eqb_eq).
      replace (u32 (x + 1)) with (x + 1) by (unfold u32; rewrite Z.mod_small; lia).
      apply IH; [lia|lia|]. intros t Ht. destruct (decide (t = x)) as [->|]; [done|]. apply Hall. lia.
    + split; [|split; [done|]].
      * intros Hin. assert (existsb (Z.eqb k) used = true) by (apply existsb_exists; exists k; rewrite Z.eqb_refl; done). congruence.
      * lia.
Qed.

Lemma good_nil : good [].
Proof. repeat constructor. Qed.

Lemma good_keep alive m : good m -> good (keepAlive alive m).
Proof.
  intros [W R N]. split; [by apply OMap.wf_filter| |by apply LineFile.NoDup_map_filter].
  rewrite List.Forall_forall in *. intros kv Hin. apply R. by apply filter_In in Hin as [? _].
Qed.

Lemma slots_good_erase pid m : good m -> good (OMap.erase pid m).
Proof. intros G. apply (good_keep (fun k => negb (bool_decide (k = pid)))) in G. exact G. Qed.

Lemma NoDup_map_In_inj {A B} (f : A -> B) l a b : NoDup (map f l) -> In a l -> In b l -> f a = f b -> a = b.
Proof.
  induction l as [|x l IH]; cbn; [done|]. rewrite NoDup_cons, list_elem_of_In. intros [Hx Hl] [->|Ha] [->|Hb] E; try done.
  - destruct Hx. rewrite E. by apply in_map.
  - destruct Hx. rewrite <- E. by apply in_map.
  - by apply IH.
Qed.

(** Inserting a slot no one has. *)
Lemma snd_insert k v (m : PidMap) x : In x (map snd (OMap.insert k v m)) -> x = v \/ In x (map snd m).
Proof. intros (kv & <- & Hin)%in_map_iff. apply OMap.In_insert in Hin as [->|Hin]; [by left|right; by apply in_map]. Qed.

Lemma NoDup_insert k v (m : PidMap) : NoDup (map snd m) -> ~ In v (map snd m) -> NoDup (map snd (OMap.insert k v m)).
Proof.
  induction m as [|[k' v'] m IH]; cbn [OMap.insert map snd]; intros N Hv.
  { apply NoDup_singleton. }
  apply NoDup_cons in N as [N1 N2]. rewrite list_elem_of_In in N1.
  case_match; cbn [map snd]; [by rewrite !NoDup_cons, !list_elem_of_In|].
  case_decide; cbn [map snd]; rewrite NoDup_cons, list_elem_of_In; [naive_solver|].
  split; [|apply IH; [done|by intros ?; apply Hv; right]]. intros [->|Hin]%snd_insert; [by apply Hv; left|done].
Qed.

(** Pids are bounded and recorded once. *)
Lemma good_length m : good m -> Z.of_nat (length m) < 2 ^ 32 - 1.
Proof.
  intros [W R _].
  assert (L : forall lo l, OMap.wf l -> Forall (fun kv : Z * Z => lo < fst kv < 2 ^ 31) l -> lo < 2 ^ 31 -> Z.of_nat (length l) < 2 ^ 31 - lo).
  { intros lo l. revert lo. induction l as [|[k v] l IH]; intros lo Wl Rl Hlo; [cbn [length]; lia|].
    apply OMap.wf_cons in Wl as [Wl Hk]. apply Forall_cons in Rl as [Hr Rl]. cbn [fst] in Hr. cbn [length].
    assert (Z.of_nat (length l) < 2 ^ 31 - k); [|lia]. apply IH; [done| |lia].
    rewrite List.Forall_forall in *. intros kv Hin. specialize (Hk kv Hin). specialize (Rl kv Hin). cbn in Hk. lia. }
  assert (Z.of_nat (length m) < 2 ^ 31 - 0); [|lia]. apply L; [done| |lia]. eapply Forall_impl; [exact R|]. intros kv [? _]. done.
Qed.

(** Taking a slot: dead pids are dropped, the least slot that no live pid has is
    recorded for [pid], every other live pid keeps its slot, and no two pids have
    the same one. *)
Lemma takeSlot_least (alive : Z -> bool) (pid : Z) (m : PidMap) :
  good m -> 0 < pid < 2 ^ 31 ->
  exists slot m', takeSlot alive pid (slotsText m) = (slot, slotsText m') /\ good m'
  /\ m' = OMap.insert pid slot (keepAlive alive m)
  /\ ~ In slot (map snd (keepAlive alive m))
  /\ forall t, 0 <= t < slot -> In t (map snd (keepAlive alive m)).
Proof.
  intros G Hp. pose proof (good_length m G) as Hlen. pose proof (good_keep alive m G) as Gk. set (live := keepAlive alive m) in *.
  assert (Hl : Z.of_nat (length (map snd live)) < 2 ^ 32 - 1).
  { rewrite length_map. unfold live, keepAlive. pose proof (filter_length_le (fun kv => alive (fst kv)) m). lia. }
  pose proof (freeSlot_spec (map snd live) Hl) as (H1 & H2 & H3). set (slot := freeSlot _ _ 0) in *.
  exists slot, (OMap.insert pid slot live). repeat split; try done.
  - unfold takeSlot, allocate, collectSlots. cbn [s_inMemory lockSlots]. rewrite slots_roundtrip by done. done.
  - apply OMap.wf_insert, Gk.
  - apply List.Forall_forall. intros kv [->|Hin]%OMap.In_insert; cbn [fst snd]; [lia|].
    pose proof (g_range _ Gk) as R. rewrite List.Forall_forall in R. by apply R.
  - apply NoDup_insert; [apply Gk|done].
Qed.

Lemma dropSlot_erases pid m : good m -> dropSlot pid (slotsText m) = slotsText (OMap.erase pid m).
Proof. intros G. unfold dropSlot, release. cbn [s_inMemory lockSlots]. by rewrite slots_roundtrip. Qed.

(** What can happen to the file: runs take and return slots, [crate clean] runs;
    which pids live is arbitrary at each step. *)
Inductive slotStep : bytes -> bytes -> Prop :=
  | TakeStep alive pid slot f f' : 0 < pid < 2 ^ 31 -> takeSlot alive pid f = (slot, f') -> slotStep f f'
  | DropStep pid f : slotStep f (dropSlot pid f)
  | CleanStep f : slotStep f (cleanSlots f).

Inductive slotFile : bytes -> Prop :=
  | SlotEmpty : slotFile []
  | SlotMore f f' : slotFile f -> slotStep f f' -> slotFile f'.

Lemma slotFile_good f : slotFile f -> exists m, f = slotsText m /\ good m.
Proof.
  induction 1 as [|f f' _ (m & -> & G) Hs]; [exists []; split; [done|apply good_nil]|].
  inversion Hs as [alive pid slot ? ? Hp Ht|pid|]; subst.
  - destruct (takeSlot_least alive pid m G Hp) as (slot' & m' & E & G' & _). exists m'. split; [congruence|done].
  - exists (OMap.erase pid m). split; [by apply dropSlot_erases|by apply slots_good_erase].
  - by exists m.
Qed.

(** The slots recorded in a file. *)
Definition recorded (f : bytes) : PidMap := slots (readSlots (lockSlots f)).

(** C14: however runs take and return slots and whichever of them die, no two
    pids ever have the same slot in the file, and the slot a run takes next is
    the least one that no live pid has. *)
Theorem slots_never_shared (f : bytes) :
  slotFile f ->
  (forall p q slot, OMap.find p (recorded f) = Some slot -> OMap.find q (recorded f) = Some slot -> p = q)
  /\ forall alive pid, 0 < pid < 2 ^ 31 ->
     let '(slot, f') := takeSlot alive pid f in
     OMap.find pid (recorded f') = Some slot
     /\ (forall q s, alive q = true -> q <> pid -> OMap.find q (recorded f) = Some s -> s <> slot /\ OMap.find q (recorded f') = Some s)
     /\ (forall t, 0 <= t < slot -> exists q, alive q = true /\ OMap.find q (recorded f) = Some t).
Proof.
  intros (m & -> & G)%slotFile_good. unfold recorded at 1 2. rewrite slots_roundtrip by done. split.
  - intros p q slot Hp Hq. destruct G as [W _ N]. apply OMap.find_In in Hp, Hq; try done.
    pose proof (NoDup_map_In_inj snd m (p, slot) (q, slot) N Hp Hq eq_refl) as E. by injection E.
  - intros alive pid Hp. destruct (takeSlot_least alive pid m G Hp) as (slot & m' & -> & G' & -> & Hfree & Hleast).
    unfold recorded. rewrite !slots_roundtrip by done. pose proof (good_keep alive m G) as [Wk _ _]. pose proof (g_wf m G) as W.
    repeat split.
    + rewrite OMap.find_insert by done. by rewrite decide_True.
    + intros ->. apply Hfree. apply in_map_iff. exists (q, slot). split; [done|].
      apply filter_In. split; [by apply OMap.find_In|done].
    + rewrite OMap.find_insert, decide_False by done. apply OMap.find_In; [done|]. apply filter_In.
      split; [by apply OMap.find_In|done].
    + intros t Ht. apply Hleast in Ht. apply in_map_iff in Ht as ([q t'] & <- & Hin). apply filter_In in Hin as [Hin Ha].
      exists q. split; [done|]. by apply OMap.find_In.
Qed.

Lemma slots_never_shared_witness :
  let f := snd (takeSlot (fun _ => true) 200 (snd (takeSlot (fun _ => true) 100 []))) in
  OMap.find 200 (recorded f) = Some 1 /\ fst (takeSlot (fun q => q =? 200) 300 f) = 0.
Proof.
  cbv zeta. split; [|vm_compute; reflexivity].
  assert (F : slotFile (snd (takeSlot (fun _ => true) 100 []))).
  { eapply SlotMore; [exact SlotEmpty|]. apply (TakeStep (fun _ => true) 100 0); [lia|vm_compute; reflexivity]. }
  destruct (slots_never_shared _ F) as [_ T]. specialize (T (fun _ => true) 200 ltac:(lia)).
  change (takeSlot (fun _ => true) 200 (snd (takeSlot (fun _ => true) 100 [])))
    with (fst (takeSlot (fun _ => true) 200 (snd (takeSlot (fun _ => true) 100 []))),
          snd (takeSlot (fun _ => true) 200 (snd (takeSlot (fun _ => true) 100 [])))) in T.
  destruct T as [T _]. rewrite T. vm_compute. reflexivity.
Defined.

(** ** Users *)

(** The file as [add] leaves it: one pid per line, in any order. *)
Definition userLines (l : list Z) : bytes := flat_map (fun p => dec_signed p ++ [newline]) l.

Lemma readPid_line p m : 0 < p < 2 ^ 31 -> readPid m (dec_signed p ++ [newline]) = OMap.insert p tt m.
Proof.
  intros Hp. unfold readPid, dec_signed, stoulPos. destruct (Z.ltb_spec p 0); [lia|].
  destruct (number_stop p newline [] eq_refl) as [-> ->]. pose proof (dec_nonempty p) as Hne.
  rewrite dec_value_dec by lia. destruct (dec p) as [|d t]; [done|]. cbn [is_empty app].
  destruct (Z.ltb_spec ulongMax p) as [Hu|]; [unfold ulongMax in Hu; lia|].
  f_equal. unfold i32, to_signed. cbv zeta. rewrite Z.mod_small by lia. destruct (Z.ltb_spec p (2 ^ (32 - 1))); lia.
Qed.

Lemma keys_insert {V} k (v : V) (m : list (Z * V)) p : In p (map fst (OMap.insert k v m)) <-> p = k \/ In p (map fst m).
Proof.
  induction m as [|[k' v'] m IH]; cbn [OMap.insert map fst In]; [split; intros; intuition congruence|].
  case_match; cbn [map fst In]; [split; intros; intuition congruence|]. case_decide; cbn [map fst In]; rewrite ?IH; split; intros; intuition congruence.
Qed.

Lemma users_read l : Forall (fun p => 0 < p < 2 ^ 31) l -> forall p, In p (map fst (pids (readUsers (lockUsers (userLines l))))) <-> In p l.
Proof.
  intros R. cbn [readUsers lockUsers pids u_file]. unfold userLines. rewrite (readFileLines_text dec_signed).
  2: { intros p Hin. rewrite List.Forall_forall in R. pose proof (R p Hin). unfold dec_signed.
       destruct (Z.ltb_spec p 0); [lia|]. split; by apply dec_not_In. }
  assert (G : forall acc p, In p (map fst (fold_left readPid (map (fun a => dec_signed a ++ [newline]) l) acc)) <-> In p l \/ In p (map fst acc)).
  2: { intros p. rewrite G. cbn. tauto. }
  induction l as [|q l IH]; intros acc p; cbn [map fold_left]; [cbn; tauto|]. apply Forall_cons in R as [Hq R].
  rewrite IH, readPid_line, keys_insert by done. cbn [In]. split; intros; intuition congruence.
Qed.

(** After [del], the file counts as empty exactly when no other pid in it lives. *)
Lemma delUser_last alive pid l : Forall (fun p => 0 < p < 2 ^ 31) l ->
  isEmpty (delUser alive pid (lockUsers (userLines l))) = true <-> forall q, In q l -> alive q = true -> q = pid.
Proof.
  intros R. unfold isEmpty, delUser, collectUsers. cbn [u_inMemory lockUsers pids]. rewrite is_empty_true.
  pose proof (users_read l R) as Hr. cbn [lockUsers] in Hr. set (m := pids (readUsers _)) in *. clearbody m.
  unfold OMap.erase, keepAlive. split.
  - intros E q Hq Ha. apply Hr in Hq. apply in_map_iff in Hq as ([q' []] & <- & Hin). cbn [fst] in *.
    destruct (decide (q' = pid)); [done|]. exfalso. apply (in_nil (a := (q', tt))). rewrite <- E.
    apply filter_In. split; [by apply filter_In|]. cbn. by rewrite bool_decide_false.
  - intros Hall. destruct (List.filter _ _) as [|[q []] t] eqn:E; [done|]. exfalso.
    assert (Hin : In (q, tt) ((q, tt) :: t)) by by left. rewrite <- E in Hin. apply filter_In in Hin as [Hin Hne].
    apply filter_In in Hin as [Hin Ha]. cbn in Hne, Ha. rewrite (Hall q) in Hne; [by rewrite bool_decide_true in Hne| |done].
    apply Hr. apply in_map_iff. by exists (q, tt).
Qed.
End Ctx.
