(* ===== verification/RunNet.v ===== *)
(** * The network of a running crate: lib/run_net.cpp

    Every privileged step has two forms: a request to crated when its socket is
    there, and the operation itself when it is not.  [World] answers both, from
    everything that happened before; the state is that log and the file of the
    shared NAT rule's users. *)

From S2P Require Import Prelude CStd UtilPure Wire RunPure Spec Ctx.

Module RunNet.
Import CStd Spec.

(** ** The world *)

(** The operations that have a privops verb. *)
Inductive Op :=
| MoveToVnet (iface : bytes) (jid : Z)
| SetUp (iface : bytes)
| DisableOffload (iface : bytes)
| BridgeAdd (bridge member : bytes)
| BridgeDel (bridge member : bytes)
| RemoveRule (number : Z)
| CreateEpair
| SetInet (iface addr : bytes) (prefixLen : Z)
| SetInet6 (iface addr : bytes) (prefixLen : Z)
| Teardown (iface : bytes)
| MoveFromVnet (iface jailName : bytes)
| SetMac (iface mac : bytes)
| ConfigureNat (number : Z) (config : bytes)
| AddRule (number : Z) (action body : bytes).

Inductive Call :=
| Request (op : Op)
| Local (op : Op)
| Exec (argv : list bytes)
| InJail (argv : list bytes)
| AppendFile (data path : bytes)
| LoadModule (name : bytes)
| Mkpeer (path type ourhook peerhook : bytes)
| NgName (path name : bytes)
| NgConnect (path peerpath ourhook peerhook : bytes)
| NgShow (path : bytes)
| NgShutdown (path : bytes)
| SetSysctl (name : bytes) (v : Z)
| Warn (msg : bytes).

(** [PrivOpsClient::Response] *)
Record Response := { transportError : bytes; status : Z; body : bytes }.

Record World := {
  (** [PrivOpsClient::detectSocketPath()] is not empty *)
  hasSocket : bool;
  reply : list Call -> Op -> Response;
  (** [inl]: the exception's text; [inr]: the output *)
  run : list Call -> Call -> bytes + bytes;
  (** the names [IfconfigOps::createEpair] returns *)
  epairNames : list Call -> bytes * bytes;
  alive : Z -> bool;
  pid : Z }.

(** The calls made, newest first, and the users file. *)
Record St := { log : list Call; users : bytes }.

Definition M (A : Type) : Type := St -> (bytes + A) * St.

#[global] Instance M_ret : MRet M := fun _ a s => (inr a, s).
#[global] Instance M_bind : MBind M := fun _ _ f m s => let '(r, s') := m s in match r with inl e => (inl e, s') | inr a => f a s' end.

Definition fail {A} (e : bytes) : M A := fun s => (inl e, s).
Definition getUsers : M bytes := fun s => (inr (users s), s).
Definition putUsers (u : bytes) : M unit := fun s => (inr tt, {| log := log s; users := u |}).
Definition lift {A} (r : bytes + A) : M A := fun s => (r, s).

(** [try { m } catch (const std::exception &e) { handler }] *)
Definition catch (m : M unit) (handler : bytes -> M unit) : M unit :=
  fun s => let '(r, s') := m s in match r with inl e => handler e s' | inr _ => (inr tt, s') end.

Section net.
Context (w : World).

Definition call (c : Call) : M bytes :=
  fun s => (run w (log s) c, {| log := c :: log s; users := users s |}).

Definition do (c : Call) : M unit := _ ← call c; mret tt.

(** A warning cannot fail. *)
Definition warn (msg : bytes) : M unit := fun s => (inr tt, {| log := Warn msg :: log s; users := users s |}).

Definition sendRequest (op : Op) : M Response :=
  fun s => (inr (reply w (log s) op), {| log := Request op :: log s; users := users s |}).

(** A reply that must be good; [limit] is the least status that is an error. *)
Definition checked (what : bytes) (op : Op) : M Response :=
  resp ← sendRequest op;
  if negb (is_empty (transportError resp)) then fail (what ++ str " transport error: " ++ transportError resp)
  else if 400 <=? status resp then fail (what ++ str " failed (status " ++ dec_signed (status resp) ++ str "): " ++ body resp)
  else mret resp.

(** The wrappers that raise. *)
Definition privopsOrLocal (what : bytes) (op : Op) : M unit :=
  if hasSocket w then _ ← checked what op; mret tt else do (Local op).

Definition quoted (s : bytes) : bytes := str "'" ++ s ++ str "'".

Definition moveToVnetPrivopsOrLocal (iface : bytes) (jid : Z) : M unit :=
  privopsOrLocal (str "privops configure_iface (move) " ++ quoted iface) (MoveToVnet iface jid).

Definition setUpPrivopsOrLocal (iface : bytes) : M unit :=
  privopsOrLocal (str "privops set_iface_up " ++ quoted iface) (SetUp iface).

Definition disableOffloadPrivopsOrLocal (iface : bytes) : M unit :=
  privopsOrLocal (str "privops disable_iface_offload " ++ quoted iface) (DisableOffload iface).

Definition bridgeAddMemberPrivopsOrLocal (bridge member : bytes) : M unit :=
  privopsOrLocal (str "privops bridge_add_member " ++ quoted member ++ str " on " ++ quoted bridge) (BridgeAdd bridge member).

(** Teardown: a bad reply is only reported. *)
Definition bridgeDelMemberPrivopsOrLocal (bridge member : bytes) : M unit :=
  if hasSocket w then
    resp ← sendRequest (BridgeDel bridge member);
    if negb (is_empty (transportError resp)) || (400 <=? status resp) then
      warn (str "run_net: privops bridge_del_member " ++ quoted member ++ str " on " ++ quoted bridge ++ str " ignored: "
            ++ (if is_empty (transportError resp) then dec_signed (status resp) ++ str ": " ++ body resp else transportError resp))
    else mret tt
  else do (Local (BridgeDel bridge member)).

(** The form the two other teardown wrappers share. *)
Definition softly (what : bytes) (op : Op) : M unit :=
  resp ← sendRequest op;
  if negb (is_empty (transportError resp)) then warn (what ++ str " transport error: " ++ transportError resp)
  else if 400 <=? status resp then warn (what ++ str " failed (status " ++ dec_signed (status resp) ++ str "): " ++ body resp)
  else mret tt.

Definition removeIpfwRulePrivopsOrLocal (ruleNumber : Z) (what : bytes) : M unit :=
  if hasSocket w then softly (str "privops remove_ipfw_rule " ++ dec ruleNumber ++ str " (" ++ what ++ str ")") (RemoveRule ruleNumber)
  else do (Exec [str "/sbin/ipfw"; str "delete"; dec ruleNumber]).

Definition teardownIface (ifname : bytes) : M unit :=
  if hasSocket w then softly (str "privops teardown_iface " ++ quoted ifname) (Teardown ifname)
  else do (Local (Teardown ifname)).

Definition createEpairPrivopsOrLocal : M (bytes * bytes) :=
  if hasSocket w then
    resp ← checked (str "privops create_epair") CreateEpair;
    match Wire.extractStringField (body resp) (str "a") [], Wire.extractStringField (body resp) (str "b") [] with
    | (Wire.Present, a), (Wire.Present, b) => mret (a, b)
    | _, _ => fail (str "privops create_epair response missing 'a' or 'b' fields: " ++ body resp)
    end
  else
    fun s => let '(r, s') := do (Local CreateEpair) s in
             match r with inl e => (inl e, s') | inr _ => (inr (epairNames w (log s)), s') end.

Definition setInetAddrPrivopsOrLocal (iface addr : bytes) (prefixLen : Z) : M unit :=
  privopsOrLocal (str "privops set_iface_inet_addr " ++ quoted iface) (SetInet iface addr prefixLen).

Definition setInet6AddrPrivopsOrLocal (iface addr : bytes) (prefixLen : Z) : M unit :=
  privopsOrLocal (str "privops set_iface_inet_addr (inet6) " ++ quoted iface) (SetInet6 iface addr prefixLen).

Definition moveFromVnetPrivopsOrLocal (iface jailName : bytes) : M unit :=
  privopsOrLocal (str "privops reclaim_iface_from_vnet " ++ quoted iface) (MoveFromVnet iface jailName).

(** Any status but 200 is an error. *)
Definition setMacAddress (iface mac : bytes) : M unit :=
  if hasSocket w then
    resp ← sendRequest (SetMac iface mac);
    if negb (is_empty (transportError resp)) then fail (str "privops set_iface_mac transport error: " ++ transportError resp)
    else if negb (status resp =? 200) then
      fail (str "privops set_iface_mac failed (status " ++ dec_signed (status resp) ++ str "): " ++ body resp)
    else mret tt
  else do (Local (SetMac iface mac)).

(** ** Gateway and epairs *)

Record GatewayInfo := { gw_iface : bytes; hostIP : bytes; hostLAN : bytes }.
Record EpairInfo := { ifaceA : bytes; ifaceB : bytes; ipA : bytes; ipB : bytes; num : Z }.

(** [detectGateway]: from the output of the netstat pipeline and the IPv4
    addresses of the interface it names. *)
Definition detectGateway (netstat : bytes) (addrs : bytes -> list (bytes * bytes * bytes)) : bytes + GatewayInfo :=
  match UtilPure.splitString netstat (str " ") with
  | Some (_ :: _ :: _ :: e3 :: _) =>
      let iface := UtilPure.stripTrailingSpace e3 in
      match addrs iface with
      | [] => inl (str "Failed to determine host's gateway interface IP: no IPv4 addresses found")
      | (ip, _, lan) :: _ => inr {| gw_iface := iface; hostIP := ip; hostLAN := lan |}
      end
  | _ => inl (str "Unable to determine host's gateway IP and interface")
  end.

(** [unsigned] arithmetic. *)
Definition epairNumToIp (epairNum ipIdx : Z) : bytes + bytes :=
  let ip := u32 (100 + 2 * epairNum + ipIdx) in
  if 2 ^ 24 <=? ip then inl (str "epair number " ++ dec epairNum ++ str " exceeds 10.0.0.0/8 address space capacity")
  else inr (str "10." ++ dec (Z.land (Z.shiftr ip 16) 255) ++ str "." ++ dec (Z.land (Z.shiftr ip 8) 255) ++ str "."
            ++ dec (Z.land ip 255)).

Definition inJail (argv : list bytes) : M unit := do (InJail argv).

Definition setLo0 : M unit := inJail [str "/sbin/ifconfig"; str "lo0"; str "inet"; str "127.0.0.1"].

Definition createEpair (jid : Z) : M EpairInfo :=
  _ ← setLo0;
  ab ← createEpairPrivopsOrLocal;
  match RunPure.epairUnit (fst ab) with
  | None => fail (str "create_epair returned an unexpected interface name '" ++ fst ab ++ str "'")
  | Some n =>
      a ← lift (epairNumToIp n 0);
      b ← lift (epairNumToIp n 1);
      _ ← disableOffloadPrivopsOrLocal (fst ab);
      _ ← disableOffloadPrivopsOrLocal (snd ab);
      _ ← moveToVnetPrivopsOrLocal (snd ab) jid;
      _ ← inJail [str "/sbin/ifconfig"; snd ab; str "inet"; b; str "netmask"; str "0xfffffffe"];
      _ ← setInetAddrPrivopsOrLocal (fst ab) a 31;
      _ ← inJail [str "/sbin/route"; str "add"; str "default"; a];
      mret {| ifaceA := fst ab; ifaceB := snd ab; ipA := a; ipB := b; num := n |}
  end.

Definition destroyEpair (iface : bytes) : M unit := teardownIface iface.

(** ** Firewall rules of NAT mode *)

(** [execFW]'s and [ipfwExec]'s words from [from] on, joined by spaces. *)
Definition joinFrom (from : nat) (args : list bytes) : bytes := joined (str " ") (drop from args).

(** [(unsigned)std::stoul(args[1])] *)
Definition numberAt (args : list bytes) (bad : bytes -> bytes) : bytes + Z :=
  match args with
  | _ :: n :: _ => match stoulPos n with Some (v, _) => inr (u32 v) | None => inl (bad n) end
  | _ => inl (bad [])
  end.

Definition isNatConfig (args : list bytes) : bool :=
  match args with a :: _ :: c :: _ => beq a (str "nat") && beq c (str "config") | _ => false end.
Definition isAdd (args : list bytes) : bool := match args with a :: _ :: _ :: _ => beq a (str "add") | _ => false end.
Definition isDelete (args : list bytes) : bool := match args with [a; _] => beq a (str "delete") | _ => false end.

Definition argAt (i : nat) (args : list bytes) : bytes := default [] (args !! i).

Definition execFW (fwargs : list bytes) : M unit :=
  let bare := do (Exec (str "/sbin/ipfw" :: str "-q" :: fwargs)) in
  if hasSocket w then
    if isNatConfig fwargs then
      n ← lift (numberAt fwargs (fun x => str "privops configure_ipfw_nat: bad nat number '" ++ x ++ str "'"));
      _ ← checked (str "privops configure_ipfw_nat " ++ dec n) (ConfigureNat n (joinFrom 3 fwargs));
      mret tt
    else if isAdd fwargs then
      n ← lift (numberAt fwargs (fun x => str "privops add_ipfw_rule: bad rule number '" ++ x ++ str "'"));
      _ ← checked (str "privops add_ipfw_rule " ++ dec n) (AddRule n (argAt 2 fwargs) (joinFrom 3 fwargs));
      mret tt
    else
      _ ← warn (str "execFW: privops socket detected but argv shape unknown; falling back to bare ipfw exec (rootless will likely fail): "
                ++ argAt 0 fwargs);
      bare
  else bare.

Definition ipfwExec (args : list bytes) (what : bytes) : M unit :=
  if hasSocket w then
    let bad x := what ++ str ": bad ipfw number '" ++ x ++ str "'" in
    let send op := checked (what ++ str ": privops") op in
    if isNatConfig args then n ← lift (numberAt args bad); _ ← send (ConfigureNat n (joinFrom 3 args)); mret tt
    else if isAdd args then n ← lift (numberAt args bad); _ ← send (AddRule n (argAt 2 args) (joinFrom 3 args)); mret tt
    else if isDelete args then n ← lift (numberAt args bad); _ ← send (RemoveRule n); mret tt
    else fail (what ++ str ": no privops verb for `ipfw " ++ joinFrom 0 args ++ str "` — run as root")
  else do (Exec (str "/sbin/ipfw" :: args)).

(** The numbers, with the environment's overrides. *)
Record Layout := { fwSlotSize : Z; fwRuleRangeInBase : Z; fwRuleRangeOutBase : Z }.

Definition layoutOf (slotSize inBase outBase : option bytes) : Layout :=
  {| fwSlotSize := RunPure.envOrDefault slotSize 10; fwRuleRangeInBase := RunPure.envOrDefault inBase 10000;
     fwRuleRangeOutBase := RunPure.envOrDefault outBase 50000 |}.

Context (L : Layout).

Definition inRule (slot off : Z) : Z := u32 (fwRuleRangeInBase L + slot * fwSlotSize L + off).
Definition outRule (slot off : Z) : Z := u32 (fwRuleRangeOutBase L + slot * fwSlotSize L + off).

Definition removeCommonOutRule : M unit :=
  removeIpfwRulePrivopsOrLocal (fwRuleRangeOutBase L) (str "destroy shared outbound firewall rule").

Definition rangeToStr (r : PortRange) : bytes := if fst r =? snd r then dec (fst r) else dec (fst r) ++ str "-" ++ dec (snd r).

Fixpoint execAll (cmds : list (list bytes)) : M unit :=
  match cmds with [] => mret tt | c :: t => _ ← execFW c; execAll t end.

(** The commands, in order. *)
Definition redirect (proto : bytes) (ep : EpairInfo) (gw : GatewayInfo) (r : PortRange * PortRange) : list bytes :=
  [str "redirect_port"; proto; ipB ep ++ str ":" ++ rangeToStr (snd r); hostIP gw ++ str ":" ++ rangeToStr (fst r)].

Definition inboundRules (proto ruleIn : bytes) (ep : EpairInfo) (gw : GatewayInfo) (r : PortRange * PortRange) : list (list bytes) :=
  [[str "add"; ruleIn; str "nat"; ruleIn; proto; str "from"; str "any"; str "to"; hostIP gw; rangeToStr (fst r); str "in"; str "recv"; gw_iface gw];
   [str "add"; ruleIn; str "nat"; ruleIn; proto; str "from"; ipB ep; rangeToStr (snd r); str "to"; str "any"; str "out"; str "xmit"; gw_iface gw]].

Definition inbound6Rule (proto rule6In v6 : bytes) (r : PortRange * PortRange) : list bytes :=
  [str "add"; rule6In; str "fwd"; v6 ++ str "," ++ rangeToStr (snd r); proto; str "from"; str "any"; str "to"; str "me6";
   rangeToStr (fst r); str "in"].

Definition inboundCommands (d : NetOptDetails) (ep : EpairInfo) (gw : GatewayInfo) (slot : Z) (v6 : bytes) : list (list bytes) :=
  if allowInbound d then
    let ruleIn := dec (inRule slot 1) in
    let rule6In := dec (inRule slot 2) in
    let tcp := inboundPortsTcp d in let udp := inboundPortsUdp d in
    [[str "nat"; ruleIn; str "config"] ++ flat_map (redirect (str "tcp") ep gw) tcp ++ flat_map (redirect (str "udp") ep gw) udp]
    ++ flat_map (inboundRules (str "tcp") ruleIn ep gw) tcp ++ flat_map (inboundRules (str "udp") ruleIn ep gw) udp
    ++ (if is_empty v6 then [] else map (inbound6Rule (str "tcp") rule6In v6) tcp ++ map (inbound6Rule (str "udp") rule6In v6) udp)
  else [].

Definition commonCommands (gw : GatewayInfo) : list (list bytes) :=
  let common := dec (fwRuleRangeOutBase L) in
  [[str "nat"; common; str "config"; str "ip"; hostIP gw];
   [str "add"; common; str "nat"; common; str "all"; str "from"; str "any"; str "to"; hostIP gw; str "in"; str "recv"; gw_iface gw]].

Definition outboundCommands (d : NetOptDetails) (ep : EpairInfo) (gw : GatewayInfo) (slot : Z) (nameserverIp : bytes) : list (list bytes) :=
  if allowOutbound d then
    let ruleOut := dec (outRule slot 1) in
    let common := dec (fwRuleRangeOutBase L) in
    (if outboundDns d then
       [[str "add"; ruleOut; str "nat"; common; str "udp"; str "from"; ipB ep; str "to"; nameserverIp; str "53"; str "out"; str "xmit"; gw_iface gw];
        [str "add"; ruleOut; str "allow"; str "udp"; str "from"; ipB ep; str "to"; nameserverIp; str "53"]] else [])
    ++ [[str "add"; ruleOut; str "deny"; str "udp"; str "from"; ipB ep; str "to"; str "any"; str "53"]]
    ++ (if outboundHost d then [] else [[str "add"; ruleOut; str "deny"; str "ip"; str "from"; ipB ep; str "to"; str "me"]])
    ++ (if outboundLan d then [] else [[str "add"; ruleOut; str "deny"; str "ip"; str "from"; ipB ep; str "to"; hostLAN gw]])
    ++ [[str "add"; ruleOut; str "nat"; common; str "all"; str "from"; ipB ep; str "to"; str "any"; str "out"; str "xmit"; gw_iface gw]]
  else [].

Definition outbound6Commands (d : NetOptDetails) (gw : GatewayInfo) (slot : Z) (v6 v6Iface : bytes) : list (list bytes) :=
  if negb (is_empty v6) && allowOutbound d then
    let rule6 := dec (outRule slot 2) in
    let iface := if is_empty v6Iface then gw_iface gw else v6Iface in
    (if outboundDns d then [[str "add"; rule6; str "allow"; str "udp"; str "from"; v6; str "to"; str "any"; str "53"]] else [])
    ++ [[str "add"; rule6; str "deny"; str "udp"; str "from"; v6; str "to"; str "any"; str "53"]]
    ++ (if outboundHost d then [] else [[str "add"; rule6; str "deny"; str "ip6"; str "from"; v6; str "to"; str "me6"]])
    ++ [[str "add"; rule6; str "allow"; str "ip6"; str "from"; v6; str "to"; str "any"; str "out"; str "xmit"; iface];
        [str "add"; rule6; str "allow"; str "ip6"; str "from"; str "any"; str "to"; v6; str "in"; str "recv"; iface]]
  else [].

(** The block on the shared rule: [sharedMode] 0 counts users in the file, 1 is
    the first rootless user. *)
Definition shareOutbound (d : NetOptDetails) (gw : GatewayInfo) (sharedMode : Z) : M unit :=
  if allowOutbound d then
    if sharedMode =? 0 then
      f ← getUsers;
      let u := Ctx.lockUsers f in
      _ ← (if Ctx.isEmpty u then execAll (commonCommands gw) else mret tt);
      putUsers (Ctx.unlockUsers (Ctx.addUser (pid w) u))
    else if sharedMode =? 1 then execAll (commonCommands gw)
    else mret tt
  else mret tt.

(** The callback returned for the end of the run. *)
Definition teardownRules (d : NetOptDetails) (slot : Z) (hasV6 : bool) (origIpForwarding sharedMode : Z) : M unit :=
  _ ← (if allowInbound d then
         _ ← removeIpfwRulePrivopsOrLocal (inRule slot 1) (str "destroy firewall rule");
         if hasV6 then
           catch (removeIpfwRulePrivopsOrLocal (inRule slot 2) (str "destroy IPv6 inbound firewall rule"))
             (fun e => warn (str "failed to delete IPv6 inbound rule " ++ dec (inRule slot 2) ++ str ": " ++ e))
         else mret tt
       else mret tt);
  if allowOutbound d then
    _ ← removeIpfwRulePrivopsOrLocal (outRule slot 1) (str "destroy firewall rule");
    _ ← (if hasV6 && (0 <? outRule slot 2) then
           catch (removeIpfwRulePrivopsOrLocal (outRule slot 2) (str "destroy IPv6 firewall rule"))
             (fun e => warn (str "failed to delete IPv6 firewall rule " ++ dec (outRule slot 2) ++ str ": " ++ e))
         else mret tt);
    if sharedMode =? 0 then
      f ← getUsers;
      let u := Ctx.delUser (alive w) (pid w) (Ctx.lockUsers f) in
      _ ← (if Ctx.isEmpty u then
             _ ← removeIpfwRulePrivopsOrLocal (fwRuleRangeOutBase L) (str "destroy firewall rule");
             if origIpForwarding =? 0 then do (SetSysctl (str "net.inet.ip.forwarding") 0) else mret tt
           else mret tt);
      putUsers (Ctx.unlockUsers u)
    else mret tt
  else mret tt.

(** [setupFirewallRules]: the callback, or the exception. *)
Definition setupFirewallRules (d : NetOptDetails) (ep : EpairInfo) (gw : GatewayInfo) (slot : Z) (nameserverIp : bytes)
    (origIpForwarding : Z) (v6 v6Iface : bytes) (sharedMode : Z) : M (M unit) :=
  _ ← execAll (inboundCommands d ep gw slot v6);
  _ ← shareOutbound d gw sharedMode;
  _ ← execAll (outboundCommands d ep gw slot nameserverIp);
  _ ← execAll (outbound6Commands d gw slot v6 v6Iface);
  mret (teardownRules d slot (negb (is_empty v6)) origIpForwarding sharedMode).
End net.

(** ** The other modes *)

Section modes.
Context (w : World).

Definition passthroughInterface (jid : Z) (iface : bytes) : M bytes :=
  _ ← setLo0 w;
  _ ← moveToVnetPrivopsOrLocal w iface jid;
  mret iface.

Definition reclaimPassthroughInterface (iface jailName : bytes) : M unit := moveFromVnetPrivopsOrLocal w iface jailName.

Definition ensureBridgeModule : M unit := do w (LoadModule (str "if_bridge")).

Definition ensureNetgraphModules : M unit :=
  _ ← do w (LoadModule (str "ng_ether")); _ ← do w (LoadModule (str "ng_bridge")); do w (LoadModule (str "ng_eiface")).

Record NetgraphInfo := { physIface : bytes; bridgeNode : bytes; ngIface : bytes }.

(** The interface's name in the output of [ngctl show]. *)
Definition eifaceName (out : bytes) : bytes :=
  match find_sub (str "Name: ") out with
  | None => out
  | Some p => let rest := drop (p + 6) out in match find_char " " rest with None => rest | Some q => take q rest end
  end.

Definition createNetgraphInterface (jid : Z) (phys jailName : bytes) : M NetgraphInfo :=
  let node := str "crate_br_" ++ jailName in
  _ ← setLo0 w;
  _ ← do w (Mkpeer (phys ++ str ":") (str "bridge") (str "lower") (str "link0"));
  _ ← do w (NgName (phys ++ str ":lower") node);
  _ ← do w (NgConnect (phys ++ str ":") (node ++ str ":") (str "upper") (str "link1"));
  _ ← do w (Mkpeer (node ++ str ":") (str "eiface") (str "link2") (str "ether"));
  out ← call w (NgShow (node ++ str ":link2"));
  let iface := eifaceName out in
  _ ← moveToVnetPrivopsOrLocal w iface jid;
  mret {| physIface := phys; bridgeNode := node; ngIface := iface |}.

Definition destroyNetgraphInterface (i : NetgraphInfo) : M unit := do w (NgShutdown (bridgeNode i ++ str ":")).

Record BridgeInfo := { br_ifaceA : bytes; br_ifaceB : bytes; br_bridge : bytes; br_num : Z }.

Definition createBridgeEpair (jid : Z) (bridge : bytes) : M BridgeInfo :=
  _ ← setLo0 w;
  ab ← createEpairPrivopsOrLocal w;
  match RunPure.epairUnit (fst ab) with
  | None => fail (str "create_epair returned an unexpected interface name '" ++ fst ab ++ str "'")
  | Some n =>
      _ ← disableOffloadPrivopsOrLocal w (fst ab);
      _ ← disableOffloadPrivopsOrLocal w (snd ab);
      _ ← setUpPrivopsOrLocal w (fst ab);
      _ ← bridgeAddMemberPrivopsOrLocal w bridge (fst ab);
      _ ← moveToVnetPrivopsOrLocal w (snd ab) jid;
      mret {| br_ifaceA := fst ab; br_ifaceB := snd ab; br_bridge := bridge; br_num := n |}
  end.

Definition destroyBridgeEpair (i : BridgeInfo) : M unit :=
  _ ← bridgeDelMemberPrivopsOrLocal w (br_bridge i) (br_ifaceA i); teardownIface w (br_ifaceA i).

(** ** Addresses *)

Definition dq : bytes := [chr 34].

Definition configureDhcp (iface jailPath : bytes) : M unit :=
  _ ← do w (AppendFile (str "ifconfig_" ++ iface ++ str "=" ++ dq ++ str "SYNCDHCP" ++ dq ++ [newline]) (jailPath ++ str "/etc/rc.conf"));
  _ ← inJail w [str "/sbin/ifconfig"; iface; str "up"];
  inJail w [str "/sbin/dhclient"; str "-T"; str "10"; iface].

(** [std::hex] *)
Fixpoint hexLoop (fuel : nat) (n : Z) (acc : bytes) : bytes :=
  match fuel with
  | O => acc
  | S f => let acc' := nth (Z.to_nat (n mod 16)) (str "0123456789abcdef") nul :: acc in
           if n / 16 =? 0 then acc' else hexLoop f (n / 16) acc'
  end.
Definition hex32 (n : Z) : bytes := hexLoop 8 n [].

(** The shift is of an [unsigned], for a length strictly between 0 and 32. *)
Definition maskOf (prefixLen : Z) : Z :=
  if prefixLen =? 0 then 0
  else if 32 <=? prefixLen then 2 ^ 32 - 1
  else u32 (Z.lnot (u32 (Z.shiftl 1 (32 - prefixLen) - 1))).

(** The address and the netmask argument. *)
Definition staticIpArgs (ip : bytes) : bytes + (bytes * bytes) :=
  match find_char "/" ip with
  | Some p =>
      prefixLen ← UtilPure.toUInt (drop (S p) ip);
      if 32 <? prefixLen then inl (str "static IPv4 prefix length out of range (0..32): " ++ ip)
      else inr (take p ip, str "0x" ++ hex32 (maskOf prefixLen))
  | None => inr (ip, str "0xffffff00")
  end.

Definition configureStaticIp (iface ip gw : bytes) : M unit :=
  am ← lift (staticIpArgs ip);
  _ ← inJail w [str "/sbin/ifconfig"; iface; str "inet"; fst am; str "netmask"; snd am];
  if is_empty gw then mret tt else inJail w [str "/sbin/route"; str "add"; str "default"; gw].

Definition configureSlaac (iface jailPath : bytes) : M unit :=
  _ ← do w (AppendFile (str "ifconfig_" ++ iface ++ str "_ipv6=" ++ dq ++ str "inet6 -ifdisabled accept_rtadv" ++ dq ++ [newline])
              (jailPath ++ str "/etc/rc.conf"));
  _ ← inJail w [str "/sbin/ifconfig"; iface; str "inet6"; str "-ifdisabled"; str "accept_rtadv"];
  inJail w [str "/usr/sbin/rtsol"; iface].

Definition staticIp6Args (ip6 : bytes) : bytes + (bytes * bytes) :=
  match find_char "/" ip6 with
  | Some p =>
      let prefixLen := drop (S p) ip6 in
      let bad := str "static IPv6 prefix length out of range (0..128): " ++ ip6 in
      if is_empty prefixLen || (3 <? size_z prefixLen) || negb (forallb is_digit prefixLen) then inl bad
      else n ← UtilPure.toUInt prefixLen; if 128 <? n then inl bad else inr (take p ip6, prefixLen)
  | None => inr (ip6, str "64")
  end.

Definition configureStaticIp6 (iface ip6 : bytes) : M unit :=
  ap ← lift (staticIp6Args ip6);
  inJail w [str "/sbin/ifconfig"; iface; str "inet6"; fst ap; str "prefixlen"; snd ap].

(** [sha256hex] is the library's. *)
Definition generateStaticMac (sha256hex : bytes -> bytes) (jailName ifaceName : bytes) : bytes * bytes :=
  let h := sha256hex (ifaceName ++ jailName) in
  let base := str "58:9c:fc:" ++ take 2 h ++ str ":" ++ take 2 (drop 2 h) ++ str ":" ++ take 1 (drop 4 h) in
  (base ++ str "a", base ++ str "b").

Definition createVlanInJail (parentIface : bytes) (vlanId : Z) : M unit :=
  let v := str "vlan" ++ dec_signed vlanId in
  _ ← do w (LoadModule (str "if_vlan"));
  _ ← inJail w [str "/sbin/ifconfig"; v; str "create"];
  _ ← inJail w [str "/sbin/ifconfig"; v; str "vlan"; dec_signed vlanId; str "vlandev"; parentIface];
  inJail w [str "/sbin/ifconfig"; v; str "up"].
End modes.
End RunNet.
