(* ===== verification/NatRules.v ===== *)
(** * The ipfw rules of NAT mode

    What [RunNet.setupFirewallRules] adds, its callback removes; the numbers of
    different slots do not meet; and which of them [crate clean] takes for rules
    of dead jails. *)

From S2P Require Import Prelude CStd OMap UtilPure RunPure Spec AutoFw Ctx RunNet.

Module NatRules.
Import CStd Spec RunNet.

(** The number a call adds a rule under, and the one it deletes. *)
Definition addedNumber (c : Call) : option bytes :=
  match c with
  | Request (AddRule n _ _) => Some (dec n)
  | Exec (_ :: _ :: add :: n :: _) => if beq add (str "add") then Some n else None
  | _ => None
  end.

Definition removedNumber (c : Call) : option bytes :=
  match c with
  | Request (RemoveRule n) => Some (dec n)
  | Exec [_; delete; n] => if beq delete (str "delete") then Some n else None
  | _ => None
  end.

Definition added (l : list Call) : list bytes := omap addedNumber l.
Definition removed (l : list Call) : list bytes := omap removedNumber l.

(** [m] extends the log by calls of which [Q] holds, if it succeeds. *)
Definition issues {A} (m : M A) (Q : A -> list Call -> Prop) : Prop :=
  forall s a s', m s = (inr a, s') -> exists l, log s' = l ++ log s /\ Q a l.

Lemma issues_ret {A} (a : A) (Q : A -> list Call -> Prop) : Q a [] -> issues (mret a) Q.
Proof. intros HQ s a' s' [= <- <-]. by exists []. Qed.

Lemma issues_bind {A B} (m : M A) (f : A -> M B) (P : A -> list Call -> Prop) (Q : B -> list Call -> Prop) :
  issues m P -> (forall a l1, P a l1 -> issues (f a) (fun b l2 => Q b (l2 ++ l1))) -> issues (m ≫= f) Q.
Proof.
  intros Hm Hf s b s' E. unfold mbind, M_bind in E. destruct (m s) as [[e|a] s1] eqn:Em; [done|].
  destruct (Hm _ _ _ Em) as (l1 & El & HP). destruct (Hf a l1 HP _ _ _ E) as (l2 & El2 & HQ).
  exists (l2 ++ l1). by rewrite El2, El, app_assoc.
Qed.

Lemma issues_weaken {A} (m : M A) (P Q : A -> list Call -> Prop) : issues m P -> (forall a l, P a l -> Q a l) -> issues m Q.
Proof. intros Hm H s a s' E. destruct (Hm _ _ _ E) as (l & ? & ?). exists l. auto. Qed.

Lemma issues_fail {A} e (Q : A -> list Call -> Prop) : issues (fail e) Q.
Proof. intros s a s' [=]. Qed.

Section world.
Context (w : World).

Lemma issues_do c : issues (do w c) (fun _ l => l = [c]).
Proof.
  intros s [] s' E. unfold do, mbind, M_bind, call in E. destruct (run w (log s) c); [done|]. injection E as <-. by exists [c].
Qed.

Lemma issues_warn m : issues (warn m) (fun _ l => l = [Warn m]).
Proof. intros s [] s' [= <-]. by exists [Warn m]. Qed.

Lemma issues_send op : issues (sendRequest w op) (fun _ l => l = [Request op]).
Proof. intros s r s' [= <- <-]. by exists [Request op]. Qed.

Lemma issues_checked what op : issues (checked w what op) (fun _ l => l = [Request op]).
Proof.
  unfold checked. eapply issues_bind; [apply issues_send|]. intros r l1 ->.
  repeat case_match; [apply issues_fail..|by apply issues_ret].
Qed.

(** Removing a rule is asked for whatever the answer. *)
Lemma issues_remove n what : issues (removeIpfwRulePrivopsOrLocal w n what) (fun _ l => In (dec n) (removed l)).
Proof.
  unfold removeIpfwRulePrivopsOrLocal. destruct (hasSocket w).
  - unfold softly. eapply issues_bind; [apply issues_send|]. intros r l1 ->.
    repeat case_match; try (eapply issues_weaken; [apply issues_warn|]; intros ? ? ->; by left). by apply issues_ret; left.
  - eapply issues_weaken; [apply issues_do|]. intros ? ? ->. by left.
Qed.

Definition isAddOf (n : Z) (cmd : list bytes) : Prop := exists action rest, cmd = str "add" :: dec n :: action :: rest.

(** Nothing but rules under the given numbers. *)
Definition addsOnly (nums : list Z) (l : list Call) : Prop := forall t, In t (added l) -> exists n, In n nums /\ t = dec n.

Lemma numberAt_dec a n rest bad : 0 <= n < 2 ^ 32 -> numberAt (a :: dec n :: rest) bad = inr n.
Proof.
  intros Hn. unfold numberAt. pose proof (dec_digits n). pose proof (dec_nonempty n). pose proof (dec_value_dec n).
  rewrite stoulPos_digits by (done || rewrite dec_value_dec by lia; unfold ulongMax; lia).
  rewrite dec_value_dec by lia. unfold u32. by rewrite Z.mod_small.
Qed.

Lemma issues_add n cmd : 0 <= n < 2 ^ 32 -> isAddOf n cmd -> issues (execFW w cmd) (fun _ l => addsOnly [n] l).
Proof.
  intros Hn (act & rest & ->). unfold execFW. cbv zeta.
  change (isNatConfig (str "add" :: dec n :: act :: rest)) with false. change (isAdd (str "add" :: dec n :: act :: rest)) with true.
  destruct (hasSocket w).
  - rewrite numberAt_dec by done. eapply (issues_bind _ _ (fun a l => a = n /\ l = [])).
    { intros s a s' [= <- <-]. by exists []. }
    intros a l1 [-> ->]. eapply issues_bind; [apply issues_checked|]. intros r l2 ->. apply issues_ret.
    intros t [<-|[]]. exists n. split; [by left|done].
  - eapply issues_weaken; [apply issues_do|]. intros ? ? ->. intros t [<-|[]]. exists n. split; [by left|done].
Qed.

Lemma issues_nat n rest : issues (execFW w (str "nat" :: n :: str "config" :: rest)) (fun _ l => addsOnly [] l).
Proof.
  unfold execFW. cbv zeta. change (isNatConfig (str "nat" :: n :: str "config" :: rest)) with true.
  destruct (hasSocket w).
  - eapply (issues_bind _ _ (fun _ l => l = [])).
    { intros s a s' E. unfold lift in E. injection E as _ <-. by exists []. }
    intros a l1 ->. eapply issues_bind; [apply issues_checked|]. intros r l2 ->. apply issues_ret. by intros t [].
  - eapply issues_weaken; [apply issues_do|]. intros ? ? ->. by intros t [].
Qed.

(** A command of the setup: a rule under one of the numbers, or a NAT instance. *)
Definition setupCommand (nums : list Z) (cmd : list bytes) : Prop :=
  (exists n, In n nums /\ isAddOf n cmd) \/ exists n rest, cmd = str "nat" :: n :: str "config" :: rest.

Lemma addsOnly_app nums l1 l2 : addsOnly nums l1 -> addsOnly nums l2 -> addsOnly nums (l2 ++ l1).
Proof. intros H1 H2 t. unfold added. rewrite omap_app, in_app_iff. intros [?|?]; auto. Qed.

Lemma addsOnly_nil nums : addsOnly nums [].
Proof. by intros t []. Qed.

Lemma addsOnly_mono nums nums' l : incl nums nums' -> addsOnly nums l -> addsOnly nums' l.
Proof. intros Hi Hl t Ht. destruct (Hl t Ht) as (n & ? & ?). exists n. auto. Qed.

Lemma issues_execAll nums cmds : Forall (fun n => 0 <= n < 2 ^ 32) nums -> Forall (setupCommand nums) cmds ->
  issues (execAll w cmds) (fun _ l => addsOnly nums l).
Proof.
  intros Hn. rewrite List.Forall_forall in Hn. induction 1 as [|cmd cmds Hc Hcs IH]; cbn [execAll]; [apply issues_ret, addsOnly_nil|].
  eapply (issues_bind _ _ (fun _ l => addsOnly nums l)).
  - destruct Hc as [(n & Hin & Ha)|(n & rest & ->)].
    + eapply issues_weaken; [apply issues_add; [by apply Hn|exact Ha]|]. intros ? l. apply addsOnly_mono. by intros x [<-|[]].
    + eapply issues_weaken; [apply issues_nat|]. intros ? l. apply addsOnly_mono. by intros x [].
  - intros [] l1 H1. eapply issues_weaken; [exact IH|]. intros ? l2 H2. by apply addsOnly_app.
Qed.

Context (L : Layout).

Lemma u32_range z : 0 <= u32 z < 2 ^ 32.
Proof. unfold u32. apply Z.mod_pos_bound. lia. Qed.

(** The numbers the rules of a crate are added under. *)
Definition inNumbers (d : NetOptDetails) (slot : Z) (v6 : bytes) : list Z :=
  if allowInbound d then inRule L slot 1 :: (if is_empty v6 then [] else [inRule L slot 2]) else [].
Definition outNumbers (d : NetOptDetails) (slot : Z) (v6 : bytes) : list Z :=
  if allowOutbound d then outRule L slot 1 :: (if is_empty v6 then [] else [outRule L slot 2]) else [].

Lemma inboundCommands_ok d ep gw slot v6 : Forall (setupCommand (inNumbers d slot v6)) (inboundCommands L d ep gw slot v6).
Proof.
  unfold inboundCommands, inNumbers. destruct (allowInbound d); [|done]. cbv zeta.
  apply Forall_cons. split; [right; by do 2 eexists|].
  assert (Hf : forall nums proto l, Forall (setupCommand (inRule L slot 1 :: nums)) (flat_map (inboundRules proto (dec (inRule L slot 1)) ep gw) l)).
  { intros nums proto l. apply List.Forall_forall. intros c (r & _ & Hc)%in_flat_map. left. exists (inRule L slot 1). split; [by left|].
    destruct Hc as [<-|[<-|[]]]; by do 2 eexists. }
  repeat apply Forall_app_2; [apply Hf..|]. destruct (is_empty v6); [done|].
  apply Forall_app_2; apply List.Forall_forall; intros c (r & <- & _)%in_map_iff; left; exists (inRule L slot 2);
    (split; [right; by left|by do 2 eexists]).
Qed.

(** Each of the listed commands is a rule under the number. *)
Ltac listed n := repeat apply Forall_app_2; repeat case_match; repeat (apply Forall_cons; split); try apply Forall_nil; try done;
  left; exists n; (split; [auto using in_eq, in_cons|by do 2 eexists]).

Lemma outboundCommands_ok d ep gw slot ns v6 : Forall (setupCommand (outNumbers d slot v6)) (outboundCommands L d ep gw slot ns).
Proof. unfold outboundCommands, outNumbers. destruct (allowOutbound d); [|done]. cbv zeta. listed (outRule L slot 1). Qed.

Lemma outbound6Commands_ok d gw slot v6 v6i : Forall (setupCommand (outNumbers d slot v6)) (outbound6Commands L d gw slot v6 v6i).
Proof.
  unfold outbound6Commands, outNumbers. destruct (is_empty v6); [done|]. destruct (allowOutbound d); [|done]. cbn [negb andb]. cbv zeta.
  listed (outRule L slot 2).
Qed.

Lemma commonCommands_ok gw : Forall (setupCommand [fwRuleRangeOutBase L]) (commonCommands L gw).
Proof. unfold commonCommands. apply Forall_cons. split; [right; by do 2 eexists|]. listed (fwRuleRangeOutBase L). Qed.

Lemma numbers_range d slot v6 : Forall (fun n => 0 <= n < 2 ^ 32) (inNumbers d slot v6) /\ Forall (fun n => 0 <= n < 2 ^ 32) (outNumbers d slot v6).
Proof. unfold inNumbers, outNumbers. split; repeat case_match; repeat constructor; apply u32_range. Qed.

Definition sharedNumbers (d : NetOptDetails) (mode : Z) : list Z :=
  if allowOutbound d && ((mode =? 0) || (mode =? 1)) then [fwRuleRangeOutBase L] else [].

Lemma issues_share d gw mode : 0 <= fwRuleRangeOutBase L < 2 ^ 32 ->
  issues (shareOutbound w L d gw mode) (fun _ l => addsOnly (sharedNumbers d mode) l).
Proof.
  intros Hb. unfold shareOutbound, sharedNumbers. destruct (allowOutbound d); [|apply issues_ret, addsOnly_nil].
  assert (HC : issues (execAll w (commonCommands L gw)) (fun _ l => addsOnly [fwRuleRangeOutBase L] l)).
  { apply issues_execAll; [by apply Forall_singleton|apply commonCommands_ok]. }
  destruct (mode =? 0); [|destruct (mode =? 1); [done|apply issues_ret, addsOnly_nil]]. cbn [orb andb].
  eapply (issues_bind _ _ (fun _ l => l = [])); [intros s a s' [= <- <-]; by exists []|]. intros f l1 ->. cbv zeta.
  eapply (issues_bind _ _ (fun _ l => addsOnly [fwRuleRangeOutBase L] l)); [case_match; [exact HC|apply issues_ret, addsOnly_nil]|].
  intros [] l2 H2 s a s' [= <- <-]. exists []. split; [done|]. by rewrite app_nil_r.
Qed.

Lemma setup_adds d ep gw slot ns fwd v6 v6i mode : 0 <= fwRuleRangeOutBase L < 2 ^ 32 ->
  issues (setupFirewallRules w L d ep gw slot ns fwd v6 v6i mode) (fun td l =>
    td = teardownRules w L d slot (negb (is_empty v6)) fwd mode
    /\ addsOnly (inNumbers d slot v6 ++ sharedNumbers d mode ++ outNumbers d slot v6) l).
Proof.
  intros Hb. destruct (numbers_range d slot v6) as [Ri Ro]. unfold setupFirewallRules.
  eapply issues_bind; [apply (issues_execAll (inNumbers d slot v6)), inboundCommands_ok; exact Ri|]. intros [] l1 H1.
  eapply issues_bind; [by apply issues_share|]. intros [] l2 H2.
  eapply issues_bind; [apply (issues_execAll (outNumbers d slot v6)), (outboundCommands_ok _ _ _ _ _ v6); exact Ro|]. intros [] l3 H3.
  eapply issues_bind; [apply (issues_execAll (outNumbers d slot v6)), outbound6Commands_ok; exact Ro|]. intros [] l4 H4.
  apply issues_ret. split; [done|]. cbn [app]. repeat apply addsOnly_app.
  all: eapply addsOnly_mono; [|eassumption]; intros x Hx; rewrite !in_app_iff; tauto.
Qed.

(** A step that leaves the users file alone. *)
Definition quiet {A} (m : M A) : Prop := forall s, users (snd (m s)) = users s.

Lemma nat_quiet_bind {A B} (m : M A) (f : A -> M B) : quiet m -> (forall a, quiet (f a)) -> quiet (m ≫= f).
Proof.
  intros Hm Hf s. unfold mbind, M_bind. specialize (Hm s). destruct (m s) as [[e|a] s1]; cbn [snd] in *; [done|]. by rewrite Hf.
Qed.

Lemma quiet_remove n what : quiet (removeIpfwRulePrivopsOrLocal w n what).
Proof.
  unfold removeIpfwRulePrivopsOrLocal, softly, do. case_match.
  - apply nat_quiet_bind; [done|]. intros r. by repeat case_match.
  - by apply nat_quiet_bind.
Qed.

Lemma quiet_catch m h : quiet m -> (forall e, quiet (h e)) -> quiet (catch m h).
Proof. intros Hm Hh s. unfold catch. specialize (Hm s). destruct (m s) as [[e|a] s1]; cbn [snd] in *; [|done]. by rewrite Hh. Qed.

(** A deletion under [try] is asked for even when it throws. *)
Lemma issues_catch_remove n what (f : bytes -> bytes) :
  issues (catch (removeIpfwRulePrivopsOrLocal w n what) (fun e => warn (f e))) (fun _ l => In (dec n) (removed l)).
Proof.
  intros s [] s' E. unfold catch in E. destruct (removeIpfwRulePrivopsOrLocal w n what s) as [[e|u] s1] eqn:Er.
  - unfold removeIpfwRulePrivopsOrLocal in Er. destruct (hasSocket w).
    { exfalso. revert Er. unfold softly, mbind, M_bind, sendRequest. cbn beta iota. by repeat case_match. }
    unfold do, mbind, M_bind, call in Er. destruct (run w (log s) _); [|done]. injection Er as _ <-. injection E as <-.
    eexists (_ :: [_]). split; [reflexivity|]. by left.
  - injection E as <-. by apply (issues_remove n what s u s1).
Qed.

Lemma removed_app l1 l2 t : In t (removed (l1 ++ l2)) <-> In t (removed l1) \/ In t (removed l2).
Proof. unfold removed. by rewrite omap_app, in_app_iff. Qed.

(** In root mode the last call was an ipfw delete that failed, and its error is
    what the callback ends with. *)
Definition halted {A} (base : list Call) (r : bytes + A) (l : list Call) : Prop :=
  hasSocket w = false /\ exists n pre e,
    let c := Exec [str "/sbin/ipfw"; str "delete"; n] in
    l = c :: pre /\ run w (pre ++ base) c = inl e /\ r = inl e.

(** [m] comes to its end with calls of which [Q] holds, or halts. *)
Definition delivers (m : M unit) (Q : list Call -> Prop) : Prop :=
  forall s r s', m s = (r, s') -> exists l, log s' = l ++ log s /\ ((r = inr tt /\ Q l) \/ halted (log s) r l).

Lemma delivers_ret (Q : list Call -> Prop) : Q [] -> delivers (mret tt) Q.
Proof. intros HQ s r s' [= <- <-]. exists []. auto. Qed.

Lemma halted_later {A} base (r : bytes + A) l1 l2 : halted (l1 ++ base) r l2 -> halted base r (l2 ++ l1).
Proof. intros (Hs & n & pre & e & -> & Hr & ->). split; [done|]. exists n, (pre ++ l1), e. by rewrite <- app_assoc. Qed.

Lemma delivers_bind m (f : unit -> M unit) (P Q : list Call -> Prop) :
  delivers m P -> (forall l1, P l1 -> delivers (f tt) (fun l2 => Q (l2 ++ l1))) -> delivers (m ≫= f) Q.
Proof.
  intros Hm Hf s r s' E. unfold mbind, M_bind in E. destruct (m s) as [r1 s1] eqn:Em.
  destruct (Hm _ _ _ Em) as (l1 & El & [[-> HP]|Hh]).
  - destruct (Hf l1 HP _ _ _ E) as (l2 & El2 & H2). exists (l2 ++ l1). rewrite El2, El, app_assoc. split; [done|].
    destruct H2 as [H2|Hh]; [by left|right]. rewrite El in Hh. by apply halted_later.
  - pose proof Hh as (Hns & n & pre & e & El' & Hrun & ->). injection E as <- <-. exists l1. split; [done|]. right.
    split; [done|]. by exists n, pre, e.
Qed.

Lemma delivers_weaken m (P Q : list Call -> Prop) : delivers m P -> (forall l, P l -> Q l) -> delivers m Q.
Proof. intros Hm HPQ s r s' E. destruct (Hm _ _ _ E) as (l & El & [[? ?]|?]); exists l; auto. Qed.

Lemma delivers_remove n what : delivers (removeIpfwRulePrivopsOrLocal w n what) (fun l => In (dec n) (removed l)).
Proof.
  intros s r s' E. destruct r as [e|[]].
  - unfold removeIpfwRulePrivopsOrLocal in E. destruct (hasSocket w) eqn:Hs.
    { exfalso. revert E. unfold softly, mbind, M_bind, sendRequest. cbn beta iota. by repeat case_match. }
    unfold do, mbind, M_bind, call in E. destruct (run w (log s) _) as [e'|] eqn:Er; [|done]. injection E as -> <-.
    eexists [_]. split; [reflexivity|]. right. split; [done|]. by exists (dec n), [], e.
  - apply issues_remove in E as (l & El & R). exists l. auto.
Qed.

Lemma delivers_catch_remove n what (f : bytes -> bytes) :
  delivers (catch (removeIpfwRulePrivopsOrLocal w n what) (fun e => warn (f e))) (fun l => In (dec n) (removed l)).
Proof.
  intros s r s' E. assert (r = inr tt) as -> by (unfold catch in E; destruct (removeIpfwRulePrivopsOrLocal _ _ _ _) as [[|]]; by injection E).
  apply issues_catch_remove in E as (l & El & R). exists l. auto.
Qed.

Definition teardownIn (d : NetOptDetails) (slot : Z) (hasV6 : bool) : M unit :=
  if allowInbound d then
    _ ← removeIpfwRulePrivopsOrLocal w (inRule L slot 1) (str "destroy firewall rule");
    if hasV6 then
      catch (removeIpfwRulePrivopsOrLocal w (inRule L slot 2) (str "destroy IPv6 inbound firewall rule"))
        (fun e => warn (str "failed to delete IPv6 inbound rule " ++ dec (inRule L slot 2) ++ str ": " ++ e))
    else mret tt
  else mret tt.

Lemma teardownIn_removes d slot (v6 : bytes) : delivers (teardownIn d slot (negb (is_empty v6))) (fun l =>
  forall n, In n (inNumbers d slot v6) -> In (dec n) (removed l)).
Proof.
  unfold teardownIn, inNumbers. destruct (allowInbound d); [|apply delivers_ret; by intros n []].
  eapply delivers_bind; [apply delivers_remove|]. intros l1 H1. destruct (is_empty v6); cbn [negb].
  - apply delivers_ret. by intros n [<-|[]].
  - eapply delivers_weaken; [apply delivers_catch_remove|]. intros l2 H2 n [<-|[<-|[]]]; apply removed_app; auto.
Qed.

Lemma quiet_teardownIn d slot v6 : quiet (teardownIn d slot v6).
Proof.
  unfold teardownIn. repeat case_match; try done; apply nat_quiet_bind; try apply quiet_remove; try done.
  intros _. apply quiet_catch; [apply quiet_remove|done].
Qed.

Definition teardownOut2 (slot : Z) (hasV6 : bool) : M unit :=
  if hasV6 && (0 <? outRule L slot 2) then
    catch (removeIpfwRulePrivopsOrLocal w (outRule L slot 2) (str "destroy IPv6 firewall rule"))
      (fun e => warn (str "failed to delete IPv6 firewall rule " ++ dec (outRule L slot 2) ++ str ": " ++ e))
  else mret tt.

Lemma teardownOut2_removes slot (v6 : bytes) : 0 < outRule L slot 2 -> delivers (teardownOut2 slot (negb (is_empty v6))) (fun l =>
  is_empty v6 = false -> In (dec (outRule L slot 2)) (removed l)).
Proof.
  intros Hp. unfold teardownOut2. destruct (Z.ltb_spec 0 (outRule L slot 2)); [|lia]. rewrite andb_true_r.
  destruct (is_empty v6); cbn [negb]; [by apply delivers_ret|]. eapply delivers_weaken; [apply delivers_catch_remove|]. auto.
Qed.

Lemma quiet_teardownOut2 slot v6 : quiet (teardownOut2 slot v6).
Proof. unfold teardownOut2. case_match; [|done]. apply quiet_catch; [apply quiet_remove|done]. Qed.

(** Whether the crate is the last live user of the shared rule. *)
Definition lastUser (f : bytes) : bool := Ctx.isEmpty (Ctx.delUser (alive w) (pid w) (Ctx.lockUsers f)).

Definition teardownShared (origIpForwarding mode : Z) : M unit :=
  if mode =? 0 then
    f ← getUsers;
    let u := Ctx.delUser (alive w) (pid w) (Ctx.lockUsers f) in
    _ ← (if Ctx.isEmpty u then
           _ ← removeIpfwRulePrivopsOrLocal w (fwRuleRangeOutBase L) (str "destroy firewall rule");
           if origIpForwarding =? 0 then do w (SetSysctl (str "net.inet.ip.forwarding") 0) else mret tt
         else mret tt);
    putUsers (Ctx.unlockUsers u)
  else mret tt.

Lemma do_logs c s r s' : do w c s = (r, s') -> log s' = [c] ++ log s.
Proof. unfold do, mbind, M_bind, call. destruct (run w (log s) c); by intros [= <- <-]. Qed.

(** The shared rule goes before forwarding is turned off, so it is asked for even
    when that fails. *)
Lemma teardownShared_removes fwd mode s r s' : teardownShared fwd mode s = (r, s') ->
  exists l, log s' = l ++ log s
  /\ ((mode = 0 -> lastUser (users s) = true -> In (dec (fwRuleRangeOutBase L)) (removed l)) \/ halted (log s) r l).
Proof.
  unfold teardownShared, lastUser. destruct (Z.eqb_spec mode 0) as [->|Hm]; [|intros [= <- <-]; exists []; split; [done|by left]].
  unfold getUsers, mbind, M_bind. cbv zeta beta iota.
  destruct (Ctx.isEmpty _) eqn:El; [|intros [= <- <-]; exists []; split; [done|by left]].
  destruct (removeIpfwRulePrivopsOrLocal _ _ _ _) as [r1 s1] eqn:E1. apply delivers_remove in E1 as (l1 & H1 & [[-> R1]|Hh]).
  - destruct (fwd =? 0); cbv beta iota.
    + destruct (do w _ s1) as [r2 s2] eqn:E2. apply do_logs in E2. intros E. exists ([SetSysctl (str "net.inet.ip.forwarding") 0] ++ l1).
      split; [|left; intros _ _; apply removed_app; by right].
      destruct r2 as [e|[]]; injection E as <- <-; cbn [log]; by rewrite E2, H1.
    + intros [= <- <-]. exists l1. split; [done|]. by left.
  - pose proof Hh as (Hns & n & pre & e & El' & Hrun & ->). intros [= <- <-]. exists l1. split; [done|]. right.
    split; [done|]. by exists n, pre, e.
Qed.

Lemma bind_assoc {A B C} (m : M A) (f : A -> M B) (g : B -> M C) s : ((m ≫= f) ≫= g) s = (m ≫= (fun x => f x ≫= g)) s.
Proof. unfold mbind, M_bind. by destruct (m s) as [[|] ?]. Qed.

Lemma bind_ext {A B} (m : M A) (f g : A -> M B) s : (forall a s, f a s = g a s) -> (m ≫= f) s = (m ≫= g) s.
Proof. intros E. unfold mbind, M_bind. destruct (m s) as [[|] ?]; [done|apply E]. Qed.

(** The callback asks for the deletion of every rule of the crate, and of the
    shared one if no other live crate uses it, or halts. *)
Lemma teardown_removes d slot (v6 : bytes) fwd mode s r s' : 0 < outRule L slot 2 ->
  teardownRules w L d slot (negb (is_empty v6)) fwd mode s = (r, s') ->
  exists l, log s' = l ++ log s
  /\ (((forall n, In n (inNumbers d slot v6 ++ outNumbers d slot v6) -> In (dec n) (removed l))
       /\ (allowOutbound d = true -> mode = 0 -> lastUser (users s) = true -> In (dec (fwRuleRangeOutBase L)) (removed l)))
      \/ halted (log s) r l).
Proof.
  intros Hp E. set (own := _ ← teardownIn d slot (negb (is_empty v6));
    if allowOutbound d then _ ← removeIpfwRulePrivopsOrLocal w (outRule L slot 1) (str "destroy firewall rule");
      teardownOut2 slot (negb (is_empty v6)) else mret tt).
  assert (Eo : teardownRules w L d slot (negb (is_empty v6)) fwd mode s
    = (own ≫= fun _ => if allowOutbound d then teardownShared fwd mode else mret tt) s).
  { unfold own. rewrite bind_assoc. change (teardownRules w L d slot (negb (is_empty v6)) fwd mode s)
      with ((_ ← teardownIn d slot (negb (is_empty v6)); if allowOutbound d then
              _ ← removeIpfwRulePrivopsOrLocal w (outRule L slot 1) (str "destroy firewall rule");
              _ ← teardownOut2 slot (negb (is_empty v6)); teardownShared fwd mode else mret tt) s).
    apply bind_ext. intros _ s0. destruct (allowOutbound d); [|done]. by rewrite bind_assoc. }
  assert (Do : delivers own (fun l => forall n, In n (inNumbers d slot v6 ++ outNumbers d slot v6) -> In (dec n) (removed l))).
  { unfold own. eapply delivers_bind; [apply teardownIn_removes|]. intros l1 H1. unfold outNumbers. destruct (allowOutbound d).
    - eapply delivers_bind; [apply delivers_remove|]. intros l2 H2. eapply delivers_weaken; [by apply teardownOut2_removes|].
      intros l3 H3 n Hn. rewrite !removed_app. rewrite in_app_iff in Hn. destruct Hn as [Hn|[<-|Hn]]; [by auto|by auto|].
      destruct (is_empty v6); [done|]. destruct Hn as [<-|[]]. auto.
    - apply delivers_ret. intros n. rewrite app_nil_r. apply H1. }
  assert (Qo : quiet own).
  { unfold own. apply nat_quiet_bind; [apply quiet_teardownIn|]. intros _. destruct (allowOutbound d); [|done].
    apply nat_quiet_bind; [apply quiet_remove|]. intros _. apply quiet_teardownOut2. }
  rewrite Eo in E. unfold mbind, M_bind in E. specialize (Qo s). destruct (own s) as [r1 s1] eqn:E1. cbn [snd] in Qo.
  destruct (Do _ _ _ E1) as (l1 & H1 & [[-> R1]|Hh]).
  - destruct (allowOutbound d).
    + apply teardownShared_removes in E as (l2 & H2 & R2). exists (l2 ++ l1). rewrite H2, H1, app_assoc. split; [done|].
      destruct R2 as [R2|R2]; [left|right; rewrite H1 in R2; by apply halted_later]. rewrite Qo in R2.
      split; [intros n Hn; apply removed_app; by right; apply R1|intros _ Hm Hl; apply removed_app; left; auto].
    + injection E as <- <-. exists l1. split; [done|]. left. by split.
  - pose proof Hh as (Hns & n & pre & e & El' & Hrun & ->). injection E as <- <-. exists l1. split; [done|]. right.
    split; [done|]. by exists n, pre, e.
Qed.
End world.


(** A host where every command succeeds, and a crate with DNS and WAN access. *)
Definition goodWorld : World :=
  {| hasSocket := false; reply := fun _ _ => {| transportError := []; status := 200; body := [] |}; run := fun _ _ => inr [];
     epairNames := fun _ => (str "epair0a", str "epair0b"); alive := fun _ => true; pid := 4711 |}.
Definition sampleEpair : EpairInfo :=
  {| ifaceA := str "epair0a"; ifaceB := str "epair0b"; ipA := str "10.0.0.100"; ipB := str "10.0.0.101"; num := 0 |}.
Definition sampleGw : GatewayInfo := {| gw_iface := str "em0"; hostIP := str "192.168.1.10"; hostLAN := str "192.168.1.0/24" |}.
Definition sampleNet : NetOptDetails := createDefault.
Definition defaultLayout : Layout := layoutOf None None None.
Definition start : St := {| log := []; users := [] |}.

Definition sampleSetup (w : World) : (bytes + M unit) * St :=
  setupFirewallRules w defaultLayout sampleNet sampleEpair sampleGw 3 (str "192.168.1.1") 0 [] [] 0 start.


(** A command that fails half way: the rules before it and the entry in the
    users file stay, and there is no callback that would remove them. *)
Definition lateFailure : World :=
  {| hasSocket := false; reply := reply goodWorld; run := fun l _ => if (length l =? 4)%nat then inl (str "ipfw failed") else inr [];
     epairNames := epairNames goodWorld; alive := alive goodWorld; pid := 4711 |}.

Lemma failed_setup_leaves_rules : exists e s1, sampleSetup lateFailure = (inl e, s1)
  /\ added (log s1) = [str "50031"; str "50031"; str "50031"; str "50000"] /\ removed (log s1) = [] /\ users s1 = str "4711" ++ [newline].
Proof. do 2 eexists. split; [vm_compute; reflexivity|]. repeat split; vm_compute; reflexivity. Qed.

(** ** Numbers *)

Lemma default_numbers slot off : 0 <= slot < 1000 -> 0 <= off <= 2 ->
  inRule defaultLayout slot off = 10000 + 10 * slot + off /\ outRule defaultLayout slot off = 50000 + 10 * slot + off.
Proof. intros Hs Ho. unfold inRule, outRule, u32, defaultLayout, layoutOf. cbn. rewrite !Z.mod_small by lia. lia. Qed.

(** The rules of different slots have different numbers, and none is the shared one. *)
Lemma slots_disjoint d d' v6 v6' slot slot' n : 0 <= slot < 1000 -> 0 <= slot' < 1000 -> slot <> slot' ->
  In n (inNumbers defaultLayout d slot v6 ++ outNumbers defaultLayout d slot v6) ->
  n <> 50000 /\ ~ In n (inNumbers defaultLayout d' slot' v6' ++ outNumbers defaultLayout d' slot' v6').
Proof.
  intros Hs Hs' Hne. destruct (default_numbers slot 1 Hs ltac:(lia)), (default_numbers slot 2 Hs ltac:(lia)).
  destruct (default_numbers slot' 1 Hs' ltac:(lia)), (default_numbers slot' 2 Hs' ltac:(lia)).
  assert (I : forall d v6 slot n, In n (inNumbers defaultLayout d slot v6 ++ outNumbers defaultLayout d slot v6) ->
    n = inRule defaultLayout slot 1 \/ n = inRule defaultLayout slot 2 \/ n = outRule defaultLayout slot 1 \/ n = outRule defaultLayout slot 2).
  { clear. intros d v6 slot n. unfold inNumbers, outNumbers. rewrite in_app_iff. repeat case_match; cbn; intuition auto. }
  intros Hn%I. split; [lia|]. intros Hn'%I. lia.
Qed.

(** [crate clean] takes the outbound rules of a running NAT-mode crate for
    those of a dead jail: their numbers (50000 for the shared one, 50001 and
    50002 plus ten times the slot for its own) lie in the range it reads as
    40000 + 2 * jid, so they are deleted unless a jail with the unrelated jid
    5000 (5000 or 5001 plus five times the slot) happens to run. *)
Theorem clean_sweeps_live_nat_rules (slot off : Z) (running : list Z) (listing : list (Z * bytes)) :
  0 <= slot < 1000 -> (off = 1 \/ off = 2 \/ off = 0 /\ slot = 0) -> Forall AutoFw.lineOk listing ->
  In (outRule defaultLayout slot off) (map fst listing) ->
  ~ In (5000 + 5 * slot + off / 2) running ->
  In (outRule defaultLayout slot off) (AutoFw.pickOrphanIpfwRulesByJid (AutoFw.ipfwList listing) running).
Proof.
  intros Hs Ho Hl Hin Hr. assert (H01 : 0 <= off <= 2) by lia.
  unfold AutoFw.pickOrphanIpfwRulesByJid. rewrite AutoFw.scan_exact by done. apply filter_In. split; [done|].
  destruct (default_numbers slot off Hs H01) as [_ ->]. unfold AutoFw.kIpfwRuleBase, AutoFw.kIpfwRuleRangeEnd.
  replace ((50000 + 10 * slot + off - 40000) / 2) with (5000 + 5 * slot + off / 2) by
    (replace (50000 + 10 * slot + off - 40000) with (off + (5000 + 5 * slot) * 2) by lia; rewrite Z.div_add by lia; lia).
  destruct (AutoFw.running _ running) eqn:E; [by apply AutoFw.running_In in E|].
  destruct (Z.leb_spec 40000 (50000 + 10 * slot + off)); [|lia]. destruct (Z.ltb_spec (50000 + 10 * slot + off) 60000); [done|lia].
Qed.

(** Jail 17 runs in slot 3. *)
Lemma clean_sweeps_live_nat_rules_witness :
  In 50031 (AutoFw.pickOrphanIpfwRulesByJid (AutoFw.ipfwList [(50031, str "deny ip from 10.0.0.101 to me")]) [17]).
Proof.
  apply (clean_sweeps_live_nat_rules 3 1 [17] [(50031, str "deny ip from 10.0.0.101 to me")]); [lia|by left| |by left|].
  - constructor; [|constructor]. repeat split; try (vm_compute; discriminate); absent.
  - intros [E|[]]. vm_compute in E. discriminate.
Defined.
End NatRules.
