(* ===== verification/Profile.v ===== *)
(** * Profiles: lib/profile_pure.cpp

    [crate run <profile>] finds a spec by name, merges the operator's
    [<name>.local.yml] over it and builds a crate from the result.  This file
    has the names, the paths and what an override may not do; the merge is in
    ProfileMerge.v. *)

From S2P Require Import Prelude CStd UtilPure RunPure.

Module Profile.
Import CStd UtilPure.

Definition kLocalSuffix : bytes := str ".local".

Definition validateProfileName (name : bytes) : bytes :=
  match RunPure.validateJailName name with
  | [] =>
      reject (starts_with (str "-") name || starts_with (str ".") name) with
        (str "profile name '" ++ name ++ str "' must not start with '-' or '.'");
      reject ((size_z kLocalSuffix <? size_z name) && ends_with kLocalSuffix name) with
        (str "profile name '" ++ name ++ str "' must not end in '.local' (reserved for the <name>.local.yml override)");
      []
  | e => str "profile name '" ++ name ++ str "': " ++ e
         ++ str " (the profile name becomes the jail name; allowed: [A-Za-z0-9._-])"
  end.

Definition specSearchPaths (home name : bytes) : list bytes :=
  [home ++ str "/.config/crate/profiles/" ++ name ++ str ".yml";
   str "/usr/local/share/crate/profiles/" ++ name ++ str ".yml";
   str "/usr/local/share/examples/crate/" ++ name ++ str ".yml"].

Definition localOverridePath (home name : bytes) : bytes := home ++ str "/.config/crate/profiles/" ++ name ++ str ".local.yml".
Definition buildDir (home : bytes) : bytes := home ++ str "/.local/share/crate/profiles".
Definition cratePath (home name : bytes) : bytes := buildDir home ++ str "/" ++ name ++ str ".crate".
Definition mergedSpecPath (home name : bytes) : bytes := buildDir home ++ str "/" ++ name ++ str ".yml".

Definition forbiddenLocalKeys : list bytes :=
  [str "security_advanced"; str "dbus"; str "base"; str "scripts"; str "encrypted"; str "securelevel"; str "socket_proxy"].

Definition checkLocalTopLevelKey (key : bytes) : bytes :=
  if existsb (beq key) forbiddenLocalKeys then
    str "a .local override may not set '" ++ key ++ str "' (it could loosen the profile's "
    ++ str "isolation); put it in a copy of the profile under ~/.config/crate/profiles/ instead"
  else [].

(** The scan goes over what lies between slashes. *)
Definition hasDotDotComponent (p : bytes) : bool := existsb (beq (str "..")) (split_on "/" p).

Definition controlByte (c : ascii) : bool := (code c <? 0x20) || (code c =? 0x7f).

(** [while (h.size() > 1 && h.back() == '/') h.pop_back();] *)
Fixpoint dropSlashes (fuel : nat) (h : bytes) : bytes :=
  match fuel with
  | O => h
  | S f => if (1 <? size_z h) && backIs "/" h then dropSlashes f (removelast h) else h
  end.
Definition stripSlashes (h : bytes) : bytes := dropSlashes (length h) h.

Definition checkLocalShareHostPath (hostPath home : bytes) : bytes :=
  reject (is_empty hostPath) with str "share host path is empty";
  reject (existsb controlByte hostPath) with str "share host path contains a control character";
  reject (hasDotDotComponent hostPath) with (str "share host path '" ++ hostPath ++ str "' contains '..'");
  reject (starts_with (str "~") hostPath) with
    (str "share host path '" ++ hostPath ++ str "': crate does not expand '~', write $HOME");
  if starts_with (str "$HOME") hostPath && ((size_z hostPath =? 5) || starts_with (str "/") (drop 5 hostPath)) then []
  else
    reject (starts_with (str "$") hostPath) with (str "share host path '" ++ hostPath ++ str "': only $HOME is substituted");
    reject (negb (starts_with (str "/") hostPath)) with
      (str "share host path '" ++ hostPath ++ str "' must be absolute or start with $HOME");
    reject (is_empty home || negb (starts_with (str "/") home) || beq home (str "/")) with
      (str "share host path '" ++ hostPath ++ str "': cannot confine to an unknown home directory");
    let h := stripSlashes home in
    if beq hostPath h then []
    else if (size_z h <? size_z hostPath) && starts_with h hostPath && starts_with (str "/") (drop (length h) hostPath) then []
    else str "a .local override may only share directories under your home (" ++ h ++ str "); '"
         ++ hostPath ++ str "' is outside it".

Definition needsRebuild (crateMtime specMtime localMtime : Z) : bool :=
  (crateMtime <? 0) || (crateMtime <? specMtime) || ((0 <=? localMtime) && (crateMtime <? localMtime)).

(** ** Names *)

Lemma nameByte_plain c : RunPure.nameByte c = true -> negb (one_of (str " /$'`;&|<>" ++ [newline; tab; dquote]) c) = true.
Proof. revert c. by_bytes. Qed.

(** A valid name is a word: not an option, not a hidden file, and it has only
    letters, digits, dots, dashes and underscores. *)
Lemma profileName_ok name : validateProfileName name = [] ->
  RunPure.validateJailName name = [] /\ forallb RunPure.nameByte name = true
  /\ exists c t, name = c :: t /\ c <> "-"%char /\ c <> "."%char.
Proof.
  unfold validateProfileName. destruct (RunPure.validateJailName name) as [|a e] eqn:E; [|by intros H; cbn in H].
  intros H. ok_split H. destruct H as ((H1 & H2) & _). split; [done|].
  unfold RunPure.validateJailName in E. ok_split E. destruct E as (E1 & _ & _ & E). split; [done|].
  destruct name as [|c t]; [done|]. exists c, t. split; [done|]. cbn in H1, H2.
  split; intros ->; done.
Qed.

(** ** Where an override's shares may lie *)

Lemma stripSlashes_spec h : exists n, h = stripSlashes h ++ replicate n "/"%char.
Proof.
  unfold stripSlashes. generalize (length h) as f. intros f. revert h. induction f as [|f IH]; intros h; cbn [dropSlashes].
  - exists 0%nat. by rewrite app_nil_r.
  - destruct ((1 <? size_z h) && backIs "/" h) eqn:E; [|exists 0%nat; by rewrite app_nil_r].
    apply andb_true_iff in E as [_ (t & ->)%backIs_spec]. rewrite removelast_last.
    destruct (IH t) as [n Hn]. exists (S n). rewrite Hn at 1. rewrite <- app_assoc. f_equal.
    by rewrite <- replicate_cons_app.
Qed.

Lemma split_on_mid c a b : split_on c (a ++ c :: b) = split_on c a ++ split_on c b.
Proof.
  induction a as [|x a IH]; cbn [app split_on]; [by rewrite Ascii.eqb_refl|].
  rewrite IH. destruct (Ascii.eqb x c); [done|].
  pose proof (split_on_ne c a). by destruct (split_on c a).
Qed.

Lemma hasDotDot_app a b : hasDotDotComponent (a ++ "/"%char :: b) = hasDotDotComponent a || hasDotDotComponent b.
Proof. unfold hasDotDotComponent. by rewrite split_on_mid, existsb_app. Qed.

(** A path is a directory or lies below it, by its text. *)
Definition under (h p : bytes) : Prop := p = h \/ exists t, p = h ++ "/"%char :: t.

Lemma under_slashes h n t : under h (h ++ replicate n "/"%char ++ "/"%char :: t).
Proof. right. destruct n as [|n]; cbn; eauto. Qed.

(** An accepted share lies in the home directory once its variable is
    substituted, and no component of it leads upwards. *)
Lemma local_share_confined (p : PwEnt) (hostPath : bytes) :
  starts_with (str "/") (pw_dir p) = true -> hasDotDotComponent (pw_dir p) = false ->
  checkLocalShareHostPath hostPath (pw_dir p) = [] ->
  exists r, pathSubstituteVarsInPath (Some p) hostPath = Some r
    /\ under (stripSlashes (pw_dir p)) r /\ hasDotDotComponent r = false.
Proof.
  intros Habs Hup. unfold checkLocalShareHostPath. intros H.
  rewrite !reject_nil in H by (cbn; discriminate). destruct H as (_ & _ & Hdd & _ & H).
  destruct (stripSlashes_spec (pw_dir p)) as [n Hn]. unfold pathSubstituteVarsInPath.
  destruct (starts_with (str "$HOME") hostPath) eqn:Eh; cbn [andb] in H.
  - apply starts_with_spec in Eh as [t ->]. change (drop 5 (str "$HOME" ++ t)) with t in *. rewrite size_z_app in *.
    change (size_z (str "$HOME")) with 5 in *. pose proof (size_z_nonneg t).
    destruct ((5 + size_z t =? 5) || starts_with (str "/") t) eqn:Et; [|by rewrite reject_nil in H by (cbn; discriminate); destruct H].
    destruct (Z.leb_spec 5 (5 + size_z t)); [|lia]. cbn [andb option_map fmap]. eexists. split; [done|].
    apply orb_true_iff in Et as [Et|Et].
    + apply Z.eqb_eq in Et. assert (t = []) as -> by (apply size_z_nil; lia). rewrite app_nil_r. split; [|done].
      rewrite Hn at 2. destruct n as [|n]; [left; by rewrite app_nil_r|]. right. eexists. reflexivity.
    + apply starts_with_spec in Et as [u ->]. cbn [app str list_ascii_of_string] in *. split.
      * rewrite Hn at 2. rewrite <- app_assoc. apply under_slashes.
      * change (?a :: ?b :: ?c :: ?d :: ?e :: "/"%char :: u) with ([a; b; c; d; e] ++ "/"%char :: u) in Hdd.
        rewrite hasDotDot_app in Hdd. apply orb_false_iff in Hdd as [_ Hu]. by rewrite hasDotDot_app, Hup.
  - rewrite andb_false_r. cbn [andb]. rewrite !reject_nil in H by (cbn; discriminate). destruct H as (_ & _ & _ & H).
    eexists. split; [done|]. split; [|done]. destruct (beq_spec hostPath (stripSlashes (pw_dir p))) as [->|_]; [by left|].
    destruct (starts_with (stripSlashes (pw_dir p)) hostPath) eqn:Es; [|by rewrite andb_false_r in H].
    apply starts_with_spec in Es as [t ->]. rewrite drop_app_length in H.
    destruct (starts_with (str "/") t) eqn:Et; [|by rewrite andb_false_r in H]. apply starts_with_spec in Et as [u ->].
    right. by exists u.
Qed.
End Profile.
