(* ===== verification/Status.v ===== *)
(** * The lifecycle stream of a run: lib/status_pure.cpp, status_fd.cpp

    The lines, and both ends of the pipe they go through. *)

From S2P Require Import Prelude CStd OMap Wire.

(** ** The lifecycle stream of a run: lib/status_pure.cpp

    [crate run --status-fd N] writes one flat JSON object a line; [crate stack
    up] and crated read them back.  The cursor of the reader is the text it has
    not read yet. *)


Module Status.
Import CStd.

Definition kStarted : bytes := str "started".
Definition kJailCreated : bytes := str "jail_created".
Definition kNetReady : bytes := str "net_ready".
Definition kMountsReady : bytes := str "mounts_ready".
Definition kServicesStarted : bytes := str "services_started".
Definition kHealthy : bytes := str "healthy".
Definition kUnhealthy : bytes := str "unhealthy".
Definition kExecStarted : bytes := str "exec_started".
Definition kExited : bytes := str "exited".
Definition kFailed : bytes := str "failed".
Definition kTeardownDone : bytes := str "teardown_done".

Definition isTerminalEvent (event : bytes) : bool := beq event kExited || beq event kFailed.

(** ** Writing a line *)

Record Field := { key : bytes; value : bytes; number : bool }.

Definition text (k v : bytes) : Field := {| key := k; value := v; number := false |}.
Definition num (k : bytes) (v : Z) : Field := {| key := k; value := dec_signed v; number := true |}.
Definition boolean (k : bytes) (v : bool) : Field := {| key := k; value := if v then str "true" else str "false"; number := true |}.

Definition reserved (k : bytes) : bool := beq k (str "event") || beq k (str "ts").

Definition renderField (f : Field) : bytes :=
  str "," ++ Json.quote (key f) ++ str ":" ++ (if number f then value f else Json.quote (value f)).

Definition renderLine (event : bytes) (epochSec : Z) (fields : list Field) : bytes :=
  str "{" ++ Json.quote (str "event") ++ str ":" ++ Json.quote event ++ str "," ++ Json.quote (str "ts") ++ str ":" ++ dec_signed epochSec
  ++ flat_map (fun f => if reserved (key f) then [] else renderField f) fields
  ++ str "}" ++ [newline].

(** ** Reading a line *)

Record Event := { event : bytes; ts : Z; fields : list (bytes * bytes) }.

Definition get (e : Event) (k : bytes) : bytes := default [] (OMap.find k (fields e)).

(** [strtoll] over the whole text, without a range error. *)
Definition strtoll (v : bytes) : option Z :=
  match stolPos v with Some (n, p) => if (p =? length v)%nat then Some n else None | None => None end.

Definition getInt (e : Event) (k : bytes) : option Z :=
  match OMap.find k (fields e) with
  | None => None
  | Some v =>
      let digits := match v with c :: t => if Ascii.eqb c "-" then t else v | [] => [] end in
      if is_empty v || is_empty digits || negb (forallb is_digit digits) then None else strtoll v
  end.

Definition ws (s : bytes) : bytes := skipSpace s.
Definition peek (s : bytes) : ascii := match s with c :: _ => c | [] => nul end.

(** [parseString] after its opening quote. *)
Fixpoint parseChars (out s : bytes) : option (bytes * bytes) :=
  match s with
  | [] => None
  | ch :: t =>
      if Ascii.eqb ch dquote then Some (out, t)
      else if code ch <? 0x20 then None
      else if negb (Ascii.eqb ch Json.backslash) then parseChars (out ++ [ch]) t
      else match t with
      | [] => None
      | e :: t' =>
          if Ascii.eqb e dquote then parseChars (out ++ [dquote]) t'
          else if Ascii.eqb e Json.backslash then parseChars (out ++ [Json.backslash]) t'
          else if Ascii.eqb e "/" then parseChars (out ++ ["/"%char]) t'
          else if Ascii.eqb e "b" then parseChars (out ++ [chr 8]) t'
          else if Ascii.eqb e "f" then parseChars (out ++ [chr 12]) t'
          else if Ascii.eqb e "n" then parseChars (out ++ [newline]) t'
          else if Ascii.eqb e "r" then parseChars (out ++ [cr]) t'
          else if Ascii.eqb e "t" then parseChars (out ++ [tab]) t'
          else if Ascii.eqb e "u" then
            match t' with
            | h1 :: h2 :: h3 :: h4 :: t'' =>
                match Json.hexVal4 h1 h2 h3 h4 with
                | Some cp => if (0xD800 <=? cp) && (cp <=? 0xDFFF) then None else parseChars (out ++ Json.utf8 cp) t''
                | None => None
                end
            | _ => None
            end
          else None
      end
  end.

Definition parseString (s : bytes) : option (bytes * bytes) :=
  match s with c :: t => if Ascii.eqb c dquote then parseChars [] t else None | [] => None end.

(** A number or one of three words, kept as it is spelled. *)
Definition bareWord (s w : bytes) : option (bytes * bytes) := if starts_with w s then Some (w, drop (length w) s) else None.

Definition parseBare (s : bytes) : option (bytes * bytes) :=
  let '(pre, t) := if Ascii.eqb (peek s) "-" then (str "-", tail s) else ([], s) in
  if is_digit (peek t) then let '(digits, rest) := span is_digit t in Some (pre ++ digits, rest)
  else match bareWord s (str "true"), bareWord s (str "false"), bareWord s (str "null") with
       | Some r, _, _ | None, Some r, _ | None, None, Some r => Some r
       | None, None, None => None
       end.

(** One entry: its key, its value, whether that is a string, and the rest. *)
Definition parseEntry (s : bytes) : option (bytes * bytes * bool * bytes) :=
  match parseString (ws s) with
  | None => None
  | Some (k, s1) =>
      let s2 := ws s1 in
      if negb (Ascii.eqb (peek s2) ":") then None
      else let s3 := ws (tail s2) in
      let isString := Ascii.eqb (peek s3) dquote in
      match (if isString then parseString s3 else parseBare s3) with
      | Some (v, s4) => Some (k, v, isString, s4)
      | None => None
      end
  end.

Definition fresh : Event := {| event := []; ts := 0; fields := [] |}.

Record Reading := { ev : Event; haveEvent : bool; haveTs : bool }.

Definition store (r : Reading) (k v : bytes) (isString : bool) : option Reading :=
  let e := ev r in
  if beq k (str "event") then
    if negb isString || haveEvent r then None
    else Some {| ev := {| event := v; ts := ts e; fields := fields e |}; haveEvent := true; haveTs := haveTs r |}
  else if beq k (str "ts") then
    if isString || haveTs r then None
    else match strtoll v with
         | Some t => Some {| ev := {| event := event e; ts := t; fields := fields e |}; haveEvent := haveEvent r; haveTs := true |}
         | None => None
         end
  else if OMap.count k (fields e) then None
  else Some {| ev := {| event := event e; ts := ts e; fields := OMap.insert k v (fields e) |}; haveEvent := haveEvent r; haveTs := haveTs r |}.

(** The [for (;;)] loop; every round reads at least a quote. *)
Fixpoint entryLoop (fuel : nat) (r : Reading) (s : bytes) : option (Reading * bytes) :=
  match fuel with
  | O => None
  | S f =>
      match parseEntry s with
      | None => None
      | Some (k, v, isString, s1) =>
          match store r k v isString with
          | None => None
          | Some r' =>
              let s2 := ws s1 in
              if Ascii.eqb (peek s2) "," then entryLoop f r' (tail s2)
              else if Ascii.eqb (peek s2) "}" then Some (r', tail s2)
              else None
          end
      end
  end.

Definition parseLine (line : bytes) : option Event :=
  let s := ws line in
  if negb (Ascii.eqb (peek s) "{") then None
  else let s1 := ws (tail s) in
  if Ascii.eqb (peek s1) "}" then None
  else match entryLoop (S (length s1)) {| ev := fresh; haveEvent := false; haveTs := false |} s1 with
       | None => None
       | Some (r, rest) =>
           if negb (is_empty (ws rest)) then None
           else if negb (haveEvent r) || is_empty (event (ev r)) then None
           else Some (ev r)
       end.

(** ** Bytes to lines *)

Definition kMaxLine : Z := 64 * 1024.

Record LineBuffer := { buf : bytes; overflow : bool }.

(** The bytes up to the last newline (with it), and those behind it. *)
Fixpoint lastLine (s : bytes) : bytes * bytes :=
  match s with
  | [] => ([], [])
  | c :: t =>
      let '(a, b) := lastLine t in
      if Ascii.eqb c newline then (c :: a, b) else if is_empty a then ([], c :: b) else (c :: a, b)
  end.

Definition feedByte (b : LineBuffer) (ch : ascii) : LineBuffer :=
  if Ascii.eqb ch newline then
    if overflow b then {| buf := []; overflow := false |} else {| buf := buf b ++ [ch]; overflow := false |}
  else if overflow b then b
  else let '(lines, cur) := lastLine (buf b) in
    if kMaxLine <=? size_z cur then {| buf := lines; overflow := true |}
    else {| buf := buf b ++ [ch]; overflow := false |}.

Definition feed (b : LineBuffer) (data : bytes) : LineBuffer := fold_left feedByte data b.

Definition next (b : LineBuffer) : option bytes * LineBuffer :=
  match find_char newline (buf b) with
  | None => (None, b)
  | Some nl => (Some (take nl (buf b)), {| buf := drop (S nl) (buf b); overflow := overflow b |})
  end.

Definition flush (b : LineBuffer) : option bytes * LineBuffer :=
  match next b with
  | (Some line, b') => (Some line, b')
  | (None, _) =>
      if is_empty (buf b) || overflow b then (None, {| buf := []; overflow := false |})
      else (Some (buf b), {| buf := []; overflow := overflow b |})
  end.

(** ** The option and the command line *)

Definition parseStatusFd (s : bytes) : bytes + Z :=
  if is_empty s then inl (str "--status-fd needs a descriptor number")
  else if negb (forallb is_digit s) then inl (str "--status-fd: '" ++ s ++ str "' is not a descriptor number")
  else if 9 <? size_z s then inl (str "--status-fd: '" ++ s ++ str "' is out of range")
  else let v := dec_value s in
  if v <? 3 then
    inl (str "--status-fd: descriptor " ++ s ++ str " is stdin/stdout/stderr; use 3 or higher (e.g. `3>status.jsonl`)")
  else if 2 ^ 31 - 1 <? v then inl (str "--status-fd: '" ++ s ++ str "' is out of range")
  else inr v.

Definition crateRunArgv (runArgs : list bytes) (logProgress : bool) : list bytes :=
  [str "crate"] ++ (if logProgress then [str "--log-progress"] else []) ++ [str "run"] ++ runArgs ++ [str "--status-fd"; str "3"].

Example line_parsed :
  parseLine (renderLine kExited 1700000000 [num (str "code") (-1); text (str "reason") (str "killed " ++ [dquote; newline]); boolean (str "timed_out") true])
  = Some {| event := str "exited"; ts := 1700000000;
            fields := [(str "code", str "-1"); (str "reason", str "killed " ++ [dquote; newline]); (str "timed_out", str "true")] |}.
Proof. vm_compute. reflexivity. Qed.

(** ** The reader inverts the writer *)

Lemma parseChars_escape out c t : parseChars out (Json.escapeChar c ++ t) = parseChars (out ++ [c]) t.
Proof. destruct c as [[] [] [] [] [] [] [] []]; reflexivity. Qed.

Lemma parseString_quote s rest : parseString (Json.quote s ++ rest) = Some (s, rest).
Proof.
  unfold Json.quote. cbn [app parseString]. rewrite Ascii.eqb_refl, <- app_assoc. cbn [app].
  change s with ([] ++ s) at 2. generalize (@nil ascii) as out. unfold Json.escape. induction s as [|c s IH]; intros out; cbn [map concat app].
  - cbn [parseChars]. by rewrite Ascii.eqb_refl, app_nil_r.
  - rewrite <- app_assoc, parseChars_escape, IH. by rewrite <- app_assoc.
Qed.

(** What [num] and [boolean] write. *)
Definition spelled (v : bytes) : Prop := (exists n, v = dec_signed n) \/ v = str "true" \/ v = str "false".

Lemma dec_cons n : exists c t, dec n = c :: t /\ is_digit c = true /\ forallb is_digit t = true.
Proof.
  pose proof (dec_nonempty n). pose proof (dec_digits n) as D. unfold all_digits in D. destruct (dec n) as [|c t]; [done|].
  cbn [forallb] in D. apply andb_true_iff in D as [? ?]. eauto.
Qed.

Lemma peek_digits c t : is_digit c = true -> peek (c :: t) <> "-"%char /\ is_digit (peek (c :: t)) = true.
Proof. intros H. split; [by intros E; cbn in E; subst c|done]. Qed.

Lemma parseBare_spelled v c rest : spelled v -> is_digit c = false -> parseBare (v ++ c :: rest) = Some (v, c :: rest).
Proof.
  intros [[n ->]|[-> | ->]] Hc; [|reflexivity..]. unfold dec_signed, parseBare. destruct (dec_cons (if n <? 0 then - n else n)) as (d & t & E & Hd & Ht).
  destruct (n <? 0); rewrite E; cbn [app peek tail].
  - change (Ascii.eqb "-" "-") with true. cbn [peek]. rewrite Hd.
    change (d :: t ++ c :: rest) with ((d :: t) ++ c :: rest). rewrite span_stop by (cbn; by rewrite ?Hd, ?Ht). done.
  - destruct (Ascii.eqb_spec d "-") as [->|_]; [done|]. cbn [peek]. rewrite Hd.
    change (d :: t ++ c :: rest) with ((d :: t) ++ c :: rest). rewrite span_stop by (cbn; by rewrite ?Hd, ?Ht). done.
Qed.

Lemma strtoll_dec n : - 2 ^ 63 <= n < 2 ^ 63 -> strtoll (dec_signed n) = Some n.
Proof.
  intros Hn. unfold strtoll, dec_signed. destruct (Z.ltb_spec n 0) as [H|H].
  - unfold stolPos. change (sign (skipSpace ("-"%char :: ?s))) with (true, s). cbn iota beta. rewrite span_all by apply dec_digits.
    rewrite dec_value_dec by lia. unfold longMax, longMin. destruct (Z.ltb_spec (2 ^ 63 - 1) (- - n)); [lia|].
    destruct (Z.ltb_spec (- - n) (- 2 ^ 63)); [lia|]. pose proof (dec_nonempty (- n)). destruct (dec (- n)); [done|]. cbn [is_empty orb].
    rewrite Nat.sub_0_r, Nat.eqb_refl. f_equal. lia.
  - rewrite stolPos_digits; [|apply dec_digits|apply dec_nonempty|rewrite dec_value_dec; unfold longMax; lia].
    by rewrite Nat.eqb_refl, dec_value_dec.
Qed.

(** Every field a caller can make. *)
Definition made (f : Field) : Prop := number f = true -> spelled (value f).

Lemma made_text k v : made (text k v).
Proof. done. Qed.
Lemma made_num k n : made (num k n).
Proof. intros _. left. by exists n. Qed.
Lemma made_boolean k b : made (boolean k b).
Proof. intros _. right. destruct b; auto. Qed.
#[local] Hint Resolve made_text made_num made_boolean : core.

Definition fieldText (f : Field) : bytes := Json.quote (key f) ++ str ":" ++ (if number f then value f else Json.quote (value f)).

Lemma parseEntry_field f c rest : made f -> is_digit c = false ->
  parseEntry (fieldText f ++ c :: rest) = Some (key f, value f, negb (number f), c :: rest).
Proof.
  intros Hm Hc. unfold fieldText, parseEntry. rewrite <- !app_assoc. change (ws (Json.quote ?k ++ ?r)) with (Json.quote k ++ r).
  rewrite parseString_quote. change (ws (str ":" ++ ?r)) with (str ":" ++ r). cbn [app str list_ascii_of_string peek tail].
  change (negb (Ascii.eqb ":" ":")) with false. cbn iota. destruct (number f) eqn:En; cbn [negb].
  - specialize (Hm En). assert (E : ws (value f ++ c :: rest) = value f ++ c :: rest /\ Ascii.eqb (peek (value f ++ c :: rest)) dquote = false).
    { destruct Hm as [[n ->]|[-> | ->]]; [|done..]. destruct (dec_cons (if n <? 0 then - n else n)) as (d & t & E & Hd & _).
      unfold dec_signed. destruct (n <? 0); rewrite E; [done|]. cbn [app]. unfold ws. cbn [skipSpace peek].
      rewrite is_digit_not_space by done. split; [done|]. apply Ascii.eqb_neq. by intros ->. }
    destruct E as [-> ->]. by rewrite parseBare_spelled.
  - change (ws (Json.quote ?k ++ ?r)) with (Json.quote k ++ r). change (Ascii.eqb (peek (Json.quote ?k ++ ?r)) dquote) with true.
    cbn iota. by rewrite parseString_quote.
Qed.

Fixpoint storeAll (r : Reading) (l : list Field) : option Reading :=
  match l with
  | [] => Some r
  | f :: l => match store r (key f) (value f) (negb (number f)) with Some r' => storeAll r' l | None => None end
  end.

Lemma entryLoop_fields fuel r r' f l rest :
  (length l < fuel)%nat -> made f -> Forall made l -> storeAll r (f :: l) = Some r' ->
  entryLoop fuel r (fieldText f ++ flat_map (fun g => "," %char :: fieldText g) l ++ "}"%char :: rest) = Some (r', rest).
Proof.
  revert r f l. induction fuel as [|fuel IH]; intros r f l Hf Hm Hl Hs; [lia|]. cbn [entryLoop storeAll] in *.
  destruct l as [|g l]; cbn [flat_map app].
  - rewrite parseEntry_field by done. destruct (store _ _ _ _) as [r1|]; [|done]. cbn [storeAll] in Hs. by injection Hs as ->.
  - rewrite parseEntry_field by done. destruct (store _ _ _ _) as [r1|]; [|done]. cbn [storeAll] in Hs.
    change (ws ("," %char :: ?s)) with ("," %char :: s). cbn [peek tail]. change (Ascii.eqb "," ",") with true. cbn iota.
    rewrite <- app_assoc. apply Forall_cons in Hl as [Hg Hl]. apply IH; [cbn in Hf; lia|done..].
Qed.

Definition collected (l : list Field) (m : list (bytes * bytes)) : list (bytes * bytes) :=
  fold_left (fun m f => OMap.insert (key f) (value f) m) l m.

Lemma storeAll_fields l e b c : OMap.wf (fields e) -> Forall (fun f => reserved (key f) = false) l -> NoDup (map key l) ->
  (forall f, In f l -> OMap.find (key f) (fields e) = None) ->
  storeAll {| ev := e; haveEvent := b; haveTs := c |} l
  = Some {| ev := {| event := event e; ts := ts e; fields := collected l (fields e) |}; haveEvent := b; haveTs := c |}.
Proof.
  revert e. induction l as [|f l IH]; intros e W Hr Hn Hf; [by destruct e|].
  apply Forall_cons in Hr as [Hr Hrl]. cbn [map] in Hn. apply NoDup_cons in Hn as [Hx Hn]. cbn [storeAll]. unfold store.
  unfold reserved in Hr. apply orb_false_iff in Hr as [-> ->]. cbn [ev]. unfold OMap.count. rewrite Hf by (by left).
  rewrite IH; cbn [fields event ts]; [done|by apply OMap.wf_insert|done|done|]. intros g Hg. rewrite OMap.find_insert by done.
  rewrite decide_False; [by apply Hf; right|]. intros E. apply Hx. rewrite <- E. by apply list_elem_of_In, in_map.
Qed.

(** A line without its newline. *)
Definition lineText (e : bytes) (t : Z) (l : list Field) : bytes :=
  "{"%char :: fieldText (text (str "event") e)
    ++ flat_map (fun g => "," %char :: fieldText g) (num (str "ts") t :: List.filter (fun f => negb (reserved (key f))) l) ++ ["}"%char].

Lemma renderLine_text e t l : renderLine e t l = lineText e t l ++ [newline].
Proof.
  assert (E : flat_map (fun f => if reserved (key f) then [] else renderField f) l
    = flat_map (fun g => "," %char :: fieldText g) (List.filter (fun f => negb (reserved (key f))) l)).
  { induction l as [|f l IH]; [done|]. cbn [flat_map List.filter]. rewrite IH. by destruct (reserved (key f)). }
  unfold renderLine, lineText. rewrite E. cbn [flat_map]. generalize (flat_map (fun g => "," %char :: fieldText g) (List.filter (fun f => negb (reserved (key f))) l)) as r.
  intros r. unfold fieldText. cbn [text num key value number]. repeat (rewrite <- app_assoc || cbn [app]). done.
Qed.

(** What is read back from a written line: the event, the time and the fields
    as text, whatever bytes the texts hold; with or without its newline. *)
Lemma status_line_roundtrip (e : bytes) (t : Z) (l : list Field) (rest : bytes) :
  e <> [] -> - 2 ^ 63 <= t < 2 ^ 63 -> Forall made l ->
  NoDup (map key (List.filter (fun f => negb (reserved (key f))) l)) -> ws rest = [] ->
  parseLine (lineText e t l ++ rest)
  = Some {| event := e; ts := t; fields := collected (List.filter (fun f => negb (reserved (key f))) l) [] |}.
Proof.
  intros He Ht Hm Hn Hw. unfold lineText. set (k := List.filter _ l) in *. unfold parseLine. cbn [app]. rewrite <- !app_assoc. cbn [app].
  change (ws ("{"%char :: ?s)) with ("{"%char :: s).
  cbn [peek tail]. change (negb (Ascii.eqb "{" "{")) with false. cbn iota.
  change (ws (fieldText (text (str "event") e) ++ ?s)) with (fieldText (text (str "event") e) ++ s).
  change (Ascii.eqb (peek (fieldText (text (str "event") e) ++ ?s)) "}") with false. cbn iota.
  erewrite entryLoop_fields; [| | |apply Forall_cons; split; [done|apply List.Forall_forall; intros f [Hf _]%filter_In; by eapply List.Forall_forall in Hm]|].
  4: { cbn [storeAll]. unfold store at 1. cbn [text num key value number negb ev haveEvent haveTs orb]. rewrite beq_refl. cbn [storeAll ev haveEvent haveTs].
       unfold store at 1. cbn [text num key value number negb ev haveEvent haveTs orb fresh event ts fields].
       change (beq (str "ts") (str "event")) with false. rewrite beq_refl, strtoll_dec by done. cbn [event ts fields].
       apply storeAll_fields; cbn [fields]; [apply OMap.wf_nil| |done|done].
       apply Forall_forall. intros f Hf%list_elem_of_In. apply filter_In in Hf as [_ Hf]. by apply negb_true_iff. }
  2: { assert (H : (length k <= length (flat_map (fun g => "," %char :: fieldText g) k))%nat).
       { clearbody k. clear. induction k as [|g k IH]; cbn [flat_map length app]; [done|]. rewrite length_app. lia. }
       cbn [length flat_map]. rewrite !length_app. cbn [length app]. rewrite ?length_app. lia. }
  2: done.
  rewrite Hw. cbn [is_empty negb haveEvent ev event ts fields orb].
  apply is_empty_false in He. by rewrite He.
Qed.

(** ** Lines out of chunks *)

Definition short (l : bytes) : bool := size_z l <=? kMaxLine.
Definition unlines (ls : list bytes) : bytes := flat_map (fun l => l ++ [newline]) ls.

Lemma lastLine_none p : ~ In newline p -> lastLine p = ([], p).
Proof.
  induction p as [|c p IH]; intros H; [done|]. cbn [lastLine]. rewrite IH by (intros ?; apply H; by right).
  destruct (Ascii.eqb_spec c newline) as [->|_]; [by destruct H; left|done].
Qed.

Lemma lastLine_app a p : ~ In newline p -> lastLine (a ++ newline :: p) = (a ++ [newline], p).
Proof.
  intros H. induction a as [|c a IH]; cbn [app lastLine]; [by rewrite lastLine_none|]. rewrite IH.
  destruct (Ascii.eqb c newline); [done|]. by destruct a.
Qed.

Lemma lastLine_unlines ls p : ~ In newline p -> lastLine (unlines ls ++ p) = (unlines ls, p).
Proof.
  intros H. destruct ls as [|l ls _] using rev_ind; [by apply lastLine_none|].
  unfold unlines. rewrite flat_map_app. cbn [flat_map]. rewrite app_nil_r, app_assoc, <- (app_assoc _ [newline]).
  by apply lastLine_app.
Qed.

(** The buffer after [done] complete lines of a chunk and a partial one, when a
    line that is too long can only be the first. *)
Record mid (done : list bytes) (p : bytes) (b : LineBuffer) : Prop := {
  m_buf : buf b = unlines (List.filter short done) ++ (if short p then p else []);
  m_over : overflow b = negb (short p);
  m_part : ~ In newline p;
  m_done : Forall (fun l => ~ In newline l) done }.

Lemma feedByte_plain done p b c : mid done p b -> c <> newline -> mid done (p ++ [c]) (feedByte b c).
Proof.
  intros [Hb Ho Hp Hd] Hc. unfold feedByte. apply Ascii.eqb_neq in Hc as Hc'. rewrite Hc', Ho.
  assert (Hp' : ~ In newline (p ++ [c])) by (rewrite in_app_iff; intros [?|[?|[]]]; [by apply Hp|congruence]).
  assert (Hz : size_z (p ++ [c]) = size_z p + 1) by (by rewrite size_z_app).
  destruct (short p) eqn:E; cbn [negb].
  - rewrite Hb, lastLine_unlines by done. destruct (Z.leb_spec kMaxLine (size_z p)).
    + assert (short (p ++ [c]) = false) as S by (apply Z.leb_gt; lia).
      constructor; cbn [buf overflow]; rewrite ?S; [by rewrite app_nil_r|done..].
    + assert (short (p ++ [c]) = true) as S by (apply Z.leb_le; lia).
      constructor; cbn [buf overflow]; rewrite ?S; [by rewrite app_assoc|done..].
  - assert (short (p ++ [c]) = false) as S by (apply Z.leb_gt in E; apply Z.leb_gt; lia).
    constructor; rewrite ?S; done.
Qed.

Lemma feedByte_mid done p b c :
  mid done p b -> (done = [] \/ short p = true) ->
  (c = newline -> mid (done ++ [p]) [] (feedByte b c)) /\ (c <> newline -> mid done (p ++ [c]) (feedByte b c)).
Proof.
  intros M Hs. split; [|by apply feedByte_plain]. destruct M as [Hb Ho Hp Hd]. intros ->.
  unfold feedByte. rewrite Ascii.eqb_refl, Ho. destruct (short p) eqn:E; cbn [negb].
  - constructor; cbn [buf overflow]; [|done|by intros []|by apply Forall_app_2; [|apply Forall_singleton]].
    rewrite Hb, List.filter_app. unfold unlines. rewrite flat_map_app. cbn [List.filter]. rewrite E. cbn [flat_map]. by rewrite !app_nil_r, <- app_assoc.
  - destruct Hs as [->|]; [|done]. constructor; cbn [buf overflow app]; [|done|by intros []|by apply Forall_singleton].
    cbn [List.filter]. by rewrite E.
Qed.

(** The lines a text completes and the one it leaves, after a partial line. *)
Fixpoint cut (p : bytes) (s : bytes) : list bytes * bytes :=
  match s with
  | [] => ([], p)
  | c :: t => if Ascii.eqb c newline then let '(ls, q) := cut [] t in (p :: ls, q) else cut (p ++ [c]) t
  end.

Lemma feed_mid done p b data :
  mid done p b -> (done = [] /\ size_z data <= kMaxLine + 1 \/ size_z p + size_z data <= kMaxLine) ->
  let '(ls, q) := cut p data in mid (done ++ ls) q (feed b data).
Proof.
  revert done p b. induction data as [|c t IH]; intros done p b M Hs; cbn [cut feed fold_left].
  { by rewrite app_nil_r. }
  fold (feed (feedByte b c) t). rewrite size_z_cons in Hs. pose proof (size_z_nonneg t).
  destruct (feedByte_mid done p b c M) as [H1 H2].
  { destruct Hs as [[-> _]|Hs]; [by left|right]. apply Z.leb_le. lia. }
  destruct (Ascii.eqb_spec c newline) as [->|Hc].
  - specialize (IH _ _ _ (H1 eq_refl)). destruct (cut [] t) as [ls q]. rewrite <- app_assoc in IH. apply IH.
    right. change (size_z []) with 0. pose proof (size_z_nonneg p). destruct Hs as [[_ ?]|?]; lia.
  - apply IH; [by apply H2|]. rewrite size_z_app. change (size_z [c]) with 1. destruct Hs as [[-> ?]|?]; [left; split; [done|lia]|right; lia].
Qed.

(** [while (lines.next(line))] *)
Fixpoint drain (fuel : nat) (b : LineBuffer) : list bytes * LineBuffer :=
  match fuel with
  | O => ([], b)
  | S f => match next b with (Some l, b') => let '(ls, b2) := drain f b' in (l :: ls, b2) | (None, _) => ([], b) end
  end.
Definition drainAll (b : LineBuffer) : list bytes * LineBuffer := drain (S (length (buf b))) b.

Lemma drain_unlines fuel ls q o : (length ls < fuel)%nat -> Forall (fun l => ~ In newline l) ls -> ~ In newline q ->
  drain fuel {| buf := unlines ls ++ q; overflow := o |} = (ls, {| buf := q; overflow := o |}).
Proof.
  revert ls. induction fuel as [|f IH]; intros ls Hf Hl Hq; [lia|]. cbn [drain]. unfold next. destruct ls as [|l ls]; cbn [unlines flat_map app buf].
  - apply find_char_None in Hq. by rewrite Hq.
  - apply Forall_cons in Hl as [Hl Hls]. rewrite <- !app_assoc. cbn [app]. rewrite find_char_app by done. cbn [overflow].
    rewrite take_app_length. replace (S (length l)) with (length (l ++ [newline])) by (rewrite length_app; cbn; lia).
    change (newline :: flat_map ?g ls ++ q) with ([newline] ++ (flat_map g ls ++ q)). rewrite app_assoc, drop_app_length.
    fold (unlines ls). rewrite IH; [done|cbn in Hf; lia|done|done].
Qed.

Lemma drainAll_mid done q b : mid done q b ->
  exists b', drainAll b = (List.filter short done, b') /\ mid [] q b'.
Proof.
  intros [Hb Ho Hq Hd]. exists {| buf := if short q then q else []; overflow := negb (short q) |}. split.
  - unfold drainAll. destruct b as [u o]. cbn [buf overflow] in *. subst u o. apply drain_unlines.
    + assert (H : (length (List.filter short done) <= length (unlines (List.filter short done)))%nat).
      { generalize (List.filter short done). clear. intros l. induction l as [|x l IH]; cbn; [done|].
        rewrite !length_app. cbn. unfold unlines in IH. lia. }
      rewrite length_app. lia.
    + apply List.Forall_forall. intros l [Hl _]%filter_In. by eapply List.Forall_forall in Hd.
    + destruct (short q); [done|by intros []].
  - by constructor.
Qed.

(** A line that is too long takes the complete lines before it along, when all
    arrive before the buffer is drained. *)
Lemma oversize_drops_earlier_lines (l long : bytes) :
  ~ In newline l -> short l = true -> ~ In newline long -> short long = false ->
  next (feed {| buf := []; overflow := false |} (l ++ [newline] ++ long ++ [newline])) = (None, {| buf := []; overflow := false |}).
Proof.
  intros Hl Sl Hg Sg.
  assert (P : forall s done p b, mid done p b -> ~ In newline s -> mid done (p ++ s) (feed b s)).
  { clear. induction s as [|c s IH]; intros done p b M Hn; [by rewrite app_nil_r|].
    assert (M' : mid done (p ++ [c]) (feedByte b c)).
    { apply feedByte_plain; [done|]. intros ->. apply Hn. by left. }
    specialize (IH _ _ _ M'). rewrite <- app_assoc in IH. apply IH. intros ?. apply Hn. by right. }
  assert (M0 : mid [] [] {| buf := []; overflow := false |}) by (constructor; [done|done|by intros []|constructor]).
  unfold feed. rewrite !fold_left_app. fold (feed {| buf := []; overflow := false |} l). pose proof (P l _ _ _ M0 Hl) as M1.
  cbn [fold_left]. destruct (feedByte_mid _ _ _ newline M1 (or_introl eq_refl)) as [M2 _]. specialize (M2 eq_refl).
  fold (feed (feedByte (feed {| buf := []; overflow := false |} l) newline) long). pose proof (P long _ _ _ M2 Hg) as [_ Ho _ _].
  cbn [app] in Ho. unfold feedByte at 1. rewrite Ascii.eqb_refl, Ho, Sg. done.
Qed.
End Status.

(** ** Both ends of the status pipe: lib/status_fd.cpp

    [Writer] is the side of [crate run], [waitForJail] the side of [crate stack
    up] and crated.  What the kernel answers is an argument: the results of
    [write(2)] for a line, and what each round of the reader's loop sees until
    its deadline. *)


Module StatusFd.
Import Status.

(** ** The writer *)

Record Writer := { fd : Z; terminalSent : bool }.

(** [open]: [flags] is what [fcntl(F_GETFD)] returned, [reason] its error. *)
Definition openWriter (w : Writer) (flags : Z) (reason : bytes) : bytes * Writer :=
  if fd w <? 0 then ([], w)
  else if flags <? 0 then
    (str "--status-fd " ++ dec_signed (fd w) ++ str ": not an open descriptor (" ++ reason
     ++ str "); the caller has to open it, e.g. `3>status.jsonl`", {| fd := -1; terminalSent := terminalSent w |})
  else ([], w).

Inductive WriteResult := Wrote (n : nat) | WriteInterrupted | WriteFailed.

(** The [while (off < line.size())] loop over the answers of [write(2)]: what
    reached the pipe and whether it failed.  [None]: the last call has not
    returned. *)
Fixpoint writeLoop (line : bytes) (io : list WriteResult) : option (bytes * bool) :=
  match line with
  | [] => Some ([], false)
  | _ =>
      match io with
      | [] => None
      | WriteInterrupted :: io => writeLoop line io
      | WriteFailed :: _ => Some ([], true)
      | Wrote n :: io =>
          match writeLoop (drop n line) io with
          | Some (out, failed) => Some (take n line ++ out, failed)
          | None => None
          end
      end
  end.

Definition emit (w : Writer) (now : Z) (event : bytes) (fields : list Field) (io : list WriteResult) : option (bytes * Writer) :=
  if fd w <? 0 then Some ([], w)
  else if isTerminalEvent event && terminalSent w then Some ([], w)
  else
    match writeLoop (renderLine event now fields) io with
    | None => None
    | Some (out, failed) =>
        Some (out, {| fd := if failed then -1 else fd w; terminalSent := terminalSent w || isTerminalEvent event |})
    end.

(** ** The reader *)

Inductive Wait := JailCreated | Exited | Failed | Eof | ChildGone | Timeout.

(** What one round finds: [poll] fails, times out (and whether the child is
    gone by then), or there is something to read. *)
Inductive Round :=
  | PollInterrupted | PollFailed | Idle (gone : bool)
  | ReadInterrupted | ReadFailed | EndOfStream (gone : bool) | Chunk (data : bytes).

Definition decisive (line : bytes) : option (Wait * Event) :=
  match parseLine line with
  | None => None
  | Some e =>
      if beq (event e) kJailCreated then Some (JailCreated, e)
      else if beq (event e) kExited then Some (Exited, e)
      else if beq (event e) kFailed then Some (Failed, e)
      else None
  end.

Fixpoint firstDecisive (lines : list bytes) : option (Wait * Event) :=
  match lines with
  | [] => None
  | l :: ls => match decisive l with Some r => Some r | None => firstDecisive ls end
  end.

(** [rounds] ends at the deadline. *)
Fixpoint waitLoop (pid : Z) (b : LineBuffer) (rounds : list Round) : Wait * option Event :=
  match rounds with
  | [] => (Timeout, None)
  | (PollInterrupted | ReadInterrupted) :: r => waitLoop pid b r
  | (PollFailed | ReadFailed) :: _ => (Eof, None)
  | Idle gone :: r => if (0 <? pid) && gone then (ChildGone, None) else waitLoop pid b r
  | Chunk data :: r =>
      let '(lines, b') := drainAll (feed b data) in
      match firstDecisive lines with
      | Some (w, e) => (w, Some e)
      | None => waitLoop pid b' r
      end
  | EndOfStream gone :: _ =>
      let '(tail, b1) := flush b in
      let b2 := match tail with Some t => feed b1 (t ++ [newline]) | None => b1 end in
      match firstDecisive (fst (drainAll b2)) with
      | Some (w, e) => (w, Some e)
      | None => (if (0 <? pid) && gone then ChildGone else Eof, None)
      end
  end.

Definition waitForJail (f pid : Z) (rounds : list Round) : Wait * option Event :=
  if f <? 0 then (Eof, None) else waitLoop pid {| buf := []; overflow := false |} rounds.

Definition describe (w : Wait) (e : Event) : bytes :=
  match w with
  | JailCreated => str "jail " ++ get e (str "name") ++ str " created (jid " ++ get e (str "jid") ++ str ")"
  | Exited => str "the run ended before its jail was up (exit code " ++ get e (str "code") ++ str ", " ++ get e (str "reason") ++ str ")"
  | Failed => str "crate run failed: " ++ get e (str "error")
  | Eof => str "the status stream closed before the jail was created"
  | ChildGone => str "crate run exited before its jail was created"
  | Timeout => str "no jail within the time limit"
  end.

(** ** The writer's promise *)

Lemma writeLoop_prefix line io out failed : writeLoop line io = Some (out, failed) ->
  (failed = false -> out = line) /\ exists t, line = out ++ t.
Proof.
  revert line out. induction io as [|r io IH]; intros line out; cbn [writeLoop].
  - destruct line; [|done]. intros [= <- <-]. split; [done|by exists []].
  - destruct line as [|c line]; [intros [= <- <-]; split; [done|by exists []]|]. destruct r as [n| |].
    + destruct (writeLoop (drop n (c :: line)) io) as [[o f]|] eqn:E; [|done]. intros [= <- <-]. apply IH in E as [Hf (t & Ht)].
      split; [intros Hff; rewrite Hf by done; apply take_drop|]. exists t. rewrite <- app_assoc, <- Ht. symmetry. apply take_drop.
    + apply IH.
    + intros [= <- <-]. split; [done|by exists (c :: line)].
Qed.

(** ** Lines of a stream *)

Lemma cut_app p a b :
  cut p (a ++ b) = let '(l1, q1) := cut p a in let '(l2, q2) := cut q1 b in (l1 ++ l2, q2).
Proof.
  revert p. induction a as [|c a IH]; intros p; cbn [app cut]; [by destruct (cut p b)|].
  destruct (Ascii.eqb c newline); [|apply IH]. rewrite IH. destruct (cut [] a) as [l1 q1]. by destruct (cut q1 b).
Qed.

Lemma cut_line p l s : ~ In newline l -> cut p (l ++ newline :: s) = let '(ls, q) := cut [] s in ((p ++ l) :: ls, q).
Proof.
  revert p. induction l as [|c l IH]; intros p H; cbn [app cut]; [by rewrite app_nil_r|].
  destruct (Ascii.eqb_spec c newline) as [->|_]; [by destruct H; left|].
  rewrite IH by (intros ?; apply H; by right). by rewrite <- app_assoc.
Qed.

Lemma cut_unlines ls : Forall (fun l => ~ In newline l) ls -> cut [] (unlines ls) = (ls, []).
Proof.
  induction 1 as [|l ls Hl _ IH]; [done|]. unfold unlines. cbn [flat_map]. rewrite <- app_assoc. cbn [app].
  rewrite cut_line by done. fold (unlines ls). by rewrite IH.
Qed.

Definition calm (r : Round) : Prop :=
  match r with
  | PollInterrupted | ReadInterrupted | Idle false => True
  | Chunk data => size_z data <= 4096
  | _ => False
  end.

Definition dataOf (rounds : list Round) : bytes := flat_map (fun r => match r with Chunk d => d | _ => [] end) rounds.

(** While nothing fails, the reader decides by the short lines of what it has
    read so far, however the reads cut it up. *)
Lemma waitLoop_calm pid q b rounds rest : mid [] q b -> Forall calm rounds ->
  let '(ls, q') := cut q (dataOf rounds) in
  match firstDecisive (List.filter short ls) with
  | Some (w, e) => waitLoop pid b (rounds ++ rest) = (w, Some e)
  | None => exists b', mid [] q' b' /\ waitLoop pid b (rounds ++ rest) = waitLoop pid b' rest
  end.
Proof.
  revert q b. induction rounds as [|r rounds IH]; intros q b M Hc; cbn [dataOf flat_map cut app]; [by exists b|].
  apply Forall_cons in Hc as [Hr Hc]. fold (dataOf rounds). cbn [waitLoop].
  destruct r as [| |g| | |g|d]; try done; cbn [app]; try (by apply IH).
  { destruct g; [done|]. rewrite andb_false_r. by apply IH. }
  rewrite cut_app. pose proof (feed_mid [] q b d M) as Hm. cbn in Hr. specialize (Hm ltac:(left; split; [done|unfold kMaxLine; lia])).
  destruct (cut q d) as [l1 q1] eqn:E1. cbn [app] in Hm. apply drainAll_mid in Hm as (b' & -> & M').
  specialize (IH _ _ M' Hc). destruct (cut q1 (dataOf rounds)) as [l2 q2]. rewrite List.filter_app.
  assert (A : forall x y, firstDecisive (x ++ y) = match firstDecisive x with Some r => Some r | None => firstDecisive y end).
  { clear. induction x as [|l x IH]; intros y; cbn; [done|]. rewrite IH. by destruct (decisive l). }
  rewrite A. by destruct (firstDecisive (List.filter short l1)) as [[]|].
Qed.

(** ** What a run says is what its parent hears *)

Lemma quote_line s : ~ In newline (Json.quote s).
Proof.
  unfold Json.quote. intros [H|H]; [by vm_compute in H|]. apply in_app_iff in H as [H|[H|[]]]; [|by vm_compute in H].
  unfold Json.escape in H. apply in_concat in H as (w & Hw & Hn). apply in_map_iff in Hw as (c & <- & _).
  apply has_char_In in Hn. assert (E : negb (has_char newline (Json.escapeChar c)) = true) by (revert c Hn; intros c _; revert c; apply ascii_forall; vm_compute; reflexivity).
  by rewrite Hn in E.
Qed.

Lemma spelled_line v : spelled v -> ~ In newline v.
Proof.
  intros [[n ->]|[-> | ->]]; [|absent..]. unfold dec_signed. destruct (n <? 0); [intros [H|H]; [by vm_compute in H|]|intros H];
    by apply dec_not_In in H.
Qed.

Lemma fieldText_line f : made f -> ~ In newline (fieldText f).
Proof.
  intros Hm. unfold fieldText. rewrite !in_app_iff. intros [H|[H|H]]; [by apply quote_line in H|by vm_compute in H; destruct H|].
  destruct (number f) eqn:E; [by apply spelled_line in H; auto|by apply quote_line in H].
Qed.

(** An event as [emit] writes it. *)
Record Emitted := { em_event : bytes; em_ts : Z; em_fields : list Field }.

Definition kept (l : list Field) : list Field := List.filter (fun f => negb (reserved (key f))) l.

Record wellFormed (e : Emitted) : Prop := {
  wf_event : em_event e <> [];
  wf_ts : - 2 ^ 63 <= em_ts e < 2 ^ 63;
  wf_fields : Forall made (em_fields e);
  wf_keys : NoDup (map key (kept (em_fields e)));
  wf_short : size_z (renderLine (em_event e) (em_ts e) (em_fields e)) <= kMaxLine }.

Definition textOf (e : Emitted) : bytes := lineText (em_event e) (em_ts e) (em_fields e).
Definition heard (e : Emitted) : Event := {| event := em_event e; ts := em_ts e; fields := collected (kept (em_fields e)) [] |}.

Lemma textOf_line e : wellFormed e -> ~ In newline (textOf e).
Proof.
  intros [_ _ Hf _ _]. unfold textOf, lineText. cbn [flat_map]. intros [H|H]; [by vm_compute in H|]. rewrite in_app_iff in H.
  destruct H as [H|H]; [by apply fieldText_line in H; auto using made_text|]. rewrite in_app_iff in H.
  destruct H as [[H|H]|H]; [by vm_compute in H| |by vm_compute in H; destruct H as [?|[]]].
  rewrite in_app_iff in H. destruct H as [H|H]; [by apply fieldText_line in H; auto using made_num|].
  apply in_flat_map in H as (f & Hin & [H|H]); [by vm_compute in H|]. apply filter_In in Hin as [Hin _].
  apply fieldText_line in H; [done|]. by eapply List.Forall_forall in Hf.
Qed.

Lemma textOf_parsed e : wellFormed e -> parseLine (textOf e) = Some (heard e).
Proof. intros []. unfold textOf. rewrite <- (app_nil_r (lineText _ _ _)). by rewrite status_line_roundtrip. Qed.

Lemma textOf_short e : wellFormed e -> short (textOf e) = true.
Proof. intros W. apply Z.leb_le. pose proof (wf_short e W) as H. rewrite renderLine_text, size_z_app in H. unfold textOf. change (size_z [newline]) with 1 in H. lia. Qed.

Definition streamOf (es : list Emitted) : bytes := flat_map (fun e => renderLine (em_event e) (em_ts e) (em_fields e)) es.

Lemma streamOf_unlines es : streamOf es = unlines (map textOf es).
Proof. unfold streamOf, unlines. induction es as [|e es IH]; cbn [flat_map map]; [done|]. by rewrite IH, renderLine_text. Qed.

(** The outcome an event stands for. *)
Definition outcome (e : bytes) : option Wait :=
  if beq e kJailCreated then Some JailCreated else if beq e kExited then Some Exited else if beq e kFailed then Some Failed else None.

Lemma decisive_textOf e : wellFormed e -> decisive (textOf e) = (fun w => (w, heard e)) <$> outcome (em_event e).
Proof.
  intros W. unfold decisive, outcome. rewrite textOf_parsed by done. cbn [heard event]. by repeat case_match.
Qed.

(** C17: what a detached run reports is what its parent hears: when the bytes
    that arrive are those of well-formed events, however reads, signals and idle
    rounds cut them up, waiting for the jail returns the first event that is
    jail_created, exited or failed, with the time and all the fields it was
    written with; events before it are passed over and later ones ignored. *)
Theorem parent_hears_first_decisive (f pid : Z) (before after : list Emitted) (e : Emitted) (w : Wait) (rounds rest : list Round) :
  0 <= f -> Forall wellFormed (before ++ e :: after) ->
  Forall (fun x => outcome (em_event x) = None) before -> outcome (em_event e) = Some w ->
  Forall calm rounds -> dataOf rounds = streamOf (before ++ e :: after) ->
  waitForJail f pid (rounds ++ rest) = (w, Some (heard e)).
Proof.
  intros Hf Hw Hb He Hc Hd. unfold waitForJail. destruct (Z.ltb_spec f 0); [lia|].
  assert (M : mid [] [] {| buf := []; overflow := false |}) by (constructor; [done|done|by intros []|constructor]).
  pose proof (waitLoop_calm pid [] _ rounds rest M Hc) as H1. rewrite Hd, streamOf_unlines, cut_unlines in H1.
  2: { apply List.Forall_forall. intros l (x & <- & Hx)%in_map_iff. apply textOf_line. by eapply List.Forall_forall in Hw. }
  assert (firstDecisive (List.filter short (map textOf (before ++ e :: after))) = Some (w, heard e)) as E; [|by rewrite E in H1].
  clear -Hw Hb He. induction before as [|x before IH]; cbn [app map List.filter] in *; apply Forall_cons in Hw as [Hx Hw]; rewrite textOf_short by done; cbn [firstDecisive];
    rewrite decisive_textOf by done.
  - by rewrite He.
  - apply Forall_cons in Hb as [-> Hb]. by apply IH.
Qed.

(** A run that starts, creates its jail and ends, heard in two pieces. *)
Definition sampleRun : list Emitted :=
  [{| em_event := kStarted; em_ts := 1700000000; em_fields := [num (str "pid") 4711; text (str "name") (str "web")] |};
   {| em_event := kJailCreated; em_ts := 1700000001; em_fields := [num (str "jid") 17; text (str "name") (str "web_pid4711")] |};
   {| em_event := kExited; em_ts := 1700000002; em_fields := [num (str "code") 0] |}].

Lemma parent_hears_first_decisive_witness :
  waitForJail 5 4711 [Idle false; Chunk (take 50 (streamOf sampleRun)); ReadInterrupted; Chunk (drop 50 (streamOf sampleRun)); EndOfStream true]
  = (JailCreated, Some {| event := kJailCreated; ts := 1700000001; fields := [(str "jid", str "17"); (str "name", str "web_pid4711")] |}).
Proof.
  apply (parent_hears_first_decisive 5 4711 (take 1 sampleRun) (drop 2 sampleRun)
    {| em_event := kJailCreated; em_ts := 1700000001; em_fields := [num (str "jid") 17; text (str "name") (str "web_pid4711")] |} JailCreated
    [Idle false; Chunk (take 50 (streamOf sampleRun)); ReadInterrupted; Chunk (drop 50 (streamOf sampleRun))] [EndOfStream true]).
  - lia.
  - repeat constructor; try discriminate; try lia; try (by intros _; left; eexists); try (vm_compute; discriminate); set_solver.
  - by repeat constructor.
  - done.
  - repeat constructor; vm_compute; discriminate.
  - vm_compute. reflexivity.
Defined.
End StatusFd.
