(* ===== verification/Wrap.v ===== *)
(** * Launchers of profiles: lib/wrap_pure.cpp

    The text of the two files [crate wrap install] writes, and how they are
    recognised again.  What is done with them is in WrapCmd.v. *)

From S2P Require Import Prelude CStd UtilPure RunPure Profile.

Module Wrap.
Import CStd UtilPure.

Definition kLauncherMarker : bytes := str "# crate wrap: ".
Definition kDesktopKey : bytes := str "X-Crate-Profile=".

(** The bytes the Desktop Entry specification reserves in [Exec]. *)
Definition execReserved : bytes := [" "%char; tab; dquote; squote; backslash] ++ str "><~|&;$*?#()`".
Definition execEscaped (c : ascii) : bool := one_of [dquote; "`"%char; "$"%char; backslash] c.

Definition execArg (a : bytes) : bytes :=
  if negb (is_empty a) && negb (existsb (one_of execReserved) a) then a
  else [dquote] ++ flat_map (fun c => if execEscaped c then [backslash; backslash; backslash; c] else [c]) a ++ [dquote].

Definition shQuote (s : bytes) : bytes :=
  [squote] ++ flat_map (fun c => if Ascii.eqb c squote then [squote; backslash; squote; squote] else [c]) s ++ [squote].

Definition blank (c : ascii) : bool := Ascii.eqb c " " || Ascii.eqb c tab || Ascii.eqb c cr.

Fixpoint dropBlanks (s : bytes) : bytes := match s with c :: t => if blank c then dropBlanks t else s | [] => [] end.
Definition trim (s : bytes) : bytes := rev (dropBlanks (rev (dropBlanks s))).

Definition binDir (home : bytes) : bytes := home ++ str "/.local/bin".

Definition applicationsDir (home xdgDataHome : bytes) : bytes :=
  if starts_with (str "/") xdgDataHome then Profile.stripSlashes xdgDataHome ++ str "/applications"
  else home ++ str "/.local/share/applications".

Definition launcherPath (home name : bytes) : bytes := binDir home ++ str "/" ++ name.
Definition desktopFileName (profile : bytes) : bytes := str "crate-" ++ profile ++ str ".desktop".
Definition desktopPath (home xdgDataHome profile : bytes) : bytes := applicationsDir home xdgDataHome ++ str "/" ++ desktopFileName profile.

Definition validateLauncherName (name : bytes) : bytes :=
  guard_err (str "launcher name: ") (Profile.validateProfileName name)
    (if beq name (str "crate") then str "launcher name 'crate' would shadow crate itself" else []).

Definition renderLauncher (profile cratePath version : bytes) : bytes :=
  str "#!/bin/sh" ++ [newline]
  ++ kLauncherMarker ++ profile ++ str " (crate " ++ version ++ str ")" ++ [newline]
  ++ str "# Runs the program in its crate container; `crate wrap remove " ++ profile ++ str "` deletes this file." ++ [newline]
  ++ str "exec " ++ shQuote cratePath ++ str " run " ++ profile ++ str " -- " ++ [dquote] ++ str "$@" ++ [dquote; newline].

Fixpoint displayLoop (start : bool) (s : bytes) : bytes :=
  match s with
  | [] => []
  | c :: t =>
      if Ascii.eqb c "-" || Ascii.eqb c "_" then " "%char :: displayLoop true t
      else (if start && is_lower c then chr (code c - 97 + 65) else c) :: displayLoop false t
  end.
Definition displayName (profile : bytes) : bytes := displayLoop true profile ++ str " (crate)".

Definition renderDesktop (profile cratePath version : bytes) (terminal : bool) (icon : bytes) : bytes :=
  str "[Desktop Entry]" ++ [newline]
  ++ str "Type=Application" ++ [newline]
  ++ str "Version=1.5" ++ [newline]
  ++ str "Name=" ++ displayName profile ++ [newline]
  ++ str "Comment=" ++ profile ++ str " in a crate container (crate " ++ version ++ str ")" ++ [newline]
  ++ str "Exec=" ++ execArg cratePath ++ str " run " ++ profile ++ str " -- %U" ++ [newline]
  ++ str "Icon=" ++ (if is_empty icon then profile else icon) ++ [newline]
  ++ str "Terminal=" ++ (if terminal then str "true" else str "false") ++ [newline]
  ++ str "Categories=X-Crate;" ++ [newline]
  ++ kDesktopKey ++ profile ++ [newline].

(** The profile a marker line names, when that is a valid name. *)
Definition named (p : bytes) : option bytes := if is_empty (Profile.validateProfileName p) then Some p else None.

Fixpoint launcherLines (lines : list bytes) : option bytes :=
  match lines with
  | [] => None
  | line :: rest =>
      if starts_with kLauncherMarker line then
        let r := trim (drop (length kLauncherMarker) line) in
        named (match find_char " " r with Some sp => take sp r | None => r end)
      else launcherLines rest
  end.
Definition launcherProfile (content : bytes) : option bytes := launcherLines (take 4 (getlines content)).

Fixpoint desktopLines (inEntry : bool) (lines : list bytes) : option bytes :=
  match lines with
  | [] => None
  | l :: rest =>
      let line := trim l in
      if beq line (str "[Desktop Entry]") then desktopLines true rest
      else let inEntry := if starts_with (str "[") line then false else inEntry in
      if negb inEntry then desktopLines false rest
      else if starts_with kDesktopKey line then named (trim (drop (length kDesktopKey) line))
      else desktopLines true rest
  end.
Definition desktopProfile (content : bytes) : option bytes := desktopLines false (getlines content).

(** The scan goes over what lies between colons; empty pieces do not count. *)
Definition pathHasDir (pathEnv dir : bytes) : bool :=
  existsb (fun d => negb (is_empty d) && beq (Profile.stripSlashes d) (Profile.stripSlashes dir)) (split_on ":" pathEnv).

Record Entry := { e_profile : bytes; e_launcher : bytes; e_desktop : bytes }.

Definition spaces (n : nat) : bytes := replicate n " "%char.
Definition width (entries : list Entry) : nat := fold_left (fun w e => Nat.max w (length (e_profile e))) entries 7%nat.

Definition renderEntry (w : nat) (e : Entry) : bytes :=
  let pad := spaces (w - length (e_profile e) + 2) in
  match List.filter (fun p => negb (is_empty p)) [e_launcher e; e_desktop e] with
  | [] => e_profile e ++ pad ++ str "-" ++ [newline]
  | p :: ps => e_profile e ++ pad ++ p ++ [newline] ++ flat_map (fun q => spaces (w + 2) ++ q ++ [newline]) ps
  end.

Definition renderList (entries : list Entry) : bytes :=
  let w := width entries in
  str "PROFILE" ++ spaces (w - 7 + 2) ++ str "LAUNCHER / DESKTOP" ++ [newline] ++ flat_map (renderEntry w) entries.

Example launcher_text :
  launcherProfile (renderLauncher (str "firefox") (str "/usr/local/bin/crate") (str "1.1.70")) = Some (str "firefox").
Proof. vm_compute. reflexivity. Qed.

Example desktop_text :
  desktopProfile (renderDesktop (str "firefox") (str "/usr/local/bin/crate") (str "1.1.70") false []) = Some (str "firefox").
Proof. vm_compute. reflexivity. Qed.

(** ** The markers are read back *)

Lemma name_In name c : forallb RunPure.nameByte name = true -> RunPure.nameByte c = false -> ~ In c name.
Proof. intros H Hc Hin. rewrite forallb_forall in H. apply H in Hin. congruence. Qed.

Lemma dropBlanks_id c s : blank c = false -> dropBlanks (c :: s) = c :: s.
Proof. intros H. cbn. by rewrite H. Qed.

Lemma trim_id s c t d : s = c :: t -> blank c = false -> back s = Some d -> blank d = false -> trim s = s.
Proof.
  intros -> Hc Hd Hb. unfold trim. rewrite dropBlanks_id by done. apply back_Some in Hd as (l & Hl). rewrite Hl, rev_app_distr.
  cbn [rev app]. rewrite dropBlanks_id by done. cbn [rev]. by rewrite rev_involutive.
Qed.

Lemma nameByte_blank c : RunPure.nameByte c = true -> blank c = false.
Proof. intros H. apply negb_true_iff. revert c H. by_bytes. Qed.

Lemma trim_name name : name <> [] -> forallb RunPure.nameByte name = true -> trim name = name.
Proof.
  intros Hne Hn. rewrite forallb_forall in Hn. destruct (back name) as [d|] eqn:Ed.
  - destruct name as [|c t]; [done|]. apply (trim_id _ c t d); [done| |done|]; apply nameByte_blank, Hn; [by left|].
    by apply back_In.
  - destruct name as [|c t _] using rev_ind; [done|]. by rewrite back_app in Ed.
Qed.

Lemma trim_head c t : blank c = false -> exists t', trim (c :: t) = c :: t'.
Proof.
  intros H. unfold trim. rewrite dropBlanks_id by done. cbn [rev].
  assert (E : forall s, exists s', dropBlanks (s ++ [c]) = s' ++ [c]).
  { induction s as [|x s [s' IH]]; cbn; [exists []; by rewrite H|]. destruct (blank x); [by exists s'|by exists (x :: s)]. }
  destruct (E (rev t)) as [s' ->]. rewrite rev_app_distr. cbn. by eexists.
Qed.

Lemma named_valid p : Profile.validateProfileName p = [] -> named p = Some p.
Proof. intros H. unfold named. by rewrite H. Qed.

Lemma newline_not_name : RunPure.nameByte newline = false.
Proof. done. Qed.

(** A launcher names its profile, whatever the path of crate and the version. *)
Lemma launcher_roundtrip profile cratePath version :
  Profile.validateProfileName profile = [] -> ~ In newline version ->
  launcherProfile (renderLauncher profile cratePath version) = Some profile.
Proof.
  intros Hv Hn. pose proof (Profile.profileName_ok _ Hv) as (_ & Hb & c & t & E & _).
  pose proof (name_In _ _ Hb newline_not_name) as Hnl.
  assert (Hr : exists r, renderLauncher profile cratePath version
    = str "#!/bin/sh" ++ newline :: (kLauncherMarker ++ profile ++ str " (crate " ++ version ++ str ")") ++ newline :: r)
    by (eexists; unfold renderLauncher; rewrite <- !app_assoc; reflexivity).
  destruct Hr as [r ->]. change (str " (crate " ++ ?x) with (" "%char :: str "(crate " ++ x). unfold launcherProfile. rewrite getlines_cons by absent. rewrite getlines_cons.
  2: { rewrite !in_app_iff. intros [H|[H|[H|H]]]; [by vm_compute in H; intuition discriminate|done|by vm_compute in H|].
       rewrite !in_app_iff in H. destruct H as [H|[H|H]]; [by vm_compute in H; intuition discriminate|done|by vm_compute in H; intuition discriminate]. }
  cbn [take launcherLines]. change (starts_with kLauncherMarker (str "#!/bin/sh")) with false. rewrite starts_with_app, drop_app_length.
  assert (Ht : trim (profile ++ " "%char :: str "(crate " ++ version ++ str ")") = profile ++ " "%char :: str "(crate " ++ version ++ str ")").
  { rewrite E. cbn [app]. eapply (trim_id _ c _ ")"%char); [done| | |done].
    - rewrite E in Hb. cbn [forallb] in Hb. apply andb_true_iff in Hb as [Hc _]. by apply nameByte_blank.
    - change (c :: ?x) with ([c] ++ x). change (" "%char :: ?x) with ([" "%char] ++ x). rewrite !app_assoc. apply back_app. }
  rewrite Ht, find_char_app by (by apply (name_In _ _ Hb)). rewrite take_app_length. by apply named_valid.
Qed.

(** A line of a desktop entry before the marker. *)
Lemma desktopLines_skip l rest :
  match l with c :: _ => negb (blank c || Ascii.eqb c "[" || Ascii.eqb c "X") | [] => false end = true ->
  desktopLines true (l :: rest) = desktopLines true rest.
Proof.
  destruct l as [|c t]; [done|]. intros [[Hb H1%Ascii.eqb_neq]%orb_false_iff H2%Ascii.eqb_neq]%negb_true_iff%orb_false_iff. cbn [desktopLines]. destruct (trim_head c t Hb) as [t' ->].
  assert (beq (c :: t') (str "[Desktop Entry]") = false) as -> by (apply beq_neq; intros E; injection E; congruence).
  assert (forall p q, c <> p -> starts_with (p :: q) (c :: t') = false) as S.
  { intros p q Hp. cbn. apply not_eq_sym, Ascii.eqb_neq in Hp. destruct (Ascii.eqb_spec p c); [by subst|done]. }
  change (starts_with (str "[")) with (starts_with ("["%char :: [])). rewrite S by done. cbn [negb].
  unfold kDesktopKey. change (starts_with (str "X-Crate-Profile=")) with (starts_with ("X"%char :: str "-Crate-Profile=")). by rewrite S.
Qed.

Lemma displayLoop_line b s : ~ In newline s -> ~ In newline (displayLoop b s).
Proof.
  revert b. induction s as [|c s IH]; intros b H; cbn [displayLoop]; [done|].
  assert (~ In newline s) by (intros ?; apply H; by right).
  assert (c <> newline) by (intros ->; apply H; by left).
  destruct (_ || _).
  - intros [E|E]; [done|by eapply IH].
  - intros [E|E]; [|by eapply IH]. destruct (b && is_lower c) eqn:El; [|done].
    apply andb_true_iff in El as [_ El]. assert (X : negb (Ascii.eqb (chr (code c - 97 + 65)) newline) = true); [|by rewrite E in X].
    clear -El. revert c El. by_bytes.
Qed.

Lemma execArg_line a : ~ In newline a -> ~ In newline (execArg a).
Proof.
  intros H. unfold execArg. case_match; [done|]. rewrite !in_app_iff. intros [E|[E|E]]; [by vm_compute in E; intuition discriminate| |by vm_compute in E; intuition discriminate].
  apply in_flat_map in E as (c & Hc & E). destruct (execEscaped c) eqn:Ec; [|by destruct E as [->|[]]].
  destruct E as [E|[E|[E|[E|[]]]]]; [by vm_compute in E..|by subst c].
Qed.

(** So does a desktop entry. *)
Lemma desktop_roundtrip profile cratePath version terminal icon :
  Profile.validateProfileName profile = [] -> ~ In newline version -> ~ In newline cratePath -> ~ In newline icon ->
  desktopProfile (renderDesktop profile cratePath version terminal icon) = Some profile.
Proof.
  intros Hv Hn Hp Hi. pose proof (Profile.profileName_ok _ Hv) as (_ & Hb & c & t & E & _).
  pose proof (name_In _ _ Hb newline_not_name) as Hnl.
  assert (renderDesktop profile cratePath version terminal icon = concat (map (fun l => l ++ [newline])
    [str "[Desktop Entry]"; str "Type=Application"; str "Version=1.5"; str "Name=" ++ displayName profile;
     str "Comment=" ++ profile ++ str " in a crate container (crate " ++ version ++ str ")";
     str "Exec=" ++ execArg cratePath ++ str " run " ++ profile ++ str " -- %U";
     str "Icon=" ++ (if is_empty icon then profile else icon);
     str "Terminal=" ++ (if terminal then str "true" else str "false"); str "Categories=X-Crate;"; kDesktopKey ++ profile])) as ->
    by (unfold renderDesktop; cbn [map concat]; by rewrite <- !app_assoc).
  unfold desktopProfile. rewrite getlines_concat.
  2: { repeat (apply Forall_cons; split); [absent|absent|absent| | | | | |absent| |done]; rewrite !in_app_iff.
       - unfold displayName. rewrite in_app_iff. intros [H|[H|H]]; [by vm_compute in H; intuition discriminate|by apply displayLoop_line in H|by vm_compute in H; intuition discriminate].
       - intros [H|[H|[H|[H|H]]]]; try done; by vm_compute in H; intuition discriminate.
       - intros [H|[H|[H|[H|H]]]]; try done; try (by apply execArg_line in H); by vm_compute in H; intuition discriminate.
       - intros [H|H]; [by vm_compute in H; intuition discriminate|by destruct (is_empty icon)].
       - intros [H|H]; [by vm_compute in H; intuition discriminate|by destruct terminal; vm_compute in H; intuition discriminate].
       - intros [H|H]; [by vm_compute in H; intuition discriminate|done]. }
  change (desktopLines false (str "[Desktop Entry]" :: ?r)) with (desktopLines true r).
  do 8 (rewrite desktopLines_skip by done). cbn [desktopLines].
  assert (trim (kDesktopKey ++ profile) = kDesktopKey ++ profile) as ->.
  { destruct (back profile) as [d|] eqn:Ed.
    - eapply (trim_id _ "X"%char _ d); [done|done| |].
      + rewrite back_app_ne; [done|]. by rewrite E.
      + apply nameByte_blank. rewrite forallb_forall in Hb. by apply Hb, back_In.
    - rewrite E in Ed. destruct (c :: t) as [|x l _] eqn:El using rev_ind; [done|]. by rewrite back_app in Ed. }
  change (beq (kDesktopKey ++ profile) (str "[Desktop Entry]")) with false. change (starts_with (str "[") (kDesktopKey ++ profile)) with false.
  cbn [negb]. rewrite starts_with_app, drop_app_length, trim_name; [by apply named_valid|by rewrite E|done].
Qed.
End Wrap.
