(* ===== verification/Args.v ===== *)
(** * The command line's data: lib/args.h, cli/args_pure.cpp

    [Args] is what the parser of ArgsParse.v fills in and [validate] checks
    before a command runs. *)

From S2P Require Import Prelude CStd OMap RecordUpd UtilPure RunPure NetAddr Profile Wrap.

Module Args.
Import CStd UtilPure.

Inductive Command :=
  | CmdNone | CmdCreate | CmdRun | CmdValidate | CmdSnapshot | CmdExport | CmdImport | CmdGui | CmdList | CmdInfo |
    CmdClean | CmdConsole | CmdStack | CmdStats | CmdLogs | CmdStop | CmdRestart | CmdTop | CmdInterDns | CmdVpn |
    CmdInspect | CmdMigrate | CmdBackup | CmdRestore | CmdBackupPrune | CmdReplicate | CmdTemplate | CmdRetune |
    CmdThrottle | CmdDoctor | CmdVmWrap | CmdUpdate | CmdProfileFromTrace | CmdAudit | CmdWrap.

Record Args := {
  cmd : Command; logProgress : bool; noColor : bool; vars : list (bytes * bytes); createSpec : bytes;
  createOutput : bytes; createTemplate : bytes; usePkgbase : bool; runCrateFile : bytes; runWarmBase : bytes;
  runName : bytes; runProfile : bytes; runStatusFd : Z; validateSpec : bytes; validateStrict : bool;
  snapshotSubcmd : bytes; snapshotDataset : bytes; snapshotName : bytes; snapshotName2 : bytes; listJson : bool;
  infoTarget : bytes; cleanDryRun : bool; exportTarget : bytes; exportOutput : bytes; exportPassphraseFile : bytes;
  exportSignKey : bytes; importFile : bytes; importOutput : bytes; importForce : bool; importPassphraseFile : bytes;
  importVerifyKey : bytes; consoleTarget : bytes; consoleUser : bytes; consoleCmd : bytes; guiSubcmd : bytes;
  guiTarget : bytes; guiOutput : bytes; guiResolution : bytes; guiJson : bool; stackSubcmd : bytes; stackFile : bytes;
  stackExecContainer : bytes; stackExecArgs : list bytes; statsTarget : bytes; statsJson : bool;
  statsRctlPressure : bool; logsTarget : bytes; logsFollow : bool; logsTail : Z; stopTarget : bytes; stopTimeout : Z;
  restartTarget : bytes; restartTimeout : Z; vpnSubcmd : bytes; vpnAction : bytes; vpnSpecFile : bytes;
  inspectTarget : bytes; migrateTarget : bytes; migrateFrom : bytes; migrateTo : bytes; migrateFromTokenFile : bytes;
  migrateToTokenFile : bytes; backupTarget : bytes; backupOutputDir : bytes; backupSince : bytes;
  backupAutoIncremental : bool; restoreFile : bytes; restoreDataset : bytes; backupPruneDir : bytes;
  backupPruneKeep : bytes; backupPruneJailFilter : bytes; backupPruneDryRun : bool; backupPruneDeleteOrphans : bool;
  replicateTarget : bytes; replicateTo : bytes; replicateDestDataset : bytes; replicateSince : bytes;
  replicateAutoIncremental : bool; replicateSshPort : Z; replicateSshKey : bytes; replicateSshConfig : bytes;
  replicateSshOpts : list bytes; templateSubcmd : bytes; warmTarget : bytes; warmOutputDataset : bytes;
  warmPromote : bool; retuneTarget : bytes; retunePairs : list bytes; retuneClear : list bytes; retuneShow : bool;
  doctorJson : bool; doctorRefreshCache : bool; throttleTarget : bytes; throttleIngressRate : bytes;
  throttleIngressBurst : bytes; throttleEgressRate : bytes; throttleEgressBurst : bytes; throttleQueue : bytes;
  throttleClear : bool; throttleShow : bool; updateTarget : bytes; updatePkgOnly : bool; updateDryRun : bool;
  updateAssumeYes : bool; traceOutput : bytes; traceFile : bytes; traceKeep : bytes; auditTarget : bytes;
  auditJson : bool; auditOffline : bool; auditDnsName : bytes; wrapSubcmd : bytes; wrapProfile : bytes;
  wrapName : bytes; wrapIcon : bytes; wrapDesktop : bool; wrapNoLauncher : bool; wrapForce : bool;
  vmWrapVmName : bytes; vmWrapJailName : bytes; vmWrapDataset : bytes; vmWrapTap : Z; vmWrapNmdm : Z;
  vmWrapPath : bytes; vmWrapRuleset : Z; vmWrapOutputDir : bytes }.

#[export] Instance etaArgs : Eta Args := fun r => {|
  cmd := cmd r; logProgress := logProgress r; noColor := noColor r; vars := vars r; createSpec := createSpec r;
  createOutput := createOutput r; createTemplate := createTemplate r; usePkgbase := usePkgbase r;
  runCrateFile := runCrateFile r; runWarmBase := runWarmBase r; runName := runName r; runProfile := runProfile r;
  runStatusFd := runStatusFd r; validateSpec := validateSpec r; validateStrict := validateStrict r;
  snapshotSubcmd := snapshotSubcmd r; snapshotDataset := snapshotDataset r; snapshotName := snapshotName r;
  snapshotName2 := snapshotName2 r; listJson := listJson r; infoTarget := infoTarget r; cleanDryRun := cleanDryRun r;
  exportTarget := exportTarget r; exportOutput := exportOutput r; exportPassphraseFile := exportPassphraseFile r;
  exportSignKey := exportSignKey r; importFile := importFile r; importOutput := importOutput r;
  importForce := importForce r; importPassphraseFile := importPassphraseFile r; importVerifyKey := importVerifyKey r;
  consoleTarget := consoleTarget r; consoleUser := consoleUser r; consoleCmd := consoleCmd r;
  guiSubcmd := guiSubcmd r; guiTarget := guiTarget r; guiOutput := guiOutput r; guiResolution := guiResolution r;
  guiJson := guiJson r; stackSubcmd := stackSubcmd r; stackFile := stackFile r;
  stackExecContainer := stackExecContainer r; stackExecArgs := stackExecArgs r; statsTarget := statsTarget r;
  statsJson := statsJson r; statsRctlPressure := statsRctlPressure r; logsTarget := logsTarget r;
  logsFollow := logsFollow r; logsTail := logsTail r; stopTarget := stopTarget r; stopTimeout := stopTimeout r;
  restartTarget := restartTarget r; restartTimeout := restartTimeout r; vpnSubcmd := vpnSubcmd r;
  vpnAction := vpnAction r; vpnSpecFile := vpnSpecFile r; inspectTarget := inspectTarget r;
  migrateTarget := migrateTarget r; migrateFrom := migrateFrom r; migrateTo := migrateTo r;
  migrateFromTokenFile := migrateFromTokenFile r; migrateToTokenFile := migrateToTokenFile r;
  backupTarget := backupTarget r; backupOutputDir := backupOutputDir r; backupSince := backupSince r;
  backupAutoIncremental := backupAutoIncremental r; restoreFile := restoreFile r; restoreDataset := restoreDataset r;
  backupPruneDir := backupPruneDir r; backupPruneKeep := backupPruneKeep r;
  backupPruneJailFilter := backupPruneJailFilter r; backupPruneDryRun := backupPruneDryRun r;
  backupPruneDeleteOrphans := backupPruneDeleteOrphans r; replicateTarget := replicateTarget r;
  replicateTo := replicateTo r; replicateDestDataset := replicateDestDataset r; replicateSince := replicateSince r;
  replicateAutoIncremental := replicateAutoIncremental r; replicateSshPort := replicateSshPort r;
  replicateSshKey := replicateSshKey r; replicateSshConfig := replicateSshConfig r;
  replicateSshOpts := replicateSshOpts r; templateSubcmd := templateSubcmd r; warmTarget := warmTarget r;
  warmOutputDataset := warmOutputDataset r; warmPromote := warmPromote r; retuneTarget := retuneTarget r;
  retunePairs := retunePairs r; retuneClear := retuneClear r; retuneShow := retuneShow r; doctorJson := doctorJson r;
  doctorRefreshCache := doctorRefreshCache r; throttleTarget := throttleTarget r;
  throttleIngressRate := throttleIngressRate r; throttleIngressBurst := throttleIngressBurst r;
  throttleEgressRate := throttleEgressRate r; throttleEgressBurst := throttleEgressBurst r;
  throttleQueue := throttleQueue r; throttleClear := throttleClear r; throttleShow := throttleShow r;
  updateTarget := updateTarget r; updatePkgOnly := updatePkgOnly r; updateDryRun := updateDryRun r;
  updateAssumeYes := updateAssumeYes r; traceOutput := traceOutput r; traceFile := traceFile r;
  traceKeep := traceKeep r; auditTarget := auditTarget r; auditJson := auditJson r; auditOffline := auditOffline r;
  auditDnsName := auditDnsName r; wrapSubcmd := wrapSubcmd r; wrapProfile := wrapProfile r; wrapName := wrapName r;
  wrapIcon := wrapIcon r; wrapDesktop := wrapDesktop r; wrapNoLauncher := wrapNoLauncher r; wrapForce := wrapForce r;
  vmWrapVmName := vmWrapVmName r; vmWrapJailName := vmWrapJailName r; vmWrapDataset := vmWrapDataset r;
  vmWrapTap := vmWrapTap r; vmWrapNmdm := vmWrapNmdm r; vmWrapPath := vmWrapPath r; vmWrapRuleset := vmWrapRuleset r;
  vmWrapOutputDir := vmWrapOutputDir r |}.

(** A fresh object.  The constructor does not set [cmd]: it holds whatever was in
    its memory. *)
Definition fresh (garbage : Command) : Args := {|
  cmd := garbage; logProgress := false; noColor := false; vars := []; createSpec := []; createOutput := [];
  createTemplate := []; usePkgbase := false; runCrateFile := []; runWarmBase := []; runName := []; runProfile := [];
  runStatusFd := -1; validateSpec := []; validateStrict := false; snapshotSubcmd := []; snapshotDataset := [];
  snapshotName := []; snapshotName2 := []; listJson := false; infoTarget := []; cleanDryRun := false;
  exportTarget := []; exportOutput := []; exportPassphraseFile := []; exportSignKey := []; importFile := [];
  importOutput := []; importForce := false; importPassphraseFile := []; importVerifyKey := []; consoleTarget := [];
  consoleUser := []; consoleCmd := []; guiSubcmd := []; guiTarget := []; guiOutput := []; guiResolution := [];
  guiJson := false; stackSubcmd := []; stackFile := []; stackExecContainer := []; stackExecArgs := [];
  statsTarget := []; statsJson := false; statsRctlPressure := false; logsTarget := []; logsFollow := false;
  logsTail := 0; stopTarget := []; stopTimeout := 10; restartTarget := []; restartTimeout := 10; vpnSubcmd := [];
  vpnAction := []; vpnSpecFile := []; inspectTarget := []; migrateTarget := []; migrateFrom := []; migrateTo := [];
  migrateFromTokenFile := []; migrateToTokenFile := []; backupTarget := []; backupOutputDir := []; backupSince := [];
  backupAutoIncremental := false; restoreFile := []; restoreDataset := []; backupPruneDir := [];
  backupPruneKeep := []; backupPruneJailFilter := []; backupPruneDryRun := false; backupPruneDeleteOrphans := false;
  replicateTarget := []; replicateTo := []; replicateDestDataset := []; replicateSince := [];
  replicateAutoIncremental := false; replicateSshPort := 0; replicateSshKey := []; replicateSshConfig := [];
  replicateSshOpts := []; templateSubcmd := []; warmTarget := []; warmOutputDataset := []; warmPromote := false;
  retuneTarget := []; retunePairs := []; retuneClear := []; retuneShow := false; doctorJson := false;
  doctorRefreshCache := false; throttleTarget := []; throttleIngressRate := []; throttleIngressBurst := [];
  throttleEgressRate := []; throttleEgressBurst := []; throttleQueue := []; throttleClear := false;
  throttleShow := false; updateTarget := []; updatePkgOnly := false; updateDryRun := false; updateAssumeYes := false;
  traceOutput := []; traceFile := []; traceKeep := []; auditTarget := []; auditJson := false; auditOffline := false;
  auditDnsName := str "www.freebsd.org"; wrapSubcmd := []; wrapProfile := []; wrapName := []; wrapIcon := [];
  wrapDesktop := false; wrapNoLauncher := false; wrapForce := false; vmWrapVmName := []; vmWrapJailName := [];
  vmWrapDataset := []; vmWrapTap := -1; vmWrapNmdm := -1; vmWrapPath := []; vmWrapRuleset := 0; vmWrapOutputDir := [] |}.

(** [-c] with a letter or digit. *)
Definition isShort (arg : bytes) : option ascii :=
  match arg with
  | [d; c] => if Ascii.eqb d "-" && is_alnum c then Some c else None
  | _ => None
  end.

(** [--] and then only lower-case letters, digits and dashes. *)
Definition longByte (c : ascii) : bool := is_lower c || is_digit c || Ascii.eqb c "-".
Definition isLong (arg : bytes) : option bytes :=
  match arg with
  | a :: b :: name => if Ascii.eqb a "-" && Ascii.eqb b "-" && forallb longByte name then Some name else None
  | _ => None
  end.

Definition commandNames : list (bytes * Command) :=
  [(str "create", CmdCreate); (str "run", CmdRun); (str "validate", CmdValidate); (str "snapshot", CmdSnapshot);
   (str "list", CmdList); (str "ls", CmdList); (str "info", CmdInfo); (str "clean", CmdClean);
   (str "console", CmdConsole); (str "export", CmdExport); (str "import", CmdImport); (str "gui", CmdGui);
   (str "stack", CmdStack); (str "stats", CmdStats); (str "logs", CmdLogs); (str "stop", CmdStop);
   (str "restart", CmdRestart); (str "top", CmdTop); (str "inter-dns", CmdInterDns); (str "vpn", CmdVpn);
   (str "inspect", CmdInspect); (str "migrate", CmdMigrate); (str "backup", CmdBackup);
   (str "backup-prune", CmdBackupPrune); (str "restore", CmdRestore); (str "replicate", CmdReplicate);
   (str "template", CmdTemplate); (str "retune", CmdRetune); (str "throttle", CmdThrottle); (str "doctor", CmdDoctor);
   (str "vm-wrap", CmdVmWrap); (str "update", CmdUpdate); (str "profile-from-trace", CmdProfileFromTrace);
   (str "audit", CmdAudit); (str "wrap", CmdWrap)].

Fixpoint assoc {A B} (eqb : A -> A -> bool) (k : A) (l : list (A * B)) : option B :=
  match l with [] => None | (x, v) :: t => if eqb k x then Some v else assoc eqb k t end.

Definition isCommand (arg : bytes) : Command := default CmdNone (assoc beq arg commandNames).

(** ** validate *)

(** What [validate] asks the system: the home directory, and which files exist
    and can be opened. *)
Record Files := { homeDir : bytes; fileExists : bytes -> bool; opens : bytes -> bool }.

Section files.
Context (fs : Files).

(** The spec a template stands for. *)
Definition findTemplate (name : bytes) : bytes + bytes :=
  let tryUser := homeDir fs ++ str "/.config/crate/templates/" ++ name ++ str ".yml" in
  let trySys := str "/usr/local/share/crate/templates/" ++ name ++ str ".yml" in
  if fileExists fs tryUser then inr tryUser
  else if fileExists fs trySys then inr trySys
  else if fileExists fs name then inr name
  else inl (str "template '" ++ name ++ str "' not found (searched " ++ tryUser ++ str " and " ++ trySys ++ str ")").

Definition validateCreate (a : Args) : bytes + Args :=
  if is_empty (createSpec a) && is_empty (createTemplate a) then
    inl (str "the 'create' command requires either a spec file (-s, --spec) or a template (-t, --template)")
  else if negb (is_empty (createTemplate a)) && is_empty (createSpec a) then
    spec ← findTemplate (createTemplate a); inr (a <| createSpec := spec |>)
  else inr a.

Definition validateRun (a : Args) : bytes :=
  if negb (is_empty (runWarmBase a)) then
    reject (negb (is_empty (runCrateFile a))) with
      str "--warm-base and -f/--file are mutually exclusive (warm-base supplies the rootfs from a ZFS clone)";
    reject (is_empty (runName a)) with
      str "--warm-base requires --name <name> (no .crate file to derive the jail name from)";
    reject (negb (is_empty (runProfile a))) with str "--warm-base and a profile name are mutually exclusive";
    []
  else if negb (is_empty (runProfile a)) then
    reject (negb (is_empty (runCrateFile a))) with str "give either a profile name or -f/--file <archive>, not both";
    reject (negb (is_empty (runName a))) with
      str "--name is only valid with --warm-base; a profile run is named after the profile";
    Profile.validateProfileName (runProfile a)
  else
    reject (is_empty (runCrateFile a)) with
      str "the 'run' command requires a profile name or the crate file as an argument (-f, --file)";
    reject (negb (opens fs (runCrateFile a))) with
      (str "the file passed to the 'run' command can't be opened: " ++ runCrateFile a);
    reject (negb (is_empty (runName a))) with
      str "--name is only valid with --warm-base; without it, the jail name is derived from the .crate file";
    [].

Definition validateSnapshot (a : Args) : bytes :=
  reject (is_empty (snapshotSubcmd a)) with
    str "the 'snapshot' command requires a subcommand (create, list, restore, delete, diff)";
  reject (is_empty (snapshotDataset a)) with str "the 'snapshot' command requires a ZFS dataset name";
  reject ((beq (snapshotSubcmd a) (str "restore") || beq (snapshotSubcmd a) (str "delete")) && is_empty (snapshotName a)) with
    (str "the 'snapshot " ++ snapshotSubcmd a ++ str "' command requires a snapshot name");
  reject (beq (snapshotSubcmd a) (str "diff") && is_empty (snapshotName a)) with
    str "the 'snapshot diff' command requires at least one snapshot name";
  [].

Definition targetedGui (s : bytes) : bool :=
  existsb (beq s) [str "focus"; str "attach"; str "url"; str "screenshot"; str "resize"].

Definition validateGui (a : Args) : bytes :=
  reject (is_empty (guiSubcmd a)) with
    str "the 'gui' command requires a subcommand (list, focus, attach, url, tile, screenshot, resize)";
  reject (targetedGui (guiSubcmd a) && is_empty (guiTarget a)) with
    (str "the 'gui " ++ guiSubcmd a ++ str "' command requires a target");
  reject (beq (guiSubcmd a) (str "resize") && is_empty (guiResolution a)) with
    str "the 'gui resize' command requires a resolution (e.g. 1920x1080)";
  [].

Definition validateStack (a : Args) : bytes :=
  reject (is_empty (stackSubcmd a)) with str "the 'stack' command requires a subcommand (up, down, status, exec)";
  reject (is_empty (stackFile a)) with str "the 'stack' command requires a stack file";
  reject (beq (stackSubcmd a) (str "exec") && is_empty (stackExecContainer a)) with
    str "the 'stack exec' command requires a container name";
  reject (beq (stackSubcmd a) (str "exec") && is_empty (stackExecArgs a)) with
    str "the 'stack exec' command requires a command to execute";
  [].

Definition validateVpn (a : Args) : bytes :=
  reject (is_empty (vpnSubcmd a)) with str "the 'vpn' command requires a subcommand: 'wireguard' or 'ipsec'";
  reject (negb (beq (vpnSubcmd a) (str "wireguard")) && negb (beq (vpnSubcmd a) (str "ipsec"))) with
    (str "'vpn " ++ vpnSubcmd a ++ str "' is not supported (only 'wireguard' or 'ipsec')");
  reject (is_empty (vpnAction a)) with
    (str "the 'vpn " ++ vpnSubcmd a ++ str "' command requires an action: 'render-conf'");
  reject (negb (beq (vpnAction a) (str "render-conf"))) with
    (str "'vpn " ++ vpnSubcmd a ++ str " " ++ vpnAction a ++ str "' is not supported (only 'render-conf')");
  reject (is_empty (vpnSpecFile a)) with
    (str "the 'vpn " ++ vpnSubcmd a ++ str " render-conf' command requires a spec YAML file");
  [].

(** Several arguments that must be given, with the message of the first that is
    not. *)
Fixpoint required (l : list (bytes * bytes)) : bytes :=
  match l with [] => [] | (v, msg) :: t => reject (is_empty v) with msg; required t end.

Definition validateMigrate (a : Args) : bytes :=
  required [(migrateTarget a, str "the 'migrate' command requires a container name (positional arg)");
            (migrateFrom a, str "the 'migrate' command requires --from <host:port>");
            (migrateTo a, str "the 'migrate' command requires --to <host:port>");
            (migrateFromTokenFile a, str "the 'migrate' command requires --from-token-file <path>");
            (migrateToTokenFile a, str "the 'migrate' command requires --to-token-file <path>")].

Definition validateTemplate (a : Args) : bytes :=
  reject (is_empty (templateSubcmd a)) with str "the 'template' command requires a subcommand: 'warm'";
  reject (negb (beq (templateSubcmd a) (str "warm"))) with
    (str "'template " ++ templateSubcmd a ++ str "' is not supported (only 'warm')");
  required [(warmTarget a, str "the 'template warm' command requires a jail name");
            (warmOutputDataset a, str "the 'template warm' command requires --output <dataset>")].

Definition validateRetune (a : Args) : bytes :=
  reject (is_empty (retuneTarget a)) with str "the 'retune' command requires a jail name (positional arg)";
  reject (is_empty (retunePairs a) && is_empty (retuneClear a) && negb (retuneShow a)) with
    str "the 'retune' command needs at least one of --rctl, --clear, or --show";
  [].

Definition validateThrottle (a : Args) : bytes :=
  reject (is_empty (throttleTarget a)) with str "the 'throttle' command requires a jail name (positional arg)";
  reject (is_empty (throttleIngressRate a) && is_empty (throttleEgressRate a) && negb (throttleClear a) && negb (throttleShow a)) with
    str "the 'throttle' command needs at least one of --ingress, --egress, --clear, or --show";
  [].

Definition validateUpdate (a : Args) : bytes :=
  reject (is_empty (updateTarget a)) with str "the 'update' command requires a jail name (positional arg)";
  reject (negb (updatePkgOnly a)) with
    str "`crate update` currently requires --pkg-only (full base-system update tracked separately)";
  [].

Definition validateAudit (a : Args) : bytes :=
  reject (is_empty (auditTarget a)) with str "the 'audit' command requires a container name or JID";
  reject (negb (NetAddr.isHostname (auditDnsName a))) with
    (str "--dns: '" ++ auditDnsName a ++ str "' is not a valid host name");
  [].

Definition iconByte (c : ascii) : bool := is_alnum c || one_of (str "-_./") c.

Definition validateWrap (a : Args) : bytes :=
  reject (is_empty (wrapSubcmd a)) with str "the 'wrap' command requires a subcommand (install, remove, list)";
  reject (negb (existsb (beq (wrapSubcmd a)) [str "install"; str "remove"; str "list"])) with
    (str "'wrap " ++ wrapSubcmd a ++ str "' is not supported (install, remove, list)");
  if beq (wrapSubcmd a) (str "list") then
    reject (negb (is_empty (wrapProfile a))) with str "'wrap list' takes no profile name"; []
  else
    reject (is_empty (wrapProfile a)) with (str "'wrap " ++ wrapSubcmd a ++ str "' requires a profile name");
    ensure Profile.validateProfileName (wrapProfile a);
    ensure (if is_empty (wrapName a) then [] else Wrap.validateLauncherName (wrapName a));
    ensure (if is_empty (wrapName a) then Wrap.validateLauncherName (wrapProfile a) else []);
    reject (beq (wrapSubcmd a) (str "remove")
            && (wrapDesktop a || wrapNoLauncher a || wrapForce a || negb (is_empty (wrapIcon a)))) with
      str "'wrap remove' takes only --name";
    reject (wrapNoLauncher a && negb (wrapDesktop a)) with str "--no-launcher needs --desktop (nothing would be installed)";
    reject (negb (forallb iconByte (wrapIcon a))) with
      (str "--icon: '" ++ wrapIcon a ++ str "' is not an icon name or path ([A-Za-z0-9._/-])");
    [].

(** The commands whose arguments are only read. *)
Definition check (a : Args) : bytes :=
  match cmd a with
  | CmdRun => validateRun a
  | CmdValidate => required [(validateSpec a, str "the 'validate' command requires a spec file argument")]
  | CmdSnapshot => validateSnapshot a
  | CmdList | CmdClean | CmdTop | CmdInterDns | CmdDoctor => []
  | CmdInfo => required [(infoTarget a, str "the 'info' command requires a container name or JID")]
  | CmdConsole => required [(consoleTarget a, str "the 'console' command requires a container name or JID")]
  | CmdGui => validateGui a
  | CmdStack => validateStack a
  | CmdStats => required [(statsTarget a, str "the 'stats' command requires a container name or JID")]
  | CmdLogs => required [(logsTarget a, str "the 'logs' command requires a container name or JID")]
  | CmdStop => required [(stopTarget a, str "the 'stop' command requires a container name or JID")]
  | CmdRestart => required [(restartTarget a, str "the 'restart' command requires a container name or JID")]
  | CmdVpn => validateVpn a
  | CmdInspect => required [(inspectTarget a, str "the 'inspect' command requires a container name or JID")]
  | CmdMigrate => validateMigrate a
  | CmdBackup =>
      required [(backupTarget a, str "the 'backup' command requires a jail name (positional arg)");
                (backupOutputDir a, str "the 'backup' command requires --output-dir <path>")]
  | CmdRestore =>
      required [(restoreFile a, str "the 'restore' command requires a stream file (positional arg)");
                (restoreDataset a, str "the 'restore' command requires --to <pool/jails/name>")]
  | CmdBackupPrune =>
      required [(backupPruneDir a, str "the 'backup-prune' command requires a directory (positional arg)");
                (backupPruneKeep a, str "the 'backup-prune' command requires --keep <retention-spec> (e.g. daily=7,weekly=4)")]
  | CmdReplicate =>
      required [(replicateTarget a, str "the 'replicate' command requires a jail name (positional arg)");
                (replicateTo a, str "the 'replicate' command requires --to <[user@]host>");
                (replicateDestDataset a, str "the 'replicate' command requires --dest-dataset <pool/jails/name>")]
  | CmdTemplate => validateTemplate a
  | CmdRetune => validateRetune a
  | CmdThrottle => validateThrottle a
  | CmdVmWrap =>
      required [(vmWrapVmName a, str "the 'vm-wrap' command requires a bhyve VM name (positional arg)");
                (vmWrapJailName a, str "the 'vm-wrap' command requires --jail <name>")]
  | CmdUpdate => validateUpdate a
  | CmdProfileFromTrace =>
      if negb (is_empty (traceFile a)) && negb (opens fs (traceFile a)) then str "--trace-file: cannot open " ++ traceFile a else []
  | CmdAudit => validateAudit a
  | CmdWrap => validateWrap a
  | _ => str "no command was given"
  end.

Definition validate (a : Args) : bytes + Args :=
  match cmd a with
  | CmdCreate => validateCreate a
  | _ => match check a with [] => inr a | e => inl e end
  end.
End files.
End Args.
