(* ===== verification/ArgsParse.v ===== *)
(** * Argument parsing: cli/args.cpp

    [parseArguments] goes over [argv] once, first up to the command, then with
    the options of that command.  Each [case] of the big [switch] is a
    [Handler] here: the words it compares first, its short options, the words
    it compares after those, its long options and what it does with anything
    else, in the order of the code's [else if]s. *)

From S2P Require Import Prelude CStd OMap RecordUpd UtilPure Status Args.

Module ArgsParse.
Import UtilPure Args.

(** How the process ends inside the parser: a help page or the version
    ([exit(0)]), a complaint with the general help ([exit(1)]), an exception. *)
Inductive Page := Usage | UsageOf (c : Command).
Inductive Quit := Shown (p : Page) | Version | Fail (msg : bytes) | Thrown (msg : bytes).

(** What handling one argument gives: the options, how many arguments it took,
    and whether to stop. *)
Definition Step : Type := Quit + (Args * nat * bool).
Definition Act : Type := Args -> bytes -> list bytes -> Step.

Definition getArgParam (rest : list bytes) : Quit + bytes :=
  match rest with
  | [] => inl (Fail (str "argument parameter expected but no more arguments were supplied"))
  | v :: _ =>
      if starts_with (str "-") v then inl (Fail (str "argument parameter can't begin from the hyphen")) else inr v
  end.

Definition done (a : Args) : Step := inr (a, 1%nat, false).

Definition help (p : Page) : Act := fun _ _ _ => inl (Shown p).
Definition flag (f : Args -> Args) : Act := fun a _ _ => done (f a).
Definition stopHere : Act := fun a _ _ => inr (a, 1%nat, true).
Definition fail (msg : bytes) : Act := fun _ _ _ => inl (Fail msg).
Definition failArg (before after : bytes) : Act := fun _ arg _ => inl (Fail (before ++ arg ++ after)).
Definition unknownArgument : Act := failArg (str "unknown argument '") (str "'").

(** An option with a value; the value may be refused. *)
Definition paramTry (f : bytes -> Args -> Quit + Args) : Act := fun a _ rest =>
  match getArgParam rest with
  | inl q => inl q
  | inr v => match f v a with inl q => inl q | inr a' => inr (a', 2%nat, false) end
  end.
Definition param (f : bytes -> Args -> Args) : Act := paramTry (fun v a => inr (f v a)).
Definition paramUInt (f : Z -> Args -> Args) : Act :=
  paramTry (fun v a => match toUInt v with inl e => inl (Thrown e) | inr n => inr (f n a) end).

Definition setVar : Act := paramTry (fun kv a =>
  match find_char "=" kv with
  | None => inl (Fail (str "--var requires KEY=VALUE format, got '" ++ kv ++ str "'"))
  | Some eq => inr (a <| vars ::= OMap.insert (take eq kv) (drop (S eq) kv) |>)
  end).

(** Positional arguments: the first member that is still empty takes the word. *)
Definition place {R} (get : Args -> list R) (set : bytes -> Args -> Args) (otherwise : Act) : Act := fun a arg rest =>
  if is_empty (get a) then done (set arg a) else otherwise a arg rest.

(** A subcommand from a list. *)
Definition placeSub (get : Args -> bytes) (set : bytes -> Args -> Args) (known : list bytes) (what : bytes) (otherwise : Act) : Act :=
  fun a arg rest =>
  if is_empty (get a) then
    if existsb (beq arg) known then done (set arg a)
    else inl (Fail (str "unknown " ++ what ++ str " subcommand '" ++ arg ++ str "'"))
  else otherwise a arg rest.

Record Handler := {
  first : list (bytes * Act);
  shorts : list (ascii * Act);
  second : list (bytes * Act);
  longs : list (bytes * Act);
  otherwise : Act }.

Definition handle (h : Handler) : Act := fun a arg rest =>
  match assoc beq arg (first h) with
  | Some act => act a arg rest
  | None =>
      match isShort arg with
      | Some c => default (failArg (str "unsupported short option '") (str "'")) (assoc Ascii.eqb c (shorts h)) a arg rest
      | None =>
          match assoc beq arg (second h) with
          | Some act => act a arg rest
          | None =>
              match isLong arg with
              | Some l => default (failArg (str "unsupported long option '") (str "'")) (assoc beq l (longs h)) a arg rest
              | None => otherwise h a arg rest
              end
          end
      end
  end.

(** A handler that compares no whole words and answers [-h] and [--help]. *)
Definition plain (c : Command) (s : list (ascii * Act)) (l : list (bytes * Act)) (o : Act) : Handler :=
  {| first := []; shorts := ("h"%char, help (UsageOf c)) :: s; second := [];
     longs := (str "help", help (UsageOf c)) :: l; otherwise := o |}.

(** ** The commands *)

Definition onCreate : Handler :=
  {| first := [];
     shorts := [("h"%char, help (UsageOf CmdCreate)); ("s"%char, param (fun v a => a <| createSpec := v |>));
                ("t"%char, param (fun v a => a <| createTemplate := v |>)); ("o"%char, param (fun v a => a <| createOutput := v |>))];
     second := [(str "--use-pkgbase", flag (fun a => a <| usePkgbase := true |>)); (str "--var", setVar)];
     longs := [(str "help", help (UsageOf CmdCreate)); (str "spec", param (fun v a => a <| createSpec := v |>));
               (str "template", param (fun v a => a <| createTemplate := v |>)); (str "output", param (fun v a => a <| createOutput := v |>))];
     otherwise := unknownArgument |}.

Definition statusFd : Act := paramTry (fun v a =>
  match Status.parseStatusFd v with inl e => inl (Fail e) | inr n => inr (a <| runStatusFd := n |>) end).

Definition onRun : Handler :=
  {| first := [(str "--", stopHere); (str "--var", setVar)];
     shorts := [("h"%char, help (UsageOf CmdRun)); ("f"%char, param (fun v a => a <| runCrateFile := v |>))];
     second := [];
     longs := [(str "help", help Usage); (str "file", param (fun v a => a <| runCrateFile := v |>));
               (str "warm-base", param (fun v a => a <| runWarmBase := v |>)); (str "name", param (fun v a => a <| runName := v |>));
               (str "status-fd", statusFd)];
     otherwise := fun a arg rest =>
       if starts_with (str "-") arg then unknownArgument a arg rest
       else place runProfile (fun v a => a <| runProfile := v |>)
              (failArg (str "run takes one profile name; put the application's arguments after '--' (got '") (str "')")) a arg rest |}.

Definition onValidate : Handler := plain CmdValidate []
  [(str "strict", flag (fun a => a <| validateStrict := true |>))]
  (place validateSpec (fun v a => a <| validateSpec := v |>) (fail (str "validate takes exactly one spec file argument"))).

Definition onExport : Handler :=
  let passphrase := param (fun v a => a <| exportPassphraseFile := v |>) in
  let signKey := param (fun v a => a <| exportSignKey := v |>) in
  let output := param (fun v a => a <| exportOutput := v |>) in
  {| first := [(str "--passphrase-file", passphrase); (str "--sign-key", signKey)];
     shorts := [("h"%char, help (UsageOf CmdExport)); ("o"%char, output); ("P"%char, passphrase); ("K"%char, signKey)];
     second := [];
     longs := [(str "help", help (UsageOf CmdExport)); (str "output", output)];
     otherwise := place exportTarget (fun v a => a <| exportTarget := v |>) (fail (str "export takes exactly one container target")) |}.

Definition onImport : Handler :=
  let passphrase := param (fun v a => a <| importPassphraseFile := v |>) in
  let verifyKey := param (fun v a => a <| importVerifyKey := v |>) in
  let output := param (fun v a => a <| importOutput := v |>) in
  let force := flag (fun a => a <| importForce := true |>) in
  {| first := [(str "--passphrase-file", passphrase); (str "--verify-key", verifyKey)];
     shorts := [("h"%char, help (UsageOf CmdImport)); ("o"%char, output); ("f"%char, force); ("P"%char, passphrase); ("V"%char, verifyKey)];
     second := [(str "--force", force)];
     longs := [(str "help", help (UsageOf CmdImport)); (str "output", output)];
     otherwise := place importFile (fun v a => a <| importFile := v |>) (fail (str "import takes exactly one archive file")) |}.

Definition onSnapshot : Handler := plain CmdSnapshot [] []
  (placeSub snapshotSubcmd (fun v a => a <| snapshotSubcmd := v |>)
     [str "create"; str "list"; str "restore"; str "delete"; str "diff"] (str "snapshot")
   (place snapshotDataset (fun v a => a <| snapshotDataset := v |>)
   (place snapshotName (fun v a => a <| snapshotName := v |>)
   (place snapshotName2 (fun v a => a <| snapshotName2 := v |>)
   (fail (str "too many arguments for 'snapshot' command")))))).

Definition onList : Handler := plain CmdList [("j"%char, flag (fun a => a <| listJson := true |>))] [] unknownArgument.

Definition onInfo : Handler := plain CmdInfo [] []
  (place infoTarget (fun v a => a <| infoTarget := v |>) (fail (str "info takes exactly one container target"))).

Definition onClean : Handler :=
  let dryRun := flag (fun a => a <| cleanDryRun := true |>) in
  {| first := []; shorts := [("h"%char, help (UsageOf CmdClean)); ("n"%char, dryRun)]; second := [(str "--dry-run", dryRun)];
     longs := [(str "help", help (UsageOf CmdClean))]; otherwise := unknownArgument |}.

Definition onConsole : Handler :=
  let user := param (fun v a => a <| consoleUser := v |>) in
  {| first := [(str "--", stopHere)]; shorts := [("h"%char, help (UsageOf CmdConsole)); ("u"%char, user)];
     second := [(str "--user", user)]; longs := [(str "help", help (UsageOf CmdConsole))];
     otherwise :=
       place consoleTarget (fun v a => a <| consoleTarget := v |>)
       (place consoleCmd (fun v a => a <| consoleCmd := v |>)
       (fun a arg _ => done (a <| consoleCmd ::= fun s => s ++ str " " ++ arg |>))) |}.

(** The words from here on are the command; a [--] in front is dropped. *)
Definition restOfLine : Act := fun a arg rest =>
  let words := if beq arg (str "--") then rest else arg :: rest in
  inr (a <| stackExecArgs ::= fun l => l ++ words |>, S (length (arg :: rest)), false).

Definition onStack : Handler :=
  {| first := [(str "--var", setVar)]; shorts := [("h"%char, help (UsageOf CmdStack))]; second := [];
     longs := [(str "help", help (UsageOf CmdStack))];
     otherwise :=
       placeSub stackSubcmd (fun v a => a <| stackSubcmd := v |>) [str "up"; str "down"; str "status"; str "exec"] (str "stack")
       (place stackFile (fun v a => a <| stackFile := v |>)
       (fun a arg rest =>
          if beq (stackSubcmd a) (str "exec") then
            place stackExecContainer (fun v a => a <| stackExecContainer := v |>) restOfLine a arg rest
          else fail (str "too many arguments for 'stack' command") a arg rest)) |}.

Definition onGui : Handler :=
  let output := param (fun v a => a <| guiOutput := v |>) in
  plain CmdGui [("j"%char, flag (fun a => a <| guiJson := true |>)); ("o"%char, output)] [(str "output", output)]
  (placeSub guiSubcmd (fun v a => a <| guiSubcmd := v |>)
     [str "list"; str "focus"; str "attach"; str "url"; str "tile"; str "screenshot"; str "resize"] (str "gui")
   (place guiTarget (fun v a => a <| guiTarget := v |>)
   (fun a arg rest =>
      let tooMany := fail (str "too many arguments for 'gui' command") in
      if beq (guiSubcmd a) (str "resize") then place guiResolution (fun v a => a <| guiResolution := v |>) tooMany a arg rest
      else tooMany a arg rest))).

Definition onStats : Handler :=
  let json := flag (fun a => a <| statsJson := true |>) in
  plain CmdStats [("j"%char, json)] [(str "json", json); (str "rctl-pressure", flag (fun a => a <| statsRctlPressure := true |>))]
  (place statsTarget (fun v a => a <| statsTarget := v |>) (fail (str "too many arguments for 'stats' command"))).

Definition onLogs : Handler :=
  let follow := flag (fun a => a <| logsFollow := true |>) in
  let tailLines := paramUInt (fun n a => a <| logsTail := n |>) in
  plain CmdLogs [("f"%char, follow); ("n"%char, tailLines)] [(str "follow", follow); (str "tail", tailLines)]
  (place logsTarget (fun v a => a <| logsTarget := v |>) (fail (str "too many arguments for 'logs' command"))).

Definition onStop : Handler :=
  let timeout := paramUInt (fun n a => a <| stopTimeout := n |>) in
  plain CmdStop [("t"%char, timeout)] [(str "timeout", timeout)]
  (place stopTarget (fun v a => a <| stopTarget := v |>) (fail (str "too many arguments for 'stop' command"))).

Definition onRestart : Handler :=
  let timeout := paramUInt (fun n a => a <| restartTimeout := n |>) in
  plain CmdRestart [("t"%char, timeout)] [(str "timeout", timeout)]
  (place restartTarget (fun v a => a <| restartTarget := v |>) (fail (str "too many arguments for 'restart' command"))).

Definition onTop : Handler := plain CmdTop [] [] (fail (str "'top' command takes no arguments")).
Definition onInterDns : Handler := plain CmdInterDns [] [] (fail (str "'inter-dns' command takes no arguments")).

Definition onVpn : Handler := plain CmdVpn [] []
  (place vpnSubcmd (fun v a => a <| vpnSubcmd := v |>)
  (place vpnAction (fun v a => a <| vpnAction := v |>)
  (place vpnSpecFile (fun v a => a <| vpnSpecFile := v |>)
  (fail (str "too many arguments for 'vpn' command"))))).

Definition onInspect : Handler := plain CmdInspect [] []
  (place inspectTarget (fun v a => a <| inspectTarget := v |>) (fail (str "too many arguments for 'inspect' command"))).

Definition onAudit : Handler :=
  let json := flag (fun a => a <| auditJson := true |>) in
  plain CmdAudit [("j"%char, json)]
  [(str "json", json); (str "offline", flag (fun a => a <| auditOffline := true |>)); (str "dns", param (fun v a => a <| auditDnsName := v |>))]
  (place auditTarget (fun v a => a <| auditTarget := v |>) (fail (str "too many arguments for 'audit' command"))).

Definition onWrap : Handler := plain CmdWrap []
  [(str "desktop", flag (fun a => a <| wrapDesktop := true |>)); (str "no-launcher", flag (fun a => a <| wrapNoLauncher := true |>));
   (str "force", flag (fun a => a <| wrapForce := true |>)); (str "name", param (fun v a => a <| wrapName := v |>));
   (str "icon", param (fun v a => a <| wrapIcon := v |>))]
  (place wrapSubcmd (fun v a => a <| wrapSubcmd := v |>)
  (place wrapProfile (fun v a => a <| wrapProfile := v |>)
  (fail (str "too many arguments for 'wrap' command")))).

Definition onMigrate : Handler := plain CmdMigrate []
  [(str "from", param (fun v a => a <| migrateFrom := v |>)); (str "to", param (fun v a => a <| migrateTo := v |>));
   (str "from-token-file", param (fun v a => a <| migrateFromTokenFile := v |>));
   (str "to-token-file", param (fun v a => a <| migrateToTokenFile := v |>))]
  (place migrateTarget (fun v a => a <| migrateTarget := v |>) (fail (str "too many arguments for 'migrate' command"))).

Definition onBackup : Handler := plain CmdBackup []
  [(str "output-dir", param (fun v a => a <| backupOutputDir := v |>)); (str "since", param (fun v a => a <| backupSince := v |>));
   (str "auto-incremental", flag (fun a => a <| backupAutoIncremental := true |>))]
  (place backupTarget (fun v a => a <| backupTarget := v |>) (fail (str "too many arguments for 'backup' command"))).

Definition onBackupPrune : Handler := plain CmdBackupPrune []
  [(str "keep", param (fun v a => a <| backupPruneKeep := v |>)); (str "jail", param (fun v a => a <| backupPruneJailFilter := v |>));
   (str "dry-run", flag (fun a => a <| backupPruneDryRun := true |>));
   (str "delete-orphans", flag (fun a => a <| backupPruneDeleteOrphans := true |>))]
  (place backupPruneDir (fun v a => a <| backupPruneDir := v |>) (fail (str "too many arguments for 'backup-prune' command"))).

Definition onRestore : Handler := plain CmdRestore []
  [(str "to", param (fun v a => a <| restoreDataset := v |>))]
  (place restoreFile (fun v a => a <| restoreFile := v |>) (fail (str "too many arguments for 'restore' command"))).

Definition onReplicate : Handler := plain CmdReplicate []
  [(str "to", param (fun v a => a <| replicateTo := v |>)); (str "dest-dataset", param (fun v a => a <| replicateDestDataset := v |>));
   (str "since", param (fun v a => a <| replicateSince := v |>));
   (str "auto-incremental", flag (fun a => a <| replicateAutoIncremental := true |>));
   (str "ssh-port", paramUInt (fun n a => a <| replicateSshPort := n |>)); (str "ssh-key", param (fun v a => a <| replicateSshKey := v |>));
   (str "ssh-config", param (fun v a => a <| replicateSshConfig := v |>));
   (str "ssh-opt", param (fun v a => a <| replicateSshOpts ::= fun l => l ++ [v] |>))]
  (place replicateTarget (fun v a => a <| replicateTarget := v |>) (fail (str "too many arguments for 'replicate' command"))).

Definition onTemplate : Handler := plain CmdTemplate []
  [(str "output", param (fun v a => a <| warmOutputDataset := v |>)); (str "promote", flag (fun a => a <| warmPromote := true |>))]
  (place templateSubcmd (fun v a => a <| templateSubcmd := v |>)
  (place warmTarget (fun v a => a <| warmTarget := v |>)
  (fail (str "too many arguments for 'template' command")))).

Definition onRetune : Handler := plain CmdRetune []
  [(str "rctl", param (fun v a => a <| retunePairs ::= fun l => l ++ [v] |>));
   (str "clear", param (fun v a => a <| retuneClear ::= fun l => l ++ [v] |>)); (str "show", flag (fun a => a <| retuneShow := true |>))]
  (place retuneTarget (fun v a => a <| retuneTarget := v |>) (fail (str "too many arguments for 'retune' command"))).

Definition onDoctor : Handler :=
  let json := flag (fun a => a <| doctorJson := true |>) in
  plain CmdDoctor [("j"%char, json)] [(str "json", json); (str "refresh-cache", flag (fun a => a <| doctorRefreshCache := true |>))]
  (fail (str "'doctor' command takes no positional arguments")).

Definition onThrottle : Handler := plain CmdThrottle []
  [(str "ingress", param (fun v a => a <| throttleIngressRate := v |>)); (str "ingress-burst", param (fun v a => a <| throttleIngressBurst := v |>));
   (str "egress", param (fun v a => a <| throttleEgressRate := v |>)); (str "egress-burst", param (fun v a => a <| throttleEgressBurst := v |>));
   (str "queue", param (fun v a => a <| throttleQueue := v |>)); (str "clear", flag (fun a => a <| throttleClear := true |>));
   (str "show", flag (fun a => a <| throttleShow := true |>))]
  (place throttleTarget (fun v a => a <| throttleTarget := v |>) (fail (str "too many arguments for 'throttle' command"))).

Definition onVmWrap : Handler := plain CmdVmWrap []
  [(str "jail", param (fun v a => a <| vmWrapJailName := v |>)); (str "dataset", param (fun v a => a <| vmWrapDataset := v |>));
   (str "tap", paramUInt (fun n a => a <| vmWrapTap := i32 n |>)); (str "nmdm", paramUInt (fun n a => a <| vmWrapNmdm := i32 n |>));
   (str "path", param (fun v a => a <| vmWrapPath := v |>)); (str "ruleset", paramUInt (fun n a => a <| vmWrapRuleset := n |>));
   (str "output-dir", param (fun v a => a <| vmWrapOutputDir := v |>))]
  (place vmWrapVmName (fun v a => a <| vmWrapVmName := v |>) (fail (str "too many arguments for 'vm-wrap' command"))).

Definition onProfileFromTrace : Handler :=
  let output := param (fun v a => a <| traceOutput := v |>) in
  {| first := [(str "--", stopHere)]; shorts := [("h"%char, help (UsageOf CmdProfileFromTrace)); ("o"%char, output)]; second := [];
     longs := [(str "help", help (UsageOf CmdProfileFromTrace)); (str "output", output);
               (str "trace-file", param (fun v a => a <| traceFile := v |>)); (str "keep-trace", param (fun v a => a <| traceKeep := v |>))];
     otherwise := failArg (str "the command to trace goes after '--' (got '") (str "')") |}.

Definition onUpdate : Handler :=
  let dryRun := flag (fun a => a <| updateDryRun := true |>) in
  let yes := flag (fun a => a <| updateAssumeYes := true |>) in
  plain CmdUpdate [("n"%char, dryRun); ("y"%char, yes)]
  [(str "pkg-only", flag (fun a => a <| updatePkgOnly := true |>)); (str "dry-run", dryRun); (str "yes", yes)]
  (place updateTarget (fun v a => a <| updateTarget := v |>) (fail (str "too many arguments for 'update' command"))).

Definition handlerOf (c : Command) : option Handler :=
  match c with
  | CmdNone => None
  | CmdCreate => Some onCreate | CmdRun => Some onRun | CmdValidate => Some onValidate | CmdSnapshot => Some onSnapshot
  | CmdExport => Some onExport | CmdImport => Some onImport | CmdGui => Some onGui | CmdList => Some onList | CmdInfo => Some onInfo
  | CmdClean => Some onClean | CmdConsole => Some onConsole | CmdStack => Some onStack | CmdStats => Some onStats
  | CmdLogs => Some onLogs | CmdStop => Some onStop | CmdRestart => Some onRestart | CmdTop => Some onTop
  | CmdInterDns => Some onInterDns | CmdVpn => Some onVpn | CmdInspect => Some onInspect | CmdMigrate => Some onMigrate
  | CmdBackup => Some onBackup | CmdRestore => Some onRestore | CmdBackupPrune => Some onBackupPrune
  | CmdReplicate => Some onReplicate | CmdTemplate => Some onTemplate | CmdRetune => Some onRetune
  | CmdThrottle => Some onThrottle | CmdDoctor => Some onDoctor | CmdVmWrap => Some onVmWrap | CmdUpdate => Some onUpdate
  | CmdProfileFromTrace => Some onProfileFromTrace | CmdAudit => Some onAudit | CmdWrap => Some onWrap
  end.

(** ** The loop *)

Definition afterCmd : Act := fun a arg rest =>
  match handlerOf (cmd a) with Some h => handle h a arg rest | None => done a end.

(** Before the command.  The result says whether the command was found; a short
    option only leaves the inner [switch], so its word is looked at again by
    the [case] that follows, with the command not set yet. *)
Definition beforeCmd (a : Args) (arg : bytes) (rest : list bytes) : Quit + (Args * nat * bool * bool) :=
  let go a := inr (a, 1%nat, false, false) in
  if beq arg (str "--no-color") then go (a <| noColor := true |>)
  else if beq arg (str "--version") then inl Version
  else match isShort arg with
  | Some c =>
      if Ascii.eqb c "h" then inl (Shown Usage)
      else if Ascii.eqb c "V" then inl Version
      else if Ascii.eqb c "p" then
        match afterCmd (a <| logProgress := true |>) arg rest with
        | inl q => inl q
        | inr (a', n, stop) => inr (a', n, stop, false)
        end
      else inl (Fail (str "unsupported short option '" ++ arg ++ str "'"))
  | None =>
      match isLong arg with
      | Some l =>
          if beq l (str "help") then inl (Shown Usage)
          else if beq l (str "log-progress") then go (a <| logProgress := true |>)
          else inl (Fail (str "unsupported long option '" ++ arg ++ str "'"))
      | None =>
          match isCommand arg with
          | CmdNone => inl (Fail (str "unknown argument '" ++ arg ++ str "'"))
          | c => inr (a <| cmd := c |>, 1%nat, false, true)
          end
      end
  end.

(** [for (a = 1; !stop && a < argc; a++)]: the options and the final [a].  Every
    round takes an argument. *)
Fixpoint loop (fuel : nat) (found : bool) (a : Args) (pos : nat) (l : list bytes) : Quit + (Args * nat) :=
  match fuel, l with
  | S f, arg :: rest =>
      match (if found then match afterCmd a arg rest with inl q => inl q | inr (a', n, stop) => inr (a', n, stop, true) end
             else beforeCmd a arg rest) with
      | inl q => inl q
      | inr (a', n, stop, found') =>
          if (stop : bool) then inr (a', pos + n)%nat else loop f found' a' (pos + n) (drop n l)
      end
  | _, _ => inr (a, pos)
  end.

(** [argv] with the program's name in front; [isXzArchive] reads the file.  The
    result is the options and [processed]. *)
Definition parseArguments (isXzArchive : bytes -> bool) (garbage : Command) (argv : list bytes) : Quit + (Args * nat) :=
  let a := fresh garbage in
  let full := loop (length argv) false a 1 (tail argv) in
  match tail argv with
  | w :: more =>
      if starts_with (str "-") w then full
      else if is_empty more && hasExtension w (str ".yml") then inr (a <| cmd := CmdCreate |> <| createSpec := w |>, 2%nat)
      else if hasExtension w (str ".crate") && isXzArchive w then inr (a <| cmd := CmdRun |> <| runCrateFile := w |>, 2%nat)
      else full
  | [] => full
  end.
End ArgsParse.
