(* ===== verification/ArgsFacts.v ===== *)
(** * What the argument parser guarantees

    Where crate's own options end and the application's begin, the command
    lines that other parts of the program make, and the commands that cannot
    be reached. *)

From S2P Require Import Prelude CStd OMap RecordUpd UtilPure RunPure Profile Wrap Status Args ArgsParse.

Module ArgsFacts.
Import UtilPure Args ArgsParse.

Definition dashes : bytes := str "--".

(** The commands whose arguments end at [--]. *)
Definition dashed (c : Command) : bool := match c with CmdRun | CmdConsole | CmdProfileFromTrace => true | _ => false end.

(** ** Actions that look no further than [--]

    An action of command [c] keeps the command and takes at least one argument;
    for a command that ends at [--] it neither takes nor reads anything from
    there on. *)
Definition bounded (c : Command) (act : Act) : Prop :=
  forall a arg rest, cmd a = c ->
    match act a arg rest with
    | inl _ => True
    | inr (a', n, s) => cmd a' = c /\ (1 <= n)%nat /\
        (dashed c = true -> forall r post, rest = r ++ dashes :: post ->
           (n <= S (length r))%nat /\ forall post', act a arg (r ++ dashes :: post') = inr (a', n, s))
    end.

Section bounded.
Context {c : Command}.

Lemma bounded_help p : bounded c (help p).
Proof. by intros a arg rest. Qed.
Lemma bounded_fail m : bounded c (fail m).
Proof. by intros a arg rest. Qed.
Lemma bounded_failArg x y : bounded c (failArg x y).
Proof. by intros a arg rest. Qed.
Lemma bounded_unknown : bounded c unknownArgument.
Proof. apply bounded_failArg. Qed.
Lemma bounded_stop : bounded c stopHere.
Proof. intros a arg rest Hc. cbn. repeat split; [done|lia|lia]. Qed.

Lemma bounded_flag f : (forall a, cmd (f a) = cmd a) -> bounded c (flag f).
Proof. intros H a arg rest Hc. cbn. repeat split; [congruence|lia|lia]. Qed.

Lemma bounded_paramTry f : (forall v a a', f v a = inr a' -> cmd a' = cmd a) -> bounded c (paramTry f).
Proof.
  intros H a arg rest Hc. unfold paramTry. destruct (getArgParam rest) as [q|v] eqn:G; [done|].
  destruct (f v a) as [q|a'] eqn:E; [done|]. split; [rewrite <- Hc; by eapply H|]. split; [lia|].
  intros _ r post ->. destruct r as [|w r]; [done|]. cbn [app getArgParam] in *. destruct (starts_with (str "-") w); [done|].
  injection G as ->. split; [cbn; lia|]. intros post'. by rewrite E.
Qed.

Lemma bounded_param f : (forall v a, cmd (f v a) = cmd a) -> bounded c (param f).
Proof. intros H. apply bounded_paramTry. by intros v a a' [= <-]. Qed.
Lemma bounded_paramUInt f : (forall v a, cmd (f v a) = cmd a) -> bounded c (paramUInt f).
Proof. intros H. apply bounded_paramTry. intros v a a'. destruct (toUInt v); [done|]. by intros [= <-]. Qed.
Lemma bounded_setVar : bounded c setVar.
Proof. apply bounded_paramTry. intros v a a'. destruct (find_char "=" v); [|done]. by intros [= <-]. Qed.
Lemma bounded_statusFd : bounded c statusFd.
Proof. apply bounded_paramTry. intros v a a'. destruct (Status.parseStatusFd v); [done|]. by intros [= <-]. Qed.

Lemma bounded_place {R} (get : Args -> list R) set o : (forall v a, cmd (set v a) = cmd a) -> bounded c o -> bounded c (place get set o).
Proof.
  intros H Ho a arg rest Hc. unfold place. destruct (is_empty (get a)); [|by apply Ho]. cbn. repeat split; [by rewrite H|lia|lia].
Qed.
Lemma bounded_placeSub get set known what o :
  (forall v a, cmd (set v a) = cmd a) -> bounded c o -> bounded c (placeSub get set known what o).
Proof.
  intros H Ho a arg rest Hc. unfold placeSub. destruct (is_empty (get a)); [|by apply Ho]. destruct (existsb _ _); [|done].
  cbn. repeat split; [by rewrite H|lia|lia].
Qed.
Lemma bounded_if (b : Args -> bytes -> bool) x y :
  bounded c x -> bounded c y -> bounded c (fun a arg rest => if b a arg then x a arg rest else y a arg rest).
Proof. intros Hx Hy a arg rest Hc. destruct (b a arg); [by apply Hx|by apply Hy]. Qed.
Lemma bounded_append : bounded c (fun a arg _ => done (a <| consoleCmd ::= fun s => s ++ str " " ++ arg |>)).
Proof. intros a arg rest Hc. cbn. repeat split; [done|lia|lia]. Qed.
Lemma bounded_restOfLine : dashed c = false -> bounded c restOfLine.
Proof. intros H a arg rest Hc. cbn. split; [done|]. split; [lia|]. by rewrite H. Qed.
End bounded.

Create HintDb args.
#[local] Hint Resolve bounded_help bounded_fail bounded_failArg bounded_unknown bounded_stop bounded_flag bounded_param bounded_paramUInt bounded_setVar
  bounded_statusFd bounded_place bounded_placeSub bounded_append bounded_restOfLine : args.
#[local] Hint Extern 0 (forall a, cmd _ = cmd a) => done : args.
#[local] Hint Extern 0 (forall v a, cmd _ = cmd a) => done : args.
#[local] Hint Extern 0 (dashed _ = false) => done : args.
#[local] Hint Extern 3 (bounded _ (fun a arg rest => if starts_with _ arg then _ else _)) =>
  apply (bounded_if (fun _ arg => starts_with (str "-") arg)) : args.
#[local] Hint Extern 3 (bounded _ (fun a arg rest => if beq (stackSubcmd a) _ then _ else _)) =>
  apply (bounded_if (fun a _ => beq (stackSubcmd a) (str "exec"))) : args.
#[local] Hint Extern 3 (bounded _ (fun a arg rest => if beq (guiSubcmd a) _ then _ else _)) =>
  apply (bounded_if (fun a _ => beq (guiSubcmd a) (str "resize"))) : args.

Definition allBounded {K} (c : Command) (l : list (K * Act)) : Prop := Forall (fun x => bounded c (snd x)) l.

Lemma assoc_bounded {K} c (eqb : K -> K -> bool) k (l : list (K * Act)) act :
  allBounded c l -> assoc eqb k l = Some act -> bounded c act.
Proof. induction 1 as [|[x v] l Hx _ IH]; cbn; [done|]. destruct (eqb k x); [by intros [= <-]|done]. Qed.

Record handlerOk (c : Command) (h : Handler) : Prop := {
  ok_first : allBounded c (first h); ok_shorts : allBounded c (shorts h); ok_second : allBounded c (second h);
  ok_longs : allBounded c (longs h); ok_otherwise : bounded c (otherwise h) }.

Lemma handle_bounded c h : handlerOk c h -> bounded c (handle h).
Proof.
  intros [H1 H2 H3 H4 H5] a arg rest Hc. unfold handle.
  destruct (assoc beq arg (first h)) as [act|] eqn:E1; [by apply (assoc_bounded c beq arg (first h) act)|].
  destruct (isShort arg) as [s|].
  { destruct (assoc Ascii.eqb s (shorts h)) as [act|] eqn:E2; cbn [default]; [by apply (assoc_bounded c Ascii.eqb s (shorts h) act)|].
    by apply bounded_failArg. }
  destruct (assoc beq arg (second h)) as [act|] eqn:E3; [by apply (assoc_bounded c beq arg (second h) act)|].
  destruct (isLong arg) as [l|]; [|by apply H5].
  destruct (assoc beq l (longs h)) as [act|] eqn:E4; cbn [default]; [by apply (assoc_bounded c beq l (longs h) act)|].
  by apply bounded_failArg.
Qed.

Lemma handlers_ok c h : handlerOf c = Some h -> handlerOk c h.
Proof.
  destruct c; intros E; try discriminate; injection E as <-; constructor; cbn [plain first shorts second longs otherwise];
    unfold allBounded; repeat (apply Forall_cons; split); try apply Forall_nil_2; cbn [snd]; eauto 20 with args.
  all: match goal with |- bounded _ (otherwise ?h) => let h' := eval hnf in h in change h with h'; cbn [otherwise] end; eauto 20 with args.
Qed.

Lemma afterCmd_bounded c : bounded c afterCmd.
Proof.
  intros a arg rest Hc. unfold afterCmd. rewrite Hc. destruct (handlerOf c) as [h|] eqn:E.
  - pose proof (handle_bounded c h (handlers_ok c h E) a arg rest Hc) as B. destruct (handle h a arg rest) as [|[[a' n] s]]; [done|].
    destruct B as (B1 & B2 & B3). split; [done|]. split; [done|]. intros D r post Hr. destruct (B3 D r post Hr) as [B4 B5].
    by split.
  - cbn. split; [done|]. split; [lia|]. intros D. by destruct c.
Qed.

(** ** The loop *)

Lemma dashed_stop c a rest : cmd a = c -> dashed c = true -> afterCmd a dashes rest = inr (a, 1%nat, true).
Proof. intros Hc D. unfold afterCmd. rewrite Hc. by destruct c. Qed.

(** The loop never changes the command once it is found, and for a command that
    ends at [--] it stops there at the latest, whatever follows. *)
Lemma loop_found fuel a pos l a' n : loop fuel true a pos l = inr (a', n) -> cmd a' = cmd a.
Proof.
  revert a pos l. induction fuel as [|f IH]; intros a pos l; cbn [loop]; [by intros [= <- <-]|].
  destruct l as [|arg rest]; [by intros [= <- <-]|].
  pose proof (afterCmd_bounded (cmd a) a arg rest eq_refl) as B. destruct (afterCmd a arg rest) as [q|[[a1 k] s]]; [done|].
  destruct B as (B & _). destruct s; [by intros [= <- <-]|]. intros H%IH. congruence.
Qed.

Lemma loop_dashed fuel a pos r post a' n : dashed (cmd a) = true -> (length r < fuel)%nat ->
  loop fuel true a pos (r ++ dashes :: post) = inr (a', n) ->
  (n <= pos + length r + 1)%nat
  /\ forall fuel' post', (length r < fuel')%nat -> loop fuel' true a pos (r ++ dashes :: post') = inr (a', n).
Proof.
  revert a pos r. induction fuel as [|f IH]; intros a pos r D Hf; [lia|]. destruct r as [|arg r]; cbn [app loop].
  - rewrite (dashed_stop (cmd a)) by done. intros [= <- <-]. split; [cbn; lia|]. intros [|fuel'] post' Hf'; [cbn in Hf'; lia|].
    cbn [loop]. by rewrite (dashed_stop (cmd a)).
  - pose proof (afterCmd_bounded (cmd a) a arg (r ++ dashes :: post) eq_refl) as B.
    destruct (afterCmd a arg (r ++ dashes :: post)) as [q|[[a1 k] s]]; [done|].
    destruct B as (B1 & B2 & B3). destruct (B3 D r post eq_refl) as [B4 B5]. destruct s.
    + intros [= <- <-]. split; [cbn; lia|]. intros [|fuel'] post' Hf'; [cbn in Hf'; lia|]. cbn [app loop]. by rewrite B5.
    + destruct k as [|k]; [lia|]. cbn [drop]. rewrite drop_app_le by lia. intros H. apply IH in H as [H1 H2]; [|congruence|rewrite length_drop; cbn in Hf; lia].
      rewrite length_drop in H1. split; [cbn; lia|]. intros [|fuel'] post' Hf'; [cbn in Hf'; lia|]. cbn [app loop]. rewrite B5.
      cbn [drop]. rewrite drop_app_le by lia. apply H2. rewrite length_drop. cbn in Hf'. lia.
Qed.

(** Before the command nothing but global options is read; the word [-p] is
    looked at twice, which ends the program unless the memory of [cmd] happens
    to hold 0. *)
Lemma beforeCmd_spec a arg rest : match beforeCmd a arg rest with
  | inl _ => True
  | inr (a', n, s, found) => n = 1%nat /\ s = false /\ (found = false -> cmd a' = cmd a) /\ forall rest', beforeCmd a arg rest' = beforeCmd a arg rest
  end.
Proof.
  unfold beforeCmd. destruct (beq arg (str "--no-color")); [done|]. destruct (beq arg (str "--version")); [done|].
  destruct (isShort arg) as [c|] eqn:Es.
  - destruct (Ascii.eqb c "h"); [done|]. destruct (Ascii.eqb c "V"); [done|]. destruct (Ascii.eqb_spec c "p") as [->|]; [|done].
    assert (arg = str "-p") as ->.
    { unfold isShort in Es. destruct arg as [|x [|y [|]]]; try done. destruct (Ascii.eqb_spec x "-") as [->|]; [|done]. cbn in Es.
      destruct (is_alnum y); [|done]. by injection Es as ->. }
    unfold afterCmd. change (cmd (a <| logProgress := true |>)) with (cmd a).
    destruct (cmd a) eqn:Ec; try exact I. repeat split. intros _. exact Ec.
  - destruct (isLong arg) as [l|]; [|by destruct (isCommand arg)]. destruct (beq l (str "help")); [done|]. by destruct (beq l (str "log-progress")).
Qed.

Lemma loop_dashes fuel a pos r post a' n : dashed (cmd a') = true -> (length r < fuel)%nat ->
  loop fuel false a pos (r ++ dashes :: post) = inr (a', n) ->
  (n <= pos + length r + 1)%nat
  /\ forall fuel' post', (length r < fuel')%nat -> loop fuel' false a pos (r ++ dashes :: post') = inr (a', n).
Proof.
  intros D. revert a pos r. induction fuel as [|f IH]; intros a pos r Hf; [lia|]. destruct r as [|arg r]; cbn [app loop]; [done|].
  pose proof (beforeCmd_spec a arg (r ++ dashes :: post)) as B. destruct (beforeCmd a arg (r ++ dashes :: post)) as [q|[[[a1 k] s] found]] eqn:E; [done|].
  destruct B as (-> & -> & _ & B). cbn [drop]. destruct found; intros H.
  - pose proof (loop_found _ _ _ _ _ _ H) as Hc. rewrite Hc in D. apply loop_dashed in H as [H1 H2]; [|done|cbn in Hf; lia].
    split; [cbn; lia|]. intros [|fuel'] post' Hf'; [cbn in Hf'; lia|]. cbn [app loop]. rewrite B. cbn [drop]. apply H2. cbn in Hf'. lia.
  - apply IH in H as [H1 H2]; [|cbn in Hf; lia]. split; [cbn; lia|]. intros [|fuel'] post' Hf'; [cbn in Hf'; lia|].
    cbn [app loop]. rewrite B. cbn [drop]. apply H2. cbn in Hf'. lia.
Qed.

(** C16: what follows [--] is the application's: for run, console and
    profile-from-trace the parser stops at the first [--] at the latest, and
    the options it returns and the place where it stopped are the same whatever
    comes after it. *)
Theorem after_dashes_is_not_read (isXz : bytes -> bool) (garbage : Command) (prog : bytes) (before after after' : list bytes) (a : Args) (n : nat) :
  parseArguments isXz garbage (prog :: before ++ dashes :: after) = inr (a, n) ->
  dashed (cmd a) = true ->
  (n <= length before + 2)%nat
  /\ parseArguments isXz garbage (prog :: before ++ dashes :: after') = inr (a, n).
Proof.
  unfold parseArguments. cbn [tail]. intros H D.
  assert (L : forall post, loop (length (prog :: before ++ dashes :: post)) false (fresh garbage) 1 (before ++ dashes :: post) = inr (a, n) ->
    (n <= length before + 2)%nat
    /\ forall post', loop (length (prog :: before ++ dashes :: post')) false (fresh garbage) 1 (before ++ dashes :: post') = inr (a, n)).
  { intros post Hl. apply loop_dashes in Hl as [H1 H2]; [|done|cbn; rewrite length_app; cbn; lia]. split; [lia|].
    intros post'. apply H2. cbn. rewrite length_app. cbn. lia. }
  destruct before as [|w before]; cbn [app] in *.
  - change (starts_with (str "-") dashes) with true in *. cbn iota in *. apply L in H as [H1 H2]. by split.
  - destruct (starts_with (str "-") w); [apply L in H as [H1 H2]; by split|].
    assert (E : forall post, is_empty (before ++ dashes :: post) = false) by (by destruct before). rewrite E in *. cbn [andb] in *.
    destruct (hasExtension w (str ".crate") && isXz w).
    + injection H as <- <-. split; [cbn; lia|done].
    + apply L in H as [H1 H2]. by split.
Qed.

Lemma after_dashes_is_not_read_witness :
  parseArguments (fun _ => false) CmdNone [str "crate"; str "run"; str "firefox"; str "--"; str "--version"; str "--"]
  = inr ((fresh CmdNone) <| cmd := CmdRun |> <| runProfile := str "firefox" |>, 4%nat).
Proof.
  refine (proj2 (after_dashes_is_not_read (fun _ => false) CmdNone (str "crate") [str "run"; str "firefox"] [] [str "--version"; str "--"] _ 4 _ _));
    vm_compute; reflexivity.
Defined.

(** ** Command lines the program makes itself *)

Lemma isShort_head w c : isShort w = Some c -> starts_with (str "-") w = true.
Proof. unfold isShort. destruct w as [|x [|y [|]]]; try done. cbn. by destruct (Ascii.eqb_spec x "-") as [->|]. Qed.
Lemma isLong_head w c : isLong w = Some c -> starts_with (str "-") w = true.
Proof. unfold isLong. destruct w as [|x [|y t]]; try done. cbn. destruct (Ascii.eqb_spec x "-") as [->|]; [|done]. by cbn. Qed.

(** A word that is not an option. *)
Lemma run_word a arg rest : starts_with (str "-") arg = false -> is_empty (runProfile a) = true ->
  handle onRun a arg rest = done (a <| runProfile := arg |>).
Proof.
  intros H E. unfold handle, onRun. cbn [first assoc].
  destruct (beq_spec arg (str "--")) as [->|_]; [done|]. destruct (beq_spec arg (str "--var")) as [->|_]; [done|].
  destruct (isShort arg) eqn:Es; [by apply isShort_head in Es; congruence|]. cbn [second assoc].
  destruct (isLong arg) eqn:El; [by apply isLong_head in El; congruence|]. cbn [otherwise]. rewrite H. unfold place. by rewrite E.
Qed.

(** The launcher of a profile runs that profile with the arguments it was
    given, whatever they look like. *)
Lemma launcher_runs_profile isXz garbage prog profile args fs :
  Profile.validateProfileName profile = [] ->
  exists a, parseArguments isXz garbage (prog :: str "run" :: profile :: dashes :: args) = inr (a, 4%nat)
    /\ a = (fresh garbage) <| cmd := CmdRun |> <| runProfile := profile |> /\ validate fs a = inr a
    /\ drop 4 (prog :: str "run" :: profile :: dashes :: args) = args.
Proof.
  intros Hv. pose proof (Profile.profileName_ok _ Hv) as (_ & _ & c & t & -> & Hd & _).
  assert (Hs : starts_with (str "-") (c :: t) = false).
  { destruct (starts_with _ _) eqn:E; [|done]. apply starts_with_spec in E as [u [= -> _]]. done. }
  eexists. split; [|split; [reflexivity|split; [|done]]].
  - unfold parseArguments. cbn [tail]. change (starts_with (str "-") (str "run")) with false. cbn [is_empty andb].
    change (hasExtension (str "run") (str ".crate")) with false. cbn [andb length loop].
    change (beforeCmd (fresh garbage) (str "run") ?r) with (@inr Quit (Args * nat * bool * bool) ((fresh garbage) <| cmd := CmdRun |>, 1%nat, false, true)).
    cbn [drop loop]. unfold afterCmd at 1. cbn [cmd update handlerOf].
    change (handlerOf (cmd ((fresh garbage) <| cmd := CmdRun |>))) with (Some onRun). cbn iota.
    rewrite run_word by done. cbn [done drop loop]. by rewrite (dashed_stop CmdRun).
  - unfold validate, check. change (cmd ((fresh garbage) <| cmd := CmdRun |> <| runProfile := c :: t |>)) with CmdRun. cbn iota.
    change (validateRun fs ((fresh garbage) <| cmd := CmdRun |> <| runProfile := c :: t |>)) with (Profile.validateProfileName (c :: t)).
    by rewrite Hv.
Qed.

(** The command line of a detached run: the crate file, the descriptor and the
    progress flag arrive. *)
Lemma spawned_run_parsed isXz garbage file logProgress fs :
  starts_with (str "-") file = false -> file <> [] -> opens fs file = true ->
  exists a, parseArguments isXz garbage (Status.crateRunArgv [str "-f"; file] logProgress) = inr (a, (6 + if logProgress then 1 else 0)%nat)
    /\ validate fs a = inr a
    /\ (cmd a, runCrateFile a, runStatusFd a, Args.logProgress a) = (CmdRun, file, 3, logProgress).
Proof.
  intros Hf He Ho.
  assert (R : forall a pos, cmd a = CmdRun -> loop 5 true a pos [str "-f"; file; str "--status-fd"; str "3"]
    = inr (a <| runCrateFile := file |> <| runStatusFd := 3 |>, (pos + 4)%nat)).
  { intros a pos Hc. cbn [loop]. unfold afterCmd at 1. rewrite Hc. cbn [handlerOf].
    change (handle onRun a (str "-f") (file :: ?r)) with (param (fun v a => a <| runCrateFile := v |>) a (str "-f") (file :: r)).
    unfold param, paramTry. cbn [getArgParam]. rewrite Hf. cbn [drop loop]. unfold afterCmd at 1. change (cmd (a <| runCrateFile := file |>)) with (cmd a).
    rewrite Hc. cbn [handlerOf]. change (handle onRun ?x (str "--status-fd") [str "3"]) with (@inr Quit (Args * nat * bool) (x <| runStatusFd := 3 |>, 2%nat, false)).
    cbn [drop loop]. by rewrite <- Nat.add_assoc. }
  assert (V : forall a, cmd a = CmdRun -> runWarmBase a = [] -> runProfile a = [] -> runName a = [] -> runCrateFile a = file -> validate fs a = inr a).
  { intros a H1 H2 H3 H4 H5. unfold validate, check, validateRun. apply is_empty_false in He. by rewrite H1, H2, H3, H4, H5, He, Ho. }
  destruct logProgress; eexists; (split; [|split]).
  - change (parseArguments isXz garbage (Status.crateRunArgv [str "-f"; file] true)) with
      (loop 5 true ((fresh garbage) <| Args.logProgress := true |> <| cmd := CmdRun |>) 3 [str "-f"; file; str "--status-fd"; str "3"]).
    by rewrite R.
  - by apply V.
  - done.
  - change (parseArguments isXz garbage (Status.crateRunArgv [str "-f"; file] false)) with
      (loop 5 true ((fresh garbage) <| cmd := CmdRun |>) 2 [str "-f"; file; str "--status-fd"; str "3"]).
    by rewrite R.
  - by apply V.
  - done.
Qed.

(** ** Commands that cannot be used *)

(** [crate export] and [crate import] never run: they are parsed, but
    [validate] has no case for them, so every use of them is refused with the
    message for a missing command. *)
Lemma export_import_refused (isXz : bytes -> bool) (garbage : Command) (fs : Files) (argv : list bytes) (a : Args) (n : nat) :
  parseArguments isXz garbage argv = inr (a, n) -> cmd a = CmdExport \/ cmd a = CmdImport ->
  validate fs a = inl (str "no command was given").
Proof. intros _ [H|H]; unfold validate, check; by rewrite H. Qed.

(** [crate] without a command runs what the memory of [cmd] happens to name. *)
Lemma no_command_runs_garbage isXz garbage prog : parseArguments isXz garbage [prog] = inr (fresh garbage, 1%nat).
Proof. done. Qed.
Lemma garbage_can_clean isXz fs prog :
  match parseArguments isXz CmdClean [prog] with inr (a, _) => validate fs a = inr a /\ cleanDryRun a = false | inl _ => False end.
Proof. done. Qed.

(** [-p] is accepted only when that memory holds 0. *)
Lemma short_p_needs_luck isXz garbage prog : garbage <> CmdNone ->
  parseArguments isXz garbage [prog; str "-p"; str "list"] = inl (Fail (str "unsupported short option '-p'")).
Proof. by destruct garbage. Qed.
Lemma long_p_works isXz garbage prog : exists a n, parseArguments isXz garbage [prog; str "--log-progress"; str "list"] = inr (a, n).
Proof. do 2 eexists. reflexivity. Qed.

(** The form the help of [stack exec] shows is refused. *)
Example stack_exec_dashes :
  parseArguments (fun _ => false) CmdNone (map str ["crate"; "stack"; "exec"; "app.yml"; "db"; "--"; "ls"]%string)
  = inl (Fail (str "unsupported long option '--'")).
Proof. reflexivity. Qed.

(** ** Launchers *)

Lemma shQuote_shellQuote s : Wrap.shQuote s = shellQuote s.
Proof. unfold Wrap.shQuote, shellQuote. by rewrite flat_map_concat_map. Qed.

Definition plainByte (c : ascii) : bool := negb (Ascii.eqb c squote || Ascii.eqb c backslash || Ascii.eqb c " " || Ascii.eqb c tab || shellSpecial c).

Lemma plain_step cur c rest : plainByte c = true ->
  shellWords false cur (c :: rest) = shellWords false (Some (default [] cur ++ [c])) rest.
Proof.
  intros Hc. unfold plainByte in Hc. apply negb_true_iff in Hc.
  apply orb_false_iff in Hc as [Hc H5]. apply orb_false_iff in Hc as [Hc H4]. apply orb_false_iff in Hc as [Hc H3].
  apply orb_false_iff in Hc as [H1 H2]. cbn [shellWords]. by rewrite H1, H2, H3, H4, H5.
Qed.

Lemma plain_word cur w rest : forallb plainByte w = true ->
  shellWords false (Some cur) (w ++ rest) = shellWords false (Some (cur ++ w)) rest.
Proof.
  revert cur. induction w as [|c w IH]; intros cur H; cbn [app]; [by rewrite app_nil_r|]. cbn [forallb] in H.
  apply andb_true_iff in H as [Hc Hw]. rewrite plain_step, IH by done. cbn [default]. by rewrite <- app_assoc.
Qed.

Lemma name_plain p : forallb RunPure.nameByte p = true -> forallb plainByte p = true.
Proof. rewrite !forallb_forall. intros H c Hc%H. revert c Hc. by_bytes. Qed.

Lemma launcher_words path profile : Profile.validateProfileName profile = [] ->
  shellWords false None (str "exec " ++ Wrap.shQuote path ++ str " run " ++ profile ++ str " -- ")
  = Some [str "exec"; path; str "run"; profile; dashes].
Proof.
  intros Hv. pose proof (Profile.profileName_ok _ Hv) as (_ & Hb & c & t & E & _). rewrite shQuote_shellQuote.
  change (shellWords false None (str "exec " ++ ?r)) with (cons (str "exec") <$> shellWords false None r).
  unfold shellQuote. cbn [app]. change (shellWords false None (squote :: ?x)) with (shellWords true (Some []) x).
  rewrite <- app_assoc. cbn [app]. rewrite quoted_body. cbn [app].
  change (shellWords false (Some path) (str " run " ++ ?r)) with (cons path <$> (cons (str "run") <$> shellWords false None r)).
  assert (N : shellWords false None (profile ++ str " -- ") = Some [profile; dashes]).
  { pose proof (name_plain _ Hb) as Hp. rewrite E in *. cbn [app]. cbn [forallb] in Hp. apply andb_true_iff in Hp as [Hc Ht].
    rewrite plain_step by done. cbn [default app].
    rewrite plain_word by done. reflexivity. }
  by rewrite N.
Qed.

(** The command lines the program makes for itself are understood.  The
    shell reads the last line of a launcher as crate's path, [run], the profile
    and [--], quoting included; crate parses that to a valid run of the profile
    and hands on exactly the arguments after [--]; and the line of a detached
    run parses to a valid run of the crate file with events on descriptor 3 and
    the progress flag it was started with. *)
Theorem own_command_lines_understood (isXz : bytes -> bool) (garbage : Command) (fs : Files) (path prog profile file : bytes) (args : list bytes) (progress : bool) :
  Profile.validateProfileName profile = [] ->
  starts_with (str "-") file = false -> file <> [] -> opens fs file = true ->
  shellWords false None (str "exec " ++ Wrap.shQuote path ++ str " run " ++ profile ++ str " -- ")
    = Some (str "exec" :: path :: str "run" :: profile :: [dashes])
  /\ (exists a, parseArguments isXz garbage (prog :: str "run" :: profile :: dashes :: args) = inr (a, 4%nat)
        /\ a = (fresh garbage) <| cmd := CmdRun |> <| runProfile := profile |> /\ validate fs a = inr a
        /\ drop 4 (prog :: str "run" :: profile :: dashes :: args) = args)
  /\ exists a n, parseArguments isXz garbage (Status.crateRunArgv [str "-f"; file] progress) = inr (a, n)
        /\ validate fs a = inr a
        /\ (cmd a, runCrateFile a, runStatusFd a, logProgress a) = (CmdRun, file, 3, progress).
Proof.
  intros Hv Hf He Ho. split; [by apply launcher_words|]. split; [by apply launcher_runs_profile|].
  destruct (spawned_run_parsed isXz garbage file progress fs Hf He Ho) as (a & H). eauto.
Qed.

Lemma own_command_lines_understood_witness :
  shellWords false None (str "exec " ++ Wrap.shQuote (str "/opt/my crate/crate") ++ str " run " ++ str "firefox" ++ str " -- ")
  = Some [str "exec"; str "/opt/my crate/crate"; str "run"; str "firefox"; dashes].
Proof.
  apply (own_command_lines_understood (fun _ => false) CmdNone {| homeDir := str "/root"; fileExists := fun _ => true; opens := fun _ => true |}
    (str "/opt/my crate/crate") (str "crate") (str "firefox") (str "web.crate") [str "-h"] true); try (vm_compute; reflexivity).
  discriminate.
Defined.
End ArgsFacts.
