(* ===== verification/CliMain.v ===== *)
(** * The command's main: cli/main.cpp

    The environment the command rebuilds, the restart policy it reads from a
    crate, the loop that restarts a run, and how it ends.  The commands
    themselves are what [main] calls: a run is its return code. *)

From S2P Require Import Prelude CStd OMap RecordUpd UtilPure RunPure Yaml Spec SpecSections Profile Wrap Status Args ArgsParse.

Module CliMain.
Import UtilPure Spec SpecSections Args ArgsParse.

(** ** The environment *)

(** [getenv] before, and the home directory of the caller's passwd entry.
    [defPath] and [shell] are [_PATH_DEFPATH] and [_PATH_BSHELL]. *)
Definition kept (getenv : bytes -> option bytes) (name : bytes) : list (bytes * bytes) :=
  match getenv name with Some v => [(name, v)] | None => [] end.

Definition cleanEnv (defPath shell : bytes) (getenv : bytes -> option bytes) (home : bytes) : list (bytes * bytes) :=
  [(str "PATH", defPath); (str "HOME", if is_empty home then str "/" else home); (str "SHELL", shell)]
  ++ kept getenv (str "TERM") ++ kept getenv (str "DISPLAY") ++ kept getenv (str "WAYLAND_DISPLAY") ++ kept getenv (str "LANG")
  ++ kept getenv (str "XAUTHORITY")
  ++ match getenv (str "NO_COLOR") with Some _ => [(str "NO_COLOR", [])] | None => [] end
  ++ kept getenv (str "XDG_RUNTIME_DIR") ++ kept getenv (str "XDG_CURRENT_DESKTOP").

Definition lookupEnv (env : list (bytes * bytes)) (name : bytes) : option bytes := assoc beq name env.

(** ** The restart policy of a crate *)

Section policy.
Context `{Yaml} (asUnsigned : Node -> option Z).

(** [node[key]] and its truth value: of a scalar it throws, of anything else
    that is not a map it is undefined. *)
Definition subscript (n : Node) (k : bytes) : unit + option Node :=
  match n with Scalar _ => inl tt | Map _ => inr (field k n) | _ => inr None end.

(** A conversion that throws leaves what was stored before it. *)
Definition readPolicy (n : Node) (r : RestartPolicy) : RestartPolicy * bool :=
  match field (str "policy") n with
  | Some p =>
      match asString p with
      | None => (r, false)
      | Some w => (r <| rs_policy := w |>, true)
      end
  | None => (r, true)
  end.

Definition readNumber (k : bytes) (set : Z -> RestartPolicy -> RestartPolicy) (n : Node) (rk : RestartPolicy * bool) : RestartPolicy * bool :=
  let '(r, ok) := rk in
  if negb ok then (r, false)
  else match field k n with
       | Some v => match asUnsigned v with Some z => (set z r, true) | None => (r, false) end
       | None => (r, true)
       end.

(** The checks behind the conversions; skipped when one of them threw. *)
Definition settle (r : RestartPolicy) : RestartPolicy :=
  let r1 := if existsb (beq (rs_policy r)) [str "no"; str "on-failure"; str "always"; str "unless-stopped"] then r
            else r <| rs_policy := str "no" |> in
  if rs_delaySec r1 =? 0 then r1 <| rs_delaySec := 1 |> else r1.

Definition policyOfNode (n : Node) : RestartPolicy :=
  let '(r, ok) :=
    match n with
    | Scalar _ => match asString n with Some w => (blankRestart <| rs_policy := w |>, true) | None => (blankRestart, false) end
    | Map _ =>
        readNumber (str "delay") (fun z r => r <| rs_delaySec := z |>) n
          (readNumber (str "max_retries") (fun z r => r <| rs_maxRetries := z |>) n (readPolicy n blankRestart))
    | _ => (blankRestart, true)
    end in
  if ok then settle r else r.

(** [doc]: the crate's [+CRATE.SPEC], when it could be extracted and loaded. *)
Definition restartPolicyOf (doc : option Node) : option RestartPolicy :=
  match doc with
  | None => None
  | Some n =>
      match subscript n (str "restart") with
      | inl _ => None
      | inr (Some v) => Some (policyOfNode v)
      | inr None =>
          match subscript n (str "restart_policy") with
          | inr (Some v) => Some (policyOfNode v)
          | _ => None
          end
      end
  end.
End policy.

(** ** The restart loop *)

Definition SIGINT : Z := 2.
Definition SIGTERM : Z := 15.

(** What one run leaves: whether the command succeeded, and its code. *)
Record Ran := { succ : bool; returnCode : Z }.

Definition signalled (r : Ran) : bool := (returnCode r =? 128 + SIGINT) || (returnCode r =? 128 + SIGTERM).

Definition shouldRestart (policy : bytes) (r : Ran) : bool :=
  if beq policy (str "always") then true
  else if beq policy (str "on-failure") then negb (returnCode r =? 0)
  else beq policy (str "unless-stopped").

(** The [for (;;)]: [run i] is the [i]-th run, [attempt] is unsigned.  The runs
    made, in order; [None] when the fuel does not last. *)
Fixpoint restartLoop (fuel : nat) (policy : option RestartPolicy) (run : Z -> Ran) (attempt : Z) : option (list Ran) :=
  match fuel with
  | O => None
  | S f =>
      let attempt := u32 (attempt + 1) in
      let r := run attempt in
      match policy with
      | None => Some [r]
      | Some p =>
          if beq (rs_policy p) (str "no") then Some [r]
          else if signalled r then Some [r]
          else if negb (shouldRestart (rs_policy p) r) then Some [r]
          else if rs_maxRetries p <? attempt then Some [r]
          else cons r <$> restartLoop f policy run attempt
      end
  end.

(** [return succ ? returnCode : 1] after the last run *)
Definition exitCode (r : Ran) : Z := if succ r then returnCode r else 1.

(** ** main *)

Inductive Outcome := InJail | Quits (q : Quit) | Invalid (msg : bytes) | Commands (a : Args) (rest : list bytes).

(** Up to the [switch]: [rest] is what the command gets of [argv]. *)
Definition mainGuarded (jailed : Z) (isXz : bytes -> bool) (garbage : Command) (fs : Files) (argv : list bytes) : Outcome :=
  if negb (jailed =? 0) then InJail
  else match parseArguments isXz garbage argv with
       | inl q => Quits q
       | inr (a, processed) =>
           match validate fs a with
           | inl e => Invalid e
           | inr a' => Commands a' (drop processed argv)
           end
       end.

(** ** What holds *)

(** No variable of the caller's environment reaches a child under any other
    name than these, and [PATH], [HOME] and [SHELL] are never the caller's. *)
Lemma environment_is_rebuilt defPath shell getenv home k v :
  In (k, v) (cleanEnv defPath shell getenv home) ->
  (k = str "PATH" /\ v = defPath) \/ (k = str "HOME" /\ v = (if is_empty home then str "/" else home)) \/ (k = str "SHELL" /\ v = shell)
  \/ (k = str "NO_COLOR" /\ v = [])
  \/ (In k (map str ["TERM"; "DISPLAY"; "WAYLAND_DISPLAY"; "LANG"; "XAUTHORITY"; "XDG_RUNTIME_DIR"; "XDG_CURRENT_DESKTOP"]%string) /\ getenv k = Some v).
Proof.
  unfold cleanEnv. rewrite !in_app_iff. intros Hin.
  assert (K : forall n, In (k, v) (kept getenv n) -> k = n /\ getenv k = Some v).
  { intros n. unfold kept. destruct (getenv n) eqn:E; [|done]. intros [[= <- <-]|[]]. done. }
  cbn [map In].
  repeat destruct Hin as [Hin|Hin]; try (apply K in Hin as [-> ?]; tauto); try (injection Hin as <- <-; tauto); try done.
  destruct (getenv (str "NO_COLOR")); [|done]. destruct Hin as [[= <- <-]|[]]. tauto.
Qed.

(** The rebuilt environment has no [XDG_DATA_HOME]: desktop entries always go
    under the home directory. *)
Lemma xdg_data_home_ignored defPath shell getenv home profile :
  Wrap.desktopPath home (default [] (lookupEnv (cleanEnv defPath shell getenv home) (str "XDG_DATA_HOME"))) profile
  = home ++ str "/.local/share/applications/" ++ Wrap.desktopFileName profile.
Proof.
  assert (E : lookupEnv (cleanEnv defPath shell getenv home) (str "XDG_DATA_HOME") = None).
  { assert (A : forall l, (forall v, ~ In (str "XDG_DATA_HOME", v) l) -> lookupEnv l (str "XDG_DATA_HOME") = None).
    { induction l as [|[k v] l IH]; intros Hn; [done|]. unfold lookupEnv in *. cbn [assoc]. destruct (beq_spec (str "XDG_DATA_HOME") k) as [<-|_].
      - exfalso. apply (Hn v). by left.
      - apply IH. intros u Hu. apply (Hn u). by right. }
    apply A. intros v Hin%environment_is_rebuilt. cbn [map In] in Hin.
    repeat destruct Hin as [Hin|Hin]; destruct Hin as [Hk _]; try (by vm_compute in Hk). intuition discriminate. }
  rewrite E. unfold Wrap.desktopPath, Wrap.applicationsDir. cbn [default]. change (starts_with (str "/") []) with false. cbn iota.
  by rewrite <- app_assoc.
Qed.

Definition restartable (policy : bytes) (r : Ran) : bool := negb (signalled r) && shouldRestart policy r.

(** The runs number [k + 1] to [k + length l]. *)
Definition runsFrom (run : Z -> Ran) (k : Z) (n : nat) : list Ran := map (fun i => run (k + Z.of_nat i)) (List.seq 1 n).

Lemma runsFrom_S run k n : runsFrom run k (S n) = run (k + 1) :: runsFrom run (k + 1) n.
Proof.
  unfold runsFrom. cbn [List.seq map]. f_equal. rewrite <- seq_shift, map_map. apply map_ext. intros i. f_equal. lia.
Qed.

Lemma restartLoop_runs p run fuel k : rs_maxRetries p < 2 ^ 32 - 1 -> 0 <= k <= rs_maxRetries p -> rs_maxRetries p - k < Z.of_nat fuel ->
  exists n, restartLoop fuel (Some p) run k = Some (runsFrom run k (S n))
    /\ k + Z.of_nat n <= rs_maxRetries p
    /\ (forall i, (i < n)%nat -> restartable (rs_policy p) (run (k + 1 + Z.of_nat i)) = true)
    /\ (restartable (rs_policy p) (run (k + 1 + Z.of_nat n)) = false \/ k + Z.of_nat n = rs_maxRetries p).
Proof.
  intros Hm. revert k. induction fuel as [|f IH]; intros k Hk Hf; [lia|]. cbn [restartLoop].
  assert (u32 (k + 1) = k + 1) as -> by (unfold u32; apply Z.mod_small; lia).
  assert (S0 : runsFrom run k 1 = [run (k + 1)]) by (by rewrite runsFrom_S).
  assert (N : restartable (rs_policy p) (run (k + 1)) = false -> exists n, Some [run (k + 1)] = Some (runsFrom run k (S n))
    /\ k + Z.of_nat n <= rs_maxRetries p
    /\ (forall i, (i < n)%nat -> restartable (rs_policy p) (run (k + 1 + Z.of_nat i)) = true)
    /\ (restartable (rs_policy p) (run (k + 1 + Z.of_nat n)) = false \/ k + Z.of_nat n = rs_maxRetries p)).
  { intros E. exists 0%nat. rewrite S0, Z.add_0_r. repeat split; [lia|lia|]. left. by rewrite Z.add_0_r. }
  unfold restartable in N. destruct (beq_spec (rs_policy p) (str "no")) as [Ep|_].
  { apply N. rewrite Ep. by rewrite andb_false_r. }
  destruct (signalled (run (k + 1))) eqn:Es; [by apply N|]. destruct (shouldRestart (rs_policy p) (run (k + 1))) eqn:Er; [|by apply N].
  cbn [negb]. destruct (Z.ltb_spec (rs_maxRetries p) (k + 1)).
  { exists 0%nat. rewrite S0, Z.add_0_r. repeat split; [lia|lia|]. right. lia. }
  destruct (IH (k + 1) ltac:(lia) ltac:(lia)) as (n & -> & H1 & H2 & H3). exists (S n). rewrite (runsFrom_S run k (S n)).
  repeat split; [lia| |].
  - intros [|i] Hi; [unfold restartable; rewrite Z.add_0_r, Es, Er; done|].
    replace (k + 1 + Z.of_nat (S i)) with (k + 1 + 1 + Z.of_nat i) by lia. apply H2. lia.
  - replace (k + 1 + Z.of_nat (S n)) with (k + 1 + 1 + Z.of_nat n) by lia. destruct H3; [by left|right; lia].
Qed.

(** C31: the restart loop ends: whatever the runs return, a container with a
    restart policy whose max_retries is below 2^32 - 1 (with that value it may never end:
    [restarts_forever]) is run at most one time more than its max_retries; it is run
    again exactly while the last run was neither stopped by SIGINT or SIGTERM
    nor, under on-failure, ended with 0, and retries are left. *)
Theorem restarts_end (p : RestartPolicy) (run : Z -> Ran) :
  0 <= rs_maxRetries p < 2 ^ 32 - 1 ->
  exists n, restartLoop (S (Z.to_nat (rs_maxRetries p))) (Some p) run 0 = Some (runsFrom run 0 (S n))
    /\ Z.of_nat n <= rs_maxRetries p
    /\ (forall i, (i < n)%nat -> restartable (rs_policy p) (run (1 + Z.of_nat i)) = true)
    /\ (restartable (rs_policy p) (run (1 + Z.of_nat n)) = false \/ Z.of_nat n = rs_maxRetries p).
Proof. intros H. by apply (restartLoop_runs p run (S (Z.to_nat (rs_maxRetries p))) 0); lia. Qed.

(** A container that fails twice and is then stopped with Ctrl-C. *)
Lemma restarts_end_witness :
  restartLoop 6 (Some {| rs_policy := str "always"; rs_maxRetries := 5; rs_delaySec := 1 |})
    (fun i => {| succ := true; returnCode := if i <? 3 then 1 else 130 |}) 0
  = Some [{| succ := true; returnCode := 1 |}; {| succ := true; returnCode := 1 |}; {| succ := true; returnCode := 130 |}].
Proof.
  destruct (restarts_end {| rs_policy := str "always"; rs_maxRetries := 5; rs_delaySec := 1 |}
    (fun i => {| succ := true; returnCode := if i <? 3 then 1 else 130 |})) as (n & E & Hn & Hr & Hl); [cbn; lia|].
  cbn [rs_maxRetries rs_policy] in *. change (S (Z.to_nat 5)) with 6%nat in E. rewrite E.
  assert (n = 2%nat) as ->; [|reflexivity].
  destruct n as [|[|[|n]]]; [| |done|specialize (Hr 2%nat ltac:(lia)); by vm_compute in Hr]; destruct Hl as [Hl|Hl]; by vm_compute in Hl.
Defined.

(** A retry limit of UINT_MAX is none: the counter wraps before it is passed. *)
Lemma restarts_forever p run fuel k : rs_maxRetries p = 2 ^ 32 - 1 -> rs_policy p = str "always" ->
  (forall i, signalled (run i) = false) -> 0 <= k < 2 ^ 32 -> restartLoop fuel (Some p) run k = None.
Proof.
  intros Hm Hp Hs. revert k. induction fuel as [|f IH]; intros k Hk; [done|]. cbn [restartLoop]. rewrite Hp, Hs, Hm.
  change (beq (str "always") (str "no")) with false. change (shouldRestart (str "always") ?r) with true. cbn [negb].
  assert (0 <= u32 (k + 1) < 2 ^ 32) by (apply Z.mod_pos_bound; lia). destruct (Z.ltb_spec (2 ^ 32 - 1) (u32 (k + 1))); [lia|].
  by rewrite IH.
Qed.

(** A number that does not convert leaves the policy that was read before it,
    with the default limits. *)
Example bad_number_keeps_policy :
  let y := plainYaml in
  option_map rs_policy (restartPolicyOf (fun _ => None)
    (Some (Map [(Scalar (str "restart"), Map [(Scalar (str "policy"), Scalar (str "always")); (Scalar (str "max_retries"), Scalar (str "many"))])])))
  = Some (str "always").
Proof. reflexivity. Qed.
End CliMain.
