(* ===== verification/WrapCmd.v ===== *)
(** * crate wrap: lib/wrap.cpp

    Installing, removing and listing launchers, over a file system that is a
    map from paths to contents.  A command takes a file system to an outcome
    and the file system it leaves, which it leaves when it throws as well.
    Every system call may fail.  Directories are not part of the map, nor are
    file modes; output is left out. *)

From S2P Require Import Prelude CStd OMap RecordUpd UtilPure RunPure Profile Wrap Args.

Module WrapCmd.
Import Args Wrap.

Definition Fs : Type := list (bytes * bytes).

(** A step of a command: it returns, or throws with a message. *)
Definition Cmd : Type := Fs -> (bytes + unit) * Fs.
Definition done_ : Cmd := fun fs => (inr tt, fs).
Definition throw (msg : bytes) : Cmd := fun fs => (inl msg, fs).
Definition seq (m n : Cmd) : Cmd := fun fs => match m fs with (inr _, fs1) => n fs1 | r => r end.
Declare Scope cmd_scope.
Notation "m ;;; n" := (seq m n) (at level 100, right associativity) : cmd_scope.
Local Open Scope cmd_scope.

(** What the command gets from its surroundings: the caller's home, the rebuilt
    environment's [XDG_DATA_HOME], its pid, crate's path and version, whether
    the spec at a path is one of a GUI program; the error of a system call on a
    path, if it fails, and how much of so many bytes a write puts into a file. *)
Record Env := {
  home : bytes; xdg : bytes; pid : Z; cratePath : bytes; version : bytes; specIsGui : bytes -> bool;
  fails : string -> bytes -> option bytes; writes : bytes -> nat -> bytes + nat }.

Section env.
Context (env : Env).

Definition fileExists (fs : Fs) (path : bytes) : bool := OMap.count path fs.
Definition readFile (fs : Fs) (path : bytes) (maxBytes : nat) : bytes := take maxBytes (default [] (OMap.find path fs)).

(** A system call, with what it does to the files when it succeeds. *)
Definition syscall (call : string) (arg : bytes) (effect : Fs -> Fs) : Cmd := fun fs =>
  match fails env call arg with
  | Some why => (inl (str "'" ++ str call ++ str "' failed, arg=" ++ arg ++ str ": " ++ why), fs)
  | None => (inr tt, effect fs)
  end.

(** Opened with O_TRUNC, then one write. *)
Definition writeFile (data path : bytes) : Cmd :=
  syscall "open" path (OMap.insert path []) ;;;
  (fun fs => match writes env path (length data) with
             | inl why => (inl (str "failed to write file: " ++ why), fs)
             | inr n =>
                 let fs1 := OMap.insert path (take n data) fs in
                 if Nat.eqb n (length data) then (inr tt, fs1)
                 else (inl (str "short write in file, attempted to write " ++ dec (size_z data) ++ str " bytes, actually wrote only "
                            ++ dec (Z.of_nat n) ++ str " bytes"), fs1)
             end) ;;;
  syscall "close" path (fun fs => fs).

Definition tmpOf (path : bytes) : bytes := path ++ str ".tmp." ++ dec_signed (pid env).

Definition renamed (tmp path : bytes) (fs : Fs) : Fs :=
  match OMap.find tmp fs with Some content => OMap.insert path content (OMap.erase tmp fs) | None => fs end.

Definition writeAtomic (path content : bytes) : Cmd :=
  let tmp := tmpOf path in
  writeFile content tmp ;;;
  syscall "chmod" tmp (fun fs => fs) ;;;
  (fun fs => match fails env "rename" path with
             | None => (inr tt, renamed tmp path fs)
             | Some why =>
                 (inl (str "cannot write " ++ path ++ str ": " ++ why),
                  match fails env "unlink" tmp with None => OMap.erase tmp fs | Some _ => fs end)
             end).

Definition homeDir : bytes + bytes :=
  if starts_with (str "/") (home env) then inr (home env)
  else inl (str "cannot determine the invoking user's home directory (getpwuid)").

Definition findProfile (fs : Fs) (h name : bytes) : option bytes := List.find (fileExists fs) (Profile.specSearchPaths h name).

Definition ownsLauncher (fs : Fs) (path : bytes) : option bytes :=
  if fileExists fs path then launcherProfile (readFile fs path 4096) else None.
Definition ownsDesktop (fs : Fs) (path : bytes) : option bytes :=
  if fileExists fs path then desktopProfile (readFile fs path (16 * 1024)) else None.

Definition foreign (fs : Fs) (path : bytes) (owner : option bytes) : bool :=
  fileExists fs path && match owner with None => true | Some _ => false end.

Definition launcherName (a : Args) : bytes := if is_empty (wrapName a) then wrapProfile a else wrapName a.

Definition ensureDir (dir : bytes) : Cmd := fun fs =>
  match fails env "create_directories" dir with
  | Some why => (inl (str "cannot create " ++ dir ++ str ": " ++ why), fs)
  | None => (inr tt, fs)
  end.

Definition installLauncher (a : Args) (h : bytes) : Cmd := fun fs =>
  if wrapNoLauncher a then done_ fs
  else
    let launcher := launcherPath h (launcherName a) in
    if foreign fs launcher (ownsLauncher fs launcher) && negb (wrapForce a) then
      throw (launcher ++ str " exists and was not written by `crate wrap`; use --force to replace it, or --name for another name") fs
    else (ensureDir (binDir h) ;;; writeAtomic launcher (renderLauncher (wrapProfile a) (cratePath env) (version env))) fs.

Definition installDesktop (a : Args) (h specPath : bytes) : Cmd := fun fs =>
  if negb (wrapDesktop a) then done_ fs
  else
    let desktop := desktopPath h (xdg env) (wrapProfile a) in
    if foreign fs desktop (ownsDesktop fs desktop) && negb (wrapForce a) then
      throw (desktop ++ str " exists and was not written by `crate wrap`; use --force to replace it") fs
    else (ensureDir (applicationsDir h (xdg env)) ;;;
          writeAtomic desktop (renderDesktop (wrapProfile a) (cratePath env) (version env) (negb (specIsGui env specPath)) (wrapIcon a))) fs.

Definition wrapInstall (a : Args) : Cmd := fun fs =>
  match homeDir with
  | inl e => throw e fs
  | inr h =>
      match findProfile fs h (wrapProfile a) with
      | None =>
          throw (str "profile '" ++ wrapProfile a ++ str "' not found; searched " ++ CStd.joined (str ", ") (Profile.specSearchPaths h (wrapProfile a))
                 ++ str " — a launcher needs a profile `crate run " ++ wrapProfile a ++ str "` can find") fs
      | Some specPath =>
          (installLauncher a h ;;; installDesktop a h specPath ;;;
           if wrapNoLauncher a && negb (wrapDesktop a) then throw (str "nothing to install: --no-launcher without --desktop") else done_) fs
      end
  end.

(** [Util::Fs::unlink]: when the file is protected, its flags are cleared and it is tried again. *)
Definition unlinkFile (path : bytes) : Cmd := fun fs =>
  match fails env "unlink" path with
  | None => (inr tt, OMap.erase path fs)
  | Some why =>
      if beq why (str "Operation not permitted")
      then (syscall "chflags" path (fun fs => fs) ;;; syscall "unlink (2)" path (OMap.erase path)) fs
      else throw (str "'unlink (1)' failed, arg=" ++ path ++ str ": " ++ why) fs
  end.

(** One of the two files: kept when it is not ours, or wraps another profile. *)
Definition removeOne (a : Args) (owner : Fs -> option bytes) (path : bytes) : Cmd := fun fs =>
  match owner fs with
  | None => done_ fs
  | Some p => if negb (beq p (wrapProfile a)) && is_empty (wrapName a) then done_ fs else unlinkFile path fs
  end.

Definition wrapRemove (a : Args) : Cmd := fun fs =>
  match homeDir with
  | inl e => throw e fs
  | inr h =>
      let launcher := launcherPath h (launcherName a) in
      let desktop := desktopPath h (xdg env) (wrapProfile a) in
      (removeOne a (fun fs => ownsLauncher fs launcher) launcher ;;;
       (* the second path is taken for the launcher when both are the same *)
       removeOne a (fun fs => if beq desktop launcher then ownsLauncher fs desktop else ownsDesktop fs desktop) desktop) fs
  end.

(** [entryFor(p)], then the change made to that entry. *)
Fixpoint updateEntry (p : bytes) (f : Entry -> Entry) (l : list Entry) : list Entry :=
  match l with
  | [] => [f {| e_profile := p; e_launcher := []; e_desktop := [] |}]
  | e :: t => if beq (e_profile e) p then f e :: t else e :: updateEntry p f t
  end.

Definition addLauncher (fs : Fs) (l : list Entry) (path : bytes) : list Entry :=
  match ownsLauncher fs path with
  | Some p => updateEntry p (fun e => {| e_profile := e_profile e;
                e_launcher := e_launcher e ++ (if is_empty (e_launcher e) then [] else str ", ") ++ path; e_desktop := e_desktop e |}) l
  | None => l
  end.

(** [std::filesystem::path::extension]: a dot in front of the name is not one. *)
Definition extension (path : bytes) : bytes :=
  let name := UtilPure.filePathToFileName path in
  if beq name (str ".") || beq name (str "..") then []
  else match UtilPure.rfind_char "." name with Some (S i) => drop (S i) name | _ => [] end.

Definition addDesktop (fs : Fs) (l : list Entry) (path : bytes) : list Entry :=
  if negb (beq (extension path) (str ".desktop")) then l
  else match ownsDesktop fs path with
       | Some p => updateEntry p (fun e => {| e_profile := e_profile e; e_launcher := e_launcher e; e_desktop := path |}) l
       | None => l
       end.

(** [bin] and [apps]: the regular files of the two directories, in the order
    the system gives. *)
Definition wrapEntries (fs : Fs) (bin apps : list bytes) : list Entry :=
  fold_left (addDesktop fs) apps (fold_left (addLauncher fs) bin []).

Definition wrapList `{StdSort} (fs : Fs) (h : bytes) (bin apps : list bytes) : bytes :=
  match wrapEntries fs bin apps with
  | [] => str "no launchers installed by `crate wrap` in " ++ binDir h ++ str " or " ++ applicationsDir h (xdg env) ++ [newline]
  | l => renderList (std_sort (fun a b => OMap.bytes_ltb (e_profile a) (e_profile b)) l)
  end.

(** ** Invariants of commands *)

(** [P] holds of the files a command leaves, whether it returns or throws. *)
Definition keeps (P : Fs -> Prop) (m : Cmd) : Prop := forall fs, P fs -> P (snd (m fs)).

Lemma keeps_seq P m n : keeps P m -> keeps P n -> keeps P (m ;;; n).
Proof. intros M N fs H. unfold seq. specialize (M fs H). destruct (m fs) as [[e|[]] fs1]; [done|]. by apply N. Qed.
Lemma keeps_done P : keeps P done_.
Proof. by intros fs. Qed.
Lemma keeps_throw P e : keeps P (throw e).
Proof. by intros fs. Qed.
Lemma keeps_syscall P call arg effect : (forall fs, P fs -> P (effect fs)) -> keeps P (syscall call arg effect).
Proof. intros H fs Hp. unfold syscall. destruct (fails env call arg); [done|]. by apply H. Qed.
Lemma keeps_ensureDir P d : keeps P (ensureDir d).
Proof. intros fs H. unfold ensureDir. by destruct (fails env _ d). Qed.

(** What is said of a set of paths: the map is one, and they are as they were. *)
Definition untouched (q : bytes) (s : option bytes) (fs : Fs) : Prop := OMap.wf fs /\ OMap.find q fs = s.

Lemma untouched_insert q s p c fs : q <> p -> untouched q s fs -> untouched q s (OMap.insert p c fs).
Proof. intros N [W H]. split; [by apply OMap.wf_insert|]. by rewrite OMap.find_insert, decide_False. Qed.
Lemma untouched_erase q s p fs : q <> p -> untouched q s fs -> untouched q s (OMap.erase p fs).
Proof. intros N [W H]. split; [by apply OMap.wf_erase|]. by rewrite OMap.find_erase, decide_False. Qed.

Lemma writeFile_keeps q s data p : q <> p -> keeps (untouched q s) (writeFile data p).
Proof.
  intros N. apply keeps_seq; [apply keeps_syscall; intros; by apply untouched_insert|]. apply keeps_seq; [|by apply keeps_syscall].
  intros fs H. destruct (writes env p (length data)) as [why|n]; [done|]. pose proof (untouched_insert q s p (take n data) fs N H). by destruct (Nat.eqb n (length data)).
Qed.

(** A write touches its path and the temporary one, however it goes. *)
Lemma writeAtomic_keeps q s path content : q <> path -> q <> tmpOf path -> keeps (untouched q s) (writeAtomic path content).
Proof.
  intros N1 N2. apply keeps_seq; [by apply writeFile_keeps|]. apply keeps_seq; [by apply keeps_syscall|]. intros fs H.
  destruct (fails env "rename" path); [by destruct (fails env "unlink" (tmpOf path)); [|apply untouched_erase]|].
  cbn [snd]. unfold renamed. destruct (OMap.find (tmpOf path) fs); [|done]. by apply untouched_insert, untouched_erase.
Qed.

Lemma unlinkFile_keeps q s path : q <> path -> keeps (untouched q s) (unlinkFile path).
Proof.
  intros N fs H. unfold unlinkFile. destruct (fails env "unlink" path) as [why|]; [|by apply untouched_erase]. destruct (beq _ _); [|done].
  revert fs H. apply keeps_seq; [by apply keeps_syscall|]. apply keeps_syscall. intros. by apply untouched_erase.
Qed.

(** ** Files of others are left alone *)

(** A file [crate wrap] did not write: neither marker is found in it. *)
Definition foreignText (s : bytes) : Prop := launcherProfile (take 4096 s) = None /\ desktopProfile (take (16 * 1024) s) = None.

Lemma owns_foreign fs q s : OMap.find q fs = Some s -> foreignText s -> fileExists fs q = true /\ ownsLauncher fs q = None /\ ownsDesktop fs q = None.
Proof. intros Hq [H1 H2]. unfold ownsLauncher, ownsDesktop, fileExists, OMap.count, readFile. rewrite Hq. by repeat split. Qed.

(** A path that an install of [target] has to leave alone: it is not the target,
    or, without --force, holds a file of another hand. *)
Definition spared (a : Args) (q : bytes) (s : option bytes) (target : bytes) : Prop :=
  q <> tmpOf target /\ (q <> target \/ (wrapForce a = false /\ exists t, s = Some t /\ foreignText t)).

Lemma installLauncher_keeps a q s h : spared a q s (launcherPath h (launcherName a)) -> keeps (untouched q s) (installLauncher a h).
Proof.
  intros [T H] fs U. unfold installLauncher. destruct (wrapNoLauncher a); [done|]. cbv zeta. destruct (_ && _) eqn:E; [done|].
  assert (N : q <> launcherPath h (launcherName a)).
  { destruct H as [H|(F & t & -> & Ht)]; [done|]. intros ->. destruct (owns_foreign _ _ _ (proj2 U) Ht) as (X & O & _).
    unfold foreign in E. by rewrite X, O, F in E. }
  revert fs U E. intros fs U _. by apply keeps_seq; [apply keeps_ensureDir|apply writeAtomic_keeps|].
Qed.

Lemma installDesktop_keeps a q s h sp : spared a q s (desktopPath h (xdg env) (wrapProfile a)) -> keeps (untouched q s) (installDesktop a h sp).
Proof.
  intros [T H] fs U. unfold installDesktop. destruct (negb (wrapDesktop a)); [done|]. cbv zeta. destruct (_ && _) eqn:E; [done|].
  assert (N : q <> desktopPath h (xdg env) (wrapProfile a)).
  { destruct H as [H|(F & t & -> & Ht)]; [done|]. intros ->. destruct (owns_foreign _ _ _ (proj2 U) Ht) as (X & _ & O).
    unfold foreign in E. by rewrite X, O, F in E. }
  by apply keeps_seq; [apply keeps_ensureDir|apply writeAtomic_keeps|].
Qed.

Definition launcher (a : Args) : bytes := launcherPath (home env) (launcherName a).
Definition desktop (a : Args) : bytes := desktopPath (home env) (xdg env) (wrapProfile a).

Lemma homeDir_home h : homeDir = inr h -> h = home env.
Proof. unfold homeDir. destruct (starts_with _ _); [|done]. by intros [= <-]. Qed.

Lemma install_keeps a q s : spared a q s (launcher a) -> spared a q s (desktop a) -> keeps (untouched q s) (wrapInstall a).
Proof.
  intros L D fs U. unfold wrapInstall. destruct homeDir as [e|h] eqn:E; [done|]. apply homeDir_home in E as ->.
  destruct (findProfile fs (home env) (wrapProfile a)) as [sp|]; [|done]. revert fs U.
  apply keeps_seq; [by apply installLauncher_keeps|]. apply keeps_seq; [by apply installDesktop_keeps|]. destruct (_ && _); [apply keeps_throw|apply keeps_done].
Qed.

Lemma removeOne_keeps a owner path q s : (q <> path \/ exists t, s = Some t /\ forall fs, OMap.find q fs = Some t -> owner fs = None) ->
  keeps (untouched q s) (removeOne a owner path).
Proof.
  intros H fs U. unfold removeOne. destruct (owner fs) as [p|] eqn:E; [|done]. destruct (_ && _); [done|].
  destruct H as [N|(t & -> & Ho)]; [by apply unlinkFile_keeps|]. by rewrite (Ho fs (proj2 U)) in E.
Qed.

Lemma remove_keeps a q s : ((q <> launcher a /\ q <> desktop a) \/ exists t, s = Some t /\ foreignText t) -> keeps (untouched q s) (wrapRemove a).
Proof.
  intros H fs U. unfold wrapRemove. destruct homeDir as [e|h] eqn:E; [done|]. apply homeDir_home in E as ->. revert fs U. cbv zeta.
  apply keeps_seq; apply removeOne_keeps.
  - destruct H as [[H _]|(t & -> & Ht)]; [by left|]. destruct (decide (q = launcher a)) as [->|]; [right|by left]. exists t. split; [done|].
    intros fs Hf. by destruct (owns_foreign _ _ _ Hf Ht) as (_ & ? & _).
  - destruct H as [[_ H]|(t & -> & Ht)]; [by left|]. destruct (decide (q = desktop a)) as [->|]; [right|by left]. exists t. split; [done|].
    intros fs Hf. destruct (owns_foreign _ _ _ Hf Ht) as (_ & ? & ?). by case_match.
Qed.

(** ** What an install leaves when it succeeds *)

Lemma seq_ok m n fs fs' : (m ;;; n) fs = (inr tt, fs') -> exists fs1, m fs = (inr tt, fs1) /\ n fs1 = (inr tt, fs').
Proof. unfold seq. destruct (m fs) as [[e|[]] fs1]; [done|]. eauto. Qed.

Lemma syscall_ok call arg effect fs fs' : syscall call arg effect fs = (inr tt, fs') -> fs' = effect fs.
Proof. unfold syscall. destruct (fails env call arg); [done|]. by intros [= <-]. Qed.

Lemma writeFile_ok data p fs fs' : OMap.wf fs -> writeFile data p fs = (inr tt, fs') -> OMap.wf fs' /\ OMap.find p fs' = Some data.
Proof.
  intros W (fs1 & ->%syscall_ok & (fs2 & H & ->%syscall_ok)%seq_ok)%seq_ok. destruct (writes env p (length data)) as [why|m]; [done|].
  cbv zeta in H. destruct (Nat.eqb_spec m (length data)) as [E|E]; [|done]. injection H as <-. rewrite E, firstn_all.
  assert (W1 : OMap.wf (OMap.insert p [] fs)) by (by apply OMap.wf_insert).
  split; [by apply OMap.wf_insert|]. by rewrite OMap.find_insert, decide_True.
Qed.

Lemma tmpOf_other path : path <> tmpOf path.
Proof. unfold tmpOf. intros H%(f_equal length). rewrite !length_app in H. cbn in H. lia. Qed.

Lemma writeAtomic_ok path content fs fs' : OMap.wf fs -> writeAtomic path content fs = (inr tt, fs') ->
  OMap.wf fs' /\ OMap.find path fs' = Some content /\ OMap.find (tmpOf path) fs' = None.
Proof.
  intros W (fs1 & (W1 & F)%writeFile_ok & (fs2 & ->%syscall_ok & H)%seq_ok)%seq_ok; [|done]. destruct (fails env "rename" path); [done|].
  injection H as <-. unfold renamed. rewrite F. assert (W2 : OMap.wf (OMap.erase (tmpOf path) fs1)) by (by apply OMap.wf_erase).
  split; [by apply OMap.wf_insert|]. split; [by rewrite OMap.find_insert, decide_True|].
  rewrite OMap.find_insert, decide_False by (done || by apply not_eq_sym, tmpOf_other). by rewrite OMap.find_erase, decide_True.
Qed.

Lemma installLauncher_ok a h fs fs' : OMap.wf fs -> installLauncher a h fs = (inr tt, fs') -> wrapNoLauncher a = false ->
  OMap.wf fs' /\ OMap.find (launcherPath h (launcherName a)) fs' = Some (renderLauncher (wrapProfile a) (cratePath env) (version env)).
Proof.
  intros W H N. unfold installLauncher in H. rewrite N in H. cbv zeta in H. destruct (_ && _); [done|].
  apply seq_ok in H as (fs1 & H1 & H). assert (fs1 = fs) as -> by (unfold ensureDir in H1; destruct (fails _ _ _); by injection H1). by apply writeAtomic_ok in H as (? & ? & _).
Qed.

Lemma installDesktop_ok a h sp fs fs' : OMap.wf fs -> installDesktop a h sp fs = (inr tt, fs') -> wrapDesktop a = true ->
  OMap.find (desktopPath h (xdg env) (wrapProfile a)) fs'
  = Some (renderDesktop (wrapProfile a) (cratePath env) (version env) (negb (specIsGui env sp)) (wrapIcon a)).
Proof.
  intros W H N. unfold installDesktop in H. rewrite N in H. cbn [negb] in H. cbv zeta in H. destruct (_ && _); [done|].
  apply seq_ok in H as (fs1 & H1 & H). assert (fs1 = fs) as -> by (unfold ensureDir in H1; destruct (fails _ _ _); by injection H1). by apply writeAtomic_ok in H as (? & ? & _).
Qed.

(** The files an install that succeeded leaves in place. *)
Definition installed (a : Args) (fs fs' : Fs) : Prop :=
  (wrapDesktop a = true -> exists sp, findProfile fs (home env) (wrapProfile a) = Some sp
     /\ OMap.find (desktop a) fs' = Some (renderDesktop (wrapProfile a) (cratePath env) (version env) (negb (specIsGui env sp)) (wrapIcon a)))
  /\ (wrapNoLauncher a = false -> launcher a <> desktop a -> launcher a <> tmpOf (desktop a) ->
     OMap.find (launcher a) fs' = Some (renderLauncher (wrapProfile a) (cratePath env) (version env)))
  /\ (wrapNoLauncher a = false \/ wrapDesktop a = true).

Lemma install_ok a fs fs' : OMap.wf fs -> wrapInstall a fs = (inr tt, fs') -> installed a fs fs'.
Proof.
  intros W. unfold wrapInstall. destruct homeDir as [e|h] eqn:E; [done|]. apply homeDir_home in E as ->.
  destruct (findProfile fs (home env) (wrapProfile a)) as [sp|] eqn:F; [|done].
  intros (fs1 & H1 & (fs2 & H2 & H3)%seq_ok)%seq_ok. assert (fs2 = fs' /\ (wrapNoLauncher a = false \/ wrapDesktop a = true)) as [-> Some_].
  { destruct (wrapNoLauncher a), (wrapDesktop a); try done; injection H3 as <-; split; [done|tauto..]. }
  assert (W1 : OMap.wf fs1).
  { destruct (wrapNoLauncher a) eqn:N; [unfold installLauncher in H1; rewrite N in H1; by injection H1 as <-|by apply (installLauncher_ok a) in H1 as [? _]]. }
  split; [intros D; exists sp; split; [done|by eapply installDesktop_ok]|]. split; [|done]. intros N N1 N2.
  apply installLauncher_ok in H1 as [_ H1]; [|done..].
  assert (U : untouched (launcher a) (Some (renderLauncher (wrapProfile a) (cratePath env) (version env))) (snd (installDesktop a (home env) sp fs1))).
  { apply (installDesktop_keeps a); [|by split]. split; [done|by left]. }
  rewrite H2 in U. apply U.
Qed.

End env.

Definition sampleEnv : Env :=
  {| home := str "/home/ann"; xdg := []; pid := 4711; cratePath := str "/usr/local/bin/crate"; version := str "1.1.70";
     specIsGui := fun _ => true; fails := fun _ _ => None; writes := fun _ n => inr n |}.
Definition sampleArgs : Args := (fresh CmdWrap) <| wrapProfile := str "firefox" |> <| wrapDesktop := true |>.
Definition ownScript : bytes := str "#!/bin/sh" ++ [newline] ++ str "exec /opt/firefox".
Definition sampleFs : Fs :=
  [(str "/home/ann/.local/bin/firefox", ownScript);
   (str "/usr/local/share/crate/profiles/firefox.yml", str "run: {command: /usr/local/bin/firefox}")].


Example install_refused :
  wrapInstall sampleEnv sampleArgs sampleFs
  = (inl (str "/home/ann/.local/bin/firefox exists and was not written by `crate wrap`; use --force to replace it, or --name for another name"), sampleFs).
Proof. vm_compute. reflexivity. Qed.

(** The launcher is there already when the desktop file is refused. *)
Example desktop_refused_late :
  let fs := [(str "/home/ann/.local/share/applications/crate-firefox.desktop", str "[Desktop Entry]");
             (str "/usr/local/share/crate/profiles/firefox.yml", str "run: {command: /usr/local/bin/firefox}")] in
  let '(r, fs') := wrapInstall sampleEnv sampleArgs fs in
  (exists e, r = inl e) /\ fileExists fs' (str "/home/ann/.local/bin/firefox") = true
  /\ OMap.find (str "/home/ann/.local/share/applications/crate-firefox.desktop") fs' = Some (str "[Desktop Entry]").
Proof. vm_compute. split; [by eexists|done]. Qed.

Example installed_is_listed :
  wrapEntries (snd (wrapInstall sampleEnv (sampleArgs <| wrapName := str "ff" |>) sampleFs))
    [str "/home/ann/.local/bin/ff"; str "/home/ann/.local/bin/firefox"] []
  = [{| e_profile := str "firefox"; e_launcher := str "/home/ann/.local/bin/ff"; e_desktop := [] |}].
Proof. vm_compute. reflexivity. Qed.
End WrapCmd.
