(* ===== verification/ProfileMerge.v ===== *)
(** * Merging a profile with its override: lib/profile.cpp

    The merge, and what an override can share. *)

From S2P Require Import Prelude CStd UtilPure OMap RecordUpd Limits RunPure Yaml Spec SpecParse SpecSections SpecFacts SpecMerge Profile.

(** ** Merging a profile with its override: lib/profile.cpp

    [crate run <profile>] checks the operator's [<name>.local.yml], merges it
    over the profile's spec, writes the result and builds a crate of it when
    the one it has is older than its sources. *)


Module ProfileMerge.
Import Spec SpecParse SpecSections SpecFacts Profile.

Section merge.
Context `{Yaml}.

(** ** Nodes *)

(** [result[key] = v]: the first entry with that key, or a new one at the end. *)
Fixpoint setField (key : bytes) (v : Node) (l : list (Node * Node)) : list (Node * Node) :=
  match l with
  | [] => [(Scalar key, v)]
  | (k, w) :: t => if bool_decide (asString k = Some key) then (k, v) :: t else (k, w) :: setField key v t
  end.

(** An option: its name and its details, [Null] when it has none. *)
Definition Opt : Type := bytes * Node.

Definition collectItem (what : bytes) (item : Node) : bytes + Opt :=
  match item with
  | Scalar s => inr (s, Null)
  | Map [(k, v)] => name ← AsString k; inr (name, v)
  | _ => inl (what ++ str ": options list entries must be option names")
  end.

Definition collectEntry (what : bytes) (kv : Node * Node) : bytes + Opt :=
  match fst kv with
  | Scalar s => inr (s, snd kv)
  | _ => inl (what ++ str ": option names must be scalars")
  end.

Definition collectOptions (n : Node) (what : bytes) : bytes + list Opt :=
  match n with
  | Null => inr []
  | Scalar s => inr [(s, Null)]
  | Sequence l => mapM (collectItem what) l
  | Map l => mapM (collectEntry what) l
  end.

(** The option of that name, replaced by what [f] makes of its details. *)
Fixpoint updateFirst (name : bytes) (f : Node -> bytes + Node) (items : list Opt) : bytes + option (list Opt) :=
  match items with
  | [] => inr None
  | (n, d) :: t =>
      if beq n name then d' ← f d; inr (Some ((n, d') :: t))
      else match updateFirst name f t with
           | inl e => inl e
           | inr None => inr None
           | inr (Some t') => inr (Some ((n, d) :: t'))
           end
  end.

Definition addOption (merge : Node -> Node -> bytes + Node) (items : list Opt) (o : Opt) : bytes + list Opt :=
  r ← updateFirst (fst o) (fun d => if IsMap d && IsMap (snd o) then merge d (snd o)
                                     else if negb (IsNull (snd o)) then inr (snd o) else inr d) items;
  inr (default (items ++ [o]) r).

Definition optionsNode (items : list Opt) : Node :=
  if existsb (fun i => negb (IsNull (snd i))) items
  then Map (fold_left (fun l i => setField (fst i) (snd i) l) items [])
  else Sequence (map (fun i => Scalar (fst i)) items).

Definition mergeOptions (merge : Node -> Node -> bytes + Node) (base overlay : Node) : bytes + Node :=
  items ← collectOptions base (str "base spec");
  over ← collectOptions overlay (str "override");
  r ← foldM (addOption merge) over items;
  inr (optionsNode r).

(** An entry of an override's map, put into [result]. *)
Definition mergeEntry (merge : Node -> Node -> bytes + Node) (topLevel : bool) (result : list (Node * Node)) (kv : Node * Node) : bytes + list (Node * Node) :=
  match fst kv with
  | Scalar key =>
      match field key (Map result) with
      | None => inr (setField key (snd kv) result)
      | Some old =>
          merged ← (if topLevel && beq key (str "options") then mergeOptions merge old (snd kv) else merge old (snd kv));
          inr (setField key merged result)
      end
  | _ => inl (str "overlay map keys must be scalars")
  end.

(** Items are compared by the text they are emitted as. *)
Definition mergeItem (result : list Node) (item : Node) : list Node :=
  if existsb (fun x => beq (emit x) (emit item)) result then result else result ++ [item].

(** The fuel is the depth of the override. *)
Fixpoint mergeNode (fuel : nat) (topLevel : bool) (base overlay : Node) : bytes + Node :=
  match base, overlay with
  | _, Null => inr base
  | Null, _ => inr overlay
  | Map b, Map o =>
      match fuel with
      | O => inl []
      | S f => r ← foldM (mergeEntry (mergeNode f false) topLevel) o b; inr (Map r)
      end
  | Sequence b, Sequence o => inr (Sequence (fold_left mergeItem o b))
  | _, _ => inr overlay
  end.

Fixpoint depth (n : Node) : nat :=
  match n with
  | Null | Scalar _ => 0
  | Sequence l => S (fold_right (fun x m => Nat.max (depth x) m) 0%nat l)
  | Map l => S (fold_right (fun kv m => Nat.max (Nat.max (depth (fst kv)) (depth (snd kv))) m) 0%nat l)
  end.

Definition mergeYaml (base overlay : Node) : bytes + Node := mergeNode (depth overlay) true base overlay.

(** ** What an override may share *)

(** The host path of an entry that is one, as written. *)
Definition localHost (entry : Node) : option bytes :=
  match entry with
  | Scalar s => Some s
  | Sequence [_; Scalar h] | Sequence [_; Scalar h; _] => Some h
  | _ => None
  end.

Definition checkShareEntry (home path key : bytes) (entry : Node) : bytes + unit :=
  match localHost entry with
  | None => inr tt
  | Some h => errOn (path ++ str ": " ++ key ++ str "/share: ") (checkLocalShareHostPath (fst (Mounts.splitRoSuffix h)) home)
  end.

Definition checkLocalEntry (home path : bytes) (kv : Node * Node) : bytes + unit :=
  match fst kv with
  | Scalar key =>
      _ ← errOn (path ++ str ": ") (checkLocalTopLevelKey key);
      if (beq key (str "dirs") || beq key (str "files")) && IsMap (snd kv) then
        match field (str "share") (snd kv) with
        | Some (Sequence l) => forM (checkShareEntry home path key) l
        | _ => inr tt
        end
      else inr tt
  | _ => inl (path ++ str ": top-level keys must be scalars")
  end.

Definition checkLocalOverlay (overlay : Node) (home path : bytes) : bytes + unit :=
  match overlay with
  | Null => inr tt
  | Map l => forM (checkLocalEntry home path) l
  | _ => inl (path ++ str ": a .local override must be a YAML map of spec keys")
  end.

(** ** Where the entries of a merged document come from *)

(** The pairs of a map. *)
Definition pairs (n : Node) : list (Node * Node) := match n with Map l => l | _ => [] end.

(** Every value under a key, every element of a list. *)
Definition FieldOk (Q : Node -> Prop) (key : bytes) (n : Node) : Prop :=
  Forall (fun kv => asString (fst kv) = Some key -> Q (snd kv)) (pairs n).
Definition SeqOk (P : Node -> Prop) (n : Node) : Prop := Forall P (elements n).

(** A property that merging keeps. *)
Definition Kept (Q : Node -> Prop) : Prop := forall fuel b o r, Q b -> Q o -> mergeNode fuel false b o = inr r -> Q r.

Lemma SeqOk_kept P : Kept (SeqOk P).
Proof.
  intros fuel b o r Hb Ho E. unfold SeqOk in *. destruct fuel, b as [|?|l|m], o as [|?|l'|m']; cbn in E; minv E; try (injection E as <-; done); try done.
  all: injection E as <-; cbn in *; revert l Hb; induction l' as [|i l' IH]; intros l Hb; [done|]; cbn [fold_left];
    apply Forall_cons in Ho as [Hi Ho]; apply IH; [done|]; unfold mergeItem; case_match; [done|]; apply Forall_app; split; [done|by repeat constructor].
Qed.

Lemma setField_ok (Q : Node -> Prop) key k v l :
  (key = k -> Q v) -> Forall (fun kv => asString (fst kv) = Some key -> Q (snd kv)) l ->
  Forall (fun kv => asString (fst kv) = Some key -> Q (snd kv)) (setField k v l).
Proof.
  intros Hv. induction l as [|[k' w] l IH]; intros Hl; cbn [setField].
  - repeat constructor. cbn. rewrite asString_scalar. intros [= <-]. by apply Hv.
  - apply Forall_cons in Hl as [Hw Hl]. case_bool_decide as E; constructor; auto. cbn in *. rewrite E. intros [= <-]. by apply Hv.
Qed.

Lemma field_in key l v : field key (Map l) = Some v -> exists k, In (k, v) l /\ asString k = Some key.
Proof.
  cbn. destruct (List.find _ l) as [[k w]|] eqn:E; [|done]. intros [= <-]. apply find_some in E as [Hi E].
  exists k. split; [done|]. by apply bool_decide_eq_true in E.
Qed.

Lemma FieldOk_kept Q key topLevel fuel b o r : Kept Q -> (topLevel = true -> key <> str "options") ->
  FieldOk Q key b -> FieldOk Q key o -> mergeNode fuel topLevel b o = inr r -> FieldOk Q key r.
Proof.
  intros K Ht Hb Ho E. unfold FieldOk in *. destruct fuel as [|fuel], b as [|?|l|m], o as [|?|l'|m']; cbn in E; minv E; try (injection E as <-; done); try done.
  injection E as <-. cbn in *. revert E0. apply (foldM_inv (fun res => Forall (fun kv => asString (fst kv) = Some key -> Q (snd kv)) res)); [|done].
  intros res [kn w] res' Hi Hres E. unfold mergeEntry in E. cbn [fst snd] in E. destruct kn as [|k|?|?]; try done.
  eapply List.Forall_forall in Ho; [|exact Hi]. cbn in Ho. rewrite asString_scalar in Ho.
  destruct (field k (Map res)) as [old|] eqn:Ef.
  - minv E. injection E as <-. apply setField_ok; [|done]. intros <-. apply field_in in Ef as (k' & Hk' & Ek').
    eapply List.Forall_forall in Hres; [|exact Hk']. destruct (topLevel && beq key (str "options")) eqn:Eo.
    + apply andb_true_iff in Eo as [-> Eo]. by apply beq_eq in Eo; apply Ht in Eo.
    + eapply K; [by apply Hres|by apply Ho|eassumption].
  - injection E as <-. apply setField_ok; [|done]. intros <-. by apply Ho.
Qed.

(** ** The depth of the override is fuel enough *)

Lemma foldM_ext {A B} (f g : A -> B -> bytes + A) l a : (forall a b, In b l -> f a b = g a b) -> foldM f l a = foldM g l a.
Proof.
  revert a. induction l as [|b l IH]; intros a Hfg; [done|]. cbn [foldM]. rewrite Hfg by (by left).
  destruct (g a b); [done|]. apply IH. intros. apply Hfg. by right.
Qed.

Lemma depth_pair l k v : In (k, v) l -> (depth v < depth (Map l))%nat.
Proof. induction l as [|[k' v'] l IH]; [done|]. cbn in *. intros [[= -> ->]|Hi]; [lia|]. specialize (IH Hi). lia. Qed.

Lemma depth_item l x : In x l -> (depth x < depth (Sequence l))%nat.
Proof. induction l as [|y l IH]; [done|]. cbn in *. intros [->|Hi]; [lia|]. specialize (IH Hi). lia. Qed.

(** The details of an option are less deep than the node it was collected from. *)
Lemma collect_depth n what items name d : collectOptions n what = inr items -> In (name, d) items -> d = Null \/ (depth d < depth n)%nat.
Proof.
  destruct n as [|s|l|l]; cbn [collectOptions]; intros E Hi.
  - by injection E as <-.
  - injection E as <-. destruct Hi as [[= <- <-]|[]]. by left.
  - apply mapM_ok in E. apply list_elem_of_In, list_elem_of_lookup in Hi as [i Hi].
    destruct (Forall2_lookup_r _ _ _ _ _ E Hi) as (x & Hx & Ex). apply list_elem_of_lookup_2, list_elem_of_In, depth_item in Hx.
    destruct x as [|?| |[|[k v] [|]]]; try done; cbn [collectItem] in Ex; [injection Ex as _ <-; by left|]. minv Ex. injection Ex as _ <-.
    right. pose proof (depth_pair [(k, v)] k v ltac:(by left)). lia.
  - apply mapM_ok in E. apply list_elem_of_In, list_elem_of_lookup in Hi as [i Hi].
    destruct (Forall2_lookup_r _ _ _ _ _ E Hi) as ([k v] & Hx & Ex). apply list_elem_of_lookup_2, list_elem_of_In, depth_pair in Hx.
    unfold collectEntry in Ex. cbn [fst snd] in Ex. destruct k; try done. injection Ex as _ <-. by right.
Qed.

Lemma updateFirst_ext name f g items : (forall d, f d = g d) -> updateFirst name f items = updateFirst name g items.
Proof. intros Hfg. induction items as [|[n d] t IH]; [done|]. cbn [updateFirst]. by rewrite IH, Hfg. Qed.

Lemma mergeNode_fuel f g topLevel b o : (depth o <= f)%nat -> (depth o <= g)%nat -> mergeNode f topLevel b o = mergeNode g topLevel b o.
Proof.
  revert g topLevel b o. induction f as [|f IH]; intros [|g] topLevel b o Hf Hg; destruct b as [| | |l], o as [| | |l']; try done; try (cbn in Hf, Hg; lia).
  cbn [mergeNode]. rewrite (foldM_ext _ (mergeEntry (mergeNode g false) topLevel)); [done|]. intros res [k v] Hi. apply depth_pair in Hi.
  assert (forall d x, (depth x <= depth v)%nat -> mergeNode f false d x = mergeNode g false d x) as M by (intros; apply IH; lia).
  unfold mergeEntry. cbn [fst snd]. destruct k; try done. destruct (field s (Map res)); [|done]. destruct (topLevel && beq s (str "options")); [|by rewrite M by lia].
  f_equal. unfold mergeOptions. destruct (collectOptions n _) as [?|items]; [done|]. cbn [mbind result_bind]. destruct (collectOptions v _) as [?|over] eqn:Ev; [done|].
  cbn [mbind result_bind]. rewrite (foldM_ext _ (addOption (mergeNode g false))); [done|]. intros a [name d] Hi'. unfold addOption. f_equal. cbn [fst snd].
  apply updateFirst_ext. intros x. destruct (IsMap x && IsMap d); [|done]. apply M. destruct (collect_depth _ _ _ _ _ Ev Hi') as [->|]; [cbn|]; lia.
Qed.

(** ** The files *)

(** [<name>.local.yml] and the rest of what the command finds: the caller, the
    contents and times of files (-1 for one that cannot be read), yaml-cpp's
    reader, and which operations succeed. *)
Record Host := {
  pw : UtilPure.PwEnt; content : bytes -> option bytes; mtimeOf : bytes -> Z; load : bytes -> bytes + Node;
  euid : Z; uid : Z; makesDirs : option bytes; opensTmp : option bytes; writesTmp : bool; renames : bytes -> option bytes;
  settings : Settings; scriptSections : list bytes; pci : option bytes;
  createCrate : bytes -> Spec -> bytes + bool }.

Inductive Step := Wrote (path text : bytes) | Renamed (a b : bytes) | Unlinked (path : bytes) | Built (spec : Spec) (out : bytes).

Context (h : Host).

Definition fileExists (p : bytes) : bool := match content h p with Some _ => true | None => false end.

Definition loadFile (path : bytes) : bytes + Node :=
  match content h path with
  | None => inl (str "cannot parse " ++ path ++ str ": " ++ yamlError)
  | Some c => match load h c with inl e => inl (str "cannot parse " ++ path ++ str ": " ++ e) | inr n => inr n end
  end.

Definition mergedText (basePath overlayPath : bytes) (merged : Node) : bytes :=
  str "# generated by crate from " ++ basePath ++ (if is_empty overlayPath then [] else str " + " ++ overlayPath)
  ++ [newline] ++ str "# do not edit: change the source file(s) and run again" ++ [newline] ++ emit merged ++ [newline].

(** The steps, and the text now at [outPath] or the error. *)
Definition writeMerged (basePath overlayPath outPath : bytes) : list Step * (bytes + bytes) :=
  match (m ← loadFile basePath; if is_empty overlayPath then inr m else o ← loadFile overlayPath; mergeYaml m o) with
  | inl e => ([], inl e)
  | inr merged =>
      let text := mergedText basePath overlayPath merged in
      let tmp := outPath ++ str ".tmp" in
      match opensTmp h with
      | Some e => ([], inl (str "cannot write " ++ tmp ++ str ": " ++ e))
      | None =>
          if negb (writesTmp h) then ([], inl (str "cannot write " ++ tmp))
          else match renames h outPath with
          | Some e => ([Wrote tmp text; Unlinked tmp], inl (str "cannot rename " ++ tmp ++ str " to " ++ outPath ++ str ": " ++ e))
          | None => ([Wrote tmp text; Renamed tmp outPath], inr text)
          end
      end
  end.

Definition home : bytes := UtilPure.pw_dir (pw h).

(** From the merged spec to the crate: what is built, or why not. *)
Definition buildMerged (name merged text crate : bytes) (vars : StrMap bytes) : list Step * (bytes + bytes) :=
  let partial := crate ++ str ".new" in
  match (s ← parseSpecWithVars (load h) merged (Some text) vars; _ ← validate (Some (pw h)) (settings h) (scriptSections h) s;
         inr (fst (SpecMerge.preprocess (settings h) (pci h) s))) with
  | inl e => ([], inl e)
  | inr spec =>
      match createCrate h partial spec with
      | inl e => ([Built spec partial; Unlinked partial], inl e)
      | inr false => ([Built spec partial; Unlinked partial], inl (str "profile '" ++ name ++ str "': building the crate failed"))
      | inr true =>
          match renames h crate with
          | Some e => ([Built spec partial; Unlinked partial], inl (str "cannot rename " ++ partial ++ str " to " ++ crate ++ str ": " ++ e))
          | None => ([Built spec partial; Renamed partial crate], inr crate)
          end
      end
  end.

(** After the profile was found; [localPath] is empty without an override. *)
Definition rebuild (name specPath localPath : bytes) (vars : StrMap bytes) : list Step * (bytes + bytes) :=
  let crate := cratePath home name in
  let merged := mergedSpecPath home name in
  match (if is_empty localPath then inr tt else o ← loadFile localPath; checkLocalOverlay o home localPath) with
  | inl e => ([], inl e)
  | inr _ =>
      let '(steps, r) := writeMerged specPath localPath merged in
      match r with
      | inl e => (steps, inl e)
      | inr text =>
          if negb (euid h =? 0) then
            (steps, inl (str "profile '" ++ name ++ str "': " ++ crate ++ str " has not been built yet and building needs root "
               ++ str "(`crate create` is not rootless); the merged spec is at " ++ merged ++ str " — as root: "
               ++ str "crate create -s " ++ merged ++ str " -o " ++ crate ++ str " && chown " ++ dec (uid h) ++ str " " ++ crate
               ++ str ", then run again"))
          else let '(more, r) := buildMerged name merged text crate vars in (steps ++ more, r)
      end
  end.

Definition resolveForRun (name : bytes) (vars : StrMap bytes) : list Step * (bytes + bytes) :=
  match validateProfileName name with
  | _ :: _ as e => ([], inl e)
  | [] =>
      if negb (starts_with (str "/") home) then ([], inl (str "cannot determine the invoking user's home directory (getpwuid)"))
      else
        let candidates := specSearchPaths home name in
        match List.find fileExists candidates with
        | None => ([], inl (str "profile '" ++ name ++ str "' not found; searched " ++ CStd.joined (str ", ") candidates
                     ++ str " — copy a spec to the first path, or run a .crate file with -f"))
        | Some specPath =>
            let localPath := localOverridePath home name in
            let haveLocal := fileExists localPath in
            match makesDirs h with
            | Some e => ([], inl (str "cannot create " ++ buildDir home ++ str ": " ++ e))
            | None =>
                if negb (needsRebuild (mtimeOf h (cratePath home name)) (mtimeOf h specPath) (if haveLocal then mtimeOf h localPath else -1))
                then ([], inr (cratePath home name))
                else rebuild name specPath (if haveLocal then localPath else []) vars
            end
        end
  end.
End merge.
End ProfileMerge.

(** ** What an override of a profile can share

    Every directory or file that the spec of a merged profile shares comes from
    the profile or was checked to lie in the operator's home; and how the check
    is passed by other ways. *)


Module ProfileFacts.
Import UtilPure Spec SpecParse SpecSections SpecFacts Profile ProfileMerge.

#[local] Arguments mem : simpl never.
#[local] Arguments str : simpl never.

Section facts.
Context `{Yaml}.

(** ** Sections that share nothing *)

Definition sharesOf (s : Spec) := (dirsShare s, filesShare s).

(** A loop over keys that leaves the shares alone. *)
Lemma eachEntry_shares f n s s' : (forall a k kn v a', f a k kn v = inr a' -> sharesOf a' = sharesOf a) ->
  eachEntry n f s = inr s' -> sharesOf s' = sharesOf s.
Proof. intros Hf. apply (eachEntry_inv (fun a => sharesOf a = sharesOf s)); [|done]. intros a k kn v a' <- E. by eapply Hf. Qed.

Lemma foldM_shares {B} (f : Spec -> B -> bytes + Spec) l s s' : (forall a b a', f a b = inr a' -> sharesOf a' = sharesOf a) ->
  foldM f l s = inr s' -> sharesOf s' = sharesOf s.
Proof. intros Hf. apply (foldM_inv (fun a => sharesOf a = sharesOf s)); [|done]. intros a b a' _ <- E. by eapply Hf. Qed.

Ltac entry :=
  repeat match goal with
  | E : inl _ = inr _ |- _ => discriminate
  | E : unknown _ _ = inr _ |- _ => discriminate
  | E : inr _ = inr _ |- _ => injection E as E; try subst
  | E : (_ ≫= _) = inr _ |- _ => apply result_bind_inr in E as (? & ? & ?)
  | E : match ?b with _ => _ end = inr _ |- _ => destruct b eqn:?
  end.

Lemma addOption_shares s k : sharesOf (SpecParse.addOption s k) = sharesOf s.
Proof. unfold SpecParse.addOption. by case_match. Qed.

Lemma optionsList_shares s l : sharesOf (optionsList s l) = sharesOf s.
Proof.
  assert (E : sharesOf (fold_left SpecParse.addOption l s) = sharesOf s).
  { revert s. induction l as [|k l IH]; intros s; [done|]. cbn [fold_left]. by rewrite IH, addOption_shares. }
  rewrite <- E. unfold optionsList. by repeat case_match.
Qed.

Lemma other_sections names sec n s s' : In (names, sec) sections ->
  names <> [str "dirs"] -> names <> [str "files"] -> sec n s = inr s' -> sharesOf s' = sharesOf s.
Proof.
  intros Hi Hd Hf. unfold sections in Hi. cbn [In] in Hi.
  repeat (destruct Hi as [[= <- <-]|Hi]; [|]); try done; clear Hd Hf.
  all: unfold parseBase, parsePkg, parseRun, parseTmpfs, parseEtc, parseNetwork, parseOptions, parseZfs, parseIpc, parseLimits,
    parseEncrypted, parseDnsFilter, parseSecurity, parseCow, parseX11, parsePrivacy, parseClipboard, parseDbus, parseServices, parseSocketProxy,
    parseFirewall, parseSecurityAdvanced, parseTerminal, parseDevices, parseGui, parseHealthcheck, parseDepends, parseBaseContainer, parseCron,
    parseRestart, parseScripts, mapOnly; intros E; entry.
  all: try reflexivity; try apply optionsList_shares; try apply addOption_shares.
  all: repeat match goal with
    | E : eachEntry _ _ _ = inr _ |- _ => apply eachEntry_shares in E; [rewrite E; reflexivity|clear; intros ? ? ? ? ? E]
    | E : foldM _ _ _ = inr _ |- _ => apply foldM_shares in E; [rewrite E; reflexivity|clear; intros ? [] ? E]
    end.
  all: match goal with E : _ = inr _ |- _ =>
    unfold baseEntry, pkgEntry, runEntry, tmpfsItem, tmpfsEntry, addTmpfs, etcEntry, extendedOption, zfsEntry, ipcEntry, limitsEntry,
      encryptedEntry, securityEntry, privacyEntry, servicesEntry, scriptsEntry in E; entry end.
  all: try reflexivity; try apply addOption_shares.
  - eapply foldM_shares; [|done]. clear. intros a b a' E. unfold keepName in E. entry. unfold sharesOf. by case_match.
  - by rewrite addOption_shares.
Qed.

(** ** The shares of a parsed document *)

(** The entries under dirs/share or files/share. *)
Definition shareEntry (doc e : Node) : Prop :=
  exists key kn v k2 l, In key [str "dirs"; str "files"] /\ In (kn, v) (pairs doc) /\ asString kn = Some key
    /\ In (k2, Sequence l) (pairs v) /\ asString k2 = Some (str "share") /\ In e l.

(** The host path the parser takes from an entry. *)
Definition readHost (e : Node) : option bytes :=
  match e with
  | Scalar s => Some s
  | Sequence [_; h] | Sequence [_; h; _] => asString h
  | _ => None
  end.

Definition readAs (e : Node) (d : Share) : Prop :=
  exists h, readHost e = Some h /\ (sh_host d = h \/ sh_host d = fst (Mounts.splitRoSuffix h)).

Definition fromDoc (doc : Node) (d : Share) : Prop := exists e, shareEntry doc e /\ readAs e d.

Definition allFrom (P : Share -> Prop) (s : Spec) : Prop := Forall P (dirsShare s ++ filesShare s).

Lemma allFrom_shares P s s' : sharesOf s' = sharesOf s -> allFrom P s -> allFrom P s'.
Proof. unfold sharesOf, allFrom. by intros [= -> ->]. Qed.

Ltac reads G HP :=
  entry; (eapply G; [|reflexivity]); apply HP; unfold AsString in *; entry; eexists;
  (split; [cbn; try rewrite asString_scalar in *; eauto|]); cbn; try congruence;
  repeat match goal with E : Mounts.splitRoSuffix _ = _ |- _ => rewrite E end; try (by left); by right.

Lemma dirShare_reads P s e s' : (forall d, readAs e d -> P d) -> allFrom P s -> oneDirShare s e = inr s' -> allFrom P s'.
Proof.
  intros HP Hs E. unfold oneDirShare in E.
  assert (G : forall d, P d -> s' = s <| dirsShare ::= fun x => x ++ [d] |> -> allFrom P s').
  { intros d Hd ->. unfold allFrom in *. cbn. rewrite <- app_assoc. apply Forall_app in Hs as [H1 H2].
    apply Forall_app; split; [done|]. by constructor. }
  reads G HP.
Qed.

Lemma fileShare_reads P s e s' : (forall d, readAs e d -> P d) -> allFrom P s -> oneFileShare s e = inr s' -> allFrom P s'.
Proof.
  intros HP Hs E. unfold oneFileShare in E.
  assert (G : forall d, P d -> s' = s <| filesShare ::= fun x => x ++ [d] |> -> allFrom P s').
  { intros d Hd ->. unfold allFrom in *. cbn. rewrite app_assoc. apply Forall_app; split; [done|]. by constructor. }
  reads G HP.
Qed.

(** A loop over keys, with the entry each turn is about. *)
Lemma eachEntry_in {A} (P : A -> Prop) f n a r :
  (forall a k kn v a', In (kn, v) (pairs n) -> asString kn = Some k -> P a -> f a k kn v = inr a' -> P a') ->
  P a -> eachEntry n f a = inr r -> P r.
Proof.
  intros Hf Ha E. unfold eachEntry in E. minv E. assert (v = pairs n) as -> by (destruct n as [| |[]|]; cbn in *; congruence).
  revert E. apply foldM_inv; [|done]. intros x [kn w] x' Hi Hx E. minv E. unfold AsString in *. case_match; [|done]. simplify_eq/=. by eapply Hf.
Qed.

Lemma isKey_one k name : isKey k [name] = true -> k = name.
Proof. unfold isKey, mem. cbn. rewrite orb_false_r. apply beq_eq. Qed.

(** The entries of a list under the key share, each read by [one]. *)
Lemma share_list P (key : bytes) doc kn v one b k2 kn2 l b' :
  (forall s e s', (forall d, readAs e d -> P d) -> allFrom P s -> one s e = inr s' -> allFrom P s') ->
  (forall d, fromDoc doc d -> P d) ->
  In key [str "dirs"; str "files"] -> In (kn, v) (pairs doc) -> asString kn = Some key ->
  In (kn2, Sequence l) (pairs v) -> asString kn2 = Some k2 -> isKey k2 [str "share"] = true ->
  allFrom P b -> foldM one l b = inr b' -> allFrom P b'.
Proof.
  intros Hone HP Hk Hi Ek Hi2 Ek2 ->%isKey_one Hb. apply foldM_inv; [|done]. intros c e c' He Hc. apply Hone; [|done].
  intros d Hr. apply HP. exists e. split; [|done]. by exists key, kn, v, kn2, l.
Qed.

Lemma section_of names sec sec' : In (names, sec) sections -> List.find (fun x => bool_decide (fst x = names)) sections = Some (names, sec') -> sec = sec'.
Proof.
  unfold sections. cbn [In]. intros Hs Hf. repeat (destruct Hs as [[= <- <-]|Hs]; [cbn in Hf; by injection Hf|]). done.
Qed.

(** Every share of a parsed spec was read from an entry of the document. *)
Lemma parsed_shares doc s : parseSpecFromNode doc = inr s -> allFrom (fromDoc doc) s.
Proof.
  apply eachEntry_in; [|by constructor]. intros a k kn v a' Hi Ek Ha E. unfold topEntry in E.
  destruct (List.find _ sections) as [[names sec]|] eqn:Ef; [|done]. apply find_some in Ef as [Hs Ek']. cbn [fst snd] in *.
  destruct (decide (names = [str "dirs"])) as [->|Hd]; [|destruct (decide (names = [str "files"])) as [->|Hf]].
  - apply isKey_one in Ek' as ->. rewrite (section_of _ _ parseDirs Hs eq_refl) in E.
    revert E. apply eachEntry_in; [|done]. intros b k2 kn2 v2 b' Hi2 Ek2 Hb E. unfold dirsEntry in E. entry.
    destruct v2 as [| |l|]; try done. eapply (share_list _ (str "dirs")); [apply dirShare_reads|done|by left|done|done|exact Hi2|exact Ek2|done|done|exact E].
  - apply isKey_one in Ek' as ->. rewrite (section_of _ _ parseFiles Hs eq_refl) in E. unfold parseFiles in E. entry.
    match goal with E : eachEntry _ _ _ = _ |- _ => revert E end. apply eachEntry_in; [|done]. intros b k2 kn2 v2 b' Hi2 Ek2 Hb E. unfold filesEntry in E. entry.
    destruct v2 as [| |l|]; try done. eapply (share_list _ (str "files")); [apply fileShare_reads|done|by right; left|done|done|exact Hi2|exact Ek2|done|done|done].
  - eapply allFrom_shares; [|done]. by eapply other_sections.
Qed.

(** ** What the check of an override leaves *)

(** A key occurs at most once. *)
Definition once (key : bytes) (n : Node) : Prop :=
  (length (List.filter (fun kv => bool_decide (asString (fst kv) = Some key)) (pairs n)) <= 1)%nat.

Lemma once_field key n k w : once key n -> In (k, w) (pairs n) -> asString k = Some key -> field key n = Some w.
Proof.
  unfold once. destruct n as [| | |l]; try done. cbn. induction l as [|[k' w'] l IH]; [done|]. cbn.
  intros Ho [[= -> ->]|Hi] Ek; [by rewrite bool_decide_eq_true_2|]. case_bool_decide as E; [|by apply IH].
  exfalso. assert (In (k, w) (List.filter (fun kv => bool_decide (asString (fst kv) = Some key)) l)) as Hin by (apply filter_In; split; [done|by apply bool_decide_eq_true_2]).
  cbn in Ho. destruct (List.filter _ l); [done|]. cbn in Ho. lia.
Qed.

Definition checkedEntry (home : bytes) (e : Node) : Prop :=
  match localHost e with Some h => checkLocalShareHostPath (fst (Mounts.splitRoSuffix h)) home = [] | None => True end.

Lemma overlay_checked o home path key : checkLocalOverlay o home path = inr tt -> In key [str "dirs"; str "files"] ->
  FieldOk (once (str "share")) key o -> FieldOk (FieldOk (SeqOk (checkedEntry home)) (str "share")) key o.
Proof.
  intros Hc Hk Ho. unfold FieldOk in *. destruct o as [| | |l]; try done. cbn [pairs checkLocalOverlay] in *.
  apply forM_ok in Hc. apply List.Forall_forall. intros [kn v] Hi Ek. eapply List.Forall_forall in Hc; [|exact Hi]. eapply List.Forall_forall in Ho; [|exact Hi].
  specialize (Ho Ek). cbn [fst snd] in *. apply List.Forall_forall. intros [k2 w] Hi2 Ek2. pose proof (once_field _ _ _ _ Ho Hi2 Ek2) as Ef.
  unfold checkLocalEntry in Hc. cbn [fst snd] in *. destruct kn as [|k| |]; try done. rewrite asString_scalar in Ek. injection Ek as ->.
  minv Hc. assert ((beq key (str "dirs") || beq key (str "files")) && IsMap v = true) as G.
  { destruct v; try done. by destruct Hk as [<-|[<-|[]]]. }
  rewrite G, Ef in Hc. unfold SeqOk. destruct w as [| |l'|]; cbn [elements]; try constructor. apply forM_ok in Hc.
  eapply List.Forall_impl; [|exact Hc]. intros e. unfold checkShareEntry, checkedEntry. destruct (localHost e); [|done]. by intros ?%errOn_ok.
Qed.

Lemma base_entries b key : In key [str "dirs"; str "files"] -> FieldOk (FieldOk (SeqOk (shareEntry b)) (str "share")) key b.
Proof.
  intros Hk. apply List.Forall_forall. intros [kn v] Hi Ek. apply List.Forall_forall. intros [k2 w] Hi2 Ek2.
  destruct w as [| |l|]; try by constructor. apply List.Forall_forall. intros e He. by exists key, kn, v, k2, l.
Qed.

Lemma FieldOk_impl (Q Q' : Node -> Prop) key n : (forall x, Q x -> Q' x) -> FieldOk Q key n -> FieldOk Q' key n.
Proof. intros Hq. unfold FieldOk. apply List.Forall_impl. auto. Qed.

(** Entries of a merged document come from the profile or were checked. *)
Lemma merged_entries b o m home path e : checkLocalOverlay o home path = inr tt ->
  FieldOk (once (str "share")) (str "dirs") o -> FieldOk (once (str "share")) (str "files") o ->
  mergeYaml b o = inr m -> shareEntry m e -> shareEntry b e \/ checkedEntry home e.
Proof.
  intros Hc Hd Hf Hm (key & kn & v & k2 & l & Hk & Hi & Ek & Hi2 & Ek2 & He).
  set (P := fun e => shareEntry b e \/ checkedEntry home e).
  assert (K : Kept (FieldOk (SeqOk P) (str "share"))) by (intros f x y r Hx Hy; eapply FieldOk_kept; [apply SeqOk_kept|done|done|done]).
  assert (up : forall (Q : Node -> Prop) n, (forall x, Q x -> P x) -> FieldOk (FieldOk (SeqOk Q) (str "share")) key n -> FieldOk (FieldOk (SeqOk P) (str "share")) key n).
  { intros Q n Hq. apply FieldOk_impl. intros x. apply FieldOk_impl. intros y. by apply List.Forall_impl. }
  assert (M : FieldOk (FieldOk (SeqOk P) (str "share")) key m).
  { eapply (FieldOk_kept _ key true); [exact K| | | |exact Hm].
    - intros _ ->. destruct Hk as [Hk|[Hk|[]]]; by vm_compute in Hk.
    - eapply (up (shareEntry b)); [by left|]. by apply base_entries.
    - eapply (up (checkedEntry home)); [by right|]. eapply overlay_checked; [done|done|]. destruct Hk as [<-|[<-|[]]]; done. }
  eapply List.Forall_forall in M; [|exact Hi]. specialize (M Ek). eapply List.Forall_forall in M; [|exact Hi2]. specialize (M Ek2).
  by eapply List.Forall_forall in M.
Qed.

Lemma splitRoSuffix_cases h : let p := fst (Mounts.splitRoSuffix h) in h = p \/ h = p ++ str ":ro" \/ h = p ++ str ":rw".
Proof.
  cbv zeta. unfold Mounts.splitRoSuffix. destruct (Mounts.ends (str ":ro") h) eqn:E1; [|destruct (Mounts.ends (str ":rw") h) eqn:E2].
  - right; left. unfold Mounts.ends in E1. apply andb_true_iff in E1 as [_ E1]. apply beq_eq in E1.
    rewrite <- (take_drop (length h - 3) h) at 1. cbn [fst]. f_equal. exact E1.
  - right; right. unfold Mounts.ends in E2. apply andb_true_iff in E2 as [_ E2]. apply beq_eq in E2.
    rewrite <- (take_drop (length h - 3) h) at 1. cbn [fst]. f_equal. exact E2.
  - by left.
Qed.

(** Validation wants every host path absolute after substitution. *)
Lemma validated_host pw cfg sections s d : validate pw cfg sections s = inr tt -> In d (dirsShare s ++ filesShare s) ->
  exists q, pathSubstituteVarsInPath pw (sh_host d) = Some q /\ isFullPath q = true.
Proof.
  intros V Hi. unfold validate, validateFiles in V. apply result_bind_inr in V as (? & _ & V). apply result_bind_inr in V as (? & V & _).
  apply result_bind_inr in V as (? & V1%forM_ok & V). apply result_bind_inr in V as (? & V2%forM_ok & _).
  assert (C : exists u, checkShare pw d = inr u).
  { apply in_app_or in Hi as [Hi|Hi]; [eapply List.Forall_forall in V1; [|exact Hi]; eauto|].
    eapply List.Forall_forall in V2; [|exact Hi]. unfold checkFileShare in V2. apply result_bind_inr in V2 as (u & C & _). eauto. }
  destruct C as [u C]. unfold checkShare, fullAfterSubst in C. apply result_bind_inr in C as (f & _ & C). destruct (negb f); [done|].
  apply result_bind_inr in C as (f' & E & C). destruct (pathSubstituteVarsInPath pw (sh_host d)) as [q|]; [|done]. exists q. split; [done|].
  injection E as <-. apply errIf_ok in C. by apply negb_false_iff in C.
Qed.

(** A flag kept in a path makes no component that leads upwards. *)
Lemma dotdot_suffix x f : In f [str ":ro"; str ":rw"] -> hasDotDotComponent x = false -> hasDotDotComponent (x ++ f) = false.
Proof.
  intros Hf. assert (Hs : ~ In "/"%char f) by (destruct Hf as [<-|[<-|[]]]; vm_compute; intuition discriminate).
  induction x as [x IH] using (well_founded_induction (Wf_nat.well_founded_ltof _ (@length ascii))). intros Hx.
  destruct (find_char "/" x) as [i|] eqn:E.
  - apply find_char_Some in E as (u & v & -> & _ & _). rewrite hasDotDot_app in Hx. apply orb_false_iff in Hx as [Hu Hv].
    rewrite <- app_assoc. cbn [app]. rewrite hasDotDot_app, Hu. cbn [orb]. apply IH; [|done]. unfold Wf_nat.ltof. rewrite length_app. cbn [length]. lia.
  - apply find_char_None in E. unfold hasDotDotComponent. rewrite split_on_nosep by (rewrite in_app_iff; tauto). cbn [existsb]. rewrite orb_false_r.
    apply beq_neq. intros C. apply (f_equal length) in C. rewrite length_app in C. change (length (str "..")) with 2%nat in C.
    assert (length f = 3%nat) by (by destruct Hf as [<-|[<-|[]]]). lia.
Qed.

(** Where the host path of a share that keeps its flag leads. *)
Lemma suffixed_host pw p f r q : In f [str ":ro"; str ":rw"] -> checkLocalShareHostPath p (pw_dir pw) = [] ->
  pathSubstituteVarsInPath (Some pw) p = Some r -> pathSubstituteVarsInPath (Some pw) (p ++ f) = Some q -> isFullPath q = true -> q = r ++ f.
Proof.
  intros Hf Hc Hr Hq Fq. unfold checkLocalShareHostPath in Hc. rewrite !reject_nil in Hc by (cbn; discriminate). destruct Hc as (Hne & _ & _ & _ & Hc).
  assert (Hn5 : 1 <= size_z f) by (destruct Hf as [<-|[<-|[]]]; vm_compute; discriminate).
  unfold pathSubstituteVarsInPath in *. destruct (starts_with (str "$HOME") p) eqn:Eh.
  - apply starts_with_spec in Eh as [t ->]. cbn [andb] in Hc. rewrite <- app_assoc in Hq. change (drop 5 (str "$HOME" ++ ?x)) with x in *.
    rewrite !starts_with_app in *. rewrite !size_z_app in *. change (size_z (str "$HOME")) with 5 in *. pose proof (size_z_nonneg t).
    destruct t as [|c t].
    + exfalso. change (size_z (@nil ascii)) with 0 in *. cbn [app] in Hq. rewrite Z.add_0_l in Hq. destruct (Z.eqb_spec (5 + size_z f) 5); [lia|].
      assert (starts_with (str "/") f = false) as E by (by destruct Hf as [<-|[<-|[]]]). rewrite E in Hq. cbn [orb] in Hq. rewrite andb_false_r in Hq. injection Hq as <-. done.
    + destruct (Z.eqb_spec (5 + size_z (c :: t)) 5); [rewrite size_z_cons in *; pose proof (size_z_nonneg t); lia|]. cbn [orb] in *.
      destruct (starts_with (str "/") (c :: t)) eqn:Es; [|by rewrite reject_nil in Hc by (cbn; discriminate); destruct Hc].
      assert (starts_with (str "/") ((c :: t) ++ f) = true) as Es' by (cbn in *; done). rewrite Es' in Hq.
      destruct (Z.leb_spec 5 (5 + size_z (c :: t))); [|lia]. destruct (Z.leb_spec 5 (5 + (size_z (c :: t) + size_z f))); [|lia].
      destruct (Z.eqb_spec (5 + (size_z (c :: t) + size_z f)) 5); [lia|]. cbn in Hr, Hq. injection Hr as <-. injection Hq as <-. by rewrite <- app_assoc.
  - rewrite andb_false_r in Hr. cbn [andb] in Hr, Hc. injection Hr as <-. rewrite !reject_nil in Hc by (cbn; discriminate). destruct Hc as (_ & Ha & _).
    apply negb_false_iff, starts_with_spec in Ha as [u ->]. cbn in Hq. rewrite andb_false_r in Hq. by injection Hq as <-.
Qed.


(** A crate is built from an override only after the check. *)
Lemma built_after_check (h : Host) name specPath localPath vars spec out : localPath <> [] ->
  In (Built spec out) (fst (rebuild h name specPath localPath vars)) ->
  exists o, loadFile h localPath = inr o /\ checkLocalOverlay o (home h) localPath = inr tt.
Proof.
  intros Hne. unfold rebuild. destruct localPath as [|c t]; [done|]. cbn [is_empty].
  destruct (loadFile h (c :: t)) as [e|o]; [done|]. cbn [mbind result_bind]. destruct (checkLocalOverlay o (home h) (c :: t)) as [e|[]] eqn:E; [done|]. eauto.
Qed.

(** An option the profile names keeps its name, and its details unless the
    override has some: the list forms do not drop what the map form says. *)
Lemma updateFirst_names name f items r : updateFirst name f items = inr (Some r) -> map fst r = map fst items.
Proof.
  revert r. induction items as [|[n d] t IH]; intros r E; [done|]. cbn [updateFirst] in E. destruct (beq n name).
  - minv E. injection E as <-. done.
  - destruct (updateFirst name f t) as [?|[t'|]]; [done| |done]. injection E as <-. cbn. f_equal. by apply IH.
Qed.

Lemma addOption_names merge items o r : ProfileMerge.addOption merge items o = inr r -> forall n, In n (map fst items) -> In n (map fst r).
Proof.
  unfold ProfileMerge.addOption. intros E n Hn. minv E. injection E as <-. destruct v as [t|]; cbn [default from_option id]; [by rewrite (updateFirst_names _ _ _ _ E0)|].
  rewrite map_app. apply in_or_app. by left.
Qed.

Lemma foldM_names merge over items r : foldM (ProfileMerge.addOption merge) over items = inr r -> forall n, In n (map fst items) -> In n (map fst r).
Proof.
  intros E n Hn. revert E. apply (foldM_inv (fun x => In n (map fst x))); [|done]. intros a b a' _ Ha E. by eapply addOption_names.
Qed.

Lemma setField_keys key k v l : In key (map (fun kv => asString (fst kv)) l) \/ key = Some k -> In key (map (fun kv => asString (fst kv)) (setField k v l)).
Proof.
  induction l as [|[k' w] l IH]; cbn; [intros [[]| ->]; left; apply asString_scalar|]. case_bool_decide as E; cbn; [intros [[->|?]| ->]; auto|].
  intros [[->|?]| ->]; auto.
Qed.

Definition optionNames (n : Node) : list (option bytes) :=
  match n with Sequence l => map asString l | Map l => map (fun kv => asString (fst kv)) l | Scalar s => [Some s] | Null => [] end.

Lemma optionsNode_names items n : In n (map fst items) -> In (Some n) (optionNames (optionsNode items)).
Proof.
  intros Hn. unfold optionsNode. destruct (existsb _ items); cbn [optionNames].
  - assert (G : forall its l, In (Some n) (map (fun kv => asString (fst kv)) l) \/ In n (map fst its) ->
      In (Some n) (map (fun kv => asString (fst kv)) (fold_left (fun l i => setField (fst i) (snd i) l) its l))); [|by apply G; right].
    clear. induction its as [|i its IH]; intros l; cbn [fold_left map In]; [by intros [?|[]]|]. intros [Hl|[<-|Hi]]; apply IH; [left|left|by right];
      apply setField_keys; auto.
  - rewrite map_map. apply in_map_iff in Hn as (i & <- & Hi). apply in_map_iff. exists i. by rewrite asString_scalar.
Qed.

Lemma options_kept merge base overlay items r n : collectOptions base (str "base spec") = inr items -> In n (map fst items) ->
  mergeOptions merge base overlay = inr r -> In (Some n) (optionNames r).
Proof.
  intros Hc Hn E. unfold mergeOptions in E. rewrite Hc in E. cbn [mbind result_bind] in E. minv E. injection E as <-.
  apply optionsNode_names. by eapply foldM_names.
Qed.
End facts.

(** ** Evaluations *)

Definition sampleBase : Node :=
  Map [(Scalar (str "run"), Map [(Scalar (str "command"), Scalar (str "/usr/local/bin/firefox"))]);
       (Scalar (str "dirs"), Map [(Scalar (str "share"), Sequence [Scalar (str "/usr/local/share/fonts")])]);
       (Scalar (str "options"), Map [(Scalar (str "tor"), Map [(Scalar (str "control-port"), Scalar (str "false"))]); (Scalar (str "net"), Null)])].
Definition sampleLocal (path : bytes) : Node :=
  Map [(Scalar (str "dirs"), Map [(Scalar (str "share"), Sequence [Scalar path])]); (Scalar (str "options"), Sequence [Scalar (str "x11")])].
Definition ann : PwEnt := {| pw_name := str "ann"; pw_dir := str "/home/ann" |}.


(** ** Ways around the check *)

(** The forbidden keys are spelled one way; the spec parser knows two. *)
Example alias_not_forbidden :
  checkLocalOverlay (H := plainYaml) (Map [(Scalar (str "security_advanced"), Map [])]) (str "/home/ann") [] <> inr tt
  /\ checkLocalOverlay (H := plainYaml) (Map [(Scalar (str "security-advanced"), Map [])]) (str "/home/ann") [] = inr tt
  /\ checkLocalOverlay (H := plainYaml) (Map [(Scalar (str "socket-proxy"), Map [])]) (str "/home/ann") [] = inr tt
  /\ parseSpecFromNode (H := plainYaml) (Map [(Scalar (str "security-advanced"), Map [])])
     = parseSpecFromNode (H := plainYaml) (Map [(Scalar (str "security_advanced"), Map [])]).
Proof. vm_compute. repeat split. discriminate. Qed.

Definition twice : Node :=
  Map [(Scalar (str "dirs"), Map [(Scalar (str "share"), Sequence [Scalar (str "$HOME")]); (Scalar (str "share"), Sequence [Scalar (str "/etc")])])].

Definition hostsOf (r : bytes + Spec) : list bytes := match r with inr s => map sh_host (dirsShare s) | inl _ => [] end.

(** A second [share] key is merged and parsed, and not looked at. *)
Example second_share_not_checked :
  checkLocalOverlay (H := plainYaml) twice (str "/home/ann") [] = inr tt
  /\ hostsOf (m ← mergeYaml (H := plainYaml) sampleBase twice; parseSpecFromNode (H := plainYaml) m)
     = [str "/usr/local/share/fonts"; str "$HOME"; str "/etc"].
Proof. by vm_compute. Qed.

(** A third element of an entry gives its mode, and the parser then keeps the
    path as it is; the check strips :ro all the same, so a directory beside the
    home passes for the home. *)
Definition besideHome : Node :=
  Map [(Scalar (str "dirs"), Map [(Scalar (str "share"), Sequence [Sequence [Scalar (str "/data"); Scalar (str "/home/ann:ro"); Scalar (str "rw")]])])].

Example sibling_of_home_shared :
  checkLocalOverlay (H := plainYaml) besideHome (str "/home/ann") [] = inr tt
  /\ hostsOf (m ← mergeYaml (H := plainYaml) sampleBase besideHome; parseSpecFromNode (H := plainYaml) m)
     = [str "/usr/local/share/fonts"; str "/home/ann:ro"].
Proof. by vm_compute. Qed.

(** A variable of the command line is substituted in the text after the check. *)
Example variable_leads_out :
  checkLocalOverlay (H := plainYaml) (sampleLocal (str "/home/ann/${d}")) (str "/home/ann") [] = inr tt
  /\ substituteVars (str "/home/ann/${d}") [(str "d", str "../../etc")] = str "/home/ann/../../etc".
Proof. by vm_compute. Qed.
End ProfileFacts.
