(* ===== verification/Trace.v ===== *)
(** * Reading truss(1) output: lib/trace_pure.cpp, first half

    [crate profile-from-trace] runs a program once under truss and turns what
    it opened, executed, connected to and listened on into a draft of a spec.
    This file reads a line of the trace; TraceSpec.v makes the draft. *)

From S2P Require Import Prelude CStd RecordUpd UtilPure.

Module Trace.
Import CStd UtilPure.

(** ** Strings *)

Definition isUnder (path dir : bytes) : bool :=
  beq path dir || ((size_z dir <? size_z path) && starts_with dir path && starts_with (str "/") (drop (length dir) path)).

Definition trim (s : bytes) : bytes := rev (skipSpace (rev (skipSpace s))).

(** [std::strtoul(s.c_str(), nullptr, 10)] *)
Definition strtoul (s : bytes) : Z :=
  let '(neg, t) := sign (skipSpace (cstr s)) in
  let v := dec_value (fst (span is_digit t)) in
  if ulongMax <? v then ulongMax else if neg then u64 (- v) else v.

(** [std::strtol(s.c_str(), nullptr, 10)] *)
Definition strtol (s : bytes) : Z :=
  let '(neg, t) := sign (skipSpace (cstr s)) in
  let v := dec_value (fst (span is_digit t)) in
  if neg then Z.max longMin (- v) else Z.min longMax v.

Definition toUnsigned (s : bytes) : Z := u32 (strtoul s).

Definition dirname (p : bytes) : bytes :=
  match rfind_char "/" p with None | Some 0%nat => str "/" | Some k => take k p end.

Definition octal (c : ascii) : bool := in_range "0" "7" c.

Definition escaped (e : ascii) : ascii :=
  if Ascii.eqb e "n" then newline else if Ascii.eqb e "t" then tab else if Ascii.eqb e "r" then cr else e.

(** After the opening quote: the string and what follows the closing quote. *)
Fixpoint unquoted (s : bytes) : option (bytes * bytes) :=
  match s with
  | [] => None
  | c :: t =>
      if Ascii.eqb c dquote then Some ([], t)
      else if Ascii.eqb c backslash then
        match t with
        | [] => None
        | e :: t1 =>
            if octal e then
              match t1 with
              | e2 :: t2 =>
                  if octal e2 then
                    match t2 with
                    | e3 :: t3 =>
                        if octal e3 then prod_map (cons (chr ((digit_val e * 8 + digit_val e2) * 8 + digit_val e3))) id <$> unquoted t3
                        else prod_map (cons (chr (digit_val e * 8 + digit_val e2))) id <$> unquoted t2
                    | [] => None
                    end
                  else prod_map (cons (chr (digit_val e))) id <$> unquoted t1
              | [] => None
              end
            else prod_map (cons (escaped e)) id <$> unquoted t1
        end
      else prod_map (cons c) id <$> unquoted t
  end.

Definition unquote (s : bytes) : option (bytes * bytes) :=
  match s with c :: t => if Ascii.eqb c dquote then unquoted t else None | [] => None end.

Definition unquoteArg (a : bytes) : bytes := match unquote a with Some (out, _) => out | None => a end.

Definition opens (c : ascii) : bool := one_of (str "{[(") c.
Definition closes (c : ascii) : bool := one_of (str "}])") c.

(** A quoted string at the start of [s]: its text as written, and the rest. *)
Definition quotedText (s : bytes) : option (bytes * bytes) :=
  match unquote s with Some (_, r) => Some (take (length s - length r) s, r) | None => None end.

(** The loop over the characters; [any] when an item was pushed before. *)
Fixpoint splitLoop (fuel : nat) (depth : Z) (cur : bytes) (any : bool) (s : bytes) : list bytes :=
  match fuel with
  | O => []
  | S f =>
      match s with
      | [] => if is_empty cur && negb any then [] else [trim cur]
      | c :: t =>
          match quotedText s with
          | Some (q, r) => splitLoop f depth (cur ++ q) any r
          | None =>
              let depth' := if opens c then depth + 1 else if closes c then depth - 1 else depth in
              if Ascii.eqb c "," && (depth' =? 0) then trim cur :: splitLoop f depth' [] true t
              else splitLoop f depth' (cur ++ [c]) any t
          end
      end
  end.

Definition splitArgs (s : bytes) : list bytes := splitLoop (S (length s)) 0 [] false s.

(** [s.size() >= 2], the first and last byte as given: what is between. *)
Definition between (a b : ascii) (s : bytes) : option bytes :=
  match s with
  | c :: t => if (2 <=? size_z s) && Ascii.eqb c a && backIs b s then Some (removelast t) else None
  | [] => None
  end.

Definition parseStringList (a : bytes) : list bytes :=
  match between "[" "]" (trim a) with
  | Some s => map unquoteArg (List.filter (fun i => negb (is_empty i)) (splitArgs s))
  | None => []
  end.

(** ** Events *)

Inductive Kind := KNone | KOpen | KStat | KExec | KSocket | KConnect | KBind | KListen | KSendto.
#[global] Instance Kind_eq_dec : EqDecision Kind.
Proof. solve_decision. Defined.

Record Event := {
  kind : Kind; pid : Z; fd : Z; path : bytes; argv : list bytes; write : bool; failed : bool;
  family : bytes; datagram : bool; host : bytes; port : Z }.

#[global] Instance eta_Event : Eta Event := fun r => {|
  kind := kind r; pid := pid r; fd := fd r; path := path r; argv := argv r; write := write r; failed := failed r;
  family := family r; datagram := datagram r; host := host r; port := port r |}.

Definition blankEvent : Event := {|
  kind := KNone; pid := 0; fd := -1; path := []; argv := []; write := false; failed := false;
  family := []; datagram := false; host := []; port := 0 |}.

Definition parseSockaddr (a : bytes) (ev : Event) : option Event :=
  s ← between "{" "}" (trim a);
  let s := trim s in
  let '(fam, rest) := match find_char " " s with Some sp => (take sp s, trim (drop (S sp) s)) | None => (s, []) end in
  if beq fam (str "AF_INET") then
    c ← rfind_char ":" rest;
    Some (ev <| family := str "inet" |> <| host := take c rest |> <| port := toUnsigned (drop (S c) rest) |>)
  else if beq fam (str "AF_INET6") then
    if negb (starts_with (str "[") rest) then None
    else
      e ← find_char "]" rest;
      let ev := ev <| family := str "inet6" |> <| host := take (e - 1) (tail rest) |> in
      Some (if starts_with (str ":") (drop (S e) rest) then ev <| port := toUnsigned (drop (e + 2) rest) |> else ev)
  else if beq fam (str "AF_UNIX") || beq fam (str "AF_LOCAL") then
    Some (ev <| family := str "unix" |> <| path := unquoteArg rest |>)
  else None.

Definition openFlagsWrite (f : bytes) : bool :=
  existsb (fun w => has_sub w f) [str "O_WRONLY"; str "O_RDWR"; str "O_CREAT"; str "O_TRUNC"; str "O_APPEND"].

(** ** Lines *)

Definition skipSp (s : bytes) : bytes := snd (span (Ascii.eqb " ") s).

(** ["<sec>.<nsec> "] *)
Definition skipTime (s : bytes) : bytes :=
  let '(a, r) := span is_digit s in
  match r with
  | c :: r1 =>
      if negb (is_empty a) && Ascii.eqb c "." then
        let '(b, r2) := span is_digit r1 in
        if negb (is_empty b) && starts_with (str " ") r2 then skipSp r2 else s
      else s
  | [] => s
  end.

(** ["<pid>: "] or ["<pid> <tid>: "] *)
Definition readPid (s : bytes) : Z * bytes :=
  let '(a, r) := span is_digit s in
  if is_empty a then (0, s)
  else if starts_with (str ":") r then (strtol a, skipSp (tail r))
  else
    let '(b, r2) := span is_digit (skipSp r) in
    if negb (is_empty b) && starts_with (str ":") r2 then (strtol a, skipSp (tail r2)) else (0, s).

(** From after the opening parenthesis to its match: the arguments, the rest. *)
Fixpoint callEnd (fuel : nat) (depth : Z) (s : bytes) : option (bytes * bytes) :=
  match fuel with
  | O => None
  | S f =>
      match s with
      | [] => None
      | c :: t =>
          if Ascii.eqb c dquote then
            match quotedText s with
            | Some (q, r) => prod_map (app q) id <$> callEnd f depth r
            | None => None
            end
          else
            let depth' := if Ascii.eqb c "(" then depth + 1 else if Ascii.eqb c ")" then depth - 1 else depth in
            if depth' =? 0 then Some ([], t) else prod_map (cons c) id <$> callEnd f depth' t
      end
  end.

Definition nameByte (c : ascii) : bool := is_alnum c || Ascii.eqb c "_".
Definition isName (name : bytes) : bool :=
  match name with c :: _ => (is_lower c || is_upper c) && forallb nameByte name | [] => false end.

Definition socketFamily (a : bytes) : bytes :=
  if has_sub (str "INET6") a then str "inet6"
  else if has_sub (str "INET") a then str "inet"
  else if has_sub (str "UNIX") a || has_sub (str "LOCAL") a then str "unix"
  else str "other".

(** The [else if] chain on the name; [result] is the number after [=]. *)
Definition syscall (name : bytes) (args : list bytes) (rest : bytes) (result : Z) (ev : Event) : option Event :=
  let arg i := nth i args [] in
  let need n := (n <=? length args)%nat in
  if beq name (str "open") then
    if need 2%nat then Some (ev <| kind := KOpen |> <| path := unquoteArg (arg 0%nat) |> <| write := openFlagsWrite (arg 1%nat) |>) else None
  else if beq name (str "openat") then
    if need 3%nat then Some (ev <| kind := KOpen |> <| path := unquoteArg (arg 1%nat) |> <| write := openFlagsWrite (arg 2%nat) |>) else None
  else if existsb (beq name) [str "stat"; str "lstat"; str "access"; str "eaccess"; str "readlink"] then
    if need 1%nat then Some (ev <| kind := KStat |> <| path := unquoteArg (arg 0%nat) |>) else None
  else if existsb (beq name) [str "fstatat"; str "faccessat"; str "readlinkat"] then
    if need 2%nat then Some (ev <| kind := KStat |> <| path := unquoteArg (arg 1%nat) |>) else None
  else if beq name (str "execve") then
    if need 1%nat then Some (ev <| kind := KExec |> <| path := unquoteArg (arg 0%nat) |>
                                <| argv := if need 2%nat then parseStringList (arg 1%nat) else [] |>) else None
  else if beq name (str "socket") then
    if need 2%nat then Some (ev <| kind := KSocket |> <| family := socketFamily (arg 0%nat) |>
                                <| datagram := has_sub (str "SOCK_DGRAM") (arg 1%nat) |> <| fd := i32 result |>) else None
  else if beq name (str "connect") || beq name (str "bind") then
    if need 2%nat then
      let k := if beq name (str "connect") then KConnect else KBind in
      ev' ← parseSockaddr (arg 1%nat) (ev <| kind := k |> <| fd := i32 (strtol (arg 0%nat)) |>);
      Some (if beq name (str "connect") && failed ev' && has_sub (str "in progress") rest then ev' <| failed := false |> else ev')
    else None
  else if beq name (str "listen") then
    if need 1%nat then Some (ev <| kind := KListen |> <| fd := i32 (strtol (arg 0%nat)) |>) else None
  else if beq name (str "sendto") then
    if need 5%nat then parseSockaddr (arg 4%nat) (ev <| kind := KSendto |> <| fd := i32 (strtol (arg 0%nat)) |>) else None
  else None.

Definition parseLine (line : bytes) : option Event :=
  let '(p, s) := readPid (skipTime (skipSp line)) in
  i ← find_char "(" s;
  let name := take i s in
  if negb (isName name) then None
  else
    let s1 := drop (S i) s in
    '(args, rest) ← callEnd (S (length s1)) 1 s1;
    let result := match find_char "=" rest with Some eq => strtol (drop (S eq) rest) | None => -1 end in
    syscall name (splitArgs args) rest result (blankEvent <| pid := p |> <| failed := has_sub (str "ERR#") rest |>).

(** ** Quoted strings *)

(** A string as truss writes it. *)
Definition octalDigits (c : ascii) : bytes :=
  [backslash; digit_chr (code c / 64); digit_chr (code c / 8 mod 8); digit_chr (code c mod 8)].
Definition quoteByte (c : ascii) : bytes :=
  if Ascii.eqb c dquote || Ascii.eqb c backslash then [backslash; c]
  else if Ascii.eqb c newline then [backslash; "n"%char]
  else if Ascii.eqb c tab then [backslash; "t"%char]
  else if Ascii.eqb c cr then [backslash; "r"%char]
  else if (code c <? 32) || (126 <? code c) then octalDigits c
  else [c].
Definition quoteText (s : bytes) : bytes := dquote :: flat_map quoteByte s ++ [dquote].

Lemma unquoted_byte c t : unquoted (quoteByte c ++ t) = prod_map (cons c) id <$> unquoted t.
Proof. destruct c as [[] [] [] [] [] [] [] []]; reflexivity. Qed.

Lemma unquote_quoteText s rest : unquote (quoteText s ++ rest) = Some (s, rest).
Proof.
  unfold unquote, quoteText. cbn [app]. change (Ascii.eqb dquote dquote) with true. cbv iota. rewrite <- app_assoc. cbn [app].
  induction s as [|c s IH]; cbn [flat_map app]; [done|]. by rewrite <- app_assoc, unquoted_byte, IH.
Qed.

Lemma unquoted_shorter s out r : unquoted s = Some (out, r) -> (length r < length s)%nat.
Proof.
  revert out r. induction s as [s IH] using (induction_ltof1 _ (@length ascii)). unfold ltof in IH. intros out r.
  destruct s as [|c t]; [done|]. cbn [unquoted].
  assert (G : forall (u : bytes) x, (length u < length (c :: t))%nat -> prod_map (cons x) id <$> unquoted u = Some (out, r) -> (length r < length (c :: t))%nat).
  { intros u x Hu E. destruct (unquoted u) as [[o r']|] eqn:Eu; [|done]. injection E as <- <-. apply IH in Eu; [unfold id; lia|done]. }
  repeat case_match; subst; try done; try (intros [= <- <-]; cbn; lia); apply G; cbn; lia.
Qed.

Lemma unquote_shorter s out r : unquote s = Some (out, r) -> (length r < length s)%nat.
Proof.
  destruct s as [|c t]; [done|]. unfold unquote. destruct (Ascii.eqb c dquote); [|done]. intros E%unquoted_shorter. cbn. lia.
Qed.

Lemma quotedText_quote s rest : quotedText (quoteText s ++ rest) = Some (quoteText s, rest).
Proof.
  unfold quotedText. rewrite unquote_quoteText, length_app, Nat.add_sub. by rewrite take_app_length.
Qed.

Lemma quotedText_shorter s q r : quotedText s = Some (q, r) -> (length r < length s)%nat.
Proof. unfold quotedText. destruct (unquote s) as [[o r']|] eqn:E; [|done]. intros [= _ <-]. by eapply unquote_shorter. Qed.

Lemma quotedText_char c t : c <> dquote -> quotedText (c :: t) = None.
Proof. intros H. unfold quotedText, unquote. by rewrite (proj2 (Ascii.eqb_neq _ _) H). Qed.

(** ** The loops do not depend on their fuel *)

Lemma splitLoop_fuel f g depth cur any s : (length s < f)%nat -> (length s < g)%nat -> splitLoop f depth cur any s = splitLoop g depth cur any s.
Proof.
  revert g depth cur any s. induction f as [|f IH]; intros [|g] depth cur any s Hf Hg; try lia. cbn [splitLoop].
  destruct s as [|c t]; [done|]. destruct (quotedText (c :: t)) as [[q r]|] eqn:E.
  - apply quotedText_shorter in E. apply IH; lia.
  - cbn [length] in *. case_match; [f_equal|]; apply IH; lia.
Qed.

Lemma callEnd_fuel f g depth s : (length s < f)%nat -> (length s < g)%nat -> callEnd f depth s = callEnd g depth s.
Proof.
  revert g depth s. induction f as [|f IH]; intros [|g] depth s Hf Hg; try lia. cbn [callEnd].
  destruct s as [|c t]; [done|]. destruct (Ascii.eqb c dquote).
  - destruct (quotedText (c :: t)) as [[q r]|] eqn:E; [|done]. apply quotedText_shorter in E. by rewrite (IH g) by lia.
  - cbn [length] in *. case_match; [done|]. by rewrite (IH g) by lia.
Qed.

Definition splitAt depth cur any s := splitLoop (S (length s)) depth cur any s.
Definition callAt depth s := callEnd (S (length s)) depth s.

Lemma splitAt_quote depth cur any s rest : splitAt depth cur any (quoteText s ++ rest) = splitAt depth (cur ++ quoteText s) any rest.
Proof.
  unfold splitAt at 1. cbn [splitLoop]. destruct (quoteText s ++ rest) as [|c t] eqn:E; [done|]. rewrite <- E, quotedText_quote.
  apply splitLoop_fuel; [|lia]. rewrite length_app. cbn. lia.
Qed.

Lemma splitAt_char depth cur any c rest : c <> dquote ->
  splitAt depth cur any (c :: rest) =
  (let depth' := if opens c then depth + 1 else if closes c then depth - 1 else depth in
   if Ascii.eqb c "," && (depth' =? 0) then trim cur :: splitAt depth' [] true rest else splitAt depth' (cur ++ [c]) any rest).
Proof. intros H. unfold splitAt at 1. cbn [splitLoop]. by rewrite quotedText_char. Qed.

Lemma callAt_quote depth s rest : callAt depth (quoteText s ++ rest) = prod_map (app (quoteText s)) id <$> callAt depth rest.
Proof.
  unfold callAt at 1. cbn [callEnd]. destruct (quoteText s ++ rest) as [|c t] eqn:E; [done|].
  assert (Ascii.eqb c dquote = true) as -> by (cbn in E; by injection E as <- _). rewrite <- E, quotedText_quote.
  f_equal. apply callEnd_fuel; [|lia]. rewrite length_app. cbn. lia.
Qed.

Lemma callAt_char depth c rest : c <> dquote ->
  callAt depth (c :: rest) =
  (let depth' := if Ascii.eqb c "(" then depth + 1 else if Ascii.eqb c ")" then depth - 1 else depth in
   if depth' =? 0 then Some ([], rest) else prod_map (cons c) id <$> callAt depth' rest).
Proof. intros H. unfold callAt at 1. cbn [callEnd length]. by rewrite (proj2 (Ascii.eqb_neq _ _) H). Qed.

(** ** Texts the loops pass over *)

(** At depth [m] and more the comma split takes the whole of [t]; inside a
    call's parentheses it does not end the call. *)
Definition Through (m : Z) (t : bytes) : Prop :=
  (forall d cur any rest, m <= d -> splitAt d cur any (t ++ rest) = splitAt d (cur ++ t) any rest)
  /\ forall k rest, 1 <= k -> callAt k (t ++ rest) = prod_map (app t) id <$> callAt k rest.

Lemma through_nil m : Through m [].
Proof. split; [intros; by rewrite app_nil_r|]. intros k rest _. cbn [app]. by destruct (callAt k rest) as [[]|]. Qed.

Lemma through_app m a b : Through m a -> Through m b -> Through m (a ++ b).
Proof.
  intros [A1 A2] [B1 B2]. split.
  - intros d cur any rest Hd. by rewrite <- app_assoc, A1, B1, <- app_assoc by done.
  - intros k rest Hk. rewrite <- app_assoc, A2, B2 by done. destruct (callAt k rest) as [[x r]|]; [|done]. cbn. by rewrite app_assoc.
Qed.

Lemma through_weaken m m' t : m <= m' -> Through m t -> Through m' t.
Proof. intros Hm [H1 H2]. split; [|done]. intros d cur any rest Hd. apply H1. lia. Qed.

(** Not a quote, bracket or parenthesis. *)
Definition innerByte (c : ascii) : bool := negb (Ascii.eqb c dquote || opens c || closes c).
Definition plainByte (c : ascii) : bool := innerByte c && negb (Ascii.eqb c ",").

Lemma innerByte_facts c : innerByte c = true -> c <> dquote /\ opens c = false /\ closes c = false /\ Ascii.eqb c "(" = false /\ Ascii.eqb c ")" = false.
Proof.
  unfold innerByte. intros H. apply negb_true_iff in H. apply orb_false_iff in H as [H Hc]. apply orb_false_iff in H as [Hq Ho].
  split; [by apply Ascii.eqb_neq|]. split; [done|]. split; [done|]. unfold opens, closes, one_of in *. cbn in *. destruct (Ascii.eqb c "("), (Ascii.eqb c ")"); rewrite ?orb_true_r in *; done.
Qed.

Lemma through_byte m c : 0 <= m -> innerByte c = true -> Ascii.eqb c "," = false \/ 1 <= m -> Through m [c].
Proof.
  intros Hm (Hq & Ho & Hc & Hl & Hr)%innerByte_facts Hcomma. split.
  - intros d cur any rest Hd. cbn [app]. rewrite splitAt_char by done. rewrite Ho, Hc. cbv zeta.
    assert (Ascii.eqb c "," && (d =? 0) = false) as -> by (destruct Hcomma as [->|]; [done|]; apply andb_false_iff; right; lia). done.
  - intros k rest Hk. cbn [app]. rewrite callAt_char by done. rewrite Hl, Hr. cbv zeta. destruct (Z.eqb_spec k 0); [lia|].
    by destruct (callAt k rest) as [[]|].
Qed.

Lemma through_plain t : forallb plainByte t = true -> Through 0 t.
Proof.
  induction t as [|c t IH]; [intros; apply through_nil|]. cbn [forallb]. intros [Hc Ht]%andb_true_iff. apply andb_true_iff in Hc as [Hi Hk%negb_true_iff].
  change (c :: t) with ([c] ++ t). apply through_app; [|by apply IH]. apply through_byte; [done|done|by left].
Qed.

Lemma through_inner t : forallb innerByte t = true -> Through 1 t.
Proof.
  induction t as [|c t IH]; [intros; apply through_nil|]. cbn [forallb]. intros [Hc Ht]%andb_true_iff.
  change (c :: t) with ([c] ++ t). apply through_app; [|by apply IH]. apply through_byte; [done|done|by right].
Qed.

Lemma through_quote s : Through 0 (quoteText s).
Proof. split; intros; [apply splitAt_quote|apply callAt_quote]. Qed.

Lemma through_brackets a b t : In (a, b) [("["%char, "]"%char); ("{"%char, "}"%char)] -> Through 1 t -> Through 0 (a :: t ++ [b]).
Proof.
  intros Hab [H1 H2].
  assert (opens a = true /\ opens b = false /\ closes b = true /\ a <> dquote /\ b <> dquote /\ Ascii.eqb a "," = false /\ Ascii.eqb b "," = false
    /\ Ascii.eqb a "(" = false /\ Ascii.eqb a ")" = false /\ Ascii.eqb b "(" = false /\ Ascii.eqb b ")" = false) as (Oa & Ob & Cb & Qa & Qb & Ka & Kb & La & Ra & Lb & Rb).
  { destruct Hab as [[= <- <-]|[[= <- <-]|[]]]; repeat split; done. }
  split.
  - intros d cur any rest Hd. cbn [app]. rewrite splitAt_char by done. rewrite Oa, Ka. cbn [andb]. rewrite <- app_assoc, H1 by lia. cbn [app].
    rewrite splitAt_char by done. rewrite Ob, Cb, Kb. cbn [andb]. f_equal; [lia|]. by rewrite <- !app_assoc.
  - intros k rest Hk. cbn [app]. rewrite callAt_char by done. rewrite La, Ra. cbv zeta. destruct (Z.eqb_spec k 0); [lia|]. rewrite <- app_assoc, H2 by done. cbn [app].
    rewrite callAt_char by done. rewrite Lb, Rb. cbv zeta. destruct (Z.eqb_spec k 0); [lia|]. destruct (callAt k rest) as [[x r]|]; [|done]. cbn. by rewrite <- app_assoc.
Qed.

(** ** Arguments *)

(** An argument as truss writes it. *)
Inductive Arg := Plain (t : bytes) | Quoted (s : bytes) | Words (l : list bytes) | Inet (h : bytes) (p : Z) | Inet6 (h : bytes) (p : Z) | Unix (s : bytes).

Definition argText (a : Arg) : bytes :=
  match a with
  | Plain t => t
  | Quoted s => quoteText s
  | Words l => str "[ " ++ joined (str ", ") (map quoteText l) ++ str " ]"
  | Inet h p => str "{ AF_INET " ++ h ++ str ":" ++ dec p ++ str " }"
  | Inet6 h p => str "{ AF_INET6 [" ++ h ++ str "]:" ++ dec p ++ str " }"
  | Unix s => str "{ AF_UNIX " ++ quoteText s ++ str " }"
  end.

Definition argByte (c : ascii) : bool := plainByte c && negb (is_space c).

Definition goodArg (a : Arg) : Prop :=
  match a with
  | Plain t => forallb argByte t = true /\ t <> []
  | Inet h p | Inet6 h p => forallb argByte h = true /\ 0 <= p < 2 ^ 32
  | _ => True
  end.

Lemma forallb_mono (f g : ascii -> bool) t : (forall c, f c = true -> g c = true) -> forallb f t = true -> forallb g t = true.
Proof. intros Hfg H. apply forallb_forall. intros c Hc. apply Hfg. by eapply forallb_forall in H. Qed.

Lemma argByte_inner c : argByte c = true -> innerByte c = true.
Proof. unfold argByte, plainByte. by intros [[? _]%andb_true_iff _]%andb_true_iff. Qed.

Lemma digit_argByte c : is_digit c = true -> argByte c = true.
Proof. revert c. by_bytes. Qed.

Lemma dec_args p : forallb argByte (dec p) = true.
Proof. eapply forallb_mono; [exact digit_argByte|]. apply dec_digits. Qed.

Lemma through_words l : Through 1 (joined (str ", ") (map quoteText l)).
Proof.
  induction l as [|x [|y l] IH]; cbn [map joined]; [apply through_nil|apply (through_weaken 0); [lia|apply through_quote]|].
  apply through_app; [apply (through_weaken 0); [lia|apply through_quote]|]. apply through_app; [by apply through_inner|exact IH].
Qed.

Lemma arg_through a : goodArg a -> Through 0 (argText a).
Proof.
  intros G. destruct a as [t|s|l|h p|h p|s]; cbn [argText goodArg] in *.
  - apply through_plain. eapply forallb_mono; [|apply G]. intros c. unfold argByte. by intros [? _]%andb_true_iff.
  - apply through_quote.
  - change (str "[ " ++ ?x ++ str " ]") with ("["%char :: str " " ++ x ++ str " ]").
    replace (str " " ++ joined (str ", ") (map quoteText l) ++ str " ]") with ((str " " ++ joined (str ", ") (map quoteText l) ++ str " ") ++ ["]"%char]) by (by rewrite <- !app_assoc).
    apply through_brackets; [by left|]. repeat apply through_app; [by apply through_inner|apply through_words|by apply through_inner].
  - replace (str "{ AF_INET " ++ h ++ str ":" ++ dec p ++ str " }") with ("{"%char :: (str " AF_INET " ++ h ++ str ":" ++ dec p ++ str " ") ++ ["}"%char]) by (by rewrite <- !app_assoc).
    destruct G as [Gh _]. apply through_brackets; [by right; left|]. repeat apply through_app; apply through_inner; try done; (eapply forallb_mono; [exact argByte_inner|]); [done|apply dec_args].
  - replace (str "{ AF_INET6 [" ++ h ++ str "]:" ++ dec p ++ str " }") with ("{"%char :: (str " AF_INET6 " ++ ("["%char :: h ++ ["]"%char]) ++ str ":" ++ dec p ++ str " ") ++ ["}"%char]) by (by rewrite <- !app_assoc; cbn; rewrite <- !app_assoc).
    destruct G as [Gh _]. apply through_brackets; [by right; left|]. repeat apply through_app; try (by apply through_inner).
    + apply (through_weaken 0); [lia|]. apply through_brackets; [by left|]. apply through_inner. eapply forallb_mono; [exact argByte_inner|done].
    + apply through_inner. eapply forallb_mono; [exact argByte_inner|apply dec_args].
  - replace (str "{ AF_UNIX " ++ quoteText s ++ str " }") with ("{"%char :: (str " AF_UNIX " ++ quoteText s ++ str " ") ++ ["}"%char]) by (by rewrite <- !app_assoc).
    apply through_brackets; [by right; left|]. repeat apply through_app; try (by apply through_inner). apply (through_weaken 0); [lia|apply through_quote].
Qed.

(** A text without blanks at its ends. *)
Definition tight (t : bytes) : Prop := exists a m b, t = a :: m ++ [b] /\ is_space a = false /\ is_space b = false.

Lemma trim_tight t : tight t \/ (exists c, t = [c] /\ is_space c = false) -> trim t = t.
Proof.
  intros [(a & m & b & -> & Ha & Hb)|(c & -> & Hc)]; unfold trim; cbn [skipSpace rev app]; [|rewrite Hc; cbn; by rewrite Hc].
  rewrite Ha. cbn [rev]. rewrite rev_app_distr. cbn [rev app]. cbn [skipSpace]. rewrite Hb. cbn [rev].
  by rewrite rev_app_distr, rev_involutive.
Qed.

Lemma argText_trim a : goodArg a -> trim (argText a) = argText a /\ argText a <> [].
Proof.
  intros G. assert (T : forall x m y, is_space x = false -> is_space y = false -> trim (x :: m ++ [y]) = x :: m ++ [y]).
  { intros x m y Hx Hy. apply trim_tight. left. by exists x, m, y. }
  destruct a as [t|s|l|h p|h p|s]; cbn [argText goodArg] in *.
  - destruct G as [Gt Hne]. split; [|done]. assert (Sp : forall c, In c t -> is_space c = false).
    { intros c Hc. eapply forallb_forall in Gt; [|exact Hc]. unfold argByte in Gt. apply andb_true_iff in Gt as [_ Gt]. by apply negb_true_iff. }
    apply trim_tight. destruct t as [|a t]; [done|]. destruct t as [|b u] using rev_ind; [right; exists a; auto using in_eq|]. left.
    exists a, u, b. split; [done|]. split; apply Sp; [by left|]. right. apply in_or_app. right. by left.
  - split; [|done]. unfold quoteText. by apply T.
  - split; [|done]. replace (str "[ " ++ joined (str ", ") (map quoteText l) ++ str " ]")
      with ("["%char :: (str " " ++ joined (str ", ") (map quoteText l) ++ str " ") ++ ["]"%char]) by (by rewrite <- !app_assoc). by apply T.
  - split; [|done]. replace (str "{ AF_INET " ++ h ++ str ":" ++ dec p ++ str " }")
      with ("{"%char :: (str " AF_INET " ++ h ++ str ":" ++ dec p ++ str " ") ++ ["}"%char]) by (by rewrite <- !app_assoc). by apply T.
  - split; [|done]. replace (str "{ AF_INET6 [" ++ h ++ str "]:" ++ dec p ++ str " }")
      with ("{"%char :: (str " AF_INET6 [" ++ h ++ str "]:" ++ dec p ++ str " ") ++ ["}"%char]) by (by rewrite <- !app_assoc). by apply T.
  - split; [|done]. replace (str "{ AF_UNIX " ++ quoteText s ++ str " }")
      with ("{"%char :: (str " AF_UNIX " ++ quoteText s ++ str " ") ++ ["}"%char]) by (by rewrite <- !app_assoc). by apply T.
Qed.

(** The arguments of a call are read back as they were written. *)
Lemma splitAt_args args cur any : Forall goodArg args -> args <> [] -> cur = [] ->
  splitAt 0 cur any (joined (str ",") (map argText args)) = map argText args.
Proof.
  intros G Hne ->. revert any. induction args as [|a args IH]; [done|]. intros any. apply Forall_cons in G as [Ga G].
  destruct (arg_through a Ga) as [T _]. destruct (argText_trim a Ga) as [Ht Hn]. destruct args as [|b args].
  - cbn [map joined]. rewrite <- (app_nil_r (argText a)) at 1. rewrite T by lia. unfold splitAt. cbn [splitLoop length app].
    rewrite Ht. by destruct (argText a).
  - change (joined (str ",") (map argText (a :: b :: args))) with (argText a ++ ","%char :: joined (str ",") (map argText (b :: args))).
    rewrite T by lia. cbn [app]. rewrite splitAt_char by done. change (opens ",") with false. change (closes ",") with false. cbn [andb Z.eqb]. rewrite Ht.
    change (Ascii.eqb "," ",") with true. cbn [andb]. cbn [map]. f_equal. by apply IH.
Qed.

Lemma callAt_args args rest : Forall goodArg args -> callAt 1 (joined (str ",") (map argText args) ++ ")"%char :: rest) = Some (joined (str ",") (map argText args), rest).
Proof.
  intros G. assert (T : Through 1 (joined (str ",") (map argText args))).
  { induction args as [|a [|b args] IH]; cbn [map joined]; [apply through_nil| |]; apply Forall_cons in G as [Ga G]; apply arg_through in Ga; apply (through_weaken 0 1) in Ga; try lia; [done|].
    apply through_app; [done|]. apply through_app; [by apply through_inner|by apply IH]. }
  destruct T as [_ T]. rewrite T by lia. replace (callAt 1 (")"%char :: rest)) with (Some ([] : bytes, rest)) by done.
  unfold fmap, option_fmap, option_map, prod_map. cbn [fst snd]. by rewrite app_nil_r.
Qed.

(** ** Lines *)

Definition lineText (p : Z) (name : bytes) (args : list Arg) (rest : bytes) : bytes :=
  dec p ++ str ": " ++ name ++ str "(" ++ joined (str ",") (map argText args) ++ str ")" ++ rest.

Lemma strtol_dec_then n t : 0 <= n <= longMax -> (forall c r, t = c :: r -> is_digit c = false) -> strtol (dec n ++ t) = n.
Proof.
  intros Hn Ht. unfold strtol.
  assert (exists u, cstr (dec n ++ t) = dec n ++ u /\ forall c r, u = c :: r -> is_digit c = false) as (u & -> & Hu).
  { unfold cstr. exists (fst (span (fun c => negb (Ascii.eqb c nul)) t)). split.
    - assert (D : forallb (fun c => negb (Ascii.eqb c nul)) (dec n) = true).
      { eapply forallb_mono; [|apply dec_digits]. by_bytes. }
      revert D. generalize (dec n) as d. induction d as [|c d IH]; [done|]. cbn [app forallb span]. intros [Hc Hd]%andb_true_iff. rewrite Hc.
      specialize (IH Hd). destruct (span _ (d ++ t)). cbn in *. by rewrite IH.
    - destruct t as [|c r]; [done|]. cbn [span]. destruct (negb (Ascii.eqb c nul)); [|done]. destruct (span _ r). cbn. intros ? ? [= <- _]. by eapply Ht. }
  assert (N : sign (skipSpace (dec n ++ u)) = (false, dec n ++ u)).
  { pose proof (dec_digits n) as D. pose proof (dec_nonempty n). destruct (dec n) as [|c d]; [done|]. unfold all_digits in D. cbn [forallb] in D. apply andb_true_iff in D as [Hc _].
    cbn [app skipSpace]. rewrite is_digit_not_space by done. unfold sign. pose proof (is_digit_not_sign c Hc) as [-> ->]%orb_false_iff. done. }
  rewrite N. assert (span is_digit (dec n ++ u) = (dec n, u)) as ->.
  { destruct u as [|c r]; [rewrite app_nil_r; apply span_all, dec_digits|]. apply span_stop; [apply dec_digits|by eapply Hu]. }
  cbn [fst]. rewrite dec_value_dec by lia. unfold longMax in *. lia.
Qed.

Lemma strtol_number n : 0 <= n <= longMax -> strtol (dec n) = n.
Proof. intros Hn. rewrite <- (app_nil_r (dec n)). by apply strtol_dec_then. Qed.

Definition resultOf (rest : bytes) : Z := match find_char "=" rest with Some eq => strtol (drop (S eq) rest) | None => -1 end.

(** A line is read as its call. *)
Lemma line_read p name args rest : 0 <= p <= longMax -> isName name = true -> Forall goodArg args -> args <> [] ->
  parseLine (lineText p name args rest)
  = syscall name (map argText args) rest (resultOf rest) (blankEvent <| pid := p |> <| failed := has_sub (str "ERR#") rest |>).
Proof.
  intros Hp Hn Ha Hne. unfold lineText, parseLine. set (body := name ++ str "(" ++ joined (str ",") (map argText args) ++ str ")" ++ rest).
  assert (D1 : exists c d, dec p = c :: d /\ is_digit c = true).
  { pose proof (dec_digits p) as D. pose proof (dec_nonempty p). destruct (dec p) as [|c d]; [done|]. cbn in D. apply andb_true_iff in D as [Hc _]. eauto. }
  assert (S0 : skipSp (dec p ++ str ": " ++ body) = dec p ++ str ": " ++ body).
  { destruct D1 as (c & d & -> & Hc). unfold skipSp. cbn [app span]. destruct (Ascii.eqb_spec " " c) as [<-|]; done. }
  assert (SP : span is_digit (dec p ++ str ": " ++ body) = (dec p, str ": " ++ body)) by (apply span_stop; [apply dec_digits|done]).
  assert (E0 : is_empty (dec p) = false) by (destruct D1 as (c & d & -> & _); done).
  assert (S1 : skipTime (dec p ++ str ": " ++ body) = dec p ++ str ": " ++ body).
  { unfold skipTime. rewrite SP. cbn [str list_ascii_of_string app]. change (Ascii.eqb ":" ".") with false. by rewrite andb_false_r. }
  assert (B0 : skipSp (" "%char :: body) = body).
  { unfold skipSp, body. cbn [span]. change (Ascii.eqb " " " ") with true. cbv iota. destruct name as [|c t]; [done|]. cbn in Hn. cbn [app span].
    destruct (Ascii.eqb_spec " " c) as [<-|]; [done|done]. }
  assert (R : readPid (dec p ++ str ": " ++ body) = (p, body)).
  { unfold readPid. rewrite SP, E0. change (starts_with (str ":") (str ": " ++ body)) with true. cbv iota. rewrite strtol_number by done.
    change (tail (str ": " ++ body)) with (" "%char :: body). by rewrite B0. }
  rewrite S0, S1, R.
  assert (F : find_char "(" body = Some (length name)).
  { apply find_char_app. intros Hi. destruct name as [|c t]; [done|]. cbn in Hn. apply andb_true_iff in Hn as [_ Hn].
    change (forallb nameByte (c :: t) = true) in Hn. eapply forallb_forall in Hn; [|exact Hi]. done. }
  rewrite F. cbn [mbind option_bind]. unfold body. rewrite take_app_length, Hn. cbn [negb].
  replace (drop (S (length name)) (name ++ str "(" ++ joined (str ",") (map argText args) ++ str ")" ++ rest))
    with (joined (str ",") (map argText args) ++ ")"%char :: rest) by (rewrite <- Nat.add_1_r, <- drop_drop, drop_app_length; done).
  pose proof (callAt_args args rest Ha) as C. unfold callAt in C. rewrite C. cbn [mbind option_bind].
  fold (splitAt 0 [] false (joined (str ",") (map argText args))). unfold splitArgs. fold (splitAt 0 [] false (joined (str ",") (map argText args))).
  by rewrite splitAt_args.
Qed.

(** ** What the arguments say *)

Lemma unquoteArg_quoted s : unquoteArg (quoteText s) = s.
Proof. unfold unquoteArg. rewrite <- (app_nil_r (quoteText s)), unquote_quoteText. done. Qed.

Lemma removelast_snoc {A} (l : list A) x : removelast (l ++ [x]) = l.
Proof. apply removelast_last. Qed.

Lemma between_brackets a b m : between a b (a :: m ++ [b]) = Some m.
Proof.
  unfold between. rewrite Ascii.eqb_refl. rewrite size_z_cons, size_z_app. pose proof (size_z_nonneg m). change (size_z [b]) with 1.
  destruct (Z.leb_spec 2 (1 + (size_z m + 1))); [|lia]. assert (backIs b (a :: m ++ [b]) = true) as ->.
  { apply backIs_spec. by exists (a :: m). }
  cbn [andb]. by rewrite removelast_snoc.
Qed.

(** A list of quoted words, with the blanks truss puts around it. *)
Lemma splitAt_words l cur any : (forall c, In c cur -> is_space c = true) -> l <> [] ->
  splitAt 0 cur any (joined (str ", ") (map quoteText l) ++ str " ") = map quoteText l.
Proof.
  assert (T : forall cur' s t, (forall c, In c cur' -> is_space c = true) -> (forall c, In c t -> is_space c = true) -> trim (cur' ++ quoteText s ++ t) = quoteText s).
  { intros cur' s t Hc Ht. unfold trim.
    assert (K : forall u v, (forall c, In c u -> is_space c = true) -> skipSpace (u ++ dquote :: v) = dquote :: v).
    { intros u v. induction u as [|c u IH]; intros Hu; [done|]. cbn [app skipSpace]. rewrite Hu by (by left). apply IH. intros. apply Hu. by right. }
    unfold quoteText. cbn [app]. rewrite K by done. rewrite app_comm_cons, rev_app_distr.
    assert (rev (dquote :: flat_map quoteByte s ++ [dquote]) = dquote :: rev (flat_map quoteByte s) ++ [dquote]) as -> by (cbn; by rewrite rev_app_distr).
    rewrite K by (intros c Hi; apply Ht; by apply in_rev). cbn. by rewrite rev_app_distr, rev_involutive. }
  revert cur any. induction l as [|x l IH]; [done|]. intros cur any Hc _. destruct l as [|y l].
  - cbn [map joined]. rewrite splitAt_quote. change (str " ") with [" "%char]. rewrite splitAt_char by done. change (opens " ") with false. change (closes " ") with false.
    change (Ascii.eqb " " ",") with false. cbn [andb]. unfold splitAt. cbn [splitLoop length]. rewrite <- app_assoc, T; [|done|by intros ? [<-|[]]].
    by destruct cur.
  - change (joined (str ", ") (map quoteText (x :: y :: l)) ++ str " ") with ((quoteText x ++ str ", " ++ joined (str ", ") (map quoteText (y :: l))) ++ str " ").
    rewrite <- app_assoc, splitAt_quote. cbn [str list_ascii_of_string app]. rewrite splitAt_char by done. change (opens ",") with false. change (closes ",") with false.
    change (Ascii.eqb "," "," && (0 =? 0)) with true. cbv zeta iota. rewrite splitAt_char by done. change (opens " ") with false. change (closes " ") with false.
    change (Ascii.eqb " " "," && (0 =? 0)) with false. cbv zeta iota. rewrite <- (app_nil_r (quoteText x)), T by done. cbn [map]. f_equal.
    apply (IH ([] ++ [" "%char])); [|done]. by intros ? [<-|[]].
Qed.

Lemma parseStringList_words l : parseStringList (argText (Words l)) = l.
Proof.
  unfold parseStringList. rewrite (proj1 (argText_trim (Words l) I)). cbn [argText].
  replace (str "[ " ++ joined (str ", ") (map quoteText l) ++ str " ]")
    with ("["%char :: (str " " ++ joined (str ", ") (map quoteText l) ++ str " ") ++ ["]"%char]) by (by rewrite <- !app_assoc).
  rewrite between_brackets. destruct l as [|x l]; [done|]. unfold splitArgs.
  fold (splitAt 0 [] false (str " " ++ joined (str ", ") (map quoteText (x :: l)) ++ str " ")).
  change (str " " ++ ?t) with (" "%char :: t). rewrite splitAt_char by done. change (opens " ") with false. change (closes " ") with false.
  change (Ascii.eqb " " ",") with false. cbv beta zeta iota. cbn [andb]. rewrite (splitAt_words (x :: l) ([] ++ [" "%char])); [|by intros ? [<-|[]]|done].
  clear. generalize (x :: l) as w. induction w as [|y w IH]; [done|]. cbn [map List.filter]. change (is_empty (quoteText y)) with false. change (negb false) with true. cbv iota.
  change (map unquoteArg (?q :: ?r)) with (unquoteArg q :: map unquoteArg r). by rewrite unquoteArg_quoted, IH.
Qed.

(** The part between the braces: the family and the address. *)
Lemma sockaddr_parts fam addr : forallb argByte fam = true -> fam <> [] -> addr <> [] -> trim addr = addr ->
  let s := trim (str " " ++ fam ++ str " " ++ addr ++ str " ") in
  find_char " " s = Some (length fam) /\ take (length fam) s = fam /\ trim (drop (S (length fam)) s) = addr.
Proof.
  intros Hf Hne Ha Ht. cbv zeta.
  assert (E : trim (str " " ++ fam ++ str " " ++ addr ++ str " ") = fam ++ " "%char :: addr).
  { unfold trim. cbn [str list_ascii_of_string app skipSpace]. change (is_space " ") with true. cbv iota.
    assert (skipSpace (fam ++ " "%char :: addr ++ [" "%char]) = fam ++ " "%char :: addr ++ [" "%char]) as ->.
    { destruct fam as [|c t]; [done|]. cbn in Hf. apply andb_true_iff in Hf as [Hc _]. unfold argByte in Hc. apply andb_true_iff in Hc as [_ Hc%negb_true_iff].
      cbn [app skipSpace]. by rewrite Hc. }
    assert (exists c r, rev addr = c :: r /\ is_space c = false) as (c & r & Er & Hc).
    { unfold trim in Ht. destruct (rev (skipSpace addr)) as [|c r] eqn:E1; [by rewrite <- Ht in Ha|]. cbn [skipSpace] in Ht. destruct (is_space c) eqn:Hc.
      - exfalso. apply (f_equal (@rev ascii)) in Ht. rewrite rev_involutive in Ht. apply (f_equal (@length ascii)) in E1, Ht.
        assert (forall x, (length (skipSpace x) <= length x)%nat) as L by (induction x as [|y x IHx]; cbn; [lia|]; destruct (is_space y); cbn; lia).
        rewrite !length_rev in *. pose proof (L addr). pose proof (L r). cbn in E1. rewrite <- Ht in *. lia.
      - exists c, r. split; [|done]. rewrite <- Ht. by rewrite rev_involutive. }
    assert (L : rev (fam ++ " "%char :: addr) = c :: r ++ " "%char :: rev fam) by (rewrite rev_app_distr; cbn [rev]; by rewrite Er, <- !app_assoc).
    replace (fam ++ " "%char :: addr ++ [" "%char]) with ((fam ++ " "%char :: addr) ++ [" "%char]) by (by rewrite <- app_assoc).
    rewrite rev_app_distr. cbn [rev app skipSpace]. change (is_space " ") with true. cbv iota. rewrite L. cbn [skipSpace]. rewrite Hc, <- L. apply rev_involutive. }
  rewrite E. split; [|split].
  - apply find_char_app. intros Hi. eapply forallb_forall in Hf; [|exact Hi]. done.
  - apply take_app_length.
  - rewrite <- Nat.add_1_r, <- drop_drop, drop_app_length. done.
Qed.

Lemma rfind_char_last c a b : ~ In c b -> rfind_char c (a ++ c :: b) = Some (length a).
Proof.
  intros Hb. assert (N : rfind_char c b = None).
  { induction b as [|x b IH]; [done|]. cbn. rewrite IH by (intros Hi; apply Hb; by right). destruct (Ascii.eqb_spec x c) as [->|]; [|done]. exfalso. apply Hb. by left. }
  induction a as [|x a IH]; cbn; [by rewrite N, Ascii.eqb_refl|]. by rewrite IH.
Qed.

Lemma toUnsigned_dec p : 0 <= p < 2 ^ 32 -> toUnsigned (dec p) = p.
Proof.
  intros Hp. unfold toUnsigned, strtoul. rewrite cstr_no_nul by (apply dec_not_In; done). rewrite number_start by (apply dec_digits || apply dec_nonempty).
  rewrite span_all by apply dec_digits. cbn [fst]. rewrite dec_value_dec by lia. unfold ulongMax, u32. destruct (Z.ltb_spec (2 ^ 64 - 1) p); [lia|]. by apply Z.mod_small.
Qed.

Lemma dec_ends p : exists d x, dec p = d ++ [x] /\ is_space x = false.
Proof.
  pose proof (dec_digits p) as D. pose proof (dec_nonempty p) as N. destruct (dec p) as [|x d _] using rev_ind; [done|]. exists d, x. split; [done|].
  unfold all_digits in D. rewrite forallb_app in D. apply andb_true_iff in D as [_ D]. cbn in D. rewrite andb_true_r in D. by apply is_digit_not_space.
Qed.

(** The event of an address. *)
Definition addressed (a : Arg) (ev : Event) : Event :=
  match a with
  | Inet h p => ev <| family := str "inet" |> <| host := h |> <| port := p |>
  | Inet6 h p => ev <| family := str "inet6" |> <| host := h |> <| port := p |>
  | Unix s => ev <| family := str "unix" |> <| path := s |>
  | _ => ev
  end.
Definition isAddress (a : Arg) : bool := match a with Inet _ _ | Inet6 _ _ | Unix _ => true | _ => false end.

Lemma parseSockaddr_address a ev : goodArg a -> isAddress a = true -> parseSockaddr (argText a) ev = Some (addressed a ev).
Proof.
  intros G Ha. unfold parseSockaddr. rewrite (proj1 (argText_trim a G)). destruct a as [| | |h p|h p|s]; try done; cbn [argText goodArg addressed] in *.
  - destruct G as [Gh Hp]. replace (str "{ AF_INET " ++ h ++ str ":" ++ dec p ++ str " }")
      with ("{"%char :: (str " " ++ str "AF_INET" ++ str " " ++ (h ++ str ":" ++ dec p) ++ str " ") ++ ["}"%char]) by (by rewrite <- !app_assoc).
    rewrite between_brackets. cbn [mbind option_bind].
    destruct (sockaddr_parts (str "AF_INET") (h ++ str ":" ++ dec p)) as (-> & -> & ->); [done|done|by destruct h| |].
    { apply (argText_trim (Plain (h ++ str ":" ++ dec p))). split; [rewrite !forallb_app, Gh, dec_args; done|by destruct h]. }
    change (beq (str "AF_INET") (str "AF_INET")) with true. cbv iota. change (str ":" ++ dec p) with (":"%char :: dec p).
    rewrite rfind_char_last by (apply dec_not_In; done). cbn [mbind option_bind]. rewrite take_app_length, <- Nat.add_1_r, <- drop_drop, drop_app_length.
    change (drop 1 (":"%char :: dec p)) with (dec p). by rewrite toUnsigned_dec.
  - destruct G as [Gh Hp]. replace (str "{ AF_INET6 [" ++ h ++ str "]:" ++ dec p ++ str " }")
      with ("{"%char :: (str " " ++ str "AF_INET6" ++ str " " ++ ("["%char :: h ++ str "]:" ++ dec p) ++ str " ") ++ ["}"%char]) by (by cbn; rewrite <- !app_assoc).
    rewrite between_brackets. cbn [mbind option_bind].
    destruct (sockaddr_parts (str "AF_INET6") ("["%char :: h ++ str "]:" ++ dec p)) as (-> & -> & ->); [done|done|done| |].
    { apply trim_tight. left. destruct (dec_ends p) as (d & x & -> & Hx). exists "["%char, (h ++ str "]:" ++ d), x. split; [by rewrite <- !app_assoc|done]. }
    change (beq (str "AF_INET6") (str "AF_INET")) with false. change (beq (str "AF_INET6") (str "AF_INET6")) with true. cbv iota.
    change (starts_with (str "[") ("["%char :: h ++ str "]:" ++ dec p)) with true. cbn [negb].
    assert (N : ~ In "]"%char ("["%char :: h)).
    { intros [Hb|Hi]; [done|]. eapply forallb_forall in Gh; [|exact Hi]. done. }
    change ("["%char :: h ++ str "]:" ++ dec p) with (("["%char :: h) ++ "]"%char :: ":"%char :: dec p). rewrite find_char_app by done. cbn [mbind option_bind].
    replace (drop (S (length ("["%char :: h))) (("["%char :: h) ++ "]"%char :: ":"%char :: dec p)) with (":"%char :: dec p)
      by (rewrite <- Nat.add_1_r, <- drop_drop, drop_app_length; done).
    change (starts_with (str ":") (":"%char :: dec p)) with true. cbv iota.
    rewrite <- drop_drop, drop_app_length. change (drop 2 ("]"%char :: ":"%char :: dec p)) with (dec p). rewrite toUnsigned_dec by done.
    cbn [length Nat.sub app tail]. rewrite Nat.sub_0_r, take_app_length. done.
  - replace (str "{ AF_UNIX " ++ quoteText s ++ str " }")
      with ("{"%char :: (str " " ++ str "AF_UNIX" ++ str " " ++ quoteText s ++ str " ") ++ ["}"%char]) by (by rewrite <- !app_assoc).
    rewrite between_brackets. cbn [mbind option_bind].
    destruct (sockaddr_parts (str "AF_UNIX") (quoteText s)) as (-> & -> & ->); [done|done|done|apply (argText_trim (Quoted s) I)|].
    change (beq (str "AF_UNIX") (str "AF_INET")) with false. change (beq (str "AF_UNIX") (str "AF_INET6")) with false.
    change (beq (str "AF_UNIX") (str "AF_UNIX") || beq (str "AF_UNIX") (str "AF_LOCAL")) with true. cbv iota. by rewrite unquoteArg_quoted.
Qed.

(** ** Calls *)

(** The calls a profile is made from, and how they ended. *)
Inductive Call :=
  | COpen (p flags : bytes) | CStat (p : bytes) | CExec (p : bytes) (argv : list bytes) | CSocket (domain type : bytes)
  | CConnect (f : Z) (a : Arg) | CBind (f : Z) (a : Arg) | CListen (f : Z) | CSendto (f : Z) (data : bytes) (a : Arg).
Inductive Ended := Returned (n : Z) | Failed (errno : Z).

Definition endText (e : Ended) : bytes := match e with Returned n => str " = " ++ dec n | Failed n => str " ERR#" ++ dec n end.

Definition callName (c : Call) : bytes :=
  str match c with
      | COpen _ _ => "openat" | CStat _ => "fstatat" | CExec _ _ => "execve" | CSocket _ _ => "socket" | CConnect _ _ => "connect"
      | CBind _ _ => "bind" | CListen _ => "listen" | CSendto _ _ _ => "sendto"
      end.

Definition callArgs (c : Call) : list Arg :=
  match c with
  | COpen p flags => [Plain (str "AT_FDCWD"); Quoted p; Plain flags; Plain (str "00")]
  | CStat p => [Plain (str "AT_FDCWD"); Quoted p; Plain (str "0x7fffffffe3c8"); Plain (str "0x0")]
  | CExec p l => [Quoted p; Words l; Plain (str "0x7fffffffe6a8")]
  | CSocket d t => [Plain d; Plain t; Plain (str "0")]
  | CConnect f a | CBind f a => [Plain (dec f); a; Plain (str "16")]
  | CListen f => [Plain (dec f); Plain (str "128")]
  | CSendto f data a => [Plain (dec f); Quoted data; Plain (str "33"); Plain (str "0"); a; Plain (str "16")]
  end.

Definition goodFd (f : Z) : Prop := 0 <= f < 2 ^ 31.
Definition goodCall (c : Call) : Prop :=
  match c with
  | COpen _ flags => goodArg (Plain flags)
  | CSocket d t => goodArg (Plain d) /\ goodArg (Plain t)
  | CConnect f a | CBind f a | CSendto f _ a => goodFd f /\ goodArg a /\ isAddress a = true
  | CListen f => goodFd f
  | CStat _ | CExec _ _ => True
  end.
Definition goodEnd (e : Ended) : Prop := match e with Returned n => goodFd n | Failed n => 0 <= n end.

(** What a call is in a trace. *)
Definition callEvent (p : Z) (c : Call) (e : Ended) : Event :=
  let ev := blankEvent <| pid := p |> <| failed := match e with Failed _ => true | _ => false end |> in
  match c with
  | COpen p flags => ev <| kind := KOpen |> <| path := p |> <| write := openFlagsWrite flags |>
  | CStat p => ev <| kind := KStat |> <| path := p |>
  | CExec p l => ev <| kind := KExec |> <| path := p |> <| argv := l |>
  | CSocket d t => ev <| kind := KSocket |> <| family := socketFamily d |> <| datagram := has_sub (str "SOCK_DGRAM") t |>
                      <| fd := match e with Returned n => n | _ => -1 end |>
  | CConnect f a => addressed a (ev <| kind := KConnect |> <| fd := f |>)
  | CBind f a => addressed a (ev <| kind := KBind |> <| fd := f |>)
  | CListen f => ev <| kind := KListen |> <| fd := f |>
  | CSendto f _ a => addressed a (ev <| kind := KSendto |> <| fd := f |>)
  end.

Lemma has_sub_absent c sub s : In c sub -> ~ In c s -> has_sub sub s = false.
Proof.
  intros Hc. assert (P : forall s, starts_with sub s = true -> In c s) by (intros u [t ->]%starts_with_spec; apply in_or_app; by left).
  induction s as [|x s IH]; intros Hn; cbn [has_sub]; apply orb_false_iff; (split; [apply not_true_iff_false; by intros ?%P|]); [done|].
  apply IH. intros Hi. apply Hn. by right.
Qed.

Lemma ended e : goodEnd e ->
  has_sub (str "ERR#") (endText e) = match e with Failed _ => true | _ => false end
  /\ has_sub (str "in progress") (endText e) = false
  /\ i32 (resultOf (endText e)) = match e with Returned n => n | Failed _ => -1 end.
Proof.
  assert (A : forall c n t, is_digit c = false -> ~ In c t -> ~ In c (t ++ dec n)) by (intros c n t Hc Ht [?|?]%in_app_or; [done|by eapply dec_not_In]).
  destruct e as [n|n]; cbn [endText goodEnd]; intros G.
  - split; [apply (has_sub_absent "#"); [by apply has_char_In|]; apply A; [done|absent]|]. split; [apply (has_sub_absent "p"); [by apply has_char_In|]; apply A; [done|absent]|].
    unfold resultOf. change (str " = " ++ dec n) with ([" "%char] ++ "="%char :: (" "%char :: dec n)). rewrite find_char_app by absent.
    change (drop (S (length [" "%char])) ([" "%char] ++ "="%char :: " "%char :: dec n)) with (" "%char :: dec n).
    assert (strtol (" "%char :: dec n) = strtol (dec n)) as ->.
    { unfold strtol, cstr. cbn [span]. change (negb (Ascii.eqb " " nul)) with true. cbv iota. by destruct (span _ (dec n)). }
    unfold goodFd in G. rewrite strtol_number by (unfold longMax; lia). unfold i32, to_signed. rewrite Z.mod_small by lia. destruct (Z.ltb_spec n (2 ^ (32 - 1))); lia.
  - split; [done|]. split; [apply (has_sub_absent "p"); [by apply has_char_In|]; apply A; [done|absent]|]. unfold resultOf.
    rewrite (proj2 (find_char_None _ _)); [done|]. apply A; [done|absent].
Qed.

Lemma small_fd f : goodFd f -> i32 (strtol (dec f)) = f.
Proof.
  intros G. unfold goodFd in G. rewrite strtol_number by (unfold longMax; lia). unfold i32, to_signed. rewrite Z.mod_small by lia.
  destruct (Z.ltb_spec f (2 ^ (32 - 1))); lia.
Qed.

Lemma callArgs_good c : goodCall c -> Forall goodArg (callArgs c).
Proof.
  assert (D : forall f, goodArg (Plain (dec f))) by (intros; split; [apply dec_args|apply dec_nonempty]).
  destruct c; cbn [goodCall callArgs]; intros G; repeat (apply List.Forall_cons || apply List.Forall_nil);
    first [apply D|exact I|apply G|tauto|done].
Qed.

(** A trace is read as it was written: for every call of the kinds a profile
    is made from, with any path, argument list, address, port and descriptor,
    successful or failed, the line that truss prints for it under a process id
    is parsed to exactly that call: quotes and escapes in the strings undone,
    commas, brackets and parentheses inside them kept. *)
Theorem trace_line_roundtrip (p : Z) (c : Call) (e : Ended) :
  0 <= p <= longMax -> goodCall c -> goodEnd e ->
  parseLine (lineText p (callName c) (callArgs c) (endText e)) = Some (callEvent p c e).
Proof.
  intros Hp G Ge. rewrite line_read; [|done|by destruct c|by apply callArgs_good|by destruct c].
  destruct (ended e Ge) as (E1 & E2 & E3). rewrite E1. clear E1.
  destruct c as [q flags|q|q l|d t|f a|f a|f|f data a]; cbn [goodCall] in G; cbn [callName callArgs map callEvent].
  all: unfold syscall; cbn [nth length]; repeat match goal with |- context [beq ?x ?y] => let b := eval vm_compute in (beq x y) in change (beq x y) with b; cbv iota end;
    cbn [existsb orb andb Nat.leb argText].
  - by rewrite unquoteArg_quoted.
  - by rewrite unquoteArg_quoted.
  - rewrite unquoteArg_quoted. pose proof (parseStringList_words l) as W. cbn [argText] in W. by rewrite W.
  - by rewrite E3.
  - destruct G as (Gf & Ga & Ha). rewrite parseSockaddr_address by done. cbn [mbind option_bind]. rewrite E2, andb_false_r, small_fd by done. by destruct a.
  - destruct G as (Gf & Ga & Ha). rewrite parseSockaddr_address by done. cbn [mbind option_bind]. rewrite small_fd by done. done.
  - by rewrite small_fd.
  - destruct G as (Gf & Ga & Ha). rewrite parseSockaddr_address by done. by rewrite small_fd.
Qed.

Lemma trace_line_roundtrip_witness :
  parseLine (str "4711: execve(" ++ quoteText (str "/usr/local/bin/firefox") ++ str ",[ " ++ quoteText (str "firefox") ++ str ", "
             ++ quoteText (str "a,b)") ++ str " ],0x7fffffffe6a8) = 0")
  = Some (blankEvent <| pid := 4711 |> <| kind := KExec |> <| path := str "/usr/local/bin/firefox" |> <| argv := [str "firefox"; str "a,b)"] |>).
Proof.
  apply (trace_line_roundtrip 4711 (CExec (str "/usr/local/bin/firefox") [str "firefox"; str "a,b)"]) (Returned 0));
    [unfold longMax; lia|done|unfold goodEnd, goodFd; lia].
Defined.
End Trace.
