(* ===== verification/TraceSpec.v ===== *)
(** * The draft of a spec from a trace: lib/trace_pure.cpp, lib/trace.cpp

    What a traced program did, summed up over its lines, turned into the
    sections of a spec, and written as YAML.  Every set is kept in the order
    its iterator visits. *)

From S2P Require Import Prelude CStd OMap RecordUpd UtilPure Profile Trace.

Module TraceSpec.
Import CStd UtilPure Trace.

(** ** Sets *)

Abbreviation SetOf K := (list (K * unit)).
Definition sadd {K} `{KeyOrder K, EqDecision K} (k : K) (m : SetOf K) : SetOf K := OMap.insert k tt m.
Definition smem {K} `{EqDecision K} (k : K) (m : SetOf K) : bool := OMap.count k m.
Definition elems {K} (m : SetOf K) : list K := map fst m.
#[global] Arguments sadd : simpl never.
#[global] Arguments elems : simpl never.

(** ** Sums *)

(** Host, port and whether it is UDP, which is also their order. *)
Definition Endpoint : Type := bytes * Z * bool.

#[global] Program Instance bool_KeyOrder : KeyOrder bool := { klt := fun a b => negb a && b }.
  Next Obligation. by intros []. Qed.
  Next Obligation. by intros [] [] []. Qed.
  Next Obligation. by intros [] []. Qed.

#[global] Program Instance prod_KeyOrder {A B} `{KeyOrder A, KeyOrder B} : KeyOrder (A * B) :=
  { klt := fun x y => klt (fst x) (fst y) || (negb (klt (fst y) (fst x)) && klt (snd x) (snd y)) }.
  Next Obligation. intros A B ? ? [a b]. cbn. by rewrite !klt_irrefl. Qed.
  Next Obligation.
    intros A B ? ? [a b] [a' b'] [a'' b'']. cbn. intros [H1|[H1%negb_true_iff H2]%andb_true_iff]%orb_true_iff [H3|[H3%negb_true_iff H4]%andb_true_iff]%orb_true_iff.
    - by rewrite (klt_trans _ _ _ H1 H3).
    - destruct (klt a a'') eqn:E; [done|]. destruct (klt a'' a) eqn:E'; [pose proof (klt_trans _ _ _ E' H1)|pose proof (klt_total _ _ E E')]; congruence.
    - destruct (klt a a'') eqn:E; [done|]. destruct (klt a'' a) eqn:E'; [pose proof (klt_trans _ _ _ H3 E')|pose proof (klt_total _ _ E E')]; congruence.
    - destruct (klt a a'') eqn:E; [done|]. destruct (klt a'' a) eqn:E'; [|by rewrite (klt_trans _ _ _ H2 H4)].
      destruct (klt a a') eqn:E1; [pose proof (klt_trans _ _ _ E' E1)|pose proof (klt_total _ _ E1 H1)]; congruence.
  Qed.
  Next Obligation.
    intros A B ? ? [a b] [a' b']. cbn. intros [H1 H2]%orb_false_iff [H3 H4]%orb_false_iff.
    rewrite H1, H3 in *. cbn in *. by rewrite (klt_total _ _ H1 H3), (klt_total _ _ H2 H4).
  Qed.

Record Summary := {
  execs : list bytes; execArgv : list (list bytes); readPaths : SetOf bytes; writePaths : SetOf bytes; probedPaths : SetOf bytes;
  unixSockets : SetOf bytes; outbound : SetOf Endpoint; listening : SetOf Endpoint; lines : Z; parsed : Z }.
#[global] Instance eta_Summary : Eta Summary := fun r => {|
  execs := execs r; execArgv := execArgv r; readPaths := readPaths r; writePaths := writePaths r; probedPaths := probedPaths r;
  unixSockets := unixSockets r; outbound := outbound r; listening := listening r; lines := lines r; parsed := parsed r |}.
Definition blankSummary : Summary := {|
  execs := []; execArgv := []; readPaths := []; writePaths := []; probedPaths := []; unixSockets := []; outbound := []; listening := [];
  lines := 0; parsed := 0 |}.

(** The maps of one summary: by pid and descriptor, the socket's family and
    kind, and the address it is bound to. *)
Record Socks := { socks : gmap (Z * Z) (bytes * bool); bound : gmap (Z * Z) Endpoint }.

Definition endpoint (k : Socks) (ev : Event) : Endpoint :=
  (host ev, port ev, match socks k !! (pid ev, fd ev) with Some (_, dgram) => dgram | None => false end).

(** The [switch]; executables seen before are those in [execs]. *)
Definition account (st : Summary * Socks) (ev : Event) : Summary * Socks :=
  let '(s, k) := st in
  let key := (pid ev, fd ev) in
  let absolute := starts_with (str "/") (path ev) in
  match kind ev with
  | KOpen =>
      if negb (failed ev) && absolute
      then (if write ev then s <| writePaths ::= sadd (path ev) |> else s <| readPaths ::= sadd (path ev) |>, k) else st
  | KStat => if negb (failed ev) && absolute then (s <| probedPaths ::= sadd (path ev) |>, k) else st
  | KExec =>
      if negb (failed ev) && absolute && negb (existsb (beq (path ev)) (execs s))
      then (s <| execs ::= fun l => l ++ [path ev] |> <| execArgv ::= fun l => l ++ [argv ev] |>, k) else st
  | KSocket =>
      if negb (failed ev) && (0 <=? fd ev) then (s, {| socks := <[key := (family ev, datagram ev)]> (socks k); bound := bound k |}) else st
  | KConnect =>
      if failed ev then st
      else if beq (family ev) (str "unix") then (if is_empty (path ev) then s else s <| unixSockets ::= sadd (path ev) |>, k)
      else (s <| outbound ::= sadd (endpoint k ev) |>, k)
  | KSendto => if negb (failed ev) && negb (beq (family ev) (str "unix")) then (s <| outbound ::= sadd (host ev, port ev, true) |>, k) else st
  | KBind =>
      if failed ev || beq (family ev) (str "unix") then st
      else
        let e := endpoint k ev in
        if snd e then (if port ev =? 0 then s else s <| listening ::= sadd e |>, k)
        else (s, {| socks := socks k; bound := <[key := e]> (bound k) |})
  | KListen =>
      if failed ev then st
      else match bound k !! key with
           | Some e => if snd (fst e) =? 0 then st else (s <| listening ::= sadd e |>, k)
           | None => st
           end
  | KNone => st
  end.

Definition sumLine (st : Summary * Socks) (line : bytes) : Summary * Socks :=
  let '(s, k) := st in
  let s := s <| lines ::= fun n => u32 (n + 1) |> in
  match parseLine line with
  | None => (s, k)
  | Some ev => account (s <| parsed ::= fun n => u32 (n + 1) |>, k) ev
  end.

Definition summarize (l : list bytes) : Summary := fst (fold_left sumLine l (blankSummary, {| socks := ∅; bound := ∅ |})).

(** ** Helpers *)

(** The loop from the end: the last ['-'] before a digit. *)
Fixpoint versionDash (r : bytes) : option bytes :=
  match r with
  | c :: ((d :: t) as rest) => if is_digit c && Ascii.eqb d "-" then Some (rev t) else versionDash rest
  | _ => None
  end.
Definition pkgNameFromNameVersion (nv : bytes) : bytes := default nv (versionDash (rev nv)).

Definition kMarker : bytes := str " was installed by package ".
Definition whichLine (m : list (bytes * bytes)) (line : bytes) : list (bytes * bytes) :=
  match find_sub kMarker line with
  | None | Some 0%nat => m
  | Some k =>
      let nv := trim (drop (k + length kMarker) line) in
      if is_empty nv then m else OMap.insert (take k line) (pkgNameFromNameVersion nv) m
  end.
Definition parsePkgWhichOutput (out : bytes) : list (bytes * bytes) := fold_left whichLine (getlines out) [].

Definition isPrivateV4 (h : bytes) : bool :=
  if starts_with (str "10.") h || starts_with (str "192.168.") h || starts_with (str "169.254.") h then true
  else if starts_with (str "172.") h then let second := toUnsigned (drop 4 h) in (16 <=? second) && (second <=? 31)
  else false.

Definition classifyHost (hostIn : bytes) (p : Z) : bytes :=
  let h := if starts_with (str "::ffff:") hostIn then drop 7 hostIn else hostIn in
  if p =? 53 then str "dns"
  else if starts_with (str "127.") h || beq h (str "::1") || beq h (str "0.0.0.0") || beq h (str "::") then str "host"
  else
    let lower := map tolower h in
    if isPrivateV4 h || starts_with (str "fe80:") lower || starts_with (str "fc") lower || starts_with (str "fd") lower then str "lan"
    else str "wan".

Definition homeRelative (p home : bytes) : bytes :=
  if is_empty home || beq home (str "/") || is_empty p then []
  else
    let h := Profile.stripSlashes home in
    let alt := str "/usr" ++ h in
    if isUnder p h then str "$HOME" ++ drop (length h) p
    else if starts_with (str "/home/") h && isUnder p alt then str "$HOME" ++ drop (length alt) p
    else [].

Definition bareByte (c : ascii) : bool := is_alnum c || one_of (str "_./$+~-") c.
Definition yamlByte (c : ascii) : bytes :=
  if Ascii.eqb c backslash || Ascii.eqb c dquote then [backslash; c]
  else if Ascii.eqb c newline then [backslash; "n"%char]
  else if Ascii.eqb c tab then [backslash; "t"%char]
  else [c].
Definition yamlScalar (s : bytes) : bytes :=
  if negb (is_empty s) && forallb bareByte s
     && negb (starts_with (str "-") s || existsb (beq s) [str "~"; str "true"; str "false"; str "null"])
  then s
  else [dquote] ++ flat_map yamlByte s ++ [dquote].

(** ** The sections of the draft *)

Definition ignoredPrefixes : list bytes := map str [
  "/dev"; "/proc"; "/tmp"; "/var/tmp"; "/var/run"; "/var/db"; "/var/cache"; "/var/log";
  "/var/mail"; "/var/spool"; "/var/empty"; "/etc"; "/lib"; "/libexec"; "/bin"; "/sbin"; "/rescue";
  "/usr/bin"; "/usr/sbin"; "/usr/lib"; "/usr/lib32"; "/usr/libexec"; "/usr/libdata";
  "/usr/share"; "/usr/include"; "/usr/local"; "/compat"; "/boot"; "/usr/src"; "/usr/obj";
  "/usr/ports"; "/net"; "/media"; "/mnt"]%string.

Definition isIgnored (p : bytes) : bool := existsb (isUnder p) ignoredPrefixes.

Definition pushUnique {A} `{EqDecision A} (x : A) (v : list A) : list A := if bool_decide (x ∈ v) then v else v ++ [x].

(** The pieces between slashes that are not empty. *)
Definition splitPath (rel : bytes) : list bytes := List.filter (fun c => negb (is_empty c)) (split_on "/" rel).

Record Input := { home : bytes; pkgOwner : list (bytes * bytes); command : list bytes }.

Definition loginDotfiles : list bytes := map str [
  ".Xauthority"; ".ICEauthority"; ".Xdefaults"; ".Xresources"; ".xsession-errors"; ".sh_history";
  ".history"; ".login_conf"; ".profile"; ".cshrc"; ".shrc"; ".login"; ".logout"; ".mailrc";
  ".mail_aliases"; ".rhosts"; ".hushlogin"; ".bash_history"; ".zsh_history"]%string.

(** What the loops over the trace fill in. *)
Record Scan := {
  gl : bool; video : bool; sslCerts : bool; sound : bool; input : bool; usb : bool; cache : bool;
  fileShares : list bytes; stateDirShares : list bytes; dirShares : list bytes; otherDirs : SetOf bytes;
  x11 : bool; dbusSystem : bool; dbusSession : bool; notes : list bytes }.
#[global] Instance eta_Scan : Eta Scan := fun r => {|
  gl := gl r; video := video r; sslCerts := sslCerts r; sound := sound r; input := input r; usb := usb r; cache := cache r;
  fileShares := fileShares r; stateDirShares := stateDirShares r; dirShares := dirShares r; otherDirs := otherDirs r;
  x11 := x11 r; dbusSystem := dbusSystem r; dbusSession := dbusSession r; notes := notes r |}.
Definition blankScan : Scan := {|
  gl := false; video := false; sslCerts := false; sound := false; input := false; usb := false; cache := false;
  fileShares := []; stateDirShares := []; dirShares := []; otherDirs := []; x11 := false; dbusSystem := false; dbusSession := false; notes := [] |}.

Definition scanDevice (g : Scan) (p : bytes) : Scan :=
  if isUnder p (str "/dev/dri") then g <| gl := true |>
  else if starts_with (str "/dev/video") p then g <| video := true |>
  else if starts_with (str "/dev/dsp") p || starts_with (str "/dev/mixer") p || beq p (str "/dev/sndstat") then g <| sound := true |>
  else if isUnder p (str "/dev/input") then g <| input := true |>
  else if starts_with (str "/dev/ugen") p || starts_with (str "/dev/usb") p || starts_with (str "/dev/u2f") p then g <| usb := true |>
  else g.

Definition isCert (p : bytes) : bool :=
  isUnder p (str "/etc/ssl") || isUnder p (str "/usr/local/share/certs") || isUnder p (str "/usr/local/etc/ssl").

(** The directory shared for a path of two or more components. *)
Definition homeDirShare (top second : bytes) (more : list bytes) : bytes :=
  let dir := str "$HOME/" ++ top in
  if beq top (str ".config") then dir ++ str "/" ++ second
  else if beq top (str ".local") then
    match more with
    | third :: _ => if beq second (str "share") || beq second (str "state") then dir ++ str "/" ++ second ++ str "/" ++ third else dir ++ str "/" ++ second
    | [] => dir ++ str "/" ++ second
    end
  else dir.

Definition scanHome (g : Scan) (comps : list bytes) : Scan :=
  match comps with
  | [] => g
  | top :: rest =>
      if existsb (beq top) loginDotfiles then g
      else if beq top (str ".cache") then g <| cache := true |>
      else match rest with
           | [] => g <| fileShares ::= pushUnique (str "$HOME/" ++ top) |>
           | second :: more =>
               let dir := homeDirShare top second more in
               if starts_with (str ".") top then g <| stateDirShares ::= pushUnique dir |> else g <| dirShares ::= pushUnique dir |>
           end
  end.

Definition scanPath (homeDir : bytes) (g : Scan) (p : bytes) : Scan :=
  if isUnder p (str "/dev") then scanDevice g p
  else if isCert p then g <| sslCerts := true |>
  else
    let rel := homeRelative p homeDir in
    if negb (is_empty rel) then scanHome g (splitPath (drop 5 rel))
    else if isIgnored p then g
    else g <| otherDirs ::= sadd (dirname p) |>.

Definition coveredDir (all : list bytes) (d : bytes) : bool := existsb (fun o => negb (beq o d) && isUnder d o) all.
Definition addOther (all : list bytes) (g : Scan) (d : bytes) : Scan :=
  if negb (coveredDir all d) && negb (beq d (str "/")) then g <| dirShares ::= pushUnique d |> else g.
Definition addOthers (g : Scan) : Scan := let all := elems (otherDirs g) in fold_left (addOther all) all g.

Definition scanSocket (g : Scan) (u : bytes) : Scan :=
  if has_sub (str "/.X11-unix/") u then g <| x11 := true |>
  else if ends_with (str "/system_bus_socket") u then g <| dbusSystem := true |>
  else if ends_with (str "/bus") u || has_sub (str "session_bus_socket") u then g <| dbusSession := true |>
  else if has_sub (str "/pulse/native") u || has_sub (str "/pipewire-0") u then g <| sound := true |>
  else if has_sub (str "wayland-") u then
    g <| notes ::= pushUnique (str "Wayland display socket " ++ u ++ str ": run under `gui: {mode: wayland}` (the X11 option covers only X)") |>
  else g <| notes ::= pushUnique (str "unix socket " ++ u ++ str " was used; share it with socket_proxy/share or dirs/share if the program needs it") |>.

Record Generated := {
  g_command : list bytes; g_pkgs : list bytes; g_otherPkgs : list bytes; g_scan : Scan; g_net : bool; g_outbound : list bytes;
  g_inboundTcp : list Z; g_inboundUdp : list Z; g_outboundSeen : list bytes; g_notes : list bytes }.

Definition commandOf (s : Summary) (i : Input) : list bytes :=
  if negb (is_empty (command i)) then command i
  else match execs s, execArgv s with e :: _, av :: _ => e :: tail av | _, _ => [] end.

Definition ownerOf (i : Input) (p : bytes) : bytes := default [] (OMap.find p (pkgOwner i)).

(** Packages of executed files; /usr/local files without one. *)
Definition execPkg (i : Input) (st : SetOf bytes * SetOf bytes) (e : bytes) : SetOf bytes * SetOf bytes :=
  let '(pkgs, unowned) := st in
  if isUnder e (str "/usr/local") then
    let o := ownerOf i e in
    if is_empty o then (pkgs, sadd e unowned) else (sadd o pkgs, unowned)
  else st.
Definition readPkg (i : Input) (execPkgs : SetOf bytes) (st : SetOf bytes * SetOf bytes) (p : bytes) : SetOf bytes * SetOf bytes :=
  let '(pkgs, unowned) := st in
  if isUnder p (str "/usr/local") then
    let o := ownerOf i p in
    if is_empty o then
      (pkgs, if isUnder p (str "/usr/local/etc") || isUnder p (str "/usr/local/share/certs") then unowned else sadd p unowned)
    else (if smem o execPkgs then pkgs else sadd o pkgs, unowned)
  else st.

Definition allOpened (s : Summary) : SetOf bytes := fold_left (fun m p => sadd p m) (elems (writePaths s)) (readPaths s).

Definition seenText (e : Endpoint) : bytes :=
  let '(h, p, udp) := e in
  (if has_char ":" h then str "[" ++ h ++ str "]" else h) ++ str ":" ++ dec p ++ (if udp then str "/udp" else str "/tcp").

(** The list of the first eight, cut off with dots. *)
Fixpoint firstEight (n : nat) (out : bytes) (l : list bytes) : bytes :=
  match l with
  | [] => out
  | p :: t =>
      match n with
      | O => out ++ str " ..."
      | S m => firstEight m (out ++ (if is_empty out then [] else str " ") ++ p) t
      end
  end.

Definition noteIf (c : bool) (n : bytes) (l : list bytes) : list bytes := if c then pushUnique n l else l.

Section sorted.
Context {SS : StdSort}.

Definition generate (s : Summary) (i : Input) : Generated :=
  let '(execPkgs, unowned0) := fold_left (execPkg i) (execs s) ([], []) in
  let opened := elems (allOpened s) in
  let '(readPkgs, unowned) := fold_left (readPkg i execPkgs) opened ([], unowned0) in
  let g := fold_left scanSocket (elems (unixSockets s)) (addOthers (fold_left (scanPath (home i)) opened blankScan)) in
  let out := List.filter (fun e => negb (snd (fst e) =? 0)) (elems (outbound s)) in
  let classes := map (fun e => classifyHost (fst (fst e)) (snd (fst e))) out in
  let wan := List.filter (fun c => existsb (beq c) classes) [str "wan"; str "lan"; str "host"; str "dns"] in
  let ports udp := std_sort Z.ltb (fold_left (fun v e => if Bool.eqb (snd e) udp then pushUnique (snd (fst e)) v else v) (elems (listening s)) []) in
  {| g_command := commandOf s i; g_pkgs := elems execPkgs; g_otherPkgs := elems readPkgs; g_scan := g;
     g_net := negb (is_empty wan) || negb (is_empty (ports false)) || negb (is_empty (ports true));
     g_outbound := wan; g_inboundTcp := ports false; g_inboundUdp := ports true;
     g_outboundSeen := fold_left (fun v e => pushUnique (seenText e) v) out [];
     g_notes :=
       noteIf (is_empty (execs s) && is_empty (command i)) (str "no execve seen in the trace: set run/command by hand")
       (noteIf (negb (is_empty unowned))
          (str "files under /usr/local not owned by any package (ports built locally? pkg not queried?): " ++ firstEight 8 [] (elems unowned))
       (noteIf (cache g) (str "$HOME/.cache was used: left per container (nothing to share); a tmpfs there is the usual choice")
       (noteIf (usb g) (str "USB devices (/dev/ugen, /dev/usb, /dev/u2f) were opened: devices/usb exposes every USB device of the host")
       (noteIf (input g) (str "/dev/input was read: devices/input exposes the evdev nodes — everything typed on the host is readable from inside, drop it unless the program really needs raw input")
       (noteIf (sound g) (str "sound was used (OSS device or PulseAudio/PipeWire socket): devices/sound exposes the OSS nodes; PipeWire/PulseAudio sockets are bound by `gui: {mode: wayland}`")
          (notes g)))))) |}.
End sorted.

(** ** The text *)

Definition line (t : bytes) : bytes := t ++ [newline].
Definition when (c : bool) (t : bytes) : bytes := if c then t else [].

Definition renderShareList (items : list bytes) : bytes :=
  flat_map (fun d => line (str "        - [" ++ yamlScalar d ++ str ", " ++ yamlScalar d ++ str "]")) items.

Definition spaced (l : list bytes) : bytes := flat_map (fun w => str " " ++ w) l.

Definition renderHead (g : Generated) (crateVersion : bytes) : bytes :=
  line (str "##") ++ line (str "## generated by crate profile-from-trace (crate " ++ crateVersion ++ str ")")
  ++ when (negb (is_empty (g_command g))) (line (str "## from one run of:" ++ spaced (g_command g)))
  ++ line (str "## Review before use: the shares and packages below are what the program")
  ++ line (str "## TOUCHED during that run, not what it needs. Drop what is not wanted.")
  ++ line (str "##") ++ [newline] ++ line (str "---").

Definition renderPkgs (g : Generated) : bytes :=
  when (negb (is_empty (g_pkgs g)))
    ([newline] ++ line (str "pkg:") ++ line (str "    install:") ++ flat_map (fun p => line (str "        - " ++ yamlScalar p)) (g_pkgs g))
  ++ when (negb (is_empty (g_otherPkgs g)))
    (line (str "    # also read from these packages (dependencies, usually pulled in automatically):")
     ++ line (str "    #  " ++ spaced (g_otherPkgs g))).

Definition renderRun (g : Generated) : bytes :=
  when (negb (is_empty (g_command g)))
    ([newline] ++ line (str "run:") ++ line (str "    command:" ++ str " "
       ++ yamlScalar (fold_left (fun cmd w => cmd ++ (if is_empty cmd then [] else str " ") ++ w) (g_command g) []))).

Definition renderShares (s : Scan) : bytes :=
  when (negb (is_empty (dirShares s)) || negb (is_empty (stateDirShares s)))
    ([newline] ++ line (str "dirs:") ++ line (str "    share:") ++ renderShareList (dirShares s)
     ++ when (negb (is_empty (stateDirShares s)))
          (line (str "        # application state (profile, config, data); remove to keep it per container") ++ renderShareList (stateDirShares s)))
  ++ when (negb (is_empty (fileShares s)))
    ([newline] ++ line (str "files:") ++ line (str "    share:") ++ renderShareList (fileShares s)).

Definition netDetails (g : Generated) : bool :=
  g_net g && negb ((size_z (g_outbound g) =? 4) && is_empty (g_inboundTcp g) && is_empty (g_inboundUdp g)).

Definition plainOptions (g : Generated) : list bytes :=
  let s := g_scan g in
  (if g_net g && negb (netDetails g) then [str "net"] else []) ++ (if x11 s then [str "x11"] else []) ++ (if gl s then [str "gl"] else [])
  ++ (if video s then [str "video"] else []) ++ (if sslCerts s then [str "ssl-certs"] else []).

Definition renderPorts (key : bytes) (ports : list Z) : bytes :=
  when (negb (is_empty ports))
    (line (str "        " ++ key ++ str ":") ++ flat_map (fun p => line (str "            " ++ dec p ++ str ": " ++ dec p)) ports).

Definition renderOptions (g : Generated) : bytes :=
  when (netDetails g || negb (is_empty (plainOptions g)))
    ([newline] ++ line (str "options:") ++
     if netDetails g then
       line (str "    net:")
       ++ (if is_empty (g_outbound g) then line (str "        outbound: none") else line (str "        outbound: [" ++ joined (str ", ") (g_outbound g) ++ str "]"))
       ++ renderPorts (str "inbound-tcp") (g_inboundTcp g) ++ renderPorts (str "inbound-udp") (g_inboundUdp g)
       ++ flat_map (fun p => line (str "    " ++ p ++ str ":")) (plainOptions g)
     else flat_map (fun p => line (str "    - " ++ p)) (plainOptions g)).

Definition renderBus (s : Scan) : bytes :=
  when (dbusSystem s || dbusSession s)
    ([newline] ++ line (str "dbus:") ++ when (dbusSystem s) (line (str "    system: true")) ++ when (dbusSession s) (line (str "    session: true"))
     ++ line (str "    # add policy/allow_own and policy/deny_send for the services this program talks to")).

Definition renderDevices (s : Scan) : bytes :=
  when (sound s || input s || usb s)
    ([newline] ++ line (str "devices:") ++ when (sound s) (line (str "    sound: true"))
     ++ when (input s) (line (str "    input: true   # raw input devices: keystrokes of the host are readable — remove unless needed"))
     ++ when (usb s) (line (str "    usb: true     # every USB device of the host"))).

Definition renderNotes (g : Generated) : bytes :=
  when (negb (is_empty (g_outboundSeen g))) ([newline] ++ line (str "# outbound destinations seen:" ++ spaced (g_outboundSeen g)))
  ++ when (negb (is_empty (g_notes g))) ([newline] ++ line (str "# notes:") ++ flat_map (fun n => line (str "#   - " ++ n)) (g_notes g)).

Definition renderSpec (g : Generated) (crateVersion : bytes) : bytes :=
  renderHead g crateVersion ++ renderPkgs g ++ renderRun g ++ renderShares (g_scan g) ++ renderOptions g ++ renderBus (g_scan g)
  ++ renderDevices (g_scan g) ++ renderNotes g.

(** ** The command: lib/trace.cpp *)

(** The /usr/local files whose owner is asked for. *)
Definition localFiles (s : Summary) : SetOf bytes :=
  fold_left (fun m p => if starts_with (str "/usr/local/") p then sadd p m else m) (execs s ++ elems (readPaths s) ++ elems (writePaths s)) [].

(** One [pkg which] for 200 paths; [batch] is what was collected. *)
Fixpoint queries (batch : list bytes) (paths : list bytes) : list (list bytes) :=
  match paths with
  | [] => if is_empty batch then [] else [batch]
  | p :: t => let b := batch ++ [p] in if 200 <=? size_z b then b :: queries [] t else queries b t
  end.

(** [in.pkgOwner.insert(owners.begin(), owners.end())]: the first answer stays. *)
Definition addOwners (m owners : list (bytes * bytes)) : list (bytes * bytes) :=
  fold_left (fun m kv => if OMap.count (fst kv) m then m else OMap.insert (fst kv) (snd kv) m) owners m.

Definition owners (which : list bytes -> bytes) (s : Summary) : list (bytes * bytes) :=
  fold_left (fun m q => addOwners m (parsePkgWhichOutput (which q))) (queries [] (elems (localFiles s))) [].

Section command.
Context {SS : StdSort}.

(** From the lines to the draft; [which] is the output of [pkg which], absent
    when pkg is not installed. *)
Definition draft (homeDir version : bytes) (which : option (list bytes -> bytes)) (cmd l : list bytes) : bytes + bytes :=
  let s := summarize l in
  if parsed s =? 0 then inl (str "no syscalls recognised in " ++ dec (lines s) ++ str " lines — is this truss(1) output?")
  else inr (renderSpec (generate s {| home := homeDir; pkgOwner := match which with Some w => owners w s | None => [] end; command := cmd |}) version).
End command.

(** ** What the sets hold *)

Lemma elems_sadd {K} `{KeyOrder K, EqDecision K} (k x : K) m : In x (elems (sadd k m)) <-> x = k \/ In x (elems m).
Proof.
  unfold elems, sadd. induction m as [|[k' u] m IH]; cbn [OMap.insert map In fst]; [split; [intros [->|[]]; by left|intros [->|[]]; by left]|].
  assert (S : forall a b : K, a = b <-> b = a) by (by split). destruct (klt k k'); cbn [map In fst]; [rewrite (S k); tauto|].
  destruct (decide (k = k')) as [->|]; cbn [map In fst]; [rewrite (S k'); tauto|]. rewrite IH. tauto.
Qed.

Lemma elems_fold {A K} `{KeyOrder K, EqDecision K} (f : A -> K) (l : list A) m x :
  In x (elems (fold_left (fun m a => sadd (f a) m) l m)) <-> In x (elems m) \/ exists a, In a l /\ f a = x.
Proof.
  revert m. induction l as [|a l IH]; intros m; cbn [fold_left]; [split; [by left|intros [?|(? & [] & _)]; done]|]. rewrite IH, elems_sadd. split.
  - intros [[->|?]|(b & Hb & <-)]; [right; exists a; split; [by left|done]|by left|right; exists b; split; [by right|done]].
  - intros [?|(b & [->|Hb] & <-)]; [by left; right|by left; left|right; by exists b].
Qed.

Lemma pushUnique_In {A} `{EqDecision A} (x y : A) v : In y (pushUnique x v) <-> y = x \/ In y v.
Proof.
  unfold pushUnique. case_bool_decide as E; [apply list_elem_of_In in E; split; [by right|by intros [->|]]|].
  rewrite in_app_iff. cbn. split; [intros [?|[->|[]]]; auto|intros [->|?]; auto].
Qed.

(** ** What was opened *)

(** A successful open of an absolute path. *)
Definition opened (l : list bytes) (p : bytes) : Prop :=
  exists ln ev, In ln l /\ parseLine ln = Some ev /\ kind ev = KOpen /\ failed ev = false /\ path ev = p /\ starts_with (str "/") p = true.

Lemma allOpened_union s p : In p (elems (allOpened s)) <-> In p (elems (readPaths s)) \/ In p (elems (writePaths s)).
Proof.
  unfold allOpened. rewrite (elems_fold (fun p => p)). split; [intros [?|(? & ? & <-)]; tauto|]. intros [?|?]; [by left|right; by exists p].
Qed.

Lemma account_opened st ev p :
  In p (elems (allOpened (fst (account st ev)))) <->
  In p (elems (allOpened (fst st))) \/ (kind ev = KOpen /\ failed ev = false /\ path ev = p /\ starts_with (str "/") p = true).
Proof.
  rewrite !allOpened_union. destruct st as [s k]. destruct (decide (kind ev = KOpen)) as [E|E].
  - unfold account. rewrite E. cbv zeta. destruct (negb (failed ev) && starts_with (str "/") (path ev)) eqn:C.
    + apply andb_true_iff in C as [Hf%negb_true_iff Ha]. rewrite Hf. destruct (write ev); cbn; rewrite elems_sadd.
      * split; [intros [?|[->|?]]; auto|]. intros [[?|?]|(_ & _ & <- & _)]; auto.
      * split; [intros [[->|?]|?]; auto|]. intros [[?|?]|(_ & _ & <- & _)]; auto.
    + cbn [fst]. split; [by left|]. intros [?|(_ & Hf & <- & Ha)]; [done|]. by rewrite Hf, Ha in C.
  - assert (readPaths (fst (account (s, k) ev)) = readPaths s /\ writePaths (fst (account (s, k) ev)) = writePaths s) as [-> ->].
    { unfold account. destruct (kind ev); try done; cbv zeta; repeat case_match; done. }
    cbn [fst]. split; [by left|]. intros [?|[? _]]; done.
Qed.

Lemma summarize_opened l p : In p (elems (allOpened (summarize l))) <-> opened l p.
Proof.
  unfold summarize, opened. generalize {| socks := ∅; bound := ∅ |} as k. intros k.
  assert (G : forall st, In p (elems (allOpened (fst (fold_left sumLine l st)))) <-> In p (elems (allOpened (fst st))) \/
     exists ln ev, In ln l /\ parseLine ln = Some ev /\ kind ev = KOpen /\ failed ev = false /\ path ev = p /\ starts_with (str "/") p = true).
  { induction l as [|ln l IH]; intros st; cbn [fold_left]; [split; [by left|intros [?|(? & ? & [] & _)]; done]|]. rewrite IH.
    assert (S : In p (elems (allOpened (fst (sumLine st ln)))) <-> In p (elems (allOpened (fst st))) \/
       exists ev, parseLine ln = Some ev /\ kind ev = KOpen /\ failed ev = false /\ path ev = p /\ starts_with (str "/") p = true).
    { unfold sumLine. destruct st as [s q]. destruct (parseLine ln) as [ev|].
      - rewrite account_opened. cbn [fst]. split; (intros [?|?]; [by left|right]); [eauto|]. destruct H as (ev' & [= <-] & ?). done.
      - cbn [fst]. split; [by left|]. intros [?|(? & ? & _)]; done. }
    rewrite S. split.
    - intros [[?|(ev & ?)]|(ln' & ev & Hi & ?)]; [by left|right; exists ln, ev; split; [by left|done]|right; exists ln', ev; split; [by right|done]].
    - intros [?|(ln' & ev & [->|Hi] & ?)]; [by left; left|left; right; by exists ev|right; by exists ln', ev]. }
  rewrite G. split; [intros [[]|?]; done|by right].
Qed.

(** ** What is shared *)

Lemma under_spec p d : isUnder p d = true <-> p = d \/ exists t, p = d ++ "/"%char :: t.
Proof.
  unfold isUnder. rewrite orb_true_iff, !andb_true_iff, beq_eq. split.
  - intros [?|((_ & [t ->]%starts_with_spec) & H)]; [by left|]. rewrite drop_app_length in H. apply starts_with_spec in H as [u ->]. right. by exists u.
  - intros [?|[t ->]]; [by left|right]. rewrite size_z_app, size_z_cons, starts_with_app, drop_app_length. pose proof (size_z_nonneg t). split; [|done]. split; [apply Z.ltb_lt; lia|done].
Qed.

Lemma isUnder_trans a b c : isUnder a b = true -> isUnder b c = true -> isUnder a c = true.
Proof.
  rewrite !under_spec. intros [->|[t ->]]; [done|]. intros [->|[u ->]]; [right; by exists t|]. right. exists (u ++ "/"%char :: t). by rewrite <- app_assoc.
Qed.

Definition shares (g : Scan) : list bytes := dirShares g ++ stateDirShares g ++ fileShares g.

(** The share a path in the home directory is given, if any. *)
Definition homeShare (comps : list bytes) : option bytes :=
  match comps with
  | [] => None
  | top :: rest =>
      if existsb (beq top) loginDotfiles || beq top (str ".cache") then None
      else Some (match rest with [] => str "$HOME/" ++ top | second :: more => homeDirShare top second more end)
  end.
Definition shareFor (h p : bytes) : option bytes :=
  if isUnder p (str "/dev") || isCert p || is_empty (homeRelative p h) then None else homeShare (splitPath (drop 5 (homeRelative p h))).
Definition otherFor (h p : bytes) : option bytes :=
  if isUnder p (str "/dev") || isCert p || negb (is_empty (homeRelative p h)) || isIgnored p then None else Some (dirname p).

Lemma scanPath_spec h g p d :
  (In d (shares (scanPath h g p)) <-> In d (shares g) \/ shareFor h p = Some d)
  /\ (In d (elems (otherDirs (scanPath h g p))) <-> In d (elems (otherDirs g)) \/ otherFor h p = Some d).
Proof.
  assert (N : forall (A : Prop) (x : bytes), (A <-> A \/ None = Some x)) by (intros; split; [by left|by intros [?|?]]).
  unfold scanPath, shareFor, otherFor. destruct (isUnder p (str "/dev")); cbn [orb].
  { unfold scanDevice. repeat case_match; split; apply N. }
  destruct (isCert p); cbn [orb]; [split; apply N|]. cbv zeta. destruct (is_empty (homeRelative p h)); cbn [negb orb].
  - destruct (isIgnored p); [split; apply N|]. split; [apply N|]. cbn. rewrite elems_sadd. split; [intros [->|?]; auto|intros [?|[= ->]]; auto].
  - unfold scanHome, homeShare. destruct (splitPath _) as [|top [|second more]]; [split; apply N| |];
      (destruct (existsb (beq top) loginDotfiles); cbn [orb]; [split; apply N|]); (destruct (beq top (str ".cache")); cbn [orb]; [split; apply N|]); cbv zeta.
    + split; [|apply N]. unfold shares. cbn. rewrite !in_app_iff, pushUnique_In. split; [intros [?|[?|[->|?]]]; auto|intros [?|[= ->]]; tauto].
    + destruct (starts_with (str ".") top); (split; [|apply N]); unfold shares; cbn; rewrite !in_app_iff, pushUnique_In.
      * split; [intros [?|[[->|?]|?]]; auto|intros [?|[= ->]]; tauto].
      * split; [intros [[->|?]|?]; auto|intros [?|[= ->]]; tauto].
Qed.

Lemma scanPaths_spec h l g d :
  (In d (shares (fold_left (scanPath h) l g)) <-> In d (shares g) \/ exists p, In p l /\ shareFor h p = Some d)
  /\ (In d (elems (otherDirs (fold_left (scanPath h) l g))) <-> In d (elems (otherDirs g)) \/ exists p, In p l /\ otherFor h p = Some d).
Proof.
  revert g. induction l as [|p l IH]; intros g; cbn [fold_left]; [split; (split; [by left|intros [?|(? & [] & _)]; done])|].
  destruct (IH (scanPath h g p)) as [-> ->]. destruct (scanPath_spec h g p d) as [-> ->].
  split; (split; [intros [[?|?]|(q & ? & ?)]; [by left|right; exists p; split; [by left|done]|right; exists q; split; [by right|done]]
                 |intros [?|(q & [->|?] & ?)]; [by left; left|by left; right|right; by exists q]]).
Qed.

(** Of the other directories, those that no other one covers. *)
Lemma addOther_fold all l g d : In d (shares (fold_left (addOther all) l g)) <->
  In d (shares g) \/ (In d l /\ coveredDir all d = false /\ d <> str "/").
Proof.
  revert g. induction l as [|x l IH]; intros g; cbn [fold_left]; [split; [by left|intros [?|([] & _)]; done]|].
  rewrite IH. unfold addOther. destruct (negb (coveredDir all x) && negb (beq x (str "/"))) eqn:E.
  - apply andb_true_iff in E as [E1%negb_true_iff E2%negb_true_iff%beq_neq]. unfold shares. cbn in E2 |- *. rewrite !in_app_iff, pushUnique_In.
    split; [intros [[[->|?]|?]|(? & ? & ?)]; [right; split; [by left|done]|tauto..]|]. intros [?|([->|?] & ? & ?)]; [tauto|by left; left; left|tauto].
  - cbn [In]. split; [intros [?|(? & ? & ?)]; tauto|]. intros [?|([->|?] & E1 & E2)]; [tauto| |tauto]. exfalso. apply beq_neq in E2. by rewrite E1, E2 in E.
Qed.

Lemma addOthers_spec g d : In d (shares (addOthers g)) <->
  In d (shares g) \/ (In d (elems (otherDirs g)) /\ coveredDir (elems (otherDirs g)) d = false /\ d <> str "/").
Proof. apply addOther_fold. Qed.

Lemma sockets_shares l g : shares (fold_left scanSocket l g) = shares g.
Proof. revert g. induction l as [|u l IH]; intros g; [done|]. cbn [fold_left]. rewrite IH. unfold scanSocket. by repeat case_match. Qed.

Lemma generate_shares {SS : StdSort} l i d : In d (shares (g_scan (generate (summarize l) i))) <->
  (exists p, opened l p /\ shareFor (home i) p = Some d)
  \/ exists p, opened l p /\ otherFor (home i) p = Some d /\ d <> str "/"
     /\ forall p' o, opened l p' -> otherFor (home i) p' = Some o -> isUnder d o = true -> o = d.
Proof.
  unfold generate. destruct (fold_left (execPkg i) _ _) as [ep un0]. destruct (fold_left (readPkg i ep) _ _) as [rp un]. cbn [g_scan].
  set (ls := elems (allOpened (summarize l))). rewrite sockets_shares, addOthers_spec. destruct (scanPaths_spec (home i) ls blankScan d) as [-> O].
  assert (Op : forall p, In p ls <-> opened l p) by (intros; apply summarize_opened). rewrite O.
  assert (C : coveredDir (elems (otherDirs (fold_left (scanPath (home i)) ls blankScan))) d = false <->
    forall p' o, opened l p' -> otherFor (home i) p' = Some o -> isUnder d o = true -> o = d).
  { unfold coveredDir. rewrite <- not_true_iff_false, existsb_exists. split.
    - intros Hn p' o Hp Ho Hu. destruct (decide (o = d)); [done|]. exfalso. apply Hn. exists o. split; [|rewrite Hu; by rewrite (proj2 (beq_neq o d))].
      apply (scanPaths_spec (home i) ls blankScan o). right. exists p'. split; [by apply Op|done].
    - intros Hall (o & Ho & [Hne%negb_true_iff%beq_neq Hu]%andb_true_iff). apply (scanPaths_spec (home i) ls blankScan o) in Ho as [[]|(p' & Hp & Hf)].
      apply Hne. eapply Hall; [by apply Op|done|done]. }
  rewrite C. split.
  - intros [[[]|(p & Hp & ?)]|([[]|(p & Hp & ?)] & ? & ?)]; [left; exists p; split; [by apply Op|done]|right; exists p; split; [by apply Op|done]].
  - intros [(p & Hp & ?)|(p & Hp & ? & ? & ?)]; [left; right; exists p; split; [by apply Op|done]|right; split; [right; exists p; split; [by apply Op|done]|done]].
Qed.

(** ** Paths and their components *)

Lemma splitPath_app a b : splitPath (a ++ "/"%char :: b) = splitPath a ++ splitPath b.
Proof. unfold splitPath. by rewrite Profile.split_on_mid, List.filter_app. Qed.

Lemma splitPath_piece w : w <> [] -> ~ In "/"%char w -> splitPath w = [w].
Proof. intros Hne Hn. unfold splitPath. rewrite split_on_nosep by done. cbn. by destruct w. Qed.

Lemma splitPath_In r w : In w (splitPath r) -> w <> [] /\ ~ In "/"%char w.
Proof. unfold splitPath. intros [Hi Hw]%filter_In. split; [by destruct w|by eapply split_on_pieces]. Qed.

Lemma homeRelative_form p h : homeRelative p h <> [] -> exists r, homeRelative p h = str "$HOME" ++ r /\ (r = [] \/ exists t, r = "/"%char :: t).
Proof.
  unfold homeRelative. destruct (is_empty h || beq h (str "/") || is_empty p); [done|]. cbv zeta. intros Hne.
  assert (G : forall d, isUnder p d = true -> exists r, str "$HOME" ++ drop (length d) p = str "$HOME" ++ r /\ (r = [] \/ exists t, r = "/"%char :: t)).
  { intros d [->|[t ->]]%under_spec; (eexists; split; [done|]); [left; apply drop_all|right; rewrite drop_app_length; by exists t]. }
  destruct (isUnder p (Profile.stripSlashes h)) eqn:E1; [by apply G|].
  destruct (starts_with (str "/home/") (Profile.stripSlashes h) && isUnder p (str "/usr" ++ Profile.stripSlashes h)) eqn:E2; [|done].
  apply andb_true_iff in E2 as [_ E2]. by apply G.
Qed.

Lemma splitPath_home p h : homeRelative p h <> [] -> splitPath (homeRelative p h) = str "$HOME" :: splitPath (drop 5 (homeRelative p h)).
Proof.
  intros (r & -> & Hr)%homeRelative_form. change (drop 5 (str "$HOME" ++ r)) with r. destruct Hr as [->|[t ->]]; [done|].
  rewrite splitPath_app. change ("/"%char :: t) with ([] ++ "/"%char :: t). by rewrite splitPath_app.
Qed.

Lemma homeDirShare_comps top second more : Forall (fun w => w <> [] /\ ~ In "/"%char w) (top :: second :: more) ->
  exists k, (2 <= k)%nat /\ splitPath (homeDirShare top second more) = take k (str "$HOME" :: top :: second :: more).
Proof.
  intros F. apply Forall_cons in F as [[T1 T2] F]. apply Forall_cons in F as [[S1 S2] F].
  assert (D : splitPath (str "$HOME/" ++ top) = [str "$HOME"; top]).
  { change (str "$HOME/" ++ top) with (str "$HOME" ++ "/"%char :: top). by rewrite splitPath_app, (splitPath_piece top). }
  assert (D2 : splitPath ((str "$HOME/" ++ top) ++ str "/" ++ second) = [str "$HOME"; top; second]).
  { change (str "/" ++ second) with ("/"%char :: second). by rewrite splitPath_app, D, (splitPath_piece second). }
  unfold homeDirShare. cbv zeta. destruct (beq top (str ".config")); [exists 3%nat; split; [lia|done]|].
  destruct (beq top (str ".local")); [|exists 2%nat; split; [lia|done]]. destruct more as [|third more]; [exists 3%nat; split; [lia|done]|].
  apply Forall_cons in F as [[R1 R2] _]. destruct (beq second (str "share") || beq second (str "state")); [|exists 3%nat; split; [lia|done]].
  exists 4%nat. split; [lia|]. replace ((str "$HOME/" ++ top) ++ str "/" ++ second ++ str "/" ++ third) with (((str "$HOME/" ++ top) ++ str "/" ++ second) ++ "/"%char :: third) by (by rewrite <- !app_assoc).
  by rewrite splitPath_app, D2, (splitPath_piece third).
Qed.

(** A share in the home directory names the first components of the path, one
    below the home directory at least. *)
Lemma shareFor_prefix h p d : shareFor h p = Some d ->
  splitPath d `prefix_of` splitPath (homeRelative p h) /\ (2 <= length (splitPath d))%nat.
Proof.
  unfold shareFor. destruct (isUnder p (str "/dev") || isCert p); [done|]. cbn [orb]. destruct (is_empty (homeRelative p h)) eqn:E; [done|]. apply is_empty_false in E.
  rewrite splitPath_home by done. pose proof (splitPath_In (drop 5 (homeRelative p h))) as W. unfold homeShare.
  destruct (splitPath (drop 5 (homeRelative p h))) as [|top rest]; [done|]. destruct (_ || _); [done|].
  destruct (W top ltac:(by left)) as [T1 T2]. destruct rest as [|second more]; intros HS.
  - assert (d = str "$HOME/" ++ top) as -> by congruence. change (str "$HOME/" ++ top) with (str "$HOME" ++ "/"%char :: top). rewrite splitPath_app, (splitPath_piece top) by done. cbn. split; [done|lia].
  - assert (d = homeDirShare top second more) as -> by congruence. destruct (homeDirShare_comps top second more) as (k & Hk & ->); [apply List.Forall_forall; apply W|]. split; [exists (drop k (str "$HOME" :: top :: second :: more)); by rewrite take_drop|].
    rewrite length_take. cbn [length]. lia.
Qed.

Lemma dirname_under p : starts_with (str "/") p = true -> dirname p <> str "/" -> isUnder p (dirname p) = true /\ (starts_with (str "//") p = false -> starts_with (str "//") (dirname p) = false).
Proof.
  intros Hp. unfold dirname. destruct (rfind_char "/" p) as [[|k]|] eqn:E; [done| |done]. intros _.
  assert (R : forall q j, rfind_char "/" q = Some j -> q = take j q ++ "/"%char :: drop (S j) q).
  { clear. induction q as [|c q IH]; intros j; [done|]. cbn [rfind_char]. destruct (rfind_char "/" q) as [m|] eqn:Eq.
    - intros [= <-]. cbn [take drop app]. f_equal. by apply IH.
    - destruct (Ascii.eqb_spec c "/") as [->|]; [|done]. by intros [= <-]. }
  apply R in E. split; [apply under_spec; right; eexists; exact E|]. intros Hs. apply not_true_iff_false. intros [t Ht]%starts_with_spec.
  apply not_true_iff_false in Hs. apply Hs. rewrite E, Ht, <- app_assoc. apply starts_with_app.
Qed.


(** ** The claim *)

(** Paths for which nothing is shared: devices, certificates, login files and
    the cache of the home directory, the base system, files in the root. *)
Definition leftOut (h p : bytes) : bool :=
  isUnder p (str "/dev") || isCert p
  || (if is_empty (homeRelative p h) then isIgnored p || beq (dirname p) (str "/")
      else match splitPath (drop 5 (homeRelative p h)) with
           | [] => true
           | top :: _ => existsb (beq top) loginDotfiles || beq top (str ".cache")
           end).

Section touched.
Context {SS : StdSort} (l : list bytes) (i : Input).

Let other (d : bytes) : Prop := exists p, opened l p /\ otherFor (home i) p = Some d.

Lemma covered_other n d : (length d <= n)%nat -> other d -> d <> str "/" -> starts_with (str "//") d = false ->
  exists e, other e /\ isUnder d e = true /\ e <> str "/" /\ forall o, other o -> isUnder e o = true -> o = e.
Proof.
  revert d. induction n as [|n IH]; intros d Hn Hd Hne Hss.
  { destruct d; [|cbn in Hn; lia]. destruct Hd as (p & (ln & ev & _ & _ & _ & _ & _ & Hp) & Ho). unfold otherFor in Ho. destruct (_ || _); [done|].
    injection Ho as Ho. unfold dirname in Ho. destruct (rfind_char "/" p) as [[|k]|]; try done. destruct p; done. }
  destruct (existsb (fun o => negb (beq o d) && isUnder d o) (elems (otherDirs (fold_left (scanPath (home i)) (elems (allOpened (summarize l))) blankScan)))) eqn:E.
  - apply existsb_exists in E as (o & Ho & [Hod%negb_true_iff%beq_neq Hu]%andb_true_iff).
    apply scanPaths_spec in Ho as [[]|(p & Hp%summarize_opened & Ho)].
    pose proof Hu as Hu'. apply under_spec in Hu' as [->|[t ->]]; [done|].
    destruct (IH o) as (e & He & Heo & Hes & Hmin).
    + rewrite length_app in Hn. cbn in Hn. lia.
    + by exists p.
    + intros ->. done.
    + apply not_true_iff_false. intros [u ->]%starts_with_spec. by rewrite <- app_assoc, starts_with_app in Hss.
    + exists e. split; [done|]. split; [by eapply isUnder_trans|done].
  - exists d. split; [done|]. split; [apply under_spec; by left|]. split; [done|]. intros o (p & Hp & Ho) Hu. destruct (decide (o = d)); [done|]. exfalso.
    apply not_true_iff_false in E. apply E, existsb_exists. exists o. split; [|rewrite Hu; by rewrite (proj2 (beq_neq o d))].
    apply scanPaths_spec. right. exists p. split; [by apply summarize_opened|done].
Qed.

(** The lists of shares hold what was touched: the claim below, for the lists
    that the text is written from. *)
Lemma shares_touched :
  (forall d, In d (shares (g_scan (generate (summarize l) i))) ->
     exists p, opened l p /\ (d = dirname p \/ (splitPath d `prefix_of` splitPath (homeRelative p (home i)) /\ (2 <= length (splitPath d))%nat)))
  /\ forall p, opened l p -> leftOut (home i) p = false -> starts_with (str "//") p = false ->
     exists d, In d (shares (g_scan (generate (summarize l) i)))
       /\ (isUnder p d = true \/ (splitPath d `prefix_of` splitPath (homeRelative p (home i)) /\ (2 <= length (splitPath d))%nat)).
Proof.
  split.
  - intros d [(p & Hp & Hs)|(p & Hp & Ho & _)]%generate_shares; exists p; (split; [done|]); [right; by apply shareFor_prefix|left].
    unfold otherFor in Ho. destruct (_ || _); [done|]. by injection Ho as <-.
  - intros p Hp Hl Hss. unfold leftOut in Hl. apply orb_false_iff in Hl as [Hdc Hl]. destruct (is_empty (homeRelative p (home i))) eqn:Eh.
    + apply orb_false_iff in Hl as [Hi Hr%beq_neq]. assert (Ho : otherFor (home i) p = Some (dirname p)) by (unfold otherFor; by rewrite Hdc, Eh, Hi).
      pose proof Hp as (ln & ev & _ & _ & _ & _ & _ & Habs). destruct (dirname_under p Habs Hr) as [Hu Hs].
      destruct (covered_other (length (dirname p)) (dirname p)) as (e & (q & Hq & He) & Hue & Hes & Hmin); [done|by exists p|done|by apply Hs|].
      exists e. split; [|left; by eapply isUnder_trans]. apply generate_shares. right. exists q. repeat split; try done. intros p' o Hp' Ho' Hu'. apply Hmin; [by exists p'|done].
    + assert (exists d, shareFor (home i) p = Some d) as [d Hd].
      { unfold shareFor. rewrite Hdc, Eh. cbn [orb]. unfold homeShare. destruct (splitPath _) as [|top rest]; [done|]. rewrite Hl. eauto. }
      exists d. split; [apply generate_shares; left; by exists p|right; by apply shareFor_prefix].
Qed.
End touched.

(** ** The text of the draft *)

(** An entry of a list of shares, and the lines of a text that are one. *)
Definition shareLine (d : bytes) : bytes := str "        - [" ++ yamlScalar d ++ str ", " ++ yamlScalar d ++ str "]".
Definition isShareLine (ln : bytes) : bool := starts_with (str "        - [") ln.
Definition shareLines (text : bytes) : list bytes := List.filter isShareLine (getlines text).

Definition oneLine (s : bytes) : Prop := ~ In newline s.

Lemma oneLine_app a b : oneLine a -> oneLine b -> oneLine (a ++ b).
Proof. unfold oneLine. rewrite in_app_iff. tauto. Qed.
Lemma oneLine_spaced ws : Forall oneLine ws -> oneLine (spaced ws).
Proof. induction 1 as [|w ws Hw _ IH]; [by intros []|]. apply (oneLine_app (str " " ++ w)); [apply oneLine_app; [absent|done]|done]. Qed.
Lemma oneLine_joined sep ws : oneLine sep -> Forall oneLine ws -> oneLine (joined sep ws).
Proof.
  intros S F. destruct F as [|w ws Hw F]; [by intros []|]. revert w Hw. induction F as [|x ws Hx F IH]; intros w Hw; [done|].
  change (joined sep (w :: x :: ws)) with (w ++ sep ++ joined sep (x :: ws)). apply oneLine_app; [done|]. apply oneLine_app; [done|by apply IH].
Qed.
Lemma oneLine_digits n : oneLine (dec n).
Proof. pose proof (dec_digits n) as D. unfold all_digits in D. rewrite forallb_forall in D. intros H%D. done. Qed.
Lemma oneLine_scalar s : oneLine (yamlScalar s).
Proof.
  unfold yamlScalar. destruct (_ && forallb bareByte s && _) eqn:E.
  - apply andb_true_iff in E as [[_ B]%andb_true_iff _]. rewrite forallb_forall in B. by intros H%B.
  - apply oneLine_app; [absent|]. apply oneLine_app; [|absent]. intros (c & _ & H)%in_flat_map. unfold yamlByte in H.
    destruct (Ascii.eqb c backslash || Ascii.eqb c dquote) eqn:Q; [apply orb_true_iff in Q as [->%Ascii.eqb_eq| ->%Ascii.eqb_eq]; by repeat destruct H as [H|H]|].
    destruct (Ascii.eqb_spec c newline) as [->|N]; [by repeat destruct H as [H|H]|]. destruct (Ascii.eqb c tab); by repeat destruct H as [H|H].
Qed.
Ltac one_line := repeat first [assumption | absent | apply oneLine_app | apply oneLine_scalar | apply oneLine_digits | apply oneLine_spaced].

Lemma shareLines_line t rest : oneLine t -> shareLines (line t ++ rest) = (if isShareLine t then [t] else []) ++ shareLines rest.
Proof. intros H. unfold shareLines, line. rewrite <- app_assoc. cbn [app]. rewrite getlines_cons by done. cbn [List.filter]. by destruct (isShareLine t). Qed.

Lemma shareLines_skip t rest : oneLine t -> isShareLine t = false -> shareLines (line t ++ rest) = shareLines rest.
Proof. intros H E. by rewrite shareLines_line, E. Qed.

Lemma shareLines_break rest : shareLines ([newline] ++ rest) = shareLines rest.
Proof. apply (shareLines_skip []); [by intros []|done]. Qed.

Lemma shareLines_each {A} (f : A -> bytes) l rest : (forall x, In x l -> oneLine (f x) /\ isShareLine (f x) = false) ->
  shareLines (flat_map (fun x => line (f x)) l ++ rest) = shareLines rest.
Proof.
  induction l as [|x l IH]; intros H; [done|]. cbn [flat_map]. rewrite <- app_assoc. destruct (H x) as [H1 H2]; [by left|].
  rewrite shareLines_skip by done. apply IH. intros y Hy. apply H. by right.
Qed.

Lemma shareLines_when c t rest : (shareLines (t ++ rest) = shareLines rest) -> shareLines (when c t ++ rest) = shareLines rest.
Proof. by destruct c. Qed.

Lemma shareLines_list items rest : shareLines (renderShareList items ++ rest) = map shareLine items ++ shareLines rest.
Proof.
  unfold renderShareList. induction items as [|d items IH]; [done|]. cbn [flat_map map]. rewrite <- app_assoc. fold (shareLine d).
  rewrite shareLines_line by (unfold shareLine; one_line). unfold isShareLine at 1, shareLine at 1. rewrite starts_with_app. cbn [app]. by rewrite IH.
Qed.

(** The next part of a text that is no share. *)
Ltac unshared :=
  rewrite <- ?app_assoc;
  first
    [ rewrite shareLines_break; unshared
    | rewrite shareLines_skip; [unshared|one_line; fail|reflexivity]
    | rewrite shareLines_when; [unshared|unshared; fail]
    | rewrite shareLines_each; [unshared|intros; split; [one_line|reflexivity]; fail]
    | try reflexivity ].

(** What is written into comments as it is: the words of the command, the
    packages that are only read from, the destinations, the notes and the version. *)
Definition commented (g : Generated) (version : bytes) : list bytes := version :: g_command g ++ g_otherPkgs g ++ g_outboundSeen g ++ g_notes g.

Lemma shareLines_head g version rest : Forall oneLine (commented g version) -> shareLines (renderHead g version ++ rest) = shareLines rest.
Proof. intros [V [C _]%Forall_app]%Forall_cons. unfold renderHead. unshared. Qed.

Lemma shareLines_pkgs g version rest : Forall oneLine (commented g version) -> shareLines (renderPkgs g ++ rest) = shareLines rest.
Proof.
  intros [_ [_ [O _]%Forall_app]%Forall_app]%Forall_cons. unfold renderPkgs. rewrite <- app_assoc. rewrite shareLines_when.
  - unshared.
  - rewrite <- !app_assoc, shareLines_break. do 2 rewrite shareLines_skip by (first [absent|reflexivity]).
    rewrite shareLines_each; [done|]. intros p _. split; [one_line|]. unfold yamlScalar, isShareLine. destruct (_ && forallb bareByte p && _) eqn:E; [|done].
    apply andb_true_iff in E as [[_ B]%andb_true_iff _]. destruct p as [|c p]; [done|]. cbn [forallb] in B. apply andb_true_iff in B as [B _]. 
    apply not_true_iff_false. intros [t H]%starts_with_spec. cbn in H. injection H as H _. by rewrite H in B.
Qed.

Lemma shareLines_run g rest : shareLines (renderRun g ++ rest) = shareLines rest.
Proof. unfold renderRun. unshared. Qed.

Lemma shareLines_shares s rest : shareLines (renderShares s ++ rest) = map shareLine (shares s) ++ shareLines rest.
Proof.
  unfold renderShares, shares. rewrite !map_app. destruct (dirShares s) as [|d ds], (stateDirShares s) as [|t ts], (fileShares s) as [|f fs];
    cbn [is_empty negb orb when]; rewrite <- ?app_assoc, ?app_nil_l.
  all: repeat first [rewrite shareLines_break | rewrite shareLines_list | rewrite shareLines_skip by (first [absent|reflexivity]) | rewrite <- app_assoc | rewrite app_nil_l]; done.
Qed.

Lemma shareLines_ports key ports rest : oneLine key -> starts_with (str "-") key = false ->
  shareLines (renderPorts key ports ++ rest) = shareLines rest.
Proof.
  intros K D. unfold renderPorts. rewrite shareLines_when; [done|]. rewrite <- app_assoc, shareLines_skip; [unshared|one_line|].
  apply not_true_iff_false. intros [t H]%starts_with_spec. destruct key as [|c key]; [done|]. cbn in H. injection H as H _. by rewrite H in D.
Qed.

Lemma shareLines_options g rest : Forall oneLine (g_outbound g) -> shareLines (renderOptions g ++ rest) = shareLines rest.
Proof.
  intros O. unfold renderOptions. rewrite shareLines_when; [done|]. rewrite <- !app_assoc, shareLines_break, shareLines_skip by (first [absent|reflexivity]).
  assert (P : forall p, In p (plainOptions g) -> oneLine p /\ isShareLine (str "    " ++ p ++ str ":") = false).
  { unfold plainOptions. cbv zeta. intros p. rewrite !in_app_iff. intros HP. repeat destruct HP as [HP|HP]; revert HP; case_match; intros HP; try done;
      destruct HP as [<-|[]]; (split; [absent|reflexivity]). }
  destruct (netDetails g).
  - rewrite <- !app_assoc, shareLines_skip by (first [absent|reflexivity]).
    assert (N : forall r, shareLines ((if is_empty (g_outbound g) then line (str "        outbound: none")
        else line (str "        outbound: [" ++ joined (str ", ") (g_outbound g) ++ str "]")) ++ r) = shareLines r).
    { intros r. destruct (is_empty _); (rewrite shareLines_skip; [done| |reflexivity]); [absent|].
      apply oneLine_app; [absent|]. apply oneLine_app; [apply oneLine_joined; [absent|done]|absent]. }
    rewrite N, !shareLines_ports by (first [absent|reflexivity]). rewrite shareLines_each; [done|]. intros p [Hp Hs]%P. split; [|done]. one_line.
  - rewrite shareLines_each; [done|]. intros p [Hp _]%P. split; [one_line|reflexivity].
Qed.

Lemma shareLines_bus s rest : shareLines (renderBus s ++ rest) = shareLines rest.
Proof. unfold renderBus. unshared. Qed.
Lemma shareLines_devices s rest : shareLines (renderDevices s ++ rest) = shareLines rest.
Proof. unfold renderDevices. unshared. Qed.

Lemma shareLines_notes g version : Forall oneLine (commented g version) -> shareLines (renderNotes g) = [].
Proof.
  intros [_ [_ [_ [S N]%Forall_app]%Forall_app]%Forall_app]%Forall_cons. rewrite <- (app_nil_r (renderNotes g)). unfold renderNotes.
  rewrite <- app_assoc. rewrite shareLines_when by unshared. rewrite shareLines_when; [done|].
  rewrite <- !app_assoc, shareLines_break, shareLines_skip by (first [absent|reflexivity]). rewrite shareLines_each; [done|].
  intros n Hn. split; [|reflexivity]. apply oneLine_app; [absent|]. rewrite List.Forall_forall in N. by apply N.
Qed.

(** The share lines of the text are those of the lists. *)
Lemma renderSpec_shares g version : Forall oneLine (commented g version) -> Forall oneLine (g_outbound g) ->
  shareLines (renderSpec g version) = map shareLine (shares (g_scan g)).
Proof.
  intros C O. unfold renderSpec. rewrite (shareLines_head _ _ _ C), (shareLines_pkgs _ _ _ C), shareLines_run, shareLines_shares.
  rewrite shareLines_options, shareLines_bus, shareLines_devices by done. by rewrite (shareLines_notes _ _ C), app_nil_r.
Qed.

Section text.
Context {SS : StdSort} (homeDir version : bytes) (which : option (list bytes -> bytes)) (cmd l : list bytes).

(** What the draft of this trace is written from. *)
Definition drafted : Generated :=
  generate (summarize l) {| home := homeDir; pkgOwner := match which with Some w => owners w (summarize l) | None => [] end; command := cmd |}.

Lemma drafted_outbound : Forall oneLine (g_outbound drafted).
Proof.
  unfold drafted, generate. destruct (fold_left (execPkg _) _ _) as [ep un0]. destruct (fold_left (readPkg _ ep) _ _) as [rp un]. cbn [g_outbound].
  apply List.Forall_forall. intros c [H _]%filter_In. repeat destruct H as [<-|H]; [absent..|done].
Qed.

End text.

(** Two opened files, one in the home directory and one elsewhere. *)
Definition sampleTrace : list bytes := [
  lineText 7 (str "openat") (callArgs (COpen (str "/home/ann/.mozilla/firefox/x.db") (str "O_RDWR"))) (endText (Returned 3));
  lineText 7 (str "openat") (callArgs (COpen (str "/data/set/a") (str "O_RDONLY"))) (endText (Returned 4));
  lineText 7 (str "openat") (callArgs (COpen (str "/home/ann/secret") (str "O_RDONLY"))) (endText (Failed 13))].
Definition sampleDraft : bytes + bytes := draft (SS := insertionSort) (str "/home/ann/") (str "1.1.70") None [str "firefox"] sampleTrace.


(** A name with a newline in it ends the comment it is written in: the path of a
    socket that the traced program used becomes lines of the draft. *)
Example socket_name_becomes_spec :
  let trace := [lineText 7 (str "connect") (callArgs (CConnect 3 (Unix (str "/tmp/s" ++ [newline] ++ str "scripts: {run:before: rm}" ++ [newline] ++ str "#")))) (endText (Returned 0))] in
  match draft (SS := insertionSort) (str "/home/ann") (str "1.1.70") None [str "prog"] trace with
  | inr text => existsb (beq (str "scripts: {run:before: rm}")) (getlines text) = true
  | inl _ => False
  end.
Proof. by vm_compute. Qed.
End TraceSpec.
