(* ===== verification/Mib.v ===== *)
(** * The SNMP subagent: snmpd/mib_pure.cpp, snmpd/mib.cpp

    AgentX (RFC 2741) protocol data units, the four scalars of CRATE-MIB and
    the dispatcher that answers the master agent.  A buffer is a list of
    octets; the encoders append to it. *)

From S2P Require Import Prelude CStd RecordUpd.

Module Mib.

(** ** Encoders *)

Definition Buf : Type := list Z.
Definition Oid : Type := list Z.

(** [(val >> k) & 0xFF] *)
Definition octet (v k : Z) : Z := Z.land (Z.shiftr v k) 0xFF.

Definition encodeUint32 (buf : Buf) (v : Z) : Buf := buf ++ [octet v 24; octet v 16; octet v 8; Z.land v 0xFF].
Definition encodeUint64 (buf : Buf) (v : Z) : Buf := buf ++ map (fun i => octet v (i * 8)) [7; 6; 5; 4; 3; 2; 1; 0].

Definition encodeOid (buf : Buf) (oid : Oid) (include : bool) : Buf :=
  let '(prefix, rest) :=
    match oid with
    | a :: b :: c :: d :: e :: t => if (a =? 1) && (b =? 3) && (c =? 6) && (d =? 1) && (e <=? 255) then (e, t) else (0, oid)
    | _ => (0, oid)
    end in
  fold_left encodeUint32 rest (buf ++ [u8 (size_z rest); prefix; if include then 1 else 0; 0]).

(** [while (buf.size() % 4 != 0) buf.push_back(0);] *)
Definition padded (buf : Buf) : Buf := buf ++ repeat 0 ((4 - length buf mod 4) mod 4)%nat.

Definition encodeOctetString (buf : Buf) (s : bytes) : Buf := padded (encodeUint32 buf (u32 (size_z s)) ++ map code s).

Record Header := { version : Z; type : Z; flags : Z; sessionId : Z; transactionId : Z; packetId : Z; payloadLen : Z }.

Definition encodeHeader (buf : Buf) (h : Header) : Buf :=
  encodeUint32 (encodeUint32 (encodeUint32 (encodeUint32
    (buf ++ [version h; type h; Z.lor (flags h) 0x10; 0]) (sessionId h)) (transactionId h)) (packetId h)) (payloadLen h).

(** ** Decoders

    [None] is the result 0; otherwise what was decoded and how many octets. *)

Definition at_ (buf : Buf) (i : nat) : Z := nth i buf 0.

Definition loadU32be (buf : Buf) (i : nat) : Z :=
  Z.lor (Z.lor (Z.lor (Z.shiftl (at_ buf i) 24) (Z.shiftl (at_ buf (i + 1)) 16)) (Z.shiftl (at_ buf (i + 2)) 8)) (at_ buf (i + 3)).
Definition loadU32le (buf : Buf) (i : nat) : Z :=
  Z.lor (Z.lor (Z.lor (Z.shiftl (at_ buf (i + 3)) 24) (Z.shiftl (at_ buf (i + 2)) 16)) (Z.shiftl (at_ buf (i + 1)) 8)) (at_ buf i).
Definition loadU32 (be : bool) : Buf -> nat -> Z := if be then loadU32be else loadU32le.

(** [flags & 0x10] *)
Definition bigEndian (f : Z) : bool := negb (Z.land f 0x10 =? 0).

Definition decodeHeader (buf : Buf) (offset : nat) : option Header :=
  if (length buf <? offset + 20)%nat then None
  else
    let load i := loadU32 (bigEndian (at_ buf (offset + 2))) buf (offset + i) in
    Some {| version := at_ buf offset; type := at_ buf (offset + 1); flags := at_ buf (offset + 2);
            sessionId := load 4%nat; transactionId := load 8%nat; packetId := load 12%nat; payloadLen := load 16%nat |}.

Definition decodeOid (buf : Buf) (offset : nat) (be : bool) : option (Oid * bool * nat) :=
  if (length buf <? offset + 4)%nat then None
  else
    let n := Z.to_nat (at_ buf offset) in
    let prefix := at_ buf (offset + 1) in
    let size := (4 + n * 4)%nat in
    if (length buf <? offset + size)%nat then None
    else Some ((if prefix =? 0 then [] else [1; 3; 6; 1; prefix]) ++ map (fun i => loadU32 be buf (offset + 4 + i * 4)) (seq 0 n),
               negb (at_ buf (offset + 2) =? 0), size).

Definition decodeOctetString (buf : Buf) (offset : nat) (be : bool) : option (Buf * nat) :=
  if (length buf <? offset + 4)%nat then None
  else
    let n := loadU32 be buf offset in
    if Z.of_nat (length buf - offset - 4) <? n then None
    else
      let padded := ((Z.to_nat n + 3) / 4 * 4)%nat in
      if (length buf <? offset + 4 + padded)%nat then None
      else Some (take (Z.to_nat n) (drop (offset + 4) buf), (4 + padded)%nat).

Definition decodeSearchRange (buf : Buf) (offset : nat) (be : bool) : option (Oid * Oid * bool * nat) :=
  '(start, inc, n) ← decodeOid buf offset be;
  '(last, _, m) ← decodeOid buf (offset + n) be;
  Some (start, last, inc, (n + m)%nat).

(** The loop over the ranges: the start OIDs in order, and whether it ran to
    the end of the buffer. *)
Fixpoint rangeLoop (fuel : nat) (buf : Buf) (pos : nat) (be : bool) (out : list Oid) : list Oid * bool :=
  match fuel with
  | O => (out, false)
  | S f =>
      if (length buf <=? pos)%nat then (out, true)
      else match decodeSearchRange buf pos be with
           | None => (out, false)
           | Some (start, _, _, n) => rangeLoop f buf (pos + n) be (out ++ [start])
           end
  end.

Definition decodeGetRequest (buf : Buf) (f : Z) : list Oid * bool :=
  let be := bigEndian f in
  if negb (Z.land f 0x08 =? 0) then
    match decodeOctetString buf 0 be with
    | None => ([], false)
    | Some (_, n) => rangeLoop (S (length buf)) buf n be []
    end
  else rangeLoop (S (length buf)) buf 0 be [].

(** ** VarBinds *)

Definition VB_INTEGER : Z := 2.
Definition VB_OCTETSTRING : Z := 4.
Definition VB_NULL : Z := 5.
Definition VB_OID : Z := 6.
Definition VB_COUNTER32 : Z := 65.
Definition VB_GAUGE32 : Z := 66.
Definition VB_TIMETICKS : Z := 67.
Definition VB_COUNTER64 : Z := 70.
Definition VB_NO_SUCH_OBJECT : Z := 128.
Definition VB_NO_SUCH_INSTANCE : Z := 129.
Definition VB_END_OF_MIB_VIEW : Z := 130.

Definition encodeVarBindHeader (buf : Buf) (vbType : Z) (oid : Oid) : Buf := encodeOid (buf ++ [octet vbType 8; Z.land vbType 0xff; 0; 0]) oid false.
Definition encodeVarBindInteger (buf : Buf) (oid : Oid) (v : Z) : Buf := encodeUint32 (encodeVarBindHeader buf VB_INTEGER oid) (u32 v).
Definition encodeVarBindCounter32 (buf : Buf) (oid : Oid) (v : Z) : Buf := encodeUint32 (encodeVarBindHeader buf VB_COUNTER32 oid) v.
Definition encodeVarBindGauge32 (buf : Buf) (oid : Oid) (v : Z) : Buf := encodeUint32 (encodeVarBindHeader buf VB_GAUGE32 oid) v.
Definition encodeVarBindTimeTicks (buf : Buf) (oid : Oid) (v : Z) : Buf := encodeUint32 (encodeVarBindHeader buf VB_TIMETICKS oid) v.
Definition encodeVarBindCounter64 (buf : Buf) (oid : Oid) (v : Z) : Buf := encodeUint64 (encodeVarBindHeader buf VB_COUNTER64 oid) v.
Definition encodeVarBindOctetString (buf : Buf) (oid : Oid) (s : bytes) : Buf := encodeOctetString (encodeVarBindHeader buf VB_OCTETSTRING oid) s.
Definition encodeVarBindOid (buf : Buf) (oid valueOid : Oid) : Buf := encodeOid (encodeVarBindHeader buf VB_OID oid) valueOid false.
Definition encodeVarBindNull (buf : Buf) (oid : Oid) : Buf := encodeVarBindHeader buf VB_NULL oid.
Definition encodeVarBindEndOfMibView (buf : Buf) (oid : Oid) : Buf := encodeVarBindHeader buf VB_END_OF_MIB_VIEW oid.
Definition encodeVarBindNoSuchObject (buf : Buf) (oid : Oid) : Buf := encodeVarBindHeader buf VB_NO_SUCH_OBJECT oid.
Definition encodeVarBindNoSuchInstance (buf : Buf) (oid : Oid) : Buf := encodeVarBindHeader buf VB_NO_SUCH_INSTANCE oid.

Definition encodeResponseHeader (buf : Buf) (sysUpTime errorStatus errorIndex : Z) : Buf :=
  encodeUint32 buf sysUpTime ++ [octet errorStatus 8; Z.land errorStatus 0xff; octet errorIndex 8; Z.land errorIndex 0xff].

(** ** The order of OIDs *)

Fixpoint compareOid (a b : Oid) : Z :=
  match a, b with
  | [], [] => 0
  | [], _ :: _ => -1
  | _ :: _, [] => 1
  | x :: a', y :: b' => if x <? y then -1 else if y <? x then 1 else compareOid a' b'
  end.

Fixpoint oidIsChildOf (oid prefix : Oid) : bool :=
  match prefix, oid with
  | [], _ :: _ => true
  | p :: ps, o :: os => (o =? p) && oidIsChildOf os ps
  | _, [] => false
  end.

Definition oidEquals (a b : Oid) : bool := bool_decide (a = b).

(** ** The state *)

Record ContainerMetrics := {
  name : bytes; jid : Z; state : Z; cpuPct : Z; memKB : Z; netRx : Z; netTx : Z; uptimeTicks : Z; vncPort : Z; wsPort : Z; guiMode : bytes }.
#[global] Instance eta_ContainerMetrics : Eta ContainerMetrics := fun c => {|
  name := name c; jid := jid c; state := state c; cpuPct := cpuPct c; memKB := memKB c; netRx := netRx c; netTx := netTx c; uptimeTicks := uptimeTicks c;
  vncPort := vncPort c; wsPort := wsPort c; guiMode := guiMode c |}.

(** [g_agentxFd >= 0], the session, the counters and texts of the MIB. *)
Record State := {
  connected : bool; g_sessionId : Z; g_transactionId : Z; g_containers : list ContainerMetrics; g_totalCount : Z; g_runningCount : Z;
  g_version : bytes; g_hostname : bytes }.
#[global] Instance eta_State : Eta State := fun r => {|
  connected := connected r; g_sessionId := g_sessionId r; g_transactionId := g_transactionId r; g_containers := g_containers r;
  g_totalCount := g_totalCount r; g_runningCount := g_runningCount r; g_version := g_version r; g_hostname := g_hostname r |}.

Definition CRATE_BASE_OID : Oid := [1; 3; 6; 1; 4; 1; 59999].

Definition scalarTable : list Oid := [
  [1; 3; 6; 1; 4; 1; 59999; 1; 1; 0]; [1; 3; 6; 1; 4; 1; 59999; 1; 2; 0]; [1; 3; 6; 1; 4; 1; 59999; 1; 3; 0]; [1; 3; 6; 1; 4; 1; 59999; 1; 4; 0]].

Definition encodeScalarValue (st : State) (out : Buf) (oid : Oid) : Buf :=
  let scalar n := (length oid =? 10)%nat && (nth 7 oid 0 =? 1) && (nth 8 oid 0 =? n) in
  if scalar 1 then encodeVarBindInteger out oid (i32 (g_totalCount st))
  else if scalar 2 then encodeVarBindInteger out oid (i32 (g_runningCount st))
  else if scalar 3 then encodeVarBindOctetString out oid (g_version st)
  else if scalar 4 then encodeVarBindOctetString out oid (g_hostname st)
  else encodeVarBindNoSuchObject out oid.

Definition resolveGet (st : State) (out : Buf) (oid : Oid) : Buf :=
  match List.find (oidEquals oid) scalarTable with
  | Some s => encodeScalarValue st out s
  | None => encodeVarBindNoSuchInstance out oid
  end.

Definition resolveGetNext (st : State) (out : Buf) (oid : Oid) : Buf :=
  match List.find (fun s => 0 <? compareOid s oid) scalarTable with
  | Some s => encodeScalarValue st out s
  | None => encodeVarBindEndOfMibView out oid
  end.

(** ** The connection *)

Definition AGENTX_VERSION : Z := 1.
Definition AGENTX_OPEN_PDU : Z := 1.
Definition AGENTX_CLOSE_PDU : Z := 2.
Definition AGENTX_REGISTER_PDU : Z := 3.
Definition PDU_GET : Z := 6.
Definition PDU_GETNEXT : Z := 7.
Definition PDU_RESPONSE : Z := 18.
Definition kMaxPayloadLen : Z := 2 ^ 20.

(** What can be read until the end of the stream, or until an error. *)
Record Stream := { pending : Buf; breaks : bool }.

(** [readFull]: the octets, or how many there were ([-1] for an error). *)
Definition readFull (s : Stream) (n : nat) : Z + (Buf * Stream) :=
  if (n <=? length (pending s))%nat then inr (take n (pending s), {| pending := drop n (pending s); breaks := breaks s |})
  else inl (if breaks s then -1 else size_z (pending s)).

Definition frame (pduType session trans : Z) (payload : Buf) : Buf :=
  encodeHeader [] {| version := AGENTX_VERSION; type := pduType; flags := 0; sessionId := session; transactionId := trans; packetId := trans;
                     payloadLen := u32 (size_z payload) |} ++ payload.

(** [readResponse] *)
Definition readResponse (s : Stream) : option (Header * Stream) :=
  match readFull s 20 with
  | inl _ => None
  | inr (hdr, s1) =>
      h ← decodeHeader hdr 0;
      if negb (type h =? PDU_RESPONSE) then None
      else if kMaxPayloadLen <? payloadLen h then None
      else if 0 <? payloadLen h then
        match readFull s1 (Z.to_nat (payloadLen h)) with
        | inl _ => None
        | inr (payload, s2) =>
            let be := bigEndian (flags h) in
            let status := u16 (Z.lor (Z.shiftl (at_ payload (if be then 4 else 5)) 8) (at_ payload (if be then 5 else 4))) in
            if (8 <=? payloadLen h) && negb (status =? 0) then None else Some (h, s2)
        end
      else Some (h, s1)
  end.

Definition openPayload : Buf := encodeOctetString (encodeOid [5; 0; 0; 0] CRATE_BASE_OID false) (str "crate container manager SNMP subagent").

(** The steps of [initAgentX] after [connect]: what is sent, and the state. *)
Definition initAgentX (connects sends : bool) (hostname : bytes) (s : Stream) (st : State) : list Buf * State * bool :=
  let st := st <| g_hostname := hostname |> in
  if negb connects then ([], st <| connected := false |>, false)
  else
    let st := st <| g_transactionId ::= fun t => u32 (t + 1) |> in
    let pdu := frame AGENTX_OPEN_PDU 0 (g_transactionId st) openPayload in
    if negb sends then ([pdu], st <| connected := false |>, false)
    else match readResponse s with
         | None => ([pdu], st <| connected := false |>, false)
         | Some (h, _) => ([pdu], st <| connected := true |> <| g_sessionId := sessionId h |>, true)
         end.

Definition registerSubtree (sends : bool) (oid : Oid) (s : Stream) (st : State) : list Buf * State * bool :=
  if negb (connected st) then ([], st, false)
  else
    let st := st <| g_transactionId ::= fun t => u32 (t + 1) |> in
    let pdu := frame AGENTX_REGISTER_PDU (g_sessionId st) (g_transactionId st) (encodeOid (encodeUint32 [] 0 ++ [5; 127; 0; 0]) oid false) in
    ([pdu], st, sends && match readResponse s with Some _ => true | None => false end).

Definition registerMib (sends : bool) (s : Stream) (st : State) : list Buf * State :=
  if negb (connected st) then ([], st) else fst (registerSubtree sends CRATE_BASE_OID s st).

(** The collector's list and its two counts, [unsigned]. *)
Definition runningCount (cs : list ContainerMetrics) : Z := u32 (size_z (List.filter (fun c => state c =? 1) cs)).
Definition totalCount (cs : list ContainerMetrics) : Z := u32 (size_z cs).

Definition updateMibData (cs : list ContainerMetrics) (st : State) : State :=
  st <| g_containers := cs |> <| g_totalCount := totalCount cs |> <| g_runningCount := runningCount cs |>.

Definition shutdownAgentX (st : State) : list Buf * State :=
  if negb (connected st) then ([], st)
  else
    let st := st <| g_transactionId ::= fun t => u32 (t + 1) |> in
    ([frame AGENTX_CLOSE_PDU (g_sessionId st) (g_transactionId st) [1; 0; 0; 0]], st <| connected := false |> <| g_sessionId := 0 |>).

(** What [select] says. *)
Inductive Select := Readable | Idle | Interrupted | SelectFailed.

(** The payload of the answer to a request. *)
Definition answer (st : State) (h : Header) (payload : Buf) : Buf :=
  let start := encodeResponseHeader [] 0 0 0 in
  if (type h =? PDU_GET) || (type h =? PDU_GETNEXT) then
    fold_left (if type h =? PDU_GET then resolveGet st else resolveGetNext st) (fst (decodeGetRequest payload (flags h))) start
  else start.

Definition responseHeader (h : Header) (n : Z) : Header := {|
  version := AGENTX_VERSION; type := PDU_RESPONSE; flags := 0; sessionId := sessionId h; transactionId := transactionId h;
  packetId := packetId h; payloadLen := n |}.

Definition response (h : Header) (payload : Buf) : Buf := encodeHeader [] (responseHeader h (u32 (size_z payload))) ++ payload.

(** What is written, the rest of the stream, the state and the result. *)
Definition dispatchOnce (sel : Select) (writes : bool) (s : Stream) (st : State) : list Buf * Stream * State * bool :=
  let drop_ := st <| connected := false |> in
  if negb (connected st) then ([], s, st, false)
  else match sel with
       | Idle | Interrupted => ([], s, st, false)
       | SelectFailed => ([], s, drop_, false)
       | Readable =>
           match readFull s 20 with
           | inl _ => ([], s, drop_, false)
           | inr (hdr, s1) =>
               match decodeHeader hdr 0 with
               | None => ([], s1, drop_, false)
               | Some h =>
                   if kMaxPayloadLen <? payloadLen h then ([], s1, drop_, false)
                   else match readFull s1 (Z.to_nat (payloadLen h)) with
                        | inl _ => ([], s1, drop_, false)
                        | inr (payload, s2) =>
                            if type h =? PDU_RESPONSE then ([], s2, st, true)
                            else ([response h (answer st h payload)], s2, if writes then st else drop_, true)
                        end
               end
           end
       end.

(** ** Octets *)

Lemma octet_div v k : 0 <= k -> octet v k = v / 2 ^ k mod 256.
Proof. intros Hk. unfold octet. rewrite (Z.land_ones _ 8) by lia. by rewrite Z.shiftr_div_pow2. Qed.

Lemma low_octet v : Z.land v 0xFF = v mod 256.
Proof. apply (Z.land_ones v 8). lia. Qed.

Lemma lor4 a b c d : 0 <= a -> 0 <= b < 256 -> 0 <= c < 256 -> 0 <= d < 256 ->
  Z.lor (Z.lor (Z.lor (Z.shiftl a 24) (Z.shiftl b 16)) (Z.shiftl c 8)) d = ((a * 256 + b) * 256 + c) * 256 + d.
Proof.
  intros Ha Hb Hc Hd. rewrite !Z.shiftl_mul_pow2 by lia. rewrite (lor_below a (b * 2 ^ 16) 24) by lia.
  replace (a * 2 ^ 24 + b * 2 ^ 16) with ((a * 256 + b) * 2 ^ 16) by lia. rewrite (lor_below (a * 256 + b) (c * 2 ^ 8) 16) by lia.
  replace ((a * 256 + b) * 2 ^ 16 + c * 2 ^ 8) with (((a * 256 + b) * 256 + c) * 2 ^ 8) by lia. rewrite (lor_below _ d 8) by lia. lia.
Qed.

Lemma at_app a b i : at_ (a ++ b) (length a + i) = at_ b i.
Proof. unfold at_. rewrite app_nth2 by lia. f_equal. lia. Qed.

Definition word (v : Z) : Buf := encodeUint32 [] v.

Lemma encodeUint32_app buf v : encodeUint32 buf v = buf ++ word v.
Proof. done. Qed.

Lemma load_word pre v post : 0 <= v < 2 ^ 32 -> loadU32 true (pre ++ word v ++ post) (length pre) = v.
Proof.
  intros Hv. unfold loadU32, loadU32be. pose proof (at_app pre (word v ++ post)) as A. rewrite !A. rewrite <- (Nat.add_0_r (length pre)) at 1. rewrite A.
  unfold word, encodeUint32, at_. cbn [nth app]. rewrite !octet_div, low_octet by lia. rewrite lor4 by (try (apply Z.mod_pos_bound; lia); apply Z.mod_pos_bound; lia).
  rewrite (Z.mod_small (v / 2 ^ 24)) by (split; [apply Z.div_pos; lia|apply Z.div_lt_upper_bound; lia]).
  replace (2 ^ 24) with (2 ^ 16 * 256) by lia. replace (2 ^ 16) with (2 ^ 8 * 256) at 1 by lia. rewrite <- !Zdiv.Zdiv_Zdiv by lia. change (2 ^ 8) with 256. replace (2 ^ 16) with (256 * 256) by lia. rewrite <- !Zdiv.Zdiv_Zdiv by lia.
  pose proof (Z.div_mod v 256). pose proof (Z.div_mod (v / 256) 256). pose proof (Z.div_mod (v / 256 / 256) 256). lia.
Qed.

Lemma words_app buf l : fold_left encodeUint32 l buf = buf ++ flat_map word l.
Proof.
  revert buf. induction l as [|v l IH]; intros buf; cbn [fold_left flat_map]; [by rewrite app_nil_r|]. by rewrite IH, encodeUint32_app, <- app_assoc.
Qed.

Lemma words_length l : length (flat_map word l) = (length l * 4)%nat.
Proof. induction l as [|v l IH]; [done|]. cbn [flat_map]. rewrite length_app, IH. cbn. lia. Qed.

Lemma load_words pre l post i : Forall (fun v => 0 <= v < 2 ^ 32) l -> (i < length l)%nat ->
  loadU32 true (pre ++ flat_map word l ++ post) (length pre + i * 4) = nth i l 0.
Proof.
  revert pre i. induction l as [|v l IH]; intros pre i F Hi; [cbn in Hi; lia|]. apply Forall_cons in F as [Hv F]. cbn [flat_map]. destruct i as [|i].
  - rewrite Nat.add_0_r, <- app_assoc. by apply load_word.
  - replace (pre ++ (word v ++ flat_map word l) ++ post) with ((pre ++ word v) ++ flat_map word l ++ post) by (by rewrite <- !app_assoc).
    replace (length pre + S i * 4)%nat with (length (pre ++ word v) + i * 4)%nat by (rewrite length_app; cbn; lia). cbn [nth]. apply IH; [done|cbn in Hi; lia].
Qed.

Lemma map_nth_seq (l : Oid) : map (fun i => nth i l 0) (seq 0 (length l)) = l.
Proof. apply (nth_ext _ _ 0 0); [by rewrite length_map, length_seq|]. intros n Hn. rewrite length_map, length_seq in Hn.
  rewrite (nth_indep _ 0 (nth 0 l 0)) by (by rewrite length_map, length_seq). rewrite (map_nth (fun i => nth i l 0)). f_equal. by rewrite seq_nth. Qed.

(** ** Object identifiers *)

(** The prefix 1.3.6.1.x goes into one octet, which must not be 0; the rest is
    counted in one octet. *)
Definition goodOid (oid : Oid) : Prop :=
  Forall (fun v => 0 <= v < 2 ^ 32) oid /\ (length oid <= 255)%nat /\ forall t, oid <> 1 :: 3 :: 6 :: 1 :: 0 :: t.

Definition oidOctets (oid : Oid) (inc : bool) : Buf := encodeOid [] oid inc.

Lemma encodeOid_app buf oid inc : encodeOid buf oid inc = buf ++ oidOctets oid inc.
Proof. unfold oidOctets, encodeOid. repeat case_match; simplify_eq; by rewrite !words_app, <- ?app_assoc. Qed.

Lemma decodeOid_plain pre n prefix inc rest post : Forall (fun v => 0 <= v < 2 ^ 32) rest -> n = size_z rest -> n <= 255 ->
  decodeOid (pre ++ ([n; prefix; if inc : bool then 1 else 0; 0] ++ flat_map word rest) ++ post) (length pre) true
  = Some ((if prefix =? 0 then [] else [1; 3; 6; 1; prefix]) ++ rest, inc, (4 + length rest * 4)%nat).
Proof.
  intros F -> Hn. set (hd := [size_z rest; prefix; if inc then 1 else 0; 0]). unfold decodeOid.
  pose proof (at_app pre ((hd ++ flat_map word rest) ++ post)) as A.
  assert (L : length (pre ++ (hd ++ flat_map word rest) ++ post) = (length pre + (4 + length rest * 4 + length post))%nat).
  { rewrite !length_app, words_length. cbn. lia. }
  rewrite L. destruct (Nat.ltb_spec (length pre + (4 + length rest * 4 + length post)) (length pre + 4)); [lia|].
  assert (A0 : at_ (pre ++ (hd ++ flat_map word rest) ++ post) (length pre) = size_z rest) by (rewrite <- (Nat.add_0_r (length pre)), A; done).
  rewrite A0, !A. clear A A0.
  change (at_ ((hd ++ flat_map word rest) ++ post) 1) with prefix. change (at_ ((hd ++ flat_map word rest) ++ post) 2) with (if inc then 1 else 0).
  cbv zeta. assert (E : Z.to_nat (size_z rest) = length rest) by apply Nat2Z.id. rewrite !E. destruct (Nat.ltb_spec (length pre + (4 + length rest * 4 + length post)) (length pre + (4 + length rest * 4))); [lia|].
  f_equal. f_equal. f_equal; [f_equal|by destruct inc]. etransitivity; [|apply map_nth_seq]. apply map_ext_in. intros i [_ Hi]%in_seq.
  replace (pre ++ (hd ++ flat_map word rest) ++ post) with ((pre ++ hd) ++ flat_map word rest ++ post) by (by rewrite <- !app_assoc).
  replace (length pre + 4 + i * 4)%nat with (length (pre ++ hd) + i * 4)%nat by (rewrite length_app; cbn; lia). apply load_words; [done|lia].
Qed.

Lemma oid_roundtrip pre oid inc post : goodOid oid ->
  decodeOid (pre ++ oidOctets oid inc ++ post) (length pre) true = Some (oid, inc, length (oidOctets oid inc)).
Proof.
  intros (F & L & N).
  assert (P : forall prefix rest, 0 <= size_z rest <= 255 -> oidOctets oid inc = [u8 (size_z rest); prefix; if inc then 1 else 0; 0] ++ flat_map word rest ->
    (if prefix =? 0 then [] else [1; 3; 6; 1; prefix]) ++ rest = oid -> Forall (fun v => 0 <= v < 2 ^ 32) rest ->
    decodeOid (pre ++ oidOctets oid inc ++ post) (length pre) true = Some (oid, inc, length (oidOctets oid inc))).
  { intros prefix rest Hs -> E Fr. assert (u8 (size_z rest) = size_z rest) as -> by (apply Z.mod_small; lia). rewrite decodeOid_plain by (done || lia).
    rewrite E, length_app, words_length. done. }
  assert (L' : size_z oid <= 255) by (unfold size_z; lia).
  destruct oid as [|a [|b [|c [|d [|e t]]]]]; try (eapply (P 0); [split; [apply size_z_nonneg|exact L']| |reflexivity|exact F]; reflexivity).
  destruct ((a =? 1) && (b =? 3) && (c =? 6) && (d =? 1) && (e <=? 255)) eqn:E.
  - rewrite !andb_true_iff in E. destruct E as ((((->%Z.eqb_eq & ->%Z.eqb_eq) & ->%Z.eqb_eq) & ->%Z.eqb_eq) & He%Z.leb_le).
    assert (F' : Forall (fun v => 0 <= v < 2 ^ 32) t) by (by do 5 apply Forall_cons in F as [_ F]).
    apply (P e t); [| | |done].
    + pose proof (size_z_nonneg t). rewrite !size_z_cons in L'. lia.
    + rewrite <- words_app. unfold oidOctets, encodeOid. by rewrite (proj2 (Z.leb_le e 255)) by done.
    + destruct (Z.eqb_spec e 0) as [->|]; [by destruct (N t)|done].
  - eapply (P 0); [split; [apply size_z_nonneg|exact L']| |reflexivity|exact F]. rewrite <- words_app. unfold oidOctets, encodeOid. by rewrite E.
Qed.

(** OIDs under 1.3.6.1.0 lose that prefix. *)
Example zero_prefix_lost : decodeOid (oidOctets [1; 3; 6; 1; 0; 7] false) 0 true = Some ([7], false, 8%nat).
Proof. reflexivity. Qed.

(** ** Requests *)

(** A request of the master agent: a search range for each OID. *)
Definition rangeOctets (r : Oid * Oid) : Buf := oidOctets (fst r) false ++ oidOctets (snd r) false.
Definition requestOctets (l : list (Oid * Oid)) : Buf := flat_map rangeOctets l.

Lemma oidOctets_nonempty oid inc : (0 < length (oidOctets oid inc))%nat.
Proof. unfold oidOctets, encodeOid. repeat case_match; rewrite words_app, !length_app; cbn; lia. Qed.

Lemma range_roundtrip pre r post : goodOid (fst r) -> goodOid (snd r) ->
  decodeSearchRange (pre ++ rangeOctets r ++ post) (length pre) true = Some (fst r, snd r, false, length (rangeOctets r)).
Proof.
  intros G1 G2. unfold decodeSearchRange, rangeOctets. rewrite <- app_assoc, oid_roundtrip by done. cbn [mbind option_bind].
  replace (pre ++ oidOctets (fst r) false ++ oidOctets (snd r) false ++ post) with ((pre ++ oidOctets (fst r) false) ++ oidOctets (snd r) false ++ post) by (by rewrite <- app_assoc).
  rewrite <- length_app, oid_roundtrip by done. cbn [mbind option_bind]. by rewrite length_app.
Qed.

Lemma rangeLoop_request fuel pre l out : Forall (fun r => goodOid (fst r) /\ goodOid (snd r)) l -> (length (requestOctets l) < fuel)%nat ->
  rangeLoop fuel (pre ++ requestOctets l) (length pre) true out = (out ++ map fst l, true).
Proof.
  revert fuel pre out. induction l as [|r l IH]; intros [|fuel] pre out G Hf; try lia; cbn [rangeLoop].
  - unfold requestOctets. cbn [flat_map map]. rewrite !app_nil_r. by destruct (Nat.leb_spec (length pre) (length pre)); [|lia].
  - apply Forall_cons in G as [[G1 G2] G]. unfold requestOctets in *. cbn [flat_map map] in *. fold (requestOctets l) in *.
    assert (P : (0 < length (rangeOctets r))%nat) by (unfold rangeOctets; rewrite length_app; pose proof (oidOctets_nonempty (fst r) false); lia).
    rewrite length_app in *. rewrite length_app in *. destruct (Nat.leb_spec (length pre + (length (rangeOctets r) + length (requestOctets l))) (length pre)); [lia|].
    rewrite range_roundtrip by done. rewrite app_assoc, <- length_app, IH by (done || lia). by rewrite <- app_assoc.
Qed.

Lemma request_roundtrip l f : Z.land f 0x18 = 0x10 -> Forall (fun r => goodOid (fst r) /\ goodOid (snd r)) l -> decodeGetRequest (requestOctets l) f = (map fst l, true).
Proof.
  intros Hf G. unfold decodeGetRequest, bigEndian.
  assert (Z.land f 0x10 = 0x10 /\ Z.land f 0x08 = 0) as [-> ->].
  { split; [change 0x10 with (Z.land 0x18 0x10) at 1|change 0x08 with (Z.land 0x18 0x08)]; by rewrite Z.land_assoc, Hf. }
  change (negb (16 =? 0)) with true. change (negb (0 =? 0)) with false. cbv iota. by apply (rangeLoop_request _ [] l []); [|lia].
Qed.

(** ** Headers *)

Definition goodHeader (h : Header) : Prop :=
  Forall (fun v => 0 <= v < 2 ^ 32) [sessionId h; transactionId h; packetId h; payloadLen h].

Lemma header_octets h : encodeHeader [] h = [version h; type h; Z.lor (flags h) 0x10; 0] ++ flat_map word [sessionId h; transactionId h; packetId h; payloadLen h].
Proof. reflexivity. Qed.

Lemma header_roundtrip h : goodHeader h ->
  decodeHeader (encodeHeader [] h) 0 = Some {| version := version h; type := type h; flags := Z.lor (flags h) 0x10; sessionId := sessionId h;
    transactionId := transactionId h; packetId := packetId h; payloadLen := payloadLen h |}.
Proof.
  intros G. unfold decodeHeader. rewrite header_octets. set (hd := [version h; type h; Z.lor (flags h) 0x10; 0]). set (ws := [sessionId h; transactionId h; packetId h; payloadLen h]).
  change ((length (hd ++ flat_map word ws) <? 0 + 20)%nat) with false. cbv iota.
  change (at_ (hd ++ flat_map word ws) 0) with (version h). change (at_ (hd ++ flat_map word ws) (0 + 1)) with (type h). change (at_ (hd ++ flat_map word ws) (0 + 2)) with (Z.lor (flags h) 0x10).
  assert (B : bigEndian (Z.lor (flags h) 0x10) = true).
  { unfold bigEndian. rewrite Z.land_lor_distr_l, (Z.lor_comm). apply negb_true_iff, Z.eqb_neq. intros E. apply Z.lor_eq_0_iff in E as [E _]. done. }
  rewrite B. pose proof (fun i => load_words hd ws [] i G) as W. rewrite app_nil_r in W.
  change (0 + 4)%nat with (length hd + 0 * 4)%nat. change (0 + 8)%nat with (length hd + 1 * 4)%nat. change (0 + 12)%nat with (length hd + 2 * 4)%nat. change (0 + 16)%nat with (length hd + 3 * 4)%nat.
  rewrite !W by (cbn; lia). reflexivity.
Qed.

Lemma header_length h : length (encodeHeader [] h) = 20%nat.
Proof. reflexivity. Qed.

(** ** The order *)

Lemma compareOid_eq a b : compareOid a b = 0 <-> a = b.
Proof.
  revert b. induction a as [|x a IH]; intros [|y b]; cbn; try done. destruct (Z.ltb_spec x y), (Z.ltb_spec y x); try (split; [done|intros [= -> ->]; lia]); try lia.
  assert (x = y) as -> by lia. rewrite IH. split; [by intros ->|by intros [= ->]].
Qed.

Lemma compareOid_anti a b : compareOid b a = - compareOid a b.
Proof. revert b. induction a as [|x a IH]; intros [|y b]; cbn; try done. destruct (Z.ltb_spec x y), (Z.ltb_spec y x); try lia. apply IH. Qed.

Lemma compareOid_trans a b c : 0 < compareOid a b -> 0 < compareOid b c -> 0 < compareOid a c.
Proof.
  revert b c. induction a as [|x a IH]; intros [|y b] [|z c]; cbn; try lia.
  destruct (Z.ltb_spec x y), (Z.ltb_spec y x), (Z.ltb_spec y z), (Z.ltb_spec z y), (Z.ltb_spec x z), (Z.ltb_spec z x); try lia. apply IH.
Qed.

(** A strictly increasing table. *)
Fixpoint increasing (l : list Oid) : bool :=
  match l with a :: ((b :: _) as t) => (0 <? compareOid b a) && increasing t | _ => true end.

Lemma increasing_above a l : increasing (a :: l) = true -> Forall (fun s => 0 < compareOid s a) l.
Proof.
  revert a. induction l as [|b l IH]; intros a; [constructor|]. cbn [increasing]. intros [Hb%Z.ltb_lt Hl]%andb_true_iff. constructor; [done|].
  eapply List.Forall_impl; [|by apply IH]. intros s Hs. eapply compareOid_trans; [exact Hs|done].
Qed.

(** The first entry above an OID is the least one above it. *)
Lemma first_above l oid : increasing l = true ->
  match List.find (fun s => 0 <? compareOid s oid) l with
  | Some s => In s l /\ 0 < compareOid s oid /\ forall s', In s' l -> 0 < compareOid s' oid -> s' = s \/ 0 < compareOid s' s
  | None => forall s', In s' l -> compareOid s' oid <= 0
  end.
Proof.
  induction l as [|a l IH]; intros Hi; cbn [List.find]; [done|]. destruct (Z.ltb_spec 0 (compareOid a oid)).
  - split; [by left|]. split; [done|]. intros s' [->|Hs'] _; [by left|right]. apply increasing_above in Hi. rewrite List.Forall_forall in Hi. by apply Hi.
  - assert (Hl : increasing l = true) by (destruct l; [done|]; cbn in Hi; by apply andb_true_iff in Hi as [_ ?]). specialize (IH Hl).
    destruct (List.find _ l) as [s|].
    + destruct IH as (? & ? & Hall). split; [by right|]. split; [done|]. intros s' [<-|Hs'] ?; [lia|by apply Hall].
    + intros s' [<-|Hs']; [done|by apply IH].
Qed.

Lemma scalarTable_increasing : increasing scalarTable = true.
Proof. reflexivity. Qed.

(** ** The answers *)

(** The next VarBind starts at a multiple of four octets. *)
Definition aligned (b : Buf) : Prop := (length b mod 4 = 0)%nat.

Lemma aligned_app a b : aligned a -> aligned b -> aligned (a ++ b).
Proof. unfold aligned. intros Ha Hb. rewrite length_app, Nat.Div0.add_mod, Ha, Hb. done. Qed.

Lemma oidOctets_length oid inc : exists k, length (oidOctets oid inc) = (4 + k * 4)%nat /\ (k <= length oid)%nat.
Proof.
  unfold oidOctets, encodeOid. destruct (match oid with a :: _ => _ | [] => _ end) as [p r] eqn:E. exists (length r). split; [rewrite words_app, length_app, words_length; done|].
  repeat case_match; simplify_eq; cbn; lia.
Qed.

Lemma oidOctets_aligned oid inc : aligned (oidOctets oid inc).
Proof. unfold aligned. destruct (oidOctets_length oid inc) as (k & -> & _). replace (4 + k * 4)%nat with ((1 + k) * 4)%nat by lia. apply Nat.Div0.mod_mul. Qed.

Lemma varBindHeader_app buf t oid : encodeVarBindHeader buf t oid = buf ++ encodeVarBindHeader [] t oid.
Proof. unfold encodeVarBindHeader. rewrite encodeOid_app, (encodeOid_app ([] ++ _)). by rewrite <- !app_assoc. Qed.

Lemma varBindHeader_aligned t oid : aligned (encodeVarBindHeader [] t oid).
Proof. unfold encodeVarBindHeader. rewrite encodeOid_app. by apply aligned_app; [|apply oidOctets_aligned]. Qed.

Lemma padded_app a b : aligned a -> padded (a ++ b) = a ++ padded b.
Proof. unfold aligned, padded. intros Ha. rewrite <- app_assoc, length_app, Nat.Div0.add_mod, Ha, Nat.add_0_l, Nat.Div0.mod_mod. done. Qed.

Lemma padded_aligned b : aligned (padded b).
Proof.
  unfold aligned, padded. rewrite length_app, repeat_length. pose proof (Nat.mod_upper_bound (length b) 4 ltac:(lia)).
  rewrite Nat.Div0.add_mod, Nat.Div0.mod_mod. destruct (length b mod 4)%nat as [|[|[|[|k]]]]; try done. lia.
Qed.

Lemma octetString_app buf s : aligned buf -> encodeOctetString buf s = buf ++ encodeOctetString [] s.
Proof. intros Ha. unfold encodeOctetString. rewrite encodeUint32_app, <- app_assoc. by apply padded_app. Qed.

(** The VarBind for an OID of a request. *)
Definition binding (st : State) (t : Z) (oid : Oid) : Buf := (if t =? PDU_GET then resolveGet else resolveGetNext) st [] oid.

Lemma scalar_app st out s : aligned out ->
  encodeScalarValue st out s = out ++ encodeScalarValue st [] s /\ aligned (encodeScalarValue st [] s).
Proof.
  intros Ha. unfold encodeScalarValue, encodeVarBindInteger, encodeVarBindOctetString, encodeVarBindNoSuchObject.
  rewrite !encodeUint32_app, !(varBindHeader_app out).
  rewrite !(octetString_app (out ++ _)) by (apply aligned_app; [done|apply varBindHeader_aligned]).
  rewrite !(octetString_app (encodeVarBindHeader [] _ _)) by apply varBindHeader_aligned.
  repeat case_match; (split; [by rewrite <- ?app_assoc|]); first [apply aligned_app|idtac]; try apply varBindHeader_aligned; first [apply padded_aligned|reflexivity].
Qed.

Lemma binding_app st t out oid : aligned out ->
  (if t =? PDU_GET then resolveGet st else resolveGetNext st) out oid = out ++ binding st t oid /\ aligned (binding st t oid).
Proof.
  intros Ha. unfold binding, resolveGet, resolveGetNext, encodeVarBindNoSuchInstance, encodeVarBindEndOfMibView.
  destruct (t =? PDU_GET); case_match; first [by apply scalar_app|split; [apply varBindHeader_app|apply varBindHeader_aligned]].
Qed.

Lemma bindings_app st t oids out : aligned out ->
  fold_left (if t =? PDU_GET then resolveGet st else resolveGetNext st) oids out = out ++ flat_map (binding st t) oids.
Proof.
  revert out. induction oids as [|o oids IH]; intros out Ha; cbn [fold_left flat_map]; [by rewrite app_nil_r|].
  destruct (binding_app st t out o Ha) as [-> Hb]. rewrite IH by (by apply aligned_app). by rewrite <- app_assoc.
Qed.

(** What a VarBind is: for Get, the value of a scalar of the MIB and
    noSuchInstance for any other OID; for GetNext, the value of the least
    scalar above the OID, and endOfMibView where there is none. *)
Inductive Bound (st : State) : Z -> Oid -> Buf -> Prop :=
| GotScalar oid : In oid scalarTable -> Bound st PDU_GET oid (encodeScalarValue st [] oid)
| GotNothing oid : ~ In oid scalarTable -> Bound st PDU_GET oid (encodeVarBindHeader [] VB_NO_SUCH_INSTANCE oid)
| GotNext oid s : In s scalarTable -> 0 < compareOid s oid -> (forall s', In s' scalarTable -> 0 < compareOid s' oid -> s' = s \/ 0 < compareOid s' s) ->
    Bound st PDU_GETNEXT oid (encodeScalarValue st [] s)
| GotEnd oid : (forall s, In s scalarTable -> compareOid s oid <= 0) -> Bound st PDU_GETNEXT oid (encodeVarBindHeader [] VB_END_OF_MIB_VIEW oid).

Lemma binding_bound st t oid : t = PDU_GET \/ t = PDU_GETNEXT -> Bound st t oid (binding st t oid).
Proof.
  intros [-> | ->]; unfold binding; [change (PDU_GET =? PDU_GET) with true|change (PDU_GETNEXT =? PDU_GET) with false]; cbv iota; [unfold resolveGet|unfold resolveGetNext].
  - destruct (List.find (oidEquals oid) scalarTable) as [s|] eqn:E.
    + apply find_some in E as [Hs He%bool_decide_eq_true]. subst s. by constructor.
    + apply GotNothing. intros Hin. apply (find_none _ _ E) in Hin. by apply bool_decide_eq_false in Hin.
  - pose proof (first_above scalarTable oid scalarTable_increasing) as H. destruct (List.find _ scalarTable) as [s|]; [|by constructor].
    destruct H as (? & ? & ?). by constructor.
Qed.

Lemma bindings_bound st t oids : t = PDU_GET \/ t = PDU_GETNEXT -> Forall2 (Bound st t) oids (map (binding st t) oids).
Proof. intros T. induction oids; cbn [map]; constructor; [by apply binding_bound|done]. Qed.

(** The texts of the MIB are short: the version and the host name. *)
Definition shortTexts (st : State) : Prop := (length (g_version st) <= 255)%nat /\ (length (g_hostname st) <= 255)%nat.

Lemma oidOctets_short oid inc : (length (oidOctets oid inc) <= 4 + length oid * 4)%nat.
Proof. destruct (oidOctets_length oid inc) as (k & -> & Hk). lia. Qed.

Lemma varBindHeader_length t oid : (length (encodeVarBindHeader [] t oid) <= 8 + length oid * 4)%nat.
Proof. unfold encodeVarBindHeader. rewrite encodeOid_app, length_app. pose proof (oidOctets_short oid false). cbn. lia. Qed.

Lemma octetString_length s : (length (encodeOctetString [] s) <= 7 + length s)%nat.
Proof.
  unfold encodeOctetString, padded. rewrite !length_app, repeat_length, length_map. pose proof (Nat.mod_upper_bound (4 - (length (encodeUint32 [] (u32 (size_z s))) + length s) mod 4) 4 ltac:(lia)).
  cbn [encodeUint32 length app] in *. lia.
Qed.

Lemma scalarTable_short s : In s scalarTable -> length s = 10%nat.
Proof. cbn. intuition (subst; reflexivity). Qed.

Lemma scalar_length st s : shortTexts st -> In s scalarTable -> (length (encodeScalarValue st [] s) <= 1300)%nat.
Proof.
  intros [Hv Hh] Hs%scalarTable_short.
  assert (B : forall t, (length (encodeVarBindHeader [] t s) <= 48)%nat) by (intros t; pose proof (varBindHeader_length t s); lia).
  pose proof (octetString_length (g_version st)). pose proof (octetString_length (g_hostname st)).
  unfold encodeScalarValue, encodeVarBindInteger, encodeVarBindOctetString, encodeVarBindNoSuchObject.
  rewrite !(octetString_app (encodeVarBindHeader [] _ _)) by apply varBindHeader_aligned.
  rewrite !encodeUint32_app. repeat case_match; rewrite ?length_app;
    try (pose proof (B VB_INTEGER)); try (pose proof (B VB_OCTETSTRING)); try (pose proof (B VB_NO_SUCH_OBJECT)); change (length (word _)) with 4%nat; lia.
Qed.

Lemma binding_length st t oid : shortTexts st -> (length oid <= 255)%nat -> (length (binding st t oid) <= 1300)%nat.
Proof.
  intros Hst Ho. unfold binding, resolveGet, resolveGetNext, encodeVarBindNoSuchInstance, encodeVarBindEndOfMibView.
  pose proof (varBindHeader_length VB_NO_SUCH_INSTANCE oid). pose proof (varBindHeader_length VB_END_OF_MIB_VIEW oid).
  destruct (t =? PDU_GET); case_match eqn:E; try lia; apply find_some in E as [Hs _]; by apply scalar_length.
Qed.

Lemma bindings_length st t l : shortTexts st -> Forall (fun r : Oid * Oid => goodOid (fst r) /\ goodOid (snd r)) l ->
  (length (flat_map (binding st t) (map fst l)) * 8 <= 1300 * length (requestOctets l))%nat.
Proof.
  intros Hst. induction 1 as [|r l [(_ & L & _) _] _ IH]; [done|]. unfold requestOctets. cbn [flat_map map]. fold (requestOctets l). rewrite !length_app.
  pose proof (binding_length st t (fst r) Hst L). destruct (oidOctets_length (fst r) false) as (k & E & _). destruct (oidOctets_length (snd r) false) as (k' & E' & _).
  assert (length (rangeOctets r) = (8 + k * 4 + k' * 4)%nat) by (unfold rangeOctets; rewrite length_app; lia). lia.
Qed.

(** ** One request *)

Lemma readFull_front a b brk : readFull {| pending := a ++ b; breaks := brk |} (length a) = inr (a, {| pending := b; breaks := brk |}).
Proof.
  unfold readFull. cbn [pending breaks]. rewrite length_app. destruct (Nat.leb_spec (length a) (length a + length b)); [|lia].
  by rewrite take_app_length, drop_app_length.
Qed.

Lemma header_flags f : Z.land f 0x18 = 0x10 -> Z.land (Z.lor f 0x10) 0x18 = 0x10.
Proof. intros E. by rewrite Z.land_lor_distr_l, E. Qed.

(** A request of the master agent, and what it reads back. *)
Definition goodRequest (h : Header) (l : list (Oid * Oid)) : Prop :=
  goodHeader h /\ Z.land (flags h) 0x18 = 0x10 /\ payloadLen h = size_z (requestOctets l) /\ payloadLen h <= kMaxPayloadLen /\
  Forall (fun r => goodOid (fst r) /\ goodOid (snd r)) l.

Lemma dispatch_request st h l rest brk w : connected st = true -> goodRequest h l -> type h <> PDU_RESPONSE ->
  dispatchOnce Readable w {| pending := encodeHeader [] h ++ requestOctets l ++ rest; breaks := brk |} st
  = ([response h (answer st {| version := version h; type := type h; flags := Z.lor (flags h) 0x10; sessionId := sessionId h;
       transactionId := transactionId h; packetId := packetId h; payloadLen := payloadLen h |} (requestOctets l))],
     {| pending := rest; breaks := brk |}, if w then st else st <| connected := false |>, true).
Proof.
  intros C (G & _ & P & B & _) T. unfold dispatchOnce. rewrite C. cbn [negb]. cbv iota zeta.
  change 20%nat with (length (encodeHeader [] h)). rewrite readFull_front, header_roundtrip by done. cbn [payloadLen type].
  destruct (Z.ltb_spec kMaxPayloadLen (payloadLen h)); [lia|].
  replace (Z.to_nat (payloadLen h)) with (length (requestOctets l)) by (rewrite P; unfold size_z; lia). rewrite readFull_front.
  destruct (Z.eqb_spec (type h) PDU_RESPONSE); [done|reflexivity].
Qed.

Lemma answer_request st h l : type h = PDU_GET \/ type h = PDU_GETNEXT -> Z.land (flags h) 0x18 = 0x10 ->
  Forall (fun r => goodOid (fst r) /\ goodOid (snd r)) l ->
  answer st h (requestOctets l) = encodeResponseHeader [] 0 0 0 ++ flat_map (binding st (type h)) (map fst l).
Proof.
  intros T F G. unfold answer. rewrite request_roundtrip by done. assert ((type h =? PDU_GET) || (type h =? PDU_GETNEXT) = true) as -> by (destruct T as [-> | ->]; reflexivity).
  by apply bindings_app.
Qed.

(** The subagent answers every Get and GetNext request of the master agent:
    when the socket holds a request for a list of search ranges (big-endian,
    no context, at most the maximal payload) and it can be read and written,
    one turn of the dispatcher consumes exactly that request, keeps the
    connection and its state, and writes one Response, whose header decodes to
    the session, transaction and packet numbers of the request and to the
    length of what follows; what follows is the noError response header and,
    in the order of the request, a VarBind for each of its OIDs: for Get the
    value of the scalar with that OID, or noSuchInstance, and for GetNext the
    value of the least scalar above it, or endOfMibView. *)
Theorem get_requests_answered st h l rest brk : connected st = true -> shortTexts st -> type h = PDU_GET \/ type h = PDU_GETNEXT -> goodRequest h l ->
  exists header binds,
    dispatchOnce Readable true {| pending := encodeHeader [] h ++ requestOctets l ++ rest; breaks := brk |} st
    = ([header ++ encodeResponseHeader [] 0 0 0 ++ concat binds], {| pending := rest; breaks := brk |}, st, true)
    /\ decodeHeader header 0 = Some {| version := AGENTX_VERSION; type := PDU_RESPONSE; flags := 0x10; sessionId := sessionId h;
         transactionId := transactionId h; packetId := packetId h; payloadLen := size_z (encodeResponseHeader [] 0 0 0 ++ concat binds) |}
    /\ Forall2 (Bound st (type h)) (map fst l) binds.
Proof.
  intros C Hst T R. rewrite dispatch_request by first [done|destruct T as [-> | ->]; done]. destruct R as (G & F & P & B & O).
  rewrite answer_request by (done || by apply header_flags). cbn [type]. set (payload := encodeResponseHeader [] 0 0 0 ++ _).
  exists (encodeHeader [] (responseHeader h (size_z payload))), (map (binding st (type h)) (map fst l)). rewrite <- flat_map_concat_map. fold payload.
  assert (L : size_z payload < 2 ^ 32).
  { pose proof (bindings_length st (type h) l Hst O). unfold kMaxPayloadLen, size_z, payload in *. rewrite length_app. cbn [length encodeResponseHeader encodeUint32 app]. lia. }
  assert (U : u32 (size_z payload) = size_z payload) by (apply Z.mod_small; pose proof (size_z_nonneg payload); lia).
  split; [unfold response; rewrite U; reflexivity|]. split; [|by apply bindings_bound]. rewrite header_roundtrip; [done|].
  unfold goodHeader in *. cbn [responseHeader sessionId transactionId packetId payloadLen]. rewrite !Forall_cons in *. destruct G as (? & ? & ? & _ & ?).
  pose proof (size_z_nonneg payload). do 3 (split; [done|]). split; [lia|done].
Qed.

Definition sampleState : State := {|
  connected := true; g_sessionId := 7; g_transactionId := 2; g_containers := []; g_totalCount := 5; g_runningCount := 3; g_version := str "1.1.52"; g_hostname := str "host" |}.
Definition sampleRanges : list (Oid * Oid) := [(CRATE_BASE_OID, []); ([1; 3; 6; 1; 4; 1; 59999; 1; 4; 0], [])].
Definition sampleHeader : Header := {|
  version := 1; type := PDU_GETNEXT; flags := 0x10; sessionId := 7; transactionId := 40; packetId := 41; payloadLen := size_z (requestOctets sampleRanges) |}.

Lemma goodOid_small oid : forallb (fun v => (0 <=? v) && (v <? 2 ^ 32)) oid = true -> (length oid <= 255)%nat -> nth 4 oid 1 <> 0 -> goodOid oid.
Proof.
  intros F L N. split; [|split; [done|by intros t ->]]. apply List.Forall_forall. intros v Hv. rewrite forallb_forall in F. apply F in Hv.
  apply andb_true_iff in Hv as [?%Z.leb_le ?%Z.ltb_lt]. lia.
Qed.

Lemma sampleRequest : goodRequest sampleHeader sampleRanges.
Proof.
  split; [repeat constructor; done|]. split; [done|]. split; [done|]. split; [done|].
  do 2 (constructor; [split; apply goodOid_small; first [reflexivity|cbn; lia|done]|]). constructor.
Qed.

Lemma get_requests_answered_witness :
  (exists header binds,
    dispatchOnce Readable true {| pending := encodeHeader [] sampleHeader ++ requestOctets sampleRanges ++ [1; 2]; breaks := false |} sampleState
    = ([header ++ encodeResponseHeader [] 0 0 0 ++ concat binds], {| pending := [1; 2]; breaks := false |}, sampleState, true)
    /\ decodeHeader header 0 = Some {| version := AGENTX_VERSION; type := PDU_RESPONSE; flags := 0x10; sessionId := 7;
         transactionId := 40; packetId := 41; payloadLen := size_z (encodeResponseHeader [] 0 0 0 ++ concat binds) |}
    /\ Forall2 (Bound sampleState PDU_GETNEXT) [CRATE_BASE_OID; [1; 3; 6; 1; 4; 1; 59999; 1; 4; 0]] binds)
  /\ map (binding sampleState PDU_GETNEXT) (map fst sampleRanges)
     = [encodeVarBindInteger [] [1; 3; 6; 1; 4; 1; 59999; 1; 1; 0] 5; encodeVarBindEndOfMibView [] [1; 3; 6; 1; 4; 1; 59999; 1; 4; 0]].
Proof.
  split; [|reflexivity]. apply (get_requests_answered sampleState sampleHeader sampleRanges [1; 2] false); [reflexivity|split; cbn; lia|by right|exact sampleRequest].
Defined.

(** A request cut short in its second range is answered as if it had ended
    after the first, with noError. *)
Example cut_request_answered :
  let payload := requestOctets [(CRATE_BASE_OID, [])] ++ [3; 4; 0] in
  decodeGetRequest payload 0x10 = ([CRATE_BASE_OID], false)
  /\ answer sampleState (sampleHeader) payload = encodeResponseHeader [] 0 0 0 ++ binding sampleState PDU_GETNEXT CRATE_BASE_OID.
Proof. split; reflexivity. Qed.

(** GetNext does not look at the end of the range: the scalar in the answer may
    lie outside it. *)
Example end_of_range_ignored :
  let range := ([1; 3; 6; 1; 4; 1; 59999], [1; 3; 6; 1; 4; 1; 59999; 1; 1]) in
  answer sampleState sampleHeader (requestOctets [range]) = encodeResponseHeader [] 0 0 0 ++ encodeVarBindInteger [] [1; 3; 6; 1; 4; 1; 59999; 1; 1; 0] 5
  /\ 0 < compareOid [1; 3; 6; 1; 4; 1; 59999; 1; 1; 0] (snd range).
Proof. split; reflexivity. Qed.

(** A sub-identifier count above 255 is truncated: the encoding of an OID of
    257 parts decodes to its first one. *)
Example long_oid_truncated : fst <$> (fst <$> decodeOid (oidOctets (repeat 2 257) false) 0 true) = Some [2].
Proof. reflexivity. Qed.

End Mib.
