(* ===== verification/Snmpd.v ===== *)
(** * The SNMP daemon: snmpd/collector.cpp, snmpd/main.cpp

    The collector of container metrics, the traps it sends when a container
    changes state, and the main loop that pumps the dispatcher of [Mib] and
    reconnects to the master agent.  What jls(8), rctl(8) and the registry of
    GUI sessions say, the clock and the socket are arguments of a turn. *)

From S2P Require Import Prelude CStd OMap RecordUpd GuiRegistry UtilPure Mib.

Module Snmpd.
Import CStd UtilPure Mib.

(** ** Collecting *)

Definition found (nm : bytes) (j st : Z) : ContainerMetrics := {|
  name := nm; jid := j; state := st; cpuPct := 0; memKB := 0; netRx := 0; netTx := 0; uptimeTicks := 0; vncPort := 0; wsPort := 0; guiMode := [] |}.

(** [while (is >> jid >> name >> dying)]; a jid that is no number ends it. *)
Fixpoint jlsLoop (ws : list bytes) : list ContainerMetrics :=
  match ws with
  | j :: nm :: dying :: rest =>
      match stoi j with
      | None => []
      | Some v => found nm v (if bool_decide (dying = str "0") then 1 else 3) :: jlsLoop rest
      end
  | _ => []
  end.

(** A line of [rctl -u]; [None] is the exception of a value that is no
    number. *)
Definition rctlLine (line : bytes) (c : ContainerMetrics) : option ContainerMetrics :=
  match find_char "=" line with
  | None => Some c
  | Some eq =>
      let key := take eq line in
      let val := drop (S eq) line in
      if bool_decide (key = str "pcpu") then v ← stoi val; Some (c <| cpuPct := v |>)
      else if bool_decide (key = str "memoryuse") then '(v, _) ← stoulPos val; Some (c <| memKB := v / 1024 |>)
      else Some c
  end.

Fixpoint rctlLines (lines : list bytes) (c : ContainerMetrics) : ContainerMetrics :=
  match lines with
  | [] => c
  | l :: rest => match rctlLine l c with Some c' => rctlLines rest c' | None => c end
  end.

Definition rctlOf (rctl : bytes -> option bytes) (c : ContainerMetrics) : ContainerMetrics :=
  match rctl (name c) with Some out => rctlLines (getlines out) c | None => c end.

Definition guiMatches (g : GuiRegistry.GuiEntry) (c : ContainerMetrics) : bool :=
  bool_decide (name c = GuiRegistry.jailName g) || starts_with (str "jail-" ++ name c) (GuiRegistry.jailName g).

(** The first container a session matches gets its data. *)
Fixpoint mergeGui (g : GuiRegistry.GuiEntry) (cs : list ContainerMetrics) : list ContainerMetrics :=
  match cs with
  | [] => []
  | c :: rest =>
      if guiMatches g c
      then c <| vncPort := i32 (GuiRegistry.vncPort g) |> <| wsPort := i32 (GuiRegistry.wsPort g) |> <| guiMode := GuiRegistry.mode g |> :: rest
      else c :: mergeGui g rest
  end.

(** What the host says: the output of jls, that of rctl for a container, the
    sessions of the registry; [None] where the call throws. *)
Record Host := { jls : option bytes; rctl : bytes -> option bytes; sessions : option (list GuiRegistry.GuiEntry) }.

Definition collect (h : Host) : list ContainerMetrics :=
  let cs := map (rctlOf (rctl h)) (match jls h with Some out => jlsLoop (words out) | None => [] end) in
  match sessions h with Some gs => fold_left (fun cs g => mergeGui g cs) gs cs | None => cs end.

(** ** Traps *)

Inductive TrapType := ContainerStarted | ContainerStopped | ContainerOOM.
#[global] Instance TrapType_eq_dec : EqDecision TrapType.
Proof. solve_decision. Defined.

Definition Trap : Type := TrapType * bytes * Z.
Definition States : Type := list (bytes * Z).

Definition containerTrap (prev : States) (c : ContainerMetrics) : list Trap :=
  match OMap.find (name c) prev with
  | None => if state c =? 1 then [(ContainerStarted, name c, jid c)] else []
  | Some s =>
      if negb (s =? state c) then
        if state c =? 1 then [(ContainerStarted, name c, jid c)]
        else if (state c =? 0) || (state c =? 3) then [(ContainerStopped, name c, jid c)] else []
      else []
  end.

Definition goneTrap (cs : list ContainerMetrics) (p : bytes * Z) : list Trap :=
  if existsb (fun c => bool_decide (name c = fst p)) cs then [] else [(ContainerStopped, fst p, 0)].

Definition statesOf (cs : list ContainerMetrics) : States := fold_left (fun m c => OMap.insert (name c) (state c) m) cs [].

Definition checkTraps (prev : States) (cs : list ContainerMetrics) : list Trap * States :=
  (flat_map (containerTrap prev) cs ++ flat_map (goneTrap cs) prev, statesOf cs).

(** ** The command line *)

Record Options := { foreground : bool; agentxSocket : bytes; pollInterval : Z }.
#[global] Instance eta_Options : Eta Options := fun o => {| foreground := foreground o; agentxSocket := agentxSocket o; pollInterval := pollInterval o |}.

Definition defaults : Options := {| foreground := false; agentxSocket := str "/var/agentx/master"; pollInterval := 30 |}.

(** The options, or the exit code. *)
Fixpoint parseArgs (argv : list bytes) (o : Options) : Z + Options :=
  match argv with
  | [] => inr o
  | arg :: rest =>
      if bool_decide (arg = str "-f") then parseArgs rest (o <| foreground := true |>)
      else
        let other := if bool_decide (arg = str "-h") then inl 0 else parseArgs rest o in
        match rest with
        | v :: rest' =>
            if bool_decide (arg = str "-p") then parseArgs rest' (o <| agentxSocket := v |>)
            else if bool_decide (arg = str "-i") then
              match toUInt v with
              | inl _ => inl 1
              | inr n => if n =? 0 then inl 1 else parseArgs rest' (o <| pollInterval := n |>)
              end
            else other
        | [] => other
        end
  end.

(** ** The main loop *)

Record Daemon := { mib : State; containers : list ContainerMetrics; prevStates : States; lastCollect : Z; backoffSec : Z; nextReconnect : Z }.
#[global] Instance eta_Daemon : Eta Daemon := fun d => {|
  mib := mib d; containers := containers d; prevStates := prevStates d; lastCollect := lastCollect d; backoffSec := backoffSec d; nextReconnect := nextReconnect d |}.

(** What a turn finds: the clock at its two readings, the master agent's
    answers to a new connection and the socket of an open one, the host. *)
Record Turn := {
  now0 : Z; now : Z; connects : bool; sendsOpen : bool; sendsRegister : bool; hostname : bytes; openAnswer : Stream; registerAnswer : Stream;
  select : Select; writes : bool; socket : Stream; host : Host }.

(** What a turn does. *)
Inductive Act := Connects | Writes (pdu : Buf) | Sends (t : Trap).

Definition reconnect (t : Turn) (d : Daemon) : list Act * Daemon :=
  if now0 t <? nextReconnect d then ([], d)
  else
    let '(out, st, ok) := initAgentX (connects t) (sendsOpen t) (hostname t) (openAnswer t) (mib d) in
    if ok then
      let '(out', st') := registerMib (sendsRegister t) (registerAnswer t) st in
      (Connects :: map Writes (out ++ out'), d <| mib := st' |> <| backoffSec := 1 |>)
    else (Connects :: map Writes out, d <| mib := st |> <| nextReconnect := now0 t + backoffSec d |> <| backoffSec := if 30 <=? backoffSec d then 30 else backoffSec d * 2 |>).

Definition pump (t : Turn) (d : Daemon) : list Act * Daemon :=
  if connected (mib d) then let '(out, _, st, _) := dispatchOnce (select t) (writes t) (socket t) (mib d) in (map Writes out, d <| mib := st |>)
  else reconnect t d.

Definition poll (interval : Z) (t : Turn) (d : Daemon) : list Act * Daemon :=
  if interval <=? u32 (now t - lastCollect d) then
    let cs := collect (host t) in
    let '(traps, prev) := checkTraps (prevStates d) cs in
    (map Sends traps, d <| containers := cs |> <| mib ::= updateMibData cs |> <| prevStates := prev |> <| lastCollect := now t |>)
  else ([], d).

Definition turn (interval : Z) (t : Turn) (d : Daemon) : list Act * Daemon :=
  let '(a, d1) := pump t d in
  let '(b, d2) := poll interval t d1 in
  (a ++ b, d2).

(** Before the loop: the first collection. *)
Definition begun (h : Host) (time : Z) (st : State) : Daemon := {|
  mib := updateMibData (collect h) st; containers := collect h; prevStates := []; lastCollect := time; backoffSec := 1; nextReconnect := 0 |}.

Fixpoint turns (interval : Z) (ts : list Turn) (d : Daemon) : list (list Act) * Daemon :=
  match ts with
  | [] => ([], d)
  | t :: rest => let '(a, d1) := turn interval t d in let '(r, d2) := turns interval rest d1 in (a :: r, d2)
  end.

(** ** What the traps say *)

Definition hasState (cs : list ContainerMetrics) (nm : bytes) (s : Z) : Prop := exists c, In c cs /\ name c = nm /\ state c = s.

Lemma fold_states cs m : OMap.wf m -> NoDup (map name cs) ->
  OMap.wf (fold_left (fun m c => OMap.insert (name c) (state c) m) cs m) /\
  forall nm s, OMap.find nm (fold_left (fun m c => OMap.insert (name c) (state c) m) cs m) = Some s <->
    hasState cs nm s \/ (forall c, In c cs -> name c <> nm) /\ OMap.find nm m = Some s.
Proof.
  revert m. induction cs as [|c cs IH]; intros m W N; cbn [fold_left]; [split; [done|]; intros nm s; split; [by right|intros [(c & [] & _)|[_ H]]; exact H]|].
  cbn [map] in N. apply NoDup_cons in N as [Nc N]. destruct (IH (OMap.insert (name c) (state c) m)) as [W' F]; [eauto with crate|done|].
  split; [done|]. intros nm s. rewrite F, OMap.find_insert by done. clear F IH. unfold hasState.
  assert (K : forall c', In c' cs -> name c' <> name c) by (intros c' Hc' E; apply Nc; apply list_elem_of_In, in_map_iff; by exists c').
  destruct (decide (nm = name c)) as [->|Hn]; split.
  - intros [(c' & Hc & E & _)|[_ [= <-]]]; [by apply K in Hc|]. left. exists c. split; [by left|done].
  - intros [(c' & [->|Hc] & E & <-)|[Hc _]]; [right; split; [done|done]|by apply K in Hc|by destruct (Hc c); [left|]].
  - intros [(c' & Hc & E)|[Hc E]]; [left; exists c'; split; [by right|done]|right; split; [|done]; intros c' [<-|Hc']; [done|by apply Hc]].
  - intros [(c' & [->|Hc] & E & Es)|[Hc E]]; [done|left; by exists c'|right; split; [|done]; intros c' Hc'; apply Hc; by right].
Qed.

Lemma statesOf_spec cs : NoDup (map name cs) -> OMap.wf (statesOf cs) /\ forall nm s, OMap.find nm (statesOf cs) = Some s <-> hasState cs nm s.
Proof. intros N. destruct (fold_states cs [] OMap.wf_nil N) as [W F]. split; [exact W|]. intros nm s. unfold statesOf. rewrite F. split; [by intros [H|[_ H]]|by left]. Qed.

Lemma names_unique cs c c' : NoDup (map name cs) -> In c cs -> In c' cs -> name c = name c' -> c = c'.
Proof.
  induction cs as [|a cs IH]; cbn [map]; [done|]. intros [Na N]%NoDup_cons. assert (K : forall c, In c cs -> name c <> name a) by (intros x Hx E; apply Na; apply list_elem_of_In, in_map_iff; by exists x).
  intros [<-|H] [<-|H'] E; [done| | |by apply IH]; exfalso; eapply K; eauto.
Qed.

Lemma hasState_unique cs nm s c : NoDup (map name cs) -> hasState cs nm s -> In c cs -> name c = nm -> state c = s.
Proof. intros N (c' & Hc' & <- & <-) Hc E. by rewrite (names_unique cs c c'). Qed.

Lemma containerTrap_started prev c nm j :
  In (ContainerStarted, nm, j) (containerTrap prev c) <-> name c = nm /\ jid c = j /\ state c = 1 /\ OMap.find (name c) prev <> Some 1.
Proof.
  unfold containerTrap. destruct (OMap.find (name c) prev) as [s|].
  - destruct (Z.eqb_spec s (state c)), (Z.eqb_spec (state c) 1); cbn [negb]; [| | |destruct ((state c =? 0) || (state c =? 3))]; cbn; intuition congruence.
  - destruct (Z.eqb_spec (state c) 1); cbn; intuition congruence.
Qed.

Lemma containerTrap_stopped prev c nm j :
  In (ContainerStopped, nm, j) (containerTrap prev c) <->
  name c = nm /\ jid c = j /\ exists s, OMap.find (name c) prev = Some s /\ state c <> s /\ (state c = 0 \/ state c = 3).
Proof.
  unfold containerTrap. destruct (OMap.find (name c) prev) as [s|]; cycle 1.
  { destruct (state c =? 1); cbn; (split; [intuition congruence|intros (_ & _ & s & [=] & _)]). }
  assert (E : (exists s', Some s = Some s' /\ state c <> s' /\ (state c = 0 \/ state c = 3)) <-> state c <> s /\ (state c = 0 \/ state c = 3)).
  { split; [by intros (s' & [= <-] & H)|intros H; by exists s]. }
  rewrite E. clear E. destruct (Z.eqb_spec s (state c)), (Z.eqb_spec (state c) 1), (Z.eqb_spec (state c) 0), (Z.eqb_spec (state c) 3); cbn [negb orb In]; intuition (congruence || lia).
Qed.

Lemma goneTrap_In cs p t : In t (goneTrap cs p) <-> t = (ContainerStopped, fst p, 0) /\ forall c, In c cs -> name c <> fst p.
Proof.
  unfold goneTrap. destruct (existsb _ cs) eqn:E.
  - apply existsb_exists in E as (c & Hc & E%bool_decide_eq_true). split; [done|]. intros [_ H]. by destruct (H c).
  - split; [intros [<-|[]]|intros [-> _]; by left]. split; [done|]. intros c Hc Hn.
    assert (existsb (fun c => bool_decide (name c = fst p)) cs = true) by (apply existsb_exists; exists c; split; [done|by apply bool_decide_eq_true]). congruence.
Qed.

(** Between two collections that list no name twice, the traps say exactly what
    changed: a "started" trap is sent for a container (with its jid) iff it is
    running now and was not listed as running before, and a "stopped" trap iff
    it was listed before and is now either gone or stopped or dying with
    another state than before; the states remembered for the next time are
    those of the second collection. *)
Theorem traps_report_changes before after : NoDup (map name before) -> NoDup (map name after) ->
  let '(traps, next) := checkTraps (statesOf before) after in
  next = statesOf after
  /\ (forall nm j, In (ContainerStarted, nm, j) traps <-> (exists c, In c after /\ name c = nm /\ jid c = j /\ state c = 1) /\ ~ hasState before nm 1)
  /\ (forall nm, (exists j, In (ContainerStopped, nm, j) traps) <->
        exists s, hasState before nm s /\ ((forall c, In c after -> name c <> nm) \/ exists s', hasState after nm s' /\ s' <> s /\ (s' = 0 \/ s' = 3))).
Proof.
  intros Nb Na. unfold checkTraps. destruct (statesOf_spec before Nb) as [W F]. split; [done|]. split.
  - intros nm j. rewrite in_app_iff, !in_flat_map. split.
    + intros [(c & Hc & (E & Ej & Es & Hn)%containerTrap_started)|(p & _ & [[=] _]%goneTrap_In)]. split; [by exists c|]. by rewrite <- F, <- E.
    + intros [(c & Hc & E & Ej & Es) Hn]. left. exists c. split; [done|]. apply containerTrap_started. rewrite <- F, <- E in Hn. done.
  - intros nm. setoid_rewrite in_app_iff. setoid_rewrite in_flat_map. split.
    + intros (j & [(c & Hc & (E & _ & s & Hs & Hn & H3)%containerTrap_stopped)|([nm' s] & Hp & [[= -> ->] Hg]%goneTrap_In)]).
      * exists s. rewrite <- F, <- E. split; [done|right]. exists (state c). split; [by exists c|done].
      * exists s. split; [apply F, (OMap.find_In _ _ _ W), Hp|by left].
    + intros (s & Hs & [Hg|(s' & (c & Hc & E & Es) & Hn & H3)]).
      * exists 0. right. exists (nm, s). split; [by apply (OMap.find_In _ _ _ W), F|by apply goneTrap_In].
      * exists (jid c). left. exists c. split; [done|]. apply containerTrap_stopped. split; [done|]. split; [done|]. exists s. rewrite E, Es. split; [by apply F|done].
Qed.

(** A dying jail is reported when it starts to die and again when it is
    gone. *)
Example stop_reported_twice :
  let web s := [found (str "web") 7 s] in
  fst (checkTraps (statesOf (web 1)) (web 3)) = [(ContainerStopped, str "web", 7)]
  /\ fst (checkTraps (statesOf (web 3)) []) = [(ContainerStopped, str "web", 0)].
Proof. split; reflexivity. Qed.

(** The first collection is not compared with anything, and the second with
    nothing remembered: every container already running when the daemon starts
    is reported as started then. *)
Example start_reported_late h st :
  prevStates (begun h 0 st) = [] /\ fst (checkTraps [] [found (str "web") 7 1]) = [(ContainerStarted, str "web", 7)].
Proof. split; reflexivity. Qed.

(** A session of jail-web2 is given to the container web. *)
Example session_of_another_container g : GuiRegistry.jailName g = str "jail-web2-1a2b" ->
  mergeGui g [found (str "web") 7 1; found (str "web2") 8 1]
  = [(found (str "web") 7 1) <| vncPort := i32 (GuiRegistry.vncPort g) |> <| wsPort := i32 (GuiRegistry.wsPort g) |> <| guiMode := GuiRegistry.mode g |>;
     found (str "web2") 8 1].
Proof. intros E. cbn [mergeGui]. unfold guiMatches. rewrite E. reflexivity. Qed.

Lemma traps_report_changes_witness :
  In (ContainerStarted, str "db", 9) (fst (checkTraps (statesOf [found (str "web") 7 1]) [found (str "db") 9 1]))
  /\ exists j, In (ContainerStopped, str "web", j) (fst (checkTraps (statesOf [found (str "web") 7 1]) [found (str "db") 9 1])).
Proof.
  destruct (traps_report_changes [found (str "web") 7 1] [found (str "db") 9 1]) as (_ & S & G);
    [apply (bool_decide_unpack _); vm_compute; exact I|apply (bool_decide_unpack _); vm_compute; exact I|]. split.
  - apply S. split; [exists (found (str "db") 9 1); split; [by left|done]|]. intros (c & [<-|[]] & [=] & _).
  - apply G. exists 1. split; [exists (found (str "web") 7 1); split; [by left|done]|left]. intros c [<-|[]] [=].
Defined.

(** ** Reconnecting *)

(** The waits are 1, 2, 4, 8, 16, 32 seconds and then 30 each. *)
Definition waits (d : Daemon) : Prop := In (backoffSec d) [1; 2; 4; 8; 16; 32; 30].

(** [T] bounds the clock so far. *)
Definition due (T : Z) (d : Daemon) : Prop := waits d /\ nextReconnect d <= T + 32.

Lemma pump_due T t d : T <= now0 t -> due T d -> due (now0 t) (snd (pump t d)).
Proof.
  unfold due, waits. cbn [In]. intros HT [W N]. unfold pump. destruct (connected (mib d)).
  - destruct (dispatchOnce _ _ _ _) as [[[out s] st] ok]. cbn. intuition lia.
  - unfold reconnect. destruct (Z.ltb_spec (now0 t) (nextReconnect d)); [cbn; lia|]. destruct (initAgentX _ _ _ _ _) as [[out st] ok].
    destruct ok; [destruct (registerMib _ _ _) as [out' st']|]; cbn; [lia|]. destruct (Z.leb_spec 30 (backoffSec d)); lia.
Qed.

Lemma poll_due T i t d : T <= now t -> due T d -> due (now t) (snd (poll i t d)).
Proof. unfold poll, due, waits. intros HT [W N]. destruct (i <=? u32 (now t - lastCollect d)); cbn [snd]; (split; [exact W|]); cbn in *; lia. Qed.

Lemma turn_due T i t d : T <= now0 t -> now0 t <= now t -> due T d -> due (now t) (snd (turn i t d)).
Proof.
  intros H0 H1 D. unfold turn. pose proof (pump_due T t d H0 D) as P. destruct (pump t d) as [a d1]. cbn in P.
  pose proof (poll_due _ i t d1 H1 P) as Q. by destruct (poll i t d1) as [b d2].
Qed.

(** A clock that does not run backwards. *)
Fixpoint forwards (T : Z) (ts : list Turn) : Prop :=
  match ts with [] => True | t :: rest => T <= now0 t /\ now0 t <= now t /\ forwards (now t) rest end.

Definition endTime (T : Z) (ts : list Turn) : Z := fold_left (fun _ t => now t) ts T.

Lemma turns_due i ts T d : forwards T ts -> due T d -> due (endTime T ts) (snd (turns i ts d)).
Proof.
  revert T d. induction ts as [|t ts IH]; intros T d F D; [done|]. destruct F as (H0 & H1 & F). cbn [turns endTime fold_left].
  pose proof (turn_due T i t d H0 H1 D) as P. destruct (turn i t d) as [a d1]. specialize (IH (now t) d1 F P). by destruct (turns i ts d1) as [r d2].
Qed.

(** A master agent that takes connections: it answers the Open request. *)
Definition masterBack (t : Turn) : Prop := connects t = true /\ sendsOpen t = true /\ readResponse (openAnswer t) <> None.

Lemma registerMib_connected w s st : connected (snd (registerMib w s st)) = connected st.
Proof. unfold registerMib, registerSubtree. by destruct (connected st) eqn:E; cbn; rewrite ?E. Qed.

(** Collecting touches nothing of the connection. *)
Definition sameLink (d d' : Daemon) : Prop :=
  connected (mib d') = connected (mib d) /\ backoffSec d' = backoffSec d /\ nextReconnect d' = nextReconnect d.

Lemma poll_link i t d : sameLink d (snd (poll i t d)) /\ ~ In Connects (fst (poll i t d)).
Proof.
  unfold poll. destruct (i <=? u32 (now t - lastCollect d)); [|split; [done|by intros []]]. destruct (checkTraps _ _) as [traps prev]. split; [done|].
  cbn [fst]. by intros (x & [=] & _)%in_map_iff.
Qed.

Lemma reconnects t d : nextReconnect d <= now0 t -> masterBack t -> connected (mib d) = false ->
  In Connects (fst (pump t d)) /\ connected (mib (snd (pump t d))) = true /\ backoffSec (snd (pump t d)) = 1.
Proof.
  intros H (C & S & R) Hc. unfold pump, reconnect. rewrite Hc. destruct (Z.ltb_spec (now0 t) (nextReconnect d)); [lia|].
  unfold initAgentX. rewrite C, S. cbn [negb]. cbv iota zeta. destruct (readResponse (openAnswer t)) as [[h s]|]; [|done].
  pose proof (registerMib_connected (sendsRegister t) (registerAnswer t)
    ((((mib d) <| g_hostname := hostname t |>) <| g_transactionId ::= fun x => u32 (x + 1) |>) <| connected := true |> <| g_sessionId := sessionId h |>)) as E.
  cbn [connected] in E. destruct (registerMib _ _ _) as [out' st']. cbn in *. split; [by left|]. by split.
Qed.

(** A turn before the time does not try, and does not put the time off. *)
Lemma waiting i t d : connected (mib d) = false -> now0 t < nextReconnect d ->
  ~ In Connects (fst (turn i t d)) /\ sameLink d (snd (turn i t d)).
Proof.
  intros Hc Hn. unfold turn, pump, reconnect. rewrite Hc. destruct (Z.ltb_spec (now0 t) (nextReconnect d)); [|lia].
  destruct (poll_link i t d) as [L N]. by destruct (poll i t d) as [b d2].
Qed.

Lemma reconnecting i t d : nextReconnect d <= now0 t -> masterBack t -> connected (mib d) = false ->
  let '(acts, d') := turn i t d in In Connects acts /\ connected (mib d') = true /\ backoffSec d' = 1.
Proof.
  intros Hn M Hc. destruct (reconnects t d) as (A & C & B); [done..|]. unfold turn. destruct (pump t d) as [a d1]. cbn [fst snd] in *.
  destruct (poll_link i t d1) as [(C' & B' & _) _]. destruct (poll i t d1) as [b d2]. cbn [snd] in *. split; [apply in_app_iff; by left|]. split; congruence.
Qed.

(** A daemon without a connection waits through [pre], then connects at [u]. *)
Definition recovers (i : Z) (d : Daemon) (pre : list Turn) (u : Turn) : Prop :=
  let '(waited, d1) := turns i pre d in
  Forall (fun acts => ~ In Connects acts) waited
  /\ let '(acts, d2) := turn i u d1 in In Connects acts /\ connected (mib d2) = true /\ backoffSec d2 = 1.

Lemma run_recovers i us d : connected (mib d) = false -> Forall masterBack us -> Exists (fun t => nextReconnect d <= now0 t) us ->
  exists pre u post, us = pre ++ u :: post /\ Forall (fun t => now0 t < nextReconnect d) pre /\ nextReconnect d <= now0 u /\ recovers i d pre u.
Proof.
  revert d. induction us as [|t us IH]; intros d Hc M E; [by apply Exists_nil in E|]. apply Forall_cons in M as [Mt M].
  destruct (Z.le_gt_cases (nextReconnect d) (now0 t)) as [Hn|Hn].
  - exists [], t, us. split; [done|]. split; [constructor|]. split; [done|]. unfold recovers. cbn [turns]. split; [constructor|]. by apply reconnecting.
  - apply Exists_cons in E as [E|E]; [lia|]. destruct (waiting i t d Hc Hn) as (Nc & C & _ & N).
    destruct (IH (snd (turn i t d))) as (pre & u & post & -> & P & Hu & R); [congruence|done|by rewrite N|]. rewrite N in P, Hu.
    exists (t :: pre), u, post. split; [done|]. split; [by constructor|]. split; [done|]. unfold recovers in *. cbn [turns].
    destruct (turn i t d) as [a d1]. cbn [fst snd] in *. destruct (turns i pre d1) as [w d2]. destruct R as [W R]. split; [by constructor|done].
Qed.

(** C29: The daemon recovers from a lost connection.  Take any history of the
    loop on a clock that does not run backwards, with the connection lost and
    attempts failing in it as often as you like, after which the daemon is not
    connected; and any further turns, however close to each other, at all of which the
    master agent takes connections, the clock of one of them being at least 32
    seconds past the end of the history.  Then the first of these turns whose
    clock has come to the time set for the next attempt, which is at most those
    32 seconds away, connects, leaves the daemon connected and resets the wait to one
    second; the turns before it make no attempt, and their clocks have not come to that
    time. *)
Theorem daemon_recovers i h st T ts us : 0 <= T -> forwards T ts ->
  let d := snd (turns i ts (begun h T st)) in
  connected (mib d) = false -> Forall masterBack us -> Exists (fun t => endTime T ts + 32 <= now0 t) us ->
  nextReconnect d <= endTime T ts + 32
  /\ exists pre u post, us = pre ++ u :: post /\ Forall (fun t => now0 t < nextReconnect d) pre /\ nextReconnect d <= now0 u /\ recovers i d pre u.
Proof.
  intros HT F d Hc M E. destruct (turns_due i ts T (begun h T st) F) as [_ N]; [split; [unfold waits|]; cbn; lia|]. fold d in N.
  split; [exact N|]. apply run_recovers; [done..|]. eapply Exists_impl; [exact E|]. cbn. lia.
Qed.

Definition idle (time : Z) (up : bool) : Turn := {|
  now0 := time; now := time; connects := up; sendsOpen := true; sendsRegister := true; hostname := str "host";
  openAnswer := {| pending := frame PDU_RESPONSE 5 1 []; breaks := false |}; registerAnswer := {| pending := frame PDU_RESPONSE 5 2 []; breaks := false |};
  select := Idle; writes := true; socket := {| pending := []; breaks := false |}; host := {| jls := None; rctl := fun _ => None; sessions := None |} |}.

Definition lost : State := {|
  connected := false; g_sessionId := 5; g_transactionId := 2; g_containers := []; g_totalCount := 0; g_runningCount := 0; g_version := []; g_hostname := [] |}.

Lemma daemon_recovers_witness :
  let d := snd (turns 30 (map (fun n => idle n false) [1; 2; 4; 8; 16; 32; 64]) (begun (host (idle 0 false)) 0 lost)) in
  let us := map (fun n => idle n true) [64; 65; 66; 80; 93; 94; 95; 96] in
  backoffSec d = 30 /\ nextReconnect d = 94
  /\ exists pre u post, us = pre ++ u :: post /\ Forall (fun t => now0 t < nextReconnect d) pre /\ nextReconnect d <= now0 u /\ recovers 30 d pre u.
Proof.
  cbv zeta. split; [vm_compute; reflexivity|]. split; [vm_compute; reflexivity|].
  apply (daemon_recovers 30 (host (idle 0 false)) lost 0 (map (fun n => idle n false) [1; 2; 4; 8; 16; 32; 64])
    (map (fun n => idle n true) [64; 65; 66; 80; 93; 94; 95; 96])); [lia|cbn; lia|vm_compute; reflexivity| |].
  - repeat constructor; (vm_compute; discriminate).
  - do 7 apply Exists_cons_tl. apply Exists_cons_hd. cbn. lia.
Defined.

(** The sixth wait is longer than the others' limit. *)
Example sixth_wait :
  nextReconnect (snd (turns 30 (map (fun n => idle n false) [0; 1; 3; 7; 15; 31]) (begun (host (idle 0 false)) 0 lost))) = 31 + 32.
Proof. vm_compute. reflexivity. Qed.
End Snmpd.
