(* ===== verification/JailAudit.v ===== *)
(** * The jail auditor: lib/jail_audit_pure.cpp, doctor_pure.cpp, jail_audit.cpp

    [crate audit] runs one shell script inside a jail and judges what it
    prints: sections of tool output behind marker lines.  Doctor is the model of
    checks and reports it shares with [crate doctor]. *)

From S2P Require Import Prelude CStd OMap RecordUpd Wire NetAddr.

Module Doctor.
Import CStd.

Inductive Severity := Pass | Warn | Fail.
#[global] Instance Severity_eq_dec : EqDecision Severity.
Proof. solve_decision. Defined.

Record Check_ := { category : bytes; name : bytes; severity : Severity; detail : bytes }.
Definition Report : Type := list Check_.

Definition severityLabel (s : Severity) : bytes := match s with Pass => str "PASS" | Warn => str "WARN" | Fail => str "FAIL" end.

Definition passCheck (c n : string) (d : bytes) : Check_ := {| category := str c; name := str n; severity := Pass; detail := d |}.
Definition warnCheck (c n : string) (d : bytes) : Check_ := {| category := str c; name := str n; severity := Warn; detail := d |}.
Definition failCheck (c n : string) (d : bytes) : Check_ := {| category := str c; name := str n; severity := Fail; detail := d |}.

(** The same with a computed name. *)
Definition named (n : bytes) (c : Check_) : Check_ := {| category := category c; name := n; severity := severity c; detail := detail c |}.

Record Counts := { pass : Z; warn : Z; fail : Z }.

Definition countOf (s : Severity) (r : Report) : Z := size_z (List.filter (fun c => bool_decide (severity c = s)) r).
Definition tally (r : Report) : Counts := {| pass := countOf Pass r; warn := countOf Warn r; fail := countOf Fail r |}.

Definition exitCodeFor (r : Report) : Z := let c := tally r in if 0 <? fail c then 2 else if 0 <? warn c then 1 else 0.

Definition categories : list string := ["kernel"; "command"; "filesystem"; "zfs"; "config"; "jails"; "audit"; "auto-fw"; "network"; "gui"; "native-api";
  "probe"; "jail"; "mounts"; "devfs"; "interfaces"; "sockets"; "processes"; "connectivity"]%string.

Fixpoint rankIn (c : bytes) (l : list string) (i : Z) : Z :=
  match l with [] => 100 | x :: t => if beq c (str x) then i else rankIn c t (i + 1) end.
Definition categoryRank (c : bytes) : Z := rankIn c categories 0.

Definition esc : bytes := [chr 27].
Definition colourFor (s : Severity) (noColor : bool) : bytes :=
  if noColor then [] else esc ++ match s with Pass => str "[32m" | Warn => str "[33m" | Fail => str "[31m" end.
Definition resetColour (noColor : bool) : bytes := if noColor then [] else esc ++ str "[0m".

Definition before (a b : Check_) : bool :=
  let ra := categoryRank (category a) in
  let rb := categoryRank (category b) in
  if negb (ra =? rb) then ra <? rb
  else if negb (beq (category a) (category b)) then bytes_ltb (category a) (category b)
  else bytes_ltb (name a) (name b).

(** [std::stable_sort]: elements that are not ordered keep their order. *)
Fixpoint insertStable {A} (lt : A -> A -> bool) (x : A) (l : list A) : list A :=
  match l with [] => [x] | y :: t => if lt y x then y :: insertStable lt x t else x :: l end.
Definition stable_sort {A} (lt : A -> A -> bool) (l : list A) : list A := fold_right (insertStable lt) [] l.

(** [std::left << std::setw(w)] *)
Definition padTo (w : nat) (s : bytes) : bytes := s ++ repeat " "%char (w - length s).

Definition nameWidth (l : list Check_) : nat := Nat.min 40 (fold_left (fun w c => Nat.max w (length (name c))) l 0%nat).

Fixpoint renderChecks (w : nat) (noColor : bool) (last : bytes) (l : list Check_) : bytes :=
  match l with
  | [] => []
  | c :: rest =>
      (if negb (beq (category c) last) then (if negb (is_empty last) then [newline] else []) ++ category c ++ str ":" ++ [newline] else [])
      ++ str "  [" ++ colourFor (severity c) noColor ++ severityLabel (severity c) ++ resetColour noColor ++ str "] " ++ padTo w (name c)
      ++ (if negb (is_empty (detail c)) then str "  " ++ detail c else []) ++ [newline]
      ++ renderChecks w noColor (category c) rest
  end.

Definition renderText (r : Report) (noColor : bool) : bytes :=
  let checks := stable_sort before r in
  let c := tally r in
  let part s n label := colourFor s noColor ++ dec_signed n ++ str label ++ resetColour noColor in
  renderChecks (nameWidth checks) noColor [] checks
  ++ [newline] ++ str "Summary: " ++ part Pass (pass c) " PASS" ++ str ", " ++ part Warn (warn c) " WARN" ++ str ", " ++ part Fail (fail c) " FAIL" ++ [newline].

(** A text with [~] for the double quote. *)
Definition qstr (s : string) : bytes := map (fun c => if Ascii.eqb c "~" then dquote else c) (str s).

Definition checkJson (c : Check_) : bytes :=
  qstr "{~category~:~" ++ Json.escape (category c) ++ qstr "~,~name~:~" ++ Json.escape (name c) ++ qstr "~,~severity~:~" ++ severityLabel (severity c)
  ++ qstr "~,~detail~:~" ++ Json.escape (detail c) ++ qstr "~}".

Definition renderJson (r : Report) : bytes :=
  let c := tally r in
  qstr "{~checks~:[" ++ joined (str ",") (map checkJson r) ++ qstr "],~summary~:{~pass~:" ++ dec_signed (pass c) ++ qstr ",~warn~:" ++ dec_signed (warn c)
  ++ qstr ",~fail~:" ++ dec_signed (fail c) ++ str "}}".
End Doctor.

Module JailAudit.
Import CStd Doctor.

(** ** Helpers *)

Definition trim (s : bytes) : bytes := rev (skipSpace (rev (skipSpace s))).

(** Lines without their carriage returns. *)
Definition lines (text : bytes) : list bytes := getlines (List.filter (fun c => negb (Ascii.eqb c cr)) text).

Definition lower (s : bytes) : bytes := map tolower s.

(** [join(v, sep, max)]; [max = 0] is no limit. *)
Definition join (v : list bytes) (sep : bytes) (max : nat) : bytes :=
  let n := if negb (max =? 0)%nat && (max <? length v)%nat then max else length v in
  joined sep (take n v) ++ (if (n <? length v)%nat then sep ++ str "… (" ++ dec (Z.of_nat (length v - n)) ++ str " more)" else []).

Definition toInt (s : bytes) (dflt : Z) : Z :=
  if is_empty s then dflt
  else if forallb (fun c => is_digit c || Ascii.eqb c "-") s then default dflt (stoi s)
  else dflt.

Definition under (p dir : bytes) : bool :=
  if beq dir (str "/") then starts_with (str "/") p else beq p dir || starts_with (dir ++ str "/") p.

(** ** The probe *)

Definition line (s : string) : bytes := qstr s ++ [newline].

Definition probeScript (offline : bool) (dnsName : bytes) : bytes :=
  line "PATH=/sbin:/bin:/usr/sbin:/usr/bin; export PATH"
  ++ line "echo @@id; id 2>&1"
  ++ line "echo @@sysctl; sysctl -e kern.securelevel kern.hostname kern.hostid kern.hostuuid kern.osrelease security.jail 2>/dev/null"
  ++ line "echo @@mount; mount -p 2>&1"
  ++ line "echo @@ifconfig; ifconfig -a 2>&1"
  ++ line "echo @@routes; netstat -rn -f inet 2>/dev/null; netstat -rn -f inet6 2>/dev/null"
  ++ line "echo @@dev; ls -1 /dev 2>&1"
  ++ line "echo @@sockets; sockstat -l 2>&1"
  ++ line "echo @@fssockets; find /tmp /var/run /var/tmp -maxdepth 3 -type s 2>/dev/null"
  ++ line "echo @@ps; ps -axo user=,pid=,ucomm= 2>&1"
  ++ line "echo @@resolv; cat /etc/resolv.conf 2>/dev/null"
  ++ line "gw=$(netstat -rn -f inet 2>/dev/null | awk '$1==~default~{print $2; exit}')"
  ++ line "echo ~@@gw $gw~"
  ++ (if negb offline then
        line "case ~$gw~ in"
        ++ line "  ''|*[!0-9.]*) echo @@connect; echo @@rc=255 ;;"
        ++ line "  *) echo @@connect; nc -z -w 3 ~$gw~ 22 2>&1; echo ~@@rc=$?~ ;;"
        ++ line "esac"
        ++ qstr "echo @@dns; drill -Q A '" ++ dnsName ++ line "' 2>&1; echo ~@@rc=$?~"
      else []).

(** ** The sections of its output *)

Definition Sections : Type := list (bytes * bytes).

Definition sec (s : Sections) (k : string) : bytes := default [] (OMap.find (str k) s).

(** The current section (empty: none yet) and what was read. *)
Definition onLine (st : bytes * Sections) (raw : bytes) : bytes * Sections :=
  let '(cur, s) := st in
  if starts_with (str "@@") raw then
    let marker := trim (drop 2 raw) in
    if starts_with (str "rc=") marker
    then (cur, if is_empty cur then s else OMap.insert (cur ++ str ".rc") (trim (drop 3 marker)) s)
    else
      let '(nm, arg) := match find_char " " marker with None => (marker, []) | Some sp => (take sp marker, trim (drop (S sp) marker)) end in
      if is_empty nm then (cur, s) else (nm, OMap.insert nm (if is_empty arg then [] else arg ++ [newline]) s)
  else if is_empty cur then (cur, s)
  else (cur, OMap.insert cur (default [] (OMap.find cur s) ++ raw ++ [newline]) s).

Definition splitSections (out : bytes) : Sections := snd (fold_left onLine (lines out) ([], [])).

(** ** The sections *)

Record Mount := { special : bytes; node : bytes; fstype : bytes; opts : bytes; readOnly : bool }.

Definition mountOf (l : bytes) : list Mount :=
  match words l with
  | sp :: nd :: ft :: op :: _ => [{| special := sp; node := nd; fstype := ft; opts := op; readOnly := existsb (beq (str "ro")) (split_on "," op) |}]
  | _ => []
  end.
Definition parseMountP (text : bytes) : list Mount := flat_map mountOf (lines text).

Record Iface := { if_name : bytes; up : bool; inet : list bytes; inet6 : list bytes }.
#[global] Instance eta_Iface : Eta Iface := fun i => {| if_name := if_name i; up := up i; inet := inet i; inet6 := inet6 i |}.

(** [l.find(c, from)] *)
Definition find_from (c : ascii) (from : nat) (l : bytes) : option nat := (fun i => (from + i)%nat) <$> find_char c (drop from l).

Definition flagUp (l : bytes) (colon : nat) : bool :=
  match find_from "<" colon l, find_from ">" colon l with
  | Some lt, Some gt => (lt <? gt)%nat && existsb (beq (str "UP")) (split_on "," (take (gt - lt - 1) (drop (S lt) l)))
  | _, _ => false
  end.

(** The list backwards: its head is [out.back()]. *)
Definition onIfLine (out : list Iface) (l : bytes) : list Iface :=
  match l with
  | [] => out
  | c :: _ =>
      if negb (is_space c) then
        match find_sub (str ": flags=") l with
        | None => out
        | Some colon => {| if_name := take colon l; up := flagUp l colon; inet := []; inet6 := [] |} :: out
        end
      else match out, words l with
           | i :: rest, key :: a :: _ =>
               if beq key (str "inet") then i <| inet ::= fun v => v ++ [a] |> :: rest
               else if beq key (str "inet6") then i <| inet6 ::= fun v => v ++ [match find_char "%" a with Some p => take p a | None => a end] |> :: rest
               else out
           | _, _ => out
           end
  end.
Definition parseIfconfig (text : bytes) : list Iface := rev (fold_left onIfLine (lines text) []).

Record Routes := { gw4 : bytes; gw6 : bytes }.
Definition onRoute (r : Routes) (l : bytes) : Routes :=
  match words l with
  | d :: g :: _ =>
      if negb (beq d (str "default")) then r
      else if has_char ":" g then (if is_empty (gw6 r) then {| gw4 := gw4 r; gw6 := g |} else r)
      else if is_empty (gw4 r) then {| gw4 := g; gw6 := gw6 r |} else r
  | _ => r
  end.
Definition parseDefaultRoutes (text : bytes) : Routes := fold_left onRoute (lines text) {| gw4 := []; gw6 := [] |}.

Definition parseLines (text : bytes) : list bytes := List.filter (fun t => negb (is_empty t)) (map trim (lines text)).

Record Socket := { s_user : bytes; s_command : bytes; s_pid : Z; proto : bytes; local : bytes; foreign : bytes }.
Definition sockOf (l : bytes) : list Socket :=
  match words l with
  | u :: c :: p :: _ :: pr :: lo :: rest =>
      if beq u (str "USER") then []
      else [{| s_user := u; s_command := c; s_pid := toInt p 0; proto := pr; local := lo; foreign := match rest with f :: _ => f | [] => [] end |}]
  | _ => []
  end.
Definition parseSockstat (text : bytes) : list Socket := flat_map sockOf (lines text).

Definition onSysctl (m : list (bytes * bytes)) (l : bytes) : list (bytes * bytes) :=
  let put pos skip :=
    let key := trim (take pos l) in
    if is_empty key || starts_with (str "security.jail.param") key then m else OMap.insert key (trim (drop (pos + skip) l)) m in
  match find_char "=" l, find_sub (str ": ") l with
  | None, None => m
  | Some eq, None => put eq 1%nat
  | None, Some colon => put colon 2%nat
  | Some eq, Some colon => if (eq <? colon)%nat then put eq 1%nat else put colon 2%nat
  end.
Definition parseSysctl (text : bytes) : list (bytes * bytes) := fold_left onSysctl (lines text) [].

Record Proc := { p_user : bytes; p_pid : Z; p_command : bytes }.
Definition procOf (l : bytes) : list Proc :=
  match words l with
  | u :: p :: _ :: _ => if toInt p (-1) <? 0 then [] else [{| p_user := u; p_pid := toInt p (-1); p_command := joined (str " ") (drop 2 (words l)) |}]
  | _ => []
  end.
Definition parsePs (text : bytes) : list Proc := flat_map procOf (lines text).

Definition parseResolvConf (text : bytes) : list bytes :=
  flat_map (fun l => match words l with k :: v :: _ => if beq k (str "nameserver") then [v] else [] | _ => [] end) (lines text).

(** ** Classification *)

Inductive Reach := Open_ | Refused | Unreachable | Unknown.

Definition classifyNc (rc : Z) (text : bytes) : Reach :=
  let t := lower text in
  let has s := has_sub (str s) t in
  if (rc =? 0) || has "succeeded"%string then Open_
  else if has "refused"%string then Refused
  else if has "timed out"%string || has "no route"%string || has "unreachable"%string || has "permission denied"%string then Unreachable
  else Unknown.

Definition reachLabel (r : Reach) : bytes :=
  match r with Open_ => str "open" | Refused => str "refused" | Unreachable => str "unreachable" | Unknown => str "unknown" end.

Inductive Class := Gpu | Video | Sound | Input | Usb | Serial | Disks | Raw | Net | Other.
#[global] Instance Class_eq_dec : EqDecision Class.
Proof. solve_decision. Defined.

Definition classOf (n : bytes) : Class :=
  let any l := existsb (fun p => starts_with (str p) n) l in
  let named_ l := existsb (fun e => beq n (str e)) l in
  if named_ ["dri"]%string || any ["drm"; "nvidia"]%string then Gpu
  else if any ["video"]%string then Video
  else if named_ ["sndstat"]%string || any ["dsp"; "mixer"; "audio"; "midi"]%string then Sound
  else if named_ ["input"; "sysmouse"]%string || any ["kbd"; "ukbd"; "atkbd"; "kbdmux"; "ums"; "uhid"; "joy"; "psm"; "ttyv"]%string then Input
  else if named_ ["usb"; "usbctl"]%string || any ["ugen"]%string then Usb
  else if any ["cua"; "ttyu"; "ttyU"]%string then Serial
  else if named_ ["gpt"; "diskid"; "ufs"; "ufsid"; "label"; "zvol"; "mdctl"]%string || any ["ada"; "da"; "nvd"; "nda"; "md"; "cd"; "geom"]%string then Disks
  else if named_ ["mem"; "kmem"; "io"; "pf"; "kvm"]%string || any ["bpf"]%string then Raw
  else if named_ ["net"; "netmap"]%string || any ["tun"; "tap"]%string then Net
  else Other.

(** The names of a class, in order; [Other] is only counted. *)
Definition classifyDevices (names : list bytes) (c : Class) : list bytes := List.filter (fun n => bool_decide (classOf n = c)) names.

Definition better (path : bytes) (best : option Mount) (m : Mount) : option Mount :=
  if negb (beq (fstype m) (str "nullfs")) then best
  else if negb (under path (node m)) then best
  else match best with
       | None => Some m
       | Some b => if (length (node b) <? length (node m))%nat then Some m else best
       end.
Definition hostMountFor (path : bytes) (mounts : list Mount) : option Mount := fold_left (better path) mounts None.

(** [while (p.size() > 1 && p.back() == '/') p.pop_back();], on the reversed
    path. *)
Fixpoint dropSlashes (r : bytes) : bytes :=
  match r with c :: ((_ :: _) as t) => if Ascii.eqb c "/" then dropSlashes t else r | _ => r end.

Definition wide : list string := ["/"; "/home"; "/usr/home"; "/root"; "/etc"; "/usr"; "/var"; "/usr/local"; "/usr/local/etc"; "/var/run"; "/var/db"; "/boot"]%string.

Definition homeRoot (p base : bytes) : bool :=
  starts_with base p && let rest := drop (length base) p in negb (is_empty rest) && negb (has_char "/" rest).

Definition isWideHostPath (hostPath : bytes) : bool :=
  let p := rev (dropSlashes (rev hostPath)) in
  existsb (fun w => beq p (str w)) wide || homeRoot p (str "/home/") || homeRoot p (str "/usr/home/").

(** ** The report *)

Record HostContext := { jailName : bytes; jid : Z; hostHostid : bytes; hostHostname : bytes; offline : bool; dnsName : bytes }.

Definition firstLine (text : bytes) : bytes := match parseLines text with l :: _ => l | [] => [] end.

Definition jailChecks (m : list (bytes * bytes)) (ctx : HostContext) : Report :=
  let on k (f : bytes -> Check_) := match OMap.find (str k) m with Some v => [f v] | None => [] end in
  let one v (a b : Check_) := if beq v (str "1") then a else b in
  match OMap.find (str "security.jail.jailed") m with
  | Some v => [one v (passCheck "jail" "jailed" (str "security.jail.jailed=1"))
                     (failCheck "jail" "jailed" (str "security.jail.jailed=" ++ v ++ str " — the probe did not run inside a jail"))]
  | None => [warnCheck "jail" "jailed" (str "security.jail.jailed not reported by sysctl(8) in the jail")]
  end
  ++ on "kern.hostname"%string (fun v => if negb (is_empty (hostHostname ctx)) && beq v (hostHostname ctx)
       then warnCheck "jail" "hostname" (v ++ str " — same as the host's") else passCheck "jail" "hostname" v)
  ++ on "kern.hostid"%string (fun v => if negb (is_empty (hostHostid ctx)) && beq v (hostHostid ctx) && negb (beq v (str "0"))
       then warnCheck "jail" "hostid" (str "kern.hostid " ++ v ++ str " — same as the host (identifies the machine to anything that reads it)")
       else passCheck "jail" "hostid" (str "kern.hostid " ++ v ++ (if is_empty (hostHostid ctx) then [] else str " (differs from the host)")))
  ++ on "kern.securelevel"%string (fun v => passCheck "jail" "securelevel" (str "kern.securelevel " ++ v))
  ++ on "kern.osrelease"%string (fun v => passCheck "jail" "osrelease" v)
  ++ on "security.jail.vnet"%string (fun v => passCheck "jail" "vnet" (if beq v (str "1") then str "own network stack (vnet)" else str "shared network stack (no vnet)"))
  ++ on "security.jail.allow_raw_sockets"%string (fun v => one v
       (warnCheck "jail" "raw-sockets" (str "allowed (allow.raw_sockets) — ping works, so does packet crafting")) (passCheck "jail" "raw-sockets" (str "denied")))
  ++ on "security.jail.mount_allowed"%string (fun v => one v
       (warnCheck "jail" "mount" (str "in-jail mount(8) allowed (allow.mount)")) (passCheck "jail" "mount" (str "in-jail mount(8) denied")))
  ++ on "security.jail.chflags_allowed"%string (fun v => one v
       (warnCheck "jail" "chflags" (str "allowed (allow.chflags) — system immutable flags can be cleared from inside")) (passCheck "jail" "chflags" (str "denied")))
  ++ on "security.jail.sysvipc_allowed"%string (fun v => passCheck "jail" "sysvipc" (if beq v (str "1") then str "SysV IPC allowed" else str "SysV IPC denied"))
  ++ on "security.jail.socket_unixiproute_only"%string (fun v => passCheck "jail" "socket-af"
       (if beq v (str "1") then str "unix, inet, inet6 and route sockets only" else str "all socket address families allowed (allow.socket_af)"))
  ++ on "security.jail.set_hostname_allowed"%string (fun v => passCheck "jail" "set-hostname" (if beq v (str "1") then str "jail may change its hostname" else str "hostname fixed"))
  ++ on "security.jail.enforce_statfs"%string (fun v => if beq v (str "0")
       then warnCheck "jail" "enforce-statfs" (str "0 — the host's whole mount table is visible from inside")
       else passCheck "jail" "enforce-statfs" (v ++ (if beq v (str "2") then str " (only the jail's own mounts visible)" else str " (mounts under the jail root visible)")))
  ++ on "security.jail.devfs_ruleset"%string (fun v => passCheck "jail" "devfs-ruleset" (str "ruleset " ++ v)).

Definition mountCheck (m : Mount) : Check_ :=
  let rw := if readOnly m then str "ro" else str "rw" in
  named (node m)
    (if beq (fstype m) (str "nullfs") then
       let d := str "nullfs " ++ rw ++ str " from host " ++ special m in
       if negb (readOnly m) && isWideHostPath (special m) then warnCheck "mounts" "" (d ++ str " — a whole host area, writable") else passCheck "mounts" "" d
     else if beq (fstype m) (str "procfs") then warnCheck "mounts" "" (str "procfs — process details of the jail; rarely needed, remove if unused")
     else if beq (fstype m) (str "zfs") then passCheck "mounts" "" (str "zfs " ++ rw ++ str " dataset " ++ special m)
     else passCheck "mounts" "" (fstype m ++ str " " ++ rw)).

Definition mountChecks (mounts : list Mount) : Report :=
  match mounts with [] => [warnCheck "mounts" "mount -p" (str "no mounts reported")] | _ => map mountCheck mounts end.

Definition classCheck (names : list bytes) (c : Class) (f : bytes -> Check_) : Report :=
  match classifyDevices names c with [] => [] | l => [f (join l (str ", ") 8)] end.

Definition devfsChecks (names : list bytes) : Report :=
  [passCheck "devfs" "entries" (dec (size_z names) ++ str " in /dev, " ++ dec (size_z (classifyDevices names Other)) ++ str " basic (null, zero, random, pts, fd...)")]
  ++ classCheck names Gpu (fun l => passCheck "devfs" "gpu" (l ++ str " — GPU access (gl)"))
  ++ classCheck names Video (fun l => passCheck "devfs" "video" (l ++ str " — camera / video capture"))
  ++ classCheck names Sound (fun l => passCheck "devfs" "sound" (l ++ str " — sound hardware (microphone included)"))
  ++ classCheck names Input (fun l => warnCheck "devfs" "input" (l ++ str " — keyboard, mouse or console devices: keystrokes of the host are readable"))
  ++ classCheck names Usb (fun l => passCheck "devfs" "usb" (l ++ str " — USB passthrough"))
  ++ classCheck names Serial (fun l => passCheck "devfs" "serial" (l ++ str " — serial ports"))
  ++ classCheck names Net (fun l => passCheck "devfs" "net" (l ++ str " — tun/tap (VPN inside the jail)"))
  ++ classCheck names Disks (fun l => warnCheck "devfs" "disks" (l ++ str " — raw disk devices: the host's filesystems are readable"))
  ++ classCheck names Raw (fun l => warnCheck "devfs" "raw" (l ++ str " — host memory / packet-filter devices visible")).

Definition ifaceCheck (i : Iface) : Check_ :=
  named (if_name i) (passCheck "interfaces" "" ((if up i then str "up" else str "down")
    ++ (match inet i with [] => [] | v => str ", inet " ++ join v (str " ") 0 end)
    ++ (match inet6 i with [] => [] | v => str ", inet6 " ++ join v (str " ") 4 end))).

Definition ifaceChecks (ifaces : list Iface) (r : Routes) : Report :=
  map ifaceCheck ifaces
  ++ [if is_empty (gw4 r) && is_empty (gw6 r) then passCheck "interfaces" "default-route" (str "none — no outbound network")
      else passCheck "interfaces" "default-route" ((if is_empty (gw4 r) then [] else str "via " ++ gw4 r)
        ++ (if is_empty (gw6 r) then [] else (if is_empty (gw4 r) then str "via " else str ", ") ++ gw6 r))].

Definition isInet (s : Socket) : bool := starts_with (str "tcp") (proto s) || starts_with (str "udp") (proto s).

Definition listenCheck (s : Socket) : Check_ :=
  named (str "listen " ++ proto s ++ str " " ++ local s)
    (passCheck "sockets" "" (s_command s ++ (if negb (s_pid s =? 0) then str " (pid " ++ dec_signed (s_pid s) ++ str ")" else []) ++ str " as " ++ s_user s)).

Definition hostSocketCheck (p : bytes) (m : Mount) : Check_ :=
  let via := str " (nullfs from host " ++ special m ++ str ")" in
  named p
    (if starts_with (str "/tmp/.X11-unix/") p
     then warnCheck "sockets" "" (str "host X11 display socket" ++ via ++ str " — the host display is reachable; x11/mode: nested isolates it")
     else if beq p (str "/var/run/dbus/system_bus_socket")
     then warnCheck "sockets" "" (str "host system D-Bus" ++ via ++ str " — dbus/policy decides what the jail may call")
     else if has_sub (str "dbus") p then warnCheck "sockets" "" (str "host D-Bus session bus" ++ via)
     else if has_sub (str "wayland") p then warnCheck "sockets" "" (str "host Wayland compositor socket" ++ via)
     else if has_sub (str "pulse") p || has_sub (str "pipewire") p then passCheck "sockets" "" (str "host sound server socket" ++ via)
     else warnCheck "sockets" "" (str "host unix socket reachable" ++ via)).

Definition socketChecks (listening : list Socket) (fsSockets : list bytes) (mounts : list Mount) : Report :=
  let inets := List.filter isInet listening in
  let locals := List.filter (fun p => match hostMountFor p mounts with None => true | Some _ => false end) fsSockets in
  map listenCheck inets
  ++ (match inets with [] => [passCheck "sockets" "listen" (str "no inet listeners")] | _ => [] end)
  ++ flat_map (fun p => match hostMountFor p mounts with Some m => [hostSocketCheck p m] | None => [] end) fsSockets
  ++ (match locals with [] => [] | _ => [passCheck "sockets" "jail-local" (dec (size_z locals) ++ str " unix socket(s): " ++ join locals (str " ") 6)] end).

Definition perUser (procs : list Proc) : list (bytes * Z) :=
  fold_left (fun m p => OMap.insert (p_user p) (default 0 (OMap.find (p_user p) m) + 1) m) procs [].
Definition commands (procs : list Proc) : list bytes :=
  fold_left (fun l p => if existsb (beq (p_command p)) l then l else l ++ [p_command p]) procs [].

Definition processChecks (procs : list Proc) (idLine : bytes) : Report :=
  let users := joined (str ", ") (map (fun u => fst u ++ str ": " ++ dec (snd u)) (perUser procs)) in
  [passCheck "processes" "running" (dec (size_z procs) ++ str " process(es) — " ++ (if is_empty users then str "none" else users)
     ++ (match commands procs with [] => [] | l => str "; " ++ join l (str " ") 8 end))]
  ++ (if is_empty idLine then [] else [passCheck "processes" "probe-ran-as" idLine]).

Definition missing : bytes := str "section missing from the probe output".

Definition gatewayCheck (s : Sections) : Check_ :=
  let gw := firstLine (sec s "gw") in
  if is_empty gw then passCheck "connectivity" "gateway" (str "no default route — outbound probes skipped")
  else if negb (OMap.count (str "connect") s) then failCheck "probe" "connect" missing
  else
    let rc := toInt (sec s "connect.rc") (-1) in
    let text := trim (sec s "connect") in
    if rc =? 255 then passCheck "connectivity" "gateway" (gw ++ str " — not an IPv4 address, connect skipped")
    else if (rc =? 127) || has_sub (str "not found") text then warnCheck "connectivity" "gateway" (gw ++ str " — nc(1) not found in the jail, connect skipped")
    else match classifyNc rc text with
         | Open_ => passCheck "connectivity" "gateway" (gw ++ str " — tcp/22 open: the host's sshd answers from inside the jail")
         | Refused => passCheck "connectivity" "gateway" (gw ++ str " — reachable (tcp/22 refused)")
         | Unreachable => passCheck "connectivity" "gateway" (gw ++ str " — not reachable (" ++ firstLine text ++ str "); expected when the spec grants no `host` network")
         | Unknown => warnCheck "connectivity" "gateway" (gw ++ str " — nc(1) result not understood (rc " ++ dec_signed rc ++ str "): " ++ firstLine text)
         end.

Definition dnsCheck (s : Sections) (nameservers : list bytes) (ctx : HostContext) : Check_ :=
  if negb (OMap.count (str "dns") s) then failCheck "probe" "dns" missing
  else
    let rc := toInt (sec s "dns.rc") (-1) in
    let answer := parseLines (sec s "dns") in
    let first := match answer with l :: _ => l | [] => [] end in
    if (rc =? 127) || has_sub (str "not found") first then warnCheck "connectivity" "dns" (str "drill(1) not found in the jail, lookup skipped")
    else if (rc =? 0) && negb (is_empty first) && negb (has_sub (str "error") (lower first))
    then passCheck "connectivity" "dns" (dnsName ctx ++ str " -> " ++ join answer (str " ") 3)
    else warnCheck "connectivity" "dns" (str "lookup of " ++ dnsName ctx ++ str " failed" ++ (if is_empty first then str " (no answer)" else str ": " ++ first)
           ++ (match nameservers with [] => str " — no nameserver configured" | _ => [] end)).

Definition connectivityChecks (s : Sections) (nameservers : list bytes) (ctx : HostContext) : Report :=
  [passCheck "connectivity" "resolver" (match nameservers with [] => str "no nameserver in /etc/resolv.conf" | l => str "nameserver " ++ join l (str " ") 0 end)]
  ++ (if offline ctx then [passCheck "connectivity" "probes" (str "skipped (--offline)")] else [gatewayCheck s; dnsCheck s nameservers ctx]).

Definition required : list string := ["sysctl"; "mount"; "ifconfig"; "routes"; "dev"; "sockets"; "fssockets"; "ps"; "resolv"]%string.

Definition missingChecks (s : Sections) : Report :=
  flat_map (fun r => if OMap.count (str r) s then [] else [failCheck "probe" r missing]) required.

Definition buildReport (out : bytes) (ctx : HostContext) : Report :=
  let s := splitSections out in
  match s with
  | [] => [failCheck "probe" "output" (str "no output from the in-jail probe — is /bin/sh present in the jail and the jail running?")]
  | _ =>
      let sysctls := parseSysctl (sec s "sysctl") in
      let mounts := parseMountP (sec s "mount") in
      missingChecks s
      ++ jailChecks sysctls ctx
      ++ (match sysctls with [] => if OMap.count (str "sysctl") s then [failCheck "probe" "sysctl" (str "sysctl(8) printed nothing usable: " ++ firstLine (sec s "sysctl"))] else [] | _ => [] end)
      ++ mountChecks mounts
      ++ devfsChecks (parseLines (sec s "dev"))
      ++ ifaceChecks (parseIfconfig (sec s "ifconfig")) (parseDefaultRoutes (sec s "routes"))
      ++ socketChecks (parseSockstat (sec s "sockets")) (parseLines (sec s "fssockets")) mounts
      ++ processChecks (parsePs (sec s "ps")) (firstLine (sec s "id"))
      ++ connectivityChecks s (parseResolvConf (sec s "resolv")) ctx
  end.

(** [jailAuditCommand], from the probe's output: what is printed, and whether
    the exit code is 0. *)
Definition audit (out : bytes) (ctx : HostContext) (json noColor : bool) : bytes * bool :=
  let r := buildReport out ctx in
  (if json then renderJson r ++ [newline]
   else str "crate audit: " ++ jailName ctx ++ str " (jid " ++ dec_signed (jid ctx) ++ str "), seen from inside the jail" ++ [newline; newline] ++ renderText r noColor,
   exitCodeFor r =? 0).

(** ** Reports *)

Lemma countOf_pos s r : 0 < countOf s r <-> exists c, In c r /\ severity c = s.
Proof.
  unfold countOf. rewrite <- (Z.ltb_lt 0). split.
  - destruct (List.filter _ r) as [|c l] eqn:E; [done|]. intros _. exists c.
    assert (H : In c (List.filter (fun c => bool_decide (severity c = s)) r)) by (rewrite E; by left).
    apply filter_In in H as [? ?%bool_decide_eq_true]. done.
  - intros (c & Hc & Hs). assert (H : In c (List.filter (fun c => bool_decide (severity c = s)) r)) by (apply filter_In; split; [done|by apply bool_decide_eq_true]).
    destruct (List.filter _ r); [done|]. by apply Z.ltb_lt.
Qed.

Lemma exit_zero r : exitCodeFor r = 0 <-> forall c, In c r -> severity c = Pass.
Proof.
  unfold exitCodeFor, tally. cbn [fail warn]. destruct (Z.ltb_spec 0 (countOf Fail r)) as [(c & Hc & Hs)%countOf_pos|HF].
  { split; [done|]. intros H. rewrite H in Hs by done. done. }
  destruct (Z.ltb_spec 0 (countOf Warn r)) as [(c & Hc & Hs)%countOf_pos|HW].
  { split; [done|]. intros H. rewrite H in Hs by done. done. }
  split; [|done]. intros _ c Hc. destruct (severity c) eqn:E; [done| |]; exfalso; eapply Z.lt_irrefl, Z.lt_le_trans; [|exact HW| |exact HF]; apply countOf_pos; by exists c.
Qed.

(** ** What belongs to the host *)

Lemma better_spec p ms best : fold_left (better p) ms best = None -> best = None /\ forall m, In m ms -> fstype m = str "nullfs" -> under p (node m) = false.
Proof.
  revert best. induction ms as [|m ms IH]; intros best; cbn [fold_left]; [by intros ->|]. intros [E H]%IH. unfold better in E.
  destruct (beq_spec (fstype m) (str "nullfs")) as [Hf|Hf]; cbn [negb] in E; [|subst best; split; [done|]; intros x [<-|Hx] ?; [done|by apply H]].
  destruct (under p (node m)) eqn:U; cbn [negb] in E; [by destruct best as [b|]; [destruct (_ <? _)%nat|]|]. subst best. split; [done|]. intros x [<-|Hx] ?; [done|by apply H].
Qed.

(** No host mount is found exactly where no nullfs mount holds the path. *)
Lemma hostMountFor_none p ms m : hostMountFor p ms = None -> In m ms -> fstype m = str "nullfs" -> under p (node m) = false.
Proof. intros [_ H]%better_spec. apply H. Qed.

(** ** The sections of a probe *)

(** What the script prints: for each section its marker, then the lines of the
    tool. *)
Definition printed (secs : list (bytes * list bytes)) : bytes :=
  concat (map (fun l => l ++ [newline]) (flat_map (fun s => (str "@@" ++ fst s) :: snd s) secs)).

Definition plainLine (l : bytes) : Prop := ~ In newline l /\ ~ In cr l /\ starts_with (str "@@") l = false.
Definition goodName (n : bytes) : Prop := n <> [] /\ (forall c, In c n -> is_space c = false) /\ starts_with (str "rc=") n = false.
Definition goodProbe (secs : list (bytes * list bytes)) : Prop :=
  NoDup (map fst secs) /\ Forall (fun s => goodName (fst s) /\ Forall plainLine (snd s)) secs.

Lemma filter_none {A} (p : A -> bool) l : (forall x, In x l -> p x = true) -> List.filter p l = l.
Proof. induction l as [|a l IH]; intros H; cbn; [done|]. rewrite (H a) by (by left). f_equal. apply IH. intros x Hx. apply H. by right. Qed.

Lemma lines_concat ls : Forall (fun l => ~ In newline l /\ ~ In cr l) ls -> lines (concat (map (fun l => l ++ [newline]) ls)) = ls.
Proof.
  intros F. unfold lines. rewrite filter_none.
  - apply getlines_concat. eapply List.Forall_impl; [|exact F]. by intros l [? _].
  - intros c Hc. apply in_concat in Hc as (x & (l & <- & Hl)%in_map_iff & Hc). rewrite List.Forall_forall in F. destruct (F l Hl) as [_ Hr].
    destruct (Ascii.eqb_spec c cr) as [->|]; [|done]. apply in_app_iff in Hc as [?|[E|[]]]; done.
Qed.

Lemma skipSpace_none s : (forall c, In c s -> is_space c = false) -> skipSpace s = s.
Proof. destruct s as [|c s]; [done|]. intros H. cbn [skipSpace]. by rewrite H by (by left). Qed.

Lemma trim_none s : (forall c, In c s -> is_space c = false) -> trim s = s.
Proof.
  intros H. unfold trim. rewrite (skipSpace_none s) by done. rewrite skipSpace_none; [apply rev_involutive|]. intros c Hc%in_rev. by apply H.
Qed.

Lemma onLine_marker cur s n : goodName n -> onLine (cur, s) (str "@@" ++ n) = (n, OMap.insert n [] s).
Proof.
  intros (N & Sp & R). unfold onLine. rewrite starts_with_app. change (drop 2 (str "@@" ++ n)) with n. cbv zeta. rewrite trim_none, R by done.
  assert (find_char " " n = None) as -> by (apply find_char_None; intros H; by apply Sp in H). by destruct n.
Qed.

Lemma onLine_plain cur s l : cur <> [] -> plainLine l -> onLine (cur, s) l = (cur, OMap.insert cur (default [] (OMap.find cur s) ++ l ++ [newline]) s).
Proof. intros N (_ & _ & H). unfold onLine. rewrite H. by destruct cur. Qed.

Definition text (ls : list bytes) : bytes := concat (map (fun l => l ++ [newline]) ls).

Lemma onLines_plain cur s ls b : OMap.wf s -> cur <> [] -> Forall plainLine ls -> OMap.find cur s = Some b ->
  exists s', fold_left onLine ls (cur, s) = (cur, s') /\ OMap.wf s' /\ OMap.find cur s' = Some (b ++ text ls) /\ forall k, k <> cur -> OMap.find k s' = OMap.find k s.
Proof.
  intros W N F. revert s b W. induction F as [|l ls Hl _ IH]; intros s b W E; cbn [fold_left].
  - exists s. cbn. rewrite app_nil_r. done.
  - rewrite onLine_plain by done. replace (default [] (OMap.find cur s)) with b by (by rewrite E). destruct (IH (OMap.insert cur (b ++ l ++ [newline]) s) (b ++ l ++ [newline])) as (s' & -> & W' & E' & O); [eauto with crate| |].
    { rewrite OMap.find_insert by done. by rewrite decide_True. }
    exists s'. split; [done|]. split; [done|]. split; [rewrite E'; unfold text; cbn [map concat]; by rewrite <- !app_assoc|].
    intros k Hk. rewrite O, OMap.find_insert by done. by rewrite decide_False.
Qed.

Lemma sections_read secs cur s : OMap.wf s -> goodProbe secs -> (forall k, In k (map fst secs) -> OMap.find k s = None) ->
  exists cur' s', fold_left onLine (flat_map (fun s => (str "@@" ++ fst s) :: snd s) secs) (cur, s) = (cur', s') /\ OMap.wf s' /\
    (forall k ls, In (k, ls) secs -> OMap.find k s' = Some (text ls)) /\ (forall k, ~ In k (map fst secs) -> OMap.find k s' = OMap.find k s).
Proof.
  intros W [ND F]. revert cur s W ND. induction F as [|[n ls] secs [G P] _ IH]; intros cur s W ND Hs; cbn [flat_map].
  - exists cur, s. done.
  - cbn [fst snd map] in *. apply NoDup_cons in ND as [Hn ND]. rewrite <- app_comm_cons. cbn [fold_left]. rewrite onLine_marker, fold_left_app by done.
    destruct (onLines_plain n (OMap.insert n [] s) ls []) as (s1 & -> & W1 & E1 & O1); [eauto with crate|by destruct G|done| |].
    { rewrite OMap.find_insert by done. by rewrite decide_True. }
    assert (Hk : forall k, In k (map fst secs) -> k <> n) by (intros k Hk ->; apply Hn; by apply list_elem_of_In).
    destruct (IH n s1) as (cur' & s' & F' & W' & E' & O'); [done|done| |].
    { intros k Hin. rewrite O1, OMap.find_insert, decide_False by (done || by apply Hk). apply Hs. by right. }
    exists cur', s'. split; [exact F'|]. split; [done|]. split.
    + intros k ls' [[= <- <-]|Hin]; [|by apply E']. rewrite O'; [exact E1|]. intros H. by apply Hk in H.
    + intros k Hnk. cbn [In] in Hnk. rewrite O', O1, OMap.find_insert, decide_False by (done || tauto || (intros ->; tauto)). done.
Qed.

(** The sections read are those printed. *)
Lemma splitSections_printed secs : goodProbe secs ->
  (forall k ls, In (k, ls) secs -> OMap.find k (splitSections (printed secs)) = Some (text ls)) /\
  (forall k, ~ In k (map fst secs) -> OMap.find k (splitSections (printed secs)) = None).
Proof.
  intros G. unfold splitSections, printed. rewrite lines_concat.
  - destruct (sections_read secs [] [] OMap.wf_nil G) as (cur & s & -> & _ & A & B); [done|]. split; [exact A|exact B].
  - apply List.Forall_forall. intros l Hl. apply in_flat_map in Hl as ([n ls] & Hin & Hl). destruct G as [_ F]. rewrite List.Forall_forall in F.
    destruct (F _ Hin) as [(_ & Sp & _) P]. cbn [fst snd] in *. destruct Hl as [<-|Hl]; [|rewrite List.Forall_forall in P; destruct (P l Hl) as (? & ? & _); done].
    split; intros [E|[E|H]]; try done; by apply Sp in H.
Qed.

(** ** A clean audit *)

Lemma printed_lines secs k ls : goodProbe secs -> In (k, ls) secs -> lines (text ls) = ls.
Proof.
  intros [_ F] Hin. rewrite List.Forall_forall in F. destruct (F _ Hin) as [_ P]. apply lines_concat. eapply List.Forall_impl; [|exact P]. by intros l (? & ? & _).
Qed.

Lemma printed_sec secs k ls : goodProbe secs -> In (str k, ls) secs -> sec (splitSections (printed secs)) k = text ls.
Proof. intros G Hin. unfold sec. by rewrite (proj1 (splitSections_printed secs G) _ _ Hin). Qed.

(** What is not judged, once there is any section. *)
Lemma buildReport_some out ctx k v : OMap.find k (splitSections out) = Some v ->
  exists sysctlCheck, let s := splitSections out in let mounts := parseMountP (sec s "mount") in
  buildReport out ctx = missingChecks s ++ jailChecks (parseSysctl (sec s "sysctl")) ctx ++ sysctlCheck ++ mountChecks mounts
    ++ devfsChecks (parseLines (sec s "dev")) ++ ifaceChecks (parseIfconfig (sec s "ifconfig")) (parseDefaultRoutes (sec s "routes"))
    ++ socketChecks (parseSockstat (sec s "sockets")) (parseLines (sec s "fssockets")) mounts
    ++ processChecks (parsePs (sec s "ps")) (firstLine (sec s "id")) ++ connectivityChecks s (parseResolvConf (sec s "resolv")) ctx.
Proof. unfold buildReport. destruct (splitSections out); [done|]. intros _. eexists. reflexivity. Qed.

Lemma clean_parts out ctx j nc : snd (audit out ctx j nc) = true ->
  let s := splitSections out in let mounts := parseMountP (sec s "mount") in
  forall c, In c (missingChecks s) \/ In c (jailChecks (parseSysctl (sec s "sysctl")) ctx) \/ In c (mountChecks mounts) \/
    In c (devfsChecks (parseLines (sec s "dev"))) \/ In c (socketChecks (parseSockstat (sec s "sockets")) (parseLines (sec s "fssockets")) mounts) ->
  severity c = Pass.
Proof.
  intros E s mounts c Hc. apply Z.eqb_eq in E. rewrite exit_zero in E.
  assert (F : exists k v, OMap.find k s = Some v).
  { subst mounts. unfold buildReport in E. fold s in E. clearbody s. destruct s as [|[k v] t]; [by specialize (E _ (or_introl eq_refl))|].
    exists k, v. cbn [OMap.find]. by rewrite decide_True. }
  destruct F as (k & v & F). apply E. destruct (buildReport_some out ctx k v F) as [x ->]. cbv zeta. fold s. fold mounts. rewrite !in_app_iff. tauto.
Qed.

Lemma missing_section s r : In r required -> (forall c, In c (missingChecks s) -> severity c = Pass) -> OMap.find (str r) s <> None.
Proof.
  intros Hr H N. assert (B : In (failCheck "probe" r missing) (missingChecks s)); [|by apply H in B].
  apply in_flat_map. exists r. split; [done|]. unfold OMap.count. rewrite N. by left.
Qed.

(** A socket of the host that is a sound server's. *)
Definition soundSocket (p : bytes) : Prop := has_sub (str "pulse") p || has_sub (str "pipewire") p = true.

Lemma hostSocket_pass p m : severity (hostSocketCheck p m) = Pass -> soundSocket p.
Proof. unfold hostSocketCheck, soundSocket. repeat case_match; done. Qed.

Lemma classCheck_warn names c f n : In n names -> (forall x, In x (classCheck names c f) -> severity x = Pass) -> (forall l, severity (f l) = Warn) -> classOf n <> c.
Proof.
  intros Hn H Hf Hc. assert (Hin : In n (classifyDevices names c)) by (apply filter_In; split; [done|by apply bool_decide_eq_true]).
  unfold classCheck in H. destruct (classifyDevices names c) as [|a l]; [done|]. specialize (H _ (or_introl eq_refl)). by rewrite Hf in H.
Qed.

Lemma devices_clean names : (forall c, In c (devfsChecks names) -> severity c = Pass) -> forall n, In n names -> classOf n <> Input /\ classOf n <> Disks /\ classOf n <> Raw.
Proof.
  intros H n Hn. unfold devfsChecks in H. setoid_rewrite in_app_iff in H. repeat setoid_rewrite in_app_iff in H.
  split; [|split]; (eapply (classCheck_warn names _ _ n Hn); [intros x Hx; apply H|]).
  1: do 4 right; left; exact Hx. 2: do 8 right; left; exact Hx. 3: do 9 right; exact Hx. all: done.
Qed.


Definition sampleProbe : list (bytes * list bytes) := [
  (str "id", [str "uid=0(root) gid=0(wheel)"]);
  (str "sysctl", [str "security.jail.jailed: 1"; str "kern.hostname: web"]);
  (str "mount", [str "zroot/jails/web / zfs rw 0 0"; str "/home/ann/pulse /var/run/pulse nullfs rw 0 0"]);
  (str "ifconfig", [str "lo0: flags=8049<UP,LOOPBACK,RUNNING,MULTICAST> metric 0 mtu 16384"]);
  (str "routes", []); (str "dev", [str "null"; str "zero"]); (str "sockets", []);
  (str "fssockets", [str "/var/run/pulse/native"; str "/tmp/local"]); (str "ps", [str "root 12 sh"]); (str "resolv", []); (str "gw", [])].

Definition sampleContext : HostContext := {| jailName := str "web"; jid := 7; hostHostid := str "123"; hostHostname := str "host"; offline := true; dnsName := str "www.freebsd.org" |}.

Definition plainLine_b (l : bytes) : bool := negb (has_char newline l) && negb (has_char cr l) && negb (starts_with (str "@@") l).
Definition goodName_b (n : bytes) : bool := negb (is_empty n) && forallb (fun c => negb (is_space c)) n && negb (starts_with (str "rc=") n).

Lemma goodProbe_b secs : forallb (fun s => goodName_b (fst s) && forallb plainLine_b (snd s)) secs = true -> NoDup (map fst secs) -> goodProbe secs.
Proof.
  intros F N. split; [done|]. apply List.Forall_forall. intros [n ls] Hin. rewrite forallb_forall in F. apply F in Hin. cbn [fst snd] in *.
  apply andb_true_iff in Hin as [Hn Hl]. split.
  - unfold goodName_b in Hn. rewrite !andb_true_iff, !negb_true_iff in Hn. destruct Hn as ((Hn & Hs) & Hr). split; [by destruct n|]. split; [|done].
    intros c Hc. rewrite forallb_forall in Hs. apply Hs in Hc. by apply negb_true_iff.
  - apply List.Forall_forall. intros l Hin. rewrite forallb_forall in Hl. apply Hl in Hin. unfold plainLine_b in Hin.
    rewrite !andb_true_iff, !negb_true_iff in Hin. destruct Hin as ((Hn' & Hc) & Ha). split; [|split; [|done]]; intros H.
    + assert (has_char newline l = true) by (apply existsb_exists; exists newline; split; [done|apply Ascii.eqb_refl]). congruence.
    + assert (has_char cr l = true) by (apply existsb_exists; exists cr; split; [done|apply Ascii.eqb_refl]). congruence.
Qed.

Lemma sampleProbe_good : goodProbe sampleProbe.
Proof. apply goodProbe_b; [vm_compute; reflexivity|apply (bool_decide_unpack _); vm_compute; exact I]. Qed.


(** What a jail prints can forge a section: the name of a unix socket may
    contain a newline, and what follows it replaces the list of mounts, so
    that a whole host area mounted writable is not reported. *)
Definition hostHome : list bytes := [str "zroot/jails/web / zfs rw 0 0"; str "/home /host nullfs rw 0 0"].
Definition probeOf (sockets : list bytes) : list (bytes * list bytes) :=
  map (fun s => if beq (fst s) (str "mount") then (fst s, hostHome) else if beq (fst s) (str "fssockets") then (fst s, sockets) else s) sampleProbe.

Example forged_section_hides_mount :
  snd (audit (printed (probeOf [str "/tmp/s"])) sampleContext false true) = false
  /\ snd (audit (printed (probeOf [str "/tmp/s" ++ [newline] ++ str "@@mount" ++ [newline] ++ str "zroot / zfs rw"])) sampleContext false true) = true.
Proof. split; vm_compute; reflexivity. Qed.

(** ** The name in the script *)

(** The name that the command line lets through ([Args.validate] asks for
    [isHostname]) ends neither the quotes nor the line it is pasted into. *)
Lemma dns_name_inert n c : NetAddr.isHostname n = true -> In c n -> c <> "'"%char /\ c <> newline /\ c <> "\"%char.
Proof. intros H Hc. apply (NetAddr.isHostname_chars n c H) in Hc. repeat split; by intros ->. Qed.
End JailAudit.
