(* ===== verification/Migrate.v ===== *)
(** * Moving containers between hosts: lib/migrate_pure.cpp, migrate.cpp,
    replicate_pure.cpp, replicate.cpp and the snapshot lists of
    zfs_dataset_pure.cpp

    [crate migrate] drives the REST API of two daemons with curl(1);
    [crate replicate] streams a snapshot over ssh(1).  What the commands answer
    is a parameter: a function of everything that was done so far. *)

From S2P Require Import Prelude CStd OMap RecordUpd NetAddr Backup Args.

Module Migrate.
Import CStd NetAddr.

(** ** Validators *)

(** [stripScheme]: the rest, and whether there was a scheme. *)
Definition stripScheme (endpoint : bytes) : bytes * bool :=
  if starts_with (str "https://") endpoint then (drop 8 endpoint, true)
  else if starts_with (str "http://") endpoint then (drop 7 endpoint, true)
  else (endpoint, false).

(** The number is accumulated in a [long] without a check. *)
Definition validatePort (port : bytes) : bytes :=
  reject (is_empty port) with str "port is empty";
  reject (negb (forallb is_digit port)) with str "port must be numeric";
  let n := fold_left (fun n c => i64 (n * 10 + digit_val c)) port 0 in
  reject ((n <? 1) || (65535 <? n)) with str "port out of range (1..65535)";
  [].

Definition validateEndpoint (endpoint : bytes) : bytes :=
  reject (is_empty endpoint) with str "endpoint is empty";
  let rest := fst (stripScheme endpoint) in
  reject (is_empty rest) with str "endpoint missing host:port";
  if starts_with (str "[") rest then
    match find_char "]" rest with
    | None => str "endpoint missing closing ']'"
    | Some rb =>
        let host := take (rb - 1) (drop 1 rest) in
        reject (negb (starts_with (str ":") (drop (S rb) rest))) with str "endpoint missing ':' after ']'";
        reject (negb (isV6 host)) with str "endpoint IPv6 literal is malformed";
        validatePort (drop (rb + 2) rest)
    end
  else
    match rfind_sub (str ":") rest with
    | None => str "endpoint must include :port"
    | Some colon =>
        let host := take colon rest in
        let port := drop (S colon) rest in
        if looksLikeV4Shape host then
          reject (negb (isV4 host)) with str "endpoint looks like IPv4 but has invalid octets";
          validatePort port
        else
          reject (negb (isHostname host)) with str "endpoint host is neither IPv4 nor hostname";
          validatePort port
    end.

Definition validateBearerToken (t : bytes) : bytes :=
  reject (is_empty t) with str "bearer token is empty";
  reject (512 <? size_z t) with str "bearer token longer than 512 chars";
  reject (existsb (fun c => (code c <=? 0x20) || (code c =? 0x7f)) t) with str "bearer token contains whitespace or control character";
  [].

Definition validateContainerName (name : bytes) : bytes :=
  reject (is_empty name) with str "container name is empty";
  reject (Backup.kJailName <? size_z name) with (str "container name longer than " ++ dec Backup.kJailName ++ str " chars");
  reject (beq name (str ".") || beq name (str "..")) with str "container name is reserved";
  check_chars Backup.nameChar (str "container name") name.

Definition kArtifactFile : Z := 255.

(** The loop over the name's bytes. *)
Fixpoint artifactChars (s : bytes) : bytes :=
  match s with
  | [] => []
  | c :: t =>
      reject (Ascii.eqb c "/") with str "artifact filename must not contain '/' (path traversal)";
      reject ((code c <? 0x20) || (code c =? 0x7f)) with str "artifact filename contains a control character";
      artifactChars t
  end.

Definition validateArtifactFile (name : bytes) : bytes :=
  reject (is_empty name) with str "artifact filename is empty";
  reject (kArtifactFile <? size_z name) with (str "artifact filename longer than " ++ dec kArtifactFile ++ str " chars");
  reject (beq name (str ".") || beq name (str "..")) with str "artifact filename is reserved";
  artifactChars name.

(** ** The plan *)

Definition normalizeBaseUrl (endpoint : bytes) : bytes :=
  let '(rest, hasScheme) := stripScheme endpoint in if hasScheme then endpoint else str "https://" ++ rest.

Inductive StepKind := Export_ | Download | Upload | StartTo | StopFrom.

Record Step := { kind : StepKind; method : bytes; url : bytes; token : bytes; filePath : bytes }.
Record Request := { name : bytes; fromEndpoint : bytes; fromToken : bytes; toEndpoint : bytes; toToken : bytes; workDir : bytes; artifactFile : bytes }.
#[global] Instance eta_Request : Eta Request := fun r => {|
  name := name r; fromEndpoint := fromEndpoint r; fromToken := fromToken r; toEndpoint := toEndpoint r; toToken := toToken r; workDir := workDir r; artifactFile := artifactFile r |}.

Definition buildExportStep (r : Request) : Step := {|
  kind := Export_; method := str "POST"; url := normalizeBaseUrl (fromEndpoint r) ++ str "/api/v1/containers/" ++ name r ++ str "/export";
  token := fromToken r; filePath := [] |}.

Definition localFile (r : Request) : bytes := workDir r ++ str "/" ++ artifactFile r.

Definition buildRemainingSteps (r : Request) : list Step := [
  {| kind := Download; method := str "GET"; url := normalizeBaseUrl (fromEndpoint r) ++ str "/api/v1/exports/" ++ artifactFile r;
     token := fromToken r; filePath := localFile r |};
  {| kind := Upload; method := str "POST"; url := normalizeBaseUrl (toEndpoint r) ++ str "/api/v1/imports/" ++ name r;
     token := toToken r; filePath := localFile r |};
  {| kind := StartTo; method := str "POST"; url := normalizeBaseUrl (toEndpoint r) ++ str "/api/v1/containers/" ++ name r ++ str "/start";
     token := toToken r; filePath := [] |};
  {| kind := StopFrom; method := str "POST"; url := normalizeBaseUrl (fromEndpoint r) ++ str "/api/v1/containers/" ++ name r ++ str "/stop";
     token := fromToken r; filePath := [] |}].

Definition describeStep (s : Step) : bytes :=
  match kind s with
  | Export_ => str "export source     " | Download => str "download artifact " | Upload => str "upload to dest    "
  | StartTo => str "start on dest     " | StopFrom => str "stop on source    "
  end ++ method s ++ str " " ++ url s.

Definition redactToken (t : bytes) : bytes := str "<redacted: " ++ dec (size_z t) ++ str " chars>".

(** ** Running it *)

(** What is done: a run of curl with these arguments and the token in its
    header file, and the clean-up. *)
Inductive Act := Curl (args : list bytes) (t : bytes) | Unlink (path : bytes) | Rmdir (path : bytes).

(** The answer of a run of curl, given everything done up to it ([None]: it
    failed). *)
Definition World : Type := list Act -> option bytes.

Definition blank (c : ascii) : bool := Ascii.eqb c newline || Ascii.eqb c cr || Ascii.eqb c " " || Ascii.eqb c tab.
Fixpoint dropBlank (s : bytes) : bytes := match s with c :: t => if blank c then dropBlank t else s | [] => [] end.

(** What [readTokenFromFile] makes of the file. *)
Definition tokenOf (contents : bytes) : bytes := rev (dropBlank (rev contents)).

(** [runStep]'s arguments for curl. *)
Definition stepArgs (s : Step) : list bytes :=
  match kind s with
  | Export_ | StartTo | StopFrom => [str "-X"; method s; url s]
  | Download => [str "-X"; str "GET"; str "-o"; filePath s; url s]
  | Upload => [str "-X"; str "POST"; str "-H"; str "Content-Type: application/octet-stream"; str "--data-binary"; str "@" ++ filePath s; url s]
  end.
Definition stepAct (s : Step) : Act := Curl (stepArgs s) (token s).

(** The regular expression: the quoted word file, a colon and a quoted text
    that is not empty. *)
Definition quotedFile : bytes := dquote :: str "file" ++ [dquote].
Definition fileAt (s : bytes) : option bytes :=
  if negb (starts_with quotedFile s) then None
  else match skipSpace (drop 6 s) with
       | c :: t =>
           if negb (Ascii.eqb c ":") then None
           else match skipSpace t with
                | q :: u =>
                    if negb (Ascii.eqb q dquote) then None
                    else let '(v, rest) := span (fun x => negb (Ascii.eqb x dquote)) u in
                         if is_empty v || is_empty rest then None else Some v
                | [] => None
                end
       | [] => None
       end.
Fixpoint extractFileField (body : bytes) : bytes :=
  match fileAt body with
  | Some v => v
  | None => match body with [] => [] | _ :: t => extractFileField t end
  end.

Definition curlFailed : bytes := str "curl".

(** Steps one after the other until one fails. *)
Fixpoint runSteps (w : World) (log : list Act) (l : list Step) : list Act * (bytes + unit) :=
  match l with
  | [] => (log, inr tt)
  | s :: rest =>
      let log' := log ++ [stepAct s] in
      match w log' with
      | None => (log', inl curlFailed)
      | Some _ => runSteps w log' rest
      end
  end.

(** The [try] block: what was done, the name of the artifact, the result. *)
Definition transfer (w : World) (r : Request) : list Act * bytes * (bytes + unit) :=
  let first := [stepAct (buildExportStep r)] in
  match w first with
  | None => (first, [], inl curlFailed)
  | Some body =>
      let file := extractFileField body in
      if is_empty file then (first, file, inl (str "export response did not include a 'file' field"))
      else let e := validateArtifactFile file in
           if negb (is_empty e) then (first, file, inl (str "export response 'file' field rejected: " ++ e))
           else let '(log, res) := runSteps w first (buildRemainingSteps (r <| artifactFile := file |>)) in (log, file, res)
  end.

(** The same clean-up on both ways out. *)
Definition cleanup (dir file : bytes) : list Act := (if is_empty file then [] else [Unlink (dir ++ str "/" ++ file)]) ++ [Rmdir dir].

(** [migrateCommand]: the contents of the two token files ([None]: cannot be
    opened), the directory that mkdtemp made. *)
Definition migrateCommand (w : World) (fromFile toFile : option bytes) (dir : option bytes) (a : Args.Args) : list Act * (bytes + unit) :=
  let fail e := ([], inl e) in
  reject (is_empty (Args.migrateFromTokenFile a)) with fail (str "--from-token-file is required");
  reject (is_empty (Args.migrateToTokenFile a)) with fail (str "--to-token-file is required");
  match fromFile with
  | None => fail (str "cannot open token file '" ++ Args.migrateFromTokenFile a ++ str "'")
  | Some ft =>
      match toFile with
      | None => fail (str "cannot open token file '" ++ Args.migrateToTokenFile a ++ str "'")
      | Some tt' =>
          let e := ensure validateContainerName (Args.migrateTarget a);
                   ensure validateEndpoint (Args.migrateFrom a) as "--from: ";
                   ensure validateEndpoint (Args.migrateTo a) as "--to: ";
                   ensure validateBearerToken (tokenOf ft) as "from token: ";
                   ensure validateBearerToken (tokenOf tt') as "to token: ";
                   [] in
          if negb (is_empty e) then fail e
          else match dir with
               | None => fail (str "mkdtemp for the migrate work directory")
               | Some d =>
                   let '(log, file, res) := transfer w {| name := Args.migrateTarget a; fromEndpoint := Args.migrateFrom a; fromToken := tokenOf ft;
                        toEndpoint := Args.migrateTo a; toToken := tokenOf tt'; workDir := d; artifactFile := [] |} in
                   (log ++ cleanup d file, res)
               end
      end
  end.

(** ** Order *)

Lemma runSteps_spec w l log : let '(log', res) := runSteps w log l in
  exists k, (k <= length l)%nat /\ log' = log ++ map stepAct (take k l)
    /\ (forall i, (0 < i < k)%nat -> w (log ++ map stepAct (take i l)) <> None)
    /\ match res with inr _ => k = length l /\ ((0 < k)%nat -> w log' <> None) | inl _ => (0 < k)%nat /\ w log' = None end.
Proof.
  revert log. induction l as [|s l IH]; intros log; cbn [runSteps].
  { exists 0%nat. rewrite app_nil_r. split; [done|]. split; [done|]. split; [lia|]. split; [done|lia]. }
  destruct (w (log ++ [stepAct s])) as [b|] eqn:E.
  - specialize (IH (log ++ [stepAct s])). destruct (runSteps w (log ++ [stepAct s]) l) as [log' res]. destruct IH as (k & Hk & -> & Hi & Hr).
    exists (S k). cbn [length take map]. split; [lia|]. split; [by rewrite <- app_assoc|]. split.
    + intros [|[|i]] Hlt; [lia| |].
      * change (take 1 (s :: l)) with [s]. cbn [map]. by rewrite E.
      * specialize (Hi (S i) ltac:(lia)). rewrite <- app_assoc in Hi. exact Hi.
    + destruct res as [e|]; [split; [lia|by destruct Hr]|]. destruct Hr as [-> Hr]. split; [done|]. intros _. destruct l as [|x l]; [cbn; by rewrite app_nil_r, E|]. apply Hr. cbn; lia.
  - exists 1%nat. cbn [length take map]. split; [lia|]. split; [done|]. split; [lia|]. split; [lia|done].
Qed.

(** The five requests, written out: to whom, and with whose token. *)
Definition plan (r : Request) : list Act :=
  let from := normalizeBaseUrl (fromEndpoint r) in
  let to := normalizeBaseUrl (toEndpoint r) in
  [Curl [str "-X"; str "POST"; from ++ str "/api/v1/containers/" ++ name r ++ str "/export"] (fromToken r);
   Curl [str "-X"; str "GET"; str "-o"; localFile r; from ++ str "/api/v1/exports/" ++ artifactFile r] (fromToken r);
   Curl [str "-X"; str "POST"; str "-H"; str "Content-Type: application/octet-stream"; str "--data-binary"; str "@" ++ localFile r; to ++ str "/api/v1/imports/" ++ name r] (toToken r);
   Curl [str "-X"; str "POST"; to ++ str "/api/v1/containers/" ++ name r ++ str "/start"] (toToken r);
   Curl [str "-X"; str "POST"; from ++ str "/api/v1/containers/" ++ name r ++ str "/stop"] (fromToken r)].

Lemma transfer_spec w r : let '(log, file, res) := transfer w r in
  exists n, (1 <= n <= 5)%nat /\ log = take n (plan (r <| artifactFile := file |>))
    /\ (forall i, (0 < i < n)%nat -> w (take i (plan (r <| artifactFile := file |>))) <> None)
    /\ ((1 < n)%nat -> validateArtifactFile file = [])
    /\ (res = inr tt <-> n = 5%nat /\ w log <> None).
Proof.
  unfold transfer. destruct (w [stepAct (buildExportStep r)]) as [body|] eqn:E0.
  2: { exists 1%nat. split; [lia|]. split; [done|]. split; [lia|]. split; [lia|]. split; [done|]. intros [? _]. lia. }
  assert (Stop : forall file e, exists n, (1 <= n <= 5)%nat /\ [stepAct (buildExportStep r)] = take n (plan (r <| artifactFile := file |>))
    /\ (forall i, (0 < i < n)%nat -> w (take i (plan (r <| artifactFile := file |>))) <> None) /\ ((1 < n)%nat -> validateArtifactFile file = [])
    /\ (@inl bytes unit e = inr tt <-> n = 5%nat /\ w [stepAct (buildExportStep r)] <> None)).
  { intros file e. exists 1%nat. split; [lia|]. split; [done|]. split; [lia|]. split; [lia|]. split; [done|]. intros [? _]. lia. }
  destruct (is_empty (extractFileField body)); [by apply Stop|]. destruct (is_empty (validateArtifactFile (extractFileField body))) eqn:V; cbn [negb]; [|by apply Stop].
  apply is_empty_true in V. set (file := extractFileField body) in *.
  pose proof (runSteps_spec w (buildRemainingSteps (r <| artifactFile := file |>)) [stepAct (buildExportStep r)]) as S.
  destruct (runSteps w _ _) as [log res]. destruct S as (k & Hk & -> & Hi & Hr). cbn [length buildRemainingSteps] in Hk.
  exists (S k). split; [lia|].
  assert (P : forall i, [stepAct (buildExportStep r)] ++ map stepAct (take i (buildRemainingSteps (r <| artifactFile := file |>))) = take (S i) (plan (r <| artifactFile := file |>))).
  { intros i. cbn [take]. rewrite <- firstn_map. reflexivity. }
  split; [apply P|]. split; [|split; [done|]].
  - intros [|[|i]] Hlt; [lia| |]; [change (w [stepAct (buildExportStep r)] <> None); by rewrite E0|]. rewrite <- P. apply Hi. lia.
  - destruct res as [e|[]]; [split; [done|]; by intros [_ ?]; destruct Hr|]. destruct Hr as [-> Hr]. split; [|done]. intros _. split; [done|]. apply Hr. cbn. lia.
Qed.

(** C24: A migration never takes the source down before the destination runs.
    Whatever the two daemons answer and wherever it fails, the requests sent
    are the first ones of the plan (export, download, upload and start on the
    destination, stop on the source), in this order; every request but the last
    was answered successfully, so the source is stopped only after the
    destination was started; each request carries the token of the host it goes
    to; the artifact is stored only under a name that is a single path
    component; the command succeeds iff all five succeeded; and the working
    directory is removed in every case. *)
Theorem source_stopped_last w ff tf dir a : let '(log, res) := migrateCommand w ff tf dir a in
  (log = [] /\ exists e, res = inl e) \/
  exists r n, (1 <= n <= 5)%nat /\ log = take n (plan r) ++ cleanup (workDir r) (artifactFile r)
    /\ name r = Args.migrateTarget a /\ fromEndpoint r = Args.migrateFrom a /\ toEndpoint r = Args.migrateTo a
    /\ Some (fromToken r) = tokenOf <$> ff /\ Some (toToken r) = tokenOf <$> tf /\ Some (workDir r) = dir
    /\ (forall i, (0 < i < n)%nat -> w (take i (plan r)) <> None)
    /\ ((1 < n)%nat -> validateArtifactFile (artifactFile r) = [])
    /\ (res = inr tt <-> n = 5%nat /\ w (plan r) <> None).
Proof.
  unfold migrateCommand. destruct (is_empty (Args.migrateFromTokenFile a)); [left; eauto|]. destruct (is_empty (Args.migrateToTokenFile a)); [left; eauto|].
  destruct ff as [ft|]; [|left; eauto]. destruct tf as [tt'|]; [|left; eauto]. cbv zeta. destruct (is_empty (guard_err _ _ _)) eqn:Ev; cbn [negb]; [|left; eauto].
  destruct dir as [d|]; [|left; eauto]. set (r0 := {| name := _ |}). pose proof (transfer_spec w r0) as T. destruct (transfer w r0) as [[log file] res].
  destruct T as (n & Hn & -> & Hi & Hv & Hr). right. exists (r0 <| artifactFile := file |>), n. repeat (split; [done|]).
  rewrite Hr. split; intros [-> H]; (split; [done|exact H]).
Qed.

(** The name of the artifact comes from the source's daemon.  It is checked
    before anything is stored under it, but the clean-up after the check
    failed deletes the file of that name all the same. *)
Lemma rejected_name_still_unlinked w r body file : w [stepAct (buildExportStep r)] = Some body -> extractFileField body = file -> file <> [] -> validateArtifactFile file <> [] ->
  let '(log, file', res) := transfer w r in (exists e, res = inl e) /\ In (Unlink (workDir r ++ str "/" ++ file)) (cleanup (workDir r) file').
Proof.
  intros Hw Hf Hn Hv. unfold transfer. rewrite Hw. cbv zeta. rewrite Hf. apply is_empty_false in Hn. rewrite Hn. apply is_empty_false in Hv. rewrite Hv. cbn [negb].
  split; [by eexists|]. unfold cleanup. rewrite Hn. by left.
Qed.

Definition hostileBody : bytes := str "{" ++ quotedFile ++ str ":" ++ [dquote] ++ str "../../etc/rc.conf" ++ [dquote] ++ str "}".

Example traversal_unlinked r : workDir r = str "/tmp/crate-migrate.a1b2c3" ->
  let '(log, file, res) := transfer (fun _ => Some hostileBody) r in
  log ++ cleanup (workDir r) file = [stepAct (buildExportStep r); Unlink (str "/tmp/crate-migrate.a1b2c3/../../etc/rc.conf"); Rmdir (str "/tmp/crate-migrate.a1b2c3")].
Proof. intros E. rewrite E. reflexivity. Qed.

(** A port of twenty digits passes: the [long] wraps. *)
Example port_wraps : validatePort (str "18446744073709551617") = [] /\ validateEndpoint (str "db:18446744073709551617") = [].
Proof. split; reflexivity. Qed.
End Migrate.

Module Replicate.
Import CStd NetAddr.

(** ** Snapshot lists: lib/zfs_dataset_pure.cpp *)

Definition lineEnd (c : ascii) : bool := Ascii.eqb c cr || Ascii.eqb c " " || Ascii.eqb c tab.
Fixpoint dropEnd (s : bytes) : bytes := match s with c :: t => if lineEnd c then dropEnd t else s | [] => [] end.

(** The suffix a line of [zfs list] gives, if it is a snapshot of the dataset
    with the prefix. *)
Definition suffixOf (dataset prefix raw : bytes) : list bytes :=
  let line := rev (dropEnd (rev raw)) in
  if is_empty line || starts_with (str "#") line then []
  else if negb (starts_with (dataset ++ str "@" ++ prefix) line) then []
  else let suffix := drop (length dataset + 1) line in
       if (length suffix <=? length prefix)%nat then []
       else if has_char "/" suffix || has_char "@" suffix then [] else [suffix].

Definition snapshotSuffixes (out dataset prefix : bytes) : list bytes := if is_empty dataset then [] else flat_map (suffixOf dataset prefix) (getlines out).

Definition pickLatestSuffix (out dataset prefix : bytes) : bytes :=
  fold_left (fun best s => if bytes_ltb best s then s else best) (snapshotSuffixes out dataset prefix) [].

(** The best suffix so far and what follows its prefix. *)
Definition onCommon (remote : list bytes) (prefix : bytes) (best : bytes * bytes) (s : bytes) : bytes * bytes :=
  if negb (existsb (beq s) remote) then best
  else let body := drop (length prefix) s in if bytes_ltb (snd best) body then (s, body) else best.

Definition onPrefix (localOut localDataset remoteOut remoteDataset : bytes) (best : bytes * bytes) (prefix : bytes) : bytes * bytes :=
  if is_empty prefix then best
  else fold_left (onCommon (snapshotSuffixes remoteOut remoteDataset prefix) prefix) (snapshotSuffixes localOut localDataset prefix) best.

Definition pickLatestCommonSuffix (localOut localDataset remoteOut remoteDataset : bytes) (prefixes : list bytes) : bytes :=
  fst (fold_left (onPrefix localOut localDataset remoteOut remoteDataset) prefixes ([], [])).

(** ** Validators *)

Definition isValidUser (u : bytes) : bool := negb (is_empty u || (32 <? size_z u)) && forallb Backup.nameChar u.

Definition shellMeta : bytes := str "';`$|&<>" ++ [dquote; chr 92; newline; cr; tab].
Definition hasShellMetachar (s : bytes) : bool := existsb (one_of shellMeta) s.

Record SshSpec := { user : bytes; host : bytes; port : Z; identityFile : bytes; configFile : bytes; extraOpts : list bytes }.
#[global] Instance eta_SshSpec : Eta SshSpec := fun r => {|
  user := user r; host := host r; port := port r; identityFile := identityFile r; configFile := configFile r; extraOpts := extraOpts r |}.
Definition noSsh : SshSpec := {| user := []; host := []; port := 0; identityFile := []; configFile := []; extraOpts := [] |}.

(** The error, or the user and the host. *)
Definition parseSshRemote (remote : bytes) (out : SshSpec) : bytes + SshSpec :=
  if is_empty remote then inl (str "ssh remote is empty")
  else if 256 <? size_z remote then inl (str "ssh remote longer than 256 chars")
  else if hasShellMetachar remote then inl (str "ssh remote contains shell metacharacters")
  else
    let '(u, h, bad) := match find_char "@" remote with
                        | Some at_ => (take at_ remote, drop (S at_) remote, negb (isValidUser (take at_ remote)))
                        | None => ([], remote, false)
                        end in
    if bad then inl (str "ssh remote user contains invalid characters")
    else if is_empty h then inl (str "ssh remote host is empty")
    else if looksLikeV4Shape h && negb (isV4 h) then inl (str "ssh remote host looks like IPv4 but has invalid octets")
    else if negb (looksLikeV4Shape h) && negb (isHostname h) then inl (str "ssh remote host is neither IPv4 nor a valid hostname")
    else inr (out <| user := u |> <| host := h |>).

Definition validateSshRemote (remote : bytes) : bytes := match parseSshRemote remote noSsh with inl e => e | inr _ => [] end.

(** [char] is signed: bytes from 0x80 on are below 0x20. *)
Fixpoint optValue (s : bytes) : bytes :=
  match s with
  | [] => []
  | c :: t =>
      reject ((code c <? 0x20) || (0x7f <=? code c)) with str "ssh-opt VALUE contains a control character";
      reject (Ascii.eqb c " " || Ascii.eqb c tab) with str "ssh-opt VALUE contains whitespace";
      optValue t
  end.

Definition validateSshOpt (kv : bytes) : bytes :=
  reject (is_empty kv) with str "ssh-opt is empty";
  reject (256 <? size_z kv) with str "ssh-opt longer than 256 chars";
  match find_char "=" kv with
  | None => str "ssh-opt must be KEY=VALUE"
  | Some O => str "ssh-opt KEY is empty"
  | Some eq =>
      reject (64 <? Z.of_nat eq) with str "ssh-opt KEY longer than 64 chars";
      reject (negb (forallb is_alnum (take eq kv))) with str "ssh-opt KEY must be alphanumeric";
      ensure optValue (drop (S eq) kv);
      reject (hasShellMetachar (drop (S eq) kv)) with str "ssh-opt VALUE contains shell metacharacters";
      []
  end.

Definition validateSshKey (path : bytes) : bytes :=
  reject (is_empty path) with str "ssh-key path is empty";
  reject (1024 <? size_z path) with str "ssh-key path longer than 1024 chars";
  reject (negb (starts_with (str "/") path)) with str "ssh-key path must be absolute";
  reject (Backup.hasDotDotSegment path) with str "ssh-key path must not contain '..' segments";
  reject (hasShellMetachar path) with str "ssh-key path contains shell metacharacters";
  [].

Definition validateDestDataset (ds : bytes) : bytes :=
  reject (is_empty ds) with str "destination dataset is empty";
  reject (256 <? size_z ds) with str "destination dataset longer than 256 chars";
  reject (starts_with (str "/") ds || backIs "/" ds) with str "destination dataset must not start or end with '/'";
  reject (has_sub (str "//") ds) with str "destination dataset must not contain empty path segments";
  ensure check_chars (fun c => Backup.nameChar c || Ascii.eqb c "/") (str "destination dataset") ds;
  reject (existsb (fun seg => beq seg (str ".") || beq seg (str "..")) (split_on "/" ds)) with str "destination dataset must not contain '.' or '..' segments";
  [].

(** ** Commands *)

Definition buildSshArgv (ssh : SshSpec) (remoteCommand : bytes) : list bytes :=
  [str "/usr/bin/ssh"; str "-o"; str "BatchMode=yes"; str "-o"; str "ServerAliveInterval=30"]
  ++ (if negb (port ssh =? 0) then [str "-p"; dec (port ssh)] else [])
  ++ (if negb (is_empty (identityFile ssh)) then [str "-i"; identityFile ssh] else [])
  ++ (if negb (is_empty (configFile ssh)) then [str "-F"; configFile ssh] else [])
  ++ flat_map (fun o => [str "-o"; o]) (extraOpts ssh)
  ++ [if negb (is_empty (user ssh)) then user ssh ++ str "@" ++ host ssh else host ssh; remoteCommand].

Definition buildRemoteRecvCommand (dest : bytes) : bytes := str "zfs recv " ++ dest.
Definition buildRemoteListSnapshotsCommand (dest : bytes) : bytes := str "zfs list -H -t snapshot -o name -d 1 " ++ dest.

Record ReplicateRequest := { sourceDataset : bytes; currSnapshotSuffix : bytes; prevSnapshotSuffix : bytes; destDataset : bytes; ssh : SshSpec }.

Definition buildReplicationPipeline (r : ReplicateRequest) : list (list bytes) :=
  [Backup.buildSendArgv (sourceDataset r) (currSnapshotSuffix r) (prevSnapshotSuffix r); buildSshArgv (ssh r) (buildRemoteRecvCommand (destDataset r))].

Definition listSnapshotsArgv (dataset : bytes) : list bytes :=
  [str "/sbin/zfs"; str "list"; str "-H"; str "-t"; str "snapshot"; str "-o"; str "name"; str "-d"; str "1"; dataset].

(** ** [replicateCrate] *)

Inductive Act := Exec (argv : list bytes) | Pipeline (stages : list (list bytes)).
(** The output of a command, given everything that ran before it ([None]: it
    failed). *)
Definition World : Type := list Act -> Act -> option bytes.

Definition validateRequest (a : Args.Args) : bytes :=
  ensure Backup.validateJailName (Args.replicateTarget a);
  ensure validateSshRemote (Args.replicateTo a) as "--to: ";
  ensure validateDestDataset (Args.replicateDestDataset a) as "--dest-dataset: ";
  ensure (if is_empty (Args.replicateSshKey a) then [] else validateSshKey (Args.replicateSshKey a)) as "--ssh-key: ";
  ensure (if is_empty (Args.replicateSshConfig a) then [] else validateSshKey (Args.replicateSshConfig a)) as "--ssh-config: ";
  ensure (match List.find (fun o => negb (is_empty (validateSshOpt o))) (Args.replicateSshOpts a) with
          | Some o => str "--ssh-opt '" ++ o ++ str "': " ++ validateSshOpt o
          | None => []
          end);
  ensure (if is_empty (Args.replicateSince a) then [] else Backup.validateSinceName (Args.replicateSince a)) as "--since: ";
  [].

(** What is known about a base: two listings, one of them over ssh. *)
Definition listings (w : World) (a : Args.Args) (source : bytes) (spec : SshSpec) : list Act * Backup.Inputs :=
  let given := negb (is_empty (Args.replicateSince a)) in
  let input prior := {| Backup.sinceProvided := given; Backup.sinceName := Args.replicateSince a; Backup.priorBackupExists := negb (is_empty prior); Backup.priorSnapshotSuffix := prior |} in
  if negb given && Args.replicateAutoIncremental a then
    let l1 := Exec (listSnapshotsArgv source) in
    let l2 := Exec (buildSshArgv spec (buildRemoteListSnapshotsCommand (Args.replicateDestDataset a))) in
    ([l1; l2], input (pickLatestCommonSuffix (default [] (w [] l1)) source (default [] (w [l1] l2)) (Args.replicateDestDataset a) [Backup.kReplPrefix; Backup.kBackupPrefix]))
  else ([], input []).

(** [datasetForJail] is the argument [dataset], the clock [time]. *)
Definition replicateCrate (w : World) (dataset : bytes + bytes) (time : Z) (a : Args.Args) : list Act * (bytes + unit) :=
  let e := validateRequest a in
  if negb (is_empty e) then ([], inl e)
  else match dataset with
       | inl e => ([], inl e)
       | inr source =>
           match parseSshRemote (Args.replicateTo a) noSsh with
           | inl e => ([], inl (str "--to: " ++ e))
           | inr spec0 =>
               let spec := spec0 <| port := Args.replicateSshPort a |> <| identityFile := Args.replicateSshKey a |> <| configFile := Args.replicateSshConfig a |> <| extraOpts := Args.replicateSshOpts a |> in
               let '(log, inputs) := listings w a source spec in
               let p := Backup.choosePlan inputs (Args.replicateAutoIncremental a) in
               match Backup.p_kind p with
               | Backup.PlanError => (log, inl (Backup.p_reason p))
               | k =>
                   let r := {| sourceDataset := source; currSnapshotSuffix := Backup.snapshotSuffixWithPrefix Backup.kReplPrefix time;
                               prevSnapshotSuffix := match k with Backup.Incremental => Backup.sinceSuffix p | _ => [] end;
                               destDataset := Args.replicateDestDataset a; ssh := spec |} in
                   let take_ := Exec (Backup.buildSnapshotArgv source (currSnapshotSuffix r)) in
                   let send := Pipeline (buildReplicationPipeline r) in
                   match w log take_ with
                   | None => (log ++ [take_], inl (str "zfs snapshot"))
                   | Some _ =>
                       match w (log ++ [take_]) send with
                       | Some _ => (log ++ [take_; send], inr tt)
                       | None => (log ++ [take_; send; Exec (Backup.buildDestroySnapshotArgv source (currSnapshotSuffix r))], inl (str "zfs send | ssh ... zfs recv"))
                       end
                   end
               end
           end
       end.

(** ** The base of an incremental stream *)

(** A listing has a line for the snapshot. *)
Definition listed (out dataset suffix : bytes) : Prop := exists raw, In raw (getlines out) /\ rev (dropEnd (rev raw)) = dataset ++ str "@" ++ suffix.

Lemma suffixOf_listed dataset prefix raw s : In s (suffixOf dataset prefix raw) -> rev (dropEnd (rev raw)) = dataset ++ str "@" ++ s.
Proof.
  unfold suffixOf. set (l := rev (dropEnd (rev raw))). destruct (is_empty l || starts_with (str "#") l); [done|].
  destruct (starts_with (dataset ++ str "@" ++ prefix) l) eqn:E; cbn [negb]; [|done]. destruct (length _ <=? length prefix)%nat; [done|]. destruct (_ || _); [done|].
  intros [<-|[]]. apply starts_with_spec in E as [t ->]. rewrite <- !app_assoc. rewrite drop_app, drop_ge by lia.
  replace (length dataset + 1 - length dataset)%nat with 1%nat by lia. reflexivity.
Qed.

Lemma snapshotSuffixes_listed out dataset prefix s : In s (snapshotSuffixes out dataset prefix) -> listed out dataset s.
Proof.
  unfold snapshotSuffixes. destruct (is_empty dataset); [done|]. intros (raw & Hr & Hs)%in_flat_map. exists raw. split; [done|]. by eapply suffixOf_listed.
Qed.

Section common.
Context (localOut localDataset remoteOut remoteDataset : bytes).

(** A snapshot with the prefix that both listings have. *)
Definition shared (prefix s : bytes) : Prop :=
  prefix <> [] /\ In s (snapshotSuffixes localOut localDataset prefix) /\ In s (snapshotSuffixes remoteOut remoteDataset prefix).

(** What the search keeps: [seen] are the snapshots looked at. *)
Definition keeps (seen : list (bytes * bytes)) (best : bytes * bytes) : Prop :=
  (best = ([], []) \/ exists p, shared p (fst best) /\ snd best = drop (length p) (fst best))
  /\ (forall p s, In (p, s) seen -> shared p s -> bytes_ltb (snd best) (drop (length p) s) = false).

Lemma onCommon_keeps seen prefix best s : keeps seen best -> prefix <> [] -> In s (snapshotSuffixes localOut localDataset prefix) ->
  keeps (seen ++ [(prefix, s)]) (onCommon (snapshotSuffixes remoteOut remoteDataset prefix) prefix best s).
Proof.
  intros [B M] Np Hs. unfold onCommon. destruct (existsb (beq s) _) eqn:E; cbn [negb].
  - apply existsb_exists in E as (x & Hx & <-%beq_eq). cbv zeta. destruct (bytes_ltb (snd best) (drop (length prefix) s)) eqn:L; split.
    + right. exists prefix. done.
    + intros p t Hin Sh. cbn [snd]. apply in_app_iff in Hin as [Hin|[[= <- <-]|[]]]; [|apply bytes_ltb_irrefl].
      specialize (M p t Hin Sh). apply not_true_iff_false. intros L'. by rewrite (bytes_ltb_trans _ _ _ L L') in M.
    + done.
    + intros p t Hin Sh. apply in_app_iff in Hin as [Hin|[[= <- <-]|[]]]; [by apply M|done].
  - split; [done|]. intros p t Hin Sh. apply in_app_iff in Hin as [Hin|[[= <- <-]|[]]]; [by apply M|]. destruct Sh as (_ & _ & Hr).
    assert (existsb (beq s) (snapshotSuffixes remoteOut remoteDataset prefix) = true) by (apply existsb_exists; exists s; split; [done|apply beq_refl]). congruence.
Qed.

Lemma onPrefix_keeps seen prefix best : keeps seen best ->
  keeps (seen ++ map (pair prefix) (snapshotSuffixes localOut localDataset prefix)) (onPrefix localOut localDataset remoteOut remoteDataset best prefix).
Proof.
  intros K. unfold onPrefix. destruct prefix as [|c prefix].
  { cbn [is_empty]. destruct K as [B M]. split; [done|]. intros p s Hin Sh. apply in_app_iff in Hin as [Hin|(x & [= <- <-] & _)%in_map_iff]; [by apply M|]. by destruct Sh. }
  cbn [is_empty]. set (pre := c :: prefix) in *.
  assert (G : forall l seen best, keeps seen best -> incl l (snapshotSuffixes localOut localDataset pre) ->
    keeps (seen ++ map (pair pre) l) (fold_left (onCommon (snapshotSuffixes remoteOut remoteDataset pre) pre) l best)).
  { clear K seen best. intros l. induction l as [|s l IH]; intros seen best K I; cbn [map fold_left]; [by rewrite app_nil_r|].
    replace (seen ++ (pre, s) :: map (pair pre) l) with ((seen ++ [(pre, s)]) ++ map (pair pre) l) by (by rewrite <- app_assoc).
    apply IH; [|intros x Hx; apply I; by right]. apply onCommon_keeps; [done|done|]. apply I. by left. }
  apply G; [done|apply incl_refl].
Qed.

(** The newest snapshot, by the text behind the prefix, that both have. *)
Lemma pickLatestCommonSuffix_spec prefixes : let best := pickLatestCommonSuffix localOut localDataset remoteOut remoteDataset prefixes in
  (best = [] \/ exists p, shared p best /\ forall p' s, In p' prefixes -> shared p' s -> bytes_ltb (drop (length p) best) (drop (length p') s) = false).
Proof.
  assert (G : forall ps seen best, keeps seen best ->
    exists seen', keeps seen' (fold_left (onPrefix localOut localDataset remoteOut remoteDataset) ps best) /\ incl seen seen' /\
      forall p s, In p ps -> shared p s -> In (p, s) seen').
  { intros ps. induction ps as [|p ps IH]; intros seen best K; cbn [fold_left]; [exists seen; split; [done|]; split; [apply incl_refl|done]|].
    destruct (IH _ _ (onPrefix_keeps seen p best K)) as (seen' & K' & I & H). exists seen'. split; [done|]. split; [intros x Hx; apply I, in_app_iff; by left|].
    intros q s [->|Hq] Sh; [|by apply H]. apply I, in_app_iff. right. apply in_map_iff. exists s. split; [done|]. by destruct Sh as (_ & ? & _). }
  destruct (G prefixes [] ([], [])) as (seen & [B M] & _ & H); [split; [by left|done]|]. unfold pickLatestCommonSuffix. cbv zeta.
  destruct (fold_left _ prefixes ([], [])) as [best body]. cbn [fst snd] in *. destruct B as [[= -> ->]|(p & Sh & ->)]; [by left|].
  right. exists p. split; [done|]. intros p' s Hp Sh'. by apply M, Sh'; apply H.
Qed.
End common.

Lemma listings_base w a source spec :
  (forall stages, ~ In (Pipeline stages) (fst (listings w a source spec)))
  /\ (Args.replicateSince a = [] ->
        let p := Backup.choosePlan (snd (listings w a source spec)) (Args.replicateAutoIncremental a) in
        let l1 := Exec (listSnapshotsArgv source) in
        let l2 := Exec (buildSshArgv spec (buildRemoteListSnapshotsCommand (Args.replicateDestDataset a))) in
        Backup.sinceSuffix p = [] \/ listed (default [] (w [] l1)) source (Backup.sinceSuffix p) /\ listed (default [] (w [l1] l2)) (Args.replicateDestDataset a) (Backup.sinceSuffix p)).
Proof.
  unfold listings. cbv zeta. split; [intros st; destruct (_ && _); cbn [fst In]; [by intros [H|[H|[]]]|by intros []]|].
  intros ->. cbn [is_empty negb andb]. destruct (Args.replicateAutoIncremental a); [|by left]. cbn [snd]. unfold Backup.choosePlan. cbn [Backup.sinceProvided Backup.priorBackupExists Backup.priorSnapshotSuffix andb].
  match goal with |- context [pickLatestCommonSuffix ?lo ?ld ?ro ?rd ?ps] => destruct (pickLatestCommonSuffix_spec lo ld ro rd ps) as [E|(p & (_ & Hl & Hr) & _)] end.
  - left. cbv zeta in E. rewrite E. reflexivity.
  - destruct (is_empty _); cbn [negb Backup.sinceSuffix]; [by left|right]. split; by eapply snapshotSuffixes_listed.
Qed.

Lemma validateRequest_dest a : validateRequest a = [] -> validateDestDataset (Args.replicateDestDataset a) = [].
Proof. unfold validateRequest. by rewrite !guard_err_nil; intros (_ & _ & H & _). Qed.

(** C25: Replication never bases a stream on a snapshot that one side lacks.
    Whatever zfs and ssh answer, a stream that is sent is that of the snapshot
    just taken, to the validated destination; without --since it is full, or
    incremental from a snapshot that the listings of both sides show; and when
    the pipeline fails, the snapshot taken for it is destroyed, so that it can
    never become a base. *)
Theorem replication_base_is_common w dataset time a : let '(log, res) := replicateCrate w dataset time a in
  let dest := Args.replicateDestDataset a in
  let now := Backup.snapshotSuffixWithPrefix Backup.kReplPrefix time in
  forall stages, In (Pipeline stages) log -> exists source prev spec,
    dataset = inr source /\ validateDestDataset dest = []
    /\ stages = [Backup.buildSendArgv source now prev; buildSshArgv spec (str "zfs recv " ++ dest)]
    /\ In (Exec (Backup.buildSnapshotArgv source now)) log
    /\ (Args.replicateSince a = [] -> prev = [] \/
          let l1 := Exec (listSnapshotsArgv source) in
          let l2 := Exec (buildSshArgv spec (str "zfs list -H -t snapshot -o name -d 1 " ++ dest)) in
          listed (default [] (w [] l1)) source prev /\ listed (default [] (w [l1] l2)) dest prev)
    /\ (res = inr tt \/ In (Exec (Backup.buildDestroySnapshotArgv source now)) log).
Proof.
  unfold replicateCrate. cbv zeta. destruct (is_empty (validateRequest a)) eqn:V; cbn [negb]; [|done]. apply is_empty_true in V.
  destruct dataset as [e|source]; [done|]. destruct (parseSshRemote (Args.replicateTo a) noSsh) as [e|spec0]; [done|].
  set (spec := spec0 <| port := _ |> <| identityFile := _ |> <| configFile := _ |> <| extraOpts := _ |>).
  destruct (listings w a source spec) as [log0 inputs] eqn:L. destruct (listings_base w a source spec) as [Hlog Hbase]. rewrite L in Hlog, Hbase. cbn [fst snd] in Hlog, Hbase.
  assert (D : validateDestDataset (Args.replicateDestDataset a) = []) by (by apply validateRequest_dest).
  assert (S : forall tail stages, In (Pipeline stages) (log0 ++ tail) -> In (Pipeline stages) tail) by (intros tail st [H|H]%in_app_iff; [by apply Hlog in H|done]).
  destruct (Backup.p_kind (Backup.choosePlan inputs (Args.replicateAutoIncremental a))) eqn:K.
  3: { cbv beta iota zeta. intros st H. exfalso. by apply Hlog in H. }
  all: destruct (w log0 _); [destruct (w (log0 ++ _) _)|]; cbv beta iota zeta; intros st Hst; apply S in Hst; cbn [In] in Hst.
  all: repeat (destruct Hst as [Hst|Hst]; [first [discriminate Hst|injection Hst as <-]|]); try done.
  all: exists source; eexists; exists spec; (split; [done|]); (split; [done|]); (split; [reflexivity|]).
  all: (split; [apply in_app_iff; right; by left|]).
  all: split; [intros Hn; first [by left|apply Hbase; done]|].
  all: first [by left|right; apply in_app_iff; right; right; right; by left].
Qed.

#[local] Existing Instance Args.etaArgs.

(** Both sides have the first of two snapshots. *)
Definition sampleArgs : Args.Args :=
  ((((Args.fresh Args.CmdReplicate) <| Args.replicateTarget := str "web" |>) <| Args.replicateTo := str "ann@backup.example.org" |>)
    <| Args.replicateDestDataset := str "vault/web" |>) <| Args.replicateAutoIncremental := true |>.

Definition sampleWorld : World := fun _ c =>
  match c with
  | Exec (p :: _) => if beq p (str "/usr/bin/ssh") then Some (str "vault/web@repl-2026-01-01T00:00:00Z" ++ [newline])
                     else Some (str "tank/web@repl-2026-01-01T00:00:00Z" ++ [newline] ++ str "tank/web@backup-2026-02-01T00:00:00Z" ++ [newline])
  | _ => Some []
  end.

Definition sampleStages : list (list bytes) := [
  Backup.buildSendArgv (str "tank/web") (Backup.snapshotSuffixWithPrefix Backup.kReplPrefix 1772323200) (str "repl-2026-01-01T00:00:00Z");
  buildSshArgv (noSsh <| user := str "ann" |> <| host := str "backup.example.org" |>) (str "zfs recv vault/web")].

Lemma replication_base_is_common_witness :
  In (Pipeline sampleStages) (fst (replicateCrate sampleWorld (inr (str "tank/web")) 1772323200 sampleArgs))
  /\ exists source prev, inr (str "tank/web") = (inr source : bytes + bytes)
     /\ head sampleStages = Some (Backup.buildSendArgv source (Backup.snapshotSuffixWithPrefix Backup.kReplPrefix 1772323200) prev)
     /\ (prev = [] \/ listed (default [] (sampleWorld [] (Exec (listSnapshotsArgv source)))) source prev).
Proof.
  assert (R : In (Pipeline sampleStages) (fst (replicateCrate sampleWorld (inr (str "tank/web")) 1772323200 sampleArgs))) by (vm_compute; tauto).
  split; [exact R|]. pose proof (replication_base_is_common sampleWorld (inr (str "tank/web")) 1772323200 sampleArgs) as H.
  destruct (replicateCrate sampleWorld (inr (str "tank/web")) 1772323200 sampleArgs) as [log res]. cbn [fst] in R.
  destruct (H _ R) as (source & prev & spec & D & _ & St & _ & B & _). exists source, prev. split; [exact D|]. split; [rewrite St; reflexivity|].
  destruct (B eq_refl) as [E|[L _]]; [left; exact E|right; exact L].
Defined.
End Replicate.
