(* ===== verification/VpnConf.v ===== *)
(** * VPN configurations: lib/wireguard_pure.cpp, ipsec_pure.cpp

    [crate vpn] checks a description of an interface with its peers, or of IPsec
    connections, and prints the configuration file for wg-quick(8) or
    strongSwan. *)

From S2P Require Import Prelude CStd NetAddr Migrate.

Module Wireguard.
Import CStd NetAddr.

Definition isBase64Char (c : ascii) : bool := is_upper c || is_lower c || is_digit c || Ascii.eqb c "+" || Ascii.eqb c "/".

Definition isControl (c : ascii) : bool := (code c <? 0x20) || (code c =? 0x7f).
Definition hasControlChar (s : bytes) : bool := existsb isControl s.

Definition validateKey (k : bytes) : bytes :=
  reject (negb (size_z k =? 44)) with str "WireGuard key must be exactly 44 base64 characters (32 raw bytes)";
  reject (negb (backIs "=" k)) with str "WireGuard key must end with '=' padding";
  reject (negb (forallb isBase64Char (take 43 k))) with str "WireGuard key contains a non-base64 character";
  [].

(** The loop leaves as soon as the number is too large. *)
Fixpoint portLoop (n : Z) (s : bytes) : option Z :=
  match s with
  | [] => Some n
  | c :: t => let n' := n * 10 + digit_val c in if 65535 <? n' then None else portLoop n' t
  end.

Definition validatePort (port : bytes) : bytes :=
  let range := str "ListenPort out of range (1..65535)" in
  reject (is_empty port) with str "ListenPort is empty";
  reject (negb (forallb is_digit port)) with str "ListenPort must be numeric";
  match portLoop 0 port with
  | None => range
  | Some n => if n <? 1 then range else []
  end.

(** The prefix is accumulated in a [long] without a check. *)
Definition prefixValue (s : bytes) : Z := fold_left (fun n c => i64 (n * 10 + digit_val c)) s 0.

Definition validateCidr (cidr : bytes) : bytes :=
  reject (is_empty cidr) with str "CIDR is empty";
  match find_char "/" cidr with
  | None => str "CIDR must include a '/<prefix>' suffix"
  | Some slash =>
      let host := take slash cidr in
      let prefix := drop (S slash) cidr in
      reject (is_empty host) with str "CIDR host part is empty";
      reject (is_empty prefix) with str "CIDR prefix is empty";
      reject (negb (forallb is_digit prefix)) with str "CIDR prefix must be numeric";
      let p := prefixValue prefix in
      let v4 := isV4 host in
      reject (negb v4 && negb (isV6 host)) with str "CIDR host part is neither valid IPv4 nor IPv6";
      reject ((p <? 0) || ((if v4 then 32 else 128) <? p)) with (if v4 then str "IPv4 CIDR prefix must be 0..32" else str "IPv6 CIDR prefix must be 0..128");
      []
  end.

Definition validateEndpoint (endpoint : bytes) : bytes :=
  reject (is_empty endpoint) with str "endpoint is empty";
  if starts_with (str "[") endpoint then
    match find_char "]" endpoint with
    | None => str "endpoint missing closing ']'"
    | Some rb =>
        reject (negb (starts_with (str ":") (drop (S rb) endpoint))) with str "endpoint missing ':' after ']'";
        reject (negb (isV6 (take (rb - 1) (drop 1 endpoint)))) with str "endpoint IPv6 literal is malformed";
        validatePort (drop (rb + 2) endpoint)
    end
  else
    match rfind_sub (str ":") endpoint with
    | None => str "endpoint must be host:port"
    | Some colon =>
        reject (negb (isV4 (take colon endpoint)) && negb (isHostname (take colon endpoint))) with str "endpoint host is neither IPv4 nor a valid hostname";
        validatePort (drop (S colon) endpoint)
    end.

Record InterfaceSpec := { privateKey : bytes; addresses : list bytes; listenPort : bytes; fwmark : bytes; dns : list bytes; mtu : list bytes }.
Record PeerSpec := { publicKey : bytes; presharedKey : bytes; allowedIps : list bytes; endpoint : bytes; persistentKeepalive : bytes; description : bytes }.

(** The first element that a check refuses, with its message. *)
Fixpoint firstBad {A} (check : A -> bytes) (msg : A -> bytes -> bytes) (l : list A) : bytes :=
  match l with
  | [] => []
  | x :: t => let e := check x in if is_empty e then firstBad check msg t else msg x e
  end.

Definition optional (check : bytes -> bytes) (s : bytes) : bytes := if is_empty s then [] else check s.

Definition validatePeer (i : nat) (p : PeerSpec) : bytes :=
  let peer m := str "peer #" ++ dec (Z.of_nat (i + 1)) ++ m in
  let e := validateKey (publicKey p) in
  reject (negb (is_empty e)) with (peer (str " PublicKey: " ++ e));
  let e := optional validateKey (presharedKey p) in
  reject (negb (is_empty e)) with (peer (str " PresharedKey: " ++ e));
  reject (is_empty (allowedIps p)) with (peer (str " must have at least one AllowedIPs entry"));
  let e := firstBad validateCidr (fun a e => peer (str " AllowedIPs '" ++ a ++ str "': " ++ e)) (allowedIps p) in
  reject (negb (is_empty e)) with e;
  let e := optional validateEndpoint (endpoint p) in
  reject (negb (is_empty e)) with (peer (str " Endpoint: " ++ e));
  reject (negb (forallb is_digit (persistentKeepalive p))) with (peer (str " PersistentKeepalive must be numeric"));
  reject (hasControlChar (description p)) with (peer (str " description contains a control character"));
  [].

Fixpoint validatePeers (i : nat) (l : list PeerSpec) : bytes :=
  match l with
  | [] => []
  | p :: t => let e := validatePeer i p in if is_empty e then validatePeers (S i) t else e
  end.

Definition validateConfig (f : InterfaceSpec) (peers : list PeerSpec) : bytes :=
  ensure validateKey (privateKey f) as "interface PrivateKey: ";
  reject (is_empty (addresses f)) with str "interface must have at least one Address";
  ensure firstBad validateCidr (fun a e => str "interface Address '" ++ a ++ str "': " ++ e) (addresses f);
  ensure optional validatePort (listenPort f) as "interface ListenPort: ";
  reject (hasControlChar (fwmark f)) with str "interface FwMark contains a control character";
  ensure firstBad (fun d => if hasControlChar d then str "control" else []) (fun d _ => str "interface DNS entry '" ++ d ++ str "' contains a control character") (dns f);
  reject (match mtu f with m :: _ => hasControlChar m | [] => false end) with str "interface MTU contains a control character";
  reject (is_empty peers) with str "config must have at least one [Peer] section";
  validatePeers 0 peers.

(** ** The file *)

Definition line (l : bytes) : bytes := l ++ [newline].
Definition emitCsvList (key : string) (v : list bytes) : bytes :=
  match v with [] => [] | _ => line (str key ++ str " = " ++ joined (str ", ") v) end.
Definition emit (key : string) (v : bytes) : bytes := if is_empty v then [] else line (str key ++ str " = " ++ v).

Definition renderPeer (p : PeerSpec) : bytes :=
  line [] ++ (if is_empty (description p) then [] else line (str "# " ++ description p)) ++ line (str "[Peer]")
  ++ line (str "PublicKey = " ++ publicKey p) ++ emit "PresharedKey" (presharedKey p) ++ emitCsvList "AllowedIPs" (allowedIps p)
  ++ emit "Endpoint" (endpoint p) ++ emit "PersistentKeepalive" (persistentKeepalive p).

Definition renderConf (f : InterfaceSpec) (peers : list PeerSpec) : bytes :=
  line (str "# Generated by crate(8) — wg-quick(8) compatible.") ++ line (str "# Apply with: wg-quick up <this-file>") ++ line []
  ++ line (str "[Interface]") ++ line (str "PrivateKey = " ++ privateKey f) ++ emitCsvList "Address" (addresses f)
  ++ emit "ListenPort" (listenPort f) ++ emit "FwMark" (fwmark f) ++ emitCsvList "DNS" (dns f) ++ emit "MTU" (match mtu f with m :: _ => m | [] => [] end)
  ++ concat (map renderPeer peers).
End Wireguard.

Module Ipsec.
Import CStd NetAddr.

Definition validateHost (host : bytes) : bytes :=
  reject (is_empty host) with str "host is empty";
  if beq host (str "%any") then []
  else if starts_with (str "[") host && backIs "]" host then
    reject (negb (isV6 (take (length host - 2) (drop 1 host)))) with str "host IPv6 literal is malformed"; []
  else if looksLikeV4Shape host then (if isV4 host then [] else str "host looks like IPv4 but has invalid octets")
  else if isV6 host || isHostname host then []
  else str "host is neither a valid IPv4, IPv6, nor hostname".

Definition validateSubnet (subnet : bytes) : bytes :=
  reject (is_empty subnet) with str "subnet is empty";
  match find_char "/" subnet with
  | None => str "subnet must include a '/<prefix>' suffix"
  | Some slash =>
      let host := take slash subnet in
      let prefix := drop (S slash) subnet in
      reject (is_empty host) with str "subnet host part is empty";
      reject (is_empty prefix) with str "subnet prefix is empty";
      reject (negb (forallb is_digit prefix)) with str "subnet prefix must be numeric";
      let p := Wireguard.prefixValue prefix in
      let v4 := isV4 host in
      reject (negb v4 && negb (isV6 host)) with str "subnet host is neither IPv4 nor IPv6";
      reject ((p <? 0) || ((if v4 then 32 else 128) <? p)) with (if v4 then str "IPv4 subnet prefix must be 0..32" else str "IPv6 subnet prefix must be 0..128");
      []
  end.

Definition validateProposal (p : bytes) : bytes :=
  reject (is_empty p) with str "proposal is empty";
  reject (128 <? size_z p) with str "proposal is longer than 128 chars";
  check_chars (fun c => is_alnum c || Ascii.eqb c "-" || Ascii.eqb c "_") (str "proposal") p.

Definition oneOf (l : list string) (v : bytes) : bool := existsb (fun x => beq v (str x)) l.

Definition validateAuto (v : bytes) : bytes :=
  if oneOf ["ignore"; "add"; "route"; "start"]%string v then [] else str "auto must be one of: ignore | add | route | start".
Definition validateAuthby (v : bytes) : bytes :=
  if oneOf ["psk"; "pubkey"; "rsasig"; "ecdsasig"; "never"]%string v then [] else str "authby must be one of: psk | pubkey | rsasig | ecdsasig | never".

Definition validateConnName (name : bytes) : bytes :=
  reject (is_empty name) with str "conn name is empty";
  reject (32 <? size_z name) with str "conn name is longer than 32 chars";
  reject (beq name (str "%default")) with str "conn name '%default' is reserved";
  check_chars (fun c => is_alnum c || one_of (str "._-") c) (str "conn name") name.

Record ConnSpec := {
  name : bytes; left_ : bytes; leftSubnet : list bytes; leftId : bytes; right_ : bytes; rightSubnet : list bytes; rightId : bytes; ike : bytes; esp : bytes;
  keyExchange : bytes; authBy : bytes; autoStart : bytes; description : bytes }.

Definition prefixed (i : nat) (msg : bytes) : bytes := str "conn #" ++ dec (Z.of_nat (i + 1)) ++ str ": " ++ msg.

(** The checks of one connection, without its number. *)
Definition validateConn (c : ConnSpec) : bytes :=
  ensure validateConnName (name c);
  ensure validateHost (left_ c) as "left: ";
  ensure validateHost (right_ c) as "right: ";
  ensure Wireguard.firstBad validateSubnet (fun s e => str "leftsubnet '" ++ s ++ str "': " ++ e) (leftSubnet c);
  ensure Wireguard.firstBad validateSubnet (fun s e => str "rightsubnet '" ++ s ++ str "': " ++ e) (rightSubnet c);
  ensure Wireguard.optional validateProposal (ike c) as "ike: ";
  ensure Wireguard.optional validateProposal (esp c) as "esp: ";
  ensure Wireguard.optional (fun v => if oneOf ["ike"; "ikev1"; "ikev2"]%string v then [] else str "keyexchange must be ike | ikev1 | ikev2") (keyExchange c);
  ensure Wireguard.optional validateAuthby (authBy c);
  ensure Wireguard.optional validateAuto (autoStart c);
  reject (Wireguard.hasControlChar (leftId c)) with str "leftid contains a control character";
  reject (Wireguard.hasControlChar (rightId c)) with str "rightid contains a control character";
  reject (Wireguard.hasControlChar (description c)) with str "description contains a control character";
  [].

Fixpoint validateConns (i : nat) (l : list ConnSpec) : bytes :=
  match l with
  | [] => []
  | c :: t => let e := validateConn c in if is_empty e then validateConns (S i) t else prefixed i e
  end.

Definition ipsecValidateConfig (conns : list ConnSpec) : bytes :=
  reject (is_empty conns) with str "config must contain at least one conn";
  validateConns 0 conns.

(** ** The file *)

Definition ipsecEmitCsvList (key : string) (v : list bytes) : bytes :=
  match v with [] => [] | _ => Wireguard.line (str "    " ++ str key ++ str "=" ++ joined (str ",") v) end.
Definition emitOptional (key : string) (v : bytes) : bytes := if is_empty v then [] else Wireguard.line (str "    " ++ str key ++ str "=" ++ v).

Definition renderConn (c : ConnSpec) : bytes :=
  Wireguard.line [] ++ (if is_empty (description c) then [] else Wireguard.line (str "# " ++ description c)) ++ Wireguard.line (str "conn " ++ name c)
  ++ emitOptional "left" (left_ c) ++ emitOptional "leftid" (leftId c) ++ ipsecEmitCsvList "leftsubnet" (leftSubnet c)
  ++ emitOptional "right" (right_ c) ++ emitOptional "rightid" (rightId c) ++ ipsecEmitCsvList "rightsubnet" (rightSubnet c)
  ++ emitOptional "keyexchange" (keyExchange c) ++ emitOptional "ike" (ike c) ++ emitOptional "esp" (esp c) ++ emitOptional "authby" (authBy c)
  ++ emitOptional "auto" (autoStart c).

Definition ipsecRenderConf (conns : list ConnSpec) : bytes :=
  Wireguard.line (str "# Generated by crate(8) — strongSwan ipsec.conf compatible.") ++ Wireguard.line (str "# Apply with: ipsec reload && ipsec up <conn-name>") ++ Wireguard.line []
  ++ Wireguard.line (str "config setup") ++ Wireguard.line (str "    charondebug=" ++ [dquote] ++ str "ike 2, knl 2, cfg 2" ++ [dquote])
  ++ concat (map renderConn conns).
End Ipsec.

Module VpnFacts.
Import CStd NetAddr Wireguard.

(** ** Validated values have no control characters *)

Definition clean (s : bytes) : Prop := hasControlChar s = false.

Lemma clean_In s c : clean s -> In c s -> isControl c = false.
Proof. intros H Hc. apply not_true_iff_false. intros E. assert (hasControlChar s = true) by (apply existsb_exists; by exists c). unfold clean in H. congruence. Qed.

Lemma clean_line s : clean s -> ~ In newline s.
Proof. intros H Hc. by apply (clean_In s newline) in Hc. Qed.

Lemma clean_of (ok : ascii -> bool) s : (forall c, ok c = true -> isControl c = false) -> (forall c, In c s -> ok c = true) -> clean s.
Proof. intros H F. apply not_true_iff_false. intros (c & Hc & E)%existsb_exists. rewrite (H c) in E; [done|by apply F]. Qed.

Lemma clean_forallb (ok : ascii -> bool) s : forallb (fun c => implb (ok c) (negb (isControl c))) all_ascii = true -> forallb ok s = true -> clean s.
Proof.
  intros H F. apply (clean_of ok); [|by apply forallb_forall]. intros c Hc. apply negb_true_iff. by apply (ascii_implies ok (fun c => negb (isControl c))).
Qed.

Lemma clean_app a b : clean a -> clean b -> clean (a ++ b).
Proof. unfold clean, hasControlChar. intros Ha Hb. rewrite existsb_app. by rewrite Ha, Hb. Qed.

Lemma clean_take_drop n s : clean (take n s) -> clean (drop n s) -> clean s.
Proof. intros Ht Hd. rewrite <- (take_drop n s). by apply clean_app. Qed.

Lemma clean_joined sep l : clean sep -> Forall clean l -> clean (joined sep l).
Proof.
  intros Hs. induction 1 as [|x l Hx Hl IH]; [done|]. cbn [joined]. destruct l as [|y l]; [done|]. by repeat apply clean_app.
Qed.

Ltac clean_chars := first [eapply clean_forallb; [|eassumption]; vm_compute; reflexivity].

Lemma v6Loop_clean f saw prev n s : v6Loop f saw prev n s = true -> forallb (fun c => is_hex c || Ascii.eqb c ":") s = true.
Proof.
  revert saw prev n s. induction f as [|f IH]; intros saw prev n s; [done|]. cbn [v6Loop]. destruct s as [|c t]; [done|].
  destruct (starts_with (str "::") (c :: t)) eqn:E.
  - destruct saw; [done|]. apply starts_with_spec in E as [u E]. rewrite E. intros H. apply IH in H. change (drop 2 (str "::" ++ u)) with u in H. exact H.
  - destruct (Ascii.eqb_spec c ":") as [->|].
    + destruct (_ || _); [done|]. intros H. apply IH in H. cbn [forallb]. exact H.
    + destruct (hexRun 4 (c :: t)) as [h r] eqn:Eh. apply hexRun_spec in Eh as (-> & _ & Hh & _). destruct (is_empty h); [done|].
      destruct (match r with x :: _ => _ | [] => _ end); [done|]. intros H. apply IH in H. rewrite forallb_app, H, andb_true_r.
      apply forallb_forall. intros x Hx. rewrite forallb_forall in Hh. by rewrite (Hh x Hx).
Qed.

Lemma isV6_clean s : isV6 s = true -> clean s.
Proof. unfold isV6. destruct (is_empty s); [done|]. intros H%v6Loop_clean. clean_chars. Qed.

Lemma isV4_clean s : isV4 s = true -> clean s.
Proof.
  intros [_ F]%isV4_iff. apply (clean_of (fun c => is_digit c || Ascii.eqb c ".")).
  { intros c Hc. apply negb_true_iff. revert c Hc. by_bytes. }
  intros c Hin. destruct (Ascii.eqb_spec c ".") as [->|N]; [done|]. destruct (host_piece "." c s Hin N) as (w & Hw & Hc). rewrite List.Forall_forall in F. specialize (F w Hw). unfold isV4Octet in F.
  destruct (_ || _); [done|]. destruct (forallb is_digit w) eqn:D; [|done]. rewrite forallb_forall in D. by rewrite (D c Hc).
Qed.

Lemma isHostname_clean s : isHostname s = true -> clean s.
Proof.
  intros H. apply (clean_of (fun c => is_alnum c || Ascii.eqb c "-" || Ascii.eqb c ".")).
  { intros c Hc. apply negb_true_iff. revert c Hc. by_bytes. }
  intros c Hc. by apply (isHostname_chars s).
Qed.

Lemma digits_clean s : forallb is_digit s = true -> clean s.
Proof. intros H. clean_chars. Qed.

Lemma validateKey_clean k : validateKey k = [] -> clean k.
Proof.
  unfold validateKey. destruct (Z.eqb_spec (size_z k) 44) as [L|]; cbn [negb]; [|done]. destruct (backIs "=" k) eqn:B; cbn [negb]; [|done].
  destruct (forallb isBase64Char (take 43 k)) eqn:F; cbn [negb]; [|done]. intros _. apply (clean_take_drop 43); [clean_chars|].
  apply backIs_spec in B as [t ->]. assert (length t = 43)%nat by (unfold size_z in L; rewrite length_app in L; cbn in L; lia).
  rewrite drop_app, drop_ge by lia. replace (43 - length t)%nat with 0%nat by lia. reflexivity.
Qed.

Lemma validatePort_clean p : validatePort p = [] -> clean p.
Proof. unfold validatePort. destruct (is_empty p); [done|]. destruct (forallb is_digit p) eqn:F; [|done]. intros _. by apply digits_clean. Qed.

Lemma split_clean (c : ascii) i s : find_char c s = Some i -> isControl c = false -> clean (take i s) -> clean (drop (S i) s) -> clean s.
Proof.
  intros (a & b & -> & <- & _)%find_char_Some Hc Ht Hd. rewrite take_app_length in Ht. replace (S (length a)) with (length (a ++ [c])) in Hd by (rewrite length_app; cbn; lia).
  replace (a ++ c :: b) with ((a ++ [c]) ++ b) in * by (by rewrite <- app_assoc). rewrite drop_app_length in Hd. repeat apply clean_app; [done| |done].
  unfold clean, hasControlChar. cbn [existsb]. by rewrite Hc.
Qed.

Lemma validateCidr_clean a : validateCidr a = [] -> clean a.
Proof.
  unfold validateCidr. destruct (is_empty a); [done|]. destruct (find_char "/" a) as [i|] eqn:E; [|done]. cbv zeta.
  destruct (is_empty (take i a)); [done|]. destruct (is_empty (drop (S i) a)); [done|]. destruct (forallb is_digit (drop (S i) a)) eqn:D; cbn [negb]; [|done].
  destruct (isV4 (take i a)) eqn:V4; cbn [negb andb]; [|destruct (isV6 (take i a)) eqn:V6; cbn [negb]; [|done]]; intros _;
    (apply (split_clean _ i _ E); [done| |by apply digits_clean]); [by apply isV4_clean|by apply isV6_clean].
Qed.

Lemma rfind_sub_starts sub s i : rfind_sub sub s = Some i -> starts_with sub (drop i s) = true.
Proof.
  revert i. induction s as [|c s IH]; intros i; cbn [rfind_sub]; [destruct (starts_with sub []) eqn:E; [by intros [= <-]|done]|].
  destruct (rfind_sub sub s) as [k|]; [intros [= <-]; by apply IH|]. destruct (starts_with sub (c :: s)) eqn:E; [by intros [= <-]|done].
Qed.

Lemma cons_clean (c : ascii) s : isControl c = false -> clean s -> clean (c :: s).
Proof. unfold clean, hasControlChar. cbn [existsb]. by intros -> ->. Qed.

Lemma starts_cons (c : ascii) s : starts_with [c] s = true -> exists t, s = c :: t.
Proof. intros [t ->]%starts_with_spec. by exists t. Qed.

Lemma validateEndpoint_clean e : validateEndpoint e = [] -> clean e.
Proof.
  unfold validateEndpoint. destruct (is_empty e); [done|]. destruct (starts_with (str "[") e) eqn:B.
  - apply (starts_cons "["%char) in B as [t ->]. destruct (find_char "]" ("["%char :: t)) as [rb|] eqn:E; [|done].
    destruct (starts_with (str ":") (drop (S rb) ("["%char :: t))) eqn:C; cbn [negb]; [|done]. destruct (isV6 (take (rb - 1) (drop 1 ("["%char :: t)))) eqn:V; cbn [negb]; [|done].
    intros P%validatePort_clean. apply isV6_clean in V. destruct rb as [|rb]; [cbn in E; by destruct (find_char "]" t)|]. apply (split_clean _ _ _ E); [done| |].
    + cbn [take]. apply cons_clean; [done|]. replace (S rb - 1)%nat with rb in V by lia. exact V.
    + apply (starts_cons ":"%char) in C as [u Eu]. rewrite Eu. apply cons_clean; [done|].
      replace (S rb + 2)%nat with (S (S rb) + 1)%nat in P by lia. rewrite <- drop_drop, Eu in P. exact P.
  - destruct (rfind_sub (str ":") e) as [i|] eqn:E; [|done]. apply rfind_sub_starts, (starts_cons ":"%char) in E as [u Eu].
    destruct (isV4 (take i e)) eqn:V4; cbn [negb andb]; [|destruct (isHostname (take i e)) eqn:H; cbn [negb]; [|done]];
      intros P%validatePort_clean; (apply (clean_take_drop i); [first [by apply isV4_clean|by apply isHostname_clean]|]);
      rewrite Eu; (apply cons_clean; [done|]); replace (S i) with (i + 1)%nat in P by lia; rewrite <- drop_drop, Eu in P; exact P.
Qed.

Lemma firstBad_nil {A} (check : A -> bytes) msg l : (forall x e, e <> [] -> msg x e <> []) -> firstBad check msg l = [] -> Forall (fun x => check x = []) l.
Proof.
  intros M. induction l as [|x l IH]; [constructor|]. cbn [firstBad]. cbv zeta. destruct (is_empty (check x)) eqn:E.
  - intros H. constructor; [by apply is_empty_true|by apply IH].
  - intros H. by apply M in H; [|apply is_empty_false].
Qed.

Lemma optional_nil check s : optional check s = [] -> s = [] \/ check s = [].
Proof. unfold optional. destruct s; [by left|by right]. Qed.

Lemma optional_clean check s : (forall x, check x = [] -> clean x) -> optional check s = [] -> clean s.
Proof. intros H [->|E]%optional_nil; [done|by apply H]. Qed.

Lemma firstBad_clean (check : bytes -> bytes) msg l : (forall x, check x = [] -> clean x) -> (forall x e, e <> [] -> msg x e <> []) -> firstBad check msg l = [] -> Forall clean l.
Proof. intros H M F. eapply List.Forall_impl; [|by eapply firstBad_nil]. exact H. Qed.

(** What validation guarantees. *)
Definition cleanInterface (f : InterfaceSpec) : Prop :=
  clean (privateKey f) /\ Forall clean (addresses f) /\ clean (listenPort f) /\ clean (fwmark f) /\ Forall clean (dns f) /\ clean (match mtu f with m :: _ => m | [] => [] end).
Definition cleanPeer (p : PeerSpec) : Prop :=
  clean (publicKey p) /\ clean (presharedKey p) /\ Forall clean (allowedIps p) /\ clean (endpoint p) /\ clean (persistentKeepalive p) /\ clean (description p).

Lemma validatePeer_clean i p : validatePeer i p = [] -> cleanPeer p.
Proof.
  unfold validatePeer. cbv zeta. intros H.
  destruct (is_empty (validateKey (publicKey p))) eqn:E1; cbn [negb] in H; [apply is_empty_true in E1|done].
  destruct (is_empty (optional validateKey (presharedKey p))) eqn:E2; cbn [negb] in H; [apply is_empty_true in E2|done].
  destruct (is_empty (allowedIps p)); [done|].
  destruct (is_empty (firstBad validateCidr _ (allowedIps p))) eqn:E3; cbn [negb] in H; [apply is_empty_true in E3|by rewrite H in E3].
  destruct (is_empty (optional validateEndpoint (endpoint p))) eqn:E4; cbn [negb] in H; [apply is_empty_true in E4|done].
  destruct (forallb is_digit (persistentKeepalive p)) eqn:E5; cbn [negb] in H; [|done]. destruct (hasControlChar (description p)) eqn:E6; [done|].
  split; [by apply validateKey_clean|]. split; [eapply optional_clean; [|exact E2]; apply validateKey_clean|].
  split; [eapply firstBad_clean; [apply validateCidr_clean| |exact E3]; done|]. split; [eapply optional_clean; [|exact E4]; apply validateEndpoint_clean|].
  split; [by apply digits_clean|done].
Qed.

Lemma validatePeers_clean i l : validatePeers i l = [] -> Forall cleanPeer l.
Proof.
  revert i. induction l as [|p l IH]; intros i; [constructor|]. cbn [validatePeers]. cbv zeta. destruct (is_empty (validatePeer i p)) eqn:E; [|intros H; by rewrite H in E].
  intros H. constructor; [by eapply validatePeer_clean, is_empty_true|by eapply IH].
Qed.

Lemma validateConfig_clean f peers : validateConfig f peers = [] -> cleanInterface f /\ Forall cleanPeer peers.
Proof.
  unfold validateConfig. rewrite guard_err_nil. intros [E1 H]. destruct (is_empty (addresses f)); [done|]. rewrite !guard_err_nil in H. destruct H as (E2 & E3 & H).
  destruct (hasControlChar (fwmark f)) eqn:E4; [done|]. rewrite guard_err_nil in H. destruct H as (E5 & H).
  destruct (match mtu f with m :: _ => _ | [] => _ end) eqn:E6; [done|]. destruct (is_empty peers); [done|]. split; [|by eapply validatePeers_clean].
  split; [by apply validateKey_clean|]. split; [eapply firstBad_clean; [apply validateCidr_clean| |exact E2]; done|].
  split; [eapply optional_clean; [|exact E3]; apply validatePort_clean|]. split; [done|]. split; [|by destruct (mtu f)].
  eapply firstBad_clean; [| |exact E5]; [|done]. intros x. unfold clean. by destruct (hasControlChar x).
Qed.

(** ** The lines of the files *)

(** A line of a configuration file, as it is meant. *)
Inductive Line := Blank | Comment (text : bytes) | Heading (text : bytes) | Setting (key value : bytes).

(** How it is written: [key = value] in a wg-quick file, indented [key=value]
    in ipsec.conf. *)
Definition wgLine (l : Line) : bytes :=
  match l with Blank => [] | Comment t => str "# " ++ t | Heading t => t | Setting k v => k ++ str " = " ++ v end.
Definition ipsecLine (l : Line) : bytes :=
  match l with Blank => [] | Comment t => str "# " ++ t | Heading t => t | Setting k v => str "    " ++ k ++ str "=" ++ v end.

(** The text consists of these lines, and none has a control character. *)
Definition consistsOf (text : bytes) (lines : list bytes) : Prop := getlines text = lines /\ Forall clean lines.

Lemma consists_line l rest lines : clean l -> consistsOf rest lines -> consistsOf (line l ++ rest) (l :: lines).
Proof.
  intros C [<- F]. split; [|by constructor]. unfold line. rewrite <- app_assoc. cbn [app]. rewrite getlines_cons; [done|]. by apply clean_line.
Qed.

(** The lines of a field that may be absent. *)
Definition given (k : string) (v : bytes) : list Line := if is_empty v then [] else [Setting (str k) v].
Definition givenList (sep : bytes) (k : string) (v : list bytes) : list Line := match v with [] => [] | _ => [Setting (str k) (joined sep v)] end.
Definition described (d : bytes) : list Line := if is_empty d then [] else [Comment d].

Section Format.
Variable show : Line -> bytes.
Hypothesis show_setting : forall k v, clean k -> clean v -> clean (show (Setting k v)).
Hypothesis show_comment : forall t, show (Comment t) = str "# " ++ t.

Lemma consists_shown x l rest lines : l = show x -> clean l -> consistsOf rest (map show lines) -> consistsOf (line l ++ rest) (map show (x :: lines)).
Proof. intros -> C H. by apply consists_line. Qed.

Lemma consists_given k v rest lines : clean (str k) -> clean v -> consistsOf rest (map show lines) ->
  consistsOf ((if is_empty v then [] else line (show (Setting (str k) v))) ++ rest) (map show (given k v ++ lines)).
Proof using show_setting. intros K C H. unfold given. destruct (is_empty v); [done|]. apply consists_line; [by apply show_setting|done]. Qed.

Lemma consists_list k sep v rest lines : clean (str k) -> clean sep -> Forall clean v -> consistsOf rest (map show lines) ->
  consistsOf (match v with [] => [] | _ => line (show (Setting (str k) (joined sep v))) end ++ rest) (map show (givenList sep k v ++ lines)).
Proof using show_setting. intros K S C H. unfold givenList. destruct v as [|x v]; [done|]. apply consists_line; [apply show_setting; [done|by apply clean_joined]|done]. Qed.

Lemma consists_described d rest lines : clean d -> consistsOf rest (map show lines) ->
  consistsOf ((if is_empty d then [] else line (str "# " ++ d)) ++ rest) (map show (described d ++ lines)).
Proof using show_comment. intros C H. unfold described. destruct (is_empty d); [done|]. cbn [app map]. rewrite show_comment. by apply consists_line; [apply clean_app|]. Qed.
End Format.

Lemma wg_clean k v : clean k -> clean v -> clean (wgLine (Setting k v)).
Proof. intros K V. by repeat apply clean_app. Qed.
Lemma ipsec_clean k v : clean k -> clean v -> clean (ipsecLine (Setting k v)).
Proof. intros K V. by repeat apply clean_app. Qed.

(** The lines of the next item of a file, by its kind. *)
Ltac consists show cl :=
  rewrite <- ?app_comm_cons, <- ?app_assoc;
  lazymatch goal with
  | |- consistsOf ((if is_empty _ then [] else line (str "# " ++ _)) ++ _) _ => apply (consists_described show); [done|done|]
  | |- consistsOf ((if is_empty _ then _ else _) ++ _) _ => apply (consists_given show cl); [done|done|]
  | |- consistsOf (match _ with [] => _ | _ :: _ => _ end ++ _) _ => apply (consists_list show cl); [done|done|done|]
  | |- consistsOf (line _ ++ _) _ => apply (consists_shown show); [reflexivity|by repeat apply clean_app|]
  end.

Definition meantPeer (p : PeerSpec) : list Line :=
  Blank :: described (description p) ++ Heading (str "[Peer]") :: Setting (str "PublicKey") (publicKey p) :: given "PresharedKey" (presharedKey p)
  ++ givenList (str ", ") "AllowedIPs" (allowedIps p) ++ given "Endpoint" (endpoint p) ++ given "PersistentKeepalive" (persistentKeepalive p).

Definition meant (f : InterfaceSpec) (peers : list PeerSpec) : list Line :=
  Comment (str "Generated by crate(8) — wg-quick(8) compatible.") :: Comment (str "Apply with: wg-quick up <this-file>") :: Blank
  :: Heading (str "[Interface]") :: Setting (str "PrivateKey") (privateKey f) :: givenList (str ", ") "Address" (addresses f) ++ given "ListenPort" (listenPort f)
  ++ given "FwMark" (fwmark f) ++ givenList (str ", ") "DNS" (dns f) ++ given "MTU" (match mtu f with m :: _ => m | [] => [] end) ++ flat_map meantPeer peers.

Lemma peer_lines p rest lines : cleanPeer p -> consistsOf rest (map wgLine lines) -> consistsOf (renderPeer p ++ rest) (map wgLine (meantPeer p ++ lines)).
Proof.
  intros (C1 & C2 & C3 & C4 & C5 & C6) H. unfold renderPeer, meantPeer, emit, Wireguard.emitCsvList.
  repeat consists wgLine wg_clean. exact H.
Qed.

Lemma peers_lines l : Forall cleanPeer l -> consistsOf (concat (map renderPeer l)) (map wgLine (flat_map meantPeer l)).
Proof. induction 1 as [|p l Hp _ IH]; [by split|]. cbn [map concat flat_map]. by apply peer_lines. Qed.

Lemma conf_lines f peers : Wireguard.validateConfig f peers = [] -> consistsOf (Wireguard.renderConf f peers) (map wgLine (meant f peers)).
Proof.
  intros [(C1 & C2 & C3 & C4 & C5 & C6) P]%validateConfig_clean. unfold Wireguard.renderConf, meant, emit, Wireguard.emitCsvList.
  repeat consists wgLine wg_clean. by apply peers_lines.
Qed.

(** ** IPsec *)

Lemma validateHost_clean h : Ipsec.validateHost h = [] -> clean h.
Proof.
  unfold Ipsec.validateHost. destruct (is_empty h); [done|]. destruct (beq_spec h (str "%any")) as [->|_]; [done|].
  destruct (starts_with (str "[") h && backIs "]" h) eqn:B.
  - apply andb_true_iff in B as [B1 B2]. apply (starts_cons "["%char) in B1 as [t ->]. apply backIs_spec in B2 as [u E]. destruct u as [|x u]; [by injection E|].
    injection E as <- ->. change (drop 1 ("["%char :: u ++ ["]"%char])) with (u ++ ["]"%char]). replace (length ("["%char :: u ++ ["]"%char]) - 2)%nat with (length u) by (cbn; rewrite length_app; cbn; lia).
    rewrite take_app_length. destruct (isV6 u) eqn:V; [|done]. intros _. apply cons_clean; [done|]. apply clean_app; [by apply isV6_clean|done].
  - destruct (looksLikeV4Shape h); [destruct (isV4 h) eqn:V; [intros _; by apply isV4_clean|done]|].
    destruct (isV6 h) eqn:V6; [intros _; by apply isV6_clean|]. cbn [orb]. destruct (isHostname h) eqn:H; [intros _; by apply isHostname_clean|done].
Qed.

Lemma validateSubnet_clean a : Ipsec.validateSubnet a = [] -> clean a.
Proof.
  unfold Ipsec.validateSubnet. destruct (is_empty a); [done|]. destruct (find_char "/" a) as [i|] eqn:E; [|done]. cbv zeta.
  destruct (is_empty (take i a)); [done|]. destruct (is_empty (drop (S i) a)); [done|]. destruct (forallb is_digit (drop (S i) a)) eqn:D; cbn [negb]; [|done].
  destruct (isV4 (take i a)) eqn:V4; cbn [negb andb]; [|destruct (isV6 (take i a)) eqn:V6; cbn [negb]; [|done]]; intros _;
    (apply (split_clean _ i _ E); [done| |by apply digits_clean]); [by apply isV4_clean|by apply isV6_clean].
Qed.

Lemma validateProposal_clean p : Ipsec.validateProposal p = [] -> clean p.
Proof. unfold Ipsec.validateProposal. destruct (is_empty p); [done|]. destruct (128 <? size_z p); [done|]. intros H%check_chars_nil. clean_chars. Qed.

Lemma validateConnName_clean n : Ipsec.validateConnName n = [] -> clean n.
Proof.
  unfold Ipsec.validateConnName. destruct (is_empty n); [done|]. destruct (32 <? size_z n); [done|]. destruct (beq n (str "%default")); [done|].
  intros H%check_chars_nil. clean_chars.
Qed.

Lemma oneOf_clean l (e v : bytes) : forallb (fun x => negb (hasControlChar (str x))) l = true -> (if Ipsec.oneOf l v then [] else e) = [] -> e <> [] -> clean v.
Proof.
  intros F H N. destruct (Ipsec.oneOf l v) eqn:E; [|done]. apply existsb_exists in E as (x & Hx & ->%beq_eq). rewrite forallb_forall in F. apply F in Hx. by apply negb_true_iff.
Qed.

Definition cleanConn (c : Ipsec.ConnSpec) : Prop :=
  (clean (Ipsec.name c) /\ clean (Ipsec.left_ c) /\ clean (Ipsec.right_ c) /\ Forall clean (Ipsec.leftSubnet c) /\ Forall clean (Ipsec.rightSubnet c))
  /\ (clean (Ipsec.ike c) /\ clean (Ipsec.esp c) /\ clean (Ipsec.keyExchange c) /\ clean (Ipsec.authBy c) /\ clean (Ipsec.autoStart c))
  /\ clean (Ipsec.leftId c) /\ clean (Ipsec.rightId c) /\ clean (Ipsec.description c).

Lemma validateConn_clean c : Ipsec.validateConn c = [] -> cleanConn c.
Proof.
  unfold Ipsec.validateConn. rewrite !guard_err_nil. intros (E1 & E2 & E3 & E4 & E5 & E6 & E7 & E8 & E9 & E10 & H).
  destruct (hasControlChar (Ipsec.leftId c)) eqn:C1; [done|]. destruct (hasControlChar (Ipsec.rightId c)) eqn:C2; [done|]. destruct (hasControlChar (Ipsec.description c)) eqn:C3; [done|].
  split; [|split; [|done]].
  - split; [by apply validateConnName_clean|]. split; [by apply validateHost_clean|]. split; [by apply validateHost_clean|].
    split; (eapply firstBad_clean; [apply validateSubnet_clean| |eassumption]; done).
  - split; [eapply optional_clean; [|exact E6]; apply validateProposal_clean|]. split; [eapply optional_clean; [|exact E7]; apply validateProposal_clean|].
    split; [eapply optional_clean; [|exact E8]|split; [eapply optional_clean; [|exact E9]|eapply optional_clean; [|exact E10]]];
      intros x Hx; unfold Ipsec.validateAuthby, Ipsec.validateAuto in Hx; (eapply oneOf_clean; [|exact Hx|done]); reflexivity.
Qed.

Lemma validateConns_clean i l : Ipsec.validateConns i l = [] -> Forall cleanConn l.
Proof.
  revert i. induction l as [|c l IH]; intros i; [constructor|]. cbn [Ipsec.validateConns]. cbv zeta. destruct (is_empty (Ipsec.validateConn c)) eqn:E; [|done].
  intros H. constructor; [by eapply validateConn_clean, is_empty_true|by eapply IH].
Qed.

Definition meantConn (c : Ipsec.ConnSpec) : list Line :=
  Blank :: described (Ipsec.description c) ++ Heading (str "conn " ++ Ipsec.name c) :: given "left" (Ipsec.left_ c) ++ given "leftid" (Ipsec.leftId c)
  ++ givenList (str ",") "leftsubnet" (Ipsec.leftSubnet c) ++ given "right" (Ipsec.right_ c) ++ given "rightid" (Ipsec.rightId c)
  ++ givenList (str ",") "rightsubnet" (Ipsec.rightSubnet c) ++ given "keyexchange" (Ipsec.keyExchange c) ++ given "ike" (Ipsec.ike c)
  ++ given "esp" (Ipsec.esp c) ++ given "authby" (Ipsec.authBy c) ++ given "auto" (Ipsec.autoStart c).

Definition meantConns (l : list Ipsec.ConnSpec) : list Line :=
  Comment (str "Generated by crate(8) — strongSwan ipsec.conf compatible.") :: Comment (str "Apply with: ipsec reload && ipsec up <conn-name>") :: Blank
  :: Heading (str "config setup") :: Setting (str "charondebug") (dquote :: str "ike 2, knl 2, cfg 2" ++ [dquote]) :: flat_map meantConn l.

Lemma conn_lines c rest lines : cleanConn c -> consistsOf rest (map ipsecLine lines) ->
  consistsOf (Ipsec.renderConn c ++ rest) (map ipsecLine (meantConn c ++ lines)).
Proof.
  intros ((N & L & R & LS & RS) & (I & E & K & A & S) & LI & RI & D) H. unfold Ipsec.renderConn, meantConn, Ipsec.emitOptional, Ipsec.ipsecEmitCsvList.
  repeat consists ipsecLine ipsec_clean. exact H.
Qed.

Lemma conns_lines l : Ipsec.ipsecValidateConfig l = [] -> consistsOf (Ipsec.ipsecRenderConf l) (map ipsecLine (meantConns l)).
Proof.
  unfold Ipsec.ipsecValidateConfig. destruct (is_empty l); [done|]. intros F%validateConns_clean. unfold Ipsec.ipsecRenderConf, meantConns.
  do 5 consists ipsecLine ipsec_clean. induction F as [|c l Hc _ IH]; [by split|]. cbn [map concat flat_map]. by apply conn_lines.
Qed.

(** The headings and keys a file may have. *)
Definition wgKeys : list bytes := map str ["PrivateKey"; "Address"; "ListenPort"; "FwMark"; "DNS"; "MTU"; "PublicKey"; "PresharedKey"; "AllowedIPs"; "Endpoint"; "PersistentKeepalive"].
Definition ipsecKeys : list bytes :=
  map str ["charondebug"; "left"; "leftid"; "leftsubnet"; "right"; "rightid"; "rightsubnet"; "keyexchange"; "ike"; "esp"; "authby"; "auto"].
Definition keyIn (keys : list bytes) (l : Line) : Prop := match l with Setting k _ => In k keys | _ => True end.

Lemma given_keys keys k v : In (str k) keys -> Forall (keyIn keys) (given k v).
Proof. intros H. unfold given. destruct (is_empty v); by repeat constructor. Qed.
Lemma givenList_keys keys sep k v : In (str k) keys -> Forall (keyIn keys) (givenList sep k v).
Proof. intros H. unfold givenList. destruct v; by repeat constructor. Qed.
Lemma described_keys keys d : Forall (keyIn keys) (described d).
Proof. unfold described. destruct (is_empty d); by repeat constructor. Qed.

Ltac known := cbn; tauto.
Ltac keys := repeat first [apply Forall_app; split | apply given_keys; known | apply givenList_keys; known | apply described_keys | constructor; [known|] | constructor].

Lemma meant_keys f peers : Forall (keyIn wgKeys) (meant f peers).
Proof. unfold meant. keys. induction peers as [|p peers IH]; [constructor|]. cbn [flat_map]. apply Forall_app. split; [unfold meantPeer; keys|exact IH]. Qed.
Lemma meantConns_keys l : Forall (keyIn ipsecKeys) (meantConns l).
Proof. unfold meantConns. keys. induction l as [|c l IH]; [constructor|]. cbn [flat_map]. apply Forall_app. split; [unfold meantConn; keys|exact IH]. Qed.

(** C26: A VPN description that passes validation is printed line by line as
    it was meant, and no value can add a line: the text is cut at its line
    breaks into exactly the two comments at the top, the headings, one
    [key = value] line for each field that is given, in the order of the
    fields, and a comment line for each description; no line has a control
    character, and every key is one of the eleven of WireGuard, or the twelve of
    ipsec.conf, that the program knows; a PostUp command, which wg-quick runs
    as root, is none.  What a value means to the reader of the line is outside: a
    '#' is allowed in FwMark, DNS and the two ids. *)
Theorem validated_conf_lines :
  (forall f peers, Wireguard.validateConfig f peers = [] ->
     consistsOf (Wireguard.renderConf f peers) (map wgLine (meant f peers)) /\ Forall (keyIn wgKeys) (meant f peers))
  /\ (forall conns, Ipsec.ipsecValidateConfig conns = [] ->
     consistsOf (Ipsec.ipsecRenderConf conns) (map ipsecLine (meantConns conns)) /\ Forall (keyIn ipsecKeys) (meantConns conns)).
Proof.
  split; [intros f peers H; split; [by apply conf_lines|apply meant_keys]|intros conns H; split; [by apply conns_lines|apply meantConns_keys]].
Qed.

Definition sampleKey : bytes := repeat "A"%char 43 ++ str "=".
Definition sampleInterface : InterfaceSpec := {|
  privateKey := sampleKey; addresses := [str "10.0.0.1/24"; str "fd00::1/64"]; listenPort := str "51820"; fwmark := []; dns := [str "10.0.0.53"]; mtu := [] |}.
Definition samplePeer : PeerSpec := {|
  publicKey := sampleKey; presharedKey := []; allowedIps := [str "0.0.0.0/0"]; endpoint := str "[2001:db8::1]:51820"; persistentKeepalive := str "25"; description := str "PostUp = no" |}.
Definition sampleConn : Ipsec.ConnSpec := {|
  Ipsec.name := str "site"; Ipsec.left_ := str "%any"; Ipsec.leftSubnet := []; Ipsec.leftId := []; Ipsec.right_ := str "vpn.example.org"; Ipsec.rightSubnet := [str "10.1.0.0/16"];
  Ipsec.rightId := []; Ipsec.ike := []; Ipsec.esp := []; Ipsec.keyExchange := str "ikev2"; Ipsec.authBy := str "psk"; Ipsec.autoStart := str "start"; Ipsec.description := [] |}.

Lemma validated_conf_lines_witness :
  consistsOf (Wireguard.renderConf sampleInterface [samplePeer]) (map wgLine (meant sampleInterface [samplePeer]))
  /\ consistsOf (Ipsec.ipsecRenderConf [sampleConn]) (map ipsecLine (meantConns [sampleConn])).
Proof. destruct validated_conf_lines as [W I]. split; [apply W; vm_compute; reflexivity|apply I; vm_compute; reflexivity]. Defined.

(** Prefix lengths of twenty digits pass: the [long] wraps. *)
Example prefix_wraps : Wireguard.validateCidr (str "10.0.0.0/18446744073709551624") = [] /\ Ipsec.validateSubnet (str "10.0.0.0/18446744073709551624") = [].
Proof. split; reflexivity. Qed.
End VpnFacts.
