(* ===== verification/Clean.v ===== *)
(** * The clean-up command: lib/clean.cpp, with rmdirHier and rmdirFlat of lib/util.cpp

    [crate clean] sweeps what killed runs leave behind: jail directories,
    interface records, pids, overlays, firewall rules, registry entries, pf
    anchors and leases.  What the kernel and the tools answer is the record
    [Answers]; what the command may change is the record [Host]. *)

From S2P Require Import Prelude CStd UtilPure LineFile PerUser IpAlloc Ip6Alloc SpecRegistry RoutesPure Backup Throttle AutoFw Ctx.

Module Clean.
Import CStd LineFile LeaseFile.

(** ** The file tree *)

Unset Elimination Schemes.

(** A symbolic link carries the entries of the directory it leads to, if it
    leads to one. *)
Inductive Node :=
| Plain
| Link (leadsTo : option (list (bytes * Node)))
| Dir (entries : list (bytes * Node)).

Set Elimination Schemes.

Abbreviation Entries := (list (bytes * Node)).

Definition isDir (n : Node) : bool := match n with Dir _ => true | _ => false end.

(** [stat] follows a link, [lstat] does not. *)
Definition statIsDir (n : Node) : bool := match n with Dir _ | Link (Some _) => true | _ => false end.

(** What [opendir] lists. *)
Definition listing (n : Node) : option Entries := match n with Dir l => Some l | Link r => r | Plain => None end.

Definition under (dir name : bytes) : bytes := dir ++ str "/" ++ name.

(** ** Deletions and the world *)

Inductive Call :=
| DeleteRule (n : Z)
| DeleteNat (n : Z)
| FlushRules (anchor : bytes).

(** What the command says it does, or under --dry-run would do. *)
Inductive Action :=
| RemoveTree (path : bytes)
| RemoveRecord (path : bytes)
| CollectUsers
| CollectSlots
| Firewall (c : Call)
| RemoveEntry (name target : bytes)
| Release4 (name : bytes)
| Release6 (name : bytes).

(** [inl] is an exception.  The list of jails is asked for three times. *)
Record Answers := {
  jailsAtStart : list JailQuery.JailInfo;
  isLocked : bytes -> bool;
  cannotOpen : bytes -> bool;
  cannotRemove : bytes -> bool;
  alive : Z -> bool;
  slotsLock : bool;
  ipfwPresent : bool;
  jailsAtFw : bytes + list JailQuery.JailInfo;
  ipfwList : bytes + bytes;
  natShow : bytes + bytes;
  deleteOk : Call -> bool;
  zfsHas : bytes -> bool;
  statOk : bytes -> bool;
  pfAnchors : bytes + bytes;
  jailsAtPf : bytes + list JailQuery.JailInfo;
  registryIo : bytes -> bytes + unit;
  lease4Io : bytes -> bytes + unit;
  lease6Io : bytes -> bytes + unit;
}.

(** [top] is what /var/run/crate holds, [None] when it cannot be opened;
    [users] is the file of firewall users, [None] when it cannot be locked.  The
    file of slots is locked and unlocked, and never changes. *)
Record Host := {
  top : option Entries;
  users : option bytes;
  registry : File;
  leases4 : File;
  leases6 : File;
  calls : list Call;
}.

(** What a sweep reports: what it said, and how much it adds to [cleaned]. *)
Definition Report : Type := list Action * Z.
Definition quiet : Report := ([], 0).
Definition both (a b : Report) : Report := (fst a ++ fst b, u32 (snd a + snd b)).

Definition jailDirectoryPath : bytes := str "/var/run/crate".
Definition jailSubDirectoryIfaces : bytes := str "/ifaces".

(** ** Removing directories: [None] when all is gone, what is left when the
    call throws *)

Section Rm.
Variable a : Answers.

Fixpoint rmNode (path : bytes) (n : Node) : option Node :=
  match n with
  | Plain | Link _ => if cannotRemove a path then Some n else None
  | Dir l =>
      if cannotOpen a path then Some n
      else
        let fix rmEntries (l : Entries) : Entries :=
          match l with
          | [] => []
          | (name, c) :: t =>
              match rmNode (under path name) c with
              | None => rmEntries t
              | Some c' => (name, c') :: t
              end
          end in
        match rmEntries l with
        | [] => if cannotRemove a path then Some (Dir []) else None
        | rest => Some (Dir rest)
        end
  end.

(** The loop of [rmdirHier] over the entries: it stops at the first exception. *)
Fixpoint rmEntries (path : bytes) (l : Entries) : Entries :=
  match l with
  | [] => []
  | (name, c) :: t =>
      match rmNode (under path name) c with
      | None => rmEntries path t
      | Some c' => (name, c') :: t
      end
  end.

(** [directory_iterator] follows a link; [rmdir] of the link then fails. *)
Definition rmdirHier (path : bytes) (n : Node) : option Node :=
  match n with
  | Plain | Link None => Some n
  | Link (Some l) => if cannotOpen a path then Some n else Some (Link (Some (rmEntries path l)))
  | Dir _ => rmNode path n
  end.

(** [unlink] of a directory fails. *)
Fixpoint unlinkAll (path : bytes) (l : Entries) : Entries :=
  match l with
  | [] => []
  | (name, c) :: t => if isDir c || cannotRemove a (under path name) then l else unlinkAll path t
  end.

Definition rmdirFlat (path : bytes) (n : Node) : option Node :=
  match n with
  | Plain | Link None => Some n
  | Link (Some l) => if cannotOpen a path then Some n else Some (Link (Some (unlinkAll path l)))
  | Dir l =>
      if cannotOpen a path then Some n
      else match unlinkAll path l with
           | [] => if cannotRemove a path then Some (Dir []) else None
           | rest => Some (Dir rest)
           end
  end.

End Rm.

(** ** Sweeps of directories *)

(** The loop over [readdir] that three of the sweeps share. *)
Section Sweep.
Variables (dryRun : bool) (orphan : bytes -> Node -> bool) (remove : bytes -> Node -> option Node) (say : bytes -> Action).

Fixpoint sweep (dir : bytes) (l : Entries) : Entries * Report :=
  match l with
  | [] => ([], quiet)
  | (name, n) :: t =>
      let full := under dir name in
      if negb (orphan name n) then let '(t', r) := sweep dir t in ((name, n) :: t', r)
      else if dryRun then let '(t', r) := sweep dir t in ((name, n) :: t', both ([say full], 0) r)
      else match remove full n with
           | None => let '(t', r) := sweep dir t in (t', both ([say full], 1) r)
           | Some n' => let '(t', r) := sweep dir t in ((name, n') :: t', both ([say full], 0) r)
           end
  end.

End Sweep.

(** A sweep of the entries of some subdirectories of [dir]. *)
Section Inside.
Variables (a : Answers) (select : bytes -> Node -> bool) (go : bytes -> Entries -> Entries * Report) (dir : bytes).

Definition enter (name : bytes) (n : Node) : Node * Report :=
  let full := under dir name in
  if select name n && negb (cannotOpen a full) then
    match n with
    | Dir e => let '(e', r) := go full e in (Dir e', r)
    | Link (Some e) => let '(e', r) := go full e in (Link (Some e'), r)
    | _ => (n, quiet)
    end
  else (n, quiet).

Fixpoint inside (l : Entries) : Entries * Report :=
  match l with
  | [] => ([], quiet)
  | (name, n) :: t =>
      let '(n', r) := enter name n in
      let '(t', r') := inside t in
      ((name, n') :: t', both r r')
  end.

End Inside.

Definition getRunningJailPaths (a : Answers) : list bytes :=
  List.filter (fun p => negb (is_empty p)) (map JailQuery.ji_path (jailsAtStart a)).

Definition isRunning (running : list bytes) (path : bytes) : bool := existsb (beq path) running.

(** 1. *)
Definition sweptName (name : bytes) : bool := starts_with (str "jail-") name || starts_with (str "chroot-create-") name.

Definition orphanJailDir (a : Answers) (running : list bytes) (jailDir name : bytes) (n : Node) : bool :=
  negb (beq name (str ".") || beq name (str "..")) && sweptName name && statIsDir n
  && negb (isRunning running (under jailDir name)) && negb (isLocked a (under jailDir name)).

Definition sweepJailDir (dryRun : bool) (a : Answers) (running : list bytes) (jailDir : bytes) : Entries -> Entries * Report :=
  sweep dryRun (orphanJailDir a running jailDir) (rmdirHier a) RemoveTree jailDir.

(** The per-user roots: names of digits, and directories to [lstat]. *)
Definition userRoot (name : bytes) (n : Node) : bool := negb (is_empty name || negb (forallb is_digit name)) && isDir n.

Definition sweepJailDirs (dryRun : bool) (a : Answers) (running : list bytes) (l : Entries) : Entries * Report :=
  let '(l1, r1) := sweepJailDir dryRun a running jailDirectoryPath l in
  let '(l2, r2) := inside a userRoot (sweepJailDir dryRun a running) jailDirectoryPath l1 in
  (l2, both r1 r2).

(** 2. *)
Definition orphanRecord (running : list bytes) (name : bytes) (_ : Node) : bool :=
  negb (beq name (str ".") || beq name (str "..")) && negb (existsb (has_sub name) running).

Definition sweepIfaces (dryRun : bool) (a : Answers) (running : list bytes) : Entries -> Entries * Report :=
  inside a (fun name _ => beq (str "/" ++ name) jailSubDirectoryIfaces)
    (sweep dryRun (orphanRecord running) (rmdirFlat a) RemoveRecord) jailDirectoryPath.

(** 3. *)
Definition sweepContexts (dryRun : bool) (a : Answers) (users : option bytes) : option bytes * Report :=
  let slots := if dryRun && slotsLock a then [CollectSlots] else [] in
  match users with
  | None => (None, (slots, 0))
  | Some content =>
      if dryRun then (Some (Ctx.unlockUsers (Ctx.lockUsers content)), (CollectUsers :: slots, 0))
      else (Some (Ctx.cleanUsers (alive a) content), (slots, 0))
  end.

(** 4. *)
Definition cowSuffix : bytes := str "-cow-writable".

Definition orphanOverlay (running : list bytes) (name : bytes) (n : Node) : bool :=
  match find_sub cowSuffix name with
  | None => false
  | Some i => statIsDir n && negb (isRunning running (under jailDirectoryPath (take i name)))
  end.

Definition sweepOverlays (dryRun : bool) (a : Answers) (running : list bytes) : Entries -> Entries * Report :=
  sweep dryRun (orphanOverlay running) (rmdirHier a) RemoveTree jailDirectoryPath.

(** ** Sweeps of the firewall *)

(** 5. The calls made, and the report: a deletion that throws is not counted. *)
Definition deletions (dryRun : bool) (a : Answers) (cs : list Call) : list Call * Report :=
  (if dryRun then [] else cs,
   (map Firewall cs, if dryRun then 0 else u32 (size_z (List.filter (deleteOk a) cs)))).

Definition runningJids (a : Answers) : list Z :=
  match jailsAtFw a with
  | inl _ => []
  | inr js => map JailQuery.ji_jid (List.filter (fun j => RuntimePaths.isCrateJailPath (JailQuery.ji_path j)) js)
  end.

Definition orphanRules (a : Answers) : list Call :=
  match ipfwList a with
  | inl _ => []
  | inr out =>
      map DeleteRule (AutoFw.pickOrphanIpfwRulesByJid out (runningJids a))
      ++ map DeleteRule (AutoFw.pickOrphanIpfwThrottleRulesByJid out (runningJids a))
  end.

Definition orphanNats (a : Answers) : list Call :=
  match natShow a with
  | inl _ => []
  | inr out => map DeleteNat (AutoFw.pickOrphanIpfwNatIds out (runningJids a))
  end.

Definition sweepIpfw (dryRun : bool) (a : Answers) : list Call * Report :=
  if negb (ipfwPresent a) then ([], quiet)
  else
    let '(c1, r1) := deletions dryRun a (orphanRules a) in
    let '(c2, r2) := deletions dryRun a (orphanNats a) in
    (c1 ++ c2, both r1 r2).

(** The pf anchors; [flushRules] never throws and is always counted. *)
Definition staleAnchors (a : Answers) : list Call :=
  match pfAnchors a, jailsAtPf a with
  | inr out, inr js =>
      map (fun name => FlushRules (str "crate/" ++ name))
        (List.filter (fun name => negb (existsb (beq name) (map JailQuery.ji_name js))) (AutoFw.parseCrateAnchorJailNames out))
  | _, _ => []
  end.

Definition sweepAnchors (dryRun : bool) (a : Answers) : list Call * Report :=
  (if dryRun then [] else staleAnchors a,
   (map Firewall (staleAnchors a), if dryRun then 0 else u32 (size_z (staleAnchors a)))).

(** ** Sweeps of the line files *)

(** The entries read once, and a release under the lock for each that is gone. *)
Fixpoint sweepFile {E} (dryRun : bool) (gone : E -> bool) (key : E -> bytes) (say : E -> Action)
    (release : bytes -> File -> (bytes + unit) * File) (es : list E) (f : File) : File * Report :=
  match es with
  | [] => (f, quiet)
  | e :: t =>
      if negb (gone e) then sweepFile dryRun gone key say release t f
      else if dryRun then let '(f', r) := sweepFile dryRun gone key say release t f in (f', both ([say e], 0) r)
      else
        let '(res, f1) := release (key e) f in
        let '(f', r) := sweepFile dryRun gone key say release t f1 in
        (f', both ([say e], match res with inl _ => 0 | inr _ => 1 end) r)
  end.

(** 6. *)
Definition entryGone (a : Answers) (e : SpecRegistry.Entry) : bool :=
  negb (if negb (is_empty (SpecRegistry.e_warmBase e)) then zfsHas a (SpecRegistry.e_warmBase e)
        else statOk a (SpecRegistry.e_cratePath e)).

Definition sweepRegistry (dryRun : bool) (a : Answers) (f : File) : File * Report :=
  match SpecRegistry.readAll f with
  | inl _ => (f, quiet)
  | inr es =>
      sweepFile dryRun (entryGone a) SpecRegistry.e_name
        (fun e => RemoveEntry (SpecRegistry.e_name e) (SpecRegistry.targetOf e))
        (fun name => SpecRegistry.remove (registryIo a name) name) es f
  end.

(** The leases, keyed by the name of the jail's directory. *)
Definition liveKeys (running : list bytes) : list bytes := map UtilPure.filePathToFileName running.

Definition leaseGone {A} (running : list bytes) (l : LeaseFile.Lease A) : bool :=
  negb (existsb (beq (l_name l)) (liveKeys running)).

Definition sweepLeases4 (dryRun : bool) (a : Answers) (running : list bytes) (f : File) : File * Report :=
  match IpAlloc.readAll f with
  | inl _ => (f, quiet)
  | inr ls =>
      sweepFile dryRun (leaseGone running) l_name (fun l => Release4 (l_name l))
        (fun name => IpAlloc.releaseFor (lease4Io a name) name) ls f
  end.

Definition sweepLeases6 (dryRun : bool) (a : Answers) (running : list bytes) (f : File) : File * Report :=
  match Ip6Alloc.readAll f with
  | inl _ => (f, quiet)
  | inr ls =>
      sweepFile dryRun (leaseGone running) l_name (fun l => Release6 (l_name l))
        (fun name => Ip6Alloc.releaseFor (lease6Io a name) name) ls f
  end.

(** ** The command *)

Definition onTop (go : Entries -> Entries * Report) (t : option Entries) : option Entries * Report :=
  match t with
  | None => (None, quiet)
  | Some l => let '(l', r) := go l in (Some l', r)
  end.

Definition cleanCrates (dryRun : bool) (a : Answers) (h : Host) : Host * Report :=
  let running := getRunningJailPaths a in
  let '(t1, r1) := onTop (sweepJailDirs dryRun a running) (top h) in
  let '(t2, r2) := onTop (sweepIfaces dryRun a running) t1 in
  let '(u, r3) := sweepContexts dryRun a (users h) in
  let '(t4, r4) := onTop (sweepOverlays dryRun a running) t2 in
  let '(c5, r5) := sweepIpfw dryRun a in
  let '(reg, r6) := sweepRegistry dryRun a (registry h) in
  let '(c7, r7) := sweepAnchors dryRun a in
  let '(l4, r8) := sweepLeases4 dryRun a running (leases4 h) in
  let '(l6, r9) := sweepLeases6 dryRun a running (leases6 h) in
  ({| top := t4; users := u; registry := reg; leases4 := l4; leases6 := l6; calls := calls h ++ c5 ++ c7 |},
   both r1 (both r2 (both r3 (both r4 (both r5 (both r6 (both r7 (both r8 r9)))))))).

(** ** Directories *)

Lemma sweep_said dry orphan remove say dir l :
  fst (snd (sweep dry orphan remove say dir l))
  = map (fun kv => say (under dir (fst kv))) (List.filter (fun kv => orphan (fst kv) (snd kv)) l).
Proof.
  induction l as [|[name n] l IH]; [done|]. cbn [sweep List.filter fst snd].
  destruct (orphan name n); cbn [negb map fst]; destruct (sweep dry orphan remove say dir l) as [t' r]; cbn [fst snd] in IH;
    [|done]. destruct dry; [by rewrite <- IH|]. destruct (remove _ n); by rewrite <- IH.
Qed.

Lemma sweep_dry orphan remove say dir l :
  fst (sweep true orphan remove say dir l) = l /\ snd (snd (sweep true orphan remove say dir l)) = 0.
Proof.
  induction l as [|[name n] l [IH1 IH2]]; [done|]. cbn [sweep]. destruct (sweep true orphan remove say dir l) as [t' r].
  cbn [fst snd] in IH1, IH2. subst t'. destruct (orphan name n); cbn; [by rewrite IH2|done].
Qed.

(** What a sweep leaves of one entry. *)
Definition kept (dryRun : bool) (orphan : bytes -> Node -> bool) (remove : bytes -> Node -> option Node) (dir name : bytes)
    (n : Node) : option Node :=
  if dryRun || negb (orphan name n) then Some n else remove (under dir name) n.

Lemma sweep_In dry orphan remove say dir l name n' :
  In (name, n') (fst (sweep dry orphan remove say dir l)) <->
    exists n, In (name, n) l /\ kept dry orphan remove dir name n = Some n'.
Proof.
  assert (H : fst (sweep dry orphan remove say dir l)
      = omap (fun kv => pair (fst kv) <$> kept dry orphan remove dir (fst kv) (snd kv)) l).
  { induction l as [|[k n] l IH]; [done|]. cbn [sweep list_omap omap fst snd]. unfold kept at 1.
    destruct (sweep dry orphan remove say dir l) as [t' r]. cbn [fst] in IH. rewrite IH.
    destruct (orphan k n), dry; cbn [negb orb]; try done. by destruct (remove _ n). }
  rewrite H. rewrite <- list_elem_of_In, list_elem_of_omap. split.
  - intros ([k n] & Hin%list_elem_of_In & E). cbn [fst snd] in E. destruct (kept _ _ _ _ k n) as [m|] eqn:K; [|done].
    injection E as -> ->. eauto.
  - intros (n & Hin & K). exists (name, n). split; [by apply list_elem_of_In|]. cbn [fst snd]. by rewrite K.
Qed.

Lemma inside_fst a select go dir l :
  fst (inside a select go dir l) = map (fun kv => (fst kv, fst (enter a select go dir (fst kv) (snd kv)))) l.
Proof.
  induction l as [|[name n] l IH]; [done|]. cbn [inside map fst snd]. destruct (enter _ _ _ _ _ _) as [n' r].
  destruct (inside a select go dir l). cbn [fst] in *. by subst.
Qed.

Lemma inside_said a select go dir l :
  fst (snd (inside a select go dir l)) = flat_map (fun kv => fst (snd (enter a select go dir (fst kv) (snd kv)))) l.
Proof.
  induction l as [|[name n] l IH]; [done|]. cbn [inside flat_map fst snd]. destruct (enter _ _ _ _ _ _) as [n' r].
  destruct (inside a select go dir l). cbn [fst snd both] in *. by rewrite IH.
Qed.

Lemma inside_same a select go dir l :
  (forall full e, fst (go full e) = e /\ snd (snd (go full e)) = 0) ->
  fst (inside a select go dir l) = l /\ snd (snd (inside a select go dir l)) = 0.
Proof.
  intros Hgo. assert (E : forall name n, fst (enter a select go dir name n) = n /\ snd (snd (enter a select go dir name n)) = 0).
  { intros name n. unfold enter. destruct (_ && _); [|done]. destruct n as [|[e|]|e]; try done;
      destruct (Hgo (under dir name) e) as [H1 H2]; destruct (go _ e); cbn in *; by subst. }
  induction l as [|[name n] l [IH1 IH2]]; [done|]. cbn [inside]. destruct (E name n) as [E1 E2].
  destruct (enter _ _ _ _ _ _) as [n' r]. destruct (inside a select go dir l) as [t' r']. cbn [fst snd both] in *. subst.
  by rewrite E2, IH2.
Qed.

Lemma enter_other a select go dir name n : select name n = false -> enter a select go dir name n = (n, quiet).
Proof. intros H. unfold enter. by rewrite H. Qed.

(** *** What names the sweeps meet *)

Lemma digits_head name n c t : userRoot name n = true -> name = c :: t -> is_digit c = true.
Proof.
  unfold userRoot. intros [H _]%andb_prop ->. cbn [is_empty orb forallb] in H. apply negb_true_iff, negb_false_iff in H.
  by apply andb_prop in H as [H _].
Qed.

Lemma userRoot_swept name n : userRoot name n = true -> sweptName name = false.
Proof.
  intros H. destruct name as [|c t]; [done|]. pose proof (digits_head _ _ c t H eq_refl) as Hc. clear H.
  unfold sweptName. cbn [str list_ascii_of_string starts_with]. revert c Hc. 
  assert (G : forall c, is_digit c = true -> Ascii.eqb "j" c || Ascii.eqb "c" c = false).
  { intros c H. apply negb_true_iff. revert c H. by_bytes. }
  intros c Hc. by apply G in Hc as [-> ->]%orb_false_iff.
Qed.

Lemma swept_userRoot name n : sweptName name = true -> userRoot name n = false.
Proof. intros H. destruct (userRoot name n) eqn:E; [|done]. apply userRoot_swept in E. congruence. Qed.

Lemma userRoot_overlay running name n m : userRoot name n = true -> orphanOverlay running name m = false.
Proof.
  unfold userRoot, orphanOverlay. intros [H _]%andb_prop. apply negb_true_iff, orb_false_iff in H as [_ H].
  apply negb_false_iff in H. unfold cowSuffix. change (str "-cow-writable") with ("-"%char :: str "cow-writable").
  rewrite Backup.find_sub_no_head; [done|]. intros Hin. rewrite forallb_forall in H. by apply H in Hin.
Qed.

Lemma not_swept a running dir name n : sweptName name = false -> orphanJailDir a running dir name n = false.
Proof. intros H. unfold orphanJailDir. by rewrite H, andb_false_r. Qed.

(** *** Removals *)

Lemma rmdirHier_stat a p n n' : rmdirHier a p n = Some n' -> statIsDir n' = statIsDir n.
Proof.
  destruct n as [|[l|]|l]; cbn [rmdirHier]; try (by intros [= <-]).
  - destruct (cannotOpen a p); by intros [= <-].
  - cbn [rmNode]. destruct (cannotOpen a p); [by intros [= <-]|]. destruct (_ l) as [|kv rest]; [|by intros [= <-]].
    destruct (cannotRemove a p); by intros [= <-].
Qed.

Lemma enter_stat a select go dir name n : statIsDir (fst (enter a select go dir name n)) = statIsDir n.
Proof. unfold enter. destruct (_ && _); [|done]. destruct n as [|[e|]|e]; try done; by destruct (go _ e). Qed.

(** Without failures a directory goes with all it holds. *)
Section NoFailure.
Variable a : Answers.
Hypothesis open_ok : forall p, cannotOpen a p = false.
Hypothesis remove_ok : forall p, cannotRemove a p = false.

Lemma rmNode_gone : forall n path, rmNode a path n = None.
Proof using open_ok remove_ok.
  fix IH 1. intros [|r|l] path; cbn [rmNode]; [by rewrite remove_ok..|]. rewrite open_ok.
  match goal with |- match ?g l with _ => _ end = _ => assert (E : g l = []) end.
  { induction l as [|[name c] l IHl]; [done|]. by rewrite (IH c). }
  by rewrite E, remove_ok.
Qed.

Lemma rmdirHier_left p n n' : rmdirHier a p n = Some n' -> isDir n' = false.
Proof using open_ok remove_ok.
  destruct n as [|[l|]|l]; cbn [rmdirHier]; try (by intros [= <-]).
  - rewrite open_ok. by intros [= <-].
  - by rewrite rmNode_gone.
Qed.

End NoFailure.

(** *** The three sweeps of the tree, one after the other *)

(** What the command leaves of /var/run/crate. *)
Definition swept (dryRun : bool) (a : Answers) (l : Entries) : Entries :=
  let running := getRunningJailPaths a in
  fst (sweepOverlays dryRun a running (fst (sweepIfaces dryRun a running (fst (sweepJailDirs dryRun a running l))))).

Lemma onTop_fst go t : fst (onTop go t) = (fun l => fst (go l)) <$> t.
Proof. destruct t as [l|]; [|done]. cbn. by destruct (go l). Qed.

Lemma clean_top dryRun a h : top (fst (cleanCrates dryRun a h)) = swept dryRun a <$> top h.
Proof.
  unfold cleanCrates, swept. set (running := getRunningJailPaths a).
  pose proof (onTop_fst (sweepJailDirs dryRun a running) (top h)) as E1. destruct (onTop _ (top h)) as [t1 r1]. cbn [fst] in E1.
  pose proof (onTop_fst (sweepIfaces dryRun a running) t1) as E2. destruct (onTop _ t1) as [t2 r2]. cbn [fst] in E2.
  destruct (sweepContexts _ _ _) as [u r3].
  pose proof (onTop_fst (sweepOverlays dryRun a running) t2) as E4. destruct (onTop _ t2) as [t4 r4]. cbn [fst] in E4.
  destruct (sweepIpfw _ _) as [c5 r5], (sweepRegistry _ _ _) as [reg r6], (sweepAnchors _ _) as [c7 r7],
    (sweepLeases4 _ _ _ _) as [l4 r8], (sweepLeases6 _ _ _ _) as [l6 r9]. cbn [fst top]. subst. by destruct (top h).
Qed.

(** An entry after the sweep of the jail directories, and after that of the
    interface records. *)
Definition inUserRoots (dryRun : bool) (a : Answers) : bytes -> Node -> Node * Report :=
  enter a userRoot (sweepJailDir dryRun a (getRunningJailPaths a)) jailDirectoryPath.

Definition inIfaces (dryRun : bool) (a : Answers) : bytes -> Node -> Node * Report :=
  enter a (fun name _ => beq (str "/" ++ name) jailSubDirectoryIfaces)
    (sweep dryRun (orphanRecord (getRunningJailPaths a)) (rmdirFlat a) RemoveRecord) jailDirectoryPath.

Definition keptTop (dryRun : bool) (a : Answers) (name : bytes) (n : Node) : option Node :=
  kept dryRun (orphanJailDir a (getRunningJailPaths a) jailDirectoryPath) (rmdirHier a) jailDirectoryPath name n.

Lemma jailDirs_In dryRun a l name n' :
  In (name, n') (fst (sweepJailDirs dryRun a (getRunningJailPaths a) l)) <->
    exists n m, In (name, n) l /\ keptTop dryRun a name n = Some m /\ n' = fst (inUserRoots dryRun a name m).
Proof.
  unfold sweepJailDirs. pose proof (fun m => sweep_In dryRun (orphanJailDir a (getRunningJailPaths a) jailDirectoryPath) (rmdirHier a)
    RemoveTree jailDirectoryPath l name m) as H. unfold sweepJailDir at 1.
  destruct (sweep dryRun _ _ _ _ l) as [l1 r1]. cbn [fst] in H.
  pose proof (inside_fst a userRoot (sweepJailDir dryRun a (getRunningJailPaths a)) jailDirectoryPath l1) as E.
  destruct (inside a userRoot _ _ l1) as [l2 r2]. cbn [fst] in *. rewrite E, in_map_iff. unfold keptTop. split.
  - intros ([k m] & [= -> <-] & Hin). apply H in Hin as (n & Hin & K). exists n, m. cbn [fst snd] in *. done.
  - intros (n & m & Hin & K & ->). exists (name, m). split; [done|]. apply H. eauto.
Qed.

Lemma ifaces_In dryRun a l name n' :
  In (name, n') (fst (sweepIfaces dryRun a (getRunningJailPaths a) l)) <->
    exists n, In (name, n) l /\ n' = fst (inIfaces dryRun a name n).
Proof.
  unfold sweepIfaces. rewrite inside_fst, in_map_iff. split.
  - intros ([k m] & [= -> <-] & Hin). exists m. done.
  - intros (n & Hin & ->). by exists (name, n).
Qed.

(** An entry that none of the sweeps takes for an orphan stays, with what the
    sweeps inside it leave. *)
Lemma swept_keeps dryRun a l name n :
  In (name, n) l ->
  orphanJailDir a (getRunningJailPaths a) jailDirectoryPath name n = false ->
  (forall m, orphanOverlay (getRunningJailPaths a) name m = false) ->
  beq (str "/" ++ name) jailSubDirectoryIfaces = false ->
  In (name, fst (inUserRoots dryRun a name n)) (swept dryRun a l).
Proof.
  intros Hin H1 H2 H3. unfold swept, sweepOverlays. apply sweep_In. eexists. split.
  - apply ifaces_In. exists (fst (inUserRoots dryRun a name n)). split; [|done]. apply jailDirs_In. exists n, n.
    split; [done|]. split; [|done]. unfold keptTop, kept. by rewrite H1, orb_true_r.
  - unfold kept. rewrite H2, orb_true_r. unfold inIfaces. by rewrite enter_other.
Qed.

(** ** The line files *)

(** A file as a table of what each name has, and a release that clears one
    name, unless its write fails. *)
Section Tables.
Context {V : Type} (table : File -> (bytes -> option V) -> Prop) (release : bytes -> File -> (bytes + unit) * File) (ok : Prop).

Definition releases : Prop := forall n f m, table f m -> exists m', table (snd (release n f)) m'
  /\ (forall j, j <> n -> m' j = m j) /\ (m' n = m n \/ m' n = None) /\ (ok -> m' n = None).

Lemma sweepFile_table {E} dry (gone : E -> bool) key say es f m : releases -> table f m ->
  exists m', table (fst (sweepFile dry gone key say release es f)) m'
    /\ (forall j, (forall e, In e es -> gone e = true -> key e <> j) -> m' j = m j)
    /\ (forall j, m' j = m j \/ m' j = None)
    /\ (dry = false -> ok -> forall e, In e es -> gone e = true -> m' (key e) = None).
Proof.
  intros Hrel. revert f m. induction es as [|e es IH]; intros f m Hm;
    [exists m; split; [done|]; split; [done|]; split; [by left|by intros _ _ e []]|]. cbn [sweepFile].
  destruct (gone e) eqn:G; cbn [negb].
  2: { destruct (IH f m Hm) as (m' & H1 & H2 & H3 & H4). exists m'. split; [done|]. split; [intros j Hj; apply H2; intros x Hx; apply Hj; by right|].
       split; [done|]. intros Hd Hok x [->|Hx] Hg; [congruence|auto]. }
  destruct dry.
  - destruct (IH f m Hm) as (m' & H1 & H2 & H3 & _). destruct (sweepFile _ _ _ _ _ es f) as [f' r]. exists m'.
    split; [done|]. split; [intros j Hj; apply H2; intros x Hx; apply Hj; by right|]. done.
  - destruct (Hrel (key e) f m Hm) as (m1 & R1 & R2 & R3 & R4). destruct (release (key e) f) as [res f1]. cbn [snd] in R1.
    destruct (IH f1 m1 R1) as (m' & H1 & H2 & H3 & H4). destruct (sweepFile _ _ _ _ _ es f1) as [f' r]. exists m'.
    split; [done|]. split; [|split].
    + intros j Hj. rewrite H2 by (intros x Hx; apply Hj; by right). apply R2. intros ->. by apply (Hj e (or_introl eq_refl) G).
    + intros j. destruct (H3 j) as [->|]; [|by right]. destruct (decide (j = key e)) as [->|Hne]; [done|]. left. by apply R2.
    + intros _ Hok x [->|Hx] Hg; [|auto]. destruct (H3 (key x)) as [->|]; auto.
Qed.

End Tables.

Definition leaseTable {A P} `{AddrPoolOk A P} (f : File) (m : bytes -> option A) : Prop :=
  exists ls, holds f ls /\ forall j, m j = leaseOf j ls.

Lemma leaseOf_filter {A} n (ls : list (LeaseFile.Lease A)) j :
  leaseOf j (List.filter (fun l => negb (beq (l_name l) n)) ls) = if beq j n then None else leaseOf j ls.
Proof.
  induction ls as [|l ls IH]; [by destruct (beq j n)|]. cbn [List.filter leaseOf].
  destruct (beq_spec (l_name l) n) as [En|En]; cbn [negb leaseOf]; rewrite IH; destruct (beq_spec j n) as [Ej|Ej];
    destruct (beq_spec (l_name l) j) as [El|El]; try done; congruence.
Qed.

Lemma lease_releases {A P} `{AddrPoolOk A P} (io : bytes -> bytes + unit) :
  releases (leaseTable (A:=A) (P:=P)) (fun n => LeaseFile.releaseFor (A:=A) (io n) n) (forall n, io n = inr tt).
Proof.
  intros n f m (ls & Hf & Hm). pose proof (releaseFor_spec (io n) n f ls Hf) as Hs.
  destruct (io n) as [e|[]] eqn:I, (LeaseFile.releaseFor _ n f) as [[e'|[]] f'] eqn:R; cbn [snd].
  all: try (exists m; split; [by exists ls|]; split; [done|]; split; [by left|]; intros Hok; rewrite Hok in I; done).
  all: try (exists (fun j => if beq j n then None else m j); split; [eexists; split; [done|]; intros j; by rewrite leaseOf_filter, Hm|];
    split; [intros j Hj%beq_neq; by rewrite Hj|]; rewrite beq_refl; auto).
  exfalso. revert R. unfold LeaseFile.releaseFor. rewrite (holds_parse f ls Hf). destruct (existsb _ ls); done.
Qed.

Definition registryTable (f : File) (m : bytes -> option SpecRegistry.Entry) : Prop :=
  exists g, SpecRegistry.represents f g /\ forall j, m j = g !! j.

Lemma registry_releases (io : bytes -> bytes + unit) :
  releases registryTable (fun n => SpecRegistry.remove (io n) n) (forall n, io n = inr tt).
Proof.
  intros n f m (g & Hg & Hm). apply (SpecRegistry.remove_step f g (io n) n) in Hg. cbn [SpecRegistry.exec] in Hg.
  exists (fun j => SpecRegistry.specStep g (SpecRegistry.Remove (io n) n) !! j). split; [by eexists|].
  destruct (io n) as [e|[]] eqn:I; cbn [SpecRegistry.specStep].
  - split; [done|]. split; [by left|]. intros Hok. by rewrite Hok in I.
  - split; [intros j Hj; rewrite lookup_delete_ne by done; by rewrite Hm|]. rewrite lookup_delete_eq. auto.
Qed.

(** ** The firewall *)

Lemma orphans_In number lo hi jidOf jids lines n :
  In n (flat_map (AutoFw.orphanOf number lo hi jidOf jids) lines) -> lo <= n < hi /\ ~ In (jidOf n) jids.
Proof.
  rewrite in_flat_map. intros (line & _ & H). unfold AutoFw.orphanOf in H. destruct (_ || _) eqn:R; [done|].
  destruct (AutoFw.running _ jids) eqn:E; [done|]. destruct H as [<-|[]]. split; [lia|]. intros Hin.
  apply not_true_iff_false in E. apply E. apply existsb_exists. eexists. split; [done|]. lia.
Qed.

(** The call touches no rule, NAT instance or anchor of a jail that runs. *)
Definition spares (a : Answers) (c : Call) : Prop :=
  match c with
  | DeleteRule n => forall js j, jailsAtFw a = inr js -> In j js -> RuntimePaths.isCrateJailPath (JailQuery.ji_path j) = true ->
      1 <= JailQuery.ji_jid j <= AutoFw.kIpfwMaxJid ->
      ~ In n [AutoFw.ruleIdForJail (JailQuery.ji_jid j); AutoFw.loopbackRuleIdForJail (JailQuery.ji_jid j);
              Throttle.ruleIdForJail (JailQuery.ji_jid j) false; Throttle.ruleIdForJail (JailQuery.ji_jid j) true]
  | DeleteNat n => forall js j, jailsAtFw a = inr js -> In j js -> RuntimePaths.isCrateJailPath (JailQuery.ji_path j) = true ->
      1 <= JailQuery.ji_jid j <= AutoFw.kIpfwMaxJid -> n <> AutoFw.natIdForJail (JailQuery.ji_jid j)
  | FlushRules anchor => forall js j, jailsAtPf a = inr js -> In j js -> anchor <> str "crate/" ++ JailQuery.ji_name j
  end.

Lemma runningJids_In a js j : jailsAtFw a = inr js -> In j js -> RuntimePaths.isCrateJailPath (JailQuery.ji_path j) = true ->
  In (JailQuery.ji_jid j) (runningJids a).
Proof. intros E Hj Hp. unfold runningJids. rewrite E. apply in_map, filter_In. done. Qed.

Lemma throttle_id jid egress : 1 <= jid <= 9999 -> Throttle.ruleIdForJail jid egress = 20000 + 2 * jid + (if egress then 1 else 0).
Proof.
  intros H. unfold Throttle.ruleIdForJail, Throttle.kRuleBase, u32.
  destruct egress; rewrite !Z.mod_small by (rewrite ?Z.mod_small; lia); lia.
Qed.

Lemma rules_spare a c : In c (orphanRules a) -> spares a c.
Proof.
  unfold orphanRules. destruct (ipfwList a) as [|out]; [done|]. rewrite in_app_iff, !in_map_iff.
  intros H. assert (G : exists n, c = DeleteRule n /\ ((40000 <= n < 60000 /\ ~ In ((n - 40000) / 2) (runningJids a))
      \/ (20000 <= n < 30000 /\ ~ In ((n - 20000) / 2) (runningJids a)))).
  { destruct H as [(n & <- & H%orphans_In)|(n & <- & H%orphans_In)]; exists n; (split; [done|]); auto. }
  clear H. destruct G as (n & -> & G). cbn [spares]. intros js j E Hj Hp Hr. unfold AutoFw.kIpfwMaxJid in Hr.
  pose proof (runningJids_In a js j E Hj Hp) as Hin. destruct (AutoFw.ids_plain _ Hr) as (_ & -> & ->).
  rewrite !throttle_id by done. intros Hn.
  assert (G' : (n - 40000) / 2 = JailQuery.ji_jid j /\ 40000 <= n \/ (n - 20000) / 2 = JailQuery.ji_jid j /\ n < 40000).
  { clear -Hn Hr. cbn [In] in Hn. Z.to_euclidean_division_equations. lia. }
  destruct G' as [[G' Hb]|[G' Hb]]; rewrite <- G' in Hin; destruct G as [[Hn1 G]|[Hn1 G]]; try done; lia.
Qed.

Lemma nats_spare a c : In c (orphanNats a) -> spares a c.
Proof.
  unfold orphanNats. destruct (natShow a) as [|out]; [done|]. rewrite in_map_iff.
  intros (n & <- & [_ G]%orphans_In) js j E Hj Hp Hr. pose proof (runningJids_In a js j E Hj Hp) as Hin.
  destruct (AutoFw.ids_plain _ Hr) as (-> & _). intros ->. apply G. by replace (30000 + _ - 30000) with (JailQuery.ji_jid j) by lia.
Qed.

Lemma anchors_spare a c : In c (staleAnchors a) -> spares a c.
Proof.
  unfold staleAnchors. destruct (pfAnchors a) as [|out]; [done|]. destruct (jailsAtPf a) as [|js] eqn:E; [done|].
  rewrite in_map_iff. intros (n & <- & [_ G]%filter_In) js' j E' Hj. rewrite E in E'. injection E' as <-.
  intros Hn. apply app_inv_head in Hn as ->. apply negb_true_iff, not_true_iff_false in G. apply G.
  apply existsb_exists. exists (JailQuery.ji_name j). split; [by apply in_map|apply beq_refl].
Qed.

Lemma ipfw_spares dryRun a c : In c (fst (sweepIpfw dryRun a)) -> spares a c.
Proof.
  unfold sweepIpfw, deletions. destruct (ipfwPresent a); [|done]. destruct dryRun; [done|]. cbn [negb fst].
  rewrite in_app_iff. intros [H|H]; [by apply rules_spare|by apply nats_spare].
Qed.

(** ** The command as a whole *)

Lemma clean_fields dryRun a h (h' := fst (cleanCrates dryRun a h)) (running := getRunningJailPaths a) :
  users h' = fst (sweepContexts dryRun a (users h))
  /\ registry h' = fst (sweepRegistry dryRun a (registry h))
  /\ leases4 h' = fst (sweepLeases4 dryRun a running (leases4 h))
  /\ leases6 h' = fst (sweepLeases6 dryRun a running (leases6 h))
  /\ calls h' = calls h ++ fst (sweepIpfw dryRun a) ++ fst (sweepAnchors dryRun a).
Proof.
  unfold h', cleanCrates. fold running.
  destruct (onTop _ (top h)) as [t1 r1], (onTop _ t1) as [t2 r2], (sweepContexts _ _ _) as [u r3], (onTop _ t2) as [t4 r4],
    (sweepIpfw _ _) as [c5 r5], (sweepRegistry _ _ _) as [reg r6], (sweepAnchors _ _) as [c7 r7],
    (sweepLeases4 _ _ _ _) as [l4 r8], (sweepLeases6 _ _ _ _) as [l6 r9]. done.
Qed.

Lemma leaseOf_NoDup {A} (ls : list (LeaseFile.Lease A)) l :
  NoDup (map l_name ls) -> In l ls -> leaseOf (l_name l) ls = Some (l_ip l).
Proof.
  induction ls as [|x ls IH]; [done|]. cbn [map]. intros [Hn Hd]%NoDup_cons [->|Hin]; cbn [leaseOf]; [by rewrite beq_refl|].
  destruct (beq_spec (l_name x) (l_name l)) as [E|]; [|auto]. exfalso. apply Hn, list_elem_of_In. rewrite E. by apply in_map.
Qed.

Lemma leaseOf_In {A} (ls : list (LeaseFile.Lease A)) l :
  leaseOf (l_name l) ls = Some (l_ip l) -> In l ls.
Proof. intros H%leaseOf_Some. by destruct l. Qed.

Lemma leases_swept {A P} `{AddrPoolOk A P} dryRun running io (say : LeaseFile.Lease A -> Action) ls f :
  holds f ls ->
  exists ls', holds (fst (sweepFile dryRun (leaseGone running) l_name say (fun n => LeaseFile.releaseFor (A:=A) (io n) n) ls f)) ls'
    /\ (forall l, In l ls -> leaseGone running l = false -> In l ls')
    /\ (dryRun = false -> (forall n, io n = inr tt) -> forall l, In l ls' -> leaseGone running l = false).
Proof.
  intros Hf. destruct (sweepFile_table (leaseTable (P:=P)) _ _ dryRun (leaseGone running) l_name say ls f (fun j => leaseOf j ls)
    (lease_releases io) ltac:(by exists ls)) as (m' & (ls' & Hf' & Hm') & Hk & Hs & Hg).
  pose proof Hf as [(_ & Hd & _) _]. pose proof Hf' as [(_ & Hd' & _) _].
  exists ls'. split; [done|]. split.
  - intros l Hin Hl. apply leaseOf_In. rewrite <- Hm', Hk; [by apply leaseOf_NoDup|].
    intros x Hx Hgx E. unfold leaseGone in Hgx, Hl. rewrite E, Hl in Hgx. discriminate Hgx.
  - intros Hdry Hok l Hin. destruct (leaseGone running l) eqn:G; [|done]. exfalso.
    pose proof (leaseOf_NoDup _ _ Hd' Hin) as E. rewrite <- Hm' in E. destruct (Hs (l_name l)) as [Es|Es]; [|congruence].
    rewrite Es in E. apply leaseOf_In in E. rewrite (Hg Hdry Hok l E G) in Es. pose proof (leaseOf_NoDup _ _ Hd E). congruence.
Qed.

Lemma sweepLeases4_swept dryRun a running f (ls : list (LeaseFile.Lease Z)) : holds f ls ->
  exists ls', holds (fst (sweepLeases4 dryRun a running f)) ls'
    /\ (forall l, In l ls -> leaseGone running l = false -> In l ls')
    /\ (dryRun = false -> (forall n, lease4Io a n = inr tt) -> forall l, In l ls' -> leaseGone running l = false).
Proof.
  intros Hf. unfold sweepLeases4. replace (IpAlloc.readAll f) with (@inr bytes (list _) ls) by (symmetry; exact (holds_readAll f ls Hf)).
  by apply (leases_swept (P:=IpAlloc.Network) dryRun running (lease4Io a)).
Qed.

Lemma sweepLeases6_swept dryRun a running f (ls : list (LeaseFile.Lease Ip6Alloc.Addr6)) : holds f ls ->
  exists ls', holds (fst (sweepLeases6 dryRun a running f)) ls'
    /\ (forall l, In l ls -> leaseGone running l = false -> In l ls')
    /\ (dryRun = false -> (forall n, lease6Io a n = inr tt) -> forall l, In l ls' -> leaseGone running l = false).
Proof.
  intros Hf. unfold sweepLeases6. replace (Ip6Alloc.readAll f) with (@inr bytes (list _) ls) by (symmetry; exact (holds_readAll f ls Hf)).
  by apply (leases_swept (P:=Ip6Alloc.Network6) dryRun running (lease6Io a)).
Qed.

(** The registry holds these entries, under different names. *)
Definition registered (f : File) (es : list SpecRegistry.Entry) : Prop :=
  Forall SpecRegistry.entryValid es /\ NoDup (map SpecRegistry.e_name es) /\ stores f es.

Lemma find_NoDup es e : NoDup (map SpecRegistry.e_name es) -> In e es -> SpecRegistry.view es !! SpecRegistry.e_name e = Some e.
Proof.
  rewrite SpecRegistry.view_find. induction es as [|x es IH]; [done|]. cbn [map]. intros [Hn Hd]%NoDup_cons [->|Hin]; cbn [List.find].
  - by rewrite beq_refl.
  - destruct (beq_spec (SpecRegistry.e_name x) (SpecRegistry.e_name e)) as [E|]; [|auto]. exfalso. apply Hn, list_elem_of_In.
    rewrite E. by apply in_map.
Qed.

Lemma registry_swept dryRun a f es : registered f es -> forall e, In e es ->
  (entryGone a e = false -> SpecRegistry.lookupEntry (SpecRegistry.e_name e) (fst (sweepRegistry dryRun a f)) = inr (Some e))
  /\ (dryRun = false -> (forall n, registryIo a n = inr tt) -> entryGone a e = true ->
      SpecRegistry.lookupEntry (SpecRegistry.e_name e) (fst (sweepRegistry dryRun a f)) = inr None).
Proof.
  intros (Hok & Hd & Hf) e He. unfold sweepRegistry.
  replace (SpecRegistry.readAll f) with (@inr bytes (list _) es) by (symmetry; exact (stores_readAll f es Hok Hf)).
  destruct (sweepFile_table registryTable _ _ dryRun (entryGone a) SpecRegistry.e_name
    (fun e => RemoveEntry (SpecRegistry.e_name e) (SpecRegistry.targetOf e)) es f (fun j => SpecRegistry.view es !! j)
    (registry_releases (registryIo a))) as (m' & (g & Hg & Hm') & Hk & _ & Hgone).
  { exists (SpecRegistry.view es). split; [|done]. exists es. done. }
  rewrite (SpecRegistry.represents_lookup _ _ _ Hg), <- Hm'. split.
  - intros Hp. rewrite Hk; [by rewrite find_NoDup|].
    intros x Hx Hgx E. pose proof (find_NoDup es x Hd Hx) as F1. pose proof (find_NoDup es e Hd He) as F2. congruence.
  - intros Hdry Hio Hp. by rewrite Hgone.
Qed.

(** ** What survives, what goes, and the dry run *)

(** A run or a create works in this directory, or a jail is rooted there. *)
Definition inUse (a : Answers) (path : bytes) : bool := isRunning (getRunningJailPaths a) path || isLocked a path.

Lemma inUse_not_orphan a dir name n : inUse a (under dir name) = true -> orphanJailDir a (getRunningJailPaths a) dir name n = false.
Proof.
  unfold inUse, orphanJailDir. intros [->| ->]%orb_prop; cbn [negb]; by rewrite ?andb_false_r.
Qed.

Lemma swept_not_ifaces name : sweptName name = true -> beq (str "/" ++ name) jailSubDirectoryIfaces = false.
Proof. intros H. apply beq_neq. intros [= ->]. done. Qed.

Lemma userRoot_not_ifaces name n : userRoot name n = true -> beq (str "/" ++ name) jailSubDirectoryIfaces = false.
Proof. intros H. apply beq_neq. intros [= ->]. done. Qed.

Lemma no_overlay running name : has_sub cowSuffix name = false -> forall m, orphanOverlay running name m = false.
Proof. intros H m. unfold orphanOverlay. rewrite has_sub_find in H. by destruct (find_sub cowSuffix name). Qed.

(** The entries of a per-user root. *)
Lemma userRoot_kept dryRun a uid e name n :
  userRoot uid (Dir e) = true -> In (name, n) e -> inUse a (under (under jailDirectoryPath uid) name) = true ->
  exists e', fst (inUserRoots dryRun a uid (Dir e)) = Dir e' /\ In (name, n) e'.
Proof.
  intros Hu Hin Hlive. unfold inUserRoots, enter. rewrite Hu. destruct (cannotOpen _ _); [by exists e|]. cbn [andb negb].
  unfold sweepJailDir. pose proof (sweep_In dryRun (orphanJailDir a (getRunningJailPaths a) (under jailDirectoryPath uid)) (rmdirHier a)
    RemoveTree (under jailDirectoryPath uid) e name n) as H. destruct (sweep _ _ _ _ _ e) as [e' r]. exists e'. split; [done|].
  apply H. exists n. split; [done|]. unfold kept. by rewrite inUse_not_orphan, orb_true_r.
Qed.

(** The kernel answers each of the three times it is asked for the jails, with
    those that run. *)
Definition Listed (a : Answers) (js : list JailQuery.JailInfo) : Prop := jailsAtStart a = js /\ jailsAtFw a = inr js /\ jailsAtPf a = inr js.

(** A jail that runs is rooted in this directory, or a run or create has locked it. *)
Definition occupied (a : Answers) (js : list JailQuery.JailInfo) (path : bytes) : Prop :=
  (exists j, In j js /\ JailQuery.ji_path j = path) \/ isLocked a path = true.

(** The call is about no crate jail that runs: not about the rules and the NAT
    instance numbered after its jid, nor about the anchor of its name. *)
Definition sparesJails (js : list JailQuery.JailInfo) (c : Call) : Prop :=
  forall j, In j js ->
  match c with
  | DeleteRule n => RuntimePaths.isCrateJailPath (JailQuery.ji_path j) = true -> 1 <= JailQuery.ji_jid j <= AutoFw.kIpfwMaxJid ->
      ~ In n [AutoFw.ruleIdForJail (JailQuery.ji_jid j); AutoFw.loopbackRuleIdForJail (JailQuery.ji_jid j);
              Throttle.ruleIdForJail (JailQuery.ji_jid j) false; Throttle.ruleIdForJail (JailQuery.ji_jid j) true]
  | DeleteNat n => RuntimePaths.isCrateJailPath (JailQuery.ji_path j) = true -> 1 <= JailQuery.ji_jid j <= AutoFw.kIpfwMaxJid ->
      n <> AutoFw.natIdForJail (JailQuery.ji_jid j)
  | FlushRules anchor => anchor <> str "crate/" ++ JailQuery.ji_name j
  end.

Lemma running_path a js j : Listed a js -> In j js -> JailQuery.ji_path j <> [] -> In (JailQuery.ji_path j) (getRunningJailPaths a).
Proof.
  intros (E & _ & _) Hj Hne. unfold getRunningJailPaths. rewrite E. apply filter_In. split; [by apply in_map|].
  by apply negb_true_iff, is_empty_false.
Qed.

Lemma occupied_inUse a js path : Listed a js -> path <> [] -> occupied a js path -> inUse a path = true.
Proof.
  intros HL Hne [(j & Hj & <-)|Hl]; unfold inUse; apply orb_true_iff; [left|by right].
  unfold isRunning. apply existsb_exists. exists (JailQuery.ji_path j). split; [by eapply running_path|apply beq_refl].
Qed.

Lemma lease_live {A} a js j (l : LeaseFile.Lease A) : Listed a js -> In j js -> JailQuery.ji_path j <> [] ->
  UtilPure.filePathToFileName (JailQuery.ji_path j) = l_name l -> leaseGone (getRunningJailPaths a) l = false.
Proof.
  intros HL Hj Hne E. unfold leaseGone, liveKeys. apply negb_false_iff, existsb_exists. exists (l_name l). split; [|apply beq_refl].
  rewrite <- E. apply in_map. by eapply running_path.
Qed.

Lemma spares_listed a js c : Listed a js -> spares a c -> sparesJails js c.
Proof. intros (_ & Ef & Ep) Hs j Hj. destruct c; cbn in *; eauto. Qed.

Lemma under_nonempty d n : under d n <> [].
Proof. unfold under. destruct d; [|done]. by destruct n. Qed.


(** What a sweep without failures leaves: no directory it takes for an orphan. *)
Lemma kept_not_orphan a running dir name n n' :
  (forall p, cannotOpen a p = false) -> (forall p, cannotRemove a p = false) ->
  kept false (orphanJailDir a running dir) (rmdirHier a) dir name n = Some n' -> isDir n' = true ->
  n' = n /\ orphanJailDir a running dir name n = false.
Proof.
  intros Ho Hr. unfold kept. cbn [orb]. destruct (orphanJailDir _ _ _ _ n); cbn [negb]; [|by intros [= <-]].
  intros K D. apply rmdirHier_left in K; [|done..]. congruence.
Qed.

Lemma not_orphan_inUse a dir name e :
  sweptName name = true -> orphanJailDir a (getRunningJailPaths a) dir name (Dir e) = false -> inUse a (under dir name) = true.
Proof.
  intros Hs. unfold orphanJailDir, inUse. rewrite Hs. cbn [statIsDir].
  assert (beq name (str ".") || beq name (str "..") = false) as ->.
  { apply orb_false_iff. split; apply beq_neq; intros ->; done. }
  cbn [negb andb]. by destruct (isRunning _ _), (isLocked _ _).
Qed.

Lemma enter_Dir a select go dir name n e : fst (enter a select go dir name n) = Dir e -> exists e0, n = Dir e0.
Proof.
  unfold enter. destruct (_ && _); cbn [fst]; [|by eauto]. destruct n as [|[e0|]|e0]; cbn [fst]; try done; [|eauto].
  by destruct (go _ e0).
Qed.

(** A directory that is left was there before all the sweeps, or at least
    after the first. *)
Lemma swept_Dir a l name e : In (name, Dir e) (swept false a l) -> sweptName name = true \/ userRoot name (Dir []) = true ->
  (forall p, cannotOpen a p = false) -> (forall p, cannotRemove a p = false) ->
  exists e0, In (name, Dir e0) l /\ Dir e = fst (inUserRoots false a name (Dir e0))
    /\ orphanJailDir a (getRunningJailPaths a) jailDirectoryPath name (Dir e0) = false.
Proof.
  intros Hin Hn Ho Hr. unfold swept, sweepOverlays in Hin. apply sweep_In in Hin as (n4 & Hin & K4).
  assert (n4 = Dir e) as ->.
  { unfold kept in K4. destruct (_ || _); [by injection K4|]. apply rmdirHier_left in K4; done. }
  apply ifaces_In in Hin as (n2 & Hin & E2).
  assert (n2 = Dir e) as ->.
  { unfold inIfaces in E2. rewrite enter_other in E2; [by subst|]. destruct Hn as [Hn|Hn]; [by apply swept_not_ifaces|by eapply userRoot_not_ifaces]. }
  apply jailDirs_In in Hin as (n & m & Hin & K & E). destruct (enter_Dir _ _ _ _ _ _ _ (eq_sym E)) as [e0 ->].
  destruct (kept_not_orphan _ _ _ _ _ _ Ho Hr K eq_refl) as [<- Horph]. by exists e0.
Qed.

(** C20: [crate clean] collects what is not in use.  When no call fails, a
    directory that is left under a jail or create name, in /var/run/crate or in a per-user root, is in
    use; every registry entry whose file or dataset is gone is forgotten; and every lease that is
    left belongs to the directory of a running jail. *)
Theorem clean_collects_the_rest (a : Answers) (h : Host) (h' := fst (cleanCrates false a h)) :
  (forall p, cannotOpen a p = false) -> (forall p, cannotRemove a p = false) ->
  (forall n, registryIo a n = inr tt) -> (forall n, lease4Io a n = inr tt) -> (forall n, lease6Io a n = inr tt) ->
  (forall l' name e, top h' = Some l' -> In (name, Dir e) l' -> sweptName name = true -> inUse a (under jailDirectoryPath name) = true)
  /\ (forall l' uid e name e', top h' = Some l' -> In (uid, Dir e) l' -> userRoot uid (Dir e) = true -> In (name, Dir e') e ->
     sweptName name = true -> inUse a (under (under jailDirectoryPath uid) name) = true)
  /\ (forall es e, registered (registry h) es -> In e es -> entryGone a e = true ->
     SpecRegistry.lookupEntry (SpecRegistry.e_name e) (registry h') = inr None)
  /\ (forall (ls : list (LeaseFile.Lease Z)), holds (leases4 h) ls -> exists ls' : list (LeaseFile.Lease Z), holds (leases4 h') ls'
     /\ forall l, In l ls' -> leaseGone (getRunningJailPaths a) l = false)
  /\ (forall (ls : list (LeaseFile.Lease Ip6Alloc.Addr6)), holds (leases6 h) ls -> exists ls' : list (LeaseFile.Lease Ip6Alloc.Addr6), holds (leases6 h') ls'
     /\ forall l, In l ls' -> leaseGone (getRunningJailPaths a) l = false).
Proof.
  intros Ho Hr Hreg H4 H6. pose proof (clean_top false a h) as Ht. destruct (clean_fields false a h) as (_ & Er & E4 & E6 & _).
  unfold h'. split; [|split; [|split; [|split]]].
  - intros l' name e Hl Hin Hs. rewrite Ht in Hl. destruct (top h) as [l|]; [|done]. injection Hl as <-.
    destruct (swept_Dir a l name e Hin (or_introl Hs) Ho Hr) as (e0 & _ & _ & Horph). by apply (not_orphan_inUse _ _ _ e0).
  - intros l' uid e name e' Hl Hin Hu Hn Hs. rewrite Ht in Hl. destruct (top h) as [l|]; [|done]. injection Hl as <-.
    destruct (swept_Dir a l uid e Hin (or_intror Hu) Ho Hr) as (e0 & _ & E & _).
    unfold inUserRoots, enter in E. change (userRoot uid (Dir e0)) with (userRoot uid (Dir e)) in E. rewrite Hu, Ho in E.
    cbn [andb negb] in E. unfold sweepJailDir in E. pose proof (sweep_In false (orphanJailDir a (getRunningJailPaths a)
      (under jailDirectoryPath uid)) (rmdirHier a) RemoveTree (under jailDirectoryPath uid) e0 name (Dir e')) as S.
    destruct (sweep _ _ _ _ _ e0) as [e1 r1]. injection E as ->. apply S in Hn as (n & _ & K).
    destruct (kept_not_orphan _ _ _ _ _ _ Ho Hr K eq_refl) as [<- Horph]. by apply (not_orphan_inUse _ _ _ e').
  - intros es e Hf He Hg. rewrite Er. by apply (registry_swept false a _ es Hf e He).
  - intros ls Hf. rewrite E4. destruct (sweepLeases4_swept false a (getRunningJailPaths a) _ ls Hf) as (ls' & H1 & _ & H2). eauto.
  - intros ls Hf. rewrite E6. destruct (sweepLeases6_swept false a (getRunningJailPaths a) _ ls Hf) as (ls' & H1 & _ & H2). eauto.
Qed.

(** *** The dry run *)

Definition said {A} (x : A * Report) : list Action := fst (snd x).
Definition count {A} (x : A * Report) : Z := snd (snd x).

Lemma sweepFile_said {E} dryRun gone key say release (es : list E) f :
  said (sweepFile dryRun gone key say release es f) = map say (List.filter gone es).
Proof.
  unfold said. revert f. induction es as [|e es IH]; intros f; [done|]. cbn [sweepFile List.filter]. destruct (gone e); cbn [negb map]; [|done].
  destruct dryRun.
  - specialize (IH f). destruct (sweepFile _ _ _ _ _ es f). cbn [snd fst both] in *. by rewrite IH.
  - destruct (release (key e) f) as [res f1]. specialize (IH f1). destruct (sweepFile _ _ _ _ _ es f1). cbn [snd fst both] in *. by rewrite IH.
Qed.

Lemma sweepFile_dry {E} gone key say release (es : list E) f :
  fst (sweepFile true gone key say release es f) = f /\ count (sweepFile true gone key say release es f) = 0.
Proof.
  unfold count. induction es as [|e es [IH1 IH2]]; [done|]. cbn [sweepFile]. destruct (gone e); cbn [negb]; [|done].
  destruct (sweepFile _ _ _ _ _ es f). cbn [snd fst both] in *. subst. by rewrite IH2.
Qed.

Lemma files_dry a running f4 f6 fr :
  (fst (sweepRegistry true a fr) = fr /\ count (sweepRegistry true a fr) = 0)
  /\ (fst (sweepLeases4 true a running f4) = f4 /\ count (sweepLeases4 true a running f4) = 0)
  /\ (fst (sweepLeases6 true a running f6) = f6 /\ count (sweepLeases6 true a running f6) = 0).
Proof.
  unfold sweepRegistry, sweepLeases4, sweepLeases6. split; [|split].
  - destruct (SpecRegistry.readAll fr); [done|]. apply sweepFile_dry.
  - destruct (IpAlloc.readAll f4); [done|]. apply sweepFile_dry.
  - destruct (Ip6Alloc.readAll f6); [done|]. apply sweepFile_dry.
Qed.

Lemma files_said a running f4 f6 fr :
  said (sweepRegistry false a fr) = said (sweepRegistry true a fr)
  /\ said (sweepLeases4 false a running f4) = said (sweepLeases4 true a running f4)
  /\ said (sweepLeases6 false a running f6) = said (sweepLeases6 true a running f6).
Proof.
  unfold sweepRegistry, sweepLeases4, sweepLeases6. split; [|split].
  - destruct (SpecRegistry.readAll fr); [done|]. by rewrite !sweepFile_said.
  - destruct (IpAlloc.readAll f4); [done|]. by rewrite !sweepFile_said.
  - destruct (Ip6Alloc.readAll f6); [done|]. by rewrite !sweepFile_said.
Qed.

Lemma tree_dry a running l :
  (fst (sweepJailDirs true a running l) = l /\ count (sweepJailDirs true a running l) = 0)
  /\ (fst (sweepIfaces true a running l) = l /\ count (sweepIfaces true a running l) = 0)
  /\ (fst (sweepOverlays true a running l) = l /\ count (sweepOverlays true a running l) = 0).
Proof.
  unfold count. split; [|split].
  - unfold sweepJailDirs. unfold sweepJailDir at 1 3. 
    destruct (sweep_dry (orphanJailDir a running jailDirectoryPath) (rmdirHier a) RemoveTree jailDirectoryPath l) as [E1 C1].
    destruct (sweep true _ _ _ _ l) as [l1 r1]. cbn [fst snd] in *. subst l1.
    destruct (inside_same a userRoot (sweepJailDir true a running) jailDirectoryPath l) as [E2 C2]; [intros; apply sweep_dry|].
    destruct (inside _ _ _ _ l) as [l2 r2]. cbn [fst snd both] in *. subst. by rewrite C1, C2.
  - apply inside_same. intros. apply sweep_dry.
  - apply sweep_dry.
Qed.

Lemma enter_said a select go1 go2 dir name n : (forall full e, said (go1 full e) = said (go2 full e)) ->
  said (enter a select go1 dir name n) = said (enter a select go2 dir name n).
Proof.
  intros H. unfold said, enter in *. destruct (_ && _); [|done]. destruct n as [|[e|]|e]; try done; specialize (H (under dir name) e);
    destruct (go1 _ e), (go2 _ e); done.
Qed.

Lemma enter_silent a select go dir name n act : In act (said (enter a select go dir name n)) -> select name n = true.
Proof. destruct (select name n) eqn:E; [done|]. by rewrite enter_other. Qed.

Lemma sweepJailDir_said a running full e : said (sweepJailDir false a running full e) = said (sweepJailDir true a running full e).
Proof. unfold said, sweepJailDir. by rewrite !sweep_said. Qed.

Lemma sweepJailDirs_said dryRun a running l : said (sweepJailDirs dryRun a running l)
  = said (sweepJailDir dryRun a running jailDirectoryPath l)
    ++ flat_map (fun kv => said (enter a userRoot (sweepJailDir dryRun a running) jailDirectoryPath (fst kv) (snd kv)))
         (fst (sweepJailDir dryRun a running jailDirectoryPath l)).
Proof.
  unfold said at 1, sweepJailDirs. destruct (sweepJailDir dryRun a running jailDirectoryPath l) as [l1 r1].
  pose proof (inside_said a userRoot (sweepJailDir dryRun a running) jailDirectoryPath l1) as E.
  destruct (inside _ _ _ _ l1) as [l2 r2]. cbn [fst snd both] in *. by rewrite E.
Qed.

Lemma jailDirs_preview a running l : incl (said (sweepJailDirs false a running l)) (said (sweepJailDirs true a running l)).
Proof.
  intros act. rewrite !sweepJailDirs_said, !in_app_iff, sweepJailDir_said. intros [H|H]; [by left|right].
  apply in_flat_map in H as ([name n] & Hin & H). cbn [fst snd] in H. pose proof (enter_silent _ _ _ _ _ _ _ H) as Hu.
  rewrite (enter_said _ _ _ (sweepJailDir true a running)) in H by apply sweepJailDir_said.
  apply in_flat_map. exists (name, n). split; [|done]. unfold sweepJailDir in *. destruct (sweep_dry (orphanJailDir a running jailDirectoryPath)
    (rmdirHier a) RemoveTree jailDirectoryPath l) as [-> _]. apply sweep_In in Hin as (n0 & Hin & K). unfold kept in K.
  rewrite not_swept in K by (by eapply userRoot_swept). by injection K as <-.
Qed.

Definition afterJailDirs (a : Answers) (l : Entries) : Entries := fst (sweepJailDirs false a (getRunningJailPaths a) l).

Lemma ifaces_preview a l (running := getRunningJailPaths a) :
  incl (said (sweepIfaces false a running (afterJailDirs a l))) (said (sweepIfaces true a running l)).
Proof.
  intros act. unfold said, sweepIfaces. rewrite !inside_said, !in_flat_map. intros ([name n] & Hin & H). cbn [fst snd] in H.
  pose proof (enter_silent _ _ _ _ _ _ _ H) as Hn. pose proof (enter_said a (fun name _ => beq (str "/" ++ name) jailSubDirectoryIfaces)
    (sweep false (orphanRecord running) (rmdirFlat a) RemoveRecord) (sweep true (orphanRecord running) (rmdirFlat a) RemoveRecord)
    jailDirectoryPath name n ltac:(intros; unfold said; by rewrite !sweep_said)) as Es. unfold said in Es. rewrite Es in H.
  exists (name, n). split; [|done]. unfold afterJailDirs in Hin. apply jailDirs_In in Hin as (n0 & m & Hin & K & E).
  apply beq_eq in Hn. injection Hn as ->. unfold inUserRoots in E. rewrite enter_other in E by done. cbn [fst] in E. subst m.
  unfold keptTop, kept in K. rewrite not_swept in K by done. by injection K as <-.
Qed.

Lemma overlays_preview a l (running := getRunningJailPaths a) :
  incl (said (sweepOverlays false a running (fst (sweepIfaces false a running (afterJailDirs a l)))))
    (said (sweepOverlays true a running l)).
Proof.
  intros act. unfold said, sweepOverlays. rewrite !sweep_said, !in_map_iff. intros ([name n] & <- & [Hin H]%filter_In).
  apply ifaces_In in Hin as (n2 & Hin & ->). unfold afterJailDirs in Hin. apply jailDirs_In in Hin as (n0 & m & Hin & K & ->).
  exists (name, n0). split; [done|]. apply filter_In. split; [done|]. cbn [fst snd] in *.
  unfold orphanOverlay in *. destruct (find_sub cowSuffix name); [|done]. unfold inIfaces, inUserRoots in H. rewrite !enter_stat in H.
  replace (statIsDir n0) with (statIsDir m); [done|]. unfold keptTop, kept in K. destruct (_ || _); [by injection K as ->|].
  by apply rmdirHier_stat in K.
Qed.

Lemma contexts_preview a u : incl (said (sweepContexts false a u)) (said (sweepContexts true a u)).
Proof. destruct u; apply incl_nil_l. Qed.

Lemma ipfw_preview a : incl (said (sweepIpfw false a)) (said (sweepIpfw true a)).
Proof. unfold sweepIpfw. destruct (ipfwPresent a); apply incl_refl. Qed.

(** What the command says, part by part. *)
Lemma clean_said dryRun a h (running := getRunningJailPaths a)
    (l1 := (fun l => fst (sweepJailDirs dryRun a running l)) <$> top h) (l2 := (fun l => fst (sweepIfaces dryRun a running l)) <$> l1) :
  said (cleanCrates dryRun a h) = said (onTop (sweepJailDirs dryRun a running) (top h)) ++ said (onTop (sweepIfaces dryRun a running) l1)
    ++ said (sweepContexts dryRun a (users h)) ++ said (onTop (sweepOverlays dryRun a running) l2) ++ said (sweepIpfw dryRun a)
    ++ said (sweepRegistry dryRun a (registry h)) ++ said (sweepAnchors dryRun a)
    ++ said (sweepLeases4 dryRun a running (leases4 h)) ++ said (sweepLeases6 dryRun a running (leases6 h)).
Proof.
  unfold l2, l1, cleanCrates, said. fold running. rewrite <- !onTop_fst. destruct (onTop _ (top h)) as [t1 r1]. cbn [fst].
  destruct (onTop _ t1) as [t2 r2]. cbn [fst].
  destruct (sweepContexts _ _ _) as [u r3], (onTop _ t2) as [t4 r4], (sweepIpfw _ _) as [c5 r5], (sweepRegistry _ _ _) as [reg r6],
    (sweepAnchors _ _) as [c7 r7], (sweepLeases4 _ _ _ _) as [l4 r8], (sweepLeases6 _ _ _ _) as [l6 r9]. done.
Qed.

Lemma clean_count a h (running := getRunningJailPaths a) :
  count (cleanCrates true a h) = 0.
Proof.
  unfold cleanCrates. fold running. pose proof (files_dry a running (leases4 h) (leases6 h) (registry h)) as ((_ & C6) & (_ & C8) & (_ & C9)).
  assert (C : forall t, fst (onTop (sweepJailDirs true a running) t) = t /\ count (onTop (sweepJailDirs true a running) t) = 0
    /\ fst (onTop (sweepIfaces true a running) t) = t /\ count (onTop (sweepIfaces true a running) t) = 0
    /\ count (onTop (sweepOverlays true a running) t) = 0).
  { intros [l|]; [|done]. unfold count, onTop. destruct (tree_dry a running l) as ((E1 & K1) & (E2 & K2) & (E3 & K3)). unfold count in *.
    destruct (sweepJailDirs _ _ _ l), (sweepIfaces _ _ _ l), (sweepOverlays _ _ _ l). cbn [fst snd] in *. by subst. }
  destruct (C (top h)) as (E1 & K1 & E2 & K2 & K4). destruct (onTop (sweepJailDirs true a running) (top h)) as [t1 r1]. cbn [fst] in E1. subst t1.
  destruct (onTop (sweepIfaces true a running) (top h)) as [t2 r2]. cbn [fst] in E2. subst t2.
  assert (K3 : count (sweepContexts true a (users h)) = 0) by (unfold sweepContexts; by destruct (users h)).
  assert (K5 : count (sweepIpfw true a) = 0) by (unfold sweepIpfw; by destruct (ipfwPresent a)).
  destruct (sweepContexts _ _ _) as [u r3], (onTop _ (top h)) as [t4 r4], (sweepIpfw _ _) as [c5 r5], (sweepRegistry _ _ _) as [reg r6].
  destruct (sweepLeases4 _ _ _ _) as [l4 r8], (sweepLeases6 _ _ _ _) as [l6 r9]. unfold count in *. cbn [snd both sweepAnchors] in *.
  by rewrite K1, K2, K3, K4, K5, C6, C8, C9.
Qed.

(** --dry-run is a preview.  It changes nothing on the host and counts nothing as
    cleaned, and whatever the command then does for real, on the same host and with the
    same answers, the dry run had announced. *)
Theorem dry_run_is_a_preview (a : Answers) (h : Host) :
  fst (cleanCrates true a h) = h /\ count (cleanCrates true a h) = 0
  /\ incl (said (cleanCrates false a h)) (said (cleanCrates true a h)).
Proof.
  split; [|split; [apply clean_count|]].
  - pose proof (clean_top true a h) as Ht. destruct (clean_fields true a h) as (Eu & Er & E4 & E6 & Ec).
    destruct (files_dry a (getRunningJailPaths a) (leases4 h) (leases6 h) (registry h)) as ((F1 & _) & (F2 & _) & (F3 & _)).
    rewrite F1 in Er. rewrite F2 in E4. rewrite F3 in E6.
    assert (Hc : calls (fst (cleanCrates true a h)) = calls h).
    { rewrite Ec. unfold sweepIpfw. destruct (ipfwPresent a); cbn; by rewrite !app_nil_r. }
    assert (Hu : users (fst (cleanCrates true a h)) = users h) by (rewrite Eu; by destruct (users h)).
    assert (Htop : top (fst (cleanCrates true a h)) = top h).
    { rewrite Ht. destruct (top h) as [l|]; [|done]. cbn [fmap option_fmap option_map]. unfold swept. f_equal.
      destruct (tree_dry a (getRunningJailPaths a) l) as ((T1 & _) & (T2 & _) & (T3 & _)). by rewrite T1, T2, T3. }
    clear -Htop Hu Er E4 E6 Hc. revert Htop Hu Er E4 E6 Hc. generalize (fst (cleanCrates true a h)). intros [] *. destruct h. cbn.
    congruence.
  - rewrite !clean_said. destruct (files_said a (getRunningJailPaths a) (leases4 h) (leases6 h) (registry h)) as (-> & -> & ->).
    repeat apply incl_app_app; try apply incl_refl; try apply contexts_preview; try apply ipfw_preview;
      destruct (top h) as [l|]; try apply incl_nil_l; cbn [fmap option_fmap option_map].
    + pose proof (jailDirs_preview a (getRunningJailPaths a) l) as H. unfold onTop, said in *.
      destruct (sweepJailDirs false _ _ l), (sweepJailDirs true _ _ l). done.
    + pose proof (ifaces_preview a l) as H. destruct (tree_dry a (getRunningJailPaths a) l) as ((T1 & _) & _). rewrite T1. revert H.
      unfold onTop, said, afterJailDirs. destruct (sweepIfaces false _ _ _), (sweepIfaces true _ _ l). done.
    + pose proof (overlays_preview a l) as H. destruct (tree_dry a (getRunningJailPaths a) l) as ((T1 & _) & (T2 & _) & _).
      rewrite T1, T2. revert H. unfold onTop, said, afterJailDirs. destruct (sweepOverlays false _ _ _), (sweepOverlays true _ _ l). done.
Qed.

(** ** What the sweeps take for an orphan *)

(** A host with these entries and running jails, where nothing fails. *)
Definition jailsAt (paths : list bytes) : list JailQuery.JailInfo :=
  map (fun p => {| JailQuery.ji_jid := 7; JailQuery.ji_name := str "web_pid42"; JailQuery.ji_path := p;
    JailQuery.ji_hostname := []; JailQuery.ji_ip4 := []; JailQuery.ji_dying := false |}) paths.

Definition quietAnswers (paths : list bytes) : Answers :=
  {| jailsAtStart := jailsAt paths;
     isLocked := fun p => isRunning paths p; cannotOpen := fun _ => false; cannotRemove := fun _ => false; alive := fun _ => true;
     slotsLock := true; ipfwPresent := true;
     jailsAtFw := inr (jailsAt paths);
     ipfwList := inr (str "40014 nat 30007 ip from any to any" ++ [newline] ++ str "40016 nat 30008 ip from any to any"); natShow := inl [];
     deleteOk := fun _ => true; zfsHas := fun _ => true; statOk := fun p => beq p (str "/srv/web.crate"); pfAnchors := inl []; jailsAtPf := inr (jailsAt paths);
     registryIo := fun _ => inr tt; lease4Io := fun _ => inr tt; lease6Io := fun _ => inr tt |}.

Definition hostWith (l : Entries) : Host :=
  {| top := Some l; users := Some []; registry := None; leases4 := None; leases6 := None; calls := [] |}.

Definition topAfter (paths : list bytes) (l : Entries) : option Entries := top (fst (cleanCrates false (quietAnswers paths) (hostWith l))).

(** The writable layer of a running container is removed: jail-web-ab12-cow-writable
    is neither a jail's root nor locked, and its name begins like a jail's. *)
Lemma overlay_of_running_jail_removed :
  let jail := Dir [(str "bin", Dir [])] in
  let overlay := Dir [(str "data.db", Plain)] in
  topAfter [str "/var/run/crate/jail-web-ab12"]
    [(str "jail-web-ab12", jail); (str "jail-web-ab12-cow-writable", overlay)] = Some [(str "jail-web-ab12", jail)].
Proof. vm_compute. reflexivity. Qed.

(** The root of a running jail is removed when the container's name contains
    -cow-writable. *)
Lemma named_like_an_overlay_removed :
  topAfter [str "/var/run/crate/jail-x-cow-writable-ab12"] [(str "jail-x-cow-writable-ab12", Dir [(str "bin", Dir [])])] = Some [].
Proof. vm_compute. reflexivity. Qed.

(** A link planted in a per-user root, which belongs to its user, is followed:
    what it leads to is deleted, by root. *)
Lemma planted_link_is_followed :
  let victim := [(str "master.passwd", Plain); (str "rc.d", Dir [(str "sshd", Plain)])] in
  topAfter [] [(str "1000", Dir [(str "jail-x", Link (Some victim))])] = Some [(str "1000", Dir [(str "jail-x", Link (Some []))])].
Proof. vm_compute. reflexivity. Qed.

(** An interface record stays as long as its name occurs anywhere in the path
    of some running jail. *)
Lemma record_kept_by_substring :
  topAfter [str "/var/run/crate/jail-web-ab12"] [(str "ifaces", Dir [(str "b", Dir []); (str "db", Dir [])])]
  = Some [(str "ifaces", Dir [(str "b", Dir [])])].
Proof. vm_compute. reflexivity. Qed.

(** The lists of jails are empty when the kernel cannot be asked, and the leases
    of all jails are then released. *)
Lemma no_answer_releases_all :
  let lease := {| l_name := str "jail-web-ab12"; l_ip := 167772162 |} in
  let f := Some (LineFile.render [lease]) in
  fst (sweepLeases4 false (quietAnswers []) [] f) = Some (LineFile.render (E := LeaseFile.Lease Z) [])
  /\ fst (sweepLeases4 false (quietAnswers []) [str "/var/run/crate/jail-web-ab12"] f) = f.
Proof. vm_compute. split; reflexivity. Qed.

(** The anchor of a jail is named after the container and the pid of its run;
    the kernel names a jail that root starts by its jid.  The anchor of such a
    jail is taken for stale, and its rules are flushed while it runs. *)
Lemma live_anchor_flushed :
  let j := {| JailQuery.ji_jid := 7; JailQuery.ji_name := str "7"; JailQuery.ji_path := str "/var/run/crate/jail-web-0a1b2c3d";
              JailQuery.ji_hostname := []; JailQuery.ji_ip4 := []; JailQuery.ji_dying := false |} in
  let a := {| jailsAtStart := [j]; isLocked := fun _ => true; cannotOpen := fun _ => false; cannotRemove := fun _ => false; alive := fun _ => true;
              slotsLock := true; ipfwPresent := false; jailsAtFw := inr [j]; ipfwList := inl []; natShow := inl []; deleteOk := fun _ => true;
              zfsHas := fun _ => true; statOk := fun _ => true; pfAnchors := inr (str "  crate/web_pid42"); jailsAtPf := inr [j];
              registryIo := fun _ => inr tt; lease4Io := fun _ => inr tt; lease6Io := fun _ => inr tt |} in
  JailQuery.containerOf j = str "web" /\ calls (fst (cleanCrates false a (hostWith []))) = [FlushRules (str "crate/web_pid42")].
Proof. vm_compute. done. Qed.


Lemma clean_collects_witness :
  let a := quietAnswers [str "/var/run/crate/jail-web-ab12"] in
  let h := hostWith [(str "jail-web-ab12", Dir []); (str "jail-old-cd34", Dir []); (str "1000", Dir [(str "jail-z-ef56", Dir [])])] in
  top (fst (cleanCrates false a h)) = Some [(str "jail-web-ab12", Dir []); (str "1000", Dir [])]
  /\ (forall l' name e, top (fst (cleanCrates false a h)) = Some l' -> In (name, Dir e) l' -> sweptName name = true ->
       inUse a (under jailDirectoryPath name) = true).
Proof.
  split; [vm_compute; reflexivity|].
  apply (clean_collects_the_rest (quietAnswers [str "/var/run/crate/jail-web-ab12"])
    (hostWith [(str "jail-web-ab12", Dir []); (str "jail-old-cd34", Dir []); (str "1000", Dir [(str "jail-z-ef56", Dir [])])]));
    intros; reflexivity.
Defined.

Example clean_example :
  let a := quietAnswers [str "/var/run/crate/jail-web-ab12"] in
  let h := hostWith [(str "jail-web-ab12", Dir []); (str "jail-old-cd34", Dir [(str "bin", Dir [(str "sh", Plain)])])] in
  cleanCrates false a h = ({| top := Some [(str "jail-web-ab12", Dir [])]; users := Some []; registry := None; leases4 := None;
      leases6 := None; calls := [DeleteRule 40016] |},
    ([RemoveTree (str "/var/run/crate/jail-old-cd34"); Firewall (DeleteRule 40016)], 2)).
Proof. vm_compute. reflexivity. Qed.

End Clean.
