(* ===== verification/Lifecycle.v ===== *)
(** * Container lifecycle commands: lib/lifecycle.cpp, lifecycle_pure.cpp,
    and the pressure column of lib/run_jail.cpp

    [crate stop], [restart], [logs] and [stats].  What the kernel, the daemon's
    socket and the file system answer may change with every step, so the answers
    are functions of the history of what the command did so far. *)

From S2P Require Import Prelude CStd OMap RecordUpd UtilPure LineFile PerUser RunPure SpecRegistry PrivOps PrivOpsNv Client Wire RoutesPure Args.

Module Lifecycle.
Import CStd PrivOpsNv Args.

(** ** Stop *)

Inductive Event :=
| Request (m : FieldMap)
| Exec (argv : list bytes)
| Sleep
| Run (a : Args.Args).

(** Newest first. *)
Abbreviation History := (list Event).

(** [run] is [runCrate]; [inl] is an exception. *)
Record World := {
  kernel : History -> JailQuery.Jails;
  socket : History -> bytes;
  fileExists : History -> bytes -> bool;
  registry : History -> LineFile.File;
  run : History -> Args.Args -> bytes + bool;
}.

Definition jexecKill (jid : Z) (sig : string) : list bytes :=
  [str "/usr/sbin/jexec"; dec_signed jid; str "/bin/kill"; str "-" ++ str sig; str "-1"].

(** The signal goes through the daemon when its socket is there. *)
Definition signalEvent (w : World) (jid : Z) (sig : string) (hist : History) : Event :=
  if is_empty (socket w hist) then Exec (jexecKill jid sig) else Request (Client.buildSignalJail (u32 jid) (str sig)).

Definition removeEvent (w : World) (jail : JailQuery.JailInfo) (hist : History) : Event :=
  if is_empty (socket w hist) then Exec [str "/usr/sbin/jail"; str "-r"; dec_signed (JailQuery.ji_jid jail)]
  else Request (Client.buildDestroyJail (JailQuery.ji_name jail) false).

Definition jailIs (w : World) (jid : Z) (hist : History) : option JailQuery.JailInfo := JailQuery.getJailByJid (kernel w hist) jid.

(** One look per second; true when the jail is gone. *)
Fixpoint waitGone (w : World) (n : nat) (jid : Z) (hist : History) : bool * History :=
  match n with
  | O => (false, hist)
  | S m => match jailIs w jid hist with None => (true, hist) | Some _ => waitGone w m jid (Sleep :: hist) end
  end.

Definition survives (w : World) (jid : Z) (hist : History) : bool :=
  match jailIs w jid hist with Some s => negb (JailQuery.ji_dying s) | None => false end.

Definition stopJail (w : World) (timeout : Z) (jail : JailQuery.JailInfo) (hist : History) : bool * History :=
  let jid := JailQuery.ji_jid jail in
  let h1 := signalEvent w jid "TERM" hist :: hist in
  match waitGone w (Z.to_nat timeout) jid h1 with
  | (true, h2) => (true, h2)
  | (false, h2) =>
      let h3 := Sleep :: signalEvent w jid "KILL" h2 :: h2 in
      let h4 := match jailIs w jid h3 with Some _ => removeEvent w jail h3 :: h3 | None => h3 end in
      (negb (survives w jid h4), h4)
  end.

Definition stopCrate (w : World) (args : Args.Args) (hist : History) : bool * History :=
  match fst (JailQuery.findContainer (kernel w hist) (Args.stopTarget args)) with
  | None => (false, hist)
  | Some jail => stopJail w (Args.stopTimeout args) jail hist
  end.

(** ** Restart *)

Definition legacyCrateFile (name : bytes) : bytes := str "/var/run/crate/" ++ name ++ str ".crate".

(** The .crate file to start again; it may not exist. *)
Definition crateFileOf (w : World) (hist : History) (reg : option SpecRegistry.Entry) (containerName jailPath : bytes) : bytes :=
  let recorded := match reg with Some e => SpecRegistry.e_cratePath e | None => [] end in
  if is_empty recorded || negb (fileExists w hist recorded) then
    let f := legacyCrateFile containerName in
    if fileExists w hist f then f else legacyCrateFile (UtilPure.filePathToBareName jailPath)
  else recorded.

Definition restartCrate (garbage : Args.Command) (w : World) (args : Args.Args) (hist : History) : (bytes + bool) * History :=
  match fst (JailQuery.findContainer (kernel w hist) (Args.restartTarget args)) with
  | None => (inr false, hist)
  | Some jail =>
      let containerName := RunPure.containerNameOfJail (JailQuery.ji_name jail) (JailQuery.ji_path jail) in
      match SpecRegistry.lookupEntry containerName (registry w hist) with
      | inl e => (inl e, hist)
      | inr reg =>
          let warmBase := match reg with Some e => SpecRegistry.e_warmBase e | None => [] end in
          let warm := negb (is_empty warmBase) in
          let crateFile := crateFileOf w hist reg containerName (JailQuery.ji_path jail) in
          if negb warm && negb (fileExists w hist crateFile) then (inr false, hist)
          else
            let stopArgs := (Args.fresh garbage) <| Args.stopTarget := JailQuery.ji_name jail |> <| Args.stopTimeout := Args.restartTimeout args |> in
            match stopCrate w stopArgs hist with
            | (false, h1) => (inr false, h1)
            | (true, h1) =>
                let base := (Args.fresh garbage) <| Args.cmd := Args.CmdRun |> <| Args.logProgress := Args.logProgress args |>
                              <| Args.vars := Args.vars args |> in
                let runArgs :=
                  if warm then base <| Args.runWarmBase := warmBase |> <| Args.runName := containerName |>
                  else base <| Args.runCrateFile := crateFile |> in
                (run w h1 runArgs, Run runArgs :: h1)
            end
      end
  end.

(** ** Logs *)

Inductive LogsResult :=
| LogsInvalid (reason : bytes)
| NoLogs
| CannotOpen (file : bytes)
| Printed (lines : list bytes)
| Following (file : bytes).

(** The deque: push at the back, drop the front when there are too many. *)
Definition tailStep (n : Z) (d : list bytes) (line : bytes) : list bytes :=
  let d' := d ++ [line] in if n <? size_z d' then tl d' else d'.
Definition tailLines (n : Z) (lines : list bytes) : list bytes := fold_left (tailStep n) lines [].

Definition logFileOf (exists_ : bytes -> bool) (jail : option JailQuery.JailInfo) (target : bytes) : option bytes :=
  let logDir := str "/var/log/crate/" ++ target in
  if exists_ (logDir ++ str "/console.log") then Some (logDir ++ str "/console.log")
  else if exists_ (logDir ++ str "/stdout.log") then Some (logDir ++ str "/stdout.log")
  else match jail with
       | Some j =>
           let jailLog := JailQuery.ji_path j ++ str "/var/log/messages" in
           if negb (is_empty (JailQuery.ji_path j)) && exists_ jailLog then Some jailLog else None
       | None => None
       end.

(** [content] is what an [ifstream] on the file reads, [None] when it cannot be opened. *)
Definition logsCrate (k : JailQuery.Jails) (exists_ : bytes -> bool) (content : bytes -> option bytes) (args : Args.Args) : LogsResult :=
  let target := Args.logsTarget args in
  let e := RunPure.validateJailName target in
  if negb (is_empty e) then LogsInvalid (str "logs: invalid container name: " ++ e)
  else
    match logFileOf exists_ (fst (JailQuery.findContainer k target)) target with
    | None => NoLogs
    | Some file =>
        match content file with
        | None => CannotOpen file
        | Some text =>
            if Args.logsFollow args then Following file
            else if 0 <? Args.logsTail args then Printed (tailLines (Args.logsTail args) (getlines text))
            else Printed (getlines text)
        end
    end.

(** ** Stats *)

Abbreviation StringMap := (list (bytes * bytes)).

(** [rctl -u]: resource=value lines. *)
Definition usageLine (m : StringMap) (line : bytes) : StringMap :=
  match find_char "=" line with Some eq => OMap.insert (take eq line) (drop (S eq) line) m | None => m end.
Definition parseUsage (out : bytes) : StringMap := fold_left usageLine (getlines out) [].

(** [s.find(c, pos)] *)
Definition findFrom (c : ascii) (pos : nat) (s : bytes) : option nat := (fun i => (pos + i)%nat) <$> find_char c (drop pos s).

(** [rctl -l]: jail:JID:resource:action=value lines. *)
Definition limitOf (line : bytes) : option (bytes * bytes) :=
  lastColon ← UtilPure.rfind_char ":" line;
  eqPos ← findFrom "=" lastColon line;
  c1 ← find_char ":" line;
  c2 ← findFrom ":" (S c1) line;
  c3 ← findFrom ":" (S c2) line;
  Some (take (c3 - c2 - 1) (drop (S c2) line), drop (S eqPos) line).
Definition limitLine (m : StringMap) (line : bytes) : StringMap :=
  match limitOf line with Some (r, v) => OMap.insert r v m | None => m end.
Definition parseLimits (out : bytes) : StringMap := fold_left limitLine (getlines out) [].

(** [double] of a 64-bit count, rounded to 53 bits, and one decimal of it over
    a power of two: both round half to even. *)
Definition halfEven (num den : Z) : Z :=
  let q := num / den in
  let r := num mod den in
  if (2 * r <? den) || (2 * r =? den) && Z.even q then q else q + 1.
Definition toDouble (n : Z) : Z :=
  if n <? 2 ^ 53 then n else let e := Z.log2 n - 52 in halfEven n (2 ^ e) * 2 ^ e.
Definition fixed1 (num den : Z) : bytes := let q := halfEven (10 * num) den in dec (q / 10) ++ str "." ++ dec (q mod 10).

Definition humanBytes (bytes_ : Z) : bytes :=
  if 2 ^ 30 <=? bytes_ then fixed1 (toDouble bytes_) (2 ^ 30) ++ str "G"
  else if 2 ^ 20 <=? bytes_ then fixed1 (toDouble bytes_) (2 ^ 20) ++ str "M"
  else if 2 ^ 10 <=? bytes_ then fixed1 (toDouble bytes_) (2 ^ 10) ++ str "K"
  else dec bytes_ ++ str "B".

(** The digit loop of [numberAfterKey]. *)
Fixpoint numberLoop (digits v : Z) (s : bytes) : option Z :=
  match s with
  | c :: t =>
      if is_digit c then
        let d := digit_val c in
        if (20 <? digits + 1) || ((ulongMax - d) / 10 <? v) then None else numberLoop (digits + 1) (v * 10 + d) t
      else Some v
  | [] => Some v
  end.

Definition numberAfterKey (s : bytes) (from to : nat) (key : bytes) : option Z :=
  let needle := [dquote] ++ key ++ [dquote] ++ str ":" in
  match find_sub needle (drop from s) with
  | None => None
  | Some i =>
      if (to <=? from + i)%nat then None
      else
        let p := (from + i + length needle)%nat in
        let rest := snd (span (one_of [" "%char; tab]) (take (to - p) (drop p s))) in
        match rest with
        | c :: _ => if is_digit c then numberLoop 0 0 rest else None
        | [] => None
        end
  end.

(** The received and sent bytes of the interface. *)
Definition parseNetstatIfaceBytesJson (json iface : bytes) : option (Z * Z) :=
  if is_empty iface || negb (starts_with (str "{") json) then None
  else
    let nameField := [dquote] ++ str "name" ++ [dquote] ++ str ":" ++ [dquote] ++ iface ++ [dquote] in
    at_ ← find_sub nameField json;
    objStart ← UtilPure.rfind_char "{" (take (S at_) json);
    objEnd ← findFrom "}" at_ json;
    inB ← numberAfterKey json objStart objEnd (str "received-bytes");
    outB ← numberAfterKey json objStart objEnd (str "sent-bytes");
    Some (inB, outB).

(** The same counters in the table: [is >> s] and [is >> u64]. *)
Definition extractWord (s : bytes) : option (bytes * bytes) :=
  let '(w, rest) := span (fun c => negb (is_space c)) (skipSpace s) in
  if is_empty w then None else Some (w, rest).
Definition extractU64 (s : bytes) : option (Z * bytes) :=
  let '(neg, s2) := sign (skipSpace s) in
  let '(digits, rest) := span is_digit s2 in
  if is_empty digits || (ulongMax <? dec_value digits) then None
  else Some (u64 (if neg then - dec_value digits else dec_value digits), rest).

Definition tableCounters (line : bytes) : option (Z * Z) :=
  '(_, s) ← extractWord line; '(_, s) ← extractWord s; '(_, s) ← extractWord s; '(_, s) ← extractWord s;
  '(_, s) ← extractU64 s; '(_, s) ← extractU64 s; '(ibytes, s) ← extractU64 s;
  '(_, s) ← extractU64 s; '(_, s) ← extractU64 s; '(obytes, _) ← extractU64 s;
  Some (ibytes, obytes).

Fixpoint parseTable (headerSeen : bool) (lines : list bytes) : option (Z * Z) :=
  match lines with
  | [] => None
  | l :: t =>
      if has_sub (str "Ibytes") l then parseTable true t
      else if headerSeen && negb (is_empty l) then tableCounters l
      else parseTable headerSeen t
  end.

(** The interface outside the jail: epairNb is the inner half of epairNa. *)
Definition hostIfaceOf (epairIface : bytes) : bytes :=
  if backIs "b" epairIface then removelast epairIface ++ str "a" else epairIface.

(** The queries: [None] is an exception, which leaves what was found before it. *)
Definition netCounters (ifconfig : option bytes) (netstatJson netstat : bytes -> option bytes) : option (Z * Z) :=
  match ifconfig with
  | None => None
  | Some out =>
      match List.find (starts_with (str "epair")) (words out) with
      | None => None
      | Some epairIface =>
          let hostIface := hostIfaceOf epairIface in
          match netstatJson hostIface with
          | None => None
          | Some json =>
              let fromJson := parseNetstatIfaceBytesJson json hostIface in
              if negb (starts_with (str "{") json) then
                match netstat hostIface with
                | None => fromJson
                | Some text => match parseTable false (getlines text) with Some c => Some c | None => fromJson end
                end
              else fromJson
          end
      end
  end.

(** [--json]: the name, the address and what rctl printed, as they are. *)
Definition statsJsonText (jail : JailQuery.JailInfo) (usage : StringMap) (net : option (Z * Z)) : bytes :=
  let q := [dquote] in
  str "{" ++ q ++ str "name" ++ q ++ str ":" ++ q ++ JailQuery.ji_name jail ++ q
  ++ str "," ++ q ++ str "jid" ++ q ++ str ":" ++ dec_signed (JailQuery.ji_jid jail)
  ++ str "," ++ q ++ str "ip" ++ q ++ str ":" ++ q ++ JailQuery.ji_ip4 jail ++ q
  ++ flat_map (fun kv => str "," ++ q ++ fst kv ++ q ++ str ":" ++ snd kv) usage
  ++ match net with
     | Some (i, o) => str "," ++ q ++ str "net_in" ++ q ++ str ":" ++ q ++ humanBytes i ++ q
                      ++ str "," ++ q ++ str "net_out" ++ q ++ str ":" ++ q ++ humanBytes o ++ q
     | None => []
     end
  ++ str "}" ++ [newline].

(** lib/run_jail.cpp; -1 when there is nothing to show. *)
Definition parseAllDigits (s : bytes) : Z :=
  if is_empty s || negb (forallb is_digit s) then -1 else if longMax <? dec_value s then -1 else dec_value s.

(** Without a fetched map: the first line of [rctl -u] or [rctl -l] for the
    resource, [None] when a number in it is refused, which ends the function. *)
Definition stoll (s : bytes) : option Z := fst <$> stolPos s.

Fixpoint usageIn (resource : bytes) (lines : list bytes) : option Z :=
  match lines with
  | [] => Some (-1)
  | l :: t =>
      match find_char "=" l with
      | Some eq => if beq (take eq l) resource then stoll (drop (S eq) l) else usageIn resource t
      | None => usageIn resource t
      end
  end.

Fixpoint limitIn (resource : bytes) (lines : list bytes) : option Z :=
  match lines with
  | [] => Some (-1)
  | l :: t =>
      if has_sub (str ":" ++ resource ++ str ":deny=") l then
        match UtilPure.rfind_char "=" l with Some eq => stoll (drop (S eq) l) | None => Some (-1) end
      else limitIn resource t
  end.

Definition valueOf (fetched : option StringMap) (scan : bytes -> list bytes -> option Z) (out : option bytes) (resource : bytes) : option Z :=
  match fetched with
  | Some m => Some (match OMap.find resource m with Some v => parseAllDigits v | None => -1 end)
  | None => match out with Some text => scan resource (getlines text) | None => None end
  end.

Definition getRctlUsagePercent (rctlU rctlL : option bytes) (usage limits : option StringMap) (resource : bytes) : Z :=
  match valueOf usage usageIn rctlU resource with
  | None => -1
  | Some u =>
      if u <? 0 then -1
      else match valueOf limits limitIn rctlL resource with
           | None => -1
           | Some l => if l <=? 0 then -1 else i32 (Z.quot (i64 (u * 100)) l)
           end
  end.

(** The resources shown by --rctl-pressure, in the order of their names. *)
Definition pressureRows (usage limits : StringMap) : list (bytes * Z) :=
  flat_map (fun kv => let pct := getRctlUsagePercent None None (Some usage) (Some limits) (fst kv) in if pct <? 0 then [] else [(fst kv, pct)]) limits.

(** [std::left << std::setw(n)] and [std::right << std::setw(n)]. *)
Definition padLeft (n : nat) (s : bytes) : bytes := s ++ repeat " "%char (n - length s).
Definition padRight (n : nat) (s : bytes) : bytes := repeat " "%char (n - length s) ++ s.

Definition safeStoull (s : bytes) : Z := match stoulPos s with Some (v, _) => v | None => 0 end.

Definition orElse (m : StringMap) (key : string) (d : string) : bytes :=
  match OMap.find (str key) m with Some v => v | None => str d end.

Definition row (cells : list (nat * bytes)) : bytes := flat_map (fun c => padLeft (fst c) (snd c)) cells ++ [newline].

Definition widths : list nat := [14; 8; 12; 10; 10; 10; 10; 10; 16]%nat.

Definition ioLine (usage : StringMap) (key label : string) : bytes :=
  match OMap.find (str key) usage with
  | Some v => str label ++ humanBytes (safeStoull v) ++ str "/s" ++ [newline]
  | None => []
  end.

(** The width goes to the colour, which is printed before the number. *)
Definition pressureLine (r : bytes * Z) : bytes :=
  let colour := if 90 <=? snd r then [chr 27] ++ str "[31m" else if 70 <=? snd r then [chr 27] ++ str "[33m" else [] in
  let reset := if 70 <=? snd r then [chr 27] ++ str "[0m" else [] in
  str "  " ++ padLeft 16 (fst r) ++ padRight 4 colour ++ dec_signed (snd r) ++ str "%" ++ reset ++ [newline].

Definition statsTable (jail : JailQuery.JailInfo) (usage limits : StringMap) (net : option (Z * Z)) (pressure : bool) : bytes :=
  let memUsed := match OMap.find (str "memoryuse") usage with Some v => safeStoull v | None => 0 end in
  let netText := match net with Some (i, o) => (humanBytes i, humanBytes o) | None => (str "-", str "-") end in
  row (zip widths (map str ["NAME"; "CPU%"; "MEM"; "MEM LIM"; "PIDS"; "PID LIM"; "NET_IN"; "NET_OUT"; "IP"]%string))
  ++ repeat "-"%char 98 ++ [newline]
  ++ row (zip widths [JailQuery.ji_name jail; orElse usage "pcpu" "0" ++ str "%"; humanBytes memUsed; orElse limits "memoryuse" "-";
       orElse usage "maxproc" "0"; orElse limits "maxproc" "-"; fst netText; snd netText;
       if is_empty (JailQuery.ji_ip4 jail) then str "-" else JailQuery.ji_ip4 jail])
  ++ (if OMap.count (str "readbps") usage || OMap.count (str "writebps") usage
      then [newline] ++ str "I/O:" ++ [newline] ++ ioLine usage "readbps" "  Read:  " ++ ioLine usage "writebps" "  Write: " else [])
  ++ (if pressure && negb (is_empty limits)
      then [newline] ++ str "RCTL pressure (usage / limit):" ++ [newline] ++ flat_map pressureLine (pressureRows usage limits) else []).

(** The output; [rctlU] and [rctlL] are [None] when rctl(8) fails. *)
Definition statsCrate (k : JailQuery.Jails) (rctlU rctlL : Z -> option bytes) (ifconfig : Z -> option bytes)
    (netstatJson netstat : bytes -> option bytes) (args : Args) : option bytes :=
  match fst (JailQuery.findContainer k (statsTarget args)) with
  | None => None
  | Some jail =>
      let jid := JailQuery.ji_jid jail in
      let usage := parseUsage (default [] (rctlU jid)) in
      let limits := match rctlL jid with Some out => parseLimits out | None => [] end in
      let net := netCounters (ifconfig jid) netstatJson netstat in
      Some (if statsJson args then statsJsonText jail usage net else statsTable jail usage limits net (statsRctlPressure args))
  end.

(** ** What a stop does *)

Lemma waitGone_spec w n jid hist : exists k, (k <= n)%nat
  /\ snd (waitGone w n jid hist) = repeat Sleep k ++ hist
  /\ if fst (waitGone w n jid hist) then jailIs w jid (repeat Sleep k ++ hist) = None else k = n.
Proof.
  revert hist. induction n as [|n IH]; intros hist; cbn [waitGone]; [by exists 0%nat|].
  destruct (jailIs w jid hist) eqn:E; [|exists 0%nat; split; [lia|done]].
  destruct (IH (Sleep :: hist)) as (k & Hk & Hs & Hb). exists (S k). rewrite Hs. cbn [repeat app].
  assert (R : repeat Sleep k ++ Sleep :: hist = Sleep :: repeat Sleep k ++ hist).
  { clear. induction k as [|k IH]; [done|]. cbn [repeat app]. by rewrite IH. }
  rewrite R in *. split; [lia|]. split; [done|]. destruct (fst _); [done|]. by subst.
Qed.

Definition goneOrDying (w : World) (jid : Z) (hist : History) : Prop :=
  match jailIs w jid hist with None => True | Some s => JailQuery.ji_dying s = true end.

Lemma survives_gone w jid hist : negb (survives w jid hist) = true <-> goneOrDying w jid hist.
Proof. unfold survives, goneOrDying. destruct (jailIs w jid hist) as [s|]; [|done]. by rewrite negb_involutive. Qed.

(** How the history grew: TERM and up to [n] seconds of waiting; or all of them,
    then KILL, a second, and at most one removal. *)
Definition stopSteps (w : World) (jail : JailQuery.JailInfo) (n : nat) (hist hist' : History) : Prop :=
  let jid := JailQuery.ji_jid jail in
  let term := signalEvent w jid "TERM" hist in
  let h2 := repeat Sleep n ++ term :: hist in
  let h3 := Sleep :: signalEvent w jid "KILL" h2 :: h2 in
  (exists k, (k <= n)%nat /\ hist' = repeat Sleep k ++ term :: hist /\ jailIs w jid hist' = None)
  \/ (jailIs w jid h3 = None /\ hist' = h3) \/ (jailIs w jid h3 <> None /\ hist' = removeEvent w jail h3 :: h3).

Lemma stopJail_spec w timeout jail hist (r := stopJail w timeout jail hist) :
  (fst r = true <-> goneOrDying w (JailQuery.ji_jid jail) (snd r)) /\ stopSteps w jail (Z.to_nat timeout) hist (snd r).
Proof.
  unfold r, stopJail, stopSteps. set (jid := JailQuery.ji_jid jail). set (term := signalEvent w jid "TERM" hist).
  destruct (waitGone_spec w (Z.to_nat timeout) jid (term :: hist)) as (k & Hk & Hs & Hb).
  destruct (waitGone w _ jid _) as [[] h2]; cbn [fst snd] in Hs, Hb |- *.
  - subst h2. unfold goneOrDying. rewrite Hb. split; [done|]. left. by exists k.
  - subst k h2. split; [apply survives_gone|]. right. destruct (jailIs w jid (Sleep :: _)) eqn:E; [right|left]; done.
Qed.

(** [crate stop] tells the truth.  For a container it finds, it reports
    success exactly when at the end the kernel has no jail under that jid or
    has it dying.  What it does on the way, whatever is answered: TERM to that
    jid, at most the given number of one-second looks, and only when all of
    them found the jail, KILL to the same jid, one second more, and one
    removal of that jail if it is still there. *)
Theorem stop_tells_the_truth (w : World) (args : Args) (hist : History) (jail : JailQuery.JailInfo)
    (r := stopCrate w args hist) :
  fst (JailQuery.findContainer (kernel w hist) (stopTarget args)) = Some jail ->
  (fst r = true <-> goneOrDying w (JailQuery.ji_jid jail) (snd r))
  /\ stopSteps w jail (Z.to_nat (stopTimeout args)) hist (snd r).
Proof. unfold r, stopCrate. intros ->. apply stopJail_spec. Qed.

(** A container it does not find, or finds twice, is left alone. *)
Lemma stop_unknown w args hist :
  fst (JailQuery.findContainer (kernel w hist) (stopTarget args)) = None -> stopCrate w args hist = (false, hist).
Proof. unfold stopCrate. by intros ->. Qed.

(** ** What a restart does *)

(** jail_get(2) by the name of a jail that was found returns that jail. *)
Definition namesItself (k : JailQuery.Jails) : Prop := forall target j m,
  JailQuery.findContainer k target = (Some j, m) -> JailQuery.ji_name j <> [] /\ JailQuery.getJailByName k (JailQuery.ji_name j) = Some j.

Lemma found_by_name k j m target : namesItself k -> JailQuery.findContainer k target = (Some j, m) ->
  fst (JailQuery.findContainer k (JailQuery.ji_name j)) = Some j.
Proof.
  intros Hk Hf. destruct (Hk _ _ _ Hf) as [Hne Hn]. unfold JailQuery.findContainer.
  destruct (is_empty _) eqn:E; [by apply is_empty_true in E|]. by rewrite Hn.
Qed.

(** The archive of the container: an existing file, the one its registry entry
    records; only when none is recorded or the recorded one is gone, the file
    of the container's name below /var/run/crate, and only when that is not
    there, the file named after the jail's directory. *)
Definition archiveOf (w : World) (hist : History) (reg : option SpecRegistry.Entry) (name path f : bytes) : Prop :=
  fileExists w hist f = true
  /\ ((exists e, reg = Some e /\ SpecRegistry.e_cratePath e <> [] /\ f = SpecRegistry.e_cratePath e)
      \/ ((forall e, reg = Some e -> SpecRegistry.e_cratePath e <> [] -> fileExists w hist (SpecRegistry.e_cratePath e) = false)
          /\ (f = str "/var/run/crate/" ++ name ++ str ".crate"
              \/ (fileExists w hist (str "/var/run/crate/" ++ name ++ str ".crate") = false
                  /\ f = str "/var/run/crate/" ++ UtilPure.filePathToBareName path ++ str ".crate")))).

Lemma crateFileOf_archive w hist reg name path (f := crateFileOf w hist reg name path) :
  fileExists w hist f = true -> archiveOf w hist reg name path f.
Proof.
  unfold f, archiveOf, crateFileOf, legacyCrateFile. intros Hf. split; [done|]. revert Hf.
  destruct reg as [e|]; [destruct (is_empty (SpecRegistry.e_cratePath e)) eqn:E;
    [apply is_empty_true in E|apply is_empty_false in E; destruct (fileExists w hist (SpecRegistry.e_cratePath e)) eqn:X]|];
    cbn [orb negb is_empty]; try (intros _; left; by exists e); intros _; right.
  all: split; [intros ? [= ?] ?; subst; congruence|].
  all: destruct (fileExists w hist (str "/var/run/crate/" ++ name ++ str ".crate")) eqn:L; [by left|by right].
Qed.

(** What is run to start the container of [jail] again: the template its registry entry
    names, under the container's name; or, when no template is recorded, the
    container's archive. *)
Definition startable (w : World) (hist : History) (jail : JailQuery.JailInfo) (a : Args) : Prop :=
  let name := RunPure.containerNameOfJail (JailQuery.ji_name jail) (JailQuery.ji_path jail) in
  exists reg, SpecRegistry.lookupEntry name (registry w hist) = inr reg /\ cmd a = CmdRun
  /\ ((exists e, reg = Some e /\ SpecRegistry.e_warmBase e <> []
         /\ runWarmBase a = SpecRegistry.e_warmBase e /\ runName a = name /\ runCrateFile a = [])
      \/ ((forall e, reg = Some e -> SpecRegistry.e_warmBase e = [])
          /\ runWarmBase a = [] /\ runName a = [] /\ archiveOf w hist reg name (JailQuery.ji_path jail) (runCrateFile a))).

(** C21: [crate restart] stops only what it can start again, and starts only
    what it has stopped, when the kernel finds a jail it returned again under that
    jail's name.  Either nothing is done and it does not succeed; or the container
    found had something to run, and then: the stop of exactly that jail failed
    and nothing is run, or the jail was gone or dying when the run began, with
    the variables given.  What is run is the container's own: the template
    that the registry entry of its name has, under that name; without one
    the archive that entry records, if it exists, else the existing file of the container's
    name below /var/run/crate, else the existing one named after the jail's
    directory. *)
Theorem restart_is_all_or_nothing (garbage : Command) (w : World) (args : Args) (hist : History)
    (r := restartCrate garbage w args hist) :
  namesItself (kernel w hist) ->
  (snd r = hist /\ fst r <> inr true)
  \/ exists jail m runArgs h1,
       JailQuery.findContainer (kernel w hist) (restartTarget args) = (Some jail, m)
       /\ startable w hist jail runArgs /\ vars runArgs = vars args
       /\ stopSteps w jail (Z.to_nat (restartTimeout args)) hist h1
       /\ ((~ goneOrDying w (JailQuery.ji_jid jail) h1 /\ r = (inr false, h1))
           \/ (goneOrDying w (JailQuery.ji_jid jail) h1 /\ r = (run w h1 runArgs, Run runArgs :: h1))).
Proof.
  intros Hk. unfold r, restartCrate. destruct (JailQuery.findContainer (kernel w hist) (restartTarget args)) as [[jail|] m] eqn:F; cbn [fst snd]; [|by left].
  set (name := RunPure.containerNameOfJail _ _). destruct (SpecRegistry.lookupEntry name (registry w hist)) as [e|reg] eqn:L; [by left|].
  set (warmBase := match reg with Some e => SpecRegistry.e_warmBase e | None => [] end).
  set (file := crateFileOf w hist reg name (JailQuery.ji_path jail)).
  destruct (negb (negb (is_empty warmBase)) && negb (fileExists w hist file)) eqn:Can; [by left|]. right.
  set (stopArgs := (fresh garbage) <| stopTarget := _ |> <| stopTimeout := _ |>).
  assert (Hst : stopCrate w stopArgs hist = stopJail w (restartTimeout args) jail hist).
  { unfold stopCrate. change (stopTarget stopArgs) with (JailQuery.ji_name jail). by rewrite (found_by_name _ _ _ _ Hk F). }
  rewrite Hst. destruct (stopJail_spec w (restartTimeout args) jail hist) as [Hok Hsteps].
  destruct (stopJail w (restartTimeout args) jail hist) as [ok h1]. cbn [fst snd] in Hok, Hsteps.
  set (runArgs := if negb (is_empty warmBase) then _ else _).
  exists jail, m, runArgs, h1. split; [done|]. split; [|split; [unfold runArgs; by destruct (negb (is_empty warmBase))|split; [done|]]].
  - unfold startable. fold name. exists reg. split; [done|]. unfold runArgs. destruct (is_empty warmBase) eqn:E; cbn [negb andb] in Can |- *.
    + split; [done|]. right. apply negb_false_iff in Can. apply is_empty_true in E. split; [by intros e ->|].
      do 2 (split; [done|]). apply crateFileOf_archive, Can.
    + split; [done|]. left. destruct reg as [e|]; [|done]. exists e. split; [done|]. by split; [apply is_empty_false in E|].
  - destruct ok; [right|left]; (split; [|done]); [by apply Hok|]. intros G%Hok. done.
Qed.

(** A container that two running jails carry is not restarted, one that nobody can start again keeps
    running, and one whose stop fails is not started twice. *)
Definition oneJail : JailQuery.JailInfo :=
  {| JailQuery.ji_jid := 7; JailQuery.ji_name := str "web_pid42"; JailQuery.ji_path := str "/var/run/crate/jail-web-0a1b2c3d";
     JailQuery.ji_hostname := str "web"; JailQuery.ji_ip4 := str "10.0.0.2"; JailQuery.ji_dying := false |}.

(** The jail goes when it is killed, if [killable], and never by itself. *)
Definition sampleWorld (killable : bool) (reg : LineFile.File) : World :=
  {| kernel := fun h =>
       let gone := killable && existsb (fun e => match e with Exec argv => beq (nth 3 argv []) (str "-KILL") | _ => false end) h in
       {| JailQuery.getJailByName := fun n => if beq n (str "web_pid42") && negb gone then Some oneJail else None;
          JailQuery.getJailByJid := fun j => if (j =? 7) && negb gone then Some oneJail else None;
          JailQuery.jailList := if gone then [] else [oneJail] |};
     socket := fun _ => []; fileExists := fun _ p => beq p (str "/srv/web.crate"); registry := fun _ => reg; run := fun _ _ => inr true |}.

Definition sampleRegistry : LineFile.File :=
  Some (LineFile.render [{| SpecRegistry.e_name := str "web"; SpecRegistry.e_cratePath := str "/srv/web.crate"; SpecRegistry.e_warmBase := [] |}]).

Definition restartArgs : Args := (fresh CmdRestart) <| restartTarget := str "web" |> <| restartTimeout := 2 |>.

Lemma sample_names b reg : namesItself (kernel (sampleWorld b reg) []).
Proof.
  intros target j m. unfold JailQuery.findContainer. cbn [kernel sampleWorld existsb andb negb JailQuery.getJailByName JailQuery.getJailByJid
    JailQuery.jailList]. rewrite andb_false_r. cbn [negb]. rewrite !andb_true_r.
  assert (G : Some oneJail = Some j -> JailQuery.ji_name j <> []
    /\ (if beq (JailQuery.ji_name j) (str "web_pid42") && true then Some oneJail else None) = Some j) by (by intros [= <-]).
  rewrite andb_true_r in G. destruct (is_empty target); [done|].
  destruct (beq target (str "web_pid42")); [intros [= E _]; subst; by apply G|].
  destruct ((size_z target <=? 9) && forallb is_digit target); [destruct (dec_value target =? 7); [intros [= E _]; subst; by apply G|]|].
  all: cbn [JailQuery.getAllJails JailQuery.jailList List.filter]; destruct (RuntimePaths.isCrateJailPath _); cbn [List.filter]; try done;
    destruct (negb _ && _); try done; intros [= E _]; subst; by apply G.
Qed.

Lemma stop_tells_the_truth_witness :
  let w := sampleWorld true None in
  let a := (fresh CmdStop) <| stopTarget := str "7" |> <| stopTimeout := 2 |> in
  stopCrate w a [] = (true, [Sleep; Exec (jexecKill 7 "KILL"); Sleep; Sleep; Exec (jexecKill 7 "TERM")])
  /\ (fst (stopCrate w a []) = true <-> goneOrDying w 7 (snd (stopCrate w a []))).
Proof.
  split; [vm_compute; reflexivity|].
  apply (stop_tells_the_truth (sampleWorld true None) ((fresh CmdStop) <| stopTarget := str "7" |> <| stopTimeout := 2 |>) [] oneJail).
  vm_compute. reflexivity.
Defined.

Lemma restart_is_all_or_nothing_witness :
  let w := sampleWorld true sampleRegistry in
  snd (restartCrate CmdNone w restartArgs []) <> []
  /\ exists jail m runArgs h1, JailQuery.findContainer (kernel w []) (str "web") = (Some jail, m) /\ startable w [] jail runArgs
     /\ restartCrate CmdNone w restartArgs [] = (run w h1 runArgs, Run runArgs :: h1).
Proof.
  assert (N : snd (restartCrate CmdNone (sampleWorld true sampleRegistry) restartArgs []) <> []) by (vm_compute; discriminate).
  split; [exact N|].
  destruct (restart_is_all_or_nothing CmdNone (sampleWorld true sampleRegistry) restartArgs [] (sample_names true sampleRegistry))
    as [[E _]|(jail & m & runArgs & h1 & F & S & _ & _ & [[_ E]|[_ E]])].
  - destruct (N E).
  - exfalso. assert (T : fst (restartCrate CmdNone (sampleWorld true sampleRegistry) restartArgs []) = inr true) by (vm_compute; reflexivity).
    rewrite E in T. discriminate T.
  - exists jail, m, runArgs, h1. exact (conj F (conj S E)).
Defined.

Example restart_examples :
  fst (restartCrate CmdNone (sampleWorld true sampleRegistry) restartArgs []) = inr true
  /\ restartCrate CmdNone (sampleWorld true None) restartArgs [] = (inr false, [])
  /\ fst (restartCrate CmdNone (sampleWorld false sampleRegistry) restartArgs []) = inr false.
Proof. vm_compute. done. Qed.

(** ** Logs and stats *)

(** The deque holds the last [n] lines. *)
Lemma tailLines_last n lines : 0 < n -> tailLines n lines = drop (length lines - Z.to_nat n) lines.
Proof.
  intros Hn. unfold tailLines. induction lines as [|x lines IH] using rev_ind; [done|].
  rewrite fold_left_app. cbn [fold_left]. rewrite IH. unfold tailStep. rewrite length_app. cbn [length].
  assert (L : size_z (drop (length lines - Z.to_nat n) lines ++ [x]) = Z.min (size_z lines) n + 1).
  { rewrite size_z_app. unfold size_z. rewrite length_drop. cbn [length]. lia. }
  rewrite L. destruct (Z.ltb_spec n (Z.min (size_z lines) n + 1)) as [H|H]; unfold size_z in H.
  - rewrite drop_app_le by lia. replace (length lines + 1 - Z.to_nat n)%nat with (S (length lines - Z.to_nat n)) by lia.
    replace (drop (S (length lines - Z.to_nat n)) lines) with (tl (drop (length lines - Z.to_nat n) lines))
      by (rewrite <- (Nat.add_1_r), <- drop_drop; by destruct (drop _ lines)).
    destruct (drop (length lines - Z.to_nat n) lines) eqn:D; [|done]. apply (f_equal length) in D. rewrite length_drop in D. cbn in D. lia.
  - by replace (length lines + 1 - Z.to_nat n)%nat with 0%nat by lia; replace (length lines - Z.to_nat n)%nat with 0%nat by lia.
Qed.

(** A log file outside the jails is one of two files of the container's own
    directory: the target is no path. *)
Lemma log_stays_below exists_ target file : RunPure.validateJailName target = [] -> logFileOf exists_ None target = Some file ->
  ~ In "/"%char target /\ target <> str "." /\ target <> str ".." /\ starts_with (str "/var/log/crate/" ++ target ++ str "/") file = true.
Proof.
  unfold RunPure.validateJailName. intros V. ok_split V. destruct V as (_ & _ & [V1%beq_neq V2%beq_neq] & V).
  rewrite forallb_forall in V.
  intros F. split; [intros H%V; done|]. split; [done|]. split; [done|]. unfold logFileOf in F.
  assert (G : forall f, starts_with (str "/var/log/crate/" ++ target ++ str "/") ((str "/var/log/crate/" ++ target) ++ str "/" ++ f) = true).
  { intros f. rewrite !app_assoc. apply starts_with_app. }
  destruct (exists_ _); [|destruct (exists_ _); [|done]]; injection F as <-; [apply (G (str "console.log"))|apply (G (str "stdout.log"))].
Qed.

(** The counters of netstat are read exactly or not at all. *)
Lemma numberLoop_exact s : forall digits v r, numberLoop digits v s = Some r -> 0 <= v <= ulongMax ->
  r = dec_value_from v (fst (span is_digit s)) /\ 0 <= r <= ulongMax.
Proof.
  induction s as [|c s IH]; intros digits v r; cbn [numberLoop span]; [by intros [= <-]|].
  destruct (is_digit c) eqn:D; [|by intros [= <-]]. destruct (_ || _) eqn:O; [done|]. apply orb_false_iff in O as [_ O].
  apply Z.ltb_ge in O. apply is_digit_val in D as Hd. intros H Hv. destruct (span is_digit s) as [a b] eqn:S. cbn [fst dec_value_from fold_left] in *.
  apply IH in H; [done|]. assert (v * 10 <= ulongMax - digit_val c).
  { etransitivity; [|apply (Z.mul_div_le _ 10); lia]. lia. } lia.
Qed.

(** The pressure of a resource with a limit is the percentage of the limit, as long
    as a hundred times the usage is no overflow. *)
Lemma pressure_exact usage limits r u l :
  OMap.find r usage = Some (dec u) -> OMap.find r limits = Some (dec l) -> 0 <= u -> u * 100 <= longMax -> 0 < l <= longMax ->
  u * 100 / l < 2 ^ 31 -> getRctlUsagePercent None None (Some usage) (Some limits) r = u * 100 / l.
Proof.
  intros Hu Hl H0 H1 H2 H3. unfold getRctlUsagePercent, valueOf. rewrite Hu, Hl. unfold longMax in *.
  assert (P : forall n, 0 <= n <= 2 ^ 63 - 1 -> parseAllDigits (dec n) = n).
  { intros n Hn. unfold parseAllDigits. pose proof (dec_nonempty n) as N%is_empty_false. rewrite N. pose proof (dec_digits n) as D.
    unfold all_digits in D. rewrite D, dec_value_dec by lia. unfold longMax. cbn [negb orb]. by destruct (Z.ltb_spec (2 ^ 63 - 1) n); [lia|]. }
  rewrite !P by lia. destruct (Z.ltb_spec u 0); [lia|]. destruct (Z.leb_spec l 0); [lia|].
  assert (E : i64 (u * 100) = u * 100) by (unfold i64, to_signed; rewrite Z.mod_small by lia; destruct (Z.ltb_spec (u * 100) (2 ^ (64 - 1))); lia).
  rewrite E, Z.quot_div_nonneg by lia. assert (0 <= u * 100 / l) by (apply Z.div_pos; lia).
  unfold i32, to_signed. rewrite Z.mod_small by lia. destruct (Z.ltb_spec (u * 100 / l) (2 ^ (32 - 1))); lia.
Qed.

(** Past that the product wraps: the row of the resource disappears. *)
Lemma pressure_overflows :
  pressureRows [(str "wallclock", str "92233720368547759")] [(str "wallclock", str "92233720368547759")] = []
  /\ pressureRows [(str "wallclock", str "92233720368547758")] [(str "wallclock", str "92233720368547758")] = [(str "wallclock", 100)].
Proof. vm_compute. done. Qed.

Example stats_examples :
  humanBytes 1023 = str "1023B" /\ humanBytes 1536 = str "1.5K" /\ humanBytes (2 ^ 20 - 1) = str "1024.0K" /\ humanBytes (5 * 2 ^ 30) = str "5.0G"
  /\ parseLimits (str "jail:7:memoryuse:deny=1024" ++ [newline] ++ str "junk") = [(str "memoryuse", str "1024")]
  /\ (let q := [dquote] in parseNetstatIfaceBytesJson (str "{" ++ q ++ str "statistics" ++ q ++ str ":[{" ++ q ++ str "name" ++ q ++ str ":" ++ q
        ++ str "epair0a" ++ q ++ str "," ++ q ++ str "received-bytes" ++ q ++ str ": 42," ++ q ++ str "sent-bytes" ++ q ++ str ":7}]}") (str "epair0a"))
     = Some (42, 7)
  /\ parseTable false [str "Name Mtu Network Address Ipkts Ierrs Ibytes Opkts Oerrs Obytes Coll"; str "epair0a 1500 <Link> aa:bb 1 0 99 2 0 55 0"] = Some (99, 55).
Proof. vm_compute. done. Qed.

(** The percentages do not line up: the width was given to the colour. *)
Example pressure_not_aligned :
  pressureLine (str "memoryuse", 7) = str "  memoryuse           7%" ++ [newline]
  /\ pressureLine (str "maxproc", 42) = str "  maxproc             42%" ++ [newline].
Proof. vm_compute. done. Qed.

End Lifecycle.
