(* ===== verification/InterDns.v ===== *)
(** * Names between containers: lib/inter_dns_pure.cpp, inter_dns.cpp

    [crate inter-dns] lists the running containers in a marked block of the
    host's /etc/hosts and in a zone file of unbound. *)

From S2P Require Import Prelude CStd OMap UtilPure PerUser RoutesPure Backup NetAddr.

Module InterDns.
Import CStd.

Record Entry := { name : bytes; ip4 : bytes; ip6 : bytes }.

Definition blockBegin : bytes := str "# >>> crate inter-container DNS <<<".
Definition blockEnd : bytes := str "# <<< crate inter-container DNS >>>".

Definition frontIs (p : ascii -> bool) (s : bytes) : bool := match s with c :: _ => p c | [] => false end.

Definition validateHostname (n : bytes) : bytes :=
  reject (is_empty n) with str "hostname is empty";
  reject (63 <? size_z n) with str "hostname is longer than 63 chars";
  reject (negb (frontIs is_alnum n)) with str "hostname must start with a letter or digit";
  reject (negb (frontIs is_alnum (rev n))) with str "hostname must end with a letter or digit";
  check_chars (fun c => is_alnum c || Ascii.eqb c "-") (str "hostname") n.

(** The name before _pid and digits; empty when there is no such suffix. *)
Definition hostnameFromJailName (jailName : bytes) : bytes :=
  match rfind_sub (str "_pid") jailName with
  | None | Some O => []
  | Some p =>
      let digits := drop (p + 4) jailName in
      if negb (forallb is_digit digits) then [] else if is_empty digits then [] else take p jailName
  end.

Definition firstAddress (addrs : bytes) : bytes := match find_char "," addrs with Some c => take c addrs | None => addrs end.

Definition normalizeName (n : bytes) : bytes := map tolower n.

Section Render.
Context `{StdSort}.

Definition sortedByName (l : list Entry) : list Entry :=
  std_sort (fun a b => bytes_ltb (normalizeName (name a)) (normalizeName (name b))) l.

Definition localData (n record addr : bytes) : bytes :=
  str "  local-data: " ++ [dquote] ++ n ++ str ".crate. IN " ++ record ++ str " " ++ addr ++ [dquote; newline].

Definition unboundLines (e : Entry) : bytes :=
  let n := normalizeName (name e) in
  (if is_empty (ip4 e) then [] else localData n (str "A") (ip4 e))
  ++ (if is_empty (ip6 e) then [] else localData n (str "AAAA") (ip6 e)).

Definition buildUnboundFragment (entries : list Entry) : bytes :=
  str "# Auto-generated by crate(8) — do not edit by hand." ++ [newline]
  ++ str "# Re-run `crate inter-dns rebuild` after starting/stopping containers." ++ [newline]
  ++ str "server:" ++ [newline]
  ++ str "  local-zone: " ++ [dquote] ++ str "crate." ++ [dquote] ++ str " static" ++ [newline]
  ++ flat_map unboundLines (sortedByName entries).

Definition hostsLine (e : Entry) : bytes :=
  let n := normalizeName (name e) in
  let line addr := addr ++ [tab] ++ n ++ str ".crate " ++ n ++ [newline] in
  if negb (is_empty (ip4 e)) then line (ip4 e) else if negb (is_empty (ip6 e)) then line (ip6 e) else [].

Definition buildHostsBlock (entries : list Entry) : bytes :=
  blockBegin ++ [newline] ++ flat_map hostsLine (sortedByName entries) ++ blockEnd ++ [newline].

End Render.

(** [if (!out.empty() && out.back() != '\n') out += '\n';] *)
Definition withNewline (s : bytes) : bytes := if negb (is_empty s) && negb (backIs newline s) then s ++ [newline] else s.

Definition replaceHostsBlock (existing block : bytes) : bytes :=
  match find_sub blockBegin existing with
  | None => withNewline existing ++ block
  | Some begin_ =>
      match find_sub blockEnd (drop begin_ existing) with
      | None => withNewline (take begin_ existing) ++ block
      | Some i =>
          let end_ := (begin_ + i + length blockEnd)%nat in
          let rest := drop end_ existing in
          take begin_ existing ++ block ++ (if starts_with [newline] rest then tl rest else rest)
      end
  end.

(** ** The command: lib/inter_dns.cpp *)

Definition entryOf (j : JailQuery.JailInfo) : list Entry :=
  if JailQuery.ji_dying j then []
  else
    let host0 := hostnameFromJailName (JailQuery.ji_name j) in
    let host := if is_empty host0 then JailQuery.ji_name j else host0 in
    if negb (is_empty (validateHostname host)) then []
    else [{| name := host; ip4 := firstAddress (JailQuery.ji_ip4 j); ip6 := [] |}].

Definition collectEntries (k : JailQuery.Jails) : list Entry := flat_map entryOf (JailQuery.getAllJails k true).

(** The files by path. *)
Abbreviation Files := (list (bytes * bytes)).

(** A file that cannot be opened reads as empty. *)
Definition readFileIfExists (readable : bytes -> bool) (path : bytes) (fs : Files) : bytes :=
  if readable path then default [] (OMap.find path fs) else [].

(** The temporary file and [rename]; [inl] when a call fails. *)
Definition atomicWrite (io : bytes -> bytes + unit) (path content : bytes) (fs : Files) : bytes + Files :=
  match io path with inl e => inl e | inr _ => inr (OMap.insert path content fs) end.

Record RebuildResult := { r_entries : Z; wroteHosts : bool; wroteUnbound : bool; reloadedUnbound : bool; hostsPath : bytes; unboundPath : bytes }.

(** What is left of the files when the command throws is in the error case. *)
Definition rebuild `{StdSort} (k : JailQuery.Jails) (readable : bytes -> bool) (io : bytes -> bytes + unit) (reload : bool)
    (hosts unbound : bytes) (reloadUnbound : bool) (fs : Files) : (bytes + RebuildResult) * Files :=
  let entries := collectEntries k in
  let step1 := if is_empty hosts then inr fs
               else atomicWrite io hosts (replaceHostsBlock (readFileIfExists readable hosts fs) (buildHostsBlock entries)) fs in
  match step1 with
  | inl e => (inl e, fs)
  | inr fs1 =>
      match (if is_empty unbound then inr fs1 else atomicWrite io unbound (buildUnboundFragment entries) fs1) with
      | inl e => (inl e, fs1)
      | inr fs2 =>
          (inr {| r_entries := size_z entries; wroteHosts := negb (is_empty hosts); wroteUnbound := negb (is_empty unbound);
                  reloadedUnbound := negb (is_empty unbound) && reloadUnbound && reload; hostsPath := hosts; unboundPath := unbound |}, fs2)
      end
  end.

(** unbound-control(8), then the service: whether either command succeeded. *)
Definition tryReloadUnbound (control service : bool) : bool := control || service.

Definition interDnsCommand `{StdSort} (euid : Z) (k : JailQuery.Jails) (readable : bytes -> bool) (io : bytes -> bytes + unit)
    (control service : bool) (fs : Files) : (bytes + RebuildResult) * Files :=
  if negb (euid =? 0) then
    (inl (str "inter-dns rewrites /etc/hosts and the unbound configuration on the host and must run as root (sudo crate inter-dns)"), fs)
  else rebuild k readable io (tryReloadUnbound control service) (str "/etc/hosts") (str "/usr/local/etc/unbound/conf.d/crate.conf") true fs.

(** ** Finding the block again *)

(** A marker that begins with a byte it has nowhere else is found where it
    stands, after a text that does not have it. *)
Lemma find_sub_marker h sub pre rest : ~ In h sub -> find_sub (h :: sub) pre = None ->
  find_sub (h :: sub) (pre ++ (h :: sub) ++ rest) = Some (length pre).
Proof.
  intros Hh. induction pre as [|c pre IH]; intros Hn.
  - pose proof (starts_with_app (h :: sub) rest) as S. cbn [app length find_sub] in *. by rewrite S.
  - cbn [find_sub] in Hn. destruct (starts_with (h :: sub) (c :: pre)) eqn:S; [done|].
    destruct (find_sub (h :: sub) pre) eqn:F; [done|]. cbn [app]. cbn [find_sub].
    destruct (starts_with (h :: sub) (c :: pre ++ h :: sub ++ rest)) eqn:S'.
    + exfalso. clear IH Hn F. cbn [starts_with] in S, S'. apply andb_prop in S' as [Ec S']. rewrite Ec in S. cbn [andb] in S. clear Ec.
      assert (G : forall sub' pre', ~ In h sub' -> starts_with sub' pre' = false -> starts_with sub' (pre' ++ h :: sub ++ rest) = true -> False).
      { induction sub' as [|x sub' IH]; intros [|y pre'] Hin N Y; cbn [starts_with app] in N, Y; try done.
        - apply andb_prop in Y as [Y _]. apply Ascii.eqb_eq in Y. subst. cbn in Hin. tauto.
        - apply andb_prop in Y as [Y1 Y2]. rewrite Y1 in N. apply (IH pre'); [cbn in Hin; tauto|done|done]. }
      by apply (G sub pre).
    + change (h :: sub ++ rest) with ((h :: sub) ++ rest). by rewrite IH.
Qed.

(** Addresses and names that have no marker in them. *)
Definition entryPlain (e : Entry) : Prop := ~ In "#"%char (name e) /\ ~ In "#"%char (ip4 e) /\ ~ In "#"%char (ip6 e).

Lemma lower_plain n : ~ In "#"%char n -> ~ In "#"%char (normalizeName n).
Proof.
  intros H. unfold normalizeName. rewrite in_map_iff. intros (c & E & Hc). apply H.
  assert (G : forall c, Ascii.eqb (tolower c) "#" = true -> Ascii.eqb c "#" = true) by by_bytes.
  specialize (G c). rewrite E in G. by rewrite <- (proj1 (Ascii.eqb_eq _ _) (G eq_refl)).
Qed.

Lemma hostsLine_plain e : entryPlain e -> ~ In "#"%char (hostsLine e).
Proof.
  intros (Hn & H4 & H6). apply lower_plain in Hn. unfold hostsLine.
  assert (G : forall a, ~ In "#"%char a -> ~ In "#"%char (a ++ [tab] ++ normalizeName (name e) ++ str ".crate " ++ normalizeName (name e) ++ [newline])).
  { intros a Ha. rewrite !in_app_iff. intros [H|[H|[H|[H|[H|H]]]]]; try done; vm_compute in H; intuition discriminate. }
  destruct (negb _); [by apply G|]. destruct (negb _); [by apply G|]. cbn. tauto.
Qed.

Section Block.
Context `{StdSort}.

Lemma block_lines_plain es : Forall entryPlain es -> ~ In "#"%char (flat_map hostsLine (sortedByName es)).
Proof.
  intros Hp. rewrite in_flat_map. intros (e & He & Hc). apply (Permutation_in _ (std_sort_perm _ es)) in He.
  rewrite Forall_forall in Hp. apply list_elem_of_In in He. by apply (hostsLine_plain e (Hp e He)).
Qed.

(** The end marker after a block of plain entries is the block's own. *)
Lemma block_end es post : Forall entryPlain es ->
  let body := blockBegin ++ [newline] ++ flat_map hostsLine (sortedByName es) in
  find_sub blockEnd (body ++ blockEnd ++ post) = Some (length body).
Proof.
  intros Hp body. apply (find_sub_marker "#" (str " <<< crate inter-container DNS >>>")); [absent|].
  unfold body, blockBegin. change (str "# >>> crate inter-container DNS <<<") with ("#"%char :: str " >>> crate inter-container DNS <<<").
  cbn [app]. cbn [find_sub]. destruct (starts_with _ _) eqn:S; [exfalso; vm_compute in S; discriminate|].
  rewrite Backup.find_sub_no_head; [done|]. rewrite !in_app_iff. intros [Hc|[Hc|Hc]].
  - revert Hc. absent.
  - vm_compute in Hc. discriminate Hc.
  - by apply (block_lines_plain es).
Qed.

Lemma block_shape es post : buildHostsBlock es ++ post
  = (blockBegin ++ [newline] ++ flat_map hostsLine (sortedByName es)) ++ blockEnd ++ [newline] ++ post.
Proof. unfold buildHostsBlock. by rewrite <- !app_assoc. Qed.

(** A block that was written is replaced, and nothing else. *)
Lemma block_replaced pre es post new : find_sub blockBegin pre = None -> Forall entryPlain es ->
  replaceHostsBlock (pre ++ buildHostsBlock es ++ post) new = pre ++ new ++ post.
Proof.
  intros Hpre Hp. unfold replaceHostsBlock. set (text := pre ++ buildHostsBlock es ++ post).
  assert (F : find_sub blockBegin text = Some (length pre)).
  { unfold text, buildHostsBlock. rewrite <- !app_assoc. by apply (find_sub_marker "#" (str " >>> crate inter-container DNS <<<")); [absent|]. }
  rewrite F. unfold text. rewrite drop_app_length, take_app_length, block_shape, block_end by done.
  set (body := blockBegin ++ [newline] ++ _). rewrite <- Nat.add_assoc, <- !drop_drop, drop_app_length, drop_app_length.
  rewrite drop_app_length. done.
Qed.

End Block.

Lemma withNewline_marker s : find_sub blockBegin s = None -> find_sub blockBegin (withNewline s) = None.
Proof.
  intros H. unfold withNewline. destruct (_ && _); [|done]. 
  destruct (find_sub blockBegin (s ++ [newline])) as [i|] eqn:F; [|done]. exfalso.
  destruct (decide (i + length blockBegin <= length s)%nat) as [L|L]; [by rewrite (find_sub_first_end _ _ _ _ F L) in H|].
  pose proof (find_sub_bound _ _ _ F) as B. rewrite length_app in B. cbn [length] in B.
  apply NetAddr.find_sub_split in F. assert (i + length blockBegin = length s + 1)%nat as E by lia.
  rewrite E in F. rewrite (drop_ge (s ++ [newline])), app_nil_r in F by (rewrite length_app; cbn; lia).
  assert (Hl : back (s ++ [newline]) = Some newline) by apply back_app. rewrite F, back_app_ne in Hl by done. vm_compute in Hl. done.
Qed.

Lemma first_rebuild `{StdSort} existing block : find_sub blockBegin existing = None ->
  replaceHostsBlock existing block = withNewline existing ++ block.
Proof. intros He. unfold replaceHostsBlock. by rewrite He. Qed.

(** The kernel's addresses have no marker in them. *)
Definition plainKernel (k : JailQuery.Jails) : Prop := forall j, In j (JailQuery.jailList k) -> ~ In "#"%char (JailQuery.ji_ip4 j).

Lemma collected_plain k : plainKernel k -> Forall entryPlain (collectEntries k).
Proof.
  intros Hk. apply Forall_forall. intros e He%list_elem_of_In. unfold collectEntries in He. apply in_flat_map in He as (j & Hj & He).
  unfold entryOf in He. destruct (JailQuery.ji_dying j); [done|]. set (host := if is_empty _ then _ else _) in He.
  destruct (is_empty (validateHostname host)) eqn:V; [|done]. destruct He as [<-|[]]. unfold entryPlain. cbn [name ip4 ip6].
  apply is_empty_true in V. unfold validateHostname in V. ok_split V. destruct V as (_ & _ & _ & _ & V). rewrite forallb_forall in V.
  split; [intros Hc%V; done|]. split; [|cbn; tauto]. unfold firstAddress. apply filter_In in Hj as [Hj _].
  destruct (find_char "," _); [|by apply Hk]. intros Hc. apply (Hk j Hj). rewrite <- (take_drop n (JailQuery.ji_ip4 j)). apply in_or_app. by left.
Qed.

(** One rebuild, with every file readable and every write done. *)
Definition rebuilt `{StdSort} (hosts unbound : bytes) (fs : Files) (k : JailQuery.Jails) : Files :=
  snd (rebuild k (fun _ => true) (fun _ => inr tt) true hosts unbound true fs).

Lemma rebuilt_hosts `{StdSort} hosts unbound fs k text : hosts <> [] -> hosts <> unbound -> OMap.wf fs ->
  OMap.find hosts fs = Some text ->
  OMap.wf (rebuilt hosts unbound fs k)
  /\ OMap.find hosts (rebuilt hosts unbound fs k) = Some (replaceHostsBlock text (buildHostsBlock (collectEntries k))).
Proof.
  intros Hne Hu Hw Hf. unfold rebuilt, rebuild, atomicWrite, readFileIfExists. apply is_empty_false in Hne. rewrite Hne, Hf. cbn [default].
  destruct (is_empty unbound); cbn [snd]; (split; [eauto with crate|]); rewrite !OMap.find_insert by eauto with crate;
    repeat (destruct (decide _)); try done.
Qed.

(** C23: rebuilding the hosts file changes nothing but crate's block.  For a hosts
    file without the block, after any number of rebuilds, whichever containers
    ran at each of them, the file is the operator's text (with a newline if it
    did not end in one) and one block, that of the containers which ran last;
    and lines written around the block in the meantime stay where they are. *)
Theorem hosts_file_keeps_the_rest `{StdSort} (hosts unbound existing : bytes) (fs : Files) (ks : list JailQuery.Jails) (k : JailQuery.Jails) :
  hosts <> [] -> hosts <> unbound -> OMap.wf fs -> OMap.find hosts fs = Some existing -> find_sub blockBegin existing = None ->
  Forall plainKernel ks ->
  OMap.find hosts (fold_left (rebuilt hosts unbound) (ks ++ [k]) fs)
    = Some (withNewline existing ++ buildHostsBlock (collectEntries k))
  /\ forall old pre post, plainKernel old -> find_sub blockBegin pre = None ->
       replaceHostsBlock (pre ++ buildHostsBlock (collectEntries old) ++ post) (buildHostsBlock (collectEntries k))
       = pre ++ buildHostsBlock (collectEntries k) ++ post.
Proof.
  intros Hne Hu Hw Hf He Hks. split; [|intros old pre post Ho Hp; apply block_replaced; [done|by apply collected_plain]].
  rewrite fold_left_app. cbn [fold_left].
  assert (G : OMap.wf (fold_left (rebuilt hosts unbound) ks fs) /\ (OMap.find hosts (fold_left (rebuilt hosts unbound) ks fs) = Some existing
     \/ exists k0, plainKernel k0 /\ OMap.find hosts (fold_left (rebuilt hosts unbound) ks fs) = Some (withNewline existing ++ buildHostsBlock (collectEntries k0) ++ []))).
  { induction ks as [|k0 ks IH] using rev_ind; [auto|]. apply Forall_app in Hks as [Hks Hk0]. rewrite Forall_singleton in Hk0. rewrite fold_left_app. cbn [fold_left].
    destruct (IH Hks) as [Hw' [E|(k1 & Hk1 & E)]]; destruct (rebuilt_hosts hosts unbound _ k0 _ Hne Hu Hw' E) as [Hw2 E2]; (split; [done|]);
      right; exists k0; (split; [done|]); rewrite E2; f_equal.
    - rewrite app_nil_r. by apply first_rebuild.
    - apply block_replaced; auto using withNewline_marker, collected_plain. }
  destruct G as [Hw' [E|(k0 & Hk0 & E)]]; destruct (rebuilt_hosts hosts unbound _ k _ Hne Hu Hw' E) as [_ ->]; f_equal.
  - by apply first_rebuild.
  - rewrite block_replaced by (auto using withNewline_marker, collected_plain). by rewrite app_nil_r.
Qed.

Definition aJail (n p addr : string) : JailQuery.JailInfo :=
  {| JailQuery.ji_jid := 7; JailQuery.ji_name := str n; JailQuery.ji_path := str p; JailQuery.ji_hostname := []; JailQuery.ji_ip4 := str addr;
     JailQuery.ji_dying := false |}.

Definition aKernel (js : list JailQuery.JailInfo) : JailQuery.Jails :=
  {| JailQuery.getJailByName := fun _ => None; JailQuery.getJailByJid := fun _ => None; JailQuery.jailList := js |}.

Definition webKernel : JailQuery.Jails := aKernel [aJail "Web_pid42" "/var/run/crate/jail-Web-0a1b2c3d" "10.0.0.2,10.0.0.3"].

Lemma hosts_file_keeps_the_rest_witness :
  let fs := [(str "/etc/hosts", str "127.0.0.1 localhost")] in
  OMap.find (str "/etc/hosts") (fold_left (rebuilt (H := insertionSort) (str "/etc/hosts") []) [webKernel; aKernel []] fs)
  = Some (str "127.0.0.1 localhost" ++ [newline] ++ blockBegin ++ [newline] ++ blockEnd ++ [newline]).
Proof.
  apply (hosts_file_keeps_the_rest (H := insertionSort) (str "/etc/hosts") [] (str "127.0.0.1 localhost")
    [(str "/etc/hosts", str "127.0.0.1 localhost")] [webKernel] (aKernel [])).
  - discriminate.
  - discriminate.
  - repeat constructor.
  - vm_compute. reflexivity.
  - vm_compute. reflexivity.
  - apply Forall_singleton. intros j [<-|[]]. vm_compute. intuition discriminate.
Defined.

Example hosts_example :
  buildHostsBlock (H := insertionSort) (collectEntries webKernel)
  = blockBegin ++ [newline] ++ str "10.0.0.2" ++ [tab] ++ str "web.crate web" ++ [newline] ++ blockEnd ++ [newline].
Proof. vm_compute. reflexivity. Qed.

(** A hosts file that cannot be opened is taken for an empty one and replaced. *)
Lemma unreadable_hosts_lost :
  OMap.find (str "/etc/hosts") (snd (rebuild (H := insertionSort) (aKernel []) (fun _ => false) (fun _ => inr tt) true (str "/etc/hosts") [] true
    [(str "/etc/hosts", str "127.0.0.1 localhost")])) = Some (blockBegin ++ [newline] ++ blockEnd ++ [newline]).
Proof. vm_compute. reflexivity. Qed.

(** Without the end marker, everything after the begin marker is dropped, the operator's lines too. *)
Lemma unclosed_block_takes_the_rest :
  replaceHostsBlock (blockBegin ++ [newline] ++ str "192.168.1.5 nas" ++ [newline]) (str "B") = str "B".
Proof. vm_compute. reflexivity. Qed.

(** A jail that the kernel names by its jid, as the ones root starts, is published under the number. *)
Lemma jid_published :
  let j := aJail "7" "/var/run/crate/jail-web-0a1b2c3d" "10.0.0.2" in
  collectEntries (aKernel [j]) = [{| name := str "7"; ip4 := str "10.0.0.2"; ip6 := [] |}] /\ JailQuery.containerOf j = str "web".
Proof. vm_compute. done. Qed.

End InterDns.
