(* ===== verification/DaemonConfig.v ===== *)
(** * The daemon's configuration: daemon/config.cpp, socket_perms_pure.cpp

    [Config::load] on a parsed document.  The numeric conversions of yaml-cpp
    are parameters, as its other conversions are in Yaml.v. *)

From S2P Require Import Prelude CStd Limits Auth ControlSocketPure RecordUpd Yaml.

(** ** daemon/socket_perms_pure.cpp *)

Module SocketPerms.

Definition isOctal (c : ascii) : bool := in_range "0" "7" c.
Definition allOctal (s : bytes) : bool := negb (is_empty s) && forallb isOctal s.
Definition isAlnumDashUnderscore (c : ascii) : bool := is_alnum c || one_of (str "-_") c.

Definition validateName (what s : bytes) : bytes :=
  if is_empty s then []
  else reject (32 <? size_z s) with (what ++ str " too long (>32 chars): '" ++ s ++ str "'");
    reject (starts_with (str "-") s) with (what ++ str " must not start with '-': '" ++ s ++ str "'");
    reject (negb (forallb isAlnumDashUnderscore s)) with
      (what ++ str " contains forbidden char (allowed: [A-Za-z0-9_-]): '" ++ s ++ str "'");
    [].

Definition octValue (s : bytes) : Z := fold_left (fun v c => v * 8 + digit_val c) s 0.

(** The digits after the prefixes 0o and 0. *)
Definition modeBody (s : bytes) : bytes :=
  let b := match s with "0"%char :: c :: t => if one_of (str "oO") c then t else s | _ => s end in
  match b with "0"%char :: c :: t => if Ascii.eqb c "0" then b else c :: t | _ => b end.

Definition parseUnixModeStr (s : bytes) : bytes + Z :=
  if is_empty s then inl (str "mode is empty")
  else
    let body := modeBody s in
    if 4 <? size_z body then inl (str "mode '" ++ s ++ str "' has too many octal digits (max 4)")
    else if negb (allOctal body) then inl (str "mode '" ++ s ++ str "' contains non-octal digits (only 0..7 allowed)")
    else
      let v := u32 (octValue body) in
      if 0xfff <? v then inl (str "mode '" ++ s ++ str "' out of range (max 07777)") else inr v.

Definition validateUserName : bytes -> bytes := validateName (str "user name").
Definition validateGroupName : bytes -> bytes := validateName (str "group name").

Definition validateUnixSocketPerms (owner group : bytes) (mode : Z) : bytes :=
  ensure validateUserName owner;
  ensure validateGroupName group;
  reject (0xfff <? mode) with (str "mode out of range (max 07777): " ++ dec mode);
  [].

Definition isModeTight (mode : Z) : bool := (Z.land mode 0xfff <=? 0x1b0) && (Z.land mode 7 =? 0).

(** A mode that parses is in range, and is the number its digits say. *)
Lemma mode_parses s m : parseUnixModeStr s = inr m -> 0 <= m <= 0xfff /\ m = octValue (modeBody s).
Proof.
  unfold parseUnixModeStr. destruct (is_empty s); [done|]. destruct (4 <? size_z _) eqn:L; [done|].
  destruct (allOctal (modeBody s)) eqn:O; [|done]. cbn [negb]. destruct (0xfff <? _) eqn:R; [done|]. intros [= <-].
  unfold allOctal in O. apply andb_prop in O as [_ O]. apply Z.ltb_ge in L, R.
  assert (B : forall t acc, forallb isOctal t = true -> 0 <= acc ->
    0 <= fold_left (fun v c => v * 8 + digit_val c) t acc < (acc + 1) * 8 ^ size_z t).
  { induction t as [|c t IH]; intros acc Ht Ha; [change (size_z (@nil ascii)) with 0; cbn [fold_left]; lia|]. cbn [forallb fold_left] in *. apply andb_prop in Ht as [Hc Ht].
    assert (G : 0 <= digit_val c < 8).
    { clear -Hc. revert c Hc. assert (forall c, isOctal c = true -> (0 <=? digit_val c) && (digit_val c <? 8) = true) as G by by_bytes.
      intros c Hc%G. lia. }
    specialize (IH (acc * 8 + digit_val c) Ht ltac:(lia)). pose proof (size_z_nonneg t) as Hs.
    rewrite size_z_cons, Z.pow_add_r by lia. change (8 ^ 1) with 8. pose proof (Z.pow_pos_nonneg 8 (size_z t) ltac:(lia) Hs) as Hp.
    assert ((acc * 8 + digit_val c + 1) * 8 ^ size_z t <= (acc + 1) * (8 * 8 ^ size_z t)) by nia. lia. }
  specialize (B (modeBody s) 0 O ltac:(lia)). fold (octValue (modeBody s)) in B.
  assert (8 ^ size_z (modeBody s) <= 8 ^ 4) by (apply Z.pow_le_mono_r; [lia|pose proof (size_z_nonneg (modeBody s)); lia]).
  unfold u32 in *. rewrite Z.mod_small in * by lia. lia.
Qed.

End SocketPerms.

(** ** daemon/config.cpp *)

Module DaemonConfig.
Import CStd ControlSocketPure.

(** Fields in the order of config.h. *)
Record Config := {
  unixSocket : bytes; tcpPort : Z; tcpBind : bytes; unixSocketOwner : bytes; unixSocketGroup : bytes; unixSocketMode : Z;
  maxBodyBytes : Z; httpWorkers : Z;
  tlsCert : bytes; tlsKey : bytes; tlsCa : bytes; requireClientCert : bool;
  tokens : list Auth.AuthToken; poolSeparator : ascii;
  logFile : bytes; logLevel : bytes;
  consoleWsPort : Z; consoleWsBind : bytes;
  controlSockets : list ControlSocketSpec;
  rootlessPerUser : bool; zfsMasterPrefix : bytes; pathMasterPrefix : bytes;
  networkMasterCidr4 : bytes; networkSubPrefixLen4 : Z; networkMasterCidr6 : bytes; networkSubPrefixLen6 : Z;
  privopsSocketPath : bytes; privopsSocketGroup : bytes; privopsSocketMode : Z;
  rctlUmbrella : list (bytes * bytes) }.

#[export] Instance etaConfig : Eta Config := fun r => {|
  unixSocket := unixSocket r; tcpPort := tcpPort r; tcpBind := tcpBind r; unixSocketOwner := unixSocketOwner r;
  unixSocketGroup := unixSocketGroup r; unixSocketMode := unixSocketMode r; maxBodyBytes := maxBodyBytes r; httpWorkers := httpWorkers r;
  tlsCert := tlsCert r; tlsKey := tlsKey r; tlsCa := tlsCa r; requireClientCert := requireClientCert r;
  tokens := tokens r; poolSeparator := poolSeparator r; logFile := logFile r; logLevel := logLevel r;
  consoleWsPort := consoleWsPort r; consoleWsBind := consoleWsBind r; controlSockets := controlSockets r;
  rootlessPerUser := rootlessPerUser r; zfsMasterPrefix := zfsMasterPrefix r; pathMasterPrefix := pathMasterPrefix r;
  networkMasterCidr4 := networkMasterCidr4 r; networkSubPrefixLen4 := networkSubPrefixLen4 r;
  networkMasterCidr6 := networkMasterCidr6 r; networkSubPrefixLen6 := networkSubPrefixLen6 r;
  privopsSocketPath := privopsSocketPath r; privopsSocketGroup := privopsSocketGroup r; privopsSocketMode := privopsSocketMode r;
  rctlUmbrella := rctlUmbrella r |}.

Definition defaults : Config := {|
  unixSocket := str "/var/run/crate/crated.sock"; tcpPort := 9800; tcpBind := str "0.0.0.0"; unixSocketOwner := []; unixSocketGroup := [];
  unixSocketMode := 0x1b0; maxBodyBytes := 1024 * 1024 * 1024; httpWorkers := 32; tlsCert := []; tlsKey := []; tlsCa := [];
  requireClientCert := false; tokens := []; poolSeparator := "-"; logFile := str "/var/log/crated.log"; logLevel := str "info";
  consoleWsPort := 0; consoleWsBind := str "127.0.0.1"; controlSockets := []; rootlessPerUser := true; zfsMasterPrefix := [];
  pathMasterPrefix := []; networkMasterCidr4 := []; networkSubPrefixLen4 := 24; networkMasterCidr6 := []; networkSubPrefixLen6 := 64;
  privopsSocketPath := []; privopsSocketGroup := []; privopsSocketMode := 0x1b0; rctlUmbrella := [] |}.

(** [std::stoul(s, nullptr, 8)] *)
Definition stoulOctal (s : bytes) : option Z :=
  let '(neg, s2) := sign (skipSpace s) in
  let digits := fst (span SocketPerms.isOctal s2) in
  if is_empty digits || (ulongMax <? SocketPerms.octValue digits) then None
  else Some (if neg then u64 (- SocketPerms.octValue digits) else SocketPerms.octValue digits).

Section Load.
Context `{Yaml}.
(** [as<unsigned>] and [as<unsigned long long>]; [None] is the exception. *)
Variables (asUnsigned asU64 : Node -> option Z).

Definition orThrow {A} (o : option A) : bytes + A := match o with Some a => inr a | None => inl yamlError end.

(** [node[key]] of a node that is not const: a scalar has no members and
    throws; a missing member is undefined. *)
Definition member (key : string) (n : Node) : bytes + option Node :=
  match n with Scalar _ => inl yamlError | _ => inr (field (str key) n) end.

(** [if (node[key]) cfg.f = node[key].as<T>();] *)
Definition setFrom {A T} (as_ : Node -> bytes + T) (key : string) (set : T -> A -> bytes + A) (n : Node) (c : A) : bytes + A :=
  m ← member key n;
  match m with None => inr c | Some v => t ← as_ v; set t c end.

Definition setString {A} (key : string) (set : bytes -> A -> A) : Node -> A -> bytes + A := setFrom AsString key (fun s c => inr (set s c)).
Definition setUnsigned {A} (key : string) (set : Z -> A -> A) : Node -> A -> bytes + A :=
  setFrom (fun n => orThrow (asUnsigned n)) key (fun s c => inr (set s c)).
Definition setBool {A} (key : string) (set : bool -> A -> A) : Node -> A -> bytes + A :=
  setFrom (fun n => orThrow (decodeBool n)) key (fun s c => inr (set s c)).

(** One statement after the other. *)
Fixpoint steps {A} (l : list (Node -> A -> bytes + A)) (n : Node) (c : A) : bytes + A :=
  match l with [] => inr c | f :: t => c' ← f n c; steps t n c' end.

(** [if (auto s = root[key]) { ... }] *)
Definition section {A} (key : string) (body : Node -> A -> bytes + A) : Node -> A -> bytes + A := setFrom inr key body.

(** What [for (auto x : node)] visits, when the body indexes [x]. *)
Definition visited (n : Node) : bytes + list Node :=
  match n with Sequence l => inr l | Map (_ :: _) => inl yamlError | _ => inr [] end.

(** [try { stoul(node.as<string>(), nullptr, 8) } catch (...) { node.as<unsigned>() }] *)
Definition modeOf (v : Node) : bytes + Z :=
  match (s ← asString v; stoulOctal s) with Some m => inr (u32 m) | None => orThrow (asUnsigned v) end.

Definition listen : Node -> Config -> bytes + Config := steps [
  setString "unix" (fun v c => c <| unixSocket := v |>);
  setUnsigned "tcp_port" (fun v c => c <| tcpPort := v |>);
  setString "tcp_bind" (fun v c => c <| tcpBind := v |>);
  setString "unix_owner" (fun v c => c <| unixSocketOwner := v |>);
  setString "unix_group" (fun v c => c <| unixSocketGroup := v |>);
  setFrom AsString "unix_mode" (fun raw c =>
    match SocketPerms.parseUnixModeStr raw with
    | inl e => inl (str "listen.unix_mode: " ++ e)
    | inr m => inr (c <| unixSocketMode := m |>)
    end);
  (fun _ c => _ ← errOn (str "listen.unix_*: ")
                (SocketPerms.validateUnixSocketPerms (unixSocketOwner c) (unixSocketGroup c) (unixSocketMode c)); inr c);
  setFrom (fun n => orThrow (asU64 n)) "max_body_mb" (fun mb c =>
    _ ← errIf ((mb =? 0) || (65536 <? mb)) (str "listen.max_body_mb: expected 1..65536");
    inr (c <| maxBodyBytes := mb * 1024 * 1024 |>));
  setFrom (fun n => orThrow (asUnsigned n)) "http_workers" (fun w c =>
    _ ← errIf ((w <? 4) || (1024 <? w)) (str "listen.http_workers: expected 4..1024");
    inr (c <| httpWorkers := w |>))].

Definition tls : Node -> Config -> bytes + Config := steps [
  setString "cert" (fun v c => c <| tlsCert := v |>);
  setString "key" (fun v c => c <| tlsKey := v |>);
  setString "ca" (fun v c => c <| tlsCa := v |>);
  setBool "require_client_cert" (fun v c => c <| requireClientCert := v |>)].

(** A list of strings, or one. *)
Definition oneOrMore (n : Node) : bytes + list bytes :=
  match n with
  | Sequence l => mapM AsString l
  | Scalar _ => s ← AsString n; inr [s]
  | _ => inr []
  end.

Definition listAt (key : string) (n : Node) : bytes + list bytes :=
  m ← member key n; match m with None => inr [] | Some v => oneOrMore v end.

(** [t[key].as<std::string>()]: an undefined node throws. *)
Definition required (key : string) (n : Node) : bytes + bytes :=
  m ← member key n; match m with None => inl yamlError | Some v => AsString v end.

(** [as<std::string>(d)] *)
Definition withDefault (key d : string) (n : Node) : bytes + bytes :=
  m ← member key n; inr (match m with None => str d | Some v => default (str d) (asString v) end).

Definition isRole (r : bytes) : bool := beq r (str "admin") || beq r (str "viewer").

Definition loadToken (t : Node) : bytes + Auth.AuthToken :=
  name ← required "name" t;
  hash ← required "token_hash" t;
  role ← withDefault "role" "viewer" t;
  _ ← errIf (negb (isRole role)) (str "auth.tokens[" ++ name ++ str "].role must be 'admin' or 'viewer', got '" ++ role ++ str "'");
  exp ← member "expires_at" t;
  expires ← match exp with
            | None => inr 0
            | Some v =>
                raw ← AsString v;
                let parsed := Auth.parseIso8601Utc raw in
                _ ← errIf (parsed <? 0) (str "auth.tokens[" ++ name ++ str "].expires_at is not a valid ISO 8601 UTC timestamp: '" ++ raw ++ str "'");
                inr parsed
            end;
  scope ← listAt "scope" t;
  pools ← listAt "pools" t;
  inr {| Auth.t_name := name; Auth.tokenHash := hash; Auth.role := role; Auth.expiresAt := expires; Auth.scope := scope; Auth.pools := pools |}.

Definition auth : Node -> Config -> bytes + Config := steps [
  setFrom AsString "pool_separator" (fun sep c =>
    match sep with
    | [ch] => inr (c <| poolSeparator := ch |>)
    | _ => inl (str "auth.pool_separator must be a single character, got '" ++ sep ++ str "'")
    end);
  section "tokens" (fun n c => l ← visited n; foldM (fun c t => at_ ← loadToken t; inr (c <| tokens := tokens c ++ [at_] |>)) l c)].

Definition log : Node -> Config -> bytes + Config := steps [
  setString "file" (fun v c => c <| logFile := v |>);
  setString "level" (fun v c => c <| logLevel := v |>)].

Definition consoleWs : Node -> Config -> bytes + Config := steps [
  setUnsigned "port" (fun v c => c <| consoleWsPort := v |>);
  setString "bind" (fun v c => c <| consoleWsBind := v |>)].

(** The members of a fresh [ControlSocketSpec]. *)
Definition freshSpec : ControlSocketSpec := {| sp_path := []; sp_group := []; sp_mode := 0x1b0; sp_pools := []; sp_role := str "viewer" |}.

#[local] Instance etaSpec : Eta ControlSocketSpec := fun s =>
  {| sp_path := sp_path s; sp_group := sp_group s; sp_mode := sp_mode s; sp_pools := sp_pools s; sp_role := sp_role s |}.

Definition loadSocket (n : Node) : bytes + ControlSocketSpec :=
  spec ← steps [
    setString "path" (fun v s => s <| sp_path := v |>);
    setString "group" (fun v s => s <| sp_group := v |>);
    setFrom modeOf "mode" (fun m s => inr (s <| sp_mode := m |>));
    setFrom AsString "role" (fun r s =>
      _ ← errIf (negb (isRole r)) (str "control_sockets[" ++ sp_path s ++ str "].role must be 'admin' or 'viewer', got '" ++ r ++ str "'");
      inr (s <| sp_role := r |>));
    setFrom oneOrMore "pools" (fun l s => inr (s <| sp_pools := l |>))] n freshSpec;
  _ ← errOn (str "control_sockets[" ++ sp_path spec ++ str "]: ") (validateSocketSpec spec);
  inr spec.

Definition sockets (n : Node) (c : Config) : bytes + Config :=
  _ ← errIf (negb (IsSequence n)) (str "control_sockets must be a YAML sequence");
  foldM (fun c s => spec ← loadSocket s; inr (c <| controlSockets := controlSockets c ++ [spec] |>)) (elements n) c.

Definition prefixes : list (Node -> Config -> bytes + Config) := [
  setString "zfs_master_prefix" (fun v c => c <| zfsMasterPrefix := v |>);
  setString "path_master_prefix" (fun v c => c <| pathMasterPrefix := v |>);
  setString "network_master_cidr_v4" (fun v c => c <| networkMasterCidr4 := v |>);
  setUnsigned "network_sub_prefix_len_v4" (fun v c => c <| networkSubPrefixLen4 := v |>);
  setString "network_master_cidr_v6" (fun v c => c <| networkMasterCidr6 := v |>);
  setUnsigned "network_sub_prefix_len_v6" (fun v c => c <| networkSubPrefixLen6 := v |>)].

(** The warning about both forms only prints; it indexes the block again. *)
Definition overrideWarning (n : Node) (c : Config) : bytes + Config :=
  _ ← member "zfs_master_prefix" n; inr c.

Definition umbrellaEntry (c : Config) (kv : Node * Node) : bytes + Config :=
  key ← AsString (fst kv);
  val ← AsString (snd kv);
  _ ← errOn (str "rctl_umbrella." ++ key ++ str ": ") (Retune.validateRctlKey key);
  _ ← errOn (str "rctl_umbrella." ++ key ++ str ": ") (Retune.validateRctlValue key val);
  inr (c <| rctlUmbrella := rctlUmbrella c ++ [(key, val)] |>).

Definition umbrella (n : Node) (c : Config) : bytes + Config :=
  match n with
  | Map l => foldM umbrellaEntry l c
  | _ => inl (str "rctl_umbrella must be a YAML map")
  end.

(** [Config::load] *)
Definition load (root : Node) : bytes + Config := steps ([
  section "listen" listen;
  section "tls" tls;
  section "auth" auth;
  section "log" log;
  section "console_ws" consoleWs;
  section "control_sockets" sockets;
  setBool "rootless_per_user" (fun v c => c <| rootlessPerUser := v |>);
  section "rootless" (steps (setBool "per_user" (fun v c => c <| rootlessPerUser := v |>) :: prefixes));
  section "rootless" overrideWarning]
  ++ prefixes ++ [
  setString "privops_socket" (fun v c => c <| privopsSocketPath := v |>);
  setString "privops_socket_group" (fun v c => c <| privopsSocketGroup := v |>);
  setFrom modeOf "privops_socket_mode" (fun m c => inr (c <| privopsSocketMode := m |>));
  section "privops" (steps [
    setString "socket" (fun v c => c <| privopsSocketPath := v |>);
    setString "group" (fun v c => c <| privopsSocketGroup := v |>);
    setFrom modeOf "mode" (fun m c => inr (c <| privopsSocketMode := m |>))]);
  section "rctl_umbrella" umbrella]) root defaults.

End Load.

(** ** What a loaded configuration promises *)

Definition keeps {A} (P : A -> Prop) (f : Node -> A -> bytes + A) : Prop := forall n c c', P c -> f n c = inr c' -> P c'.

Lemma setFrom_keeps `{Yaml} {A T} (P : A -> Prop) (as_ : Node -> bytes + T) key set :
  (forall v t c c', as_ v = inr t -> P c -> set t c = inr c' -> P c') -> keeps P (setFrom as_ key set).
Proof.
  intros Hs n c c' Hc E. unfold setFrom in E. apply result_bind_inr in E as (m & _ & E). destruct m as [v|]; [|by injection E as <-].
  apply result_bind_inr in E as (t & Ht & E). eauto.
Qed.

Lemma steps_keeps {A} (P : A -> Prop) l : Forall (keeps P) l -> keeps P (steps l).
Proof.
  induction 1 as [|f l Hf _ IH]; intros n c c' Hc; cbn [steps]; [by intros [= <-]|].
  rewrite result_bind_inr. intros (c1 & E1 & E2). apply (IH n c1 c' (Hf n c c1 Hc E1) E2).
Qed.

Lemma steps_app {A} (l1 l2 : list (Node -> A -> bytes + A)) n c c' :
  steps (l1 ++ l2) n c = inr c' <-> exists c1, steps l1 n c = inr c1 /\ steps l2 n c1 = inr c'.
Proof.
  revert c. induction l1 as [|f l1 IH]; intros c; cbn [app steps]; [split; [eauto|by intros (? & [= ->] & ?)]|].
  destruct (f n c) as [e|c1]; cbn [mbind result_bind]; [split; [done|by intros (? & ? & _)]|]. apply IH.
Qed.

Lemma section_keeps `{Yaml} {A} (P : A -> Prop) key body : keeps P body -> keeps P (section key body).
Proof. intros Hb. apply setFrom_keeps. intros v t c c' _ Hc E. by apply (Hb t c c'). Qed.

Lemma setString_keeps `{Yaml} {A} (P : A -> Prop) key (set : bytes -> A -> A) : (forall v c, P c -> P (set v c)) -> keeps P (setString key set).
Proof. intros Hs. apply setFrom_keeps. intros v t c c' _ Hc [= <-]. by apply Hs. Qed.

Lemma setUnsigned_keeps `{Yaml} {A} (P : A -> Prop) asU key (set : Z -> A -> A) :
  (forall v c, P c -> P (set v c)) -> keeps P (setUnsigned asU key set).
Proof. intros Hs. apply setFrom_keeps. intros v t c c' _ Hc [= <-]. by apply Hs. Qed.

Lemma setBool_keeps `{Yaml} {A} (P : A -> Prop) key (set : bool -> A -> A) : (forall v c, P c -> P (set v c)) -> keeps P (setBool key set).
Proof. intros Hs. apply setFrom_keeps. intros v t c c' _ Hc [= <-]. by apply Hs. Qed.

(** A setting of a member the property does not speak of. *)
Ltac plain := first
  [ apply setString_keeps; intros ? ?; exact id
  | apply setUnsigned_keeps; intros ? ?; exact id
  | apply setBool_keeps; intros ? ?; exact id
  | apply setFrom_keeps; intros ? ? ? ? _ Hplain [= <-]; exact Hplain ].
Ltac plains := repeat (constructor; [plain|]); try constructor.

Definition tokenOk (t : Auth.AuthToken) : Prop := (Auth.role t = str "admin" \/ Auth.role t = str "viewer") /\ 0 <= Auth.expiresAt t.

Definition umbrellaOk (kv : bytes * bytes) : Prop :=
  Retune.validateRctlKey (fst kv) = [] /\ Retune.validateRctlValue (fst kv) (snd kv) = [].

(** All but the permissions of the socket of the REST API, which are checked
    after their settings. *)
Definition partsOk (c : Config) : Prop :=
  Forall tokenOk (tokens c) /\ Forall (fun s => validateSocketSpec s = []) (controlSockets c) /\ Forall umbrellaOk (rctlUmbrella c)
  /\ 2 ^ 20 <= maxBodyBytes c <= 2 ^ 36 /\ 4 <= httpWorkers c <= 1024.

Definition permsOk (c : Config) : Prop :=
  SocketPerms.validateUnixSocketPerms (unixSocketOwner c) (unixSocketGroup c) (unixSocketMode c) = [].

Definition configOk (c : Config) : Prop := partsOk c /\ permsOk c.

Lemma loadToken_ok `{Yaml} t at_ : loadToken t = inr at_ -> tokenOk at_.
Proof.
  unfold loadToken. rewrite result_bind_inr. intros (name & _ & E). apply result_bind_inr in E as (hash & _ & E).
  apply result_bind_inr in E as (r & _ & E). apply result_bind_inr in E as (u & Hr & E). apply errIf_ok in Hr.
  apply result_bind_inr in E as (exp & _ & E). apply result_bind_inr in E as (expires & Hx & E).
  apply result_bind_inr in E as (sc & _ & E). apply result_bind_inr in E as (pl & _ & E). injection E as <-. split; cbn.
  - apply negb_false_iff, orb_prop in Hr as [Hr%beq_eq|Hr%beq_eq]; auto.
  - destruct exp as [v|]; [|injection Hx as <-; lia]. apply result_bind_inr in Hx as (raw & _ & Hx).
    apply result_bind_inr in Hx as (u' & Hp & Hx). apply errIf_ok in Hp. injection Hx as <-. lia.
Qed.

Lemma loadSocket_ok `{Yaml} asU n spec : loadSocket asU n = inr spec -> validateSocketSpec spec = [].
Proof.
  unfold loadSocket. rewrite result_bind_inr. intros (s & _ & E). apply result_bind_inr in E as (u & Hv & E). apply errOn_ok in Hv.
  by injection E as <-.
Qed.

(** The numbers yaml-cpp converts to are of the width asked for. *)
Definition widths (asU as64 : Node -> option Z) : Prop :=
  (forall n v, asU n = Some v -> 0 <= v < 2 ^ 32) /\ (forall n v, as64 n = Some v -> 0 <= v < 2 ^ 64).

Lemma orThrow_ok `{Yaml} {A} (o : option A) a : orThrow o = inr a -> o = Some a.
Proof. destruct o; [|done]. by intros [= ->]. Qed.

Lemma listen_ok `{Yaml} asU as64 : widths asU as64 -> keeps configOk (listen asU as64).
Proof.
  intros [WU W64] n c c' [Hp _] E. unfold listen in E.
  match type of E with steps [?f1; ?f2; ?f3; ?f4; ?f5; ?f6; ?f7; ?f8; ?f9] _ _ = _ =>
    change [f1; f2; f3; f4; f5; f6; f7; f8; f9] with ([f1; f2; f3; f4; f5; f6] ++ [f7] ++ [f8; f9]) in E end.
  apply steps_app in E as (c1 & E1 & E). apply steps_app in E as (c2 & E2 & E3).
  assert (H1 : partsOk c1).
  { revert E1. apply steps_keeps; [|done]. repeat (constructor; [first [plain|apply setFrom_keeps]|]); [|constructor].
    intros v t d d' _ Hd. destruct (SocketPerms.parseUnixModeStr t); [done|]. by intros [= <-]. }
  assert (H2 : configOk c2).
  { cbn [steps] in E2. apply result_bind_inr in E2 as (c3 & E2 & [= <-]). apply result_bind_inr in E2 as (u & Hv & [= <-]).
    apply errOn_ok in Hv. done. }
  revert E3. apply steps_keeps; [|done]. apply Forall_cons_2; [|apply Forall_cons_2; [|apply Forall_nil_2]].
  all: apply setFrom_keeps; intros v t d d' Ht%orThrow_ok Hd Es; first [apply WU in Ht|apply W64 in Ht];
    apply result_bind_inr in Es as (u & Hv%errIf_ok & [= <-]); destruct Hd as [(T & S & U & B & W) Q];
    (split; [split; [done|]; split; [done|]; split; [done|]|done]); cbn; split; try done; lia.
Qed.

Lemma auth_ok `{Yaml} : keeps configOk auth.
Proof.
  apply steps_keeps, Forall_cons_2; [|apply Forall_cons_2; [|apply Forall_nil_2]].
  - apply setFrom_keeps. intros v t c c' _ Hc. destruct t as [|ch [|]]; [done| |done]. by intros [= <-].
  - apply section_keeps. intros n c c' Hc E. apply result_bind_inr in E as (l & _ & E). revert E. apply foldM_inv; [|done].
    intros d t d' _ [(T & R) Q] Es. apply result_bind_inr in Es as (at_ & Ht & [= <-]). split; [|done]. split; [|done].
    cbn. apply Forall_app. split; [done|]. apply Forall_singleton. by apply (loadToken_ok t).
Qed.

Lemma sockets_ok `{Yaml} asU : keeps configOk (sockets asU).
Proof.
  intros n c c' Hc E. unfold sockets in E. apply result_bind_inr in E as (u & _ & E). revert E. apply foldM_inv; [|done].
  intros d t d' _ [(T & S & R) Q] Es. apply result_bind_inr in Es as (spec & Hs & [= <-]). split; [|done]. split; [done|]. split; [|done].
  cbn. apply Forall_app. split; [done|]. apply Forall_singleton. by apply (loadSocket_ok asU t).
Qed.

Lemma umbrella_ok `{Yaml} : keeps configOk umbrella.
Proof.
  intros n c c' Hc. unfold umbrella. destruct n as [| | |l]; try done. apply foldM_inv; [|done].
  intros d kv d' _ [(T & S & U & R) Q] Es. unfold umbrellaEntry in Es. apply result_bind_inr in Es as (key & _ & Es).
  apply result_bind_inr in Es as (val & _ & Es). apply result_bind_inr in Es as (u1 & Hk%errOn_ok & Es).
  apply result_bind_inr in Es as (u2 & Hv%errOn_ok & [= <-]). split; [|done]. split; [done|]. split; [done|]. split; [|done].
  cbn. apply Forall_app. split; [done|]. by apply Forall_singleton.
Qed.

Lemma prefixes_ok `{Yaml} asU : Forall (keeps configOk) (prefixes asU).
Proof. unfold prefixes. repeat (apply Forall_cons_2; [plain|]). apply Forall_nil_2. Qed.

Lemma default_ok : configOk defaults.
Proof. repeat split; try constructor; cbn; lia. Qed.

(** C22: what [Config::load] accepts is well-formed.  For any document, when the
    daemon's configuration loads: every token has one of the two roles and an
    expiry that is a time or none, every control socket passes its validator,
    every umbrella limit is a known resource with a valid value, the owner,
    group and mode of the REST socket are valid, and the body limit and the
    number of workers are in their ranges. *)
Theorem loaded_config_is_valid `{Yaml} (asUnsigned asU64 : Node -> option Z) (root : Node) (c : Config) :
  widths asUnsigned asU64 -> load asUnsigned asU64 root = inr c -> configOk c.
Proof.
  intros HW. unfold load. apply (steps_keeps configOk); [|apply default_ok]. apply Forall_app. split; [|apply Forall_app; split; [apply prefixes_ok|]].
  - repeat first [apply Forall_nil_2|apply Forall_cons_2; [first [plain|apply section_keeps]|]].
    + by apply listen_ok.
    + apply steps_keeps. repeat (apply Forall_cons_2; [plain|]). apply Forall_nil_2.
    + apply auth_ok.
    + apply steps_keeps. repeat (apply Forall_cons_2; [plain|]). apply Forall_nil_2.
    + apply steps_keeps. repeat (apply Forall_cons_2; [plain|]). apply Forall_nil_2.
    + apply sockets_ok.
    + apply steps_keeps, Forall_cons_2; [plain|]. apply prefixes_ok.
    + intros n d d' Hd E. unfold overrideWarning in E. apply result_bind_inr in E as (? & _ & [= <-]). done.
  - repeat first [apply Forall_nil_2|apply Forall_cons_2; [first [plain|apply section_keeps]|]].
    + apply steps_keeps. repeat (apply Forall_cons_2; [plain|]). apply Forall_nil_2.
    + apply umbrella_ok.
Qed.

(** ** Evaluation *)

(** Numbers of digits, for a library that fits the documentation. *)
Definition plainNumber (limit : Z) (n : Node) : option Z :=
  match n with
  | Scalar s => if negb (is_empty s) && forallb is_digit s && (dec_value s <? limit) then Some (dec_value s) else None
  | _ => None
  end.

Lemma plain_widths : widths (plainNumber (2 ^ 32)) (plainNumber (2 ^ 64)).
Proof.
  split; intros [| |?|?] v; cbn [plainNumber]; try done; destruct (_ && _) eqn:E; try done; intros [= <-];
    apply andb_prop in E as [E L]; apply andb_prop in E as [_ E]; pose proof (dec_value_bound s E); lia.
Qed.

Definition loadPlain : Node -> bytes + Config := load (H := plainYaml) (plainNumber (2 ^ 32)) (plainNumber (2 ^ 64)).

(** A map of scalar keys. *)
Definition doc (l : list (string * Node)) : Node := Map (map (fun kv => (Scalar (str (fst kv)), snd kv)) l).
Definition text (s : string) : Node := Scalar (str s).

Definition sampleDoc : Node := doc [
  ("listen", doc [("tcp_port", text "9443"); ("unix_mode", text "0o640"); ("max_body_mb", text "16")]);
  ("auth", doc [("tokens", Sequence [doc [("name", text "ci"); ("token_hash", text "sha256:00"); ("role", text "admin"); ("scope", text "/api/v1/*")]])]);
  ("control_sockets", Sequence [doc [("path", text "/var/run/crate/control/dev.sock"); ("group", text "dev"); ("mode", text "0660");
                                     ("pools", Sequence [text "dev"])]]);
  ("rctl_umbrella", doc [("memoryuse", text "4G")])]%string.

Lemma loaded_config_is_valid_witness : exists c, loadPlain sampleDoc = inr c /\ tcpPort c = 9443 /\ unixSocketMode c = 0x1a0
  /\ maxBodyBytes c = 2 ^ 24 /\ map Auth.role (tokens c) = [str "admin"] /\ map sp_mode (controlSockets c) = [0x1b0] /\ configOk c.
Proof.
  destruct (loadPlain sampleDoc) as [e|c] eqn:E; [exfalso; vm_compute in E; discriminate E|].
  exists c. assert (F : loadPlain sampleDoc = inr c) by exact E. vm_compute in E. injection E as E.
  split; [reflexivity|]. do 5 (split; [rewrite <- E; vm_compute; reflexivity|]).
  exact (loaded_config_is_valid (H := plainYaml) _ _ sampleDoc c plain_widths F).
Defined.

Example load_errors :
  loadPlain (doc [("auth", doc [("tokens", Sequence [doc [("name", text "ci"); ("token_hash", text "x"); ("role", text "Admin")]])])]%string)
    = inl (str "auth.tokens[ci].role must be 'admin' or 'viewer', got 'Admin'")
  /\ loadPlain (doc [("listen", doc [("http_workers", text "2")])]%string) = inl (str "listen.http_workers: expected 4..1024")
  /\ loadPlain (doc [("control_sockets", doc [])]%string) = inl (str "control_sockets must be a YAML sequence").
Proof. vm_compute. done. Qed.

Definition privopsMode (s : string) : option Z :=
  match loadPlain (doc [("privops_socket_mode", text s)]%string) with inr c => Some (privopsSocketMode c) | inl _ => None end.

Definition unixMode (s : string) : option Z :=
  match loadPlain (doc [("listen", doc [("unix_mode", text s)])]%string) with inr c => Some (unixSocketMode c) | inl _ => None end.

(** Two readers of modes.  That of the REST socket takes 0o660 and refuses
    0680; that of the privops and control sockets stops at the first byte that
    is no octal digit: 0o660 becomes 0, and the typo 0680 becomes 6, a socket that
    everybody may connect to and its owner and group may not. *)
Lemma mode_cut_short :
  unixMode "0o660" = Some 0x1b0 /\ unixMode "0680" = None
  /\ privopsMode "0660" = Some 0x1b0 /\ privopsMode "0o660" = Some 0 /\ privopsMode "0680" = Some 6.
Proof. vm_compute. done. Qed.

End DaemonConfig.
