(* ===== verification/Validate.v ===== *)
(** * The validate command: lib/validate_pure.cpp, validate.cpp

    The warnings about a spec that parses and passes [Spec::validate], the
    structural checks of --strict, and the command that prints both. *)

From S2P Require Import Prelude CStd OMap UtilPure Limits SpecParts Yaml Spec SpecSections SpecFacts RecordUpd Args.

Module Validate.
Import CStd Spec SpecFacts.

(** [if (c) w.push_back(m);] *)
Definition warn (c : bool) (m : bytes) : list bytes := if c then [m] else [].

(** [if (ptr) ...] *)
Definition onSome {A} (o : option A) (f : A -> list bytes) : list bytes := match o with Some a => f a | None => [] end.

(** ** [gatherWarnings], in the order of its statements *)

Definition netWarnings (s : Spec) : list bytes :=
  warn (optionExists s (str "net") && optionExists s (str "tor") && match optionNet s with Some o => outboundLan o | None => false end)
    (str "net/outbound includes LAN with tor enabled — traffic may bypass Tor")
  ++ (if optionExists s (str "net") then
        onSome (optionNet s) (fun o =>
          if ipv6 o then
            warn (negb (allowOutbound o)) (str "net/ipv6=true but no outbound traffic allowed — IPv6 will have no effect")
            ++ warn (optionExists s (str "tor")) (str "net/ipv6=true with tor — Tor does not support IPv6 outbound by default")
          else [])
      else []).

Definition dnsWarnings (s : Spec) : list bytes :=
  onSome (dnsFilter s) (fun d =>
    warn (is_empty (df_block d) && is_empty (df_allow d)) (str "dns_filter section present but no allow/block rules defined")
    ++ warn (negb (optionExists s (str "net"))) (str "dns_filter requires networking (option 'net') to be useful")).

Definition cpusetChar (c : ascii) : bool := is_digit c || Ascii.eqb c "," || Ascii.eqb c "-".

Definition securityWarnings (s : Spec) : list bytes :=
  warn (allowChflags s) (str "security/allow_chflags=true lets jail processes change file flags — reduces host protection")
  ++ warn (allowMlock s) (str "security/allow_mlock=true lets jail processes lock memory — may affect host performance")
  ++ warn ((0 <=? securelevel s) && (securelevel s <? 2))
       (str "security/securelevel=" ++ dec_signed (securelevel s) ++ str " is less restrictive than bastille's default (2)")
  ++ warn (0 <? childrenMax s)
       (str "security/children_max=" ++ dec_signed (childrenMax s) ++ str " allows nested jails — ensure this is intended")
  ++ onSome (List.find (fun c => negb (cpusetChar c)) (cpuset s)) (fun c => [str "security/cpuset contains invalid character '" ++ [c] ++ str "'"]).

Definition cowWarnings (s : Spec) : list bytes :=
  onSome (cowOptions s) (fun c =>
    warn (beq (cow_backend c) (str "zfs")) (str "cow/backend=zfs requires jail directory to be on a ZFS dataset")
    ++ warn (beq (cow_mode c) (str "persistent")) (str "cow/mode=persistent will accumulate clone datasets over time; clean up manually")).

Definition x11ModeIs (m : string) (s : Spec) : bool := match x11Options s with Some x => beq (x11_mode x) (str m) | None => false end.
Definition noX11Options (s : Spec) : bool := match x11Options s with Some _ => false | None => true end.

Definition x11Warnings (s : Spec) : list bytes :=
  match x11Options s with
  | Some x =>
      warn (beq (x11_mode x) (str "nested")) (str "x11/mode=nested requires Xephyr to be installed on the host")
      ++ warn (beq (x11_mode x) (str "shared"))
           (str "x11/mode=shared provides NO display isolation — jail processes can "
            ++ str "read host keystrokes and manipulate windows; prefer x11/mode=nested or "
            ++ str "gui/mode=headless for security-sensitive workloads")
  | None =>
      warn (optionExists s (str "x11"))
        (str "x11 option without an explicit x11/mode defaults to 'shared', which "
         ++ str "provides NO display isolation; set x11/mode=nested or gui/mode=headless "
         ++ str "for security-sensitive workloads")
  end.

Definition guiWarnings (s : Spec) : list bytes :=
  onSome (clipboardOptions s) (fun c =>
    warn (beq (clip_mode c) (str "isolated") && negb (x11ModeIs "nested" s))
      (str "clipboard/mode=isolated only provides full isolation with x11/mode=nested"))
  ++ onSome (guiOptions s) (fun g =>
       warn (negb (beq (gui_resolution g) (str "1280x720")) && (beq (gui_mode g) (str "wayland") || beq (gui_mode g) (str "auto")))
         (str "gui/resolution is ignored when gui/mode resolves to shared "
          ++ str "or wayland (the host compositor decides resolution via "
          ++ str "wl_output / X11 root window size); only honoured for "
          ++ str "mode=nested (Xephyr) and gui/mode=headless (Xvfb)")).

Definition serviceWarnings (s : Spec) : list bytes :=
  onSome (dbusOptions s) (fun d => warn (dbus_sessionBus d) (str "dbus/session=true requires dbus-daemon to be installed in the container"))
  ++ onSome (socketProxy s) (fun p =>
       warn (is_empty (sp_share p) && is_empty (sp_proxy p)) (str "socket_proxy section present but no share/proxy entries defined"))
  ++ onSome (firewallPolicy s) (fun f =>
       warn (negb (optionExists s (str "net"))) (str "firewall policy requires 'net' option to be enabled")
       ++ warn (beq (fw_defaultPolicy f) (str "block") && is_empty (fw_allowTcp f) && is_empty (fw_allowUdp f))
            (str "firewall default=block with no allow rules — all outbound traffic will be blocked"))
  ++ onSome (securityAdvanced s) (fun a =>
       warn (sa_capsicum a) (str "capsicum mode is very restrictive — only pre-opened file descriptors will be usable")
       ++ warn (negb (is_empty (sa_macRules a))) (str "mac_bsdextended rules require the mac_bsdextended kernel module to be loaded"))
  ++ onSome (terminalOptions s) (fun t =>
       warn (0 <=? tty_devfsRuleset t) (str "custom devfs_ruleset may affect device visibility inside the jail")).

Definition wholeShare (host : bytes) : bool := mem host [str "$HOME"; str "/"; str "/home"; str "/usr/home"].

(** The tmpfs is mounted over the share. *)
Definition hides (t : Tmpfs) (sh : Share) : bool :=
  Mounts.isUnder (sh_jail sh) (tm_path t) && negb (beq (sh_jail sh) (tm_path t)) && negb (Mounts.tmpfsMountedBeforeGui (tm_path t)).

Definition mountWarnings (s : Spec) : list bytes :=
  flat_map (fun sh => warn (negb (sh_readOnly sh) && wholeShare (sh_host sh))
    (str "dirs/share: '" ++ sh_host sh ++ str "' is shared read-write as a whole; consider ':ro' or a subdirectory")) (dirsShare s)
  ++ flat_map (fun t => flat_map (fun sh => warn (hides t sh)
       (str "tmpfs at '" ++ tm_path t ++ str "' is mounted after the share at '" ++ sh_jail sh ++ str "' and hides it")) (dirsShare s)) (tmpfs s)
  ++ warn (negb (is_empty (etcKeep s)) && negb (baseHostRo s))
       (str "etc/keep copies host /etc entries at create time; the jail's /etc is a full copy from base.txz here, so only the named entries are replaced").

Definition underHome (sh : Share) : bool := starts_with (str "$HOME") (sh_host sh) || starts_with (str "$HOME") (sh_jail sh).

Definition runUserWarnings (s : Spec) : list bytes :=
  if beq (runUser s) (str "root") then
    [str "run/user: root — the command runs as root inside the jail; drop it unless the program needs it (the default is the operator's own account)"]
  else if is_empty (runUser s) then []
  else
    warn (existsb underHome (dirsShare s) || existsb underHome (filesShare s))
      (str "run/user: " ++ runUser s ++ str " — shares under $HOME belong to the operator's uid; '" ++ runUser s
       ++ str "' can read but not write them unless the host directories allow it")
    ++ warn (negb (noX11Options s) || match guiOptions s with Some _ => true | None => false end || optionExists s (str "x11"))
         (str "run/user: " ++ runUser s ++ str " — the X11 authority is copied for the operator's account; a GUI program running as '"
          ++ runUser s ++ str "' may not reach the display").

Definition runWarnings (s : Spec) : list bytes :=
  warn ((optionExists s (str "tor") || optionExists s (str "i2pd")) && is_empty (privacyHostid s))
    (str "options: tor/i2pd without privacy/hostid — the jail carries the host's kern.hostuuid/kern.hostid; add `privacy: {hostid: random, hostname: random}` so programs inside cannot identify the machine")
  ++ (if 0 <? runTimeoutSec s then
        warn (is_empty (runCmdExecutable s))
          (str "run/timeout: " ++ dec_signed (runTimeoutSec s) ++ str "s on a service-only crate — the container itself is stopped after that long (the services get `service stop`), which is rarely what a daemon wants")
        ++ onSome (healthcheck s) (fun h => warn (runTimeoutSec s <=? hc_startPeriodSec h)
             (str "run/timeout: " ++ dec_signed (runTimeoutSec s) ++ str "s is not longer than healthcheck/start_period; the command would be killed before the first probe"))
      else []).

Definition gatherWarnings (s : Spec) : list bytes :=
  warn (allowSysvipc s) (str "ipc/sysvipc=true reduces isolation; only enable if the application requires System V shared memory")
  ++ warn (baseHostRo s && negb (is_empty (baseRemove s)))
       (str "base/mode=host-ro — base/remove has no effect: the host userland is mounted read-only and never trimmed")
  ++ netWarnings s
  ++ warn (negb (is_empty (limits s)) && negb (OMap.count (str "maxproc") (limits s)))
       (str "limits section present but maxproc not set — consider setting a process limit")
  ++ warn (encrypted s) (str "encrypted=true requires ZFS dataset with encryption enabled on the jail directory")
  ++ dnsWarnings s ++ securityWarnings s ++ cowWarnings s ++ x11Warnings s ++ guiWarnings s ++ serviceWarnings s
  ++ Devices.warnings (devices s) ++ mountWarnings s ++ runUserWarnings s ++ runWarnings s.

(** ** [gatherStrictErrors] *)

Definition fmtRange (a b : Z) : bytes := if a =? b then dec a else dec a ++ str "-" ++ dec b.

Definition rangesOverlap (a1 a2 b1 b2 : Z) : bool := negb ((a2 <? b1) || (b2 <? a1)).

Definition overlap (r q : PortRange) : bool := rangesOverlap (fst r) (snd r) (fst q) (snd q).

(** The inner loop: rule [i] against the rules from [j] on. *)
Fixpoint conflictsWith (proto : string) (i : nat) (r : PortRange) (j : nat) (rules : list (PortRange * PortRange)) : list bytes :=
  match rules with
  | [] => []
  | (q, _) :: rest =>
      warn (overlap r q)
        (str "net/inbound/" ++ str proto ++ str ": host port " ++ fmtRange (fst r) (snd r) ++ str " conflicts with " ++ fmtRange (fst q) (snd q)
         ++ str " (rules " ++ dec (Z.of_nat i + 1) ++ str " and " ++ dec (Z.of_nat j + 1) ++ str ")")
      ++ conflictsWith proto i r (S j) rest
  end.

Fixpoint conflictsFrom (proto : string) (i : nat) (rules : list (PortRange * PortRange)) : list bytes :=
  match rules with
  | [] => []
  | (r, _) :: rest => conflictsWith proto i r (S i) rest ++ conflictsFrom proto (S i) rest
  end.

Definition checkInboundPortConflicts (proto : string) (rules : list (PortRange * PortRange)) : list bytes := conflictsFrom proto 0 rules.

Definition portErrors (s : Spec) : list bytes :=
  if optionExists s (str "net") then
    onSome (optionNet s) (fun o => checkInboundPortConflicts "tcp" (inboundPortsTcp o) ++ checkInboundPortConflicts "udp" (inboundPortsUdp o))
  else [].

(** The lambda [check]: [dst2src] and the errors so far. *)
Definition checkDest (kind : string) (acc : StrMap bytes * list bytes) (sh : Share) : StrMap bytes * list bytes :=
  let '(dst2src, e) := acc in
  let mapped := (OMap.insert (sh_jail sh) (sh_host sh) dst2src, e) in
  match OMap.find (sh_jail sh) dst2src with
  | None => mapped
  | Some src =>
      if beq src (sh_host sh) then mapped
      else (dst2src, e ++ [str kind ++ str " destination '" ++ sh_jail sh ++ str "' is mapped from two different host sources: '"
                           ++ src ++ str "' and '" ++ sh_host sh ++ str "'"])
  end.

Definition destErrors (s : Spec) : list bytes :=
  snd (fold_left (checkDest "share/file") (filesShare s) (fold_left (checkDest "share/dir") (dirsShare s) ([], []))).

Definition emptyErrors (kind : string) (l : list Share) : list bytes :=
  flat_map (fun sh => warn (is_empty (sh_host sh) || is_empty (sh_jail sh))
    (str kind ++ str ": empty source or destination (" ++ str "host='" ++ sh_host sh ++ str "', jail='" ++ sh_jail sh ++ str "')")) l.

Definition x11Errors (s : Spec) : list bytes :=
  if x11ModeIs "shared" s then
    [str "x11/mode=shared is rejected in --strict mode "
     ++ str "(no display isolation; switch to x11/mode=nested or gui/mode=headless, "
     ++ str "or drop --strict if intentional)"]
  else warn (noX11Options s && optionExists s (str "x11"))
         (str "x11 option without explicit x11/mode is rejected in --strict mode "
          ++ str "(implicit default is 'shared', which has no display isolation)").

Definition limitErrors (s : Spec) : list bytes :=
  warn (is_empty (limits s) || (negb (OMap.count (str "memoryuse") (limits s)) && negb (OMap.count (str "maxproc") (limits s))))
    (str "limits: --strict requires at least 'memoryuse' or 'maxproc' "
     ++ str "to bound the jail; runaway processes can otherwise OOM-kill the host").

Definition gatherStrictErrors (s : Spec) : list bytes :=
  portErrors s ++ destErrors s ++ emptyErrors "share/dir" (dirsShare s) ++ emptyErrors "share/file" (filesShare s)
  ++ x11Errors s ++ limitErrors s.

(** ** [validateCrateSpec] *)

Inductive Color := Red | Yellow | Green.
Inductive Stream := Cerr | Cout.

(** A line printed, in its colour. *)
Record Line := { stream : Stream; color : Color; text : bytes }.

Definition cerr (c : Color) (t : bytes) : Line := {| stream := Cerr; color := c; text := t |}.

Definition plural (n : Z) : bytes := if n =? 1 then [] else str "s".

(** What the command prints and returns for a spec that parsed and validated. *)
Definition report (file : bytes) (strict : bool) (s : Spec) : list Line * bool :=
  let warnings := gatherWarnings s in
  let strictErrors := if strict then gatherStrictErrors s else [] in
  let printed :=
    map (fun m => cerr (if strict then Red else Yellow) (str (if strict then "ERROR (strict)" else "WARNING") ++ str ": " ++ m)) warnings
    ++ map (fun m => cerr Red (str "ERROR (strict): " ++ m)) strictErrors in
  if strict && (negb (is_empty warnings) || negb (is_empty strictErrors)) then
    (printed ++ [cerr Red (str "Spec '" ++ file ++ str "' failed --strict validation: "
       ++ dec (size_z warnings) ++ str " warning" ++ plural (size_z warnings) ++ str ", "
       ++ dec (size_z strictErrors) ++ str " structural error" ++ plural (size_z strictErrors))], false)
  else
    (printed ++ [{| stream := Cout; color := Green; text := str "Spec '" ++ file ++ str "' is valid"
       ++ (if is_empty warnings then []
           else str " (" ++ dec (size_z warnings) ++ str " warning" ++ (if 1 <? size_z warnings then str "s" else []) ++ str ")")
       ++ (if strict then str " [--strict]" else []) |}], true).

Section Command.
Context `{Yaml} (load : bytes -> bytes + Node) (readFile : bytes -> option bytes).
Context (pw : option UtilPure.PwEnt) (cfg : Settings) (allScriptSections : list bytes).

Definition validateCrateSpec (a : Args.Args) : bytes + (list Line * bool) :=
  let file := Args.validateSpec a in
  _ ← errIf (is_empty file) (str "spec file required");
  spec ← SpecSections.parseSpec load (readFile file);
  _ ← validate pw cfg allScriptSections spec;
  inr (report file (Args.validateStrict a) spec).

End Command.

(** ** What the strict checks mean *)

Definition covers (r : PortRange) (p : Z) : Prop := fst r <= p <= snd r.

(** No host port belongs to two rules. *)
Definition distinctPorts (rules : list (PortRange * PortRange)) : Prop :=
  forall i j a b p, rules !! i = Some a -> rules !! j = Some b -> covers (fst a) p -> covers (fst b) p -> i = j.

(** Shares with one destination have one source. *)
Definition oneSource (l : list Share) : Prop := forall a b, In a l -> In b l -> sh_jail a = sh_jail b -> sh_host a = sh_host b.

(** The display is not the host's, neither by name nor by default. *)
Definition ownDisplay (s : Spec) : Prop :=
  match x11Options s with Some x => x11_mode x <> str "shared" | None => optionExists s (str "x11") = false end.

Definition StrictClean (s : Spec) : Prop :=
  (forall o, optionNet s = Some o -> distinctPorts (inboundPortsTcp o) /\ distinctPorts (inboundPortsUdp o))
  /\ oneSource (dirsShare s ++ filesShare s)
  /\ (forall sh, In sh (dirsShare s ++ filesShare s) -> sh_host sh <> [] /\ sh_jail sh <> [])
  /\ ownDisplay s
  /\ (OMap.count (str "memoryuse") (limits s) = true \/ OMap.count (str "maxproc") (limits s) = true).

Lemma warn_nil c m : warn c m = [] <-> c = false.
Proof. destruct c; cbn; split; done. Qed.

Lemma flat_map_nil {A B} (f : A -> list B) l : flat_map f l = [] <-> forall x, In x l -> f x = [].
Proof.
  induction l as [|a l IH]; cbn; [split; done|]. rewrite app_nil, IH. split; [intros [? ?] x [<-|?]; auto|]. intros Hf. split; auto.
Qed.

Lemma overlap_false r q : overlap r q = false -> forall p, covers r p -> covers q p -> False.
Proof. unfold overlap, rangesOverlap, covers. lia. Qed.

Lemma overlap_true r q : fst r <= snd r -> fst q <= snd q -> overlap r q = true -> exists p, covers r p /\ covers q p.
Proof. unfold overlap, rangesOverlap, covers. intros Hr Hq E. exists (Z.max (fst r) (fst q)). lia. Qed.

Lemma conflictsWith_nil proto i r j rules : conflictsWith proto i r j rules = [] <-> Forall (fun q => overlap r (fst q) = false) rules.
Proof.
  revert j. induction rules as [|[q t] rules IH]; intros j; cbn [conflictsWith]; [split; [constructor|done]|].
  rewrite app_nil, warn_nil, IH, Forall_cons. done.
Qed.

Lemma conflictsFrom_nil proto i rules :
  conflictsFrom proto i rules = [] <-> ForallOrdPairs (fun a b => overlap (fst a) (fst b) = false) rules.
Proof.
  revert i. induction rules as [|[r t] rules IH]; intros i; cbn [conflictsFrom]; [split; [constructor|done]|].
  rewrite app_nil, conflictsWith_nil, IH. split; [intros [? ?]; by constructor|by inversion_clear 1].
Qed.

Lemma distinctPorts_cons r rules : distinctPorts (r :: rules) <->
  Forall (fun q => forall p, covers (fst r) p -> covers (fst q) p -> False) rules /\ distinctPorts rules.
Proof.
  split.
  - intros D. split.
    + apply Forall_lookup. intros j q Hj p Hr Hq. by specialize (D 0%nat (S j) r q p eq_refl Hj Hr Hq).
    + intros i j a b p Ha Hb Ca Cb. specialize (D (S i) (S j) a b p Ha Hb Ca Cb). lia.
  - intros [F D] [|i] [|j] a b p Ha Hb Ca Cb; cbn in Ha, Hb; [done| | |f_equal; by eapply D].
    + injection Ha as <-. exfalso. rewrite Forall_lookup in F. by eapply F.
    + injection Hb as <-. exfalso. rewrite Forall_lookup in F. by eapply F.
Qed.

Lemma conflicts_sound proto i rules : conflictsFrom proto i rules = [] -> distinctPorts rules.
Proof.
  rewrite conflictsFrom_nil. induction 1 as [|r rules Hr _ IH]; [by intros [] ? ? ? ?|]. apply distinctPorts_cons. split; [|done].
  eapply Forall_impl; [exact Hr|]. intros q E. by apply overlap_false.
Qed.

Lemma conflicts_complete proto i rules : Forall orderedRule rules -> distinctPorts rules -> conflictsFrom proto i rules = [].
Proof.
  rewrite conflictsFrom_nil. induction 1 as [|r rules Hr Hrs IH]; [constructor|]. rewrite distinctPorts_cons. intros [F D].
  constructor; [|by apply IH]. rewrite Forall_forall in F, Hrs |- *. intros q Hq. destruct (overlap (fst r) (fst q)) eqn:E; [|done].
  apply overlap_true in E as (p & C1 & C2); [by destruct (F q Hq p C1 C2)|apply Hr|apply (Hrs q Hq)].
Qed.

(** What the fold of [check] knows after the shares [done]. *)
Definition Mapped (l : list Share) (acc : StrMap bytes * list bytes) : Prop :=
  OMap.wf (fst acc) /\ (snd acc = [] <-> oneSource l)
  /\ (forall a, In a l -> OMap.find (sh_jail a) (fst acc) <> None)
  /\ (forall j h, OMap.find j (fst acc) = Some h -> exists a, In a l /\ sh_jail a = j /\ sh_host a = h).

Lemma oneSource_snoc l a : oneSource (l ++ [a]) <-> oneSource l /\ (forall b, In b l -> sh_jail b = sh_jail a -> sh_host b = sh_host a).
Proof.
  unfold oneSource. setoid_rewrite in_app_iff. cbn. split.
  - intros O. split; [intros; by apply O; auto|]. intros b Hb E. by apply O; auto.
  - intros [O N] x y [Hx|[<-|[]]] [Hy|[<-|[]]] E; auto. symmetry. auto.
Qed.

Lemma checkDest_mapped kind l acc a : Mapped l acc -> Mapped (l ++ [a]) (checkDest kind acc a).
Proof.
  destruct acc as [m e]. intros (W & E & T & F). unfold Mapped. cbn [fst snd] in *.
  assert (Keep : (forall b, In b l -> sh_jail b = sh_jail a -> oneSource l -> sh_host b = sh_host a) ->
    Mapped (l ++ [a]) (OMap.insert (sh_jail a) (sh_host a) m, e)).
  { intros K. split; [by apply OMap.wf_insert|]. split; [|split]; cbn [fst snd].
    - rewrite E, oneSource_snoc. split; [|tauto]. intros O. split; auto.
    - intros b Hb. rewrite OMap.find_insert by done. case_decide; [done|]. apply in_app_iff in Hb as [Hb|[<-|[]]]; auto.
    - intros j h. rewrite OMap.find_insert by done. case_decide as Ej; [intros [= <-]; exists a|intros Hj; apply F in Hj as (b & Hb & Eb); exists b];
        rewrite in_app_iff; cbn; auto. }
  cbn [checkDest]. destruct (OMap.find (sh_jail a) m) as [src|] eqn:Ef; [|apply Keep; intros b Hb Ej _; exfalso; rewrite <- Ej in Ef; by eapply T].
  destruct (F _ _ Ef) as (b0 & Hb0 & Ej0 & Eh0). destruct (beq_spec src (sh_host a)) as [->|N].
  - apply Keep. intros b Hb Ej O. rewrite <- Eh0. apply O; [done|done|congruence].
  - cbn [fst snd]. split; [done|]. split; [|split].
    + split; [by intros [_ ?]%app_nil|]. rewrite oneSource_snoc. intros [_ O]. specialize (O b0 Hb0 Ej0). congruence.
    + intros b [Hb|[<-|[]]]%in_app_iff; [auto|by rewrite Ef].
    + intros j h Hj. apply F in Hj as (b & Hb & Eb). exists b. rewrite in_app_iff. auto.
Qed.

Lemma fold_mapped kind l2 l acc : Mapped l acc -> Mapped (l ++ l2) (fold_left (checkDest kind) l2 acc).
Proof.
  revert l acc. induction l2 as [|a l2 IH]; intros l acc M; cbn [fold_left]; [by rewrite app_nil_r|].
  rewrite cons_middle, app_assoc. apply IH. by apply checkDest_mapped.
Qed.

Lemma destErrors_nil s : destErrors s = [] <-> oneSource (dirsShare s ++ filesShare s).
Proof.
  unfold destErrors. assert (M : Mapped [] ([], [])) by (split; [apply OMap.wf_nil|]; cbn; repeat split; try done; by intros ? ? []).
  apply (fold_mapped "share/dir" (dirsShare s)), (fold_mapped "share/file" (filesShare s)) in M. apply M.
Qed.

Lemma emptyErrors_nil kind l : emptyErrors kind l = [] <-> forall sh, In sh l -> sh_host sh <> [] /\ sh_jail sh <> [].
Proof.
  unfold emptyErrors. rewrite flat_map_nil. setoid_rewrite warn_nil. setoid_rewrite orb_false_iff. split; intros Hl sh Hi; specialize (Hl sh Hi);
    destruct (sh_host sh), (sh_jail sh); cbn in *; intuition done.
Qed.

Lemma x11Errors_nil s : x11Errors s = [] <-> ownDisplay s.
Proof.
  unfold x11Errors, ownDisplay, x11ModeIs, noX11Options. destruct (x11Options s) as [x|].
  - destruct (beq_spec (x11_mode x) (str "shared")); split; done.
  - rewrite warn_nil. done.
Qed.

Lemma limitErrors_nil s : limitErrors s = [] <-> OMap.count (str "memoryuse") (limits s) = true \/ OMap.count (str "maxproc") (limits s) = true.
Proof.
  unfold limitErrors. rewrite warn_nil. destruct (limits s) as [|kv l]; [cbn; split; [done|by intros [?|?]]|].
  cbn [is_empty orb]. destruct (OMap.count (str "memoryuse") _), (OMap.count (str "maxproc") _); cbn; intuition done.
Qed.

Lemma optionNet_exists s o : optionNet s = Some o -> optionExists s (str "net") = true.
Proof.
  unfold optionNet, getOptionDetails, optionExists, OMap.count. by destruct (OMap.find (str "net") (options s)).
Qed.

Lemma portErrors_nil s : (forall o, optionNet s = Some o -> Forall orderedRule (inboundPortsTcp o) /\ Forall orderedRule (inboundPortsUdp o)) ->
  portErrors s = [] <-> forall o, optionNet s = Some o -> distinctPorts (inboundPortsTcp o) /\ distinctPorts (inboundPortsUdp o).
Proof.
  intros Ho. unfold portErrors. destruct (optionNet s) as [o|] eqn:E; [|split; [done|by destruct (optionExists s _)]].
  rewrite (optionNet_exists s o E). cbn [onSome]. rewrite app_nil. destruct (Ho o eq_refl) as [Ot Ou]. split.
  - intros [Et Eu] o' [= <-]. split; by eapply conflicts_sound.
  - intros D. destruct (D o eq_refl). split; by apply conflicts_complete.
Qed.

Lemma forall_in_app {A} (P : A -> Prop) l1 l2 : (forall a, In a (l1 ++ l2) -> P a) <-> (forall a, In a l1 -> P a) /\ (forall a, In a l2 -> P a).
Proof. setoid_rewrite in_app_iff. split; [auto|]. intros [? ?] a [?|?]; auto. Qed.

Lemma gatherStrictErrors_nil s : Parsed s -> gatherStrictErrors s = [] <-> StrictClean s.
Proof.
  intros P. unfold gatherStrictErrors, StrictClean. rewrite !app_nil, destErrors_nil, !emptyErrors_nil, x11Errors_nil, limitErrors_nil.
  rewrite portErrors_nil by (intros o Eo; apply (p_net s P) in Eo; unfold goodNet in Eo; tauto).
  rewrite (forall_in_app (fun sh => sh_host sh <> [] /\ sh_jail sh <> [])). tauto.
Qed.

(** C13: On a spec that came from the parser, the structural checks of
    [crate validate --strict] find nothing exactly when, for each protocol, no
    host port belongs to two inbound rules; no path in the jail is the
    destination of shares with different sources, directories and files
    together; no share lacks a source or a destination; the display is not the
    host's, by name or by default; and memory or processes are bounded. *)
Theorem strict_errors_exact `{Yaml} (top : Node) (s : Spec) :
  SpecSections.parseSpecFromNode top = inr s -> gatherStrictErrors s = [] <-> StrictClean s.
Proof. intros P%parseSpecFromNode_parsed. by apply gatherStrictErrors_nil. Qed.

(** ** What a spec that passes --strict promises *)

(** The grants that only a warning guards. *)
Definition Contained (s : Spec) : Prop :=
  OMap.count (str "maxproc") (limits s) = true
  /\ allowSysvipc s = false /\ allowChflags s = false /\ allowMlock s = false
  /\ (securelevel s = -1 \/ 2 <= securelevel s) /\ childrenMax s <= 0
  /\ (Devices.all (devices s) = false /\ Devices.input (devices s) = false /\ Devices.usb (devices s) = false /\ Devices.serial (devices s) = false)
  /\ (forall sh, In sh (dirsShare s) -> sh_readOnly sh = false -> ~ In (sh_host sh) [str "$HOME"; str "/"; str "/home"; str "/usr/home"])
  /\ (forall t sh, In t (tmpfs s) -> In sh (dirsShare s) -> Mounts.isUnder (sh_jail sh) (tm_path t) = true ->
        Mounts.tmpfsMountedBeforeGui (tm_path t) = true \/ sh_jail sh = tm_path t)
  /\ (forall o, optionNet s = Some o -> optionExists s (str "tor") = true -> outboundLan o = false)
  /\ (optionExists s (str "tor") = true -> privacyHostid s <> [])
  /\ runUser s <> str "root".

Lemma mountWarnings_nil s : mountWarnings s = [] ->
  (forall sh, In sh (dirsShare s) -> sh_readOnly sh = false -> ~ In (sh_host sh) [str "$HOME"; str "/"; str "/home"; str "/usr/home"])
  /\ (forall t sh, In t (tmpfs s) -> In sh (dirsShare s) -> Mounts.isUnder (sh_jail sh) (tm_path t) = true ->
        Mounts.tmpfsMountedBeforeGui (tm_path t) = true \/ sh_jail sh = tm_path t).
Proof.
  unfold mountWarnings. rewrite !app_nil, !flat_map_nil. intros (W & T & _). split.
  - intros sh Hs Er Hi. specialize (W sh Hs). apply warn_nil in W. rewrite Er in W. cbn [negb andb] in W. apply spec_mem_In in Hi.
    unfold wholeShare in W. congruence.
  - intros t sh Ht Hs U. specialize (T t Ht). rewrite flat_map_nil in T. specialize (T sh Hs). apply warn_nil in T. unfold hides in T.
    rewrite U in T. destruct (beq_spec (sh_jail sh) (tm_path t)); [by right|]. left. by destruct (Mounts.tmpfsMountedBeforeGui _).
Qed.

Lemma deviceWarnings_nil d : Devices.warnings d = [] ->
  Devices.all d = false /\ Devices.input d = false /\ Devices.usb d = false /\ Devices.serial d = false.
Proof. unfold Devices.warnings. by destruct (Devices.all d), (Devices.input d), (Devices.usb d), (Devices.serial d). Qed.

Lemma securityWarnings_nil s : -1 <= securelevel s -> securityWarnings s = [] ->
  allowChflags s = false /\ allowMlock s = false /\ (securelevel s = -1 \/ 2 <= securelevel s) /\ childrenMax s <= 0.
Proof. intros P. unfold securityWarnings. rewrite !app_nil, !warn_nil. intros (? & ? & ? & ? & _). repeat split; lia || done. Qed.

Lemma netWarnings_nil s o : netWarnings s = [] -> optionNet s = Some o -> optionExists s (str "tor") = true -> outboundLan o = false.
Proof.
  unfold netWarnings. rewrite app_nil, warn_nil. intros [W _] E T. by rewrite (optionNet_exists s o E), T, E in W.
Qed.

Lemma limits_bounded s : gatherWarnings s = [] -> limitErrors s = [] -> OMap.count (str "maxproc") (limits s) = true.
Proof.
  unfold gatherWarnings. rewrite !app_nil, !warn_nil, limitErrors_nil. intros (_ & _ & _ & W & _) L.
  destruct (limits s); [by destruct L|]. cbn [is_empty negb andb] in W. by apply negb_false_iff.
Qed.

Lemma no_warnings_contained s : Parsed s -> gatherWarnings s = [] -> limitErrors s = [] -> Contained s.
Proof.
  intros P W L. pose proof (limits_bounded s W L) as Hm. unfold gatherWarnings in W. rewrite !app_nil, !warn_nil in W.
  destruct W as (Hs & _ & Hn & _ & _ & _ & Sec & _ & _ & _ & _ & Dev & Mnt & Usr & Run).
  apply securityWarnings_nil in Sec as (? & ? & ? & ?); [|apply (p_securelevel s P)]. apply mountWarnings_nil in Mnt as [? ?].
  apply deviceWarnings_nil in Dev. unfold Contained. repeat (split; [by try eapply netWarnings_nil; eauto|]). split; [|split].
  - intros o. by apply netWarnings_nil.
  - intros T. unfold runWarnings in Run. rewrite app_nil, warn_nil, T in Run. destruct Run as [Run _]. by destruct (privacyHostid s).
  - intros E. unfold runUserWarnings in Usr. by rewrite E in Usr.
Qed.

Lemma report_true file strict s out : report file strict s = (out, true) ->
  strict = false \/ (gatherWarnings s = [] /\ gatherStrictErrors s = []).
Proof.
  unfold report. destruct strict; [|by left]. right. destruct (gatherWarnings s), (gatherStrictErrors s); cbn [is_empty negb andb orb] in *; try done.
Qed.

(** C12: When [crate validate --strict] accepts a file, the spec in it parses,
    passes [Spec::validate] and all the structural checks, and it grants none
    of what only a warning guards: processes are limited; no System V IPC, no
    file flags, no locked memory, no nested jails, no securelevel set below 2, no
    input, USB or serial devices; none of $HOME, /, /home and /usr/home, written
    just so, shared writable (/home/ or /home/ann is not found); no share below
    a tmpfs that is mounted after the shares; no outbound traffic to the local network beside Tor (the host and DNS
    may be allowed), and a privacy setting for the host id when there is Tor; the run user is not
    root.  And the command prints one line, the verdict. *)
Theorem strict_acceptance `{Yaml} (load : bytes -> bytes + Node) (readFile : bytes -> option bytes) (pw : option UtilPure.PwEnt)
    (cfg : Settings) (secs : list bytes) (a : Args.Args) (out : list Line) :
  Args.validateStrict a = true -> validateCrateSpec load readFile pw cfg secs a = inr (out, true) ->
  exists s, SpecSections.parseSpec load (readFile (Args.validateSpec a)) = inr s /\ validate pw cfg secs s = inr tt
    /\ StrictClean s /\ Contained s
    /\ out = [{| stream := Cout; color := Green; text := str "Spec '" ++ Args.validateSpec a ++ str "' is valid [--strict]" |}].
Proof.
  intros St E. unfold validateCrateSpec in E. apply result_bind_inr in E as (? & _ & E). apply result_bind_inr in E as (s & Ep & E).
  apply result_bind_inr in E as ([] & Ev & E). injection E as E. rewrite St in E. pose proof (report_true _ _ _ _ E) as [?|[W R]]; [done|].
  exists s. split; [done|]. split; [done|]. assert (P : Parsed s).
  { unfold SpecSections.parseSpec in Ep. destruct (readFile _); [|done]. apply result_bind_inr in Ep as (top & _ & Ep).
    by eapply parseSpecFromNode_parsed. }
  assert (limitErrors s = []) by (unfold gatherStrictErrors in R; rewrite !app_nil in R; tauto).
  split; [by apply gatherStrictErrors_nil|]. split; [by apply no_warnings_contained|].
  unfold report in E. rewrite W, R in E. by injection E as <-.
Qed.

(** What is reported without --strict never makes the command fail. *)
Theorem warnings_only_warn `{Yaml} (load : bytes -> bytes + Node) (readFile : bytes -> option bytes) (pw : option UtilPure.PwEnt)
    (cfg : Settings) (secs : list bytes) (a : Args.Args) (out : list Line) (ok : bool) :
  Args.validateStrict a = false -> validateCrateSpec load readFile pw cfg secs a = inr (out, ok) -> ok = true.
Proof.
  intros St E. unfold validateCrateSpec in E. repeat (apply result_bind_inr in E as (? & _ & E)). injection E as E.
  rewrite St in E. unfold report in E. by injection E.
Qed.

(** ** Advice of the checks that the checks do not follow *)

Lemma warned_rejected file s : gatherWarnings s <> [] -> snd (report file true s) = false.
Proof. unfold report. by destruct (gatherWarnings s). Qed.

(** The structural check asks for a bound on memory or on processes, but a
    bound on memory alone draws a warning, and warnings are fatal too. *)
Theorem memory_bound_not_enough (file : bytes) (s : Spec) :
  OMap.count (str "maxproc") (limits s) = false -> snd (report file true s) = false.
Proof.
  intros M. destruct (report file true s) as [out [|]] eqn:E; [|done]. apply report_true in E as [?|[W R]]; [done|].
  unfold gatherStrictErrors in R. rewrite !app_nil in R. rewrite (limits_bounded s W) in M by tauto. done.
Qed.

(** The error about a shared display says to switch to a nested one, which is
    rejected as well. *)
Theorem nested_display_rejected (file : bytes) (s : Spec) : x11ModeIs "nested" s = true -> snd (report file true s) = false.
Proof.
  intros X. apply warned_rejected. intros W. unfold gatherWarnings in W. rewrite !app_nil in W.
  destruct W as (_ & _ & _ & _ & _ & _ & _ & _ & W & _). unfold x11Warnings, x11ModeIs in *. destruct (x11Options s); [|done].
  rewrite app_nil, warn_nil in W. destruct W. congruence.
Qed.

(** No encrypted container passes --strict, wherever it is stored. *)
Theorem encrypted_rejected (file : bytes) (s : Spec) : encrypted s = true -> snd (report file true s) = false.
Proof.
  intros X. apply warned_rejected. intros W. unfold gatherWarnings in W. rewrite !app_nil, !warn_nil in W.
  destruct W as (_ & _ & _ & _ & W & _). congruence.
Qed.

(** ** Witnesses *)

(** A service with two inbound rules and two shares. *)
Definition cleanDoc : Node :=
  let S x := Scalar (str x) in
  Map [(S "run", Map [(S "command", S "/usr/local/bin/nginx"); (S "user", S "www")]);
       (S "dirs", Map [(S "share", Sequence [Sequence [S "/data"; S "/srv/data"]; S "/var/cache:ro"])]);
       (S "options", Map [(S "net", Map [(S "inbound-tcp", Map [(S "80-81", S "8080-8081"); (S "443", S "8443")])])]);
       (S "limits", Map [(S "memoryuse", S "1G"); (S "maxproc", S "100")])]%string.

(** The same with ranges that share a port. *)
Definition clashingDoc : Node :=
  let S x := Scalar (str x) in
  Map [(S "options", Map [(S "net", Map [(S "inbound-tcp", Map [(S "80-90", S "8080-8090"); (S "90", S "9000")])])]);
       (S "limits", Map [(S "maxproc", S "100")])]%string.

Definition specOf (doc : Node) : Spec := match SpecSections.parseSpecFromNode (H := plainYaml) doc with inr s => s | inl _ => blankSpec end.

Lemma strict_errors_exact_witness : StrictClean (specOf cleanDoc) /\ ~ StrictClean (specOf clashingDoc).
Proof.
  split.
  - apply (@strict_errors_exact plainYaml cleanDoc); vm_compute; reflexivity.
  - intros C. apply (@strict_errors_exact plainYaml clashingDoc) in C; [|vm_compute; reflexivity]. vm_compute in C. discriminate C.
Defined.

#[local] Existing Instance Args.etaArgs.

Definition strictArgs : Args.Args := (Args.fresh Args.CmdValidate) <| Args.validateSpec := str "web.yml" |> <| Args.validateStrict := true |>.

Lemma strict_acceptance_witness : exists s, specOf cleanDoc = s /\ StrictClean s /\ Contained s.
Proof.
  destruct (@strict_acceptance plainYaml (fun _ => inr cleanDoc) (fun _ => Some []) None sampleCfg [] strictArgs
    [{| stream := Cout; color := Green; text := str "Spec 'web.yml' is valid [--strict]" |}]) as (s & Ep & _ & C & G & _);
    [reflexivity|vm_compute; reflexivity|].
  exists s. split; [|split; [exact C|exact G]]. unfold specOf. change (SpecSections.parseSpecFromNode (H := plainYaml) cleanDoc = inr s) in Ep. by rewrite Ep.
Defined.

(** Two sources for one directory pass when the destinations are written
    differently. *)
Example trailing_slash_unnoticed :
  destErrors (blankSpec <| dirsShare := [{| sh_jail := str "/data"; sh_host := str "/srv/a"; sh_readOnly := false |};
                                         {| sh_jail := str "/data/"; sh_host := str "/srv/b"; sh_readOnly := false |}] |>) = [].
Proof. reflexivity. Qed.

End Validate.
